(* ===== verification/_CoqProject ===== *)
-Q . S2P
Prelude.v
Paths.v
Protocol.v
RuntimeMessages.v
RuntimeMachine.v
RuntimeSession.v
Registry.v
UrlPolicy.v
BomReader.v
Json.v
LspRewrite.v
LspRewriteProps.v
LspProxy.v
GitStatus.v
AgentFs.v
AgentWrite.v
AgentWriteProps.v
AgentUploads.v
AgentReads.v
AgentReadsProps.v
AgentSession.v
AgentClient.v
AgentClientProps.v
Install.v
RemoteQueue.v
RemoteQueueProps.v
Scheduler.v
MirrorDb.v
MirrorLogic.v
SearchIndex.v
SearchIndexProps.v
Mirror.v
MirrorProps.v
MirrorTotal.v
MirrorAtomic.v
MirrorConflicts.v
SaveReplay.v
Hydrate.v
HydrateProps.v
MirrorHistory.v
SaveReplayProps.v
SaveDrain.v
SaveAgent.v
HydrateAgent.v
HydrateServed.v
FetchHost.v
FetchHttp.v
FetchCache.v
Fetch.v
FetchProps.v
FetchRequests.v
FetchVerified.v
FetchEviction.v
FetchExamples.v
RemoteHost.v
RemoteCommands.v
RemoteHostProps.v
RemoteCommandsProps.v
RuntimeRecords.v
RuntimeControl.v
RuntimeTickets.v
RuntimeTrust.v
RuntimeRecordsProps.v
RuntimeHistory.v
RuntimeHistoryProps.v
RuntimeServe.v
RuntimeTermination.v
RuntimeLimits.v
RuntimeTrustProps.v
RuntimeExamples.v
AgentCommand.v
AgentRuntime.v
AgentRuntimeInv.v
AgentRuntimeRely.v
AgentRuntimeThreads.v
AgentRuntimeProps.v
AgentRuntimeExamples.v
PosixInstall.v
PosixInstallOps.v
PosixInstallTrace.v
