(* ===== verification/Prelude.v ===== *)
(** * A verification library for nvim-remote-mirror

    nvim-remote-mirror edits files of a remote host through a local mirror.  A Neovim
    plugin (Lua) talks to a local sidecar (crates/nrm-sidecar), which keeps the mirror and
    drives an agent on the remote host (crates/nrm-agent) over ssh.  Sidecar and agent
    exchange framed RPC messages, and runtime streams for processes, terminals and
    watches (crates/nrm-protocol); the sidecar installs agents from a signed registry
    (crates/nrm-registry) and relays language servers.

    ** Files

    A component is one or two files of definitions, followed by files with its theorems
    (a name that ends in Props, or one named after what it proves) and, where the
    theorems have hypotheses on a host, a file of examples on which they hold.

    - [Prelude]: results, machine integers, bytes and text, the shared lemmas, the hint
      database [nrm].
    - [Paths]: normalize_relative_path, which sidecar and agent share, and what a
      relative path names below a root.
    - [Protocol]: nrm-protocol/src/lib.rs, the RPC messages, readers, writers and the
      frames around a codec (class [Codec], whose law [CodecLaws] is the round trip).
    - [RuntimeMessages], [RuntimeMachine], [RuntimeSession]: nrm-protocol/src/runtime.rs,
      the runtime messages with their validation, the state machine that both peers
      run, and the theorems on reachable states, whole sessions and pairs of peers.
    - [Registry], [UrlPolicy]: nrm-registry/src/core.rs and url_policy.rs.
      [FetchHost], [FetchHttp], [FetchCache], [Fetch]: nrm-registry/src/fetch.rs, that is
      the errors, deadlines and system calls; redirects and bounded reads; the cache;
      fetch_verified_artifact.  [FetchProps] (termination), [FetchRequests],
      [FetchVerified], [FetchEviction], [FetchExamples]: their theorems.
    - [BomReader]: nrm-sidecar/src/bom_reader.rs.
    - [Json], [LspRewrite], [LspRewriteProps]: nrm-sidecar/src/lsp_rewrite.rs over JSON
      values; [LspProxy]: the launch command, the Content-Length frames and the relay
      loops of nrm-sidecar/src/main.rs.
    - [GitStatus]: the rebasing of git status in nrm-agent/src/main.rs and the plugin's
      reading of it in lua/nvim_remote_mirror/init.lua (git_status_items and what it calls).
    - [AgentFs], [AgentWrite], [AgentWriteProps], [AgentUploads]: saves and uploads of
      nrm-agent/src/main.rs over a file system whose calls may fail and in which other
      processes act during a save (record [WriteHost]): the canonical target, the
      directories and lock files that are created, the temporary file, the second look at the
      target and the replacement.
    - [AgentReads], [AgentReadsProps]: read_file, read_files, validate_files, scan, grep and
      handle_request of nrm-agent/src/main.rs.
    - [AgentSession]: the agent's loop ([serve]) and the sidecar's end of the connection
      (FramedAgentSession, the worker thread).  [AgentClient], [AgentClientProps]: the
      client of nrm-sidecar/src/main.rs with handshake, deadlines, health and backoff.
    - [Install]: the agent install transaction of nrm-sidecar/src/main.rs over the class of
      its steps ([AgentInstallOps], the Rust trait), with the calls it makes.
    - [RemoteQueue], [RemoteQueueProps], [Scheduler]: the hazards, lanes and queues of
      nrm-sidecar/src/main.rs (RemoteQueue, PendingRemote, RemoteLane) and the session
      loop with its two workers (run_server_session, spawn_remote_worker).
    - [MirrorDb], [Mirror]: the tables and files of the mirror and the operations of
      [impl Mirror]; [MirrorLogic], [MirrorProps], [MirrorTotal], [MirrorAtomic],
      [MirrorConflicts], [MirrorHistory]: rules for them and their theorems.
      [SearchIndex], [SearchIndexProps]: the trigram index.
    - [SaveReplay], [SaveReplayProps], [SaveDrain], [SaveAgent]: the handlers that queue,
      send and resolve saves, against the interface of a remote (class [Remote] and its
      laws [CasWrites], [CasUploads], [LiveRemote]), which [SaveAgent] proves of the agent
      of [AgentWrite] behind a link that loses requests and replies.
      [Hydrate], [HydrateProps], [HydrateAgent], [HydrateServed]: fetching files into the
      mirror, likewise against a remote and then the agent of [AgentReads].
    - [RemoteHost], [RemoteHostProps], [RemoteCommands], [RemoteCommandsProps]:
      nrm-sidecar/src/remote_host.rs and the launch plans of main.rs.
    - [RuntimeRecords], [RuntimeControl], [RuntimeTickets], [RuntimeTrust]: the private
      records of nrm-sidecar/src/runtime_proxy.rs, that is directories, locks and limits;
      the mailbox of signals; tickets and results; the trust store.
      [RuntimeRecordsProps] (rules), [RuntimeHistory], [RuntimeHistoryProps],
      [RuntimeServe], [RuntimeTermination], [RuntimeLimits], [RuntimeTrustProps],
      [RuntimeExamples]: their theorems.
    - [AgentCommand]: the command of a process and its checks, from
      nrm-agent/src/runtime.rs and nrm-pty/src/lib.rs.  [AgentRuntime]: the runtime server of
      nrm-agent/src/runtime.rs as threads that interleave one operation at a time.
      [AgentRuntimeInv] (the invariant and what each thread knows), [AgentRuntimeRely] (an
      operation of one thread keeps what the others know), [AgentRuntimeThreads] (each thread
      along its code), [AgentRuntimeProps] (also: the server and a client refine the two
      peers of [RuntimeSession]), [AgentRuntimeExamples]: their theorems.
    - [PosixInstall], [PosixInstallOps]: nrm-sidecar/src/agent_install.rs and the steps of
      PosixSshInstallOps in main.rs, an implementation of the class of [Install], with the
      theorem on records; [PosixInstallTrace]: what is sent to the host.

    Definitions keep the names of the Rust items; an enum is an inductive type with the
    same constructors, a struct a record, [Result] the type [result], a method that
    changes [self] a function that returns the new state, a shared structure under a lock
    a step relation.  Code that calls the system is a computation in a small monad over a
    world whose calls end as an oracle says (any of them may fail), so that a failure in
    the middle leaves what the code leaves.  Integers are [Z] with the checked and
    saturating operations written out; text and buffers are lists of bytes.

    ** What the theorems show

    - Streams: frames survive any sequence of writes and reads, reads are bounded, and
      nothing unvalidated reaches the runtime state machine.
    - Runtime: the state machine implements the protocol's transition relation, keeps its
      invariant, never panics, and in every session the chunks of each stream are
      contiguous; two peers over ordered channels never disagree, up to the frames of the
      client that are in flight when the server closes.
    - Trust: a manifest is admitted exactly under the threshold of distinct trusted keys;
      manifests and keys are parsed exactly; registry URLs name public https hosts or
      local files, address literals are checked against the special-purpose blocks.
    - Fetching: a fetch that succeeds returns a verified artifact, its requests stay on
      public https hosts, the cache stands in only for an unreachable registry, eviction
      meets the budget, and every fetch returns in its time.
    - Language servers: rewritten paths and URIs stay below the target root and come back
      as they were; other messages pass unchanged; the relay passes messages on in order.
    - Hosts and launches: detected host information is well-formed (with one exception, a
      defect); SSH destinations are exactly those of a grammar; the remote shell, and the
      C runtime behind PowerShell, split a launch into exactly the words of its plan; batch
      files are refused what [cmd.exe] would expand.
    - Saves: a one-shot save compares and swaps however system calls fail and whatever other
      processes do meanwhile, up to the moment between its second look and the replacement;
      the upload table keeps its limits and locks; an upload in any chunking delivers its
      bytes.
    - Reads: batches and searches stay within their limits and report what is on disk; a
      page that stops at its byte limit skips a file (a defect).
    - Connection: requests over a connection are answered as direct calls would be; a
      request goes only to an agent that passed the handshake, unless the worker was
      replaced behind the client's back (a defect); failures back off; calls return.
    - Mirror: queued saves survive every history; transactions are all or nothing, except
      that a failed COMMIT blocks the connection (a defect); conflicts never lose local
      bytes; the index answers what a scan would; hydration keeps local edits and
      completes when no call fails; an attempt to send a save to the agent never overwrites a
      remote edit; a remote that answers drains a queue of small saves without conflicts; a
      save whose reply was lost is recognised; flushing by id reports a false conflict while
      an earlier save waits (a defect).
    - Installation: whatever its steps answer, the final state a transaction reports follows
      from the calls it made, and the target is touched at most once and after validation.
    - Scheduling: interactive work goes first, no request is lost or answered twice, the
      hazard tables are exactly those of the outstanding requests, and a read never runs
      beside a write it must see.
    - Runtime records: a ticket is served at most once, only if it was issued, in its time
      and as it was issued; a created ticket is served (unless its document is too long,
      a defect); the directories keep their limits; every command returns; the trust
      store refines a set of digests.
    - Git status: the rebased output is exact, and a rename that the plugin lists hides the
      next entry from it (a defect).
    - Runtime server: in every interleaving the chunks of an output stream are contiguous, a
      prefix of what the process wrote, within the window and the limit; a reported exit
      means that all output was sent and acknowledged (or says that it was cut); input
      reaches the process in order and only what it took is acknowledged; the server sends
      only what the protocol allows and, with a client that does the same, refines the
      system of two protocol machines.  The command of an accepted specification is the
      specification's.
    - Install plans: whatever the host prints, an installation under a lease sends only the
      fixed scripts, as exact shell words under the guard of the lease, on paths beside the
      target and within the deadline; the staging record is read exactly.

    ** Bounds and fuel

    Loops that are not structural take fuel, and the definitions pass enough: the length of
    the input and one more for the header and relay loops of [LspProxy], for the frame
    loop of [Protocol] and for the upload of a snapshot in [SaveReplay] (each round takes at
    least a byte), the number of events and BOM bytes for [BomReader], twenty digits for a
    [u64] in [to_decimal], the length of the text for the substring searches of [UrlPolicy]
    and the URI comparison of [LspRewrite], the requests before preemption for the chunks of
    [Hydrate], the rounds a timeout allows for the waiting loops of [AgentClient], three
    openings and a thousand and two polls for the locks of [RuntimeRecords], the length of a
    path for its missing directories in [AgentFs] and [AgentWrite].  The loops of a
    fetch take their fuel as an argument, and the theorem on termination says how much is
    enough.  A run that is out of fuel is a value of its own ([Spin]), and the termination
    theorems say that it is never the result.

    ** Parameters and what is not modelled

    Code outside the repository is a parameter with the documented laws as class fields
    or hypotheses: postcard, serde_json, semver, base64, ed25519 and SHA-256 ([Codec],
    [RegistryDeps], [ControlCodec], [TicketCodec], [TrustCodec], [PowerShellHost], the
    arguments of [rewrite_lsp_body]), the url and ureq crates ([UrlLib], [FetchUrls],
    [Machine]), BLAKE3 ([hash_bytes]), the walk of the ignore crate, the texts of errors
    ([ErrorTexts] in the runtime server) and of scripts ([InstallScripts]), the directories of
    the agent's host ([CwdHost]), and SQLite as tables with a transaction image and failing calls.  Clocks,
    random numbers, other threads and other processes are oracles.  Paths and files are
    those of a Unix host.  A command on runtime records runs alone under its lock file.  Locks
    of a process are taken as never poisoned, and power loss is not modelled.

    Some definitions are coarser than the code.  In a save, other processes act at eight
    points (type [point]); the helpers between two of them look at the files at one moment.
    [Path::canonicalize], the temporary directory and the user are fields of [WriteHost]; the
    checks of owners and modes, of the parent directory through its open handle, and whether
    another process holds a lock are calls that may fail.  [SaveAgent] assumes that nobody
    else writes on the agent's host during an attempt.  [Mirror] is one connection that
    runs its operations one after the other: [enqueue_save] reads the latest unresolved save
    before its transaction, as the code does, but no other connection acts in between.
    [Scheduler.submit] registers a request in its queue and both hazard tables in one step,
    and [worker_finish] clears them, answers and counts down in one step, where the code takes
    the locks one by one; a handler that panics, which leaves its hazard registered, is not
    modelled.  [AgentSession.worker_loop] is that of a session that started: the branch of a
    bootstrap error and the reader that drops a leading byte order mark are left out.
    [command_line_arguments] of [RemoteCommands] and [shell_words] of [LspProxy] are
    specifications of how the Microsoft C runtime and a POSIX shell split a line; what [cmd.exe]
    makes of a command is not modelled.  In the plugin, the editor's functions on paths are
    parameters.

    Not modelled: the agent's git commands and the PTY crate below its checks (processes,
    pipes and terminals of the system: what they answer is a reply in the steps of
    [AgentRuntime]); the texts of the scripts that install an agent (shell code; a parameter of
    [PosixInstall]), the process that holds their lease, the choice of a source around them,
    and the plans for Windows hosts; the loop of the runtime bridge between local streams and an agent
    (run_proxy), which needs terminals and signals of the local system; the command line
    with which a maintainer signs a release; the listings, status reports and recovery
    commands of the sidecar beyond the operations of [Mirror]; the detection of the local
    host; the Lua plugin apart from its reading of git status; of the process script behind
    PowerShell, the job object and the relay of the streams; workers of the runtime
    server that panic.  These are operating system glue, generated scripts or user
    interface; the manifest lists each with its reason.

    ** Plan

    Everything the plan began with is modelled: messages and state machine, registry and
    fetching, agent, mirror, scheduler, records, launches, the runtime server and the
    installation on POSIX hosts.  What would come next is the runtime bridge as a client of
    [AgentRuntimeProps], and the install plans for Windows. *)
From stdpp Require Export base list gmap strings sets.
From Stdlib Require Export ZArith Lia Strings.Byte.
From stdpp Require Import options.

#[global] Open Scope Z_scope.
#[global] Unset Default Proof Using.

Declare Scope nrm_scope.
Delimit Scope nrm_scope with nrm.

(** ** Machine integers

    A Rust integer of width [w] is a [Z]; the ranges are written out where a
    proof depends on them. *)

Definition u8_max : Z := 2 ^ 8 - 1.
Definition u16_max : Z := 2 ^ 16 - 1.
Definition u32_max : Z := 2 ^ 32 - 1.
Definition u64_max : Z := 2 ^ 64 - 1.

Definition in_u64 (x : Z) : Prop := 0 <= x <= u64_max.

(** [u64::checked_add], [u64::saturating_add] and [u64::saturating_sub]. *)
Definition checked_add (x y : Z) : option Z :=
  if x + y <=? u64_max then Some (x + y) else None.
Definition saturating_add (x y : Z) : Z := Z.min (x + y) u64_max.
Definition saturating_sub (x y : Z) : Z := Z.max (x - y) 0.

Lemma checked_add_Some x y z : checked_add x y = Some z <-> z = x + y /\ x + y <= u64_max.
Proof.
  unfold checked_add. destruct (Z.leb_spec (x + y) u64_max).
  - split; [intros [= <-]; lia | intros [-> _]; done].
  - split; [done | lia].
Qed.

Lemma checked_add_None x y : checked_add x y = None <-> u64_max < x + y.
Proof.
  unfold checked_add. destruct (Z.leb_spec (x + y) u64_max); split; (done || lia).
Qed.

(** ** Results

    [Result<A, E>]; [x ← e; k] is Rust's [let x = e?; k]. *)

Inductive result (E A : Type) : Type :=
| Ok (a : A)
| Err (e : E).
Arguments Ok {E A} a.
Arguments Err {E A} e.

#[export] Instance result_ret E : MRet (result E) := @Ok E.
#[export] Instance result_fmap E : FMap (result E) := fun A B f r =>
  match r with Ok a => Ok (f a) | Err e => Err e end.
#[export] Instance result_bind E : MBind (result E) := fun A B f r =>
  match r with Ok a => f a | Err e => Err e end.

#[export] Instance result_eq_dec `{EqDecision E, EqDecision A} : EqDecision (result E A).
Proof. solve_decision. Defined.

(** [if c { return Err(e); }] *)
Definition fail_if {E} (c : bool) (e : E) : result E unit := if c then Err e else Ok ().
(** [o.ok_or(e)] *)
Definition ok_or {E A} (o : option A) (e : E) : result E A :=
  match o with Some a => Ok a | None => Err e end.
(** [r.map_err(f)], also the conversion of [?] between error types. *)
Definition map_err {E F A} (f : E -> F) (r : result E A) : result F A :=
  match r with Ok a => Ok a | Err e => Err (f e) end.
(** [r.ok()] *)
Definition ok {E A} (r : result E A) : option A :=
  match r with Ok a => Some a | Err _ => None end.
Definition is_ok {E A} (r : result E A) : bool :=
  match r with Ok _ => true | Err _ => false end.

(** [for x in l { f(x)?; }] *)
Fixpoint try_each {E A} (f : A -> result E unit) (l : list A) : result E unit :=
  match l with
  | [] => Ok ()
  | x :: l => _ ← f x; try_each f l
  end.

(** [let mut acc = a; for x in l { acc = f(acc, x)?; } acc] *)
Fixpoint try_fold {E A X} (f : A -> X -> result E A) (a : A) (l : list X) : result E A :=
  match l with
  | [] => Ok a
  | x :: l => a ← f a x; try_fold f a l
  end.

Lemma bind_Ok {E A B} (r : result E A) (f : A -> result E B) b :
  r ≫= f = Ok b <-> exists a, r = Ok a /\ f a = Ok b.
Proof. destruct r; naive_solver. Qed.

Lemma bind_Err {E A B} (r : result E A) (f : A -> result E B) e :
  r ≫= f = Err e <-> r = Err e \/ exists a, r = Ok a /\ f a = Err e.
Proof. destruct r; naive_solver. Qed.

Section result_lemmas.
Context {E F A B : Type}.

Lemma fail_if_Ok c (e : E) u : fail_if c e = Ok u <-> c = false.
Proof. destruct c, u; naive_solver. Qed.

Lemma fail_if_Err c (e e' : E) : fail_if c e = Err e' <-> c = true /\ e = e'.
Proof. destruct c; naive_solver. Qed.

Lemma ok_or_Ok (o : option A) (e : E) a : ok_or o e = Ok a <-> o = Some a.
Proof. destruct o; naive_solver. Qed.

Lemma map_err_Ok (f : E -> F) (r : result E A) a : map_err f r = Ok a <-> r = Ok a.
Proof. destruct r; naive_solver. Qed.

Lemma is_ok_true (r : result E A) : is_ok r = true <-> exists a, r = Ok a.
Proof. destruct r; naive_solver. Qed.

Lemma is_ok_get (r : result E A) d :
  is_ok r = true -> r = Ok (match r with Ok a => a | Err _ => d end).
Proof. by destruct r. Qed.

Lemma try_each_Ok (f : A -> result E unit) l u :
  try_each f l = Ok u <-> Forall (fun x => f x = Ok ()) l.
Proof.
  destruct u. induction l as [|x l IH]; cbn [try_each].
  - split; [constructor | done].
  - rewrite bind_Ok, Forall_cons, <- IH. split.
    + intros ([] & ? & ?). done.
    + intros []. by exists ().
Qed.

Lemma try_fold_app (f : A -> B -> result E A) a l1 l2 :
  try_fold f a (l1 ++ l2) = (a ← try_fold f a l1; try_fold f a l2).
Proof.
  revert a. induction l1 as [|x l1 IH]; intros a; cbn; [done|].
  destruct (f a x); cbn; [apply IH | done].
Qed.

(** Invariants of a fallible loop. *)
Lemma try_fold_inv (P : A -> Prop) (f : A -> B -> result E A) a l a' :
  P a -> (forall a x a', P a -> f a x = Ok a' -> P a') ->
  try_fold f a l = Ok a' -> P a'.
Proof.
  intros Ha Hf. revert a Ha. induction l as [|x l IH]; intros a Ha; cbn [try_fold].
  - by intros [= <-].
  - rewrite bind_Ok. intros (a1 & ? & ?). eauto.
Qed.
End result_lemmas.

(** A loop that pushes one element per input and refuses a repeated key builds
    exactly the related list with distinct keys. *)
Lemma try_fold_collect {E X Y K} (f : list Y -> X -> result E (list Y)) (R : X -> Y -> Prop) (key : Y -> K) :
  (forall acc x acc', f acc x = Ok acc' <-> exists y, acc' = acc ++ [y] /\ R x y /\ key y ∉ key <$> acc) ->
  forall l acc acc', NoDup (key <$> acc) ->
    try_fold f acc l = Ok acc' <->
    exists ys, acc' = acc ++ ys /\ Forall2 R l ys /\ NoDup (key <$> acc').
Proof.
  intros Hf l. induction l as [|x l IH]; intros acc acc' Hacc; cbn [try_fold].
  - split.
    + intros [= <-]. exists []. rewrite app_nil_r. split; [done|]. split; [constructor | done].
    + intros (ys & -> & ->%Forall2_nil_inv_l & _). by rewrite app_nil_r.
  - rewrite bind_Ok. split.
    + intros (a1 & (y & -> & Hy & Hk)%Hf & Hrest).
      apply IH in Hrest as (ys & -> & Hys & Hnd).
      * exists (y :: ys). rewrite <- app_assoc. split; [done|]. split; [by constructor|]. by rewrite <- app_assoc in Hnd.
      * rewrite fmap_app. apply NoDup_app. split; [done|]. split; [|apply NoDup_singleton].
        intros k Hk' ->%list_elem_of_singleton. done.
    + intros (ys & -> & Hys & Hnd). apply Forall2_cons_inv_l in Hys as (y & ys' & Hy & Hys & ->).
      assert (Hnd2 : NoDup (key <$> (acc ++ [y]))).
      { rewrite cons_middle, app_assoc, fmap_app in Hnd. by apply NoDup_app in Hnd as []. }
      exists (acc ++ [y]). split.
      * apply Hf. exists y. split; [done|]. split; [done|].
        rewrite fmap_app in Hnd2. apply NoDup_app in Hnd2 as (_ & Hd & _).
        intros Hin. apply (Hd _ Hin). apply list_elem_of_singleton. done.
      * apply IH; [done|]. exists ys'. rewrite <- app_assoc. split; [done|]. split; [done|].
        exact Hnd.
Qed.

(** ** Bytes and text

    Rust's [Vec<u8>], [&[u8]] and [str] are lists of bytes: a [str] is its UTF-8
    encoding, so [len], [as_bytes], [starts_with] and [split] on ASCII patterns
    are list operations. *)

Abbreviation bytes := (list byte).

(** [B"..."] is the byte string of an ASCII literal. *)
Definition B (s : string) : bytes := String.list_byte_of_string s.
#[global] Arguments B _ : simpl never.

#[export] Instance byte_eq_dec : EqDecision byte := Byte.byte_eq_dec.
#[export] Program Instance byte_countable : Countable byte :=
  inj_countable Byte.to_N Byte.of_N _.
Next Obligation. intros b. apply Byte.of_to_N. Qed.

(** The numeric value of a byte, and the byte of a value taken modulo 256. *)
Definition u8 (b : byte) : Z := Z.of_N (Byte.to_N b).
Definition byte_of (z : Z) : byte :=
  match Byte.of_N (Z.to_N (z mod 256)) with Some b => b | None => x00 end.

(** [len()], as the [usize] the code compares with its limits. *)
Definition zlen {A} (l : list A) : Z := Z.of_nat (length l).

Definition byte_eqb (a b : byte) : bool := bool_decide (a = b).
Definition bytes_eqb (a b : bytes) : bool := bool_decide (a = b).
Definition contains_byte (c : byte) (s : bytes) : bool := existsb (byte_eqb c) s.
Definition in_range (lo hi : Z) (b : byte) : bool := (lo <=? u8 b) && (u8 b <=? hi).
Definition is_ascii_digit : byte -> bool := in_range 48 57.
Definition is_ascii_upper : byte -> bool := in_range 65 90.
Definition is_ascii_lower : byte -> bool := in_range 97 122.
Definition is_ascii_alphabetic (b : byte) : bool := is_ascii_upper b || is_ascii_lower b.
Definition is_ascii_alphanumeric (b : byte) : bool := is_ascii_alphabetic b || is_ascii_digit b.
Definition is_ascii_control (b : byte) : bool := (u8 b <=? 31) || (u8 b =? 127).
(** [u8::to_ascii_lowercase] and [u8::eq_ignore_ascii_case]. *)
Definition ascii_lower (b : byte) : byte := if is_ascii_upper b then byte_of (u8 b + 32) else b.
Definition eq_ignore_ascii_case (a b : byte) : bool := byte_eqb (ascii_lower a) (ascii_lower b).

Fixpoint starts_with (p s : bytes) : bool :=
  match p, s with
  | [], _ => true
  | a :: p, b :: s => byte_eqb a b && starts_with p s
  | _ :: _, [] => false
  end.
Definition ends_with (p s : bytes) : bool := starts_with (reverse p) (reverse s).
Definition strip_prefix (p s : bytes) : option bytes :=
  if starts_with p s then Some (drop (length p) s) else None.

(** [byte.is_ascii_digit() || (b'a'..=b'f').contains(&byte)] *)
Definition is_lower_hex (b : byte) : bool := is_ascii_digit b || in_range 97 102 b.

(** [{byte:02x}] *)
Definition hex_digit (n : Z) : byte := if n <? 10 then byte_of (48 + n) else byte_of (87 + n).
Definition hex_byte (b : byte) : bytes := [hex_digit (u8 b / 16); hex_digit (u8 b mod 16)].

(** [Ord::cmp] of slices, and of text by its bytes *)
Fixpoint lex_compare {A} (compare : A -> A -> comparison) (a b : list A) : comparison :=
  match a, b with
  | [], [] => Eq
  | [], _ => Lt
  | _, [] => Gt
  | x :: a, y :: b => match compare x y with Eq => lex_compare compare a b | c => c end
  end.
Definition bytes_compare : bytes -> bytes -> comparison := lex_compare (fun x y => u8 x ?= u8 y).

(** [str::split] on a one-byte pattern: never empty, keeps empty segments. *)
Fixpoint split_by (p : byte -> bool) (s : bytes) : list bytes :=
  match s with
  | [] => [[]]
  | b :: s =>
      if p b then [] :: split_by p s
      else match split_by p s with
           | [] => [[b]]
           | seg :: segs => (b :: seg) :: segs
           end
  end.
Definition split_on (c : byte) : bytes -> list bytes := split_by (byte_eqb c).

(** [segments.join(sep)] *)
Fixpoint join_with (c : byte) (segs : list bytes) : bytes :=
  match segs with
  | [] => []
  | [seg] => seg
  | seg :: segs => seg ++ c :: join_with c segs
  end.

(** [trim_start_matches] and [trim_end_matches] on a set of bytes. *)
Fixpoint trim_start (p : byte -> bool) (s : bytes) : bytes :=
  match s with
  | [] => []
  | b :: s' => if p b then trim_start p s' else s
  end.
Definition trim_end (p : byte -> bool) (s : bytes) : bytes := reverse (trim_start p (reverse s)).

(** [u32::to_be_bytes] and [u32::from_be_bytes]. *)
Definition be_bytes32 (n : Z) : bytes :=
  [byte_of (Z.shiftr n 24); byte_of (Z.shiftr n 16); byte_of (Z.shiftr n 8); byte_of n].
Definition of_be_bytes32 (a b c d : byte) : Z :=
  Z.lor (Z.shiftl (u8 a) 24) (Z.lor (Z.shiftl (u8 b) 16) (Z.lor (Z.shiftl (u8 c) 8) (u8 d))).

(** Decimal text of an unsigned integer, most significant digit first; the fuel is the number of
    digits a [u64] can have. *)
Fixpoint decimal_loop (fuel : nat) (n : Z) (acc : bytes) : bytes :=
  match fuel with
  | O => acc
  | S fuel =>
      let acc := byte_of (48 + n mod 10) :: acc in
      if n / 10 =? 0 then acc else decimal_loop fuel (n / 10) acc
  end.
Definition to_decimal (n : Z) : bytes := decimal_loop 20 n [].

(** [str::parse::<usize>]: an optional plus sign, then digits, no overflow. *)
Fixpoint parse_digits (acc : Z) (s : bytes) : option Z :=
  match s with
  | [] => Some acc
  | b :: s =>
      if is_ascii_digit b then
        let acc := acc * 10 + (u8 b - 48) in
        if acc <=? u64_max then parse_digits acc s else None
      else None
  end.
Definition parse_usize (s : bytes) : option Z :=
  let digits := match s with b :: rest => if byte_eqb b "+" then rest else s | [] => s end in
  if bytes_eqb digits [] then None else parse_digits 0 digits.

(** Well-formed UTF-8, which [str::from_utf8] and [read_line] require. *)
Fixpoint valid_utf8 (s : bytes) : bool :=
  let cont b := in_range 128 191 b in
  match s with
  | [] => true
  | b :: rest =>
      if u8 b <=? 127 then valid_utf8 rest
      else match rest with
           | c1 :: rest1 =>
               if in_range 194 223 b then cont c1 && valid_utf8 rest1
               else match rest1 with
                    | c2 :: rest2 =>
                        if in_range 224 239 b then
                          (if u8 b =? 224 then in_range 160 191 c1
                           else if u8 b =? 237 then in_range 128 159 c1 else cont c1) && cont c2 && valid_utf8 rest2
                        else match rest2 with
                             | c3 :: rest3 =>
                                 in_range 240 244 b &&
                                 (if u8 b =? 240 then in_range 144 191 c1
                                  else if u8 b =? 244 then in_range 128 143 c1 else cont c1) &&
                                 cont c2 && cont c3 && valid_utf8 rest3
                             | [] => false
                             end
                    | [] => false
                    end
           | [] => false
           end
  end.

(** [BufRead::read_line]: up to and with the next newline, or to the end. *)
Fixpoint split_line (s : bytes) : bytes * bytes :=
  match s with
  | [] => ([], [])
  | b :: s => if byte_eqb b x0a then ([b], s) else let '(l, r) := split_line s in (b :: l, r)
  end.

(** [str::lines]: the last line may lack its end; a carriage return before the end goes too. *)
Definition strip_cr (line : bytes) : bytes :=
  if ends_with [x0d] line then take (length line - 1) line else line.
Fixpoint str_lines_of (segments : list bytes) : list bytes :=
  match segments with
  | [] | [[]] => []
  | [last] => [last]
  | line :: segments => strip_cr line :: str_lines_of segments
  end.
Definition str_lines (text : bytes) : list bytes := str_lines_of (split_on x0a text).

(** [str::find] with a string pattern: the offset of its first occurrence. *)
Fixpoint find_text (query s : bytes) : option nat :=
  if starts_with query s then Some 0%nat
  else match s with
       | [] => None
       | _ :: s => S <$> find_text query s
       end.

(** The bytes [trim_end_matches] drops from a line. *)
Definition is_line_end (b : byte) : bool := byte_eqb b x0d || byte_eqb b x0a.

(** ** Lemmas on integers and bytes *)

Lemma u8_bounds b : 0 <= u8 b <= 255.
Proof. unfold u8. pose proof (Byte.to_N_bounded b). lia. Qed.

Lemma u8_inj a b : u8 a = u8 b -> a = b.
Proof.
  unfold u8. intros H%N2Z.inj.
  pose proof (Byte.of_to_N a) as Ha. pose proof (Byte.of_to_N b). congruence.
Qed.

Lemma u8_byte_of z : u8 (byte_of z) = z mod 256.
Proof.
  unfold byte_of. pose proof (Z.mod_pos_bound z 256 eq_refl).
  destruct (Byte.of_N (Z.to_N (z mod 256))) as [b|] eqn:E.
  - unfold u8. apply Byte.to_of_N in E. rewrite E. lia.
  - apply Byte.of_N_None_iff in E. lia.
Qed.

Lemma byte_of_u8 b : byte_of (u8 b) = b.
Proof.
  apply u8_inj. rewrite u8_byte_of. apply Z.mod_small. pose proof (u8_bounds b). lia.
Qed.

Lemma zlen_nonneg {A} (l : list A) : 0 <= zlen l.
Proof. unfold zlen. lia. Qed.
Lemma zlen_nil {A} : zlen (@nil A) = 0.
Proof. done. Qed.
Lemma zlen_cons {A} (x : A) l : zlen (x :: l) = 1 + zlen l.
Proof. unfold zlen. cbn [length]. lia. Qed.
Lemma zlen_app {A} (l1 l2 : list A) : zlen (l1 ++ l2) = zlen l1 + zlen l2.
Proof. unfold zlen. rewrite length_app. lia. Qed.
Lemma zlen_zero {A} (l : list A) : zlen l = 0 <-> l = [].
Proof. unfold zlen. destruct l; cbn [length]; split; (done || lia). Qed.

Lemma byte_eqb_true a b : byte_eqb a b = true <-> a = b.
Proof. apply bool_decide_eq_true. Qed.
Lemma byte_eqb_false a b : byte_eqb a b = false <-> a <> b.
Proof. apply bool_decide_eq_false. Qed.
Lemma byte_eqb_refl a : byte_eqb a a = true.
Proof. by apply byte_eqb_true. Qed.
Lemma bytes_eqb_true a b : bytes_eqb a b = true <-> a = b.
Proof. apply bool_decide_eq_true. Qed.
Lemma bytes_eqb_false a b : bytes_eqb a b = false <-> a <> b.
Proof. apply bool_decide_eq_false. Qed.

Lemma contains_byte_true c s : contains_byte c s = true <-> c ∈ s.
Proof.
  unfold contains_byte. rewrite existsb_exists. split.
  - intros (x & ? & ->%byte_eqb_true). by apply list_elem_of_In.
  - intros ?%list_elem_of_In. exists c. split; [done | apply byte_eqb_refl].
Qed.
Lemma contains_byte_false c s : contains_byte c s = false <-> c ∉ s.
Proof. rewrite <- contains_byte_true. destruct (contains_byte c s); naive_solver. Qed.

Lemma forallb_Forall {A} (p : A -> bool) l : forallb p l = true <-> Forall (fun x => p x = true) l.
Proof. rewrite forallb_forall, List.Forall_forall. done. Qed.

Lemma existsb_false {A} (p : A -> bool) l : existsb p l = false <-> Forall (fun x => p x = false) l.
Proof.
  induction l as [|x l IH]; cbn; [split; constructor|].
  rewrite orb_false_iff, Forall_cons, IH. done.
Qed.

Lemma sublist_fmap {A B} (f : A -> B) (l1 l2 : list A) : sublist l1 l2 -> sublist (f <$> l1) (f <$> l2).
Proof. induction 1; cbn; by constructor. Qed.

Lemma list_filter_perm {A} (p : A -> bool) (l1 l2 : list A) :
  l1 ≡ₚ l2 -> List.filter p l1 ≡ₚ List.filter p l2.
Proof.
  induction 1 as [|x l1 l2 _ IH|x y l|l1 l2 l3 _ IH1 _ IH2]; cbn; [done| | |by etrans].
  - destruct (p x); [by constructor | done].
  - destruct (p x), (p y); (done || apply perm_swap).
Qed.

Lemma list_filter_split {A} (p : A -> bool) (l : list A) :
  l ≡ₚ List.filter p l ++ List.filter (fun x => negb (p x)) l.
Proof.
  induction l as [|x l IH]; cbn; [done|]. destruct (p x); cbn; [by constructor|].
  rewrite <- Permutation_middle. by constructor.
Qed.

Lemma list_filter_sublist {A} (p : A -> bool) (l : list A) : sublist (List.filter p l) l.
Proof. induction l as [|x l IH]; cbn; [done|]. destruct (p x); by constructor. Qed.

Lemma sublist_list_filter {A} (p : A -> bool) (l1 l2 : list A) :
  sublist l1 l2 -> sublist (List.filter p l1) (List.filter p l2).
Proof. induction 1; cbn; [done| |]; destruct (p _); (done || by constructor). Qed.

Lemma be_bytes32_roundtrip n :
  0 <= n <= u32_max ->
  match be_bytes32 n with [a; b; c; d] => of_be_bytes32 a b c d | _ => 0 end = n.
Proof.
  intros Hn. cbn. unfold of_be_bytes32. rewrite !u8_byte_of.
  apply Z.bits_inj'. intros i Hi.
  rewrite !Z.lor_spec, !Z.shiftl_spec by lia.
  assert (Hm : forall x, x mod 256 = Z.land x (Z.ones 8)) by (intros x; by rewrite Z.land_ones).
  rewrite !Hm. unfold u32_max in Hn.
  assert (Hhi : 32 <= i -> Z.testbit n i = false).
  { intros. apply Z.bits_above_log2; [lia|].
    destruct (Z.eq_dec n 0) as [->|]; [cbn; lia|].
    apply Z.lt_le_trans with 32; [apply Z.log2_lt_pow2; lia | lia]. }
  assert (Hb : forall k, 0 <= k -> Z.testbit (Z.land (Z.shiftr n k) (Z.ones 8)) (i - k) =
      (k <=? i) && (i <? k + 8) && Z.testbit n i).
  { intros k Hk. rewrite Z.land_spec. destruct (Z.leb_spec k i); cbn.
    - rewrite Z.shiftr_spec by lia. replace (i - k + k) with i by lia.
      rewrite Z.testbit_ones_nonneg by lia.
      destruct (Z.ltb_spec i (k + 8)), (Z.ltb_spec (i - k) 8); try lia; by destruct (Z.testbit n i).
    - rewrite Z.testbit_neg_r by lia. done. }
  rewrite !Hb by lia.
  pose proof (Hb 0 ltac:(lia)) as H0. rewrite Z.shiftr_0_r, Z.sub_0_r in H0. rewrite H0.
  destruct (Z.leb_spec 32 i) as [Hge|Hlt].
  - rewrite Hhi by done. by rewrite !andb_false_r.
  - destruct (Z.testbit n i); rewrite ?andb_true_r, ?andb_false_r; [|done].
    destruct (Z.leb_spec 24 i), (Z.leb_spec 16 i), (Z.leb_spec 8 i), (Z.leb_spec 0 i),
      (Z.ltb_spec i (24 + 8)), (Z.ltb_spec i (16 + 8)), (Z.ltb_spec i (8 + 8)), (Z.ltb_spec i (0 + 8));
      cbn; (done || lia).
Qed.

Lemma decimal_loop_app fuel n acc : exists ds, decimal_loop fuel n acc = ds ++ acc.
Proof.
  revert n acc. induction fuel as [|fuel IH]; intros n acc; cbn [decimal_loop]; [by exists []|].
  cbv zeta. destruct (n / 10 =? 0); [by exists [byte_of (48 + n mod 10)]|].
  destruct (IH (n / 10) (byte_of (48 + n mod 10) :: acc)) as [ds ->].
  exists (ds ++ [byte_of (48 + n mod 10)]). by rewrite <- app_assoc.
Qed.

(** A decimal text ends in a digit. *)
Lemma to_decimal_last n : exists ds b, to_decimal n = ds ++ [b] /\ 48 <= u8 b <= 57.
Proof.
  unfold to_decimal. cbn [decimal_loop]. cbv zeta. set (b := byte_of (48 + n mod 10)).
  assert (Hb : 48 <= u8 b <= 57).
  { unfold b. rewrite u8_byte_of. pose proof (Z.mod_pos_bound n 10 eq_refl). rewrite Z.mod_small; lia. }
  destruct (n / 10 =? 0); [by exists [], b|].
  destruct (decimal_loop_app 19 (n / 10) [b]) as [ds H]. exists ds, b. split; [exact H | done].
Qed.

(** ** Lemmas on prefixes, segments and trimming *)

Lemma starts_with_spec p s : starts_with p s = true <-> exists t, s = p ++ t.
Proof.
  revert s. induction p as [|a p IH]; intros [|b s]; cbn.
  - split; [by exists [] | done].
  - split; [by eexists | done].
  - split; [done | by intros []].
  - rewrite andb_true_iff, byte_eqb_true, IH. naive_solver.
Qed.

Lemma find_text_Some q s i : find_text q s = Some i -> exists pre post, s = pre ++ q ++ post /\ length pre = i.
Proof.
  revert i. induction s as [|b s IH]; intros i; cbn [find_text].
  - destruct (starts_with q []) eqn:E; [|done]. intros [= <-]. apply starts_with_spec in E as (t & ->). by exists [], t.
  - destruct (starts_with q (b :: s)) eqn:E.
    + intros [= <-]. apply starts_with_spec in E as (t & ->). by exists [], t.
    + destruct (find_text q s) as [j|]; [|done]. intros [= <-].
      destruct (IH j eq_refl) as (pre & post & -> & <-). by exists (b :: pre), post.
Qed.

Lemma strip_prefix_Some p s t : strip_prefix p s = Some t <-> s = p ++ t.
Proof.
  unfold strip_prefix. destruct (starts_with p s) eqn:E.
  - apply starts_with_spec in E as (t' & ->). rewrite drop_app_length. naive_solver.
  - split; [done|]. intros ->. exfalso.
    assert (starts_with p (p ++ t) = true) by (apply starts_with_spec; eauto). congruence.
Qed.

Lemma ends_with_spec p s : ends_with p s = true <-> exists t, s = t ++ p.
Proof.
  unfold ends_with. rewrite starts_with_spec. split; intros [t H].
  - exists (reverse t). apply (f_equal reverse) in H.
    by rewrite reverse_involutive, reverse_app, reverse_involutive in H.
  - exists (reverse t). subst. by rewrite reverse_app.
Qed.

Lemma split_line_app l rest :
  Forall (fun b => byte_eqb b x0a = false) l -> split_line (l ++ x0a :: rest) = (l ++ [x0a], rest).
Proof. induction 1 as [|b l Hb _ IH]; cbn; [done|]. by rewrite Hb, IH. Qed.

Lemma valid_utf8_ascii s : Forall (fun b => (u8 b <=? 127) = true) s -> valid_utf8 s = true.
Proof. induction 1 as [|b s Hb _ IH]; cbn [valid_utf8]; [done|]. by rewrite Hb. Qed.

Lemma split_by_nonempty p s : split_by p s <> [].
Proof. destruct s as [|b s]; cbn; [done|]. destruct (p b); [done|]. by destruct (split_by p s). Qed.

Lemma split_by_segments p s : Forall (Forall (fun b => p b = false)) (split_by p s).
Proof.
  induction s as [|b s IH]; cbn; [by repeat constructor|].
  destruct (p b) eqn:E; [by repeat constructor|].
  destruct (split_by p s) as [|seg segs]; [by repeat constructor|].
  apply Forall_cons in IH as [? ?]. by repeat constructor.
Qed.

Lemma split_by_clean p s : Forall (fun b => p b = false) s -> split_by p s = [s].
Proof. induction 1 as [|b s Hb _ IH]; cbn; [done|]. by rewrite Hb, IH. Qed.

Lemma split_by_app p s b t :
  Forall (fun b => p b = false) s -> p b = true ->
  split_by p (s ++ b :: t) = s :: split_by p t.
Proof.
  intros Hs Hb. induction Hs as [|c s Hc _ IH]; cbn.
  - by rewrite Hb.
  - by rewrite Hc, IH.
Qed.

Lemma join_split c s : join_with c (split_on c s) = s.
Proof.
  unfold split_on. induction s as [|b s IH]; [done|]. cbn.
  destruct (byte_eqb c b) eqn:E.
  - apply byte_eqb_true in E as <-. rewrite <- IH at 2. cbn.
    pose proof (split_by_nonempty (byte_eqb c) s). by destruct (split_by (byte_eqb c) s).
  - destruct (split_by (byte_eqb c) s) as [|seg [|seg' segs]]; cbn in *; by rewrite IH.
Qed.

Lemma split_join c segs :
  segs <> [] -> Forall (fun seg => c ∉ seg) segs -> split_on c (join_with c segs) = segs.
Proof.
  intros Hne Hsegs. unfold split_on. induction Hsegs as [|seg segs Hseg Hsegs IH]; [done|].
  assert (Hclean : Forall (fun b => byte_eqb c b = false) seg).
  { apply Forall_forall. intros b Hb. apply byte_eqb_false. congruence. }
  destruct segs as [|seg' segs].
  - by apply split_by_clean.
  - change (join_with c (seg :: seg' :: segs)) with (seg ++ c :: join_with c (seg' :: segs)).
    rewrite split_by_app by (done || apply byte_eqb_refl). by rewrite IH.
Qed.

Lemma trim_start_suffix p s : exists t, s = t ++ trim_start p s /\ Forall (fun b => p b = true) t.
Proof.
  induction s as [|b s (t & Ht & Hp)]; cbn; [by exists []|].
  destruct (p b) eqn:E; [|by exists []].
  exists (b :: t). cbn. split; [by f_equal | by constructor].
Qed.

Lemma trim_start_clean p b s : p b = false -> trim_start p (b :: s) = b :: s.
Proof. cbn. by intros ->. Qed.

Lemma trim_end_clean p s b : p b = false -> trim_end p (s ++ [b]) = s ++ [b].
Proof.
  intros Hb. unfold trim_end. rewrite reverse_app.
  change (reverse [b] ++ reverse s) with (b :: reverse s). cbn [trim_start]. rewrite Hb.
  by rewrite reverse_cons, reverse_involutive.
Qed.

(** ** Automation *)

Create HintDb nrm.
Create Rewrite HintDb nrm.
Create Rewrite HintDb nrm_ok.
#[export] Hint Resolve u8_bounds zlen_nonneg split_by_nonempty : nrm.
#[export] Hint Rewrite @zlen_nil @zlen_cons @zlen_app : nrm.
#[export] Hint Rewrite @bind_Ok @fail_if_Ok @ok_or_Ok @map_err_Ok @try_each_Ok : nrm_ok.

(** Splits a hypothesis "this computation returned [Ok]" into the steps that did. *)
Ltac inv_ok_step :=
  match goal with
  | H : Ok _ = Ok _ |- _ => injection H as H; try subst
  | H : Err _ = Ok _ |- _ => discriminate H
  | H : Ok _ = Err _ |- _ => discriminate H
  | H : _ ≫= _ = Ok _ |- _ => apply bind_Ok in H as (? & ? & H)
  | H : fail_if _ _ = Ok _ |- _ => apply fail_if_Ok in H
  | H : ok_or _ _ = Ok _ |- _ => apply ok_or_Ok in H
  | H : map_err _ _ = Ok _ |- _ => apply map_err_Ok in H
  | H : try_each _ _ = Ok _ |- _ => apply try_each_Ok in H
  | H : checked_add _ _ = Some _ |- _ => apply checked_add_Some in H as [? ?]
  | H : context [match ?x with _ => _ end] |- _ =>
      lazymatch type of H with
      | _ = Ok _ => destruct x eqn:?
      end
  end.
Ltac inv_ok := repeat (inv_ok_step; cbn [fst snd] in * ).

(** Turns boolean tests into the propositions they decide. *)
Ltac to_prop :=
  repeat match goal with
  | H : (_ && _) = true |- _ => apply andb_true_iff in H as [? ?]
  | H : (_ || _) = false |- _ => apply orb_false_iff in H as [? ?]
  | H : negb _ = true |- _ => apply negb_true_iff in H
  | H : negb _ = false |- _ => apply negb_false_iff in H
  | H : (_ <? _) = true |- _ => apply Z.ltb_lt in H
  | H : (_ <? _) = false |- _ => apply Z.ltb_ge in H
  | H : (_ <=? _) = true |- _ => apply Z.leb_le in H
  | H : (_ <=? _) = false |- _ => apply Z.leb_gt in H
  | H : (_ =? _) = true |- _ => apply Z.eqb_eq in H
  | H : (_ =? _) = false |- _ => apply Z.eqb_neq in H
  | H : bool_decide _ = true |- _ => apply bool_decide_eq_true in H
  | H : bool_decide _ = false |- _ => apply bool_decide_eq_false in H
  | H : byte_eqb _ _ = true |- _ => apply byte_eqb_true in H
  | H : byte_eqb _ _ = false |- _ => apply byte_eqb_false in H
  | H : bytes_eqb _ _ = true |- _ => apply bytes_eqb_true in H
  | H : bytes_eqb _ _ = false |- _ => apply bytes_eqb_false in H
  | H : contains_byte _ _ = true |- _ => apply contains_byte_true in H
  | H : contains_byte _ _ = false |- _ => apply contains_byte_false in H
  | H : existsb _ _ = false |- _ => apply existsb_false in H
  | H : forallb _ _ = true |- _ => apply forallb_Forall in H
  end.

(** ** Hexadecimal digits *)

Lemma hex_digit_value n : 0 <= n < 16 -> u8 (hex_digit n) = if n <? 10 then 48 + n else 87 + n.
Proof.
  intros ?. unfold hex_digit. destruct (Z.ltb_spec n 10); rewrite u8_byte_of; apply Z.mod_small; lia.
Qed.

Lemma hex_digit_lower n : 0 <= n < 16 -> is_lower_hex (hex_digit n) = true.
Proof.
  intros Hn. unfold is_lower_hex, is_ascii_digit, in_range. rewrite (hex_digit_value n Hn).
  destruct (Z.ltb_spec n 10); apply orb_true_iff; rewrite !andb_true_iff, !Z.leb_le; lia.
Qed.

Lemma hex_digit_inj n m : 0 <= n < 16 -> 0 <= m < 16 -> hex_digit n = hex_digit m -> n = m.
Proof.
  intros Hn Hm E%(f_equal u8). rewrite !hex_digit_value in E by done.
  destruct (Z.ltb_spec n 10), (Z.ltb_spec m 10); lia.
Qed.

Lemma nibbles b : 0 <= u8 b / 16 < 16 /\ 0 <= u8 b mod 16 < 16.
Proof. pose proof (u8_bounds b). split; [|by apply Z.mod_pos_bound]. split; [apply Z.div_pos; lia|]. apply Z.div_lt_upper_bound; lia. Qed.

Lemma hex_byte_inj a b : hex_byte a = hex_byte b -> a = b.
Proof.
  unfold hex_byte. intros [= E1 E2]. destruct (nibbles a), (nibbles b).
  apply u8_inj. apply hex_digit_inj in E1, E2; try done.
  rewrite (Z.div_mod (u8 a) 16), (Z.div_mod (u8 b) 16) by lia. lia.
Qed.

Lemma hex_bytes_inj (l1 l2 : bytes) : l1 ≫= hex_byte = l2 ≫= hex_byte -> l1 = l2.
Proof.
  revert l2. induction l1 as [|a l1 IH]; intros [|b l2]; try done.
  rewrite !bind_cons. intros E. apply app_inj_1 in E as [?%hex_byte_inj ?]; [|done].
  f_equal; auto.
Qed.
