(* ===== verification/Paths.v ===== *)
(** * Relative paths (normalize_relative_path of the sidecar and of the agent)

    How Rust reads a Unix path, the normalisation every workspace path goes
    through on both sides, and what a path names once it is joined to a root. *)
From S2P Require Import Prelude.

(** ** [std::path::Components] on Unix *)

Inductive Component := RootDir | CurDir | ParentDir | Normal (part : bytes).

(** Empty segments and inner [.] segments are not components. *)
Definition skipped_segment (seg : bytes) : bool := bytes_eqb seg [] || bytes_eqb seg (B".").
Definition segment_component (seg : bytes) : Component :=
  if bytes_eqb seg (B"..") then ParentDir else Normal seg.
Definition is_absolute (path : bytes) : bool := starts_with (B"/") path.
Definition path_segments (path : bytes) : list bytes :=
  List.filter (fun seg => negb (skipped_segment seg)) (split_on "/" path).
Definition components (path : bytes) : list Component :=
  (if is_absolute path then [RootDir]
   else if bool_decide (head (split_on "/" path) = Some (B".")) then [CurDir] else []) ++
  (segment_component <$> path_segments path).

(** ** [normalize_relative_path] *)

Inductive PathError := PathAbsolute | PathParentDir | PathNotRelative | PathEmpty.

(** The body of the loop; the state is the components of [clean]. *)
Definition push_component (clean : list bytes) (c : Component) : result PathError (list bytes) :=
  match c with
  | Normal part => Ok (clean ++ [part])
  | CurDir => Ok clean
  | ParentDir => Err PathParentDir
  | RootDir => Err PathNotRelative
  end.

Definition normalize_relative_path (path : bytes) : result PathError (list bytes) :=
  _ ← fail_if (is_absolute path) PathAbsolute;
  clean ← try_fold push_component [] (components path);
  _ ← fail_if (bool_decide (clean = [])) PathEmpty;
  Ok clean.

(** [normalized_path_string] and the [to_string_lossy().replace('\\', "/")] idiom
    (paths are UTF-8 here, so nothing is lost). *)
Definition path_to_string (clean : list bytes) : bytes :=
  (fun b => if byte_eqb b "\" then "/"%byte else b) <$> join_with "/" clean.
Definition normalized_path_string (path : bytes) : option bytes :=
  path_to_string <$> ok (normalize_relative_path path).

(** [Path::with_extension] on the text of a path that names a file. *)
Fixpoint rsplit_once (c : byte) (s : bytes) : option (bytes * bytes) :=
  match s with
  | [] => None
  | b :: s =>
      match rsplit_once c s with
      | Some (before, after) => Some (b :: before, after)
      | None => if byte_eqb b c then Some ([], s) else None
      end
  end.
Definition file_stem (name : bytes) : bytes :=
  match rsplit_once "." name with
  | Some ((_ :: _) as stem, _) => stem
  | _ => name
  end.
Definition with_extension (abs ext : bytes) : bytes :=
  match rsplit_once "/" abs with
  | Some (dir, name) => dir ++ B"/" ++ file_stem name ++ B"." ++ ext
  | None => file_stem abs ++ B"." ++ ext
  end.

(** ** What a joined path names *)

(** What a kernel makes of [root] joined with [path], symbolic links aside:
    an absolute path starts over, empty and [.] segments are skipped, [..]
    climbs. *)
Fixpoint walk_segments (at_ : list bytes) (segs : list bytes) : list bytes :=
  match segs with
  | [] => at_
  | seg :: segs =>
      if bytes_eqb seg [] || bytes_eqb seg (B".") then walk_segments at_ segs
      else if bytes_eqb seg (B"..") then walk_segments (take (length at_ - 1) at_) segs
      else walk_segments (at_ ++ [seg]) segs
  end.
Definition lexical_join (root : list bytes) (path : bytes) : list bytes :=
  walk_segments (if starts_with (B"/") path then [] else root) (split_on "/" path).

(** A canonical segment is a real file name. *)
Definition normal_segment (seg : bytes) : Prop := seg <> [] /\ seg <> B"." /\ seg <> B"..".

Lemma walk_normal at_ segs : Forall normal_segment segs -> walk_segments at_ segs = at_ ++ segs.
Proof.
  intros Hsegs. revert at_. induction Hsegs as [|seg segs (? & ? & ?) _ IH]; intros at_; cbn.
  - by rewrite app_nil_r.
  - rewrite (proj2 (bytes_eqb_false seg [])), (proj2 (bytes_eqb_false seg (B"."))),
      (proj2 (bytes_eqb_false seg (B".."))) by done. cbn. by rewrite IH, <- app_assoc.
Qed.

Lemma starts_with_split c s : starts_with [c] s = true -> exists segs, split_on c s = [] :: segs.
Proof.
  rewrite starts_with_spec. intros [t ->]. unfold split_on. cbn. rewrite byte_eqb_refl. by eexists.
Qed.

(** ** Lemmas *)

Lemma skipped_or_normal seg :
  skipped_segment seg = false -> seg <> B".." -> normal_segment seg.
Proof. unfold skipped_segment, normal_segment. intros. to_prop. done. Qed.

Lemma path_segments_no_dotdot path :
  B".." ∉ split_on "/" path -> Forall normal_segment (path_segments path).
Proof.
  intros Hd. apply List.Forall_forall. intros seg (Hin & Hs)%filter_In.
  apply skipped_or_normal; [by destruct (skipped_segment seg)|].
  intros ->. by apply Hd, list_elem_of_In.
Qed.

Lemma push_components clean segs :
  try_fold push_component clean (segment_component <$> segs) =
  if bool_decide (B".." ∈ segs) then Err PathParentDir else Ok (clean ++ segs).
Proof.
  revert clean. induction segs as [|seg segs IH]; intros clean; [|rewrite fmap_cons; cbn [try_fold]].
  - cbn [fmap list_fmap try_fold]. by rewrite bool_decide_eq_false_2, app_nil_r by apply not_elem_of_nil.
  - assert (Hseg : segment_component seg = if bytes_eqb seg (B"..") then ParentDir else Normal seg) by done.
    rewrite Hseg. destruct (bytes_eqb seg (B"..")) eqn:E.
    + apply bytes_eqb_true in E as ->. cbn. by rewrite bool_decide_eq_true_2 by apply list_elem_of_here.
    + apply bytes_eqb_false in E. cbn [push_component mbind result_bind]. rewrite IH, <- app_assoc. cbn [app].
      rewrite (bool_decide_ext (B".." ∈ seg :: segs) (B".." ∈ segs)); [done|].
      rewrite elem_of_cons. naive_solver.
Qed.

Lemma dotdot_segment path : B".." ∈ path_segments path <-> B".." ∈ split_on "/" path.
Proof. unfold path_segments. rewrite !list_elem_of_In, filter_In. naive_solver. Qed.

Lemma normalize_relative_path_Ok path clean :
  normalize_relative_path path = Ok clean <->
  is_absolute path = false /\ B".." ∉ split_on "/" path /\ clean = path_segments path /\ clean <> [].
Proof.
  unfold normalize_relative_path, components. destruct (is_absolute path).
  { split; [done | by intros [? _]]. }
  cbn [fail_if mbind result_bind].
  assert (Hfold : forall pre, pre = [] \/ pre = [CurDir] ->
    try_fold push_component [] (pre ++ (segment_component <$> path_segments path)) =
    if bool_decide (B".." ∈ path_segments path) then Err PathParentDir else Ok (path_segments path)).
  { intros pre [->| ->]; cbn [app try_fold push_component mbind result_bind]; by rewrite push_components. }
  assert (Hpre : forall c : bool, (if c then [CurDir] else []) = [] \/ (if c then [CurDir] else []) = [CurDir])
    by (intros []; [by right | by left]).
  rewrite Hfold by apply Hpre.
  case_bool_decide as Hd; cbn; rewrite dotdot_segment in Hd; [naive_solver|].
  rewrite bind_Ok. setoid_rewrite fail_if_Ok. setoid_rewrite bool_decide_eq_false. split.
  - intros (u & ? & [= <-]). done.
  - intros (_ & _ & -> & ?). by exists ().
Qed.

Lemma walk_skips at_ segs :
  B".." ∉ segs -> walk_segments at_ segs = at_ ++ List.filter (fun seg => negb (skipped_segment seg)) segs.
Proof.
  revert at_. induction segs as [|seg segs IH]; intros at_ Hd; cbn; [by rewrite app_nil_r|].
  apply not_elem_of_cons in Hd as [Hne Hd]. unfold skipped_segment at 1.
  destruct (bytes_eqb seg [] || bytes_eqb seg (B".")) eqn:E; cbn; [by apply IH|].
  rewrite (proj2 (bytes_eqb_false seg (B".."))) by congruence. by rewrite IH, <- app_assoc.
Qed.

Lemma path_segments_no_slash path : Forall (fun seg => "/"%byte ∉ seg) (path_segments path).
Proof.
  unfold path_segments. apply List.Forall_forall. intros seg [Hin _]%filter_In.
  pose proof (split_by_segments (byte_eqb "/") path) as HF. rewrite List.Forall_forall in HF.
  specialize (HF _ Hin). intros Hs. rewrite Forall_forall in HF. specialize (HF _ Hs).
  by rewrite byte_eqb_refl in HF.
Qed.

Lemma filter_normal segs :
  Forall normal_segment segs -> List.filter (fun seg => negb (skipped_segment seg)) segs = segs.
Proof.
  induction 1 as [|seg segs (H1 & H2 & _) _ IH]; cbn; [done|]. unfold skipped_segment at 1.
  rewrite (proj2 (bytes_eqb_false _ _) H1), (proj2 (bytes_eqb_false _ _) H2). cbn. by rewrite IH.
Qed.

(** A list of names survives being written as a path and read again. *)
Lemma normalize_join segs :
  segs <> [] -> Forall normal_segment segs -> Forall (fun seg => "/"%byte ∉ seg) segs ->
  normalize_relative_path (join_with "/" segs) = Ok segs.
Proof.
  intros Hne Hn Hs. assert (E : split_on "/" (join_with "/" segs) = segs) by (by apply split_join).
  apply normalize_relative_path_Ok. unfold path_segments. rewrite E, filter_normal by done. split_and!; try done.
  - apply not_true_is_false. intros (rest & Hr)%(starts_with_split "/"). rewrite E in Hr. subst.
    apply Forall_cons in Hn as [[] _]. done.
  - intros Hd. rewrite Forall_forall in Hn. by destruct (Hn _ Hd) as (_ & _ & ?).
Qed.

(** Note (containment).  A path that normalises names, joined to any root, exactly the
    root followed by its non-empty list of ordinary names: it cannot leave the
    workspace or be the workspace; and normalising the result changes nothing.  The
    sidecar and the agent use this one function. *)
Theorem normalized_path_contained root path clean :
  normalize_relative_path path = Ok clean ->
  lexical_join root path = root ++ clean /\ clean <> [] /\ Forall normal_segment clean /\
  normalize_relative_path (join_with "/" clean) = Ok clean.
Proof.
  intros (Ha & Hd & -> & Hne)%normalize_relative_path_Ok.
  pose proof (path_segments_no_dotdot _ Hd). split_and!; try done.
  - unfold lexical_join. unfold is_absolute in Ha. rewrite Ha. by apply walk_skips.
  - apply normalize_join; [done..|apply path_segments_no_slash].
Qed.

(** Note (accepted paths).  Refused are exactly the absolute paths, those with a [..]
    segment, and those that name nothing. *)
Theorem normalize_relative_path_exact path :
  (exists clean, normalize_relative_path path = Ok clean) <->
  is_absolute path = false /\ B".." ∉ split_on "/" path /\ path_segments path <> [].
Proof. setoid_rewrite normalize_relative_path_Ok. naive_solver. Qed.

Lemma normalized_path_contained_witness :
  lexical_join [B"srv"; B"ws"] (B"./src//lib.rs") = [B"srv"; B"ws"] ++ [B"src"; B"lib.rs"].
Proof. apply (normalized_path_contained [B"srv"; B"ws"] (B"./src//lib.rs") [B"src"; B"lib.rs"]). by vm_compute. Defined.
