(* ===== verification/Protocol.v ===== *)
(** * The agent RPC: messages and frames (crates/nrm-protocol/src/lib.rs)

    The message types of the sidecar/agent RPC, and the length-prefixed frames
    that carry them.  postcard, the serde codec, is a parameter: a [Codec] of the
    message type, whose only law is that it decodes what it encoded. *)
From S2P Require Import Prelude.

Definition PROTOCOL_VERSION : Z := 8.
Definition MAX_FRAME_LEN : Z := 64 * 1024 * 1024.
Definition MAX_CONFLICT_CONTENT_BYTES : Z := 4 * 1024 * 1024.

(** The runtime capabilities (runtime.rs), needed by [supports_runtime]. *)
Inductive RuntimeCapability := ProcessPipeV1 | ProcessPtyV1 | WorkspaceWatchV1.
#[export] Instance RuntimeCapability_eq_dec : EqDecision RuntimeCapability.
Proof. solve_decision. Defined.

Record CapabilitySet := {
  scan : bool; read : bool; write_cas : bool; checksum : bool; grep : bool;
  lsp_proxy : bool; batch_read : bool; batch_validate : bool; chunked_write : bool;
  request_ids : bool; cancellation : bool; streaming : bool; multiplexing : bool;
  git : bool; runtime_process_v1 : bool; runtime_pty_v1 : bool; workspace_watch_v1 : bool }.

Definition v1_agent : CapabilitySet := {|
  scan := true; read := true; write_cas := true; checksum := true; grep := true;
  lsp_proxy := false; batch_read := true; batch_validate := true; chunked_write := true;
  request_ids := true; cancellation := false; streaming := false; multiplexing := false;
  git := true; runtime_process_v1 := false; runtime_pty_v1 := false;
  workspace_watch_v1 := false |}.

Definition supports_runtime (caps : CapabilitySet) (capability : RuntimeCapability) : bool :=
  match capability with
  | ProcessPipeV1 => runtime_process_v1 caps
  | ProcessPtyV1 => runtime_pty_v1 caps
  | WorkspaceWatchV1 => workspace_watch_v1 caps
  end.

(** ** Messages *)

Record FileMeta := {
  fm_path : bytes; fm_size : Z; fm_mtime_ms : Z; fm_mode : Z;
  fm_is_dir : bool; fm_is_symlink : bool; fm_hash : option bytes }.
Record SearchHit := { sh_path : bytes; sh_line : Z; sh_column : Z; sh_text : bytes }.
Record GitCommandOutput := {
  go_stdout : bytes; go_stderr : bytes; go_status_code : option Z; go_truncated : bool }.
Record BatchReadFile := {
  brf_path : bytes; brf_content : bytes; brf_hash : bytes; brf_meta : FileMeta }.
Record BatchReadError := { bre_path : bytes; bre_message : bytes }.
Record BatchValidateFile := { bvf_path : bytes; bvf_meta : option FileMeta }.
Record SaveApplied := { sa_path : bytes; sa_new_hash : bytes; sa_size : Z; sa_mtime_ms : Z }.
Record SaveConflict := {
  sc_path : bytes; sc_expected_hash : option bytes; sc_actual_hash : option bytes;
  sc_remote_content : bytes; sc_remote_content_truncated : bool; sc_remote_size : option Z }.
Inductive SaveOutcome := SaveOutcome_Applied (a : SaveApplied) | SaveOutcome_Conflict (c : SaveConflict).
Record WriteStarted := { ws_upload_id : bytes }.
Inductive WriteStartOutcome :=
| WriteStart_Started (s : WriteStarted)
| WriteStart_Conflict (c : SaveConflict).

Inductive Request :=
| Request_Hello (client_version : bytes) (protocol_version : Z)
| Request_Scan (limit : Z) (after : option bytes)
| Request_Stat (path : bytes)
| Request_Checksum (path : bytes)
| Request_ValidateFiles (paths : list bytes) (include_hash : bool)
| Request_ReadFile (path : bytes) (offset : Z) (len : option Z)
| Request_ReadFiles (paths : list bytes) (max_file_bytes max_total_bytes : Z)
| Request_Grep (query : bytes) (limit : Z) (after : option bytes) (max_files max_file_bytes
    max_total_bytes : option Z) (session_id : option bytes)
| Request_GitStatus (paths : list bytes) (max_output_bytes : Z)
| Request_GitDiff (path : option bytes) (cached : bool) (max_output_bytes : Z)
| Request_GitBlame (path : bytes) (max_output_bytes : Z)
| Request_WriteFileCas (path : bytes) (expected_hash : option bytes) (content : bytes)
| Request_BeginWriteFileCas (path : bytes) (expected_hash : option bytes) (content_hash : bytes) (size : Z)
| Request_WriteFileChunk (upload_id : bytes) (offset : Z) (content : bytes)
| Request_FinishWriteFileCas (upload_id : bytes)
| Request_AbortWriteFileCas (upload_id : bytes)
| Request_Shutdown.

Inductive Response :=
| Response_Hello (agent_version : bytes) (protocol_version : Z) (capabilities : CapabilitySet)
| Response_Scan (entries : list FileMeta) (truncated : bool)
| Response_Stat (meta : option FileMeta)
| Response_Checksum (path : bytes) (hash : option bytes)
| Response_ValidateFiles (files : list BatchValidateFile) (errors : list BatchReadError)
| Response_ReadFile (path : bytes) (offset : Z) (eof : bool) (content hash : bytes) (meta : FileMeta)
| Response_ReadFiles (files : list BatchReadFile) (errors : list BatchReadError) (truncated : bool)
| Response_Grep (hits : list SearchHit) (truncated : bool) (next_after session_id : option bytes)
    (scanned_files : Z)
| Response_Git (output : GitCommandOutput)
| Response_WriteFileCas (outcome : SaveOutcome)
| Response_BeginWriteFileCas (outcome : WriteStartOutcome)
| Response_WriteFileChunk (upload_id : bytes) (accepted : Z)
| Response_FinishWriteFileCas (outcome : SaveOutcome)
| Response_AbortWriteFileCas (upload_id : bytes)
| Response_Ack
| Response_Error (message : bytes).

Inductive RpcErrorCode := RpcErrorCode_Agent | RpcErrorCode_Protocol | RpcErrorCode_Cancelled | RpcErrorCode_Unsupported.
Record RpcError := { rpc_code : RpcErrorCode; rpc_message : bytes; rpc_retryable : bool }.
Definition rpc_error_agent (message : bytes) : RpcError :=
  {| rpc_code := RpcErrorCode_Agent; rpc_message := message; rpc_retryable := false |}.
Definition rpc_error_protocol (message : bytes) : RpcError :=
  {| rpc_code := RpcErrorCode_Protocol; rpc_message := message; rpc_retryable := false |}.

Inductive RpcMessage :=
| RpcMessage_Request (id : Z) (request : Request)
| RpcMessage_Response (id : Z) (response : Response)
| RpcMessage_Error (id : Z) (error : RpcError)
| RpcMessage_Cancel (id : Z).

(** ** Readers, writers and codecs *)

(** [io::ErrorKind], as far as frames distinguish it. *)
Inductive io_error := UnexpectedEof | OtherIo (kind : Z).

(** A reader: the bytes it still delivers and how it ends (clean end of input,
    or an I/O error). *)
Record reader := { rd_data : bytes; rd_end : option io_error }.

(** [Read::read_exact(n)]: a short input consumes what there is. *)
Definition read_exact (n : nat) (r : reader) : result io_error bytes * reader :=
  if (n <=? length (rd_data r))%nat
  then (Ok (take n (rd_data r)), {| rd_data := drop n (rd_data r); rd_end := rd_end r |})
  else (Err (default UnexpectedEof (rd_end r)), {| rd_data := []; rd_end := rd_end r |}).

(** [reader.by_ref().take(n).read_to_end(..)]: at most [n] bytes, fewer at a
    clean end of input, an error if the reader fails before [n] bytes. *)
Definition take_read_to_end (n : nat) (r : reader) : result io_error bytes * reader :=
  if (n <=? length (rd_data r))%nat
  then (Ok (take n (rd_data r)), {| rd_data := drop n (rd_data r); rd_end := rd_end r |})
  else (match rd_end r with Some e => Err e | None => Ok (rd_data r) end,
        {| rd_data := []; rd_end := rd_end r |}).

(** A writer: what it accepted so far, how many more bytes it accepts before it
    fails ([None]: any number), and whether a flush succeeds. *)
Record writer := { wr_out : bytes; wr_room : option nat; wr_flush : bool }.

Definition write_all (bs : bytes) (w : writer) : result io_error unit * writer :=
  match wr_room w with
  | None => (Ok (), {| wr_out := wr_out w ++ bs; wr_room := None; wr_flush := wr_flush w |})
  | Some n =>
      if (length bs <=? n)%nat
      then (Ok (), {| wr_out := wr_out w ++ bs; wr_room := Some (n - length bs)%nat; wr_flush := wr_flush w |})
      else (Err (OtherIo 0), {| wr_out := wr_out w ++ take n bs; wr_room := Some 0%nat; wr_flush := wr_flush w |})
  end.
Definition flush (w : writer) : result io_error unit :=
  if wr_flush w then Ok () else Err (OtherIo 0).

(** postcard at one message type. *)
Class Codec (T : Type) := {
  codec_error : Type;
  to_allocvec : T -> result codec_error bytes;
  from_bytes : bytes -> result codec_error T }.
(** What the frames rely on: decoding inverts encoding. *)
Class CodecLaws (T : Type) `{Codec T} :=
  from_to_bytes : forall v bs, to_allocvec v = Ok bs -> from_bytes bs = Ok v.
Arguments codec_error T {_}.

(** ** Frames *)

Inductive FrameError {T} `{Codec T} :=
| FrameError_TooLarge (len : Z)
| FrameError_Io (e : io_error)
| FrameError_Codec (e : codec_error T).
Arguments FrameError T {_}.

Section Frames.
Context {T : Type} `{Codec T}.

Definition write_frame (w : writer) (value : T) : result (FrameError T) unit * writer :=
  match to_allocvec value with
  | Err e => (Err (FrameError_Codec e), w)
  | Ok bs =>
      if zlen bs >? MAX_FRAME_LEN then (Err (FrameError_TooLarge (zlen bs)), w)
      else
        let '(r1, w) := write_all (be_bytes32 (zlen bs)) w in
        match r1 with
        | Err e => (Err (FrameError_Io e), w)
        | Ok _ =>
            let '(r2, w) := write_all bs w in
            match r2 with
            | Err e => (Err (FrameError_Io e), w)
            | Ok _ => (map_err FrameError_Io (flush w), w)
            end
        end
  end.

Definition read_frame (r : reader) : result (FrameError T) T * reader :=
  let '(len_buf, r) := read_exact 4 r in
  match len_buf with
  | Err e => (Err (FrameError_Io e), r)
  | Ok len_buf =>
      let len := match len_buf with [a; b; c; d] => of_be_bytes32 a b c d | _ => 0 end in
      if len >? MAX_FRAME_LEN then (Err (FrameError_TooLarge len), r)
      else
        let '(body, r) := take_read_to_end (Z.to_nat len) r in
        match body with
        | Err e => (Err (FrameError_Io e), r)
        | Ok bs =>
            if zlen bs =? len then (map_err FrameError_Codec (from_bytes bs), r)
            else (Err (FrameError_Io UnexpectedEof), r)
        end
  end.

(** The values a peer reads until the first error: the [read_frame] loop of
    the agent and of the sidecar's worker. *)
Fixpoint read_frames (fuel : nat) (r : reader) : list T * result (FrameError T) unit :=
  match fuel with
  | O => ([], Ok ())
  | S fuel =>
      match read_frame r with
      | (Err e, _) => ([], Err e)
      | (Ok v, r) => let '(vs, e) := read_frames fuel r in (v :: vs, e)
      end
  end.

Fixpoint write_frames (w : writer) (vs : list T) : result (FrameError T) unit * writer :=
  match vs with
  | [] => (Ok (), w)
  | v :: vs => match write_frame w v with
               | (Err e, w) => (Err e, w)
               | (Ok _, w) => write_frames w vs
               end
  end.
End Frames.

(** ** Lemmas on readers and frames *)

(** The bytes of a frame around an encoded value. *)
Definition frame_bytes (bs : bytes) : bytes := be_bytes32 (zlen bs) ++ bs.

Lemma read_exact_app xs rest e :
  read_exact (length xs) {| rd_data := xs ++ rest; rd_end := e |} =
    (Ok xs, {| rd_data := rest; rd_end := e |}).
Proof.
  unfold read_exact. cbn [rd_data rd_end].
  replace (length xs <=? length (xs ++ rest))%nat with true
    by (symmetry; apply Nat.leb_le; rewrite length_app; lia).
  by rewrite take_app_length, drop_app_length.
Qed.

Lemma take_read_to_end_app xs rest e :
  take_read_to_end (length xs) {| rd_data := xs ++ rest; rd_end := e |} =
    (Ok xs, {| rd_data := rest; rd_end := e |}).
Proof.
  unfold take_read_to_end. cbn [rd_data rd_end].
  replace (length xs <=? length (xs ++ rest))%nat with true
    by (symmetry; apply Nat.leb_le; rewrite length_app; lia).
  by rewrite take_app_length, drop_app_length.
Qed.

Lemma write_all_Ok bs w u w' : write_all bs w = (Ok u, w') -> wr_out w' = wr_out w ++ bs.
Proof.
  unfold write_all. destruct (wr_room w) as [n|].
  - destruct (_ <=? _)%nat; naive_solver.
  - naive_solver.
Qed.

Lemma of_be_bytes32_zlen (bs : bytes) :
  zlen bs <= u32_max ->
  match be_bytes32 (zlen bs) with [a; b; c; d] => of_be_bytes32 a b c d | _ => 0 end = zlen bs.
Proof. intros. apply be_bytes32_roundtrip. pose proof (zlen_nonneg bs). lia. Qed.

Lemma zlen_to_nat {A} (l : list A) : Z.to_nat (zlen l) = length l.
Proof. unfold zlen. lia. Qed.

(** A reader that holds fewer than [n] bytes and ends cleanly. *)
Lemma read_exact_short n d :
  (length d < n)%nat ->
  read_exact n {| rd_data := d; rd_end := None |} = (Err UnexpectedEof, {| rd_data := []; rd_end := None |}).
Proof.
  intros Hd. unfold read_exact. cbn [rd_data rd_end].
  by replace (n <=? length d)%nat with false by (symmetry; apply Nat.leb_gt; lia).
Qed.

Lemma take_read_to_end_short n d :
  (length d < n)%nat ->
  take_read_to_end n {| rd_data := d; rd_end := None |} = (Ok d, {| rd_data := []; rd_end := None |}).
Proof.
  intros Hd. unfold take_read_to_end. cbn [rd_data rd_end].
  by replace (n <=? length d)%nat with false by (symmetry; apply Nat.leb_gt; lia).
Qed.

Lemma read_exact_drop n r x r' :
  read_exact n r = (x, r') -> exists k, (k <= n)%nat /\ rd_data r' = drop k (rd_data r).
Proof.
  unfold read_exact. destruct (Nat.leb_spec n (length (rd_data r))); intros [= <- <-]; cbn.
  - by exists n.
  - exists (length (rd_data r)). split; [lia | by rewrite drop_all].
Qed.

Lemma take_read_to_end_drop n r x r' :
  take_read_to_end n r = (x, r') -> exists k, (k <= n)%nat /\ rd_data r' = drop k (rd_data r).
Proof.
  unfold take_read_to_end. destruct (Nat.leb_spec n (length (rd_data r))); intros [= <- <-]; cbn.
  - by exists n.
  - exists (length (rd_data r)). split; [lia | by rewrite drop_all].
Qed.

Section FrameLemmas.
Context {T : Type} `{Codec T}.

Lemma write_frame_Ok w (v : T) u w' :
  write_frame w v = (Ok u, w') ->
  exists bs, to_allocvec v = Ok bs /\ zlen bs <= MAX_FRAME_LEN /\
    wr_out w' = wr_out w ++ frame_bytes bs.
Proof.
  unfold write_frame, frame_bytes. destruct (to_allocvec v) as [bs|]; [|done].
  rewrite Z.gtb_ltb. destruct (Z.ltb_spec MAX_FRAME_LEN (zlen bs)); [done|].
  destruct (write_all (be_bytes32 (zlen bs)) w) as [[[]|] w1] eqn:E1; [|done].
  destruct (write_all bs w1) as [[[]|] w2] eqn:E2; [|done].
  intros [= _ <-]. exists bs. split; [done|]. split; [done|].
  apply write_all_Ok in E1, E2. by rewrite E2, E1, <- app_assoc.
Qed.

Lemma read_frame_app bs rest e :
  zlen bs <= MAX_FRAME_LEN ->
  read_frame {| rd_data := frame_bytes bs ++ rest; rd_end := e |} =
    (map_err FrameError_Codec (from_bytes (T := T) bs), {| rd_data := rest; rd_end := e |}).
Proof.
  intros Hbs. unfold read_frame, frame_bytes. rewrite <- app_assoc.
  change 4%nat with (length (be_bytes32 (zlen bs))). rewrite read_exact_app. cbv zeta iota beta.
  rewrite of_be_bytes32_zlen by (unfold MAX_FRAME_LEN, u32_max in *; lia).
  rewrite Z.gtb_ltb. destruct (Z.ltb_spec MAX_FRAME_LEN (zlen bs)); [lia|].
  rewrite zlen_to_nat, take_read_to_end_app. by rewrite Z.eqb_refl.
Qed.

Lemma read_frame_prefix bs n :
  zlen bs <= MAX_FRAME_LEN -> (n < length (frame_bytes bs))%nat ->
  fst (read_frame (T := T) {| rd_data := take n (frame_bytes bs); rd_end := None |}) =
    Err (FrameError_Io UnexpectedEof).
Proof.
  intros Hbs Hn. unfold read_frame.
  destruct (decide (n < 4)%nat) as [Hn4|Hn4].
  - by rewrite read_exact_short by (rewrite length_take; lia).
  - unfold frame_bytes in *. rewrite length_app in Hn. cbn [length be_bytes32] in Hn.
    rewrite take_app. rewrite take_ge by (cbn; lia).
    change 4%nat with (length (be_bytes32 (zlen bs))) at 1. rewrite read_exact_app. cbv zeta iota beta.
    rewrite of_be_bytes32_zlen by (unfold MAX_FRAME_LEN, u32_max in *; lia).
    rewrite Z.gtb_ltb. destruct (Z.ltb_spec MAX_FRAME_LEN (zlen bs)); [lia|].
    cbn [length be_bytes32].
    rewrite take_read_to_end_short by (rewrite zlen_to_nat, length_take; lia).
    destruct (Z.eqb_spec (zlen (take (n - 4) bs)) (zlen bs)) as [E|]; [|done].
    unfold zlen in E. rewrite length_take in E. lia.
Qed.
End FrameLemmas.

(** ** Properties of the frames *)

Section FrameProperties.
Context {T : Type} `{CodecLaws T}.

(** Note (round trip).  Whatever a successful [write_frame] appends to the
    writer, [read_frame] at its start returns the value and leaves exactly
    the bytes that follow it. *)
Theorem frame_roundtrip w (v : T) u w' rest e :
  write_frame w v = (Ok u, w') ->
  exists out, wr_out w' = wr_out w ++ out /\
    read_frame {| rd_data := out ++ rest; rd_end := e |} = (Ok v, {| rd_data := rest; rd_end := e |}).
Proof.
  intros (bs & Henc & Hlen & Hout)%write_frame_Ok.
  exists (frame_bytes bs). split; [done|].
  by rewrite read_frame_app, (from_to_bytes v) by done.
Qed.

(** C39 (stream round trip).  A peer that reads what a sequence of
    successful [write_frame]s produced gets exactly the written values, in
    order, and then a clean end of input: framing neither merges, splits,
    drops nor invents messages. *)
Theorem frames_stream_roundtrip w (vs : list T) u w' :
  write_frames w vs = (Ok u, w') ->
  exists out, wr_out w' = wr_out w ++ out /\
    read_frames (S (length vs)) {| rd_data := out; rd_end := None |} =
      (vs, Err (FrameError_Io UnexpectedEof)).
Proof.
  revert w. induction vs as [|v vs IH]; intros w; cbn [write_frames].
  - intros [= <- <-]. exists []. by rewrite app_nil_r.
  - destruct (write_frame w v) as [[[]|] w1] eqn:E; [|done]. intros Hvs.
    apply write_frame_Ok in E as (bs & Henc & Hlen & Hout).
    destruct (IH w1 Hvs) as (out & Hw & Hread).
    exists (frame_bytes bs ++ out). split; [by rewrite Hw, Hout, <- app_assoc|].
    change (S (length (v :: vs))) with (S (S (length vs))). remember (S (length vs)) as fuel.
    cbn [read_frames]. rewrite read_frame_app, (from_to_bytes v) by done.
    cbn [map_err]. by rewrite Hread.
Qed.
End FrameProperties.

(** Note (truncation).  A proper prefix of a written frame is never decoded:
    every cut, inside the length or inside the body, is reported as
    [UnexpectedEof]. *)
Theorem truncated_frame_rejected {T} `{Codec T} w (v : T) u w' n :
  write_frame w v = (Ok u, w') ->
  (n < length (wr_out w') - length (wr_out w))%nat ->
  fst (read_frame (T := T) {| rd_data := take n (drop (length (wr_out w)) (wr_out w')); rd_end := None |}) =
    Err (FrameError_Io UnexpectedEof).
Proof.
  intros (bs & _ & Hlen & Hout)%write_frame_Ok Hn.
  rewrite Hout in Hn |- *. rewrite length_app in Hn. rewrite drop_app_length.
  apply read_frame_prefix; [done | lia].
Qed.

(** Note (bounded reads).  [read_frame] never consumes more than the length
    word and [MAX_FRAME_LEN] bytes, and it rejects an oversized length word
    before it reads any byte of the body. *)
Theorem read_frame_bounded {T} `{Codec T} r (x : result (FrameError T) T) r' :
  read_frame r = (x, r') ->
  (exists k, Z.of_nat k <= 4 + MAX_FRAME_LEN /\ rd_data r' = drop k (rd_data r)) /\
  (forall len, x = Err (FrameError_TooLarge len) ->
    MAX_FRAME_LEN < len /\ rd_data r' = drop 4 (rd_data r) /\ (4 <= length (rd_data r))%nat).
Proof.
  unfold read_frame. destruct (read_exact 4 r) as [[lb|e] r1] eqn:E1.
  2:{ intros [= <- <-]. apply read_exact_drop in E1 as (k & ? & ?).
      split; [exists k; unfold MAX_FRAME_LEN; split; [lia | done] | done]. }
  assert (Hr1 : rd_data r1 = drop 4 (rd_data r) /\ (4 <= length (rd_data r))%nat).
  { unfold read_exact in E1. destruct (Nat.leb_spec 4 (length (rd_data r))); naive_solver. }
  destruct Hr1 as [Hr1 H4]. assert (0 <= MAX_FRAME_LEN) by done. set (len := match lb with [a; b; c; d] => _ | _ => 0 end).
  rewrite Z.gtb_ltb. destruct (Z.ltb_spec MAX_FRAME_LEN len).
  { intros [= <- <-]. split; [exists 4%nat; unfold MAX_FRAME_LEN; split; [lia | done] | naive_solver]. }
  destruct (take_read_to_end (Z.to_nat len) r1) as [[bs|e] r2] eqn:E2;
    [destruct (_ =? _)|]; intros [= <- <-];
    apply take_read_to_end_drop in E2 as (k & ? & E2); rewrite Hr1, drop_drop in E2;
    (split; [exists (4 + k)%nat; split; [lia | done] |]); try done.
 
  intros l Hl. by destruct (from_bytes bs).
Qed.

(** ** Witnesses: the codec of raw byte strings *)

#[local] Instance raw_codec : Codec bytes := {| codec_error := unit; to_allocvec v := Ok v; from_bytes bs := Ok bs |}.
#[local] Instance raw_codec_laws : CodecLaws bytes.
Proof. intros v bs [= <-]. done. Qed.

Definition fresh_writer : writer := {| wr_out := []; wr_room := None; wr_flush := true |}.

Lemma frame_roundtrip_witness :
  exists out, wr_out (snd (write_frame fresh_writer (B"hello"))) = [] ++ out /\
    read_frame {| rd_data := out ++ B"next"; rd_end := None |} =
      (Ok (B"hello"), {| rd_data := B"next"; rd_end := None |}).
Proof. apply (frame_roundtrip fresh_writer (B"hello") ()). vm_compute. reflexivity. Defined.

Lemma frames_stream_roundtrip_witness :
  exists out, wr_out (snd (write_frames fresh_writer [B"one"; B""; B"three"])) = [] ++ out /\
    read_frames 4 {| rd_data := out; rd_end := None |} =
      ([B"one"; B""; B"three"], Err (FrameError_Io UnexpectedEof)).
Proof.
  apply (frames_stream_roundtrip fresh_writer [B"one"; B""; B"three"] ()).
  vm_compute. reflexivity.
Defined.

Lemma truncated_frame_rejected_witness :
  fst (read_frame (T := bytes) {| rd_data := take 6 (wr_out (snd (write_frame fresh_writer (B"hello")))); rd_end := None |}) =
    Err (FrameError_Io UnexpectedEof).
Proof.
  apply (truncated_frame_rejected fresh_writer (B"hello") () (snd (write_frame fresh_writer (B"hello"))) 6).
  - vm_compute. reflexivity.
  - vm_compute. lia.
Defined.

Lemma read_frame_bounded_witness :
  (exists k, Z.of_nat k <= 4 + MAX_FRAME_LEN /\ [] = drop k (B"bad")) /\
  (forall len, Err (FrameError_Io UnexpectedEof) = Err (A := bytes) (FrameError_TooLarge (T := bytes) len) ->
    MAX_FRAME_LEN < len /\ [] = drop 4 (B"bad") /\ (4 <= length (B"bad"))%nat).
Proof.
  apply (read_frame_bounded (T := bytes) {| rd_data := B"bad"; rd_end := None |} _ {| rd_data := []; rd_end := None |}).
  reflexivity.
Defined.
