(* ===== verification/RuntimeMessages.v ===== *)
(** * Runtime messages and their validation (crates/nrm-protocol/src/runtime.rs)

    The messages of the process/PTY/watch runtime stream, the checks every
    message passes before it is written and after it is read, and the frames of
    the stream. *)
From S2P Require Import Prelude Paths Protocol.

Definition RUNTIME_MAX_FRAME_LEN : Z := 256 * 1024.
Definition RUNTIME_MAX_DATA_CHUNK_LEN : Z := 64 * 1024.
Definition RUNTIME_MAX_WATCH_EVENTS : Z := 4096.
Definition RUNTIME_MAX_ARGV : Z := 1024.
Definition RUNTIME_MAX_ENV_CHANGES : Z := 2048.
Definition RUNTIME_MAX_PATH_BYTES : Z := 16 * 1024.
Definition RUNTIME_MAX_ERROR_MESSAGE_BYTES : Z := 8 * 1024.
Definition RUNTIME_MAX_PACKAGE_VERSION_BYTES : Z := 128.

(** ** Data *)

Inductive RuntimePeerRole := Client | Server.
Inductive RuntimeOutputStream := Stdout | Stderr | Pty.
Inductive RuntimeSignal := Interrupt | Terminate | Kill | Hangup.
Inductive RuntimePersistence := Attached | Detachable (ttl_ms : Z).

#[export] Instance RuntimePeerRole_eq_dec : EqDecision RuntimePeerRole.
Proof. solve_decision. Defined.
#[export] Instance RuntimeOutputStream_eq_dec : EqDecision RuntimeOutputStream.
Proof. solve_decision. Defined.

Record TerminalSize := {
  columns : Z; rows : Z; pixel_width : option Z; pixel_height : option Z }.
Record RuntimeEnvVar := { var_name : bytes; var_value : bytes }.
Record RuntimeEnvironment := { env_clear : bool; env_set : list RuntimeEnvVar; env_unset : list bytes }.
Inductive RuntimeCwd := WorkspaceRoot | WorkspaceRelative (path : bytes).
Record RuntimeProcessSpec := {
  argv : list bytes; cwd : RuntimeCwd; env : RuntimeEnvironment;
  persistence : RuntimePersistence; terminal_size : option TerminalSize;
  timeout_ms : option Z; max_output_bytes : option Z }.

(** [PtySessionId] is [[u8; 16]], [PtyAttachmentToken] is [[u8; 32]]. *)
Record PtySessionCredentials := { session_id : bytes; attachment_token : bytes }.

Inductive RuntimeExitStatus :=
| ExitCode (code : Z) | ExitSignal (signal : Z) | TimedOut | OutputLimit | ExitCancelled.
Inductive WorkspaceWatchEventKind := Created | Modified | Removed | Renamed (to : bytes).
Record WorkspaceWatchEvent := {
  event_path : bytes; event_kind : WorkspaceWatchEventKind; event_is_dir : bool }.
Inductive RuntimeErrorCode :=
| CodeProtocol | CodeUnsupported | CodeInvalidRequest | CodeSpawnFailed | CodeSessionNotFound
| CodeSessionInUse | CodeUnauthorized | CodeWrongWorkspace | CodeHistoryLost | CodeResourceLimit
| CodePersistenceUnavailable | CodePermissionDenied | CodeInternal.
Record RuntimeError := { error_code : RuntimeErrorCode; error_message : bytes; error_retryable : bool }.

Inductive RuntimeMessage :=
| ClientHello (package_version : bytes) (protocol_version : Z) (capability : RuntimeCapability)
| ServerHello (package_version : bytes) (protocol_version : Z) (capability : RuntimeCapability)
| Error (error : RuntimeError)
| StartProcess (request_id : Z) (spec : RuntimeProcessSpec)
| ProcessStarted (request_id process_id : Z) (session : option PtySessionCredentials) (output_offset : Z)
| AttachPty (request_id : Z) (credentials : PtySessionCredentials) (replay_from : option Z)
| PtyAttached (request_id process_id : Z) (session : bytes) (output_offset : Z)
| Input (process_id offset : Z) (data : bytes)
| InputAck (process_id next_offset : Z)
| CloseInput (process_id next_offset : Z)
| Output (process_id : Z) (stream : RuntimeOutputStream) (offset : Z) (data : bytes)
| OutputAck (process_id : Z) (stream : RuntimeOutputStream) (next_offset : Z)
| OutputGap (process_id requested_offset available_offset : Z) (screen_snapshot : bytes)
| Resize (process_id : Z) (size : TerminalSize)
| Signal (process_id : Z) (signal : RuntimeSignal)
| Detach (process_id : Z)
| Detached (process_id : Z) (session : bytes)
| Exited (process_id : Z) (status : RuntimeExitStatus) (output_truncated : bool)
| WatchStart (request_id : Z) (resume_from : option Z)
| WatchStarted (request_id watch_id next_sequence : Z)
| WatchEvents (watch_id sequence : Z) (events : list WorkspaceWatchEvent)
| WatchAck (watch_id next_sequence : Z)
| WatchOverflow (watch_id sequence next_sequence : Z)
| WatchStop (watch_id : Z)
| WatchStopped (watch_id : Z).

Inductive RuntimeValidationError :=
| EmptyDataChunk
| DataChunkTooLarge (len : Z)
| DataOffsetOverflow
| EmptyPackageVersion
| PackageVersionTooLarge (len : Z)
| EmptyArgv
| TooManyArguments (n : Z)
| TooManyEnvironmentChanges (n : Z)
| EmptyEnvironmentName
| InvalidEnvironmentName
| DuplicateEnvironmentName (name : bytes)
| ContainsNul (what : string)
| ContainsControl (what : string)
| EmptyWorkspacePath
| WorkspacePathTooLarge (len : Z)
| InvalidWorkspacePath
| InvalidTerminalSize
| IncompleteTerminalPixelSize
| ZeroDetachTtl
| ZeroSessionCredential (what : string)
| ErrorMessageTooLarge (len : Z)
| EmptyWatchBatch
| TooManyWatchEvents (n : Z)
| InvalidWatchOverflow
| InvalidOutputGap.

(** ** Field checks *)

Abbreviation validation := (result RuntimeValidationError unit).

Definition reject_nul (name : string) (value : bytes) : validation :=
  fail_if (contains_byte x00 value) (ContainsNul name).

(** [value.chars().any(char::is_control)]: the control characters are U+0000 to
    U+001F and U+007F to U+009F; the latter block from U+0080 is encoded as the
    byte 0xC2 followed by 0x80 to 0x9F. *)
Fixpoint has_control_char (value : bytes) : bool :=
  match value with
  | [] => false
  | b :: rest =>
      is_ascii_control b
      || (byte_eqb b xc2 && match rest with c :: _ => in_range 128 159 c | [] => false end)
      || has_control_char rest
  end.

Definition reject_control (name : string) (value : bytes) : validation :=
  fail_if (has_control_char value) (ContainsControl name).

Definition validate_package_version (package_version : bytes) : validation :=
  _ ← fail_if (bytes_eqb package_version []) EmptyPackageVersion;
  _ ← fail_if (zlen package_version >? RUNTIME_MAX_PACKAGE_VERSION_BYTES)
        (PackageVersionTooLarge (zlen package_version));
  reject_nul "runtime package version" package_version.

Definition is_dot_segment (part : bytes) : bool := bytes_eqb part (B".") || bytes_eqb part (B"..").

Definition validate_workspace_path (path : bytes) : validation :=
  _ ← fail_if (bytes_eqb path []) EmptyWorkspacePath;
  _ ← fail_if (zlen path >? RUNTIME_MAX_PATH_BYTES) (WorkspacePathTooLarge (zlen path));
  fail_if (contains_byte x00 path
           || starts_with (B"/") path
           || starts_with (B"\") path
           || contains_byte "\" path
           || existsb (fun part => bytes_eqb part [] || is_dot_segment part) (split_on "/" path))
    InvalidWorkspacePath.

Definition validate_env_name (name : bytes) : validation :=
  _ ← fail_if (bytes_eqb name []) EmptyEnvironmentName;
  _ ← reject_nul "environment name" name;
  fail_if (contains_byte "=" name) InvalidEnvironmentName.

(** One round of the two loops of [validate_environment]: [names] is the
    [HashSet] of the names seen so far. *)
Definition insert_env_name (names : gset bytes) (name : bytes) : result RuntimeValidationError (gset bytes) :=
  _ ← fail_if (bool_decide (name ∈ names)) (DuplicateEnvironmentName name);
  Ok ({[name]} ∪ names).
Definition validate_env_set (names : gset bytes) (variable : RuntimeEnvVar) : result RuntimeValidationError (gset bytes) :=
  _ ← validate_env_name (var_name variable);
  _ ← reject_nul "environment value" (var_value variable);
  insert_env_name names (var_name variable).
Definition validate_env_unset (names : gset bytes) (name : bytes) : result RuntimeValidationError (gset bytes) :=
  _ ← validate_env_name name;
  insert_env_name names name.

Definition validate_environment (e : RuntimeEnvironment) : validation :=
  let changes := saturating_add (zlen (env_set e)) (zlen (env_unset e)) in
  _ ← fail_if (changes >? RUNTIME_MAX_ENV_CHANGES) (TooManyEnvironmentChanges changes);
  names ← try_fold validate_env_set ∅ (env_set e);
  _ ← try_fold validate_env_unset names (env_unset e);
  Ok ().

Definition validate_terminal_size (size : TerminalSize) : validation :=
  _ ← fail_if ((columns size =? 0) || (rows size =? 0)) InvalidTerminalSize;
  fail_if (negb (Bool.eqb (bool_decide (is_Some (pixel_width size))) (bool_decide (is_Some (pixel_height size)))))
    IncompleteTerminalPixelSize.

Definition validate_nonzero_id (name : string) (value : bytes) : validation :=
  fail_if (forallb (byte_eqb x00) value) (ZeroSessionCredential name).

Definition validate_credentials (credentials : PtySessionCredentials) : validation :=
  _ ← validate_nonzero_id "session ID" (session_id credentials);
  validate_nonzero_id "attachment token" (attachment_token credentials).

Definition validate_optional_data_chunk (data : bytes) : validation :=
  fail_if (zlen data >? RUNTIME_MAX_DATA_CHUNK_LEN) (DataChunkTooLarge (zlen data)).

Definition validate_data_chunk (offset : Z) (data : bytes) : validation :=
  _ ← fail_if (bytes_eqb data []) EmptyDataChunk;
  _ ← validate_optional_data_chunk data;
  _ ← ok_or (checked_add offset (zlen data)) DataOffsetOverflow;
  Ok ().

Definition validate_process_spec (spec : RuntimeProcessSpec) : validation :=
  _ ← fail_if (bool_decide (argv spec = [])) EmptyArgv;
  _ ← fail_if (zlen (argv spec) >? RUNTIME_MAX_ARGV) (TooManyArguments (zlen (argv spec)));
  _ ← try_each (fun arg => _ ← reject_nul "runtime argument" arg; reject_control "runtime argument" arg)
        (argv spec);
  _ ← match cwd spec with WorkspaceRelative path => validate_workspace_path path | WorkspaceRoot => Ok () end;
  _ ← validate_environment (env spec);
  _ ← match persistence spec with
      | Detachable ttl_ms => fail_if (ttl_ms =? 0) ZeroDetachTtl
      | Attached => Ok ()
      end;
  match terminal_size spec with Some size => validate_terminal_size size | None => Ok () end.

(** One event of a watch batch. *)
Definition validate_watch_event (event : WorkspaceWatchEvent) : validation :=
  _ ← validate_workspace_path (event_path event);
  match event_kind event with
  | Renamed to => validate_workspace_path to
  | Created | Modified | Removed => Ok ()
  end.

(** [RuntimeMessage::validate] *)
Definition validate (m : RuntimeMessage) : validation :=
  match m with
  | ClientHello package_version _ _ | ServerHello package_version _ _ =>
      validate_package_version package_version
  | Error error =>
      _ ← fail_if (zlen (error_message error) >? RUNTIME_MAX_ERROR_MESSAGE_BYTES)
            (ErrorMessageTooLarge (zlen (error_message error)));
      reject_nul "error message" (error_message error)
  | StartProcess _ spec => validate_process_spec spec
  | ProcessStarted _ _ session _ =>
      match session with Some session => validate_credentials session | None => Ok () end
  | AttachPty _ credentials _ => validate_credentials credentials
  | PtyAttached _ _ session _ | Detached _ session => validate_nonzero_id "PTY session ID" session
  | Input _ offset data | Output _ _ offset data => validate_data_chunk offset data
  | OutputGap _ requested_offset available_offset screen_snapshot =>
      _ ← fail_if (available_offset <=? requested_offset) InvalidOutputGap;
      validate_optional_data_chunk screen_snapshot
  | Resize _ size => validate_terminal_size size
  | WatchEvents _ _ events =>
      _ ← fail_if (bool_decide (zlen events = 0)) EmptyWatchBatch;
      _ ← fail_if (zlen events >? RUNTIME_MAX_WATCH_EVENTS) (TooManyWatchEvents (zlen events));
      try_each validate_watch_event events
  | WatchOverflow _ sequence next_sequence =>
      fail_if (next_sequence <=? sequence) InvalidWatchOverflow
  | InputAck _ _ | CloseInput _ _ | OutputAck _ _ _ | Signal _ _ | Detach _ | Exited _ _ _
  | WatchStart _ _ | WatchStarted _ _ _ | WatchAck _ _ | WatchStop _ | WatchStopped _ => Ok ()
  end.

(** [RuntimeMessage::sender] *)
Definition sender (m : RuntimeMessage) : RuntimePeerRole :=
  match m with
  | ClientHello _ _ _ | StartProcess _ _ | AttachPty _ _ _ | Input _ _ _ | CloseInput _ _
  | OutputAck _ _ _ | Resize _ _ | Signal _ _ | Detach _ | WatchStart _ _ | WatchAck _ _
  | WatchStop _ => Client
  | ServerHello _ _ _ | Error _ | ProcessStarted _ _ _ _ | PtyAttached _ _ _ _ | InputAck _ _
  | Output _ _ _ _ | OutputGap _ _ _ _ | Detached _ _ | Exited _ _ _ | WatchStarted _ _ _
  | WatchEvents _ _ _ | WatchOverflow _ _ _ | WatchStopped _ => Server
  end.

(** [RuntimeMessage::name] *)
Definition message_name (m : RuntimeMessage) : string :=
  match m with
  | ClientHello _ _ _ => "client_hello"
  | ServerHello _ _ _ => "server_hello"
  | Error _ => "error"
  | StartProcess _ _ => "start_process"
  | ProcessStarted _ _ _ _ => "process_started"
  | AttachPty _ _ _ => "attach_pty"
  | PtyAttached _ _ _ _ => "pty_attached"
  | Input _ _ _ => "input"
  | InputAck _ _ => "input_ack"
  | CloseInput _ _ => "close_input"
  | Output _ _ _ _ => "output"
  | OutputAck _ _ _ => "output_ack"
  | OutputGap _ _ _ _ => "output_gap"
  | Resize _ _ => "resize"
  | Signal _ _ => "signal"
  | Detach _ => "detach"
  | Detached _ _ => "detached"
  | Exited _ _ _ => "exited"
  | WatchStart _ _ => "watch_start"
  | WatchStarted _ _ _ => "watch_started"
  | WatchEvents _ _ _ => "watch_events"
  | WatchAck _ _ => "watch_ack"
  | WatchOverflow _ _ _ => "watch_overflow"
  | WatchStop _ => "watch_stop"
  | WatchStopped _ => "watch_stopped"
  end.

(** ** Frames of the runtime stream *)

Inductive RuntimeFrameError `{Codec RuntimeMessage} :=
| RuntimeFrame_TooLarge (len : Z)
| RuntimeFrame_Invalid (e : RuntimeValidationError)
| RuntimeFrame_Io (e : io_error)
| RuntimeFrame_Codec (e : codec_error RuntimeMessage).

Section RuntimeFrames.
Context `{Codec RuntimeMessage}.

Definition write_runtime_frame (w : writer) (message : RuntimeMessage) : result RuntimeFrameError unit * writer :=
  match validate message with
  | Err e => (Err (RuntimeFrame_Invalid e), w)
  | Ok _ =>
      match to_allocvec message with
      | Err e => (Err (RuntimeFrame_Codec e), w)
      | Ok bs =>
          if zlen bs >? RUNTIME_MAX_FRAME_LEN then (Err (RuntimeFrame_TooLarge (zlen bs)), w)
          else
            let '(r1, w) := write_all (be_bytes32 (zlen bs)) w in
            match r1 with
            | Err e => (Err (RuntimeFrame_Io e), w)
            | Ok _ =>
                let '(r2, w) := write_all bs w in
                match r2 with
                | Err e => (Err (RuntimeFrame_Io e), w)
                | Ok _ => (map_err RuntimeFrame_Io (flush w), w)
                end
            end
      end
  end.

Definition read_runtime_frame (r : reader) : result RuntimeFrameError RuntimeMessage * reader :=
  let '(len_buf, r) := read_exact 4 r in
  match len_buf with
  | Err e => (Err (RuntimeFrame_Io e), r)
  | Ok len_buf =>
      let len := match len_buf with [a; b; c; d] => of_be_bytes32 a b c d | _ => 0 end in
      if len >? RUNTIME_MAX_FRAME_LEN then (Err (RuntimeFrame_TooLarge len), r)
      else
        let '(body, r) := take_read_to_end (Z.to_nat len) r in
        match body with
        | Err e => (Err (RuntimeFrame_Io e), r)
        | Ok bs =>
            if zlen bs =? len
            then (message ← map_err RuntimeFrame_Codec (from_bytes bs);
                  _ ← map_err RuntimeFrame_Invalid (validate message);
                  Ok message, r)
            else (Err (RuntimeFrame_Io UnexpectedEof), r)
        end
  end.
End RuntimeFrames.

(** ** Workspace paths stay inside the workspace *)

Lemma segment_bad_false seg :
  (bytes_eqb seg [] || is_dot_segment seg) = false <-> normal_segment seg.
Proof.
  unfold is_dot_segment, normal_segment. rewrite !orb_false_iff, !bytes_eqb_false. tauto.
Qed.

Lemma validate_workspace_path_Ok path :
  validate_workspace_path path = Ok () <->
    zlen path <= RUNTIME_MAX_PATH_BYTES /\ x00 ∉ path /\ ("\"%byte) ∉ path /\
    Forall normal_segment (split_on "/" path).
Proof.
  unfold validate_workspace_path. rewrite !Z.gtb_ltb. split.
  - intros Hok. inv_ok. to_prop. repeat split; try done.
    eapply Forall_impl; [eassumption|]. intros seg Hseg. by apply segment_bad_false.
  - intros (Hlen & Hnul & Hback & Hsegs). apply Z.ltb_ge in Hlen. rewrite Hlen.
    destruct (bytes_eqb path []) eqn:E; [apply bytes_eqb_true in E as ->|cbn].
    { apply Forall_cons in Hsegs as [[] _]. done. }
    apply contains_byte_false in Hnul. rewrite Hnul, (proj2 (contains_byte_false _ _) Hback).
    assert (starts_with (B"/") path = false) as ->.
    { apply not_true_is_false. intros (segs & Hs)%(starts_with_split "/"). rewrite Hs in Hsegs.
      apply Forall_cons in Hsegs as [[] _]. done. }
    assert (starts_with (B"\") path = false) as ->.
    { apply not_true_is_false. intros (t & ->)%starts_with_spec. apply Hback. cbn. set_solver. }
    apply fail_if_Ok. cbn [orb]. apply existsb_false.
    eapply Forall_impl; [eassumption|]. intros seg. by apply segment_bad_false.
Qed.

(** Note (path safety).  A workspace path that passes validation names exactly
    the entry below the workspace root that its segments spell: joined to any
    root it neither escapes nor loses a segment, and it has no NUL and no
    backslash a Windows authority could read as a separator. *)
Theorem validated_path_is_contained root path :
  validate_workspace_path path = Ok () ->
  lexical_join root path = root ++ split_on "/" path /\
  split_on "/" path <> [] /\ x00 ∉ path /\ ("\"%byte) ∉ path.
Proof.
  intros (_ & ? & ? & Hsegs)%validate_workspace_path_Ok.
  split; [|split; [apply split_by_nonempty | done]]. unfold lexical_join.
  destruct (starts_with (B"/") path) eqn:E; [|by apply walk_normal].
  apply (starts_with_split "/") in E as (segs & E). rewrite E in Hsegs.
  apply Forall_cons in Hsegs as [[] _]. done.
Qed.

Lemma validated_path_is_contained_witness :
  lexical_join [B"srv"; B"ws"] (B"src/main.rs") = [B"srv"; B"ws"] ++ split_on "/" (B"src/main.rs") /\
  split_on "/" (B"src/main.rs") <> [] /\ x00 ∉ B"src/main.rs" /\ ("\"%byte) ∉ B"src/main.rs".
Proof. apply (validated_path_is_contained [B"srv"; B"ws"]). vm_compute. reflexivity. Defined.

(** ** Environments *)

Lemma validate_env_name_Ok name :
  validate_env_name name = Ok () <-> name <> [] /\ x00 ∉ name /\ ("="%byte) ∉ name.
Proof.
  unfold validate_env_name, reject_nul. split.
  - intros Hok. inv_ok. to_prop. done.
  - intros (H1 & H2 & H3). rewrite (proj2 (bytes_eqb_false _ _) H1). cbn.
    rewrite (proj2 (contains_byte_false _ _) H2). cbn.
    by rewrite (proj2 (contains_byte_false _ _) H3).
Qed.

(** What the two loops share: each accepts a name exactly when it is well formed
    and new, and adds it to the set. *)
Lemma env_loop_Ok {X} (name : X -> bytes) (good : X -> Prop)
    (step : gset bytes -> X -> result RuntimeValidationError (gset bytes)) l names names' :
  (forall names x names', step names x = Ok names' <->
    good x /\ name x ∉ names /\ names' = {[name x]} ∪ names) ->
  try_fold step names l = Ok names' <->
    Forall good l /\ NoDup (name <$> l) /\ (forall x, x ∈ l -> name x ∉ names) /\
    names' = list_to_set (name <$> l) ∪ names.
Proof.
  intros Hstep. revert names. induction l as [|x l IH]; intros names; cbn [try_fold].
  - split; [intros [= <-] | intros (_ & _ & _ & ->)]; cbn.
    + repeat split; [constructor | constructor | set_solver | set_solver].
    + f_equal. set_solver.
  - rewrite bind_Ok. setoid_rewrite IH. setoid_rewrite Hstep.
    rewrite Forall_cons, fmap_cons, NoDup_cons. split.
    + intros (n1 & (Hg & Hn & ->) & Hf & Hd & Hfresh & ->). cbn. repeat split; try done.
      * intros (y & Hy & Hin)%list_elem_of_fmap. apply (Hfresh y) in Hin. clear -Hy Hin. set_solver.
      * intros y [->|Hy]%elem_of_cons; [done|]. specialize (Hfresh y Hy). clear -Hfresh. set_solver.
      * clear. set_solver.
    + intros ((Hg & Hf) & (Hnin & Hd) & Hfresh & ->). exists ({[name x]} ∪ names).
      repeat split; try done.
      * apply Hfresh. by constructor.
      * intros y Hy. rewrite not_elem_of_union, not_elem_of_singleton. split.
        -- intros He. apply Hnin. rewrite <- He. by apply list_elem_of_fmap_2.
        -- apply Hfresh. by constructor.
      * cbn. clear. set_solver.
Qed.

Lemma insert_env_name_Ok names name names' :
  insert_env_name names name = Ok names' <-> name ∉ names /\ names' = {[name]} ∪ names.
Proof.
  unfold insert_env_name. destruct (bool_decide (name ∈ names)) eqn:E; to_prop; cbn; naive_solver.
Qed.

Lemma bind_unit_Ok {E A} (r : result E unit) (k : unit -> result E A) a :
  r ≫= k = Ok a <-> r = Ok () /\ k () = Ok a.
Proof. rewrite bind_Ok. split; [intros ([] & ?); done | naive_solver]. Qed.

(** Note (environment).  An environment change is accepted exactly when it has at
    most [RUNTIME_MAX_ENV_CHANGES] entries, every name is non-empty and free of
    NUL and [=], every value is free of NUL, and no name occurs twice among the
    set and unset names together. *)
Theorem validate_environment_exact e :
  validate_environment e = Ok () <->
    zlen (env_set e) + zlen (env_unset e) <= RUNTIME_MAX_ENV_CHANGES /\
    Forall (fun n => n <> [] /\ x00 ∉ n /\ ("="%byte) ∉ n) ((var_name <$> env_set e) ++ env_unset e) /\
    Forall (fun v => x00 ∉ var_value v) (env_set e) /\
    NoDup ((var_name <$> env_set e) ++ env_unset e).
Proof.
  assert (Hset : forall names v names', validate_env_set names v = Ok names' <->
    (validate_env_name (var_name v) = Ok () /\ x00 ∉ var_value v) /\
    var_name v ∉ names /\ names' = {[var_name v]} ∪ names).
  { intros. unfold validate_env_set, reject_nul.
    rewrite !bind_unit_Ok, fail_if_Ok, contains_byte_false, insert_env_name_Ok. tauto. }
  assert (Hunset : forall names n names', validate_env_unset names n = Ok names' <->
    validate_env_name n = Ok () /\ id n ∉ names /\ names' = {[id n]} ∪ names).
  { intros. unfold validate_env_unset. rewrite bind_unit_Ok, insert_env_name_Ok. done. }
  unfold validate_environment. cbv zeta. rewrite Z.gtb_ltb, bind_unit_Ok, fail_if_Ok, Z.ltb_ge, bind_Ok.
  setoid_rewrite bind_Ok.
  setoid_rewrite (env_loop_Ok _ _ _ _ _ _ Hset). setoid_rewrite (env_loop_Ok _ _ _ _ _ _ Hunset).
  assert (Hlen : saturating_add (zlen (env_set e)) (zlen (env_unset e)) <= RUNTIME_MAX_ENV_CHANGES <->
    zlen (env_set e) + zlen (env_unset e) <= RUNTIME_MAX_ENV_CHANGES).
  { unfold saturating_add, u64_max, RUNTIME_MAX_ENV_CHANGES. lia. }
  rewrite Hlen, list_fmap_id, Forall_app, Forall_fmap, NoDup_app.
  setoid_rewrite validate_env_name_Ok. split.
  - intros (Hle & names & (Hgood & Hnd & _ & ->) & _ & (Hgu & Hndu & Hfresh & _) & _).
    apply Forall_and in Hgood as [Hg Hv]. repeat split; try done.
    intros n Hn Hnu. apply (Hfresh n Hnu). cbn. set_solver.
  - intros (Hle & (Hg & Hgu) & Hv & Hnd & Hdisj & Hndu). split; [done|].
    eexists. split; [split; [by apply Forall_and|]; repeat split; [done | set_solver]|].
    eexists. split; [|done]. repeat split; try done. intros n Hn. cbn.
    rewrite elem_of_union, elem_of_list_to_set. intros [Hin|]; [|set_solver]. by apply (Hdisj n).
Qed.

(** ** Frames *)

Section RuntimeFrameProperties.
Context `{CodecLaws RuntimeMessage}.

Lemma write_runtime_frame_Ok w m u w' :
  write_runtime_frame w m = (Ok u, w') ->
  validate m = Ok () /\ exists bs, to_allocvec m = Ok bs /\ zlen bs <= RUNTIME_MAX_FRAME_LEN /\
    wr_out w' = wr_out w ++ frame_bytes bs.
Proof.
  unfold write_runtime_frame, frame_bytes. destruct (validate m) as [[]|]; [|done].
  destruct (to_allocvec m) as [bs|]; [|done].
  rewrite Z.gtb_ltb. destruct (Z.ltb_spec RUNTIME_MAX_FRAME_LEN (zlen bs)); [done|].
  destruct (write_all (be_bytes32 (zlen bs)) w) as [[[]|] w1] eqn:E1; [|done].
  destruct (write_all bs w1) as [[[]|] w2] eqn:E2; [|done].
  intros [= _ <-]. split; [done|]. exists bs. split; [done|]. split; [done|].
  apply write_all_Ok in E1, E2. by rewrite E2, E1, <- app_assoc.
Qed.

(** Note (runtime round trip).  A runtime message that was written is read back
    unchanged by the peer, which leaves exactly the bytes after the frame; in
    particular the reader's own validation never refuses it. *)
Theorem runtime_frame_roundtrip w m u w' rest e :
  write_runtime_frame w m = (Ok u, w') ->
  exists out, wr_out w' = wr_out w ++ out /\
    read_runtime_frame {| rd_data := out ++ rest; rd_end := e |} =
      (Ok m, {| rd_data := rest; rd_end := e |}).
Proof.
  intros (Hvalid & bs & Henc & Hlen & Hout)%write_runtime_frame_Ok.
  exists (frame_bytes bs). split; [done|].
  unfold read_runtime_frame, frame_bytes. rewrite <- app_assoc.
  change 4%nat with (length (be_bytes32 (zlen bs))). rewrite read_exact_app. cbv zeta iota beta.
  rewrite of_be_bytes32_zlen by (unfold RUNTIME_MAX_FRAME_LEN, u32_max in *; lia).
  rewrite Z.gtb_ltb. destruct (Z.ltb_spec RUNTIME_MAX_FRAME_LEN (zlen bs)); [lia|].
  rewrite zlen_to_nat, take_read_to_end_app, Z.eqb_refl, (from_to_bytes m) by done.
  cbn. by rewrite Hvalid.
Qed.
End RuntimeFrameProperties.

(** Note (gatekeeping).  Whatever bytes arrive, and whatever the codec makes of
    them, a message that [read_runtime_frame] hands to the program has passed
    [validate]; nothing unvalidated reaches the state machine. *)
Theorem read_runtime_frame_validates `{Codec RuntimeMessage} r m r' :
  read_runtime_frame r = (Ok m, r') -> validate m = Ok ().
Proof.
  unfold read_runtime_frame. destruct (read_exact 4 r) as [[lb|] r1]; [|done].
  destruct (_ >? _); [done|]. destruct (take_read_to_end _ r1) as [[bs|] r2]; [|done].
  destruct (_ =? _); [|done]. intros [= Hm _]. inv_ok.
  by match goal with u : unit |- _ => destruct u end.
Qed.

(** A codec of one message, for the witnesses. *)
#[local] Instance detach_codec : Codec RuntimeMessage := {|
  codec_error := unit;
  to_allocvec m := match m with
                   | Detach id => if (0 <=? id) && (id <=? 255) then Ok [byte_of id] else Err ()
                   | _ => Err () end;
  from_bytes bs := match bs with [b] => Ok (Detach (u8 b)) | _ => Err () end |}.
#[local] Instance detach_codec_laws : CodecLaws RuntimeMessage.
Proof.
  intros [] bs; cbn; try done. destruct (_ && _) eqn:E; [|done]. to_prop. intros [= <-].
  by rewrite u8_byte_of, Z.mod_small by lia.
Qed.

Lemma runtime_frame_roundtrip_witness :
  exists out, wr_out (snd (write_runtime_frame fresh_writer (Detach 23))) = [] ++ out /\
    read_runtime_frame {| rd_data := out ++ B"x"; rd_end := None |} =
      (Ok (Detach 23), {| rd_data := B"x"; rd_end := None |}).
Proof. apply (runtime_frame_roundtrip fresh_writer (Detach 23) ()). vm_compute. reflexivity. Defined.

Lemma read_runtime_frame_validates_witness : validate (Detach 7) = Ok ().
Proof.
  apply (read_runtime_frame_validates {| rd_data := be_bytes32 1 ++ [x07]; rd_end := None |} _
           {| rd_data := []; rd_end := None |}).
  vm_compute. reflexivity.
Defined.
