(* ===== verification/RuntimeMachine.v ===== *)
(** * The runtime stream state machine (crates/nrm-protocol/src/runtime.rs)

    [RuntimeStateMachine] follows one runtime stream: the hello exchange, then
    one process, PTY session or workspace watch.  Both peers run it over every
    message they send and receive. *)
From S2P Require Import Prelude Protocol RuntimeMessages.

(** [env!("CARGO_PKG_VERSION")], from the workspace manifest. *)
Definition CARGO_PKG_VERSION : bytes := B"0.2.0".

(** ** State *)

Record StreamOffsets := { next : Z; acked : Z }.
Definition StreamOffsets_default : StreamOffsets := {| next := 0; acked := 0 |}.

Record RuntimeProcessState := {
  process_id : Z;
  pty : bool;
  ps_session_id : option bytes;
  input_sent : Z;
  input_acked : Z;
  input_closed : bool;
  stdout : StreamOffsets;
  stderr : StreamOffsets;
  pty_output : StreamOffsets;
  gap_pending : option (Z * Z) }.

Record RuntimeWatchState := {
  watch_id : Z; next_sequence : Z; acked_sequence : Z; watch_gap_pending : option (Z * Z) }.

Inductive RuntimePhase :=
| AwaitClientHello
| AwaitServerHello (capability : RuntimeCapability)
| Ready (capability : RuntimeCapability)
| AwaitProcessStarted (capability : RuntimeCapability) (request_id : Z) (persistence : RuntimePersistence)
| AwaitPtyAttached (request_id : Z) (session : bytes) (replay_from : option Z)
| Running (process : RuntimeProcessState)
| AwaitDetached (process : RuntimeProcessState)
| AwaitWatchStarted (request_id : Z) (resume_from : option Z)
| Watching (watch : RuntimeWatchState)
| AwaitWatchStopped (watch : RuntimeWatchState)
| Closed.

Inductive RuntimeDirection := Inbound | Outbound.

Inductive RuntimeStateError :=
| InvalidMessage (e : RuntimeValidationError)
| WrongSender (message : string) (expected actual : RuntimePeerRole)
| UnexpectedMessage (state message : string)
| ProtocolVersionMismatch (expected actual : Z)
| PackageVersionMismatch (expected actual : bytes)
| UnsupportedCapability (c : RuntimeCapability)
| CapabilityMismatch (expected actual : RuntimeCapability)
| RequestIdMismatch (expected actual : Z)
| ProcessIdMismatch (expected actual : Z)
| WatchIdMismatch (expected actual : Z)
| SessionIdMismatch
| InvalidProcessSpec (capability : RuntimeCapability) (reason : string)
| InputClosed
| OffsetMismatch (channel : string) (expected actual : Z)
| AckRegressed (channel : string) (previous actual : Z)
| AckBeyondSent (channel : string) (sent actual : Z)
| WrongOutputStream (stream : RuntimeOutputStream)
| OutputGapMismatch
| OutputBeforeGap
| WatchSequenceOverflow
| WatchEventBeforeOverflow
| WatchOverflowMismatch
(** Not an error value of the code: the [unreachable!()] arm of [apply_message]. *)
| UnreachablePanic.

Abbreviation machine_result := (result RuntimeStateError).

(** [RuntimePhase::name] *)
Definition phase_name (phase : RuntimePhase) : string :=
  match phase with
  | AwaitClientHello => "await_client_hello"
  | AwaitServerHello _ => "await_server_hello"
  | Ready _ => "ready"
  | AwaitProcessStarted _ _ _ => "await_process_started"
  | AwaitPtyAttached _ _ _ => "await_pty_attached"
  | Running _ => "running"
  | AwaitDetached _ => "await_detached"
  | AwaitWatchStarted _ _ => "await_watch_started"
  | Watching _ => "watching"
  | AwaitWatchStopped _ => "await_watch_stopped"
  | Closed => "closed"
  end.

(** [RuntimePhase::capability] *)
Definition phase_capability (phase : RuntimePhase) : option RuntimeCapability :=
  match phase with
  | AwaitClientHello | Closed => None
  | AwaitServerHello capability | Ready capability | AwaitProcessStarted capability _ _ => Some capability
  | AwaitPtyAttached _ _ _ => Some ProcessPtyV1
  | Running process | AwaitDetached process =>
      Some (if pty process then ProcessPtyV1 else ProcessPipeV1)
  | AwaitWatchStarted _ _ | Watching _ | AwaitWatchStopped _ => Some WorkspaceWatchV1
  end.

(** ** Constructors and field updates *)

Definition new_pipe (id : Z) : RuntimeProcessState := {|
  process_id := id; pty := false; ps_session_id := None; input_sent := 0; input_acked := 0;
  input_closed := false; stdout := StreamOffsets_default; stderr := StreamOffsets_default;
  pty_output := StreamOffsets_default; gap_pending := None |}.

Definition new_pty (id : Z) (session : option bytes) (output_offset : Z) (gap : option (Z * Z)) : RuntimeProcessState := {|
  process_id := id; pty := true; ps_session_id := session; input_sent := 0; input_acked := 0;
  input_closed := false; stdout := StreamOffsets_default; stderr := StreamOffsets_default;
  pty_output := {| next := output_offset; acked := output_offset |}; gap_pending := gap |}.

Definition set_input (p : RuntimeProcessState) (sent acked_ : Z) (closed : bool) : RuntimeProcessState := {|
  process_id := process_id p; pty := pty p; ps_session_id := ps_session_id p;
  input_sent := sent; input_acked := acked_; input_closed := closed;
  stdout := stdout p; stderr := stderr p; pty_output := pty_output p; gap_pending := gap_pending p |}.
Definition clear_gap (p : RuntimeProcessState) : RuntimeProcessState := {|
  process_id := process_id p; pty := pty p; ps_session_id := ps_session_id p;
  input_sent := input_sent p; input_acked := input_acked p; input_closed := input_closed p;
  stdout := stdout p; stderr := stderr p; pty_output := pty_output p; gap_pending := None |}.

(** [stream_mut]: the offsets of a stream of this kind of process, and the
    write through the mutable reference. *)
Definition stream_of (p : RuntimeProcessState) (stream : RuntimeOutputStream) : machine_result StreamOffsets :=
  match pty p, stream with
  | true, Pty => Ok (pty_output p)
  | false, Stdout => Ok (stdout p)
  | false, Stderr => Ok (stderr p)
  | _, _ => Err (WrongOutputStream stream)
  end.
Definition set_stream (p : RuntimeProcessState) (stream : RuntimeOutputStream) (o : StreamOffsets) : RuntimeProcessState := {|
  process_id := process_id p; pty := pty p; ps_session_id := ps_session_id p;
  input_sent := input_sent p; input_acked := input_acked p; input_closed := input_closed p;
  stdout := match stream with Stdout => o | _ => stdout p end;
  stderr := match stream with Stderr => o | _ => stderr p end;
  pty_output := match stream with Pty => o | _ => pty_output p end;
  gap_pending := gap_pending p |}.

(** ** Shared checks *)

Definition expect_request_id (expected actual : Z) : machine_result unit :=
  fail_if (negb (expected =? actual)) (RequestIdMismatch expected actual).
Definition expect_process_id (expected actual : Z) : machine_result unit :=
  fail_if (negb (expected =? actual)) (ProcessIdMismatch expected actual).
Definition expect_watch_id (expected actual : Z) : machine_result unit :=
  fail_if (negb (expected =? actual)) (WatchIdMismatch expected actual).
Definition expect_offset (channel : string) (expected actual : Z) : machine_result unit :=
  fail_if (negb (expected =? actual)) (OffsetMismatch channel expected actual).

(** Returns the new value of [*previous]. *)
Definition apply_scalar_ack (channel : string) (sent previous actual : Z) : machine_result Z :=
  _ ← fail_if (actual <? previous) (AckRegressed channel previous actual);
  _ ← fail_if (actual >? sent) (AckBeyondSent channel sent actual);
  Ok actual.

Definition apply_ack (channel : string) (offsets : StreamOffsets) (actual : Z) : machine_result StreamOffsets :=
  a ← apply_scalar_ack channel (next offsets) (acked offsets) actual;
  Ok {| next := next offsets; acked := a |}.

Definition validate_protocol_and_capability (supported : CapabilitySet) (package_version : bytes)
    (protocol_version : Z) (capability : RuntimeCapability) : machine_result unit :=
  _ ← fail_if (negb (bytes_eqb package_version CARGO_PKG_VERSION))
        (PackageVersionMismatch CARGO_PKG_VERSION package_version);
  _ ← fail_if (negb (protocol_version =? PROTOCOL_VERSION))
        (ProtocolVersionMismatch PROTOCOL_VERSION protocol_version);
  fail_if (negb (supports_runtime supported capability)) (UnsupportedCapability capability).

Definition validate_spec_for_capability (capability : RuntimeCapability) (spec : RuntimeProcessSpec) : machine_result unit :=
  match capability with
  | ProcessPipeV1 =>
      _ ← fail_if (bool_decide (is_Some (terminal_size spec)))
            (InvalidProcessSpec capability "pipe processes must not include a terminal size");
      fail_if (match persistence spec with Attached => false | Detachable _ => true end)
        (InvalidProcessSpec capability "pipe processes cannot be detachable")
  | ProcessPtyV1 =>
      _ ← fail_if (bool_decide (terminal_size spec = None))
            (InvalidProcessSpec capability "PTY processes require a terminal size");
      fail_if (bool_decide (is_Some (max_output_bytes spec)))
        (InvalidProcessSpec capability "PTY live streams must not include a pipe output limit")
  | WorkspaceWatchV1 => Err (InvalidProcessSpec capability "watch streams cannot start processes")
  end.

(** ** Messages of a running process *)

(** [apply_running_server_message]: the state after the message and whether the
    stream is closed. *)
Definition apply_running_server_message (p : RuntimeProcessState) (m : RuntimeMessage) :
    machine_result (RuntimeProcessState * bool) :=
  match m with
  | InputAck id next_offset =>
      _ ← expect_process_id (process_id p) id;
      a ← apply_scalar_ack "input" (input_sent p) (input_acked p) next_offset;
      Ok (set_input p (input_sent p) a (input_closed p), false)
  | Output id stream offset data =>
      _ ← expect_process_id (process_id p) id;
      _ ← fail_if (bool_decide (is_Some (gap_pending p))) OutputBeforeGap;
      offsets ← stream_of p stream;
      _ ← expect_offset "output" (next offsets) offset;
      n ← ok_or (checked_add offset (zlen data)) (InvalidMessage DataOffsetOverflow);
      Ok (set_stream p stream {| next := n; acked := acked offsets |}, false)
  | OutputGap id requested_offset available_offset _ =>
      _ ← expect_process_id (process_id p) id;
      _ ← fail_if (negb (pty p) || negb (bool_decide (gap_pending p = Some (requested_offset, available_offset))))
            OutputGapMismatch;
      Ok (clear_gap p, false)
  | Exited id _ _ =>
      _ ← expect_process_id (process_id p) id;
      Ok (p, true)
  | _ => Err (UnexpectedMessage (if pty p then "running_pty" else "running_pipe") (message_name m))
  end.

Definition apply_running_message (p : RuntimeProcessState) (m : RuntimeMessage) :
    machine_result (RuntimeProcessState * bool) :=
  match m with
  | Input id offset data =>
      _ ← expect_process_id (process_id p) id;
      _ ← fail_if (input_closed p) InputClosed;
      _ ← expect_offset "input" (input_sent p) offset;
      n ← ok_or (checked_add offset (zlen data)) (InvalidMessage DataOffsetOverflow);
      Ok (set_input p n (input_acked p) (input_closed p), false)
  | CloseInput id next_offset =>
      _ ← expect_process_id (process_id p) id;
      _ ← fail_if (input_closed p) InputClosed;
      _ ← expect_offset "input close" (input_sent p) next_offset;
      Ok (set_input p (input_sent p) (input_acked p) true, false)
  | OutputAck id stream next_offset =>
      _ ← expect_process_id (process_id p) id;
      _ ← fail_if (bool_decide (is_Some (gap_pending p))) OutputBeforeGap;
      offsets ← stream_of p stream;
      offsets ← apply_ack "output" offsets next_offset;
      Ok (set_stream p stream offsets, false)
  | Resize id _ =>
      _ ← expect_process_id (process_id p) id;
      _ ← fail_if (negb (pty p)) (UnexpectedMessage "running_pipe" "resize");
      Ok (p, false)
  | Signal id _ =>
      _ ← expect_process_id (process_id p) id;
      Ok (p, false)
  | Detach id =>
      _ ← expect_process_id (process_id p) id;
      _ ← fail_if (negb (pty p) || bool_decide (ps_session_id p = None))
            (UnexpectedMessage "running_pipe" "detach");
      Ok (p, false)
  | _ => apply_running_server_message p m
  end.

(** ** Messages of a watch *)

Definition apply_watch_server_message (w : RuntimeWatchState) (m : RuntimeMessage) : machine_result RuntimeWatchState :=
  match m with
  | WatchEvents id sequence events =>
      _ ← expect_watch_id (watch_id w) id;
      _ ← fail_if (bool_decide (is_Some (watch_gap_pending w))) WatchEventBeforeOverflow;
      _ ← expect_offset "watch" (next_sequence w) sequence;
      n ← ok_or (checked_add sequence (zlen events)) WatchSequenceOverflow;
      Ok {| watch_id := watch_id w; next_sequence := n; acked_sequence := acked_sequence w;
            watch_gap_pending := watch_gap_pending w |}
  | WatchOverflow id sequence next_ =>
      _ ← expect_watch_id (watch_id w) id;
      match watch_gap_pending w with
      | Some expected =>
          _ ← fail_if (negb (bool_decide (expected = (sequence, next_)))) WatchOverflowMismatch;
          Ok {| watch_id := watch_id w; next_sequence := next_sequence w;
                acked_sequence := acked_sequence w; watch_gap_pending := None |}
      | None =>
          _ ← expect_offset "watch overflow" (next_sequence w) sequence;
          Ok {| watch_id := watch_id w; next_sequence := next_;
                acked_sequence := acked_sequence w; watch_gap_pending := watch_gap_pending w |}
      end
  | _ => Err (UnexpectedMessage "watching" (message_name m))
  end.

Definition apply_watch_message (w : RuntimeWatchState) (m : RuntimeMessage) : machine_result RuntimeWatchState :=
  match m with
  | WatchAck id next_ =>
      _ ← expect_watch_id (watch_id w) id;
      a ← apply_scalar_ack "watch" (next_sequence w) (acked_sequence w) next_;
      Ok {| watch_id := watch_id w; next_sequence := next_sequence w; acked_sequence := a;
            watch_gap_pending := watch_gap_pending w |}
  | _ => apply_watch_server_message w m
  end.

(** ** [apply_message] *)

(** The [ProcessStarted] arm. *)
Definition apply_process_started (capability : RuntimeCapability) (persistence : RuntimePersistence)
    (process_id : Z) (session : option PtySessionCredentials) (output_offset : Z) : machine_result RuntimePhase :=
  match capability, persistence, session with
  | ProcessPipeV1, Attached, None =>
      if output_offset =? 0 then Ok (Running (new_pipe process_id))
      else Err (InvalidProcessSpec capability
                  "pipe startup must not return a PTY session or nonzero output offset")
  | ProcessPtyV1, Attached, None =>
      if output_offset =? 0 then Ok (Running (new_pty process_id None output_offset None))
      else Err (InvalidProcessSpec capability
                  "attached PTY startup must not return session credentials or a nonzero output offset")
  | ProcessPtyV1, Detachable _, Some credentials =>
      if output_offset =? 0
      then Ok (Running (new_pty process_id (Some (session_id credentials)) output_offset None))
      else Err (InvalidProcessSpec capability
                  "new detachable PTY startup must begin at output offset zero")
  | ProcessPipeV1, _, _ =>
      Err (InvalidProcessSpec capability
             "pipe startup must not return a PTY session or nonzero output offset")
  | ProcessPtyV1, Attached, _ =>
      Err (InvalidProcessSpec capability
             "attached PTY startup must not return session credentials or a nonzero output offset")
  | ProcessPtyV1, Detachable _, None =>
      Err (InvalidProcessSpec capability "detachable PTY startup must return session credentials")
  | WorkspaceWatchV1, _, _ => Err UnreachablePanic
  end.

(** The [PtyAttached] arm. *)
Definition apply_pty_attached (expected_session : bytes) (replay_from : option Z)
    (process_id : Z) (session : bytes) (output_offset : Z) : machine_result RuntimePhase :=
  _ ← fail_if (negb (bytes_eqb session expected_session)) SessionIdMismatch;
  gap ← match replay_from with
        | Some requested =>
            if output_offset <? requested
            then Err (OffsetMismatch "PTY replay" requested output_offset)
            else if output_offset >? requested then Ok (Some (requested, output_offset))
            else Ok None
        | None => Ok None
        end;
  Ok (Running (new_pty process_id (Some session) output_offset gap)).

(** The [WatchStarted] arm. *)
Definition apply_watch_started (resume_from : option Z) (watch_id next_sequence : Z) : machine_result RuntimePhase :=
  _ ← match resume_from with
      | Some resume =>
          fail_if (next_sequence <? resume) (OffsetMismatch "watch resume" resume next_sequence)
      | None => Ok ()
      end;
  Ok (Watching {| watch_id := watch_id; next_sequence := next_sequence; acked_sequence := next_sequence;
        watch_gap_pending :=
          match resume_from with
          | Some resume => if resume <? next_sequence then Some (resume, next_sequence) else None
          | None => None
          end |}).

Definition apply_message (supported : CapabilitySet) (phase : RuntimePhase) (m : RuntimeMessage) :
    machine_result RuntimePhase :=
  match phase, m with
  | Closed, _ => Err (UnexpectedMessage (phase_name phase) (message_name m))
  | _, Error _ => Ok Closed
  | AwaitClientHello, ClientHello package_version protocol_version capability =>
      _ ← validate_protocol_and_capability supported package_version protocol_version capability;
      Ok (AwaitServerHello capability)
  | AwaitServerHello expected, ServerHello package_version protocol_version capability =>
      _ ← validate_protocol_and_capability supported package_version protocol_version capability;
      _ ← fail_if (negb (bool_decide (capability = expected))) (CapabilityMismatch expected capability);
      Ok (Ready capability)
  | Ready ((ProcessPipeV1 | ProcessPtyV1) as capability), StartProcess request_id spec =>
      _ ← validate_spec_for_capability capability spec;
      Ok (AwaitProcessStarted capability request_id (persistence spec))
  | Ready ProcessPtyV1, AttachPty request_id credentials replay_from =>
      Ok (AwaitPtyAttached request_id (session_id credentials) replay_from)
  | AwaitProcessStarted capability expected_request_id persistence,
      ProcessStarted request_id process_id session output_offset =>
      _ ← expect_request_id expected_request_id request_id;
      apply_process_started capability persistence process_id session output_offset
  | AwaitPtyAttached expected_request_id expected_session replay_from,
      PtyAttached request_id process_id session output_offset =>
      _ ← expect_request_id expected_request_id request_id;
      apply_pty_attached expected_session replay_from process_id session output_offset
  | Running process, _ =>
      '(process, closed) ← apply_running_message process m;
      Ok (if closed : bool then Closed
          else match m with Detach _ => AwaitDetached process | _ => Running process end)
  | AwaitDetached process, Detached id session =>
      _ ← expect_process_id (process_id process) id;
      _ ← fail_if (negb (bool_decide (ps_session_id process = Some session))) SessionIdMismatch;
      Ok Closed
  | AwaitDetached process, _ =>
      '(process, closed) ← match m with
                           | OutputAck _ _ _ => apply_running_message process m
                           | _ => apply_running_server_message process m
                           end;
      Ok (if closed : bool then Closed else AwaitDetached process)
  | Ready WorkspaceWatchV1, WatchStart request_id resume_from =>
      Ok (AwaitWatchStarted request_id resume_from)
  | AwaitWatchStarted expected_request_id resume_from, WatchStarted request_id watch_id next_sequence =>
      _ ← expect_request_id expected_request_id request_id;
      apply_watch_started resume_from watch_id next_sequence
  | Watching watch, WatchStop id =>
      _ ← expect_watch_id (watch_id watch) id;
      Ok (AwaitWatchStopped watch)
  | Watching watch, _ =>
      watch ← apply_watch_message watch m;
      Ok (Watching watch)
  | AwaitWatchStopped watch, WatchStopped id =>
      _ ← expect_watch_id (watch_id watch) id;
      Ok Closed
  | AwaitWatchStopped watch, _ =>
      watch ← apply_watch_message watch m;
      Ok (AwaitWatchStopped watch)
  | _, _ => Err (UnexpectedMessage (phase_name phase) (message_name m))
  end.

(** ** [RuntimeStateMachine] *)

Record RuntimeStateMachine := { role : RuntimePeerRole; supported : CapabilitySet; phase : RuntimePhase }.

Definition new_machine (r : RuntimePeerRole) (caps : CapabilitySet) : RuntimeStateMachine :=
  {| role := r; supported := caps; phase := AwaitClientHello |}.

Definition negotiated_capability (s : RuntimeStateMachine) : option RuntimeCapability := phase_capability (phase s).
Definition is_closed (s : RuntimeStateMachine) : bool := match phase s with Closed => true | _ => false end.

Definition actual_sender (r : RuntimePeerRole) (d : RuntimeDirection) : RuntimePeerRole :=
  match r, d with
  | Client, Outbound | Server, Inbound => Client
  | Client, Inbound | Server, Outbound => Server
  end.

(** [observe]: the machine after the message; on an error the code leaves the
    machine as it was, since it works on a clone of the phase. *)
Definition observe (s : RuntimeStateMachine) (d : RuntimeDirection) (m : RuntimeMessage) : machine_result RuntimeStateMachine :=
  _ ← map_err InvalidMessage (validate m);
  let actual := actual_sender (role s) d in
  _ ← fail_if (negb (bool_decide (sender m = actual))) (WrongSender (message_name m) (sender m) actual);
  next ← apply_message (supported s) (phase s) m;
  Ok {| role := role s; supported := supported s; phase := next |}.

Definition observe_inbound (s : RuntimeStateMachine) (m : RuntimeMessage) := observe s Inbound m.
Definition observe_outbound (s : RuntimeStateMachine) (m : RuntimeMessage) := observe s Outbound m.
