(* ===== verification/RuntimeSession.v ===== *)
(** * Properties of the runtime stream

    The invariant of the state machine, the byte accounting of a whole session,
    and the agreement of two peers whose messages cross on the wire. *)
From S2P Require Import Prelude Protocol RuntimeMessages RuntimeMachine.

(** ** The invariant *)

(** The [u64] fields of a message are in range (a Rust value always is). *)
Definition typed (m : RuntimeMessage) : Prop :=
  match m with
  | ProcessStarted _ _ _ o | PtyAttached _ _ _ o | Input _ o _ | InputAck _ o | CloseInput _ o
  | Output _ _ o _ | OutputAck _ _ o | WatchStarted _ _ o | WatchAck _ o | WatchEvents _ o _ => in_u64 o
  | OutputGap _ a b _ | WatchOverflow _ a b => in_u64 a /\ in_u64 b
  | AttachPty _ _ (Some o) | WatchStart _ (Some o) => in_u64 o
  | _ => True
  end.

(** Acknowledged never passes sent, and neither leaves [u64]. *)
Definition wf_offsets (o : StreamOffsets) : Prop := 0 <= acked o <= next o /\ next o <= u64_max.

Record wf_process (p : RuntimeProcessState) : Prop := {
  wf_input : 0 <= input_acked p <= input_sent p /\ input_sent p <= u64_max;
  wf_stdout : wf_offsets (stdout p);
  wf_stderr : wf_offsets (stderr p);
  wf_pty_output : wf_offsets (pty_output p);
  (** a pending gap ends where the replay starts, before any output or ack *)
  wf_gap : forall a b, gap_pending p = Some (a, b) ->
    pty p = true /\ 0 <= a < b /\ next (pty_output p) = b /\ acked (pty_output p) = b;
  wf_session : pty p = false -> ps_session_id p = None;
  (** a process uses the streams of its kind only *)
  wf_streams : if pty p then stdout p = StreamOffsets_default /\ stderr p = StreamOffsets_default
               else pty_output p = StreamOffsets_default }.

Record wf_watch (w : RuntimeWatchState) : Prop := {
  wf_sequence : 0 <= acked_sequence w <= next_sequence w /\ next_sequence w <= u64_max;
  wf_watch_gap : forall a b, watch_gap_pending w = Some (a, b) ->
    0 <= a < b /\ next_sequence w = b /\ acked_sequence w = b }.

Definition wf_phase (caps : CapabilitySet) (ph : RuntimePhase) : Prop :=
  (forall c, phase_capability ph = Some c -> supports_runtime caps c = true) /\
  match ph with
  | AwaitProcessStarted c _ persistence =>
      c <> WorkspaceWatchV1 /\ (c = ProcessPipeV1 -> persistence = Attached)
  | AwaitPtyAttached _ _ (Some o) | AwaitWatchStarted _ (Some o) => in_u64 o
  | Running p => wf_process p
  | AwaitDetached p => wf_process p /\ pty p = true /\ is_Some (ps_session_id p)
  | Watching w | AwaitWatchStopped w => wf_watch w
  | _ => True
  end.

(** ** What each helper establishes *)

Lemma expect_id_Ok {E} x y (e : E) u : fail_if (negb (x =? y)) e = Ok u <-> x = y.
Proof. rewrite fail_if_Ok, negb_false_iff, Z.eqb_eq. done. Qed.

Lemma apply_scalar_ack_Ok channel sent previous actual a :
  apply_scalar_ack channel sent previous actual = Ok a <-> a = actual /\ previous <= actual <= sent.
Proof.
  unfold apply_scalar_ack. rewrite Z.gtb_ltb, !bind_Ok. split.
  - intros ([] & ?%fail_if_Ok & Hk). apply bind_Ok in Hk as ([] & ?%fail_if_Ok & [= <-]). to_prop. lia.
  - intros [-> ?]. exists (). rewrite fail_if_Ok, Z.ltb_ge. split; [lia|].
    apply bind_Ok. exists (). rewrite fail_if_Ok, Z.ltb_ge. split; [lia | done].
Qed.

Lemma apply_ack_Ok channel o actual o' :
  apply_ack channel o actual = Ok o' <->
    acked o <= actual <= next o /\ o' = {| next := next o; acked := actual |}.
Proof.
  unfold apply_ack. rewrite bind_Ok. setoid_rewrite apply_scalar_ack_Ok. naive_solver.
Qed.

Lemma stream_of_Ok p s o :
  stream_of p s = Ok o <->
    match s with
    | Pty => pty p = true /\ o = pty_output p
    | Stdout => pty p = false /\ o = stdout p
    | Stderr => pty p = false /\ o = stderr p
    end.
Proof. unfold stream_of. destruct (pty p), s; naive_solver. Qed.

(** Normalises the hypotheses of an accepted message. *)
Ltac crush_step :=
  repeat first
    [ progress unfold expect_process_id, expect_watch_id, expect_request_id, expect_offset in *
    | match goal with
      | H : fail_if (negb (_ =? _)) _ = Ok _ |- _ => apply expect_id_Ok in H; try subst
      | H : apply_scalar_ack _ _ _ _ = Ok _ |- _ => apply apply_scalar_ack_Ok in H as [-> H]
      | H : apply_ack _ _ _ = Ok _ |- _ => apply apply_ack_Ok in H as [H ->]
      | p : _ * bool |- _ => destruct p
      | u : unit |- _ => destruct u
      end
    | inv_ok_step ];
  cbn [fst snd] in *; to_prop;
  repeat match goal with H : ~ is_Some _ |- _ => apply eq_None_not_Some in H end.

(** Replays an accepted message: discharges its checks from the rule's premises. *)
Ltac replay :=
  repeat first
    [ rewrite Z.eqb_refl | rewrite bool_decide_eq_true_2 by done
    | rewrite bool_decide_eq_false_2 by (done || (by apply eq_None_not_Some))
    | progress cbn [mbind result_bind fail_if negb orb andb ok_or map_err] 
    | match goal with
      | H : gap_pending _ = None |- _ => rewrite H
      | H : gap_pending _ = Some _ |- _ => rewrite H
      | H : stream_of _ _ = Ok _ |- _ => rewrite H
      | H : input_closed _ = false |- _ => rewrite H
      | H : pty _ = true |- _ => rewrite H
      | H : watch_gap_pending _ = None |- _ => rewrite H
      | H : watch_gap_pending _ = Some _ |- _ => rewrite H
      end
    | rewrite (proj2 (apply_scalar_ack_Ok _ _ _ _ _)) by done
    | rewrite (proj2 (apply_ack_Ok _ _ _ _)) by done
    | rewrite (proj2 (checked_add_Some _ _ _)) by done ].

(** ** The protocol as a transition relation

    The rules of the stream, one constructor per accepted message.  [apply_message]
    is proved to implement exactly this relation, and the properties below are
    proved on it. *)

(** Messages the server sends about a process; [true] marks the end. *)
Inductive server_step (p : RuntimeProcessState) : RuntimeMessage -> RuntimeProcessState -> bool -> Prop :=
| server_input_ack n :
    input_acked p <= n <= input_sent p ->
    server_step p (InputAck (process_id p) n) (set_input p (input_sent p) n (input_closed p)) false
| server_output s o data :
    gap_pending p = None -> stream_of p s = Ok o -> next o + zlen data <= u64_max ->
    server_step p (Output (process_id p) s (next o) data)
      (set_stream p s {| next := next o + zlen data; acked := acked o |}) false
| server_gap a b snapshot :
    pty p = true -> gap_pending p = Some (a, b) ->
    server_step p (OutputGap (process_id p) a b snapshot) (clear_gap p) false
| server_exited status truncated :
    server_step p (Exited (process_id p) status truncated) p true.

(** Messages the client sends to a process; [Detach] is a rule of the phase. *)
Inductive client_step (p : RuntimeProcessState) : RuntimeMessage -> RuntimeProcessState -> Prop :=
| client_input data :
    input_closed p = false -> input_sent p + zlen data <= u64_max ->
    client_step p (Input (process_id p) (input_sent p) data)
      (set_input p (input_sent p + zlen data) (input_acked p) (input_closed p))
| client_close_input :
    input_closed p = false ->
    client_step p (CloseInput (process_id p) (input_sent p)) (set_input p (input_sent p) (input_acked p) true)
| client_output_ack s o n :
    gap_pending p = None -> stream_of p s = Ok o -> acked o <= n <= next o ->
    client_step p (OutputAck (process_id p) s n) (set_stream p s {| next := next o; acked := n |})
| client_resize size : pty p = true -> client_step p (Resize (process_id p) size) p
| client_signal signal : client_step p (Signal (process_id p) signal) p.

Inductive watch_step (w : RuntimeWatchState) : RuntimeMessage -> RuntimeWatchState -> Prop :=
| watch_ack n :
    acked_sequence w <= n <= next_sequence w ->
    watch_step w (WatchAck (watch_id w) n)
      {| watch_id := watch_id w; next_sequence := next_sequence w; acked_sequence := n;
         watch_gap_pending := watch_gap_pending w |}
| watch_events events :
    watch_gap_pending w = None -> next_sequence w + zlen events <= u64_max ->
    watch_step w (WatchEvents (watch_id w) (next_sequence w) events)
      {| watch_id := watch_id w; next_sequence := next_sequence w + zlen events;
         acked_sequence := acked_sequence w; watch_gap_pending := watch_gap_pending w |}
| watch_resume_gap a b :
    watch_gap_pending w = Some (a, b) ->
    watch_step w (WatchOverflow (watch_id w) a b)
      {| watch_id := watch_id w; next_sequence := next_sequence w; acked_sequence := acked_sequence w;
         watch_gap_pending := None |}
| watch_overflow n :
    watch_gap_pending w = None ->
    watch_step w (WatchOverflow (watch_id w) (next_sequence w) n)
      {| watch_id := watch_id w; next_sequence := n; acked_sequence := acked_sequence w;
         watch_gap_pending := watch_gap_pending w |}.

(** The gap a replay or resume from [from] leaves when the peer starts at [at_]. *)
Definition replay_gap (from : option Z) (at_ : Z) : option (Z * Z) :=
  match from with
  | Some f => if f <? at_ then Some (f, at_) else None
  | None => None
  end.
Definition replay_allowed (from : option Z) (at_ : Z) : Prop := forall f, from = Some f -> f <= at_.

(** Which process specifications a capability admits. *)
Definition spec_allowed (c : RuntimeCapability) (spec : RuntimeProcessSpec) : Prop :=
  match c with
  | ProcessPipeV1 => terminal_size spec = None /\ persistence spec = Attached
  | ProcessPtyV1 => is_Some (terminal_size spec) /\ max_output_bytes spec = None
  | WorkspaceWatchV1 => False
  end.

Inductive phase_step (caps : CapabilitySet) : RuntimePhase -> RuntimeMessage -> RuntimePhase -> Prop :=
| step_error ph e : ph <> Closed -> phase_step caps ph (Error e) Closed
| step_client_hello c :
    supports_runtime caps c = true ->
    phase_step caps AwaitClientHello (ClientHello CARGO_PKG_VERSION PROTOCOL_VERSION c) (AwaitServerHello c)
| step_server_hello c :
    supports_runtime caps c = true ->
    phase_step caps (AwaitServerHello c) (ServerHello CARGO_PKG_VERSION PROTOCOL_VERSION c) (Ready c)
| step_start_process c request spec :
    spec_allowed c spec ->
    phase_step caps (Ready c) (StartProcess request spec) (AwaitProcessStarted c request (persistence spec))
| step_attach request credentials replay :
    phase_step caps (Ready ProcessPtyV1) (AttachPty request credentials replay)
      (AwaitPtyAttached request (session_id credentials) replay)
| step_started_pipe request id :
    phase_step caps (AwaitProcessStarted ProcessPipeV1 request Attached)
      (ProcessStarted request id None 0) (Running (new_pipe id))
| step_started_pty request id :
    phase_step caps (AwaitProcessStarted ProcessPtyV1 request Attached)
      (ProcessStarted request id None 0) (Running (new_pty id None 0 None))
| step_started_detachable request ttl id credentials :
    phase_step caps (AwaitProcessStarted ProcessPtyV1 request (Detachable ttl))
      (ProcessStarted request id (Some credentials) 0)
      (Running (new_pty id (Some (session_id credentials)) 0 None))
| step_attached request session replay id offset :
    replay_allowed replay offset ->
    phase_step caps (AwaitPtyAttached request session replay) (PtyAttached request id session offset)
      (Running (new_pty id (Some session) offset (replay_gap replay offset)))
| step_client p m p' : client_step p m p' -> phase_step caps (Running p) m (Running p')
| step_server p m p' : server_step p m p' false -> phase_step caps (Running p) m (Running p')
| step_exited p m p' : server_step p m p' true -> phase_step caps (Running p) m Closed
| step_detach p :
    pty p = true -> is_Some (ps_session_id p) ->
    phase_step caps (Running p) (Detach (process_id p)) (AwaitDetached p)
| step_detaching_ack p id s n p' :
    client_step p (OutputAck id s n) p' ->
    phase_step caps (AwaitDetached p) (OutputAck id s n) (AwaitDetached p')
| step_detaching_server p m p' : server_step p m p' false -> phase_step caps (AwaitDetached p) m (AwaitDetached p')
| step_detaching_exited p m p' : server_step p m p' true -> phase_step caps (AwaitDetached p) m Closed
| step_detached p session :
    ps_session_id p = Some session ->
    phase_step caps (AwaitDetached p) (Detached (process_id p) session) Closed
| step_watch_start request resume :
    phase_step caps (Ready WorkspaceWatchV1) (WatchStart request resume) (AwaitWatchStarted request resume)
| step_watch_started request resume id n :
    replay_allowed resume n ->
    phase_step caps (AwaitWatchStarted request resume) (WatchStarted request id n)
      (Watching {| watch_id := id; next_sequence := n; acked_sequence := n;
                   watch_gap_pending := replay_gap resume n |})
| step_watch w m w' : watch_step w m w' -> phase_step caps (Watching w) m (Watching w')
| step_watch_stop w : phase_step caps (Watching w) (WatchStop (watch_id w)) (AwaitWatchStopped w)
| step_watch_stopping w m w' : watch_step w m w' -> phase_step caps (AwaitWatchStopped w) m (AwaitWatchStopped w')
| step_watch_stopped w : phase_step caps (AwaitWatchStopped w) (WatchStopped (watch_id w)) Closed.

#[export] Hint Constructors server_step client_step watch_step phase_step : nrm.

(** ** [apply_message] implements the relation *)

Lemma apply_running_server_message_spec p m p' c :
  apply_running_server_message p m = Ok (p', c) <-> server_step p m p' c.
Proof.
  split.
  - intros H. destruct m; cbn [apply_running_server_message] in H; try discriminate H;
      crush_step; simplify_eq; eauto with nrm.
  - intros []; cbn [apply_running_server_message];
      unfold expect_process_id, expect_offset; replay; done.
Qed.

(** A [Detach] a process accepts. *)
Inductive detach_step (p : RuntimeProcessState) : RuntimeMessage -> Prop :=
| detach_ok : pty p = true -> is_Some (ps_session_id p) -> detach_step p (Detach (process_id p)).
#[export] Hint Constructors detach_step : nrm.

Lemma apply_running_message_spec p m p' c :
  apply_running_message p m = Ok (p', c) <->
    (client_step p m p' /\ c = false) \/ (detach_step p m /\ p' = p /\ c = false) \/ server_step p m p' c.
Proof.
  split.
  - intros H. destruct m; cbn [apply_running_message] in H;
      try (apply apply_running_server_message_spec in H; auto); crush_step; simplify_eq; eauto with nrm.
    right. left. split; [|done]. constructor; [done|]. by apply not_eq_None_Some.
  - intros [[H ->]|[(H & -> & ->)|H]].
    + destruct H; cbn [apply_running_message]; unfold expect_process_id, expect_offset; replay; done.
    + destruct H as [Hp [s Hs]]. cbn [apply_running_message]. unfold expect_process_id. replay.
      rewrite Hs. replay. done.
    + pose proof H as H'. apply apply_running_server_message_spec in H'. by destruct H.
Qed.

Lemma apply_watch_message_spec w m w' : apply_watch_message w m = Ok w' <-> watch_step w m w'.
Proof.
  split.
  - intros H. destruct m; cbn [apply_watch_message apply_watch_server_message] in H; try discriminate H;
      crush_step; simplify_eq; eauto with nrm.
    all: match goal with H : watch_gap_pending ?w = _ |- _ => rewrite <- H; eauto with nrm end.
  - intros []; cbn [apply_watch_message apply_watch_server_message];
      unfold expect_watch_id, expect_offset; replay; try done.
Qed.

Lemma validate_protocol_and_capability_Ok caps v n c :
  validate_protocol_and_capability caps v n c = Ok () <->
    v = CARGO_PKG_VERSION /\ n = PROTOCOL_VERSION /\ supports_runtime caps c = true.
Proof.
  unfold validate_protocol_and_capability. split.
  - intros H. crush_step. done.
  - intros (-> & -> & ->). rewrite (proj2 (bytes_eqb_true _ _)) by done. done.
Qed.

Lemma validate_spec_for_capability_Ok c spec :
  validate_spec_for_capability c spec = Ok () <-> spec_allowed c spec.
Proof.
  destruct c; cbn; [| |done]; split.
  - intros H. unfold persistence in *. destruct spec as [? ? ? [] ?]; crush_step; naive_solver.
  - intros [-> ->]. done.
  - intros H. crush_step. split; [by apply not_eq_None_Some | done].
  - intros [[t ->] ->]. done.
Qed.

Lemma apply_process_started_spec caps c request persistence id session offset ph :
  c <> WorkspaceWatchV1 ->
  apply_process_started c persistence id session offset = Ok ph <->
    phase_step caps (AwaitProcessStarted c request persistence) (ProcessStarted request id session offset) ph.
Proof.
  intros Hc. split.
  - intros H. unfold apply_process_started in H.
    destruct c, persistence, session; crush_step; simplify_eq; eauto with nrm.
  - intros H. by inversion H; subst.
Qed.

Lemma apply_pty_attached_Ok expected replay id session offset ph :
  apply_pty_attached expected replay id session offset = Ok ph <->
    session = expected /\ replay_allowed replay offset /\
    ph = Running (new_pty id (Some session) offset (replay_gap replay offset)).
Proof.
  unfold apply_pty_attached, replay_allowed, replay_gap.
  destruct (bytes_eqb session expected) eqn:E; to_prop; cbn; [|naive_solver].
  destruct replay as [r|]; [|naive_solver]. rewrite Z.gtb_ltb.
  destruct (Z.ltb_spec offset r), (Z.ltb_spec r offset); cbn; (split;
    [ intros H'; first [discriminate H' | injection H' as <-; split_and!; [done | intros ? [= <-]; lia | done]]
    | intros (? & Hr & ->); specialize (Hr _ eq_refl); (lia || done) ]).
Qed.

Lemma apply_watch_started_Ok resume id n ph :
  apply_watch_started resume id n = Ok ph <->
    replay_allowed resume n /\
    ph = Watching {| watch_id := id; next_sequence := n; acked_sequence := n;
                     watch_gap_pending := replay_gap resume n |}.
Proof.
  unfold apply_watch_started, replay_allowed, replay_gap.
  destruct resume as [r|]; [|naive_solver].
  destruct (Z.ltb_spec n r), (Z.ltb_spec r n); cbn; (split;
    [ intros H'; first [discriminate H' | injection H' as <-; split; [intros ? [= <-]; lia | done]]
    | intros (Hr & ->); specialize (Hr _ eq_refl); (lia || done) ]).
Qed.

Lemma apply_message_running caps p m ph :
  apply_message caps (Running p) m = Ok ph <-> phase_step caps (Running p) m ph.
Proof.
  split.
  - intros H. destruct m; cbn [apply_message] in H;
      try (injection H as <-; by constructor);
      apply bind_Ok in H as ([p' c] & H & [= <-]);
      apply apply_running_message_spec in H as [[H ->]|[(H & -> & ->)|H]];
      try (by inversion H); try (by constructor);
      try (by inversion H; subst; constructor);
      by (destruct c; [eapply step_exited | eapply step_server]).
  - intros H. assert (Hrun : forall p' c, apply_running_message p m = Ok (p', c) ->
      (forall id, m <> Detach id) -> (forall e, m <> Error e) ->
      apply_message caps (Running p) m = Ok (if c : bool then Closed else Running p')).
    { intros p' c Hm ? ?. destruct m; cbn [apply_message]; rewrite ?Hm; naive_solver. }
    inversion H as [| | | | | | | | |? ? p' Hc|? ? p' Hc|? ? p' Hc|? Hp Hs| | | | | | | | | |]; subst; try done.
    + apply (Hrun p' false); [apply apply_running_message_spec; eauto | by inversion Hc | by inversion Hc].
    + apply (Hrun p' false); [apply apply_running_message_spec; eauto | by inversion Hc | by inversion Hc].
    + eapply (Hrun p' true); [apply apply_running_message_spec; eauto | by inversion Hc | by inversion Hc].
    + cbn [apply_message]. by rewrite (proj2 (apply_running_message_spec p _ p false)) by (right; left; eauto with nrm).
Qed.

Lemma apply_message_detaching caps p m ph :
  apply_message caps (AwaitDetached p) m = Ok ph <-> phase_step caps (AwaitDetached p) m ph.
Proof.
  split.
  - intros H. destruct m; cbn [apply_message] in H; try (injection H as <-; by constructor).
    all: try (apply bind_Ok in H as ([p' c] & H & [= <-]); apply apply_running_server_message_spec in H;
      try (by inversion H); by (destruct c; [eapply step_detaching_exited | eapply step_detaching_server])).
    + apply bind_Ok in H as ([p' c] & H & [= <-]).
      apply apply_running_message_spec in H as [[H ->]|[(H & _)|H]]; [|by inversion H|by inversion H].
      by constructor.
    + crush_step. simplify_eq. by constructor.
  - assert (Hserver : forall p' c, server_step p m p' c ->
      apply_message caps (AwaitDetached p) m = Ok (if c : bool then Closed else AwaitDetached p')).
    { intros p' c Hm. pose proof (proj2 (apply_running_server_message_spec _ _ _ _) Hm) as E.
      destruct Hm; cbn [apply_message]; by rewrite E. }
    intros H. inversion H as [| | | | | | | | | | | | |? ? ? ? p' Hc|? ? p' Hc|? ? p' Hc|? ? Hs| | | | | |];
      subst; try done.
    + cbn [apply_message]. rewrite (proj2 (apply_running_message_spec p _ p' false)) by eauto. done.
    + by apply (Hserver p' false).
    + by apply (Hserver p' true).
    + cbn [apply_message]. unfold expect_process_id. rewrite Hs. replay. done.
Qed.

Lemma apply_message_watching caps w m ph :
  (apply_message caps (Watching w) m = Ok ph <-> phase_step caps (Watching w) m ph) /\
  (apply_message caps (AwaitWatchStopped w) m = Ok ph <-> phase_step caps (AwaitWatchStopped w) m ph).
Proof.
  split; split.
  - intros H. destruct m; cbn [apply_message] in H; try (injection H as <-; by constructor).
    all: try (apply bind_Ok in H as (w' & H & [= <-]); by apply step_watch, apply_watch_message_spec).
    crush_step. constructor.
  - intros H. inversion H as [| | | | | | | | | | | | | | | | | | |? ? w' Hw| | |]; subst; try done.
    + pose proof (proj2 (apply_watch_message_spec _ _ _) Hw) as E.
      destruct Hw; cbn [apply_message]; by rewrite E.
    + cbn [apply_message]. unfold expect_watch_id. replay. done.
  - intros H. destruct m; cbn [apply_message] in H; try (injection H as <-; by constructor).
    all: try (apply bind_Ok in H as (w' & H & [= <-]); by apply step_watch_stopping, apply_watch_message_spec).
    crush_step. constructor.
  - intros H. inversion H as [| | | | | | | | | | | | | | | | | | | | |? ? w' Hw|]; subst; try done.
    + pose proof (proj2 (apply_watch_message_spec _ _ _) Hw) as E.
      destruct Hw; cbn [apply_message]; by rewrite E.
    + cbn [apply_message]. unfold expect_watch_id. replay. done.
Qed.

(** A process is never awaited for a watch; [apply_message] has an
    [unreachable!()] arm for that phase. *)
Definition startable (ph : RuntimePhase) : Prop :=
  match ph with AwaitProcessStarted WorkspaceWatchV1 _ _ => False | _ => True end.

Lemma apply_message_start caps ph m ph' :
  match ph with Running _ | AwaitDetached _ | Watching _ | AwaitWatchStopped _ => False | _ => startable ph end ->
  apply_message caps ph m = Ok ph' -> phase_step caps ph m ph'.
Proof.
  intros Hph H. destruct ph; try done; destruct m; try discriminate H; cbn [apply_message] in H;
    try (injection H as <-; by constructor); try (destruct capability; discriminate H).
  - crush_step. match goal with H : validate_protocol_and_capability _ _ _ _ = _ |- _ =>
      apply validate_protocol_and_capability_Ok in H as (-> & -> & ?) end. by constructor.
  - crush_step. match goal with H : validate_protocol_and_capability _ _ _ _ = _ |- _ =>
      apply validate_protocol_and_capability_Ok in H as (-> & -> & ?) end. simplify_eq. by constructor.
  - destruct capability; simplify_eq; by constructor.
  - destruct capability; try discriminate H; crush_step;
      constructor; by apply validate_spec_for_capability_Ok.
  - destruct capability; simplify_eq; by constructor.
  - destruct capability; simplify_eq; by constructor.
  - crush_step. by eapply apply_process_started_spec; [destruct capability|].
  - crush_step. match goal with H : apply_pty_attached _ _ _ _ _ = _ |- _ =>
      apply apply_pty_attached_Ok in H as (-> & ? & ->) end. by constructor.
  - crush_step. match goal with H : apply_watch_started _ _ _ = _ |- _ =>
      apply apply_watch_started_Ok in H as (? & ->) end. by constructor.
Qed.

Lemma apply_message_spec caps ph m ph' :
  startable ph -> apply_message caps ph m = Ok ph' <-> phase_step caps ph m ph'.
Proof.
  intros Hs. destruct ph eqn:E; subst;
    try apply apply_message_running; try apply apply_message_detaching; try apply apply_message_watching.
  all: split; [by apply apply_message_start|].
  all: intros H; inversion H; subst; try done; cbn [apply_message].
  1,2: rewrite (proj2 (validate_protocol_and_capability_Ok _ _ _ _)) by done; replay; done.
  1: by destruct capability.
  1: destruct capability; try done; cbn [apply_message];
     rewrite (proj2 (validate_spec_for_capability_Ok _ _)) by done; done.
  1-3: unfold expect_request_id; replay; done.
  1: unfold expect_request_id; replay; by apply apply_pty_attached_Ok.
  1: unfold expect_request_id; replay; by apply apply_watch_started_Ok.
Qed.

(** Note (refinement).  From every phase but the impossible one,
    [apply_message] accepts a message and yields a phase exactly when the
    protocol's transition relation has that step: the 250-line match, with its
    fall-through arms and its in-place updates, implements [phase_step]. *)
Theorem apply_message_refines_protocol caps ph m ph' :
  startable ph -> apply_message caps ph m = Ok ph' <-> phase_step caps ph m ph'.
Proof. apply apply_message_spec. Qed.

Lemma apply_message_refines_protocol_witness :
  apply_message v1_agent (Running (new_pipe 5)) (Input 5 0 (B"ls")) =
    Ok (Running (set_input (new_pipe 5) 2 0 false)) <->
  phase_step v1_agent (Running (new_pipe 5)) (Input 5 0 (B"ls"))
    (Running (set_input (new_pipe 5) 2 0 false)).
Proof. apply apply_message_refines_protocol. vm_compute. exact I. Defined.

(** ** The invariant holds in every reachable state *)

Lemma wf_default : wf_offsets StreamOffsets_default.
Proof. unfold wf_offsets, u64_max. cbn. lia. Qed.

Lemma wf_set_input p sent a closed :
  wf_process p -> 0 <= a <= sent -> sent <= u64_max -> wf_process (set_input p sent a closed).
Proof. intros [] ? ?. by split. Qed.

Lemma wf_stream_of p s o : wf_process p -> stream_of p s = Ok o -> wf_offsets o.
Proof. intros []. rewrite stream_of_Ok. destruct s; naive_solver. Qed.

Lemma wf_set_stream p s o o' :
  wf_process p -> gap_pending p = None -> stream_of p s = Ok o -> wf_offsets o' -> wf_process (set_stream p s o').
Proof.
  intros [] Hgap Hs Ho. rewrite stream_of_Ok in Hs.
  split; cbn; try done; try (by destruct s).
  - intros a b Hg. congruence.
  - destruct s, Hs as [Hp ->]; rewrite Hp in *; done.
Qed.

Lemma wf_clear_gap p : wf_process p -> wf_process (clear_gap p).
Proof. intros []. by split. Qed.

#[export] Hint Resolve wf_default wf_set_input wf_set_stream wf_clear_gap : nrm.

Lemma server_step_wf p m p' c : wf_process p -> typed m -> server_step p m p' c -> wf_process p'.
Proof.
  intros Hp Ht Hs. destruct Hs as [n Hn|s o data Hg Ho Hn| |]; cbn in Ht; eauto with nrm.
  - destruct (wf_input _ Hp). unfold in_u64 in Ht. apply wf_set_input; [done | lia | lia].
  - pose proof (wf_stream_of _ _ _ Hp Ho) as [? ?]. pose proof (zlen_nonneg data).
    eapply wf_set_stream; eauto. split; cbn; lia.
Qed.

Lemma client_step_wf p m p' : wf_process p -> typed m -> client_step p m p' -> wf_process p'.
Proof.
  intros Hp Ht Hs. destruct (wf_input _ Hp).
  destruct Hs as [data Hc Hn|Hc|s o n Hg Ho Hn| |]; cbn in Ht; try done.
  - pose proof (zlen_nonneg data). apply wf_set_input; [done | lia | lia].
  - by apply wf_set_input.
  - pose proof (wf_stream_of _ _ _ Hp Ho) as [? ?]. eapply wf_set_stream; eauto. split; cbn; lia.
Qed.

Lemma watch_step_wf w m w' :
  wf_watch w -> typed m -> validate m = Ok () -> watch_step w m w' -> wf_watch w'.
Proof.
  intros [[? ?] Hgap] Ht Hv Hs. destruct Hs as [n Hn|events Hg Hn|a b Hg|n Hg]; cbn in Ht, Hv;
    unfold in_u64 in *; split; cbn; try done; try lia.
  - intros a b Hab. specialize (Hgap a b Hab). lia.
  - pose proof (zlen_nonneg events). lia.
  - intros a b Hab. congruence.
  - inv_ok. to_prop. lia.
  - intros a b Hab. congruence.
Qed.

Lemma replay_gap_Some from at_ a b : replay_gap from at_ = Some (a, b) -> from = Some a /\ a < at_ /\ b = at_.
Proof. unfold replay_gap. destruct from as [f|]; [|done]. destruct (Z.ltb_spec f at_); naive_solver. Qed.

Lemma wf_new_pty id session offset gap :
  in_u64 offset -> (forall a b, gap = Some (a, b) -> 0 <= a < b /\ b = offset) ->
  wf_process (new_pty id session offset gap).
Proof.
  unfold in_u64. intros Ho Hgap. split; cbn; eauto with nrm; unfold wf_offsets, u64_max in *; cbn; try lia; try done.
  intros a b Hab. specialize (Hgap a b Hab). naive_solver.
Qed.

Lemma phase_step_wf caps ph m ph' :
  wf_phase caps ph -> typed m -> validate m = Ok () -> phase_step caps ph m ph' -> wf_phase caps ph'.
Proof.
  intros [Hcap Hph] Ht Hv Hs.
  assert (Hsame : phase_capability ph' = phase_capability ph \/ phase_capability ph' = None \/
    (exists c, phase_capability ph' = Some c /\ supports_runtime caps c = true)).
  { destruct Hs as [| | | | | | | | |p m p' Hc|p m p' Hc| | |p ? ? ? p' Hc|p m p' Hc| | | | | | | |];
      cbn; eauto; destruct Hc; auto. }
  split.
  { intros c Hc. destruct Hsame as [E|[E|(c' & E & ?)]]; rewrite E in Hc; [auto | done | congruence]. }
  destruct Hs as [| | |c ? ? Hspec|? ? replay| | | |? ? ? ? ? Hr|p m p' Hc|p m p' Hc| | |p ? ? ? p' Hc|p m p' Hc| | |? resume|? ? ? ? Hr|? ? ? Hc| |? ? ? Hc|];
    cbn in Hph |- *; try done.
  - destruct c; cbn in Hspec; naive_solver.
  - apply wf_new_pty; [done|]. intros a b (-> & ? & ->)%replay_gap_Some. unfold in_u64 in *. lia.
  - exact (client_step_wf _ _ _ Hph Ht Hc).
  - exact (server_step_wf _ _ _ _ Hph Ht Hc).
  - destruct Hph as (Hp & Hpty & Hsess). split; [exact (client_step_wf _ (OutputAck _ _ _) _ Hp Ht Hc)|]. by inversion Hc; subst.
  - destruct Hph as (Hp & Hpty & Hsess). split; [exact (server_step_wf _ _ _ _ Hp Ht Hc)|]. by inversion Hc; subst.
  - cbn in Ht. unfold in_u64 in Ht. split; cbn; [lia|]. intros a b (-> & ? & ->)%replay_gap_Some.
    unfold in_u64 in *. lia.
  - exact (watch_step_wf _ _ _ Hph Ht Hv Hc).
  - exact (watch_step_wf _ _ _ Hph Ht Hv Hc).
Qed.

(** The states of a machine that observed any accepted messages. *)
Inductive reachable (r : RuntimePeerRole) (caps : CapabilitySet) : RuntimeStateMachine -> Prop :=
| reachable_new : reachable r caps (new_machine r caps)
| reachable_observe s d m s' :
    reachable r caps s -> typed m -> observe s d m = Ok s' -> reachable r caps s'.

Lemma wf_startable caps ph : wf_phase caps ph -> startable ph.
Proof. intros [_ H]. destruct ph as [| | |[]| | | | | | |]; try done. by destruct H. Qed.

Lemma observe_Ok s d m s' :
  observe s d m = Ok s' <->
    validate m = Ok () /\ sender m = actual_sender (role s) d /\
    exists ph, apply_message (supported s) (phase s) m = Ok ph /\
      s' = {| role := role s; supported := supported s; phase := ph |}.
Proof.
  unfold observe. split.
  - intros H. crush_step. naive_solver.
  - intros (-> & -> & ph & Hm & ->). cbn. replay. by rewrite Hm.
Qed.

Lemma reachable_wf r caps s :
  reachable r caps s -> role s = r /\ supported s = caps /\ wf_phase caps (phase s).
Proof.
  induction 1 as [|s d m s' _ (Hr & Hc & Hwf) Ht (Hv & _ & ph & Hm & ->)%observe_Ok]; [done|].
  cbn. split; [done|]. split; [done|]. rewrite Hc in Hm.
  apply apply_message_spec in Hm; [|by eapply wf_startable].
  by eapply phase_step_wf.
Qed.

(** Note (invariant).  In every state a machine can reach, whatever well-typed
    messages it observed in either direction: acknowledged offsets never pass
    sent offsets and all of them fit [u64]; a pending replay gap covers a
    non-empty range that ends at the stream's offset; only a PTY with a session is
    ever detaching; and the negotiated capability is one the local side supports. *)
Theorem reachable_invariant r caps s : reachable r caps s -> wf_phase caps (phase s).
Proof. apply reachable_wf. Qed.

(** A computation that does not run into [unreachable!()]. *)
Definition no_panic {A} (r : machine_result A) : Prop := r <> Err UnreachablePanic.

Lemma no_panic_bind {A B} (r : machine_result A) (k : A -> machine_result B) :
  no_panic r -> (forall a, no_panic (k a)) -> no_panic (r ≫= k).
Proof. unfold no_panic. destruct r; cbn; naive_solver. Qed.
Lemma no_panic_fail_if c e : e <> UnreachablePanic -> no_panic (fail_if c e).
Proof. unfold no_panic. destruct c; cbn; congruence. Qed.
Lemma no_panic_ok_or {A} (o : option A) e : e <> UnreachablePanic -> no_panic (ok_or o e).
Proof. unfold no_panic. destruct o; cbn; congruence. Qed.

(** Follows the code through its checks, calls and branches. *)
Ltac no_panic :=
  repeat first
    [ apply no_panic_bind; [|intros ?] | (by apply no_panic_fail_if) | (by apply no_panic_ok_or)
    | match goal with
      | |- no_panic (Ok _) => discriminate
      | |- no_panic (Err _) => discriminate
      | |- no_panic (match ?x with _ => _ end) => destruct x
      | |- no_panic (expect_process_id _ _) => unfold expect_process_id
      | |- no_panic (expect_watch_id _ _) => unfold expect_watch_id
      | |- no_panic (expect_request_id _ _) => unfold expect_request_id
      | |- no_panic (expect_offset _ _ _) => unfold expect_offset
      | |- no_panic (apply_scalar_ack _ _ _ _) => unfold apply_scalar_ack
      | |- no_panic (apply_ack _ _ _) => unfold apply_ack
      | |- no_panic (stream_of _ _) => unfold stream_of
      | |- no_panic (apply_running_message _ _) => unfold apply_running_message
      | |- no_panic (apply_running_server_message _ _) => unfold apply_running_server_message
      | |- no_panic (apply_watch_message _ _) => unfold apply_watch_message
      | |- no_panic (apply_watch_server_message _ _) => unfold apply_watch_server_message
      | |- no_panic (apply_pty_attached _ _ _ _ _) => unfold apply_pty_attached
      | |- no_panic (apply_watch_started _ _ _) => unfold apply_watch_started
      | |- no_panic (validate_protocol_and_capability _ _ _ _) => unfold validate_protocol_and_capability
      | |- no_panic (validate_spec_for_capability _ _) => unfold validate_spec_for_capability
      end ].

Lemma apply_message_no_panic caps ph m : startable ph -> no_panic (apply_message caps ph m).
Proof.
  intros Hs. destruct ph as [| | |[] ? []| | | | | | |]; try done; unfold apply_message;
    try (unfold apply_process_started); no_panic.
Qed.

(** Note (no panic).  The [unreachable!()] arm of [apply_message] is unreachable:
    no sequence of observed messages makes the state machine panic. *)
Theorem observe_never_panics r caps s d m :
  reachable r caps s -> observe s d m <> Err UnreachablePanic.
Proof.
  intros (_ & _ & Hwf)%reachable_wf H.
  pose proof (apply_message_no_panic (supported s) (phase s) m (wf_startable _ _ Hwf)).
  revert H. unfold observe. apply no_panic_bind; [by destruct (validate m)|]. intros _. no_panic. done.
Qed.

(** ** Byte accounting of a session *)

Fixpoint observe_all (s : RuntimeStateMachine) (trace : list (RuntimeDirection * RuntimeMessage)) :
    machine_result RuntimeStateMachine :=
  match trace with
  | [] => Ok s
  | (d, m) :: trace => s ← observe s d m; observe_all s trace
  end.

(** The data chunks of a trace, with the offsets they were sent at. *)
Definition output_chunk (stream : RuntimeOutputStream) (m : RuntimeMessage) : list (Z * bytes) :=
  match m with
  | Output _ s offset data => if bool_decide (s = stream) then [(offset, data)] else []
  | _ => []
  end.
Definition input_chunk (m : RuntimeMessage) : list (Z * bytes) :=
  match m with Input _ offset data => [(offset, data)] | _ => [] end.
Definition outputs (stream : RuntimeOutputStream) (ms : list RuntimeMessage) := ms ≫= output_chunk stream.
Definition inputs (ms : list RuntimeMessage) := ms ≫= input_chunk.

(** Where a stream starts: a replayed PTY at the offset of [PtyAttached], any
    other stream at zero. *)
Fixpoint pty_base (base : Z) (ms : list RuntimeMessage) : Z :=
  match ms with
  | [] => base
  | PtyAttached _ _ _ offset :: ms => pty_base offset ms
  | _ :: ms => pty_base base ms
  end.
Definition stream_base (stream : RuntimeOutputStream) (ms : list RuntimeMessage) : Z :=
  match stream with Pty => pty_base 0 ms | Stdout | Stderr => 0 end.

(** The chunks follow one another without gap or overlap from [at_] to [stop]. *)
Fixpoint contiguous (at_ : Z) (chunks : list (Z * bytes)) (stop : Z) : Prop :=
  match chunks with
  | [] => at_ = stop
  | (offset, data) :: chunks => offset = at_ /\ contiguous (at_ + zlen data) chunks stop
  end.

Lemma contiguous_snoc at_ chunks stop data :
  contiguous at_ chunks stop -> contiguous at_ (chunks ++ [(stop, data)]) (stop + zlen data).
Proof. revert at_. induction chunks as [|[o d] chunks IH]; cbn; naive_solver. Qed.

Lemma outputs_snoc st ms m : outputs st (ms ++ [m]) = outputs st ms ++ output_chunk st m.
Proof. unfold outputs. rewrite bind_app. cbn. by rewrite app_nil_r. Qed.
Lemma inputs_snoc ms m : inputs (ms ++ [m]) = inputs ms ++ input_chunk m.
Proof. unfold inputs. rewrite bind_app. cbn. by rewrite app_nil_r. Qed.
Lemma pty_base_snoc base ms m :
  pty_base base (ms ++ [m]) = match m with PtyAttached _ _ _ offset => offset | _ => pty_base base ms end.
Proof.
  revert base. induction ms as [|m' ms IH]; intros base; [by destruct m|].
  destruct m'; cbn; apply IH.
Qed.

(** The process a phase is about. *)
Definition process_of (ph : RuntimePhase) : option RuntimeProcessState :=
  match ph with Running p | AwaitDetached p => Some p | _ => None end.

(** What the phase says about the messages that led to it. *)
Definition process_account (p : RuntimeProcessState) (ms : list RuntimeMessage) : Prop :=
  contiguous 0 (inputs ms) (input_sent p) /\
  forall st, match stream_of p st with
             | Ok o => contiguous (stream_base st ms) (outputs st ms) (next o)
             | Err _ => outputs st ms = []
             end.
Definition no_data (ms : list RuntimeMessage) : Prop :=
  inputs ms = [] /\ (forall st, outputs st ms = []) /\ pty_base 0 ms = 0.
Definition account (ph : RuntimePhase) (ms : list RuntimeMessage) : Prop :=
  match ph with
  | Running p | AwaitDetached p => process_account p ms
  | Closed => (exists stop, contiguous 0 (inputs ms) stop) /\
              forall st, exists stop, contiguous (stream_base st ms) (outputs st ms) stop
  | _ => no_data ms
  end.

(** A message that carries no data and does not move the base leaves the account
    of a process alone. *)
Lemma process_account_quiet p p' ms m :
  process_account p ms -> input_chunk m = [] -> (forall st, output_chunk st m = []) ->
  (forall a b c d, m <> PtyAttached a b c d) -> input_sent p' = input_sent p ->
  (forall st, match stream_of p st, stream_of p' st with
              | Ok o, Ok o' => next o = next o' | Err _, Err _ => True | _, _ => False end) ->
  process_account p' (ms ++ [m]).
Proof.
  intros [Hin Hout] Hi Ho Hb Hs Hstreams. split.
  - by rewrite inputs_snoc, Hi, app_nil_r, Hs.
  - intros st. specialize (Hout st). specialize (Hstreams st).
    assert (stream_base st (ms ++ [m]) = stream_base st ms) as ->.
    { destruct st; cbn; try done. rewrite pty_base_snoc. destruct m; naive_solver. }
    rewrite outputs_snoc, Ho, app_nil_r.
    destruct (stream_of p st), (stream_of p' st); try done. by rewrite <- Hstreams.
Qed.

Lemma stream_of_set_stream p st o st' o' :
  stream_of p st = Ok o ->
  stream_of (set_stream p st o') st' =
    if bool_decide (st = st') then Ok o' else stream_of p st'.
Proof. rewrite stream_of_Ok. unfold stream_of. cbn. destruct st, st', (pty p); naive_solver. Qed.

Ltac quiet_streams := intros []; unfold stream_of; cbn; by case_match.

Lemma client_step_account p m p' ms :
  client_step p m p' -> process_account p ms -> process_account p' (ms ++ [m]).
Proof.
  intros Hs Hacc. destruct Hs as [data Hc Hn| |s o n Hg Ho Hn| |];
    try (eapply process_account_quiet; eauto; cbn; try done; by quiet_streams).
  - destruct Hacc as [Hin Hout]. split.
    + rewrite inputs_snoc. by apply contiguous_snoc.
    + intros st. rewrite outputs_snoc, app_nil_r.
      assert (stream_base st (ms ++ [Input (process_id p) (input_sent p) data]) = stream_base st ms) as ->
        by (destruct st; cbn; by rewrite ?pty_base_snoc).
      apply Hout.
  - eapply process_account_quiet; eauto; cbn; try done. intros st.
    rewrite (stream_of_set_stream p s o) by done. case_bool_decide; [subst; by rewrite Ho|].
    by destruct (stream_of p st).
Qed.

Lemma server_step_account p m p' c ms :
  server_step p m p' c -> process_account p ms -> process_account p' (ms ++ [m]).
Proof.
  intros Hs Hacc. destruct Hs as [|s o data Hg Ho Hn| |];
    try (eapply process_account_quiet; eauto; cbn; try done; by quiet_streams).
  destruct Hacc as [Hin Hout]. split; [by rewrite inputs_snoc, app_nil_r|].
  intros st. rewrite (stream_of_set_stream p s o) by done. rewrite outputs_snoc. cbn [output_chunk].
  assert (stream_base st (ms ++ [Output (process_id p) s (next o) data]) = stream_base st ms) as ->
    by (destruct st; cbn; by rewrite ?pty_base_snoc).
  specialize (Hout st). case_bool_decide as E; [subst; rewrite Ho in Hout|rewrite app_nil_r].
  - by apply contiguous_snoc.
  - done.
Qed.

Lemma process_account_closed p ms : process_account p ms -> account Closed ms.
Proof.
  intros [Hin Hout]. split; [by eexists|]. intros st. specialize (Hout st).
  destruct (stream_of p st); [by eexists|]. rewrite Hout. by eexists.
Qed.

(** Before a process runs no data was accepted; closing keeps the account. *)
Lemma account_close ph ms e : account ph ms -> account Closed (ms ++ [Error e]).
Proof.
  intros Hacc. assert (H : account Closed ms).
  { destruct ph; try done; try (by eapply process_account_closed);
      destruct Hacc as (Hi & Ho & _); (split; [by rewrite Hi; eexists |]); intros st; rewrite Ho; by eexists. }
  destruct H as [Hin Hout]. split; [by rewrite inputs_snoc, app_nil_r|].
  intros st. specialize (Hout st). rewrite outputs_snoc, app_nil_r.
  destruct st; cbn in *; by rewrite ?pty_base_snoc.
Qed.

(** A message that carries no data before the process runs. *)
Lemma no_data_snoc ms m :
  no_data ms -> input_chunk m = [] -> (forall st, output_chunk st m = []) ->
  (forall a b c d, m <> PtyAttached a b c d) -> no_data (ms ++ [m]).
Proof.
  intros (Hi & Ho & Hb) Him Hom Hp. split; [by rewrite inputs_snoc, Hi, Him|].
  split; [intros st; by rewrite outputs_snoc, Ho, Hom|].
  rewrite pty_base_snoc. destruct m; naive_solver.
Qed.

Lemma no_data_closed ms : no_data ms -> account Closed ms.
Proof.
  intros (Hi & Ho & _). split; [rewrite Hi; by eexists | intros st; rewrite Ho; by eexists].
Qed.

Lemma no_data_new_pipe ms id : no_data ms -> process_account (new_pipe id) ms.
Proof. intros (Hi & Ho & _). split; [by rewrite Hi|]. intros []; cbn; by rewrite Ho. Qed.

Lemma no_data_new_pty ms m id session offset gap :
  no_data ms -> input_chunk m = [] -> (forall st, output_chunk st m = []) ->
  offset = pty_base 0 (ms ++ [m]) -> process_account (new_pty id session offset gap) (ms ++ [m]).
Proof.
  intros (Hi & Ho & _) Him Hom ->. split; [by rewrite inputs_snoc, Hi, Him|].
  intros []; cbn; by rewrite outputs_snoc, Ho, Hom.
Qed.

Lemma phase_step_account caps ph m ph' ms :
  phase_step caps ph m ph' -> account ph ms -> account ph' (ms ++ [m]).
Proof.
  intros Hs Hacc. destruct Hs as
    [ph e| | | | |request id|request id|request ttl id credentials|request session replay id offset Hr
    |p m p' Hc|p m p' Hc|p m p' Hc|p|p id s n p' Hc|p m p' Hc|p m p' Hc|p session Hsess| | |w m w' Hc| |w m w' Hc|];
    cbn [account] in *; try (apply no_data_snoc; done).
  - by eapply account_close.
  - by apply no_data_new_pipe, no_data_snoc.
  - apply no_data_new_pty; try done. rewrite pty_base_snoc. by destruct Hacc as (_ & _ & ?).
  - apply no_data_new_pty; try done. rewrite pty_base_snoc. by destruct Hacc as (_ & _ & ?).
  - apply no_data_new_pty; try done. by rewrite pty_base_snoc.
  - by eapply client_step_account.
  - by eapply server_step_account.
  - by eapply process_account_closed, server_step_account.
  - eapply process_account_quiet; eauto; try done. quiet_streams.
  - by eapply client_step_account.
  - by eapply server_step_account.
  - by eapply process_account_closed, server_step_account.
  - eapply (process_account_closed p), process_account_quiet; eauto; try done. quiet_streams.
  - apply no_data_snoc; [done | by destruct Hc | by destruct Hc | by destruct Hc].
  - apply no_data_snoc; [done | by destruct Hc | by destruct Hc | by destruct Hc].
  - by apply no_data_closed, no_data_snoc.
Qed.

Lemma phase_step_startable caps ph m ph' : phase_step caps ph m ph' -> startable ph'.
Proof. intros Hs. destruct Hs as [| | |c ? ? Hspec| | | | | | | | | | | | | | | | | | |]; try done. by destruct c. Qed.

Lemma observe_all_account s trace s' ms :
  startable (phase s) -> account (phase s) ms -> observe_all s trace = Ok s' ->
  account (phase s') (ms ++ (snd <$> trace)).
Proof.
  revert s ms. induction trace as [|[d m] trace IH]; intros s ms Hst Hacc; cbn [observe_all].
  - intros [= <-]. by rewrite app_nil_r.
  - rewrite bind_Ok. intros (s1 & Hm & Hrest).
    apply observe_Ok in Hm as (_ & _ & ph & Hm & ->). apply apply_message_spec in Hm; [|done].
    cbn [fmap list_fmap snd]. rewrite cons_middle, app_assoc.
    eapply IH; [| |exact Hrest]; cbn [phase].
    + by eapply phase_step_startable.
    + by eapply phase_step_account.
Qed.

(** Note (no byte lost, repeated or reordered).  In every session a state machine
    accepts, from the first hello on and in either role, the input chunks and the
    output chunks of each stream are consecutive: each starts at the offset where
    the previous one ended, input and pipe output at zero and a reattached PTY at
    the offset it was attached at; while the process runs, the machine's offset
    is the end of the last chunk. *)
Theorem session_streams_contiguous r caps trace s :
  observe_all (new_machine r caps) trace = Ok s ->
  (exists stop, contiguous 0 (inputs (snd <$> trace)) stop /\
    (forall p, process_of (phase s) = Some p -> stop = input_sent p)) /\
  (forall st, exists stop,
    contiguous (stream_base st (snd <$> trace)) (outputs st (snd <$> trace)) stop /\
    (forall p o, process_of (phase s) = Some p -> stream_of p st = Ok o -> stop = next o)).
Proof.
  intros H. apply (observe_all_account _ _ _ []) in H; [|done|done]. cbn [app] in H.
  destruct (phase s) as [| | | | |p|p| | | |] eqn:E; cbn [account] in H.
  all: try (destruct H as (-> & Ho & _); split; [by eexists | intros st; rewrite Ho; by eexists]).
  1,2: destruct H as [Hin Hout]; split; [eexists; split; [done | by intros ? [= <-]]|]; intros st;
    specialize (Hout st); destruct (stream_of p st) as [o|] eqn:Eo;
    [eexists; split; [done | intros ? ? [= <-]; congruence]
    |rewrite Hout; eexists; split; [done | intros ? ? [= <-]; congruence]].
  destruct H as [[stop Hin] Hout]. split; [by exists stop|].
  intros st. destruct (Hout st) as [stop' ?]. by exists stop'.
Qed.

Lemma phase_step_capability caps ph m ph' c :
  startable ph -> phase_step caps ph m ph' -> phase_capability ph = Some c ->
  ph' = Closed \/ phase_capability ph' = Some c.
Proof.
  intros Hst Hs Hc.
  destruct Hs as [| | | | | | | | |p m p' H|p m p' H| | |p ? ? ? p' H|p m p' H| | | | | | | |];
    cbn in *; try (by left); try (by right); try (right; destruct H; done).
Qed.

(** Note (capability).  Once the hello exchange has fixed the capability of a
    stream, nothing the peers send changes it: after any further accepted messages
    the stream still has that capability or is closed. *)
Theorem capability_is_stable r caps s trace s' c :
  reachable r caps s -> observe_all s trace = Ok s' -> negotiated_capability s = Some c ->
  is_closed s' = true \/ negotiated_capability s' = Some c.
Proof.
  intros (_ & _ & Hst%wf_startable)%reachable_wf. unfold negotiated_capability, is_closed.
  revert s Hst. induction trace as [|[d m] trace IH]; intros s Hst; cbn [observe_all].
  - intros [= <-]. by right.
  - rewrite bind_Ok. intros (s1 & (_ & _ & ph & Hm & ->)%observe_Ok & Hrest) Hc.
    apply apply_message_spec in Hm; [|done].
    destruct (phase_step_capability _ _ _ _ _ Hst Hm Hc) as [->|Hc'].
    + destruct trace as [|[d' m'] trace]; cbn [observe_all] in Hrest; [left; by injection Hrest as <-|].
      exfalso. apply bind_Ok in Hrest as (s2 & (_ & _ & ph2 & Hm2 & _)%observe_Ok & _). done.
    + eapply IH; [|done|done]. by eapply phase_step_startable.
Qed.

(** ** Two peers whose messages cross on the wire *)

(** A client message and a server message about one process commute. *)
Lemma client_server_commute p mc p1 ms p2 :
  client_step p mc p1 -> server_step p ms p2 false ->
  exists p3, server_step p1 ms p3 false /\ client_step p2 mc p3.
Proof.
  intros Hc Hs. inversion Hs as [n Hn|s o data Hg Ho Hn|a b snap Hp Hg|]; subst;
    inversion Hc as [d Hcl Hd|Hcl|s' o' n' Hg' Ho' Hn'|size Hp'|sig]; subst; try congruence.
  (* an input acknowledgement *)
  - pose proof (zlen_nonneg d). eexists; split;
      [by apply (server_input_ack (set_input p _ _ _)); cbn; lia
      |by apply (client_input (set_input p (input_sent p) n (input_closed p)))].
  - eexists; split;
      [by apply (server_input_ack (set_input p _ _ _))
      |by apply (client_close_input (set_input p (input_sent p) n (input_closed p)))].
  - eexists; split;
      [by apply (server_input_ack (set_stream p s' _))
      |by apply (client_output_ack (set_input p (input_sent p) n (input_closed p)) s' o')].
  - eexists; split; [by apply server_input_ack | by apply (client_resize (set_input _ _ _ _))].
  - eexists; split; [by apply server_input_ack | by apply (client_signal (set_input _ _ _ _))].
  (* an output chunk *)
  - eexists; split;
      [by apply (server_output (set_input p _ _ _) s o)
      |by apply (client_input (set_stream p s _))].
  - eexists; split;
      [by apply (server_output (set_input p _ _ _) s o)
      |by apply (client_close_input (set_stream p s _))].
  - pose proof (zlen_nonneg data).
    pose proof (stream_of_set_stream p s' o' s {| next := next o'; acked := n' |} Ho') as E1.
    pose proof (stream_of_set_stream p s o s' {| next := next o + zlen data; acked := acked o |} Ho) as E2.
    destruct (decide (s' = s)) as [->|Hss];
      [rewrite bool_decide_eq_true_2 in E1, E2 by done | rewrite bool_decide_eq_false_2 in E1, E2 by done].
    + assert (o' = o) as -> by congruence. eexists; split;
        [by apply (server_output (set_stream p s _) s {| next := next o; acked := n' |})|].
      replace (set_stream (set_stream p s {| next := next o; acked := n' |}) s _) with
        (set_stream (set_stream p s {| next := next o + zlen data; acked := acked o |}) s
           {| next := next o + zlen data; acked := n' |}) by (by destruct s).
      apply (client_output_ack (set_stream p s _) s {| next := next o + zlen data; acked := acked o |}); cbn; [done|done|lia].
    + eexists; split; [by apply (server_output (set_stream p s' _) s o); [|congruence|]|].
      replace (set_stream (set_stream p s' _) s _) with
        (set_stream (set_stream p s {| next := next o + zlen data; acked := acked o |}) s'
           {| next := next o'; acked := n' |}) by (by destruct s, s').
      by apply (client_output_ack (set_stream p s _) s' o'); [|congruence|].
  - eexists; split; [by apply server_output | by apply (client_resize (set_stream _ s _))].
  - eexists; split; [by apply server_output | by apply (client_signal (set_stream _ s _))].
  (* a replay gap *)
  - eexists; split; [by apply (server_gap (set_input p _ _ _)) | by apply (client_input (clear_gap p))].
  - eexists; split; [by apply (server_gap (set_input p _ _ _)) | by apply (client_close_input (clear_gap p))].
  - eexists; split; [by apply server_gap | by apply (client_resize (clear_gap _))].
  - eexists; split; [by apply server_gap | by apply (client_signal (clear_gap _))].
Qed.

(** So do a watch acknowledgement and a watch notification. *)
Lemma watch_commute w mc w1 ms w2 :
  watch_step w mc w1 -> sender mc = Client -> watch_step w ms w2 -> sender ms = Server ->
  validate ms = Ok () ->
  exists w3, watch_step w1 ms w3 /\ watch_step w2 mc w3.
Proof.
  intros Hc Hcl Hs Hsv Hv. destruct Hc as [n Hn| | |]; try done.
  destruct Hs as [|events Hg He|a b Hg|n' Hg]; try done.
  - pose proof (zlen_nonneg events). eexists; split;
      [by apply (watch_events (Build_RuntimeWatchState (watch_id w) (next_sequence w) n (watch_gap_pending w)))
      |apply (watch_ack (Build_RuntimeWatchState (watch_id w) (next_sequence w + zlen events)
                (acked_sequence w) (watch_gap_pending w))); cbn; lia].
  - eexists; split;
      [by apply (watch_resume_gap (Build_RuntimeWatchState (watch_id w) (next_sequence w) n (watch_gap_pending w)))
      |by apply (watch_ack (Build_RuntimeWatchState (watch_id w) (next_sequence w) (acked_sequence w) None))].
  - cbn in Hv. apply fail_if_Ok, Z.leb_gt in Hv. eexists; split;
      [by apply (watch_overflow (Build_RuntimeWatchState (watch_id w) (next_sequence w) n (watch_gap_pending w)))
      |apply (watch_ack (Build_RuntimeWatchState (watch_id w) n' (acked_sequence w) (watch_gap_pending w))); cbn; lia].
Qed.

Lemma server_step_sender p m p' c : server_step p m p' c -> sender m = Server.
Proof. by intros []. Qed.
Lemma client_step_sender p m p' : client_step p m p' -> sender m = Client.
Proof. by intros []. Qed.

(** What a client message leaves of a process, as far as the server's final
    messages are concerned. *)
Lemma client_step_identity p m p' :
  client_step p m p' -> process_id p' = process_id p /\ ps_session_id p' = ps_session_id p /\ pty p' = pty p.
Proof. by intros []. Qed.
Lemma server_step_identity p m p' c :
  server_step p m p' c -> process_id p' = process_id p /\ ps_session_id p' = ps_session_id p /\ pty p' = pty p.
Proof. by intros []. Qed.

Section Peers.
Context (caps : CapabilitySet).

(** The diamond: from one phase, a client message and a server message that
    does not end the stream can be taken in either order, to the same phase. *)
Lemma phase_diamond ph mc ph1 ms ph2 :
  phase_step caps ph mc ph1 -> sender mc = Client ->
  phase_step caps ph ms ph2 -> sender ms = Server -> validate ms = Ok () -> ph2 <> Closed ->
  exists ph3, phase_step caps ph1 ms ph3 /\ phase_step caps ph2 mc ph3.
Proof.
  intros Hc Hcs Hs Hss Hv Hopen.
  destruct Hs as [ph e| | | | | | | | |p m p2 Hs|p m p2 Hs|p m p2 Hs|p Hp Hse|p id s n p2 Hs|p m p2 Hs|p m p2 Hs|p session Hsess| | |w m w2 Hs| |w m w2 Hs|];
    try done; try (by inversion Hc; subst).
  - apply client_step_sender in Hs. congruence.
  - inversion Hc as [| | | | | | | | |? ? p1 Hc1|? ? p1 Hc1|? ? p1 Hc1|? Hp Hse| | | | | | | | | |]; subst; try done.
    + destruct (client_server_commute _ _ _ _ _ Hc1 Hs) as (p3 & ? & ?). eauto with nrm.
    + apply server_step_sender in Hc1. congruence.
    + apply server_step_sender in Hc1. congruence.
    + exists (AwaitDetached p2). split; [by constructor|].
      apply server_step_identity in Hs as (E & ? & ?). rewrite <- E. constructor; congruence.
  - inversion Hc as [| | | | | | | | | | | | |? ? ? ? p1 Hc1|? ? p1 Hc1|? ? p1 Hc1| | | | | | |]; subst; try done.
    + destruct (client_server_commute _ _ _ _ _ Hc1 Hs) as (p3 & ? & ?). eauto with nrm.
    + apply server_step_sender in Hc1. congruence.
    + apply server_step_sender in Hc1. congruence.
  - inversion Hc as [| | | | | | | | | | | | | | | | | | |? ? w1 Hc1| | |]; subst; try done.
    + destruct (watch_commute _ _ _ _ _ Hc1 Hcs Hs Hss Hv) as (w3 & ? & ?). eauto with nrm.
    + exists (AwaitWatchStopped w2). split; [by constructor|].
      assert (watch_id w2 = watch_id w) as <- by (by destruct Hs). constructor.
  - inversion Hc as [| | | | | | | | | | | | | | | | | | | | |? ? w1 Hc1|]; subst; try done.
    destruct (watch_commute _ _ _ _ _ Hc1 Hcs Hs Hss Hv) as (w3 & ? & ?). eauto with nrm.
Qed.

(** Only the server ends a stream. *)
Lemma client_keeps_open ph m ph' : phase_step caps ph m ph' -> sender m = Client -> ph' <> Closed.
Proof.
  intros Hc Hs ->. inversion Hc as [| | | | | | | | | | |p ? ? H| | | |p ? ? H| | | | | | |]; subst; try done.
  all: apply server_step_sender in H; congruence.
Qed.

(** A final server message stays acceptable after client messages. *)
Lemma phase_final ph mc ph1 ms :
  phase_step caps ph mc ph1 -> sender mc = Client ->
  phase_step caps ph ms Closed -> sender ms = Server -> phase_step caps ph1 ms Closed.
Proof.
  intros Hc Hcs Hs Hss.
  assert (Hexit : forall p p1 p2, process_id p1 = process_id p -> server_step p ms p2 true ->
    server_step p1 ms p1 true).
  { intros p p1 p2 E Hx. inversion Hx; subst. rewrite <- E. constructor. }
  inversion Hs as [? e Hne| | | | | | | | | | |p ? p2 Hx| | | |p ? p2 Hx|p session Hsess| | | | | |w]; subst.
  - constructor. by eapply client_keeps_open.
  - inversion Hc as [| | | | | | | | |? ? p1 Hc1|? ? p1 Hc1|? ? p1 Hc1|? Hp Hse| | | | | | | | | |]; subst; try done;
      try (apply server_step_sender in Hc1; congruence).
    + eapply step_exited, Hexit; [|done]. by apply client_step_identity in Hc1 as [].
    + by eapply step_detaching_exited.
  - inversion Hc as [| | | | | | | | | | | | |? ? ? ? p1 Hc1|? ? p1 Hc1|? ? p1 Hc1| | | | | | |]; subst; try done;
      try (apply server_step_sender in Hc1; congruence).
    eapply step_detaching_exited, Hexit; [|done]. by apply client_step_identity in Hc1 as [].
  - inversion Hc as [| | | | | | | | | | | | |? ? ? ? p1 Hc1|? ? p1 Hc1|? ? p1 Hc1| | | | | | |]; subst; try done;
      try (apply server_step_sender in Hc1; congruence).
    apply client_step_identity in Hc1 as (E & Es & _). rewrite <- E. constructor. congruence.
  - inversion Hc as [| | | | | | | | | | | | | | | | | | | | |? ? w1 Hc1|]; subst; try done.
    assert (watch_id w1 = watch_id w) as <- by (by destruct Hc1). constructor.
Qed.

(** Messages of one peer taken in a row, each validated. *)
Inductive run (r : RuntimePeerRole) : RuntimePhase -> list RuntimeMessage -> RuntimePhase -> Prop :=
| run_nil ph : run r ph [] ph
| run_cons ph m ph1 ms ph2 :
    sender m = r -> validate m = Ok () -> phase_step caps ph m ph1 -> run r ph1 ms ph2 ->
    run r ph (m :: ms) ph2.

Lemma run_snoc r ph ms ph1 m ph2 :
  run r ph ms ph1 -> sender m = r -> validate m = Ok () -> phase_step caps ph1 m ph2 ->
  run r ph (ms ++ [m]) ph2.
Proof. induction 1; cbn; eauto using run. Qed.

Lemma run_closed r ph ms ph' : run r ph ms ph' -> ph = Closed -> ms = [] /\ ph' = Closed.
Proof. intros [|? m ? ? ? _ _ Hstep _] ->; [done|]. by inversion Hstep. Qed.

(** A server message against the client messages in flight. *)
Lemma server_message_over_client_run ph ms ph1 cs ph2 :
  phase_step caps ph ms ph1 -> sender ms = Server -> validate ms = Ok () ->
  run Client ph cs ph2 ->
  (ph1 <> Closed -> exists ph3, run Client ph1 cs ph3 /\ phase_step caps ph2 ms ph3) /\
  (ph1 = Closed -> phase_step caps ph2 ms Closed).
Proof.
  intros Hs Hss Hv Hrun. revert ph1 Hs. induction Hrun as [ph|ph m pha cs ph2 Hm Hvm Hstep Hrun IH]; intros ph1 Hs.
  - split; [eauto using run | by intros ->].
  - split.
    + intros Hopen. destruct (phase_diamond _ _ _ _ _ Hstep Hm Hs Hss Hv Hopen) as (ph3 & H1 & H2).
      destruct (IH _ H1) as [IH1 _].
      destruct IH1 as (ph4 & ? & ?); [by eapply client_keeps_open | eauto using run].
    + intros ->. assert (H1 : phase_step caps pha ms Closed) by (by eapply phase_final).
      destruct (IH _ H1) as [_ IH2]. auto.
Qed.

(** A client message against the server messages in flight, none of them final. *)
Lemma client_message_over_server_run ph mc ph1 ss ph2 :
  phase_step caps ph mc ph1 -> sender mc = Client -> validate mc = Ok () ->
  run Server ph ss ph2 -> ph2 <> Closed ->
  exists ph3, run Server ph1 ss ph3 /\ phase_step caps ph2 mc ph3.
Proof.
  intros Hc Hcs Hv Hrun Hopen. revert ph1 Hc.
  induction Hrun as [ph|ph m pha ss ph2 Hm Hvm Hstep Hrun IH]; intros ph1 Hc; [eauto using run|].
  assert (Hne : pha <> Closed) by (intros ->; by apply run_closed in Hrun as [_ ?]).
  destruct (phase_diamond _ _ _ _ _ Hc Hcs Hstep Hm Hvm Hne) as (ph3 & H1 & H2).
  destruct (IH Hopen _ H2) as (ph4 & ? & ?). eauto using run.
Qed.
End Peers.

(** The two machines and the ordered channels between them. *)
Record system := {
  client : RuntimeStateMachine; server : RuntimeStateMachine;
  to_server : list RuntimeMessage; to_client : list RuntimeMessage }.

Inductive system_step : system -> system -> Prop :=
| client_sends c s q1 q2 m c' :
    observe_outbound c m = Ok c' ->
    system_step {| client := c; server := s; to_server := q1; to_client := q2 |}
      {| client := c'; server := s; to_server := q1 ++ [m]; to_client := q2 |}
| server_sends c s q1 q2 m s' :
    observe_outbound s m = Ok s' ->
    system_step {| client := c; server := s; to_server := q1; to_client := q2 |}
      {| client := c; server := s'; to_server := q1; to_client := q2 ++ [m] |}
| client_receives c s q1 q2 m c' :
    observe_inbound c m = Ok c' ->
    system_step {| client := c; server := s; to_server := q1; to_client := m :: q2 |}
      {| client := c'; server := s; to_server := q1; to_client := q2 |}
| server_receives c s q1 q2 m s' :
    observe_inbound s m = Ok s' ->
    system_step {| client := c; server := s; to_server := m :: q1; to_client := q2 |}
      {| client := c; server := s'; to_server := q1; to_client := q2 |}.

Definition initial_system (caps : CapabilitySet) : system :=
  {| client := new_machine Client caps; server := new_machine Server caps; to_server := []; to_client := [] |}.

(** Both peers are some messages in flight away from a common phase, or the
    stream was closed and everything the server sent arrived. *)
Definition synchronised (caps : CapabilitySet) (sys : system) : Prop :=
  role (client sys) = Client /\ supported (client sys) = caps /\ startable (phase (client sys)) /\
  role (server sys) = Server /\ supported (server sys) = caps /\ startable (phase (server sys)) /\
  ((exists base, run caps Client base (to_server sys) (phase (client sys)) /\
                 run caps Server base (to_client sys) (phase (server sys)) /\ base <> Closed) \/
   (phase (client sys) = Closed /\ phase (server sys) = Closed /\ to_client sys = [])).

Lemma observe_step s d m s' :
  startable (phase s) -> observe s d m = Ok s' ->
  validate m = Ok () /\ sender m = actual_sender (role s) d /\
  phase_step (supported s) (phase s) m (phase s') /\ role s' = role s /\ supported s' = supported s /\
  startable (phase s').
Proof.
  intros Hst (? & ? & ph & Hm & ->)%observe_Ok. apply apply_message_spec in Hm; [|done]. cbn.
  repeat split; try done. by eapply phase_step_startable.
Qed.

Lemma step_observe s d m ph :
  startable (phase s) -> validate m = Ok () -> sender m = actual_sender (role s) d ->
  phase_step (supported s) (phase s) m ph ->
  observe s d m = Ok {| role := role s; supported := supported s; phase := ph |}.
Proof.
  intros Hst Hv Hs Hstep. apply observe_Ok. split; [done|]. split; [done|].
  exists ph. split; [by apply apply_message_spec | done].
Qed.

Lemma phase_step_deterministic caps ph m ph1 ph2 :
  startable ph -> phase_step caps ph m ph1 -> phase_step caps ph m ph2 -> ph1 = ph2.
Proof. intros Hst H1%apply_message_spec H2%apply_message_spec; congruence. Qed.

Lemma phase_step_open caps ph m ph' : phase_step caps ph m ph' -> ph <> Closed.
Proof. intros H ->. by inversion H. Qed.

Lemma closed_or_open (ph : RuntimePhase) : ph = Closed \/ ph <> Closed.
Proof. destruct ph; (by left) || (by right). Qed.

Lemma run_cons_inv caps r ph m ms ph' :
  run caps r ph (m :: ms) ph' ->
  exists ph1, sender m = r /\ validate m = Ok () /\ phase_step caps ph m ph1 /\ run caps r ph1 ms ph'.
Proof. intros H. inversion H; subst. eauto 10. Qed.

Lemma synchronised_step caps sys sys' : synchronised caps sys -> system_step sys sys' -> synchronised caps sys'.
Proof.
  intros (Hcr & Hcc & Hcst & Hsr & Hsc & Hsst & Hsync) Hstep.
  destruct Hstep as [c s q1 q2 m c' Ho|c s q1 q2 m s' Ho|c s q1 q2 m c' Ho|c s q1 q2 m s' Ho]; cbn in *;
    apply observe_step in Ho as (Hv & Hsend & Hps & Hr' & Hc' & Hst'); try done;
    rewrite ?Hcr, ?Hsr in Hsend; cbn in Hsend;
    (unfold synchronised; cbn; split_and!; try congruence; try done);
    destruct Hsync as [(base & Hc & Hs & Hbase)|(Hclosed & Hsclosed & Hq)];
    try (exfalso; apply phase_step_open in Hps; congruence).
  - left. exists base. split; [|done]. rewrite Hcc in Hps. by eapply run_snoc.
  - left. exists base. split; [done|]. rewrite Hsc in Hps. split; [by eapply run_snoc | done].
  - apply run_cons_inv in Hs as (b1 & _ & _ & Hb & Hrest). rewrite Hcc in Hps.
    destruct (server_message_over_client_run caps _ _ _ _ _ Hb Hsend Hv Hc) as [Hopen Hfinal].
    destruct (closed_or_open b1) as [->|Hne].
    + right. apply run_closed in Hrest as [-> ->]; [|done].
      by rewrite (phase_step_deterministic _ _ _ _ _ Hcst Hps (Hfinal eq_refl)).
    + left. destruct (Hopen Hne) as (ph3 & Hrun & Hstep3). exists b1.
      by rewrite (phase_step_deterministic _ _ _ _ _ Hcst Hps Hstep3).
  - apply run_cons_inv in Hc as (b1 & _ & _ & Hb & Hrest). rewrite Hsc in Hps. left. exists b1.
    destruct (client_message_over_server_run caps _ _ _ _ _ Hb Hsend Hv Hs) as (ph3 & Hrun & Hstep3);
      [by eapply phase_step_open|].
    rewrite (phase_step_deterministic _ _ _ _ _ Hsst Hps Hstep3).
    split; [done|]. split; [done|]. by eapply client_keeps_open.
Qed.

(** The systems two peers with the same capabilities reach from the start of a
    stream, their sends and receives interleaved in any order. *)
Definition system_reachable (caps : CapabilitySet) : system -> Prop :=
  rtc system_step (initial_system caps).

Lemma reachable_synchronised caps sys : system_reachable caps sys -> synchronised caps sys.
Proof.
  intros H. refine (rtc_ind_r (synchronised caps) _ _ _ _ H).
  - unfold synchronised, initial_system. cbn. repeat split. left. exists AwaitClientHello.
    split; [constructor|]. split; [constructor | done].
  - intros s1 s2 _ Hstep IH. by eapply synchronised_step.
Qed.

Lemma synchronised_to_client caps sys m q :
  synchronised caps sys -> to_client sys = m :: q -> exists c', observe_inbound (client sys) m = Ok c'.
Proof.
  intros (Hcr & Hcc & Hcst & _ & _ & _ & [(base & Hc & Hs & Hbase)|(_ & _ & Hq)]) Hm; [|congruence].
  rewrite Hm in Hs. apply run_cons_inv in Hs as (b1 & Hsend & Hv & Hb & _).
  destruct (server_message_over_client_run caps _ _ _ _ _ Hb Hsend Hv Hc) as [Hopen Hfinal].
  assert (exists ph, phase_step caps (phase (client sys)) m ph) as [ph Hph].
  { destruct (closed_or_open b1) as [E|Hne]; [eauto|]. destruct (Hopen Hne) as (ph3 & _ & ?). eauto. }
  eexists. apply step_observe; [done|done|by rewrite Hcr|by rewrite Hcc].
Qed.

Lemma synchronised_to_server caps sys m q :
  synchronised caps sys -> to_server sys = m :: q -> is_closed (server sys) = false ->
  exists s', observe_inbound (server sys) m = Ok s'.
Proof.
  unfold is_closed. intros (_ & _ & _ & Hsr & Hsc & Hsst & [(base & Hc & Hs & Hbase)|(_ & E & _)]) Hm Hopen;
    [|by rewrite E in Hopen].
  rewrite Hm in Hc. apply run_cons_inv in Hc as (b1 & Hsend & Hv & Hb & _).
  destruct (client_message_over_server_run caps _ _ _ _ _ Hb Hsend Hv Hs) as (ph3 & _ & Hstep3);
    [by intros E; rewrite E in Hopen|].
  eexists. apply step_observe; [done|done|by rewrite Hsr|by rewrite Hsc].
Qed.

(** C1 (peers agree).  Let both ends of a stream run the state machine over what
    they send and receive, over ordered channels in which messages may cross.  In
    every state they reach, the client accepts whatever message of the server is
    next; the server, as long as its machine is not closed, accepts whatever message of
    the client is next (once it has sent [Exited] or [Error], frames of the client that are still
    in flight are refused); and when nothing is in flight both are in the same phase,
    with the same offsets. *)
Theorem peers_never_disagree caps sys :
  system_reachable caps sys ->
  (forall m q, to_client sys = m :: q -> exists c', observe_inbound (client sys) m = Ok c') /\
  (forall m q, to_server sys = m :: q -> is_closed (server sys) = false ->
     exists s', observe_inbound (server sys) m = Ok s') /\
  (to_client sys = [] -> to_server sys = [] -> phase (client sys) = phase (server sys)).
Proof.
  intros H%reachable_synchronised. split; [eauto using synchronised_to_client|].
  split; [eauto using synchronised_to_server|]. intros Hq1 Hq2.
  destruct H as (_ & _ & _ & _ & _ & _ & [(base & Hc & Hs & _)|(-> & -> & _)]); [|done].
  rewrite Hq2 in Hc. rewrite Hq1 in Hs. by inversion Hc; inversion Hs; subst.
Qed.

(** ** Executable schedules, for concrete runs of two peers *)

Inductive event := ClientSends (m : RuntimeMessage) | ServerSends (m : RuntimeMessage) | ClientReceives | ServerReceives.

Definition perform (sys : system) (e : event) : option system :=
  match e, to_client sys, to_server sys with
  | ClientSends m, q2, q1 =>
      c ← ok (observe_outbound (client sys) m);
      Some {| client := c; server := server sys; to_server := q1 ++ [m]; to_client := q2 |}
  | ServerSends m, q2, q1 =>
      s ← ok (observe_outbound (server sys) m);
      Some {| client := client sys; server := s; to_server := q1; to_client := q2 ++ [m] |}
  | ClientReceives, m :: q2, q1 =>
      c ← ok (observe_inbound (client sys) m);
      Some {| client := c; server := server sys; to_server := q1; to_client := q2 |}
  | ServerReceives, q2, m :: q1 =>
      s ← ok (observe_inbound (server sys) m);
      Some {| client := client sys; server := s; to_server := q1; to_client := q2 |}
  | _, _, _ => None
  end.

Fixpoint perform_all (sys : system) (es : list event) : option system :=
  match es with
  | [] => Some sys
  | e :: es => sys ← perform sys e; perform_all sys es
  end.

Lemma ok_Some {E A} (r : result E A) a : ok r = Some a -> r = Ok a.
Proof. destruct r; naive_solver. Qed.

Lemma perform_step sys e sys' : perform sys e = Some sys' -> system_step sys sys'.
Proof.
  destruct sys as [c s q1 q2], e; cbn; intros H; repeat (case_match; try done);
    apply bind_Some in H as (x & ?%ok_Some & [= <-]); by constructor.
Qed.

Lemma perform_all_reachable sys es sys' : perform_all sys es = Some sys' -> rtc system_step sys sys'.
Proof.
  revert sys. induction es as [|e es IH]; intros sys; cbn.
  - by intros [= <-].
  - intros (s1 & ?%perform_step & ?)%bind_Some. eapply rtc_l; eauto.
Qed.

(** [capabilities()] of the agent's runtime module and of the sidecar's proxy: the
    set both ends of a runtime stream are built with. *)
Definition runtime_capabilities : CapabilitySet := {|
  scan := scan v1_agent; read := read v1_agent; write_cas := write_cas v1_agent;
  checksum := checksum v1_agent; grep := grep v1_agent; lsp_proxy := lsp_proxy v1_agent;
  batch_read := batch_read v1_agent; batch_validate := batch_validate v1_agent;
  chunked_write := chunked_write v1_agent; request_ids := request_ids v1_agent;
  cancellation := cancellation v1_agent; streaming := streaming v1_agent;
  multiplexing := multiplexing v1_agent; git := git v1_agent;
  runtime_process_v1 := true; runtime_pty_v1 := true;
  workspace_watch_v1 := workspace_watch_v1 v1_agent |}.

(** A detachable PTY is started; then output, a detach and an acknowledgement
    cross on the wire. *)
Definition demo_session : bytes := replicate 16 x01.
Definition demo_credentials : PtySessionCredentials :=
  {| session_id := demo_session; attachment_token := replicate 32 x02 |}.
Definition demo_spec : RuntimeProcessSpec := {|
  argv := [B"sh"]; cwd := WorkspaceRoot; env := {| env_clear := false; env_set := []; env_unset := [] |};
  persistence := Detachable 60000;
  terminal_size := Some {| columns := 80; rows := 24; pixel_width := None; pixel_height := None |};
  timeout_ms := None; max_output_bytes := None |}.
Definition demo_messages : list RuntimeMessage := [
  ClientHello CARGO_PKG_VERSION PROTOCOL_VERSION ProcessPtyV1;
  ServerHello CARGO_PKG_VERSION PROTOCOL_VERSION ProcessPtyV1;
  StartProcess 1 demo_spec;
  ProcessStarted 1 9 (Some demo_credentials) 0;
  Input 9 0 (B"ls"); Output 9 Pty 0 (B"$ "); Output 9 Pty 2 (B"src"); InputAck 9 2 ].

(** The same messages as the client observes them, and a schedule of both peers. *)
Definition demo_trace : list (RuntimeDirection * RuntimeMessage) :=
  (fun m => (match sender m with Client => Outbound | Server => Inbound end, m)) <$> demo_messages.
Definition demo_schedule : list event :=
  (demo_messages ≫= fun m => match sender m with
                             | Client => [ClientSends m; ServerReceives]
                             | Server => [ServerSends m; ClientReceives]
                             end) ++
  [ServerSends (Output 9 Pty 5 (B"doc")); ClientSends (OutputAck 9 Pty 5); ClientSends (Detach 9)].

Lemma demo_trace_accepted :
  exists s, observe_all (new_machine Client runtime_capabilities) demo_trace = Ok s /\
    is_closed s = false.
Proof. vm_compute. eexists. split; reflexivity. Qed.

Lemma observe_all_reachable r caps s trace s' :
  reachable r caps s -> Forall (fun dm => typed dm.2) trace -> observe_all s trace = Ok s' ->
  reachable r caps s'.
Proof.
  intros Hs Ht. revert s Hs. induction Ht as [|[d m] trace Hm _ IH]; intros s Hs; cbn [observe_all].
  - by intros [= <-].
  - rewrite bind_Ok. intros (s1 & ? & ?). eauto using reachable.
Qed.

Definition demo_machine : RuntimeStateMachine :=
  match observe_all (new_machine Client runtime_capabilities) demo_trace with
  | Ok s => s
  | Err _ => new_machine Client runtime_capabilities
  end.
Definition demo_system : system :=
  match perform_all (initial_system runtime_capabilities) demo_schedule with
  | Some sys => sys
  | None => initial_system runtime_capabilities
  end.

Lemma demo_machine_reachable : reachable Client runtime_capabilities demo_machine.
Proof.
  apply (observe_all_reachable _ _ (new_machine Client runtime_capabilities) demo_trace);
    [constructor | | by vm_compute].
  repeat (apply Forall_cons_2; [unfold typed, in_u64, u64_max; cbn; (done || lia)|]). apply Forall_nil_2.
Qed.
Lemma demo_system_reachable : system_reachable runtime_capabilities demo_system.
Proof. apply (perform_all_reachable _ demo_schedule). by vm_compute. Qed.

Lemma reachable_invariant_witness : wf_phase runtime_capabilities (phase demo_machine).
Proof. apply (reachable_invariant Client). apply demo_machine_reachable. Defined.

Lemma observe_never_panics_witness :
  observe demo_machine Inbound (ProcessStarted 1 9 None 4) <> Err UnreachablePanic.
Proof. apply (observe_never_panics Client runtime_capabilities). apply demo_machine_reachable. Defined.

Lemma session_streams_contiguous_witness :
  exists stop, contiguous 0 (outputs Pty demo_messages) stop /\
    forall p o, process_of (phase demo_machine) = Some p -> stream_of p Pty = Ok o -> stop = next o.
Proof.
  assert (H : observe_all (new_machine Client runtime_capabilities) demo_trace = Ok demo_machine) by (by vm_compute).
  destruct (session_streams_contiguous _ _ _ _ H) as [_ Hout]. exact (Hout Pty).
Defined.

(** Three messages are in flight in [demo_system] and each is accepted. *)
Lemma peers_never_disagree_witness :
  length (to_server demo_system) = 2%nat /\
  (exists c', observe_inbound (client demo_system) (Output 9 Pty 5 (B"doc")) = Ok c') /\
  (exists s', observe_inbound (server demo_system) (OutputAck 9 Pty 5) = Ok s').
Proof.
  destruct (peers_never_disagree runtime_capabilities demo_system demo_system_reachable) as (H1 & H2 & _).
  split; [by vm_compute|]. split.
  - apply (H1 _ []). by vm_compute.
  - apply (H2 _ [Detach 9]); by vm_compute.
Defined.

Lemma capability_is_stable_witness :
  exists s', observe_all demo_machine [(Outbound, Detach 9); (Inbound, Detached 9 demo_session)] = Ok s' /\
    (is_closed s' = true \/ negotiated_capability s' = Some ProcessPtyV1).
Proof.
  eexists. split; [by vm_compute|].
  eapply (capability_is_stable Client runtime_capabilities demo_machine
            [(Outbound, Detach 9); (Inbound, Detached 9 demo_session)]);
    [apply demo_machine_reachable | by vm_compute | by vm_compute].
Defined.
