(* ===== verification/Registry.v ===== *)
(** * The agent registry's trust core (crates/nrm-registry/src/core.rs)

    Manifests of agent binaries, their detached signatures, the set of trusted
    keys, and the threshold verification that admits a manifest. *)
From S2P Require Import Prelude.

Definition MANIFEST_MAX_BYTES : Z := 1024 * 1024.
Definition SIGNATURE_DOCUMENT_MAX_BYTES : Z := 64 * 1024.
Definition ARTIFACT_MAX_BYTES : Z := 128 * 1024 * 1024.
Definition MAX_ARTIFACTS : Z := 6.
Definition MAX_SIGNATURES : Z := 32.
Definition MAX_TRUSTED_KEYS : Z := 32.
Definition MAX_KEY_ID_BYTES : Z := 128.

(** ** Targets *)

Inductive AgentTarget :=
| Aarch64AppleDarwin | Aarch64PcWindowsMsvc | Aarch64UnknownLinuxMusl
| X86_64AppleDarwin | X86_64PcWindowsMsvc | X86_64UnknownLinuxMusl.

#[export] Instance AgentTarget_eq_dec : EqDecision AgentTarget.
Proof. solve_decision. Defined.

Definition ALL : list AgentTarget := [
  Aarch64AppleDarwin; Aarch64PcWindowsMsvc; Aarch64UnknownLinuxMusl;
  X86_64AppleDarwin; X86_64PcWindowsMsvc; X86_64UnknownLinuxMusl ].

Definition as_str (t : AgentTarget) : bytes :=
  match t with
  | X86_64UnknownLinuxMusl => B"x86_64-unknown-linux-musl"
  | Aarch64UnknownLinuxMusl => B"aarch64-unknown-linux-musl"
  | X86_64AppleDarwin => B"x86_64-apple-darwin"
  | Aarch64AppleDarwin => B"aarch64-apple-darwin"
  | X86_64PcWindowsMsvc => B"x86_64-pc-windows-msvc"
  | Aarch64PcWindowsMsvc => B"aarch64-pc-windows-msvc"
  end.

Definition is_windows (t : AgentTarget) : bool :=
  match t with X86_64PcWindowsMsvc | Aarch64PcWindowsMsvc => true | _ => false end.

Definition from_str (value : bytes) : result unit AgentTarget :=
  ok_or (List.find (fun t => bytes_eqb (as_str t) value) ALL) ().

(** ** Code outside the repository

    JSON decoding into the raw structures, semantic versions, standard base64,
    Ed25519 and SHA-256, as the functions the core calls. *)

Record RawArtifact := { raw_target : bytes; raw_filename : bytes; raw_sha256 : bytes; raw_size : Z }.
Record RawManifest := {
  raw_schema_version : Z; raw_package : bytes; raw_version : bytes; raw_protocol_version : Z;
  raw_source_commit : bytes; raw_artifacts : list RawArtifact }.
Record RawSignature := { raw_key_id : bytes; raw_signature : bytes }.
Record RawSignatureDocument := { raw_doc_schema_version : Z; raw_signatures : list RawSignature }.

Class RegistryDeps := {
  Version : Type;
  Version_eq_dec :: EqDecision Version;
  VerifyingKey : Type;
  JsonError : Type;
  SemverError : Type;
  version_parse : bytes -> result SemverError Version;
  version_to_string : Version -> bytes;
  manifest_from_slice : bytes -> result JsonError RawManifest;
  signatures_from_slice : bytes -> result JsonError RawSignatureDocument;
  base64_decode : bytes -> option bytes;
  base64_encode : bytes -> bytes;
  key_from_bytes : bytes -> option VerifyingKey;
  key_is_weak : VerifyingKey -> bool;
  key_compress : VerifyingKey -> bytes;
  verify_strict : VerifyingKey -> bytes -> bytes -> bool;
  sha256_digest : bytes -> bytes }.

Section Core.
Context `{RegistryDeps}.

(** ** Text helpers *)

Definition sha256_hex (data : bytes) : bytes := sha256_digest data ≫= hex_byte.

Definition decode_canonical_base64 (n : Z) (encoded : bytes) : result unit bytes :=
  decoded ← ok_or (base64_decode encoded) ();
  _ ← fail_if (negb (zlen decoded =? n) || negb (bytes_eqb (base64_encode decoded) encoded)) ();
  Ok decoded.

Definition is_key_id_byte (b : byte) : bool :=
  is_ascii_alphanumeric b || byte_eqb b "." || byte_eqb b "_" || byte_eqb b "-".
Definition validate_key_id (key_id : bytes) : result unit unit :=
  fail_if (bool_decide (zlen key_id = 0) || (zlen key_id >? MAX_KEY_ID_BYTES) ||
           negb (forallb is_key_id_byte key_id)) ().

Definition artifact_filename (t : AgentTarget) (version : Version) : bytes :=
  let extension := if is_windows t then B".exe" else [] in
  B"nrm-agent-" ++ version_to_string version ++ B"-" ++ as_str t ++ extension.

(** ** Manifests *)

Record Artifact := { target : AgentTarget; filename : bytes; sha256 : bytes; size_ : Z }.
Record Manifest := {
  schema_version : Z; package : bytes; version : Version; protocol_version : Z;
  source_commit : bytes; artifacts : list Artifact }.

Inductive ManifestError :=
| ManifestTooLarge (actual : Z)
| ManifestJson (e : JsonError)
| ManifestUnsupportedSchema (v : Z)
| WrongPackage (package : bytes)
| InvalidVersion (value : bytes) (source : SemverError)
| VersionMismatch (actual expected : Version)
| ManifestProtocolVersionMismatch (actual expected : Z)
| InvalidSourceCommit
| ArtifactCount (actual : Z)
| UnsupportedTarget (t : bytes)
| DuplicateTarget (t : AgentTarget)
| InvalidFilename (actual expected : bytes)
| InvalidSha256 (t : AgentTarget)
| InvalidSize (t : AgentTarget) (actual : Z).

(** The body of the loop over [raw.artifacts]; the state is [artifacts], and
    [targets] is the targets of the artifacts pushed so far. *)
Definition push_artifact (version : Version) (artifacts : list Artifact) (raw : RawArtifact) :
    result ManifestError (list Artifact) :=
  t ← map_err (fun _ => UnsupportedTarget (raw_target raw)) (from_str (raw_target raw));
  _ ← fail_if (bool_decide (t ∈ target <$> artifacts)) (DuplicateTarget t);
  let expected := artifact_filename t version in
  _ ← fail_if (negb (bytes_eqb (raw_filename raw) expected)) (InvalidFilename (raw_filename raw) expected);
  _ ← fail_if (negb (zlen (raw_sha256 raw) =? 64) || negb (forallb is_lower_hex (raw_sha256 raw)))
        (InvalidSha256 t);
  _ ← fail_if (negb ((1 <=? raw_size raw) && (raw_size raw <=? ARTIFACT_MAX_BYTES)))
        (InvalidSize t (raw_size raw));
  Ok (artifacts ++ [{| target := t; filename := raw_filename raw; sha256 := raw_sha256 raw; size_ := raw_size raw |}]).

Definition parse_manifest (data : bytes) (expected_version : Version) (expected_protocol_version : Z) :
    result ManifestError Manifest :=
  _ ← fail_if (zlen data >? MANIFEST_MAX_BYTES) (ManifestTooLarge (zlen data));
  raw ← map_err ManifestJson (manifest_from_slice data);
  _ ← fail_if (negb (raw_schema_version raw =? 1)) (ManifestUnsupportedSchema (raw_schema_version raw));
  _ ← fail_if (negb (bytes_eqb (raw_package raw) (B"nrm-agent"))) (WrongPackage (raw_package raw));
  v ← map_err (InvalidVersion (raw_version raw)) (version_parse (raw_version raw));
  _ ← fail_if (negb (bool_decide (v = expected_version))) (VersionMismatch v expected_version);
  _ ← fail_if (negb (raw_protocol_version raw =? expected_protocol_version))
        (ManifestProtocolVersionMismatch (raw_protocol_version raw) expected_protocol_version);
  _ ← fail_if (negb (zlen (raw_source_commit raw) =? 40) || negb (forallb is_lower_hex (raw_source_commit raw)))
        InvalidSourceCommit;
  _ ← fail_if (bool_decide (zlen (raw_artifacts raw) = 0) || (zlen (raw_artifacts raw) >? MAX_ARTIFACTS))
        (ArtifactCount (zlen (raw_artifacts raw)));
  arts ← try_fold (push_artifact v) [] (raw_artifacts raw);
  Ok {| schema_version := raw_schema_version raw; package := raw_package raw; version := v;
        protocol_version := raw_protocol_version raw; source_commit := raw_source_commit raw;
        artifacts := arts |}.

(** ** Signature documents *)

Record DetachedSignature := { key_id : bytes; signature : bytes }.
Record SignatureDocument := { doc_schema_version : Z; signatures : list DetachedSignature }.

Inductive SignatureError :=
| SignatureTooLarge (actual : Z)
| SignatureJson (e : JsonError)
| SignatureUnsupportedSchema (v : Z)
| SignatureCount (actual : Z)
| SignatureInvalidKeyId (key_id : bytes)
| SignatureDuplicateKeyId (key_id : bytes)
| InvalidSignatureEncoding (key_id : bytes).

Definition push_signature (acc : list DetachedSignature) (raw : RawSignature) :
    result SignatureError (list DetachedSignature) :=
  _ ← map_err (fun _ => SignatureInvalidKeyId (raw_key_id raw)) (validate_key_id (raw_key_id raw));
  _ ← fail_if (bool_decide (raw_key_id raw ∈ key_id <$> acc)) (SignatureDuplicateKeyId (raw_key_id raw));
  sig ← map_err (fun _ => InvalidSignatureEncoding (raw_key_id raw))
          (decode_canonical_base64 64 (raw_signature raw));
  Ok (acc ++ [{| key_id := raw_key_id raw; signature := sig |}]).

Definition parse_signature_document (data : bytes) : result SignatureError SignatureDocument :=
  _ ← fail_if (zlen data >? SIGNATURE_DOCUMENT_MAX_BYTES) (SignatureTooLarge (zlen data));
  raw ← map_err SignatureJson (signatures_from_slice data);
  _ ← fail_if (negb (raw_doc_schema_version raw =? 1)) (SignatureUnsupportedSchema (raw_doc_schema_version raw));
  _ ← fail_if (bool_decide (zlen (raw_signatures raw) = 0) || (zlen (raw_signatures raw) >? MAX_SIGNATURES))
        (SignatureCount (zlen (raw_signatures raw)));
  sigs ← try_fold push_signature [] (raw_signatures raw);
  Ok {| doc_schema_version := raw_doc_schema_version raw; signatures := sigs |}.

(** ** Trusted keys *)

Record TrustedPublicKey := { verifying_key : VerifyingKey; fingerprint : bytes }.
Abbreviation TrustedKeySet := (gmap bytes TrustedPublicKey).

Inductive TrustError :=
| NoKeys
| TooManyKeys
| TrustInvalidKeyId (key_id : bytes)
| TrustDuplicateKeyId (key_id : bytes)
| DuplicateKeyMaterial (first_key_id duplicate_key_id : bytes)
| InvalidPublicKeyEncoding (key_id : bytes)
| InvalidPublicKey (key_id : bytes).

(** The loop over [entries]; the state is [keys] and [key_material]. *)
Definition insert_trusted_key (acc : TrustedKeySet * gmap bytes bytes) (entry : bytes * bytes) :
    result TrustError (TrustedKeySet * gmap bytes bytes) :=
  let '(keys, key_material) := acc in
  let '(id, encoded) := entry in
  _ ← fail_if (Z.of_nat (size keys) =? MAX_TRUSTED_KEYS) TooManyKeys;
  _ ← map_err (fun _ => TrustInvalidKeyId id) (validate_key_id id);
  _ ← fail_if (bool_decide (is_Some (keys !! id))) (TrustDuplicateKeyId id);
  raw ← map_err (fun _ => InvalidPublicKeyEncoding id) (decode_canonical_base64 32 encoded);
  vk ← ok_or (key_from_bytes raw) (InvalidPublicKey id);
  _ ← fail_if (key_is_weak vk || negb (bytes_eqb (key_compress vk) raw)) (InvalidPublicKey id);
  match key_material !! raw with
  | Some first_key_id => Err (DuplicateKeyMaterial first_key_id id)
  | None => Ok (<[id := {| verifying_key := vk; fingerprint := sha256_hex raw |}]> keys,
                <[raw := id]> key_material)
  end.

Definition from_base64 (entries : list (bytes * bytes)) : result TrustError TrustedKeySet :=
  '(keys, _) ← try_fold insert_trusted_key (∅, ∅) entries;
  _ ← fail_if (bool_decide (size keys = 0%nat)) NoKeys;
  Ok keys.

(** ** Verification *)

Record VerifiedSigner := { signer_key_id : bytes; signer_fingerprint : bytes }.
Record VerifiedManifest := {
  manifest : Manifest; manifest_sha256 : bytes; verified_signers : list VerifiedSigner }.

Inductive VerificationError :=
| SignatureDocumentError (e : SignatureError)
| InvalidThreshold (threshold trusted_keys : Z)
| InsufficientSignatures (required actual : Z)
| ManifestError_ (e : ManifestError).

(** The loop over [document.signatures]. *)
Fixpoint verify_signatures (manifest_bytes : bytes) (trusted_keys : TrustedKeySet)
    (sigs : list DetachedSignature) : list VerifiedSigner :=
  match sigs with
  | [] => []
  | detached :: sigs =>
      match trusted_keys !! key_id detached with
      | None => verify_signatures manifest_bytes trusted_keys sigs
      | Some trusted =>
          if verify_strict (verifying_key trusted) manifest_bytes (signature detached)
          then {| signer_key_id := key_id detached; signer_fingerprint := fingerprint trusted |}
                 :: verify_signatures manifest_bytes trusted_keys sigs
          else verify_signatures manifest_bytes trusted_keys sigs
      end
  end.

Definition verify_manifest (manifest_bytes signature_document_bytes : bytes) (trusted_keys : TrustedKeySet)
    (threshold : Z) (expected_version : Version) (expected_protocol_version : Z) :
    result VerificationError VerifiedManifest :=
  let n := Z.of_nat (size trusted_keys) in
  _ ← fail_if ((threshold =? 0) || (threshold >? n)) (InvalidThreshold threshold n);
  _ ← fail_if (zlen manifest_bytes >? MANIFEST_MAX_BYTES)
        (ManifestError_ (ManifestTooLarge (zlen manifest_bytes)));
  document ← map_err SignatureDocumentError (parse_signature_document signature_document_bytes);
  let signers := verify_signatures manifest_bytes trusted_keys (signatures document) in
  _ ← fail_if (zlen signers <? threshold) (InsufficientSignatures threshold (zlen signers));
  m ← map_err ManifestError_ (parse_manifest manifest_bytes expected_version expected_protocol_version);
  Ok {| manifest := m; manifest_sha256 := sha256_hex manifest_bytes; verified_signers := signers |}.


(** ** What is admitted, as predicates *)

Definition lower_hex (n : Z) (s : bytes) : Prop := zlen s = n /\ Forall (fun b => is_lower_hex b = true) s.
Definition valid_key_id (id : bytes) : Prop :=
  1 <= zlen id <= MAX_KEY_ID_BYTES /\ Forall (fun b => is_key_id_byte b = true) id.

(** [encoded] is the one canonical encoding of the [n] bytes [raw]. *)
Definition canonical (n : Z) (encoded raw : bytes) : Prop :=
  base64_decode encoded = Some raw /\ zlen raw = n /\ base64_encode raw = encoded.

Record artifact_admitted (v : Version) (raw : RawArtifact) (a : Artifact) : Prop := {
  admitted_target : raw_target raw = as_str (target a);
  admitted_filename : raw_filename raw = filename a /\ filename a = artifact_filename (target a) v;
  admitted_sha256 : raw_sha256 raw = sha256 a /\ lower_hex 64 (sha256 a);
  admitted_size : raw_size raw = size_ a /\ 1 <= size_ a <= ARTIFACT_MAX_BYTES }.

Record signature_admitted (raw : RawSignature) (s : DetachedSignature) : Prop := {
  admitted_key_id : raw_key_id raw = key_id s /\ valid_key_id (key_id s);
  admitted_signature : canonical 64 (raw_signature raw) (signature s) }.

(** ** Lemmas *)

Lemma as_str_inj t t' : as_str t = as_str t' -> t = t'.
Proof. destruct t, t'; vm_compute; done. Qed.

Lemma from_str_Ok s t : from_str s = Ok t <-> s = as_str t.
Proof.
  unfold from_str. rewrite ok_or_Ok. split.
  - intros Hf%List.find_some. destruct Hf as [_ Hf%bytes_eqb_true]. done.
  - intros ->. by destruct t; vm_compute.
Qed.

Lemma lower_hex_check n s :
  negb (zlen s =? n) || negb (forallb is_lower_hex s) = false <-> lower_hex n s.
Proof.
  unfold lower_hex. rewrite orb_false_iff, !negb_false_iff, Z.eqb_eq, forallb_Forall. done.
Qed.

Lemma validate_key_id_Ok id u : validate_key_id id = Ok u <-> valid_key_id id.
Proof.
  unfold validate_key_id, valid_key_id.
  rewrite fail_if_Ok, !orb_false_iff, bool_decide_eq_false, Z.gtb_ltb, Z.ltb_ge, negb_false_iff, forallb_Forall.
  pose proof (zlen_nonneg id). intuition lia.
Qed.

Lemma decode_canonical_base64_Ok n encoded raw :
  decode_canonical_base64 n encoded = Ok raw <-> canonical n encoded raw.
Proof.
  unfold decode_canonical_base64, canonical. rewrite bind_Ok. split.
  - intros (d & Hd%ok_or_Ok & Hk). apply bind_Ok in Hk as ([] & Hf%fail_if_Ok & [= <-]). by to_prop.
  - intros (Hd & Hl & He). exists raw. rewrite ok_or_Ok. split; [done|].
    apply bind_Ok. exists (). split; [|done]. apply fail_if_Ok.
    apply orb_false_iff. rewrite !negb_false_iff. split; [by apply Z.eqb_eq | by apply bytes_eqb_true].
Qed.

Lemma push_artifact_Ok v acc raw acc' :
  push_artifact v acc raw = Ok acc' <->
  exists a, acc' = acc ++ [a] /\ artifact_admitted v raw a /\ target a ∉ target <$> acc.
Proof.
  unfold push_artifact. cbv zeta. split.
  - intros Hp. apply bind_Ok in Hp as (t & Ht%map_err_Ok%from_str_Ok & Hp).
    apply bind_Ok in Hp as ([] & Hd%fail_if_Ok & Hp). apply bind_Ok in Hp as ([] & Hf%fail_if_Ok & Hp).
    apply bind_Ok in Hp as ([] & Hh%fail_if_Ok%lower_hex_check & Hp).
    apply bind_Ok in Hp as ([] & Hs%fail_if_Ok & [= <-]).
    eexists. split; [done|]. to_prop. split; [by split|done].
  - intros (a & -> & [Ht [Hf Hfn] [Hh Hhex] [Hs Hsz]] & Hnew).
    apply bind_Ok. exists (target a). rewrite map_err_Ok, from_str_Ok. split; [done|].
    apply bind_Ok. exists (). rewrite fail_if_Ok, bool_decide_eq_false. split; [done|].
    apply bind_Ok. exists (). rewrite fail_if_Ok, negb_false_iff, bytes_eqb_true. split; [congruence|].
    apply bind_Ok. exists (). rewrite fail_if_Ok, lower_hex_check, Hh. split; [done|].
    apply bind_Ok. exists (). rewrite fail_if_Ok, negb_false_iff, andb_true_iff, !Z.leb_le, Hs, Hf.
    split; [done|]. by destruct a.
Qed.

Lemma push_signature_Ok acc raw acc' :
  push_signature acc raw = Ok acc' <->
  exists s, acc' = acc ++ [s] /\ signature_admitted raw s /\ key_id s ∉ key_id <$> acc.
Proof.
  unfold push_signature. split.
  - intros Hp. apply bind_Ok in Hp as ([] & Hv%map_err_Ok%validate_key_id_Ok & Hp).
    apply bind_Ok in Hp as ([] & Hd%fail_if_Ok & Hp).
    apply bind_Ok in Hp as (sig & Hs%map_err_Ok%decode_canonical_base64_Ok & [= <-]).
    eexists. split; [done|]. to_prop. split; [by split | done].
  - intros (s & -> & [[Hk Hv] Hs] & Hnew).
    apply bind_Ok. exists (). rewrite map_err_Ok, validate_key_id_Ok, Hk. split; [done|].
    apply bind_Ok. exists (). rewrite fail_if_Ok, bool_decide_eq_false. split; [done|].
    apply bind_Ok. exists (signature s). rewrite map_err_Ok, decode_canonical_base64_Ok. split; [done|].
    by destruct s.
Qed.

Lemma count_check n m : 0 <= n -> bool_decide (n = 0) || (n >? m) = false <-> 1 <= n <= m.
Proof. intros. rewrite orb_false_iff, bool_decide_eq_false, Z.gtb_ltb, Z.ltb_ge. lia. Qed.

(** A parsed signature document. *)
Lemma parse_signature_document_Ok data doc :
  parse_signature_document data = Ok doc ->
  exists raw, signatures_from_slice data = Ok raw /\ doc_schema_version doc = 1 /\
    1 <= zlen (signatures doc) <= MAX_SIGNATURES /\
    Forall2 signature_admitted (raw_signatures raw) (signatures doc) /\
    NoDup (key_id <$> signatures doc).
Proof.
  unfold parse_signature_document. intros Hp.
  apply bind_Ok in Hp as ([] & _ & Hp). apply bind_Ok in Hp as (raw & Hr%map_err_Ok & Hp).
  apply bind_Ok in Hp as ([] & Hv%fail_if_Ok & Hp). apply bind_Ok in Hp as ([] & Hc%fail_if_Ok & Hp).
  apply bind_Ok in Hp as (sigs & Hs & [= <-]).
  apply count_check in Hc; [|apply zlen_nonneg].
  apply (try_fold_collect _ _ _ push_signature_Ok) in Hs as (ys & -> & HF & Hnd); [|constructor].
  cbn [app] in *. exists raw. apply Forall2_length in HF as Hl. to_prop. cbn.
  split; [done|]. split; [done|]. split; [|done]. unfold zlen in *. by rewrite <- Hl.
Qed.

(** ** Manifests *)

Record manifest_admitted (data : bytes) (v : Version) (protocol : Z) (raw : RawManifest) (m : Manifest) : Prop := {
  admitted_bytes : zlen data <= MANIFEST_MAX_BYTES;
  admitted_json : manifest_from_slice data = Ok raw;
  admitted_schema : raw_schema_version raw = 1 /\ schema_version m = 1;
  admitted_package : raw_package raw = B"nrm-agent" /\ package m = B"nrm-agent";
  admitted_version : version_parse (raw_version raw) = Ok v /\ version m = v;
  admitted_protocol : raw_protocol_version raw = protocol /\ protocol_version m = protocol;
  admitted_commit : raw_source_commit raw = source_commit m /\ lower_hex 40 (source_commit m);
  admitted_count : 1 <= zlen (artifacts m) <= MAX_ARTIFACTS;
  admitted_artifacts : Forall2 (artifact_admitted v) (raw_artifacts raw) (artifacts m);
  admitted_targets : NoDup (target <$> artifacts m) }.

Lemma parse_manifest_Ok data v protocol m :
  parse_manifest data v protocol = Ok m -> exists raw, manifest_admitted data v protocol raw m.
Proof.
  unfold parse_manifest. intros Hp.
  apply bind_Ok in Hp as ([] & Hl%fail_if_Ok & Hp). apply bind_Ok in Hp as (raw & Hr%map_err_Ok & Hp).
  apply bind_Ok in Hp as ([] & Hs%fail_if_Ok & Hp). apply bind_Ok in Hp as ([] & Hpk%fail_if_Ok & Hp).
  apply bind_Ok in Hp as (v' & Hv%map_err_Ok & Hp). apply bind_Ok in Hp as ([] & Hve%fail_if_Ok & Hp).
  apply bind_Ok in Hp as ([] & Hpr%fail_if_Ok & Hp).
  apply bind_Ok in Hp as ([] & Hc%fail_if_Ok%lower_hex_check & Hp).
  apply bind_Ok in Hp as ([] & Hn%fail_if_Ok & Hp). apply bind_Ok in Hp as (arts & Ha & [= <-]).
  apply count_check in Hn; [|apply zlen_nonneg]. rewrite Z.gtb_ltb in Hl. to_prop. subst v'.
  apply (try_fold_collect _ _ _ (push_artifact_Ok v)) in Ha as (ys & -> & HF & Hnd); [|constructor].
  exists raw. apply Forall2_length in HF as Hlen. split; cbn; try done.
  unfold zlen in *. by rewrite <- Hlen.
Qed.

Lemma parse_manifest_intro data v protocol raw m :
  manifest_admitted data v protocol raw m -> parse_manifest data v protocol = Ok m.
Proof.
  intros [Hl Hr [Hs Hs'] [Hpk Hpk'] [Hv Hv'] [Hpr Hpr'] [Hc Hc'] Hn HF Hnd].
  unfold parse_manifest.
  apply bind_Ok. exists (). rewrite fail_if_Ok, Z.gtb_ltb, Z.ltb_ge. split; [done|].
  apply bind_Ok. exists raw. rewrite map_err_Ok. split; [done|].
  apply bind_Ok. exists (). rewrite fail_if_Ok, negb_false_iff, Z.eqb_eq. split; [done|].
  apply bind_Ok. exists (). rewrite fail_if_Ok, negb_false_iff, bytes_eqb_true. split; [done|].
  apply bind_Ok. exists v. rewrite map_err_Ok. split; [done|].
  apply bind_Ok. exists (). rewrite fail_if_Ok, negb_false_iff, bool_decide_eq_true. split; [done|].
  apply bind_Ok. exists (). rewrite fail_if_Ok, negb_false_iff, Z.eqb_eq. split; [done|].
  apply bind_Ok. exists (). rewrite fail_if_Ok, lower_hex_check, Hc. split; [done|].
  apply bind_Ok. exists (). rewrite fail_if_Ok, count_check by apply zlen_nonneg.
  apply Forall2_length in HF as Hlen. unfold zlen in *. rewrite Hlen. split; [done|].
  apply bind_Ok. exists (artifacts m). split.
  - apply (try_fold_collect _ _ _ (push_artifact_Ok v)); [constructor|]. by exists (artifacts m).
  - destruct m; cbn in *. congruence.
Qed.

(** Note (manifest).  [parse_manifest] accepts exactly the documents of at most
    1 MiB whose JSON has schema 1, package nrm-agent, the requested version and
    protocol, a 40-digit lowercase commit, and one to six artifacts with pairwise
    distinct targets, each with the one filename of its target and version, a
    64-digit lowercase SHA-256 and a size of 1 byte to 128 MiB; and it returns what
    the document says. *)
Theorem parse_manifest_exact data v protocol m :
  parse_manifest data v protocol = Ok m <-> exists raw, manifest_admitted data v protocol raw m.
Proof.
  split; [apply parse_manifest_Ok|]. intros [raw Hraw]. by eapply parse_manifest_intro.
Qed.

(** Note (no malleability).  Two texts that decode to the same key or signature
    bytes are the same text. *)
Theorem canonical_base64_unique n s1 s2 raw :
  decode_canonical_base64 n s1 = Ok raw -> decode_canonical_base64 n s2 = Ok raw -> s1 = s2.
Proof.
  rewrite !decode_canonical_base64_Ok. unfold canonical. intros (_ & _ & <-) (_ & _ & <-). done.
Qed.

(** ** Trusted keys *)

(** The state of the loop of [from_base64]: every key comes from an entry, and
    [key_material] names the owner of each key's bytes. *)
Record trust_invariant (entries : list (bytes * bytes)) (keys : TrustedKeySet) (material : gmap bytes bytes) : Prop := {
  ti_size : Z.of_nat (size keys) <= MAX_TRUSTED_KEYS;
  ti_ids : dom keys = list_to_set entries.*1;
  ti_nodup : NoDup entries.*1;
  ti_key : forall id k, keys !! id = Some k ->
    valid_key_id id /\ key_is_weak (verifying_key k) = false /\
    fingerprint k = sha256_hex (key_compress (verifying_key k)) /\
    material !! key_compress (verifying_key k) = Some id /\
    exists encoded, (id, encoded) ∈ entries /\ canonical 32 encoded (key_compress (verifying_key k)) }.

Lemma insert_trusted_key_inv entries keys material id encoded keys' material' :
  trust_invariant entries keys material ->
  insert_trusted_key (keys, material) (id, encoded) = Ok (keys', material') ->
  trust_invariant (entries ++ [(id, encoded)]) keys' material'.
Proof.
  intros [Hsz Hdom Hnd Hkey] Hp. unfold insert_trusted_key in Hp.
  apply bind_Ok in Hp as ([] & Hn%fail_if_Ok & Hp).
  apply bind_Ok in Hp as ([] & Hv%map_err_Ok%validate_key_id_Ok & Hp).
  apply bind_Ok in Hp as ([] & Hdup%fail_if_Ok & Hp).
  apply bind_Ok in Hp as (raw & Hraw%map_err_Ok%decode_canonical_base64_Ok & Hp).
  apply bind_Ok in Hp as (vk & Hvk%ok_or_Ok & Hp). apply bind_Ok in Hp as ([] & Hweak%fail_if_Ok & Hp).
  destruct (material !! raw) eqn:Em; [done|]. injection Hp as <- <-. to_prop. apply eq_None_not_Some in Hdup.
  assert (Hfresh : id ∉ entries.*1).
  { intros Hin. apply not_elem_of_dom in Hdup. rewrite Hdom in Hdup. set_solver. }
  split.
  - rewrite map_size_insert_None by done. lia.
  - rewrite dom_insert_L, Hdom, fmap_app, list_to_set_app_L. cbn. set_solver.
  - rewrite fmap_app. apply NoDup_app. split; [done|]. split; [|apply NoDup_singleton].
    intros x Hx ->%list_elem_of_singleton. done.
  - intros id' k Hk. destruct (decide (id = id')) as [<-|Hne].
    + rewrite lookup_insert_eq in Hk. injection Hk as <-. cbn. subst raw.
      split; [done|]. split; [done|]. split; [done|]. rewrite lookup_insert_eq. split; [done|].
      exists encoded. split; [set_solver | done].
    + rewrite lookup_insert_ne in Hk by done.
      destruct (Hkey _ _ Hk) as (? & ? & ? & Hm & enc & ? & ?).
      split; [done|]. split; [done|]. split; [done|]. split.
      * rewrite lookup_insert_ne; [done|]. intros E. rewrite E in Em. congruence.
      * exists enc. split; [set_solver | done].
Qed.

Lemma trust_fold_inv entries done keys material keys' material' :
  trust_invariant done keys material ->
  try_fold insert_trusted_key (keys, material) entries = Ok (keys', material') ->
  trust_invariant (done ++ entries) keys' material'.
Proof.
  revert done keys material. induction entries as [|[id enc] entries IH]; intros dn keys material Hinv; cbn [try_fold].
  - intros [= <- <-]. by rewrite app_nil_r.
  - rewrite bind_Ok. intros ([k1 m1] & H1 & Hrest). rewrite cons_middle, app_assoc.
    eapply IH; [|done]. by eapply insert_trusted_key_inv.
Qed.

Lemma from_base64_inv entries keys :
  from_base64 entries = Ok keys -> keys <> ∅ /\ exists material, trust_invariant entries keys material.
Proof.
  unfold from_base64. intros Hp. apply bind_Ok in Hp as ([keys' material] & Hf & Hp).
  apply bind_Ok in Hp as ([] & Hne%fail_if_Ok & [= <-]). to_prop. split.
  - intros ->. by rewrite map_size_empty in Hne.
  - exists material. apply (trust_fold_inv entries [] ∅ ∅); [|done]. split; cbn.
    + rewrite map_size_empty. unfold MAX_TRUSTED_KEYS. lia.
    + by rewrite dom_empty_L.
    + constructor.
    + intros id k. by rewrite lookup_empty.
Qed.

(** Different trusted IDs hold different public keys. *)
Lemma trusted_keys_injective entries keys id1 id2 k1 k2 :
  from_base64 entries = Ok keys -> keys !! id1 = Some k1 -> keys !! id2 = Some k2 ->
  key_compress (verifying_key k1) = key_compress (verifying_key k2) -> id1 = id2.
Proof.
  intros (_ & material & [_ _ _ Hkey])%from_base64_inv H1 H2 E.
  destruct (Hkey _ _ H1) as (_ & _ & _ & Hm1 & _). destruct (Hkey _ _ H2) as (_ & _ & _ & Hm2 & _).
  congruence.
Qed.

(** Note (trusted keys).  A key set built from configuration holds exactly the
    configured IDs, each once, between 1 and 32 of them; every key is the strict
    decoding of its entry's canonical base64, not weak, fingerprinted by the
    SHA-256 of its own bytes; and no two IDs share a public key, so a threshold
    counts keys and not names. *)
Theorem trusted_key_set_sound entries keys :
  from_base64 entries = Ok keys ->
  1 <= Z.of_nat (size keys) <= MAX_TRUSTED_KEYS /\
  dom keys = list_to_set entries.*1 /\ NoDup entries.*1 /\
  (forall id k, keys !! id = Some k ->
     valid_key_id id /\ key_is_weak (verifying_key k) = false /\
     fingerprint k = sha256_hex (key_compress (verifying_key k)) /\
     exists encoded, (id, encoded) ∈ entries /\ canonical 32 encoded (key_compress (verifying_key k))) /\
  (forall id1 id2 k1 k2, keys !! id1 = Some k1 -> keys !! id2 = Some k2 ->
     key_compress (verifying_key k1) = key_compress (verifying_key k2) -> id1 = id2).
Proof.
  intros Hb. destruct (from_base64_inv _ _ Hb) as (Hne & material & [Hsz Hdom Hnd Hkey]).
  split.
  - destruct (size keys) eqn:E; [|lia]. by apply map_size_empty_iff in E.
  - split; [done|]. split; [done|]. split; [|eauto using trusted_keys_injective].
    intros id k Hk. by destruct (Hkey id k Hk) as (? & ? & ? & _ & ?).
Qed.

(** ** Verification *)

(** A signature of the document by a trusted key over these bytes. *)
Definition signed_by (manifest_bytes : bytes) (trusted : TrustedKeySet) (doc : SignatureDocument)
    (s : VerifiedSigner) (k : TrustedPublicKey) : Prop :=
  trusted !! signer_key_id s = Some k /\ signer_fingerprint s = fingerprint k /\
  exists sig, {| key_id := signer_key_id s; signature := sig |} ∈ signatures doc /\
    verify_strict (verifying_key k) manifest_bytes sig = true.

(** A signature that counts towards the threshold. *)
Definition counts (mb : bytes) (trusted : TrustedKeySet) (d : DetachedSignature) : bool :=
  match trusted !! key_id d with
  | Some k => verify_strict (verifying_key k) mb (signature d)
  | None => false
  end.

Lemma verify_signatures_spec mb trusted sigs :
  signer_key_id <$> verify_signatures mb trusted sigs =
    key_id <$> filter (fun d => counts mb trusted d = true) sigs /\
  Forall (fun s => exists k sig, trusted !! signer_key_id s = Some k /\ signer_fingerprint s = fingerprint k /\
            {| key_id := signer_key_id s; signature := sig |} ∈ sigs /\
            verify_strict (verifying_key k) mb sig = true) (verify_signatures mb trusted sigs).
Proof.
  induction sigs as [|d sigs [IH1 IH2]]; cbn [verify_signatures]; [done|].
  assert (IH3 : Forall (fun s => exists k sig, trusted !! signer_key_id s = Some k /\ signer_fingerprint s = fingerprint k /\
            {| key_id := signer_key_id s; signature := sig |} ∈ d :: sigs /\
            verify_strict (verifying_key k) mb sig = true) (verify_signatures mb trusted sigs)).
  { eapply Forall_impl; [done|]. cbn. intros s (k & sig & ? & ? & ? & ?). exists k, sig.
    split_and!; try done. by apply list_elem_of_further. }
  destruct (trusted !! key_id d) as [k|] eqn:Ek.
  - destruct (verify_strict (verifying_key k) mb (signature d)) eqn:Ev.
    + rewrite filter_cons_True by (unfold counts; by rewrite Ek). rewrite !fmap_cons, IH1. split; [done|].
      constructor; [|done]. exists k, (signature d). cbn. split_and!; try done. destruct d. apply list_elem_of_here.
    + rewrite filter_cons_False by (unfold counts; rewrite Ek; congruence). done.
  - rewrite filter_cons_False by (unfold counts; by rewrite Ek). done.
Qed.

Lemma signers_have_keys mb trusted doc :
  exists ks, Forall2 (signed_by mb trusted doc) (verify_signatures mb trusted (signatures doc)) ks.
Proof.
  destruct (verify_signatures_spec mb trusted (signatures doc)) as [_ HF].
  induction HF as [|s l (k & sig & ? & ? & ? & ?) _ [ks IH]]; [by exists []|].
  exists (k :: ks). constructor; [|done]. split; [done|]. split; [done|]. by exists sig.
Qed.

(** Signers with distinct IDs hold distinct keys. *)
Lemma signer_keys_distinct entries trusted mb doc signers ks :
  from_base64 entries = Ok trusted -> NoDup (signer_key_id <$> signers) ->
  Forall2 (signed_by mb trusted doc) signers ks ->
  NoDup ((fun k => key_compress (verifying_key k)) <$> ks).
Proof.
  intros Hb Hnd HF. induction HF as [|s k signers ks (Hk & _) HF IH]; cbn in *; [constructor|].
  apply NoDup_cons in Hnd as [Hnew Hnd]. apply NoDup_cons. split; [|auto].
  intros (k' & E & Hk')%list_elem_of_fmap. apply Hnew.
  apply list_elem_of_lookup in Hk' as [i Hi].
  destruct (Forall2_lookup_r _ _ _ _ _ HF Hi) as (s' & Hs' & Hk2 & _).
  rewrite (trusted_keys_injective _ _ _ _ _ _ Hb Hk Hk2 E).
  apply list_elem_of_fmap. exists s'. split; [done|]. by eapply list_elem_of_lookup_2.
Qed.

(** Note (threshold verification).  A manifest is admitted only if at least
    [threshold] (never zero) signatures of the document verify these exact bytes
    under configured keys with pairwise different public keys, whatever the
    document repeats, renames or adds; the reported signers are those keys, the
    reported hash is of the same bytes, and the manifest is their parse. *)
Theorem verify_manifest_sound entries trusted mb sb threshold v protocol vm :
  from_base64 entries = Ok trusted ->
  verify_manifest mb sb trusted threshold v protocol = Ok vm ->
  threshold <> 0 /\ threshold <= zlen (verified_signers vm) /\
  (exists doc ks, parse_signature_document sb = Ok doc /\
     Forall2 (signed_by mb trusted doc) (verified_signers vm) ks /\
     NoDup ((fun k => key_compress (verifying_key k)) <$> ks)) /\
  manifest_sha256 vm = sha256_hex mb /\ parse_manifest mb v protocol = Ok (manifest vm).
Proof.
  intros Hb Hp. unfold verify_manifest in Hp. cbv zeta in Hp.
  apply bind_Ok in Hp as ([] & Ht%fail_if_Ok & Hp). apply bind_Ok in Hp as ([] & _ & Hp).
  apply bind_Ok in Hp as (doc & Hdoc%map_err_Ok & Hp). apply bind_Ok in Hp as ([] & Hn%fail_if_Ok & Hp).
  apply bind_Ok in Hp as (m & Hm%map_err_Ok & [= <-]). to_prop. cbn. split_and!; try done.
  destruct (signers_have_keys mb trusted doc) as [ks HF]. exists doc, ks. split_and!; [done|done|].
  eapply signer_keys_distinct; [done| |done].
  destruct (verify_signatures_spec mb trusted (signatures doc)) as [-> _].
  apply parse_signature_document_Ok in Hdoc as (raw & _ & _ & _ & _ & Hnd).
  eapply sublist_NoDup; [done|]. apply sublist_fmap, sublist_filter.
Qed.

(** Note (availability).  Untrusted, unknown or wrong signatures beside the good
    ones do no harm: a manifest that parses is admitted whenever the document parses
    and at least [threshold] of its signatures verify under trusted keys. *)
Theorem verify_manifest_complete mb sb trusted threshold v protocol doc m :
  1 <= threshold <= Z.of_nat (size trusted) ->
  parse_signature_document sb = Ok doc -> parse_manifest mb v protocol = Ok m ->
  threshold <= zlen (filter (fun d => counts mb trusted d = true) (signatures doc)) ->
  exists vm, verify_manifest mb sb trusted threshold v protocol = Ok vm /\ manifest vm = m.
Proof.
  intros Ht Hdoc Hm Hn.
  exists {| manifest := m; manifest_sha256 := sha256_hex mb;
            verified_signers := verify_signatures mb trusted (signatures doc) |}.
  split; [|done]. unfold verify_manifest. cbv zeta.
  apply bind_Ok. exists (). rewrite fail_if_Ok, orb_false_iff, Z.gtb_ltb, Z.ltb_ge, Z.eqb_neq. split; [lia|].
  apply bind_Ok. exists (). rewrite fail_if_Ok, Z.gtb_ltb, Z.ltb_ge. split.
  { by apply parse_manifest_Ok in Hm as [raw []]. }
  apply bind_Ok. exists doc. rewrite map_err_Ok. split; [done|].
  apply bind_Ok. exists (). rewrite fail_if_Ok, Z.ltb_ge. split.
  - destruct (verify_signatures_spec mb trusted (signatures doc)) as [Hids _].
    apply (f_equal length) in Hids. rewrite !length_fmap in Hids. unfold zlen in *. lia.
  - rewrite Hm. reflexivity.
Qed.

(** ** Hexadecimal digests *)

Lemma hex_bytes_lower (l : bytes) : lower_hex (2 * zlen l) (l ≫= hex_byte).
Proof.
  unfold lower_hex. induction l as [|b l [IH1 IH2]]; [done|]. rewrite bind_cons, zlen_app, zlen_cons, IH1.
  split; [change (zlen (hex_byte b)) with 2; lia|]. destruct (nibbles b).
  apply Forall_app. split; [|done]. unfold hex_byte. repeat constructor; by apply hex_digit_lower.
Qed.

(** Note (digests).  Where SHA-256 returns 32 bytes, [sha256_hex] renders it as the 64
    lowercase hexadecimal digits a manifest must contain, and loses nothing: two
    inputs have the same text exactly when they have the same digest. *)
Theorem sha256_hex_faithful data :
  zlen (sha256_digest data) = 32 ->
  lower_hex 64 (sha256_hex data) /\
  forall data', sha256_hex data' = sha256_hex data <-> sha256_digest data' = sha256_digest data.
Proof.
  intros Hlen. unfold sha256_hex. split.
  - pose proof (hex_bytes_lower (sha256_digest data)) as Hh. by rewrite Hlen in Hh.
  - intros data'. split; [apply hex_bytes_inj | by intros ->].
Qed.

End Core.

(** Note (targets).  A target's text form and its parser are inverse to each other, and
    the list of targets is complete and strictly ordered by that text. *)
Theorem agent_target_roundtrip :
  (forall t, from_str (as_str t) = Ok t) /\
  (forall s t, from_str s = Ok t -> as_str t = s) /\
  (forall t, t ∈ ALL) /\ NoDup (as_str <$> ALL) /\
  Forall (fun p => String.leb (String.string_of_list_byte (as_str p.1)) (String.string_of_list_byte (as_str p.2)) = true)
    (zip ALL (tail ALL)).
Proof.
  split; [intros t; by apply from_str_Ok|]. split; [intros s t ->%from_str_Ok; done|].
  split; [intros []; set_solver|]. split; [|vm_compute; by repeat constructor].
  apply NoDup_fmap_2; [intros ? ? ?; by apply as_str_inj|].
  repeat constructor; set_solver.
Qed.

(** ** A concrete instance, for the witnesses *)

Definition toy_raw_manifest : RawManifest := {|
  raw_schema_version := 1; raw_package := B"nrm-agent"; raw_version := B"0.2.0"; raw_protocol_version := 8;
  raw_source_commit := replicate 40 "a"%byte;
  raw_artifacts := [{| raw_target := B"x86_64-apple-darwin"; raw_filename := B"nrm-agent-0.2.0-x86_64-apple-darwin";
                       raw_sha256 := replicate 64 "0"%byte; raw_size := 1024 |}] |}.
Definition toy_key (b : byte) : bytes := replicate 32 b.
Definition toy_raw_signatures : RawSignatureDocument := {|
  raw_doc_schema_version := 1;
  raw_signatures := [ {| raw_key_id := B"release-1"; raw_signature := replicate 64 x01 |};
                      {| raw_key_id := B"other"; raw_signature := replicate 64 x07 |};
                      {| raw_key_id := B"release-2"; raw_signature := replicate 64 x02 |} ] |}.

(** Text is its own encoding, and a key signs by repeating its bytes. *)
Definition toy_deps : RegistryDeps := {|
  Version := bytes; VerifyingKey := bytes; JsonError := unit; SemverError := unit;
  version_parse := Ok; version_to_string := fun v => v;
  manifest_from_slice := fun _ => Ok toy_raw_manifest; signatures_from_slice := fun _ => Ok toy_raw_signatures;
  base64_decode := Some; base64_encode := fun s => s;
  key_from_bytes := Some; key_is_weak := fun k => bytes_eqb k (toy_key x00); key_compress := fun k => k;
  verify_strict := fun k _ s => bytes_eqb s (k ++ k);
  sha256_digest := fun data => take 32 (data ++ replicate 32 x00) |}.

Definition toy_entries : list (bytes * bytes) :=
  [(B"release-1", toy_key x01); (B"release-2", toy_key x02); (B"spare", toy_key x03)].
Definition toy_trusted : gmap bytes (TrustedPublicKey (H := toy_deps)) :=
  match from_base64 (H := toy_deps) toy_entries with Ok keys => keys | Err _ => ∅ end.

Lemma canonical_base64_unique_witness : toy_key x01 = toy_key x01.
Proof. apply (canonical_base64_unique (H := toy_deps) 32 _ _ (toy_key x01)); by vm_compute. Defined.

Lemma toy_trusted_built : from_base64 (H := toy_deps) toy_entries = Ok toy_trusted.
Proof. apply is_ok_get. by vm_compute. Qed.

Lemma toy_trusted_size : Z.of_nat (size toy_trusted) = 3.
Proof. by vm_compute. Qed.

Lemma trusted_key_set_sound_witness :
  1 <= Z.of_nat (size toy_trusted) <= MAX_TRUSTED_KEYS.
Proof. exact (proj1 (trusted_key_set_sound (H := toy_deps) toy_entries toy_trusted toy_trusted_built)). Defined.

Lemma verify_manifest_sound_witness :
  exists vm, verify_manifest (H := toy_deps) (B"{}") (B"{}") toy_trusted 2 (B"0.2.0") 8 = Ok vm /\
    2 <= zlen (verified_signers vm).
Proof.
  assert (Hvm : is_ok (verify_manifest (H := toy_deps) (B"{}") (B"{}") toy_trusted 2 (B"0.2.0") 8) = true)
    by (by vm_compute).
  apply is_ok_true in Hvm as [vm Hvm]. exists vm. split; [exact Hvm|].
  exact (proj1 (proj2 (verify_manifest_sound (H := toy_deps) toy_entries _ _ _ _ _ _ _ toy_trusted_built Hvm))).
Defined.

Lemma verify_manifest_complete_witness :
  exists vm, verify_manifest (H := toy_deps) (B"{}") (B"{}") toy_trusted 2 (B"0.2.0") 8 = Ok vm /\
    protocol_version (manifest vm) = 8.
Proof.
  assert (Hdoc : exists doc, parse_signature_document (H := toy_deps) (B"{}") = Ok doc /\
    2 <= zlen (filter (fun d => counts (H := toy_deps) (B"{}") toy_trusted d = true) (signatures doc)))
    by (eexists; split; [by vm_compute | by vm_compute]).
  assert (Hm : exists m, parse_manifest (H := toy_deps) (B"{}") (B"0.2.0") 8 = Ok m /\ protocol_version m = 8)
    by (eexists; split; [by vm_compute | by vm_compute]).
  destruct Hdoc as (doc & Hdoc & Hn), Hm as (m & Hm & Hp).
  assert (Ht : 1 <= 2 <= Z.of_nat (size toy_trusted)) by (rewrite toy_trusted_size; lia).
  destruct (verify_manifest_complete (H := toy_deps) _ _ _ _ _ _ _ _ Ht Hdoc Hm Hn) as (vm & Hvm & Hmm).
  exists vm. split; [exact Hvm|]. by rewrite Hmm.
Defined.

Lemma sha256_hex_faithful_witness : lower_hex 64 (sha256_hex (H := toy_deps) (B"agent")).
Proof. refine (proj1 (sha256_hex_faithful (H := toy_deps) _ _)). by vm_compute. Defined.
