(* ===== verification/UrlPolicy.v ===== *)
(** * The registry's URL policy (crates/nrm-registry/src/url_policy.rs)

    Which registry, signature and artifact URLs are used, which hosts count as
    globally routable, and which artifact names are accepted. *)
From S2P Require Import Prelude Paths Registry.

(** ** Substrings ([str::split_once], [str::matches], [str::replace]) *)

(** The text before and after the first occurrence of [pat]. *)
Fixpoint split_once (pat s : bytes) : option (bytes * bytes) :=
  match strip_prefix pat s with
  | Some rest => Some ([], rest)
  | None => match s with
            | [] => None
            | b :: s => match split_once pat s with
                        | Some (l, r) => Some (b :: l, r)
                        | None => None
                        end
            end
  end.

(** The pieces between the non-overlapping occurrences of [pat], left to right;
    each occurrence uses up at least one byte of a non-empty [pat], so the length of
    the text is enough fuel. *)
Fixpoint split_str (fuel : nat) (pat s : bytes) : list bytes :=
  match fuel, split_once pat s with
  | S fuel, Some (l, r) => l :: split_str fuel pat r
  | _, _ => [s]
  end.
Fixpoint join_str (sep : bytes) (segs : list bytes) : bytes :=
  match segs with
  | [] => []
  | [seg] => seg
  | seg :: segs => seg ++ sep ++ join_str sep segs
  end.
Definition matches_count (pat s : bytes) : Z := zlen (split_str (length s) pat s) - 1.
Definition replace (pat to s : bytes) : bytes := join_str to (split_str (length s) pat s).
(** [replacen(pat, to, 1)] *)
Definition replace_first (pat to s : bytes) : bytes :=
  match split_once pat s with Some (l, r) => l ++ to ++ r | None => s end.

(** ** Addresses *)

Inductive Host :=
| HostDomain (domain : bytes)
| HostIpv4 (a b c d : Z)
| HostIpv6 (s0 s1 s2 s3 s4 s5 s6 s7 : Z).

Definition between (lo hi x : Z) : bool := (lo <=? x) && (x <=? hi).

Definition ipv4_is_globally_routable (a b c : Z) : bool :=
  negb ((a =? 0) || (a =? 10) || ((a =? 100) && between 64 127 b) || (a =? 127) ||
        ((a =? 169) && (b =? 254)) || ((a =? 172) && between 16 31 b) ||
        ((a =? 192) && (b =? 0) && (c =? 0)) || ((a =? 192) && (b =? 0) && (c =? 2)) ||
        ((a =? 192) && (b =? 88) && (c =? 99)) || ((a =? 192) && (b =? 168)) ||
        ((a =? 198) && between 18 19 b) || ((a =? 198) && (b =? 51) && (c =? 100)) ||
        ((a =? 203) && (b =? 0) && (c =? 113)) || between 224 255 a).

Definition ipv6_is_globally_routable (s0 s1 s2 s3 s4 s5 : Z) : bool :=
  let zero x := x =? 0 in
  let embeds_ipv4 :=
    (zero s0 && zero s1 && zero s2 && zero s3 && zero s4 && zero s5) ||
    ((zero s0 && zero s1 && zero s2 && zero s3 && zero s4) && (s5 =? 0xffff)) in
  let global_unicast := Z.land s0 0xe000 =? 0x2000 in
  let special_purpose :=
    ((s0 =? 0x2001) && ((s1 =? 0x0000) || (s1 =? 0x0002) || between 0x0010 0x002f s1 || (s1 =? 0x0db8))) ||
    (s0 =? 0x2002) || ((s0 =? 0x3fff) && (s1 <=? 0x0fff)) in
  global_unicast && negb special_purpose && negb embeds_ipv4.

Definition host_is_globally_routable (host : Host) : bool :=
  match host with
  | HostIpv4 a b c _ => ipv4_is_globally_routable a b c
  | HostIpv6 s0 s1 s2 s3 s4 s5 _ _ => ipv6_is_globally_routable s0 s1 s2 s3 s4 s5
  | HostDomain domain =>
      let domain := ascii_lower <$> trim_end (byte_eqb ".") domain in
      negb (bytes_eqb domain (B"localhost")) && negb (ends_with (B".localhost") domain)
  end.

(** ** URLs *)

(** The [url] crate: parsed URLs and their accessors; [with_last_segment] is
    [path_segments_mut] with [pop] and [push]. *)
Class UrlLib := {
  Url : Type;
  UrlParseError : Type;
  url_parse : bytes -> result UrlParseError Url;
  url_as_str : Url -> bytes;
  url_scheme : Url -> bytes;
  url_username : Url -> bytes;
  url_password : Url -> option bytes;
  url_host : Url -> option Host;
  url_query : Url -> option bytes;
  url_fragment : Url -> option bytes;
  url_path_segments : Url -> option (list bytes);
  url_with_last_segment : Url -> bytes -> option Url;
  (** [url.to_file_path().ok()] is an absolute path *)
  url_file_path_is_absolute : Url -> bool }.

Section Policy.
Context `{UrlLib}.

Inductive UrlPolicyError :=
| VersionPlaceholderCount
| UnexpectedPlaceholder
| InvalidUrl (e : UrlParseError)
| UnsupportedScheme (scheme : bytes)
| Credentials
| QueryOrFragment
| MissingHost
| LocalOrPrivateHost
| FileUrlNotLocalAbsolute
| MissingManifestFilename
| InvalidArtifactFilename (filename : bytes).

Definition raw_authority_contains_at (value : bytes) : bool :=
  match split_once (B"://") value with
  | None => false
  | Some (_, after_scheme) =>
      match split_by (fun b => byte_eqb b "/" || byte_eqb b "?" || byte_eqb b "#") after_scheme with
      | authority :: _ => contains_byte "@" authority
      | [] => false
      end
  end.
Definition authority_contains_at (url : Url) : bool := raw_authority_contains_at (url_as_str url).

Definition validate_common (url : Url) : result UrlPolicyError unit :=
  _ ← fail_if (negb (bytes_eqb (url_username url) []) || bool_decide (is_Some (url_password url)) ||
               authority_contains_at url) Credentials;
  fail_if (bool_decide (is_Some (url_query url)) || bool_decide (is_Some (url_fragment url))) QueryOrFragment.

Definition validate_https_url (url : Url) : result UrlPolicyError unit :=
  _ ← fail_if (negb (bytes_eqb (url_scheme url) (B"https"))) (UnsupportedScheme (url_scheme url));
  _ ← validate_common url;
  host ← ok_or (url_host url) MissingHost;
  fail_if (negb (host_is_globally_routable host)) LocalOrPrivateHost.

Definition manifest_filename (url : Url) : result UrlPolicyError bytes :=
  ok_or (segments ← url_path_segments url;
         segment ← last segments;
         if negb (bytes_eqb segment []) && negb (bytes_eqb segment (B".")) && negb (bytes_eqb segment (B".."))
         then Some segment else None)
    MissingManifestFilename.

Definition validate_manifest_url (url : Url) : result UrlPolicyError unit :=
  _ ← (if bytes_eqb (url_scheme url) (B"https") then validate_https_url url
       else if bytes_eqb (url_scheme url) (B"file") then
         _ ← validate_common url;
         fail_if (bool_decide (is_Some (url_host url)) || negb (url_file_path_is_absolute url))
           FileUrlNotLocalAbsolute
       else Err (UnsupportedScheme (url_scheme url)));
  _ ← manifest_filename url;
  Ok ().

Definition VERSION_PLACEHOLDER : bytes := B"{version}".

(** [RegistryUrlTemplate::parse]; the template is the text itself. *)
Definition template_parse (template : bytes) : result UrlPolicyError bytes :=
  _ ← fail_if (negb (matches_count VERSION_PLACEHOLDER template =? 1)) VersionPlaceholderCount;
  let without_placeholder := replace_first VERSION_PLACEHOLDER [] template in
  _ ← fail_if (existsb (fun b => byte_eqb b "{" || byte_eqb b "}") without_placeholder) UnexpectedPlaceholder;
  let probe := replace VERSION_PLACEHOLDER (B"0.0.0") template in
  _ ← fail_if (raw_authority_contains_at probe) Credentials;
  parsed ← map_err InvalidUrl (url_parse probe);
  _ ← fail_if (bytes_eqb (url_scheme parsed) (B"file") && negb (starts_with (B"file://") probe))
        FileUrlNotLocalAbsolute;
  _ ← validate_manifest_url parsed;
  Ok template.

Definition expand (template version_text : bytes) : result UrlPolicyError Url :=
  let expanded := replace VERSION_PLACEHOLDER version_text template in
  url ← map_err InvalidUrl (url_parse expanded);
  _ ← validate_manifest_url url;
  Ok url.

Definition signature_url (manifest_url : Url) : result UrlPolicyError Url :=
  _ ← validate_manifest_url manifest_url;
  signature ← map_err InvalidUrl (url_parse (url_as_str manifest_url ++ B".sig"));
  _ ← validate_manifest_url signature;
  Ok signature.

Definition is_forbidden_filename_byte (b : byte) : bool :=
  is_ascii_control b || byte_eqb b "/" || byte_eqb b "\" || byte_eqb b ":" || byte_eqb b "%" || byte_eqb b x00.

Definition validate_artifact_filename (filename : bytes) : result UrlPolicyError unit :=
  fail_if (bytes_eqb filename [] || bytes_eqb filename (B".") || bytes_eqb filename (B"..") ||
           (zlen filename >? 255) || existsb is_forbidden_filename_byte filename ||
           negb (zlen (components filename) =? 1))
    (InvalidArtifactFilename filename).

Definition sibling_url (url : Url) (filename : bytes) : result UrlPolicyError Url :=
  sibling ← ok_or (url_with_last_segment url filename) MissingManifestFilename;
  _ ← validate_manifest_url sibling;
  Ok sibling.

Definition artifact_url (manifest_url : Url) (filename : bytes) : result UrlPolicyError Url :=
  _ ← validate_manifest_url manifest_url;
  _ ← validate_artifact_filename filename;
  sibling_url manifest_url filename.

End Policy.

(** ** Address blocks *)

(** The address is in [base/len], of addresses of [width] bits. *)
Definition in_block (width addr : Z) (block : Z * Z) : bool :=
  Z.shiftr addr (width - snd block) =? Z.shiftr (fst block) (width - snd block).

Definition ipv4 (a b c d : Z) : Z := ((a * 256 + b) * 256 + c) * 256 + d.

(** The IPv4 blocks that are not globally routable, in prefix notation. *)
Definition ipv4_special_blocks : list (Z * Z) := [
  (ipv4 0 0 0 0, 8); (ipv4 10 0 0 0, 8); (ipv4 100 64 0 0, 10); (ipv4 127 0 0 0, 8);
  (ipv4 169 254 0 0, 16); (ipv4 172 16 0 0, 12); (ipv4 192 0 0 0, 24); (ipv4 192 0 2 0, 24);
  (ipv4 192 88 99 0, 24); (ipv4 192 168 0 0, 16); (ipv4 198 18 0 0, 15); (ipv4 198 51 100 0, 24);
  (ipv4 203 0 113 0, 24); (ipv4 224 0 0 0, 3) ].

Definition ipv6 (s0 s1 s2 s3 s4 s5 s6 s7 : Z) : Z :=
  (((((((s0 * 65536 + s1) * 65536 + s2) * 65536 + s3) * 65536 + s4) * 65536 + s5) * 65536 + s6) * 65536) + s7.

(** 2000::/3 is global unicast; these parts of it are not globally routable. *)
Definition ipv6_special_blocks : list (Z * Z) := [
  (ipv6 0x2001 0 0 0 0 0 0 0, 32); (ipv6 0x2001 2 0 0 0 0 0 0, 32); (ipv6 0x2001 0x10 0 0 0 0 0 0, 28);
  (ipv6 0x2001 0x20 0 0 0 0 0 0, 28); (ipv6 0x2001 0xdb8 0 0 0 0 0 0, 32); (ipv6 0x2002 0 0 0 0 0 0 0, 16);
  (ipv6 0x3fff 0 0 0 0 0 0 0, 20) ].

Definition octet (x : Z) : Prop := 0 <= x < 256.
Definition hextet (x : Z) : Prop := 0 <= x < 65536.

Lemma in_block_spec width addr base len :
  0 <= len <= width -> in_block width addr (base, len) = (addr / 2 ^ (width - len) =? base / 2 ^ (width - len)).
Proof. intros. unfold in_block. cbn. by rewrite !Z.shiftr_div_pow2 by lia. Qed.

Lemma in_block_range width addr base len :
  0 <= len <= width -> base mod 2 ^ (width - len) = 0 ->
  in_block width addr (base, len) = (base <=? addr) && (addr <? base + 2 ^ (width - len)).
Proof.
  intros Hlen Hbase. rewrite in_block_spec by done.
  assert (Hp : 0 < 2 ^ (width - len)) by (apply Z.pow_pos_nonneg; lia).
  set (k := 2 ^ (width - len)) in *. apply eq_iff_eq_true.
  rewrite Z.eqb_eq, andb_true_iff, Z.leb_le, Z.ltb_lt.
  pose proof (Z.div_mod addr k ltac:(lia)). pose proof (Z.div_mod base k ltac:(lia)).
  pose proof (Z.mod_pos_bound addr k Hp). split; [nia|]. intros ?.
  assert (E : (addr - base) / k = 0) by (apply Z.div_small; lia).
  replace addr with (addr - base + base / k * k) by lia. rewrite Z.div_add by lia. lia.
Qed.

(** One block against the octets or hextets of an address. *)
Ltac solve_block :=
  rewrite in_block_range by (lia || reflexivity);
  repeat match goal with
    | |- context [2 ^ ?e] => let v := eval vm_compute in (2 ^ e) in change (2 ^ e) with v
    end;
  unfold octet, hextet, ipv4, ipv6, between in *; lia.

(** Note (IPv4).  An address literal is accepted as globally routable exactly when it
    lies in none of the fourteen special-purpose blocks. *)
Theorem ipv4_routable_exact a b c d :
  octet a -> octet b -> octet c -> octet d ->
  ipv4_is_globally_routable a b c = negb (existsb (in_block 32 (ipv4 a b c d)) ipv4_special_blocks).
Proof.
  intros Ha Hb Hc Hd. unfold ipv4_is_globally_routable, ipv4_special_blocks. f_equal. cbn [existsb].
  assert (H1 : in_block 32 (ipv4 a b c d) (ipv4 0 0 0 0, 8) = (a =? 0)) by solve_block.
  assert (H2 : in_block 32 (ipv4 a b c d) (ipv4 10 0 0 0, 8) = (a =? 10)) by solve_block.
  assert (H3 : in_block 32 (ipv4 a b c d) (ipv4 100 64 0 0, 10) = (a =? 100) && between 64 127 b) by solve_block.
  assert (H4 : in_block 32 (ipv4 a b c d) (ipv4 127 0 0 0, 8) = (a =? 127)) by solve_block.
  assert (H5 : in_block 32 (ipv4 a b c d) (ipv4 169 254 0 0, 16) = (a =? 169) && (b =? 254)) by solve_block.
  assert (H6 : in_block 32 (ipv4 a b c d) (ipv4 172 16 0 0, 12) = (a =? 172) && between 16 31 b) by solve_block.
  assert (H7 : forall x y z, In (x, y, z) [(192, 0, 0); (192, 0, 2); (192, 88, 99); (198, 51, 100); (203, 0, 113)] ->
    in_block 32 (ipv4 a b c d) (ipv4 x y z 0, 24) = (a =? x) && (b =? y) && (c =? z)).
  { intros x y z Hin. cbn in Hin. repeat (destruct Hin as [[= <- <- <-]|Hin]; [solve_block|]). done. }
  assert (H8 : in_block 32 (ipv4 a b c d) (ipv4 192 168 0 0, 16) = (a =? 192) && (b =? 168)) by solve_block.
  assert (H9 : in_block 32 (ipv4 a b c d) (ipv4 198 18 0 0, 15) = (a =? 198) && between 18 19 b) by solve_block.
  assert (H10 : in_block 32 (ipv4 a b c d) (ipv4 224 0 0 0, 3) = between 224 255 a) by solve_block.
  rewrite H1, H2, H3, H4, H5, H6, H8, H9, H10, !H7, orb_false_r, !orb_assoc by (cbn; tauto). done.
Qed.

Lemma global_unicast_range s : hextet s -> (Z.land s 0xe000 =? 0x2000) = between 0x2000 0x3fff s.
Proof.
  intros Hs. assert (E : Z.land s 0xe000 = s / 8192 * 8192).
  { change 0xe000 with (Z.shiftl (Z.ones 3) 13). change 8192 with (2 ^ 13). rewrite <- (Z.shiftr_div_pow2 s 13), <- (Z.shiftl_mul_pow2 _ 13) by lia.
    apply Z.bits_inj'. intros i Hi. rewrite Z.land_spec.
    destruct (Z.ltb_spec i 13).
    - by rewrite !Z.shiftl_spec_low, andb_false_r by lia.
    - rewrite !Z.shiftl_spec, Z.shiftr_spec by lia. replace (i - 13 + 13) with i by lia.
      destruct (Z.ltb_spec i 16).
      + rewrite Z.ones_spec_low by lia. apply andb_true_r.
      + rewrite (Z.bits_above_log2 s i); [done|unfold hextet in *; lia|].
        destruct (Z.eq_dec s 0) as [->|]; [cbn; lia|]. unfold hextet in *.
        apply Z.lt_le_trans with 16; [apply Z.log2_lt_pow2; lia | lia]. }
  rewrite E. unfold between, hextet in *. pose proof (Z.div_mod s 8192 ltac:(lia)).
  pose proof (Z.mod_pos_bound s 8192 ltac:(lia)). lia.
Qed.

(** Note (IPv6).  An address literal is accepted exactly when it is in 2000::/3 and in
    none of the seven special-purpose blocks inside it; the test for embedded IPv4
    addresses excludes nothing more. *)
Theorem ipv6_routable_exact s0 s1 s2 s3 s4 s5 s6 s7 :
  hextet s0 -> hextet s1 -> hextet s2 -> hextet s3 -> hextet s4 -> hextet s5 -> hextet s6 -> hextet s7 ->
  ipv6_is_globally_routable s0 s1 s2 s3 s4 s5 =
    in_block 128 (ipv6 s0 s1 s2 s3 s4 s5 s6 s7) (ipv6 0x2000 0 0 0 0 0 0 0, 3) &&
    negb (existsb (in_block 128 (ipv6 s0 s1 s2 s3 s4 s5 s6 s7)) ipv6_special_blocks).
Proof.
  intros H0 H1 H2 H3 H4 H5 H6 H7. set (addr := ipv6 s0 s1 s2 s3 s4 s5 s6 s7).
  assert (Hg : in_block 128 addr (ipv6 0x2000 0 0 0 0 0 0 0, 3) = between 0x2000 0x3fff s0) by (subst addr; solve_block).
  assert (Hw : forall x, In x [0; 2; 0xdb8] ->
    in_block 128 addr (ipv6 0x2001 x 0 0 0 0 0 0, 32) = (s0 =? 0x2001) && (s1 =? x)).
  { intros x Hin. cbn in Hin. subst addr. repeat (destruct Hin as [<-|Hin]; [solve_block|]). done. }
  assert (Ho : in_block 128 addr (ipv6 0x2001 0x10 0 0 0 0 0 0, 28) = (s0 =? 0x2001) && between 0x10 0x1f s1) by (subst addr; solve_block).
  assert (Ho2 : in_block 128 addr (ipv6 0x2001 0x20 0 0 0 0 0 0, 28) = (s0 =? 0x2001) && between 0x20 0x2f s1) by (subst addr; solve_block).
  assert (H6to4 : in_block 128 addr (ipv6 0x2002 0 0 0 0 0 0 0, 16) = (s0 =? 0x2002)) by (subst addr; solve_block).
  assert (Hdoc : in_block 128 addr (ipv6 0x3fff 0 0 0 0 0 0 0, 20) = (s0 =? 0x3fff) && (s1 <=? 0xfff)) by (subst addr; solve_block).
  unfold ipv6_special_blocks. cbn [existsb].
  rewrite Hg, !Hw, Ho, Ho2, H6to4, Hdoc by (cbn; tauto).
  unfold ipv6_is_globally_routable. cbv zeta. rewrite global_unicast_range by done.
  apply eq_iff_eq_true. unfold between, hextet in *. lia.
Qed.

Lemma ipv4_routable_exact_witness :
  ipv4_is_globally_routable 172 31 255 = negb (existsb (in_block 32 (ipv4 172 31 255 1)) ipv4_special_blocks).
Proof. apply ipv4_routable_exact; unfold octet; lia. Defined.

Lemma ipv6_routable_exact_witness :
  ipv6_is_globally_routable 0x2606 0x4700 0 0 0 0 =
    in_block 128 (ipv6 0x2606 0x4700 0 0 0 0 0 0x1111) (ipv6 0x2000 0 0 0 0 0 0 0, 3) &&
    negb (existsb (in_block 128 (ipv6 0x2606 0x4700 0 0 0 0 0 0x1111)) ipv6_special_blocks).
Proof. apply ipv6_routable_exact; unfold hextet; lia. Defined.

(** ** Substrings *)

Lemma split_once_Some pat s l r : split_once pat s = Some (l, r) -> s = l ++ pat ++ r.
Proof.
  revert l r. induction s as [|b s IH]; intros l r; cbn [split_once];
    destruct (strip_prefix pat _) as [rest|] eqn:E; try apply strip_prefix_Some in E.
  - by intros [= <- <-].
  - done.
  - by intros [= <- <-].
  - destruct (split_once pat s) as [[l' r']|]; [|done]. intros [= <- <-]. cbn. f_equal. by apply IH.
Qed.

(** A byte of the pattern occurs in any text the pattern occurs in. *)
Lemma split_once_None_byte pat c s : c ∈ pat -> c ∉ s -> split_once pat s = None.
Proof.
  intros Hc. induction s as [|b s IH]; intros Hs; cbn [split_once];
    destruct (strip_prefix pat _) as [rest|] eqn:E; try apply strip_prefix_Some in E.
  - exfalso. apply Hs. rewrite E. apply elem_of_app. by left.
  - done.
  - exfalso. apply Hs. rewrite E. apply elem_of_app. by left.
  - rewrite IH; [done|]. intros ?. apply Hs. by apply list_elem_of_further.
Qed.

(** The first occurrence, when the pattern's first byte is not in the text before. *)
Lemma split_once_first c pat l r : c ∉ l -> split_once (c :: pat) (l ++ c :: pat ++ r) = Some (l, r).
Proof.
  induction l as [|b l IH]; intros Hl.
  - cbn [app split_once]. destruct (strip_prefix _ _) as [x|] eqn:E.
    + apply strip_prefix_Some in E. cbn in E. injection E as E. apply app_inv_head in E as ->. done.
    + exfalso. assert (strip_prefix (c :: pat) (c :: pat ++ r) = Some r) by (by apply strip_prefix_Some). congruence.
  - cbn [app split_once]. destruct (strip_prefix _ _) as [x|] eqn:E.
    + exfalso. apply strip_prefix_Some in E. cbn in E. injection E as E1 _. apply Hl. rewrite E1. apply list_elem_of_here.
    + rewrite IH; [done|]. intros ?. apply Hl. by apply list_elem_of_further.
Qed.

Lemma split_str_none fuel pat s : split_once pat s = None -> split_str fuel pat s = [s].
Proof. intros E. destruct fuel; cbn [split_str]; by rewrite ?E. Qed.

Lemma split_str_once c pat l r fuel :
  c ∉ l -> c ∉ r -> (1 <= fuel)%nat -> split_str fuel (c :: pat) (l ++ c :: pat ++ r) = [l; r].
Proof.
  intros Hl Hr Hf. destruct fuel; [lia|]. cbn [split_str]. rewrite split_once_first by done.
  by rewrite split_str_none by (apply (split_once_None_byte _ c); [apply list_elem_of_here | done]).
Qed.

Lemma replace_once c pat to l r :
  c ∉ l -> c ∉ r -> replace (c :: pat) to (l ++ c :: pat ++ r) = l ++ to ++ r.
Proof.
  intros Hl Hr. unfold replace. rewrite split_str_once; [done|done|done|].
  rewrite !length_app. cbn. lia.
Qed.

(** ** Artifact names *)

Definition safe_filename (s : bytes) : Prop :=
  s <> [] /\ s <> B"." /\ s <> B".." /\ zlen s <= 255 /\ Forall (fun b => is_forbidden_filename_byte b = false) s.

Lemma forbidden_slash : is_forbidden_filename_byte "/" = true.
Proof. done. Qed.

Lemma components_single s : s <> [] -> s <> B"." -> "/"%byte ∉ s -> zlen (components s) = 1.
Proof.
  intros Hne Hdot Hs. unfold components, path_segments, split_on.
  assert (Hclean : split_by (byte_eqb "/") s = [s]).
  { apply split_by_clean, Forall_forall. intros b Hb. apply byte_eqb_false. intros <-. done. }
  rewrite Hclean. cbn [head List.filter]. unfold skipped_segment.
  rewrite (proj2 (bytes_eqb_false s []) Hne), (proj2 (bytes_eqb_false s (B".")) Hdot). cbn [negb orb].
  rewrite bool_decide_eq_false_2 by congruence. unfold is_absolute.
  destruct (starts_with (B"/") s) eqn:E; [|done].
  apply starts_with_spec in E as [t ->]. exfalso. apply Hs. apply list_elem_of_here.
Qed.

Section PolicyLemmas.
Context `{UrlLib}.

Lemma validate_artifact_filename_Ok s u : validate_artifact_filename s = Ok u <-> safe_filename s.
Proof.
  unfold validate_artifact_filename, safe_filename.
  rewrite fail_if_Ok, !orb_false_iff, !bytes_eqb_false, Z.gtb_ltb, Z.ltb_ge, existsb_false, negb_false_iff, Z.eqb_eq.
  split; [tauto|]. intros (Hne & Hd & Hdd & Hl & Hf). split_and!; try done.
  apply components_single; [done..|]. intros Hin. rewrite Forall_forall in Hf.
  specialize (Hf _ Hin). by rewrite forbidden_slash in Hf.
Qed.

(** Note (artifact names).  The accepted names are exactly the non-empty ones of at most
    255 bytes, other than [.] and [..], without control bytes and without [/ \ : %];
    the final path-component test never decides. *)
Theorem validate_artifact_filename_exact s :
  validate_artifact_filename s = Ok () <-> safe_filename s.
Proof. apply validate_artifact_filename_Ok. Qed.

(** ** Admitted URLs *)

Record manifest_url_admitted (url : Url) : Prop := {
  url_no_credentials : url_username url = [] /\ url_password url = None /\ raw_authority_contains_at (url_as_str url) = false;
  url_no_query : url_query url = None /\ url_fragment url = None;
  url_place :
    (url_scheme url = B"https" /\ exists host, url_host url = Some host /\ host_is_globally_routable host = true) \/
    (url_scheme url = B"file" /\ url_host url = None /\ url_file_path_is_absolute url = true);
  url_names_file : exists segments name, url_path_segments url = Some segments /\ last segments = Some name /\
    name <> [] /\ name <> B"." /\ name <> B".." }.

Lemma validate_common_Ok url u :
  validate_common url = Ok u <->
  (url_username url = [] /\ url_password url = None /\ raw_authority_contains_at (url_as_str url) = false) /\
  (url_query url = None /\ url_fragment url = None).
Proof.
  unfold validate_common, authority_contains_at. destruct u. split.
  - intros Hp. apply bind_Ok in Hp as ([] & H1%fail_if_Ok & H2%fail_if_Ok). to_prop.
    split_and!; try done; by apply eq_None_not_Some.
  - intros ((Hu & Hp & Ha) & Hq & Hf). apply bind_Ok. exists (). rewrite !fail_if_Ok, Hu, Hp, Ha, Hq, Hf. done.
Qed.

Lemma manifest_filename_Ok url name :
  manifest_filename url = Ok name <->
  exists segments, url_path_segments url = Some segments /\ last segments = Some name /\
    name <> [] /\ name <> B"." /\ name <> B"..".
Proof.
  unfold manifest_filename. rewrite ok_or_Ok, bind_Some. setoid_rewrite bind_Some.
  split.
  - intros (segs & Hs & n & Hn & Hk). destruct (negb _ && _ && _) eqn:E in Hk; [|done].
    injection Hk as ->. to_prop. eauto 10.
  - intros (segs & Hs & Hn & H1 & H2 & H3). exists segs. split; [done|]. exists name. split; [done|].
    by rewrite (proj2 (bytes_eqb_false _ _) H1), (proj2 (bytes_eqb_false _ _) H2), (proj2 (bytes_eqb_false _ _) H3).
Qed.

Lemma validate_https_url_Ok url u :
  validate_https_url url = Ok u <->
  url_scheme url = B"https" /\ validate_common url = Ok () /\
  exists host, url_host url = Some host /\ host_is_globally_routable host = true.
Proof.
  unfold validate_https_url. destruct u. split.
  - intros Hp. apply bind_Ok in Hp as ([] & Hs%fail_if_Ok & Hp). apply bind_Ok in Hp as ([] & Hc & Hp).
    apply bind_Ok in Hp as (host & Hh%ok_or_Ok & Hr%fail_if_Ok). to_prop. eauto.
  - intros (Hs & Hc & host & Hh & Hr). apply bind_Ok. exists ().
    rewrite fail_if_Ok, negb_false_iff, bytes_eqb_true. split; [done|].
    apply bind_Ok. exists (). split; [done|]. apply bind_Ok. exists host.
    by rewrite ok_or_Ok, fail_if_Ok, negb_false_iff.
Qed.

Lemma validate_manifest_url_Ok url u : validate_manifest_url url = Ok u <-> manifest_url_admitted url.
Proof.
  unfold validate_manifest_url. destruct u. rewrite bind_Ok. split.
  - intros ([] & Hp & Hn). apply bind_Ok in Hn as (name & (segs & Hn)%manifest_filename_Ok & _).
    destruct (bytes_eqb (url_scheme url) (B"https")) eqn:E1; [|destruct (bytes_eqb (url_scheme url) (B"file")) eqn:E2; [|done]].
    + apply validate_https_url_Ok in Hp as (Hs & (Hcred & Hq)%validate_common_Ok & Hh). split; eauto.
    + apply bind_Ok in Hp as ([] & (Hcred & Hq)%validate_common_Ok & Hf%fail_if_Ok). to_prop.
      split; eauto. right. split; [done|]. split; [by apply eq_None_not_Some | done].
  - intros [Hcred Hq Hplace (segs & name & Hseg)]. exists (). split; [|apply bind_Ok; exists name; split; [|done]; apply manifest_filename_Ok; eauto].
    destruct Hplace as [[Hs Hh]|(Hs & Hh & Hf)]; rewrite Hs; cbn.
    + apply validate_https_url_Ok. split; [done|]. split; [by apply validate_common_Ok | done].
    + apply bind_Ok. exists (). split; [by apply validate_common_Ok|].
      apply fail_if_Ok. rewrite Hh, Hf. done.
Qed.

Lemma signature_url_admitted base url :
  signature_url base = Ok url -> manifest_url_admitted base /\ manifest_url_admitted url.
Proof.
  intros Hp. unfold signature_url in Hp.
  apply bind_Ok in Hp as ([] & ?%validate_manifest_url_Ok & Hp). apply bind_Ok in Hp as (u & _ & Hp).
  by apply bind_Ok in Hp as ([] & ?%validate_manifest_url_Ok & [= <-]).
Qed.
Lemma artifact_url_admitted base name url :
  artifact_url base name = Ok url ->
  manifest_url_admitted base /\ safe_filename name /\ manifest_url_admitted url.
Proof.
  intros Hp. unfold artifact_url, sibling_url in Hp.
  apply bind_Ok in Hp as ([] & ?%validate_manifest_url_Ok & Hp).
  apply bind_Ok in Hp as ([] & ?%validate_artifact_filename_Ok & Hp).
  apply bind_Ok in Hp as (u & _ & Hp). by apply bind_Ok in Hp as ([] & ?%validate_manifest_url_Ok & [= <-]).
Qed.

(** Note (URLs).  Validation accepts exactly the URLs without credentials, query or
    fragment that name a file either on an https host that is not local or private or
    in an absolute local path; and every URL the registry client derives, for the
    manifest, its signature or an artifact, passed that validation. *)
Theorem registry_urls_admitted :
  (forall url, validate_manifest_url url = Ok () <-> manifest_url_admitted url) /\
  (forall template v url, expand template v = Ok url -> manifest_url_admitted url) /\
  (forall base url, signature_url base = Ok url -> manifest_url_admitted base /\ manifest_url_admitted url) /\
  (forall base name url, artifact_url base name = Ok url ->
     manifest_url_admitted base /\ safe_filename name /\ manifest_url_admitted url).
Proof.
  split; [intros url; apply validate_manifest_url_Ok|]. split; [|split].
  - intros t v url Hp. unfold expand in Hp. cbv zeta in Hp.
    apply bind_Ok in Hp as (u & _ & Hp). by apply bind_Ok in Hp as ([] & ?%validate_manifest_url_Ok & [= <-]).
  - apply signature_url_admitted.
  - apply artifact_url_admitted.
Qed.

(** ** Templates *)

Definition no_braces (s : bytes) : Prop := "{"%byte ∉ s /\ "}"%byte ∉ s.

Lemma braces_check s :
  existsb (fun b => byte_eqb b "{" || byte_eqb b "}") s = false <-> no_braces s.
Proof.
  unfold no_braces. rewrite existsb_false, Forall_forall. split.
  - intros Hs. split; intros Hin; by specialize (Hs _ Hin).
  - intros [Ho Hc] b Hb. apply orb_false_iff. rewrite !byte_eqb_false. split; congruence.
Qed.

Lemma no_braces_app l r : no_braces (l ++ r) <-> no_braces l /\ no_braces r.
Proof. unfold no_braces. rewrite !elem_of_app. tauto. Qed.

Lemma placeholder_once l r :
  no_braces l -> no_braces r ->
  matches_count VERSION_PLACEHOLDER (l ++ VERSION_PLACEHOLDER ++ r) = 1 /\
  replace_first VERSION_PLACEHOLDER [] (l ++ VERSION_PLACEHOLDER ++ r) = l ++ r /\
  forall v, replace VERSION_PLACEHOLDER v (l ++ VERSION_PLACEHOLDER ++ r) = l ++ v ++ r.
Proof.
  intros [Hl _] [Hr _]. change VERSION_PLACEHOLDER with ("{"%byte :: B"version}"). cbn [app].
  split; [|split].
  - unfold matches_count. rewrite split_str_once; [done|done|done|]. rewrite length_app. cbn. lia.
  - unfold replace_first. by rewrite split_once_first.
  - intros v. by apply replace_once.
Qed.

Lemma placeholder_split t :
  matches_count VERSION_PLACEHOLDER t = 1 -> no_braces (replace_first VERSION_PLACEHOLDER [] t) ->
  exists l r, t = l ++ VERSION_PLACEHOLDER ++ r /\ no_braces l /\ no_braces r.
Proof.
  unfold matches_count, replace_first. destruct (split_once VERSION_PLACEHOLDER t) as [[l r]|] eqn:E.
  - intros _ [Hl Hr]%no_braces_app. exists l, r. split; [by apply split_once_Some | done].
  - rewrite split_str_none by done. cbn. done.
Qed.

(** Note (templates).  An accepted template is text around one [{version}] with no
    other brace; expanding it inserts the version at that place and nowhere else,
    and the URL it gives for version 0.0.0 is an admitted one. *)
Theorem template_parse_sound t t' :
  template_parse t = Ok t' ->
  t' = t /\
  exists l r, t = l ++ VERSION_PLACEHOLDER ++ r /\ no_braces l /\ no_braces r /\
    (exists url, url_parse (l ++ B"0.0.0" ++ r) = Ok url /\ manifest_url_admitted url) /\
    forall v, expand t' v = (url ← map_err InvalidUrl (url_parse (l ++ v ++ r));
                             _ ← validate_manifest_url url; Ok url).
Proof.
  unfold template_parse. cbv zeta. intros Hp.
  apply bind_Ok in Hp as ([] & Hn%fail_if_Ok & Hp). apply bind_Ok in Hp as ([] & Hb%fail_if_Ok%braces_check & Hp).
  apply bind_Ok in Hp as ([] & _ & Hp). apply bind_Ok in Hp as (url & Hu%map_err_Ok & Hp).
  apply bind_Ok in Hp as ([] & _ & Hp). apply bind_Ok in Hp as ([] & Hv%validate_manifest_url_Ok & [= <-]).
  to_prop. split; [done|]. destruct (placeholder_split t Hn Hb) as (l & r & -> & Hl & Hr).
  destruct (placeholder_once l r Hl Hr) as (_ & _ & Hrep). rewrite Hrep in Hu.
  exists l, r. split; [done|]. split; [done|]. split; [done|]. split; [eauto|].
  intros v. unfold expand. cbv zeta. by rewrite Hrep.
Qed.

(** The authority of a URL text. *)
Definition is_authority_end (b : byte) : bool := byte_eqb b "/" || byte_eqb b "?" || byte_eqb b "#".
Definition url_text (scheme authority rest text : bytes) : Prop :=
  text = scheme ++ B"://" ++ authority ++ rest /\ ":"%byte ∉ scheme /\
  Forall (fun b => is_authority_end b = false) authority /\
  (rest = [] \/ exists b rest', rest = b :: rest' /\ is_authority_end b = true).

Lemma raw_authority_contains_at_spec scheme authority rest text :
  url_text scheme authority rest text -> raw_authority_contains_at text = contains_byte "@" authority.
Proof.
  intros (-> & Hs & Ha & Hr). unfold raw_authority_contains_at. change (B"://") with (":"%byte :: B"//").
  cbn [app]. rewrite split_once_first by done.
  change (fun b => byte_eqb b "/" || byte_eqb b "?" || byte_eqb b "#") with is_authority_end.
  destruct Hr as [->|(b & rest' & -> & Hb)].
  - by rewrite app_nil_r, split_by_clean.
  - by rewrite split_by_app.
Qed.

(** Note (credentials).  A template whose authority part contains an at sign is
    refused before any URL parser sees it, with or without a password, and whatever
    the parser would make of it. *)
Theorem template_credentials_rejected scheme authority rest l r :
  no_braces l -> no_braces r -> url_text scheme authority rest (l ++ B"0.0.0" ++ r) -> "@"%byte ∈ authority ->
  template_parse (l ++ VERSION_PLACEHOLDER ++ r) = Err Credentials.
Proof.
  intros Hl Hr Ht Hat. unfold template_parse. cbv zeta.
  destruct (placeholder_once l r Hl Hr) as (-> & -> & ->).
  rewrite (proj2 (braces_check (l ++ r))) by (by apply no_braces_app). cbn [mbind result_bind fail_if Z.eqb Pos.eqb negb].
  rewrite (raw_authority_contains_at_spec _ _ _ _ Ht), (proj2 (contains_byte_true _ _) Hat). done.
Qed.

End PolicyLemmas.

(** ** Manifests and URLs together *)

(** The characters of a version's text, by the SemVer grammar. *)
Definition is_semver_byte (b : byte) : bool :=
  is_ascii_alphanumeric b || byte_eqb b "." || byte_eqb b "-" || byte_eqb b "+".

Lemma semver_byte_allowed b : is_semver_byte b = true -> is_forbidden_filename_byte b = false.
Proof. destruct b; vm_compute; done. Qed.

Lemma target_bytes_allowed t :
  Forall (fun b => is_forbidden_filename_byte b = false) (as_str t ++ (if is_windows t then B".exe" else [])).
Proof. apply existsb_false. by destruct t. Qed.

(** Note (names fit URLs).  Every artifact of an admitted manifest has a name that the URL
    policy accepts, provided versions print as SemVer text of at most 200 bytes: a
    manifest that verified is never refused for its file names. *)
Theorem admitted_artifact_names_safe `{RegistryDeps} `{UrlLib} data v protocol m a :
  Forall (fun b => is_semver_byte b = true) (version_to_string v) -> zlen (version_to_string v) <= 200 ->
  parse_manifest data v protocol = Ok m -> a ∈ artifacts m ->
  validate_artifact_filename (filename a) = Ok ().
Proof.
  intros Hsv Hlen (raw & Hm)%parse_manifest_Ok Ha.
  apply list_elem_of_lookup in Ha as [i Hi].
  destruct (Forall2_lookup_r _ _ _ _ _ (admitted_artifacts _ _ _ _ _ Hm) Hi) as (ra & _ & [_ [_ Hf] _ _]).
  apply validate_artifact_filename_Ok. rewrite Hf. unfold artifact_filename. cbv zeta.
  pose proof (target_bytes_allowed (target a)) as Ht. split_and!; [done..| |].
  - assert (Hl : zlen (as_str (target a)) + zlen (if is_windows (target a) then B".exe" else []) <= 30)
      by (by destruct (target a)).
    rewrite !zlen_app. change (zlen (B"nrm-agent-")) with 10. change (zlen (B"-")) with 1. lia.
  - apply Forall_app. split; [by apply existsb_false|]. apply Forall_app. split.
    + eapply Forall_impl; [exact Hsv|]. apply semver_byte_allowed.
    + apply Forall_app. split; [by apply existsb_false | done].
Qed.

(** ** A concrete URL library, for the witnesses *)

Definition toy_urls : UrlLib := {|
  Url := bytes; UrlParseError := unit;
  url_parse := Ok; url_as_str := fun u => u;
  url_scheme := fun u => match split_once (B"://") u with Some (s, _) => s | None => [] end;
  url_username := fun _ => []; url_password := fun _ => None;
  url_host := fun _ => Some (HostDomain (B"example.com"));
  url_query := fun _ => None; url_fragment := fun _ => None;
  url_path_segments := fun u => Some (split_on "/" u);
  url_with_last_segment := fun u name => Some (u ++ name);
  url_file_path_is_absolute := fun _ => false |}.

Lemma template_parse_sound_witness :
  exists l r, B"https://example.com/{version}/manifest.json" = l ++ VERSION_PLACEHOLDER ++ r /\
    no_braces l /\ no_braces r.
Proof.
  assert (Hp : template_parse (H := toy_urls) (B"https://example.com/{version}/manifest.json") =
    Ok (B"https://example.com/{version}/manifest.json")) by (by vm_compute).
  destruct (template_parse_sound (H := toy_urls) _ _ Hp) as (_ & l & r & E & Hl & Hr & _).
  exists l, r. split; [exact E|]. split; [exact Hl | exact Hr].
Defined.

Lemma template_credentials_rejected_witness :
  template_parse (H := toy_urls) (B"https://user@example.com/" ++ VERSION_PLACEHOLDER ++ B"/m.json") = Err Credentials.
Proof.
  apply (template_credentials_rejected (H := toy_urls) (B"https") (B"user@example.com") (B"/0.0.0/m.json")).
  - by apply braces_check.
  - by apply braces_check.
  - split; [by vm_compute|]. split; [by apply contains_byte_false|].
    split; [by apply existsb_false|]. right. by exists "/"%byte, (B"0.0.0/m.json").
  - by apply contains_byte_true.
Defined.

Lemma admitted_artifact_names_safe_witness :
  exists a, validate_artifact_filename (H := toy_urls) (filename a) = Ok () /\
    filename a = B"nrm-agent-0.2.0-x86_64-apple-darwin".
Proof.
  assert (Hm : exists m a, parse_manifest (H := toy_deps) (B"{}") (B"0.2.0") 8 = Ok m /\ artifacts m = [a] /\
    filename a = B"nrm-agent-0.2.0-x86_64-apple-darwin") by (eexists _, _; split; [by vm_compute | done]).
  destruct Hm as (m & a & Hm & Ha & Hf). exists a. split; [|exact Hf].
  apply (admitted_artifact_names_safe (H := toy_deps) (H0 := toy_urls) (B"{}") (B"0.2.0") 8 m).
  - by apply forallb_Forall.
  - by vm_compute.
  - exact Hm.
  - rewrite Ha. apply list_elem_of_here.
Defined.
