(* ===== verification/BomReader.v ===== *)
(** * The reader that drops a leading BOM (crates/nrm-sidecar/src/bom_reader.rs)

    Windows shells may put a UTF-8 byte order mark in front of the agent's binary
    output.  [LeadingBomReader] removes one and passes everything else on. *)
From S2P Require Import Prelude.

Definition UTF8_BOM : bytes := [xef; xbb; xbf].

(** [io::Error], as far as the reader distinguishes it. *)
Inductive read_error := Interrupted | OtherError (kind : Z).

(** The wrapped reader: what its [read] calls find, in order.  A chunk is what the
    system has at hand; a call takes at most as much as its buffer holds. *)
Inductive source_event := Chunk (bs : bytes) | Fault (e : read_error).
Abbreviation source := (list source_event).

(** [Read::read] into a buffer of [n] bytes; an exhausted reader returns no bytes. *)
Definition source_read (n : nat) (s : source) : result read_error bytes * source :=
  match s with
  | [] => (Ok [], [])
  | Fault e :: s => (Err e, s)
  | Chunk bs :: s =>
      if (length bs <=? n)%nat then (Ok bs, s) else (Ok (take n bs), Chunk (drop n bs) :: s)
  end.

(** [prefix] holds [prefix[..prefix_len]]. *)
Record LeadingBomReader := {
  inner : source; prefix : bytes; prefix_offset : nat; initialized : bool; pending_error : option read_error }.

Definition LeadingBomReader_new (s : source) : LeadingBomReader :=
  {| inner := s; prefix := []; prefix_offset := 0; initialized := false; pending_error := None |}.

(** The loop of [initialize]; [got] is [prefix[..read]].  A step takes bytes, at most
    three in all, or an interruption, so the events of the source and three more
    steps are enough. *)
Fixpoint initialize_loop (fuel : nat) (got : bytes) (s : source) : result read_error LeadingBomReader * source :=
  let finish :=
    (Ok {| inner := s; prefix := if bytes_eqb got UTF8_BOM then [] else got; prefix_offset := 0;
           initialized := true; pending_error := None |}, s) in
  match fuel with
  | O => finish
  | S fuel =>
      if (length got <? length UTF8_BOM)%nat then
        match source_read (length UTF8_BOM - length got) s with
        | (Ok [], _) => finish
        | (Ok bs, s) => initialize_loop fuel (got ++ bs) s
        | (Err Interrupted, s) => initialize_loop fuel got s
        | (Err e, s) =>
            if bool_decide (got = []) then (Err e, s)
            else (Ok {| inner := s; prefix := got; prefix_offset := 0; initialized := true;
                        pending_error := Some e |}, s)
        end
      else finish
  end.
Definition initialize_fuel (s : source) : nat := length s + length UTF8_BOM + 1.

Definition initialize (r : LeadingBomReader) : result read_error LeadingBomReader * LeadingBomReader :=
  if initialized r then (Ok r, r)
  else match initialize_loop (initialize_fuel (inner r)) [] (inner r) with
       | (Ok r', s) => (Ok r', r')
       | (Err e, s) =>
           (Err e, {| inner := s; prefix := prefix r; prefix_offset := prefix_offset r;
                      initialized := false; pending_error := pending_error r |})
       end.

Definition with_source (s : source) (offset : nat) (e : option read_error) (r : LeadingBomReader) : LeadingBomReader :=
  {| inner := s; prefix := prefix r; prefix_offset := offset; initialized := initialized r; pending_error := e |}.

(** [read] into a buffer of [n] bytes. *)
Definition bom_read (n : nat) (r : LeadingBomReader) : result read_error bytes * LeadingBomReader :=
  if (n =? 0)%nat then (Ok [], r)
  else match initialize r with
  | (Err e, r) => (Err e, r)
  | (Ok r, _) =>
      let available := drop (prefix_offset r) (prefix r) in
      let written := take n available in
      let offset := (prefix_offset r + length written)%nat in
      if (length written =? n)%nat then (Ok written, with_source (inner r) offset (pending_error r) r)
      else match pending_error r with
      | Some e =>
          if bool_decide (written = []) then (Err e, with_source (inner r) offset None r)
          else (Ok written, with_source (inner r) offset (Some e) r)
      | None =>
          match source_read (n - length written) (inner r) with
          | (Ok bs, s) => (Ok (written ++ bs), with_source s offset None r)
          | (Err e, s) =>
              if bool_decide (written = []) then (Err e, with_source s offset None r)
              else (Ok written, with_source s offset (Some e) r)
          end
      end
  end.

(** ** What a reader still has to deliver *)

Inductive item := Byte_ (b : byte) | Error_ (e : read_error).

Definition event_items (ev : source_event) : list item :=
  match ev with Chunk bs => Byte_ <$> bs | Fault e => [Error_ e] end.
Definition source_items (s : source) : list item := s ≫= event_items.

(** The stream without its BOM: interruptions before it is decided are retried, and
    another error is reported after the bytes already read. *)
Fixpoint without_bom (got : bytes) (items : list item) : list item :=
  let keep := Byte_ <$> (if bytes_eqb got UTF8_BOM then [] else got) in
  if (length got <? length UTF8_BOM)%nat then
    match items with
    | [] => keep
    | Byte_ b :: items => without_bom (got ++ [b]) items
    | Error_ Interrupted :: items => without_bom got items
    | Error_ e :: items =>
        if bool_decide (got = []) then Error_ e :: without_bom [] items
        else (Byte_ <$> got) ++ Error_ e :: items
    end
  else keep ++ items.

Definition remaining (r : LeadingBomReader) : list item :=
  if initialized r
  then (Byte_ <$> drop (prefix_offset r) (prefix r)) ++
       (Error_ <$> option_list (pending_error r)) ++ source_items (inner r)
  else without_bom [] (source_items (inner r)).

(** No chunk is empty: a read that finds data returns some of it. *)
Definition nonempty_chunks (s : source) : Prop := Forall (fun ev => ev <> Chunk []) s.

Lemma source_read_spec n s x s' :
  (0 < n)%nat -> nonempty_chunks s -> source_read n s = (x, s') ->
  nonempty_chunks s' /\
  match x with
  | Ok bs => source_items s = (Byte_ <$> bs) ++ source_items s' /\ (bs = [] -> s = [] /\ s' = []) /\ (length bs <= n)%nat
  | Err e => source_items s = Error_ e :: source_items s' /\ length s = S (length s')
  end /\ (length s' <= length s)%nat.
Proof.
  intros Hn Hs. destruct s as [|[bs|e] s]; cbn.
  - intros [= <- <-]. split; [done|]. split; [|done]. split; [done|]. split; [done | cbn; lia].
  - apply Forall_cons in Hs as [Hne Hs]. destruct (Nat.leb_spec (length bs) n); intros [= <- <-].
    + split; [done|]. split; [|lia]. split; [done|]. split; [by intros ->|done].
    + assert (Hd : drop n bs <> []) by (intros E; apply (f_equal length) in E; rewrite length_drop in E; cbn in E; lia).
      split; [constructor; [congruence | done]|]. split; [|cbn; lia]. split; [|split].
      * unfold source_items. rewrite !bind_cons. cbn. by rewrite app_assoc, <- fmap_app, take_drop.
      * intros E. apply (f_equal length) in E. rewrite length_take in E. cbn in E. lia.
      * rewrite length_take. lia.
  - apply Forall_cons in Hs as [_ Hs]. intros [= <- <-]. split; [done|]. split; [done | lia].
Qed.

(** Reading ahead byte by byte or chunk by chunk is the same. *)
Lemma without_bom_bytes got bs items :
  (length got + length bs <= length UTF8_BOM)%nat ->
  without_bom got ((Byte_ <$> bs) ++ items) = without_bom (got ++ bs) items.
Proof.
  revert got. induction bs as [|b bs IH]; intros got Hl; [by rewrite app_nil_r|].
  rewrite fmap_cons. cbn [app without_bom]. cbn [length] in Hl.
  rewrite (proj2 (Nat.ltb_lt (length got) (length UTF8_BOM))) by lia.
  rewrite IH by (rewrite length_app; cbn [length]; lia). by rewrite <- app_assoc.
Qed.

Lemma without_bom_full got items :
  (length got >= length UTF8_BOM)%nat ->
  without_bom got items = (Byte_ <$> (if bytes_eqb got UTF8_BOM then [] else got)) ++ items.
Proof. intros Hl. destruct items as [|[b|[]]]; cbn [without_bom]; by rewrite (proj2 (Nat.ltb_ge _ _)) by lia. Qed.

Lemma short_not_bom got : (length got < length UTF8_BOM)%nat -> bytes_eqb got UTF8_BOM = false.
Proof. intros Hl. apply bytes_eqb_false. intros ->. lia. Qed.

(** What [initialize] leaves to deliver. *)
Lemma initialize_loop_spec fuel got s x s' :
  nonempty_chunks s -> (length got <= length UTF8_BOM)%nat ->
  (length s + (length UTF8_BOM - length got) < fuel)%nat ->
  initialize_loop fuel got s = (x, s') ->
  nonempty_chunks s' /\
  match x with
  | Ok r => initialized r = true /\ inner r = s' /\ remaining r = without_bom got (source_items s)
  | Err e => got = [] /\ without_bom got (source_items s) = Error_ e :: without_bom [] (source_items s')
  end.
Proof.
  revert got s. induction fuel as [|fuel IH]; intros got s Hs Hl Hf; [lia|]. cbn [initialize_loop].
  destruct (Nat.ltb_spec (length got) (length UTF8_BOM)) as [Hlt|Hge].
  2: { intros [= <- <-]. split; [done|]. split; [done|]. split; [done|]. rewrite without_bom_full by lia.
       unfold remaining. cbn. by rewrite drop_0. }
  destruct (source_read _ s) as [y s1] eqn:E. apply source_read_spec in E as (Hs1 & Hy & Hlen); [|lia|done].
  destruct y as [[|b bs]|e].
  - destruct Hy as (_ & Hend & _). destruct (Hend eq_refl) as [-> ->]. intros [= <- <-].
    split; [done|]. split; [done|]. split; [done|]. unfold remaining. cbn. rewrite drop_0, app_nil_r.
    by destruct (length got <=? 2)%nat.
  - destruct Hy as (Hitems & _ & Hb). intros E. apply IH in E; [|done|rewrite length_app; cbn in *; lia|rewrite length_app; cbn in *; lia].
    rewrite Hitems, without_bom_bytes by (cbn in *; lia). destruct E as [Hs' Hx]. split; [done|].
    destruct x; [done|]. destruct Hx as [E _]. by destruct got.
  - destruct Hy as (Hitems & Hl1). destruct e as [|k].
    + intros E. apply IH in E; [|done|done|lia]. rewrite Hitems. cbn [without_bom].
      by rewrite (proj2 (Nat.ltb_lt _ _)) by lia.
    + rewrite Hitems. cbn [without_bom]. rewrite (proj2 (Nat.ltb_lt _ _)) by lia.
      case_bool_decide as Hg; intros [= <- <-]; [done|]. split; [done|]. split; [done|]. split; [done|].
      unfold remaining. cbn. by rewrite drop_0.
Qed.

Lemma initialize_spec r x r' :
  nonempty_chunks (inner r) -> initialize r = (x, r') ->
  nonempty_chunks (inner r') /\
  match x with
  | Ok r1 => r1 = r' /\ initialized r' = true /\ remaining r' = remaining r
  | Err e => remaining r = Error_ e :: remaining r'
  end.
Proof.
  intros Hs. unfold initialize. destruct (initialized r) eqn:Ei; [by intros [= <- <-]|].
  destruct (initialize_loop _ _ _) as [y s] eqn:E.
  apply initialize_loop_spec in E as [Hs' Hy]; [|done|cbn; lia|unfold initialize_fuel; cbn; lia].
  assert (Hrem : remaining r = without_bom [] (source_items (inner r))) by (unfold remaining; by rewrite Ei).
  destruct y as [r1|e]; intros [= <- <-].
  - destruct Hy as (Hi & <- & Hr). split; [done|]. by rewrite Hrem.
  - destruct Hy as [_ Hy]. split; [done|]. unfold remaining at 2. cbn. by rewrite Hrem.
Qed.

Lemma drop_length_take {A} n (l : list A) : drop (length (take n l)) l = drop n l.
Proof.
  rewrite length_take. destruct (Nat.le_ge_cases n (length l)); [by rewrite Nat.min_l|].
  rewrite Nat.min_r by done. by rewrite !drop_ge.
Qed.

(** Note (transparency).  Whatever the sizes of the reads, of the chunks and wherever
    errors fall, each read delivers exactly the next part of the underlying stream with
    one leading BOM removed: bytes and errors in order, none lost or repeated, and an
    empty result only at the end. *)
Theorem bom_reader_transparent n r x r' :
  (0 < n)%nat -> nonempty_chunks (inner r) -> bom_read n r = (x, r') ->
  nonempty_chunks (inner r') /\
  match x with
  | Ok bs => remaining r = (Byte_ <$> bs) ++ remaining r' /\ (length bs <= n)%nat /\ (bs = [] -> remaining r = [])
  | Err e => remaining r = Error_ e :: remaining r'
  end.
Proof.
  intros Hn Hs. unfold bom_read. rewrite (proj2 (Nat.eqb_neq n 0)) by lia.
  destruct (initialize r) as [y r1] eqn:E. apply initialize_spec in E as [Hs1 Hy]; [|done].
  destruct y as [r2|e]; [|by intros [= <- <-]]. destruct Hy as (-> & Hi & <-). clear Hs r.
  set (available := drop (prefix_offset r1) (prefix r1)). cbv zeta.
  assert (Hrem : forall s e, remaining (with_source s (prefix_offset r1 + length (take n available)) e r1) =
    (Byte_ <$> drop n available) ++ (Error_ <$> option_list e) ++ source_items s).
  { intros s e. unfold remaining. cbn. rewrite Hi. subst available. f_equal. f_equal.
    by rewrite <- drop_drop, drop_length_take. }
  assert (Hr1 : remaining r1 = (Byte_ <$> take n available) ++ (Byte_ <$> drop n available) ++
    (Error_ <$> option_list (pending_error r1)) ++ source_items (inner r1)).
  { unfold remaining. rewrite Hi, (app_assoc (Byte_ <$> take n available)), <- fmap_app, take_drop. done. }
  assert (Hlen : (length (take n available) <= n)%nat) by (rewrite length_take; lia).
  destruct (Nat.eqb_spec (length (take n available)) n) as [Hfull|Hshort].
  { intros [= <- <-]. split; [done|]. rewrite Hrem, Hr1. split; [done|]. split; [done|].
    intros E. rewrite E in Hfull. cbn in Hfull. lia. }
  assert (Hd : drop n available = []) by (rewrite length_take in Hshort; apply drop_ge; lia).
  rewrite Hd in Hr1. cbn [app fmap list_fmap] in Hr1.
  destruct (pending_error r1) as [e|] eqn:Ep.
  { case_bool_decide as Hw; intros [= <- <-]; (split; [done|]); rewrite Hrem, Hd, Hr1; [by rewrite Hw|].
    split; [done|]. split; [done | intros E; by rewrite E in Hw]. }
  destruct (source_read _ (inner r1)) as [z s] eqn:Er. apply source_read_spec in Er as (Hs' & Hz & _); [|lia|done].
  destruct z as [bs|e].
  - intros [= <- <-]. destruct Hz as (Hitems & Hend & Hbl). split; [done|]. rewrite Hrem, Hd, Hr1. cbn.
    rewrite Hitems, fmap_app, app_assoc. split; [done|]. split; [rewrite length_app; lia|].
    intros [-> ->]%app_eq_nil. destruct (Hend eq_refl) as [E ->]. done.
  - destruct Hz as (Hitems & _). case_bool_decide as Hw; intros [= <- <-]; (split; [done|]); rewrite Hrem, Hd, Hr1; cbn;
      rewrite Hitems; [by rewrite Hw|]. split; [done|]. split; [done | intros E; by rewrite E in Hw].
Qed.

(** A stream that starts with a BOM cut into pieces by an interruption, and its reads. *)
Definition demo_source : source :=
  [Chunk [xef]; Fault Interrupted; Chunk [xbb; xbf; x41]; Fault (OtherError 5); Chunk [x42]].

Lemma demo_source_read :
  remaining (LeadingBomReader_new demo_source) = [Byte_ x41; Error_ (OtherError 5); Byte_ x42].
Proof. reflexivity. Qed.

Lemma bom_reader_transparent_witness :
  exists r', bom_read 8 (LeadingBomReader_new demo_source) = (Ok [x41], r') /\
    remaining (LeadingBomReader_new demo_source) = (Byte_ <$> [x41]) ++ remaining r'.
Proof.
  eexists. split; [reflexivity|].
  eapply (bom_reader_transparent 8 (LeadingBomReader_new demo_source) (Ok [x41])); [lia| |reflexivity].
  by repeat constructor.
Defined.
