(* ===== verification/Json.v ===== *)
(** * JSON values ([serde_json::Value])

    The values the sidecar's requests and the language server messages are made
    of.  An object is the list of its members; its keys are distinct. *)
From S2P Require Import Prelude.

Inductive Number := JInt (z : Z) | JFloat (text : bytes).

Inductive Value :=
| VNull
| VBool (b : bool)
| VNumber (n : Number)
| VString (s : bytes)
| VArray (items : list Value)
| VObject (members : list (bytes * Value)).

(** Induction that reaches the elements of arrays and objects. *)
Section Value_induction.
Context (P : Value -> Prop)
  (HNull : P VNull) (HBool : forall b, P (VBool b)) (HNumber : forall n, P (VNumber n))
  (HString : forall s, P (VString s))
  (HArray : forall items, Forall P items -> P (VArray items))
  (HObject : forall members, Forall (fun kv => P kv.2) members -> P (VObject members)).

Fixpoint Value_deep_ind (v : Value) : P v :=
  match v with
  | VNull => HNull
  | VBool b => HBool b
  | VNumber n => HNumber n
  | VString s => HString s
  | VArray items =>
      HArray items ((fix go l : Forall P l :=
        match l with
        | [] => Forall_nil_2 P
        | x :: l => Forall_cons_2 P x l (Value_deep_ind x) (go l)
        end) items)
  | VObject members =>
      HObject members ((fix go l : Forall (fun kv => P kv.2) l :=
        match l with
        | [] => Forall_nil_2 _
        | kv :: l => Forall_cons_2 (fun kv => P kv.2) kv l (Value_deep_ind kv.2) (go l)
        end) members)
  end.
End Value_induction.

(** [Value::get] with a string key, and the [as_*] accessors. *)
Definition get_member (key : bytes) (members : list (bytes * Value)) : option Value :=
  snd <$> List.find (fun kv => bytes_eqb (fst kv) key) members.
Definition get (key : bytes) (v : Value) : option Value :=
  match v with VObject members => get_member key members | _ => None end.
Definition as_str (v : Value) : option bytes := match v with VString s => Some s | _ => None end.
Definition as_bool (v : Value) : option bool := match v with VBool b => Some b | _ => None end.
Definition as_array (v : Value) : option (list Value) := match v with VArray l => Some l | _ => None end.
Definition as_u64 (v : Value) : option Z :=
  match v with VNumber (JInt z) => if (0 <=? z) && (z <=? u64_max) then Some z else None | _ => None end.
