(* ===== verification/LspRewrite.v ===== *)
(** * Rewriting of language server messages (crates/nrm-sidecar/src/lsp_rewrite.rs)

    A language server runs on the remote host and sees remote paths; the editor sees
    the local mirror.  The proxy rewrites the paths and file URIs of every message
    from one root to the other. *)
From S2P Require Import Prelude Paths Json.

(** ** Text *)

(** [text.chars().any(char::is_whitespace)] on UTF-8: the ASCII white space, and the
    encodings of U+0085, U+00A0, U+1680, U+2000 to U+200A, U+2028, U+2029, U+202F,
    U+205F and U+3000. *)
Fixpoint has_whitespace (text : bytes) : bool :=
  match text with
  | [] => false
  | b :: rest =>
      in_range 9 13 b || byte_eqb b x20
      || (byte_eqb b xc2 && match rest with c :: _ => byte_eqb c x85 || byte_eqb c xa0 | [] => false end)
      || match b, rest with
         | xe1, x9a :: x80 :: _ => true
         | xe2, x80 :: c :: _ => in_range 128 138 c || byte_eqb c xa8 || byte_eqb c xa9 || byte_eqb c xaf
         | xe2, x81 :: x9f :: _ => true
         | xe3, x80 :: x80 :: _ => true
         | _, _ => false
         end
      || has_whitespace rest
  end.

Definition decode_hex_digit (b : byte) : option Z :=
  if in_range 48 57 b then Some (u8 b - 48)
  else if in_range 97 102 b then Some (u8 b - 97 + 10)
  else if in_range 65 70 b then Some (u8 b - 65 + 10)
  else None.

(** [strict_percent_decode]: structural on the input; a [%] needs two digits. *)
Fixpoint strict_percent_decode (input : bytes) : option bytes :=
  match input with
  | [] => Some []
  | b :: rest =>
      if negb (byte_eqb b "%") then (b ::.) <$> strict_percent_decode rest
      else match rest with
           | h :: l :: rest =>
               high ← decode_hex_digit h;
               low ← decode_hex_digit l;
               (byte_of (Z.lor (Z.shiftl high 4) low) ::.) <$> strict_percent_decode rest
           | _ => None
           end
  end.

Definition is_unreserved (b : byte) : bool :=
  is_ascii_upper b || is_ascii_lower b || is_ascii_digit b || byte_eqb b "/" || byte_eqb b ":" ||
  byte_eqb b "-" || byte_eqb b "_" || byte_eqb b "." || byte_eqb b "~".
(** [{other:02X}] *)
Definition upper_hex_digit (n : Z) : byte := if n <? 10 then byte_of (48 + n) else byte_of (55 + n).
Definition percent_encode_byte (b : byte) : bytes :=
  if is_unreserved b then [b]
  else ["%"%byte; upper_hex_digit (Z.shiftr (u8 b) 4); upper_hex_digit (Z.land (u8 b) 15)].
Definition percent_encode_uri_path (path : bytes) : bytes := path ≫= percent_encode_byte.

(** ** Path styles *)

Inductive PathStyle := Posix | Windows.
#[export] Instance PathStyle_eq_dec : EqDecision PathStyle.
Proof. solve_decision. Defined.

Definition path_style (path : bytes) : PathStyle :=
  match path with
  | a :: b :: c :: _ =>
      if is_ascii_alphabetic a && byte_eqb b ":" && (byte_eqb c "/" || byte_eqb c "\") then Windows else Posix
  | _ => Posix
  end.

Definition path_separators (style : PathStyle) (b : byte) : bool :=
  match style with Posix => byte_eqb b "/" | Windows => byte_eqb b "/" || byte_eqb b "\" end.

Definition traversal_path_style (from_style to_style : PathStyle) : PathStyle :=
  if bool_decide (from_style = Windows) || bool_decide (to_style = Windows) then Windows else Posix.

(** [windows_path_prefix_eq]; [first] is whether the index is zero. *)
Fixpoint windows_bytes_eq (drive : bool) (first : bool) (candidate prefix : bytes) : bool :=
  match candidate, prefix with
  | l :: candidate, r :: prefix =>
      (if path_separators Windows l && path_separators Windows r then true
       else if first && drive then eq_ignore_ascii_case l r
       else byte_eqb l r) && windows_bytes_eq drive false candidate prefix
  | _, _ => true
  end.
Definition windows_path_prefix_eq (candidate prefix : bytes) : bool :=
  windows_bytes_eq (bool_decide (prefix !! 1%nat = Some ":"%byte)) true candidate prefix.

(** [text.get(..n)]; a text that continues in the middle of a character never equals
    the prefix, so the byte comparison decides. *)
Definition get_prefix (n : nat) (text : bytes) : option bytes :=
  if (n <=? length text)%nat then Some (take n text) else None.

Definition ends_with_byte (p : byte -> bool) (s : bytes) : bool :=
  match last s with Some b => p b | None => false end.
Definition starts_with_byte (p : byte -> bool) (s : bytes) : bool :=
  match head s with Some b => p b | None => false end.

Definition strip_path_prefix_with_boundary (text prefix : bytes) (style : PathStyle) : option bytes :=
  candidate ← get_prefix (length prefix) text;
  let matches := match style with
                 | Posix => bytes_eqb candidate prefix
                 | Windows => windows_path_prefix_eq candidate prefix
                 end in
  if negb matches then None
  else
    let suffix := drop (length prefix) text in
    if bytes_eqb suffix [] || ends_with_byte (path_separators style) prefix then Some suffix
    else if starts_with_byte (path_separators style) suffix then Some suffix else None.

Definition is_dot (segment : bytes) : bool := bytes_eqb segment (B".") || bytes_eqb segment (B"..").

Definition path_has_no_dot_segments (path : bytes) (style : PathStyle) : bool :=
  negb (existsb is_dot (split_by (path_separators style) path)).

Definition join_rewritten_path (to_prefix suffix : bytes) (from_style : PathStyle) : bytes :=
  if bytes_eqb suffix [] then to_prefix
  else
    let separator : byte := match path_style to_prefix with
                            | Posix => "/"%byte
                            | Windows => if bool_decide (to_prefix !! 2%nat = Some "\"%byte) then "\"%byte else "/"%byte
                            end in
    let relative := trim_start (path_separators from_style) suffix in
    let normalized :=
      (fun ch => if byte_eqb ch "/" || (bool_decide (from_style = Windows) && byte_eqb ch "\")
                 then separator else ch) <$> relative in
    let base := trim_end (fun b => byte_eqb b "/" || byte_eqb b "\") to_prefix in
    if bytes_eqb base [] && starts_with (B"/") to_prefix then "/"%byte :: normalized
    else base ++ separator :: normalized.

Definition rewrite_lsp_path (text from_prefix to_prefix : bytes) : option bytes :=
  let from_style := path_style from_prefix in
  suffix ← strip_path_prefix_with_boundary text from_prefix from_style;
  if negb (path_has_no_dot_segments suffix (traversal_path_style from_style (path_style to_prefix))) then None
  else Some (join_rewritten_path to_prefix suffix from_style).

(** ** File URIs *)

Definition file_uri_path (path : bytes) : bytes :=
  match path_style path with
  | Windows => "/"%byte :: ((fun b => if byte_eqb b "\" then "/"%byte else b) <$> path)
  | Posix => path
  end.

Definition path_to_file_uri_prefix_pairs (from_prefix to_prefix : bytes) : list (bytes * bytes) :=
  let from_prefix := file_uri_path from_prefix in
  let to_prefix := file_uri_path to_prefix in
  let plain := (B"file://" ++ from_prefix, B"file://" ++ to_prefix) in
  let encoded := (B"file://" ++ percent_encode_uri_path from_prefix, B"file://" ++ percent_encode_uri_path to_prefix) in
  if bool_decide (encoded = plain) then [plain] else [encoded; plain].

(** [uri_prefix_eq], its loop over [index]; the fuel is the length of the prefix. *)
Fixpoint uri_prefix_loop (fuel index : nat) (drive : option nat) (candidate prefix : bytes) : bool :=
  match fuel with
  | O => true
  | S fuel =>
      match prefix !! index with
      | None => true
      | Some p =>
          let at_ (l : bytes) i := from_option id x00 (l !! i) in
          if byte_eqb p "%" then
            if negb (byte_eqb (at_ candidate index) "%")
               || negb (bool_decide (decode_hex_digit (at_ candidate (index + 1)%nat) =
                                     decode_hex_digit (at_ prefix (index + 1)%nat)))
               || negb (bool_decide (decode_hex_digit (at_ candidate (index + 2)%nat) =
                                     decode_hex_digit (at_ prefix (index + 2)%nat)))
            then false
            else uri_prefix_loop fuel (index + 3) drive candidate prefix
          else
            let equivalent :=
              if (index <? length (B"file://"))%nat || bool_decide (drive = Some index)
              then eq_ignore_ascii_case (at_ candidate index) p
              else byte_eqb (at_ candidate index) p in
            if negb equivalent then false else uri_prefix_loop fuel (index + 1) drive candidate prefix
      end
  end.
Definition uri_prefix_eq (candidate prefix : bytes) (style : PathStyle) : bool :=
  if negb (length candidate =? length prefix)%nat then false
  else
    let drive := if bool_decide (style = Windows) && bool_decide (get_prefix 8 prefix = Some (B"file:///")) &&
                    bool_decide (prefix !! 9%nat = Some ":"%byte) then Some 8%nat else None in
    uri_prefix_loop (length prefix) 0 drive candidate prefix.

Definition is_uri_boundary (b : byte) : bool := byte_eqb b "/" || byte_eqb b "?" || byte_eqb b "#".
Definition strip_uri_prefix_with_boundary (text prefix : bytes) (style : PathStyle) : option bytes :=
  candidate ← get_prefix (length prefix) text;
  if negb (uri_prefix_eq candidate prefix style) then None
  else
    let suffix := drop (length prefix) text in
    if bytes_eqb suffix [] || ends_with_byte (byte_eqb "/") prefix || starts_with_byte is_uri_boundary suffix
    then Some suffix else None.

Definition is_uri_path_end (b : byte) : bool := byte_eqb b "?" || byte_eqb b "#".
(** The text before the first byte of a class. *)
Fixpoint take_until (p : byte -> bool) (s : bytes) : bytes :=
  match s with
  | [] => []
  | b :: s => if p b then [] else b :: take_until p s
  end.
Definition uri_path_separator (style : PathStyle) (b : byte) : bool :=
  byte_eqb b "/" || (bool_decide (style = Windows) && byte_eqb b "\").
Definition uri_suffix_has_no_dot_segments (suffix : bytes) (style : PathStyle) : bool :=
  match strict_percent_decode (take_until is_uri_path_end suffix) with
  | None => false
  | Some decoded => negb (existsb is_dot (split_by (uri_path_separator style) decoded))
  end.

(** The loop over the prefix pairs: the first that matches decides. *)
Fixpoint rewrite_with_pairs (text from_prefix to_prefix : bytes) (pairs : list (bytes * bytes)) : option bytes :=
  match pairs with
  | [] => None
  | (from_uri, to_uri) :: pairs =>
      match strip_uri_prefix_with_boundary text from_uri (path_style from_prefix) with
      | None => rewrite_with_pairs text from_prefix to_prefix pairs
      | Some suffix =>
          if negb (uri_suffix_has_no_dot_segments suffix
                     (traversal_path_style (path_style from_prefix) (path_style to_prefix))) then None
          else
            let separator :=
              if ends_with_byte (byte_eqb "/") from_uri && negb (ends_with_byte (byte_eqb "/") to_uri) &&
                 negb (bytes_eqb suffix []) && negb (starts_with_byte is_uri_path_end suffix)
              then B"/" else [] in
            Some (to_uri ++ separator ++ suffix)
      end
  end.
Definition rewrite_lsp_uri (text from_prefix to_prefix : bytes) : option bytes :=
  if has_whitespace text then None
  else rewrite_with_pairs text from_prefix to_prefix (path_to_file_uri_prefix_pairs from_prefix to_prefix).

(** ** Messages *)

Definition to_ascii_lowercase (s : bytes) : bytes := ascii_lower <$> s.

Definition is_lsp_path_key (key : bytes) : bool :=
  let key := to_ascii_lowercase key in
  existsb (bytes_eqb key) [B"path"; B"file"; B"filename"; B"directory"; B"dir"; B"cwd"] ||
  existsb (fun suffix => ends_with suffix key)
    [B"path"; B"filepath"; B"file_path"; B"filename"; B"file_name"; B"directory"].

Definition is_lsp_uri_key (key : bytes) : bool :=
  let key := to_ascii_lowercase key in
  bytes_eqb key (B"uri") || ends_with (B"uri") key.

Definition rewrite_lsp_object_key (key from_prefix to_prefix : bytes) : bytes :=
  from_option id key (rewrite_lsp_uri key from_prefix to_prefix).

(** [serde_json::Map] is a [BTreeMap]: its members are sorted by key. *)
Fixpoint key_ltb (a b : bytes) : bool :=
  match a, b with
  | [], [] => false
  | [], _ => true
  | _, [] => false
  | x :: a, y :: b => (u8 x <? u8 y) || (byte_eqb x y && key_ltb a b)
  end.
Fixpoint insert_member (key : bytes) (v : Value) (members : list (bytes * Value)) : list (bytes * Value) :=
  match members with
  | [] => [(key, v)]
  | (k, w) :: rest => if key_ltb key k then (key, v) :: members else (k, w) :: insert_member key v rest
  end.
(** Replacing the value [get_mut] points to. *)
Fixpoint set_member (key : bytes) (v : Value) (members : list (bytes * Value)) : list (bytes * Value) :=
  match members with
  | [] => []
  | (k, w) :: rest => if bytes_eqb k key then (k, v) :: rest else (k, w) :: set_member key v rest
  end.

(** [merge_lsp_collision]: the value left in [existing]. *)
Fixpoint merge_lsp_collision (incoming existing : Value) {struct incoming} : Value :=
  match existing, incoming with
  | VArray existing, VArray incoming => VArray (existing ++ incoming)
  | VObject existing, VObject incoming =>
      VObject ((fix go (l acc : list (bytes * Value)) :=
        match l with
        | [] => acc
        | (key, value) :: l =>
            go l (match get_member key acc with
                  | Some existing_value => set_member key (merge_lsp_collision value existing_value) acc
                  | None => insert_member key value acc
                  end)
        end) incoming existing)
  | _, _ => existing
  end.

(** The entry loop's body: the rewritten entry joins the members so far. *)
Definition add_entry (key : bytes) (value : Value) (members : list (bytes * Value)) : list (bytes * Value) :=
  match get_member key members with
  | Some existing => set_member key (merge_lsp_collision value existing) members
  | None => insert_member key value members
  end.

Fixpoint rewrite_lsp_json (from_prefix to_prefix : bytes) (key : option bytes) (value : Value) : Value :=
  match value with
  | VString text =>
      if from_option is_lsp_uri_key false key then
        VString (from_option id text (rewrite_lsp_uri text from_prefix to_prefix))
      else if from_option is_lsp_path_key false key then
        VString (from_option id text (rewrite_lsp_path text from_prefix to_prefix))
      else value
  | VArray values => VArray (rewrite_lsp_json from_prefix to_prefix key <$> values)
  | VObject entries =>
      VObject ((fix go (l acc : list (bytes * Value)) :=
        match l with
        | [] => acc
        | (entry_key, entry_value) :: l =>
            go l (add_entry (rewrite_lsp_object_key entry_key from_prefix to_prefix)
                    (rewrite_lsp_json from_prefix to_prefix (Some entry_key) entry_value) acc)
        end) entries [])
  | _ => value
  end.

(** [rewrite_lsp_body], with [serde_json]'s reader and writer. *)
Definition rewrite_lsp_body {E} (from_slice : bytes -> result E Value) (to_vec : Value -> result E bytes)
    (body from_prefix to_prefix : bytes) : result E bytes :=
  value ← from_slice body;
  to_vec (rewrite_lsp_json from_prefix to_prefix None value).
