(* ===== verification/LspRewriteProps.v ===== *)
(** * Properties of the language server rewriting

    Percent encoding, the paths and URIs of POSIX roots, and whole messages. *)
From Stdlib Require Import Sorting.Sorted.
From S2P Require Import Prelude Paths Json LspRewrite.

(** ** Percent encoding *)

Lemma percent_encode_byte_decodes b rest :
  strict_percent_decode (percent_encode_byte b ++ rest) = (b ::.) <$> strict_percent_decode rest.
Proof. destruct b; reflexivity. Qed.

(** Note (percent encoding).  Every path, of any bytes, survives encoding into a URI and
    strict decoding. *)
Theorem percent_encode_roundtrip path :
  strict_percent_decode (percent_encode_uri_path path) = Some path.
Proof.
  unfold percent_encode_uri_path. induction path as [|b path IH]; [done|].
  rewrite bind_cons, percent_encode_byte_decodes, IH. done.
Qed.

(** ** Paths under POSIX roots *)

(** An absolute root without a trailing separator. *)
Definition posix_root (root : bytes) : Prop :=
  starts_with (B"/") root = true /\
  exists init b, root = init ++ [b] /\ byte_eqb b "/" = false /\ byte_eqb b "\" = false.

Lemma posix_root_style root : posix_root root -> path_style root = Posix.
Proof.
  intros [(t & ->)%starts_with_spec _]. cbn. by destruct t as [|b [|c t]].
Qed.

Lemma posix_root_last root : posix_root root ->
  ends_with_byte (path_separators Posix) root = false /\ ends_with_byte (byte_eqb "/") root = false.
Proof.
  intros (_ & init & b & -> & H1 & _). unfold ends_with_byte. rewrite last_snoc. cbn. split; [done|].
  apply byte_eqb_false. apply byte_eqb_false in H1. congruence.
Qed.

Lemma posix_root_trim root : posix_root root ->
  trim_end (fun b => byte_eqb b "/" || byte_eqb b "\") root = root /\ root <> [].
Proof.
  intros (_ & init & b & -> & H1 & H2). split; [|by destruct init].
  apply trim_end_clean. by rewrite H1, H2.
Qed.

Lemma strip_posix text prefix suffix :
  ends_with_byte (path_separators Posix) prefix = false ->
  strip_path_prefix_with_boundary text prefix Posix = Some suffix <->
  text = prefix ++ suffix /\ (suffix = [] \/ exists rel, suffix = "/"%byte :: rel).
Proof.
  intros He. unfold strip_path_prefix_with_boundary, get_prefix. cbv zeta. rewrite He, orb_false_r. split.
  - destruct (Nat.leb_spec (length prefix) (length text)); [|done]. cbn [mbind option_bind].
    destruct (bytes_eqb (take _ _) prefix) eqn:E; [|done]. apply bytes_eqb_true in E. cbn [negb].
    assert (Ht : text = prefix ++ drop (length prefix) text) by (rewrite <- E at 1; by rewrite take_drop).
    destruct (bytes_eqb (drop _ _) []) eqn:Ed.
    + apply bytes_eqb_true in Ed. intros [= <-]. rewrite Ed in *. auto.
    + destruct (drop (length prefix) text) as [|c rel]; [done|]. cbn. destruct (byte_eqb c "/") eqn:Ec; [|done].
      apply byte_eqb_true in Ec as ->. intros [= <-]. eauto.
  - intros (-> & Hs). rewrite (proj2 (Nat.leb_le _ _)) by (rewrite length_app; lia). cbn [mbind option_bind].
    rewrite take_app_length, drop_app_length, (proj2 (bytes_eqb_true prefix prefix) eq_refl). cbn [negb].
    destruct Hs as [->|(rel & ->)]; [done|]. done.
Qed.

(** Segments that are neither [.] nor [..]. *)
Definition no_dot_segments (path : bytes) : Prop := Forall (fun seg => is_dot seg = false) (split_on "/" path).

Lemma posix_segments path : split_by (path_separators Posix) path = split_on "/" path.
Proof.
  unfold split_on. cbn. induction path as [|b path IH]; [done|]. cbn. rewrite IH.
  replace (byte_eqb "/" b) with (byte_eqb b "/"); [done|]. unfold byte_eqb. apply bool_decide_ext. naive_solver.
Qed.

Lemma no_dot_check path : path_has_no_dot_segments path Posix = true <-> no_dot_segments path.
Proof. unfold path_has_no_dot_segments, no_dot_segments. by rewrite posix_segments, negb_true_iff, existsb_false. Qed.

Lemma join_posix to suffix :
  posix_root to -> suffix <> [] ->
  join_rewritten_path to suffix Posix = to ++ "/"%byte :: trim_start (path_separators Posix) suffix.
Proof.
  intros Hto Hs. unfold join_rewritten_path. rewrite (proj2 (bytes_eqb_false _ _) Hs), (posix_root_style _ Hto).
  destruct (posix_root_trim _ Hto) as [-> Hne]. cbv zeta. rewrite (proj2 (bytes_eqb_false _ _) Hne). cbn [andb].
  f_equal. f_equal. rewrite <- (list_fmap_id (trim_start (path_separators Posix) suffix)) at 2.
  apply list_fmap_ext. intros _ ch _. cbn. rewrite orb_false_r.
  destruct (byte_eqb ch "/") eqn:E; [by apply byte_eqb_true in E | done].
Qed.

Lemma rewrite_lsp_path_posix text from to out :
  posix_root from -> posix_root to ->
  rewrite_lsp_path text from to = Some out <->
  exists suffix, text = from ++ suffix /\
    ((suffix = [] /\ out = to) \/
     (exists rel, suffix = "/"%byte :: rel /\ no_dot_segments suffix /\
        out = to ++ "/"%byte :: trim_start (path_separators Posix) rel)).
Proof.
  intros Hf Ht. unfold rewrite_lsp_path. rewrite (posix_root_style _ Hf), (posix_root_style _ Ht). cbv zeta.
  change (traversal_path_style Posix Posix) with Posix. destruct (posix_root_last _ Hf) as [He _]. split.
  - intros (suffix & (Htext & Hs)%strip_posix & Hk)%bind_Some; [|done]. exists suffix. split; [done|].
    destruct (path_has_no_dot_segments suffix Posix) eqn:Ed; [|done]. injection Hk as <-.
    destruct Hs as [->|(rel & ->)]; [by left|]. right. exists rel. split; [done|]. split; [by apply no_dot_check|].
    by rewrite join_posix.
  - intros (suffix & -> & Hs). apply bind_Some. exists suffix. split.
    + apply strip_posix; [done|]. split; [done|]. destruct Hs as [[-> _]|(rel & -> & _)]; eauto.
    + destruct Hs as [[-> ->]|(rel & -> & Hd & ->)]; [done|].
      rewrite (proj2 (no_dot_check _) Hd). cbn [negb]. by rewrite join_posix.
Qed.

Lemma no_dot_normal path : no_dot_segments path -> B".." ∉ split_on "/" path.
Proof. unfold no_dot_segments. rewrite Forall_forall. intros Hd Hin. by specialize (Hd _ Hin). Qed.

(** Reading an absolute path from the root. *)
Lemma split_on_slash a b : split_on "/" (a ++ "/"%byte :: b) = split_on "/" a ++ split_on "/" b.
Proof.
  unfold split_on. induction a as [|x a IH]; cbn; [done|]. rewrite IH.
  destruct (byte_eqb "/" x); [done|]. pose proof (split_by_nonempty (byte_eqb "/") a).
  by destruct (split_by (byte_eqb "/") a).
Qed.

Lemma walk_app at_ l1 l2 : walk_segments at_ (l1 ++ l2) = walk_segments (walk_segments at_ l1) l2.
Proof.
  revert at_. induction l1 as [|s l1 IH]; intros at_; cbn; [done|].
  destruct (bytes_eqb s [] || bytes_eqb s (B".")); [done|]. by destruct (bytes_eqb s (B"..")).
Qed.

Lemma absolute_app root rel :
  starts_with (B"/") root = true -> B".." ∉ split_on "/" rel ->
  lexical_join [] (root ++ "/"%byte :: rel) = lexical_join [] root ++ path_segments rel.
Proof.
  intros (t & ->)%starts_with_spec Hd. unfold lexical_join.
  assert (E : forall s, starts_with (B"/") (B"/" ++ s) = true) by (intros s; apply starts_with_spec; eauto).
  rewrite <- app_assoc, !E, app_assoc, split_on_slash, walk_app. by rewrite walk_skips.
Qed.

Lemma trim_slashes_segments rel : path_segments (trim_start (path_separators Posix) rel) = path_segments rel.
Proof.
  unfold path_segments. induction rel as [|b rel IH]; [done|]. cbn [trim_start path_separators].
  destruct (byte_eqb b "/") eqn:E; [|done]. apply byte_eqb_true in E as ->. by rewrite IH.
Qed.

Lemma trim_slashes_dotdot rel :
  B".." ∉ split_on "/" rel -> B".." ∉ split_on "/" (trim_start (path_separators Posix) rel).
Proof. rewrite <- !dotdot_segment, trim_slashes_segments. done. Qed.

(** Note (rewritten paths stay inside).  Between POSIX roots, a path is rewritten only if
    it is the source root or lies below it at a name boundary, and the result names, below
    the target root, exactly the file names the original has below the source root. *)
Theorem rewritten_path_contained text from to out :
  posix_root from -> posix_root to -> rewrite_lsp_path text from to = Some out ->
  exists names, Forall normal_segment names /\
    lexical_join [] text = lexical_join [] from ++ names /\
    lexical_join [] out = lexical_join [] to ++ names.
Proof.
  intros Hf Ht (suffix & -> & Hs)%rewrite_lsp_path_posix; [|done|done].
  destruct Hs as [[-> ->]|(rel & -> & Hd & ->)].
  - exists []. by rewrite !app_nil_r.
  - apply no_dot_normal in Hd. change ("/"%byte :: rel) with ([] ++ "/"%byte :: rel) in Hd.
    rewrite split_on_slash in Hd. apply not_elem_of_app in Hd as [_ Hd].
    exists (path_segments rel). split; [by apply path_segments_no_dotdot|].
    rewrite !absolute_app by (apply Hf || apply Ht || by apply trim_slashes_dotdot || done).
    by rewrite trim_slashes_segments.
Qed.

(** Note (path round trip).  A path below the root that has been sent to the other side
    comes back as it was. *)
Theorem rewrite_path_roundtrip from to rel out :
  posix_root from -> posix_root to -> starts_with (B"/") rel = false ->
  rewrite_lsp_path (from ++ "/"%byte :: rel) from to = Some out ->
  rewrite_lsp_path out to from = Some (from ++ "/"%byte :: rel).
Proof.
  intros Hf Ht Hrel (suffix & E & Hs)%rewrite_lsp_path_posix; [|done|done]. apply app_inv_head in E as <-.
  assert (Htrim : trim_start (path_separators Posix) rel = rel).
  { destruct rel as [|b rel]; [done|]. apply trim_start_clean. change (B"/") with ["/"%byte] in Hrel. cbn in *. rewrite andb_true_r in Hrel.
    apply byte_eqb_false. apply byte_eqb_false in Hrel. congruence. }
  destruct Hs as [[? _]|(rel' & [= <-] & Hd & ->)]; [done|]. rewrite Htrim.
  apply rewrite_lsp_path_posix; [done|done|]. exists ("/"%byte :: rel). split; [done|]. right.
  exists rel. by rewrite Htrim.
Qed.

Lemma demo_root (s : string) :
  starts_with (B"/") (B s) = true -> match last (B s) with Some b => negb (byte_eqb b "/") && negb (byte_eqb b "\") | None => false end = true ->
  posix_root (B s).
Proof.
  intros H1 H2. split; [done|]. destruct (last (B s)) as [b|] eqn:E; [|done].
  apply last_Some in E as (init & E). exists init, b. to_prop. split; [done|]. by rewrite !byte_eqb_false.
Qed.

Lemma rewritten_path_contained_witness :
  exists names, Forall normal_segment names /\
    lexical_join [] (B"/remote/repo/src/lib.rs") = lexical_join [] (B"/remote/repo") ++ names /\
    lexical_join [] (B"/local/mirror/src/lib.rs") = lexical_join [] (B"/local/mirror") ++ names.
Proof.
  apply (rewritten_path_contained (B"/remote/repo/src/lib.rs") (B"/remote/repo") (B"/local/mirror"));
    [by apply demo_root | by apply demo_root | by vm_compute].
Defined.

Lemma rewrite_path_roundtrip_witness :
  rewrite_lsp_path (B"/local/mirror/src/lib.rs") (B"/local/mirror") (B"/remote/repo") =
    Some (B"/remote/repo" ++ "/"%byte :: B"src/lib.rs").
Proof.
  apply (rewrite_path_roundtrip (B"/remote/repo") (B"/local/mirror") (B"src/lib.rs"));
    [by apply demo_root | by apply demo_root | by vm_compute | by vm_compute].
Defined.

(** ** Whole messages *)

Definition key_lt (a b : bytes) : Prop := key_ltb a b = true.

Lemma key_lt_irrefl a : ~ key_lt a a.
Proof.
  unfold key_lt. induction a as [|x a IH]; cbn; [done|]. rewrite Z.ltb_irrefl, byte_eqb_refl. done.
Qed.

#[export] Instance key_lt_trans : Transitive key_lt.
Proof.
  unfold key_lt. intros a. induction a as [|x a IH]; intros [|y b] [|z c]; cbn; try done.
  rewrite !orb_true_iff, !andb_true_iff, !Z.ltb_lt, !byte_eqb_true.
  intros [?|[-> ?]] [?|[-> ?]]; [left; lia|left; lia|left; lia|right; eauto].
Qed.

Lemma key_total a b : key_lt a b \/ a = b \/ key_lt b a.
Proof.
  unfold key_lt. revert b. induction a as [|x a IH]; intros [|y b]; cbn; auto.
  rewrite !orb_true_iff, !andb_true_iff, !Z.ltb_lt, !byte_eqb_true.
  destruct (Z.lt_total (u8 x) (u8 y)) as [?|[E%u8_inj|?]]; [auto| |auto]. subst y.
  destruct (IH b) as [?|[->|?]]; auto.
Qed.

(** The members of a [BTreeMap]: strictly ascending keys. *)
Abbreviation ascending := (StronglySorted key_lt).

Inductive wf_value : Value -> Prop :=
| wf_null : wf_value VNull
| wf_bool b : wf_value (VBool b)
| wf_number n : wf_value (VNumber n)
| wf_string s : wf_value (VString s)
| wf_array items : Forall wf_value items -> wf_value (VArray items)
| wf_object members : ascending members.*1 -> Forall (fun kv => wf_value kv.2) members -> wf_value (VObject members).

Definition wf_members (l : list (bytes * Value)) : Prop := ascending l.*1 /\ Forall (fun kv => wf_value kv.2) l.

Lemma get_member_Some key l v : get_member key l = Some v -> exists k, (k, v) ∈ l /\ k = key.
Proof.
  unfold get_member. intros ([k w] & Hf & ->)%fmap_Some.
  apply List.find_some in Hf as [Hin Hk%bytes_eqb_true]. exists k. split; [by apply list_elem_of_In | done].
Qed.

Lemma get_member_None key l : get_member key l = None -> key ∉ l.*1.
Proof.
  unfold get_member. intros Hf%fmap_None Hin. apply list_elem_of_fmap in Hin as ([k v] & -> & Hin).
  apply list_elem_of_In in Hin. pose proof (List.find_none _ _ Hf _ Hin) as E. cbn in E.
  by rewrite (proj2 (bytes_eqb_true k k) eq_refl) in E.
Qed.

Lemma set_member_keys key v l : (set_member key v l).*1 = l.*1.
Proof. induction l as [|[k w] l IH]; cbn; [done|]. destruct (bytes_eqb k key); cbn; by rewrite ?IH. Qed.

Lemma set_member_values (P : Value -> Prop) key v l :
  P v -> Forall (fun kv => P kv.2) l -> Forall (fun kv => P kv.2) (set_member key v l).
Proof.
  intros Hv. induction 1 as [|[k w] l Hw Hl IH]; cbn; [constructor|].
  destruct (bytes_eqb k key); by constructor.
Qed.

Lemma insert_member_elem key v l x : x ∈ insert_member key v l <-> x = (key, v) \/ x ∈ l.
Proof.
  induction l as [|[k w] l IH]; cbn; [by rewrite list_elem_of_singleton, elem_of_nil; tauto|].
  destruct (key_ltb key k); rewrite !elem_of_cons, ?IH; tauto.
Qed.

Lemma insert_member_ascending key v l :
  key ∉ l.*1 -> ascending l.*1 -> ascending (insert_member key v l).*1.
Proof.
  intros Hk Hl. induction l as [|[k w] l IH]; cbn; [by repeat constructor|].
  cbn in Hk, Hl. apply not_elem_of_cons in Hk as [Hne Hk]. apply StronglySorted_inv in Hl as [Hl Hall].
  destruct (key_ltb key k) eqn:E; cbn.
  - constructor; [by constructor|]. constructor; [done|]. eapply Forall_impl; [exact Hall|]. intros b Hb.
    by transitivity k.
  - constructor; [auto|]. apply Forall_forall. intros b Hb. apply list_elem_of_fmap in Hb as ([b' w'] & -> & Hb).
    apply insert_member_elem in Hb as [[= -> ->]|Hb].
    + destruct (key_total key k) as [?|[?|?]]; [unfold key_lt in *; congruence | done | done].
    + rewrite Forall_forall in Hall. apply Hall. apply list_elem_of_fmap. by exists (b', w').
Qed.

Lemma wf_insert key v l : key ∉ l.*1 -> wf_value v -> wf_members l -> wf_members (insert_member key v l).
Proof.
  intros Hk Hv [Hs Hl]. split; [by apply insert_member_ascending|]. rewrite Forall_forall in *.
  intros x [->|?]%insert_member_elem; [done | auto].
Qed.

Lemma wf_set key v l : wf_value v -> wf_members l -> wf_members (set_member key v l).
Proof. intros Hv [Hs Hl]. split; [by rewrite set_member_keys | by apply set_member_values]. Qed.

Lemma merge_wf incoming existing :
  wf_value incoming -> wf_value existing -> wf_value (merge_lsp_collision incoming existing).
Proof.
  revert existing. induction incoming as [| | | |items _|members IH] using Value_deep_ind; intros existing Hi He;
    destruct existing as [| | | |eitems|emembers]; cbn; try done.
  - inversion Hi; inversion He; subst. constructor. by apply Forall_app.
  - inversion Hi as [| | | | |? _ Hvals]; inversion He as [| | | | |? Hs He']; subst.
    assert (Hacc : wf_members emembers) by done. clear He Hs He' Hi. revert emembers Hacc.
    induction members as [|[k v] members IHm]; intros acc Hacc; [by constructor; apply Hacc|].
    apply Forall_cons in IH as [IHv IH]. apply Forall_cons in Hvals as [Hv Hvals]. apply IHm; [done|done|].
    destruct (get_member k acc) as [ev|] eqn:Eg.
    + apply wf_set; [|done]. apply IHv; [done|]. apply get_member_Some in Eg as (k' & Hin & _).
      destruct Hacc as [_ Hacc]. rewrite Forall_forall in Hacc. by apply (Hacc (k', ev)).
    + apply wf_insert; [by apply get_member_None | done | done].
Qed.

Lemma wf_add_entry key v l : wf_value v -> wf_members l -> wf_members (add_entry key v l).
Proof.
  intros Hv Hl. unfold add_entry. destruct (get_member key l) as [ev|] eqn:Eg.
  - apply wf_set; [|done]. apply merge_wf; [done|]. apply get_member_Some in Eg as (k' & Hin & _).
    destruct Hl as [_ Hl]. rewrite Forall_forall in Hl. by apply (Hl (k', ev)).
  - apply wf_insert; [by apply get_member_None | done | done].
Qed.

(** Note (well-formed messages).  Rewriting keeps messages well formed: however the
    rewritten keys collide, every object of the result has distinct, ordered keys. *)
Theorem rewritten_message_well_formed from to key v : wf_value (rewrite_lsp_json from to key v).
Proof.
  revert key. induction v as [| | |s|items IH|members IH] using Value_deep_ind; intros key; cbn; try constructor.
  - destruct (from_option is_lsp_uri_key false key); [constructor|].
    destruct (from_option is_lsp_path_key false key); constructor.
  - apply Forall_fmap. eapply Forall_impl; [exact IH|]. intros v Hv. apply Hv.
  - assert (Hacc : wf_members []) by (split; constructor). revert Hacc. generalize (@nil (bytes * Value)).
    induction IH as [|[k v] members Hv _ IHm]; intros acc Hacc; [apply Hacc|]. apply IHm, wf_add_entry; [apply Hv | done].
  - assert (Hacc : wf_members []) by (split; constructor). revert Hacc. generalize (@nil (bytes * Value)).
    induction IH as [|[k v] members Hv _ IHm]; intros acc Hacc; [apply Hacc|]. apply IHm, wf_add_entry; [apply Hv | done].
Qed.

(** Nothing in the value is a path or URI below [from] in a place that is rewritten. *)
Fixpoint untouched (from to : bytes) (key : option bytes) (v : Value) : bool :=
  match v with
  | VString text =>
      if from_option is_lsp_uri_key false key then bool_decide (rewrite_lsp_uri text from to = None)
      else if from_option is_lsp_path_key false key then bool_decide (rewrite_lsp_path text from to = None)
      else true
  | VArray items => forallb (untouched from to key) items
  | VObject members =>
      forallb (fun kv => bool_decide (rewrite_lsp_uri kv.1 from to = None) && untouched from to (Some kv.1) kv.2) members
  | _ => true
  end.

Lemma add_last key v l : Forall (fun k => key_lt k key) l.*1 -> add_entry key v l = l ++ [(key, v)].
Proof.
  intros Hl. unfold add_entry. assert (Hg : get_member key l = None).
  { unfold get_member. apply fmap_None. destruct (List.find _ l) as [[k w]|] eqn:E; [|done].
    apply List.find_some in E as [Hin Hk%bytes_eqb_true]. cbn in Hk. subst k. exfalso.
    rewrite Forall_forall in Hl. apply (key_lt_irrefl key). apply Hl. apply list_elem_of_fmap. exists (key, w).
    split; [done | by apply list_elem_of_In]. }
  rewrite Hg. clear Hg. induction l as [|[k w] l IH]; cbn; [done|]. cbn in Hl. apply Forall_cons in Hl as [Hk Hl].
  destruct (key_ltb key k) eqn:E; [|by rewrite IH].
  exfalso. apply (key_lt_irrefl key). by transitivity k.
Qed.

Lemma ascending_app_lt l key rest : ascending (l ++ key :: rest) -> Forall (fun k => key_lt k key) l.
Proof.
  induction l as [|a l IH]; intros H; [constructor|]. cbn in H. apply StronglySorted_inv in H as [H Hall].
  constructor; [|auto]. rewrite Forall_forall in Hall. apply Hall. apply elem_of_app. right. apply list_elem_of_here.
Qed.

(** Note (other messages pass through).  A message in which no rewritten place holds a path
    or URI below the root is forwarded unchanged. *)
Theorem untouched_message_unchanged from to key v :
  wf_value v -> untouched from to key v = true -> rewrite_lsp_json from to key v = v.
Proof.
  revert key. induction v as [| | |s|items IH|members IH] using Value_deep_ind; intros key Hwf Hu; cbn in *; try done.
  - destruct (from_option is_lsp_uri_key false key); [by to_prop; rewrite Hu|].
    destruct (from_option is_lsp_path_key false key); [by to_prop; rewrite Hu | done].
  - f_equal. inversion Hwf as [| | | |? Hitems|]; subst. clear Hwf. to_prop.
    induction IH as [|v items Hv _ IHi]; [done|]. apply Forall_cons in Hitems as [? ?]. apply Forall_cons in Hu as [? ?].
    rewrite fmap_cons, Hv, IHi by done. done.
  - f_equal. inversion Hwf as [| | | | |? Hs Hvals]; subst. clear Hwf. apply forallb_Forall in Hu.
    assert (Hgo : forall acc, ascending (acc ++ members).*1 ->
      (fix go (l acc : list (bytes * Value)) {struct l} := match l with
        | [] => acc
        | (entry_key, entry_value) :: l =>
            go l (add_entry (rewrite_lsp_object_key entry_key from to) (rewrite_lsp_json from to (Some entry_key) entry_value) acc)
        end) members acc = acc ++ members).
    { clear Hs. induction IH as [|[k v] members Hv _ IHm]; intros acc Hs; [by rewrite app_nil_r|].
      apply Forall_cons in Hu as [Hk Hu]. apply Forall_cons in Hvals as [Hwv Hvals]. cbn in Hk, Hwv, Hv. to_prop.
      rewrite Hv by done. unfold rewrite_lsp_object_key.
      assert (rewrite_lsp_uri k from to = None) as -> by done. cbn [from_option id].
      rewrite fmap_app in Hs. rewrite add_last by (by eapply ascending_app_lt).
      rewrite IHm; [by rewrite <- app_assoc|done|done|]. by rewrite <- app_assoc, fmap_app. }
    by rewrite Hgo.
Qed.

Lemma untouched_message_unchanged_witness :
  rewrite_lsp_json (B"/remote/repo") (B"/local/mirror") None
    (VObject [(B"id", VNumber (JInt 1)); (B"uri", VString (B"file:///elsewhere/x.rs"))]) =
    VObject [(B"id", VNumber (JInt 1)); (B"uri", VString (B"file:///elsewhere/x.rs"))].
Proof.
  apply untouched_message_unchanged; [|by vm_compute].
  constructor; [repeat constructor|]. by repeat constructor.
Defined.

(** ** File URIs under POSIX roots *)

(** Visible ASCII never starts or continues a white space character. *)
Definition visible (b : byte) : bool := in_range 33 126 b.

Lemma has_whitespace_visible l r :
  Forall (fun b => visible b = true) l -> has_whitespace (l ++ r) = has_whitespace r.
Proof.
  induction 1 as [|b l Hb _ IH]; [done|]. cbn [app has_whitespace]. rewrite IH.
  destruct b; try (by vm_compute in Hb); reflexivity.
Qed.

Lemma percent_encode_byte_visible b : Forall (fun c => visible c = true) (percent_encode_byte b).
Proof. apply forallb_Forall. by destruct b. Qed.

Lemma percent_encode_visible path : Forall (fun c => visible c = true) (percent_encode_uri_path path).
Proof.
  unfold percent_encode_uri_path. induction path as [|b path IH]; [constructor|]. rewrite bind_cons.
  apply Forall_app. split; [apply percent_encode_byte_visible | done].
Qed.

Lemma percent_encode_last b : byte_eqb b "/" = false -> ends_with_byte (byte_eqb "/") (percent_encode_byte b) = false.
Proof. by destruct b. Qed.

Lemma ends_with_byte_app p l1 l2 : l2 <> [] -> ends_with_byte p (l1 ++ l2) = ends_with_byte p l2.
Proof. intros Hl. unfold ends_with_byte. rewrite last_app. by destruct l2 as [|b l2] using rev_ind; [done|]; rewrite last_snoc. Qed.

Lemma percent_encode_byte_nonempty b : percent_encode_byte b <> [].
Proof. unfold percent_encode_byte. by destruct (is_unreserved b). Qed.

(** The encoded URI of a root. *)
Definition root_uri (root : bytes) : bytes := B"file://" ++ percent_encode_uri_path root.

Lemma root_uri_end root : posix_root root -> ends_with_byte (byte_eqb "/") (root_uri root) = false.
Proof.
  intros (_ & init & b & -> & Hb & _). unfold root_uri, percent_encode_uri_path. rewrite bind_app, bind_singleton, app_assoc.
  rewrite ends_with_byte_app by apply percent_encode_byte_nonempty. by apply percent_encode_last.
Qed.

Lemma uri_prefix_loop_refl fuel i drive l : uri_prefix_loop fuel i drive l l = true.
Proof.
  revert i. induction fuel as [|fuel IH]; intros i; cbn [uri_prefix_loop]; [done|].
  destruct (l !! i) as [p|] eqn:E; [|done]. cbv zeta. destruct (byte_eqb p "%") eqn:Ep.
  - rewrite !bool_decide_eq_true_2 by done. cbn [from_option id]. rewrite Ep. cbn. apply IH.
  - cbn [from_option id]. unfold eq_ignore_ascii_case. rewrite !byte_eqb_refl.
    destruct (_ || _); cbn; apply IH.
Qed.

Lemma uri_prefix_eq_refl l style : uri_prefix_eq l l style = true.
Proof. unfold uri_prefix_eq. rewrite Nat.eqb_refl. cbn. apply uri_prefix_loop_refl. Qed.

Lemma strip_root_uri root rest :
  strip_uri_prefix_with_boundary (root_uri root ++ "/"%byte :: rest) (root_uri root) Posix = Some ("/"%byte :: rest).
Proof.
  unfold strip_uri_prefix_with_boundary, get_prefix.
  rewrite (proj2 (Nat.leb_le _ _)) by (rewrite length_app; lia). cbn [mbind option_bind].
  rewrite take_app_length, uri_prefix_eq_refl, drop_app_length. cbn [negb]. cbv zeta.
  change (starts_with_byte is_uri_boundary ("/"%byte :: rest)) with true. by rewrite orb_true_r.
Qed.

(** The encoded pair is tried first. *)
Lemma root_uri_pairs from to :
  posix_root from -> posix_root to ->
  exists more, path_to_file_uri_prefix_pairs from to = (root_uri from, root_uri to) :: more.
Proof.
  intros Hf Ht. unfold path_to_file_uri_prefix_pairs, file_uri_path.
  rewrite (posix_root_style _ Hf), (posix_root_style _ Ht). cbv zeta.
  case_bool_decide as E; [|by eexists]. rewrite <- E. by eexists.
Qed.

Lemma rewrite_root_uri from to rest :
  posix_root from -> posix_root to -> has_whitespace rest = false ->
  uri_suffix_has_no_dot_segments ("/"%byte :: rest) Posix = true ->
  rewrite_lsp_uri (root_uri from ++ "/"%byte :: rest) from to = Some (root_uri to ++ "/"%byte :: rest).
Proof.
  intros Hf Ht Hw Hd. unfold rewrite_lsp_uri.
  assert (Hvis : has_whitespace (root_uri from ++ "/"%byte :: rest) = false).
  { unfold root_uri. rewrite cons_middle, app_assoc. rewrite has_whitespace_visible; [done|].
    repeat (apply Forall_app; split); [by apply forallb_Forall|apply percent_encode_visible|by apply forallb_Forall]. }
  rewrite Hvis. destruct (root_uri_pairs from to Hf Ht) as [more ->]. cbn [rewrite_with_pairs].
  rewrite (posix_root_style _ Hf), (posix_root_style _ Ht), strip_root_uri.
  change (traversal_path_style Posix Posix) with Posix. rewrite Hd. cbn [negb]. cbv zeta.
  by rewrite (root_uri_end _ Hf).
Qed.

(** Note (URI round trip).  The file URI of a path below a POSIX root, whatever bytes the
    roots contain, is rewritten to the URI of the same relative path below the other root,
    and back to itself; the relative part may carry a query or fragment but no white space
    and, once decoded, no dot segment. *)
Theorem rewrite_uri_roundtrip from to rest :
  posix_root from -> posix_root to -> has_whitespace rest = false ->
  uri_suffix_has_no_dot_segments ("/"%byte :: rest) Posix = true ->
  rewrite_lsp_uri (root_uri from ++ "/"%byte :: rest) from to = Some (root_uri to ++ "/"%byte :: rest) /\
  rewrite_lsp_uri (root_uri to ++ "/"%byte :: rest) to from = Some (root_uri from ++ "/"%byte :: rest).
Proof. intros. split; by apply rewrite_root_uri. Qed.

Lemma rewrite_uri_roundtrip_witness :
  rewrite_lsp_uri (root_uri (B"/srv/my repo") ++ "/"%byte :: B"src/a%20b.rs#L3") (B"/srv/my repo") (B"/home/u/m") =
    Some (root_uri (B"/home/u/m") ++ "/"%byte :: B"src/a%20b.rs#L3").
Proof.
  apply (rewrite_uri_roundtrip (B"/srv/my repo") (B"/home/u/m") (B"src/a%20b.rs#L3"));
    [by apply demo_root | by apply demo_root | by vm_compute | by vm_compute].
Defined.

(** Note (no traversal through URIs).  A rewritten URI is the target root's URI followed by
    the rest of the original, and the path part of that rest, strictly decoded, has no
    segment [.] or [..], also when the dots or slashes were percent-encoded. *)
Theorem rewritten_uri_has_no_traversal text from to out :
  rewrite_lsp_uri text from to = Some out ->
  exists from_uri to_uri separator suffix decoded,
    (from_uri, to_uri) ∈ path_to_file_uri_prefix_pairs from to /\
    drop (length from_uri) text = suffix /\ out = to_uri ++ separator ++ suffix /\
    strict_percent_decode (take_until is_uri_path_end suffix) = Some decoded /\
    Forall (fun seg => seg <> B"." /\ seg <> B"..")
      (split_by (uri_path_separator (traversal_path_style (path_style from) (path_style to))) decoded).
Proof.
  unfold rewrite_lsp_uri. destruct (has_whitespace text); [done|].
  induction (path_to_file_uri_prefix_pairs from to) as [|[fu tu] pairs IH]; [done|]. cbn [rewrite_with_pairs].
  destruct (strip_uri_prefix_with_boundary text fu (path_style from)) as [suffix|] eqn:Es.
  - unfold uri_suffix_has_no_dot_segments. destruct (strict_percent_decode _) as [decoded|] eqn:Ed; [|done].
    destruct (existsb is_dot _) eqn:Edot; [done|]. cbn [negb]. cbv zeta. intros [= <-].
    exists fu, tu. eexists _, suffix, decoded. split; [apply list_elem_of_here|]. split; [|split; [done|split; [done|]]].
    + unfold strip_uri_prefix_with_boundary in Es. apply bind_Some in Es as (c & _ & Es).
      destruct (uri_prefix_eq c fu (path_style from)); [|done]. cbn in Es. by destruct (_ || _) in Es; [injection Es|].
    + apply existsb_false in Edot. eapply Forall_impl; [exact Edot|]. intros seg Hseg. unfold is_dot in Hseg. by to_prop.
  - intros Hr. destruct (IH Hr) as (fu' & tu' & sep & suf & dec & Hin & ?). exists fu', tu', sep, suf, dec.
    split; [by apply list_elem_of_further | done].
Qed.

Lemma rewritten_uri_has_no_traversal_witness :
  exists from_uri to_uri separator suffix decoded,
    (from_uri, to_uri) ∈ path_to_file_uri_prefix_pairs (B"/remote/repo") (B"C:\mirror") /\
    drop (length from_uri) (B"file:///remote/repo/a.rs") = suffix /\
    B"file:///C:/mirror/a.rs" = to_uri ++ separator ++ suffix /\
    strict_percent_decode (take_until is_uri_path_end suffix) = Some decoded /\
    Forall (fun seg => seg <> B"." /\ seg <> B"..")
      (split_by (uri_path_separator (traversal_path_style (path_style (B"/remote/repo")) (path_style (B"C:\mirror")))) decoded).
Proof.
  apply (rewritten_uri_has_no_traversal (B"file:///remote/repo/a.rs") (B"/remote/repo") (B"C:\mirror")). by vm_compute.
Defined.
