(* ===== verification/LspProxy.v ===== *)
(** * Launching and framing of language servers (crates/nrm-sidecar/src/main.rs)

    The quoting of remote shell commands, and the Content-Length frames the proxy
    reads from one side and writes to the other. *)
From S2P Require Import Prelude Protocol Json LspRewrite.

(** ** Shell quoting *)

Definition shell_quote (value : bytes) : bytes :=
  if bytes_eqb value [] then B"''"
  else B"'" ++ (value ≫= fun ch => if byte_eqb ch "'" then B"'\''" else [ch]) ++ B"'".

(** [parts.join(" ")] *)
Definition join_words (parts : list bytes) : bytes := join_with " " parts.

Definition posix_lsp_remote_command (remote_root : bytes) (command : list bytes) : bytes :=
  let script := B"cd " ++ [x22] ++ B"$1" ++ [x22] ++ B" && shift && exec " ++ [x22] ++ B"$@" ++ [x22] in
  join_words ([shell_quote (B"sh"); shell_quote (B"-lc"); shell_quote script; shell_quote (B"nrm-lsp-proxy");
               shell_quote remote_root] ++ (shell_quote <$> command)).

(** The words a POSIX shell makes of a command line, as far as quoting goes: [quoted]
    is inside single quotes, [word] is the word so far.  Any other character that is
    special to the shell outside quotes is refused, so that a result means that nothing
    was expanded or executed. *)
Definition is_shell_plain (b : byte) : bool :=
  is_ascii_alphanumeric b || byte_eqb b "-" || byte_eqb b "_" || byte_eqb b "." || byte_eqb b "/".
Fixpoint shell_words (quoted : bool) (word : option bytes) (s : bytes) : option (list bytes) :=
  match s with
  | [] => if quoted then None else Some (option_list word)
  | b :: rest =>
      if quoted then
        if byte_eqb b "'" then shell_words false word rest
        else shell_words true (Some (from_option id [] word ++ [b])) rest
      else if byte_eqb b "'" then shell_words true (Some (from_option id [] word)) rest
      else if byte_eqb b " " then
        words ← shell_words false None rest; Some (option_list word ++ words)
      else if byte_eqb b "\" then
        match rest with
        | c :: rest => shell_words false (Some (from_option id [] word ++ [c])) rest
        | [] => None
        end
      else if is_shell_plain b then shell_words false (Some (from_option id [] word ++ [b])) rest
      else None
  end.

Lemma shell_words_quoted body word rest :
  shell_words true (Some word) ((body ≫= fun ch => if byte_eqb ch "'" then B"'\''" else [ch]) ++ "'"%byte :: rest) =
  shell_words false (Some (word ++ body)) rest.
Proof.
  revert word. induction body as [|ch body IH]; intros word.
  - by rewrite app_nil_r.
  - rewrite bind_cons, <- app_assoc. destruct (byte_eqb ch "'") eqn:E.
    + apply byte_eqb_true in E as ->. change (B"'\''") with ["'"; "\"; "'"; "'"]%byte.
      cbn [app shell_words]. change (byte_eqb "'" "'") with true. change (byte_eqb "\" "'") with false.
      change (byte_eqb "\" " ") with false. change (byte_eqb "\" "\") with true. cbn [from_option id].
      rewrite IH. by rewrite <- app_assoc.
    + cbn [app shell_words]. rewrite E. cbn [from_option id]. rewrite IH. by rewrite <- app_assoc.
Qed.

Lemma shell_words_quote value rest :
  shell_words false None (shell_quote value ++ rest) = shell_words false (Some value) rest.
Proof.
  unfold shell_quote. destruct (bytes_eqb value []) eqn:E.
  - apply bytes_eqb_true in E as ->. reflexivity.
  - rewrite <- !app_assoc. change (B"'") with ["'"%byte]. cbn [app shell_words]. cbn [from_option id].
    rewrite byte_eqb_refl. by rewrite (shell_words_quoted value []).
Qed.

Lemma shell_words_join args : args <> [] -> shell_words false None (join_words (shell_quote <$> args)) = Some args.
Proof.
  unfold join_words. induction args as [|a [|b args] IH]; intros Hne; [done| |].
  - cbn [fmap list_fmap join_with]. rewrite <- (app_nil_r (shell_quote a)), shell_words_quote. reflexivity.
  - rewrite !fmap_cons in *. change (join_with " " (shell_quote a :: shell_quote b :: (shell_quote <$> args))) with
      (shell_quote a ++ " "%byte :: join_with " " (shell_quote b :: (shell_quote <$> args))).
    rewrite shell_words_quote. cbn [shell_words]. 
    change (byte_eqb " " "'") with false. change (byte_eqb " " " ") with true. cbn iota.
    rewrite IH by done. reflexivity.
Qed.

(** Note (no shell injection).  The shell on the remote host splits the launch command into
    exactly the intended words: the launcher, its script, the root and the user's command,
    whatever quotes, blanks, dollars, backslashes or newlines they contain. *)
Theorem lsp_command_words remote_root command :
  exists launcher, length launcher = 4%nat /\
    shell_words false None (posix_lsp_remote_command remote_root command) =
      Some (launcher ++ remote_root :: command).
Proof.
  unfold posix_lsp_remote_command. cbv zeta.
  set (script := B"cd " ++ _). exists [B"sh"; B"-lc"; script; B"nrm-lsp-proxy"]. split; [done|].
  rewrite <- (shell_words_join ([B"sh"; B"-lc"; script; B"nrm-lsp-proxy"] ++ remote_root :: command)) by done.
  by rewrite fmap_app.
Qed.

(** ** Content-Length frames *)

(** [str::trim], with the white space of Unicode. *)
Definition whitespace_length (s : bytes) : nat :=
  match s with
  | [] => 0
  | b :: rest =>
      if in_range 9 13 b || byte_eqb b x20 then 1
      else match b, rest with
           | xc2, x85 :: _ | xc2, xa0 :: _ => 2
           | xe1, x9a :: x80 :: _ => 3
           | xe2, x80 :: c :: _ => if in_range 128 138 c || byte_eqb c xa8 || byte_eqb c xa9 || byte_eqb c xaf then 3 else 0
           | xe2, x81 :: x9f :: _ => 3
           | xe3, x80 :: x80 :: _ => 3
           | _, _ => 0
           end
  end%nat.
Definition reversed_whitespace_length (s : bytes) : nat :=
  match s with
  | [] => 0
  | b :: rest =>
      if in_range 9 13 b || byte_eqb b x20 then 1
      else match b, rest with
           | x85, xc2 :: _ | xa0, xc2 :: _ => 2
           | x80, x9a :: xe1 :: _ => 3
           | c, x80 :: xe2 :: _ => if in_range 128 138 c || byte_eqb c xa8 || byte_eqb c xa9 || byte_eqb c xaf then 3 else 0
           | x9f, x81 :: xe2 :: _ => 3
           | x80, x80 :: xe3 :: _ => 3
           | _, _ => 0
           end
  end%nat.
Fixpoint strip_whitespace (measure : bytes -> nat) (fuel : nat) (s : bytes) : bytes :=
  match fuel, measure s with
  | S fuel, S n => strip_whitespace measure fuel (drop (S n) s)
  | _, _ => s
  end.
Definition trim (s : bytes) : bytes :=
  let s := strip_whitespace whitespace_length (length s) s in
  reverse (strip_whitespace reversed_whitespace_length (length s) (reverse s)).

Inductive lsp_error :=
| LspIo (e : io_error) | LspInvalidUtf8 | LspBadLength | LspMissingLength.

Definition read_line (r : reader) : result lsp_error bytes * reader :=
  let '(line, rest) := split_line (rd_data r) in
  let r' := {| rd_data := rest; rd_end := rd_end r |} in
  match rest, ends_with_byte (byte_eqb x0a) line, rd_end r with
  | [], false, Some e => (Err (LspIo e), r')
  | _, _, _ => if valid_utf8 line then (Ok line, r') else (Err LspInvalidUtf8, r')
  end.

(** The header loop: each line takes at least one byte, so the bytes of the input and
    one more step are enough.  [Ok None] is a clean end of input. *)
Fixpoint read_headers (fuel : nat) (content_len : option Z) (r : reader) :
    result lsp_error (option (option Z)) * reader :=
  match fuel with
  | O => (Ok None, r)
  | S fuel =>
      match read_line r with
      | (Err e, r) => (Err e, r)
      | (Ok [], r) => (Ok None, r)
      | (Ok line, r) =>
          let trimmed := trim_end is_line_end line in
          if bytes_eqb trimmed [] then (Ok (Some content_len), r)
          else match strip_prefix (B"Content-Length:") trimmed with
               | Some value =>
                   match parse_usize (trim value) with
                   | Some n => read_headers fuel (Some n) r
                   | None => (Err LspBadLength, r)
                   end
               | None => read_headers fuel content_len r
               end
      end
  end.

Definition read_lsp_message (r : reader) : result lsp_error (option bytes) * reader :=
  match read_headers (S (length (rd_data r))) None r with
  | (Err e, r) => (Err e, r)
  | (Ok None, r) => (Ok None, r)
  | (Ok (Some None), r) => (Err LspMissingLength, r)
  | (Ok (Some (Some len)), r) =>
      match read_exact (Z.to_nat len) r with
      | (Err e, r) => (Err (LspIo e), r)
      | (Ok body, r) => (Ok (Some body), r)
      end
  end.

Definition lsp_frame (body : bytes) : bytes :=
  B"Content-Length: " ++ to_decimal (zlen body) ++ [x0d; x0a; x0d; x0a] ++ body.
Definition write_lsp_message (w : writer) (body : bytes) : result io_error unit * writer :=
  let '(r1, w) := write_all (B"Content-Length: " ++ to_decimal (zlen body) ++ [x0d; x0a; x0d; x0a]) w in
  match r1 with
  | Err e => (Err e, w)
  | Ok _ =>
      let '(r2, w) := write_all body w in
      match r2 with
      | Err e => (Err e, w)
      | Ok _ => (flush w, w)
      end
  end.

Inductive proxy_error (E : Type) :=
| ProxyRead (e : lsp_error) | ProxyRewrite (e : E) | ProxyWrite (e : io_error).
Arguments ProxyRead {E} e.
Arguments ProxyRewrite {E} e.
Arguments ProxyWrite {E} e.

Section Proxy.
Context {E : Type} (from_slice : bytes -> result E Value) (to_vec : Value -> result E bytes).

(** One direction of [run_lsp_proxy]: every message is rewritten and passed on until the
    input ends.  Each message takes at least one byte of the input, so its length and one
    more step are enough. *)
Fixpoint relay_loop (fuel : nat) (from_prefix to_prefix : bytes) (r : reader) (w : writer) :
    result (proxy_error E) unit * writer :=
  match fuel with
  | O => (Ok (), w)
  | S fuel =>
      match read_lsp_message r with
      | (Err e, _) => (Err (ProxyRead e), w)
      | (Ok None, _) => (Ok (), w)
      | (Ok (Some body), r) =>
          match rewrite_lsp_body from_slice to_vec body from_prefix to_prefix with
          | Err e => (Err (ProxyRewrite e), w)
          | Ok rewritten =>
              match write_lsp_message w rewritten with
              | (Err e, w) => (Err (ProxyWrite e), w)
              | (Ok _, w) => relay_loop fuel from_prefix to_prefix r w
              end
          end
      end
  end.
Definition relay (from_prefix to_prefix : bytes) (r : reader) (w : writer) : result (proxy_error E) unit * writer :=
  relay_loop (S (length (rd_data r))) from_prefix to_prefix r w.
End Proxy.

(** ** Lengths in decimal *)

Lemma digit_byte d : 0 <= d < 10 -> is_ascii_digit (byte_of (48 + d)) = true /\ u8 (byte_of (48 + d)) = 48 + d.
Proof.
  intros Hd. assert (Hu : u8 (byte_of (48 + d)) = 48 + d) by (rewrite u8_byte_of; apply Z.mod_small; lia).
  split; [|done]. unfold is_ascii_digit, in_range. rewrite Hu. lia.
Qed.

Lemma decimal_loop_spec fuel n acc :
  0 <= n <= u64_max -> n < 10 ^ Z.of_nat (S fuel) ->
  exists ds, decimal_loop (S fuel) n acc = ds ++ acc /\ ds <> [] /\ Forall (fun b => is_ascii_digit b = true) ds /\
    forall rest, parse_digits 0 (ds ++ rest) = parse_digits n rest.
Proof.
  revert n acc. induction fuel as [|fuel IH]; intros n acc Hn Hf.
  all: pose proof (Z.mod_pos_bound n 10 eq_refl) as Hm; pose proof (Z.div_mod n 10 ltac:(lia)) as Hdm.
  all: destruct (digit_byte _ Hm) as [Hd Hu].
  all: assert (Hstep : forall k rest, k * 10 + n mod 10 = n -> parse_digits k (byte_of (48 + n mod 10) :: rest) = parse_digits n rest)
    by (intros k rest Hk; cbn [parse_digits]; rewrite Hd, Hu; cbv zeta;
        replace (k * 10 + (48 + n mod 10 - 48)) with n by lia; by replace (n <=? u64_max) with true by lia).
  - change (10 ^ Z.of_nat 1) with 10 in Hf. cbn [decimal_loop]. cbv zeta.
    exists [byte_of (48 + n mod 10)]. split; [by destruct (_ =? _)|]. split; [done|]. split; [by constructor|].
    intros rest. apply Hstep. rewrite Z.mod_small; lia.
  - remember (S fuel) as f. cbn [decimal_loop]. cbv zeta. destruct (Z.eqb_spec (n / 10) 0) as [Hz|Hz].
    + exists [byte_of (48 + n mod 10)]. split; [done|]. split; [done|]. split; [by constructor|].
      intros rest. apply Hstep. lia.
    + destruct (IH (n / 10) (byte_of (48 + n mod 10) :: acc)) as (ds & -> & Hne & Hall & Hp).
      { split; [lia|]. lia. }
      { rewrite Nat2Z.inj_succ, Z.pow_succ_r in Hf by lia. lia. }
      exists (ds ++ [byte_of (48 + n mod 10)]). rewrite <- app_assoc. split; [done|].
      split; [by destruct ds|]. split; [by apply Forall_app; split; [|constructor]|].
      intros rest. rewrite <- app_assoc, Hp. apply Hstep. lia.
Qed.

Abbreviation digits ds := (Forall (fun b => is_ascii_digit b = true) ds).

Lemma to_decimal_spec n : 0 <= n <= u64_max ->
  to_decimal n <> [] /\ digits (to_decimal n) /\ parse_digits 0 (to_decimal n) = Some n.
Proof.
  intros Hn. destruct (decimal_loop_spec 19 n [] Hn) as (ds & Heq & Hne & Hall & Hp).
  { unfold u64_max in Hn. change (10 ^ Z.of_nat 20) with 100000000000000000000. lia. }
  unfold to_decimal. rewrite Heq, app_nil_r. repeat split; [done..|]. specialize (Hp []). by rewrite app_nil_r in Hp.
Qed.

(** A digit is neither a sign, nor white space, nor a line end. *)
Lemma digit_range b : is_ascii_digit b = true -> 48 <= u8 b <= 57.
Proof. unfold is_ascii_digit, in_range. lia. Qed.

Lemma digit_plain b : is_ascii_digit b = true ->
  byte_eqb b "+" = false /\ byte_eqb b x0a = false /\ is_line_end b = false /\ (u8 b <=? 127) = true.
Proof. destruct b; try discriminate; intros _; repeat split; reflexivity. Qed.

Lemma digit_not_space b rest : is_ascii_digit b = true ->
  whitespace_length (b :: rest) = 0%nat /\ reversed_whitespace_length (b :: rest) = 0%nat.
Proof.
  destruct b; try discriminate; intros _; split; try reflexivity;
    unfold reversed_whitespace_length; cbn -[in_range byte_eqb]; repeat case_match; (reflexivity || discriminate).
Qed.

Lemma strip_whitespace_none measure fuel s : measure s = 0%nat -> strip_whitespace measure fuel s = s.
Proof. destruct fuel; cbn; [done|]. by intros ->. Qed.

Lemma parse_decimal_header n : 0 <= n <= u64_max -> parse_usize (trim (" "%byte :: to_decimal n)) = Some n.
Proof.
  intros Hn. destruct (to_decimal_spec n Hn) as (Hne & Hall & Hp).
  assert (Htrim : trim (" "%byte :: to_decimal n) = to_decimal n).
  { unfold trim. change (strip_whitespace whitespace_length (length (" "%byte :: to_decimal n)) (" "%byte :: to_decimal n))
      with (strip_whitespace whitespace_length (length (to_decimal n)) (to_decimal n)).
    destruct (to_decimal n) as [|b ds] eqn:Eds; [done|].
    rewrite (strip_whitespace_none whitespace_length) by (apply digit_not_space; by inversion Hall).
    rewrite strip_whitespace_none, reverse_involutive; [done|].
    destruct (reverse (b :: ds)) as [|c cs] eqn:Er; [done|]. apply digit_not_space.
    rewrite <- (reverse_involutive (b :: ds)), Er, reverse_cons in Hall.
    apply Forall_app in Hall as [_ Hc]. by inversion Hc. }
  rewrite Htrim. unfold parse_usize. destruct (to_decimal n) as [|b ds] eqn:Eds; [done|].
  destruct (digit_plain b) as [-> _]; [by inversion Hall|]. exact Hp.
Qed.

(** ** Header lines *)

Lemma read_line_ascii l rest e :
  Forall (fun b => byte_eqb b x0a = false /\ (u8 b <=? 127) = true) l ->
  read_line {| rd_data := l ++ x0a :: rest; rd_end := e |} = (Ok (l ++ [x0a]), {| rd_data := rest; rd_end := e |}).
Proof.
  intros Hl. unfold read_line. cbn [rd_data rd_end].
  rewrite split_line_app by (eapply Forall_impl; [exact Hl | naive_solver]).
  rewrite valid_utf8_ascii.
  - unfold ends_with_byte. rewrite last_snoc. change (byte_eqb x0a x0a) with true. by destruct rest.
  - apply Forall_app; split; [eapply Forall_impl; [exact Hl | naive_solver] | by constructor].
Qed.

Lemma trim_line_end l : trim_end is_line_end (l ++ [x0d; x0a]) = trim_end is_line_end l.
Proof. unfold trim_end. by rewrite reverse_app. Qed.

Lemma header_bytes n : 0 <= n <= u64_max ->
  Forall (fun b => byte_eqb b x0a = false /\ (u8 b <=? 127) = true) (B"Content-Length: " ++ to_decimal n ++ [x0d]).
Proof.
  intros Hn. destruct (to_decimal_spec n Hn) as (_ & Hall & _). rewrite !Forall_app. repeat split.
  - repeat constructor.
  - eapply Forall_impl; [exact Hall|]. intros b Hb. by destruct (digit_plain b Hb) as (_ & ? & _ & ?).
  - repeat constructor.
Qed.

Lemma trim_header n : 0 <= n <= u64_max ->
  trim_end is_line_end (B"Content-Length: " ++ to_decimal n ++ [x0d; x0a]) = B"Content-Length: " ++ to_decimal n.
Proof.
  intros Hn. destruct (to_decimal_spec n Hn) as (Hne & Hall & _). rewrite app_assoc, trim_line_end.
  destruct (exists_last Hne) as (ds & d & Hds). rewrite Hds in *. rewrite app_assoc. apply trim_end_clean.
  apply digit_plain. apply Forall_app in Hall as [_ Hd]. by inversion Hd.
Qed.

Lemma read_headers_frame fuel body rest e :
  zlen body <= u64_max ->
  read_headers (S (S fuel)) None {| rd_data := lsp_frame body ++ rest; rd_end := e |} =
    (Ok (Some (Some (zlen body))), {| rd_data := body ++ rest; rd_end := e |}).
Proof.
  intros Hb. pose proof (zlen_nonneg body) as H0.
  replace (lsp_frame body ++ rest) with
    ((B"Content-Length: " ++ to_decimal (zlen body) ++ [x0d]) ++ x0a :: [x0d] ++ x0a :: body ++ rest)
    by (unfold lsp_frame; by rewrite <- !app_assoc).
  remember (S fuel) as f eqn:Ef. cbn [read_headers]. rewrite read_line_ascii by (by apply header_bytes).
  rewrite <- !app_assoc. cbn [app]. change (B"Content-Length: " ++ ?x) with ("C"%byte :: B"ontent-Length: " ++ x) at 1.
  cbn iota. change ("C"%byte :: B"ontent-Length: " ++ ?x) with (B"Content-Length: " ++ x).
  rewrite trim_header by lia.
  change (bytes_eqb (B"Content-Length: " ++ to_decimal (zlen body)) []) with false. cbn iota.
  replace (strip_prefix (B"Content-Length:") (B"Content-Length: " ++ to_decimal (zlen body)))
    with (Some (" "%byte :: to_decimal (zlen body))) by (symmetry; by apply strip_prefix_Some).
  rewrite parse_decimal_header by lia. subst f. cbn [read_headers].
  change (x0d :: x0a :: body ++ rest) with ([x0d] ++ x0a :: body ++ rest).
  rewrite read_line_ascii by (repeat constructor). reflexivity.
Qed.

Lemma lsp_frame_length body : exists n, length (lsp_frame body) = S n.
Proof. unfold lsp_frame. change (B"Content-Length: ") with ("C"%byte :: B"ontent-Length: "). by eexists. Qed.

Lemma read_lsp_frame body rest e :
  zlen body <= u64_max ->
  read_lsp_message {| rd_data := lsp_frame body ++ rest; rd_end := e |} = (Ok (Some body), {| rd_data := rest; rd_end := e |}).
Proof.
  intros Hb. unfold read_lsp_message. cbn [rd_data]. destruct (lsp_frame_length body) as [n Hn].
  rewrite length_app, Hn. cbn [Nat.add]. rewrite read_headers_frame by done.
  by rewrite zlen_to_nat, read_exact_app.
Qed.

Lemma write_lsp_message_Ok w body u w' :
  write_lsp_message w body = (Ok u, w') -> wr_out w' = wr_out w ++ lsp_frame body.
Proof.
  unfold write_lsp_message, lsp_frame.
  destruct (write_all _ w) as [[[]|] w1] eqn:E1; [|done].
  destruct (write_all body w1) as [[[]|] w2] eqn:E2; [|done].
  intros [= _ <-]. apply write_all_Ok in E1, E2. rewrite E2, E1. by rewrite <- !app_assoc.
Qed.

(** Note (message framing).  A message the proxy wrote is read back as it was, whatever
    its bytes and whatever follows it, and exactly its bytes are consumed. *)
Theorem lsp_message_roundtrip w body u w' :
  zlen body <= u64_max -> write_lsp_message w body = (Ok u, w') ->
  exists out, wr_out w' = wr_out w ++ out /\
    forall rest e, read_lsp_message {| rd_data := out ++ rest; rd_end := e |} =
      (Ok (Some body), {| rd_data := rest; rd_end := e |}).
Proof.
  intros Hb Hw. exists (lsp_frame body). split; [by eapply write_lsp_message_Ok|].
  intros rest e. by apply read_lsp_frame.
Qed.

(** The bytes of a sequence of messages. *)
Definition lsp_stream (bodies : list bytes) : bytes := concat (lsp_frame <$> bodies).

(** A writer that never refuses anything. *)
Definition reliable (w : writer) : Prop := wr_room w = None /\ wr_flush w = true.

Lemma write_lsp_message_reliable w body :
  reliable w -> exists w', write_lsp_message w body = (Ok (), w') /\ reliable w' /\ wr_out w' = wr_out w ++ lsp_frame body.
Proof.
  destruct w as [out room fl]. intros [Hr Hf]. cbn in Hr, Hf. subst room fl. eexists. split; [reflexivity|].
  split; [done|]. cbn [wr_out]. unfold lsp_frame. by rewrite <- !app_assoc.
Qed.

Section RelayLemmas.
Context {E : Type} (from_slice : bytes -> result E Value) (to_vec : Value -> result E bytes).
Context (from_prefix to_prefix : bytes).
Abbreviation rewritten body out := (rewrite_lsp_body from_slice to_vec body from_prefix to_prefix = Ok out).

Lemma relay_loop_prefix fuel bodies outs rest e w :
  Forall (fun b => zlen b <= u64_max) bodies -> Forall2 (fun b o => rewritten b o) bodies outs -> reliable w ->
  exists w', reliable w' /\ wr_out w' = wr_out w ++ lsp_stream outs /\
    relay_loop from_slice to_vec (length bodies + fuel) from_prefix to_prefix
      {| rd_data := lsp_stream bodies ++ rest; rd_end := e |} w =
    relay_loop from_slice to_vec fuel from_prefix to_prefix {| rd_data := rest; rd_end := e |} w'.
Proof.
  intros Hlen Hall. revert w. induction Hall as [|b o bodies outs Hb _ IH]; intros w Hw.
  - exists w. split; [done|]. split; [by rewrite app_nil_r | done].
  - apply Forall_cons in Hlen as [Hlb Hlen].
    destruct (write_lsp_message_reliable w o Hw) as (w1 & Hw1 & Hr1 & Ho1).
    destruct (IH Hlen w1 Hr1) as (w2 & Hr2 & Ho2 & Heq). exists w2. split; [done|].
    unfold lsp_stream in *. rewrite !fmap_cons. cbn [concat length Nat.add]. split.
    + by rewrite Ho2, Ho1, <- app_assoc.
    + rewrite <- app_assoc. cbn [relay_loop]. by rewrite read_lsp_frame, Hb, Hw1, Heq.
Qed.

Lemma relay_fuel bodies rest : exists fuel, S (length (lsp_stream bodies ++ rest)) = (length bodies + S fuel)%nat.
Proof.
  enough (length bodies <= length (lsp_stream bodies))%nat
    by (exists (length (lsp_stream bodies ++ rest) - length bodies)%nat; rewrite length_app in *; lia).
  unfold lsp_stream. induction bodies as [|b bodies IH]; cbn [fmap list_fmap concat length]; [lia|].
  rewrite length_app. destruct (lsp_frame_length b) as [n ->]. lia.
Qed.

(** Note (relay).  Over streams that do not fail, one direction of the proxy passes on every message,
    rewritten and in order, as the frames the other side reads, and ends with the input;
    at the first message that is not JSON it stops with that error, after passing on exactly
    the messages before it. *)
Theorem relay_rewrites_in_order bodies outs w :
  Forall (fun b => zlen b <= u64_max) bodies -> Forall2 (fun b o => rewritten b o) bodies outs -> reliable w ->
  let run rest := relay from_slice to_vec from_prefix to_prefix {| rd_data := lsp_stream bodies ++ rest; rd_end := None |} w in
  (exists w', run [] = (Ok (), w') /\ wr_out w' = wr_out w ++ lsp_stream outs) /\
  forall bad e rest, zlen bad <= u64_max ->
    rewrite_lsp_body from_slice to_vec bad from_prefix to_prefix = Err e ->
    exists w', run (lsp_frame bad ++ rest) = (Err (ProxyRewrite e), w') /\ wr_out w' = wr_out w ++ lsp_stream outs.
Proof.
  intros Hlen Hall Hw. cbv zeta. unfold relay. cbn [rd_data]. split.
  - destruct (relay_fuel bodies []) as [fuel ->].
    destruct (relay_loop_prefix (S fuel) bodies outs [] None w Hlen Hall Hw) as (w' & _ & Ho & ->). by exists w'.
  - intros bad e rest Hbad He. destruct (relay_fuel bodies (lsp_frame bad ++ rest)) as [fuel ->].
    destruct (relay_loop_prefix (S fuel) bodies outs (lsp_frame bad ++ rest) None w Hlen Hall Hw) as (w' & _ & Ho & ->).
    exists w'. split; [|done]. cbn [relay_loop]. by rewrite read_lsp_frame, He.
Qed.
End RelayLemmas.

(** ** Witnesses *)

Lemma lsp_message_roundtrip_witness :
  exists out, wr_out (snd (write_lsp_message {| wr_out := B"x"; wr_room := None; wr_flush := true |} (B"{}"))) = B"x" ++ out /\
    forall rest e, read_lsp_message {| rd_data := out ++ rest; rd_end := e |} =
      (Ok (Some (B"{}")), {| rd_data := rest; rd_end := e |}).
Proof.
  apply (lsp_message_roundtrip {| wr_out := B"x"; wr_room := None; wr_flush := true |} (B"{}") ()); [by vm_compute|].
  vm_compute. reflexivity.
Defined.

(** A reader that takes the body as the text of a string under the key [uri], and refuses
    an empty one. *)
Definition sample_from_slice (body : bytes) : result unit Value :=
  match body with [] => Err () | _ => Ok (VObject [(B"uri", VString body)]) end.
Definition sample_to_vec (v : Value) : result unit bytes :=
  match v with VObject [(_, VString text)] => Ok text | _ => Err () end.

Lemma relay_rewrites_in_order_witness :
  exists w', relay sample_from_slice sample_to_vec (B"/home/me") (B"/srv/repo")
      {| rd_data := lsp_stream [B"file:///home/me/a.rs"; B"other"] ++ lsp_frame []; rd_end := None |}
      {| wr_out := []; wr_room := None; wr_flush := true |} = (Err (ProxyRewrite ()), w') /\
    wr_out w' = [] ++ lsp_stream [B"file:///srv/repo/a.rs"; B"other"].
Proof.
  rewrite <- (app_nil_r (lsp_frame [])).
  refine (proj2 (relay_rewrites_in_order sample_from_slice sample_to_vec (B"/home/me") (B"/srv/repo")
    [B"file:///home/me/a.rs"; B"other"] [B"file:///srv/repo/a.rs"; B"other"]
    {| wr_out := []; wr_room := None; wr_flush := true |} _ _ _) [] () [] _ _).
  - repeat constructor; by vm_compute.
  - repeat constructor; by vm_compute.
  - by split.
  - by vm_compute.
  - reflexivity.
Defined.
