(* ===== verification/GitStatus.v ===== *)
(** * Git status of a workspace below the work tree's root

    [git_status] runs [git status --porcelain=v1 -z], whose paths are relative to the
    work tree, and rebases them onto the workspace (crates/nrm-agent/src/main.rs); the
    plugin reads the records of the result (lua/nvim_remote_mirror/init.lua). *)
From S2P Require Import Prelude.

(** ** The agent *)

(** [&record[..3]] and [&record[3..]]; [None] is the panic of a slice inside a character. *)
Definition split_status (record : bytes) : option (bytes * bytes) :=
  match record !! 3%nat with
  | Some b => if in_range 128 191 b then None else Some (take 3 record, drop 3 record)
  | None => Some (take 3 record, drop 3 record)
  end.

(** One step of the loops: what a record adds. *)
Definition is_branch (record : bytes) : bool := starts_with (B"##") record.
Definition is_rename (status : bytes) : bool := starts_with (B"R") status || starts_with (B"C") status.

Fixpoint rebase_records (prefix : bytes) (records : list bytes) : option bytes :=
  match records with
  | [] => Some []
  | record :: records =>
      if is_branch record then
        rest ← rebase_records prefix records; Some (record ++ [x00] ++ rest)
      else if zlen record <? 4 then rebase_records prefix records
      else
        '(status, path) ← split_status record;
        match strip_prefix prefix path with
        | None => rebase_records prefix records
        | Some path =>
            rest ← (if is_rename status then
                      match records with _ :: records => rebase_records prefix records | [] => Some [] end
                    else rebase_records prefix records);
            Some (status ++ path ++ [x00] ++ rest)
        end
  end.

Definition nonempty (record : bytes) : bool := negb (bytes_eqb record []).
Definition split_records (stdout : bytes) : list bytes := List.filter nonempty (split_on x00 stdout).
Definition rebase_git_status_nul_stdout (stdout prefix : bytes) : option bytes :=
  rebase_records prefix (split_records stdout).

(** [str::split_once] *)
Fixpoint split_once (pattern text : bytes) : option (bytes * bytes) :=
  match strip_prefix pattern text, text with
  | Some rest, _ => Some ([], rest)
  | None, b :: text => '(before, after) ← split_once pattern text; Some (b :: before, after)
  | None, [] => None
  end.

Definition rebase_line (prefix line : bytes) : option bytes :=
  if is_branch line then Some (line ++ [x0a])
  else if zlen line <? 4 then Some []
  else
    '(status, path) ← split_status line;
    match split_once (B" -> ") path with
    | Some (old, new) =>
        match strip_prefix prefix old, strip_prefix prefix new with
        | Some old, Some new => Some (status ++ old ++ B" -> " ++ new ++ [x0a])
        | _, _ => Some []
        end
    | None =>
        match strip_prefix prefix path with
        | Some path => Some (status ++ path ++ [x0a])
        | None => Some []
        end
    end.
Fixpoint rebase_lines (prefix : bytes) (lines : list bytes) : option bytes :=
  match lines with
  | [] => Some []
  | line :: lines => out ← rebase_line prefix line; rest ← rebase_lines prefix lines; Some (out ++ rest)
  end.

Definition rebase_git_status_stdout (stdout : bytes) (prefix : option bytes) : option bytes :=
  match prefix with
  | None | Some [] => Some stdout
  | Some prefix =>
      if contains_byte x00 stdout then rebase_git_status_nul_stdout stdout prefix
      else rebase_lines prefix (str_lines stdout)
  end.

(** ** The plugin *)

(** [text:gsub("\r\n", "\n")] *)
Fixpoint join_crlf (text : bytes) : bytes :=
  match text with
  | [] => []
  | b :: text =>
      match text with
      | c :: rest => if byte_eqb b x0d && byte_eqb c x0a then x0a :: join_crlf rest else b :: join_crlf text
      | [] => [b]
      end
  end.
Definition text_lines (text : bytes) : list bytes :=
  let text := join_crlf text in
  if bytes_eqb text [] then []
  else
    let lines := split_on x0a text in
    match last lines with Some [] => take (length lines - 1) lines | _ => lines end.

(** The records, and whether their paths are raw. *)
Definition git_status_records (stdout : bytes) : list bytes * bool :=
  if contains_byte x00 stdout then (split_records stdout, true) else (text_lines stdout, false).

(** [string.char(tonumber(octal, 8))], which raises an error above 255. *)
Definition is_octal (b : byte) : bool := in_range 48 55 b.
Definition octal_char (octal : bytes) : option byte :=
  let n := fold_left (fun n b => 8 * n + (u8 b - 48)) octal 0 in
  if n <=? 255 then Some (byte_of n) else None.
Fixpoint unescape (path : bytes) : option bytes :=
  match path with
  | [] => Some []
  | char :: rest =>
      if negb (byte_eqb char "\") then cons char <$> unescape rest
      else
        match rest with
        | [] => Some []
        | next :: rest1 =>
            if byte_eqb next "t" then cons x09 <$> unescape rest1
            else if byte_eqb next "n" then cons x0a <$> unescape rest1
            else if byte_eqb next "r" then cons x0d <$> unescape rest1
            else if is_octal next then
              match rest1 with
              | d2 :: rest2 =>
                  if is_octal d2 then
                    match rest2 with
                    | d3 :: rest3 =>
                        if is_octal d3 then c ← octal_char [next; d2; d3]; cons c <$> unescape rest3
                        else c ← octal_char [next; d2]; cons c <$> unescape rest2
                    | [] => c ← octal_char [next; d2]; Some [c]
                    end
                  else c ← octal_char [next]; cons c <$> unescape rest1
              | [] => c ← octal_char [next]; Some [c]
              end
            else cons next <$> unescape rest1
        end
  end.
(** [None] is the error of [string.char]. *)
Definition git_unquote_path (path : bytes) : option bytes :=
  match path with
  | b :: inner =>
      if negb (byte_eqb b "034") then Some path
      else unescape (if ends_with ["034"%byte] path then take (length inner - 1) inner else inner)
  | [] => Some path
  end.

(** [path:match(".+ %-> (.+)$")]: what follows the last arrow with text on both sides. *)
Fixpoint renamed_from (before : bool) (path : bytes) : option bytes :=
  match path with
  | [] => None
  | _ :: rest =>
      match renamed_from true rest with
      | Some new => Some new
      | None =>
          match strip_prefix (B" -> ") path with
          | Some (b :: new) => if before then Some (b :: new) else None
          | _ => None
          end
      end
  end.
Definition renamed (path : bytes) : option bytes := renamed_from false path.

Record item := { filename : bytes; lnum : Z; col : Z; text : bytes }.

Section Plugin.
(** [vim.fn.fnamemodify(path, ":p")], [vim.fs.joinpath], and the mirror's directory of a connected workspace. *)
Context (fnamemodify_p : bytes -> bytes) (joinpath : bytes -> bytes -> bytes) (files_root : option bytes).

Definition slashed (path : bytes) : bytes := (fun b => if byte_eqb b "\" then "/"%byte else b) <$> path.
Definition normalize_local_path (path : bytes) : bytes := slashed (fnamemodify_p path).
Definition is_rooted (path : bytes) : bool :=
  starts_with (B"/") path ||
  match path with
  | drive :: colon :: slash :: _ =>
      is_ascii_alphabetic drive && byte_eqb colon ":" && (byte_eqb slash "/" || byte_eqb slash "\")
  | _ => false
  end.
Definition files_root_local_path (files_root : option bytes) (relative_path : bytes) : option bytes :=
  match files_root with
  | None | Some [] => None
  | Some files_root =>
      let normalized_relative := slashed relative_path in
      if bytes_eqb relative_path [] || is_rooted relative_path || is_rooted normalized_relative ||
         bytes_eqb normalized_relative (B".") || existsb (bytes_eqb (B"..")) (split_on "/" normalized_relative) then None
      else
        let root := trim_end (byte_eqb "/") (normalize_local_path files_root) in
        let path := normalize_local_path (joinpath root normalized_relative) in
        if bytes_eqb path root || starts_with (root ++ B"/") path then Some path else None
  end.
(** [M.local_path] *)
Definition local_path (remote_path : bytes) : option bytes := files_root_local_path files_root remote_path.

(** What a record adds: an item, if its path has a local file. *)
Definition item_at (path line : bytes) : list item :=
  match local_path path with
  | Some f => [{| filename := f; lnum := 1; col := 1; text := line |}]
  | None => []
  end.
Definition record_items (raw_paths : bool) (line : bytes) : option (list item) :=
  let path := drop 3 line in
  let path := default path (renamed path) in
  path ← (if raw_paths then Some path else git_unquote_path path);
  Some (item_at path line).
(** The loop; in raw output the record after a rename or copy is the old path. *)
Fixpoint status_items (raw_paths : bool) (records : list bytes) : option (list item) :=
  match records with
  | [] => Some []
  | line :: records =>
      if is_branch line || bytes_eqb line [] then status_items raw_paths records
      else
        items ← record_items raw_paths line;
        rest ← (if raw_paths && is_rename (take 1 line) then
                  match records with _ :: records => status_items raw_paths records | [] => Some [] end
                else status_items raw_paths records);
        Some (items ++ rest)
  end.
Definition git_status_items (stdout : bytes) : option (list item) :=
  let '(records, raw_paths) := git_status_records stdout in status_items raw_paths records.

(** ** The format *)

(** An entry of [git status --porcelain=v1 -z]. *)
Inductive status_entry :=
| BranchEntry (text : bytes)
| PathEntry (status path : bytes)
| RenameEntry (status new old : bytes).

Definition entry_records (e : status_entry) : list bytes :=
  match e with
  | BranchEntry text => [B"##" ++ text]
  | PathEntry status path => [status ++ path]
  | RenameEntry status new old => [status ++ new; old]
  end.
Definition render (entries : list status_entry) : bytes :=
  concat ((fun r => r ++ [x00]) <$> (entries ≫= entry_records)).

Abbreviation no_nul s := (Forall (fun b => byte_eqb x00 b = false) s).
(** A path as git prints it: not empty, without NUL, and starting at a character. *)
Definition path_ok (path : bytes) : Prop :=
  no_nul path /\ exists b rest, path = b :: rest /\ in_range 128 191 b = false.
Definition status_ok (status : bytes) : Prop :=
  no_nul status /\ length status = 3%nat /\ is_branch status = false.
Definition entry_ok (e : status_entry) : Prop :=
  match e with
  | BranchEntry text => no_nul text
  | PathEntry status path => status_ok status /\ is_rename status = false /\ path_ok path
  | RenameEntry status new old => status_ok status /\ is_rename status = true /\ path_ok new /\ path_ok old
  end.

(** The entries of the workspace: those below the prefix, relative to it. *)
Definition below (prefix : bytes) (e : status_entry) : list status_entry :=
  match e with
  | BranchEntry text => [e]
  | PathEntry status path => match strip_prefix prefix path with Some path => [PathEntry status path] | None => [] end
  | RenameEntry status new old =>
      match strip_prefix prefix new, strip_prefix prefix old with
      | Some new, Some old => [RenameEntry status new old]
      | _, _ => []
      end
  end.

(** What the agent makes of an entry: of a rename only the new path. *)
Definition rebased_records (prefix : bytes) (e : status_entry) : list bytes :=
  match below prefix e with
  | RenameEntry status new old :: _ => [status ++ new]
  | entries => entries ≫= entry_records
  end.
(** The item the plugin should list for an entry: the one of its new path. *)
Definition entry_items (e : status_entry) : list item :=
  match e with
  | BranchEntry _ => []
  | PathEntry status path | RenameEntry status path _ => item_at (default path (renamed path)) (status ++ path)
  end.
(** The entries left when the one after each rename that is left is dropped. *)
Fixpoint shown (entries : list status_entry) : list status_entry :=
  match entries with
  | [] => []
  | RenameEntry status new old :: entries =>
      RenameEntry status new old :: match entries with _ :: entries => shown entries | [] => [] end
  | e :: entries => e :: shown entries
  end.
(** Both sides of a rename are inside or outside the workspace, as git reports when it is asked
    for the workspace only. *)
Definition rename_within (prefix : bytes) (e : status_entry) : Prop :=
  match e with
  | RenameEntry _ new old => starts_with prefix new = true /\ starts_with prefix old = true
  | _ => True
  end.
Definition is_rename_entry (e : status_entry) : bool := match e with RenameEntry _ _ _ => true | _ => false end.

(** ** Lemmas on records *)

Definition terminated (records : list bytes) : bytes := concat ((fun r => r ++ [x00]) <$> records).

Lemma terminated_cons r records : terminated (r :: records) = r ++ x00 :: terminated records.
Proof. unfold terminated. cbn. by rewrite <- app_assoc. Qed.

Lemma terminated_one r rest : terminated [r] ++ rest = r ++ x00 :: rest.
Proof. unfold terminated. cbn. by rewrite app_nil_r, <- app_assoc. Qed.

Lemma split_records_terminated records :
  Forall (fun r => no_nul r) records -> split_records (terminated records) = List.filter nonempty records.
Proof.
  unfold split_records, split_on. induction 1 as [|r records Hr _ IH]; [reflexivity|].
  rewrite terminated_cons, split_by_app by (done || reflexivity). cbn [List.filter]. by rewrite IH.
Qed.

Lemma nonempty_cons b s : nonempty (b :: s) = true.
Proof. reflexivity. Qed.

Lemma status_shape status : status_ok status ->
  exists a b c, status = [a; b; c] /\ no_nul status /\ is_branch status = false.
Proof. intros (Hn & Hl & Hb). destruct status as [|a [|b [|c [|]]]]; try discriminate Hl. by eexists _, _, _. Qed.

Lemma is_branch_status status rest : status_ok status -> is_branch (status ++ rest) = false.
Proof. intros (a & b & c & -> & _ & Hb)%status_shape. exact Hb. Qed.

Lemma is_rename_status status rest : status_ok status -> is_rename (take 1 (status ++ rest)) = is_rename status.
Proof. intros (a & b & c & -> & _ & _)%status_shape. reflexivity. Qed.

Lemma split_status_entry status path :
  status_ok status -> path_ok path -> split_status (status ++ path) = Some (status, path).
Proof.
  intros (a & b & c & -> & _ & _)%status_shape (_ & d & rest & -> & Hd). unfold split_status. cbn. by rewrite Hd.
Qed.

Lemma entry_length status path : status_ok status -> path_ok path -> (zlen (status ++ path) <? 4) = false.
Proof.
  intros (a & b & c & -> & _ & _)%status_shape (_ & d & rest & -> & _). apply Z.ltb_ge.
  autorewrite with nrm. pose proof (zlen_nonneg rest). lia.
Qed.

Lemma entry_records_ok e : entry_ok e ->
  Forall (fun r => no_nul r) (entry_records e) /\ Forall (fun r => nonempty r = true) (entry_records e).
Proof.
  destruct e as [text|status path|status new old]; cbn.
  - intros Ht. rewrite !Forall_singleton, Forall_app. split; [|done]. split; [by repeat constructor | done].
  - intros (Hs & _ & Hp). rewrite !Forall_singleton. split.
    + apply Forall_app; split; [apply Hs | apply Hp].
    + by destruct (status_shape _ Hs) as (a & b & c & -> & _).
  - intros (Hs & _ & Hn & Ho). rewrite !Forall_cons, !Forall_nil. split; (split; [|split; [|done]]).
    + apply Forall_app; split; [apply Hs | apply Hn].
    + apply Ho.
    + by destruct (status_shape _ Hs) as (a & b & c & -> & _).
    + by destruct Ho as (_ & b & rest & -> & _).
Qed.

Lemma records_ok entries : Forall entry_ok entries ->
  Forall (fun r => no_nul r) (entries ≫= entry_records) /\ Forall (fun r => nonempty r = true) (entries ≫= entry_records).
Proof.
  induction 1 as [|e entries He _ [IH1 IH2]]; [by split|]. rewrite bind_cons, !Forall_app.
  destruct (entry_records_ok e He). done.
Qed.

Lemma filter_all {A} (f : A -> bool) l : Forall (fun x => f x = true) l -> List.filter f l = l.
Proof. induction 1 as [|x l Hx _ IH]; cbn; [done|]. by rewrite Hx, IH. Qed.

Lemma split_render entries : Forall entry_ok entries -> split_records (render entries) = entries ≫= entry_records.
Proof.
  intros [Hn Hne]%records_ok. unfold render. fold (terminated (entries ≫= entry_records)).
  rewrite split_records_terminated by done. by apply filter_all.
Qed.

Lemma render_has_nul entries : entries <> [] -> contains_byte x00 (render entries) = true.
Proof.
  destruct entries as [|e entries]; [done|]. intros _. unfold render. rewrite bind_cons.
  assert (Hr : exists r rs, entry_records e = r :: rs) by (destruct e; by eexists _, _).
  destruct Hr as (r & rs & ->). cbn. unfold contains_byte. rewrite !existsb_app. cbn. by rewrite !orb_true_r.
Qed.

(** ** Theorems *)

Section Rebase.
Context (prefix : bytes).

Lemma rebase_entry e records : entry_ok e -> rename_within prefix e ->
  rebase_records prefix (entry_records e ++ records) =
    (rest ← rebase_records prefix records; Some (terminated (rebased_records prefix e) ++ rest)).
Proof.
  destruct e as [text|status path|status new old]; cbn [entry_ok rename_within entry_records app].
  - intros Ht _. cbn [rebase_records]. change (is_branch (B"##" ++ text)) with true. cbn iota.
    unfold rebased_records. cbn -[rebase_records terminated B].
    destruct (rebase_records prefix records); cbn -[B terminated]; [|done]. by rewrite terminated_one.
  - intros (Hs & Hr & Hp) _. cbn [rebase_records].
    rewrite is_branch_status, entry_length, split_status_entry by done. cbn [mbind option_bind].
    unfold rebased_records. cbn [below]. destruct (strip_prefix prefix path) as [path'|].
    + rewrite Hr. cbn [mbind list_bind entry_records app].
      destruct (rebase_records prefix records); cbn -[terminated]; [|done]. by rewrite terminated_one, <- app_assoc.
    + by destruct (rebase_records prefix records).
  - intros (Hs & Hr & Hn & Ho) [Wn Wo]. cbn [rebase_records].
    rewrite is_branch_status, entry_length, split_status_entry by done. cbn [mbind option_bind].
    unfold rebased_records. cbn [below]. unfold strip_prefix. rewrite Wn, Wo, Hr.
    destruct (rebase_records prefix records); cbn -[terminated]; [|done]. by rewrite terminated_one, <- app_assoc.
Qed.

Lemma rebase_entries entries : Forall entry_ok entries -> Forall (rename_within prefix) entries ->
  rebase_records prefix (entries ≫= entry_records) = Some (terminated (entries ≫= rebased_records prefix)).
Proof.
  intros Hok. induction Hok as [|e entries He _ IH]; intros Hw; [done|]. apply Forall_cons in Hw as [Hwe Hw].
  rewrite !bind_cons, rebase_entry by done. rewrite IH by done. cbn.
  unfold terminated. by rewrite fmap_app, concat_app.
Qed.

Lemma rebase_stdout entries :
  prefix <> [] -> entries <> [] -> Forall entry_ok entries -> Forall (rename_within prefix) entries ->
  rebase_git_status_stdout (render entries) (Some prefix) = Some (terminated (entries ≫= rebased_records prefix)).
Proof.
  intros Hp Hne Hok Hw. unfold rebase_git_status_stdout. destruct prefix as [|b p] eqn:E; [done|].
  rewrite <- E in *. rewrite render_has_nul by done. unfold rebase_git_status_nul_stdout.
  rewrite split_render by done. by apply rebase_entries.
Qed.

(** What the agent leaves of an entry is one readable record. *)
Lemma rebased_readable entries : Forall entry_ok entries ->
  Forall (fun r => no_nul r) (entries ≫= rebased_records prefix) /\
  Forall (fun r => nonempty r = true) (entries ≫= rebased_records prefix).
Proof.
  assert (Hsub : forall path path', no_nul path -> strip_prefix prefix path = Some path' -> no_nul path').
  { intros path path' Hn ->%strip_prefix_Some. by apply Forall_app in Hn as [_ ?]. }
  assert (Hone : forall status path path', status_ok status -> path_ok path -> strip_prefix prefix path = Some path' ->
    no_nul (status ++ path') /\ nonempty (status ++ path') = true).
  { intros status path path' Hs [Hn _] E. split; [apply Forall_app; split; [apply Hs | by eapply Hsub]|].
    by destruct (status_shape _ Hs) as (a & b & c & -> & _). }
  induction 1 as [|e entries He _ [IH1 IH2]]; [by split|]. rewrite bind_cons, !Forall_app.
  enough (Forall (fun r => no_nul r) (rebased_records prefix e) /\ Forall (fun r => nonempty r = true) (rebased_records prefix e)) by tauto.
  destruct e as [text|status path|status new old]; [exact (entry_records_ok (BranchEntry text) He)| |]; unfold rebased_records; cbn [below].
  - destruct He as (Hs & _ & Hp). destruct (strip_prefix prefix path) as [path'|] eqn:E; [|by split].
    cbn. rewrite !Forall_singleton. by eapply Hone.
  - destruct He as (Hs & _ & Hn & _). destruct (strip_prefix prefix new) as [new'|] eqn:E; [|by split].
    destruct (strip_prefix prefix old); [|by split]. cbn. rewrite !Forall_singleton. by eapply Hone.
Qed.

Lemma items_terminated records : records <> [] -> Forall (fun r => no_nul r) records -> Forall (fun r => nonempty r = true) records ->
  git_status_items (terminated records) = status_items true records.
Proof.
  intros Hne Hn Hr. unfold git_status_items, git_status_records.
  assert (contains_byte x00 (terminated records) = true) as ->.
  { destruct records as [|r records]; [done|]. rewrite terminated_cons. unfold contains_byte. rewrite existsb_app. cbn. by rewrite orb_true_r. }
  by rewrite split_records_terminated, filter_all.
Qed.

(** The records of an entry below the workspace, as the agent leaves them. *)
Definition kept_record (e : status_entry) : bytes :=
  match e with
  | BranchEntry text => B"##" ++ text
  | PathEntry status path | RenameEntry status path _ => status ++ path
  end.
Lemma rebased_kept entries : entries ≫= rebased_records prefix = kept_record <$> (entries ≫= below prefix).
Proof.
  induction entries as [|e entries IH]; [done|]. rewrite !bind_cons, fmap_app, IH. f_equal.
  destruct e as [text|status path|status new old]; unfold rebased_records; cbn [below]; [done|..].
  - by destruct (strip_prefix prefix path).
  - destruct (strip_prefix prefix new); [|done]. by destruct (strip_prefix prefix old).
Qed.
End Rebase.

(** The plugin on one record of an entry: its item, and for a rename the next record goes. *)
Lemma status_items_entry e records : entry_ok e ->
  status_items true (kept_record e :: records) =
    (rest ← status_items true (if is_rename_entry e then drop 1 records else records); Some (entry_items e ++ rest)).
Proof.
  destruct e as [text|status path|status new old]; cbn [kept_record status_items is_rename_entry entry_items entry_ok].
  - intros _. change (is_branch (B"##" ++ text)) with true. cbn [orb]. by destruct (status_items true records).
  - intros (Hs & Hr & _). rewrite is_branch_status, is_rename_status, Hr by done.
    destruct (status_shape _ Hs) as (a & b & c & -> & _ & _). reflexivity.
  - intros (Hs & Hr & _). rewrite is_branch_status, is_rename_status, Hr by done.
    destruct (status_shape _ Hs) as (a & b & c & -> & _ & _). by destruct records.
Qed.

(** The plugin on the agent's records, and on git's own. *)
Lemma kept_items entries : Forall entry_ok entries ->
  status_items true (kept_record <$> entries) = Some (shown entries ≫= entry_items).
Proof.
  remember (length entries) as n eqn:Hn. revert entries Hn. induction (lt_wf n) as [n _ IH]. intros entries -> Hok.
  destruct Hok as [|e entries He Hok]; [done|]. rewrite fmap_cons, status_items_entry by done.
  destruct (is_rename_entry e) eqn:Er.
  - destruct e as [| |status new old]; try discriminate Er. cbn [shown]. rewrite bind_cons.
    destruct Hok as [|e entries He' Hok]; [done|]. cbn [fmap list_fmap drop]. rewrite drop_0.
    rewrite (IH (length entries)) by (cbn; first [lia | done]). done.
  - assert (shown (e :: entries) = e :: shown entries) as -> by (by destruct e).
    rewrite (IH (length entries)) by (cbn; first [lia | done]). by rewrite bind_cons.
Qed.
Lemma whole_items entries : Forall entry_ok entries ->
  status_items true (entries ≫= entry_records) = Some (entries ≫= entry_items).
Proof.
  induction 1 as [|e entries He _ IH]; [done|]. rewrite !bind_cons.
  assert (Hr : exists old, entry_records e = kept_record e :: old /\ length old = if is_rename_entry e then 1%nat else 0%nat)
    by (destruct e; by eexists).
  destruct Hr as (old & -> & Hl). rewrite <- app_comm_cons, status_items_entry by done.
  assert ((if is_rename_entry e then drop 1 (old ++ (entries ≫= entry_records)) else old ++ (entries ≫= entry_records)) =
    entries ≫= entry_records) as ->.
  { destruct (is_rename_entry e); [|by apply nil_length_inv in Hl as ->]. by rewrite drop_app_length'. }
  by rewrite IH.
Qed.

(** Items of the agent's output, and of git's when the workspace is the work tree. *)
Lemma rebased_items prefix entries : prefix <> [] -> Forall entry_ok entries -> Forall (rename_within prefix) entries ->
  Forall entry_ok (entries ≫= below prefix) -> entries ≫= below prefix <> [] ->
  (stdout ← rebase_git_status_stdout (render entries) (Some prefix); git_status_items stdout) =
    Some (shown (entries ≫= below prefix) ≫= entry_items).
Proof.
  intros Hp Hok Hw Hb Hne. rewrite rebase_stdout by (done || by intros ->). cbn [mbind option_bind].
  destruct (rebased_readable prefix entries Hok). rewrite items_terminated; [|by rewrite rebased_kept; destruct (_ ≫= _)|done..].
  rewrite rebased_kept. by apply kept_items.
Qed.
Lemma rendered_items entries : Forall entry_ok entries -> entries <> [] ->
  git_status_items (render entries) = Some (entries ≫= entry_items).
Proof.
  intros Hok Hne. destruct (records_ok entries Hok). unfold render. fold (terminated (entries ≫= entry_records)).
  rewrite items_terminated; [by apply whole_items| |done..].
  destruct entries as [|e entries]; [done|]. rewrite bind_cons. by destruct e.
Qed.
Lemma shown_plain entries : existsb is_rename_entry entries = false -> shown entries = entries.
Proof.
  induction entries as [|e entries IH]; [done|]. cbn [existsb]. intros [He Hr]%orb_false_elim.
  destruct e; [..|discriminate He]; cbn [shown]; by rewrite IH.
Qed.
Lemma shown_app pre entries : existsb is_rename_entry pre = false -> shown (pre ++ entries) = pre ++ shown entries.
Proof.
  induction pre as [|e pre IH]; [done|]. cbn [existsb]. intros [He Hr]%orb_false_elim.
  destruct e; [..|discriminate He]; cbn [app shown]; by rewrite IH.
Qed.

(** Note (rebased status).  For a workspace below the work tree's root, the agent turns git's
    output into exactly the entries below the workspace, relative to it and in git's order,
    never failing on what git prints; and where nothing was renamed or copied, the plugin
    lists exactly the paths of those entries that have a local file. *)
Theorem git_status_rebase_exact prefix entries :
  prefix <> [] -> entries <> [] -> Forall entry_ok entries -> Forall (rename_within prefix) entries ->
  exists out, rebase_git_status_stdout (render entries) (Some prefix) = Some out /\
    out = terminated (kept_record <$> (entries ≫= below prefix)) /\
    (existsb is_rename_entry (entries ≫= below prefix) = false -> Forall entry_ok (entries ≫= below prefix) ->
     entries ≫= below prefix <> [] ->
     git_status_items out = Some ((entries ≫= below prefix) ≫= entry_items)).
Proof.
  intros Hp Hne Hok Hw. eexists. split; [by apply rebase_stdout|]. rewrite rebased_kept. split; [done|]. intros Hr Hb Hbn.
  pose proof (rebased_items prefix entries Hp Hok Hw Hb Hbn) as E. rewrite rebase_stdout, rebased_kept in E by done.
  cbn [mbind option_bind] in E. by rewrite E, shown_plain.
Qed.

(** C40 (error): the rebased output of a rename lacks the old path that the format has and the plugin skips.  So for
    a workspace below the work tree's root, with renames inside the workspace, the plugin lists the
    entries up to and including the first rename or copy, not the entry after it, and of the rest what
    it shows by the same rule: the entry after each rename that it lists is left out.  When the
    workspace is the work tree itself, every entry is listed. *)
Theorem rename_hides_next_entry prefix entries pre st new old e post :
  let inside := entries ≫= below prefix in
  prefix <> [] -> Forall entry_ok entries -> Forall (rename_within prefix) entries -> Forall entry_ok inside ->
  inside = pre ++ RenameEntry st new old :: e :: post -> existsb is_rename_entry pre = false ->
  (stdout ← rebase_git_status_stdout (render entries) (Some prefix); git_status_items stdout) =
    Some ((pre ≫= entry_items) ++ entry_items (RenameEntry st new old) ++ (shown post ≫= entry_items)) /\
  (stdout ← rebase_git_status_stdout (render inside) None; git_status_items stdout) =
    Some ((pre ≫= entry_items) ++ entry_items (RenameEntry st new old) ++ entry_items e ++ (post ≫= entry_items)).
Proof.
  intros inside Hp Hok Hw Hb Hi Hr. assert (Hne : inside <> []) by (rewrite Hi; by destruct pre). split.
  - rewrite rebased_items by done. fold inside. rewrite Hi, shown_app, bind_app by done. reflexivity.
  - cbn [rebase_git_status_stdout mbind option_bind]. rewrite rendered_items by done. by rewrite Hi, bind_app.
Qed.
End Plugin.

(** ** Witnesses *)

Definition demo_entries : list status_entry :=
  [BranchEntry (B" main"); PathEntry (B" M ") (B"sub/a.txt"); PathEntry (B"?? ") (B"other/o.txt")].
Definition demo_joinpath (root path : bytes) : bytes := root ++ B"/" ++ path.

Lemma git_status_rebase_exact_witness :
  exists out, rebase_git_status_stdout (render demo_entries) (Some (B"sub/")) = Some out /\
    git_status_items id demo_joinpath (Some (B"/m/files")) out =
      Some [{| filename := B"/m/files/a.txt"; lnum := 1; col := 1; text := B" M a.txt" |}].
Proof.
  destruct (git_status_rebase_exact id demo_joinpath (Some (B"/m/files")) (B"sub/") demo_entries) as (out & H1 & _ & H2);
    [done|done|repeat constructor; by eexists _, _|by repeat constructor|].
  exists out. split; [exact H1|]. rewrite H2; [vm_compute; reflexivity|done| |done]. repeat constructor; by eexists _, _.
Defined.

(** Two renames, then a path: the plugin lists the first rename and the path. *)
Definition demo_renames : list status_entry :=
  [BranchEntry (B" main"); RenameEntry (B"R  ") (B"sub/b") (B"sub/a"); RenameEntry (B"R  ") (B"sub/d") (B"sub/c");
   PathEntry (B" M ") (B"sub/e")].
Lemma rename_hides_next_entry_witness :
  let items prefix entries : option (list bytes) :=
    option_map (List.map text) (stdout ← rebase_git_status_stdout (render entries) prefix;
      git_status_items id demo_joinpath (Some (B"/m/files")) stdout) in
  items (Some (B"sub/")) demo_renames = Some [B"R  b"; B" M e"] /\
  items None (mbind (M := list) (below (B"sub/")) demo_renames) = Some [B"R  b"; B"R  d"; B" M e"].
Proof.
  intros items. unfold items.
  destruct (rename_hides_next_entry id demo_joinpath (Some (B"/m/files")) (B"sub/") demo_renames [BranchEntry (B" main")]
    (B"R  ") (B"b") (B"a") (RenameEntry (B"R  ") (B"d") (B"c")) [PathEntry (B" M ") (B"e")]) as [H1 H2];
    [done|repeat constructor; by eexists _, _|by repeat constructor|repeat constructor; by eexists _, _|reflexivity|done|].
  rewrite H1, H2. split; vm_compute; reflexivity.
Defined.
