(* ===== verification/AgentFs.v ===== *)
(** * The file system under the agent's saves (crates/nrm-agent/src/main.rs, Unix)

    Directory entries, inodes and the system calls a save makes, each of which can fail
    at any time, the agent's helpers around them, and what other processes do to the files
    while a save runs. *)
From S2P Require Import Prelude Paths Protocol.

(** ** Files and failures *)

Inductive dir_entry := EFile (ino : Z) | ESymlink | EDir.
#[export] Instance dir_entry_eq_dec : EqDecision dir_entry.
Proof. solve_decision. Defined.
Record inode := { data : bytes; mtime_ms : Z }.

(** [names]: what each path denotes.  [faults]: how the next system calls end, [Some k]
    being a failure (of a write, after [k] bytes); calls after the list succeed.
    [clock]: the wall clock in nanoseconds. *)
Record fs := { names : gmap bytes dir_entry; inodes : gmap Z inode; faults : list (option nat); clock : Z }.

Inductive agent_error :=
| EIo | EExists | ESymlinkContent | ENotRegular | ETempReplaced | EWriteBusy | EPrepare
| EUnknownUpload | EUploadOffset | EUploadTooLarge | EUploadIncomplete | EUploadHash
| ETooManyUploads | ETooManyBytes
| ENotFound | EOutside | ENotDirectory
| EVersion | EResolve | EReadOffset | EReadCap | EBatchFileCap | EBatchTotalCap | EGrepCursor.

Definition M (A : Type) : Type := fs -> result agent_error A * fs.
#[export] Instance M_ret : MRet M := fun A a f => (Ok a, f).
#[export] Instance M_bind : MBind M := fun A B k m f =>
  match m f with
  | (Ok a, f) => k a f
  | (Err e, f) => (Err e, f)
  end.
#[export] Instance M_fmap : FMap M := fun A B g m => m ≫= fun a => mret (g a).
Definition throw {A} (e : agent_error) : M A := fun f => (Err e, f).
(** [m.unwrap_or(..)] and [match m { Ok .., Err .. }]: the result as a value. *)
Definition attempt {A} (m : M A) : M (result agent_error A) := fun f =>
  let '(r, f) := m f in (Ok r, f).

Definition with_names (ns : gmap bytes dir_entry) (f : fs) : fs :=
  {| names := ns; inodes := inodes f; faults := faults f; clock := clock f |}.
Definition with_inodes (nodes : gmap Z inode) (f : fs) : fs :=
  {| names := names f; inodes := nodes; faults := faults f; clock := clock f |}.
Definition with_faults (fl : list (option nat)) (f : fs) : fs :=
  {| names := names f; inodes := inodes f; faults := fl; clock := clock f |}.

(** How a system call ends. *)
Definition next_fault : M (option nat) := fun f =>
  match faults f with
  | fault :: fl => (Ok fault, with_faults fl f)
  | [] => (Ok None, f)
  end.
(** A call that changes nothing and may fail. *)
Definition syscall : M unit :=
  fault ← next_fault; match fault with Some _ => throw EIo | None => mret () end.
Definition get_fs : M fs := fun f => (Ok f, f).
Definition modify (g : fs -> fs) : M unit := fun f => (Ok (), g f).

(** ** System calls *)

Definition file_data (f : fs) (ino : Z) : bytes := from_option data [] (inodes f !! ino).

(** [fs::symlink_metadata]; a missing path is no error of the call. *)
Definition symlink_metadata (path : bytes) : M (option dir_entry) :=
  syscall;; f ← get_fs; mret (names f !! path).

Definition used_inos (f : fs) : list Z :=
  (map_to_list (inodes f)).*1 ++
  ((map_to_list (names f)).*2 ≫= fun e => match e with EFile ino => [ino] | _ => [] end).

(** [openat(.., O_CREAT | O_EXCL)]: a new, empty file; the kernel picks an unused inode. *)
Definition create_new (path : bytes) : M Z :=
  syscall;; f ← get_fs;
  match names f !! path with
  | Some _ => throw EExists
  | None =>
      let ino := fresh (used_inos f) in
      modify (fun f => with_names (<[path := EFile ino]> (names f))
                        (with_inodes (<[ino := {| data := []; mtime_ms := clock f / 1000000 |}]> (inodes f)) f));;
      mret ino
  end.

(** The file's bytes after [new] was written at [offset]; a gap is filled with zeros. *)
Definition overwrite (old : bytes) (offset : nat) (new : bytes) : bytes :=
  take offset old ++ replicate (offset - length old) x00 ++ new ++ drop (offset + length new) old.
Definition set_data (ino : Z) (bs : bytes) : M unit :=
  modify (fun f => with_inodes (<[ino := {| data := bs; mtime_ms := clock f / 1000000 |}]> (inodes f)) f).
(** [write_all] at the file's position: a failed write may have written a part. *)
Definition write_at (ino : Z) (offset : nat) (content : bytes) : M unit :=
  fault ← next_fault; f ← get_fs;
  match fault with
  | Some k => set_data ino (overwrite (file_data f ino) offset (take k content));; throw EIo
  | None => set_data ino (overwrite (file_data f ino) offset content)
  end.
Definition sync_all : M unit := syscall.

(** [unlinkat] and [renameat]. *)
Definition unlink (path : bytes) : M unit :=
  syscall;; f ← get_fs;
  match names f !! path with
  | Some EDir | None => throw EIo
  | Some _ => modify (fun f => with_names (delete path (names f)) f)
  end.
Definition rename (from_ to_ : bytes) : M unit :=
  syscall;; f ← get_fs;
  match names f !! from_, names f !! to_ with
  | None, _ | _, Some EDir => throw EIo
  | Some e, _ => modify (fun f => with_names (<[to_ := e]> (delete from_ (names f))) f)
  end.

(** ** What the host decides *)

(** The places in a save where other processes are given a turn.  The helpers between two of
    them look at the files at one moment. *)
Inductive point :=
| BeforeLock | BeforeLook | BeforeTemp | BeforeWrite | BeforeRecheck | BeforeConflict | BeforeRename | BeforeReport.

(** [wh_canonicalize]: [Path::canonicalize], where the symbolic links of a path lead.
    [wh_others]: what other processes do to names and inodes at a point. *)
Record WriteHost := {
  wh_canonicalize : fs -> bytes -> result agent_error bytes;
  wh_temp_dir : bytes;
  wh_effective_uid : Z;
  wh_others : point -> gmap bytes dir_entry * gmap Z inode -> gmap bytes dir_entry * gmap Z inode }.

Definition lift_result {A} (r : result agent_error A) : M A := fun f => (r, f).

(** [Path::parent], [Path::file_name] and [Path::join] on absolute paths without a trailing slash. *)
Definition dir_of (path : bytes) : option bytes :=
  match rsplit_once "/" path with
  | Some ([], []) => None
  | Some ([], _) => Some (B"/")
  | Some (dir, _) => Some dir
  | None => Some []
  end.
Definition name_of (path : bytes) : bytes := from_option snd path (rsplit_once "/" path).
Definition path_in (dir name : bytes) : bytes := if bytes_eqb dir (B"/") then dir ++ name else dir ++ B"/" ++ name.

Section Host.
Context (host : WriteHost).

Definition pause (k : point) : M unit := fun f =>
  let '(ns, nodes) := wh_others host k (names f, inodes f) in (Ok (), with_names ns (with_inodes nodes f)).

(** The entry a path is about: the last component is not followed. *)
Definition real_path (f : fs) (path : bytes) : result agent_error bytes :=
  match dir_of path with
  | Some dir => dir ← wh_canonicalize host f dir; Ok (path_in dir (name_of path))
  | None => Ok path
  end.

Definition mkdir (path : bytes) : M unit :=
  syscall;; f ← get_fs;
  match real_path f path with
  | Err _ => throw ENotFound
  | Ok key =>
      match names f !! key with
      | Some _ => throw EExists
      | None => modify (fun f => with_names (<[key := EDir]> (names f)) f)
      end
  end.

(** [Path::exists] and [Path::is_dir], which follow links and read a failure as no. *)
Definition path_exists (path : bytes) : M bool :=
  r ← attempt syscall; f ← get_fs; mret (is_ok r && is_ok (wh_canonicalize host f path)).
Definition is_dir (path : bytes) : M bool :=
  r ← attempt syscall; f ← get_fs;
  mret (is_ok r && match wh_canonicalize host f path with
                   | Ok dir => bool_decide (names f !! dir = Some EDir)
                   | Err _ => false
                   end).

(** [fs::create_dir_all] of the Standard Library; a parent is shorter than its path, so the
    length of the path is enough fuel. *)
Definition unless_dir (path : bytes) (made : result agent_error unit) : M unit :=
  match made with
  | Ok _ => mret ()
  | Err e => d ← is_dir path; if (d : bool) then mret () else throw e
  end.
Fixpoint create_dirs (fuel : nat) (path : bytes) : M unit :=
  match fuel, path with
  | O, _ => throw EIo
  | _, [] => mret ()
  | S fuel, _ =>
      made ← attempt (mkdir path);
      match made, dir_of path with
      | Err ENotFound, Some parent => create_dirs fuel parent;; again ← attempt (mkdir path); unless_dir path again
      | _, _ => unless_dir path made
      end
  end.
Definition create_dir_all (path : bytes) : M unit := create_dirs (S (length path)) path.
End Host.

(** ** The agent's helpers *)

Section Helpers.
Context (hash_bytes : bytes -> bytes).

Definition hash_open_file (ino : Z) : M bytes :=
  syscall;; f ← get_fs; mret (hash_bytes (file_data f ino)).

(** [open_existing_content_file]: opens without following a symlink, then [fstat]s.  The code
    resolves the request's path once more, to the target it was prepared for; finding and
    checking its parent directory is part of the calls that may fail here. *)
Definition open_existing_content_file (path : bytes) : M Z :=
  syscall;; f ← get_fs;
  match names f !! path with
  | Some (EFile ino) => syscall;; mret ino
  | Some ESymlink => throw ESymlinkContent
  | Some EDir => throw ENotRegular
  | None => throw EIo
  end.

Definition current_regular_file_hash (abs : bytes) : M (option bytes) :=
  entry ← symlink_metadata abs;
  match entry with
  | Some ESymlink => throw ESymlinkContent
  | Some EDir => mret None
  | Some (EFile _) => ino ← open_existing_content_file abs; hash ← hash_open_file ino; mret (Some hash)
  | None => mret None
  end.

(** [verify_temp_file_identity] and [capture_temp_file_identity], which holds nothing on Unix. *)
Definition verify_temp_file_identity (ino : Z) (path : bytes) : M unit :=
  syscall;; entry ← symlink_metadata path;
  match entry with
  | Some (EFile ino') => if ino' =? ino then mret () else throw ETempReplaced
  | Some _ => throw ENotRegular
  | None => throw EIo
  end.
Definition capture_temp_file_identity (ino : Z) (path : bytes) : M unit := verify_temp_file_identity ino path.

Definition create_temp_file (tmp : bytes) : M Z := create_new tmp.
Definition remove_temp_file (tmp : bytes) : M unit := unlink tmp.

(** [if let Err(error) = m { let _ = remove_temp_file(..); return Err(error); }] *)
Definition or_cleanup {A} (tmp : bytes) (m : M A) : M A :=
  r ← attempt m;
  match r with
  | Ok a => mret a
  | Err e => _ ← attempt (remove_temp_file tmp); throw e
  end.

(** [rename_temp_into_path] with [replace_temp_into_path_raw] and [cleanup_failed_replacement]. *)
Definition rename_temp_into_path (tmp target : bytes) : M unit :=
  or_cleanup tmp (rename tmp target).

Definition hash_file (path : bytes) : M bytes :=
  syscall;; f ← get_fs;
  match names f !! path with
  | Some (EFile ino) => hash_open_file ino
  | _ => throw EIo
  end.

(** [file_meta(.., true)], of which a save reports the size and the time; it may also fail to
    make the path relative to the root, like any of its calls. *)
Definition file_meta (path : bytes) : M (Z * Z) :=
  entry ← symlink_metadata path;
  match entry with
  | Some (EFile ino) =>
      f ← get_fs; _ ← hash_file path;
      mret (zlen (file_data f ino), from_option mtime_ms 0 (inodes f !! ino))
  | Some _ => mret (0, 0)  (* not a save: the target is the renamed file *)
  | None => throw EIo
  end.

Definition read_open_file_prefix (ino : Z) (max_bytes : Z) : M bytes :=
  syscall;; f ← get_fs; mret (take (Z.to_nat max_bytes) (file_data f ino)).

Definition remote_conflict_content (path : bytes) : M (bytes * bool * option Z) :=
  opened ← attempt (open_existing_content_file path);
  match opened with
  | Err _ => mret ([], false, None)
  | Ok ino =>
      f ← get_fs;
      let remote_size := zlen (file_data f ino) in
      prefix ← attempt (read_open_file_prefix ino (Z.min remote_size MAX_CONFLICT_CONTENT_BYTES));
      let content := match prefix with Ok content => content | Err _ => [] end in
      mret (content, remote_size >? zlen content, Some remote_size)
  end.
Definition save_conflict (path abs : bytes) (expected_hash actual_hash : option bytes) : M SaveConflict :=
  '(content, truncated, size) ← remote_conflict_content abs;
  mret {| sc_path := path; sc_expected_hash := expected_hash; sc_actual_hash := actual_hash;
          sc_remote_content := content; sc_remote_content_truncated := truncated; sc_remote_size := size |}.
End Helpers.
