(* ===== verification/AgentWrite.v ===== *)
(** * Saves: compare-and-swap writes and chunked uploads (crates/nrm-agent/src/main.rs)

    One-shot saves and the upload table of the agent, over the file system of [AgentFs]:
    finding and creating the directory of the target, the lock files, the temporary file,
    the second look at the target and the replacement, with other processes at work in
    between. *)
From S2P Require Import Prelude Paths Protocol AgentFs.

Definition MAX_ACTIVE_UPLOADS : Z := 8.
Definition MAX_ACTIVE_UPLOAD_BYTES : Z := 512 * 1024 * 1024.
(** In nanoseconds. *)
Definition UPLOAD_TTL : Z := 10 * 60 * 1000000000.

(** A pending upload.  The open parent directory, the temporary's name inside it and the
    advisory lock are not kept: the name is part of [up_tmp_path], and the checks through
    the handles are calls that may fail. *)
Record PendingUpload := {
  up_path : bytes; up_target_abs : bytes; up_target_keys : list bytes; up_expected_hash : option bytes;
  up_content_hash : bytes; up_size : Z; up_tmp_path : bytes; up_tmp_file : Z; up_written : Z; up_created_at : Z }.
(** The part of the agent's state that saves use; the root is a parameter. *)
Record AgentState := { uploads : gmap bytes PendingUpload; active_write_targets : gset bytes }.
Definition new_agent : AgentState := {| uploads := ∅; active_write_targets := ∅ |}.

Section Agent.
Context (hash_bytes : bytes -> bytes) (root : bytes) (host : WriteHost).
Abbreviation current_hash := (current_regular_file_hash hash_bytes).

(** ** The target of a save *)

Definition resolve_remote_path (path : bytes) : result agent_error bytes :=
  (fun clean => root ++ B"/" ++ join_with "/" clean) <$> map_err (fun _ => EResolve) (normalize_relative_path path).

(** [path.starts_with(root)] compares components. *)
Definition ensure_path_within_root (path : bytes) : result agent_error unit :=
  fail_if (negb (bytes_eqb path root || starts_with (path_in root []) path)) EOutside.

(** The loop of [ensure_write_parent_inside_root]. *)
Fixpoint existing_ancestor (fuel : nat) (ancestor : bytes) : M bytes :=
  match fuel with
  | O => throw EOutside
  | S fuel =>
      found ← path_exists host ancestor;
      if (found : bool) then mret ancestor
      else match dir_of ancestor with
           | Some parent => existing_ancestor fuel parent
           | None => throw EOutside
           end
  end.
Definition canonicalized (path : bytes) : M bytes := syscall;; f ← get_fs; lift_result (wh_canonicalize host f path).
Definition ensure_write_parent_inside_root (parent : bytes) : M unit :=
  ancestor ← existing_ancestor (S (length parent)) parent;
  canonical_ancestor ← canonicalized ancestor;
  lift_result (ensure_path_within_root canonical_ancestor);;
  create_dir_all host parent.

(** The canonical path of the target.  A path whose directory is missing names nothing yet. *)
Definition prepare_write_target (path : bytes) : M bytes :=
  abs ← lift_result (resolve_remote_path path);
  syscall;; f ← get_fs;
  match real_path host f abs with
  | Ok key => if bool_decide (names f !! key = Some ESymlink) then throw ESymlinkContent else mret ()
  | Err ENotFound => mret ()
  | Err e => throw e
  end;;
  match dir_of abs with
  | None => throw EPrepare
  | Some parent =>
      ensure_write_parent_inside_root parent;;
      canonical_parent ← canonicalized parent;
      lift_result (ensure_path_within_root canonical_parent);;
      mret (path_in canonical_parent (name_of abs))
  end.

(** ** Locks *)

(** On Unix: one key, from the root and the target. *)
Definition write_target_keys (target_abs : bytes) : list bytes := [hash_bytes (root ++ B":" ++ target_abs)].

Definition ensure_no_active_write (active : gset bytes) (target_keys : list bytes) : result agent_error unit :=
  fail_if (existsb (fun key => bool_decide (key ∈ active)) target_keys) EWriteBusy.

Definition write_lock_root_path : bytes :=
  wh_temp_dir host ++ B"/nrm-agent-locks-v1-" ++ to_decimal (wh_effective_uid host).
Definition lock_path (key : bytes) : bytes := write_lock_root_path ++ B"/" ++ key ++ B".lock".

(** The owner and the mode of the directory are not part of the model: setting and checking
    them are calls that may fail. *)
Definition open_private_unix_lock_root : M unit :=
  entry ← symlink_metadata write_lock_root_path;
  match entry with
  | Some _ => mret ()
  | None =>
      syscall;; f ← get_fs;
      match names f !! write_lock_root_path with
      | Some _ => mret ()  (* AlreadyExists *)
      | None => modify (fun f => with_names (<[write_lock_root_path := EDir]> (names f)) f);; syscall  (* set_permissions *)
      end
  end;;
  entry ← symlink_metadata write_lock_root_path;
  match entry with
  | Some EDir => syscall;; syscall  (* open, and the checks through the handle *)
  | Some _ => throw ENotDirectory
  | None => throw EIo
  end.
(** [openat(.., O_CREAT | O_NOFOLLOW)], and the checks of the open file. *)
Definition open_private_unix_lock_file (key : bytes) : M unit :=
  syscall;; f ← get_fs;
  match names f !! lock_path key with
  | Some (EFile _) => mret ()
  | Some ESymlink => throw ESymlinkContent
  | Some EDir => throw ENotRegular
  | None =>
      let ino := fresh (used_inos f) in
      modify (fun f => with_names (<[lock_path key := EFile ino]> (names f))
                        (with_inodes (<[ino := {| data := []; mtime_ms := clock f / 1000000 |}]> (inodes f)) f))
  end;;
  syscall.
(** Whether another process holds a lock is up to it.  Sorting the keys changes nothing of one key. *)
Fixpoint lock_files (target_keys : list bytes) : M unit :=
  match target_keys with
  | [] => mret ()
  | key :: keys =>
      open_private_unix_lock_file key;;
      r ← attempt syscall;
      match r with Ok _ => lock_files keys | Err _ => throw EWriteBusy end
  end.
Definition acquire_write_locks (target_keys : list bytes) : M unit :=
  open_private_unix_lock_root;; lock_files target_keys.

(** The directory checks change nothing and may fail. *)
Definition open_write_parent : M unit := syscall.
Definition verify_write_parent_current : M unit := syscall.
Definition sync_write_parent : M unit := syscall.

(** What one-shot saves and uploads begin with. *)
Definition open_save (active : gset bytes) (path : bytes) : M bytes :=
  abs ← prepare_write_target path;
  lift_result (ensure_no_active_write active (write_target_keys abs));;
  pause host BeforeLock;;
  acquire_write_locks (write_target_keys abs);;
  mret abs.

(** ** One-shot saves *)

Definition tmp_path_of (abs : bytes) (now : Z) : bytes := with_extension abs (B"nrm-tmp-" ++ to_decimal now).

(** The last checks and the replacement itself, which both kinds of save share. *)
Definition commit_temp (abs tmp : bytes) (ino : Z) : M unit :=
  or_cleanup tmp verify_write_parent_current;;
  or_cleanup tmp (capture_temp_file_identity ino tmp);;
  rename_temp_into_path tmp abs;;
  sync_write_parent.

Definition report_conflict (path abs : bytes) (expected_hash actual_hash : option bytes) : M SaveOutcome :=
  pause host BeforeConflict;;
  SaveOutcome_Conflict <$> save_conflict path abs expected_hash actual_hash.

(** Up to the second look at the target: a conflict, or the temporary and its open file. *)
Definition stage_save (path : bytes) (expected_hash : option bytes) (content abs : bytes) :
    M (SaveOutcome + bytes * Z) :=
  open_write_parent;;
  pause host BeforeLook;;
  actual_hash ← current_hash abs;
  if negb (bool_decide (actual_hash = expected_hash)) then
    inl <$> report_conflict path abs expected_hash actual_hash
  else
    f ← get_fs;
    let tmp := tmp_path_of abs (clock f) in
    verify_write_parent_current;;
    pause host BeforeTemp;;
    ino ← create_temp_file tmp;
    pause host BeforeWrite;;
    or_cleanup tmp (write_at ino 0 content;; sync_all);;
    or_cleanup tmp (verify_temp_file_identity ino tmp);;
    or_cleanup tmp verify_write_parent_current;;
    pause host BeforeRecheck;;
    mret (inr (tmp, ino)).

(** From the second look at the target, which both kinds of save share; [report] is what is
    answered after the replacement. *)
Definition swap_save (path : bytes) (expected_hash : option bytes) (abs tmp : bytes) (ino : Z) (report : M SaveOutcome) :
    M SaveOutcome :=
  actual_hash ← current_hash abs;
  if negb (bool_decide (actual_hash = expected_hash)) then
    _ ← attempt (remove_temp_file tmp);
    report_conflict path abs expected_hash actual_hash
  else
    pause host BeforeRename;;
    commit_temp abs tmp ino;;
    pause host BeforeReport;;
    report.

Definition report_applied (path abs : bytes) : M SaveOutcome :=
  new_hash ← hash_file hash_bytes abs;
  '(size, mtime) ← file_meta hash_bytes abs;
  mret (SaveOutcome_Applied {| sa_path := path; sa_new_hash := new_hash; sa_size := size; sa_mtime_ms := mtime |}).

Definition write_file_cas_prepared (path : bytes) (expected_hash : option bytes) (content abs : bytes) : M SaveOutcome :=
  staged ← stage_save path expected_hash content abs;
  match staged with
  | inl conflict => mret conflict
  | inr (tmp, ino) => swap_save path expected_hash abs tmp ino (report_applied path abs)
  end.

(** A handler of the agent: the reply, the table and the file system after it. *)
Definition handled : Type := result agent_error Response * AgentState * fs.

Definition write_file_cas_state (st : AgentState) (path : bytes) (expected_hash : option bytes) (content : bytes)
    (f : fs) : handled :=
  let run : M Response :=
    abs ← open_save (active_write_targets st) path;
    Response_WriteFileCas <$> write_file_cas_prepared path expected_hash content abs in
  let '(r, f) := run f in (r, st, f).

(** ** Uploads *)

Definition remove_keys (keys : list bytes) (active : gset bytes) : gset bytes := active ∖ list_to_set keys.
(** [state.uploads.remove(id)] with the cleanup of the entry. *)
Definition drop_upload (id : bytes) (st : AgentState) : M AgentState :=
  match uploads st !! id with
  | None => mret st
  | Some u =>
      _ ← attempt (remove_temp_file (up_tmp_path u));
      mret {| uploads := delete id (uploads st);
              active_write_targets := remove_keys (up_target_keys u) (active_write_targets st) |}
  end.

Definition is_expired (now : Z) (u : PendingUpload) : bool := saturating_sub now (up_created_at u) >? UPLOAD_TTL.
Definition expired_uploads (now : Z) (st : AgentState) : list bytes :=
  (List.filter (fun '(_, u) => is_expired now u) (map_to_list (uploads st))).*1.
Fixpoint drop_uploads (ids : list bytes) (st : AgentState) : M AgentState :=
  match ids with
  | [] => mret st
  | id :: ids => st ← drop_upload id st; drop_uploads ids st
  end.
Definition cleanup_expired_uploads_at (now : Z) (st : AgentState) : M AgentState :=
  drop_uploads (expired_uploads now st) st.
(** A handler's first step; it cannot fail. *)
Definition cleanup (now : Z) (st : AgentState) (f : fs) : AgentState * fs :=
  match cleanup_expired_uploads_at now st f with
  | (Ok st, f) => (st, f)
  | (Err _, f) => (st, f)
  end.

Definition upload_bytes (st : AgentState) : Z :=
  foldl (fun sum '(_, u) => saturating_add sum (up_size u)) 0 (map_to_list (uploads st)).
Definition enforce_upload_limits (st : AgentState) (new_size : Z) : result agent_error unit :=
  _ ← fail_if (Z.of_nat (size (uploads st)) >=? MAX_ACTIVE_UPLOADS) ETooManyUploads;
  fail_if (saturating_add (upload_bytes st) new_size >? MAX_ACTIVE_UPLOAD_BYTES) ETooManyBytes.

Definition upload_id_of (path : bytes) (clock_ : Z) : bytes := to_decimal clock_ ++ B"-" ++ hash_bytes path.

Inductive begun :=
| BegunConflict (c : SaveConflict)
| BegunUpload (upload_id tmp : bytes) (tmp_file : Z).

(** [begin_write_file_cas] up to the registration of the upload. *)
Definition begin_prepared (path : bytes) (expected_hash : option bytes) (abs : bytes) : M begun :=
  open_write_parent;;
  pause host BeforeLook;;
  actual_hash ← current_hash abs;
  if negb (bool_decide (actual_hash = expected_hash)) then
    pause host BeforeConflict;;
    BegunConflict <$> save_conflict path abs expected_hash actual_hash
  else
    f ← get_fs;
    let upload_id := upload_id_of path (clock f) in
    let tmp := with_extension abs (B"nrm-upload-" ++ upload_id) in
    verify_write_parent_current;;
    pause host BeforeTemp;;
    ino ← create_temp_file tmp;
    mret (BegunUpload upload_id tmp ino).

Definition begin_write_file_cas (now : Z) (st : AgentState) (path : bytes) (expected_hash : option bytes)
    (content_hash : bytes) (size : Z) (f : fs) : handled :=
  let '(st, f) := cleanup now st f in
  match enforce_upload_limits st size with
  | Err e => (Err e, st, f)
  | Ok _ =>
      match open_save (active_write_targets st) path f with
      | (Err e, f) => (Err e, st, f)
      | (Ok abs, f) =>
          match begin_prepared path expected_hash abs f with
          | (Err e, f) => (Err e, st, f)
          | (Ok (BegunConflict c), f) => (Ok (Response_BeginWriteFileCas (WriteStart_Conflict c)), st, f)
          | (Ok (BegunUpload upload_id tmp ino), f) =>
              let u := {| up_path := path; up_target_abs := abs; up_target_keys := write_target_keys abs;
                          up_expected_hash := expected_hash; up_content_hash := content_hash; up_size := size;
                          up_tmp_path := tmp; up_tmp_file := ino; up_written := 0; up_created_at := now |} in
              (Ok (Response_BeginWriteFileCas (WriteStart_Started {| ws_upload_id := upload_id |})),
               {| uploads := <[upload_id := u]> (uploads st);
                  active_write_targets := active_write_targets st ∪ list_to_set (up_target_keys u) |}, f)
          end
      end
  end.

Definition with_written (n : Z) (u : PendingUpload) : PendingUpload := {|
  up_path := up_path u; up_target_abs := up_target_abs u; up_target_keys := up_target_keys u;
  up_expected_hash := up_expected_hash u; up_content_hash := up_content_hash u; up_size := up_size u;
  up_tmp_path := up_tmp_path u; up_tmp_file := up_tmp_file u; up_written := n; up_created_at := up_created_at u |}.

Definition write_file_chunk (now : Z) (st : AgentState) (upload_id : bytes) (offset : Z) (content : bytes)
    (f : fs) : handled :=
  let '(st, f) := cleanup now st f in
  match uploads st !! upload_id with
  | None => (Err EUnknownUpload, st, f)
  | Some u =>
      if negb (offset =? up_written u) then (Err EUploadOffset, st, f)
      else
        let next := saturating_add (up_written u) (zlen content) in
        if next >? up_size u then (Err EUploadTooLarge, st, f)
        else
          match (syscall;; write_at (up_tmp_file u) (Z.to_nat offset) content) f with
          | (Err e, f) => (Err e, st, f)
          | (Ok _, f) =>
              (Ok (Response_WriteFileChunk upload_id next),
               {| uploads := <[upload_id := with_written next u]> (uploads st);
                  active_write_targets := active_write_targets st |}, f)
          end
  end.

Definition finish_prepared (u : PendingUpload) : M SaveOutcome :=
  let tmp := up_tmp_path u in
  let abs := up_target_abs u in
  if negb (up_written u =? up_size u) then _ ← attempt (remove_temp_file tmp); throw EUploadIncomplete
  else
    or_cleanup tmp sync_all;;
    tmp_hash ← or_cleanup tmp (hash_open_file hash_bytes (up_tmp_file u));
    if negb (bytes_eqb tmp_hash (up_content_hash u)) then _ ← attempt (remove_temp_file tmp); throw EUploadHash
    else
      or_cleanup tmp (verify_temp_file_identity (up_tmp_file u) tmp);;
      or_cleanup tmp verify_write_parent_current;;
      pause host BeforeRecheck;;
      swap_save (up_path u) (up_expected_hash u) abs tmp (up_tmp_file u)
        ('(size, mtime) ← file_meta hash_bytes abs;
         mret (SaveOutcome_Applied {| sa_path := up_path u; sa_new_hash := tmp_hash; sa_size := size; sa_mtime_ms := mtime |})).

Definition finish_write_file_cas (now : Z) (st : AgentState) (upload_id : bytes) (f : fs) : handled :=
  let '(st, f) := cleanup now st f in
  match uploads st !! upload_id with
  | None => (Err EUnknownUpload, st, f)
  | Some u =>
      let '(r, f) := finish_prepared u f in
      (o ← r; Ok (Response_FinishWriteFileCas o),
       {| uploads := delete upload_id (uploads st);
          active_write_targets := remove_keys (up_target_keys u) (active_write_targets st) |}, f)
  end.

Definition abort_write_file_cas (now : Z) (st : AgentState) (upload_id : bytes) (f : fs) : handled :=
  let '(st, f) := cleanup now st f in
  match drop_upload upload_id st f with
  | (Ok st, f) => (Ok (Response_AbortWriteFileCas upload_id), st, f)
  | (Err e, f) => (Err e, st, f)
  end.

(** The write requests of [handle_request]; [None] for the others. *)
Definition handle_write (now : Z) (st : AgentState) (r : Request) (f : fs) : option handled :=
  match r with
  | Request_WriteFileCas path expected_hash content => Some (write_file_cas_state st path expected_hash content f)
  | Request_BeginWriteFileCas path expected_hash content_hash size =>
      Some (begin_write_file_cas now st path expected_hash content_hash size f)
  | Request_WriteFileChunk upload_id offset content => Some (write_file_chunk now st upload_id offset content f)
  | Request_FinishWriteFileCas upload_id => Some (finish_write_file_cas now st upload_id f)
  | Request_AbortWriteFileCas upload_id => Some (abort_write_file_cas now st upload_id f)
  | _ => None
  end.
End Agent.
