(* ===== verification/AgentWriteProps.v ===== *)
(** * Properties of saves

    A small logic for programs over the file system, in which every system call may
    fail and other processes step in, and with it: what a save does to the target, and that
    it leaves everything else alone. *)
From S2P Require Import Prelude Paths Protocol AgentFs AgentWrite.

(** ** Specifications of programs *)

(** From a state in [P], [m] ends well in [Q] or fails in [E]. *)
Definition spec {A} (P : fs -> Prop) (m : M A) (Q : A -> fs -> Prop) (E : fs -> Prop) : Prop :=
  forall f, P f -> match m f with (Ok a, f') => Q a f' | (Err _, f') => E f' end.

Lemma spec_ret {A} (Q : A -> fs -> Prop) (P E : fs -> Prop) a : (forall f, P f -> Q a f) -> spec P (mret a) Q E.
Proof. intros H f Hf. exact (H f Hf). Qed.

Lemma spec_throw {A} (Q : A -> fs -> Prop) (P E : fs -> Prop) e : (forall f, P f -> E f) -> spec P (throw e) Q E.
Proof. intros H f Hf. exact (H f Hf). Qed.

Lemma M_bind_Ok {A B} (m : M A) (k : A -> M B) f b f' :
  (m ≫= k) f = (Ok b, f') -> exists a f1, m f = (Ok a, f1) /\ k a f1 = (Ok b, f').
Proof. unfold mbind, M_bind. destruct (m f) as [[a|e] f1]; [eauto | done]. Qed.

Section Rules.
Context {A B : Type}.

Lemma spec_bind (m : M A) (k : A -> M B) P Q R E :
  spec P m Q E -> (forall a, spec (Q a) (k a) R E) -> spec P (m ≫= k) R E.
Proof.
  intros Hm Hk f Hf. specialize (Hm f Hf). unfold mbind, M_bind. destruct (m f) as [[a|e] f']; [|done].
  by apply Hk.
Qed.

Lemma spec_weaken (m : M A) P Q E P' Q' E' :
  spec P m Q E -> (forall f, P' f -> P f) -> (forall a f, Q a f -> Q' a f) -> (forall f, E f -> E' f) ->
  spec P' m Q' E'.
Proof. intros Hm HP HQ HE f Hf. specialize (Hm f (HP f Hf)). destruct (m f) as [[a|e] f']; auto. Qed.

Lemma spec_get (P : fs -> Prop) (k : fs -> M B) R E :
  (forall f0, P f0 -> spec (fun f => f = f0) (k f0) R E) -> spec P (get_fs ≫= k) R E.
Proof. intros H f Hf. by apply (H f Hf). Qed.

(** What an attempt leaves behind is known whichever way it ended. *)
Lemma spec_attempt (m : M A) P Q E :
  spec P m Q E -> spec P (attempt m) (fun r f => match r with Ok a => Q a f | Err _ => E f end) (fun _ => False).
Proof. intros Hm f Hf. specialize (Hm f Hf). unfold attempt. destruct (m f) as [[a|e] f']; exact Hm. Qed.

Lemma spec_fmap (g : A -> B) (m : M A) P Q (R : B -> fs -> Prop) E :
  spec P m Q E -> (forall a f, Q a f -> R (g a) f) -> spec P (g <$> m) R E.
Proof. intros Hm HR. unfold fmap, M_fmap. eapply spec_bind; [exact Hm|]. intros a. apply spec_ret. apply HR. Qed.

Lemma spec_pure (P : fs -> Prop) (phi : Prop) (m : M A) Q E :
  (forall f, P f -> phi) -> (phi -> spec P m Q E) -> spec P m Q E.
Proof. intros Hphi Hm f Hf. exact (Hm (Hphi f Hf) f Hf). Qed.
End Rules.

(** ** States up to the faults to come *)

Definition like (g f : fs) : Prop := names f = names g /\ inodes f = inodes g /\ clock f = clock g.
Abbreviation reads g m := (spec (like g) m (fun _ => like g) (like g)).

Lemma like_refl g : like g g.
Proof. done. Qed.

Lemma spec_next_fault g : spec (like g) next_fault (fun _ => like g) (fun _ => False).
Proof. intros f Hf. unfold next_fault. destruct (faults f); exact Hf. Qed.

Lemma spec_syscall g : reads g syscall.
Proof.
  unfold syscall. eapply spec_bind.
  - eapply spec_weaken; [apply (spec_next_fault g)|done|done|done].
  - intros [n|]; [by apply spec_throw | by apply spec_ret].
Qed.

(** After a call, look at the state. *)
Lemma spec_syscall_get {B} g (k : fs -> M B) (R : B -> fs -> Prop) (E : fs -> Prop) :
  (forall f, like g f -> E f) ->
  (forall f0, like g f0 -> spec (like g) (k f0) R E) -> spec (like g) (syscall;; f ← get_fs; k f) R E.
Proof.
  intros HE Hk. eapply spec_bind; [eapply spec_weaken; [apply (spec_syscall g)|done|done|done]|].
  intros []. apply spec_get. intros f0 Hf0. eapply spec_weaken; [by apply Hk| |done|done]. by intros f ->.
Qed.

(** ** What a path holds *)

Inductive node := NFile (content : bytes) | NSymlink | NDir.
Definition node_at (f : fs) (p : bytes) : option node :=
  e ← names f !! p;
  Some (match e with EFile ino => NFile (file_data f ino) | ESymlink => NSymlink | EDir => NDir end).

Lemma like_node g f p : like g f -> node_at f p = node_at g p.
Proof. intros (Hn & Hi & _). unfold node_at, file_data. by rewrite Hn, Hi. Qed.

(** The state in which [tmp] is a new file [ino] that holds [i]. *)
Definition stage (tmp : bytes) (ino : Z) (i : inode) (g : fs) : fs :=
  with_names (<[tmp := EFile ino]> (names g)) (with_inodes (<[ino := i]> (inodes g)) g).
(** The state in which the file of [tmp] has become [abs]. *)
Definition committed (tmp abs : bytes) (ino : Z) (s : fs) : fs := with_names (<[abs := EFile ino]> (delete tmp (names s))) s.

Definition unnamed (ino : Z) (g : fs) : Prop := forall p, names g !! p <> Some (EFile ino).

Lemma fresh_unnamed g : unnamed (fresh (used_inos g)) g.
Proof.
  intros p Hp. apply (infinite_is_fresh (used_inos g)). apply elem_of_app. right. apply list_elem_of_bind.
  exists (EFile (fresh (used_inos g))). split; [by apply list_elem_of_singleton|].
  apply list_elem_of_fmap. exists (p, EFile (fresh (used_inos g))). split; [done|]. by apply elem_of_map_to_list.
Qed.
Lemma fresh_unused g : inodes g !! fresh (used_inos g) = None.
Proof.
  apply eq_None_not_Some. intros [i Hi]. apply (infinite_is_fresh (used_inos g)). apply elem_of_app. left.
  apply list_elem_of_fmap. exists (fresh (used_inos g), i). split; [done|]. by apply elem_of_map_to_list.
Qed.

Lemma stage_data tmp ino i g : file_data (stage tmp ino i g) ino = data i.
Proof. unfold file_data, stage. cbn. by rewrite lookup_insert_eq. Qed.

Lemma put_stage tmp ino i bs g :
  with_inodes (<[ino := {| data := bs; mtime_ms := clock g / 1000000 |}]> (inodes (stage tmp ino i g))) (stage tmp ino i g) =
  stage tmp ino {| data := bs; mtime_ms := clock g / 1000000 |} g.
Proof. unfold stage, with_names, with_inodes. cbn. by rewrite insert_insert_eq. Qed.

Lemma stage_node tmp ino i g p : unnamed ino g -> p <> tmp -> node_at (stage tmp ino i g) p = node_at g p.
Proof.
  intros Hu Hp. unfold node_at, stage, file_data. cbn. rewrite lookup_insert_ne by done.
  destruct (names g !! p) as [[ino'| |]|] eqn:E; [|done..]. cbn. rewrite lookup_insert_ne; [done|].
  intros ->. by destruct (Hu p).
Qed.

Lemma committed_target tmp abs ino s : node_at (committed tmp abs ino s) abs = Some (NFile (file_data s ino)).
Proof. unfold node_at, committed. cbn. by rewrite lookup_insert_eq. Qed.

Lemma committed_temp tmp abs ino s : tmp <> abs -> node_at (committed tmp abs ino s) tmp = None.
Proof. intros Hne. unfold node_at, committed. cbn. by rewrite lookup_insert_ne, lookup_delete_eq. Qed.

Lemma committed_other tmp abs ino s p : p <> abs -> p <> tmp -> node_at (committed tmp abs ino s) p = node_at s p.
Proof. intros Ha Ht. unfold node_at, committed. cbn. by rewrite lookup_insert_ne, lookup_delete_ne. Qed.

Lemma overwrite_all content : overwrite [] 0 content = content.
Proof. unfold overwrite. by rewrite drop_nil, app_nil_r. Qed.

(** ** Specifications of the calls and helpers *)

Section Calls.
Context (hash_bytes : bytes -> bytes).

Definition node_hash (n : option node) : option bytes :=
  match n with Some (NFile content) => Some (hash_bytes content) | _ => None end.

Lemma spec_open g abs : spec (like g) (open_existing_content_file abs)
  (fun ino f => like g f /\ names g !! abs = Some (EFile ino)) (like g).
Proof.
  unfold open_existing_content_file. apply spec_syscall_get; [done|]. intros f0 (Hn & _ & _). rewrite Hn.
  destruct (names g !! abs) as [[ino| |]|] eqn:E; [|by apply spec_throw..].
  eapply spec_bind; [apply spec_syscall|]. intros []. by apply spec_ret.
Qed.

Lemma spec_hash_open g ino : spec (like g) (hash_open_file hash_bytes ino)
  (fun h f => like g f /\ h = hash_bytes (file_data g ino)) (like g).
Proof.
  unfold hash_open_file. apply spec_syscall_get; [done|]. intros f0 (_ & Hi & _). apply spec_ret.
  intros f Hf. split; [done|]. unfold file_data. by rewrite Hi.
Qed.

Lemma spec_symlink_metadata g p : spec (like g) (symlink_metadata p)
  (fun e f => like g f /\ e = names g !! p) (like g).
Proof.
  unfold symlink_metadata. apply spec_syscall_get; [done|]. intros f0 (Hn & _ & _). apply spec_ret.
  intros f Hf. split; [done|]. by rewrite Hn.
Qed.

Lemma spec_current_hash g abs : spec (like g) (current_regular_file_hash hash_bytes abs)
  (fun h f => like g f /\ h = node_hash (node_at g abs)) (like g).
Proof.
  unfold current_regular_file_hash. eapply spec_bind; [apply spec_symlink_metadata|]. intros e.
  apply (spec_pure _ (e = names g !! abs)); [by intros f []|]. intros ->.
  unfold node_at. destruct (names g !! abs) as [[ino| |]|] eqn:E; cbn.
  - eapply spec_bind; [eapply spec_weaken; [apply (spec_open g abs)| |done|done]; by intros f []|]. intros ino'.
    apply (spec_pure _ (ino' = ino)); [rewrite E; by intros f [_ [=]]|]. intros ->.
    eapply spec_bind; [eapply spec_weaken; [apply (spec_hash_open g ino)| |done|done]; by intros f []|]. intros h.
    apply spec_ret. by intros f [? ->].
  - apply spec_throw. by intros f [].
  - apply spec_ret. by intros f [].
  - apply spec_ret. by intros f [].
Qed.

Lemma spec_conflict g path abs expected actual : spec (like g) (save_conflict path abs expected actual)
  (fun c f => like g f /\ sc_actual_hash c = actual /\ sc_expected_hash c = expected) (fun _ => False).
Proof.
  unfold save_conflict. eapply (spec_bind _ _ _ (fun _ => like g)).
  - unfold remote_conflict_content.
    eapply spec_bind; [eapply spec_attempt; apply (spec_open g abs)|]. intros [ino|e].
    + apply spec_get. intros f0 [Hf0 _].
      assert (Hread : forall n, spec (like g) (read_open_file_prefix ino n) (fun _ => like g) (like g)).
      { intros n. unfold read_open_file_prefix. apply spec_syscall_get; [done|]. intros f1 _. by apply spec_ret. }
      eapply spec_bind; [eapply spec_weaken; [apply (spec_attempt _ _ _ _ (Hread _))| |done|done]; by intros f ->|].
      intros r. apply spec_ret. by destruct r.
    + by apply spec_ret.
  - intros [[content truncated] size]. by apply spec_ret.
Qed.

Lemma spec_create g tmp : spec (like g) (create_temp_file tmp)
  (fun ino f => names g !! tmp = None /\ unnamed ino g /\
     like (stage tmp ino {| data := []; mtime_ms := clock g / 1000000 |} g) f) (like g).
Proof.
  unfold create_temp_file, create_new. apply spec_syscall_get; [done|]. intros f0 (Hn & Hi & Hc). rewrite Hn.
  destruct (names g !! tmp) eqn:E; [by apply spec_throw|].
  assert (Hu : used_inos f0 = used_inos g) by (unfold used_inos; by rewrite Hn, Hi). rewrite Hu.
  intros f (Hfn & Hfi & Hfc). cbn. repeat split; [apply fresh_unnamed|..]; cbn; by rewrite ?Hfn, ?Hfi, ?Hfc.
Qed.
End Calls.

(** ** Programs that keep a property *)

Definition keeps {A} (P : fs -> Prop) (m : M A) : Prop := spec P m (fun _ => P) P.

(** A property of the files, not of the failures to come. *)
Class OfFiles (P : fs -> Prop) : Prop := of_files f fl : P f -> P (with_faults fl f).

#[export] Instance like_files g : OfFiles (like g).
Proof. by intros f fl Hf. Qed.

Section Keeps.
Context (P : fs -> Prop) `{!OfFiles P}.

Lemma keeps_ret {A} (a : A) : keeps P (mret a).
Proof. by apply spec_ret. Qed.
Lemma keeps_throw {A} e : keeps P (throw (A := A) e).
Proof. by apply spec_throw. Qed.
Lemma keeps_seq {A B} (m : M A) (k : A -> M B) : keeps P m -> (forall a, keeps P (k a)) -> keeps P (m ≫= k).
Proof. apply spec_bind. Qed.
Lemma keeps_fmap {A B} (g : A -> B) (m : M A) : keeps P m -> keeps P (g <$> m).
Proof. intros Hm. apply keeps_seq; [done|]. intros a. apply keeps_ret. Qed.
Lemma keeps_get : keeps P get_fs.
Proof. by intros f Hf. Qed.
Lemma keeps_lift {A} (r : result agent_error A) : keeps P (lift_result r).
Proof. intros f Hf. by destruct r. Qed.
Lemma keeps_attempt {A} (m : M A) : keeps P m -> keeps P (attempt m).
Proof. intros Hm f Hf. specialize (Hm f Hf). unfold attempt. by destruct (m f) as [[a|e] f']. Qed.
Lemma keeps_next_fault : keeps P next_fault.
Proof. intros f Hf. unfold next_fault. destruct (faults f); [done|]. by apply of_files. Qed.
Lemma keeps_syscall : keeps P syscall.
Proof. apply keeps_seq; [apply keeps_next_fault|]. intros [n|]; [apply keeps_throw | apply keeps_ret]. Qed.
Lemma keeps_or_cleanup {A} tmp (m : M A) : keeps P m -> keeps P (remove_temp_file tmp) -> keeps P (or_cleanup tmp m).
Proof.
  intros Hm Hr. apply keeps_seq; [by apply keeps_attempt|]. intros [a|e]; [apply keeps_ret|].
  apply keeps_seq; [by apply keeps_attempt|]. intros r. apply keeps_throw.
Qed.
End Keeps.

Create HintDb kept.
#[export] Hint Resolve keeps_ret keeps_throw keeps_get keeps_lift keeps_next_fault keeps_syscall : kept.

(** Walk through a program whose calls keep the property. *)
Ltac kept := repeat match goal with
  | |- keeps _ (or_cleanup _ _) => apply keeps_or_cleanup
  | |- keeps _ (_ <$> _) => apply keeps_fmap
  | |- keeps _ (_ ≫= _) => apply keeps_seq; [|intros ?]
  | |- keeps _ (attempt _) => apply keeps_attempt
  | |- keeps _ (let _ := _ in _) => cbv zeta
  | |- keeps _ (match ?x with _ => _ end) => destruct x
  | |- keeps _ _ => solve [eauto 3 with kept typeclass_instances]
  end.

(** The helpers that only look. *)
Section Looks.
Context (P : fs -> Prop) `{!OfFiles P} (hash_bytes : bytes -> bytes).

Lemma keeps_metadata p : keeps P (symlink_metadata p).
Proof. unfold symlink_metadata. kept. Qed.
Lemma keeps_open_file p : keeps P (open_existing_content_file p).
Proof. unfold open_existing_content_file. kept. Qed.
Lemma keeps_hash_open ino : keeps P (hash_open_file hash_bytes ino).
Proof. unfold hash_open_file. kept. Qed.
Lemma keeps_current_hash p : keeps P (current_regular_file_hash hash_bytes p).
Proof. pose proof keeps_metadata. pose proof keeps_open_file. pose proof keeps_hash_open. unfold current_regular_file_hash. kept. Qed.
Lemma keeps_conflict path abs e a : keeps P (save_conflict path abs e a).
Proof. pose proof keeps_open_file. unfold save_conflict, remote_conflict_content, read_open_file_prefix. kept. Qed.
Lemma keeps_verify ino p : keeps P (verify_temp_file_identity ino p).
Proof. pose proof keeps_metadata. unfold verify_temp_file_identity. kept. Qed.
Lemma keeps_hash_file p : keeps P (hash_file hash_bytes p).
Proof. pose proof keeps_hash_open. unfold hash_file. kept. Qed.
Lemma keeps_file_meta p : keeps P (file_meta hash_bytes p).
Proof. pose proof keeps_metadata. pose proof keeps_hash_file. unfold file_meta. kept. Qed.
Lemma keeps_exists host p : keeps P (path_exists host p).
Proof. unfold path_exists. kept. Qed.
Lemma keeps_is_dir host p : keeps P (is_dir host p).
Proof. unfold is_dir. kept. Qed.
End Looks.
#[export] Hint Resolve keeps_metadata keeps_open_file keeps_hash_open keeps_current_hash keeps_conflict keeps_verify
  keeps_hash_file keeps_file_meta keeps_exists keeps_is_dir : kept.

(** ** One path, and the others *)

(** The path [q] has the entry [e], whose file, if it is one, is [d]; and the time is [now]. *)
Definition holds (q : bytes) (e : option dir_entry) (d : option inode) (now : Z) (f : fs) : Prop :=
  names f !! q = e /\ (forall ino, e = Some (EFile ino) -> inodes f !! ino = d) /\ clock f = now.
Definition file_of (q : bytes) (f : fs) : option inode :=
  match names f !! q with Some (EFile ino) => inodes f !! ino | _ => None end.

#[export] Instance holds_files q e d now : OfFiles (holds q e d now).
Proof. by intros f fl Hf. Qed.

Lemma holds_now q f : holds q (names f !! q) (file_of q f) (clock f) f.
Proof. split_and!; [done| |done]. intros ino E. unfold file_of. by rewrite E. Qed.
Lemma holds_node q e d now f g : holds q e d now f -> holds q e d now g -> node_at f q = node_at g q.
Proof.
  intros (H1 & H2 & _) (H3 & H4 & _). unfold node_at. rewrite H1, H3. destruct e as [[ino| |]|]; [|done..].
  cbn. unfold file_data. by rewrite H2, H4.
Qed.

Lemma like_holds q f g : like f g -> holds q (names f !! q) (file_of q f) (clock f) g.
Proof.
  intros (Hn & Hi & Hc). pose proof (holds_now q f) as (H1 & H2 & _). split_and!; [by rewrite Hn| |done].
  intros i E. rewrite Hi. by apply H2.
Qed.

(** At [k], the others leave [q] alone: its entry and its content. *)
Definition leaves (host : WriteHost) (q : bytes) (k : point) : Prop := forall t,
  fst (wh_others host k t) !! q = fst t !! q /\
  forall ino, fst t !! q = Some (EFile ino) -> snd (wh_others host k t) !! ino = snd t !! ino.
Definition left_alone (host : WriteHost) (q : bytes) : Prop := forall k, leaves host q k.
(** No other process touches anything. *)
Definition alone (host : WriteHost) : Prop := forall k t, wh_others host k t = t.

Lemma alone_leaves host q : alone host -> left_alone host q.
Proof. intros H k t. by rewrite H. Qed.

Section Path.
Context (host : WriteHost) (q : bytes) (e : option dir_entry) (d : option inode) (now : Z).
Abbreviation here := (holds q e d now).

Lemma keeps_pause k : leaves host q k -> keeps here (pause host k).
Proof.
  intros Hl f (H1 & H2 & H3). specialize (Hl (names f, inodes f)). unfold pause.
  destruct (wh_others host k (names f, inodes f)) as [ns nodes]. cbn in *. destruct Hl as [Hn Hi].
  split_and!; cbn; [by rewrite Hn | |done]. intros ino Hq. rewrite (Hi ino) by congruence. by apply H2.
Qed.

Lemma keeps_unlink p : p <> q -> keeps here (unlink p).
Proof.
  intros Hp. unfold unlink. kept; intros f (H1 & H2 & H3); split_and!; cbn; try done; by rewrite lookup_delete_ne.
Qed.
Lemma keeps_rename p p' : p <> q -> p' <> q -> keeps here (rename p p').
Proof.
  intros Hp Hp'. unfold rename. kept; intros f (H1 & H2 & H3); split_and!; cbn; try done;
    by rewrite lookup_insert_ne, lookup_delete_ne.
Qed.
Lemma keeps_set_data ino bs : e <> Some (EFile ino) -> keeps here (set_data ino bs).
Proof. intros He f (H1 & H2 & H3). split_and!; cbn; [done| |done]. intros i Hi. rewrite lookup_insert_ne by congruence. by apply H2. Qed.
Lemma keeps_write_at ino offset content : e <> Some (EFile ino) -> keeps here (write_at ino offset content).
Proof. intros He. pose proof (fun bs => keeps_set_data ino bs He). unfold write_at. kept. Qed.

(** A file created elsewhere is a new one. *)
Lemma spec_create_elsewhere p : p <> q ->
  spec here (create_temp_file p) (fun ino f => here f /\ e <> Some (EFile ino)) here.
Proof.
  intros Hp. unfold create_temp_file, create_new. eapply spec_bind; [apply keeps_syscall, _|]. intros [].
  apply spec_get. intros f (H1 & H2 & H3). destruct (names f !! p); [apply spec_throw; intros ? ->; by split_and!|].
  assert (Hne : e <> Some (EFile (fresh (used_inos f)))) by (rewrite <- H1; apply fresh_unnamed).
  intros f0 ->. cbn. split; [|done]. split_and!; cbn; [by rewrite lookup_insert_ne| |done].
  intros ino Hq. rewrite lookup_insert_ne by congruence. by apply H2.
Qed.
End Path.
#[export] Hint Resolve keeps_pause keeps_unlink keeps_rename keeps_write_at : kept.

(** ** What opening a save may create *)

(** [q] is as it was, or was missing and is now a directory or an empty lock file. *)
Definition grown (host : WriteHost) (q : bytes) (e0 : option dir_entry) (d0 : option inode) (now : Z) (f : fs) : Prop :=
  exists e d, holds q e d now f /\
    (e = e0 /\ d = d0 \/
     e0 = None /\ (e = Some EDir \/ (exists key, q = lock_path host key) /\ exists ino i, e = Some (EFile ino) /\ d = Some i /\ data i = [])).
#[export] Instance grown_files host q e0 d0 now : OfFiles (grown host q e0 d0 now).
Proof. intros f fl (e & d & H & Hw). by exists e, d. Qed.

Section Grown.
Context (root : bytes) (hash_bytes : bytes -> bytes) (host : WriteHost) (q : bytes) (e0 : option dir_entry) (d0 : option inode) (now : Z).
Abbreviation fine := (grown host q e0 d0 now).

Lemma keeps_grown {A} (m : M A) : (forall e d, keeps (holds q e d now) m) -> keeps fine m.
Proof.
  intros Hm f (e & d & H & Hw). specialize (Hm e d f H). destruct (m f) as [[a|err] f']; by exists e, d.
Qed.

(** A missing entry becomes a directory. *)
Lemma grown_dir key f : fine f -> names f !! key = None -> fine (with_names (<[key := EDir]> (names f)) f).
Proof.
  intros (e & d & (H1 & H2 & H3) & Hw) Hk. destruct (decide (key = q)) as [->|Hne].
  - exists (Some EDir), None. split; [split_and!; cbn; [apply lookup_insert_eq | done | done]|]. right.
    destruct Hw as [[<- _]|[-> _]]; [|by split; [|left]]. split; [by rewrite <- H1 | by left].
  - exists e, d. split; [|done]. split_and!; cbn; [by rewrite lookup_insert_ne | done | done].
Qed.

Lemma keeps_insert_dir key :
  keeps fine (f ← get_fs; match names f !! key with
                          | Some _ => mret ()
                          | None => modify (fun f => with_names (<[key := EDir]> (names f)) f);; syscall
                          end).
Proof.
  apply spec_get. intros f Hf. destruct (names f !! key) eqn:E; [apply spec_ret; by intros ? ->|].
  eapply (spec_bind _ _ _ (fun _ => fine)); [|intros; apply keeps_syscall, _]. intros f0 ->. by apply grown_dir.
Qed.

Lemma keeps_mkdir path : keeps fine (mkdir host path).
Proof.
  unfold mkdir. apply keeps_seq; [apply keeps_syscall, _|]. intros _. apply spec_get. intros f Hf.
  destruct (real_path host f path) as [key|err]; [|apply spec_throw; by intros ? ->].
  destruct (names f !! key) eqn:E; [apply spec_throw; by intros ? ->|]. intros f0 ->. by apply grown_dir.
Qed.
Lemma keeps_create_dirs fuel path : keeps fine (create_dirs host fuel path).
Proof.
  pose proof keeps_mkdir. revert path. induction fuel as [|fuel IH]; intros [|b path]; cbn [create_dirs]; unfold unless_dir; kept.
Qed.
Lemma keeps_ancestor fuel path : keeps fine (existing_ancestor host fuel path).
Proof. revert path. induction fuel as [|fuel IH]; intros path; cbn [existing_ancestor]; kept. Qed.
Lemma keeps_prepare_target path : keeps fine (prepare_write_target root host path).
Proof.
  pose proof keeps_ancestor. pose proof keeps_create_dirs.
  unfold prepare_write_target, ensure_write_parent_inside_root, canonicalized, create_dir_all. kept.
Qed.

Lemma keeps_lock_root : keeps fine (open_private_unix_lock_root host).
Proof.
  pose proof (keeps_insert_dir (write_lock_root_path host)). unfold open_private_unix_lock_root.
  apply keeps_seq; [kept|]. intros [en|]; [kept|]. apply keeps_seq; [apply keeps_seq; [kept | done]|]. intros []. kept.
Qed.
Lemma keeps_lock_file key : keeps fine (open_private_unix_lock_file host key).
Proof.
  unfold open_private_unix_lock_file. apply keeps_seq; [kept|]. intros []. apply spec_get. intros f Hf.
  eapply (spec_bind _ _ _ (fun _ => fine)); [|intros []; apply keeps_syscall, _].
  destruct (names f !! lock_path host key) as [[| |]|] eqn:E;
    [apply spec_ret; by intros ? -> | apply spec_throw; by intros ? -> ..|].
  intros f0 ->. cbn. destruct Hf as (e & d & (H1 & H2 & H3) & Hw). destruct (decide (lock_path host key = q)) as [<-|Hne].
  - set (i := {| data := []; mtime_ms := clock f / 1000000 |}). exists (Some (EFile (fresh (used_inos f)))), (Some i).
    split; [split_and!; cbn; [apply lookup_insert_eq | intros ino [= <-]; apply lookup_insert_eq | done]|]. right.
    destruct Hw as [[<- _]|[-> _]]; (split; [by rewrite <- ?H1|]); right; (split; [by exists key|]); by eexists _, i.
  - exists e, d. split; [|done]. split_and!; cbn; [by rewrite lookup_insert_ne| |done]. intros ino He.
    rewrite lookup_insert_ne; [by apply H2|]. intros <-. apply (fresh_unnamed f q). by rewrite H1.
Qed.
Lemma keeps_locks keys : keeps fine (acquire_write_locks host keys).
Proof.
  pose proof keeps_lock_root. pose proof keeps_lock_file. unfold acquire_write_locks. apply keeps_seq; [done|]. intros [].
  induction keys as [|key keys IH]; cbn [lock_files]; kept.
Qed.

Lemma keeps_open_save active path : leaves host q BeforeLock -> keeps fine (open_save hash_bytes root host active path).
Proof.
  intros Hl. pose proof keeps_prepare_target. pose proof keeps_locks.
  assert (keeps fine (pause host BeforeLock)) by (apply keeps_grown; intros; by apply keeps_pause).
  unfold open_save. kept.
Qed.
End Grown.

(** ** The temporary file *)

Lemma spec_and {A} (m : M A) P Q E P' Q' E' :
  spec P m Q E -> spec P' m Q' E' -> spec (fun f => P f /\ P' f) m (fun a f => Q a f /\ Q' a f) (fun f => E f /\ E' f).
Proof. intros H H' f [Hf Hf']. specialize (H f Hf). specialize (H' f Hf'). by destruct (m f) as [[a|e] f']. Qed.

(** The others may remove or replace the temporary, by something that is not a file of before,
    but do not write into it; and no inode number is used again. *)
Definition spares (host : WriteHost) (tmp : bytes) : Prop := forall k t,
  let t' := wh_others host k t in
  ((fst t' !! tmp = fst t !! tmp /\ forall ino, fst t !! tmp = Some (EFile ino) -> snd t' !! ino = snd t !! ino) \/
   forall ino, fst t' !! tmp = Some (EFile ino) -> snd t !! ino = None) /\
  forall ino, is_Some (snd t !! ino) -> is_Some (snd t' !! ino).

(** [tmp] is the file [ino], which holds [content]; or it has been replaced for good. *)
Definition staged (tmp : bytes) (ino : Z) (content : bytes) (f : fs) : Prop :=
  (names f !! tmp = Some (EFile ino) /\ exists mt, inodes f !! ino = Some {| data := content; mtime_ms := mt |}) \/
  (names f !! tmp <> Some (EFile ino) /\ is_Some (inodes f !! ino)).
#[export] Instance staged_files tmp ino content : OfFiles (staged tmp ino content).
Proof. by intros f fl Hf. Qed.

Lemma alone_spares host tmp : alone host -> spares host tmp.
Proof. intros H k t. rewrite H. split; [by left | done]. Qed.

Lemma spec_any {A} P (m : M A) : spec P m (fun _ _ => True) (fun _ => True).
Proof. intros f _. by destruct (m f) as [[] ?]. Qed.
(** A program that keeps [P], if it goes well. *)
Lemma keeps_spec {A} P (m : M A) : keeps P m -> spec P m (fun _ => P) (fun _ => True).
Proof. intros Hm. by eapply spec_weaken; [exact Hm|..]. Qed.

Lemma spec_look P `{!OfFiles P} p : spec P (symlink_metadata p) (fun e f => P f /\ e = names f !! p) P.
Proof.
  unfold symlink_metadata. eapply spec_bind; [apply (keeps_syscall P)|]. intros []. apply spec_get. intros f Hf.
  apply spec_ret. by intros ? ->.
Qed.
(** The identity check passes on the file itself only. *)
Lemma spec_verify P `{!OfFiles P} ino p :
  spec P (verify_temp_file_identity ino p) (fun _ f => P f /\ names f !! p = Some (EFile ino)) P.
Proof.
  unfold verify_temp_file_identity. eapply spec_bind; [apply (keeps_syscall P)|]. intros [].
  eapply spec_bind; [apply (spec_look P)|]. intros [[i| |]|]; try (apply spec_throw; by intros ? []).
  destruct (Z.eqb_spec i ino) as [->|]; [apply spec_ret; by intros f [? <-] | apply spec_throw; by intros ? []].
Qed.

Section Temporary.
Context (host : WriteHost) (tmp : bytes) (Hspares : spares host tmp).

Lemma keeps_staged_pause ino content k : keeps (staged tmp ino content) (pause host k).
Proof.
  intros f Hf. specialize (Hspares k (names f, inodes f)). unfold pause.
  destruct (wh_others host k (names f, inodes f)) as [ns nodes]. cbn in *. destruct Hspares as [Hs Hi]. unfold staged. cbn.
  destruct Hf as [(Ht & mt & Hd)|[Ht Hd]].
  - destruct Hs as [[Hn Hk]|Hs]; [left; rewrite Hn, (Hk ino) by done; split; [done | by eexists]|].
    right. split; [|apply Hi; by eexists]. intros E. apply Hs in E. congruence.
  - right. split; [|by apply Hi]. destruct Hs as [[Hn _]|Hs]; [by rewrite Hn|]. intros E. apply Hs in E.
    destruct Hd as [x Hd]. congruence.
Qed.

Lemma spec_staged_create P : spec P (create_temp_file tmp) (fun ino f => staged tmp ino [] f) (fun _ => True).
Proof.
  unfold create_temp_file, create_new. eapply spec_bind; [apply spec_any|].
  intros a. apply spec_get. intros f _. destruct (names f !! tmp); [by apply spec_throw|].
  intros f0 ->. cbn. left. cbn. rewrite !lookup_insert_eq. split; [done | by eexists].
Qed.

Lemma spec_staged_fill ino content :
  spec (staged tmp ino []) (write_at ino 0 content;; sync_all) (fun _ => staged tmp ino content) (fun _ => True).
Proof.
  eapply (spec_bind _ _ _ (fun _ => staged tmp ino content)); [|intros []; unfold sync_all; apply (keeps_spec (staged tmp ino content)); kept].
  unfold write_at. eapply spec_bind; [apply (keeps_spec (staged tmp ino [])); kept|].
  intros fault. apply spec_get. intros f Hf. destruct fault as [k|]; intros f0 ->; cbn; [done|].
  destruct Hf as [(Ht & mt & Hd)|[Ht Hd]]; [left | right]; cbn; rewrite lookup_insert_eq; (split; [done|]); [|by eexists].
  unfold file_data. rewrite Hd. cbn [from_option data]. rewrite overwrite_all. by eexists.
Qed.

(** The identity check finds out. *)
Lemma spec_staged_verify ino content :
  spec (staged tmp ino content) (verify_temp_file_identity ino tmp)
    (fun _ f => names f !! tmp = Some (EFile ino) /\ exists mt, inodes f !! ino = Some {| data := content; mtime_ms := mt |}) (fun _ => True).
Proof.
  eapply spec_weaken; [apply (spec_verify (staged tmp ino content))|done| |done]. intros [] f [[H|[H _]] E]; congruence.
Qed.

Lemma spec_or_cleanup {A} (m : M A) P Q : spec P m Q (fun _ => True) -> spec P (or_cleanup tmp m) Q (fun _ => True).
Proof.
  intros Hm f Hf. specialize (Hm f Hf). unfold or_cleanup, mbind, M_bind, attempt. destruct (m f) as [[a|e] f']; [done|].
  by destruct (remove_temp_file tmp f').
Qed.
End Temporary.

(** ** Up to the second look *)

Definition at_time (now : Z) (f : fs) : Prop := clock f = now.
#[export] Instance at_time_files now : OfFiles (at_time now).
Proof. by intros f fl Hf. Qed.
Lemma keeps_time_pause now host k : keeps (at_time now) (pause host k).
Proof. intros f Hf. unfold pause. by destruct (wh_others host k (names f, inodes f)). Qed.
Lemma keeps_time_modify now g : (forall f, clock (g f) = clock f) -> keeps (at_time now) (modify g).
Proof. intros H f Hf. unfold modify, at_time. by rewrite H. Qed.
#[export] Hint Resolve keeps_time_pause : kept.
#[export] Hint Extern 1 (keeps (at_time _) (modify _)) => apply keeps_time_modify; intros; reflexivity : kept.

Lemma keeps_time_open hash_bytes root host now active path : keeps (at_time now) (open_save hash_bytes root host active path).
Proof.
  assert (Hdirs : forall fuel p, keeps (at_time now) (create_dirs host fuel p)).
  { induction fuel as [|fuel IH]; intros [|b p]; cbn [create_dirs]; unfold unless_dir, mkdir; kept. }
  assert (Hanc : forall fuel p, keeps (at_time now) (existing_ancestor host fuel p))
    by (induction fuel as [|fuel IH]; intros p; cbn [existing_ancestor]; kept).
  assert (Hlocks : forall keys, keeps (at_time now) (lock_files host keys))
    by (induction keys as [|key keys IH]; cbn [lock_files]; unfold open_private_unix_lock_file; kept).
  unfold open_save, prepare_write_target, ensure_write_parent_inside_root, canonicalized, create_dir_all, acquire_write_locks,
    open_private_unix_lock_root. kept.
Qed.

Section Staging.
Context (hash_bytes : bytes -> bytes) (host : WriteHost).
Abbreviation hash_at g abs := (node_hash hash_bytes (node_at g abs)).

Lemma spec_report_conflict P path abs expected actual :
  spec P (report_conflict host path abs expected actual)
    (fun o _ => exists c, o = SaveOutcome_Conflict c /\ sc_path c = path /\ sc_actual_hash c = actual) (fun _ => True).
Proof.
  unfold report_conflict, save_conflict. eapply spec_bind; [apply spec_any|]. intros [].
  eapply (spec_fmap _ _ _ (fun c _ => sc_path c = path /\ sc_actual_hash c = actual));
    [|intros c f [? ?]; by exists c].
  eapply spec_bind; [apply spec_any|].
  intros [[content truncated] size]. by apply spec_ret.
Qed.

Section Frame.
Context (q : bytes) (e : option dir_entry) (d : option inode) (now : Z) (Hq : left_alone host q).
Abbreviation here := (holds q e d now).

Lemma keeps_others k : keeps here (pause host k).
Proof. by apply keeps_pause. Qed.
#[local] Hint Resolve keeps_others : kept.

Lemma keeps_report_conflict path abs expected actual : keeps here (report_conflict host path abs expected actual).
Proof. unfold report_conflict. kept. Qed.

Lemma keeps_cleanup {A} tmp (m : M A) : tmp <> q -> keeps here m -> keeps here (or_cleanup tmp m).
Proof. intros Hne Hm. unfold remove_temp_file. apply keeps_or_cleanup; [done|]. by apply keeps_unlink. Qed.

Lemma spec_stage_elsewhere path expected content abs : tmp_path_of abs now <> q ->
  spec here (stage_save hash_bytes host path expected content abs)
    (fun r f => here f /\ match r with inr (tmp, ino) => tmp = tmp_path_of abs now | inl _ => True end) here.
Proof.
  intros Hne. pose proof keeps_report_conflict. unfold stage_save, open_write_parent, verify_write_parent_current.
  eapply spec_bind; [apply keeps_syscall, _|]. intros []. eapply spec_bind; [by apply keeps_pause|]. intros [].
  eapply spec_bind; [apply keeps_current_hash, _|]. intros h. destruct (negb _).
  { eapply spec_fmap; [apply keeps_report_conflict|]. by intros c f Hf. }
  apply spec_get. intros f (H1 & H2 & Hc). cbv zeta. rewrite Hc.
  eapply spec_bind; [eapply spec_weaken; [apply (keeps_syscall here)|by intros ? ->|done|done]|]. intros [].
  eapply spec_bind; [by apply keeps_pause|]. intros []. eapply spec_bind; [by apply spec_create_elsewhere|]. intros ino.
  apply (spec_pure _ (e <> Some (EFile ino))); [by intros ? []|]. intros Hi.
  eapply (spec_weaken _ here); [|by intros ? []|intros a f0 H3; exact H3|intros f0 H3; exact H3].
  eapply spec_bind; [by apply keeps_pause|]. intros [].
  do 3 (eapply spec_bind; [apply (keeps_cleanup _ _ Hne); unfold sync_all; kept|]; intros []).
  eapply spec_bind; [by apply keeps_pause|]. intros []. by apply spec_ret.
Qed.

Lemma keeps_commit abs tmp ino : tmp <> q -> abs <> q -> keeps here (commit_temp abs tmp ino).
Proof.
  intros Ht Ha. unfold commit_temp, rename_temp_into_path, capture_temp_file_identity, verify_write_parent_current, sync_write_parent.
  repeat (apply keeps_seq; [apply (keeps_cleanup _ _ Ht); kept | intros []]). kept.
Qed.
Lemma keeps_swap path expected abs tmp ino report : tmp <> q -> abs <> q -> keeps here report ->
  keeps here (swap_save hash_bytes host path expected abs tmp ino report).
Proof.
  intros Ht Ha Hr. pose proof (keeps_commit abs tmp ino Ht Ha). pose proof keeps_report_conflict.
  unfold swap_save, remove_temp_file. kept.
Qed.
End Frame.

Lemma spec_stage now path expected content abs : spares host (tmp_path_of abs now) ->
  spec (at_time now) (stage_save hash_bytes host path expected content abs)
    (fun r f => match r with
     | inl o => exists c, o = SaveOutcome_Conflict c /\ sc_path c = path /\ sc_actual_hash c <> expected
     | inr (tmp, ino) => tmp = tmp_path_of abs now /\ staged tmp ino content f
     end) (fun _ => True).
Proof.
  intros Hs. set (tmp := tmp_path_of abs now). unfold stage_save, open_write_parent, verify_write_parent_current.
  do 2 (eapply spec_bind; [apply (keeps_spec (at_time now)); kept|]; intros []).
  eapply spec_bind; [apply (keeps_spec (at_time now)); kept|]. intros h. case_bool_decide as Hexp; cbn [negb].
  2:{ eapply spec_fmap; [apply spec_report_conflict|]. intros o f (c & -> & Hp & Ha). exists c. by rewrite Ha. }
  apply spec_get. intros f0 Hc. cbv zeta. unfold at_time in Hc. rewrite Hc. fold tmp.
  eapply spec_bind; [apply spec_any|]. intros [].
  eapply spec_bind; [apply spec_any|]. intros [].
  eapply spec_bind; [apply spec_staged_create|]. intros ino.
  eapply spec_bind; [apply keeps_spec; by apply keeps_staged_pause|]. intros [].
  eapply spec_bind; [apply spec_or_cleanup; by eapply spec_staged_fill|]. intros [].
  eapply (spec_bind _ _ _ (fun _ => staged tmp ino content)).
  { apply spec_or_cleanup. eapply spec_weaken; [by eapply spec_staged_verify|done| |done]. intros [] f Hf. by left. }
  intros []. eapply spec_bind; [apply spec_or_cleanup, (keeps_spec (staged tmp ino content)); kept|]. intros [].
  eapply spec_bind; [apply keeps_spec; by apply keeps_staged_pause|]. intros []. by apply spec_ret.
Qed.
End Staging.

(** ** The replacement *)

Lemma spec_cleanup {A} tmp (m : M A) P Q E : spec P m Q E -> keeps E (remove_temp_file tmp) -> spec P (or_cleanup tmp m) Q E.
Proof.
  intros Hm Hr f Hf. specialize (Hm f Hf). unfold or_cleanup, mbind, M_bind, attempt. destruct (m f) as [[a|err] f']; [done|].
  specialize (Hr f' Hm). by destruct (remove_temp_file tmp f') as [[] ?].
Qed.

Section Replacing.
Context (hash_bytes : bytes -> bytes) (host : WriteHost) (abs tmp : bytes) (Hne : tmp <> abs).
Abbreviation hash_at g abs := (node_hash hash_bytes (node_at g abs)).

(** The target is the file [ino], which holds [content]. *)
Definition has (ino : Z) (content : bytes) (now : Z) (f : fs) : Prop :=
  exists mt, holds abs (Some (EFile ino)) (Some {| data := content; mtime_ms := mt |}) now f.
#[local] Instance has_files ino content now : OfFiles (has ino content now).
Proof. intros f fl [mt Hf]. by exists mt. Qed.

Lemma has_node ino content now f : has ino content now f -> node_at f abs = Some (NFile content).
Proof. intros (mt & H1 & H2 & _). unfold node_at, file_data. rewrite H1. cbn. by rewrite (H2 ino eq_refl). Qed.
Lemma keeps_has_pause ino content now k : leaves host abs k -> keeps (has ino content now) (pause host k).
Proof.
  intros Hl f [mt Hf]. pose proof (keeps_pause host abs _ _ now k Hl f Hf) as H.
  destruct (pause host k f) as [[]]; by exists mt.
Qed.

(** The temporary's file becomes the target. *)
Lemma spec_replace e d ino content now :
  spec (fun f => (names f !! tmp = Some (EFile ino) /\ exists mt, inodes f !! ino = Some {| data := content; mtime_ms := mt |}) /\
                 holds abs e d now f)
    (rename_temp_into_path tmp abs) (fun _ => has ino content now) (holds abs e d now).
Proof.
  unfold rename_temp_into_path. apply spec_cleanup; [|by apply keeps_unlink]. unfold rename. eapply spec_bind.
  - set (P := fun f => _ /\ holds abs e d now f). assert (OfFiles P) by (by intros f fl Hf).
    eapply spec_weaken; [apply (keeps_syscall P)|done|intros a f H1; exact H1|by intros f []].
  - intros []. apply spec_get. intros f0 ((Ht & mt & Hi) & Ha). rewrite Ht.
    destruct (names f0 !! abs) as [[| |]|] eqn:Eabs; try (apply spec_throw; by intros ? ->);
      intros f ->; exists mt; split_and!; cbn; try apply lookup_insert_eq; try apply Ha; by intros i [= <-].
Qed.

Lemma spec_commit e d ino content now :
  spec (fun f => staged tmp ino content f /\ holds abs e d now f) (commit_temp abs tmp ino)
    (fun _ => has ino content now) (fun f => holds abs e d now f \/ has ino content now f).
Proof.
  set (P := fun f => staged tmp ino content f /\ holds abs e d now f). assert (OfFiles P) by (by intros f fl Hf).
  assert (Hclean : forall A (m : M A) Q, spec P m Q (holds abs e d now) -> spec P (or_cleanup tmp m) Q (holds abs e d now))
    by (intros A m Q Hm; apply spec_cleanup; [done | by apply keeps_unlink]).
  unfold commit_temp, verify_write_parent_current, capture_temp_file_identity, sync_write_parent.
  eapply spec_bind.
  { eapply spec_weaken; [apply (Hclean _ _ (fun _ => P)); eapply spec_weaken; [apply (keeps_syscall P)|done|done|by intros f []]|done|done|by left]. }
  intros []. eapply spec_bind.
  { eapply spec_weaken; [apply Hclean|done|intros [] f Hf; exact Hf|by left].
    eapply spec_weaken; [apply (spec_and _ _ _ _ _ _ _ (spec_staged_verify tmp ino content) (keeps_verify (holds abs e d now) ino tmp))|done|done|by intros f []]. }
  intros []. eapply spec_bind; [eapply spec_weaken; [apply (spec_replace e d ino content now)|done|done|by left]|].
  intros []. eapply spec_weaken; [apply (keeps_syscall (has ino content now))|done|done|by right].
Qed.

(** What is reported of the replaced target. *)
Lemma spec_hash_target ino content now :
  spec (has ino content now) (hash_file hash_bytes abs) (fun h f => has ino content now f /\ h = hash_bytes content) (has ino content now).
Proof.
  unfold hash_file, hash_open_file. eapply spec_bind; [apply (keeps_syscall (has ino content now))|]. intros [].
  apply spec_get. intros f (mt & H1 & H2 & H3). rewrite H1.
  eapply spec_bind; [eapply spec_weaken; [apply (keeps_syscall (has ino content now))| |done|done]|].
  { intros ? ->. by exists mt. }
  intros []. apply spec_get. intros f1 (mt1 & H4 & H5 & H6). apply spec_ret. intros ? ->. split; [by exists mt1|].
  unfold file_data. by rewrite (H5 ino eq_refl).
Qed.
Lemma spec_meta_target ino content now :
  spec (has ino content now) (file_meta hash_bytes abs) (fun '(size, _) f => has ino content now f /\ size = zlen content) (has ino content now).
Proof.
  unfold file_meta, symlink_metadata. eapply spec_bind.
  { eapply (spec_bind _ _ _ (fun _ => has ino content now)); [apply (keeps_syscall (has ino content now))|]. intros [].
    apply spec_get. intros f Hf. apply (spec_ret (fun en f => en = Some (EFile ino) /\ has ino content now f)). intros ? ->.
    split; [by destruct Hf as (mt & H1 & _) | done]. }
  intros en. apply (spec_pure _ (en = Some (EFile ino))); [by intros ? []|]. intros ->.
  apply spec_get. intros f [_ Hf]. eapply spec_bind.
  { eapply spec_weaken; [apply (spec_hash_target ino content now)|by intros ? ->|done|done]. }
  intros h. apply spec_ret. intros f1 [Hf1 _]. split; [done|]. destruct Hf as (mt & _ & H2 & _).
  unfold file_data. by rewrite (H2 ino eq_refl).
Qed.

Section Swap.
Context (path : bytes) (expected : option bytes) (ino : Z) (report : M SaveOutcome) (R : SaveOutcome -> Prop).
Abbreviation swap := (swap_save hash_bytes host path expected abs tmp ino report).

(** What is answered, whatever the others do from the second look on. *)
Lemma spec_swap_answer g : spec (fun _ => True) report (fun o _ => R o) (fun _ => True) ->
  spec (like g) swap
    (fun o _ => (hash_at g abs = expected /\ R o) \/
       exists c, o = SaveOutcome_Conflict c /\ sc_path c = path /\ sc_actual_hash c = hash_at g abs /\ hash_at g abs <> expected)
    (fun _ => True).
Proof.
  intros Hr. unfold swap_save. eapply spec_bind; [eapply spec_weaken; [apply (spec_current_hash hash_bytes g abs)|done|done|done]|].
  intros h. cbn beta. apply (spec_pure _ (h = hash_at g abs)); [by intros f []|]. intros ->. case_bool_decide as He; cbn [negb].
  - do 3 (eapply spec_bind; [apply spec_any|]; intros []).
    eapply spec_weaken; [exact Hr|done| |done]. by left.
  - eapply spec_bind; [apply spec_any|]. intros r.
    eapply spec_weaken; [apply (spec_report_conflict host (fun _ => True))|done| |done]. intros o f (c & -> & Hp & Ha). right. by exists c.
Qed.

(** What becomes of the target that the others leave alone from the second look on. *)
Context (g : fs) (content : bytes) (Hrename : leaves host abs BeforeRename) (Hreport : leaves host abs BeforeReport)
  (Hconflict : leaves host abs BeforeConflict) (Hspares : spares host tmp).
Abbreviation before := (holds abs (names g !! abs) (file_of abs g) (clock g)).
Abbreviation after := (has ino content (clock g)).

Lemma spec_swap_target : spec after report (fun o f => after f /\ R o) after ->
  spec (fun f => like g f /\ staged tmp ino content f) swap
    (fun o f => (hash_at g abs = expected /\ after f /\ R o) \/ (hash_at g abs <> expected /\ before f))
    (fun f => before f \/ (hash_at g abs = expected /\ after f)).
Proof.
  intros Hr. assert (Hlike : forall f, like g f -> before f) by apply like_holds.
  unfold swap_save. set (P := fun f => staged tmp ino content f /\ before f). assert (OfFiles P) by (by intros f fl Hf).
  eapply spec_bind.
  { eapply spec_weaken; [apply (spec_and _ _ _ _ _ _ _ (spec_current_hash hash_bytes g abs) (keeps_current_hash (staged tmp ino content) hash_bytes abs))|done| |].
    - intros h f Hf. exact Hf.
    - intros f [Hf _]. left. by apply Hlike. }
  intros h. cbn beta. apply (spec_pure _ (h = hash_at g abs)); [by intros f [[] ?]|]. intros ->.
  eapply (spec_weaken _ P _ _); [|intros f [[Hl _] Hs]; by split; [|apply Hlike]|intros o f Hf; exact Hf|intros f Hf; exact Hf].
  case_bool_decide as He; cbn [negb].
  - eapply (spec_bind _ _ _ (fun _ => P)).
    { eapply spec_weaken; [apply (spec_and _ _ _ _ _ _ _ (keeps_staged_pause host tmp Hspares ino content BeforeRename) (keeps_pause host abs (names g !! abs) (file_of abs g) (clock g) BeforeRename Hrename))|done|done|].
      intros f [_ Hf]. by left. }
    intros []. eapply spec_bind; [eapply spec_weaken; [apply (spec_commit (names g !! abs) (file_of abs g) ino content (clock g))|done|done|]|].
    { intros f [Hf|Hf]; [by left | by right]. }
    intros []. eapply spec_bind; [eapply spec_weaken; [apply (keeps_has_pause ino content (clock g) _ Hreport)|done|done|by right]|].
    intros []. eapply spec_weaken; [exact Hr|done| |by right]. intros o f [Hf Ho]. by left.
  - eapply (spec_bind _ _ _ (fun _ => before)).
    { eapply spec_weaken; [apply (keeps_attempt before), keeps_unlink; exact Hne|by intros f []|done|by left]. }
    intros r. eapply (spec_weaken _ before (fun _ => before) before); [|done|by right|by left].
    unfold report_conflict. apply keeps_seq; [by apply keeps_pause|]. intros []. kept.
Qed.
End Swap.

Lemma spec_report_target path ino content now : spec (has ino content now) (report_applied hash_bytes path abs)
  (fun o f => has ino content now f /\ exists a, o = SaveOutcome_Applied a /\ sa_path a = path /\
     sa_new_hash a = hash_bytes content /\ sa_size a = zlen content) (has ino content now).
Proof.
  unfold report_applied. eapply spec_bind; [apply spec_hash_target|]. intros h.
  apply (spec_pure _ (h = hash_bytes content)); [by intros f []|]. intros ->.
  eapply spec_bind; [eapply spec_weaken; [apply (spec_meta_target ino content now)|by intros f []|done|done]|].
  intros [size mt]. apply spec_ret. intros f [Hf ->]. split; [done|]. by eexists.
Qed.
End Replacing.

(** ** One-shot saves *)

(** The node of [q] is the same, or it was missing and is a directory or an empty lock file. *)
Definition kept_or_made (host : WriteHost) (q : bytes) (f f' : fs) : Prop :=
  node_at f' q = node_at f q \/
  node_at f q = None /\
  (node_at f' q = Some NDir \/ (exists key, q = lock_path host key) /\ node_at f' q = Some (NFile [])).

Definition grown_from (host : WriteHost) (q : bytes) (f : fs) : fs -> Prop := grown host q (names f !! q) (file_of q f) (clock f).

Lemma grown_refl host q f : grown_from host q f f.
Proof. exists (names f !! q), (file_of q f). split; [apply holds_now | by left]. Qed.
Lemma grown_node host q f f' : grown_from host q f f' -> kept_or_made host q f f'.
Proof.
  intros (e & d & H & [[-> ->]|[He Hm]]); [left; by eapply holds_node; [|apply holds_now]|]. right.
  unfold node_at at 1. rewrite He. split; [done|]. destruct H as (H1 & H2 & _). unfold node_at. rewrite H1.
  destruct Hm as [->|(Hk & ino & i & -> & -> & Hd)]; [by left|]. right. split; [done|]. cbn. unfold file_data.
  rewrite (H2 ino eq_refl). cbn. by rewrite Hd.
Qed.
Lemma grown_later {A} host q f (m : M A) f1 : (forall e d, keeps (holds q e d (clock f)) m) ->
  grown_from host q f f1 -> grown_from host q f (snd (m f1)).
Proof. intros Hm Hf. pose proof (keeps_grown host q _ _ _ m Hm f1 Hf) as H. by destruct (m f1) as [[] ?]. Qed.

Section Saves.
Context (hash_bytes : bytes -> bytes) (root : bytes) (host : WriteHost).
Abbreviation hash_at g abs := (node_hash hash_bytes (node_at g abs)).

(** The others leave the target alone once it has been looked at again. *)
Definition settled_target (abs : bytes) : Prop :=
  leaves host abs BeforeRename /\ leaves host abs BeforeReport /\ leaves host abs BeforeConflict.

Lemma run_spec {A} (m : M A) P Q E f r f' : spec P m Q E -> P f -> m f = (r, f') ->
  match r with Ok a => Q a f' | Err _ => E f' end.
Proof. intros Hm Hf Hr. specialize (Hm f Hf). by rewrite Hr in Hm. Qed.

Lemma open_save_grown active path f r f1 q : leaves host q BeforeLock ->
  open_save hash_bytes root host active path f = (r, f1) -> grown_from host q f f1.
Proof.
  intros Hl Ho. pose proof (keeps_open_save root hash_bytes host q _ _ _ active path Hl f (grown_refl host q f)) as H.
  rewrite Ho in H. by destruct r.
Qed.
Lemma grown_clock q f f1 : grown_from host q f f1 -> clock f1 = clock f.
Proof. by intros (e & d & (_ & _ & H) & _). Qed.

(** Everything but the target and the temporary. *)
Lemma prepared_elsewhere path expected content abs f f1 q :
  tmp_path_of abs (clock f) <> q -> abs <> q -> left_alone host q -> grown_from host q f f1 ->
  grown_from host q f (snd (write_file_cas_prepared hash_bytes host path expected content abs f1)).
Proof.
  intros Ht Ha Hq. apply grown_later. intros e d. unfold write_file_cas_prepared.
  eapply spec_bind; [by apply (spec_stage_elsewhere hash_bytes host q e d (clock f) Hq)|].
  intros [o|[tmp ino]]; [by apply spec_ret; intros ? []|]. apply (spec_pure _ (tmp = tmp_path_of abs (clock f))); [by intros ? []|].
  intros ->. eapply spec_weaken; [apply (keeps_swap hash_bytes host q e d (clock f) Hq)|by intros ? []|done|done]; try done.
  unfold report_applied. kept.
Qed.

(** What a save answers, and what it leaves in the target. *)
Definition answered (expected : option bytes) (content abs : bytes) (g f' : fs) (r : result agent_error SaveOutcome) : Prop :=
  match r with
  | Ok (SaveOutcome_Applied _) => hash_at g abs = expected
  | Ok (SaveOutcome_Conflict c) => hash_at g abs <> expected /\ sc_actual_hash c = hash_at g abs
  | Err _ => True
  end /\
  (settled_target abs ->
   match r with
   | Ok (SaveOutcome_Applied a) =>
       node_at f' abs = Some (NFile content) /\ sa_new_hash a = hash_bytes content /\ sa_size a = zlen content
   | Ok (SaveOutcome_Conflict _) => node_at f' abs = node_at g abs
   | Err _ => node_at f' abs = node_at g abs \/ hash_at g abs = expected /\ node_at f' abs = Some (NFile content)
   end).
Definition outcome_path (o : SaveOutcome) : bytes :=
  match o with SaveOutcome_Applied a => sa_path a | SaveOutcome_Conflict c => sc_path c end.

Lemma swap_answered_with path expected content abs tmp ino report g r f' :
  tmp <> abs -> spares host tmp -> staged tmp ino content g ->
  spec (fun _ => True) report (fun o _ => exists a, o = SaveOutcome_Applied a /\ sa_path a = path) (fun _ => True) ->
  spec (has abs ino content (clock g)) report
    (fun o f => has abs ino content (clock g) f /\ exists a, o = SaveOutcome_Applied a /\ sa_path a = path /\
       sa_new_hash a = hash_bytes content /\ sa_size a = zlen content) (has abs ino content (clock g)) ->
  swap_save hash_bytes host path expected abs tmp ino report g = (r, f') ->
  answered expected content abs g f' r /\ forall o, r = Ok o -> outcome_path o = path.
Proof.
  intros Hne Hs Hg Hrep Htarget Hr.
  pose proof (run_spec _ _ _ _ _ _ _ (spec_swap_answer hash_bytes host abs tmp path expected ino _ _ g Hrep) (like_refl g) Hr) as Ha.
  cbn in Ha. split; [split|].
  - destruct r as [o|e]; [|done]. destruct Ha as [[He (a & -> & _)]|(c & -> & _ & Hc & He)]; [done | by rewrite Hc].
  - intros (H1 & H2 & H3).
    pose proof (run_spec _ _ _ _ _ _ _ (spec_swap_target hash_bytes host abs tmp Hne path expected ino _ _ g content H1 H2 H3 Hs
      Htarget) (conj (like_refl g) Hg) Hr) as Ht. cbn in Ht.
    destruct r as [o|e].
    + destruct Ht as [(He & Hf & a & -> & _ & Hh & Hz)|[He Hf]]; [split; [by eapply has_node | done]|].
      destruct Ha as [[He' _]|(c & -> & _)]; [done|]. eapply holds_node; [exact Hf | apply holds_now].
    + destruct Ht as [Hf|[He Hf]]; [left; eapply holds_node; [exact Hf | apply holds_now]|]. right. split; [done|]. by eapply has_node.
  - intros o ->. destruct Ha as [[_ (a & -> & Hp)]|(c & -> & Hp & _)]; done.
Qed.

Lemma swap_answered path expected content abs tmp ino g r f' :
  tmp <> abs -> spares host tmp -> staged tmp ino content g ->
  swap_save hash_bytes host path expected abs tmp ino (report_applied hash_bytes path abs) g = (r, f') ->
  answered expected content abs g f' r /\ forall o, r = Ok o -> outcome_path o = path.
Proof.
  intros Hne Hs Hg. apply swap_answered_with; try done; [|apply spec_report_target].
  unfold report_applied. do 2 (eapply spec_bind; [apply spec_any|]; intros ?). destruct a0 as [size mt].
  apply spec_ret. intros f _. by eexists.
Qed.

(** A save that ends before the second look has left the target alone. *)
Lemma unstaged_target path expected content abs f f1 r g :
  tmp_path_of abs (clock f) <> abs -> left_alone host abs -> grown_from host abs f f1 ->
  stage_save hash_bytes host path expected content abs f1 = (r, g) -> grown_from host abs f g.
Proof.
  intros Hne Ha Hf Hr. replace g with (snd (stage_save hash_bytes host path expected content abs f1)) by (by rewrite Hr).
  apply grown_later; [|done]. intros e d.
  eapply spec_weaken; [apply (spec_stage_elsewhere hash_bytes host abs e d (clock f) Ha); exact Hne|done|by intros ? ? []|done].
Qed.

(** The conflict of the first look tells what that look found. *)
Lemma first_conflict path expected content abs f1 c g : left_alone host abs ->
  stage_save hash_bytes host path expected content abs f1 = (Ok (inl (SaveOutcome_Conflict c)), g) ->
  sc_actual_hash c = hash_at f1 abs.
Proof.
  intros Ha Hr. set (P := holds abs (names f1 !! abs) (file_of abs f1) (clock f1)).
  assert (Hspec : spec P (stage_save hash_bytes host path expected content abs)
    (fun r _ => forall c, r = inl (SaveOutcome_Conflict c) -> sc_actual_hash c = hash_at f1 abs) (fun _ => True)).
  { unfold stage_save, open_write_parent. eapply spec_bind; [apply (keeps_spec P); kept|]. intros [].
    eapply spec_bind; [apply (keeps_spec P), keeps_pause, Ha|]. intros [].
    eapply (spec_bind _ _ _ (fun h _ => h = hash_at f1 abs)).
    { intros f Hf. pose proof (spec_current_hash hash_bytes f abs f (like_refl f)) as H.
      destruct (current_regular_file_hash hash_bytes abs f) as [[h|] f2]; [|done]. destruct H as [_ ->].
      by rewrite (holds_node abs _ _ _ f f1 Hf (holds_now abs f1)). }
    intros h. apply (spec_pure _ (h = hash_at f1 abs)); [done|]. intros ->. destruct (negb _).
    - eapply spec_fmap; [apply spec_report_conflict|].
      intros o f (c0 & -> & _ & Hc) c1 [= <-]. exact Hc.
    - apply spec_get. intros f0 _. cbv zeta.
      do 8 (eapply spec_bind; [apply spec_any|]; intros ?). by apply spec_ret. }
  exact (run_spec _ _ _ _ _ _ _ Hspec (holds_now abs f1) Hr c eq_refl).
Qed.

Lemma staged_conflict path expected content abs f f1 r g :
  spares host (tmp_path_of abs (clock f)) -> clock f1 = clock f ->
  stage_save hash_bytes host path expected content abs f1 = (r, g) ->
  match r with
  | Ok (inl o) => exists c, o = SaveOutcome_Conflict c /\ sc_path c = path /\ sc_actual_hash c <> expected
  | Ok (inr (tmp, ino)) => tmp = tmp_path_of abs (clock f) /\ staged tmp ino content g
  | Err _ => True
  end.
Proof.
  intros Hs Hc Hr. pose proof (run_spec _ _ _ _ _ _ _ (spec_stage hash_bytes host (clock f) path expected content abs Hs) Hc Hr) as H.
  by destruct r as [[o|[tmp ino]]|e].
Qed.

(** The run of a save once its target is open. *)
Definition save_effect (path : bytes) (expected : option bytes) (content abs : bytes) (f f1 : fs)
    (r : result agent_error SaveOutcome) (f' : fs) : Prop :=
  match stage_save hash_bytes host path expected content abs f1 with
  | (Ok (inr _), g) => (left_alone host abs -> kept_or_made host abs f g) /\ answered expected content abs g f' r
  | _ => match r with
         | Ok (SaveOutcome_Applied _) => False
         | Ok (SaveOutcome_Conflict c) =>
             sc_actual_hash c <> expected /\ (left_alone host abs -> sc_actual_hash c = hash_at f1 abs)
         | Err _ => True
         end /\ (left_alone host abs -> kept_or_made host abs f f')
  end.

Lemma prepared_effect active path expected content abs f f1 r f' :
  open_save hash_bytes root host active path f = (Ok abs, f1) ->
  tmp_path_of abs (clock f) <> abs -> spares host (tmp_path_of abs (clock f)) ->
  write_file_cas_prepared hash_bytes host path expected content abs f1 = (r, f') ->
  save_effect path expected content abs f f1 r f' /\ forall o, r = Ok o -> outcome_path o = path.
Proof.
  intros Ho Hne Hs Hr.
  assert (Hc : clock f1 = clock f).
  { pose proof (keeps_time_open hash_bytes root host (clock f) active path f eq_refl) as H. by rewrite Ho in H. }
  assert (Hopen : left_alone host abs -> grown_from host abs f f1) by (intros Ha; by eapply open_save_grown).
  unfold write_file_cas_prepared, mbind, M_bind in Hr. unfold save_effect.
  destruct (stage_save _ _ _ _ _ _ f1) as [sr g] eqn:Es.
  pose proof (staged_conflict _ _ _ _ _ _ _ _ Hs Hc Es) as Hst.
  assert (Hun : left_alone host abs -> kept_or_made host abs f g) by (intros Ha; apply grown_node; eapply unstaged_target; eauto).
  destruct sr as [[o|[tmp ino]]|e].
  - injection Hr as <- <-. destruct Hst as (c & -> & Hp & Hne'). split; [|by intros o [= <-]]. split; [|done]. split; [done|].
    intros Ha. by eapply first_conflict.
  - destruct Hst as [-> Hst]. destruct (swap_answered path expected content abs _ ino g r f' Hne Hs Hst Hr) as [Ha Hp]. done.
  - injection Hr as <- <-. done.
Qed.


(** ** Finished uploads *)

Section Finish.
Context (u : PendingUpload).
Abbreviation abs := (up_target_abs u).
Abbreviation tmp := (up_tmp_path u).
Abbreviation ino := (up_tmp_file u).
Definition report_finished (tmp_hash : bytes) : M SaveOutcome :=
  '(size, mtime) ← file_meta hash_bytes abs;
  mret (SaveOutcome_Applied {| sa_path := up_path u; sa_new_hash := tmp_hash; sa_size := size; sa_mtime_ms := mtime |}).

Lemma keeps_finish q e d now : tmp <> q -> abs <> q -> left_alone host q ->
  keeps (holds q e d now) (finish_prepared hash_bytes host u).
Proof.
  intros Ht Ha Hq. pose proof (keeps_others host q e d now Hq). assert (Hrm : keeps (holds q e d now) (remove_temp_file tmp)) by (by apply keeps_unlink).
  pose proof (fun tmp_hash => keeps_swap hash_bytes host q e d now Hq (up_path u) (up_expected_hash u) abs tmp ino (report_finished tmp_hash) Ht Ha) as Hswap.
  assert (Hrep : forall h, keeps (holds q e d now) (report_finished h)) by (intros h; unfold report_finished; kept).
  unfold finish_prepared, sync_all, verify_write_parent_current. cbv zeta. fold report_finished.
  destruct (negb _); [kept|]. apply keeps_seq; [kept|]. intros []. apply keeps_seq; [kept|]. intros h. destruct (negb _); [kept|].
  do 3 (apply keeps_seq; [kept|]; intros []). by apply Hswap.
Qed.

(** The upload is given up before the second look, or it is complete and has the announced hash. *)
Definition finish_effect (content : bytes) (f : fs) (r : result agent_error SaveOutcome) (f' : fs) : Prop :=
  (is_ok r = false /\ (left_alone host abs -> node_at f' abs = node_at f abs)) \/
  (up_written u = up_size u /\ hash_bytes content = up_content_hash u /\
   exists g, (left_alone host abs -> node_at g abs = node_at f abs) /\ answered (up_expected_hash u) content abs g f' r).

Lemma staged_upload f : is_Some (inodes f !! ino) -> staged tmp ino (file_data f ino) f.
Proof.
  intros [i Hi]. destruct (decide (names f !! tmp = Some (EFile ino))) as [E|E]; [left | right; split; [done | by eexists]].
  split; [done|]. exists (mtime_ms i). unfold file_data. rewrite Hi. by destruct i.
Qed.

Lemma finish_swap_effect content f tmp_hash : tmp <> abs -> spares host tmp ->
  up_written u = up_size u -> hash_bytes content = up_content_hash u -> tmp_hash = hash_bytes content ->
  spec (fun g => staged tmp ino content g /\ (left_alone host abs -> node_at g abs = node_at f abs))
    (swap_save hash_bytes host (up_path u) (up_expected_hash u) abs tmp ino (report_finished tmp_hash))
    (fun o f' => finish_effect content f (Ok o) f' /\ outcome_path o = up_path u) (fun f' => finish_effect content f (Err EIo) f').
Proof.
  intros Hne Hs Hw Hh -> g [Hst Hg]. destruct (swap_save _ _ _ _ _ _ _ _ g) as [r f'] eqn:Er.
  assert (Hrep : spec (fun _ => True) (report_finished (hash_bytes content))
    (fun o _ => exists a, o = SaveOutcome_Applied a /\ sa_path a = up_path u) (fun _ => True)).
  { unfold report_finished. eapply spec_bind; [apply spec_any|]. intros [size mt]. apply spec_ret. intros f0 _. by eexists. }
  assert (Htarget : spec (has abs ino content (clock g)) (report_finished (hash_bytes content))
    (fun o f => has abs ino content (clock g) f /\ exists a, o = SaveOutcome_Applied a /\ sa_path a = up_path u /\
       sa_new_hash a = hash_bytes content /\ sa_size a = zlen content) (has abs ino content (clock g))).
  { unfold report_finished. eapply spec_bind; [apply spec_meta_target|]. intros [size mt]. apply spec_ret.
    intros f0 [Hf ->]. split; [done|]. by eexists. }
  destruct (swap_answered_with _ _ _ _ _ _ _ _ _ _ Hne Hs Hst Hrep Htarget Er) as [Ha Hp].
  destruct r as [o|e]; [split; [|by apply Hp]|]; right; (split; [done|]; split; [done|]; exists g; split; [done|]); done.
Qed.

Lemma spec_recheck_pause f E : spares host tmp -> is_Some (inodes f !! ino) ->
  spec (like f) (pause host BeforeRecheck)
    (fun _ g => staged tmp ino (file_data f ino) g /\ (left_alone host abs -> node_at g abs = node_at f abs)) E.
Proof.
  intros Hs Hi g Hg. assert (Hst : staged tmp ino (file_data f ino) g).
  { destruct Hg as (Hn & Hino & _). pose proof (staged_upload f Hi) as H. unfold staged in *. by rewrite Hn, Hino. }
  pose proof (keeps_staged_pause host tmp Hs ino (file_data f ino) BeforeRecheck g Hst) as H1.
  pose proof (fun Ha => keeps_pause host abs _ _ _ BeforeRecheck Ha g (like_holds abs f g Hg)) as H2.
  unfold pause in *. destruct (wh_others host BeforeRecheck _). split; [done|]. intros Ha.
  eapply holds_node; [exact (H2 (Ha _)) | apply holds_now].
Qed.

Lemma finish_prepared_effect f r f' : tmp <> abs -> spares host tmp -> is_Some (inodes f !! ino) ->
  finish_prepared hash_bytes host u f = (r, f') ->
  finish_effect (file_data f ino) f r f' /\ forall o, r = Ok o -> outcome_path o = up_path u.
Proof.
  intros Hne Hs Hi Hr. set (content := file_data f ino).
  set (E := holds abs (names f !! abs) (file_of abs f) (clock f)).
  assert (Hrm : keeps E (remove_temp_file tmp)) by (by apply keeps_unlink).
  assert (HE : forall g e, E g -> finish_effect content f (Err e) g).
  { intros g e Hg. left. split; [done|]. intros _. eapply holds_node; [exact Hg | apply holds_now]. }
  assert (Hlike : forall g, like f g -> E g) by apply like_holds.
  assert (Hspec : spec (like f) (finish_prepared hash_bytes host u)
    (fun o f' => finish_effect content f (Ok o) f' /\ outcome_path o = up_path u) (fun f' => finish_effect content f (Err EIo) f')).
  { assert (Hgive : forall e P, (forall g, P g -> E g) -> spec P (_ ← attempt (remove_temp_file tmp); throw (A := SaveOutcome) e)
      (fun o f' => finish_effect content f (Ok o) f' /\ outcome_path o = up_path u) (fun f' => finish_effect content f (Err EIo) f')).
    { intros e P HP. eapply (spec_bind _ _ _ (fun _ => E)); [eapply spec_weaken; [apply (keeps_attempt E), Hrm|done|done|by intros g; apply HE]|].
      intros rm. apply spec_throw. intros g Hg. by apply HE. }
    assert (Hcheck : forall A (m : M A) Q, spec (like f) m Q (like f) -> spec (like f) (or_cleanup tmp m) Q (fun f' => finish_effect content f (Err EIo) f')).
    { intros A m Q Hm. eapply spec_weaken; [apply (spec_cleanup tmp m (like f) Q E); [|exact Hrm]|done|done|by intros g; apply HE].
      eapply spec_weaken; [exact Hm|done|done|exact Hlike]. }
    unfold finish_prepared, sync_all, verify_write_parent_current. cbv zeta. fold report_finished.
    destruct (Z.eqb_spec (up_written u) (up_size u)) as [Hw|Hw]; cbn [negb]; [|by apply Hgive].
    eapply spec_bind; [apply Hcheck, spec_syscall|]. intros [].
    eapply spec_bind; [apply Hcheck, spec_hash_open|]. intros h. apply (spec_pure _ (h = hash_bytes content)); [by intros g []|]. intros ->.
    destruct (bytes_eqb (hash_bytes content) (up_content_hash u)) eqn:Eh; cbn [negb]; [|apply Hgive; intros g [Hg _]; by apply Hlike].
    apply bytes_eqb_true in Eh.
    eapply spec_bind; [eapply spec_weaken; [apply Hcheck, (keeps_verify (like f))|by intros g []|done|done]|]. intros [].
    eapply spec_bind; [apply Hcheck, spec_syscall|]. intros []. eapply spec_bind; [by apply spec_recheck_pause|].
    intros []. by apply finish_swap_effect. }
  pose proof (run_spec _ _ _ _ _ _ _ Hspec (like_refl f) Hr) as H. destruct r as [o|e]; [|done].
  destruct H as [H1 H2]. split; [done|]. by intros o' [= <-].
Qed.
End Finish.
End Saves.
