(* ===== verification/AgentUploads.v ===== *)
(** * The upload table

    Runs of write requests, interleaved with whatever other processes do to the files:
    the table keeps its limits and its locks.  And without failures and interference,
    an upload in any chunking delivers exactly its bytes. *)
From S2P Require Import Prelude Paths Protocol AgentFs AgentWrite AgentWriteProps.

(** ** Sizes *)

Definition total (us : gmap bytes PendingUpload) : Z :=
  foldr (fun '(_, u) sum => up_size u + sum) 0 (map_to_list us).
Definition sizes_ok (us : gmap bytes PendingUpload) : Prop := map_Forall (fun _ u => 0 <= up_size u) us.

Abbreviation list_total l := (foldr (fun '((_, u) : bytes * PendingUpload) sum => up_size u + sum) 0 l).

Lemma list_total_perm l l' : l ≡ₚ l' -> list_total l = list_total l'.
Proof. induction 1 as [|[i u] l l' _ IH|[i u] [j v] l|l1 l2 l3 _ IH1 _ IH2]; cbn; lia. Qed.

Lemma total_insert us id u : us !! id = None -> total (<[id := u]> us) = up_size u + total us.
Proof. intros Hn. unfold total. by rewrite (list_total_perm _ _ (map_to_list_insert us id u Hn)). Qed.

Lemma total_delete us id u : us !! id = Some u -> total us = up_size u + total (delete id us).
Proof.
  intros Hu. rewrite <- (insert_delete_id us id u Hu) at 1. apply total_insert, lookup_delete_eq.
Qed.

Lemma list_total_nonneg (l : list (bytes * PendingUpload)) : Forall (fun '(_, u) => 0 <= up_size u) l -> 0 <= list_total l.
Proof. induction 1 as [|[i u] l Hu _ IH]; cbn; lia. Qed.

Lemma saturating_total (l : list (bytes * PendingUpload)) acc : Forall (fun '(_, u) => 0 <= up_size u) l -> 0 <= acc ->
  foldl (fun sum '(_, u) => saturating_add sum (up_size u)) acc l = Z.min (acc + list_total l) u64_max \/ l = [].
Proof.
  intros Hl. revert acc. induction Hl as [|[i u] l Hu Hl IH]; intros acc Ha; [by right|left]. cbn.
  pose proof (list_total_nonneg l Hl). unfold saturating_add at 2.
  destruct (IH (Z.min (acc + up_size u) u64_max)) as [->| ->]; [unfold u64_max; lia | lia | cbn; lia].
Qed.

Lemma sizes_list us : sizes_ok us -> Forall (fun '(_, u) => 0 <= up_size u) (map_to_list us).
Proof. intros H. apply Forall_forall. intros [i u] Hin%elem_of_map_to_list. exact (H i u Hin). Qed.

(** The limits as the code computes them are the limits as meant. *)
Lemma enforce_upload_limits_Ok st n : sizes_ok (uploads st) -> 0 <= n ->
  enforce_upload_limits st n = Ok () <->
  Z.of_nat (size (uploads st)) < MAX_ACTIVE_UPLOADS /\ total (uploads st) + n <= MAX_ACTIVE_UPLOAD_BYTES.
Proof.
  intros Hs Hn. unfold enforce_upload_limits. rewrite bind_Ok.
  pose proof (list_total_nonneg _ (sizes_list _ Hs)) as Ht. fold (total (uploads st)) in Ht.
  assert (Hb : saturating_add (upload_bytes st) n >? MAX_ACTIVE_UPLOAD_BYTES = false <->
    total (uploads st) + n <= MAX_ACTIVE_UPLOAD_BYTES).
  { unfold upload_bytes, saturating_add at 1.
    destruct (saturating_total (map_to_list (uploads st)) 0 (sizes_list _ Hs) ltac:(lia)) as [->|He].
    - fold (total (uploads st)). unfold u64_max, MAX_ACTIVE_UPLOAD_BYTES. lia.
    - unfold total. rewrite He. cbn. unfold u64_max, MAX_ACTIVE_UPLOAD_BYTES. lia. }
  split.
  - intros ([] & H1%fail_if_Ok & H2%fail_if_Ok). split; [unfold MAX_ACTIVE_UPLOADS in *; lia | by apply Hb].
  - intros [H1 H2]. exists (). split; apply fail_if_Ok; [unfold MAX_ACTIVE_UPLOADS in *; lia | by apply Hb].
Qed.

(** ** Runs *)

Section Table.
Context (hash_bytes : bytes -> bytes) (root : bytes).
Abbreviation keys_of abs := (write_target_keys hash_bytes root abs).

(** An upload begins with a [u64] size and, the clock having moved on, a new id. *)
Definition request_ok (now : Z) (st : AgentState) (f : fs) (r : Request) : Prop :=
  match r with
  | Request_BeginWriteFileCas path _ _ size =>
      0 <= size /\ let '(st1, f1) := cleanup now st f in uploads st1 !! upload_id_of hash_bytes path (clock f1) = None
  | _ => True
  end.

(** The agent handles write requests; during and between them, other processes may do anything to
    the files, and time passes. *)
Inductive agent_run : AgentState -> fs -> Prop :=
| run_start f : agent_run new_agent f
| run_request host now st f r resp st' f' :
    agent_run st f -> request_ok now st f r ->
    handle_write hash_bytes root host now st r f = Some (resp, st', f') -> agent_run st' f'
| run_others st f f' : agent_run st f -> agent_run st f'.

Record table_inv (st : AgentState) : Prop := {
  ti_count : Z.of_nat (size (uploads st)) <= MAX_ACTIVE_UPLOADS;
  ti_sizes : sizes_ok (uploads st);
  ti_bytes : total (uploads st) <= MAX_ACTIVE_UPLOAD_BYTES;
  ti_written : map_Forall (fun _ u => 0 <= up_written u <= up_size u) (uploads st);
  ti_keys : map_Forall (fun _ u => up_target_keys u = keys_of (up_target_abs u)) (uploads st);
  ti_active k : k ∈ active_write_targets st <-> exists id u, uploads st !! id = Some u /\ k ∈ up_target_keys u;
  ti_disjoint id id' u u' k : uploads st !! id = Some u -> uploads st !! id' = Some u' ->
    k ∈ up_target_keys u -> k ∈ up_target_keys u' -> id = id' }.

Lemma table_inv_start : table_inv new_agent.
Proof.
  split; cbn; try done.
  - intros k. rewrite elem_of_empty. split; [done|]. intros (id & u & Hu & _). by rewrite lookup_empty in Hu.
Qed.

(** Dropping an upload with its keys. *)
Definition dropped (id : bytes) (st : AgentState) : AgentState :=
  match uploads st !! id with
  | None => st
  | Some u => {| uploads := delete id (uploads st);
                 active_write_targets := remove_keys (up_target_keys u) (active_write_targets st) |}
  end.

Lemma table_inv_dropped id st : table_inv st -> table_inv (dropped id st).
Proof.
  intros Hi. unfold dropped. destruct (uploads st !! id) as [u|] eqn:Hu; [|done]. destruct Hi. split; cbn.
  - rewrite map_size_delete_Some by (by eexists). lia.
  - by apply map_Forall_delete.
  - pose proof (total_delete _ _ _ Hu). pose proof (ti_sizes0 _ _ Hu) as Hz. cbn in Hz. lia.
  - by apply map_Forall_delete.
  - by apply map_Forall_delete.
  - intros k. unfold remove_keys. rewrite elem_of_difference, elem_of_list_to_set, ti_active0. split.
    + intros [(id' & u' & Hu' & Hk) Hnk]. exists id', u'. split; [|done]. rewrite lookup_delete_ne; [done|]. naive_solver.
    + intros (id' & u' & [Hne Hu']%lookup_delete_Some & Hk). split; [by exists id', u'|]. intros Hk'. by eapply Hne, (ti_disjoint0 id id' u u' k).
  - intros id1 id2 u1 u2 k [_ H1]%lookup_delete_Some [_ H2]%lookup_delete_Some. by apply (ti_disjoint0 id1 id2).
Qed.

Lemma table_inv_insert id u st :
  table_inv st -> uploads st !! id = None -> 0 <= up_size u -> up_written u = 0 ->
  up_target_keys u = keys_of (up_target_abs u) ->
  enforce_upload_limits st (up_size u) = Ok () ->
  ensure_no_active_write (active_write_targets st) (up_target_keys u) = Ok () ->
  table_inv {| uploads := <[id := u]> (uploads st);
               active_write_targets := active_write_targets st ∪ list_to_set (up_target_keys u) |}.
Proof.
  intros Hi Hn Hz Hw Hk Hlim Hact. destruct Hi. apply enforce_upload_limits_Ok in Hlim as [Hcount Hbytes]; [|done..].
  assert (Hnew : forall k id' u', uploads st !! id' = Some u' -> k ∈ up_target_keys u' -> k ∉ up_target_keys u).
  { intros k id' u' Hu' Hk' Hin. apply fail_if_Ok in Hact. apply eq_true_false_abs in Hact; [done|].
    apply existsb_exists. exists k. split; [by apply list_elem_of_In|]. apply bool_decide_eq_true, ti_active0. by exists id', u'. }
  split; cbn.
  - rewrite map_size_insert_None by done. lia.
  - by apply map_Forall_insert_2.
  - rewrite total_insert by done. lia.
  - apply map_Forall_insert_2; [|done]. lia.
  - by apply map_Forall_insert_2.
  - intros k. rewrite elem_of_union, elem_of_list_to_set, ti_active0. split.
    + intros [(id' & u' & Hu' & Hk')|Hk']; [|exists id, u; by rewrite lookup_insert_eq].
      exists id', u'. split; [|done]. rewrite lookup_insert_ne; [done|]. intros ->. by rewrite Hu' in Hn.
    + intros (id' & u' & [[-> ->]|[Hne Hu']]%lookup_insert_Some & Hk'); [by right | left; by exists id', u'].
  - intros id1 id2 u1 u2 k [[-> ->]|[_ H1]]%lookup_insert_Some [[-> ->]|[_ H2]]%lookup_insert_Some Hk1 Hk2; [done|..].
    + by destruct (Hnew k id2 u2).
    + by destruct (Hnew k id1 u1).
    + by apply (ti_disjoint0 id1 id2 u1 u2 k).
Qed.

Lemma table_inv_written id u n st : table_inv st -> uploads st !! id = Some u -> 0 <= n <= up_size u ->
  table_inv {| uploads := <[id := with_written n u]> (uploads st); active_write_targets := active_write_targets st |}.
Proof.
  intros Hi Hu Hn. destruct Hi.
  assert (Hl : forall i v, <[id := with_written n u]> (uploads st) !! i = Some v ->
    exists v', uploads st !! i = Some v' /\ up_target_keys v' = up_target_keys v).
  { intros i v [[-> <-]|[_ Hv]]%lookup_insert_Some; [by exists u | by exists v]. }
  split; cbn.
  - by rewrite map_size_insert_Some.
  - apply map_Forall_insert_2; [|done]. exact (ti_sizes0 _ _ Hu).
  - rewrite <- insert_delete_eq, total_insert by apply lookup_delete_eq. cbn.
    pose proof (total_delete _ _ _ Hu). lia.
  - by apply map_Forall_insert_2.
  - apply map_Forall_insert_2; [|done]. exact (ti_keys0 _ _ Hu).
  - intros k. rewrite ti_active0. split.
    + intros (i & v & Hv & Hk). destruct (decide (i = id)) as [->|Hne].
      * exists id, (with_written n u). rewrite lookup_insert_eq. rewrite Hu in Hv. by injection Hv as <-.
      * exists i, v. by rewrite lookup_insert_ne.
    + intros (i & v & (v' & Hv' & Hkk)%Hl & Hk). exists i, v'. by rewrite Hkk.
  - intros i j v w k (v' & Hv' & Ekv)%Hl (w' & Hw' & Ekw)%Hl. rewrite <- Ekv, <- Ekw. by apply ti_disjoint0.
Qed.

Lemma drop_upload_run id st f : fst (drop_upload id st f) = Ok (dropped id st).
Proof.
  unfold drop_upload, dropped. destruct (uploads st !! id) as [u|]; [|done].
  unfold mbind, M_bind, attempt. by destruct (remove_temp_file _ f).
Qed.

Lemma drop_uploads_run ids st f : fst (drop_uploads ids st f) = Ok (foldl (fun st id => dropped id st) st ids).
Proof.
  revert st f. induction ids as [|id ids IH]; intros st f; [done|]. cbn. unfold mbind, M_bind.
  pose proof (drop_upload_run id st f) as H. destruct (drop_upload id st f) as [r f']. cbn in H. subst r. apply IH.
Qed.

Lemma cleanup_run now st f : fst (cleanup now st f) = foldl (fun st id => dropped id st) st (expired_uploads now st).
Proof.
  unfold cleanup, cleanup_expired_uploads_at. pose proof (drop_uploads_run (expired_uploads now st) st f) as H.
  destruct (drop_uploads _ st f) as [r f']. cbn in H. by subst r.
Qed.

Lemma table_inv_cleanup now st f st1 f1 : table_inv st -> cleanup now st f = (st1, f1) -> table_inv st1.
Proof.
  intros Hi Hc. pose proof (cleanup_run now st f) as H. rewrite Hc in H. cbn in H. subst st1.
  revert st Hi Hc. generalize (expired_uploads now). intros ids st Hi _. generalize (ids st). clear ids.
  intros l. revert st Hi. induction l as [|id l IH]; intros st Hi; [done|]. cbn. by apply IH, table_inv_dropped.
Qed.

(** A target that could be opened is not being written. *)
Lemma open_save_free host active path f abs f1 : open_save hash_bytes root host active path f = (Ok abs, f1) ->
  ensure_no_active_write active (keys_of abs) = Ok ().
Proof.
  unfold open_save. intros (a & f2 & _ & ([] & f3 & Hl & ([] & f4 & _ & ([] & f5 & _ & [= -> _])%M_bind_Ok)%M_bind_Ok)%M_bind_Ok)%M_bind_Ok.
  by injection Hl.
Qed.

Lemma begin_upload_id host now path expected abs :
  spec (at_time now) (begin_prepared hash_bytes host path expected abs)
    (fun b _ => match b with BegunConflict _ => True | BegunUpload id _ _ => id = upload_id_of hash_bytes path now end) (fun _ => True).
Proof.
  unfold begin_prepared, open_write_parent, verify_write_parent_current.
  do 2 (eapply spec_bind; [apply (keeps_spec (at_time now)); kept|]; intros []).
  eapply spec_bind; [apply (keeps_spec (at_time now)); kept|]. intros h. destruct (negb _).
  { eapply spec_bind; [apply spec_any|]. intros []. eapply spec_fmap; [apply spec_any|]. done. }
  apply spec_get. intros f0 Hc. cbv zeta. unfold at_time in Hc. rewrite Hc.
  do 3 (eapply spec_bind; [apply spec_any|]; intros ?). by apply spec_ret.
Qed.

Lemma table_inv_request host now st f r resp st' f' :
  table_inv st -> request_ok now st f r -> handle_write hash_bytes root host now st r f = Some (resp, st', f') -> table_inv st'.
Proof.
  intros Hi Hr. destruct r; try discriminate; cbn [handle_write]; intros [= H]; revert H.
  - unfold write_file_cas_state. match goal with |- context [let '(_, _) := ?run in _] => destruct run as [r0 f0] end. by intros [= _ <- _].
  - destruct Hr as [Hsz Hid]. unfold begin_write_file_cas. destruct (cleanup now st f) as [st1 f1] eqn:Ec.
    pose proof (table_inv_cleanup _ _ _ _ _ Hi Ec) as Hi1.
    destruct (enforce_upload_limits st1 size) as [[]|e] eqn:Hlim; [|by intros [= _ <- _]].
    pose proof (keeps_time_open hash_bytes root host (clock f1) (active_write_targets st1) path f1 eq_refl) as Ht.
    destruct (open_save hash_bytes root host (active_write_targets st1) path f1) as [[abs|e] f2] eqn:Eo; [|by intros [= _ <- _]].
    apply open_save_free in Eo as Hact.
    destruct (begin_prepared hash_bytes host path expected_hash abs f2) as [[[c|id tmp ino]|e] f3] eqn:Eb; try (by intros [= _ <- _]).
    pose proof (run_spec _ _ _ _ _ _ _ (begin_upload_id host (clock f1) path expected_hash abs) Ht Eb) as ->.
    intros [= _ <- _]. match goal with |- table_inv {| uploads := <[_ := ?u]> _ |} =>
      exact (table_inv_insert _ u st1 Hi1 Hid Hsz eq_refl eq_refl Hlim Hact) end.
  - unfold write_file_chunk. destruct (cleanup now st f) as [st1 f1] eqn:Ec.
    pose proof (table_inv_cleanup _ _ _ _ _ Hi Ec) as Hi1. destruct (uploads st1 !! upload_id) as [u|] eqn:Hu; [|by intros [= _ <- _]].
    destruct (negb _); [by intros [= _ <- _]|]. cbv zeta. destruct (_ >? _) eqn:Egt; [by intros [= _ <- _]|].
    destruct ((syscall;; _) f1) as [[[]|e] f2]; [|by intros [= _ <- _]]. intros [= _ <- _]. apply table_inv_written; [done..|].
    pose proof (ti_written _ Hi1 _ _ Hu) as Hw. cbn in Hw. pose proof (zlen_nonneg content). unfold saturating_add, u64_max in *. lia.
  - unfold finish_write_file_cas. destruct (cleanup now st f) as [st1 f1] eqn:Ec.
    pose proof (table_inv_cleanup _ _ _ _ _ Hi Ec) as Hi1. destruct (uploads st1 !! upload_id) as [u|] eqn:Hu; [|by intros [= _ <- _]].
    destruct (finish_prepared hash_bytes host u f1) as [r0 f2]. intros [= _ <- _].
    pose proof (table_inv_dropped upload_id st1 Hi1) as Hd. unfold dropped in Hd. by rewrite Hu in Hd.
  - unfold abort_write_file_cas. destruct (cleanup now st f) as [st1 f1] eqn:Ec.
    pose proof (table_inv_cleanup _ _ _ _ _ Hi Ec) as Hi1. pose proof (drop_upload_run upload_id st1 f1) as Hd.
    destruct (drop_upload upload_id st1 f1) as [r0 f2]. cbn in Hd. subst r0. intros [= _ <- _]. by apply table_inv_dropped.
Qed.

Lemma table_inv_run st f : agent_run st f -> table_inv st.
Proof. induction 1; [apply table_inv_start | by eapply table_inv_request | done]. Qed.

(** C37 (upload table).  After any sequence of write requests, whatever fails and whatever others do to
    the files: at most 8 uploads of together at most 512 MiB are pending, none has received
    more than it declared, no two have the same target, and the targets closed to other
    writes are exactly those of the pending uploads, so that no lock is ever left behind. *)
Theorem upload_table_invariant st f :
  agent_run st f ->
  Z.of_nat (size (uploads st)) <= 8 /\ total (uploads st) <= 512 * 1024 * 1024 /\
  (forall id u, uploads st !! id = Some u -> 0 <= up_written u <= up_size u) /\
  (forall id id' u u', uploads st !! id = Some u -> uploads st !! id' = Some u' -> up_target_abs u = up_target_abs u' -> id = id') /\
  (forall abs, is_ok (ensure_no_active_write (active_write_targets st) (keys_of abs)) = false <->
     exists id u, uploads st !! id = Some u /\ keys_of (up_target_abs u) = keys_of abs).
Proof.
  intros Hi%table_inv_run. split; [apply Hi|]. split; [apply Hi|]. split; [apply (ti_written _ Hi)|]. split.
  - intros id id' u u' Hu Hu' Heq. pose proof (ti_keys _ Hi _ _ Hu) as Hk. pose proof (ti_keys _ Hi _ _ Hu') as Hk'.
    cbn in Hk, Hk'. eapply (ti_disjoint _ Hi id id' u u'); [done..| |].
    + rewrite Hk. unfold write_target_keys. by left.
    + rewrite Hk', Heq. unfold write_target_keys. by left.
  - intros abs. unfold ensure_no_active_write, write_target_keys. cbn [existsb]. rewrite orb_false_r.
    case_bool_decide as Hin; cbn; split; try done.
    + intros _. apply Hi in Hin as (id & u & Hu & Hk). exists id, u. split; [done|].
      pose proof (ti_keys _ Hi _ _ Hu) as Hku. cbn in Hku. rewrite Hku in Hk. unfold write_target_keys in Hk.
      apply list_elem_of_singleton in Hk. by rewrite Hk.
    + intros (id & u & Hu & [= Hk]). destruct Hin. apply Hi. exists id, u. split; [done|].
      pose proof (ti_keys _ Hi _ _ Hu) as Hku. cbn in Hku. rewrite Hku. unfold write_target_keys.
      change (B ":" ++ abs) with (":"%byte :: abs). rewrite <- Hk. by left.
Qed.
End Table.

(** ** The files of the uploads *)

(** The inode [i] is in use and no path but [t] leads to it. *)
Definition only_at (i : Z) (t : bytes) (f : fs) : Prop :=
  is_Some (inodes f !! i) /\ forall x, names f !! x = Some (EFile i) -> x = t.
#[export] Instance only_at_files i t : OfFiles (only_at i t).
Proof. by intros f fl Hf. Qed.

Section OnlyAt.
Context (hash_bytes : bytes -> bytes) (root : bytes) (host : WriteHost) (Halone : alone host) (i : Z) (t : bytes).
Abbreviation mine := (only_at i t).

Lemma keeps_mine_pause k : keeps mine (pause host k).
Proof. intros f Hf. unfold pause. by rewrite Halone. Qed.
Lemma keeps_mine_unlink p : keeps mine (unlink p).
Proof.
  unfold unlink. kept; intros f [Hi Hn]; split; cbn; try done; intros x [_ Hx]%lookup_delete_Some; by apply Hn.
Qed.
Lemma keeps_mine_set ino bs : keeps mine (set_data ino bs).
Proof.
  intros f [Hi Hn]. split; cbn; [|done]. destruct (decide (ino = i)) as [->|]; [rewrite lookup_insert_eq; by eexists | by rewrite lookup_insert_ne].
Qed.
Lemma keeps_mine_write ino offset bs : keeps mine (write_at ino offset bs).
Proof. pose proof (keeps_mine_set ino). unfold write_at. kept. Qed.

(** A new entry that is not the file. *)
Lemma mine_insert p e f : e <> EFile i -> mine f -> mine (with_names (<[p := e]> (names f)) f).
Proof. intros He [Hi Hn]. split; cbn; [done|]. intros x [[_ Hx]|[_ Hx]]%lookup_insert_Some; [congruence | by apply Hn]. Qed.
Lemma mine_fresh f : mine f -> fresh (used_inos f) <> i.
Proof. intros [[n Hi] _] E. pose proof (fresh_unused f). congruence. Qed.
Lemma mine_create p f : mine f ->
  mine (stage p (fresh (used_inos f)) {| data := []; mtime_ms := clock f / 1000000 |} f).
Proof.
  intros Hf. pose proof (mine_fresh f Hf) as Hne. destruct Hf as [Hi Hn]. split; cbn; [by rewrite lookup_insert_ne|].
  intros x [[_ Hx]|[_ Hx]]%lookup_insert_Some; [congruence | by apply Hn].
Qed.
Lemma spec_mine_create p : spec mine (create_temp_file p) (fun ino f => mine f /\ ino <> i) mine.
Proof.
  unfold create_temp_file, create_new. eapply spec_bind; [apply (keeps_syscall mine)|]. intros []. apply spec_get. intros f Hf.
  destruct (names f !! p); [apply spec_throw; by intros ? ->|]. intros f0 ->. cbn. split; [by apply mine_create | by apply mine_fresh].
Qed.

Lemma keeps_mine_open active path : keeps mine (open_save hash_bytes root host active path).
Proof.
  assert (Hmk : forall p, keeps mine (mkdir host p)).
  { intros p. unfold mkdir. kept. intros f Hf. by apply mine_insert. }
  assert (Hdirs : forall fuel p, keeps mine (create_dirs host fuel p))
    by (induction fuel as [|fuel IH]; intros [|b p]; cbn [create_dirs]; unfold unless_dir; kept).
  assert (Hanc : forall fuel p, keeps mine (existing_ancestor host fuel p))
    by (induction fuel as [|fuel IH]; intros p; cbn [existing_ancestor]; kept).
  assert (Hlock : forall key, keeps mine (open_private_unix_lock_file host key)).
  { intros key. unfold open_private_unix_lock_file. apply keeps_seq; [kept|]. intros []. apply spec_get. intros f Hf.
    eapply (spec_bind _ _ _ (fun _ => mine)); [|intros []; apply (keeps_syscall mine)].
    destruct (names f !! lock_path host key) as [[| |]|]; [apply spec_ret; by intros ? -> | apply spec_throw; by intros ? -> ..|].
    intros f0 ->. by apply (mine_create (lock_path host key)). }
  assert (Hlocks : forall keys, keeps mine (lock_files host keys)) by (induction keys as [|key keys IH]; cbn [lock_files]; kept).
  assert (Hmod : forall p, keeps mine (modify (fun f => with_names (<[p := EDir]> (names f)) f))) by (intros p f Hf; by apply mine_insert).
  pose proof keeps_mine_pause.
  unfold open_save, prepare_write_target, ensure_write_parent_inside_root, canonicalized, create_dir_all, acquire_write_locks,
    open_private_unix_lock_root. kept.
Qed.

(** Replacing a target by another file. *)
Lemma keeps_mine_commit abs tmp ino : ino <> i -> keeps mine (commit_temp abs tmp ino).
Proof.
  intros Hne. assert (Hrm : keeps mine (remove_temp_file tmp)) by apply keeps_mine_unlink.
  unfold commit_temp, verify_write_parent_current, capture_temp_file_identity, sync_write_parent.
  apply keeps_seq; [kept|]. intros []. eapply spec_bind; [apply spec_cleanup; [apply (spec_verify mine) | done]|]. intros [].
  eapply (spec_bind _ _ _ (fun _ => mine)); [|intros []; apply (keeps_syscall mine)].
  unfold rename_temp_into_path. apply spec_cleanup; [|done]. unfold rename.
  set (P := fun f => mine f /\ names f !! tmp = Some (EFile ino)). assert (OfFiles P) by (by intros f fl Hf).
  eapply spec_bind; [eapply spec_weaken; [apply (keeps_syscall P)|done|intros ? f Hf; exact Hf|by intros f []]|]. intros [].
  apply spec_get. intros f [Hf Ht]. rewrite Ht.
  assert (Hok : mine (with_names (<[abs := EFile ino]> (delete tmp (names f))) f)).
  { destruct Hf as [Hi Hn]. split; cbn; [done|]. intros x [[_ Hx]|[_ [_ Hx]%lookup_delete_Some]]%lookup_insert_Some; [congruence | by apply Hn]. }
  destruct (names f !! abs) as [[| |]|]; first [apply spec_throw; by intros ? -> | by intros ? ->].
Qed.

Lemma keeps_mine_conflict path abs expected actual : keeps mine (report_conflict host path abs expected actual).
Proof. pose proof keeps_mine_pause. unfold report_conflict. kept. Qed.
Lemma keeps_mine_swap path expected abs tmp ino report : ino <> i -> keeps mine report ->
  keeps mine (swap_save hash_bytes host path expected abs tmp ino report).
Proof.
  intros Hne Hr. pose proof keeps_mine_pause. pose proof keeps_mine_conflict. pose proof (keeps_mine_commit abs tmp ino Hne).
  assert (keeps mine (remove_temp_file tmp)) by apply keeps_mine_unlink. unfold swap_save. kept.
Qed.

Lemma keeps_mine_prepared path expected content abs :
  keeps mine (write_file_cas_prepared hash_bytes host path expected content abs).
Proof.
  pose proof keeps_mine_pause. pose proof keeps_mine_conflict. pose proof keeps_mine_write.
  assert (Hrm : forall tmp, keeps mine (remove_temp_file tmp)) by (intros; apply keeps_mine_unlink).
  unfold write_file_cas_prepared. eapply (spec_bind _ _ _ (fun r f => mine f /\ match r with inr (_, ino) => ino <> i | inl _ => True end)).
  - unfold stage_save, open_write_parent, verify_write_parent_current, sync_all.
    do 2 (eapply spec_bind; [apply (keeps_syscall mine) || apply keeps_mine_pause|]; intros []). eapply spec_bind; [apply (keeps_current_hash mine)|].
    intros h. destruct (negb _); [eapply spec_fmap; [apply keeps_mine_conflict|]; by intros c f Hf|].
    eapply spec_bind; [apply (keeps_get mine)|]. intros f0. cbv zeta.
    do 2 (eapply spec_bind; [apply (keeps_syscall mine) || apply keeps_mine_pause|]; intros []). eapply spec_bind; [apply spec_mine_create|]. intros ino.
    apply (spec_pure _ (ino <> i)); [by intros ? []|]. intros Hne.
    eapply (spec_weaken _ mine); [|by intros ? []|intros a f Hf; exact Hf|intros f Hf; exact Hf].
    eapply spec_bind; [apply keeps_mine_pause|]. intros []. do 3 (eapply spec_bind; [apply keeps_or_cleanup; kept|]; intros []).
    eapply spec_bind; [apply keeps_mine_pause|]. intros []. by apply spec_ret.
  - intros [o|[tmp ino]]; [by apply spec_ret; intros ? []|]. apply (spec_pure _ (ino <> i)); [by intros ? []|]. intros Hne.
    eapply spec_weaken; [apply (keeps_mine_swap path expected abs tmp ino (report_applied hash_bytes path abs) Hne)|by intros ? []|done|done].
    unfold report_applied. kept.
Qed.

Lemma keeps_mine_begin path expected abs :
  spec mine (begin_prepared hash_bytes host path expected abs)
    (fun b f => mine f /\ match b with BegunUpload _ _ ino => ino <> i | BegunConflict _ => True end) mine.
Proof.
  pose proof keeps_mine_pause. unfold begin_prepared, open_write_parent, verify_write_parent_current.
  do 2 (eapply spec_bind; [apply (keeps_syscall mine) || apply keeps_mine_pause|]; intros []). eapply spec_bind; [apply (keeps_current_hash mine)|].
  intros h. destruct (negb _).
  { eapply spec_bind; [apply keeps_mine_pause|]. intros []. eapply spec_fmap; [apply (keeps_conflict mine)|]. by intros c f Hf. }
  eapply spec_bind; [apply (keeps_get mine)|]. intros f0. cbv zeta.
  do 2 (eapply spec_bind; [apply (keeps_syscall mine) || apply keeps_mine_pause|]; intros []). eapply spec_bind; [apply spec_mine_create|]. intros ino.
  by apply spec_ret.
Qed.

Lemma keeps_mine_finish u : up_tmp_file u <> i -> keeps mine (finish_prepared hash_bytes host u).
Proof.
  intros Hne. pose proof keeps_mine_pause. assert (Hrm : keeps mine (remove_temp_file (up_tmp_path u))) by apply keeps_mine_unlink.
  unfold finish_prepared, sync_all, verify_write_parent_current. cbv zeta. destruct (negb _); [kept|].
  apply keeps_seq; [kept|]. intros []. apply keeps_seq; [kept|]. intros h. destruct (negb _); [kept|].
  do 3 (apply keeps_seq; [kept|]; intros []). apply keeps_mine_swap; [done|]. kept.
Qed.
End OnlyAt.

(** ** Without failures *)

Abbreviation quiet f := (faults f = []).

Section Quiet.
Context (hash_bytes : bytes -> bytes) (host : WriteHost) (Halone : alone host).
Abbreviation hash_at g abs := (node_hash hash_bytes (node_at g abs)).

Lemma run_syscall f : quiet f -> syscall f = (Ok (), f).
Proof. intros Hq. unfold syscall, mbind, M_bind, next_fault. by rewrite Hq. Qed.

Lemma run_bind {A B} (m : M A) (k : A -> M B) f a f' : m f = (Ok a, f') -> (m ≫= k) f = k a f'.
Proof. intros Hm. unfold mbind, M_bind. by rewrite Hm. Qed.

Lemma run_syscall_then {B} (k : unit -> M B) f : quiet f -> (syscall ≫= k) f = k () f.
Proof. intros Hq. by rewrite (run_bind _ _ _ _ _ (run_syscall f Hq)). Qed.

Lemma run_pause {B} k (m : unit -> M B) f : (pause host k ≫= m) f = m () f.
Proof. unfold mbind, M_bind, pause. rewrite Halone. by destruct f. Qed.

Lemma run_get {B} (k : fs -> M B) f : (get_fs ≫= k) f = k f f.
Proof. done. Qed.

Lemma run_cleanup {A} tmp (m : M A) f a f' : m f = (Ok a, f') -> or_cleanup tmp m f = (Ok a, f').
Proof. intros Hm. unfold or_cleanup, mbind, M_bind, attempt. by rewrite Hm. Qed.

Lemma run_metadata p f : quiet f -> symlink_metadata p f = (Ok (names f !! p), f).
Proof. intros Hq. unfold symlink_metadata. by rewrite run_syscall_then. Qed.

Lemma run_hash_open ino f : quiet f -> hash_open_file hash_bytes ino f = (Ok (hash_bytes (file_data f ino)), f).
Proof. intros Hq. unfold hash_open_file. by rewrite run_syscall_then. Qed.

Lemma run_current_hash abs f : quiet f -> node_at f abs <> Some NSymlink ->
  current_regular_file_hash hash_bytes abs f = (Ok (hash_at f abs), f).
Proof.
  intros Hq Hs. unfold current_regular_file_hash. rewrite (run_bind _ _ _ _ _ (run_metadata abs f Hq)).
  unfold node_at in *. destruct (names f !! abs) as [[ino| |]|] eqn:E; [|done..].
  assert (Ho : open_existing_content_file abs f = (Ok ino, f)).
  { unfold open_existing_content_file. rewrite run_syscall_then, run_get, E by done. by rewrite run_syscall_then. }
  rewrite (run_bind _ _ _ _ _ Ho). by rewrite (run_bind _ _ _ _ _ (run_hash_open ino f Hq)).
Qed.

Lemma run_create tmp f : quiet f -> names f !! tmp = None ->
  create_temp_file tmp f = (Ok (fresh (used_inos f)), stage tmp (fresh (used_inos f)) {| data := []; mtime_ms := clock f / 1000000 |} f).
Proof. intros Hq Hn. unfold create_temp_file, create_new. by rewrite run_syscall_then, run_get, Hn. Qed.

Lemma run_write_at ino offset content f : quiet f ->
  write_at ino offset content f =
    (Ok (), with_inodes (<[ino := {| data := overwrite (file_data f ino) offset content; mtime_ms := clock f / 1000000 |}]> (inodes f)) f).
Proof. intros Hq. unfold write_at, mbind, M_bind, next_fault. by rewrite Hq. Qed.

Lemma run_verify_temp ino tmp f : quiet f -> names f !! tmp = Some (EFile ino) -> verify_temp_file_identity ino tmp f = (Ok (), f).
Proof.
  intros Hq Hn. unfold verify_temp_file_identity. rewrite run_syscall_then by done.
  rewrite (run_bind _ _ _ _ _ (run_metadata tmp f Hq)), Hn. by rewrite Z.eqb_refl.
Qed.

Lemma run_commit abs tmp ino f : quiet f -> names f !! tmp = Some (EFile ino) -> names f !! abs <> Some EDir ->
  commit_temp abs tmp ino f = (Ok (), committed tmp abs ino f).
Proof.
  intros Hq Hn Hd. unfold commit_temp, verify_write_parent_current, capture_temp_file_identity, sync_write_parent.
  rewrite (run_bind _ _ _ _ _ (run_cleanup tmp _ _ _ _ (run_syscall f Hq))).
  rewrite (run_bind _ _ _ _ _ (run_cleanup tmp _ _ _ _ (run_verify_temp ino tmp f Hq Hn))).
  assert (Hr : rename tmp abs f = (Ok (), committed tmp abs ino f)).
  { unfold rename. rewrite run_syscall_then, run_get, Hn by done. by destruct (names f !! abs) as [[| |]|]. }
  rewrite (run_bind _ _ _ _ _ (run_cleanup tmp _ _ _ _ Hr)). by apply run_syscall.
Qed.

Lemma run_file_meta abs ino f : quiet f -> names f !! abs = Some (EFile ino) ->
  exists mt, file_meta hash_bytes abs f = (Ok (zlen (file_data f ino), mt), f).
Proof.
  intros Hq Hn. unfold file_meta. rewrite (run_bind _ _ _ _ _ (run_metadata abs f Hq)), Hn, run_get.
  assert (Hh : hash_file hash_bytes abs f = (Ok (hash_bytes (file_data f ino)), f)).
  { unfold hash_file. rewrite run_syscall_then, run_get, Hn by done. by apply run_hash_open. }
  rewrite (run_bind _ _ _ _ _ Hh). by eexists.
Qed.

Definition no_expired (now : Z) (st : AgentState) : Prop := map_Forall (fun _ u => is_expired now u = false) (uploads st).

Lemma run_expired now st f : no_expired now st -> cleanup now st f = (st, f).
Proof.
  intros Hn. unfold cleanup, cleanup_expired_uploads_at, expired_uploads.
  replace (List.filter _ (map_to_list (uploads st))) with (@nil (bytes * PendingUpload)); [done|]. symmetry.
  assert (Hl : Forall (fun '(_, u) => is_expired now u = false) (map_to_list (uploads st))).
  { apply Forall_forall. intros [i u] Hin%elem_of_map_to_list. exact (Hn i u Hin). }
  induction Hl as [|[i u] l Hu _ IH]; cbn; [done|]. by rewrite Hu.
Qed.

Lemma run_finish u f content :
  quiet f -> up_written u = up_size u -> names f !! up_tmp_path u = Some (EFile (up_tmp_file u)) ->
  file_data f (up_tmp_file u) = content -> hash_bytes content = up_content_hash u ->
  node_at f (up_target_abs u) <> Some NSymlink -> node_at f (up_target_abs u) <> Some NDir ->
  hash_at f (up_target_abs u) = up_expected_hash u ->
  exists a, finish_prepared hash_bytes host u f =
    (Ok (SaveOutcome_Applied a), committed (up_tmp_path u) (up_target_abs u) (up_tmp_file u) f) /\
    sa_new_hash a = hash_bytes content /\ sa_size a = zlen content.
Proof.
  intros Hq Hw Ht Hd Hh Hs Hdir Hexp. unfold finish_prepared. rewrite Hw, Z.eqb_refl. cbn [negb].
  rewrite (run_bind _ _ _ _ _ (run_cleanup _ _ _ _ _ (run_syscall f Hq))).
  rewrite (run_bind _ _ _ _ _ (run_cleanup _ _ _ _ _ (run_hash_open (up_tmp_file u) f Hq))).
  rewrite Hd, Hh. replace (bytes_eqb _ _) with true by (symmetry; by apply bytes_eqb_true). cbn [negb].
  rewrite (run_bind _ _ _ _ _ (run_cleanup _ _ _ _ _ (run_verify_temp _ _ f Hq Ht))).
  rewrite (run_bind _ _ _ _ _ (run_cleanup _ _ _ _ _ (run_syscall f Hq))), run_pause. unfold swap_save.
  rewrite (run_bind _ _ _ _ _ (run_current_hash _ f Hq Hs)), Hexp, bool_decide_true by done. cbn [negb].
  assert (Hnd : names f !! up_target_abs u <> Some EDir) by (intros E; apply Hdir; unfold node_at; by rewrite E).
  rewrite run_pause, (run_bind _ _ _ _ _ (run_commit _ _ _ f Hq Ht Hnd)), run_pause.
  set (c := committed _ _ _ f). assert (Hc : names c !! up_target_abs u = Some (EFile (up_tmp_file u))) by apply lookup_insert_eq.
  destruct (run_file_meta (up_target_abs u) (up_tmp_file u) c Hq Hc) as [mt Hm].
  rewrite (run_bind _ _ _ _ _ Hm). eexists. split; [reflexivity|]. cbn. split; [done|].
  change (file_data c (up_tmp_file u)) with (file_data f (up_tmp_file u)). by rewrite Hd.
Qed.
End Quiet.

(** ** An upload from beginning to end *)

Section Delivery.
Context (hash_bytes : bytes -> bytes) (root : bytes) (host : WriteHost) (Halone : alone host).
Abbreviation hash_at g abs := (node_hash hash_bytes (node_at g abs)).

(** [abs] holds [content], and nothing else but [tmp] changed. *)
Definition replaced (g : fs) (abs tmp content : bytes) (f : fs) : Prop :=
  node_at f abs = Some (NFile content) /\ forall p, p <> abs -> p <> tmp -> node_at f p = node_at g p.

(** A client that sends its chunks one after the other and stops at an error. *)
Fixpoint send_chunks (now : Z) (st : AgentState) (id : bytes) (offset : Z) (chunks : list bytes) (f : fs) :
    option (AgentState * fs) :=
  match chunks with
  | [] => Some (st, f)
  | chunk :: chunks =>
      match write_file_chunk now st id offset chunk f with
      | (Ok _, st, f) => send_chunks now st id (offset + zlen chunk) chunks f
      | _ => None
      end
  end.

Lemma overwrite_end old new : overwrite old (length old) new = old ++ new.
Proof.
  unfold overwrite. rewrite take_ge, Nat.sub_diag, drop_ge by lia. cbn. by rewrite app_nil_r.
Qed.

(** The table and the files after the bytes [sent] of upload [u]. *)
Definition table_at (id : bytes) (u : PendingUpload) (sent : bytes) (st : AgentState) : AgentState :=
  {| uploads := <[id := with_written (zlen sent) u]> (uploads st); active_write_targets := active_write_targets st |}.
Definition files_at (u : PendingUpload) (sent : bytes) (f : fs) : fs :=
  stage (up_tmp_path u) (up_tmp_file u) {| data := sent; mtime_ms := clock f / 1000000 |} f.

Lemma run_chunk now st f id u sent chunk :
  quiet f -> no_expired now (table_at id u sent st) ->
  zlen (sent ++ chunk) <= up_size u -> up_size u <= u64_max ->
  exists resp, write_file_chunk now (table_at id u sent st) id (zlen sent) chunk (files_at u sent f) =
    (Ok resp, table_at id u (sent ++ chunk) st, files_at u (sent ++ chunk) f).
Proof.
  intros Hq He Hz Hm. rewrite zlen_app in Hz. unfold write_file_chunk. rewrite run_expired by done.
  cbn [uploads table_at]. rewrite lookup_insert_eq. cbn [up_written with_written up_size up_tmp_file].
  rewrite Z.eqb_refl. cbn [negb]. unfold saturating_add. rewrite Z.min_l by lia.
  replace (_ >? _) with false by (symmetry; rewrite Z.gtb_ltb; apply Z.ltb_ge; lia). cbv zeta.
  rewrite run_syscall_then, run_write_at by done. rewrite zlen_to_nat. unfold files_at. rewrite stage_data. cbn [data].
  rewrite overwrite_end. cbn [clock stage with_names with_inodes]. rewrite put_stage. eexists.
  f_equal. f_equal. unfold table_at. cbn. by rewrite insert_insert_eq, zlen_app.
Qed.

Lemma run_chunks now st f id u sent chunks :
  quiet f -> (forall bs, no_expired now (table_at id u bs st)) ->
  zlen (sent ++ concat chunks) <= up_size u -> up_size u <= u64_max ->
  send_chunks now (table_at id u sent st) id (zlen sent) chunks (files_at u sent f) =
    Some (table_at id u (sent ++ concat chunks) st, files_at u (sent ++ concat chunks) f).
Proof.
  intros Hq He. revert sent. induction chunks as [|c chunks IH]; intros sent Hz Hm; cbn [send_chunks concat].
  - by rewrite app_nil_r.
  - cbn [concat] in Hz. rewrite app_assoc in Hz.
    assert (Hz1 : zlen (sent ++ c) <= up_size u) by (rewrite zlen_app in Hz; pose proof (zlen_nonneg (concat chunks)); lia).
    destruct (run_chunk now st f id u sent c Hq (He sent) Hz1 Hm) as [resp ->].
    rewrite <- zlen_app, IH by done. by rewrite app_assoc.
Qed.

Lemma run_begin path expected abs f :
  let id := upload_id_of hash_bytes path (clock f) in
  let tmp := with_extension abs (B"nrm-upload-" ++ id) in
  quiet f -> node_at f abs <> Some NSymlink -> hash_at f abs = expected -> names f !! tmp = None ->
  begin_prepared hash_bytes host path expected abs f =
    (Ok (BegunUpload id tmp (fresh (used_inos f))),
     stage tmp (fresh (used_inos f)) {| data := []; mtime_ms := clock f / 1000000 |} f).
Proof.
  intros id tmp Hq Hs Hexp Hn. unfold begin_prepared, open_write_parent, verify_write_parent_current.
  rewrite run_syscall_then, (run_pause host Halone) by done.
  rewrite (run_bind _ _ _ _ _ (run_current_hash hash_bytes abs f Hq Hs)), Hexp, bool_decide_true by done. cbn [negb].
  rewrite run_get, run_syscall_then, (run_pause host Halone) by done. cbv zeta. fold id tmp. by rewrite (run_bind _ _ _ _ _ (run_create tmp f Hq Hn)).
Qed.

(** Taking and releasing the keys of a free target. *)
Lemma released_keys active keys :
  ensure_no_active_write active keys = Ok () -> remove_keys keys (active ∪ list_to_set keys) = active.
Proof.
  intros Hact%fail_if_Ok. unfold remove_keys. apply set_eq. intros k.
  rewrite elem_of_difference, elem_of_union, elem_of_list_to_set. split; [naive_solver|]. intros Hk. split; [by left|].
  intros Hin. apply eq_true_false_abs in Hact; [done|]. apply existsb_exists. exists k.
  split; [by apply list_elem_of_In | by apply bool_decide_eq_true].
Qed.

(** Note (delivery).  Where nothing fails and nobody else writes, an upload whose target could be
    opened, is as the client expects and is within the limits succeeds: however the content is cut into
    chunks, the agent accepts every chunk and the end, the target then holds exactly the
    content, no other file has changed since the opening, the temporary is gone, and the table is as before. *)
Theorem upload_delivers_content now st f f0 path expected abs chunks :
  let content := concat chunks in
  let id := upload_id_of hash_bytes path (clock f0) in
  let tmp := with_extension abs (B"nrm-upload-" ++ id) in
  open_save hash_bytes root host (active_write_targets st) path f = (Ok abs, f0) ->
  quiet f0 -> no_expired now st -> uploads st !! id = None -> zlen content <= u64_max ->
  tmp <> abs -> names f0 !! tmp = None ->
  node_at f0 abs <> Some NSymlink -> node_at f0 abs <> Some NDir -> hash_at f0 abs = expected ->
  enforce_upload_limits st (zlen content) = Ok () ->
  exists st1 f1 st2 f2 a f3,
    begin_write_file_cas hash_bytes root host now st path expected (hash_bytes content) (zlen content) f =
      (Ok (Response_BeginWriteFileCas (WriteStart_Started {| ws_upload_id := id |})), st1, f1) /\
    send_chunks now st1 id 0 chunks f1 = Some (st2, f2) /\
    finish_write_file_cas hash_bytes host now st2 id f2 = (Ok (Response_FinishWriteFileCas (SaveOutcome_Applied a)), st, f3) /\
    sa_new_hash a = hash_bytes content /\ sa_size a = zlen content /\
    replaced f0 abs tmp content f3 /\ node_at f3 tmp = None.
Proof.
  intros content id tmp Hopen Hq He Hid Hz Hne Htmp Hs Hd Hexp Hlim. pose proof (open_save_free _ _ _ _ _ _ _ _ Hopen) as Hact.
  set (ino := fresh (used_inos f0)).
  set (u := {| up_path := path; up_target_abs := abs; up_target_keys := write_target_keys hash_bytes root abs;
               up_expected_hash := expected; up_content_hash := hash_bytes content; up_size := zlen content;
               up_tmp_path := tmp; up_tmp_file := ino; up_written := 0; up_created_at := now |}).
  set (st1 := {| uploads := uploads st; active_write_targets := active_write_targets st ∪ list_to_set (up_target_keys u) |}).
  assert (Hexpired : forall bs, no_expired now (table_at id u bs st1)).
  { intros bs. apply map_Forall_insert_2; [|exact He]. unfold is_expired, saturating_sub. cbn.
    rewrite Z.sub_diag. reflexivity. }
  assert (Hu : unnamed ino f0) by apply fresh_unnamed.
  pose proof (run_chunks now st1 f0 id u [] chunks Hq Hexpired (Z.le_refl _) Hz) as Hchunks.
  cbn [app] in Hchunks. fold content in Hchunks. change (zlen []) with 0 in Hchunks.
  set (f2 := files_at u content f0) in Hchunks. set (u2 := with_written (zlen content) u).
  assert (Hf2 : forall p, p <> tmp -> node_at f2 p = node_at f0 p) by (intros p Hp; by apply stage_node).
  assert (Hdata : file_data f2 ino = content) by apply stage_data.
  destruct (run_finish hash_bytes host Halone u2 f2 content) as (a & Hfin & Ha1 & Ha2); try done; try (by cbn; rewrite Hf2).
  { apply lookup_insert_eq. }
  exists (table_at id u [] st1), (files_at u [] f0), (table_at id u content st1), f2, a, (committed tmp abs ino f2).
  split; [|split; [exact Hchunks|split; [|split; [done|split; [done|]]]]].
  - unfold begin_write_file_cas. rewrite run_expired, Hlim, Hopen by done. by rewrite (run_begin path expected abs f0 Hq Hs Hexp Htmp).
  - unfold finish_write_file_cas. rewrite run_expired by apply Hexpired. cbn [uploads table_at]. rewrite lookup_insert_eq.
    fold u2. rewrite Hfin. cbn. f_equal. f_equal. rewrite delete_insert_id by done. destruct st as [us active]. cbn. f_equal.
    apply released_keys. exact Hact.
  - split; [|by apply committed_temp]. split; [by rewrite committed_target, Hdata|]. intros p Ha Hp. rewrite committed_other by done.
    by apply Hf2.
Qed.
End Delivery.

(** ** Witnesses *)

Definition demo_hash (bs : bytes) : bytes := B"h" ++ bs.
(** A host without links: what exists is where its path says. *)
Definition demo_canonicalize (f : fs) (path : bytes) : result agent_error bytes :=
  match names f !! path with Some EDir | Some (EFile _) => Ok path | _ => Err ENotFound end.
Definition demo_host (others : point -> gmap bytes dir_entry * gmap Z inode -> gmap bytes dir_entry * gmap Z inode) : WriteHost :=
  {| wh_canonicalize := demo_canonicalize; wh_temp_dir := B"/tmp"; wh_effective_uid := 1000; wh_others := others |}.
Definition nobody (k : point) (t : gmap bytes dir_entry * gmap Z inode) : gmap bytes dir_entry * gmap Z inode := t.
Lemma demo_alone : alone (demo_host nobody).
Proof. done. Qed.
Definition demo_fs (fl : list (option nat)) : fs :=
  {| names := {[ B"/" := EDir; B"/w" := EDir; B"/w/a.rs" := EFile 1; B"/w/b.rs" := EFile 2 ]};
     inodes := {[ 1 := {| data := B"old"; mtime_ms := 5 |}; 2 := {| data := B"other"; mtime_ms := 6 |} ]};
     faults := fl; clock := 7 |}.

Definition demo_chunks : list bytes := [B"new"; B""; B" text"].
Definition demo_id : bytes := upload_id_of demo_hash (B"a.rs") (clock (demo_fs [])).
Definition demo_tmp : bytes := with_extension (B"/w/a.rs") (B"nrm-upload-" ++ demo_id).
Definition demo_opened : fs := snd (open_save demo_hash (B"/w") (demo_host nobody) ∅ (B"a.rs") (demo_fs [])).

Lemma upload_delivers_content_witness :
  exists st1 f1 st2 f2 a f3,
    begin_write_file_cas demo_hash (B"/w") (demo_host nobody) 0 new_agent (B"a.rs") (Some (B"hold")) (demo_hash (concat demo_chunks))
        (zlen (concat demo_chunks)) (demo_fs []) =
      (Ok (Response_BeginWriteFileCas (WriteStart_Started {| ws_upload_id := demo_id |})), st1, f1) /\
    send_chunks 0 st1 demo_id 0 demo_chunks f1 = Some (st2, f2) /\
    finish_write_file_cas demo_hash (demo_host nobody) 0 st2 demo_id f2 = (Ok (Response_FinishWriteFileCas (SaveOutcome_Applied a)), new_agent, f3) /\
    sa_new_hash a = demo_hash (concat demo_chunks) /\ sa_size a = zlen (concat demo_chunks) /\
    replaced demo_opened (B"/w/a.rs") demo_tmp (concat demo_chunks) f3 /\ node_at f3 demo_tmp = None.
Proof.
  refine (upload_delivers_content demo_hash (B"/w") (demo_host nobody) demo_alone 0 new_agent (demo_fs []) demo_opened (B"a.rs") (Some (B"hold")) (B"/w/a.rs")
    demo_chunks _ _ _ _ _ _ _ _ _ _ _).
  - unfold demo_opened. change (active_write_targets new_agent) with (∅ : gset bytes).
    destruct (open_save _ _ _ _ _ _) as [r f] eqn:E. assert (Hr : fst (r, f) = Ok (B"/w/a.rs")) by (rewrite <- E; vm_compute; reflexivity).
    cbn in Hr. by rewrite Hr.
  - vm_compute. reflexivity.
  - apply map_Forall_empty.
  - reflexivity.
  - by vm_compute.
  - vm_compute. discriminate.
  - vm_compute. reflexivity.
  - vm_compute. discriminate.
  - vm_compute. discriminate.
  - vm_compute. reflexivity.
  - vm_compute. reflexivity.
Defined.

Lemma upload_table_invariant_witness :
  let st := snd (fst (begin_write_file_cas demo_hash (B"/w") (demo_host nobody) 0 new_agent (B"a.rs") (Some (B"hold")) (B"x") 8 (demo_fs []))) in
  Z.of_nat (size (uploads st)) = 1 /\ Z.of_nat (size (uploads st)) <= 8.
Proof.
  split; [by vm_compute|].
  refine (proj1 (upload_table_invariant demo_hash (B"/w") _
    (snd (begin_write_file_cas demo_hash (B"/w") (demo_host nobody) 0 new_agent (B"a.rs") (Some (B"hold")) (B"x") 8 (demo_fs []))) _)).
  eapply (run_request demo_hash (B"/w") (demo_host nobody) 0 new_agent (demo_fs []) (Request_BeginWriteFileCas (B"a.rs") (Some (B"hold")) (B"x") 8)
    (fst (fst (begin_write_file_cas demo_hash (B"/w") (demo_host nobody) 0 new_agent (B"a.rs") (Some (B"hold")) (B"x") 8 (demo_fs []))))).
  - apply run_start.
  - split; [lia|]. reflexivity.
  - cbn [handle_write]. by destruct (begin_write_file_cas _ _ _ _ _ _ _ _ _ _) as [[? ?] ?].
Defined.

(** Somebody replaces the target, by a file of their own, just before it is looked at again. *)
Definition intruder (k : point) (t : gmap bytes dir_entry * gmap Z inode) : gmap bytes dir_entry * gmap Z inode :=
  match k with
  | BeforeRecheck =>
      let ino := fresh (used_inos {| names := fst t; inodes := snd t; faults := []; clock := 0 |}) in
      (<[B"/w/a.rs" := EFile ino]> (fst t), <[ino := {| data := B"edit"; mtime_ms := 9 |}]> (snd t))
  | _ => t
  end.
Lemma intruder_leaves q : q <> B"/w/a.rs" -> left_alone (demo_host intruder) q.
Proof.
  intros Hne k t. destruct k; try done. cbn [wh_others demo_host intruder fst snd]. set (f := {| names := _ |}).
  split; [by rewrite lookup_insert_ne|]. intros ino Ht. rewrite lookup_insert_ne; [done|]. intros <-. exact (fresh_unnamed f q Ht).
Qed.
Lemma intruder_spares tmp : tmp <> B"/w/a.rs" -> spares (demo_host intruder) tmp.
Proof.
  intros Hne k t. split; [left; by apply intruder_leaves|]. destruct k; try done. cbn [wh_others demo_host intruder fst snd].
  intros ino Hi. set (i := fresh _). destruct (decide (i = ino)) as [->|]; [rewrite lookup_insert_eq; by eexists | by rewrite lookup_insert_ne].
Qed.

