(* ===== verification/AgentReads.v ===== *)
(** * Reads, scans and searches of the agent (crates/nrm-agent/src/main.rs, Unix)

    Reading files in chunks and in batches, validation, listing and paged search, over the
    file system of [AgentFs], and the dispatch of all requests.  How a path is resolved
    through directories and symlinks, and the walk of the [ignore] crate, are parameters. *)
From S2P Require Import Prelude Paths Protocol AgentFs AgentWrite.

Definition AGENT_READ_RESPONSE_MAX_BYTES : Z := MAX_FRAME_LEN - 1024 * 1024.
Definition AGENT_BATCH_TOTAL_MAX_BYTES : Z := AGENT_READ_RESPONSE_MAX_BYTES.
Definition AGENT_GREP_HARD_MAX_FILES : Z := 50000.
Definition AGENT_GREP_HARD_MAX_FILE_BYTES : Z := 4 * 1024 * 1024.
Definition AGENT_GREP_HARD_MAX_TOTAL_BYTES : Z := 32 * 1024 * 1024.
Definition AGENT_GREP_HARD_MAX_HIT_TEXT_BYTES : Z := 4 * 1024 * 1024.
Definition AGENT_GREP_HARD_MAX_LINE_BYTES : Z := 64 * 1024.
Definition MAX_GREP_SESSIONS : nat := 8.

(** What [fs::Metadata] says. *)
Record Metadata := { md_entry : dir_entry; md_len : Z; md_mtime_ms : Z; md_mode : Z }.
Definition is_file_entry (e : dir_entry) : bool := match e with EFile _ => true | _ => false end.

(** An item of a walk: an entry, or an error; its type may be unknown. *)
Record walk_entry := { we_path : bytes; we_type : option dir_entry }.
Abbreviation walk := (list (result agent_error walk_entry)).

Record GrepSession := { gs_query : bytes; gs_walk : walk }.
Record GrepCaps := { gc_max_files : option Z; gc_max_file_bytes : option Z; gc_max_total_bytes : option Z }.
(** The part of the agent's state that searches use. *)
Record GrepState := { grep_sessions : gmap bytes GrepSession; next_grep_session : Z }.

(** What the agent finds on its host. *)
Class Platform := {
  (** Where the parent directory of a request's path and the name in it lead, inside the root. *)
  resolve_content : fs -> bytes -> result agent_error bytes;
  (** Where the directories of a path lead, if they exist, and whether an entry is inside the root. *)
  lookup_path : fs -> bytes -> result agent_error (option bytes);
  inside_root : fs -> bytes -> result agent_error unit;
  (** Size and time of directories and symlinks, and permissions. *)
  other_stat : fs -> dir_entry -> Z * Z;
  entry_mode : fs -> dir_entry -> Z;
  (** [WalkBuilder::new(root)..build()]. *)
  grep_walk : fs -> walk;
  (** The git commands, which run a process. *)
  run_git : Request -> fs -> result agent_error Response }.

Section Reads.
Context `{Hplat : Platform} (hash_bytes : bytes -> bytes) (root : bytes).
(** [error.to_string()]. *)
Context (error_text : agent_error -> bytes).

(** ** Metadata *)

Definition metadata_of (f : fs) (e : dir_entry) : Metadata :=
  match e with
  | EFile ino => {| md_entry := e; md_len := zlen (file_data f ino);
                    md_mtime_ms := Z.max 0 (from_option mtime_ms 0 (inodes f !! ino)); md_mode := entry_mode f e |}
  | _ => {| md_entry := e; md_len := fst (other_stat f e); md_mtime_ms := Z.max 0 (snd (other_stat f e));
            md_mode := entry_mode f e |}
  end.
Definition file_meta_from_metadata (path : bytes) (md : Metadata) (hash : option bytes) : FileMeta := {|
  fm_path := path; fm_size := md_len md; fm_mtime_ms := md_mtime_ms md; fm_mode := md_mode md;
  fm_is_dir := match md_entry md with EDir => true | _ => false end;
  fm_is_symlink := match md_entry md with ESymlink => true | _ => false end; fm_hash := hash |}.

Definition relative_path (path : bytes) : result agent_error bytes :=
  let slashes := fmap (fun b => if byte_eqb b "\" then "/"%byte else b) in
  if bytes_eqb path root then Ok []
  else match strip_prefix (root ++ B"/") path with
       | Some relative => Ok (slashes relative)
       | None => Err EResolve
       end.

(** [fs::symlink_metadata(..)?] *)
Definition stat_entry (path : bytes) : M Metadata :=
  entry ← symlink_metadata path;
  match entry with
  | Some e => f ← get_fs; mret (metadata_of f e)
  | None => throw EIo
  end.
(** [file_meta] of the entry at [path], which the request names [abs]. *)
Definition file_meta (path abs : bytes) (include_hash : bool) : M FileMeta :=
  md ← stat_entry path;
  hash ← (if include_hash && is_file_entry (md_entry md) then Some <$> hash_file hash_bytes path else mret None);
  relative ← lift_result (relative_path abs);
  mret (file_meta_from_metadata relative md hash).

(** ** Opening and reading *)

Definition open_content (path : bytes) : M (Z * Metadata) :=
  f ← get_fs;
  abs ← lift_result (resolve_content f path);
  ino ← open_existing_content_file abs;
  f ← get_fs;
  mret (ino, metadata_of f (EFile ino)).

(** [read_exact] at the file's position. *)
Definition read_exact_at (ino : Z) (offset len : Z) : M bytes :=
  syscall;; f ← get_fs;
  let content := take (Z.to_nat len) (drop (Z.to_nat offset) (file_data f ino)) in
  if zlen content <? len then throw EIo else mret content.

Definition read_file (path : bytes) (offset : Z) (len : option Z) : M Response :=
  '(ino, md) ← open_content path;
  let file_len := md_len md in
  if offset >? file_len then throw EReadOffset
  else
    syscall;;
    let read_len := Z.min (default (file_len - offset) len) (file_len - offset) in
    if read_len >? AGENT_READ_RESPONSE_MAX_BYTES then throw EReadCap
    else
      content ← read_exact_at ino offset read_len;
      let eof := offset + read_len >=? file_len in
      hash ← (if eof then hash_open_file hash_bytes ino else mret []);
      mret (Response_ReadFile path offset eof content hash
              (file_meta_from_metadata path md (if eof then Some hash else None))).

Definition read_open_file_bytes_with_cap (ino : Z) (max_bytes : Z) : M bytes :=
  let max_bytes := Z.min max_bytes AGENT_READ_RESPONSE_MAX_BYTES in
  syscall;;
  syscall;; f ← get_fs;
  let content := take (Z.to_nat (saturating_add max_bytes 1)) (file_data f ino) in
  if zlen content >? max_bytes then throw EReadCap
  else syscall;; mret content.

Definition read_file_for_batch (path : bytes) (max_file_bytes remaining_total_bytes : Z) : M BatchReadFile :=
  '(ino, md) ← open_content path;
  if md_len md >? max_file_bytes then throw EBatchFileCap
  else if md_len md >? remaining_total_bytes then throw EBatchTotalCap
  else
    content ← read_open_file_bytes_with_cap ino (Z.min max_file_bytes remaining_total_bytes);
    let hash := hash_bytes content in
    mret {| brf_path := path; brf_content := content; brf_hash := hash;
            brf_meta := file_meta_from_metadata path md (Some hash) |}.

(** The loop of [read_files]: the files, the errors, and whether the total was reached. *)
Fixpoint read_files_loop (max_file_bytes max_total_bytes total_bytes : Z) (paths : list bytes) :
    M (list BatchReadFile * list BatchReadError * bool) :=
  match paths with
  | [] => mret ([], [], false)
  | path :: paths =>
      r ← attempt (read_file_for_batch path max_file_bytes (saturating_sub max_total_bytes total_bytes));
      match r with
      | Ok file =>
          '(files, errors, truncated) ←
            read_files_loop max_file_bytes max_total_bytes (saturating_add total_bytes (zlen (brf_content file))) paths;
          mret (file :: files, errors, truncated)
      | Err error =>
          let reported := {| bre_path := path; bre_message := error_text error |} in
          match error with
          | EBatchTotalCap => mret ([], [reported], true)
          | _ =>
              '(files, errors, truncated) ← read_files_loop max_file_bytes max_total_bytes total_bytes paths;
              mret (files, reported :: errors, truncated)
          end
      end
  end.
Definition read_files (paths : list bytes) (max_file_bytes max_total_bytes : Z) : M Response :=
  '(files, errors, truncated) ←
    read_files_loop (Z.min max_file_bytes AGENT_READ_RESPONSE_MAX_BYTES)
                    (Z.min max_total_bytes AGENT_BATCH_TOTAL_MAX_BYTES) 0 paths;
  mret (Response_ReadFiles files errors truncated).

(** ** Validation *)

Definition existing_metadata_path (path : bytes) : M (option bytes) :=
  f ← get_fs;
  located ← lift_result (lookup_path f path);
  match located with
  | None => mret None
  | Some located =>
      entry ← symlink_metadata located;
      match entry with
      | None => mret None
      | Some _ => syscall;; lift_result (inside_root f located);; mret (Some located)
      end
  end.
Definition validate_one_file (path : bytes) (include_hash : bool) : M BatchValidateFile :=
  abs ← lift_result (resolve_remote_path root path);
  located ← existing_metadata_path path;
  match located with
  | None => mret {| bvf_path := path; bvf_meta := None |}
  | Some located =>
      md ← stat_entry located;
      if include_hash && is_file_entry (md_entry md) then
        '(ino, md) ← open_content path;
        hash ← hash_open_file hash_bytes ino;
        mret {| bvf_path := path; bvf_meta := Some (file_meta_from_metadata path md (Some hash)) |}
      else meta ← file_meta located abs include_hash; mret {| bvf_path := path; bvf_meta := Some meta |}
  end.
Fixpoint validate_loop (include_hash : bool) (paths : list bytes) : M (list BatchValidateFile * list BatchReadError) :=
  match paths with
  | [] => mret ([], [])
  | path :: paths =>
      r ← attempt (validate_one_file path include_hash);
      '(files, errors) ← validate_loop include_hash paths;
      mret (match r with
            | Ok file => (file :: files, errors)
            | Err error => (files, {| bre_path := path; bre_message := error_text error |} :: errors)
            end)
  end.
Definition validate_files (paths : list bytes) (include_hash : bool) : M Response :=
  '(files, errors) ← validate_loop include_hash paths; mret (Response_ValidateFiles files errors).

(** ** Listing *)

Fixpoint scan_loop (limit : Z) (after : option bytes) (after_seen : bool) (entries : list FileMeta) (w : walk) :
    M (list FileMeta * bool) :=
  match w with
  | [] => mret (entries, false)
  | item :: w =>
      entry ← lift_result item;
      if bytes_eqb (we_path entry) root then scan_loop limit after after_seen entries w
      else
        relative ← lift_result (relative_path (we_path entry));
        if negb after_seen then scan_loop limit after (bool_decide (after = Some relative)) entries w
        else if zlen entries >=? limit then mret (entries, true)
        else
          meta ← file_meta (we_path entry) (we_path entry) false;
          scan_loop limit after after_seen (entries ++ [meta]) w
  end.
Definition scan (limit : Z) (after : option bytes) : M Response :=
  f ← get_fs;
  '(entries, truncated) ← scan_loop limit after (bool_decide (after = None)) [] (grep_walk f);
  mret (Response_Scan entries truncated).

(** ** Searching *)

Definition likely_binary_open_file (ino : Z) : M bool :=
  syscall;; syscall;; f ← get_fs; syscall;; mret (contains_byte x00 (take 1024 (file_data f ino))).

(** The variables of the search. *)
Record progress := {
  p_hits : list SearchHit; p_next_after : option bytes; p_scanned_files : Z; p_scanned_bytes : Z;
  p_hit_text_bytes : Z; p_after_seen : bool; p_hit_limit : bool; p_byte_limit : bool }.
Definition with_byte_limit (p : progress) : progress := {|
  p_hits := p_hits p; p_next_after := p_next_after p; p_scanned_files := p_scanned_files p;
  p_scanned_bytes := p_scanned_bytes p; p_hit_text_bytes := p_hit_text_bytes p; p_after_seen := p_after_seen p;
  p_hit_limit := p_hit_limit p; p_byte_limit := true |}.
Definition with_after_seen (seen : bool) (p : progress) : progress := {|
  p_hits := p_hits p; p_next_after := p_next_after p; p_scanned_files := p_scanned_files p;
  p_scanned_bytes := p_scanned_bytes p; p_hit_text_bytes := p_hit_text_bytes p; p_after_seen := seen;
  p_hit_limit := p_hit_limit p; p_byte_limit := p_byte_limit p |}.
(** [scanned_files += 1; next_after = Some(relative.clone())] *)
Definition count_file (relative : bytes) (p : progress) : progress := {|
  p_hits := p_hits p; p_next_after := Some relative; p_scanned_files := p_scanned_files p + 1;
  p_scanned_bytes := p_scanned_bytes p; p_hit_text_bytes := p_hit_text_bytes p; p_after_seen := p_after_seen p;
  p_hit_limit := p_hit_limit p; p_byte_limit := p_byte_limit p |}.
Definition count_bytes (n : Z) (p : progress) : progress := {|
  p_hits := p_hits p; p_next_after := p_next_after p; p_scanned_files := p_scanned_files p;
  p_scanned_bytes := saturating_add (p_scanned_bytes p) n; p_hit_text_bytes := p_hit_text_bytes p;
  p_after_seen := p_after_seen p; p_hit_limit := p_hit_limit p; p_byte_limit := p_byte_limit p |}.
Definition add_hit (hit : SearchHit) (reached : bool) (p : progress) : progress := {|
  p_hits := p_hits p ++ [hit]; p_next_after := if reached then None else p_next_after p;
  p_scanned_files := p_scanned_files p; p_scanned_bytes := p_scanned_bytes p;
  p_hit_text_bytes := p_hit_text_bytes p + zlen (sh_text hit); p_after_seen := p_after_seen p;
  p_hit_limit := reached; p_byte_limit := p_byte_limit p |}.

(** The lines of one file. *)
Fixpoint grep_lines (query : bytes) (limit : Z) (relative : bytes) (number : Z) (lines : list bytes) (p : progress) : progress :=
  match lines with
  | [] => p
  | line :: lines =>
      if zlen line >? AGENT_GREP_HARD_MAX_LINE_BYTES then grep_lines query limit relative (number + 1) lines (with_byte_limit p)
      else
        match find_text query line with
        | None => grep_lines query limit relative (number + 1) lines p
        | Some byte_idx =>
            if p_hit_text_bytes p + zlen line >? AGENT_GREP_HARD_MAX_HIT_TEXT_BYTES then with_byte_limit p
            else
              let hit := {| sh_path := relative; sh_line := number; sh_column := Z.of_nat byte_idx + 1; sh_text := line |} in
              if zlen (p_hits p) + 1 >=? limit then add_hit hit true p
              else grep_lines query limit relative (number + 1) lines (add_hit hit false p)
        end
  end.

(** The search of one file whose content is wanted: the progress, and whether the page ends. *)
Definition grep_file (query : bytes) (limit max_file_bytes max_total_bytes : Z) (relative : bytes) (p : progress) :
    M (progress * bool) :=
  opened ← attempt (open_content relative);
  match opened with
  | Err _ => mret (p, false)
  | Ok (ino, md) =>
      let p := count_file relative p in
      if md_len md >? max_file_bytes then mret (with_byte_limit p, false)
      else
        let remaining_total_bytes := saturating_sub max_total_bytes (p_scanned_bytes p) in
        if md_len md >? remaining_total_bytes then mret (with_byte_limit p, true)
        else
          binary ← likely_binary_open_file ino;
          if binary : bool then mret (p, false)
          else
            content ← attempt (read_open_file_bytes_with_cap ino (Z.min max_file_bytes remaining_total_bytes));
            match content with
            | Err _ => mret (with_byte_limit p, false)
            | Ok content =>
                let p := count_bytes (zlen content) p in
                if valid_utf8 content then
                  let p := grep_lines query limit relative 1 (str_lines content) p in mret (p, p_hit_limit p)
                else mret (p, false)
            end
  end.

(** The loop over the walk: the progress, the rest of the walk, and whether it is exhausted. *)
Fixpoint grep_loop (query : bytes) (limit : Z) (after : option bytes) (max_files max_file_bytes max_total_bytes : Z)
    (p : progress) (w : walk) : M (progress * walk * bool) :=
  if negb (p_scanned_files p <? max_files) then mret (p, w, false)
  else
    match w with
    | [] => mret (p, [], true)
    | item :: w =>
        entry ← lift_result item;
        match we_type entry with
        | Some (EFile _) =>
            relative ← lift_result (relative_path (we_path entry));
            if negb (p_after_seen p) then
              grep_loop query limit after max_files max_file_bytes max_total_bytes
                (with_after_seen (bool_decide (after = Some relative)) p) w
            else
              '(p, stop) ← grep_file query limit max_file_bytes max_total_bytes relative p;
              if stop : bool then mret (p, w, false)
              else grep_loop query limit after max_files max_file_bytes max_total_bytes p w
        | _ => grep_loop query limit after max_files max_file_bytes max_total_bytes p w
        end
    end.

Definition no_hits : Response := Response_Grep [] false None None 0.
Definition session_name (n : Z) : bytes := B"grep-" ++ to_decimal n.
(** Storing the rest of a walk; a full table loses one session, whichever comes first. *)
Definition store_session (id : bytes) (s : GrepSession) (sessions : gmap bytes GrepSession) : gmap bytes GrepSession :=
  <[id := s]> (if (MAX_GREP_SESSIONS <=? size sessions)%nat
               then match map_to_list sessions with (oldest, _) :: _ => delete oldest sessions | [] => sessions end
               else sessions).

Definition grep_with_caps (st : GrepState) (query : bytes) (limit : Z) (after session_id : option bytes) (caps : GrepCaps) :
    fs -> result agent_error Response * GrepState * fs := fun f =>
  let removed := match session_id with Some id => delete id (grep_sessions st) | None => grep_sessions st end in
  if bytes_eqb query [] || (limit =? 0) then
    (Ok no_hits, {| grep_sessions := removed; next_grep_session := next_grep_session st |}, f)
  else
    let session := session_id ≫= fun id => grep_sessions st !! id ≫= fun s => if bytes_eqb (gs_query s) query then Some s else None in
    let w := match session with Some s => gs_walk s | None => grep_walk f end in
    let active := if bool_decide (is_Some session) then session_id else None in
    let seen := match active with Some _ => true | None => bool_decide (after = None) end in
    let max_files := Z.max 1 (Z.min (default AGENT_GREP_HARD_MAX_FILES (gc_max_files caps)) AGENT_GREP_HARD_MAX_FILES) in
    let max_file_bytes := Z.min (default AGENT_GREP_HARD_MAX_FILE_BYTES (gc_max_file_bytes caps)) AGENT_GREP_HARD_MAX_FILE_BYTES in
    let max_total_bytes := Z.min (default AGENT_GREP_HARD_MAX_TOTAL_BYTES (gc_max_total_bytes caps)) AGENT_GREP_HARD_MAX_TOTAL_BYTES in
    let start := {| p_hits := []; p_next_after := None; p_scanned_files := 0; p_scanned_bytes := 0; p_hit_text_bytes := 0;
                    p_after_seen := seen; p_hit_limit := false; p_byte_limit := false |} in
    let st := {| grep_sessions := removed; next_grep_session := next_grep_session st |} in
    match grep_loop query limit after max_files max_file_bytes max_total_bytes start w f with
    | (Err e, f) => (Err e, st, f)
    | (Ok (p, w, exhausted), f) =>
        if bool_decide (active = None) && bool_decide (is_Some after) && negb (p_after_seen p) then (Err EGrepCursor, st, f)
        else
          let truncated := p_hit_limit p || p_byte_limit p || (negb exhausted && (p_scanned_files p >=? max_files)) in
          match p_next_after p with
          | Some next_after =>
              if truncated then
                let id := default (session_name (next_grep_session st)) active in
                let next := match active with
                            | Some _ => next_grep_session st
                            | None => Z.max (saturating_add (next_grep_session st) 1) 1
                            end in
                (Ok (Response_Grep (p_hits p) truncated (Some next_after) (Some id) (p_scanned_files p)),
                 {| grep_sessions := store_session id {| gs_query := query; gs_walk := w |} (grep_sessions st);
                    next_grep_session := next |}, f)
              else (Ok (Response_Grep (p_hits p) truncated None None (p_scanned_files p)), st, f)
          | None => (Ok (Response_Grep (p_hits p) truncated None None (p_scanned_files p)), st, f)
          end
    end.


(** ** All requests *)

Definition stat (path : bytes) : M Response :=
  abs ← lift_result (resolve_remote_path root path);
  located ← existing_metadata_path path;
  match located with
  | Some located => meta ← file_meta located abs false; mret (Response_Stat (Some meta))
  | None => mret (Response_Stat None)
  end.
Definition checksum (path : bytes) : M Response :=
  _ ← lift_result (resolve_remote_path root path);
  f ← get_fs;
  located ← lift_result (lookup_path f path);
  match located with
  | Some located => hash ← current_regular_file_hash hash_bytes located; mret (Response_Checksum path hash)
  | None => mret (Response_Checksum path None)
  end.

Context (package_version : bytes) (capabilities : CapabilitySet).
Definition hello (client_version : bytes) (protocol_version : Z) : result agent_error Response :=
  if negb (protocol_version =? PROTOCOL_VERSION) then Err EVersion
  else if negb (bytes_eqb client_version package_version) then Err EVersion
  else Ok (Response_Hello package_version PROTOCOL_VERSION capabilities).

Context (host : WriteHost).
Definition handle_request (now : Z) (st : AgentState) (gs : GrepState) (request : Request) (f : fs) :
    result agent_error Response * AgentState * GrepState * fs :=
  let reading (m : M Response) := let '(r, f) := m f in (r, st, gs, f) in
  match request with
  | Request_Hello client_version protocol_version => (hello client_version protocol_version, st, gs, f)
  | Request_Scan limit after => reading (scan limit after)
  | Request_Stat path => reading (stat path)
  | Request_Checksum path => reading (checksum path)
  | Request_ValidateFiles paths include_hash => reading (validate_files paths include_hash)
  | Request_ReadFile path offset len => reading (read_file path offset len)
  | Request_ReadFiles paths max_file_bytes max_total_bytes => reading (read_files paths max_file_bytes max_total_bytes)
  | Request_Grep query limit after max_files max_file_bytes max_total_bytes session_id =>
      let '(r, gs, f) := grep_with_caps gs query limit after session_id
        {| gc_max_files := max_files; gc_max_file_bytes := max_file_bytes; gc_max_total_bytes := max_total_bytes |} f in
      (r, st, gs, f)
  | Request_GitStatus _ _ | Request_GitDiff _ _ _ | Request_GitBlame _ _ => (run_git request f, st, gs, f)
  | Request_Shutdown => (Ok Response_Ack, st, gs, f)
  | _ =>
      match handle_write hash_bytes root host now st request f with
      | Some (r, st, f) => (r, st, gs, f)
      | None => (Ok Response_Ack, st, gs, f)
      end
  end.
End Reads.
