(* ===== verification/AgentReadsProps.v ===== *)
(** * What the agent's reads answer

    Batches and searches answer with the bytes of the files, within their limits, whichever
    system calls fail.  A search that is paged by bytes loses a file at the end of a page. *)
From S2P Require Import Prelude Paths Protocol AgentFs AgentWrite AgentWriteProps AgentReads.

Section Props.
Context `{Hplat : Platform} (hash_bytes : bytes -> bytes) (root : bytes) (error_text : agent_error -> bytes).

(** [path] leads to a regular file of [g] that holds [c]. *)
Definition content_at (g : fs) (path c : bytes) : Prop := exists f abs,
  like g f /\ resolve_content f path = Ok abs /\ node_at g abs = Some (NFile c).

Lemma like_data g f ino : like g f -> file_data f ino = file_data g ino.
Proof. intros (_ & H & _). unfold file_data. by rewrite H. Qed.
Lemma like_trans g f h : like g f -> like f h -> like g h.
Proof. intros (? & ? & ?) (? & ? & ?). unfold like. split_and!; congruence. Qed.

Lemma spec_lift {A} g (r : result agent_error A) : spec (like g) (lift_result r) (fun a f => like g f /\ r = Ok a) (like g).
Proof. intros f Hf. unfold lift_result. by destruct r. Qed.

Lemma spec_open_content g path : spec (like g) (open_content path)
  (fun x f => like g f /\ content_at g path (file_data g (fst x)) /\ md_len (snd x) = zlen (file_data g (fst x))) (like g).
Proof.
  unfold open_content. apply spec_get. intros f0 Hf0. eapply spec_bind.
  { eapply spec_weaken; [apply (spec_lift g (resolve_content f0 path))|by intros f ->|done|done]. }
  intros abs f [Hf Habs]. revert f Hf. eapply spec_bind; [apply spec_open|]. intros ino f1 [Hf1 Hn]. revert f1 Hf1.
  apply spec_get. intros f1 Hf1. apply spec_ret. intros f ->. split; [done|]. split; cbn.
  - exists f0, abs. split; [done|]. split; [done|]. unfold node_at. by rewrite Hn.
  - by rewrite (like_data g f1).
Qed.

(** Reading an open file below the limit gives its bytes. *)
Lemma spec_read_cap g ino cap : spec (like g) (read_open_file_bytes_with_cap ino cap)
  (fun c f => like g f /\ zlen c <= cap /\ (zlen (file_data g ino) <= cap -> cap <= AGENT_READ_RESPONSE_MAX_BYTES -> c = file_data g ino)) (like g).
Proof.
  unfold read_open_file_bytes_with_cap. cbv zeta. eapply spec_bind; [apply spec_syscall|]. intros [].
  apply spec_syscall_get; [done|]. intros f0 Hf0. rewrite (like_data g f0) by done. destruct (_ >? _) eqn:E; [by apply spec_throw|].
  eapply spec_bind; [apply spec_syscall|]. intros []. apply spec_ret. intros f Hf. split; [done|]. split; [lia|].
  intros H1 H2. apply take_ge. unfold saturating_add, u64_max, zlen in *. change AGENT_READ_RESPONSE_MAX_BYTES with 66060288 in *. lia.
Qed.

(** ** Batches *)

(** A file of the answer has the bytes of the file it names, their hash, and is not too large. *)
Definition good_file (g : fs) (max_file_bytes : Z) (file : BatchReadFile) : Prop :=
  content_at g (brf_path file) (brf_content file) /\ brf_hash file = hash_bytes (brf_content file) /\
  zlen (brf_content file) <= max_file_bytes.

Lemma spec_read_batch g path max_file remaining : max_file <= AGENT_READ_RESPONSE_MAX_BYTES ->
  spec (like g) (read_file_for_batch hash_bytes path max_file remaining)
    (fun file f => like g f /\ brf_path file = path /\ good_file g max_file file /\ zlen (brf_content file) <= remaining) (like g).
Proof.
  intros Hm. unfold read_file_for_batch. eapply spec_bind; [apply spec_open_content|]. intros [ino md] f (Hf & Hc & Hlen).
  revert f Hf. cbn in Hc, Hlen. rewrite Hlen. destruct (_ >? max_file) eqn:E1; [by apply spec_throw|].
  destruct (_ >? remaining) eqn:E2; [by apply spec_throw|]. eapply spec_bind; [apply spec_read_cap|].
  intros c f (Hf & Hle & Heq). revert f Hf. apply spec_ret. intros f Hf. rewrite Heq in * by lia.
  split; [done|]. split; [done|]. split; [|cbn; lia]. unfold good_file. cbn. split_and!; [done..|lia].
Qed.

Definition total_bytes (files : list BatchReadFile) : Z := foldr (fun file n => zlen (brf_content file) + n) 0 files.

(** The files and the errors answer the paths in order, up to where the total stopped them. *)
Inductive answers : list bytes -> list BatchReadFile -> list BatchReadError -> bool -> Prop :=
| answers_end : answers [] [] [] false
| answers_file file paths files errors truncated : answers paths files errors truncated ->
    answers (brf_path file :: paths) (file :: files) errors truncated
| answers_error error paths files errors truncated : answers paths files errors truncated ->
    answers (bre_path error :: paths) files (error :: errors) truncated
| answers_stop error paths : answers (bre_path error :: paths) [] [error] true.

Lemma spec_read_files_loop g max_file max_total paths : max_file <= AGENT_READ_RESPONSE_MAX_BYTES -> max_total <= u64_max ->
  forall total, 0 <= total -> spec (like g) (read_files_loop hash_bytes error_text max_file max_total total paths)
    (fun x f => like g f /\ Forall (good_file g max_file) (fst (fst x)) /\
       total_bytes (fst (fst x)) <= saturating_sub max_total total /\ answers paths (fst (fst x)) (snd (fst x)) (snd x)) (like g).
Proof.
  intros Hf Ht. induction paths as [|path paths IH]; intros total H0; cbn [read_files_loop].
  { apply spec_ret. intros f Hl. unfold saturating_sub. cbn. split_and!; [apply Hl..|constructor|lia|constructor]. }
  eapply spec_bind; [eapply spec_weaken; [eapply spec_attempt, spec_read_batch; done|done|done|done]|].
  intros [file|error].
  - intros f (Hl & Hp & Hg & Hrem). pose proof (zlen_nonneg (brf_content file)). revert f Hl. eapply spec_bind; [apply IH; unfold saturating_add, u64_max; lia|].
    intros [[files errors] truncated] f (Hl & H1 & H2 & H3). revert f Hl. apply spec_ret. intros f Hl. cbn in *.
    split; [done|]. split; [by constructor|]. split; [unfold saturating_sub, saturating_add in *; lia|]. rewrite <- Hp. by constructor.
  - assert (Hrest : spec (like g) ('(files, errors, truncated) ← read_files_loop hash_bytes error_text max_file max_total total paths;
      mret (files, {| bre_path := path; bre_message := error_text error |} :: errors, truncated))
      (fun x f => like g f /\ Forall (good_file g max_file) (fst (fst x)) /\
       total_bytes (fst (fst x)) <= saturating_sub max_total total /\ answers (path :: paths) (fst (fst x)) (snd (fst x)) (snd x)) (like g)).
    { eapply spec_bind; [by apply IH|]. intros [[files errors] truncated] f (Hl & H1 & H2 & H3). revert f Hl. apply spec_ret.
      intros f Hl. cbn in *. split_and!; try done; [apply Hl..|]. by apply (answers_error {| bre_path := path; bre_message := error_text error |}). }
    destruct error; try exact Hrest. apply spec_ret. intros f Hl. cbn. unfold saturating_sub. split_and!; [apply Hl..|constructor|lia|].
    apply (answers_stop {| bre_path := path; bre_message := error_text EBatchTotalCap |}).
Qed.

(** Note (bounds) A batch read, whichever system calls fail, answers its paths in order, each by a
    file or an error, up to where the total stopped it; a file has exactly the bytes of the file on
    disk and their hash; no file exceeds the limit for files and all together neither the requested
    total nor what fits a frame. *)
Theorem read_files_within_limits f paths max_file max_total files errors truncated f' :
  0 <= max_total <= u64_max ->
  read_files hash_bytes error_text paths max_file max_total f =
    (Ok (Response_ReadFiles files errors truncated), f') ->
  like f f' /\ answers paths files errors truncated /\
  Forall (good_file f (Z.min max_file AGENT_READ_RESPONSE_MAX_BYTES)) files /\
  total_bytes files <= Z.min max_total AGENT_BATCH_TOTAL_MAX_BYTES < MAX_FRAME_LEN.
Proof.
  intros Hm E. unfold read_files in E.
  pose proof (spec_read_files_loop f (Z.min max_file AGENT_READ_RESPONSE_MAX_BYTES) (Z.min max_total AGENT_BATCH_TOTAL_MAX_BYTES) paths
    ltac:(lia) ltac:(lia) 0 ltac:(lia) f (like_refl f)) as H.
  unfold mbind, M_bind in E. destruct (read_files_loop _ _ _ _ _ _ f) as [[[[fs es] t]|] f1]; [|done].
  injection E as <- <- <- <-. destruct H as (H1 & H2 & H3 & H4). cbn [fst snd] in H2, H3, H4. unfold saturating_sub in H3.
  assert (Hc : AGENT_BATCH_TOTAL_MAX_BYTES = 66060288) by reflexivity. assert (Hl : MAX_FRAME_LEN = 67108864) by reflexivity.
  split; [done|]. split; [done|]. split; [done|]. lia.
Qed.

(** ** Searches *)

(** A hit is where the search text first occurs in a line of a file of [g]. *)
Definition real_hit (g : fs) (query : bytes) (hit : SearchHit) : Prop := exists c i,
  content_at g (sh_path hit) c /\ valid_utf8 c = true /\ str_lines c !! i = Some (sh_text hit) /\
  sh_line hit = Z.of_nat i + 1 /\ exists j, find_text query (sh_text hit) = Some j /\ sh_column hit = Z.of_nat j + 1.
Definition text_bytes (hits : list SearchHit) : Z := foldr (fun hit n => zlen (sh_text hit) + n) 0 hits.
Lemma text_bytes_snoc hits hit : text_bytes (hits ++ [hit]) = text_bytes hits + zlen (sh_text hit).
Proof. induction hits as [|h hits IH]; cbn; [lia|]. unfold text_bytes in *. lia. Qed.

(** The invariant of a search. *)
Record search_ok (g : fs) (query : bytes) (limit : Z) (p : progress) : Prop := {
  so_hits : Forall (real_hit g query) (p_hits p);
  so_limit : zlen (p_hits p) <= limit /\ (p_hit_limit p = false -> zlen (p_hits p) < limit);
  so_text : p_hit_text_bytes p = text_bytes (p_hits p) /\ p_hit_text_bytes p <= AGENT_GREP_HARD_MAX_HIT_TEXT_BYTES }.

Lemma grep_lines_scanned query limit relative n lines p : p_scanned_files (grep_lines query limit relative n lines p) = p_scanned_files p.
Proof.
  revert n p. induction lines as [|line lines IH]; intros n p; cbn [grep_lines]; [done|].
  destruct (_ >? _); [by rewrite IH|]. destruct (find_text query line); [|by rewrite IH]. destruct (_ >? _); [done|].
  destruct (_ >=? _); [done|]. by rewrite IH.
Qed.

Lemma grep_lines_ok g query limit relative c : content_at g relative c -> valid_utf8 c = true ->
  forall lines i p, drop i (str_lines c) = lines -> search_ok g query limit p -> p_hit_limit p = false ->
  search_ok g query limit (grep_lines query limit relative (Z.of_nat i + 1) lines p).
Proof.
  intros Hc Hu. induction lines as [|line lines IH]; intros i p Hd Hp Hl; cbn [grep_lines]; [done|].
  assert (Hline : str_lines c !! i = Some line) by (rewrite <- (Nat.add_0_r i), <- lookup_drop, Hd; done).
  assert (Hd' : drop (S i) (str_lines c) = lines) by (rewrite <- Nat.add_1_r, <- drop_drop, Hd; done).
  replace (Z.of_nat i + 1 + 1) with (Z.of_nat (S i) + 1) by lia.
  destruct (_ >? _); [apply IH; [done | by destruct Hp; split | done]|].
  destruct (find_text query line) as [j|] eqn:Ej; [|by apply IH].
  destruct (_ >? AGENT_GREP_HARD_MAX_HIT_TEXT_BYTES) eqn:Et; [by destruct Hp; split|].
  set (hit := {| sh_path := relative; sh_line := Z.of_nat i + 1; sh_column := Z.of_nat j + 1; sh_text := line |}).
  assert (Hr : real_hit g query hit) by (exists c, i; split_and!; try done; by exists j).
  destruct Hp as [H1 [H2 H3] [H4 H5]]. specialize (H3 Hl).
  assert (Hok : forall b, (b = false -> zlen (p_hits p) + 1 < limit) -> search_ok g query limit (add_hit hit b p)).
  { intros b Hb. split; cbn; [by apply Forall_app; split; [|constructor]| |].
    - rewrite zlen_app. change (zlen [hit]) with 1. split; [lia | exact Hb].
    - rewrite text_bytes_snoc. cbn. lia. }
  destruct (_ >=? limit) eqn:El; [by apply Hok | apply IH; [done | apply Hok; intros _; lia | done]].
Qed.


Definition page_ok (g : fs) (query : bytes) (limit max_files : Z) (p : progress) : Prop :=
  search_ok g query limit p /\ 0 <= p_scanned_files p <= max_files.

Lemma spec_binary g ino : reads g (likely_binary_open_file ino).
Proof.
  unfold likely_binary_open_file. eapply spec_bind; [apply spec_syscall|]. intros []. apply spec_syscall_get; [done|]. intros f0 _.
  eapply spec_bind; [apply spec_syscall|]. intros []. by apply spec_ret.
Qed.

Lemma spec_grep_file g query limit max_files max_file max_total relative p :
  max_file <= AGENT_READ_RESPONSE_MAX_BYTES -> search_ok g query limit p -> p_hit_limit p = false -> 0 <= p_scanned_files p < max_files ->
  spec (like g) (grep_file query limit max_file max_total relative p)
    (fun x f => like g f /\ page_ok g query limit max_files (fst x) /\ (snd x = false -> p_hit_limit (fst x) = false)) (like g).
Proof.
  intros Hcap Hp Hl Hs. unfold grep_file. eapply spec_bind; [eapply spec_weaken; [eapply spec_attempt, spec_open_content|done|done|done]|].
  intros [[ino md]|e]; cycle 1.
  { apply spec_ret. intros f Hf. split; [done|]. split; [split; [done | cbn; lia]|]. done. }
  intros f (Hf & Hc & Hlen). revert f Hf. cbn in Hc, Hlen. cbv zeta.
  set (q := count_file relative p). assert (Hq : search_ok g query limit q) by (by destruct Hp; split).
  assert (Hpage : forall q', search_ok g query limit q' -> p_scanned_files q' = p_scanned_files p + 1 -> page_ok g query limit max_files q')
    by (intros q' H1 H2; split; [done | lia]).
  assert (Hstop : forall b, spec (like g) (mret (with_byte_limit q, b)) (fun x f => like g f /\ page_ok g query limit max_files (fst x) /\
    (snd x = false -> p_hit_limit (fst x) = false)) (like g)).
  { intros b. apply spec_ret. intros f Hf. split; [done|]. split; [apply Hpage; [by destruct Hq; split | done]|]. done. }
  destruct (md_len md >? max_file) eqn:E1; [exact (Hstop false)|].
  destruct (md_len md >? saturating_sub _ _) eqn:E2; [exact (Hstop true)|].
  eapply spec_bind; [apply spec_binary|]. intros [|].
  { apply spec_ret. intros f Hf. split; [done|]. by split; [apply Hpage|]. }
  eapply spec_bind; [eapply spec_weaken; [eapply spec_attempt, spec_read_cap|done|done|done]|].
  intros [c|e]; [|apply Hstop]. intros f (Hf & Hle & Heq). revert f Hf. cbv zeta.
  assert (Ec : c = file_data g ino) by (apply Heq; lia). subst c.
  destruct (valid_utf8 _) eqn:Eu; apply spec_ret; intros f Hf; (split; [done|]); cbn [fst snd]; split; try done.
  - apply Hpage; [|by rewrite grep_lines_scanned]. apply (grep_lines_ok g query limit relative _ Hc Eu _ 0%nat); [done|by destruct Hq; split|done].
  - by apply Hpage; [destruct Hq; split|].
Qed.

Lemma spec_grep_loop g query limit after max_files max_file max_total w : max_file <= AGENT_READ_RESPONSE_MAX_BYTES ->
  forall p, page_ok g query limit max_files p -> p_hit_limit p = false ->
  spec (like g) (grep_loop root query limit after max_files max_file max_total p w)
    (fun x f => like g f /\ page_ok g query limit max_files (fst (fst x))) (like g).
Proof.
  intros Hcap. induction w as [|item w IH]; intros p [Hp Hs] Hl; cbn [grep_loop]; (destruct (p_scanned_files p <? max_files) eqn:Em; cbn [negb];
    [|apply spec_ret; intros f Hf; split; [done|]; by split]).
  { apply spec_ret. intros f Hf. split; [done|]. by split. }
  eapply spec_bind; [apply spec_lift|]. intros entry f [Hf _]. revert f Hf.
  destruct (we_type entry) as [[ino| |]|]; [|by apply IH..].
  eapply spec_bind; [apply spec_lift|]. intros relative f [Hf _]. revert f Hf.
  destruct (p_after_seen p); cbn [negb]; [|apply IH; [|done]; split; [by destruct Hp; split | done]].
  eapply spec_bind; [apply (spec_grep_file g query limit max_files); [done..|lia]|].
  intros [q stop] f (Hf & Hq & Hstop). revert f Hf. cbn in Hq, Hstop. destruct stop; [|by apply IH; [|apply Hstop]].
  apply spec_ret. by intros f Hf.
Qed.

Lemma store_session_bounded (id : bytes) (s : GrepSession) (m : gmap bytes GrepSession) : (size m <= MAX_GREP_SESSIONS)%nat -> (size (store_session id s m) <= MAX_GREP_SESSIONS)%nat.
Proof.
  intros Hm. unfold store_session. assert (Hins : forall m' : gmap bytes GrepSession, (size m' < MAX_GREP_SESSIONS)%nat ->
    (size (<[id := s]> m') <= MAX_GREP_SESSIONS)%nat) by (intros m' H; rewrite map_size_insert; destruct (m' !! id); cbn; lia).
  destruct (_ <=? _)%nat eqn:E; [|apply Hins; by apply Nat.leb_gt]. destruct (map_to_list m) as [|[k x] l] eqn:El.
  - apply Hins. apply map_to_list_empty_iff in El as ->. rewrite map_size_empty. unfold MAX_GREP_SESSIONS. lia.
  - apply Hins. assert (Hk : m !! k = Some x) by (apply elem_of_map_to_list; rewrite El; left).
    rewrite (map_size_delete_Some k m) by eauto. assert (size m <> 0%nat) by (intros E0%map_size_empty_inv; by rewrite E0 in Hk). lia.
Qed.

(** C34 (safety) Whichever system calls fail and whatever session it resumes, a page of a search
    changes no file, every hit is where the text first occurs in that line of that file, there are
    at most [limit] hits, their text and the files looked at stay within the hard limits, and the
    table of sessions stays within its own. *)
Theorem search_hits_are_real st query limit after session_id caps f hits truncated next_after id scanned st' f' :
  0 < limit ->
  grep_with_caps root st query limit after session_id caps f =
    (Ok (Response_Grep hits truncated next_after id scanned), st', f') ->
  like f f' /\ Forall (real_hit f query) hits /\ zlen hits <= limit /\
  text_bytes hits <= AGENT_GREP_HARD_MAX_HIT_TEXT_BYTES /\ 0 <= scanned <= AGENT_GREP_HARD_MAX_FILES /\
  ((size (grep_sessions st) <= MAX_GREP_SESSIONS)%nat -> (size (grep_sessions st') <= MAX_GREP_SESSIONS)%nat).
Proof.
  intros Hlim E. unfold grep_with_caps in E.
  set (removed := match session_id with Some id => delete id (grep_sessions st) | None => grep_sessions st end) in E.
  assert (Hrem : (size (grep_sessions st) <= MAX_GREP_SESSIONS)%nat -> (size removed <= MAX_GREP_SESSIONS)%nat).
  { unfold removed. destruct session_id as [s|]; [|done]. intros H. rewrite map_size_delete. destruct (_ !! s); cbn; lia. }
  destruct (_ || _).
  { injection E as <- <- <- <- <- <- <-. split; [apply like_refl|]. split; [constructor|]. rewrite zlen_nil.
    split; [lia|]. split; [done|]. by split. }
  set (session := session_id ≫= _) in E. set (w := match session with Some s => gs_walk s | None => grep_walk f end) in E.
  set (active := if bool_decide (is_Some session) then session_id else None) in E.
  set (max_files := Z.max 1 _) in E. set (max_file := Z.min _ AGENT_GREP_HARD_MAX_FILE_BYTES) in E. set (start := Build_progress _ _ _ _ _ _ _ _) in E.
  assert (Hmf : max_files <= AGENT_GREP_HARD_MAX_FILES) by (unfold max_files, AGENT_GREP_HARD_MAX_FILES; lia).
  assert (Hcap : max_file <= AGENT_READ_RESPONSE_MAX_BYTES).
  { unfold max_file. assert (AGENT_GREP_HARD_MAX_FILE_BYTES = 4194304) by reflexivity. assert (AGENT_READ_RESPONSE_MAX_BYTES = 66060288) by reflexivity. lia. }
  assert (Hstart : page_ok f query limit max_files start).
  { split; [|cbn; unfold max_files; lia]. split; cbn; [constructor | rewrite zlen_nil; lia | done]. }
  pose proof (spec_grep_loop f query limit after max_files max_file (Z.min (default AGENT_GREP_HARD_MAX_TOTAL_BYTES (gc_max_total_bytes caps))
    AGENT_GREP_HARD_MAX_TOTAL_BYTES) w Hcap start Hstart eq_refl f (like_refl f)) as Hspec.
  destruct (grep_loop _ _ _ _ _ _ _ _ _ f) as [[[[p rest] exhausted]|] f1]; [|done].
  destruct Hspec as (Hlike & [[H1 [H2 _] [H3 H4]] H5]). cbn in H1, H2, H3, H4, H5.
  destruct (_ && _ && _); [done|]. cbv zeta in E.
  destruct (p_next_after p) as [next|]; [destruct (_ || _ || _)|]; injection E as <- <- <- <- <- <- <-;
    (split; [done|]; split; [done|]; split; [done|]; split; [lia|]; split; [lia|]); cbn [grep_sessions]; auto using store_session_bounded.
Qed.

(** ** Where a page goes on *)

(** The files of a walk, by their names in the workspace. *)
Definition walk_files (w : walk) : list bytes :=
  w ≫= fun item =>
    match item with
    | Ok entry =>
        match we_type entry, relative_path root (we_path entry) with
        | Some (EFile _), Ok relative => [relative]
        | _, _ => []
        end
    | Err _ => []
    end.

Lemma grep_lines_paths query limit relative n lines p hit : hit ∈ p_hits (grep_lines query limit relative n lines p) ->
  hit ∈ p_hits p \/ sh_path hit = relative.
Proof.
  revert n p. induction lines as [|line lines IH]; intros n p; cbn [grep_lines]; [by left|].
  destruct (_ >? _); [intros H; exact (IH _ _ H)|]. destruct (find_text query line) as [j|]; [|by apply IH]. destruct (_ >? _); [by left|].
  set (h := {| sh_path := relative; sh_line := n; sh_column := Z.of_nat j + 1; sh_text := line |}).
  assert (Hadd : forall b, hit ∈ p_hits (add_hit h b p) -> hit ∈ p_hits p \/ sh_path hit = relative).
  { intros b [?|Hh]%elem_of_app; [by left | right]. by apply list_elem_of_singleton in Hh as ->. }
  destruct (_ >=? limit); [by apply Hadd|]. intros [?|?]%IH; [by eapply Hadd | by right].
Qed.

Lemma grep_lines_seen query limit relative n lines p : p_after_seen (grep_lines query limit relative n lines p) = p_after_seen p.
Proof.
  revert n p. induction lines as [|line lines IH]; intros n p; cbn [grep_lines]; [done|].
  destruct (_ >? _); [by rewrite IH|]. destruct (find_text query line); [|by rewrite IH]. destruct (_ >? _); [done|].
  destruct (_ >=? _); [done|]. by rewrite IH.
Qed.

Lemma grep_file_paths query limit max_file max_total relative p f q stop f' :
  grep_file query limit max_file max_total relative p f = (Ok (q, stop), f') ->
  p_after_seen q = p_after_seen p /\ forall hit, hit ∈ p_hits q -> hit ∈ p_hits p \/ sh_path hit = relative.
Proof.
  unfold grep_file, mbind, M_bind, attempt. destruct (open_content relative f) as [[[ino md]|e] f1]; [|by intros [= <- <- <-]; auto].
  cbv zeta. destruct (_ >? max_file); [by intros [= <- <- <-]; auto|]. destruct (_ >? _); [by intros [= <- <- <-]; auto|].
  destruct (likely_binary_open_file ino f1) as [[[]|e] f2]; [by intros [= <- <- <-]; auto| |done].
  destruct (read_open_file_bytes_with_cap _ _ f2) as [[content|e] f3]; [|by intros [= <- <- <-]; auto].
  destruct (valid_utf8 content); intros [= <- <- <-]; [|by auto]. split; [by rewrite grep_lines_seen|].
  intros hit Hh. exact (grep_lines_paths _ _ _ _ _ _ _ Hh).
Qed.

Lemma lift_bind_Ok {A B} (r : result agent_error A) (k : A -> M B) f b f' :
  (lift_result r ≫= k) f = (Ok b, f') -> exists a, r = Ok a /\ k a f = (Ok b, f').
Proof. unfold lift_result, mbind, M_bind. destruct r; [eauto | done]. Qed.
Lemma lift_bind {A B} (a : A) (k : A -> M B) f : (lift_result (Ok a) ≫= k) f = k a f.
Proof. reflexivity. Qed.
Lemma walk_files_cons item w : walk_files (item :: w) = walk_files [item] ++ walk_files w.
Proof. unfold walk_files. cbn [mbind list_bind]. by rewrite app_nil_r. Qed.
Lemma walk_files_one entry i relative : we_type entry = Some (EFile i) -> relative_path root (we_path entry) = Ok relative ->
  walk_files [Ok entry] = [relative].
Proof. intros Ht Hr. unfold walk_files. cbn. by rewrite Ht, Hr. Qed.

Section Loop.
Context (query : bytes) (limit : Z) (after : option bytes) (max_files max_file max_total : Z).
Abbreviation loop := (grep_loop root query limit after max_files max_file max_total).

(** Once the cursor was seen, every new hit is in a file of the walk. *)
Lemma grep_loop_paths w : forall p f q rest exhausted f', p_after_seen p = true ->
  loop p w f = (Ok (q, rest, exhausted), f') -> forall hit, hit ∈ p_hits q -> hit ∈ p_hits p \/ sh_path hit ∈ walk_files w.
Proof.
  induction w as [|item w IH]; intros p f q rest exhausted f' Hseen; cbn [grep_loop];
    (destruct (negb _); [by intros [= <- <- <- <-]; left|]); [by intros [= <- <- <- <-]; left|].
  rewrite walk_files_cons. intros (entry & -> & E)%lift_bind_Ok hit Hh. rewrite elem_of_app.
  destruct (we_type entry) as [[i| |]|] eqn:Et; [|destruct (IH _ _ _ _ _ _ Hseen E hit Hh) as [?|?]; [by left | by right; right]..].
  apply lift_bind_Ok in E as (relative & Er & E). rewrite (walk_files_one entry i relative), list_elem_of_singleton by done.
  rewrite Hseen in E. apply M_bind_Ok in E as ([p' stop] & f1 & [Hs Hp]%grep_file_paths & E).
  assert (Hp' : hit ∈ p_hits p' \/ sh_path hit ∈ walk_files w).
  { destruct stop; [injection E as <- <- <- <-; by left|]. eapply IH; [|exact E|exact Hh]. by rewrite Hs. }
  destruct Hp' as [Hp'|?]; [|by right; right]. destruct (Hp _ Hp') as [?|?]; [by left | by right; left].
Qed.

(** Before that, no file up to the cursor's has a hit. *)
Lemma grep_loop_skip relative entry i post pre : after = Some relative -> we_type entry = Some (EFile i) ->
  relative_path root (we_path entry) = Ok relative -> forall p f q rest exhausted f', p_after_seen p = false ->
  loop p (pre ++ Ok entry :: post) f = (Ok (q, rest, exhausted), f') -> relative ∉ walk_files pre ->
  forall hit, hit ∈ p_hits q -> hit ∈ p_hits p \/ sh_path hit ∈ walk_files post.
Proof.
  intros Ha Ht Hr. induction pre as [|item pre IH]; intros p f q rest exhausted f' Hseen; cbn [app grep_loop];
    (destruct (negb (_ <? _)); [by intros [= <- <- <- <-]; left|]); intros (e & Ee & E)%lift_bind_Ok Hpre hit Hh.
  - injection Ee as <-. rewrite Ht in E. apply lift_bind_Ok in E as (relative' & Er & E). assert (relative' = relative) as -> by congruence.
    rewrite Hseen, bool_decide_true in E by done. eapply (grep_loop_paths _ (with_after_seen true p)) in Hh; done.
  - subst item. rewrite walk_files_cons in Hpre. apply not_elem_of_app in Hpre as [Hne Hpre].
    destruct (we_type e) as [[j| |]|] eqn:Ej; [|exact (IH _ _ _ _ _ _ Hseen E Hpre hit Hh)..].
    apply lift_bind_Ok in E as (relative' & Er & E). rewrite (walk_files_one e j relative') in Hne by done.
    rewrite Hseen, bool_decide_false in E by (rewrite Ha; intros [= ->]; apply Hne; by left).
    exact (IH (with_after_seen false p) _ _ _ _ _ eq_refl E Hpre hit Hh).
Qed.

(** A walk that was gone through whole goes on with what is added to it. *)
Lemma grep_loop_app w w' : forall p f q rest f', loop p w f = (Ok (q, rest, true), f') ->
  loop p (w ++ w') f = loop q w' f' /\ (p_scanned_files q <? max_files) = true /\ (p_after_seen p = true -> p_after_seen q = true).
Proof.
  induction w as [|item w IH]; intros p f q rest f'; cbn [app grep_loop].
  { destruct (_ <? _) eqn:El; cbn [negb]; [|done]. intros [= <- <- <-]. done. }
  destruct (negb _) eqn:En; [done|]. intros (entry & -> & E)%lift_bind_Ok. rewrite lift_bind.
  destruct (we_type entry) as [[i| |]|]; [|exact (IH _ _ _ _ _ E)..].
  apply lift_bind_Ok in E as (relative & -> & E). rewrite lift_bind.
  destruct (p_after_seen p) eqn:Es; cbn [negb] in *; [|by apply IH in E as (-> & ? & _)].
  apply M_bind_Ok in E as ([p' stop] & f1 & Eg & E). unfold mbind at 1, M_bind at 1. rewrite Eg.
  destruct stop; [discriminate E|]. apply IH in E as (-> & ? & Hq). split_and!; [done|done|]. intros _. apply Hq.
  apply grep_file_paths in Eg as [-> _]. done.
Qed.
End Loop.

(** The limits of a page, and a page of a new search before its first file. *)
Definition page_files (caps : GrepCaps) : Z :=
  Z.max 1 (Z.min (default AGENT_GREP_HARD_MAX_FILES (gc_max_files caps)) AGENT_GREP_HARD_MAX_FILES).
Definition page_file_bytes (caps : GrepCaps) : Z :=
  Z.min (default AGENT_GREP_HARD_MAX_FILE_BYTES (gc_max_file_bytes caps)) AGENT_GREP_HARD_MAX_FILE_BYTES.
Definition page_total_bytes (caps : GrepCaps) : Z :=
  Z.min (default AGENT_GREP_HARD_MAX_TOTAL_BYTES (gc_max_total_bytes caps)) AGENT_GREP_HARD_MAX_TOTAL_BYTES.
Definition new_page (seen : bool) : progress := {|
  p_hits := []; p_next_after := None; p_scanned_files := 0; p_scanned_bytes := 0; p_hit_text_bytes := 0;
  p_after_seen := seen; p_hit_limit := false; p_byte_limit := false |}.
Definition session_of (st : GrepState) (query : bytes) (session_id : option bytes) : option GrepSession :=
  session_id ≫= fun id => grep_sessions st !! id ≫= fun s => if bytes_eqb (gs_query s) query then Some s else None.

(** The hits of a page are those of its loop. *)
Lemma page_hits st query limit after session_id caps f hits truncated next_after id scanned st' f' :
  grep_with_caps root st query limit after session_id caps f =
    (Ok (Response_Grep hits truncated next_after id scanned), st', f') -> hits <> [] ->
  let session := session_of st query session_id in
  exists p rest exhausted, p_hits p = hits /\
    grep_loop root query limit after (page_files caps) (page_file_bytes caps) (page_total_bytes caps)
      (new_page match session with Some _ => true | None => bool_decide (after = None) end)
      (match session with Some s => gs_walk s | None => grep_walk f end) f = (Ok (p, rest, exhausted), f').
Proof.
  unfold grep_with_caps. destruct (_ || _); [by intros [= <-]|]. fold (session_of st query session_id).
  fold (page_files caps) (page_file_bytes caps) (page_total_bytes caps). cbv zeta.
  assert (Ea : match (if bool_decide (is_Some (session_of st query session_id)) then session_id else None) with Some _ => true | None => bool_decide (after = None) end =
    match session_of st query session_id with Some _ => true | None => bool_decide (after = None) end).
  { unfold session_of. destruct session_id as [i|]; [|done]. cbn. destruct (grep_sessions st !! i ≫= _) eqn:E; [|done].
    by rewrite bool_decide_true by eauto. }
  rewrite Ea. fold (new_page match session_of st query session_id with Some _ => true | None => bool_decide (after = None) end).
  destruct (grep_loop _ _ _ _ _ _ _ _ _ f) as [[[[p rest] exhausted]|e] f1]; [|done]. destruct (_ && _ && _); [done|].
  intros E _. exists p, rest, exhausted. destruct (p_next_after p); [destruct (_ || _ || _)|]; injection E as <- <- <- <- <- <- <-; done.
Qed.

Lemma new_page_paths query limit after max_files max_file max_total w f q rest exhausted f' hit :
  grep_loop root query limit after max_files max_file max_total (new_page true) w f = (Ok (q, rest, exhausted), f') ->
  hit ∈ p_hits q -> sh_path hit ∈ walk_files w.
Proof.
  intros E Hh. destruct (grep_loop_paths _ _ _ _ _ _ w (new_page true) _ _ _ _ _ eq_refl E hit Hh) as [H|H]; [|done].
  by apply elem_of_nil in H.
Qed.

(** The page that ends at a file with more bytes than are left of the page. *)
Lemma page_stops_at st query limit caps f pre entry i relative post p f1 ino md f2 :
  query <> [] -> limit <> 0 -> grep_walk f = pre ++ Ok entry :: post ->
  we_type entry = Some (EFile i) -> relative_path root (we_path entry) = Ok relative ->
  grep_loop root query limit None (page_files caps) (page_file_bytes caps) (page_total_bytes caps) (new_page true) pre f =
    (Ok (p, [], true), f1) ->
  open_content relative f1 = (Ok (ino, md), f2) ->
  saturating_sub (page_total_bytes caps) (p_scanned_bytes p) < md_len md <= page_file_bytes caps ->
  exists id st1, grep_with_caps root st query limit None None caps f =
      (Ok (Response_Grep (p_hits p) true (Some relative) (Some id) (p_scanned_files p + 1)), st1, f2) /\
    grep_sessions st1 !! id = Some {| gs_query := query; gs_walk := post |}.
Proof.
  intros Hq Hl Hw Ht Hr Hpre Ho Hlen. destruct (grep_loop_app _ _ _ _ _ _ pre (Ok entry :: post) _ _ _ _ _ Hpre) as (Eloop & Hfiles & Hseen).
  unfold grep_with_caps. apply bytes_eqb_false in Hq as ->. apply Z.eqb_neq in Hl as ->. cbv zeta. cbn [orb mbind option_bind].
  rewrite (bool_decide_false (is_Some (@None GrepSession))) by (by intros [? [=]]). rewrite (bool_decide_true (@None bytes = None)) by done.
  fold (page_files caps) (page_file_bytes caps) (page_total_bytes caps) (new_page true). rewrite Hw, Eloop. cbn [grep_loop]. rewrite Hfiles.
  cbn [negb]. rewrite lift_bind, Ht, Hr, lift_bind. rewrite Hseen by done. cbn [negb].
  assert (Eg : grep_file query limit (page_file_bytes caps) (page_total_bytes caps) relative p f1 =
    (Ok (with_byte_limit (count_file relative p), true), f2)).
  { unfold grep_file, attempt. unfold mbind, M_bind. rewrite Ho. cbv zeta.
    replace (md_len md >? page_file_bytes caps) with false by lia. cbn [count_file p_scanned_bytes].
    by replace (md_len md >? saturating_sub (page_total_bytes caps) (p_scanned_bytes p)) with true by lia. }
  unfold mbind at 1, M_bind at 1. rewrite Eg. cbn. rewrite orb_true_r. cbn.
  eexists _, _. split; [reflexivity|]. cbn. unfold store_session. by rewrite lookup_insert_eq.
Qed.

(** C35 (error): a page of a new search that ends because the next file has more bytes than are left of the page
    has taken that file from the walk without reading it, and names it as the cursor.  Whichever
    the walk, the files and the calls that failed before, the page has no hit in the file, and neither has the
    next page, whether it goes on by the session or, on the same walk, by the cursor: the file's hits
    are skipped although it is within the limit for files. *)
Theorem paged_search_loses_a_file st query limit caps f pre entry i relative post p f1 ino md f2 :
  query <> [] -> limit <> 0 -> grep_walk f = pre ++ Ok entry :: post ->
  we_type entry = Some (EFile i) -> relative_path root (we_path entry) = Ok relative ->
  relative ∉ walk_files pre -> relative ∉ walk_files post ->
  grep_loop root query limit None (page_files caps) (page_file_bytes caps) (page_total_bytes caps) (new_page true) pre f =
    (Ok (p, [], true), f1) ->
  open_content relative f1 = (Ok (ino, md), f2) ->
  saturating_sub (page_total_bytes caps) (p_scanned_bytes p) < md_len md <= page_file_bytes caps ->
  exists id st1, grep_with_caps root st query limit None None caps f =
      (Ok (Response_Grep (p_hits p) true (Some relative) (Some id) (p_scanned_files p + 1)), st1, f2) /\
    (forall hit, hit ∈ p_hits p -> sh_path hit <> relative) /\
    forall limit' after session_id caps' f3 hits truncated next_after id' scanned st2 f4,
      session_id = Some id \/ session_id = None /\ after = Some relative /\ grep_walk f3 = grep_walk f ->
      grep_with_caps root st1 query limit' after session_id caps' f3 =
        (Ok (Response_Grep hits truncated next_after id' scanned), st2, f4) ->
      forall hit, hit ∈ hits -> sh_path hit <> relative.
Proof.
  intros Hq Hl Hw Ht Hr Hnp Hnq Hpre Ho Hlen.
  destruct (page_stops_at st query limit caps f pre entry i relative post p f1 ino md f2) as (id & st1 & E & Hs); [done..|].
  exists id, st1. split; [exact E|]. split.
  { intros hit Hh <-. by eapply Hnp, new_page_paths. }
  intros limit' after session_id caps' f3 hits truncated next_after id' scanned st2 f4 Hsess E2 hit Hh <-.
  apply page_hits in E2 as (p2 & rest & exhausted & <- & E2); [|by intros ->; apply elem_of_nil in Hh].
  destruct Hsess as [->|(-> & -> & Hw3)]; unfold session_of in E2; cbn [mbind option_bind] in E2.
  - rewrite Hs in E2. cbn [mbind option_bind gs_query gs_walk] in E2. rewrite (proj2 (bytes_eqb_true query query)) in E2 by done. cbn [gs_walk] in E2.
    by eapply Hnq, new_page_paths.
  - rewrite Hw3, Hw in E2.
    destruct (grep_loop_skip _ _ _ _ _ _ (sh_path hit) entry i post pre eq_refl Ht Hr (new_page false) _ _ _ _ _ eq_refl E2 Hnp hit Hh) as [Hh'|Hh']; [by apply elem_of_nil in Hh' | done].
Qed.
End Props.

(** A workspace with two files. *)
Module TwoFiles.
Definition files : fs := {|
  names := {[ B"/w/a.txt" := EFile 1; B"/w/b.txt" := EFile 2 ]};
  inodes := {[ 1 := {| data := B"miss"; mtime_ms := 0 |}; 2 := {| data := B"needle"; mtime_ms := 0 |} ]};
  faults := []; clock := 0 |}.
Definition item (name : bytes) (e : dir_entry) : result agent_error walk_entry := Ok {| we_path := B"/w" ++ name; we_type := Some e |}.
Definition walk_all (f : fs) : walk := [item [] EDir; item (B"/a.txt") (EFile 1); item (B"/b.txt") (EFile 2)].
Definition resolve (f : fs) (path : bytes) : result agent_error bytes := Ok (B"/w/" ++ path).
#[global] Instance host : Platform := {|
  resolve_content := resolve; lookup_path f path := Ok (Some (B"/w/" ++ path)); inside_root _ _ := Ok ();
  other_stat _ _ := (0, 0); entry_mode _ _ := 420; grep_walk := walk_all; run_git _ _ := Err EIo |}.
Definition new_grep : GrepState := {| grep_sessions := ∅; next_grep_session := 1 |}.
Definition caps (max_total : option Z) : GrepCaps := {| gc_max_files := Some 10; gc_max_file_bytes := Some 10; gc_max_total_bytes := max_total |}.
Definition search (st : GrepState) (after session : option bytes) (max_total : option Z) :=
  grep_with_caps (B"/w") st (B"needle") 10 after session (caps max_total) files.
Definition first_page := search new_grep None None (Some 6).
Definition second_page := search (snd (fst first_page)) (Some (B"b.txt")) (Some (B"grep-1")) (Some 6).
Definition batch := read_files (fun c => c) (fun _ => []) [B"a.txt"; B"b.txt"] 10 6 files.
Definition read_a : BatchReadFile := {|
  brf_path := B"a.txt"; brf_content := B"miss"; brf_hash := B"miss"; brf_meta := {|
    fm_path := B"a.txt"; fm_size := 4; fm_mtime_ms := 0; fm_mode := 420; fm_is_dir := false; fm_is_symlink := false;
    fm_hash := Some (B"miss") |} |}.
Definition refused_b : BatchReadError := {| bre_path := B"b.txt"; bre_message := [] |}.
Definition found : SearchHit := {| sh_path := B"b.txt"; sh_line := 1; sh_column := 1; sh_text := B"needle" |}.
End TwoFiles.

Lemma read_files_within_limits_witness :
  TwoFiles.batch = (Ok (Response_ReadFiles [TwoFiles.read_a] [TwoFiles.refused_b] true), TwoFiles.files) /\
  like TwoFiles.files TwoFiles.files /\ answers [B"a.txt"; B"b.txt"] [TwoFiles.read_a] [TwoFiles.refused_b] true /\
  Forall (good_file (fun c => c) TwoFiles.files (Z.min 10 AGENT_READ_RESPONSE_MAX_BYTES)) [TwoFiles.read_a] /\
  total_bytes [TwoFiles.read_a] <= Z.min 6 AGENT_BATCH_TOTAL_MAX_BYTES < MAX_FRAME_LEN.
Proof.
  split; [reflexivity|].
  exact (read_files_within_limits (fun c => c) (fun _ => []) TwoFiles.files
    [B"a.txt"; B"b.txt"] 10 6 [TwoFiles.read_a] [TwoFiles.refused_b] true TwoFiles.files ltac:(unfold u64_max; lia) eq_refl).
Defined.

Lemma search_hits_are_real_witness :
  like TwoFiles.files TwoFiles.files /\ Forall (real_hit TwoFiles.files (B"needle")) [TwoFiles.found] /\
  zlen [TwoFiles.found] <= 10 /\ text_bytes [TwoFiles.found] <= AGENT_GREP_HARD_MAX_HIT_TEXT_BYTES /\
  0 <= 2 <= AGENT_GREP_HARD_MAX_FILES /\
  ((size (grep_sessions TwoFiles.new_grep) <= MAX_GREP_SESSIONS)%nat ->
   (size (grep_sessions (snd (fst (TwoFiles.search TwoFiles.new_grep None None None)))) <= MAX_GREP_SESSIONS)%nat).
Proof.
  exact (search_hits_are_real (B"/w") TwoFiles.new_grep (B"needle") 10
    None None (TwoFiles.caps None) TwoFiles.files [TwoFiles.found] false None None 2
    (snd (fst (TwoFiles.search TwoFiles.new_grep None None None))) TwoFiles.files ltac:(lia) eq_refl).
Defined.

(** The page of six bytes ends at [b.txt], whose six bytes the search without that limit finds. *)
Lemma paged_search_loses_a_file_witness :
  fst (fst TwoFiles.first_page) = Ok (Response_Grep [] true (Some (B"b.txt")) (Some (B"grep-1")) 2) /\
  fst (fst TwoFiles.second_page) = Ok (Response_Grep [] false None None 0) /\
  fst (fst (TwoFiles.search TwoFiles.new_grep None None None)) = Ok (Response_Grep [TwoFiles.found] false None None 2) /\
  exists id st1, TwoFiles.first_page = (Ok (Response_Grep [] true (Some (B"b.txt")) (Some id) 2), st1, TwoFiles.files) /\
    forall limit' caps' hits truncated next_after id' scanned st2 f4,
      grep_with_caps (B"/w") st1 (B"needle") limit' None (Some id) caps' TwoFiles.files =
        (Ok (Response_Grep hits truncated next_after id' scanned), st2, f4) ->
      forall hit, hit ∈ hits -> sh_path hit <> B"b.txt".
Proof.
  split; [reflexivity|]. split; [reflexivity|]. split; [reflexivity|].
  destruct (paged_search_loses_a_file (B"/w") TwoFiles.new_grep (B"needle") 10 (TwoFiles.caps (Some 6)) TwoFiles.files
    [TwoFiles.item [] EDir; TwoFiles.item (B"/a.txt") (EFile 1)] {| we_path := B"/w/b.txt"; we_type := Some (EFile 2) |} 2 (B"b.txt") []
    {| p_hits := []; p_next_after := Some (B"a.txt"); p_scanned_files := 1; p_scanned_bytes := 4; p_hit_text_bytes := 0;
       p_after_seen := true; p_hit_limit := false; p_byte_limit := false |}
    TwoFiles.files 2 {| md_entry := EFile 2; md_len := 6; md_mtime_ms := 0; md_mode := 420 |} TwoFiles.files) as (id & st1 & E & _ & H);
    [done|done|reflexivity|reflexivity|reflexivity| | |reflexivity|reflexivity|vm_compute; done|].
  - refine (bool_decide_eq_true_1 _ _). vm_compute. reflexivity.
  - refine (bool_decide_eq_true_1 _ _). vm_compute. reflexivity.
  - exists id, st1. split; [exact E|]. intros limit' caps' hits truncated next_after id' scanned st2 f4 E2.
    exact (H limit' None (Some id) caps' TwoFiles.files hits truncated next_after id' scanned st2 f4 (or_introl eq_refl) E2).
Defined.
