(* ===== verification/AgentSession.v ===== *)
(** * A connection between the sidecar and an agent

    The agent's loop over its standard input and output (nrm-agent/src/main.rs, [serve]) and
    the sidecar's session that sends requests to it (nrm-sidecar/src/main.rs,
    [FramedAgentSession] and the worker thread of [spawn_worker]). *)
From S2P Require Import Prelude Protocol.

(** ** The agent's side *)

Section Serve.
Context `{Codec RpcMessage} {St : Type}.
(** [handle_request] and how its error is shown. *)
Context (handle : Request -> St -> result bytes Response * St).

Definition is_shutdown (q : Request) : bool := match q with Request_Shutdown => true | _ => false end.
Definition not_active_yet : RpcError := {|
  rpc_code := RpcErrorCode_Cancelled; rpc_message := B"request cancellation is not active yet"; rpc_retryable := true |}.
Definition reply_to (id : Z) (r : result bytes Response) : RpcMessage :=
  match r with
  | Ok response => RpcMessage_Response id response
  | Err error => RpcMessage_Error id (rpc_error_agent error)
  end.

(** The loop ends at a frame it cannot read, at a frame that is no request, after a shutdown, and with
    an error when an answer cannot be written. *)
Fixpoint serve (fuel : nat) (r : reader) (w : writer) (s : St) : result (FrameError RpcMessage) unit * reader * writer * St :=
  match fuel with
  | O => (Ok (), r, w, s)
  | S fuel =>
      match read_frame r with
      | (Err _, r) => (Ok (), r, w, s)
      | (Ok message, r) =>
          match message with
          | RpcMessage_Request id request =>
              let '(answer, s) := handle request s in
              match write_frame w (reply_to id answer) with
              | (Err e, w) => (Err e, r, w, s)
              | (Ok _, w) => if is_shutdown request then (Ok (), r, w, s) else serve fuel r w s
              end
          | RpcMessage_Cancel id =>
              match write_frame w (RpcMessage_Error id not_active_yet) with
              | (Err e, w) => (Err e, r, w, s)
              | (Ok _, w) => serve fuel r w s
              end
          | _ => (Ok (), r, w, s)
          end
      end
  end.
End Serve.

(** ** The sidecar's side *)

Inductive RemoteAgentLaunchFailure := Missing | NotExecutable | RootMissing.
#[export] Instance launch_failure_eq_dec : EqDecision RemoteAgentLaunchFailure.
Proof. solve_decision. Defined.
Definition launch_failure_detail (f : RemoteAgentLaunchFailure) : bytes :=
  match f with
  | Missing => B"remote agent launcher reported a missing executable"
  | NotExecutable => B"remote agent launcher reported a non-executable or invalid executable"
  | RootMissing => B"remote agent launcher reported a missing remote root"
  end.

Inductive AgentWorkerReply :=
| Reply_Response (response : Response)
| Reply_Error (error : RpcError)
| Reply_LaunchError (failure : RemoteAgentLaunchFailure)
| Reply_TransportError (message : bytes).

Definition AGENT_LAUNCH_PRELUDE_MAX_BYTES : nat := 128.
Definition tab : bytes := [x09].
Definition newline : bytes := [x0a].
Definition AGENT_LAUNCH_READY_RECORD : bytes := B"NRM_AGENT_LAUNCH_V1" ++ tab ++ B"READY" ++ newline.
Definition AGENT_LAUNCH_FAILURE_PREFIX : bytes := B"NRM_AGENT_LAUNCH_V1" ++ tab ++ B"FAILURE" ++ tab.

(** [reader.take(limit).read_until(b'\n', ..)]: the record, with its newline if one was found. *)
Definition read_record (limit : nat) (r : reader) : result io_error bytes * reader :=
  let '(record, _) := split_line (take limit (rd_data r)) in
  let rest := {| rd_data := drop (length record) (rd_data r); rd_end := rd_end r |} in
  if ends_with newline record || (limit <=? length record)%nat then (Ok record, rest)
  else (match rd_end r with Some e => Err e | None => Ok record end, rest).

Definition parse_launch_record (record : bytes) : result bytes (option RemoteAgentLaunchFailure) :=
  if bytes_eqb record [] then Err (B"SSH agent launch prelude was missing")
  else if (AGENT_LAUNCH_PRELUDE_MAX_BYTES <? length record)%nat then
    Err (B"SSH agent launch prelude exceeded its 128-byte limit")
  else if negb (ends_with newline record) then Err (B"SSH agent launch prelude was not newline terminated")
  else if bytes_eqb record AGENT_LAUNCH_READY_RECORD then Ok None
  else match strip_prefix AGENT_LAUNCH_FAILURE_PREFIX record with
       | None => Err (B"SSH agent launch prelude was malformed")
       | Some kind =>
           if bytes_eqb kind (B"missing" ++ newline) then Ok (Some Missing)
           else if bytes_eqb kind (B"not_executable" ++ newline) then Ok (Some NotExecutable)
           else if bytes_eqb kind (B"root_missing" ++ newline) then Ok (Some RootMissing)
           else Err (B"SSH agent launch prelude contained an unknown failure kind")
       end.
Definition read_agent_launch_prelude (r : reader) : result bytes (option RemoteAgentLaunchFailure) * reader :=
  let '(record, r) := read_record (AGENT_LAUNCH_PRELUDE_MAX_BYTES + 1) r in
  match record with
  | Err _ => (Err (B"failed to read SSH agent launch prelude"), r)
  | Ok record => (parse_launch_record record, r)
  end.

Record FramedAgentSession := { fas_writer : writer; fas_reader : reader; launch_prelude_pending : bool }.

Section Session.
Context `{Codec RpcMessage}.
(** [{other:?}] of a frame. *)
Context (debug_message : RpcMessage -> bytes).

Definition id_mismatch (id response_id : Z) : bytes :=
  B"agent response id mismatch: expected " ++ to_decimal id ++ B", got " ++ to_decimal response_id.
Definition send_agent_frame (w : writer) (r : reader) (id : Z) (request : Request) :
    result bytes AgentWorkerReply * writer * reader :=
  match write_frame w (RpcMessage_Request id request) with
  | (Err _, w) => (Err (B"failed to write agent request"), w, r)
  | (Ok _, w) =>
      match read_frame r with
      | (Err _, r) => (Err (B"failed to read agent response"), w, r)
      | (Ok message, r) =>
          let answer :=
            match message with
            | RpcMessage_Response response_id response =>
                if response_id =? id then Ok (Reply_Response response) else Err (id_mismatch id response_id)
            | RpcMessage_Error response_id error =>
                if response_id =? id then Ok (Reply_Error error) else Err (id_mismatch id response_id)
            | other => Err (B"unexpected agent frame for request " ++ to_decimal id ++ B": " ++ debug_message other)
            end in
          (answer, w, r)
      end
  end.

(** [AgentSession::request] *)
Definition session_request (s : FramedAgentSession) (id : Z) (request : Request) :
    result bytes AgentWorkerReply * FramedAgentSession :=
  let send (r : reader) :=
    let '(answer, w, r) := send_agent_frame (fas_writer s) r id request in
    (answer, {| fas_writer := w; fas_reader := r; launch_prelude_pending := false |}) in
  if launch_prelude_pending s then
    let '(prelude, r) := read_agent_launch_prelude (fas_reader s) in
    let stopped := {| fas_writer := fas_writer s; fas_reader := r; launch_prelude_pending := false |} in
    match prelude with
    | Err e => (Err e, stopped)
    | Ok (Some failure) => (Ok (Reply_LaunchError failure), stopped)
    | Ok None => send r
    end
  else send (fas_reader s).

Definition is_terminal (reply : AgentWorkerReply) : bool :=
  match reply with Reply_LaunchError _ | Reply_TransportError _ => true | _ => false end.
(** The worker thread: the replies to the commands it takes; [diagnose] adds what the process left. *)
Context (diagnose : bytes -> bytes).
Fixpoint worker_loop (s : FramedAgentSession) (commands : list (Z * Request)) : list AgentWorkerReply * FramedAgentSession :=
  match commands with
  | [] => ([], s)
  | (id, request) :: commands =>
      let '(r, s) := session_request s id request in
      let response := match r with Ok reply => reply | Err error => Reply_TransportError (diagnose error) end in
      if is_terminal response then ([response], s)
      else let '(replies, s) := worker_loop s commands in (response :: replies, s)
  end.
End Session.

(** ** The two sides together *)

Section Conversation.
Context `{CodecLaws RpcMessage} {St : Type} (handle : Request -> St -> result bytes Response * St).
Context (debug_message : RpcMessage -> bytes) (diagnose : bytes -> bytes).

(** The answers of the handler when the requests are given to it directly. *)
Fixpoint direct (commands : list (Z * Request)) (s : St) : list (Z * result bytes Response) * St :=
  match commands with
  | [] => ([], s)
  | (id, request) :: commands =>
      let '(answer, s) := handle request s in
      let '(answers, s) := direct commands s in ((id, answer) :: answers, s)
  end.
Definition request_of (c : Z * Request) : RpcMessage := RpcMessage_Request (fst c) (snd c).
Definition message_of (a : Z * result bytes Response) : RpcMessage := reply_to (fst a) (snd a).
Definition reply_of (a : Z * result bytes Response) : AgentWorkerReply :=
  match snd a with Ok response => Reply_Response response | Err error => Reply_Error (rpc_error_agent error) end.

(** [bss] are the encodings of [vs], each small enough for a frame. *)
Definition encoded (vs : list RpcMessage) (bss : list bytes) : Prop :=
  Forall2 (fun v bs => to_allocvec v = Ok bs /\ zlen bs <= MAX_FRAME_LEN) vs bss.
Definition stream (bss : list bytes) : bytes := mjoin (frame_bytes <$> bss).
Lemma stream_cons bs bss : stream (bs :: bss) = frame_bytes bs ++ stream bss.
Proof. done. Qed.
(** A pipe that takes everything. *)
Definition pipe (out : bytes) : writer := {| wr_out := out; wr_room := None; wr_flush := true |}.
(** A shutdown comes last. *)
Definition shutdown_last (commands : list (Z * Request)) : Prop :=
  Forall (fun c => is_shutdown (snd c) = false) (removelast commands).

Lemma write_pipe out v bs : to_allocvec v = Ok bs -> zlen bs <= MAX_FRAME_LEN ->
  write_frame (pipe out) v = (Ok (), pipe (out ++ frame_bytes bs)).
Proof.
  intros E Hb. unfold write_frame. rewrite E. destruct (zlen bs >? MAX_FRAME_LEN) eqn:Eg; [lia|].
  unfold write_all, pipe, flush, frame_bytes. cbn [wr_room wr_out wr_flush map_err]. by rewrite app_assoc.
Qed.
Lemma read_stream v bs rest e : to_allocvec v = Ok bs -> zlen bs <= MAX_FRAME_LEN ->
  read_frame {| rd_data := frame_bytes bs ++ rest; rd_end := e |} = (Ok v, {| rd_data := rest; rd_end := e |}).
Proof. intros E Hb. rewrite read_frame_app by done. by rewrite (from_to_bytes v bs E). Qed.

Lemma serve_run commands : forall fuel s out reqs reps, (length commands < fuel)%nat ->
  encoded (request_of <$> commands) reqs -> encoded (message_of <$> (direct commands s).1) reps -> shutdown_last commands ->
  exists r, serve handle fuel {| rd_data := stream reqs; rd_end := None |} (pipe out) s =
    (Ok (), r, pipe (out ++ stream reps), (direct commands s).2).
Proof.
  induction commands as [|[id q] commands IH]; intros [|fuel] s out reqs reps Hf Hreq Hrep Hlast; cbn in Hf; try lia.
  - apply Forall2_nil_inv_l in Hreq as ->. cbn in Hrep. apply Forall2_nil_inv_l in Hrep as ->. rewrite app_nil_r. by eexists.
  - cbn [direct fmap list_fmap fst snd] in *. destruct (handle q s) as [a s1] eqn:Eh.
    destruct (direct commands s1) as [answers s2] eqn:Ed. cbn [fst snd fmap list_fmap] in Hrep |- *.
    apply Forall2_cons_inv_l in Hreq as (b & bs & [Eb Hb] & Hreq & ->). apply Forall2_cons_inv_l in Hrep as (c & cs & [Ec Hc] & Hrep & ->).
    cbn [serve]. rewrite (stream_cons b), (read_stream (request_of (id, q)) b) by done.
    cbn [request_of fst snd]. rewrite Eh, (write_pipe out (reply_to id a) c) by done.
    assert (Hout : pipe ((out ++ frame_bytes c) ++ stream cs) = pipe (out ++ stream (c :: cs))) by (by rewrite stream_cons, <- app_assoc).
    destruct commands as [|x commands].
    + cbn in Ed. injection Ed as <- <-. apply Forall2_nil_inv_l in Hrep as ->. apply Forall2_nil_inv_l in Hreq as ->.
      rewrite <- Hout. destruct (is_shutdown q); [rewrite app_nil_r; by eexists|]. destruct fuel; [cbn in Hf; lia|].
      rewrite app_nil_r. by eexists.
    + apply Forall_cons in Hlast as [Hq Hlast]. cbn [snd] in Hq. rewrite Hq.
      destruct (IH fuel s1 (out ++ frame_bytes c) bs cs) as [r Er]; [cbn in *; lia|done|by rewrite Ed|done|].
      rewrite Er, Ed, Hout. by eexists.
Qed.

Lemma session_ready w r id q : session_request debug_message
    {| fas_writer := w; fas_reader := {| rd_data := AGENT_LAUNCH_READY_RECORD ++ rd_data r; rd_end := rd_end r |}; launch_prelude_pending := true |} id q =
  session_request debug_message {| fas_writer := w; fas_reader := r; launch_prelude_pending := false |} id q.
Proof. by destruct r as [d e]. Qed.

Lemma worker_run commands : forall s out reqs reps e,
  encoded (request_of <$> commands) reqs -> encoded (message_of <$> (direct commands s).1) reps ->
  exists s', worker_loop debug_message diagnose
      {| fas_writer := pipe out; fas_reader := {| rd_data := stream reps; rd_end := e |}; launch_prelude_pending := false |} commands =
    (reply_of <$> (direct commands s).1, s') /\ fas_writer s' = pipe (out ++ stream reqs).
Proof.
  induction commands as [|[id q] commands IH]; intros s out reqs reps e Hreq Hrep.
  - apply Forall2_nil_inv_l in Hreq as ->. rewrite app_nil_r. by eexists.
  - cbn [direct fmap list_fmap] in *. destruct (handle q s) as [a s1] eqn:Eh.
    destruct (direct commands s1) as [answers s2] eqn:Ed. cbn [fst snd fmap list_fmap] in Hrep |- *.
    apply Forall2_cons_inv_l in Hreq as (b & bs & [Eb Hb] & Hreq & ->). apply Forall2_cons_inv_l in Hrep as (c & cs & [Ec Hc] & Hrep & ->).
    cbn [worker_loop]. unfold session_request, send_agent_frame. cbn [launch_prelude_pending fas_writer fas_reader].
    rewrite (write_pipe out (RpcMessage_Request id q) b) by done.
    rewrite (stream_cons c), (read_stream (message_of (id, a)) c) by done.
    destruct (IH s1 (out ++ frame_bytes b) bs cs e) as (s' & E & Hw); [done|by rewrite Ed|].
    unfold message_of, reply_of, reply_to. cbn [fst snd].
    destruct a as [response|error]; rewrite Z.eqb_refl; cbn [is_terminal]; rewrite E, Ed; exists s';
      (split; [done|]); by rewrite Hw, stream_cons, app_assoc.
Qed.

(** C33 (refinement) Requests that go through a working connection, the sidecar's worker with its launch
    record on one side and the agent's loop on the other, are answered as the agent's handler
    answers them directly: each reply is the answer to its request, in order, errors included, the
    agent reads exactly what the worker wrote, and its state is that of the direct calls. *)
Theorem connection_answers_like_handler commands s reqs reps e :
  encoded (request_of <$> commands) reqs -> encoded (message_of <$> (direct commands s).1) reps -> shutdown_last commands ->
  exists r out s', serve handle (S (length commands)) {| rd_data := stream reqs; rd_end := None |} (pipe []) s =
      (Ok (), r, pipe out, (direct commands s).2) /\
    worker_loop debug_message diagnose
      {| fas_writer := pipe []; fas_reader := {| rd_data := AGENT_LAUNCH_READY_RECORD ++ out; rd_end := e |};
         launch_prelude_pending := true |} commands = (reply_of <$> (direct commands s).1, s') /\
    fas_writer s' = pipe (stream reqs).
Proof.
  intros Hreq Hrep Hlast. destruct (serve_run commands (S (length commands)) s [] reqs reps) as [r Er]; [lia|done..|].
  exists r, (stream reps). rewrite Er. destruct (worker_run commands s [] reqs reps e Hreq Hrep) as (s' & E & Hw).
  destruct commands as [|[id q] commands].
  - eexists. split; [done|]. split; [done|]. by apply Forall2_nil_inv_l in Hreq as ->.
  - exists s'. split; [done|]. split; [|done]. rewrite <- E. cbn [worker_loop].
    by rewrite (session_ready (pipe []) {| rd_data := stream reps; rd_end := e |}).
Qed.
End Conversation.

(** A connection over which a failing request and a shutdown go, with a codec for these messages. *)
Module TwoRequests.
#[global] Instance codec : Codec RpcMessage := {|
  codec_error := unit;
  to_allocvec v :=
    match v with
    | RpcMessage_Request 1 (Request_Stat p) => Ok (x00 :: p)
    | RpcMessage_Request 2 Request_Shutdown => Ok [x01]
    | RpcMessage_Response 2 Response_Ack => Ok [x02]
    | RpcMessage_Error 1 {| rpc_code := RpcErrorCode_Agent; rpc_message := m; rpc_retryable := false |} => Ok (x03 :: m)
    | _ => Err ()
    end;
  from_bytes bs :=
    match bs with
    | x00 :: p => Ok (RpcMessage_Request 1 (Request_Stat p))
    | x01 :: _ => Ok (RpcMessage_Request 2 Request_Shutdown)
    | x02 :: _ => Ok (RpcMessage_Response 2 Response_Ack)
    | x03 :: m => Ok (RpcMessage_Error 1 (rpc_error_agent m))
    | _ => Err ()
    end |}.
#[global] Instance codec_laws : CodecLaws RpcMessage.
Proof. intros v bs. destruct v; cbn; repeat case_match; intros [= <-]; done. Qed.
(** Counts the requests; finds no file. *)
Definition handle (q : Request) (n : nat) : result bytes Response * nat :=
  (match q with Request_Shutdown => Ok Response_Ack | _ => Err (B"no file") end, S n).
Definition commands : list (Z * Request) := [(1, Request_Stat (B"a")); (2, Request_Shutdown)].
Definition reqs : list bytes := [x00 :: B"a"; [x01]].
Definition reps : list bytes := [x03 :: B"no file"; [x02]].
End TwoRequests.

Lemma connection_answers_like_handler_witness :
  exists r out s', serve TwoRequests.handle 3 {| rd_data := stream TwoRequests.reqs; rd_end := None |} (pipe []) 0%nat = (Ok (), r, pipe out, 2%nat) /\
    worker_loop (fun _ => []) (fun e => e)
      {| fas_writer := pipe []; fas_reader := {| rd_data := AGENT_LAUNCH_READY_RECORD ++ out; rd_end := None |};
         launch_prelude_pending := true |} TwoRequests.commands =
      ([Reply_Error (rpc_error_agent (B"no file")); Reply_Response Response_Ack], s') /\
    fas_writer s' = pipe (stream TwoRequests.reqs).
Proof.
  exact (connection_answers_like_handler TwoRequests.handle (fun _ => []) (fun e => e) TwoRequests.commands 0%nat
    TwoRequests.reqs TwoRequests.reps None
    ltac:(repeat constructor; by apply Z.leb_le) ltac:(repeat constructor; by apply Z.leb_le) ltac:(repeat constructor)).
Defined.
