(* ===== verification/AgentClient.v ===== *)
(** * The sidecar's agent client (nrm-sidecar/src/main.rs, [AgentClient])

    One client per lane: it launches a worker for an agent process, checks that the agent is
    compatible before anything else, sends requests with deadlines and preemption, and after a
    failure refuses requests for a while that grows with every failure.

    Both lanes, other threads and time go on between any two steps: whenever the client looks at
    a clock, a lock or a shared flag, the next [tick] says what happened since it last looked.
    What a launch, a send or a wait for a reply gives is listed in the state as well.  Times are in
    nanoseconds.  A section under the lock of the backoff happens at one time. *)
From S2P Require Import Prelude Protocol AgentSession.

Definition NANOS_PER_MS : Z := 1000000.
Definition REMOTE_UNAVAILABLE_BACKOFF_BASE_MS : Z := 2000.
Definition REMOTE_UNAVAILABLE_BACKOFF_MAX_MS : Z := 60000.

Inductive AgentCompatibilityFailure := VersionMismatch (agent_version : bytes) | ProtocolMismatch (protocol_version : Z).
Inductive TrustedAgentFailure :=
| Trusted_Launch (failure : RemoteAgentLaunchFailure)
| Trusted_Compatibility (failure : AgentCompatibilityFailure).
#[export] Instance compatibility_failure_eq_dec : EqDecision AgentCompatibilityFailure.
Proof. solve_decision. Defined.
#[export] Instance trusted_failure_eq_dec : EqDecision TrustedAgentFailure.
Proof. solve_decision. Defined.
#[export] Instance capability_set_eq_dec : EqDecision CapabilitySet.
Proof. solve_decision. Defined.
Record NegotiatedAgentHello := { nh_agent_version : bytes; nh_protocol_version : Z; nh_capabilities : CapabilitySet }.
#[export] Instance negotiated_hello_eq_dec : EqDecision NegotiatedAgentHello.
Proof. solve_decision. Defined.

(** [char::is_control] of UTF-8 text becomes a space. *)
Fixpoint sanitize_agent_error_text (s : bytes) : bytes :=
  match s with
  | [] => []
  | b :: rest =>
      if is_ascii_control b then " "%byte :: sanitize_agent_error_text rest
      else match rest with
           | c :: rest' =>
               if byte_eqb b xc2 && in_range 128 159 c then " "%byte :: sanitize_agent_error_text rest'
               else b :: sanitize_agent_error_text rest
           | [] => [b]
           end
  end.

(** ** Backoff *)

Inductive AgentBackoffLane := BackoffRead | BackoffWrite.
Record RemoteBackoffSlot := {
  unavailable_until : option Z; last_remote_error : option bytes; trusted_failure : option TrustedAgentFailure;
  last_remote_error_at : option Z; consecutive_failures : Z }.
Definition empty_slot : RemoteBackoffSlot := {|
  unavailable_until := None; last_remote_error := None; trusted_failure := None; last_remote_error_at := None;
  consecutive_failures := 0 |}.
Record RemoteBackoffState := { bk_read : RemoteBackoffSlot; bk_write : RemoteBackoffSlot }.
Definition no_backoff : RemoteBackoffState := {| bk_read := empty_slot; bk_write := empty_slot |}.

Definition slot (b : RemoteBackoffState) (lane : AgentBackoffLane) : RemoteBackoffSlot :=
  match lane with BackoffRead => bk_read b | BackoffWrite => bk_write b end.
Definition set_slot (lane : AgentBackoffLane) (s : RemoteBackoffSlot) (b : RemoteBackoffState) : RemoteBackoffState :=
  match lane with
  | BackoffRead => {| bk_read := s; bk_write := bk_write b |}
  | BackoffWrite => {| bk_read := bk_read b; bk_write := s |}
  end.
Definition other_lane (lane : AgentBackoffLane) : AgentBackoffLane :=
  match lane with BackoffRead => BackoffWrite | BackoffWrite => BackoffRead end.

(** [1u64.checked_shl(exponent)] of an exponent below 64. *)
Definition remote_unavailable_backoff_ms (consecutive_failures : Z) : Z :=
  if consecutive_failures =? 0 then 0
  else
    let exponent := Z.min (saturating_sub consecutive_failures 1) 20 in
    let multiplier := Z.shiftl 1 exponent in
    Z.min (Z.min (REMOTE_UNAVAILABLE_BACKOFF_BASE_MS * multiplier) u64_max) REMOTE_UNAVAILABLE_BACKOFF_MAX_MS.

Definition lane_backoff (now : Z) (b : RemoteBackoffState) (lane : AgentBackoffLane) :
    option (Z * bytes * option TrustedAgentFailure) :=
  let s := slot b lane in
  until ← unavailable_until s;
  if now >=? until then None
  else Some (Z.min ((until - now) / NANOS_PER_MS) u64_max,
             default (B"last remote attempt failed") (last_remote_error s), trusted_failure s).
(** [u32::saturating_add] *)
Definition mark_unavailable (now : Z) (lane : AgentBackoffLane) (error : bytes) (failure : option TrustedAgentFailure)
    (b : RemoteBackoffState) : RemoteBackoffState :=
  let failures := Z.max (Z.min (consecutive_failures (slot b lane) + 1) u32_max) 1 in
  set_slot lane {|
    unavailable_until := Some (now + remote_unavailable_backoff_ms failures * NANOS_PER_MS);
    last_remote_error := Some error; trusted_failure := failure; last_remote_error_at := Some now;
    consecutive_failures := failures |} b.
Definition clear_lane (lane : AgentBackoffLane) (b : RemoteBackoffState) : RemoteBackoffState := set_slot lane empty_slot b.
Definition clear_all (b : RemoteBackoffState) : RemoteBackoffState := clear_lane BackoffWrite (clear_lane BackoffRead b).
(** [slot.unavailable_until = None] *)
Definition clear_until (lane : AgentBackoffLane) (b : RemoteBackoffState) : RemoteBackoffState :=
  let s := slot b lane in
  set_slot lane {|
    unavailable_until := None; last_remote_error := last_remote_error s; trusted_failure := trusted_failure s;
    last_remote_error_at := last_remote_error_at s; consecutive_failures := consecutive_failures s |} b.
(** The later of the lanes' errors, the write lane's of two at the same time. *)
Definition health_error (now : Z) (b : RemoteBackoffState) : option (option Z * bytes * option TrustedAgentFailure) :=
  let pick selected (s : RemoteBackoffSlot) :=
    match last_remote_error s with
    | None => selected
    | Some error =>
        let error_at := default now (last_remote_error_at s) in
        let replace := match selected with Some (selected_at, _) => error_at >=? selected_at | None => true end in
        if replace then Some (error_at, (unavailable_until s, error, trusted_failure s)) else selected
    end in
  snd <$> pick (pick None (bk_read b)) (bk_write b).

(** ** Health *)

Inductive RemoteHealthState := Unchecked | Connected | Unavailable.
#[export] Instance health_state_eq_dec : EqDecision RemoteHealthState.
Proof. solve_decision. Defined.
Record RemoteHealth := {
  rh_state : RemoteHealthState; rh_revision : Z; rh_negotiated_hello : option NegotiatedAgentHello;
  rh_unavailable_until : option Z; rh_error : option bytes; rh_trusted_failure : option TrustedAgentFailure }.
Definition default_health : RemoteHealth := {|
  rh_state := Unchecked; rh_revision := 0; rh_negotiated_hello := None; rh_unavailable_until := None; rh_error := None;
  rh_trusted_failure := None |}.
Definition health_connected (hello : NegotiatedAgentHello) : RemoteHealth := {|
  rh_state := Connected; rh_revision := 0; rh_negotiated_hello := Some hello; rh_unavailable_until := None; rh_error := None;
  rh_trusted_failure := None |}.
Definition health_unavailable (until : option Z) (error : bytes) (failure : option TrustedAgentFailure) : RemoteHealth := {|
  rh_state := Unavailable; rh_revision := 0; rh_negotiated_hello := None; rh_unavailable_until := until;
  rh_error := Some error; rh_trusted_failure := failure |}.
Definition same_observation (a b : RemoteHealth) : bool :=
  bool_decide (rh_state a = rh_state b) && bool_decide (rh_negotiated_hello a = rh_negotiated_hello b) &&
  bool_decide (rh_error a = rh_error b) && bool_decide (rh_trusted_failure a = rh_trusted_failure b).
Definition health_observe (self observation : RemoteHealth) : RemoteHealth :=
  if bool_decide (rh_state observation = Unchecked) then self
  else {|
    rh_state := rh_state observation;
    rh_revision := if same_observation self observation then rh_revision self else saturating_add (rh_revision self) 1;
    rh_negotiated_hello := rh_negotiated_hello observation; rh_unavailable_until := rh_unavailable_until observation;
    rh_error := rh_error observation; rh_trusted_failure := rh_trusted_failure observation |}.
Definition retry_after_ms (now : Z) (h : RemoteHealth) : option Z :=
  until ← rh_unavailable_until h;
  if now >=? until then Some 0 else Some (Z.min ((until - now) / NANOS_PER_MS) u64_max).

(** ** Clients and the world around them *)

Record AgentClient := {
  worker : option Z; retired_workers : list Z; handshake_complete : bool;
  negotiated_hello : option NegotiatedAgentHello; backoff_lane : AgentBackoffLane; next_id : Z; worker_generation : Z }.

(** [new_with_registry] is the client of the read lane, [clone_for_lane] that of the write lane. *)
Definition new_client (lane : AgentBackoffLane) (generation : Z) : AgentClient := {|
  worker := None; retired_workers := []; handshake_complete := false; negotiated_hello := None; backoff_lane := lane;
  next_id := 1; worker_generation := generation |}.

(** What the client of the other lane does to the shared backoff. *)
Inductive other_action := OtherMarks (error : bytes) (failure : option TrustedAgentFailure) | OtherClears | OtherChecks.
(** How a worker's thread and the reaper of its process ended. *)
Inductive worker_end := EndedWell | WorkerPanicked | ReaperPanicked.
Record tick := {
  tk_nanos : Z; tk_other : list other_action; tk_generations : Z; tk_preemptions : Z; tk_shutdown : bool;
  (** workers whose process and threads have ended since *)
  tk_ended : list (Z * worker_end) }.
Definition quiet_tick : tick := {|
  tk_nanos := 0; tk_other := []; tk_generations := 0; tk_preemptions := 0; tk_shutdown := false; tk_ended := [] |}.
Inductive wait_outcome := WaitReply (reply : AgentWorkerReply) | WaitTimedOut (late : Z) | WaitDisconnected.
(** What went over a worker's channel. *)
Inductive traffic := Sent (worker : Z) (id : Z) (request : Request) | Answered (worker : Z) (reply : AgentWorkerReply).

(** [probes], [launches]: [Some] error when finding out about the host, or starting a process, fails. *)
Record world := {
  clock : Z; ticks : list tick; probes : list (option bytes); launches : list (option bytes); sends : list bool;
  waits : list wait_outcome; remote_backoff : RemoteBackoffState; shared_generation : Z; remote_host_info : bool;
  shutdown_requested : bool; epoch : Z; ended : list (Z * worker_end); next_worker : Z; log : list traffic }.

Inductive client_error := Message (text : bytes) | OutOfFuel.
Definition C (A : Type) : Type := AgentClient * world -> result client_error A * (AgentClient * world).
#[export] Instance C_ret : MRet C := fun A a s => (Ok a, s).
#[export] Instance C_bind : MBind C := fun A B k c s =>
  match c s with
  | (Ok a, s) => k a s
  | (Err e, s) => (Err e, s)
  end.
Definition fail {A} (text : bytes) : C A := fun s => (Err (Message text), s).
Definition try {A} (c : C A) : C (result client_error A) := fun s => let '(r, s) := c s in (Ok r, s).
Definition client : C AgentClient := fun s => (Ok (fst s), s).
Definition put (c : AgentClient) : C unit := fun s => (Ok (), (c, snd s)).
Definition the_world : C world := fun s => (Ok (snd s), s).
Definition in_world (f : world -> world) : C unit := fun s => (Ok (), (fst s, f (snd s))).

Definition with_backoff (f : RemoteBackoffState -> RemoteBackoffState) (w : world) : world := {|
  clock := clock w; ticks := ticks w; probes := probes w; launches := launches w; sends := sends w; waits := waits w;
  remote_backoff := f (remote_backoff w); shared_generation := shared_generation w; remote_host_info := remote_host_info w;
  shutdown_requested := shutdown_requested w; epoch := epoch w; ended := ended w; next_worker := next_worker w; log := log w |}.
Definition with_host (known : bool) (w : world) : world := {|
  clock := clock w; ticks := ticks w; probes := probes w; launches := launches w; sends := sends w; waits := waits w;
  remote_backoff := remote_backoff w; shared_generation := shared_generation w; remote_host_info := known;
  shutdown_requested := shutdown_requested w; epoch := epoch w; ended := ended w; next_worker := next_worker w; log := log w |}.
Definition with_generation (g : Z) (w : world) : world := {|
  clock := clock w; ticks := ticks w; probes := probes w; launches := launches w; sends := sends w; waits := waits w;
  remote_backoff := remote_backoff w; shared_generation := g; remote_host_info := remote_host_info w;
  shutdown_requested := shutdown_requested w; epoch := epoch w; ended := ended w; next_worker := next_worker w; log := log w |}.
Definition with_log (t : traffic) (w : world) : world := {|
  clock := clock w; ticks := ticks w; probes := probes w; launches := launches w; sends := sends w; waits := waits w;
  remote_backoff := remote_backoff w; shared_generation := shared_generation w; remote_host_info := remote_host_info w;
  shutdown_requested := shutdown_requested w; epoch := epoch w; ended := ended w; next_worker := next_worker w;
  log := log w ++ [t] |}.
Definition with_clock (n : Z) (w : world) : world := {|
  clock := n; ticks := ticks w; probes := probes w; launches := launches w; sends := sends w; waits := waits w;
  remote_backoff := remote_backoff w; shared_generation := shared_generation w; remote_host_info := remote_host_info w;
  shutdown_requested := shutdown_requested w; epoch := epoch w; ended := ended w; next_worker := next_worker w; log := log w |}.
Definition with_answers (p l : list (option bytes)) (s : list bool) (o : list wait_outcome) (n : Z) (w : world) : world := {|
  clock := clock w; ticks := ticks w; probes := p; launches := l; sends := s; waits := o;
  remote_backoff := remote_backoff w; shared_generation := shared_generation w; remote_host_info := remote_host_info w;
  shutdown_requested := shutdown_requested w; epoch := epoch w; ended := ended w; next_worker := n; log := log w |}.

Definition apply_other (now : Z) (lane : AgentBackoffLane) (b : RemoteBackoffState) (a : other_action) : RemoteBackoffState :=
  match a with
  | OtherMarks error failure => mark_unavailable now lane error failure b
  | OtherClears => clear_all b
  | OtherChecks => clear_until lane b
  end.
(** [lane] is the lane of the other client. *)
Definition apply_tick (lane : AgentBackoffLane) (t : tick) (w : world) : world :=
  let now := clock w + Z.max 0 (tk_nanos t) in {|
  clock := now; ticks := ticks w; probes := probes w; launches := launches w; sends := sends w; waits := waits w;
  remote_backoff := foldl (apply_other now lane) (remote_backoff w) (tk_other t);
  shared_generation := shared_generation w + Z.max 0 (tk_generations t); remote_host_info := remote_host_info w;
  shutdown_requested := shutdown_requested w || tk_shutdown t; epoch := epoch w + Z.max 0 (tk_preemptions t);
  ended := ended w ++ tk_ended t; next_worker := next_worker w; log := log w |}.
Definition with_ticks (ts : list tick) (w : world) : world := {|
  clock := clock w; ticks := ts; probes := probes w; launches := launches w; sends := sends w; waits := waits w;
  remote_backoff := remote_backoff w; shared_generation := shared_generation w; remote_host_info := remote_host_info w;
  shutdown_requested := shutdown_requested w; epoch := epoch w; ended := ended w; next_worker := next_worker w; log := log w |}.

(** Looking at the world. *)
Definition look : C world := fun '(c, w) =>
  let w' := match ticks w with
            | t :: ts => apply_tick (other_lane (backoff_lane c)) t (with_ticks ts w)
            | [] => w
            end in
  (Ok w', (c, w')).
(** [Instant::now()], [started.elapsed()] and [remaining_timeout_since]. *)
Definition instant_now : C Z := w ← look; mret (clock w).
Definition elapsed (started : Z) : C Z := n ← instant_now; mret (saturating_sub n started).
Definition remaining_timeout_since (started total : Z) : C Z := e ← elapsed started; mret (saturating_sub total e).
(** [thread::sleep] *)
Definition sleep (nanos : Z) : C unit := in_world (fun w => with_clock (clock w + nanos) w).

(** ** Workers *)

Definition with_session (complete : bool) (hello : option NegotiatedAgentHello) (c : AgentClient) : AgentClient := {|
  worker := worker c; retired_workers := retired_workers c; handshake_complete := complete; negotiated_hello := hello;
  backoff_lane := backoff_lane c; next_id := next_id c; worker_generation := worker_generation c |}.
Definition with_workers (current : option Z) (retired : list Z) (generation : Z) (c : AgentClient) : AgentClient := {|
  worker := current; retired_workers := retired; handshake_complete := handshake_complete c;
  negotiated_hello := negotiated_hello c; backoff_lane := backoff_lane c; next_id := next_id c;
  worker_generation := generation |}.

Definition retire_active_worker : C unit :=
  c ← client;
  let c := with_session false None c in
  put (match worker c with
       | None => c
       | Some n => with_workers None (retired_workers c ++ [n]) (worker_generation c) c
       end).

(** [Vec::swap_remove] *)
Definition swap_remove (i : nat) (l : list Z) : list Z :=
  match last l with
  | Some x => if (S i =? length l)%nat then removelast l else <[i := x]> (removelast l)
  | None => []
  end.
Fixpoint end_of (n : Z) (ended : list (Z * worker_end)) : option worker_end :=
  match ended with
  | [] => None
  | (m, e) :: ended => if n =? m then Some e else end_of n ended
  end.
(** The loop of [reap_finished_workers], with the error of a panic.  Each round passes a worker or
    removes it, so as many rounds as workers are enough. *)
Fixpoint reap_loop (fuel index : nat) (ended : list (Z * worker_end)) (retired : list Z) : result bytes unit * list Z :=
  match fuel with
  | O => (Ok (), retired)
  | S fuel =>
      match retired !! index with
      | None => (Ok (), retired)
      | Some n =>
          match end_of n ended with
          | None => reap_loop fuel (S index) ended retired
          | Some WorkerPanicked => (Err (B"agent worker panicked during teardown"), swap_remove index retired)
          | Some ReaperPanicked => (Err (B"agent process reaper panicked during teardown"), swap_remove index retired)
          | Some EndedWell => reap_loop fuel index ended (swap_remove index retired)
          end
      end
  end.
Definition reap_finished_workers : C unit :=
  w ← look; c ← client;
  let '(r, retired) := reap_loop (length (retired_workers c)) 0 (ended w) (retired_workers c) in
  put (with_workers (worker c) retired (worker_generation c) c);;
  match r with Ok _ => mret () | Err e => fail e end.
Definition kill_worker : C unit := retire_active_worker;; try reap_finished_workers;; mret ().

Definition exit_timeout (context : bytes) : bytes := B"timed out waiting for agent worker exit during " ++ context.
(** The loop of [kill_worker_with_timeout]. *)
Fixpoint await_workers (fuel : nat) (started timeout : Z) (context : bytes) : C unit :=
  match fuel with
  | O => fun s => (Err OutOfFuel, s)
  | S fuel =>
      reap_finished_workers;;
      c ← client;
      match retired_workers c with
      | [] => mret ()
      | _ =>
          remaining ← remaining_timeout_since started timeout;
          if remaining =? 0 then fail (exit_timeout context)
          else sleep (Z.min remaining (10 * NANOS_PER_MS));; await_workers fuel started timeout context
      end
  end.
(** The rounds of a loop that waits up to [step] nanoseconds a round. *)
Definition rounds (timeout step : Z) : nat := S (S (Z.to_nat (timeout / step))).
Definition kill_worker_with_timeout (timeout : Z) (context : bytes) : C unit :=
  retire_active_worker;;
  started ← instant_now;
  await_workers (rounds timeout (10 * NANOS_PER_MS)) started timeout context.
Definition invalidate_shared_workers_with_timeout (timeout : Z) (context : bytes) : C unit :=
  look;; in_world (fun w => with_generation (shared_generation w + 1) w);;
  kill_worker_with_timeout timeout context.

(** [invalidate_remote_host_info] *)
Definition invalidate_remote_host_info : C unit := in_world (with_host false).
(** [spawn_worker]: the host is asked unless it is known, then a process is started. *)
Definition spawn_worker : C Z :=
  w ← look;
  host ← (if remote_host_info w then mret None
          else in_world (with_answers (tail (probes w)) (launches w) (sends w) (waits w) (next_worker w));;
               mret (default None (head (probes w))));
  match host with
  | Some error => fail error
  | None =>
      in_world (with_host true);;
      w ← the_world;
      in_world (with_answers (probes w) (tail (launches w)) (sends w) (waits w) (next_worker w + 1));;
      match default None (head (launches w)) with
      | Some error => fail error
      | None => mret (next_worker w)
      end
  end.
Definition ensure_worker : C Z :=
  w ← look;
  if shutdown_requested w then fail (B"agent worker is shut down")
  else
    w ← look; let generation := shared_generation w in
    c ← client;
    (if bool_decide (is_Some (worker c)) && negb (worker_generation c =? generation) then kill_worker else mret ());;
    c ← client;
    match worker c with
    | Some n => mret n
    | None =>
        n ← spawn_worker;
        c ← client;
        put (with_workers (Some n) (retired_workers c) generation c);;
        mret n
    end.
(** [tx.send(command)]: fails once the worker's thread is gone. *)
Definition send_command (n id : Z) (request : Request) : C bool :=
  w ← the_world;
  let sent := default true (head (sends w)) in
  in_world (with_answers (probes w) (launches w) (tail (sends w)) (waits w) (next_worker w));;
  (if sent : bool then in_world (with_log (Sent n id request)) else mret ());;
  mret sent.
(** [reply_rx.recv_timeout(wait)] *)
Definition receive (n wait : Z) : C wait_outcome :=
  w ← the_world;
  let outcome := default (WaitTimedOut 0) (head (waits w)) in
  in_world (with_answers (probes w) (launches w) (sends w) (tail (waits w)) (next_worker w));;
  (match outcome with
   | WaitReply reply => in_world (with_log (Answered n reply))
   | WaitTimedOut late => sleep (wait + Z.max 0 late)
   | WaitDisconnected => mret ()
   end);;
  mret outcome.

(** ** Requests *)

Inductive AgentRequestOutcome := Outcome_Response (response : Response) | Outcome_Preempted.
Definition rpc_code_debug (c : RpcErrorCode) : bytes :=
  match c with
  | RpcErrorCode_Agent => B"Agent" | RpcErrorCode_Protocol => B"Protocol"
  | RpcErrorCode_Cancelled => B"Cancelled" | RpcErrorCode_Unsupported => B"Unsupported"
  end.
Definition format_rpc_error (e : RpcError) : bytes :=
  rpc_code_debug (rpc_code e) ++ B": " ++ rpc_message e ++ (if rpc_retryable e then B" (retryable)" else []).
Definition request_timeout_text (id timeout : Z) (phase : bytes) : bytes :=
  B"agent request " ++ to_decimal id ++ B" timed out after " ++ to_decimal (timeout / NANOS_PER_MS) ++ B" ms " ++ phase.

Section Client.
(** [CARGO_PKG_VERSION]; whether semver reads a text as a version that it writes the same; and
    [{:?}] of a response. *)
Context (package_version : bytes) (canonical_version : bytes -> bool) (debug_response : Response -> bytes).

Definition hello_request : Request := Request_Hello package_version PROTOCOL_VERSION.
Definition is_hello (q : Request) : bool := match q with Request_Hello _ _ => true | _ => false end.

Definition validate_agent_hello (agent_version : bytes) (protocol_version : Z) :
    result (bytes * option AgentCompatibilityFailure) unit :=
  if negb (protocol_version =? PROTOCOL_VERSION) then
    Err (B"protocol version mismatch: sidecar=" ++ to_decimal PROTOCOL_VERSION ++ B" agent=" ++ to_decimal protocol_version,
         Some (ProtocolMismatch protocol_version))
  else if negb (bytes_eqb agent_version package_version) then
    if canonical_version agent_version then
      Err (B"package version mismatch: sidecar=" ++ package_version ++ B" agent=" ++ agent_version,
           Some (VersionMismatch (sanitize_agent_error_text agent_version)))
    else Err (B"agent Hello reported a malformed package version", None)
  else Ok ().
(** [str::parse::<u16>] *)
Definition parse_u16 (s : bytes) : option Z := n ← parse_usize s; if n <=? u16_max then Some n else None.
Definition parse_agent_compatibility_rpc_error (error : RpcError) (request : Request) : option AgentCompatibilityFailure :=
  match request with
  | Request_Hello client_version protocol_version =>
      if negb (bytes_eqb client_version package_version) || negb (protocol_version =? PROTOCOL_VERSION) ||
         rpc_retryable error || match rpc_code error with RpcErrorCode_Agent => false | _ => true end
      then None
      else
        match strip_prefix (B"package version mismatch: client=" ++ package_version ++ B" agent=") (rpc_message error) with
        | Some agent_version =>
            if canonical_version agent_version && negb (bytes_eqb agent_version package_version)
            then Some (VersionMismatch agent_version) else None
        | None =>
            match strip_prefix (B"protocol version mismatch: client=" ++ to_decimal PROTOCOL_VERSION ++ B" agent=") (rpc_message error) with
            | Some text =>
                agent_protocol ← parse_u16 text;
                if bytes_eqb (to_decimal agent_protocol) text && negb (agent_protocol =? PROTOCOL_VERSION)
                then Some (ProtocolMismatch agent_protocol) else None
            | None => None
            end
        end
  | _ => None
  end.

Definition check_remote_backoff : C unit :=
  w ← look; c ← client;
  match lane_backoff (clock w) (remote_backoff w) (backoff_lane c) with
  | Some (remaining_ms, error, _) =>
      fail (B"remote unavailable; retry after " ++ to_decimal remaining_ms ++ B" ms: " ++ error)
  | None => look;; in_world (with_backoff (clear_until (backoff_lane c)))
  end.
Definition mark_remote_unavailable_with_trusted_failure {A} (error : bytes) (failure : option TrustedAgentFailure) : C A :=
  c ← client; put (with_session false None c);;
  let error := sanitize_agent_error_text error in
  w ← look;
  in_world (with_backoff (mark_unavailable (clock w) (backoff_lane c) error failure));;
  look;;
  fail error.
Definition mark_remote_unavailable {A} (error : bytes) : C A := mark_remote_unavailable_with_trusted_failure error None.
(** The error keeps its own text; only the recorded one is cleaned. *)
Definition mark_request_timeout {A} (id timeout : Z) (phase : bytes) : C A :=
  let error := request_timeout_text id timeout phase in
  try (mark_remote_unavailable (A := unit) error);; fail error.
Definition clear_all_remote_unavailable : C unit := look;; in_world (with_backoff clear_all).

Definition handle_worker_reply (reply : AgentWorkerReply) (request : Request) : C AgentRequestOutcome :=
  match reply with
  | Reply_Response (Response_Error message) => fail message
  | Reply_Response response => mret (Outcome_Response response)
  | Reply_Error error =>
      match parse_agent_compatibility_rpc_error error request with
      | Some failure =>
          kill_worker;;
          mark_remote_unavailable_with_trusted_failure (format_rpc_error error) (Some (Trusted_Compatibility failure))
      | None =>
          if rpc_retryable error then kill_worker;; mark_remote_unavailable (format_rpc_error error)
          else fail (format_rpc_error error)
      end
  | Reply_LaunchError failure =>
      kill_worker;; invalidate_remote_host_info;;
      mark_remote_unavailable_with_trusted_failure (launch_failure_detail failure) (Some (Trusted_Launch failure))
  | Reply_TransportError message => kill_worker;; invalidate_remote_host_info;; mark_remote_unavailable message
  end.

(** The loop of [wait_for_reply], which waits for the reply of worker [n]. *)
Fixpoint wait_loop (fuel : nat) (n id : Z) (request : Request) (preemptible : bool) (preempt_epoch started timeout : Z) :
    C AgentRequestOutcome :=
  match fuel with
  | O => fun s => (Err OutOfFuel, s)
  | S fuel =>
      preempted ← (if preemptible then w ← look; mret (negb (epoch w =? preempt_epoch)) else mret false);
      if preempted : bool then kill_worker;; mret Outcome_Preempted
      else
        e ← elapsed started;
        if e >=? timeout then
          kill_worker;; invalidate_remote_host_info;;
          mark_request_timeout id timeout (B"while waiting for its reply")
        else
          outcome ← receive n (Z.min (saturating_sub timeout e) (25 * NANOS_PER_MS));
          match outcome with
          | WaitReply reply => handle_worker_reply reply request
          | WaitTimedOut _ => wait_loop fuel n id request preemptible preempt_epoch started timeout
          | WaitDisconnected =>
              kill_worker;; invalidate_remote_host_info;;
              mark_remote_unavailable (B"agent worker exited while request " ++ to_decimal id ++ B" was pending")
          end
  end.
Definition wait_for_reply (n id : Z) (request : Request) (preemptible : bool) (preempt_epoch timeout : Z) : C AgentRequestOutcome :=
  started ← instant_now;
  wait_loop (rounds timeout (25 * NANOS_PER_MS)) n id request preemptible preempt_epoch started timeout.

(** [wrapping_add(1).max(1)] *)
Definition take_id : C Z :=
  c ← client;
  put {| worker := worker c; retired_workers := retired_workers c; handshake_complete := handshake_complete c;
         negotiated_hello := negotiated_hello c; backoff_lane := backoff_lane c;
         next_id := Z.max ((next_id c + 1) mod 2 ^ 64) 1; worker_generation := worker_generation c |};;
  mret (next_id c).
Definition error_text (e : client_error) : bytes := match e with Message text => text | OutOfFuel => [] end.
(** [for attempt in 0..2]: the worker that took the command. *)
Fixpoint send_loop (attempts : nat) (id : Z) (request : Request) (started timeout : Z) : C Z :=
  remaining ← remaining_timeout_since started timeout;
  if remaining =? 0 then
    kill_worker;; invalidate_remote_host_info;; mark_request_timeout id timeout (B"while launching its worker")
  else
    worker ← try ensure_worker;
    match worker with
    | Err error => invalidate_remote_host_info;; mark_remote_unavailable (error_text error)
    | Ok n =>
        sent ← send_command n id request;
        if sent : bool then mret n
        else
          kill_worker;; invalidate_remote_host_info;;
          match attempts with
          | S attempts => send_loop attempts id request started timeout
          | O => mark_remote_unavailable (B"agent worker exited before request " ++ to_decimal id ++ B" could be sent")
          end
    end.
Definition send_request_outcome (request : Request) (preemptible : bool) (preempt_epoch timeout : Z) : C AgentRequestOutcome :=
  w ← look;
  if shutdown_requested w then fail (B"agent request cancelled by shutdown")
  else
    id ← take_id;
    started ← instant_now;
    n ← send_loop 1 id request started timeout;
    remaining ← remaining_timeout_since started timeout;
    if remaining =? 0 then
      kill_worker;; invalidate_remote_host_info;; mark_request_timeout id timeout (B"while launching its worker")
    else wait_for_reply n id request preemptible preempt_epoch remaining.

(** ** The handshake *)

(** [record_handshake_outcome] *)
Definition record_handshake_outcome (outcome : AgentRequestOutcome) : C unit :=
  match outcome with
  | Outcome_Response (Response_Hello agent_version protocol_version capabilities) =>
      match validate_agent_hello agent_version protocol_version with
      | Ok _ =>
          c ← client;
          put (with_session true (Some {| nh_agent_version := agent_version; nh_protocol_version := protocol_version;
                                          nh_capabilities := capabilities |}) c);;
          clear_all_remote_unavailable
      | Err (message, failure) =>
          kill_worker;;
          mark_remote_unavailable_with_trusted_failure message (Trusted_Compatibility <$> failure)
      end
  | Outcome_Response other =>
      kill_worker;; mark_remote_unavailable (B"unexpected hello response from agent: " ++ debug_response other)
  | Outcome_Preempted => mret ()
  end.
(** [ensure_handshake] does the same with the answer; [true] if it was preempted. *)
Definition ensure_handshake (preemptible : bool) (preempt_epoch timeout : Z) : C bool :=
  outcome ← send_request_outcome hello_request preemptible preempt_epoch timeout;
  record_handshake_outcome outcome;;
  mret (match outcome with Outcome_Preempted => true | _ => false end).

Definition request_outcome_inner (request : Request) (preemptible : bool) (preempt_epoch timeout : Z) : C AgentRequestOutcome :=
  started ← instant_now;
  check_remote_backoff;;
  c ← client;
  preempted ← (if negb (is_hello request) && negb (handshake_complete c)
               then ensure_handshake preemptible preempt_epoch timeout else mret false);
  if preempted : bool then mret Outcome_Preempted
  else
    remaining ← remaining_timeout_since started timeout;
    if remaining =? 0 then
      id ← take_id;
      kill_worker;; invalidate_remote_host_info;;
      mark_request_timeout id timeout (B"after completing its compatibility handshake")
    else
      outcome ← send_request_outcome request preemptible preempt_epoch remaining;
      (if is_hello request then record_handshake_outcome outcome else mret ());;
      mret outcome.
Definition request_inner (request : Request) (preemptible : bool) (timeout : Z) : C Response :=
  w ← look;
  outcome ← request_outcome_inner request preemptible (epoch w) timeout;
  match outcome with
  | Outcome_Response response => mret response
  | Outcome_Preempted => fail (B"agent request preempted by interactive work")
  end.
(** [request] and [request_maybe_preemptible_since] *)
Definition request (request_timeout : Z) (q : Request) : C Response := request_inner q false request_timeout.
Definition request_maybe_preemptible_since (request_timeout : Z) (q : Request) (preempt_epoch : Z) : C AgentRequestOutcome :=
  request_outcome_inner q true preempt_epoch request_timeout.
Definition shutdown (request_timeout : Z) : C unit :=
  c ← client;
  (if bool_decide (is_Some (worker c)) then try (request request_timeout Request_Shutdown);; mret () else mret ());;
  kill_worker.

Definition remote_health : C RemoteHealth :=
  w ← look; c ← client;
  match health_error (clock w) (remote_backoff w) with
  | Some (until, error, failure) => mret (health_unavailable until error failure)
  | None => mret (from_option health_connected default_health (negotiated_hello c))
  end.
Definition probe_normal_agent_with_timeout (timeout : Z) : C unit :=
  started ← instant_now;
  kill_worker_with_timeout timeout (B"normal-path agent probe reset");;
  clear_all_remote_unavailable;;
  remaining ← remaining_timeout_since started timeout;
  if remaining =? 0 then fail (exit_timeout (B"normal-path agent probe reset"))
  else
    response ← request_inner hello_request false remaining;
    match response with
    | Response_Hello _ _ _ => mret ()
    | other => fail (B"unexpected Hello response from agent: " ++ debug_response other)
    end.
End Client.
