(* ===== verification/AgentClientProps.v ===== *)
(** * What the agent client guarantees

    Requests come back, failures back off, and an agent gets its first request only after it said
    that it is compatible, unless its worker is replaced while a request is on its way. *)
From S2P Require Import Prelude Protocol AgentSession AgentClient.

Abbreviation state := (AgentClient * world)%type.

(** ** Specifications *)

(** From a state in [P], [c] ends well in [Q] or fails in [E]. *)
Definition triple {A} (P : state -> Prop) (c : C A) (Q : A -> state -> Prop) (E : state -> Prop) : Prop :=
  forall s, P s -> match c s with (Ok a, s') => Q a s' | (Err _, s') => E s' end.
(** [c] keeps [P], whatever its outcome. *)
Definition keeps {A} (P : state -> Prop) (c : C A) : Prop := triple P c (fun _ => P) P.

Section Rules.
Context {A B : Type}.
Lemma triple_ret (P : state -> Prop) (a : A) (Q : A -> state -> Prop) E : (forall s, P s -> Q a s) -> triple P (mret a) Q E.
Proof. intros H s Hs. exact (H s Hs). Qed.
Lemma triple_fail (P : state -> Prop) text (Q : A -> state -> Prop) (E : state -> Prop) : (forall s, P s -> E s) -> triple P (fail text) Q E.
Proof. intros H s Hs. exact (H s Hs). Qed.
Lemma triple_bind (c : C A) (k : A -> C B) P Q R E :
  triple P c Q E -> (forall a, triple (Q a) (k a) R E) -> triple P (c ≫= k) R E.
Proof. intros Hc Hk s Hs. specialize (Hc s Hs). unfold mbind, C_bind. destruct (c s) as [[a|e] s']; [by apply Hk | done]. Qed.
Lemma triple_weaken (c : C A) P Q (E : state -> Prop) P' Q' (E' : state -> Prop) :
  triple P c Q E -> (forall s, P' s -> P s) -> (forall a s, Q a s -> Q' a s) -> (forall s, E s -> E' s) -> triple P' c Q' E'.
Proof. intros Hc HP HQ HE s Hs. specialize (Hc s (HP s Hs)). destruct (c s) as [[a|e] s']; auto. Qed.
Lemma triple_try (c : C A) P Q E : triple P c Q E ->
  triple P (try c) (fun r s => match r with Ok a => Q a s | Err _ => E s end) (fun _ => False).
Proof. intros Hc s Hs. specialize (Hc s Hs). unfold try. by destruct (c s) as [[a|e] s']. Qed.
Lemma triple_client (P : state -> Prop) (k : AgentClient -> C B) R E :
  (forall c, triple (fun s => P s /\ fst s = c) (k c) R E) -> triple P (client ≫= k) R E.
Proof. intros H s Hs. by apply (H (fst s) s). Qed.
Lemma triple_world (P : state -> Prop) (k : world -> C B) R E :
  (forall w, triple (fun s => P s /\ snd s = w) (k w) R E) -> triple P (the_world ≫= k) R E.
Proof. intros H s Hs. by apply (H (snd s) s). Qed.
Lemma triple_put (P : state -> Prop) c (Q : unit -> state -> Prop) E :
  (forall s, P s -> Q () (c, snd s)) -> triple P (put c) Q E.
Proof. intros H s Hs. exact (H s Hs). Qed.
Lemma triple_in_world (P : state -> Prop) f (Q : unit -> state -> Prop) E :
  (forall s, P s -> Q () (fst s, f (snd s))) -> triple P (in_world f) Q E.
Proof. intros H s Hs. exact (H s Hs). Qed.
Lemma triple_fuel (P : state -> Prop) (Q : A -> state -> Prop) (E : state -> Prop) : (forall s, P s -> E s) ->
  triple P (fun s => (Err OutOfFuel, s)) Q E.
Proof. intros H s Hs. exact (H s Hs). Qed.
Lemma triple_forget (P phi : state -> Prop) (c : C A) Q E : triple P c Q E -> triple (fun s => P s /\ phi s) c Q E.
Proof. intros H s [Hs _]. exact (H s Hs). Qed.
End Rules.

(** ** The handshake comes first *)

Section Polite.
Context (package_version : bytes) (canonical_version : bytes -> bool) (debug_response : Response -> bytes).

(** Worker [n] gave a compatible answer to a Hello. *)
Definition greeted (n : Z) (l : list traffic) : Prop :=
  exists caps, Answered n (Reply_Response (Response_Hello package_version PROTOCOL_VERSION caps)) ∈ l.
(** A request other than a Hello goes only to a worker that gave one. *)
Definition polite (l : list traffic) : Prop := forall i n id q,
  l !! i = Some (Sent n id q) -> is_hello q = false -> greeted n (take i l).

Record inv (s : state) : Prop := {
  i_generations : Forall (fun t => tk_generations t <= 0) (ticks (snd s));
  i_sends : Forall (fun sent => sent = true) (sends (snd s));
  i_current : forall n, worker (fst s) = Some n -> worker_generation (fst s) = shared_generation (snd s);
  i_session : handshake_complete (fst s) = true -> exists n, worker (fst s) = Some n /\ greeted n (log (snd s));
  i_hello : forall h, negotiated_hello (fst s) = Some h ->
    handshake_complete (fst s) = true /\ nh_agent_version h = package_version /\ nh_protocol_version h = PROTOCOL_VERSION;
  i_polite : polite (log (snd s)) }.

Lemma greeted_app n l l' : greeted n l -> greeted n (l ++ l').
Proof. intros [caps H]. exists caps. apply elem_of_app. by left. Qed.
Lemma polite_snoc l t : polite l ->
  (forall n id q, t = Sent n id q -> is_hello q = false -> greeted n l) -> polite (l ++ [t]).
Proof.
  intros Hl Ht i n id q Hi Hq. apply lookup_snoc_Some in Hi as [[Hlt Hi]|[-> ->]].
  - rewrite take_app_le by lia. by apply (Hl i n id q).
  - rewrite take_app_length. by apply (Ht n id q).
Qed.

(** Changes of the world that [inv] does not see. *)
Lemma inv_world s w' : ticks w' = ticks (snd s) -> sends w' = sends (snd s) -> shared_generation w' = shared_generation (snd s) ->
  log w' = log (snd s) -> inv s -> inv (fst s, w').
Proof. intros H1 H2 H3 H4 [? ? ? ? ? ?]. by split; cbn; rewrite ?H1, ?H2, ?H3, ?H4. Qed.

(** Looking changes neither the client nor the traffic. *)
Lemma look_run s : inv s -> exists w', look s = (Ok w', (fst s, w')) /\ inv (fst s, w') /\
  shared_generation w' = shared_generation (snd s) /\ log w' = log (snd s).
Proof.
  destruct s as [c w]. intros [H1 H2 H3 H4 H5 H6]. unfold look. cbn in *. destruct (ticks w) as [|t ts] eqn:Et.
  - exists w. split; [done|]. split; [|done]. split; cbn; rewrite ?Et; done.
  - eexists. split; [done|]. apply Forall_cons in H1 as [Ht H1]. split; [|split; [cbn; lia | done]]. split; cbn; try done.
    intros n Hn. rewrite (H3 n Hn). lia.
Qed.
(** The invariant and a fact about the client, the shared generation and the traffic. *)
Definition holding (F : AgentClient -> Z -> list traffic -> Prop) (s : state) : Prop :=
  inv s /\ F (fst s) (shared_generation (snd s)) (log (snd s)).
Abbreviation sound := (holding (fun _ _ _ => True)).

Lemma holding_inv F s : holding F s -> sound s.
Proof. intros [H _]. by split. Qed.
Lemma triple_look {B} F (k : world -> C B) R E :
  (forall w, triple (fun s => holding F s /\ snd s = w) (k w) R E) -> triple (holding F) (look ≫= k) R E.
Proof.
  intros Hk s [Hi HF]. destruct (look_run s Hi) as (w' & E1 & Hinv & Hg & Hlog). unfold mbind, C_bind. rewrite E1.
  apply Hk. split; [|done]. split; [done|]. cbn. by rewrite Hg, Hlog.
Qed.
Lemma triple_seen {B} F (k : world -> C B) R E :
  (forall w, triple (holding F) (k w) R E) -> triple (holding F) (look ≫= k) R E.
Proof. intros Hk. apply triple_look. intros w. eapply triple_weaken; [apply (Hk w)|by intros s [H _]|done|done]. Qed.
Lemma triple_now {B} F (k : Z -> C B) R E : (forall n, triple (holding F) (k n) R E) -> triple (holding F) (instant_now ≫= k) R E.
Proof.
  intros Hk. eapply triple_bind; [|exact Hk]. apply triple_seen. intros w. by apply triple_ret.
Qed.
Lemma triple_elapsed {B} F started (k : Z -> C B) R E : (forall n, triple (holding F) (k n) R E) -> triple (holding F) (elapsed started ≫= k) R E.
Proof. intros Hk. eapply triple_bind; [|exact Hk]. apply triple_now. intros n. by apply triple_ret. Qed.
Lemma triple_remaining {B} F started total (k : Z -> C B) R E :
  (forall n, triple (holding F) (k n) R E) -> triple (holding F) (remaining_timeout_since started total ≫= k) R E.
Proof. intros Hk. eapply triple_bind; [|exact Hk]. apply triple_elapsed. intros n. by apply triple_ret. Qed.

(** Changes of the world that no fact sees. *)
Lemma triple_aside F f (R : unit -> state -> Prop) E :
  (forall w, ticks (f w) = ticks w /\ sends (f w) = sends w /\ shared_generation (f w) = shared_generation w /\ log (f w) = log w) ->
  (forall s, holding F s -> R () s) -> triple (holding F) (in_world f) R E.
Proof.
  intros Hf HR. apply triple_in_world. intros s [Hi HF]. apply HR. destruct (Hf (snd s)) as (H1 & H2 & H3 & H4).
  split; [by apply inv_world | cbn; by rewrite H3, H4].
Qed.

Definition no_worker (c : AgentClient) (g : Z) (l : list traffic) : Prop := worker c = None.
Lemma retire_spec : triple sound retire_active_worker (fun _ => holding no_worker) (fun _ => False).
Proof.
  unfold retire_active_worker. apply triple_client. intros c. cbv zeta. apply triple_put. intros s [[[H1 H2 H3 H4 H5 H6] _] Hc].
  destruct (worker (with_session false None c)) eqn:Ew; (split; [|done]); split; cbn; try done. cbn in Ew. by rewrite Ew.
Qed.
Lemma reap_spec F : (forall c g l r, F c g l -> F (with_workers (worker c) r (worker_generation c) c) g l) ->
  keeps (holding F) reap_finished_workers.
Proof.
  intros HF. unfold reap_finished_workers. apply triple_seen. intros w. apply triple_client. intros c.
  destruct (reap_loop _ _ _ _) as [r retired]. eapply (triple_bind _ _ _ (fun _ => holding F)).
  - apply triple_put. intros s [[[H1 H2 H3 H4 H5 H6] HFs] Hc]. rewrite Hc in *. split; [by split | by apply HF].
  - intros []. destruct r; [by apply triple_ret | by apply triple_fail].
Qed.
Lemma kill_spec : triple sound kill_worker (fun _ => holding no_worker) (fun _ => False).
Proof.
  unfold kill_worker. eapply triple_bind; [apply retire_spec|]. intros [].
  eapply triple_bind; [eapply triple_try, reap_spec; by intros c g l r|]. intros [?|?]; by apply triple_ret.
Qed.
Lemma kill_then {B} F (c : C B) R E : triple sound c R E -> triple (holding F) (kill_worker;; c) R E.
Proof.
  intros Hc. eapply triple_bind; [eapply triple_weaken; [apply kill_spec|apply holding_inv|done|done]|].
  intros []. eapply triple_weaken; [exact Hc|apply holding_inv|done|done].
Qed.
Lemma forget_host {B} F (c : C B) R E : triple (holding F) c R E -> triple (holding F) (invalidate_remote_host_info;; c) R E.
Proof. intros Hc. eapply triple_bind; [by apply (triple_aside F _ (fun _ => holding F)) | by intros []]. Qed.

Lemma mark_spec {A} F error failure (Q : A -> state -> Prop) :
  triple (holding F) (mark_remote_unavailable_with_trusted_failure error failure) Q sound.
Proof.
  unfold mark_remote_unavailable_with_trusted_failure. apply triple_client. intros c.
  eapply (triple_bind _ _ _ (fun _ => sound)).
  - apply triple_put. intros s [[[H1 H2 H3 H4 H5 H6] _] Hc]. rewrite Hc in *. by split.
  - intros []. cbv zeta. apply triple_seen. intros w. eapply triple_bind; [by apply (triple_aside _ _ (fun _ => sound))|].
    intros []. apply triple_seen. intros w2. by apply triple_fail.
Qed.
Lemma timeout_spec {A} F id timeout phase (Q : A -> state -> Prop) : triple (holding F) (mark_request_timeout id timeout phase) Q sound.
Proof.
  unfold mark_request_timeout. cbv zeta. eapply triple_bind.
  - eapply triple_weaken; [eapply triple_try, (mark_spec (A := unit) F _ _ (fun _ _ => False))|done| |done].
    intros r s. instantiate (1 := fun _ => sound). by destruct r.
  - intros r. by apply triple_fail.
Qed.

(** ** Sending *)

Lemma spawn_spec F : triple (holding F) spawn_worker (fun _ => holding F) sound.
Proof.
  unfold spawn_worker. apply triple_look. intros w. eapply (triple_bind _ _ _ (fun _ => holding F)).
  { destruct (remote_host_info w); [apply triple_ret; by intros s [H _]|].
    eapply (triple_bind _ _ _ (fun _ => holding F)); [|intros []; by apply triple_ret].
    apply triple_in_world. intros s [[Hi HF] Hw]. subst w. split; [by apply inv_world | done]. }
  intros [e|]; [apply triple_fail; intros s; apply holding_inv|].
  eapply (triple_bind _ _ _ (fun _ => holding F)); [by apply triple_aside|]. intros [].
  apply triple_world. intros w2. eapply (triple_bind _ _ _ (fun _ => holding F)).
  { apply triple_in_world. intros s [[Hi HF] Hw]. subst w2. split; [by apply inv_world | done]. }
  intros []. destruct (default None _); [apply triple_fail; intros s; apply holding_inv | by apply triple_ret].
Qed.

(** If the client is past the handshake, so is the worker it uses. *)
Definition past_handshake (b : bool) (c : AgentClient) (g : Z) (l : list traffic) : Prop := b = true -> handshake_complete c = true.
Definition ready_worker (b : bool) (n : Z) (c : AgentClient) (g : Z) (l : list traffic) : Prop :=
  worker c = Some n /\ (b = true -> greeted n l).

Lemma C_bind_run {A B} (c : C A) (k : A -> C B) s :
  (c ≫= k) s = match c s with (Ok a, s') => k a s' | (Err e, s') => (Err e, s') end.
Proof. done. Qed.

(** A client that has a worker keeps it: nobody replaced the agent. *)
Lemma ensure_worker_spec b : triple (holding (past_handshake b)) ensure_worker (fun n => holding (ready_worker b n)) sound.
Proof.
  intros s [Hi HF]. unfold ensure_worker. destruct (look_run s Hi) as (w0 & E0 & Hi0 & _ & _). rewrite C_bind_run, E0.
  destruct (shutdown_requested w0); [by split|].
  destruct (look_run _ Hi0) as (w & E1 & Hi1 & _ & _). cbn [fst] in E1, Hi1. rewrite C_bind_run, E1. cbv zeta.
  set (c := fst s) in *. rewrite C_bind_run. unfold client at 1. cbn [fst]. destruct (worker c) as [n|] eqn:Ew.
  - pose proof (i_current _ Hi1 n Ew) as Hcur. cbn in Hcur. rewrite Hcur, Z.eqb_refl, andb_false_r, C_bind_run. cbn [mret C_ret].
    rewrite C_bind_run. unfold client. cbn [fst]. rewrite Ew. cbn. split; [done|]. split; [done|]. intros Hb.
    destruct (i_session _ Hi1 (HF Hb)) as (n' & Hn' & Hgr). cbn in Hn'. rewrite Ew in Hn'. by injection Hn' as <-.
  - rewrite bool_decide_eq_false_2 by (by intros [? ?]). cbn [andb]. rewrite C_bind_run. cbn [mret C_ret].
    rewrite C_bind_run. unfold client at 1. cbn [fst]. rewrite Ew, C_bind_run.
    pose proof (spawn_spec (fun c' g _ => c' = c /\ g = shared_generation w) (c, w) (conj Hi1 (conj eq_refl eq_refl))) as Hs.
    destruct (spawn_worker (c, w)) as [[n|e] [c' w']]; [|done]. destruct Hs as [[H1 H2 H3 H4 H5 H6] [Hc Hg]]. cbn in *. subst c'.
    assert (Hno : handshake_complete c <> true) by (intros Hh; destruct (H4 Hh) as (m & Hm & _); congruence).
    split; [|split; [done|]; intros Hb; by destruct Hno, (HF Hb)].
    by split; cbn.
Qed.

Lemma send_spec b n id q : is_hello q || b = true ->
  triple (holding (ready_worker b n)) (send_command n id q) (fun sent => holding (fun c g l => sent = true /\ worker c = Some n)) sound.
Proof.
  intros Hq s [[H1 H2 H3 H4 H5 H6] [Hw Hg]].
  assert (Hs : default true (head (sends (snd s))) = true).
  { destruct (sends (snd s)); [done|]. by apply Forall_cons in H2 as [-> _]. }
  unfold send_command. rewrite C_bind_run. unfold the_world. cbv zeta. rewrite Hs. cbn. split; [|done]. split; cbn; try done.
  - destruct (sends (snd s)); [done|]. by apply Forall_cons in H2 as [_ ?].
  - intros Hh. destruct (H4 Hh) as (m & Hm & Hgr). exists m. split; [done | by apply greeted_app].
  - apply polite_snoc; [done|]. intros n' id' q' [= <- <- <-] Hne. apply Hg. by rewrite Hne in Hq.
Qed.

Lemma send_loop_spec b k id q started timeout : is_hello q || b = true ->
  triple (holding (past_handshake b)) (send_loop k id q started timeout) (fun n => holding (fun c g l => worker c = Some n)) sound.
Proof.
  intros Hq. destruct k; cbn [send_loop]; apply triple_remaining; intros r; (destruct (r =? 0);
    [apply kill_then, forget_host, timeout_spec|]);
  (eapply triple_bind; [eapply triple_weaken; [eapply triple_try, ensure_worker_spec|done|done|done]|]);
  (intros [n|e]; [|apply forget_host, mark_spec]);
  (eapply triple_bind; [by apply send_spec|]); intros sent; (destruct sent; [apply triple_ret; by intros s [Hi [_ ?]]|]);
  intros s [_ [? _]]; done.
Qed.

(** ** Waiting for the answer *)

Definition answered (n : Z) (o : AgentRequestOutcome) (c : AgentClient) (g : Z) (l : list traffic) : Prop :=
  match o with
  | Outcome_Response r => worker c = Some n /\ Answered n (Reply_Response r) ∈ l
  | Outcome_Preempted => True
  end.
Lemma reply_spec n reply q :
  triple (holding (fun c g l => worker c = Some n /\ Answered n reply ∈ l))
    (handle_worker_reply package_version canonical_version reply q) (fun o => holding (answered n o)) sound.
Proof.
  destruct reply as [r|e|f|m]; cbn [handle_worker_reply].
  - destruct r; try (by apply triple_ret). apply triple_fail. intros s. apply holding_inv.
  - destruct (parse_agent_compatibility_rpc_error _ _ _ _); [apply kill_then, mark_spec|].
    destruct (rpc_retryable e); [apply kill_then, mark_spec | apply triple_fail; intros s; apply holding_inv].
  - apply kill_then, forget_host, mark_spec.
  - apply kill_then, forget_host, mark_spec.
Qed.

Lemma receive_spec n wait : triple (holding (fun c g l => worker c = Some n)) (receive n wait)
  (fun o => holding (fun c g l => worker c = Some n /\ match o with WaitReply reply => Answered n reply ∈ l | _ => True end)) sound.
Proof.
  intros s [[H1 H2 H3 H4 H5 H6] Hw]. unfold receive. rewrite C_bind_run. unfold the_world. cbv zeta.
  destruct (default (WaitTimedOut 0) (head (waits (snd s)))) as [reply|late|]; cbn; (split; [|split; [done|]]).
  - split; cbn; try done.
    + intros Hh. destruct (H4 Hh) as (m & Hm & Hgr). exists m. split; [done | by apply greeted_app].
    + by apply polite_snoc.
  - apply elem_of_app. right. by left.
  - by split.
  - done.
  - by split.
  - done.
Qed.

Lemma wait_loop_spec fuel : forall n id q preemptible e0 started timeout,
  triple (holding (fun c g l => worker c = Some n))
    (wait_loop package_version canonical_version fuel n id q preemptible e0 started timeout) (fun o => holding (answered n o)) sound.
Proof.
  induction fuel as [|fuel IH]; intros n id q preemptible e0 started timeout; cbn [wait_loop].
  { apply triple_fuel. intros s. apply holding_inv. }
  eapply (triple_bind _ _ _ (fun _ => holding (fun c g l => worker c = Some n))).
  { destruct preemptible; [|by apply triple_ret]. apply triple_seen. intros w. by apply triple_ret. }
  intros [|]; [apply kill_then; by apply triple_ret|]. apply triple_elapsed. intros e.
  destruct (e >=? timeout); [apply kill_then, forget_host, timeout_spec|].
  eapply triple_bind; [apply receive_spec|]. intros [reply|late|].
  - apply reply_spec.
  - eapply triple_weaken; [apply IH|by intros s [Hi [? _]]|done|done].
  - apply kill_then, forget_host, mark_spec.
Qed.

(** ** Whole requests *)

Lemma take_id_spec F : (forall c g l n, F c g l -> F {| worker := worker c; retired_workers := retired_workers c;
    handshake_complete := handshake_complete c; negotiated_hello := negotiated_hello c; backoff_lane := backoff_lane c; next_id := n;
    worker_generation := worker_generation c |} g l) -> triple (holding F) take_id (fun _ => holding F) sound.
Proof.
  intros HF s [[H1 H2 H3 H4 H5 H6] HFs]. cbn. split; [by split | by apply HF].
Qed.

Lemma send_request_spec b q preemptible e0 timeout : is_hello q || b = true ->
  triple (holding (past_handshake b)) (send_request_outcome package_version canonical_version q preemptible e0 timeout)
    (fun o s => exists n, holding (answered n o) s) sound.
Proof.
  intros Hq. unfold send_request_outcome. apply triple_seen. intros w.
  destruct (shutdown_requested w); [apply triple_fail; intros s; apply holding_inv|].
  eapply triple_bind; [by apply take_id_spec|]. intros id. apply triple_now. intros started.
  eapply triple_bind; [by apply send_loop_spec|]. intros n. apply triple_remaining. intros r.
  destruct (r =? 0); [apply kill_then, forget_host, timeout_spec|]. unfold wait_for_reply. apply triple_now. intros started2.
  eapply triple_weaken; [apply wait_loop_spec|done|by exists n|done].
Qed.

Lemma validate_Ok v p : validate_agent_hello package_version canonical_version v p = Ok () -> v = package_version /\ p = PROTOCOL_VERSION.
Proof.
  unfold validate_agent_hello. destruct (Z.eqb_spec p PROTOCOL_VERSION); [|done]. cbn.
  destruct (bytes_eqb v package_version) eqn:E; [by apply bytes_eqb_true in E|]. by destruct (canonical_version v).
Qed.
Lemma record_spec o :
  triple (fun s => exists n, holding (answered n o) s) (record_handshake_outcome package_version canonical_version debug_response o)
    (fun _ => holding (fun c g l => o <> Outcome_Preempted -> handshake_complete c = true)) sound.
Proof.
  intros s [n [Hi Ha]]. destruct o as [r|]; [|by split].
  assert (Hother : forall e (Q : unit -> state -> Prop), triple (holding (answered n (Outcome_Response r)))
    (kill_worker;; mark_remote_unavailable e) Q sound) by (intros e Q; apply kill_then, mark_spec).
  destruct r as [v p caps| | | | | | | | | | | | | | | ]; cbn [record_handshake_outcome]; try (by apply Hother).
  destruct (validate_agent_hello _ _ v p) as [[]|[message failure]] eqn:Ev; cycle 1.
  { assert (Hk : triple (holding (answered n (Outcome_Response (Response_Hello v p caps))))
      (kill_worker;; mark_remote_unavailable_with_trusted_failure (A := unit) message (Trusted_Compatibility <$> failure))
      (fun _ => holding (fun c g l => Outcome_Response (Response_Hello v p caps) <> Outcome_Preempted -> handshake_complete c = true)) sound)
      by apply kill_then, mark_spec. by apply Hk. }
  apply validate_Ok in Ev as [-> ->]. destruct Hi as [H1 H2 H3 H4 H5 H6], Ha as [Hw Ha].
  assert (Hclear : triple (holding (fun c g l => handshake_complete c = true)) clear_all_remote_unavailable
    (fun _ => holding (fun c g l => Outcome_Response (Response_Hello package_version PROTOCOL_VERSION caps) <> Outcome_Preempted ->
       handshake_complete c = true)) sound).
  { apply triple_seen. intros w. apply triple_aside; [done|]. intros s' [? ?]. by split. }
  rewrite !C_bind_run. unfold client, put. cbn [fst snd]. apply Hclear. split; [|done]. split; cbn; try done.
  - intros _. exists n. split; [done|]. by exists caps.
  - by intros h [= <-].
Qed.

Lemma request_spec q preemptible e0 timeout :
  keeps sound (request_outcome_inner package_version canonical_version debug_response q preemptible e0 timeout).
Proof.
  unfold keeps, request_outcome_inner. apply triple_now. intros started.
  eapply (triple_bind _ _ _ (fun _ => sound)).
  { unfold check_remote_backoff. apply triple_seen. intros w. apply triple_client. intros c.
    apply triple_forget. destruct (lane_backoff _ _ _) as [[[ms e] f]|]; [by apply triple_fail|].
    apply triple_seen. intros w2. by apply triple_aside. }
  intros []. apply triple_client. intros c.
  set (b := negb (is_hello q)).
  eapply (triple_bind _ _ _ (fun preempted => holding (fun c g l => preempted = false -> past_handshake b c g l))).
  - destruct (b && negb (handshake_complete c)) eqn:Eb; cycle 1.
    + apply triple_ret. intros s [[Hi _] Hc]. split; [done|]. intros _ Hb. rewrite Hc. rewrite Hb in Eb. by destruct (handshake_complete c).
    + unfold ensure_handshake. apply triple_forget.
      eapply triple_bind; [eapply triple_weaken; [apply (send_request_spec false); by rewrite orb_false_r|by intros s [? _]|done|done]|].
      intros o. eapply triple_bind; [apply record_spec|]. intros []. apply triple_ret. intros s [Hi Ho]. split; [done|].
      intros Hp _. apply Ho. by destruct o.
  - intros [|]; [by apply triple_ret; intros s; apply holding_inv|].
    apply (triple_weaken _ (holding (past_handshake b)) (fun _ => sound) sound); [|intros s [Hi H]; split; [done | by apply H]|done|done].
    apply triple_remaining. intros r. destruct (r =? 0).
    + eapply triple_bind; [by apply take_id_spec|]. intros id. apply kill_then, forget_host, timeout_spec.
    + eapply triple_bind; [apply (send_request_spec b); unfold b; by destruct (is_hello q)|]. intros o.
      eapply (triple_bind _ _ _ (fun _ => sound)); [|intros []; by apply triple_ret].
      destruct (is_hello q); [|apply triple_ret; intros s [n H]; by eapply holding_inv].
      eapply triple_weaken; [apply record_spec|done|intros [] s; apply holding_inv|done].
Qed.

Lemma inner_spec q preemptible timeout : keeps sound (request_inner package_version canonical_version debug_response q preemptible timeout).
Proof.
  unfold keeps, request_inner. apply triple_seen. intros w. eapply triple_bind; [apply request_spec|].
  intros [r|]; [by apply triple_ret | by apply triple_fail].
Qed.
Lemma await_spec fuel : forall started timeout context, keeps (holding no_worker) (await_workers fuel started timeout context).
Proof.
  induction fuel as [|fuel IH]; intros started timeout context; cbn [await_workers]; [by apply triple_fuel|].
  eapply triple_bind; [apply reap_spec; by intros c g l r|]. intros []. apply triple_client. intros c.
  apply triple_forget. destruct (retired_workers c); [by apply triple_ret|].
  apply triple_remaining. intros r. destruct (r =? 0); [by apply triple_fail|].
  eapply triple_bind; [by apply (triple_aside no_worker _ (fun _ => holding no_worker))|]. intros []. apply IH.
Qed.
Lemma stop_spec timeout context : triple sound (kill_worker_with_timeout timeout context) (fun _ => sound) sound.
Proof.
  unfold kill_worker_with_timeout. eapply triple_bind; [eapply triple_weaken; [apply retire_spec|done|done|done]|].
  intros []. apply triple_now. intros started. eapply triple_weaken; [apply await_spec|done|intros a s; apply holding_inv|apply holding_inv].
Qed.

Lemma invalidate_spec timeout context : keeps sound (invalidate_shared_workers_with_timeout timeout context).
Proof.
  intros s [Hi _]. unfold invalidate_shared_workers_with_timeout. destruct (look_run s Hi) as (w & E & [H1 H2 H3 H4 H5 H6] & _ & _).
  rewrite C_bind_run, E. rewrite C_bind_run. unfold in_world. cbn [fst snd]. unfold kill_worker_with_timeout.
  set (s1 := (fst s, with_generation (shared_generation w + 1) w)).
  assert (Hr : match retire_active_worker s1 with (Ok _, s2) => holding no_worker s2 | _ => False end).
  { unfold retire_active_worker. rewrite C_bind_run. cbn. destruct (worker (fst s)) eqn:Ew; (split; [|done || by rewrite Ew]); split; cbn; try done.
    by rewrite Ew. }
  rewrite C_bind_run. destruct (retire_active_worker s1) as [[u|e] s2]; [|done].
  assert (Ha : triple (holding no_worker) (started ← instant_now; await_workers (rounds timeout (10 * NANOS_PER_MS)) started timeout context)
    (fun _ => sound) sound).
  { apply triple_now. intros started. eapply triple_weaken; [apply await_spec|done|intros a s'; apply holding_inv|apply holding_inv]. }
  exact (Ha s2 Hr).
Qed.

(** ** Histories *)

Inductive call :=
| CallRequest (q : Request) (timeout : Z)
| CallPreemptible (q : Request) (preempt_epoch timeout : Z)
| CallProbe (timeout : Z)
| CallReset (timeout : Z) (context : bytes)
| CallInvalidate (timeout : Z) (context : bytes)
| CallShutdown (timeout : Z).
(** A call, whatever it returns. *)
Definition run_call (x : call) : C unit :=
  match x with
  | CallRequest q timeout => try (request package_version canonical_version debug_response timeout q);; mret ()
  | CallPreemptible q e timeout =>
      try (request_maybe_preemptible_since package_version canonical_version debug_response timeout q e);; mret ()
  | CallProbe timeout => try (probe_normal_agent_with_timeout package_version canonical_version debug_response timeout);; mret ()
  | CallReset timeout context => try (kill_worker_with_timeout timeout context);; mret ()
  | CallInvalidate timeout context => try (invalidate_shared_workers_with_timeout timeout context);; mret ()
  | CallShutdown timeout => shutdown package_version canonical_version debug_response timeout
  end.
Fixpoint run_calls (xs : list call) : C unit :=
  match xs with
  | [] => mret ()
  | x :: xs => run_call x;; run_calls xs
  end.

Lemma try_keeps {A} (c : C A) : keeps sound c -> triple sound (try c;; mret ()) (fun _ => sound) (fun _ => False).
Proof.
  intros Hc. eapply triple_bind; [eapply triple_try, Hc|]. intros [a|e]; by apply triple_ret.
Qed.
Lemma run_call_spec x : triple sound (run_call x) (fun _ => sound) (fun _ => False).
Proof.
  destruct x as [q timeout|q e timeout|timeout|timeout context|timeout context|timeout]; cbn [run_call];
    try (apply try_keeps).
  - apply inner_spec.
  - apply request_spec.
  - unfold keeps, probe_normal_agent_with_timeout. apply triple_now. intros started.
    eapply triple_bind; [apply stop_spec|]. intros []. eapply (triple_bind _ _ _ (fun _ => sound)).
    { apply triple_seen. intros w. by apply triple_aside. }
    intros []. apply triple_remaining. intros r. destruct (r =? 0); [by apply triple_fail|].
    eapply triple_bind; [apply inner_spec|]. intros response. destruct response; by (apply triple_ret || apply triple_fail).
  - apply stop_spec.
  - apply invalidate_spec.
  - unfold shutdown. apply triple_client. intros c. apply triple_forget. eapply (triple_bind _ _ _ (fun _ => sound)).
    + destruct (bool_decide _); [apply try_keeps, inner_spec | by apply triple_ret].
    + intros []. eapply triple_weaken; [apply kill_spec|done|intros a s; apply holding_inv|done].
Qed.

Lemma run_calls_spec calls : triple sound (run_calls calls) (fun _ => sound) sound.
Proof.
  induction calls as [|x calls IH]; [by apply triple_ret|]. cbn [run_calls].
  eapply (triple_bind _ _ _ (fun _ => sound)); [|intros []; exact IH].
  eapply triple_weaken; [apply run_call_spec|done|done|done].
Qed.

(** C32 (safety) In every history of requests, probes, resets and shutdowns of a client, with failures,
    timeouts, preemptions and the other lane in between, as long as no other client has the agent
    replaced and no worker ends before it took a command: a request other than a Hello goes only to
    a worker that has answered a Hello with this package version and protocol, and the agreement the
    client reports is that of its current worker. *)
Theorem handshake_comes_first calls lane w :
  Forall (fun t => tk_generations t <= 0) (ticks w) -> Forall (fun sent => sent = true) (sends w) -> log w = [] ->
  let s := snd (run_calls calls (new_client lane (shared_generation w), w)) in
  polite (log (snd s)) /\
  forall h, negotiated_hello (fst s) = Some h ->
    nh_agent_version h = package_version /\ nh_protocol_version h = PROTOCOL_VERSION /\
    exists n, worker (fst s) = Some n /\ greeted n (log (snd s)).
Proof.
  intros Ht Hs Hl s. assert (Hsound : sound s).
  { unfold s. pose proof (run_calls_spec calls (new_client lane (shared_generation w), w)) as Hc. destruct (run_calls calls _) as [[a|e] s']; apply Hc;
      (split; [|done]; split; cbn; try done; rewrite Hl; intros i n id q; by rewrite lookup_nil). }
  destruct Hsound as [[_ _ _ H4 H5 H6] _]. split; [done|]. intros h Hh. destruct (H5 h Hh) as (Hc & ? & ?). destruct (H4 Hc) as (n & ? & ?). split_and!; [done..|]. by exists n.
Qed.
End Polite.

(** ** A client that talks to an agent *)

Module Talk.
Definition hello : Response := Response_Hello (B"1") PROTOCOL_VERSION v1_agent.
Definition second : Z := 1000 * NANOS_PER_MS.
Definition start (answers : list wait_outcome) : world := {|
  clock := 0; ticks := []; probes := []; launches := []; sends := []; waits := answers; remote_backoff := no_backoff;
  shared_generation := 0; remote_host_info := false; shutdown_requested := false; epoch := 0; ended := []; next_worker := 1; log := [] |}.
Definition run (calls : list call) (s : state) : state := snd (run_calls (B"1") (fun _ => true) (fun _ => []) calls s).
Definition ask (path : bytes) : call := CallRequest (Request_Stat path) second.
Definition answers : list wait_outcome :=
  [WaitReply (Reply_Response hello); WaitReply (Reply_Response (Response_Stat None)); WaitReply (Reply_Response (Response_Stat None))].
Definition first : state := run [ask (B"a")] (new_client BackoffWrite 0, start answers).
Definition first_log : list traffic :=
  [Sent 1 1 (hello_request (B"1")); Answered 1 (Reply_Response hello);
   Sent 1 2 (Request_Stat (B"a")); Answered 1 (Reply_Response (Response_Stat None))].
(** Another client has the agent replaced. *)
Definition replaced : state := (fst first, with_generation 1 (snd first)).
Definition later : state := run [ask (B"b")] replaced.
End Talk.

Lemma handshake_comes_first_witness :
  log (snd Talk.first) = Talk.first_log /\
  polite (B"1") (log (snd Talk.first)) /\
  forall h, negotiated_hello (fst Talk.first) = Some h ->
    nh_agent_version h = B"1" /\ nh_protocol_version h = PROTOCOL_VERSION /\
    exists n, worker (fst Talk.first) = Some n /\ greeted (B"1") n (log (snd Talk.first)).
Proof.
  split; [reflexivity|].
  exact (handshake_comes_first (B"1") (fun _ => true) (fun _ => []) [Talk.ask (B"a")] BackoffWrite (Talk.start Talk.answers)
    ltac:(constructor) ltac:(constructor) eq_refl).
Defined.

(** Note (error) After the agent was replaced through another client, a client that is past its
    handshake drops its worker only when it has decided that no handshake is needed: the request
    goes to the new agent process, which was never asked for its version. *)
Theorem replaced_agent_gets_request_unasked :
  log (snd Talk.later) = Talk.first_log ++
    [Sent 2 3 (Request_Stat (B"b")); Answered 2 (Reply_Response (Response_Stat None))] /\
  ~ polite (B"1") (log (snd Talk.later)) /\ handshake_complete (fst Talk.later) = false.
Proof.
  assert (El : log (snd Talk.later) = Talk.first_log ++
    [Sent 2 3 (Request_Stat (B"b")); Answered 2 (Reply_Response (Response_Stat None))]) by reflexivity.
  split; [done|]. split; [|reflexivity]. rewrite El. intros H. destruct (H 4%nat 2 3 (Request_Stat (B"b")) eq_refl eq_refl) as [caps Hc].
  change (take 4 _) with Talk.first_log in Hc. unfold Talk.first_log in Hc.
  rewrite !elem_of_cons, elem_of_nil in Hc.
  by destruct Hc as [Hc|[Hc|[Hc|[Hc|Hc]]]].
Qed.

(** ** Requests return *)

Section Returns.
Context (package_version : bytes) (canonical_version : bytes -> bool) (debug_response : Response -> bytes).

Definition returns {A} (c : C A) : Prop := forall s, fst (c s) <> Err OutOfFuel.
Lemma returns_ret {A} (a : A) : returns (mret a).
Proof. done. Qed.
Lemma returns_fail {A} text : returns (A := A) (fail text).
Proof. done. Qed.
Lemma returns_bind {A B} (c : C A) (k : A -> C B) : returns c -> (forall a, returns (k a)) -> returns (c ≫= k).
Proof. intros Hc Hk s. rewrite C_bind_run. specialize (Hc s). destruct (c s) as [[a|e] s']; [apply Hk|]. cbn in *. congruence. Qed.
Lemma returns_try {A} (c : C A) : returns (try c).
Proof. intros s. unfold try. by destruct (c s). Qed.
Lemma returns_look : returns look.
Proof. by intros [c w]. Qed.
Lemma returns_client : returns client.
Proof. done. Qed.
Lemma returns_world : returns the_world.
Proof. done. Qed.
Lemma returns_put c : returns (put c).
Proof. done. Qed.
Lemma returns_in f : returns (in_world f).
Proof. done. Qed.
End Returns.
Create HintDb returns.
#[export] Hint Resolve returns_ret returns_fail returns_try returns_look returns_client returns_world returns_put returns_in : returns.
Ltac returns_through := repeat first
  [ solve [eauto with returns] | apply returns_bind; [|intros ?] | progress case_match ].

Lemma returns_now : returns instant_now.
Proof. unfold instant_now. returns_through. Qed.
Lemma returns_remaining started total : returns (remaining_timeout_since started total).
Proof. unfold remaining_timeout_since, elapsed, instant_now. returns_through. Qed.
Lemma returns_reap : returns reap_finished_workers.
Proof. unfold reap_finished_workers. returns_through. Qed.
Lemma returns_retire : returns retire_active_worker.
Proof. unfold retire_active_worker. cbv zeta. returns_through. Qed.
Lemma returns_kill : returns kill_worker.
Proof. unfold kill_worker, retire_active_worker. cbv zeta. returns_through. Qed.
Lemma returns_mark {A} error failure : returns (A := A) (mark_remote_unavailable_with_trusted_failure error failure).
Proof. unfold mark_remote_unavailable_with_trusted_failure. cbv zeta. returns_through. Qed.
Lemma returns_timeout {A} id timeout phase : returns (A := A) (mark_request_timeout id timeout phase).
Proof. unfold mark_request_timeout. cbv zeta. returns_through. Qed.
#[export] Hint Resolve returns_now returns_remaining returns_reap returns_retire returns_kill returns_mark returns_timeout : returns.

(** The time that is left decreases with every round of a loop that waits. *)
Lemma look_clock s w' s' : look s = (Ok w', s') -> s' = (fst s, w') /\ clock (snd s) <= clock w'.
Proof. destruct s as [c w]. unfold look. destruct (ticks w) as [|t ts]; intros [= <- <-]; (split; [done|]); cbn; lia. Qed.
Lemma elapsed_run started s : exists w', elapsed started s = (Ok (saturating_sub (clock w') started), (fst s, w')) /\ clock (snd s) <= clock w'.
Proof.
  unfold elapsed, instant_now. rewrite !C_bind_run. destruct (look s) as [[w'|e] s'] eqn:E; [|by destruct s].
  apply look_clock in E as [-> H]. by exists w'.
Qed.
Lemma rounds_enough timeout step : 0 < step -> timeout <= step * (Z.of_nat (rounds timeout step) - 1).
Proof.
  intros Hs. unfold rounds. pose proof (Z.div_mod timeout step ltac:(lia)). pose proof (Z.mod_pos_bound timeout step Hs).
  assert (timeout / step <= Z.of_nat (Z.to_nat (timeout / step))) by lia. nia.
Qed.

Section Requests.
Context (package_version : bytes) (canonical_version : bytes -> bool) (debug_response : Response -> bytes).

Lemma returns_reply reply q : returns (handle_worker_reply package_version canonical_version reply q).
Proof. unfold handle_worker_reply, mark_remote_unavailable, invalidate_remote_host_info. returns_through. Qed.
Lemma returns_record o : returns (record_handshake_outcome package_version canonical_version debug_response o).
Proof. unfold record_handshake_outcome, mark_remote_unavailable, clear_all_remote_unavailable. returns_through. Qed.
Lemma returns_send_loop k id q started timeout : returns (send_loop k id q started timeout).
Proof.
  induction k; cbn [send_loop]; unfold send_command, mark_remote_unavailable, invalidate_remote_host_info; returns_through.
Qed.

Lemma wait_loop_returns fuel : forall n id q preemptible e0 started timeout s,
  timeout - (clock (snd s) - started) <= 25 * NANOS_PER_MS * (Z.of_nat fuel - 1) -> started <= clock (snd s) -> (0 < fuel)%nat ->
  fst (wait_loop package_version canonical_version fuel n id q preemptible e0 started timeout s) <> Err OutOfFuel.
Proof.
  induction fuel as [|fuel IH]; intros n id q preemptible e0 started timeout s Hd Hs Hf; [lia|]. cbn [wait_loop]. rewrite C_bind_run.
  assert (Hpre : exists b w1, (if preemptible then w ← look; mret (negb (epoch w =? e0)) else mret false : C bool) s = (Ok b, (fst s, w1)) /\
    clock (snd s) <= clock w1).
  { destruct preemptible; [|exists false, (snd s); split; [by destruct s | lia]]. rewrite C_bind_run.
    destruct (look s) as [[w1|e] s1] eqn:E; [|by destruct s]. apply look_clock in E as [-> H]. by eexists _, w1. }
  destruct Hpre as (b & w1 & -> & H1). destruct b; [by apply (returns_bind _ _ returns_kill)|].
  rewrite C_bind_run. destruct (elapsed_run started (fst s, w1)) as (w2 & -> & H2). cbn [fst snd] in *.
  destruct (_ >=? timeout) eqn:Et.
  { apply (returns_bind _ _ returns_kill). intros []. unfold invalidate_remote_host_info. returns_through. }
  rewrite C_bind_run. unfold receive. rewrite C_bind_run. unfold the_world. cbn [snd]. cbv zeta.
  destruct (default (WaitTimedOut 0) (head (waits w2))) as [reply|late|]; cbn [snd fst].
  - apply returns_reply.
  - apply IH; cbn [snd fst clock with_clock with_answers]; unfold saturating_sub, NANOS_PER_MS in *; rewrite Nat2Z.inj_succ in Hd; lia.
  - apply (returns_bind _ _ returns_kill). intros []. unfold invalidate_remote_host_info, mark_remote_unavailable. returns_through.
Qed.

Lemma returns_wait n id q preemptible e0 timeout : returns (wait_for_reply package_version canonical_version n id q preemptible e0 timeout).
Proof.
  intros s. unfold wait_for_reply, instant_now. rewrite !C_bind_run. destruct (look s) as [[w1|e] s1] eqn:E; [|by destruct s].
  apply look_clock in E as [-> H]. apply wait_loop_returns; cbn [snd].
  - replace (timeout - (clock w1 - clock w1)) with timeout by lia. by apply rounds_enough.
  - lia.
  - unfold rounds. lia.
Qed.
Lemma returns_send q preemptible e0 timeout : returns (send_request_outcome package_version canonical_version q preemptible e0 timeout).
Proof.
  pose proof returns_wait. pose proof returns_send_loop. unfold send_request_outcome, take_id, invalidate_remote_host_info. returns_through.
Qed.
Lemma returns_request q preemptible e0 timeout :
  returns (request_outcome_inner package_version canonical_version debug_response q preemptible e0 timeout).
Proof.
  pose proof returns_send. pose proof returns_record.
  unfold request_outcome_inner, check_remote_backoff, ensure_handshake, take_id, invalidate_remote_host_info. returns_through.
Qed.

Lemma await_returns fuel : forall started timeout context s,
  timeout - (clock (snd s) - started) <= 10 * NANOS_PER_MS * (Z.of_nat fuel - 1) -> started <= clock (snd s) -> (0 < fuel)%nat ->
  fst (await_workers fuel started timeout context s) <> Err OutOfFuel.
Proof.
  induction fuel as [|fuel IH]; intros started timeout context s Hd Hs Hf; [lia|]. cbn [await_workers]. rewrite C_bind_run.
  pose proof (returns_reap s) as Hr.
  assert (Hc : clock (snd s) <= clock (snd (snd (reap_finished_workers s)))).
  { unfold reap_finished_workers. rewrite C_bind_run. destruct (look s) as [[w1|e] s1] eqn:E; [|by destruct s].
    apply look_clock in E as [-> H]. rewrite C_bind_run. cbn. destruct (reap_loop _ _ _ _) as [[[]|] retired]; exact H. }
  destruct (reap_finished_workers s) as [[[]|e] s1]; [|cbn in *; congruence]. cbn [fst snd] in *.
  rewrite C_bind_run. unfold client. destruct (retired_workers (fst s1)); [done|]. unfold remaining_timeout_since.
  rewrite !C_bind_run. destruct (elapsed_run started s1) as (w2 & -> & H2). cbn [mret C_ret].
  destruct (_ =? 0) eqn:Ez; [done|]. rewrite C_bind_run. unfold sleep, in_world. cbn [fst snd].
  apply IH; cbn [snd fst clock with_clock]; unfold saturating_sub, NANOS_PER_MS in *; rewrite Nat2Z.inj_succ in Hd; lia.
Qed.
Lemma returns_stop timeout context : returns (kill_worker_with_timeout timeout context).
Proof.
  intros s. unfold kill_worker_with_timeout. rewrite C_bind_run. pose proof (returns_retire s) as Hr.
  destruct (retire_active_worker s) as [[u|e] s1]; [|cbn in *; congruence].
  unfold instant_now. rewrite !C_bind_run. destruct (look s1) as [[w1|e] s2] eqn:E; [|by destruct s1].
  apply look_clock in E as [-> H]. apply await_returns; cbn [snd].
  - replace (timeout - (clock w1 - clock w1)) with timeout by lia. by apply rounds_enough.
  - lia.
  - unfold rounds. lia.
Qed.

(** Note (termination) Whatever the agent, the other lane and the clock do, a request, the reset of a
    worker and the probe of an agent return: their loops end within the rounds their timeouts allow. *)
Theorem client_calls_return q preemptible preempt_epoch timeout context s :
  fst (request_outcome_inner package_version canonical_version debug_response q preemptible preempt_epoch timeout s) <> Err OutOfFuel /\
  fst (kill_worker_with_timeout timeout context s) <> Err OutOfFuel /\
  fst (invalidate_shared_workers_with_timeout timeout context s) <> Err OutOfFuel /\
  fst (probe_normal_agent_with_timeout package_version canonical_version debug_response timeout s) <> Err OutOfFuel.
Proof.
  pose proof returns_request. pose proof returns_stop. split; [by apply returns_request|]. split; [by apply returns_stop|]. split; revert s.
  - change (returns (invalidate_shared_workers_with_timeout timeout context)). unfold invalidate_shared_workers_with_timeout. returns_through.
  - change (returns (probe_normal_agent_with_timeout package_version canonical_version debug_response timeout)).
    unfold probe_normal_agent_with_timeout, request_inner, clear_all_remote_unavailable. returns_through.
Qed.
End Requests.

(** ** Backing off *)

(** The time a lane rests after [k] failures and one more. *)
Definition rest_ms (k : Z) : Z := Z.min (REMOTE_UNAVAILABLE_BACKOFF_BASE_MS * 2 ^ k) REMOTE_UNAVAILABLE_BACKOFF_MAX_MS.
Lemma backoff_exact k : 0 <= k -> remote_unavailable_backoff_ms (k + 1) = rest_ms k.
Proof.
  intros Hk. unfold remote_unavailable_backoff_ms, rest_ms. destruct (Z.eqb_spec (k + 1) 0); [lia|].
  unfold saturating_sub. replace (Z.max (k + 1 - 1) 0) with k by lia. rewrite Z.shiftl_1_l.
  unfold REMOTE_UNAVAILABLE_BACKOFF_BASE_MS, REMOTE_UNAVAILABLE_BACKOFF_MAX_MS, u64_max.
  destruct (decide (k <= 20)).
  - rewrite (Z.min_l k 20) by lia. assert (2 ^ k <= 2 ^ 20) by (apply Z.pow_le_mono_r; lia). lia.
  - rewrite (Z.min_r k 20) by lia. assert (2 ^ 20 <= 2 ^ k) by (apply Z.pow_le_mono_r; lia). lia.
Qed.
Lemma rest_bounds k : 0 <= k -> REMOTE_UNAVAILABLE_BACKOFF_BASE_MS <= rest_ms k <= REMOTE_UNAVAILABLE_BACKOFF_MAX_MS.
Proof.
  intros Hk. unfold rest_ms, REMOTE_UNAVAILABLE_BACKOFF_BASE_MS, REMOTE_UNAVAILABLE_BACKOFF_MAX_MS.
  assert (2 ^ 0 <= 2 ^ k) by (apply Z.pow_le_mono_r; lia). lia.
Qed.

Section Resting.
Context (package_version : bytes) (canonical_version : bytes -> bool) (debug_response : Response -> bytes).

Lemma look_idle c w : ticks w = [] -> look (c, w) = (Ok w, (c, w)).
Proof. intros Ht. unfold look. by rewrite Ht. Qed.

(** A lane that rests refuses every request, and nothing is launched or sent. *)
Lemma resting_refuses c w q preemptible e0 timeout until : ticks w = [] ->
  unavailable_until (slot (remote_backoff w) (backoff_lane c)) = Some until -> clock w < until ->
  exists text, request_outcome_inner package_version canonical_version debug_response q preemptible e0 timeout (c, w) =
    (Err (Message text), (c, w)).
Proof.
  intros Ht Hu Hn. unfold request_outcome_inner, instant_now. rewrite !C_bind_run, look_idle by done. cbn [mret C_ret].
  rewrite C_bind_run. unfold check_remote_backoff. rewrite C_bind_run, look_idle by done. rewrite C_bind_run. cbn.
  unfold lane_backoff. rewrite Hu. cbn. destruct (Z.geb_spec (clock w) until); [lia|]. by eexists.
Qed.

Lemma unavailable_run {A} c w error failure : ticks w = [] ->
  mark_remote_unavailable_with_trusted_failure (A := A) error failure (c, w) =
    (Err (Message (sanitize_agent_error_text error)),
     (with_session false None c, with_backoff (mark_unavailable (clock w) (backoff_lane c) (sanitize_agent_error_text error) failure) w)).
Proof.
  intros Ht. unfold mark_remote_unavailable_with_trusted_failure. rewrite C_bind_run. cbn [client fst]. rewrite C_bind_run.
  cbn [put snd]. cbv zeta. rewrite C_bind_run, look_idle by done. rewrite C_bind_run. cbn [in_world fst snd].
  by rewrite C_bind_run, look_idle.
Qed.

(** The agent cannot be started. *)
Record unreachable (c : AgentClient) (w : world) (e : bytes) : Prop := {
  ur_quiet : ticks w = []; ur_running : shutdown_requested w = false; ur_worker : worker c = None;
  ur_host : remote_host_info w = true; ur_launch : head (launches w) = Some (Some e) }.

Lemma ensure_fails c w e : unreachable c w e -> exists w', ensure_worker (c, w) = (Err (Message e), (c, w')) /\
  ticks w' = [] /\ clock w' = clock w /\ remote_backoff w' = remote_backoff w /\ log w' = log w.
Proof.
  intros [Ht Hs Hw Hh Hl]. unfold ensure_worker. rewrite C_bind_run, look_idle, Hs by done.
  rewrite C_bind_run, look_idle by done. cbv zeta. rewrite C_bind_run. cbn [client fst]. rewrite Hw.
  rewrite bool_decide_eq_false_2 by (by intros [? ?]). cbn [andb]. rewrite C_bind_run. cbn [mret C_ret].
  rewrite C_bind_run. cbn [client fst]. rewrite Hw, C_bind_run. unfold spawn_worker. rewrite C_bind_run, look_idle, Hh by done.
  rewrite C_bind_run. cbn [mret C_ret]. unfold in_world, the_world. rewrite !C_bind_run. cbn [fst snd].
  change (launches (with_host true w)) with (launches w). rewrite Hl. cbn. eexists. by split_and!.
Qed.

Lemma take_id_run c w : exists c1, take_id (c, w) = (Ok (next_id c), (c1, w)) /\ worker c1 = worker c /\ backoff_lane c1 = backoff_lane c.
Proof. by eexists. Qed.

Lemma send_fails c w e q preemptible e0 timeout : unreachable c w e -> 0 < timeout -> exists text c' w',
  send_request_outcome package_version canonical_version q preemptible e0 timeout (c, w) = (Err (Message text), (c', w')) /\
  backoff_lane c' = backoff_lane c /\ ticks w' = [] /\ clock w' = clock w /\ log w' = log w /\
  remote_backoff w' = mark_unavailable (clock w) (backoff_lane c) (sanitize_agent_error_text e) None (remote_backoff w).
Proof.
  intros Hu Ht. pose proof (ur_quiet _ _ _ Hu) as Hq. unfold send_request_outcome.
  rewrite C_bind_run, look_idle, (ur_running _ _ _ Hu) by done. rewrite C_bind_run.
  destruct (take_id_run c w) as (c1 & -> & Hw1 & Hl1'). assert (Hu1 : unreachable c1 w e) by (destruct Hu; split; congruence).
  rewrite C_bind_run. unfold instant_now. rewrite C_bind_run, look_idle by done. cbn [mret C_ret]. rewrite C_bind_run. cbn [send_loop].
  unfold remaining_timeout_since, elapsed, instant_now. rewrite !C_bind_run, look_idle by done. cbn [mret C_ret].
  unfold saturating_sub. destruct (Z.eqb_spec (Z.max (timeout - Z.max (clock w - clock w) 0) 0) 0); [lia|]. rewrite C_bind_run. unfold try.
  destruct (ensure_fails c1 w e Hu1) as (w1 & -> & Ht1 & Hc1 & Hb1 & Hl1). cbn [error_text].
  unfold invalidate_remote_host_info, in_world, mark_remote_unavailable. rewrite !C_bind_run. cbn [fst snd].
  rewrite unavailable_run by done. eexists _, _, _. split; [done|]. split; [done|]. split; [done|]. split; [done|]. split; [done|].
  cbn. by rewrite Hc1, Hb1, Hl1'.
Qed.

Lemma slot_set lane s b : slot (set_slot lane s b) lane = s.
Proof. by destruct lane. Qed.
Lemma slot_set_other lane s b : slot (set_slot lane s b) (other_lane lane) = slot b (other_lane lane).
Proof. by destruct lane. Qed.

Lemma check_free c w : ticks w = [] -> unavailable_until (slot (remote_backoff w) (backoff_lane c)) = None ->
  check_remote_backoff (c, w) = (Ok (), (c, with_backoff (clear_until (backoff_lane c)) w)).
Proof.
  intros Hq Hfree. unfold check_remote_backoff. rewrite C_bind_run, look_idle by done. rewrite C_bind_run. cbn [client fst].
  unfold lane_backoff. rewrite Hfree. cbn [mbind option_bind]. by rewrite C_bind_run, look_idle.
Qed.
Lemma clear_free lane b : unavailable_until (slot b lane) = None -> clear_until lane b = b.
Proof. intros H. unfold clear_until. rewrite <- H. destruct b as [r w], lane; cbn in *; [by destruct r | by destruct w]. Qed.

Lemma request_fails c w e q preemptible e0 timeout :
  unreachable c w e -> handshake_complete c = false -> 0 < timeout -> unavailable_until (slot (remote_backoff w) (backoff_lane c)) = None ->
  exists text c' w',
    request_outcome_inner package_version canonical_version debug_response q preemptible e0 timeout (c, w) = (Err (Message text), (c', w')) /\
    backoff_lane c' = backoff_lane c /\ ticks w' = [] /\ clock w' = clock w /\ log w' = log w /\
    remote_backoff w' = mark_unavailable (clock w) (backoff_lane c) (sanitize_agent_error_text e) None (remote_backoff w).
Proof.
  intros Hu Hh Ht Hfree. pose proof (ur_quiet _ _ _ Hu) as Hq. unfold request_outcome_inner, instant_now.
  rewrite !C_bind_run, look_idle by done. cbn [mret C_ret]. rewrite C_bind_run, check_free by done.
  replace (with_backoff (clear_until (backoff_lane c)) w) with w
    by (unfold with_backoff; rewrite (clear_free _ _ Hfree); by destruct w).
  rewrite C_bind_run. cbn [client fst]. rewrite Hh, C_bind_run. destruct (is_hello q); cbn [negb andb mret C_ret].
  - unfold remaining_timeout_since, elapsed, instant_now. rewrite !C_bind_run, look_idle by done. cbn [mret C_ret].
    unfold saturating_sub. set (r := Z.max (timeout - Z.max (clock w - clock w) 0) 0). assert (Hr : 0 < r) by lia.
    destruct (Z.eqb_spec r 0); [lia|]. rewrite C_bind_run.
    destruct (send_fails c w e q preemptible e0 r Hu Hr) as (text & c' & w' & -> & H). by exists text, c', w'.
  - unfold ensure_handshake. rewrite C_bind_run.
    destruct (send_fails c w e (hello_request package_version) preemptible e0 timeout Hu Ht) as (text & c' & w' & -> & H). by exists text, c', w'.
Qed.

(** Note (functional) A request of a lane that is not resting, to an agent that cannot be started, fails;
    the lane has then counted one failure more and rests twice as long as the time before, from two
    seconds up to one minute, the other lane is as it was, and until the rest is over every request
    of the lane is refused at once: nothing is launched, sent or recorded. *)
Theorem failures_back_off c w e q preemptible e0 timeout :
  let k := consecutive_failures (slot (remote_backoff w) (backoff_lane c)) in
  let until := clock w + rest_ms k * NANOS_PER_MS in
  unreachable c w e -> handshake_complete c = false -> 0 < timeout -> 0 <= k < u32_max ->
  unavailable_until (slot (remote_backoff w) (backoff_lane c)) = None ->
  exists text c' w',
    request_outcome_inner package_version canonical_version debug_response q preemptible e0 timeout (c, w) = (Err (Message text), (c', w')) /\
    log w' = log w /\ consecutive_failures (slot (remote_backoff w') (backoff_lane c)) = k + 1 /\
    slot (remote_backoff w') (other_lane (backoff_lane c)) = slot (remote_backoff w) (other_lane (backoff_lane c)) /\
    REMOTE_UNAVAILABLE_BACKOFF_BASE_MS <= rest_ms k <= REMOTE_UNAVAILABLE_BACKOFF_MAX_MS /\
    forall now q' preemptible' e' timeout', now < until ->
      exists text', request_outcome_inner package_version canonical_version debug_response q' preemptible' e' timeout' (c', with_clock now w') =
        (Err (Message text'), (c', with_clock now w')).
Proof.
  intros k until Hu Hh Ht Hk Hfree.
  destruct (request_fails c w e q preemptible e0 timeout Hu Hh Ht Hfree) as (text & c' & w' & E & Hl & Hq' & _ & Hlog & Hb).
  assert (Hslot : slot (remote_backoff w') (backoff_lane c) = {|
    unavailable_until := Some until; last_remote_error := Some (sanitize_agent_error_text e); trusted_failure := None;
    last_remote_error_at := Some (clock w); consecutive_failures := k + 1 |}).
  { rewrite Hb. unfold mark_unavailable. rewrite slot_set. fold k.
    replace (Z.max (Z.min (k + 1) u32_max) 1) with (k + 1) by lia. by rewrite backoff_exact by lia. }
  exists text, c', w'. rewrite Hslot. split; [done|]. split; [done|]. split; [done|].
  split; [rewrite Hb; apply slot_set_other|]. split; [apply rest_bounds; lia|].
  intros now q' preemptible' e' timeout' Hnow. apply (resting_refuses c' _ q' preemptible' e' timeout' until); [done| |done].
  cbn [with_clock remote_backoff]. by rewrite Hl, Hslot.
Qed.
End Resting.

(** The third failure in a row: eight seconds. *)
Module Broken.
Definition slot3 : RemoteBackoffSlot := {|
  unavailable_until := None; last_remote_error := Some (B"gone"); trusted_failure := None; last_remote_error_at := Some 0;
  consecutive_failures := 2 |}.
Definition broken : world := {|
  clock := 0; ticks := []; probes := []; launches := [Some (B"no agent")]; sends := []; waits := [];
  remote_backoff := set_slot BackoffRead slot3 no_backoff; shared_generation := 0; remote_host_info := true; shutdown_requested := false;
  epoch := 0; ended := []; next_worker := 1; log := [] |}.
End Broken.

Lemma failures_back_off_witness :
  rest_ms 2 = 8000 /\ exists text c' w',
    request_outcome_inner (B"1") (fun _ => true) (fun _ => []) (Request_Stat (B"a")) false 0 Talk.second (new_client BackoffRead 0, Broken.broken) =
      (Err (Message text), (c', w')) /\
    log w' = [] /\ consecutive_failures (slot (remote_backoff w') BackoffRead) = 3 /\ slot (remote_backoff w') BackoffWrite = empty_slot /\
    REMOTE_UNAVAILABLE_BACKOFF_BASE_MS <= rest_ms 2 <= REMOTE_UNAVAILABLE_BACKOFF_MAX_MS /\
    forall now q' preemptible' e' timeout', now < rest_ms 2 * NANOS_PER_MS ->
      exists text', request_outcome_inner (B"1") (fun _ => true) (fun _ => []) q' preemptible' e' timeout' (c', with_clock now w') =
        (Err (Message text'), (c', with_clock now w')).
Proof.
  split; [reflexivity|].
  exact (failures_back_off (B"1") (fun _ => true) (fun _ => []) (new_client BackoffRead 0) Broken.broken (B"no agent")
    (Request_Stat (B"a")) false 0 Talk.second ltac:(by split) eq_refl ltac:(by apply Z.ltb_lt) ltac:(split; [done | by apply Z.ltb_lt]) eq_refl).
Defined.
