(* ===== verification/Install.v ===== *)
(** * The agent install transaction (crates/nrm-sidecar/src/main.rs)

    [run_agent_install_transaction] drives the steps of an installation, each of which
    runs on the remote host and may fail: the trait [AgentInstallOps] is a class, and nothing is
    assumed of its steps.  The same transaction over steps that write down their
    calls and answers shows which calls an installation makes, and that its report follows from
    their answers.  PosixInstallOps.v has the steps of [PosixSshInstallOps]. *)
From S2P Require Import Prelude.

(** ** The steps *)

Record StagedInstall := { target_path : bytes; stage_path : bytes; backup_path : bytes; had_previous : bool }.
Record ActivatedInstall := { staged : StagedInstall; activated_had_previous : bool }.
Record RollbackOutcome := { rollback_target_path : bytes; restored_previous : bool }.
Inductive ActivationRecoveryKind :=
| ActivationUnchangedPresent | ActivationUnchangedMissing | RestoredPrevious | RemovedCandidate.
Record ActivationRecovery := { recovery_target_path : bytes; kind : ActivationRecoveryKind }.

(** [anyhow::Error]: its text, and whether a bootstrap timeout is in its chain. *)
Record error := { error_text : bytes; is_bootstrap_timeout : bool }.

(** The trait; a step acts on the state [W] of the host and of the connection. *)
Class AgentInstallOps (W : Type) := {
  stage : W -> result error StagedInstall * W;
  validate_staged : StagedInstall -> W -> result error unit * W;
  ensure_activation_budget : W -> result error unit * W;
  activate : StagedInstall -> W -> result error ActivatedInstall * W;
  reconcile_activation : StagedInstall -> W -> result error ActivationRecovery * W;
  validate_reconciliation : ActivationRecovery -> W -> result error unit * W;
  validate_activated : ActivatedInstall -> W -> result error unit * W;
  rollback : ActivatedInstall -> W -> result error RollbackOutcome * W;
  validate_rollback : RollbackOutcome -> W -> result error unit * W;
  cleanup : StagedInstall -> W -> result error unit * W }.

(** ** The transaction *)

Inductive AgentInstallFinalState := TargetUnchanged | PreviousRestored | CandidateHealthy | LiveStateUnknown.
Record AgentInstallTransactionError := {
  final_state : AgentInstallFinalState; bootstrap_timeout : bool; message : bytes }.

Definition install_transaction_error_with_timeout (s : AgentInstallFinalState) (timeout : bool) (text : bytes) :
    AgentInstallTransactionError :=
  {| final_state := s; bootstrap_timeout := timeout; message := text |}.

Definition install_phase_failure (prefix : bytes) (e : error) : bytes :=
  if is_bootstrap_timeout e then B"bootstrap_timeout: " ++ prefix ++ B": " ++ error_text e
  else prefix ++ B": " ++ error_text e.

Definition kind_debug (k : ActivationRecoveryKind) : bytes :=
  match k with
  | ActivationUnchangedPresent => B"ActivationUnchangedPresent"
  | ActivationUnchangedMissing => B"ActivationUnchangedMissing"
  | RestoredPrevious => B"RestoredPrevious"
  | RemovedCandidate => B"RemovedCandidate"
  end.
Definition recovered_state (k : ActivationRecoveryKind) : AgentInstallFinalState :=
  match k with
  | ActivationUnchangedPresent | ActivationUnchangedMissing => TargetUnchanged
  | RestoredPrevious | RemovedCandidate => PreviousRestored
  end.

Section Transaction.
Context {W : Type} `{AgentInstallOps W}.
Abbreviation outcome := (result AgentInstallTransactionError ActivatedInstall * W)%type.
Abbreviation fail s t m w := ((Err (install_transaction_error_with_timeout s t m), w) : outcome).

(** A failure before the target is touched: the stage is cleaned up. *)
Definition abandon (s : StagedInstall) (prefix : bytes) (e : error) (w : W) : outcome :=
  let '(cleaned, w) := cleanup s w in
  match cleaned with
  | Ok _ => fail TargetUnchanged (is_bootstrap_timeout e) (install_phase_failure prefix e) w
  | Err c => fail TargetUnchanged (is_bootstrap_timeout e || is_bootstrap_timeout c)
               (install_phase_failure prefix e ++ B"; cleanup_failed: " ++ error_text c) w
  end.

(** After a failed activation. *)
Definition recover (s : StagedInstall) (e : error) (w : W) : outcome :=
  match reconcile_activation s w with
  | (Err r, w) =>
      fail LiveStateUnknown (is_bootstrap_timeout e || is_bootstrap_timeout r)
        (B"rollback_failed: activation reconciliation failed: " ++ error_text r ++
         B"; original activation failure: " ++ error_text e) w
  | (Ok recovery, w) =>
      match validate_reconciliation recovery w with
      | (Err r, w) =>
          fail LiveStateUnknown (is_bootstrap_timeout e || is_bootstrap_timeout r)
            (B"rollback_failed: reconciled target reprobe failed: " ++ error_text r ++
             B"; original activation failure: " ++ error_text e) w
      | (Ok _, w) =>
          fail (recovered_state (kind recovery)) (is_bootstrap_timeout e)
            (install_phase_failure (B"activation_failed") e ++ B"; reconciliation=" ++ kind_debug (kind recovery)) w
      end
  end.

(** After an activation that does not validate. *)
Definition roll_back (a : ActivatedInstall) (e : error) (w : W) : outcome :=
  match rollback a w with
  | (Err r, w) =>
      fail LiveStateUnknown (is_bootstrap_timeout e || is_bootstrap_timeout r)
        (B"rollback_failed: " ++ error_text r ++ B"; original postactivation failure: " ++ error_text e) w
  | (Ok rolled, w) =>
      match validate_rollback rolled w with
      | (Err r, w) =>
          fail LiveStateUnknown (is_bootstrap_timeout e || is_bootstrap_timeout r)
            (B"rollback_failed: restored agent reprobe failed: " ++ error_text r ++
             B"; original postactivation failure: " ++ error_text e) w
      | (Ok _, w) =>
          fail PreviousRestored (is_bootstrap_timeout e)
            (install_phase_failure (B"post_activation_validation_failed") e ++ B"; rollback=restored") w
      end
  end.

Definition run_agent_install_transaction (w : W) : outcome :=
  match stage w with
  | (Err e, w) =>
      fail TargetUnchanged (is_bootstrap_timeout e) (install_phase_failure (B"staging_failed: failed to stage remote agent") e) w
  | (Ok s, w) =>
      match validate_staged s w with
      | (Err e, w) => abandon s (B"staged_validation_failed") e w
      | (Ok _, w) =>
          match ensure_activation_budget w with
          | (Err e, w) => abandon s (B"activation budget exhausted before target mutation") e w
          | (Ok _, w) =>
              match activate s w with
              | (Err e, w) => recover s e w
              | (Ok a, w) =>
                  match validate_activated a w with
                  | (Err e, w) => roll_back a e w
                  | (Ok _, w) =>
                      match cleanup (staged a) w with
                      | (Err e, w) =>
                          fail CandidateHealthy (is_bootstrap_timeout e)
                            (B"cleanup_failed: activated agent is healthy but backup cleanup failed: " ++ error_text e) w
                      | (Ok _, w) => (Ok a, w)
                      end
                  end
              end
          end
      end
  end.
End Transaction.

(** ** The calls an installation makes *)

(** A call of a step, with what it was given and what it answered. *)
Inductive call :=
| Stage (r : result error StagedInstall)
| ValidateStaged (s : StagedInstall) (r : result error unit)
| EnsureActivationBudget (r : result error unit)
| Activate (s : StagedInstall) (r : result error ActivatedInstall)
| ReconcileActivation (s : StagedInstall) (r : result error ActivationRecovery)
| ValidateReconciliation (x : ActivationRecovery) (r : result error unit)
| ValidateActivated (a : ActivatedInstall) (r : result error unit)
| Rollback (a : ActivatedInstall) (r : result error RollbackOutcome)
| ValidateRollback (x : RollbackOutcome) (r : result error unit)
| Cleanup (s : StagedInstall) (r : result error unit).

(** The error a call ended with. *)
Definition error_of {A} (r : result error A) : option error := match r with Ok _ => None | Err e => Some e end.
Definition failure (c : call) : option error :=
  match c with
  | Stage r => error_of r
  | Activate _ r => error_of r
  | ReconcileActivation _ r => error_of r
  | Rollback _ r => error_of r
  | ValidateStaged _ r | EnsureActivationBudget r | ValidateReconciliation _ r | ValidateActivated _ r | ValidateRollback _ r | Cleanup _ r =>
      error_of r
  end.
Definition failed (c : call) : bool := match failure c with Some _ => true | None => false end.
Definition timed_out (c : call) : bool := match failure c with Some e => is_bootstrap_timeout e | None => false end.
Definition activates (c : call) : bool := match c with Activate _ _ => true | _ => false end.

Section Calls.
Context {W : Type} `{AgentInstallOps W}.

(** The steps of [W], each written down as it returns. *)
Definition noting {A} (c : result error A -> call) (step : W -> result error A * W) (x : W * list call) :
    result error A * (W * list call) :=
  let '(r, w) := step (fst x) in (r, (w, snd x ++ [c r])).
#[local] Instance noted : AgentInstallOps (W * list call) := {|
  stage := noting Stage stage;
  validate_staged s := noting (ValidateStaged s) (validate_staged s);
  ensure_activation_budget := noting EnsureActivationBudget ensure_activation_budget;
  activate s := noting (Activate s) (activate s);
  reconcile_activation s := noting (ReconcileActivation s) (reconcile_activation s);
  validate_reconciliation x := noting (ValidateReconciliation x) (validate_reconciliation x);
  validate_activated a := noting (ValidateActivated a) (validate_activated a);
  rollback a := noting (Rollback a) (rollback a);
  validate_rollback x := noting (ValidateRollback x) (validate_rollback x);
  cleanup s := noting (Cleanup s) (cleanup s) |}.

(** What the calls must have been for each final state. *)
Definition final_state_shown (calls : list call) (f : AgentInstallFinalState) : Prop :=
  match f with
  | TargetUnchanged =>
      existsb activates calls = false \/
      exists pre s e x, calls = pre ++ [Activate s (Err e); ReconcileActivation s (Ok x); ValidateReconciliation x (Ok ())] /\
        (kind x = ActivationUnchangedPresent \/ kind x = ActivationUnchangedMissing)
  | PreviousRestored =>
      (exists pre s e x, calls = pre ++ [Activate s (Err e); ReconcileActivation s (Ok x); ValidateReconciliation x (Ok ())] /\
        (kind x = RestoredPrevious \/ kind x = RemovedCandidate)) \/
      exists pre s a e x,
        calls = pre ++ [Activate s (Ok a); ValidateActivated a (Err e); Rollback a (Ok x); ValidateRollback x (Ok ())]
  | CandidateHealthy =>
      exists pre s a e, calls = pre ++ [Activate s (Ok a); ValidateActivated a (Ok ()); Cleanup (staged a) (Err e)]
  | LiveStateUnknown =>
      existsb activates calls = true /\
      exists pre c e, calls = pre ++ [c] /\ failure c = Some e /\
        match c with ReconcileActivation _ _ | ValidateReconciliation _ _ | Rollback _ _ | ValidateRollback _ _ => True | _ => False end
  end.

(** The target is touched at most once, and only after the staged agent it is replaced by has been validated within the budget. *)
Definition activation_guarded (calls : list call) : Prop :=
  forall pre s r post, calls = pre ++ Activate s r :: post ->
    pre = [Stage (Ok s); ValidateStaged s (Ok ()); EnsureActivationBudget (Ok ())] /\ existsb activates post = false.
(** A stage that is not activated is cleaned up. *)
Definition stage_cleaned (calls : list call) : Prop :=
  forall s, Stage (Ok s) ∈ calls -> existsb activates calls = false -> exists pre r, calls = pre ++ [Cleanup s r].

Definition report_shown (calls : list call) (r : result AgentInstallTransactionError ActivatedInstall) : Prop :=
  match r with
  | Ok a => existsb failed calls = false /\
      exists pre s, calls = pre ++ [Activate s (Ok a); ValidateActivated a (Ok ()); Cleanup (staged a) (Ok ())]
  | Err e => existsb failed calls = true /\ bootstrap_timeout e = existsb timed_out calls /\ final_state_shown calls (final_state e)
  end.

Lemma guarded_none calls : existsb activates calls = false -> activation_guarded calls.
Proof. intros Hn pre s r post ->. rewrite existsb_app in Hn. apply orb_false_iff in Hn as [_ Hn]. discriminate. Qed.

Lemma guarded_one s r post : existsb activates post = false ->
  activation_guarded (Stage (Ok s) :: ValidateStaged s (Ok ()) :: EnsureActivationBudget (Ok ()) :: Activate s r :: post).
Proof.
  intros Hn pre s' r' post' E. destruct pre as [|c1 [|c2 [|c3 [|c4 pre]]]]; try discriminate E.
  - injection E as <- <- <- <- <- <-. done.
  - injection E as <- <- <- <- ->. rewrite existsb_app in Hn. apply orb_false_iff in Hn as [_ Hn]. discriminate.
Qed.

Lemma cleaned_after l s r : (forall s', Stage (Ok s') ∈ l -> s' = s) -> stage_cleaned (l ++ [Cleanup s r]).
Proof.
  intros Hs s' Hin _. exists l, r. apply elem_of_app in Hin as [Hin|Hin]; [by rewrite (Hs _ Hin)|].
  apply list_elem_of_singleton in Hin. discriminate.
Qed.
Lemma cleaned_activated calls : existsb activates calls = true -> stage_cleaned calls.
Proof. intros Ha s _ Hn. congruence. Qed.

(** What the transaction's calls and report must satisfy together, and that noting the calls changes nothing. *)
Definition run_shown (plain : result AgentInstallTransactionError ActivatedInstall * W)
    (noted : result AgentInstallTransactionError ActivatedInstall * (W * list call)) : Prop :=
  let '(r, (w, calls)) := noted in
  plain = (r, w) /\ report_shown calls r /\ activation_guarded calls /\ stage_cleaned calls.

Lemma abandon_shown s prefix e w l :
  existsb activates l = false -> (forall s', Stage (Ok s') ∈ l -> s' = s) -> existsb failed l = true ->
  existsb timed_out l = is_bootstrap_timeout e -> run_shown (abandon s prefix e w) (abandon s prefix e (w, l)).
Proof.
  intros Ha Hs Hf Ht. unfold abandon. cbn [cleanup noted]. unfold noting. cbn [fst snd]. destruct (cleanup s w) as [[[]|c] w'].
  all: unfold run_shown, report_shown; cbn [bootstrap_timeout final_state install_transaction_error_with_timeout];
    rewrite !existsb_app, Hf, Ht; cbn; rewrite ?orb_false_r; split_and!; [done..| | |by apply cleaned_after].
  1,3: left; by rewrite existsb_app, Ha.
  all: apply guarded_none; by rewrite existsb_app, Ha.
Qed.

(** The calls before an activation. *)
Definition prepared (s : StagedInstall) : list call := [Stage (Ok s); ValidateStaged s (Ok ()); EnsureActivationBudget (Ok ())].

Lemma activated_shown (p : result AgentInstallTransactionError ActivatedInstall * W) r w s x post :
  existsb activates post = false -> p = (r, w) -> report_shown (prepared s ++ Activate s x :: post) r ->
  run_shown p (r, (w, prepared s ++ Activate s x :: post)).
Proof. intros Hn -> Hr. split_and!; [done|done|by apply guarded_one|by apply cleaned_activated]. Qed.
Lemma failure_shown f t m calls : existsb failed calls = true -> t = existsb timed_out calls -> final_state_shown calls f ->
  report_shown calls (Err (install_transaction_error_with_timeout f t m)).
Proof. by intros. Qed.

Lemma recover_shown s e w : run_shown (recover s e w) (recover s e (w, prepared s ++ [Activate s (Err e)])).
Proof.
  unfold recover. cbn [reconcile_activation noted]. unfold noting. cbn [fst snd].
  destruct (reconcile_activation s w) as [[x|x] w1]; cbn [fst snd].
  2:{ apply activated_shown, failure_shown; [done|done|done|cbn; by rewrite ?orb_false_r|].
      split; [done|]. by eexists (prepared s ++ [_]), _, _. }
  cbn [validate_reconciliation noted]. unfold noting. cbn [fst snd]. destruct (validate_reconciliation x w1) as [[[]|y] w2].
  2:{ apply activated_shown, failure_shown; [done|done|done|cbn; by rewrite ?orb_false_r|].
      split; [done|]. by eexists (prepared s ++ [_; _]), _, _. }
  apply activated_shown, failure_shown; [done|done|done|cbn; by rewrite ?orb_false_r|]. destruct (kind x) eqn:Ek; cbn [recovered_state final_state_shown].
  1,2: right; exists (prepared s), s, e, x; split; [done | by rewrite Ek; auto].
  all: left; exists (prepared s), s, e, x; split; [done | by rewrite Ek; auto].
Qed.

Lemma roll_back_shown s a e w :
  run_shown (roll_back a e w) (roll_back a e (w, prepared s ++ [Activate s (Ok a); ValidateActivated a (Err e)])).
Proof.
  unfold roll_back. cbn [rollback noted]. unfold noting. cbn [fst snd].
  destruct (rollback a w) as [[x|x] w1]; cbn [fst snd].
  2:{ apply activated_shown, failure_shown; [done|done|done|cbn; by rewrite ?orb_false_r|].
      split; [done|]. by eexists (prepared s ++ [_; _]), _, _. }
  cbn [validate_rollback noted]. unfold noting. cbn [fst snd]. destruct (validate_rollback x w1) as [[[]|y] w2].
  2:{ apply activated_shown, failure_shown; [done|done|done|cbn; by rewrite ?orb_false_r|].
      split; [done|]. by eexists (prepared s ++ [_; _; _]), _, _. }
  apply activated_shown, failure_shown; [done|done|done|cbn; by rewrite ?orb_false_r|].
  right. by exists (prepared s), s, a, e, x.
Qed.

(** C38 (safety): whatever the steps of an installation do and answer, the final state it reports follows from the
    calls it made.  It reports success only if every call succeeded and the last ones activated the agent, validated it
    and cleaned up; [TargetUnchanged] only if the activation was never tried, or failed and a
    reconciliation that was validated found the target unchanged; [PreviousRestored] only after a validated
    reconciliation or a validated rollback that undid the activation; [CandidateHealthy] only if the activated agent was
    validated and just the clean-up failed; [LiveStateUnknown] only if the reconciliation or
    rollback, or its validation, failed.  It reports a timeout exactly if some failed call timed out.  The
    activation is tried at most once, after the staged agent was validated within the budget, and a stage
    that is not activated is cleaned up. *)
Theorem install_report_follows_from_calls w :
  run_shown (run_agent_install_transaction w) (run_agent_install_transaction (w, [])).
Proof.
  unfold run_agent_install_transaction. cbn [stage noted]. unfold noting at 1. cbn [fst snd].
  destruct (stage w) as [[s|e] w1].
  2:{ split_and!; [done|apply failure_shown; [done|cbn; by rewrite orb_false_r|by left]|by apply guarded_none|].
      intros s Hin%list_elem_of_singleton. discriminate. }
  cbn [validate_staged noted]. unfold noting at 1. cbn [fst snd]. destruct (validate_staged s w1) as [[[]|e] w2].
  2:{ apply abandon_shown; cbn; [done| |done|by rewrite orb_false_r].
      intros s' [[= ->]|[[=]|[]%elem_of_nil]%elem_of_cons]%elem_of_cons. done. }
  cbn [ensure_activation_budget noted]. unfold noting at 1. cbn [fst snd]. destruct (ensure_activation_budget w2) as [[[]|e] w3].
  2:{ apply abandon_shown; cbn; [done| |done|by rewrite orb_false_r].
      intros s' [[= ->]|[[=]|[[=]|[]%elem_of_nil]%elem_of_cons]%elem_of_cons]%elem_of_cons. done. }
  cbn [activate noted]. unfold noting at 1. cbn [fst snd]. destruct (activate s w3) as [[a|e] w4]; [|apply recover_shown].
  cbn [validate_activated noted]. unfold noting at 1. cbn [fst snd].
  destruct (validate_activated a w4) as [[[]|e] w5]; [|apply (roll_back_shown s)].
  cbn [cleanup noted]. unfold noting at 1. cbn [fst snd].
  destruct (cleanup (staged a) w5) as [[[]|e] w6].
  - apply (activated_shown _ _ _ s); [done|done|]. split; [done|]. by exists (prepared s), s.
  - apply (activated_shown _ _ _ s), failure_shown; [done|done|done|cbn; by rewrite ?orb_false_r|].
    by exists (prepared s), s, a, e.
Qed.
End Calls.
