(* ===== verification/RemoteQueue.v ===== *)
(** * The sidecar's remote work queue (crates/nrm-sidecar/src/main.rs)

    Requests that need the remote agent, the content each one may change
    ([PendingHazard]) or reads ([RequestInterest]), the counted table of pending
    hazards ([PendingRemote]), the choice of lane and priority, and the two-class
    queue in front of each agent lane. *)
From S2P Require Import Prelude Paths Json.

Definition REMOTE_INTERACTIVE_QUEUE_CAPACITY : Z := 128.
Definition REMOTE_BACKGROUND_QUEUE_CAPACITY : Z := 128.

Record ClientRequest := { req_id : Z; method : bytes; params : Value }.

(** ** Hazards and interests *)

Record PendingHazard := { hazard_paths : list bytes; unknown_content_mutation : bool }.
Definition PendingHazard_default : PendingHazard := {| hazard_paths := []; unknown_content_mutation := false |}.
Record RequestInterest := { interest_paths : list bytes; unknown_content : bool }.
Definition RequestInterest_default : RequestInterest := {| interest_paths := []; unknown_content := false |}.

Definition param (key : bytes) (r : ClientRequest) : option Value := get key (params r).
Definition param_bool (key : bytes) (default : bool) (r : ClientRequest) : bool :=
  from_option id default (param key r ≫= as_bool).
Definition request_background_flag (r : ClientRequest) : bool := param_bool (B"background") false r.

Definition path_hazard (path : option bytes) : PendingHazard :=
  {| hazard_paths := option_list (path ≫= normalized_path_string); unknown_content_mutation := false |}.
Definition request_path_interest (path : option bytes) : RequestInterest :=
  {| interest_paths := option_list (path ≫= normalized_path_string); unknown_content := false |}.

(** The loop over [params.paths] of [prefetch]. *)
Definition prefetch_paths (r : ClientRequest) : list bytes :=
  match param (B"paths") r ≫= as_array with
  | Some values => values ≫= fun v => option_list (as_str v ≫= normalized_path_string)
  | None => []
  end.

Definition is_method (name : string) (r : ClientRequest) : bool := bytes_eqb (method r) (B name).
Definition is_one_of (names : list string) (r : ClientRequest) : bool := existsb (fun n => is_method n r) names.

(** [PendingHazard::for_request] *)
Definition hazard_for_request (r : ClientRequest) : PendingHazard :=
  let path := param (B"path") r ≫= as_str in
  let unknown := {| hazard_paths := []; unknown_content_mutation := true |} in
  if is_method "open" r then
    if param_bool (B"force") false r then path_hazard path else PendingHazard_default
  else if is_method "prefetch" r then
    {| hazard_paths := prefetch_paths r; unknown_content_mutation := false |}
  else if is_method "grep" r then
    {| hazard_paths := []; unknown_content_mutation := param_bool (B"hydrate") true r |}
  else if is_one_of ["adopt"; "flush"; "flush_queued"] r then path_hazard path
  else if is_one_of ["accept_local_conflict"; "accept_remote_conflict"] r then unknown
  else if is_method "recover_local_edits" r then
    if request_background_flag r then PendingHazard_default else unknown
  else if is_method "flush_queue" r then
    if request_background_flag r then PendingHazard_default else unknown
  else PendingHazard_default.

(** [RequestInterest::for_request] *)
Definition interest_for_request (r : ClientRequest) : RequestInterest :=
  let path := param (B"path") r ≫= as_str in
  if is_one_of ["open"; "validate"] r then request_path_interest path
  else if is_method "prefetch" r then {| interest_paths := prefetch_paths r; unknown_content := false |}
  else if is_method "grep" r then
    {| interest_paths := []; unknown_content := param_bool (B"hydrate") true r |}
  else if is_one_of ["git_status"; "git_diff"] r then {| interest_paths := []; unknown_content := true |}
  else if is_method "git_blame" r then request_path_interest path
  else RequestInterest_default.

Definition has_content_interest (i : RequestInterest) : bool :=
  unknown_content i || negb (bool_decide (interest_paths i = [])).

(** [PendingHazard::conflicts_with_interest] *)
Definition hazard_conflicts (h : PendingHazard) (i : RequestInterest) : bool :=
  if unknown_content_mutation h && has_content_interest i then true
  else if unknown_content i then unknown_content_mutation h || negb (bool_decide (hazard_paths h = []))
  else existsb (fun path => existsb (bytes_eqb path) (interest_paths i)) (hazard_paths h).

(** ** The table of pending hazards *)

Record PendingRemote := { exact_paths : gmap bytes Z; unknown_content_mutations : Z }.
Definition PendingRemote_default : PendingRemote := {| exact_paths := ∅; unknown_content_mutations := 0 |}.

Definition register_path (m : gmap bytes Z) (path : bytes) : gmap bytes Z :=
  <[path := from_option id 0 (m !! path) + 1]> m.
Definition register (p : PendingRemote) (h : PendingHazard) : PendingRemote := {|
  exact_paths := foldl register_path (exact_paths p) (hazard_paths h);
  unknown_content_mutations :=
    if unknown_content_mutation h then saturating_add (unknown_content_mutations p) 1
    else unknown_content_mutations p |}.

Definition clear_path (m : gmap bytes Z) (path : bytes) : gmap bytes Z :=
  match m !! path with
  | Some count =>
      let count := saturating_sub count 1 in
      if count =? 0 then delete path (<[path := count]> m) else <[path := count]> m
  | None => m
  end.
Definition clear (p : PendingRemote) (h : PendingHazard) : PendingRemote := {|
  exact_paths := foldl clear_path (exact_paths p) (hazard_paths h);
  unknown_content_mutations :=
    if unknown_content_mutation h then saturating_sub (unknown_content_mutations p) 1
    else unknown_content_mutations p |}.

Definition contains_key (m : gmap bytes Z) (path : bytes) : bool := bool_decide (is_Some (m !! path)).
Definition blocks_path (p : PendingRemote) (path : bytes) : bool :=
  (unknown_content_mutations p >? 0) || contains_key (exact_paths p) path.

(** [PendingRemote::conflicts_with_interest] *)
Definition pending_conflicts (p : PendingRemote) (i : RequestInterest) : bool :=
  if negb (has_content_interest i) then false
  else if unknown_content i then (unknown_content_mutations p >? 0) || negb (bool_decide (exact_paths p = ∅))
  else (unknown_content_mutations p >? 0) || existsb (contains_key (exact_paths p)) (interest_paths i).

(** ** Lanes and priorities *)

Inductive RemoteLane := LaneRead | LaneWrite.
Inductive RemotePriority := Interactive | Background.
#[export] Instance RemoteLane_eq_dec : EqDecision RemoteLane.
Proof. solve_decision. Defined.
#[export] Instance RemotePriority_eq_dec : EqDecision RemotePriority.
Proof. solve_decision. Defined.

Definition request_is_write_lane : ClientRequest -> bool :=
  is_one_of ["recover_local_edits"; "adopt"; "flush"; "flush_queued"; "flush_queue";
             "accept_local_conflict"; "accept_remote_conflict"; "remote_agent_install"; "remote_agent_update"].

Definition lane_for_request (r : ClientRequest) (pending_writes : PendingRemote) : RemoteLane :=
  if request_is_write_lane r then LaneWrite
  else if is_method "grep" r && bool_decide (is_Some (param (B"session_id") r ≫= as_str)) then LaneRead
  else if pending_conflicts pending_writes (interest_for_request r) then LaneWrite
  else LaneRead.

Definition priority_for_request (r : ClientRequest) : RemotePriority :=
  if is_one_of ["prefetch"; "prefetch_known"; "prefetch_related"; "refresh"; "scan"; "remote_probe"] r then Background
  else if is_one_of ["recover_local_edits"; "flush_queue"] r && request_background_flag r then Background
  else Interactive.

(** ** The queue *)

Record RemoteWork := {
  request : ClientRequest; hazard : PendingHazard; priority : RemotePriority; lane : RemoteLane;
  write_hazard_registered : bool }.

(** [RemoteWork::blocks_later] *)
Definition blocks_later (w later : RemoteWork) : bool :=
  hazard_conflicts (hazard w) (interest_for_request (request later)).

Section Queue.
(** The reset commands a worker answers ([RemoteWorkerControl]). *)
Context {Control : Type}.

(** [RemoteQueueState], with the capacities of its [RemoteQueue]. *)
Record RemoteQueueState := {
  queue : list RemoteWork; interactive_len : Z; background_len : Z; closed : bool;
  maintenance_paused : bool; in_flight : Z; controls : list Control;
  interactive_capacity : Z; background_capacity : Z }.

Definition RemoteQueue_new (interactive_capacity background_capacity : Z) : RemoteQueueState := {|
  queue := []; interactive_len := 0; background_len := 0; closed := false; maintenance_paused := false;
  in_flight := 0; controls := []; interactive_capacity := interactive_capacity;
  background_capacity := background_capacity |}.

(** Updates of the queue with its counters, of the flags and of the rest. *)
Definition with_queue (q : list RemoteWork) (i b : Z) (s : RemoteQueueState) : RemoteQueueState := {|
  queue := q; interactive_len := i; background_len := b; closed := closed s;
  maintenance_paused := maintenance_paused s; in_flight := in_flight s; controls := controls s;
  interactive_capacity := interactive_capacity s; background_capacity := background_capacity s |}.
Definition with_flags (c p : bool) (s : RemoteQueueState) : RemoteQueueState := {|
  queue := queue s; interactive_len := interactive_len s; background_len := background_len s; closed := c;
  maintenance_paused := p; in_flight := in_flight s; controls := controls s;
  interactive_capacity := interactive_capacity s; background_capacity := background_capacity s |}.
Definition with_in_flight (n : Z) (s : RemoteQueueState) : RemoteQueueState := {|
  queue := queue s; interactive_len := interactive_len s; background_len := background_len s;
  closed := closed s; maintenance_paused := maintenance_paused s; in_flight := n; controls := controls s;
  interactive_capacity := interactive_capacity s; background_capacity := background_capacity s |}.
Definition with_controls (l : list Control) (s : RemoteQueueState) : RemoteQueueState := {|
  queue := queue s; interactive_len := interactive_len s; background_len := background_len s;
  closed := closed s; maintenance_paused := maintenance_paused s; in_flight := in_flight s; controls := l;
  interactive_capacity := interactive_capacity s; background_capacity := background_capacity s |}.

(** [iter().position(p)] *)
Fixpoint position {A} (p : A -> bool) (l : list A) : option nat :=
  match l with
  | [] => None
  | x :: l => if p x then Some 0%nat else S <$> position p l
  end.
Definition is_interactive (w : RemoteWork) : bool := bool_decide (priority w = Interactive).

Definition next_ready_index (s : RemoteQueueState) : option nat :=
  match position is_interactive (queue s) with
  | None => if bool_decide (queue s = []) then None else Some 0%nat
  | Some interactive_index =>
      match queue s !! interactive_index with
      | None => None
      | Some interactive =>
          Some (from_option id interactive_index
                  (position (fun w => blocks_later w interactive) (take interactive_index (queue s))))
      end
  end.

(** [decrement] and [remove]; [None] is the panic on a missing index. *)
Definition decrement (p : RemotePriority) (s : RemoteQueueState) : RemoteQueueState :=
  match p with
  | Interactive => with_queue (queue s) (saturating_sub (interactive_len s) 1) (background_len s) s
  | Background => with_queue (queue s) (interactive_len s) (saturating_sub (background_len s) 1) s
  end.
Definition remove (index : nat) (s : RemoteQueueState) : option (RemoteWork * RemoteQueueState) :=
  work ← queue s !! index;
  Some (work, decrement (priority work)
                (with_queue (delete index (queue s)) (interactive_len s) (background_len s) s)).

Definition drain_all (s : RemoteQueueState) : list RemoteWork * RemoteQueueState :=
  (queue s, with_queue [] 0 0 s).

(** The loop of [drain_background_blocking]: [limit - index] bounds its steps. *)
Fixpoint drain_loop (fuel : nat) (interest : RequestInterest) (index limit : nat)
    (drained : list RemoteWork) (s : RemoteQueueState) : list RemoteWork * RemoteQueueState :=
  match fuel with
  | O => (drained, s)
  | S fuel =>
      if (index <? limit)%nat then
        match queue s !! index with
        | None => (drained, s)
        | Some w =>
            if bool_decide (priority w = Background) && hazard_conflicts (hazard w) interest then
              match remove index s with
              | Some (w, s) => drain_loop fuel interest index (limit - 1) (drained ++ [w]) s
              | None => (drained, s)
              end
            else drain_loop fuel interest (S index) limit drained s
        end
      else (drained, s)
  end.
Definition drain_background_blocking (interactive_index : nat) (s : RemoteQueueState) :
    list RemoteWork * RemoteQueueState :=
  match queue s !! interactive_index with
  | None => ([], s)
  | Some interactive =>
      drain_loop interactive_index (interest_for_request (request interactive)) 0 interactive_index [] s
  end.

(** [try_push]: the work it cancels, or [Err] of the work refused. *)
Definition try_push (work : RemoteWork) (s : RemoteQueueState) :
    result RemoteWork (list RemoteWork * RemoteQueueState) :=
  _ ← fail_if (closed s || maintenance_paused s) work;
  match priority work with
  | Interactive =>
      _ ← fail_if (interactive_len s >=? interactive_capacity s) work;
      let s := with_queue (queue s ++ [work]) (interactive_len s + 1) (background_len s) s in
      Ok (drain_background_blocking (length (queue s) - 1) s)
  | Background =>
      _ ← fail_if (background_len s >=? background_capacity s) work;
      Ok ([], with_queue (queue s ++ [work]) (interactive_len s) (background_len s + 1) s)
  end.

(** One pass of the loop of [pop_worker_item] under the lock. *)
Inductive popped := PopControl (c : Control) | PopWork (w : RemoteWork) | PopClosed | PopWait.
Definition pop_worker_item (s : RemoteQueueState) : popped * RemoteQueueState :=
  match controls s with
  | c :: rest => (PopControl c, with_controls rest s)
  | [] =>
      let blocked := (if closed s then PopClosed else PopWait, s) in
      if maintenance_paused s then blocked
      else match next_ready_index s with
           | None => blocked
           | Some index =>
               match remove index (with_in_flight (saturating_add (in_flight s) 1) s) with
               | Some (w, s) => (PopWork w, s)
               | None => blocked
               end
           end
  end.

Definition shutdown_and_drain (s : RemoteQueueState) : list RemoteWork * RemoteQueueState :=
  drain_all (with_flags true (maintenance_paused s) s).
Definition begin_maintenance_and_drain (s : RemoteQueueState) : list RemoteWork * RemoteQueueState :=
  drain_all (with_flags (closed s) true s).
Definition end_maintenance (s : RemoteQueueState) : RemoteQueueState := with_flags (closed s) false s.
Definition finish_started (s : RemoteQueueState) : RemoteQueueState :=
  with_in_flight (saturating_sub (in_flight s) 1) s.
(** The part of [reset_agent_worker] under the lock. *)
Definition push_control (c : Control) (s : RemoteQueueState) : option RemoteQueueState :=
  if closed s then None else Some (with_controls (controls s ++ [c]) s).
Definition is_quiescent (s : RemoteQueueState) : bool := in_flight s =? 0.

Definition close_and_drain_background (s : RemoteQueueState) : list RemoteWork * RemoteQueueState :=
  let s := with_flags true (maintenance_paused s) s in
  let kept := List.filter is_interactive (queue s) in
  let drained := List.filter (fun w => negb (is_interactive w)) (queue s) in
  (drained, with_queue kept (zlen kept) 0 s).

Definition cancel (id_ : Z) (s : RemoteQueueState) : option (RemoteWork * RemoteQueueState) :=
  index ← position (fun w => req_id (request w) =? id_) (queue s);
  remove index s.

End Queue.
Arguments RemoteQueueState : clear implicits.
Arguments popped : clear implicits.
