(* ===== verification/RemoteQueueProps.v ===== *)
(** * Properties of the remote work queue

    The table of pending hazards counts exactly the outstanding hazards; the queue
    keeps its counters, its order and its promise that interactive work never waits
    behind background work, under every interleaving of its operations. *)
From S2P Require Import Prelude Paths Json RemoteQueue.

(** ** The hazard table refines the list of outstanding hazards *)

(** How often a path occurs, and how a count is stored. *)
Definition occurrences (path : bytes) (l : list bytes) : Z := zlen (List.filter (bytes_eqb path) l).
Definition stored (n : Z) : option Z := if n =? 0 then None else Some n.

(** [p] is the table of the outstanding hazards [hs], in any order. *)
Record represents (p : PendingRemote) (hs : list PendingHazard) : Prop := {
  rep_paths : forall path, exact_paths p !! path = stored (occurrences path (hs ≫= hazard_paths));
  rep_unknown : unknown_content_mutations p = zlen (List.filter unknown_content_mutation hs) }.

Lemma occurrences_nonneg path l : 0 <= occurrences path l.
Proof. apply zlen_nonneg. Qed.
Lemma occurrences_app path l1 l2 : occurrences path (l1 ++ l2) = occurrences path l1 + occurrences path l2.
Proof. unfold occurrences. by rewrite List.filter_app, zlen_app. Qed.
Lemma occurrences_cons path x l :
  occurrences path (x :: l) = (if bool_decide (path = x) then 1 else 0) + occurrences path l.
Proof.
  unfold occurrences. cbn [List.filter]. unfold bytes_eqb. case_bool_decide; [by rewrite zlen_cons | done].
Qed.
Lemma occurrences_pos path l : occurrences path l <> 0 <-> path ∈ l.
Proof.
  induction l as [|x l IH]; [by rewrite elem_of_nil|]. rewrite occurrences_cons, elem_of_cons.
  pose proof (occurrences_nonneg path l). case_bool_decide; [|rewrite <- IH; naive_solver lia].
  split; [by left | lia].
Qed.

Lemma register_paths_lookup l m c :
  (forall path, 0 <= c path /\ m !! path = stored (c path)) ->
  forall path, foldl register_path m l !! path = stored (c path + occurrences path l).
Proof.
  revert m c. induction l as [|x l IH]; intros m c Hm path; cbn [foldl].
  - rewrite Z.add_0_r. apply Hm.
  - rewrite (IH _ (fun path => c path + (if bool_decide (path = x) then 1 else 0))).
    + rewrite occurrences_cons. f_equal. lia.
    + intros q. unfold register_path. destruct (Hm q) as [Hq Eq].
      destruct (decide (q = x)) as [->|Hne].
      * rewrite bool_decide_eq_true_2, lookup_insert_eq by done. split; [lia|].
        rewrite Eq. unfold stored. destruct (Z.eqb_spec (c x) 0) as [->|]; cbn; [done|].
        destruct (Z.eqb_spec (c x + 1) 0); [lia | done].
      * rewrite bool_decide_eq_false_2, lookup_insert_ne by done. by rewrite Z.add_0_r.
Qed.

Lemma clear_paths_lookup l m c :
  (forall path, 0 <= c path /\ m !! path = stored (c path + occurrences path l)) ->
  forall path, foldl clear_path m l !! path = stored (c path).
Proof.
  revert m. induction l as [|x l IH]; intros m Hm path; cbn [foldl].
  - rewrite (proj2 (Hm path)). by rewrite Z.add_0_r.
  - apply IH. intros q. destruct (Hm q) as [Hq Eq]. split; [done|]. rewrite occurrences_cons in Eq.
    pose proof (occurrences_nonneg q l). unfold clear_path.
    destruct (Hm x) as [Hx Ex]. rewrite occurrences_cons, bool_decide_eq_true_2 in Ex by done.
    pose proof (occurrences_nonneg x l). rewrite Ex. unfold stored at 1.
    destruct (Z.eqb_spec (c x + (1 + occurrences x l)) 0); [lia|]. cbv zeta. unfold saturating_sub.
    destruct (decide (q = x)) as [->|Hne].
    + rewrite Z.max_l by lia. replace (c x + (1 + occurrences x l) - 1) with (c x + occurrences x l) by lia.
      unfold stored. destruct (c x + occurrences x l =? 0); [by rewrite lookup_delete_eq | by rewrite lookup_insert_eq].
    + rewrite bool_decide_eq_false_2 in Eq by done.
      destruct (Z.max _ _ =? 0); rewrite ?lookup_delete_ne, lookup_insert_ne by done; rewrite Eq; f_equal; lia.
Qed.

Lemma represents_default : represents PendingRemote_default [].
Proof. split; [intros path; apply lookup_empty | done]. Qed.

Lemma represents_register p hs h :
  represents p hs -> zlen hs < u64_max -> represents (register p h) (h :: hs).
Proof.
  intros [Hp Hu] Hb. split.
  - intros path. rewrite bind_cons, occurrences_app. cbn [register exact_paths].
    rewrite (register_paths_lookup _ _ (fun path => occurrences path (hs ≫= hazard_paths))); [f_equal; lia|].
    intros q. split; [apply occurrences_nonneg | apply Hp].
  - cbn. assert (zlen (List.filter unknown_content_mutation hs) <= zlen hs)
      by (unfold zlen; pose proof (List.filter_length_le unknown_content_mutation hs); lia).
    destruct (unknown_content_mutation h); [|done].
    rewrite zlen_cons, Hu. unfold saturating_add. lia.
Qed.

Lemma represents_clear p hs h : represents p (h :: hs) -> represents (clear p h) hs.
Proof.
  intros [Hp Hu]. split.
  - intros path. cbn [clear exact_paths].
    apply (clear_paths_lookup _ _ (fun path => occurrences path (hs ≫= hazard_paths))).
    intros q. split; [apply occurrences_nonneg|]. rewrite Hp, bind_cons, occurrences_app. f_equal. lia.
  - cbn in *. destruct (unknown_content_mutation h); [|done].
    rewrite zlen_cons in Hu. unfold saturating_sub. pose proof (zlen_nonneg (List.filter unknown_content_mutation hs)). lia.
Qed.

#[export] Instance represents_proper : Proper (eq ==> Permutation ==> iff) represents.
Proof.
  intros p ? <-. assert (H : forall hs hs', hs ≡ₚ hs' -> represents p hs -> represents p hs').
  { intros hs hs' Hperm [Hp Hu]. split.
    - intros path. rewrite Hp. f_equal. unfold occurrences, zlen.
      rewrite (Permutation_length (list_filter_perm _ _ _ (bind_Permutation _ _ _ Hperm))). done.
    - rewrite Hu. unfold zlen. by rewrite (Permutation_length (list_filter_perm _ _ _ Hperm)). }
  intros hs hs' Hperm. split; apply H; [done | by symmetry].
Qed.

(** The outstanding hazards as a specification of the table's queries. *)
Lemma existsb_iff {A} (p : A -> bool) l b : (b = true <-> exists x, x ∈ l /\ p x = true) -> b = existsb p l.
Proof.
  intros Hb. apply eq_iff_eq_true. rewrite Hb, existsb_exists. setoid_rewrite list_elem_of_In. done.
Qed.

Lemma unknown_outstanding p hs :
  represents p hs -> (unknown_content_mutations p >? 0) = existsb unknown_content_mutation hs.
Proof.
  intros [_ ->]. rewrite Z.gtb_ltb. induction hs as [|h hs IH]; [done|]. cbn [List.filter existsb].
  destruct (unknown_content_mutation h); [|done]. rewrite zlen_cons.
  pose proof (zlen_nonneg (List.filter unknown_content_mutation hs)). cbn [orb]. apply Z.ltb_lt. lia.
Qed.

Lemma path_outstanding p hs path :
  represents p hs -> contains_key (exact_paths p) path = existsb (fun h => bool_decide (path ∈ hazard_paths h)) hs.
Proof.
  intros [Hp _]. apply existsb_iff. unfold contains_key. rewrite bool_decide_eq_true, Hp. unfold stored.
  destruct (Z.eqb_spec (occurrences path (hs ≫= hazard_paths)) 0) as [E|E].
  - split; [by intros []|]. intros (h & Hh & Hin). to_prop. exfalso. apply occurrences_pos in E; [done|].
    apply list_elem_of_bind. eauto.
  - apply occurrences_pos, list_elem_of_bind in E as (h & Hin & Hh). split; [|by eauto].
    intros _. exists h. split; [done|]. by apply bool_decide_eq_true.
Qed.

Lemma paths_outstanding p hs :
  represents p hs -> negb (bool_decide (exact_paths p = ∅)) = existsb (fun h => negb (bool_decide (hazard_paths h = []))) hs.
Proof.
  intros Hrep. apply existsb_iff. rewrite negb_true_iff, bool_decide_eq_false. split.
  - intros Hne%map_choose. destruct Hne as (path & n & Hn).
    assert (Hk : contains_key (exact_paths p) path = true) by (apply bool_decide_eq_true; by exists n).
    rewrite (path_outstanding _ _ _ Hrep), existsb_exists in Hk. destruct Hk as (h & Hh & Hin). to_prop.
    exists h. split; [by apply list_elem_of_In|]. apply negb_true_iff, bool_decide_eq_false. by intros E; rewrite E in Hin; apply not_elem_of_nil in Hin.
  - intros (h & Hh & Hne) E. to_prop. destruct (hazard_paths h) as [|path l] eqn:El; [done|].
    assert (Hk : contains_key (exact_paths p) path = true).
    { rewrite (path_outstanding _ _ _ Hrep). apply existsb_exists. exists h. split; [by apply list_elem_of_In|].
      rewrite El. apply bool_decide_eq_true, list_elem_of_here. }
    rewrite E in Hk. apply bool_decide_eq_true in Hk as [n Hn]. by rewrite lookup_empty in Hn.
Qed.

Lemma existsb_orb {A} (f g : A -> bool) l : existsb f l || existsb g l = existsb (fun x => f x || g x) l.
Proof. induction l as [|x l IH]; cbn; [done|]. rewrite <- IH. destruct (f x), (g x), (existsb f l); done. Qed.

Lemma existsb_ext {A} (f g : A -> bool) l : (forall x, f x = g x) -> existsb f l = existsb g l.
Proof. intros E. induction l as [|x l IH]; cbn; [done|]. by rewrite E, IH. Qed.

Lemma existsb_none {A} (f : A -> bool) l : (forall x, f x = false) -> existsb f l = false.
Proof. intros E. induction l as [|x l IH]; cbn; [done|]. by rewrite E, IH. Qed.

Lemma shared_path_sym l1 l2 :
  existsb (fun path => existsb (bytes_eqb path) l2) l1 = existsb (fun path => bool_decide (path ∈ l1)) l2.
Proof.
  apply eq_iff_eq_true. rewrite !existsb_exists. split.
  - intros (x & Hx & Hy). apply existsb_exists in Hy as (y & Hy & ->%bytes_eqb_true). exists y.
    split; [done|]. by apply bool_decide_eq_true, list_elem_of_In.
  - intros (y & Hy & Hx). to_prop. exists y. split; [by apply list_elem_of_In|].
    apply existsb_exists. exists y. split; [done | by apply bytes_eqb_true].
Qed.

Lemma existsb_exchange {A B} (f : A -> B -> bool) (l1 : list A) (l2 : list B) :
  existsb (fun a => existsb (f a) l2) l1 = existsb (fun b => existsb (fun a => f a b) l1) l2.
Proof.
  apply eq_iff_eq_true. rewrite !existsb_exists. split; intros (x & Hx & Hy);
    apply existsb_exists in Hy as (y & Hy & Hf); exists y; (split; [done|]); apply existsb_exists; eauto.
Qed.

Lemma pending_conflicts_spec p hs i :
  represents p hs -> pending_conflicts p i = existsb (fun h => hazard_conflicts h i) hs.
Proof.
  intros Hrep. unfold pending_conflicts, hazard_conflicts, has_content_interest.
  rewrite (unknown_outstanding _ _ Hrep), (paths_outstanding _ _ Hrep).
  destruct (unknown_content i) eqn:Eu; cbn [orb negb].
  - rewrite existsb_orb. apply existsb_ext. intros h. destruct (unknown_content_mutation h); done.
  - case_bool_decide as Ei; cbn [negb].
    + rewrite Ei. symmetry. apply existsb_none. intros h. rewrite andb_false_r. by apply existsb_none.
    + rewrite (existsb_ext _ _ (interest_paths i) (fun path => path_outstanding p hs path Hrep)).
      rewrite existsb_exchange, existsb_orb. apply existsb_ext. intros h.
      rewrite <- shared_path_sym. by destruct (unknown_content_mutation h).
Qed.

Lemma blocks_path_spec p hs path :
  represents p hs ->
  blocks_path p path = existsb (fun h => unknown_content_mutation h || bool_decide (path ∈ hazard_paths h)) hs.
Proof.
  intros Hrep. unfold blocks_path.
  by rewrite (unknown_outstanding _ _ Hrep), (path_outstanding _ _ _ Hrep), existsb_orb.
Qed.

(** Histories of the table: hazards are registered, and cleared once each in any
    order. *)
Inductive hazard_history : PendingRemote -> list PendingHazard -> Prop :=
| history_new : hazard_history PendingRemote_default []
| history_register p hs h :
    hazard_history p hs -> zlen hs < u64_max -> hazard_history (register p h) (h :: hs)
| history_clear p hs1 h hs2 :
    hazard_history p (hs1 ++ h :: hs2) -> hazard_history (clear p h) (hs1 ++ hs2).

Lemma hazard_history_represents p hs : hazard_history p hs -> represents p hs.
Proof.
  induction 1 as [|p hs h _ IH Hb|p hs1 h hs2 _ IH].
  - apply represents_default.
  - by apply represents_register.
  - apply represents_clear. by rewrite Permutation_middle.
Qed.

(** Note (hazard table).  Whatever was registered and cleared, the counted table answers
    as the plain list of outstanding hazards would: a request conflicts when some
    outstanding hazard conflicts with it, a path is blocked when some outstanding
    hazard names it or is of unknown extent, and nothing is left when all are cleared. *)
Theorem hazard_table_refines p hs :
  hazard_history p hs ->
  (forall i, pending_conflicts p i = existsb (fun h => hazard_conflicts h i) hs) /\
  (forall path, blocks_path p path =
     existsb (fun h => unknown_content_mutation h || bool_decide (path ∈ hazard_paths h)) hs) /\
  (hs = [] -> p = PendingRemote_default).
Proof.
  intros Hrep%hazard_history_represents.
  split; [intros; by apply pending_conflicts_spec|]. split; [intros; by apply blocks_path_spec|].
  intros ->. destruct p as [m u], Hrep as [Hm Hu]. cbn in *. unfold PendingRemote_default. f_equal; [|done].
  apply map_empty. intros path. apply Hm.
Qed.

Definition demo_hazard (path : string) : PendingHazard := {| hazard_paths := [B path]; unknown_content_mutation := false |}.

Lemma hazard_table_refines_witness :
  blocks_path (clear (register (register PendingRemote_default (demo_hazard "a.rs")) (demo_hazard "a.rs"))
                 (demo_hazard "a.rs")) (B"a.rs") = true.
Proof.
  assert (Hh : hazard_history (clear (register (register PendingRemote_default (demo_hazard "a.rs")) (demo_hazard "a.rs"))
    (demo_hazard "a.rs")) [demo_hazard "a.rs"]).
  { apply (history_clear _ [] (demo_hazard "a.rs") [demo_hazard "a.rs"]). repeat constructor. }
  destruct (hazard_table_refines _ _ Hh) as (_ & H2 & _). rewrite H2. by vm_compute.
Defined.

(** ** The queue *)

Section QueueProps.
Context {Control : Type}.
Implicit Types s : RemoteQueueState Control.

Definition in_class (p : RemotePriority) (w : RemoteWork) : bool := bool_decide (priority w = p).
Definition class (p : RemotePriority) : list RemoteWork -> list RemoteWork := List.filter (in_class p).

(** An earlier background item never blocks a later interactive one. *)
Definition yields (w later : RemoteWork) : Prop :=
  priority w = Background -> priority later = Interactive -> blocks_later w later = false.

Record wf_queue s : Prop := {
  wf_interactive_len : interactive_len s = zlen (class Interactive (queue s));
  wf_background_len : background_len s = zlen (class Background (queue s));
  wf_capacity : interactive_len s <= interactive_capacity s /\ background_len s <= background_capacity s;
  wf_in_flight : 0 <= in_flight s <= u64_max;
  wf_yields : ForallOrdPairs yields (queue s) }.

Lemma ForallOrdPairs_sublist {A} (R : A -> A -> Prop) l1 l2 :
  sublist l1 l2 -> ForallOrdPairs R l2 -> ForallOrdPairs R l1.
Proof.
  induction 1 as [|x l1 l2 Hs IH|x l1 l2 Hs IH]; [done| |]; intros H; inversion H as [|? ? Hx Hl]; subst.
  - constructor; [|auto]. eapply List.Forall_forall. intros y Hy. rewrite List.Forall_forall in Hx. apply Hx.
    apply list_elem_of_In. eapply elem_of_sublist; [by apply list_elem_of_In|]. done.
  - auto.
Qed.

Lemma ForallOrdPairs_snoc {A} (R : A -> A -> Prop) l x :
  ForallOrdPairs R l -> Forall (fun y => R y x) l -> ForallOrdPairs R (l ++ [x]).
Proof.
  intros Hl Hx. induction Hl as [|y l Hy Hl IH]; cbn; [repeat constructor|].
  apply Forall_cons in Hx as [Hyx Hx]. constructor; [|auto].
  apply List.Forall_app. split; [done|]. by repeat constructor.
Qed.

Lemma class_app p l1 l2 : class p (l1 ++ l2) = class p l1 ++ class p l2.
Proof. apply List.filter_app. Qed.

Lemma class_singleton p w : class p [w] = if bool_decide (priority w = p) then [w] else [].
Proof. done. Qed.

(** Removing the item at an index, as the list around it. *)
Lemma remove_spec i s w s' :
  remove i s = Some (w, s') <->
  exists l1 l2, queue s = l1 ++ w :: l2 /\ length l1 = i /\
    s' = match priority w with
         | Interactive => with_queue (l1 ++ l2) (saturating_sub (interactive_len s) 1) (background_len s) s
         | Background => with_queue (l1 ++ l2) (interactive_len s) (saturating_sub (background_len s) 1) s
         end.
Proof.
  unfold remove. rewrite bind_Some. split.
  - intros (x & Hx & [= <- <-]). apply list_elem_of_split_length in Hx as (l1 & l2 & Hq & ->).
    exists l1, l2. split; [done|]. split; [done|]. rewrite Hq, delete_middle. by destruct (priority x).
  - intros (l1 & l2 & Hq & <- & ->). exists w. rewrite Hq, lookup_app_r, Nat.sub_diag by lia. split; [done|].
    rewrite delete_middle. by destruct (priority w).
Qed.

Lemma wf_remove i s w s' : wf_queue s -> remove i s = Some (w, s') -> wf_queue s'.
Proof.
  intros [Hi Hb [Hci Hcb] Hf Hy] (l1 & l2 & Hq & _ & ->)%remove_spec. rewrite Hq in *.
  assert (Hs : ForallOrdPairs yields (l1 ++ l2)).
  { eapply ForallOrdPairs_sublist; [|exact Hy]. apply sublist_app; [done|]. by apply sublist_cons. }
  assert (Hcount : forall p, zlen (class p (l1 ++ w :: l2)) =
    zlen (class p (l1 ++ l2)) + (if bool_decide (priority w = p) then 1 else 0)).
  { intros p. rewrite !class_app, !zlen_app. change (class p (w :: l2)) with
      (if bool_decide (priority w = p) then w :: class p l2 else class p l2).
    case_bool_decide; rewrite ?zlen_cons; lia. }
  rewrite Hcount in Hi, Hb.
  pose proof (zlen_nonneg (class Interactive (l1 ++ l2))). pose proof (zlen_nonneg (class Background (l1 ++ l2))).
  destruct (priority w); repeat case_bool_decide; try done; split; cbn; unfold saturating_sub; (done || lia).
Qed.

(** The loop that cancels background work: it splits the part before the limit. *)
Definition cancels (interest : RequestInterest) (w : RemoteWork) : bool :=
  bool_decide (priority w = Background) && hazard_conflicts (hazard w) interest.

Lemma drain_loop_spec interest fuel pre todo post drained s :
  queue s = pre ++ todo ++ post -> (length todo <= fuel)%nat ->
  zlen (List.filter (cancels interest) todo) <= background_len s ->
  drain_loop fuel interest (length pre) (length pre + length todo) drained s =
  (drained ++ List.filter (cancels interest) todo,
   with_queue (pre ++ List.filter (fun w => negb (cancels interest w)) todo ++ post)
     (interactive_len s) (background_len s - zlen (List.filter (cancels interest) todo)) s).
Proof.
  revert pre todo drained s. induction fuel as [|fuel IH]; intros pre todo drained s Hq Hf Hb.
  { destruct todo; [|cbn in Hf; lia]. cbn in *. rewrite app_nil_r, Z.sub_0_r. by destruct s; cbn in *; subst. }
  cbn [drain_loop]. destruct todo as [|w todo].
  - rewrite Nat.add_0_r, Nat.ltb_irrefl. cbn in *. rewrite app_nil_r, Z.sub_0_r. by destruct s; cbn in *; subst.
  - rewrite (proj2 (Nat.ltb_lt _ _)) by (cbn; lia).
    rewrite Hq, lookup_app_r, Nat.sub_diag by lia. cbn [app lookup list_lookup].
    cbn [List.filter]. fold (cancels interest w). cbn [List.filter] in Hb. destruct (cancels interest w) eqn:Ec; cbn [negb].
    + assert (Hp : priority w = Background) by (by apply andb_true_iff in Ec as [?%bool_decide_eq_true _]).
      rewrite (proj2 (remove_spec (length pre) s w (with_queue (pre ++ todo ++ post) (interactive_len s)
        (saturating_sub (background_len s) 1) s))).
      2: { exists pre, (todo ++ post). by rewrite Hq, Hp. }
      rewrite zlen_cons in Hb. pose proof (zlen_nonneg (List.filter (cancels interest) todo)).
      replace (length pre + length (w :: todo) - 1)%nat with (length pre + length todo)%nat by (cbn; lia).
      rewrite IH; cbn [queue with_queue background_len interactive_len].
      * rewrite <- app_assoc, zlen_cons. cbn [app]. f_equal. destruct s; cbn in *. unfold with_queue. cbn.
        f_equal. unfold saturating_sub. lia.
      * done.
      * cbn in Hf. lia.
      * unfold saturating_sub. lia.
    + replace (S (length pre)) with (length (pre ++ [w])) by (rewrite length_app; cbn; lia).
      replace (length pre + length (w :: todo))%nat with (length (pre ++ [w]) + length todo)%nat
        by (rewrite length_app; cbn; lia).
      rewrite IH.
      * by rewrite <- app_assoc.
      * by rewrite Hq, <- app_assoc.
      * cbn in Hf. lia.
      * done.
Qed.

(** Background items an interactive item cancels. *)
Definition canceled_by (w x : RemoteWork) : bool := in_class Background x && blocks_later x w.

Lemma try_push_spec w s :
  wf_queue s ->
  try_push w s =
    if closed s || maintenance_paused s then Err w
    else match priority w with
         | Interactive =>
             if interactive_len s >=? interactive_capacity s then Err w
             else Ok (List.filter (canceled_by w) (queue s),
                      with_queue (List.filter (fun x => negb (canceled_by w x)) (queue s) ++ [w])
                        (interactive_len s + 1)
                        (background_len s - zlen (List.filter (canceled_by w) (queue s))) s)
         | Background =>
             if background_len s >=? background_capacity s then Err w
             else Ok ([], with_queue (queue s ++ [w]) (interactive_len s) (background_len s + 1) s)
         end.
Proof.
  intros Hwf. unfold try_push. destruct (closed s || maintenance_paused s); [done|]. cbn.
  destruct (priority w) eqn:Ep; [|by destruct (_ >=? _)].
  destruct (interactive_len s >=? interactive_capacity s); [done|]. cbn. f_equal.
  unfold drain_background_blocking. cbn [queue with_queue]. rewrite length_app. cbn [length].
  replace (length (queue s) + 1 - 1)%nat with (length (queue s)) by lia.
  rewrite lookup_app_r, Nat.sub_diag by lia. cbn [lookup list_lookup].
  assert (Hext : List.filter (cancels (interest_for_request (request w))) = List.filter (canceled_by w)) by done.
  pose proof (drain_loop_spec (interest_for_request (request w)) (length (queue s)) [] (queue s) [w] []
    (with_queue (queue s ++ [w]) (interactive_len s + 1) (background_len s) s)) as Hd.
  cbn [length Nat.add app queue with_queue background_len interactive_len] in Hd. rewrite Hd; [done|done|lia|].
  rewrite Hext, (wf_background_len s Hwf). unfold zlen, class.
  assert (Hle : sublist (List.filter (canceled_by w) (queue s)) (List.filter (in_class Background) (queue s))).
  { clear. induction (queue s) as [|x l IH]; cbn; [done|]. unfold canceled_by at 1.
    destruct (in_class Background x); cbn; [|done]. destruct (blocks_later x w); by constructor. }
  apply sublist_length in Hle. lia.
Qed.

Lemma class_none p (f : RemoteWork -> bool) l :
  (forall w, f w = true -> in_class p w = false) -> class p (List.filter f l) = [].
Proof.
  intros Hf. unfold class. induction l as [|x l IH]; cbn; [done|].
  destruct (f x) eqn:E; cbn; [|done]. by rewrite (Hf _ E).
Qed.

Lemma class_filter_length p (f : RemoteWork -> bool) l :
  zlen (class p (List.filter (fun w => negb (f w)) l)) = zlen (class p l) - zlen (class p (List.filter f l)).
Proof.
  unfold class. induction l as [|x l IH]; [done|]. cbn [List.filter]. destruct (f x); cbn [negb List.filter];
    destruct (in_class p x); rewrite ?zlen_cons; lia.
Qed.

Lemma class_all p (f : RemoteWork -> bool) l :
  (forall w, f w = true -> in_class p w = true) -> class p (List.filter f l) = List.filter f l.
Proof.
  intros Hf. unfold class. induction l as [|x l IH]; cbn; [done|].
  destruct (f x) eqn:E; cbn; [|done]. by rewrite (Hf _ E), IH.
Qed.

Lemma canceled_background w x : canceled_by w x = true -> in_class Background x = true.
Proof. by intros [? _]%andb_true_iff. Qed.

Lemma background_not_interactive x : in_class Background x = true -> in_class Interactive x = false.
Proof. unfold in_class. rewrite bool_decide_eq_true, bool_decide_eq_false. congruence. Qed.

Lemma wf_push w s c s' : wf_queue s -> try_push w s = Ok (c, s') -> wf_queue s'.
Proof.
  intros Hwf. rewrite (try_push_spec w s Hwf). destruct Hwf as [Hi Hb [Hci Hcb] Hf Hy].
  destruct (closed s || maintenance_paused s); [done|]. destruct (priority w) eqn:Ep.
  - rewrite Z.geb_leb. destruct (Z.leb_spec (interactive_capacity s) (interactive_len s)); [done|].
    intros [= <- <-]. pose proof (zlen_nonneg (List.filter (canceled_by w) (queue s))).
    split; cbn [queue with_queue interactive_len background_len interactive_capacity background_capacity in_flight]; [| |lia|done|].
    + rewrite class_app, zlen_app, class_filter_length, (class_none Interactive (canceled_by w)), class_singleton,
        bool_decide_eq_true_2 by eauto using background_not_interactive, canceled_background. rewrite Hi, ?zlen_cons, ?zlen_nil. lia.
    + rewrite class_app, zlen_app, class_filter_length, (class_all Background (canceled_by w)), class_singleton,
        bool_decide_eq_false_2 by (congruence || eauto using canceled_background). rewrite Hb, ?zlen_cons, ?zlen_nil. lia.
    + apply ForallOrdPairs_snoc.
      * eapply ForallOrdPairs_sublist; [|exact Hy]. apply list_filter_sublist.
      * apply List.Forall_forall. intros x [_ Hx]%filter_In. unfold yields. intros Hbg _.
        unfold canceled_by, in_class in Hx. rewrite bool_decide_eq_true_2 in Hx by done. by to_prop.
  - rewrite Z.geb_leb. destruct (Z.leb_spec (background_capacity s) (background_len s)); [done|].
    intros [= <- <-].
    split; cbn [queue with_queue interactive_len background_len interactive_capacity background_capacity in_flight]; [| |lia|done|].
    + rewrite class_app, zlen_app, class_singleton, bool_decide_eq_false_2 by congruence. rewrite Hi, ?zlen_cons, ?zlen_nil. lia.
    + rewrite class_app, zlen_app, class_singleton, bool_decide_eq_true_2 by done. rewrite Hb, ?zlen_cons, ?zlen_nil. lia.
    + apply ForallOrdPairs_snoc; [done|]. apply List.Forall_forall. intros x _ _ ?. congruence.
Qed.

(** Interactive work first: the index that is served. *)
Lemma position_spec {A} (p : A -> bool) l i :
  position p l = Some i <->
  exists l1 x l2, l = l1 ++ x :: l2 /\ length l1 = i /\ p x = true /\ Forall (fun y => p y = false) l1.
Proof.
  revert i. induction l as [|a l IH]; intros i; cbn.
  - split; [done|]. intros (l1 & x & l2 & E & _). by destruct l1.
  - destruct (p a) eqn:Ea.
    + split.
      * intros [= <-]. by exists [], a, l.
      * intros (l1 & x & l2 & E & <- & Hx & Hl1). destruct l1 as [|b l1]; [done|]. injection E as <- ->.
        apply Forall_cons in Hl1 as [? _]. congruence.
    + rewrite fmap_Some. setoid_rewrite IH. split.
      * intros (j & (l1 & x & l2 & -> & <- & Hx & Hl1) & ->). exists (a :: l1), x, l2. by repeat constructor.
      * intros (l1 & x & l2 & E & <- & Hx & Hl1). destruct l1 as [|b l1]; injection E as <- ->; [congruence|].
        apply Forall_cons in Hl1 as [_ Hl1]. exists (length l1). split; [|done]. by exists l1, x, l2.
Qed.

Lemma position_None {A} (p : A -> bool) l : position p l = None <-> Forall (fun y => p y = false) l.
Proof.
  induction l as [|a l IH]; cbn; [done|]. rewrite Forall_cons. destruct (p a) eqn:Ea; [naive_solver|].
  rewrite <- IH. destruct (position p l); naive_solver.
Qed.

Lemma not_interactive w : is_interactive w = false -> priority w = Background.
Proof. unfold is_interactive. rewrite bool_decide_eq_false. by destruct (priority w). Qed.

Lemma ForallOrdPairs_before {A} (R : A -> A -> Prop) l1 x l2 :
  ForallOrdPairs R (l1 ++ x :: l2) -> Forall (fun y => R y x) l1.
Proof.
  induction l1 as [|y l1 IH]; intros H; [constructor|]. cbn in H. inversion H as [|? ? Hy Hl]; subst.
  constructor; [|auto]. rewrite List.Forall_forall in Hy. apply Hy, in_or_app. right. by left.
Qed.

Lemma next_ready_spec s :
  wf_queue s ->
  next_ready_index s =
    match position is_interactive (queue s) with
    | Some i => Some i
    | None => if bool_decide (queue s = []) then None else Some 0%nat
    end.
Proof.
  intros Hwf. unfold next_ready_index. destruct (position is_interactive (queue s)) as [i|] eqn:E; [|done].
  apply position_spec in E as (l1 & x & l2 & Hq & <- & Hx & Hl1).
  rewrite Hq, lookup_app_r, Nat.sub_diag by lia. cbn [lookup list_lookup]. rewrite take_app_length. f_equal.
  rewrite (proj2 (position_None _ l1)); [done|].
  pose proof (wf_yields _ Hwf) as Hy. rewrite Hq in Hy. apply ForallOrdPairs_before in Hy.
  rewrite List.Forall_forall in *. intros w Hw. apply (Hy w Hw).
  - by apply not_interactive, Hl1.
  - by apply bool_decide_eq_true in Hx.
Qed.

(** ** Histories of a queue *)

Inductive op :=
| Push (w : RemoteWork) | Pop | Cancel (id : Z) | Shutdown | BeginMaintenance | EndMaintenance | Finish
| PushControl (c : Control) | CloseBackground.

(** What an operation did: the work it accepted, started, or handed back unstarted. *)
Record effect := { accepted : list RemoteWork; started : list RemoteWork; returned : list RemoteWork }.
Definition no_effect : effect := {| accepted := []; started := []; returned := [] |}.

Definition apply_op (o : op) s : effect * RemoteQueueState Control :=
  match o with
  | Push w => match try_push w s with
              | Ok (canceled, s') => ({| accepted := [w]; started := []; returned := canceled |}, s')
              | Err _ => (no_effect, s)
              end
  | Pop => match pop_worker_item s with
           | (PopWork w, s') => ({| accepted := []; started := [w]; returned := [] |}, s')
           | (_, s') => (no_effect, s')
           end
  | Cancel id_ => match cancel id_ s with
                  | Some (w, s') => ({| accepted := []; started := []; returned := [w] |}, s')
                  | None => (no_effect, s)
                  end
  | Shutdown => let '(l, s') := shutdown_and_drain s in ({| accepted := []; started := []; returned := l |}, s')
  | BeginMaintenance => let '(l, s') := begin_maintenance_and_drain s in ({| accepted := []; started := []; returned := l |}, s')
  | EndMaintenance => (no_effect, end_maintenance s)
  | Finish => (no_effect, finish_started s)
  | PushControl c => (no_effect, from_option id s (push_control c s))
  | CloseBackground => let '(l, s') := close_and_drain_background s in ({| accepted := []; started := []; returned := l |}, s')
  end.

Fixpoint apply_ops (os : list op) s : list effect * RemoteQueueState Control :=
  match os with
  | [] => ([], s)
  | o :: os => let '(e, s1) := apply_op o s in let '(es, s2) := apply_ops os s1 in (e :: es, s2)
  end.

(** A pop serves the first interactive item, or else the first item. *)
Lemma pop_spec s :
  wf_queue s ->
  pop_worker_item s =
    match controls s with
    | c :: rest => (PopControl c, with_controls rest s)
    | [] =>
        match (if maintenance_paused s then None
               else match position is_interactive (queue s) with
                    | Some i => Some i
                    | None => if bool_decide (queue s = []) then None else Some 0%nat
                    end) with
        | None => (if closed s then PopClosed else PopWait, s)
        | Some i => match remove i (with_in_flight (saturating_add (in_flight s) 1) s) with
                    | Some (w, s') => (PopWork w, s')
                    | None => (if closed s then PopClosed else PopWait, s)
                    end
        end
    end.
Proof.
  intros Hwf. unfold pop_worker_item. destruct (controls s); [|done]. cbv zeta.
  destruct (maintenance_paused s); [done|]. by rewrite next_ready_spec.
Qed.

Lemma wf_with_in_flight n s : wf_queue s -> 0 <= n <= u64_max -> wf_queue (with_in_flight n s).
Proof. intros [] ?. by split. Qed.

Lemma wf_with_controls l s : wf_queue s -> wf_queue (with_controls l s).
Proof. intros []. by split. Qed.
Lemma wf_with_flags c p s : wf_queue s -> wf_queue (with_flags c p s).
Proof. intros []. by split. Qed.

Lemma saturating_in_range n : 0 <= n <= u64_max -> 0 <= saturating_add n 1 <= u64_max /\ 0 <= saturating_sub n 1 <= u64_max.
Proof. unfold saturating_add, saturating_sub, u64_max. lia. Qed.

Lemma wf_pop s r s' : wf_queue s -> pop_worker_item s = (r, s') -> wf_queue s'.
Proof.
  intros Hwf. unfold pop_worker_item. destruct (controls s) as [|c rest].
  - cbv zeta. destruct (maintenance_paused s); [by intros [= _ <-]|].
    destruct (next_ready_index s) as [i|]; [|by intros [= _ <-]].
    destruct (remove i _) as [[w s1]|] eqn:E; [|by intros [= _ <-]]. intros [= _ <-].
    eapply wf_remove; [|exact E]. apply wf_with_in_flight; [done|]. apply saturating_in_range, Hwf.
  - intros [= _ <-]. by apply wf_with_controls.
Qed.

Lemma wf_drain_all s : wf_queue s -> wf_queue (drain_all s).2.
Proof.
  intros [Hi Hb [Hci Hcb] ? ?].
  pose proof (zlen_nonneg (class Interactive (queue s))). pose proof (zlen_nonneg (class Background (queue s))).
  split; cbn; try done; [lia | constructor].
Qed.

Lemma wf_close_background s : wf_queue s -> wf_queue (close_and_drain_background s).2.
Proof.
  intros [Hi Hb [Hci Hcb] ? Hy]. pose proof (zlen_nonneg (class Background (queue s))).
  split; cbn; try done.
  - by rewrite class_all.
  - rewrite class_none; [done|]. intros w Hw. unfold in_class. apply bool_decide_eq_false.
    apply bool_decide_eq_true in Hw. congruence.
  - split; [|lia]. change (List.filter is_interactive (queue s)) with (class Interactive (queue s)). lia.
  - eapply ForallOrdPairs_sublist; [apply list_filter_sublist | done].
Qed.

Lemma wf_new i b : 0 <= i -> 0 <= b -> wf_queue (RemoteQueue_new i b).
Proof. intros. split; cbn; try done; constructor. Qed.

(** What every operation does to the work in the queue. *)
Record op_ok s (e : effect) s' : Prop := {
  op_wf : wf_queue s';
  op_conserves : queue s ++ accepted e ≡ₚ queue s' ++ started e ++ returned e;
  op_order : forall p, sublist (class p (started e) ++ class p (queue s')) (class p (queue s ++ accepted e)) }.

Lemma op_ok_quiet s s' : wf_queue s' -> queue s' = queue s -> op_ok s no_effect s'.
Proof. intros ? E. split; [done| |]; intros; cbn; by rewrite ?E, !app_nil_r. Qed.

Lemma op_ok_returned s l s' :
  wf_queue s' -> queue s ≡ₚ queue s' ++ l -> sublist (queue s') (queue s) ->
  op_ok s {| accepted := []; started := []; returned := l |} s'.
Proof.
  intros ? Hp Hs. split; [done| |]; intros; cbn; rewrite !app_nil_r; [done|]. by apply sublist_list_filter.
Qed.

Lemma push_ok w s e s' : wf_queue s -> apply_op (Push w) s = (e, s') -> op_ok s e s'.
Proof.
  intros Hwf. cbn. destruct (try_push w s) as [[c s1]|w'] eqn:E.
  2: { intros [= <- <-]. by apply op_ok_quiet. }
  intros [= <- <-]. pose proof (wf_push _ _ _ _ Hwf E) as Hwf'. rewrite (try_push_spec w s Hwf) in E.
  destruct (closed s || maintenance_paused s); [done|]. destruct (priority w).
  - destruct (_ >=? _); [done|]. injection E as <- <-. split; [done| |]; cbn.
    + rewrite (list_filter_split (canceled_by w) (queue s)) at 1. solve_Permutation.
    + intros p. apply sublist_list_filter. apply sublist_app; [apply list_filter_sublist | done].
  - destruct (_ >=? _); [done|]. injection E as <- <-. split; [done| |]; cbn; intros; by rewrite ?app_nil_r.
Qed.

(** The item served is the first of its class. *)
Lemma served_first s i w s' p :
  match position is_interactive (queue s) with
  | Some i => Some i
  | None => if bool_decide (queue s = []) then None else Some 0%nat
  end = Some i ->
  remove i s = Some (w, s') -> class p [w] ++ class p (queue s') = class p (queue s).
Proof.
  intros Hi (l1 & l2 & Hq & Hl & ->)%remove_spec.
  assert (Hfirst : class (priority w) l1 = []).
  { destruct (position is_interactive (queue s)) as [j|] eqn:E.
    - injection Hi as ->. apply position_spec in E as (k1 & x & k2 & Hk & Hlen & Hx & Hk1).
      rewrite Hq in Hk. apply app_inj_1 in Hk as [-> [= -> ->]]; [|congruence].
      apply bool_decide_eq_true in Hx. rewrite Hx. clear -Hk1. induction Hk1 as [|y l Hy _ IH]; [done|].
      cbn. change (in_class Interactive y) with (is_interactive y). by rewrite Hy.
    - destruct (bool_decide (queue s = [])); [done|]. injection Hi as <-. by destruct l1. }
  rewrite Hq. transitivity (class p (l1 ++ w :: l2)); [|done].
  replace (queue _) with (l1 ++ l2) by (by destruct (priority w)).
  rewrite !class_app. change (class p (w :: l2)) with (class p ([w] ++ l2)). rewrite class_app.
  rewrite class_singleton. clear Hi. case_bool_decide as Hp; [|done]. rewrite <- Hp, Hfirst. done.
Qed.

Lemma pop_ok s e s' : wf_queue s -> apply_op Pop s = (e, s') -> op_ok s e s'.
Proof.
  intros Hwf. cbn. destruct (pop_worker_item s) as [r s1] eqn:E. pose proof (wf_pop _ _ _ Hwf E) as Hwf'.
  rewrite (pop_spec s Hwf) in E. destruct (controls s) as [|c rest].
  2: { injection E as <- <-. intros [= <- <-]. by apply op_ok_quiet. }
  assert (Hquiet : (if closed s then PopClosed else PopWait, s) = (r, s1) ->
    match r with PopWork w => ({| accepted := []; started := [w]; returned := [] |}, s1) | _ => (no_effect, s1) end = (e, s') ->
    op_ok s e s').
  { intros [= <- <-]. destruct (closed s); intros [= <- <-]; by apply op_ok_quiet. }
  destruct (if maintenance_paused s then None else _) as [i|] eqn:Ei; [|by apply Hquiet].
  destruct (maintenance_paused s); [done|].
  destruct (remove i _) as [[w s2]|] eqn:Er; [|by apply Hquiet].
  injection E as <- <-. intros [= <- <-].
  pose proof (fun p => served_first (with_in_flight (saturating_add (in_flight s) 1) s) i w s2 p Ei Er) as Hserved.
  apply remove_spec in Er as (l1 & l2 & Hq & _ & Hs2).
  assert (Hq2 : queue s2 = l1 ++ l2) by (rewrite Hs2; by destruct (priority w)).
  split; [done| |]; cbn [accepted started returned].
  - rewrite !app_nil_r, Hq2. change (queue s) with (queue (with_in_flight (saturating_add (in_flight s) 1) s)).
    rewrite Hq. solve_Permutation.
  - intros p. rewrite app_nil_r. rewrite (Hserved p). done.
Qed.

Lemma cancel_ok id_ s e s' : wf_queue s -> apply_op (Cancel id_) s = (e, s') -> op_ok s e s'.
Proof.
  intros Hwf. cbn. destruct (cancel id_ s) as [[w s1]|] eqn:E.
  2: { intros [= <- <-]. by apply op_ok_quiet. }
  intros [= <- <-]. unfold cancel in E. apply bind_Some in E as (i & _ & Er).
  pose proof (wf_remove _ _ _ _ Hwf Er) as Hwf'. apply remove_spec in Er as (l1 & l2 & Hq & _ & Hs1).
  assert (Hq1 : queue s1 = l1 ++ l2) by (rewrite Hs1; by destruct (priority w)).
  apply op_ok_returned; [done| |]; rewrite Hq, Hq1; [solve_Permutation|].
  apply sublist_app; [done|]. by apply sublist_cons.
Qed.

Lemma apply_op_ok o s e s' : wf_queue s -> apply_op o s = (e, s') -> op_ok s e s'.
Proof.
  intros Hwf. destruct o; [by apply push_ok|by apply pop_ok|by apply cancel_ok|..]; cbn; intros [= <- <-].
  - apply op_ok_returned; [by apply (wf_drain_all (with_flags true _ s)), wf_with_flags|done|apply sublist_nil_l].
  - apply op_ok_returned; [by apply (wf_drain_all (with_flags _ true s)), wf_with_flags|done|apply sublist_nil_l].
  - apply op_ok_quiet; [by apply wf_with_flags | done].
  - apply op_ok_quiet; [|done]. apply wf_with_in_flight; [done|]. apply saturating_in_range, Hwf.
  - unfold push_control. destruct (closed s); cbn; apply op_ok_quiet; try done. by apply wf_with_controls.
  - apply op_ok_returned; [by apply wf_close_background| |apply list_filter_sublist]. cbn.
    apply list_filter_split.
Qed.

Definition all_accepted (es : list effect) : list RemoteWork := es ≫= accepted.
Definition all_started (es : list effect) : list RemoteWork := es ≫= started.
Definition all_returned (es : list effect) : list RemoteWork := es ≫= returned.

Lemma apply_ops_ok os s es s' :
  wf_queue s -> apply_ops os s = (es, s') ->
  wf_queue s' /\
  queue s ++ all_accepted es ≡ₚ queue s' ++ all_started es ++ all_returned es /\
  forall p, sublist (class p (all_started es) ++ class p (queue s')) (class p (queue s ++ all_accepted es)).
Proof.
  revert s es. induction os as [|o os IH]; intros s es Hwf; cbn [apply_ops].
  - intros [= <- <-]. cbn. split; [done|]. split; [done|]. intros p. by rewrite app_nil_r.
  - destruct (apply_op o s) as [e s1] eqn:E1. destruct (apply_ops os s1) as [es' s2] eqn:E2. intros [= <- <-].
    destruct (apply_op_ok _ _ _ _ Hwf E1) as [Hwf1 Hc1 Ho1]. destruct (IH _ _ Hwf1 E2) as (Hwf2 & Hc2 & Ho2).
    unfold all_accepted, all_started, all_returned in *. cbn. split; [done|]. split.
    + rewrite app_assoc, Hc1. transitivity ((queue s1 ++ (es' ≫= accepted)) ++ started e ++ returned e); [solve_Permutation|].
      rewrite Hc2. solve_Permutation.
    + intros p. rewrite !class_app, <- !app_assoc. etrans; [apply sublist_app; [reflexivity | apply Ho2]|].
      rewrite !class_app, !app_assoc. apply sublist_app; [|done]. specialize (Ho1 p). by rewrite class_app in Ho1.
Qed.

Lemma pop_no_overtaking s w s' :
  wf_queue s -> pop_worker_item s = (PopWork w, s') ->
  exists l1 l2, queue s = l1 ++ w :: l2 /\ queue s' = l1 ++ l2 /\ Forall (fun x => blocks_later x w = false) l1.
Proof.
  intros Hwf. rewrite (pop_spec s Hwf). destruct (controls s); [|done].
  destruct (maintenance_paused s); [by destruct (closed s)|].
  destruct (match position is_interactive (queue s) with Some _ => _ | None => _ end) as [i|] eqn:Ei; [|by destruct (closed s)].
  destruct (remove i _) as [[w1 s1]|] eqn:Er; [|by destruct (closed s)]. intros [= <- <-].
  apply remove_spec in Er as (l1 & l2 & Hq & Hl & Hs1). cbn in Hq. exists l1, l2. split; [done|].
  split; [rewrite Hs1; by destruct (priority w1)|].
  destruct (position is_interactive (queue s)) as [j|] eqn:E.
  - injection Ei as ->. apply position_spec in E as (k1 & x & k2 & Hk & Hlen & Hx & Hk1).
    rewrite Hq in Hk. apply app_inj_1 in Hk as [-> [= -> ->]]; [|congruence].
    pose proof (wf_yields _ Hwf) as Hy. rewrite Hq in Hy. apply ForallOrdPairs_before in Hy.
    rewrite List.Forall_forall in *. intros y Hin. apply (Hy y Hin); [by apply not_interactive, Hk1|].
    by apply bool_decide_eq_true in Hx.
  - destruct (bool_decide (queue s = [])); [done|]. injection Ei as <-. by destruct l1.
Qed.

(** The states a new queue reaches. *)
Definition queue_after (i b : Z) (os : list op) : list effect * RemoteQueueState Control :=
  apply_ops os (RemoteQueue_new i b).

Lemma queue_after_wf i b os : 0 <= i -> 0 <= b -> wf_queue (queue_after i b os).2.
Proof.
  intros Hi Hb. unfold queue_after. destruct (apply_ops os _) as [es s'] eqn:E.
  by destruct (apply_ops_ok _ _ _ _ (wf_new i b Hi Hb) E).
Qed.

Lemma remove_at l1 x l2 s : queue s = l1 ++ x :: l2 -> exists s', remove (length l1) s = Some (x, s').
Proof. intros Hq. eexists. apply remove_spec. by exists l1, l2. Qed.

Lemma no_interactive l : Forall (fun w => is_interactive w = false) l -> class Interactive l = [].
Proof.
  induction 1 as [|y l Hy _ IH]; [done|]. cbn.
  change (in_class Interactive y) with (is_interactive y). by rewrite Hy.
Qed.

(** Note (queue invariant).  After any sequence of operations the counters equal the
    number of queued items of each class and stay within the capacities, and no
    background item stands before an interactive item it could block. *)
Theorem queue_invariant i b os :
  0 <= i -> 0 <= b -> wf_queue (queue_after i b os).2.
Proof. apply queue_after_wf. Qed.

(** Note (interactive work first).  In every reachable state, a worker that may take work
    takes the oldest interactive item if there is one, and otherwise the oldest item:
    the search for a conflicting background item in [next_ready_index] never finds one,
    because enqueueing an interactive request already cancelled it. *)
Theorem interactive_work_first i b os :
  0 <= i -> 0 <= b ->
  let s := (queue_after i b os).2 in
  controls s = [] -> maintenance_paused s = false -> queue s <> [] ->
  exists w s', pop_worker_item s = (PopWork w, s') /\
    match class Interactive (queue s) with
    | first :: _ => w = first
    | [] => head (queue s) = Some w
    end.
Proof.
  intros Hi Hb s Hc Hm Hq. pose proof (queue_after_wf i b os Hi Hb) as Hwf. fold s in Hwf. clearbody s.
  rewrite (pop_spec s Hwf), Hc, Hm. set (s1 := with_in_flight _ s).
  destruct (position is_interactive (queue s)) as [j|] eqn:E.
  - apply position_spec in E as (l1 & x & l2 & Hl & <- & Hx & Hl1).
    destruct (remove_at l1 x l2 s1 Hl) as [s' ->]. exists x, s'. split; [done|].
    rewrite Hl, class_app, no_interactive by done. cbn.
    change (in_class Interactive x) with (is_interactive x). by rewrite Hx.
  - rewrite bool_decide_eq_false_2 by done. destruct (queue s) as [|w l] eqn:El; [done|].
    destruct (remove_at [] w l s1 El) as [s' Hr]. cbn [length] in Hr. rewrite Hr. exists w, s'. split; [done|].
    apply position_None in E. by rewrite no_interactive.
Qed.

(** Note (no overtaking).  The item a worker takes never overtakes an earlier queued item
    whose effect on content it would observe. *)
Theorem pop_never_overtakes_conflict i b os w s' :
  0 <= i -> 0 <= b -> pop_worker_item (queue_after i b os).2 = (PopWork w, s') ->
  exists l1 l2, queue (queue_after i b os).2 = l1 ++ w :: l2 /\ queue s' = l1 ++ l2 /\
    Forall (fun x => blocks_later x w = false) l1.
Proof.
  intros Hi Hb. pose proof (queue_after_wf i b os Hi Hb) as Hwf. set (s := (queue_after i b os).2) in *. clearbody s.
  apply (pop_no_overtaking s w s' Hwf).
Qed.

(** Note (no work lost).  Over any sequence of operations, the accepted requests are, as a
    multiset, those still queued, those started and those handed back for a response;
    and within each class, requests start in the order they were accepted, whatever was
    cancelled in between. *)
Theorem queue_conserves_work i b os :
  0 <= i -> 0 <= b ->
  let '(es, s) := queue_after i b os in
  all_accepted es ≡ₚ queue s ++ all_started es ++ all_returned es /\
  forall p, sublist (class p (all_started es) ++ class p (queue s)) (class p (all_accepted es)).
Proof.
  intros Hi Hb. unfold queue_after. destruct (apply_ops os _) as [es s'] eqn:E.
  by destruct (apply_ops_ok _ _ _ _ (wf_new i b Hi Hb) E) as (_ & ? & ?).
Qed.

(** Note (enqueueing).  A request is refused exactly when the queue is closed, in
    maintenance, or full for its class; an accepted interactive request cancels
    exactly the queued background requests whose hazard conflicts with what it reads,
    and keeps every other request in order. *)
Theorem try_push_exact i b os w :
  0 <= i -> 0 <= b ->
  let s := (queue_after i b os).2 in
  match try_push w s with
  | Err w' => w' = w /\
      (closed s = true \/ maintenance_paused s = true \/
       (priority w = Interactive /\ zlen (class Interactive (queue s)) = interactive_capacity s) \/
       (priority w = Background /\ zlen (class Background (queue s)) = background_capacity s))
  | Ok (canceled, s') =>
      closed s = false /\ maintenance_paused s = false /\
      (priority w = Interactive ->
         canceled = List.filter (canceled_by w) (queue s) /\
         queue s' = List.filter (fun x => negb (canceled_by w x)) (queue s) ++ [w]) /\
      (priority w = Background -> canceled = [] /\ queue s' = queue s ++ [w])
  end.
Proof.
  intros Hi Hb s. pose proof (queue_after_wf i b os Hi Hb) as Hwf. fold s in Hwf.
  clearbody s. rewrite (try_push_spec w s Hwf). destruct Hwf as [Hil Hbl [Hci Hcb] _ _].
  destruct (closed s) eqn:Ec; [by split; [|left]|].
  destruct (maintenance_paused s) eqn:Em; [by split; [|right; left]|]. cbn [orb].
  destruct (priority w) eqn:Ep; rewrite Z.geb_leb.
  - destruct (Z.leb_spec (interactive_capacity s) (interactive_len s)).
    + split; [done|]. right. right. left. split; [done | lia].
    + split; [done|]. split; [done|]. split; [done | intros; congruence].
  - destruct (Z.leb_spec (background_capacity s) (background_len s)).
    + split; [done|]. right. right. right. split; [done | lia].
    + split; [done|]. split; [done|]. split; [intros; congruence | done].
Qed.

(** An empty queue that takes nothing. *)
Definition gated (keep : RemoteQueueState Control -> bool) s : Prop := queue s = [] /\ keep s = true.

Lemma gated_op (keep : RemoteQueueState Control -> bool) o s e s' :
  keep = closed \/ (keep = maintenance_paused /\ o <> EndMaintenance) ->
  gated keep s -> apply_op o s = (e, s') -> accepted e = [] /\ started e = [] /\ gated keep s'.
Proof.
  intros Hkeep [Hq Hk]. assert (Hpush : closed s || maintenance_paused s = true)
    by (destruct Hkeep as [->|[-> _]]; rewrite Hk; [done | apply orb_true_r]).
  destruct o; cbn.
  - unfold try_push. rewrite Hpush. cbn. intros [= <- <-]. done.
  - unfold pop_worker_item. destruct (controls s).
    + unfold next_ready_index. rewrite Hq. cbn. destruct (maintenance_paused s), (closed s); intros [= <- <-]; done.
    + intros [= <- <-]. cbn. split; [done|]. split; [done|]. split; [done|]. by destruct Hkeep as [->|[-> _]].
  - unfold cancel. rewrite Hq. cbn. intros [= <- <-]. done.
  - intros [= <- <-]. split; [done|]. split; [done|]. split; [done|]. by destruct Hkeep as [->|[-> _]].
  - intros [= <- <-]. split; [done|]. split; [done|]. split; [done|]. by destruct Hkeep as [->|[-> _]].
  - intros [= <- <-]. split; [done|]. split; [done|]. split; [done|]. by destruct Hkeep as [->|[_ ?]].
  - intros [= <- <-]. split; [done|]. split; [done|]. split; [done|]. by destruct Hkeep as [->|[-> _]].
  - unfold push_control. destruct (closed s) eqn:Ec; intros [= <- <-]; cbn; (split; [done|]); (split; [done|]); (split; [done|]).
    + done.
    + destruct Hkeep as [->|[-> _]]; cbn; congruence.
  - rewrite Hq. intros [= <- <-]. split; [done|]. split; [done|]. split; [done|]. by destruct Hkeep as [->|[-> _]].
Qed.

Lemma gated_ops (keep : RemoteQueueState Control -> bool) os s es s' :
  keep = closed \/ (keep = maintenance_paused /\ Forall (fun o => o <> EndMaintenance) os) ->
  gated keep s -> apply_ops os s = (es, s') -> all_accepted es = [] /\ all_started es = [] /\ gated keep s'.
Proof.
  revert s es. induction os as [|o os IH]; intros s es Hkeep Hg; cbn [apply_ops].
  - intros [= <- <-]. done.
  - destruct (apply_op o s) as [e s1] eqn:E1. destruct (apply_ops os s1) as [es' s2] eqn:E2. intros [= <- <-].
    assert (H1 : keep = closed \/ (keep = maintenance_paused /\ o <> EndMaintenance))
      by (destruct Hkeep as [?|[? [? _]%Forall_cons]]; auto).
    assert (H2 : keep = closed \/ (keep = maintenance_paused /\ Forall (fun o => o <> EndMaintenance) os))
      by (destruct Hkeep as [?|[? [_ ?]%Forall_cons]]; auto).
    destruct (gated_op _ _ _ _ _ H1 Hg E1) as (Ha & Hs & Hg1). destruct (IH _ _ H2 Hg1 E2) as (Ha' & Hs' & Hg2).
    unfold all_accepted, all_started in *. cbn. by rewrite Ha, Hs, Ha', Hs'.
Qed.

(** Note (maintenance and shutdown).  After maintenance begins, and until it ends, the
    queue accepts and starts nothing and stays empty, so the lanes drain; after a
    shutdown this holds for ever, and a worker that asks for work is told to stop. *)
Theorem queue_gates s os es s' :
  (Forall (fun o => o <> EndMaintenance) os ->
     apply_ops os (begin_maintenance_and_drain s).2 = (es, s') ->
     all_accepted es = [] /\ all_started es = [] /\ queue s' = []) /\
  (apply_ops os (shutdown_and_drain s).2 = (es, s') ->
     all_accepted es = [] /\ all_started es = [] /\ queue s' = [] /\
     (controls s' = [] -> pop_worker_item s' = (PopClosed, s'))).
Proof.
  split.
  - intros Hos E.
    assert (Hg : gated maintenance_paused (begin_maintenance_and_drain s).2) by done.
    by destruct (gated_ops maintenance_paused _ _ _ _ (or_intror (conj eq_refl Hos)) Hg E) as (? & ? & [? _]).
  - intros E. assert (Hg : gated closed (shutdown_and_drain s).2) by done.
    destruct (gated_ops closed _ _ _ _ (or_introl eq_refl) Hg E) as (? & ? & [Hq Hc]).
    split; [done|]. split; [done|]. split; [done|]. intros Hn. unfold pop_worker_item. rewrite Hn, Hc.
    destruct (maintenance_paused s'); [done|]. unfold next_ready_index. by rewrite Hq.
Qed.

End QueueProps.

(** ** A concrete history, for the witnesses *)

Definition demo_request (id_ : Z) (m path : string) : ClientRequest :=
  {| req_id := id_; method := B m; params := VObject [(B"path", VString (B path)); (B"paths", VArray [VString (B path)])] |}.
Definition demo_work (r : ClientRequest) : RemoteWork :=
  {| request := r; hazard := hazard_for_request r; priority := priority_for_request r; lane := LaneRead;
     write_hazard_registered := false |}.
(** Two prefetches are queued; opening the first file cancels its prefetch. *)
Definition demo_ops : list (op (Control := unit)) :=
  [Push (demo_work (demo_request 1 "prefetch" "a.rs")); Push (demo_work (demo_request 2 "prefetch" "b.rs"));
   Push (demo_work (demo_request 3 "open" "a.rs"))].

Lemma demo_ops_cancel :
  (fun e => (fun w => req_id (request w)) <$> returned e) <$> (queue_after 4 4 demo_ops).1 = [[]; []; [1]] /\
  (fun w => req_id (request w)) <$> queue (queue_after 4 4 demo_ops).2 = [2; 3].
Proof. by vm_compute. Qed.

Lemma queue_invariant_witness : wf_queue (queue_after 4 4 demo_ops).2.
Proof. apply queue_invariant; lia. Defined.

Lemma interactive_work_first_witness :
  exists w s', pop_worker_item (queue_after 4 4 demo_ops).2 = (PopWork w, s') /\ req_id (request w) = 3.
Proof.
  destruct (interactive_work_first 4 4 demo_ops) as (w & s' & Hp & Hw); [lia|lia|done|done|by vm_compute|].
  exists w, s'. split; [exact Hp|]. vm_compute in Hw. by rewrite Hw.
Defined.

Lemma queue_conserves_work_witness :
  all_accepted (queue_after 4 4 demo_ops).1 ≡ₚ
    queue (queue_after 4 4 demo_ops).2 ++ all_started (queue_after 4 4 demo_ops).1 ++
    all_returned (queue_after 4 4 demo_ops).1.
Proof.
  pose proof (queue_conserves_work 4 4 demo_ops ltac:(lia) ltac:(lia)) as H.
  destruct (queue_after 4 4 demo_ops) as [es s]. exact (proj1 H).
Defined.

Lemma try_push_exact_witness :
  match try_push (demo_work (demo_request 4 "open" "b.rs")) (queue_after 4 4 demo_ops).2 with
  | Ok (canceled, _) => (fun w => req_id (request w)) <$> canceled = [2]
  | Err _ => False
  end.
Proof.
  pose proof (try_push_exact 4 4 demo_ops (demo_work (demo_request 4 "open" "b.rs")) ltac:(lia) ltac:(lia)) as H.
  cbv zeta in H. destruct (try_push _ _) as [[c s']|] eqn:E; [|by vm_compute in E].
  destruct H as (_ & _ & H & _). destruct (H eq_refl) as [-> _]. by vm_compute.
Defined.

Lemma queue_gates_witness :
  queue (apply_ops [Push (demo_work (demo_request 4 "open" "b.rs")); Pop]
    (begin_maintenance_and_drain (queue_after 4 4 demo_ops).2).2).2 = [].
Proof.
  refine (proj2 (proj2 (proj1 (queue_gates (queue_after 4 4 demo_ops).2
    [Push (demo_work (demo_request 4 "open" "b.rs")); Pop] _ _) _ eq_refl))).
  by repeat constructor.
Defined.

Lemma pop_never_overtakes_conflict_witness :
  exists w s' l1 l2, pop_worker_item (queue_after 4 4 demo_ops).2 = (PopWork w, s') /\
    queue (queue_after 4 4 demo_ops).2 = l1 ++ w :: l2 /\ Forall (fun x => blocks_later x w = false) l1.
Proof.
  destruct (pop_worker_item (queue_after 4 4 demo_ops).2) as [r s'] eqn:E.
  destruct r as [|w| |]; try (by vm_compute in E).
  destruct (pop_never_overtakes_conflict 4 4 demo_ops w s' ltac:(lia) ltac:(lia) E) as (l1 & l2 & Hq & _ & Hf).
  exists w, s', l1, l2. split; [reflexivity|]. split; [exact Hq | exact Hf].
Defined.
