(* ===== verification/Scheduler.v ===== *)
(** * The sidecar's request scheduler (crates/nrm-sidecar/src/main.rs)

    [run_server_session] reads requests on one thread and hands those that need the
    agent to a read lane and a write lane, each a [RemoteQueue] with one worker
    thread.  Two [PendingRemote] tables, shared by the three threads, record the
    content that outstanding requests may change.  The steps below are the threads'
    lock-protected actions; any interleaving of them is a run. *)
From S2P Require Import Prelude Paths Json RemoteQueue RemoteQueueProps.

(** ** State *)

(** [clearing] is work drained, cancelled or refused, whose hazards a thread is about
    to clear, with whether it is answered; [responses] is the requests that left the
    scheduler, with whether they were answered; [ended] is a shutdown request. *)
Record session := {
  read_queue : RemoteQueueState unit;
  write_queue : RemoteQueueState unit;
  pending_remote : PendingRemote;
  pending_writes : PendingRemote;
  submitting : option RemoteWork;
  clearing : list (RemoteWork * bool);
  read_worker : option RemoteWork;
  write_worker : option RemoteWork;
  responses : list (Z * bool);
  ended : bool }.

Definition new_session : session := {|
  read_queue := RemoteQueue_new REMOTE_INTERACTIVE_QUEUE_CAPACITY REMOTE_BACKGROUND_QUEUE_CAPACITY;
  write_queue := RemoteQueue_new REMOTE_INTERACTIVE_QUEUE_CAPACITY REMOTE_BACKGROUND_QUEUE_CAPACITY;
  pending_remote := PendingRemote_default; pending_writes := PendingRemote_default;
  submitting := None; clearing := []; read_worker := None; write_worker := None;
  responses := []; ended := false |}.

Definition lane_queue (l : RemoteLane) (st : session) : RemoteQueueState unit :=
  match l with LaneRead => read_queue st | LaneWrite => write_queue st end.
Definition lane_worker (l : RemoteLane) (st : session) : option RemoteWork :=
  match l with LaneRead => read_worker st | LaneWrite => write_worker st end.

(** A change of one lane's queue and worker and of the work in the threads' hands. *)
Definition update (l : RemoteLane) (q : RemoteQueueState unit) (worker : option RemoteWork)
    (sub : option RemoteWork) (clr : list (RemoteWork * bool)) (st : session) : session := {|
  read_queue := match l with LaneRead => q | LaneWrite => read_queue st end;
  write_queue := match l with LaneWrite => q | LaneRead => write_queue st end;
  pending_remote := pending_remote st; pending_writes := pending_writes st;
  submitting := sub; clearing := clr;
  read_worker := match l with LaneRead => worker | LaneWrite => read_worker st end;
  write_worker := match l with LaneWrite => worker | LaneRead => write_worker st end;
  responses := responses st; ended := ended st |}.
Definition with_tables (p w : PendingRemote) (resp : list (Z * bool)) (st : session) : session := {|
  read_queue := read_queue st; write_queue := write_queue st; pending_remote := p; pending_writes := w;
  submitting := submitting st; clearing := clearing st; read_worker := read_worker st;
  write_worker := write_worker st; responses := resp; ended := ended st |}.
Definition with_ended (st : session) : session := {|
  read_queue := read_queue st; write_queue := write_queue st; pending_remote := pending_remote st;
  pending_writes := pending_writes st; submitting := submitting st; clearing := clearing st;
  read_worker := read_worker st; write_worker := write_worker st; responses := responses st; ended := true |}.

(** ** The threads' actions *)

(** The deferred branch of the request loop, up to the queue: the hazard, the lane and
    the registrations. *)
Definition make_work (r : ClientRequest) (st : session) : RemoteWork := {|
  request := r; hazard := hazard_for_request r; priority := priority_for_request r;
  lane := lane_for_request r (pending_writes st); write_hazard_registered := request_is_write_lane r |}.
Definition submit (r : ClientRequest) (st : session) : session :=
  let work := make_work r st in
  update LaneRead (read_queue st) (read_worker st) (Some work) (clearing st)
    (with_tables (register (pending_remote st) (hazard work))
       (if write_hazard_registered work then register (pending_writes st) (hazard work) else pending_writes st)
       (responses st) st).

(** [try_push] on the queue of the work's lane; what it cancelled or refused is then
    cleared and answered. *)
Definition enqueue (work : RemoteWork) (st : session) : session :=
  let q := lane_queue (lane work) st in
  match try_push work q with
  | Ok (canceled, q') =>
      update (lane work) q' (lane_worker (lane work) st) None ((fun w => (w, true)) <$> canceled) st
  | Err work => update (lane work) q (lane_worker (lane work) st) None [(work, true)] st
  end.

(** [clear_pending_hazard], then the response. *)
Definition clear_hazard (w : RemoteWork) (answer : bool) (st : session) : session :=
  with_tables (clear (pending_remote st) (hazard w))
    (if write_hazard_registered w then clear (pending_writes st) (hazard w) else pending_writes st)
    (responses st ++ [(req_id (request w), answer)]) st.

(** [cancel_queued_request] on the read queue, else on the write queue. *)
Definition cancel_queued (id_ : Z) (st : session) : session :=
  match cancel id_ (read_queue st) with
  | Some (w, q) => update LaneRead q (read_worker st) (submitting st) [(w, true)] st
  | None =>
      match cancel id_ (write_queue st) with
      | Some (w, q) => update LaneWrite q (write_worker st) (submitting st) [(w, true)] st
      | None => st
      end
  end.

(** Draining one lane: [begin_maintenance_and_drain] answers what it drains,
    [shutdown_and_drain] and [close_and_drain_background] do not. *)
Definition drain_lane (drain : RemoteQueueState unit -> list RemoteWork * RemoteQueueState unit) (answer : bool)
    (l : RemoteLane) (st : session) : session :=
  let '(works, q) := drain (lane_queue l st) in
  update l q (lane_worker l st) (submitting st) (clearing st ++ ((fun w => (w, answer)) <$> works)) st.

(** The worker thread takes an item and, when it has handled it, clears its hazard,
    answers, and leaves the in-flight count. *)
Definition worker_take (l : RemoteLane) (st : session) : session :=
  match pop_worker_item (lane_queue l st) with
  | (PopWork w, q) => update l q (Some w) (submitting st) (clearing st) st
  | (_, q) => update l q (lane_worker l st) (submitting st) (clearing st) st
  end.
Definition worker_finish (w : RemoteWork) (answer : bool) (l : RemoteLane) (st : session) : session :=
  let st := clear_hazard w answer st in
  update l (finish_started (lane_queue l st)) None (submitting st) (clearing st) st.

(** One action; the label is the request taken from the client, if any. *)
Inductive session_step (st : session) : option ClientRequest -> session -> Prop :=
| step_submit r :
    submitting st = None -> clearing st = [] -> ended st = false -> session_step st (Some r) (submit r st)
| step_enqueue work :
    submitting st = Some work -> clearing st = [] -> session_step st None (enqueue work st)
| step_clear w answer rest :
    clearing st = (w, answer) :: rest ->
    session_step st None (clear_hazard w answer
      (update LaneRead (read_queue st) (read_worker st) (submitting st) rest st))
| step_cancel id_ : submitting st = None -> clearing st = [] -> session_step st None (cancel_queued id_ st)
| step_maintenance l :
    submitting st = None -> session_step st None (drain_lane begin_maintenance_and_drain true l st)
| step_end_maintenance l :
    session_step st None
      (update l (end_maintenance (lane_queue l st)) (lane_worker l st) (submitting st) (clearing st) st)
| step_end : submitting st = None -> session_step st None (with_ended st)
| step_shutdown l :
    ended st = true -> session_step st None (drain_lane shutdown_and_drain false l st)
| step_close l :
    ended st = true -> session_step st None (drain_lane close_and_drain_background false l st)
| step_take l : lane_worker l st = None -> session_step st None (worker_take l st)
| step_finish w l : lane_worker l st = Some w -> session_step st None (worker_finish w true l st)
(** a worker that sees the shutdown drops the item it took *)
| step_drop w l :
    lane_worker l st = Some w -> ended st = true -> session_step st None (worker_finish w false l st).

(** A run of the three threads, with the requests taken so far. *)
Inductive session_run : list ClientRequest -> session -> Prop :=
| run_new : session_run [] new_session
| run_step rs st o st' :
    session_run rs st -> session_step st o st' -> session_run (rs ++ option_list o) st'.

(** ** Accounting *)

(** Every request between its registration and the clearing of its hazard. *)
Definition outstanding (st : session) : list RemoteWork :=
  option_list (submitting st) ++ (clearing st).*1 ++ queue (read_queue st) ++ queue (write_queue st) ++
  option_list (read_worker st) ++ option_list (write_worker st).

Definition registered_writes (ws : list RemoteWork) : list RemoteWork := List.filter write_hazard_registered ws.

Record session_inv (st : session) : Prop := {
  inv_remote : represents (pending_remote st) (hazard <$> outstanding st);
  inv_writes : represents (pending_writes st) (hazard <$> registered_writes (outstanding st));
  inv_read_queue : wf_queue (read_queue st);
  inv_write_queue : wf_queue (write_queue st);
  inv_capacities : forall l, interactive_capacity (lane_queue l st) = REMOTE_INTERACTIVE_QUEUE_CAPACITY /\
    background_capacity (lane_queue l st) = REMOTE_BACKGROUND_QUEUE_CAPACITY }.

Definition work_id (w : RemoteWork) : Z := req_id (request w).

(** Every request taken is outstanding or has left, and left answered unless the
    session was ended; a lane is quiescent exactly when its worker is idle. *)
Record session_flow (rs : list ClientRequest) (st : session) : Prop := {
  flow_requests : req_id <$> rs ≡ₚ (responses st).*1 ++ (work_id <$> outstanding st);
  flow_answers : ended st = false ->
    Forall (fun r => r.2 = true) (clearing st) /\ Forall (fun r => r.2 = true) (responses st);
  flow_in_flight : forall l, in_flight (lane_queue l st) = zlen (option_list (lane_worker l st)) }.

#[export] Instance registered_writes_proper : Proper (Permutation ==> Permutation) registered_writes.
Proof. intros ws ws' H. by apply list_filter_perm. Qed.

Definition same_capacities (q q' : RemoteQueueState unit) : Prop :=
  interactive_capacity q' = interactive_capacity q /\ background_capacity q' = background_capacity q.

(** A step that moves work without touching the tables. *)
Lemma inv_move st st' :
  session_inv st -> pending_remote st' = pending_remote st -> pending_writes st' = pending_writes st ->
  outstanding st' ≡ₚ outstanding st -> wf_queue (read_queue st') -> wf_queue (write_queue st') ->
  (forall l, same_capacities (lane_queue l st) (lane_queue l st')) -> session_inv st'.
Proof.
  intros [Hr Hw _ _ Hc] Er Ew Ho ? ? Hcap. split; try done.
  - by rewrite Er, Ho.
  - by rewrite Ew, Ho.
  - intros l. destruct (Hcap l) as [-> ->]. apply Hc.
Qed.

(** The lane moves of [update]: the outstanding work up to order. *)
Lemma outstanding_update l q worker sub clr st :
  outstanding (update l q worker sub clr st) ≡ₚ
    option_list sub ++ clr.*1 ++ queue q ++ option_list worker ++
    match l with
    | LaneRead => queue (write_queue st) ++ option_list (write_worker st)
    | LaneWrite => queue (read_queue st) ++ option_list (read_worker st)
    end.
Proof. unfold outstanding. destruct l; cbn; solve_Permutation. Qed.

Lemma outstanding_lane l st :
  outstanding st ≡ₚ
    option_list (submitting st) ++ (clearing st).*1 ++ queue (lane_queue l st) ++ option_list (lane_worker l st) ++
    match l with
    | LaneRead => queue (write_queue st) ++ option_list (write_worker st)
    | LaneWrite => queue (read_queue st) ++ option_list (read_worker st)
    end.
Proof. unfold outstanding. destruct l; cbn; solve_Permutation. Qed.

Lemma inv_update l q worker sub clr st :
  session_inv st -> wf_queue q -> same_capacities (lane_queue l st) q ->
  option_list sub ++ clr.*1 ++ queue q ++ option_list worker ≡ₚ
    option_list (submitting st) ++ (clearing st).*1 ++ queue (lane_queue l st) ++ option_list (lane_worker l st) ->
  session_inv (update l q worker sub clr st).
Proof.
  intros Hinv Hq Hcap Hperm. pose proof (inv_read_queue _ Hinv). pose proof (inv_write_queue _ Hinv).
  apply (inv_move st); try done.
  - rewrite outstanding_update, (outstanding_lane l st).
    transitivity ((option_list sub ++ clr.*1 ++ queue q ++ option_list worker) ++
      match l with LaneRead => queue (write_queue st) ++ option_list (write_worker st)
                 | LaneWrite => queue (read_queue st) ++ option_list (read_worker st) end); [solve_Permutation|].
    rewrite Hperm. solve_Permutation.
  - by destruct l.
  - by destruct l.
  - intros l'. by destruct l, l'.
Qed.

Lemma inv_lane_wf l st : session_inv st -> wf_queue (lane_queue l st).
Proof. intros []. by destruct l. Qed.

Lemma fst_pairs {A B} (b : B) (l : list A) : ((fun a => (a, b)) <$> l).*1 = l.
Proof. induction l as [|a l IH]; cbn; [done|]. by f_equal. Qed.

(** Clearing the hazard of a piece of work that is no longer held. *)
Lemma inv_clear w answer st st' :
  session_inv st -> pending_remote st' = pending_remote st -> pending_writes st' = pending_writes st ->
  outstanding st ≡ₚ w :: outstanding st' -> wf_queue (read_queue st') -> wf_queue (write_queue st') ->
  (forall l, same_capacities (lane_queue l st) (lane_queue l st')) -> session_inv (clear_hazard w answer st').
Proof.
  intros [Hr Hw _ _ Hc] Er Ew Ho ? ? Hcap.
  assert (Hout : outstanding (clear_hazard w answer st') = outstanding st') by done.
  split; try done.
  - rewrite Hout. cbn. rewrite Er. apply represents_clear. by rewrite Ho in Hr.
  - rewrite Hout. cbn. rewrite Ew. rewrite Ho in Hw. unfold registered_writes in *. cbn [List.filter] in Hw.
    destruct (write_hazard_registered w); [by apply represents_clear | done].
  - intros l. replace (lane_queue l (clear_hazard w answer st')) with (lane_queue l st') by (by destruct l).
    destruct (Hcap l) as [-> ->]. apply Hc.
Qed.

(** How many requests can be outstanding when the reader takes the next one. *)
Lemma class_split_length l : zlen l = zlen (class Interactive l) + zlen (class Background l).
Proof.
  unfold class, in_class. induction l as [|w l IH]; [done|]. cbn [List.filter]. rewrite zlen_cons, IH.
  destruct (priority w); repeat case_bool_decide; try done; rewrite ?zlen_cons; lia.
Qed.

Lemma queue_length_bound l st : session_inv st -> zlen (queue (lane_queue l st)) <= 256.
Proof.
  intros Hinv. destruct (inv_lane_wf l st Hinv) as [Hi Hb [Hci Hcb] _ _].
  destruct (inv_capacities _ Hinv l) as [Ei Eb]. rewrite class_split_length. rewrite Ei, Eb in *.
  unfold REMOTE_INTERACTIVE_QUEUE_CAPACITY, REMOTE_BACKGROUND_QUEUE_CAPACITY in *. lia.
Qed.

Lemma option_list_length {A} (o : option A) : zlen (option_list o) <= 1.
Proof. by destruct o. Qed.

Lemma outstanding_bound st :
  session_inv st -> submitting st = None -> clearing st = [] -> zlen (outstanding st) <= 514.
Proof.
  intros Hinv Hs Hc. pose proof (queue_length_bound LaneRead st Hinv). pose proof (queue_length_bound LaneWrite st Hinv).
  unfold outstanding. rewrite Hs, Hc. cbn [app fmap list_fmap]. rewrite !zlen_app. cbn [lane_queue] in *.
  change (zlen (option_list (@None RemoteWork))) with 0.
  pose proof (option_list_length (read_worker st)). pose proof (option_list_length (write_worker st)). lia.
Qed.

Lemma zlen_fmap {A B} (f : A -> B) l : zlen (f <$> l) = zlen l.
Proof. unfold zlen. by rewrite length_fmap. Qed.

Lemma inv_submit r st :
  session_inv st -> submitting st = None -> clearing st = [] -> session_inv (submit r st).
Proof.
  intros Hinv Hs Hc. pose proof (outstanding_bound st Hinv Hs Hc) as Hb. destruct Hinv as [Hr Hw ? ? Hcap].
  assert (Hout : outstanding (submit r st) = make_work r st :: outstanding st)
    by (unfold outstanding, submit; cbn; by rewrite Hs).
  assert (Hfew : zlen (registered_writes (outstanding st)) <= zlen (outstanding st)).
  { unfold zlen, registered_writes. pose proof (List.filter_length_le write_hazard_registered (outstanding st)). lia. }
  split; try done.
  - rewrite Hout, fmap_cons. apply represents_register; [done|]. rewrite zlen_fmap. unfold u64_max. lia.
  - rewrite Hout. unfold registered_writes. cbn [List.filter]. cbn [submit update with_tables pending_writes].
    change (write_hazard_registered (make_work r st)) with (request_is_write_lane r).
    destruct (request_is_write_lane r); [|done]. rewrite fmap_cons. apply represents_register; [done|].
    rewrite zlen_fmap. unfold registered_writes, u64_max in *. lia.
Qed.

(** ** Capacities of the queue operations *)

Lemma remove_capacities i (q : RemoteQueueState unit) w q' :
  remove i q = Some (w, q') -> same_capacities q q'.
Proof. intros (l1 & l2 & _ & _ & ->)%remove_spec. by destruct (priority w). Qed.

Lemma try_push_capacities w (q : RemoteQueueState unit) c q' :
  wf_queue q -> try_push w q = Ok (c, q') -> same_capacities q q'.
Proof.
  intros Hwf. rewrite (try_push_spec w q Hwf). destruct (_ || _); [done|].
  destruct (priority w); destruct (_ >=? _); try done; by intros [= _ <-].
Qed.

Lemma pop_facts (q : RemoteQueueState unit) r q' :
  wf_queue q -> pop_worker_item q = (r, q') ->
  wf_queue q' /\ same_capacities q q' /\
  queue q ≡ₚ queue q' ++ match r with PopWork w => [w] | _ => [] end.
Proof.
  intros Hwf E. split; [by eapply wf_pop|]. unfold pop_worker_item in E. destruct (controls q).
  - destruct (maintenance_paused q); [injection E as <- <-; by destruct (closed q); rewrite app_nil_r|].
    destruct (next_ready_index q) as [i|]; [|injection E as <- <-; by destruct (closed q); rewrite app_nil_r].
    destruct (remove i _) as [[w q1]|] eqn:Er; [|injection E as <- <-; by destruct (closed q); rewrite app_nil_r].
    injection E as <- <-. split; [by apply remove_capacities in Er|].
    apply remove_spec in Er as (l1 & l2 & Hq & _ & ->). cbn in Hq. rewrite Hq.
    replace (queue _) with (l1 ++ l2) by (by destruct (priority w)). solve_Permutation.
  - injection E as <- <-. cbn. by rewrite app_nil_r.
Qed.

Lemma push_facts w (q : RemoteQueueState unit) :
  wf_queue q ->
  match try_push w q with
  | Ok (c, q') => wf_queue q' /\ same_capacities q q' /\ queue q ++ [w] ≡ₚ queue q' ++ c
  | Err w' => w' = w
  end.
Proof.
  intros Hwf. destruct (try_push w q) as [[c q']|w'] eqn:E.
  - split; [by eapply wf_push|]. split; [by eapply try_push_capacities|].
    pose proof (push_ok w q {| accepted := [w]; started := []; returned := c |} q' Hwf) as Hok.
    cbn in Hok. rewrite E in Hok. by destruct (Hok eq_refl) as [_ Hp _].
  - rewrite (try_push_spec w q Hwf) in E. destruct (_ || _); [congruence|].
    destruct (priority w); destruct (_ >=? _); congruence.
Qed.

Lemma cancel_facts id_ (q : RemoteQueueState unit) w q' :
  wf_queue q -> cancel id_ q = Some (w, q') ->
  wf_queue q' /\ same_capacities q q' /\ queue q ≡ₚ w :: queue q'.
Proof.
  intros Hwf E. unfold cancel in E. apply bind_Some in E as (i & _ & Er).
  split; [by eapply wf_remove|]. split; [by eapply remove_capacities|].
  apply remove_spec in Er as (l1 & l2 & -> & _ & ->).
  replace (queue _) with (l1 ++ l2) by (by destruct (priority w)). by rewrite Permutation_middle.
Qed.

(** What the draining operations have in common. *)
Definition drains (drain : RemoteQueueState unit -> list RemoteWork * RemoteQueueState unit) : Prop :=
  forall q, wf_queue q -> wf_queue (drain q).2 /\ same_capacities q (drain q).2 /\
    queue q ≡ₚ queue (drain q).2 ++ (drain q).1.

Lemma drains_maintenance : drains begin_maintenance_and_drain.
Proof. intros q Hwf. split; [by apply (wf_drain_all (with_flags _ true q)), wf_with_flags | done]. Qed.
Lemma drains_shutdown : drains shutdown_and_drain.
Proof. intros q Hwf. split; [by apply (wf_drain_all (with_flags true _ q)), wf_with_flags | done]. Qed.
Lemma drains_close : drains close_and_drain_background.
Proof.
  intros q Hwf. split; [by apply wf_close_background|]. split; [done|]. cbn. apply list_filter_split.
Qed.

Lemma inv_drain_lane drain answer l st :
  drains drain -> session_inv st -> session_inv (drain_lane drain answer l st).
Proof.
  intros Hd Hinv. unfold drain_lane. destruct (drain (lane_queue l st)) as [works q] eqn:E.
  destruct (Hd _ (inv_lane_wf l st Hinv)) as (Hwf & Hcap & Hp). rewrite E in *. cbn in *.
  apply inv_update; [done..|]. rewrite fmap_app, fst_pairs, Hp. solve_Permutation.
Qed.

Lemma inv_finish w answer l st :
  session_inv st -> lane_worker l st = Some w -> session_inv (worker_finish w answer l st).
Proof.
  intros Hinv Hl. pose proof (inv_read_queue _ Hinv). pose proof (inv_write_queue _ Hinv).
  assert (E : worker_finish w answer l st =
    clear_hazard w answer (update l (finish_started (lane_queue l st)) None (submitting st) (clearing st) st))
    by (by destruct l).
  rewrite E. apply (inv_clear w answer st); try done.
  - rewrite outstanding_update, (outstanding_lane l st), Hl. cbn. solve_Permutation.
  - destruct l; cbn; [|done]. apply wf_with_in_flight; [done|]. apply saturating_in_range, wf_in_flight, Hinv.
  - destruct l; cbn; [done|]. apply wf_with_in_flight; [done|]. apply saturating_in_range, wf_in_flight, Hinv.
  - intros l'. by destruct l, l'.
Qed.

(** ** Every action keeps the accounts *)

Lemma session_step_inv st o st' : session_inv st -> session_step st o st' -> session_inv st'.
Proof.
  intros Hinv Hstep. pose proof (inv_read_queue _ Hinv) as Hr. pose proof (inv_write_queue _ Hinv) as Hw.
  destruct Hstep as [r Hs Hc _|work Hs Hc|w answer rest Hc|id_ Hs Hc|l _|l| |l _|l _|l Hl|w l Hl|w l Hl _].
  - by apply inv_submit.
  - unfold enqueue. pose proof (push_facts work _ (inv_lane_wf (lane work) st Hinv)) as Hpush.
    destruct (try_push work (lane_queue (lane work) st)) as [[c q']|work'].
    + destruct Hpush as (Hwf & Hcap & Hp). apply inv_update; [done..|]. rewrite fst_pairs, Hs, Hc. cbn.
      transitivity ((queue q' ++ c) ++ option_list (lane_worker (lane work) st)); [solve_Permutation|].
      rewrite <- Hp. solve_Permutation.
    + subst work'. apply inv_update; [done|by apply inv_lane_wf|done|]. rewrite Hs, Hc. done.
  - apply (inv_clear w answer st); try done.
    unfold outstanding. rewrite Hc. cbn. by rewrite <- Permutation_middle.
  - unfold cancel_queued. destruct (cancel id_ (read_queue st)) as [[w q]|] eqn:E1.
    + destruct (cancel_facts _ _ _ _ Hr E1) as (? & ? & Hp). apply inv_update; [done..|].
      rewrite Hs, Hc. cbn. by rewrite Hp.
    + destruct (cancel id_ (write_queue st)) as [[w q]|] eqn:E2; [|done].
      destruct (cancel_facts _ _ _ _ Hw E2) as (? & ? & Hp). apply inv_update; [done..|].
      rewrite Hs, Hc. cbn. by rewrite Hp.
  - apply inv_drain_lane; [apply drains_maintenance | done].
  - apply inv_update; [done|apply wf_with_flags; by apply inv_lane_wf|done|done].
  - by destruct Hinv.
  - apply inv_drain_lane; [apply drains_shutdown | done].
  - apply inv_drain_lane; [apply drains_close | done].
  - unfold worker_take. destruct (pop_worker_item (lane_queue l st)) as [r q] eqn:E.
    destruct (pop_facts _ _ _ (inv_lane_wf l st Hinv) E) as (? & ? & Hp).
    destruct r; (apply inv_update; [done..|]); rewrite Hp, ?app_nil_r; try done. rewrite Hl. solve_Permutation.
  - by apply inv_finish.
  - by apply inv_finish.
Qed.

(** ** Every action keeps the flow of requests *)

Lemma remove_in_flight i (q : RemoteQueueState unit) w q' : remove i q = Some (w, q') -> in_flight q' = in_flight q.
Proof. intros (l1 & l2 & _ & _ & ->)%remove_spec. by destruct (priority w). Qed.

Lemma push_in_flight w (q : RemoteQueueState unit) c q' :
  wf_queue q -> try_push w q = Ok (c, q') -> in_flight q' = in_flight q.
Proof.
  intros Hwf. rewrite (try_push_spec w q Hwf). destruct (_ || _); [done|].
  destruct (priority w); destruct (_ >=? _); try done; by intros [= _ <-].
Qed.

Lemma pop_in_flight (q : RemoteQueueState unit) r q' :
  pop_worker_item q = (r, q') ->
  in_flight q' = match r with PopWork _ => saturating_add (in_flight q) 1 | _ => in_flight q end.
Proof.
  unfold pop_worker_item. destruct (controls q); [|by intros [= <- <-]].
  destruct (maintenance_paused q); [by destruct (closed q); intros [= <- <-]|].
  destruct (next_ready_index q) as [i|]; [|by destruct (closed q); intros [= <- <-]].
  destruct (remove i _) as [[w q1]|] eqn:Er; [|by destruct (closed q); intros [= <- <-]].
  intros [= <- <-]. by apply remove_in_flight in Er.
Qed.

Lemma flow_update rs l q worker sub clr st :
  session_flow rs st -> in_flight q = zlen (option_list worker) ->
  (ended st = false -> Forall (fun r => r.2 = true) clr) ->
  option_list sub ++ clr.*1 ++ queue q ++ option_list worker ≡ₚ
    option_list (submitting st) ++ (clearing st).*1 ++ queue (lane_queue l st) ++ option_list (lane_worker l st) ->
  session_flow rs (update l q worker sub clr st).
Proof.
  intros [Hr Ha Hf] Hq Hclr Hperm. split.
  - rewrite Hr. apply Permutation_app; [done|]. apply fmap_Permutation.
    rewrite outstanding_update, (outstanding_lane l st), !app_assoc. apply Permutation_app; [|done].
    rewrite <- !app_assoc. by symmetry.
  - intros He. split; [by apply Hclr | by apply Ha].
  - intros l'. destruct l, l'; try done; apply (Hf LaneRead) || apply (Hf LaneWrite).
Qed.

Lemma flow_clear rs w answer st st' :
  session_flow rs st -> responses st' = responses st -> ended st' = ended st ->
  outstanding st ≡ₚ w :: outstanding st' ->
  (ended st = false -> answer = true /\ Forall (fun r => r.2 = true) (clearing st')) ->
  (forall l, in_flight (lane_queue l st') = zlen (option_list (lane_worker l st'))) ->
  session_flow rs (clear_hazard w answer st').
Proof.
  intros [Hr Ha Hf] Er Ee Ho Hans Hf'. split.
  - rewrite Hr, Ho. cbn. rewrite Er, fmap_app, <- app_assoc. by rewrite fmap_cons.
  - cbn. rewrite Ee, Er. intros He. destruct (Hans He) as [-> ?]. split; [done|].
    apply Forall_app. split; [by apply Ha | by repeat constructor].
  - apply Hf'.
Qed.

Lemma flow_drain_lane rs drain answer l st :
  drains drain -> (forall q, in_flight (drain q).2 = in_flight q) -> (answer = true \/ ended st = true) ->
  session_inv st -> session_flow rs st -> session_flow rs (drain_lane drain answer l st).
Proof.
  intros Hd Hk Hans Hinv Hflow. unfold drain_lane. destruct (drain (lane_queue l st)) as [works q] eqn:E.
  destruct (Hd _ (inv_lane_wf l st Hinv)) as (_ & _ & Hp). specialize (Hk (lane_queue l st)). rewrite E in *. cbn in *.
  apply flow_update; [done| | |].
  - rewrite Hk. apply Hflow.
  - intros He. apply Forall_app. split; [by apply Hflow|]. destruct Hans as [->|?]; [|congruence].
    apply Forall_fmap. by apply Forall_true.
  - rewrite fmap_app, fst_pairs, Hp. solve_Permutation.
Qed.

Lemma flow_finish rs w answer l st :
  session_flow rs st -> lane_worker l st = Some w -> (answer = true \/ ended st = true) ->
  session_flow rs (worker_finish w answer l st).
Proof.
  intros Hflow Hl Hans.
  assert (E : worker_finish w answer l st =
    clear_hazard w answer (update l (finish_started (lane_queue l st)) None (submitting st) (clearing st) st))
    by (by destruct l).
  rewrite E. apply (flow_clear rs w answer st); try done.
  - rewrite outstanding_update, (outstanding_lane l st), Hl. cbn. solve_Permutation.
  - intros He. split; [destruct Hans; congruence | by apply Hflow].
  - assert (Hf : in_flight (finish_started (lane_queue l st)) = 0).
    { cbn. rewrite (flow_in_flight _ _ Hflow l), Hl. done. }
    intros l'. destruct l, l'; try done; apply (flow_in_flight _ _ Hflow LaneRead) || apply (flow_in_flight _ _ Hflow LaneWrite).
Qed.

Lemma flow_submit rs r st :
  session_flow rs st -> submitting st = None -> session_flow (rs ++ [r]) (submit r st).
Proof.
  intros [Hr Ha Hf] Hs.
  assert (Hout : outstanding (submit r st) = make_work r st :: outstanding st)
    by (unfold outstanding, submit; cbn; by rewrite Hs).
  split; [|done|].
  - rewrite fmap_app, Hr, Hout. cbn. solve_Permutation.
  - intros l. destruct l; [apply (Hf LaneRead) | apply (Hf LaneWrite)].
Qed.

Lemma session_step_flow rs st o st' :
  session_inv st -> session_flow rs st -> session_step st o st' -> session_flow (rs ++ option_list o) st'.
Proof.
  intros Hinv Hflow Hstep. pose proof (flow_in_flight _ _ Hflow) as Hf.
  destruct Hstep as [r Hs Hc _|work Hs Hc|w answer rest Hc|id_ Hs Hc|l _|l| |l He|l He|l Hl|w l Hl|w l Hl He];
    cbn [option_list]; rewrite ?app_nil_r.
  - by apply flow_submit.
  - unfold enqueue. pose proof (inv_lane_wf (lane work) st Hinv) as Hwf. pose proof (push_facts work _ Hwf) as Hpush.
    destruct (try_push work (lane_queue (lane work) st)) as [[c q']|work'] eqn:E.
    + destruct Hpush as (_ & _ & Hp). apply flow_update; [done|by rewrite (push_in_flight _ _ _ _ Hwf E)| |].
      * intros _. apply Forall_fmap. by apply Forall_true.
      * rewrite fst_pairs, Hs, Hc. cbn.
        transitivity ((queue q' ++ c) ++ option_list (lane_worker (lane work) st)); [solve_Permutation|].
        rewrite <- Hp. solve_Permutation.
    + subst work'. apply flow_update; [done|done|by repeat constructor|]. by rewrite Hs, Hc.
  - pose proof (flow_answers _ _ Hflow) as Ha. rewrite Hc in Ha. apply (flow_clear rs w answer st); try done.
    + unfold outstanding. rewrite Hc. cbn. by rewrite <- Permutation_middle.
    + intros He. by destruct (Ha He) as [[? ?]%Forall_cons _].
  - unfold cancel_queued. destruct (cancel id_ (read_queue st)) as [[w q]|] eqn:E1.
    + destruct (cancel_facts _ _ _ _ (inv_read_queue _ Hinv) E1) as (_ & _ & Hp).
      unfold cancel in E1. apply bind_Some in E1 as (i & _ & Er%remove_in_flight).
      apply flow_update; [done|rewrite Er; apply (Hf LaneRead)|by repeat constructor|]. rewrite Hs, Hc. cbn. by rewrite Hp.
    + destruct (cancel id_ (write_queue st)) as [[w q]|] eqn:E2; [|done].
      destruct (cancel_facts _ _ _ _ (inv_write_queue _ Hinv) E2) as (_ & _ & Hp).
      unfold cancel in E2. apply bind_Some in E2 as (i & _ & Er%remove_in_flight).
      apply flow_update; [done|rewrite Er; apply (Hf LaneWrite)|by repeat constructor|]. rewrite Hs, Hc. cbn. by rewrite Hp.
  - apply flow_drain_lane; auto using drains_maintenance.
  - apply flow_update; [done|apply Hf|by intros; apply Hflow|done].
  - destruct Hflow. by split.
  - apply flow_drain_lane; auto using drains_shutdown.
  - apply flow_drain_lane; auto using drains_close.
  - unfold worker_take. destruct (pop_worker_item (lane_queue l st)) as [r q] eqn:E.
    pose proof (pop_in_flight _ _ _ E) as Hfl. rewrite Hf, Hl in Hfl.
    destruct (pop_facts _ _ _ (inv_lane_wf l st Hinv) E) as (_ & _ & Hp).
    destruct r; (apply flow_update; [done| |by intros; apply Hflow|]); rewrite ?Hl; try (by rewrite Hfl);
      rewrite Hp, ?app_nil_r; (done || solve_Permutation).
  - apply flow_finish; auto.
  - apply flow_finish; auto.
Qed.

Lemma session_run_inv rs st : session_run rs st -> session_inv st /\ session_flow rs st.
Proof.
  induction 1 as [|rs st o st' _ [IH1 IH2] Hstep].
  - split; split; try done; try apply represents_default; try (by apply wf_new); by intros [].
  - split; [by eapply session_step_inv | by eapply session_step_flow].
Qed.

(** ** What the scheduler guarantees *)

Lemma existsb_fmap {A B} (f : A -> B) (p : B -> bool) l : existsb p (f <$> l) = existsb (fun a => p (f a)) l.
Proof. induction l as [|a l IH]; cbn; [done|]. by rewrite <- IH. Qed.

Lemma represents_nil p : represents p [] -> p = PendingRemote_default.
Proof.
  destruct p as [m u]. intros [Hm Hu]. cbn in *. unfold PendingRemote_default. f_equal; [|done].
  apply map_empty. intros path. apply Hm.
Qed.

(** C36 (hazards never leak).  Under every interleaving of the reader and the two workers,
    through cancellation, refusal, maintenance and shutdown, the shared table of pending
    hazards is exactly that of the requests still in the scheduler: the fast path is
    blocked for a path precisely while such a request may change it, and both tables are
    empty when no request is left. *)
Theorem session_hazards_exact rs st :
  session_run rs st ->
  (forall path, blocks_path (pending_remote st) path =
     existsb (fun w => unknown_content_mutation (hazard w) || bool_decide (path ∈ hazard_paths (hazard w))) (outstanding st)) /\
  (forall i, pending_conflicts (pending_writes st) i =
     existsb (fun w => hazard_conflicts (hazard w) i) (registered_writes (outstanding st))) /\
  (outstanding st = [] -> pending_remote st = PendingRemote_default /\ pending_writes st = PendingRemote_default).
Proof.
  intros [[Hr Hw _ _ _] _]%session_run_inv. split; [|split].
  - intros path. rewrite (blocks_path_spec _ _ path Hr). apply existsb_fmap.
  - intros i. rewrite (pending_conflicts_spec _ _ i Hw). apply existsb_fmap.
  - intros E. rewrite E in *. split; by apply represents_nil.
Qed.

(** Note (reads see pending writes).  A request sent to the read lane, other than a page of
    a running search, conflicts with no write that is still queued or running; so a read
    that must see a pending write is always behind it in the write lane. *)
Theorem read_lane_has_no_pending_conflict rs st r :
  session_run rs st -> lane (make_work r st) = LaneRead ->
  (is_method "grep" r = true /\ is_Some (param (B"session_id") r ≫= as_str)) \/
  Forall (fun w => write_hazard_registered w = true -> hazard_conflicts (hazard w) (interest_for_request r) = false)
    (outstanding st).
Proof.
  intros [[_ Hw _ _ _] _]%session_run_inv. cbn. unfold lane_for_request.
  destruct (request_is_write_lane r); [done|]. destruct (is_method "grep" r && _) eqn:Eg.
  { intros _. left. by to_prop. }
  rewrite (pending_conflicts_spec _ _ _ Hw), existsb_fmap. destruct (existsb _ _) eqn:E; [done|].
  intros _. right. apply existsb_false in E. rewrite List.Forall_forall in *. intros w Hin Hwr. apply E.
  by apply filter_In.
Qed.

(** Note (every request is answered once).  The requests taken from the client are, as a
    multiset, those still in the scheduler and those that left it; until the session is
    ended, every one that left was answered. *)
Theorem requests_answered_once rs st :
  session_run rs st ->
  req_id <$> rs ≡ₚ (responses st).*1 ++ (work_id <$> outstanding st) /\
  (ended st = false -> Forall (fun r => r.2 = true) (responses st)).
Proof. intros [_ [Hr Ha _]]%session_run_inv. split; [done|]. intros He. by apply Ha. Qed.

(** Note (quiescence).  The in-flight count that maintenance waits on is zero exactly when
    the lane's worker holds no request, so an agent is replaced only while no request
    uses it. *)
Theorem quiescent_iff_worker_idle rs st l :
  session_run rs st -> is_quiescent (lane_queue l st) = true <-> lane_worker l st = None.
Proof.
  intros [_ [_ _ Hf]]%session_run_inv. unfold is_quiescent. rewrite (Hf l), Z.eqb_eq.
  by destruct (lane_worker l st).
Qed.

(** ** A concrete run *)

Definition demo_flush : ClientRequest := demo_request 1 "flush_queued" "a.rs".
Definition demo_open : ClientRequest := demo_request 2 "open" "a.rs".
Definition demo_st1 : session := submit demo_flush new_session.
Definition demo_st2 : session := enqueue (make_work demo_flush new_session) demo_st1.
Definition demo_st3 : session := worker_take LaneWrite demo_st2.

Lemma demo_run : session_run [demo_flush] demo_st3.
Proof.
  apply (run_step [demo_flush] demo_st2 None); [|by apply (step_take demo_st2 LaneWrite)].
  apply (run_step [demo_flush] demo_st1 None); [|by apply (step_enqueue demo_st1)].
  apply (run_step [] new_session (Some demo_flush)); [constructor | by apply step_submit].
Qed.

(** The save is running; opening the same file goes to the write lane, another file
    to the read lane. *)
Lemma demo_lanes :
  lane (make_work demo_open demo_st3) = LaneWrite /\
  lane (make_work (demo_request 3 "open" "b.rs") demo_st3) = LaneRead.
Proof. by vm_compute. Qed.

Lemma session_hazards_exact_witness : blocks_path (pending_remote demo_st3) (B"a.rs") = true.
Proof.
  destruct (session_hazards_exact _ _ demo_run) as (H & _ & _). rewrite H. by vm_compute.
Defined.

Lemma read_lane_has_no_pending_conflict_witness :
  Forall (fun w => write_hazard_registered w = true ->
            hazard_conflicts (hazard w) (interest_for_request (demo_request 3 "open" "b.rs")) = false)
    (outstanding demo_st3).
Proof.
  destruct (read_lane_has_no_pending_conflict _ _ (demo_request 3 "open" "b.rs") demo_run) as [[H _]|H].
  - by vm_compute.
  - by vm_compute in H.
  - exact H.
Defined.

Lemma requests_answered_once_witness : [1] ≡ₚ (responses demo_st3).*1 ++ (work_id <$> outstanding demo_st3).
Proof. exact (proj1 (requests_answered_once _ _ demo_run)). Defined.

Lemma quiescent_iff_worker_idle_witness : is_quiescent (lane_queue LaneWrite demo_st3) = true -> lane_worker LaneWrite demo_st3 = None.
Proof. exact (proj1 (quiescent_iff_worker_idle _ _ LaneWrite demo_run)). Defined.
