(* ===== verification/MirrorDb.v ===== *)
(** * The mirror's store (nrm-sidecar/src/main.rs, [Mirror])

    The sidecar keeps one SQLite database and three directories per workspace:
    the mirrored files, the snapshots of queued saves and the remote copies of
    conflicts.  This file holds the tables as data, the calls to SQLite and to
    the file system with the ways they fail, the transaction wrapper and the
    durable file replacement that every operation of the mirror is built from.

    A call fails when the state's schedule of faults says so: [Fail] is an
    error of the call alone, [FailRollback] an error for which SQLite itself
    gives up the open transaction.  SQL statements are written out as functions
    on the tables. *)
From S2P Require Import Prelude Paths.

(** ** Tables *)

(** A row of [files]; the key of the table is [relative_path]. *)
Record file_row := {
  fr_local_path : bytes; fr_size : Z; fr_mtime_ms : Z; fr_mode : Z;
  fr_is_dir : bool; fr_is_symlink : bool; fr_metadata_kind_known : bool;
  fr_remote_hash : option bytes; fr_local_hash : option bytes;
  fr_state : bytes; fr_dirty : bool; fr_validated_at_ms : Z; fr_validation_state : bytes;
  fr_last_error : option bytes; fr_updated_at_ms : Z }.

(** The values the code stores in [save_queue.state]. *)
Inductive queue_state := Pending | Failed | Conflicted | Applied | Superseded | ResolvedRemote.
#[export] Instance queue_state_eq_dec : EqDecision queue_state.
Proof. solve_decision. Defined.

Record queue_row := {
  qr_id : Z; qr_relative_path : bytes; qr_expected_hash : option bytes; qr_local_hash : bytes;
  qr_snapshot_path : option bytes; qr_state : queue_state; qr_attempts : Z; qr_last_error : option bytes;
  qr_remote_conflict_path : option bytes; qr_conflict_actual_hash : option bytes;
  qr_remote_conflict_truncated : bool; qr_created_at_ms : Z; qr_updated_at_ms : Z }.

Record search_file := {
  sf_local_hash : bytes; sf_indexed_bytes : Z; sf_line_count : Z; sf_index_state : bytes;
  sf_last_error : option bytes; sf_updated_at_ms : Z }.
Record search_line := { sl_path : bytes; sl_line_number : Z; sl_text : bytes }.
Record search_trigram := { st_gram : bytes; st_path : bytes; st_line_number : Z }.
#[export] Instance search_trigram_eq_dec : EqDecision search_trigram.
Proof. solve_decision. Defined.

(** [save_queue] is listed in the order of its ids, and [sqlite_sequence] is the
    largest id it ever had (AUTOINCREMENT). *)
Record database := {
  files : gmap bytes file_row;
  save_queue : list queue_row;
  sqlite_sequence : Z;
  search_files : gmap bytes search_file;
  search_lines : list search_line;
  search_trigrams : list search_trigram;
  workspace_state : gmap bytes (bytes * Z) }.

(** [init_schema] on a new file. *)
Definition empty_database : database := {|
  files := ∅; save_queue := []; sqlite_sequence := 0; search_files := ∅; search_lines := [];
  search_trigrams := []; workspace_state := ∅ |}.

Definition with_files (t : gmap bytes file_row) (d : database) : database := {|
  files := t; save_queue := save_queue d; sqlite_sequence := sqlite_sequence d; search_files := search_files d;
  search_lines := search_lines d; search_trigrams := search_trigrams d; workspace_state := workspace_state d |}.
Definition with_queue (seq : Z) (q : list queue_row) (d : database) : database := {|
  files := files d; save_queue := q; sqlite_sequence := seq; search_files := search_files d;
  search_lines := search_lines d; search_trigrams := search_trigrams d; workspace_state := workspace_state d |}.
Definition with_search (sf : gmap bytes search_file) (sl : list search_line) (st : list search_trigram)
    (d : database) : database := {|
  files := files d; save_queue := save_queue d; sqlite_sequence := sqlite_sequence d; search_files := sf;
  search_lines := sl; search_trigrams := st; workspace_state := workspace_state d |}.
Definition with_workspace (t : gmap bytes (bytes * Z)) (d : database) : database := {|
  files := files d; save_queue := save_queue d; sqlite_sequence := sqlite_sequence d; search_files := search_files d;
  search_lines := search_lines d; search_trigrams := search_trigrams d; workspace_state := t |}.

(** [UPDATE files SET f WHERE relative_path=path] and
    [INSERT INTO files .. VALUES new ON CONFLICT(relative_path) DO UPDATE SET f]. *)
Definition update_file (path : bytes) (f : file_row -> file_row) (d : database) : database :=
  with_files (alter f path (files d)) d.
Definition upsert_file (path : bytes) (new : file_row) (f : file_row -> file_row) (d : database) : database :=
  with_files (<[path := match files d !! path with Some old => f old | None => new end]> (files d)) d.
(** [UPDATE save_queue SET f WHERE p] *)
Definition update_queue (p : queue_row -> bool) (f : queue_row -> queue_row) (d : database) : database :=
  with_queue (sqlite_sequence d) ((fun r => if p r then f r else r) <$> save_queue d) d.
(** [INSERT INTO save_queue ..], the id chosen by SQLite. *)
Definition insert_queue (row : Z -> queue_row) (d : database) : database :=
  let id := sqlite_sequence d + 1 in with_queue id (save_queue d ++ [row id]) d.

(** ** The process: database, disk, clock and faults *)

Inductive fault :=
| Fail (written : nat) (message : bytes)
| FailRollback (message : bytes).

(** [mr_txn] is the database as it was when the open transaction began; the
    regular files of the mirror's directories are [mr_disk]; [mr_ticks] are the
    nanoseconds that pass before each reading of the clock. *)
Record mirror := {
  mr_db : database; mr_txn : option database; mr_disk : gmap bytes bytes;
  mr_clock : Z; mr_ticks : list Z; mr_faults : list (option fault) }.

Definition with_db (t : option database) (d : database) (m : mirror) : mirror := {|
  mr_db := d; mr_txn := t; mr_disk := mr_disk m; mr_clock := mr_clock m; mr_ticks := mr_ticks m;
  mr_faults := mr_faults m |}.
Definition with_disk (k : gmap bytes bytes) (m : mirror) : mirror := {|
  mr_db := mr_db m; mr_txn := mr_txn m; mr_disk := k; mr_clock := mr_clock m; mr_ticks := mr_ticks m;
  mr_faults := mr_faults m |}.
Definition with_time (c : Z) (ts : list Z) (m : mirror) : mirror := {|
  mr_db := mr_db m; mr_txn := mr_txn m; mr_disk := mr_disk m; mr_clock := c; mr_ticks := ts;
  mr_faults := mr_faults m |}.
Definition with_schedule (fl : list (option fault)) (m : mirror) : mirror := {|
  mr_db := mr_db m; mr_txn := mr_txn m; mr_disk := mr_disk m; mr_clock := mr_clock m; mr_ticks := mr_ticks m;
  mr_faults := fl |}.

(** An [anyhow] error is the text it displays. *)
Definition Mir (A : Type) : Type := mirror -> result bytes A * mirror.
#[export] Instance Mir_ret : MRet Mir := fun A a m => (Ok a, m).
#[export] Instance Mir_bind : MBind Mir := fun A B k c m =>
  match c m with
  | (Ok a, m) => k a m
  | (Err e, m) => (Err e, m)
  end.
#[export] Instance Mir_fmap : FMap Mir := fun A B g c => c ≫= fun a => mret (g a).
(** [bail!(..)] *)
Definition bail {A} (message : bytes) : Mir A := fun m => (Err message, m).
(** [c.with_context(..)] displays as the context. *)
Definition context {A} (message : bytes) (c : Mir A) : Mir A := fun m =>
  let '(r, m) := c m in (map_err (fun _ => message) r, m).
(** [match c { Ok(..) => .., Err(..) => .. }]: the result as a value. *)
Definition catch {A} (c : Mir A) : Mir (result bytes A) := fun m => let '(r, m) := c m in (Ok r, m).
(** A pure [Result] raised with [?]. *)
Definition lift {A} (r : result bytes A) : Mir A := fun m => (r, m).
(** [for x in l { f(x)?; }] *)
Fixpoint for_each {A} (f : A -> Mir unit) (l : list A) : Mir unit :=
  match l with
  | [] => mret ()
  | x :: l => f x;; for_each f l
  end.

Definition next_fault (m : mirror) : option fault * mirror :=
  match mr_faults m with
  | f :: fl => (f, with_schedule fl m)
  | [] => (None, m)
  end.

(** ** SQLite *)

Definition abandon (m : mirror) : mirror :=
  match mr_txn m with
  | Some image => with_db None image m
  | None => m
  end.
Definition sqlite {A} (g : Mir A) : Mir A := fun m =>
  let '(f, m) := next_fault m in
  match f with
  | Some (Fail _ message) => (Err message, m)
  | Some (FailRollback message) => (Err message, abandon m)
  | None => g m
  end.
(** [query_row], [query_map] and [execute]. *)
Definition query {A} (q : database -> A) : Mir A := sqlite (fun m => (Ok (q (mr_db m)), m)).
Definition try_execute (u : database -> result bytes database) : Mir unit := sqlite (fun m =>
  match u (mr_db m) with
  | Ok d => (Ok (), with_db (mr_txn m) d m)
  | Err message => (Err message, m)
  end).
Definition execute (u : database -> database) : Mir unit := try_execute (fun d => Ok (u d)).
Definition begin_immediate : Mir unit := sqlite (fun m =>
  match mr_txn m with
  | Some _ => (Err (B"cannot start a transaction within a transaction"), m)
  | None => (Ok (), with_db (Some (mr_db m)) (mr_db m) m)
  end).
Definition commit : Mir unit := sqlite (fun m =>
  match mr_txn m with
  | Some _ => (Ok (), with_db None (mr_db m) m)
  | None => (Err (B"cannot commit - no transaction is active"), m)
  end).
Definition rollback : Mir unit := sqlite (fun m =>
  match mr_txn m with
  | Some image => (Ok (), with_db None image m)
  | None => (Err (B"cannot rollback - no transaction is active"), m)
  end).

Definition immediate_transaction (action : Mir unit) : Mir unit :=
  begin_immediate;;
  r ← catch action;
  match r with
  | Ok _ => commit
  | Err error => catch rollback;; bail error
  end.

(** ** Clock *)

Definition now_nanos : Mir Z := fun m =>
  match mr_ticks m with
  | t :: ts => (Ok (mr_clock m + t), with_time (mr_clock m + t) ts m)
  | [] => (Ok (mr_clock m), m)
  end.
Definition now_ms : Mir Z := (fun n => n / 1000000) <$> now_nanos.

(** ** Files *)

Definition io {A} (g : Mir A) : Mir A := fun m =>
  let '(f, m) := next_fault m in
  match f with
  | Some (Fail _ message) | Some (FailRollback message) => (Err message, m)
  | None => g m
  end.
Definition not_found : bytes := B"No such file or directory (os error 2)".
Definition create_dir_all : Mir unit := io (mret ()).
Definition read_file (path : bytes) : Mir bytes := io (fun m => (ok_or (mr_disk m !! path) not_found, m)).
Definition metadata_len (path : bytes) : Mir Z := zlen <$> read_file path.
(** [Path::is_file] and [Path::exists]: an error is [false]. *)
Definition is_file (path : bytes) : Mir bool := (fun r => is_ok r) <$> catch (read_file path).
Definition file_exists : bytes -> Mir bool := is_file.
(** [File::options().write(true).create_new(true).open(path)] and [File::create(path)]. *)
Definition create_new (path : bytes) : Mir unit := io (fun m =>
  match mr_disk m !! path with
  | Some _ => (Err (B"File exists (os error 17)"), m)
  | None => (Ok (), with_disk (<[path := []]> (mr_disk m)) m)
  end).
Definition create (path : bytes) : Mir unit := io (fun m => (Ok (), with_disk (<[path := []]> (mr_disk m)) m)).
(** [write_all] at the end of an open file; a failed write has stored some of the bytes. *)
Definition write_all (path : bytes) (content : bytes) : Mir unit := fun m =>
  let '(f, m) := next_fault m in
  let store bs := with_disk (alter (fun old => old ++ bs) path (mr_disk m)) m in
  match f with
  | Some (Fail n message) => (Err message, store (take n content))
  | Some (FailRollback message) => (Err message, m)
  | None => (Ok (), store content)
  end.
Definition sync_all : Mir unit := io (mret ()).
Definition remove_file (path : bytes) : Mir unit := io (fun m =>
  match mr_disk m !! path with
  | Some _ => (Ok (), with_disk (delete path (mr_disk m)) m)
  | None => (Err not_found, m)
  end).
Definition rename (from_ to_ : bytes) : Mir unit := io (fun m =>
  match mr_disk m !! from_ with
  | Some bs => (Ok (), with_disk (<[to_ := bs]> (delete from_ (mr_disk m))) m)
  | None => (Err not_found, m)
  end).
Definition parent_of (path : bytes) : bytes := from_option fst [] (rsplit_once "/" path).
Definition sync_parent_dir (path : bytes) : Mir unit :=
  context (B"failed to sync directory " ++ parent_of path) (io (mret ())).
Definition rename_durable (from_ to_ : bytes) : Mir unit := rename from_ to_;; sync_parent_dir to_.

(** [let _ = c;] *)
Definition ignore {A} (c : Mir A) : Mir unit := catch c;; mret ().
(** [if install.is_err() { let _ = fs::remove_file(&tmp); } install] *)
Definition or_remove {A} (tmp : bytes) (c : Mir A) : Mir A :=
  r ← catch c;
  (match r with Ok _ => mret () | Err _ => ignore (remove_file tmp) end);;
  lift r.

Definition durable_tmp (path : bytes) (nanos : Z) : bytes := with_extension path (B"tmp-" ++ to_decimal nanos).
Definition write_durable_file (path content : bytes) : Mir unit :=
  create_dir_all;;
  nanos ← now_nanos;
  let tmp := durable_tmp path nanos in
  or_remove tmp (create_new tmp;; write_all tmp content;; sync_all;; rename_durable tmp path).

Section Hashing.
Context (hash_bytes : bytes -> bytes).
Definition hash_file (path : bytes) : Mir bytes := hash_bytes <$> read_file path.
End Hashing.

(** ** Paths and entries *)

Definition path_error_text (e : PathError) : bytes :=
  match e with
  | PathAbsolute => B"paths must be workspace-relative"
  | PathParentDir => B"path must not contain '..'"
  | PathNotRelative => B"path must be relative"
  | PathEmpty => B"path must not be empty"
  end.
(** [normalize_relative_path(path)?.to_string_lossy().replace('\\', "/")] *)
Definition normalize (path : bytes) : Mir bytes :=
  lift (path_to_string <$> map_err path_error_text (normalize_relative_path path)).

Section Roots.
Context (root : bytes).
Definition files_root : bytes := root ++ B"/files".
Definition conflicts_root : bytes := root ++ B"/conflicts".
Definition save_snapshots_root : bytes := root ++ B"/save-snapshots".
Definition local_path (relative_path : bytes) : Mir bytes :=
  lift ((fun clean => files_root ++ B"/" ++ join_with "/" clean) <$>
        map_err path_error_text (normalize_relative_path relative_path)).
End Roots.

(** [x as i64] of a [u64] and [x as u64] of an [i64]. *)
Definition as_i64 (x : Z) : Z := if x <? 2 ^ 63 then x else x - 2 ^ 64.
Definition as_u64 (x : Z) : Z := if x <? 0 then x + 2 ^ 64 else x.

Record MirrorEntry := {
  me_relative_path : bytes; me_local_path : bytes; me_size : Z; me_remote_hash : option bytes;
  me_local_hash : option bytes; me_state : bytes; me_dirty : bool; me_validated_at_ms : Z;
  me_validation_state : bytes; me_last_error : option bytes }.
Definition mirror_entry_from_row (path : bytes) (r : file_row) : MirrorEntry := {|
  me_relative_path := path; me_local_path := fr_local_path r; me_size := as_u64 (fr_size r);
  me_remote_hash := fr_remote_hash r; me_local_hash := fr_local_hash r; me_state := fr_state r;
  me_dirty := fr_dirty r; me_validated_at_ms := fr_validated_at_ms r;
  me_validation_state := fr_validation_state r; me_last_error := fr_last_error r |}.
(** [entry.local_hash.as_deref().or(entry.remote_hash.as_deref())] *)
Definition recorded_hash (e : MirrorEntry) : option bytes :=
  match me_local_hash e with Some h => Some h | None => me_remote_hash e end.
