(* ===== verification/MirrorLogic.v ===== *)
(** * Reasoning about the mirror's operations

    Rules for runs of the [Mir] monad: what a successful call did, what a run
    without faults does, how invariants and preorders on states pass through the
    combinators.  They carry the proofs about the mirror. *)
From S2P Require Import Prelude Paths MirrorDb.

Create HintDb mirror.

(** ** Successful runs *)

Lemma Mir_bind_run {A B} (c : Mir A) (k : A -> Mir B) m :
  (c ≫= k) m = match c m with (Ok a, m') => k a m' | (Err e, m') => (Err e, m') end.
Proof. done. Qed.

Lemma Mir_bind_assoc {A B C} (c : Mir A) (d : A -> Mir B) (k : B -> Mir C) m :
  (c ≫= fun a => d a ≫= k) m = ((c ≫= d) ≫= k) m.
Proof. rewrite !Mir_bind_run. by destruct (c m) as [[a|e] m1]. Qed.

Lemma Mir_bind_Ok {A B} (c : Mir A) (k : A -> Mir B) m b m' :
  (c ≫= k) m = (Ok b, m') <-> exists a m1, c m = (Ok a, m1) /\ k a m1 = (Ok b, m').
Proof. rewrite Mir_bind_run. destruct (c m) as [[a|e] m1]; naive_solver. Qed.

Lemma next_fault_same m f m1 : next_fault m = (f, m1) ->
  mr_db m1 = mr_db m /\ mr_txn m1 = mr_txn m /\ mr_disk m1 = mr_disk m /\ mr_clock m1 = mr_clock m.
Proof. unfold next_fault. destruct (mr_faults m); intros [= <- <-]; done. Qed.

(** Two states with the same database, transaction and files. *)
Definition same_store (m m' : mirror) : Prop :=
  mr_db m' = mr_db m /\ mr_txn m' = mr_txn m /\ mr_disk m' = mr_disk m.
#[export] Instance same_store_preorder : PreOrder same_store.
Proof.
  split; [by intros m; split_and!|].
  intros a b c (H1 & H2 & H3) (H4 & H5 & H6). repeat split; congruence.
Qed.

Lemma sqlite_Ok {A} (g : Mir A) m a m' : sqlite g m = (Ok a, m') ->
  exists m1, same_store m m1 /\ g m1 = (Ok a, m').
Proof.
  unfold sqlite. destruct (next_fault m) as [f m1] eqn:E. apply next_fault_same in E as (H1 & H2 & H3 & _).
  destruct f as [[|]|]; [done..|]. intros H. exists m1. by split_and!.
Qed.

Lemma try_execute_Ok u m x m' : try_execute u m = (Ok x, m') ->
  u (mr_db m) = Ok (mr_db m') /\ mr_txn m' = mr_txn m /\ mr_disk m' = mr_disk m.
Proof.
  intros (m1 & (H1 & H2 & H3) & H)%sqlite_Ok. rewrite H1 in H. destruct (u (mr_db m)) as [d|e]; [|done].
  injection H as _ <-. cbn. split_and!; congruence.
Qed.

Lemma execute_Ok u m x m' : execute u m = (Ok x, m') ->
  mr_db m' = u (mr_db m) /\ mr_txn m' = mr_txn m /\ mr_disk m' = mr_disk m.
Proof. intros (H & ? & ?)%try_execute_Ok. by injection H as <-. Qed.

Lemma query_Ok {A} (q : database -> A) m a m' : query q m = (Ok a, m') -> a = q (mr_db m) /\ same_store m m'.
Proof. intros (m1 & H & [= <- <-])%sqlite_Ok. split; [|done]. destruct H as (-> & _). done. Qed.

Lemma now_nanos_run m : exists n m', now_nanos m = (Ok n, m') /\ same_store m m' /\ mr_faults m' = mr_faults m.
Proof. unfold now_nanos. destruct (mr_ticks m); eexists _, _; (split; [reflexivity|]); repeat split. Qed.

Lemma now_ms_run m : exists n m', now_ms m = (Ok n, m') /\ same_store m m' /\ mr_faults m' = mr_faults m.
Proof.
  destruct (now_nanos_run m) as (n & m' & E & H). exists (n / 1000000), m'. split; [|done].
  unfold now_ms, fmap, Mir_fmap. rewrite Mir_bind_run, E. done.
Qed.

Lemma now_ms_Ok m n m' : now_ms m = (Ok n, m') -> same_store m m'.
Proof. destruct (now_ms_run m) as (n1 & m1 & E & H & _). rewrite E. by intros [= <- <-]. Qed.

Lemma for_each_Ok {A} (f : A -> database -> result bytes database) l m x m' :
  for_each (fun a => try_execute (f a)) l m = (Ok x, m') ->
  try_fold (fun d a => f a d) (mr_db m) l = Ok (mr_db m') /\ mr_txn m' = mr_txn m /\ mr_disk m' = mr_disk m.
Proof.
  revert m. induction l as [|a l IH]; intros m; cbn [for_each try_fold]; [by intros [= <- <-]|].
  intros (y & m1 & (H1 & H2 & H3)%try_execute_Ok & H)%Mir_bind_Ok. rewrite H1. apply IH in H as (? & -> & ->). done.
Qed.

Lemma immediate_transaction_Ok action m x m' : immediate_transaction action m = (Ok x, m') ->
  mr_txn m = None /\ mr_txn m' = None /\
  exists m1 y m2, mr_db m1 = mr_db m /\ mr_disk m1 = mr_disk m /\ mr_txn m1 = Some (mr_db m) /\
    action m1 = (Ok y, m2) /\ mr_db m' = mr_db m2 /\ mr_disk m' = mr_disk m2.
Proof.
  unfold immediate_transaction. intros (y & m1 & Hb & H)%Mir_bind_Ok.
  apply sqlite_Ok in Hb as (m0 & (H1 & H2 & H3) & Hb).
  destruct (mr_txn m0) as [|] eqn:Et; [done|]. injection Hb as _ <-.
  apply Mir_bind_Ok in H as (r & m2 & Hr & H). unfold catch in Hr.
  destruct (action _) as [r' m2'] eqn:Ea. injection Hr as <- <-.
  destruct r' as [z|e].
  - apply sqlite_Ok in H as (m3 & (H4 & H5 & H6) & H). destruct (mr_txn m3); [|done]. injection H as _ <-.
    split; [congruence|]. split; [done|]. eexists _, z, m2'.
    split; [|split; [|split; [|split; [exact Ea|]]]]; cbn; try congruence. split; congruence.
  - apply Mir_bind_Ok in H as (? & ? & _ & H). done.
Qed.

(** ** Runs without faults *)

Definition calm (m : mirror) : Prop := mr_faults m = [].

Lemma sqlite_calm {A} (g : Mir A) m : calm m -> sqlite g m = g m.
Proof. unfold sqlite, next_fault, calm. by intros ->. Qed.
Lemma io_calm {A} (g : Mir A) m : calm m -> io g m = g m.
Proof. unfold io, next_fault, calm. by intros ->. Qed.
Lemma query_calm {A} (q : database -> A) m : calm m -> query q m = (Ok (q (mr_db m)), m).
Proof. intros H. unfold query. by rewrite sqlite_calm. Qed.
Lemma read_file_calm path m : calm m -> read_file path m = (ok_or (mr_disk m !! path) not_found, m).
Proof. intros H. unfold read_file. by rewrite io_calm. Qed.

(** ** What a call leaves alone *)

(** The database another connection, or the next start, sees. *)
Definition committed (m : mirror) : database := default (mr_db m) (mr_txn m).

(** [only ps c]: whatever its outcome, [c] touches neither the database nor a file outside [ps]. *)
Definition only (ps : list bytes) {A} (c : Mir A) : Prop := forall m,
  let m' := snd (c m) in
  mr_db m' = mr_db m /\ mr_txn m' = mr_txn m /\ forall q, q ∉ ps -> mr_disk m' !! q = mr_disk m !! q.

Section Only.
Context (ps : list bytes).

Lemma only_ret {A} (a : A) : only ps (mret a).
Proof. intros m. by cbn. Qed.
Lemma only_bail {A} e : only ps (@bail A e).
Proof. intros m. by cbn. Qed.
Lemma only_lift {A} (r : result bytes A) : only ps (lift r).
Proof. intros m. by cbn. Qed.
Lemma only_bind {A B} (c : Mir A) (k : A -> Mir B) : only ps c -> (forall a, only ps (k a)) -> only ps (c ≫= k).
Proof.
  intros Hc Hk m. rewrite Mir_bind_run. specialize (Hc m). destruct (c m) as [[a|e] m1]; [|done].
  cbn in Hc |- *. destruct Hc as (H1 & H2 & H3). destruct (Hk a m1) as (H4 & H5 & H6).
  split_and!; [congruence..|]. intros q Hq. by rewrite H6, H3.
Qed.
Lemma only_fmap {A B} (g : A -> B) (c : Mir A) : only ps c -> only ps (g <$> c).
Proof. intros Hc. apply only_bind; [done|]. intros a. apply only_ret. Qed.
Lemma only_catch {A} (c : Mir A) : only ps c -> only ps (catch c).
Proof. intros Hc m. specialize (Hc m). unfold catch. by destruct (c m). Qed.
Lemma only_context {A} e (c : Mir A) : only ps c -> only ps (context e c).
Proof. intros Hc m. specialize (Hc m). unfold context. by destruct (c m). Qed.
Lemma only_io {A} (g : Mir A) : only ps g -> only ps (io g).
Proof.
  intros Hg m. unfold io. destruct (next_fault m) as [f m1] eqn:E. apply next_fault_same in E as (H1 & H2 & H3 & _).
  destruct f as [[|]|]; cbn; rewrite ?H3; [done..|]. destruct (Hg m1) as (? & ? & ?). rewrite H1, H2, H3 in *. done.
Qed.
Lemma only_now_nanos : only ps now_nanos.
Proof. intros m. unfold now_nanos. by destruct (mr_ticks m). Qed.
Lemma only_now_ms : only ps now_ms.
Proof. apply only_fmap, only_now_nanos. Qed.
Lemma only_read p : only ps (read_file p).
Proof. apply only_io. intros m. by cbn. Qed.
Lemma only_is_file p : only ps (is_file p).
Proof. apply only_fmap, only_catch, only_read. Qed.
Lemma only_hash_file h p : only ps (hash_file h p).
Proof. apply only_fmap, only_read. Qed.
Lemma only_sync : only ps sync_all.
Proof. apply only_io, only_ret. Qed.
Lemma only_mkdir : only ps create_dir_all.
Proof. apply only_io, only_ret. Qed.
Lemma only_create_new p : p ∈ ps -> only ps (create_new p).
Proof.
  intros Hp. apply only_io. intros m. destruct (mr_disk m !! p); cbn; [done|]. split_and!; [done..|].
  intros q Hq. apply lookup_insert_ne. by intros ->.
Qed.
Lemma only_create p : p ∈ ps -> only ps (create p).
Proof.
  intros Hp. apply only_io. intros m. cbn. split_and!; [done..|].
  intros q Hq. apply lookup_insert_ne. by intros ->.
Qed.
Lemma only_remove p : p ∈ ps -> only ps (remove_file p).
Proof.
  intros Hp. apply only_io. intros m. destruct (mr_disk m !! p); cbn; [|done]. split_and!; [done..|].
  intros q Hq. apply lookup_delete_ne. by intros ->.
Qed.
Lemma only_rename p q : p ∈ ps -> q ∈ ps -> only ps (rename p q).
Proof.
  intros Hp Hq. apply only_io. intros m. destruct (mr_disk m !! p); cbn; [|done]. split_and!; [done..|].
  intros x Hx. rewrite lookup_insert_ne by (by intros ->). apply lookup_delete_ne. by intros ->.
Qed.
Lemma only_write p bs : p ∈ ps -> only ps (write_all p bs).
Proof.
  intros Hp m. unfold write_all. destruct (next_fault m) as [f m1] eqn:E.
  apply next_fault_same in E as (H1 & H2 & H3 & _).
  destruct f as [[|]|]; cbn; rewrite ?H1, ?H2, ?H3; split_and!; try done; intros q Hq;
    apply lookup_alter_ne; by intros ->.
Qed.
End Only.

#[export] Hint Resolve only_ret only_bail only_lift only_fmap only_catch only_context only_now_nanos only_now_ms
  only_read only_is_file only_hash_file only_sync only_mkdir : mirror.
#[export] Hint Extern 2 (only _ (_ ≫= _)) => apply only_bind; [|intros ?] : mirror.
#[export] Hint Extern 2 (only _ (create_new _)) => apply only_create_new; [set_solver] : mirror.
#[export] Hint Extern 2 (only _ (create _)) => apply only_create; [set_solver] : mirror.
#[export] Hint Extern 2 (only _ (remove_file _)) => apply only_remove; [set_solver] : mirror.
#[export] Hint Extern 2 (only _ (rename _ _)) => apply only_rename; [set_solver|set_solver] : mirror.
#[export] Hint Extern 2 (only _ (write_all _ _)) => apply only_write; [set_solver] : mirror.

Lemma only_rename_durable ps p q : p ∈ ps -> q ∈ ps -> only ps (rename_durable p q).
Proof.
  intros Hp Hq. apply only_bind; [by apply only_rename|]. intros _. apply only_context, only_io, only_ret.
Qed.
Lemma only_or_remove {A} ps p (c : Mir A) : p ∈ ps -> only ps c -> only ps (or_remove p c).
Proof.
  intros Hp Hc. apply only_bind; [auto with mirror|]. intros r.
  apply only_bind; [|auto with mirror]. destruct r; [auto with mirror|].
  apply only_bind; [apply only_catch; by apply only_remove | auto with mirror].
Qed.

(** ** Replacing a file durably *)

(** A durable write touches its target and its temporary file only. *)
Lemma only_write_durable p content m : exists n,
  let m' := snd (write_durable_file p content m) in
  mr_db m' = mr_db m /\ mr_txn m' = mr_txn m /\
  forall q, q <> p -> q <> durable_tmp p n -> mr_disk m' !! q = mr_disk m !! q.
Proof.
  unfold write_durable_file. rewrite Mir_bind_run. pose proof (only_mkdir [] m) as (H1 & H2 & H3).
  destruct (create_dir_all m) as [[u|e] m1]; cbn in H1, H2, H3; [|exists 0; cbn; split_and!; auto; intros; apply H3; set_solver].
  rewrite Mir_bind_run. destruct (now_nanos_run m1) as (n & m2 & -> & (H4 & H5 & H6) & _). exists n.
  assert (Ho : only [durable_tmp p n; p] (or_remove (durable_tmp p n) (create_new (durable_tmp p n);;
    write_all (durable_tmp p n) content;; sync_all;; rename_durable (durable_tmp p n) p))).
  { apply only_or_remove; [set_solver|]. do 3 (apply only_bind; [auto with mirror|intros _]).
    apply only_rename_durable; set_solver. }
  destruct (Ho m2) as (H7 & H8 & H9). cbn zeta. rewrite H7, H8. split_and!; [congruence..|].
  intros q Hq1 Hq2. rewrite H9 by set_solver. rewrite H6. apply H3. set_solver.
Qed.

Lemma io_Ok {A} (g : Mir A) m a m' : io g m = (Ok a, m') -> exists m1, same_store m m1 /\ g m1 = (Ok a, m').
Proof.
  unfold io. destruct (next_fault m) as [f m1] eqn:E. apply next_fault_same in E as (H1 & H2 & H3 & _).
  destruct f as [[|]|]; [done..|]. intros H. exists m1. by split_and!.
Qed.
Lemma read_file_Ok p m bs m' : read_file p m = (Ok bs, m') -> mr_disk m !! p = Some bs /\ same_store m m'.
Proof.
  intros (m1 & H & E)%io_Ok. injection E as E <-. split; [|done]. destruct H as (_ & _ & <-).
  by apply ok_or_Ok in E.
Qed.
Lemma create_new_Ok p m x m' : create_new p m = (Ok x, m') -> mr_disk m' = <[p := []]> (mr_disk m).
Proof. intros (m1 & (_ & _ & H) & E)%io_Ok. rewrite H in E. destruct (mr_disk m !! p); [done|]. by injection E as _ <-. Qed.
Lemma create_Ok p m x m' : create p m = (Ok x, m') -> mr_disk m' = <[p := []]> (mr_disk m).
Proof. intros (m1 & (_ & _ & H) & E)%io_Ok. injection E as _ <-. cbn. by rewrite H. Qed.
Lemma append_Ok p bs m x m' : write_all p bs m = (Ok x, m') -> mr_disk m' = alter (fun old => old ++ bs) p (mr_disk m).
Proof.
  unfold write_all. destruct (next_fault m) as [f m1] eqn:E. apply next_fault_same in E as (_ & _ & H & _).
  destruct f as [[|]|]; [done..|]. intros [= _ <-]. cbn. by rewrite H.
Qed.
Lemma rename_Ok p q m x m' : rename p q m = (Ok x, m') ->
  exists bs, mr_disk m !! p = Some bs /\ mr_disk m' = <[q := bs]> (delete p (mr_disk m)).
Proof.
  intros (m1 & (_ & _ & H) & E)%io_Ok. rewrite H in E. destruct (mr_disk m !! p) as [bs|] eqn:Ep; [|done].
  injection E as _ <-. exists bs. by split.
Qed.
Lemma sync_parent_only p ps : only ps (sync_parent_dir p).
Proof. apply only_context, only_io, only_ret. Qed.

(** Filling a fresh temporary file and renaming it over the target: the target keeps its
    bytes or has the new ones, and has the new ones if the whole succeeded. *)
Lemma install_target t p bs m r m' : t <> p ->
  (create_new t;; write_all t bs;; sync_all;; rename_durable t p) m = (r, m') ->
  (mr_disk m' !! p = mr_disk m !! p \/ mr_disk m' !! p = Some bs) /\ (is_ok r = true -> mr_disk m' !! p = Some bs).
Proof.
  intros Ht. rewrite Mir_bind_run.
  destruct (create_new t m) as [[u|e] m1] eqn:E1; cycle 1.
  { intros [= <- <-]. destruct (only_create_new [t] t ltac:(set_solver) m) as (_ & _ & H). rewrite E1 in H. cbn in H.
    rewrite H by set_solver. split; [by left | done]. }
  apply create_new_Ok in E1. assert (D1 : mr_disk m1 !! p = mr_disk m !! p) by (by rewrite E1, lookup_insert_ne).
  rewrite Mir_bind_run. destruct (write_all t bs m1) as [[u2|e] m2] eqn:E2; cycle 1.
  { intros [= <- <-]. destruct (only_write [t] t bs ltac:(set_solver) m1) as (_ & _ & H). rewrite E2 in H. cbn in H.
    rewrite H, D1 by set_solver. split; [by left | done]. }
  apply append_Ok in E2. assert (D2 : mr_disk m2 !! p = mr_disk m !! p) by (by rewrite E2, lookup_alter_ne).
  rewrite Mir_bind_run. pose proof (only_sync [] m2) as (_ & _ & D3).
  destruct (sync_all m2) as [[u3|e] m3]; cbn in D3; cycle 1.
  { intros [= <- <-]. rewrite D3, D2 by set_solver. split; [by left | done]. }
  unfold rename_durable. rewrite Mir_bind_run.
  destruct (rename t p m3) as [[u4|e] m4] eqn:E4; cycle 1.
  { intros [= <- <-]. unfold rename, io in E4. destruct (next_fault m3) as [f m5] eqn:E5.
    apply next_fault_same in E5 as (_ & _ & D5 & _). assert (Hm : mr_disk m4 = mr_disk m5).
    { destruct f as [[|]|]; [by injection E4 as _ <-..|]. destruct (mr_disk m5 !! t); by simplify_eq. }
    rewrite Hm, D5, D3, D2 by set_solver. split; [by left | done]. }
  apply rename_Ok in E4 as (bs' & Hbs & E4).
  rewrite D3, E2, lookup_alter_eq, E1, lookup_insert_eq in Hbs by set_solver. injection Hbs as <-.
  intros Hs. destruct (sync_parent_only p [] m4) as (_ & _ & D4). rewrite Hs in D4. cbn in D4.
  rewrite D4, E4, lookup_insert_eq by set_solver. split; [by right | done].
Qed.

Lemma or_remove_run {A} t (c : Mir A) m r m' : or_remove t c m = (r, m') ->
  exists m1, c m = (r, m1) /\ forall q, q <> t -> mr_disk m' !! q = mr_disk m1 !! q.
Proof.
  unfold or_remove. rewrite Mir_bind_run. unfold catch. destruct (c m) as [r1 m1]. rewrite Mir_bind_run.
  destruct r1 as [a|e].
  - intros [= <- <-]. by exists m1.
  - unfold ignore. rewrite Mir_bind_run. unfold catch.
    destruct (only_remove [t] t ltac:(set_solver) m1) as (_ & _ & H). destruct (remove_file t m1) as [r2 m2].
    intros [= <- <-]. exists m1. split; [done|]. intros q Hq. apply H. set_solver.
Qed.

Lemma write_durable_target p bs m r m' : (forall n, durable_tmp p n <> p) -> write_durable_file p bs m = (r, m') ->
  (mr_disk m' !! p = mr_disk m !! p \/ mr_disk m' !! p = Some bs) /\ (is_ok r = true -> mr_disk m' !! p = Some bs).
Proof.
  intros Ht. unfold write_durable_file. rewrite Mir_bind_run. pose proof (only_mkdir [] m) as (_ & _ & D1).
  destruct (create_dir_all m) as [[u|e] m1]; cbn in D1; cycle 1.
  { intros [= <- <-]. rewrite D1 by set_solver. split; [by left | done]. }
  rewrite Mir_bind_run. destruct (now_nanos_run m1) as (n & m2 & -> & (_ & _ & D2) & _).
  intros (m3 & Hi & D3)%or_remove_run. apply install_target in Hi; [|done].
  rewrite D3 by done. by rewrite D2, D1 in Hi by set_solver.
Qed.

(** ** Runs that succeed

    [succeeds P c Q]: without faults, from a state with [P], [c] succeeds and its result and
    state have [Q]. *)
Definition succeeds {A : Type} (P : mirror -> Prop) (c : Mir A) (Q : A -> mirror -> Prop) : Prop :=
  forall m, calm m -> P m -> exists a m', c m = (Ok a, m') /\ calm m' /\ Q a m'.

Section Total.
Context {A B : Type}.

Lemma succeeds_ret (P : mirror -> Prop) (a : A) (Q : A -> mirror -> Prop) : (forall m, P m -> Q a m) -> succeeds P (mret a) Q.
Proof. intros H m Hm HP. exists a, m. auto. Qed.
Lemma succeeds_bind (c : Mir A) (k : A -> Mir B) P Q R :
  succeeds P c Q -> (forall a, succeeds (Q a) (k a) R) -> succeeds P (c ≫= k) R.
Proof.
  intros Hc Hk m Hm HP. destruct (Hc m Hm HP) as (a & m1 & E & Hm1 & HQ).
  destruct (Hk a m1 Hm1 HQ) as (b & m2 & E2 & ? & ?). exists b, m2. split; [|done]. by rewrite Mir_bind_run, E.
Qed.
Lemma succeeds_weaken (c : Mir A) P Q (P' : mirror -> Prop) (Q' : A -> mirror -> Prop) :
  succeeds P' c Q' -> (forall m, P m -> P' m) -> (forall a m, Q' a m -> Q a m) -> succeeds P c Q.
Proof. intros Hc HP HQ m Hm H. destruct (Hc m Hm (HP m H)) as (a & m' & ? & ? & ?). eauto 10. Qed.
Lemma succeeds_catch (c : Mir A) P Q : succeeds P c Q -> succeeds P (catch c) (fun r m => exists a, r = Ok a /\ Q a m).
Proof. intros Hc m Hm HP. destruct (Hc m Hm HP) as (a & m' & E & ? & ?). exists (Ok a), m'. unfold catch. rewrite E. eauto. Qed.
Lemma succeeds_context (c : Mir A) e P Q : succeeds P c Q -> succeeds P (context e c) Q.
Proof. intros Hc m Hm HP. destruct (Hc m Hm HP) as (a & m' & E & ? & ?). exists a, m'. unfold context. rewrite E. eauto. Qed.
Lemma succeeds_lift (r : result bytes A) (a : A) P (Q : A -> mirror -> Prop) :
  r = Ok a -> (forall m, P m -> Q a m) -> succeeds P (lift r) Q.
Proof. intros -> H m Hm HP. exists a, m. auto. Qed.
Lemma succeeds_query (q : database -> A) P : succeeds P (query q) (fun a m => a = q (mr_db m) /\ P m).
Proof. intros m Hm HP. eexists _, m. rewrite query_calm by done. eauto. Qed.
End Total.

(** [stable P]: [P] only looks at the store. *)
Definition stable (P : mirror -> Prop) : Prop := forall m m', same_store m m' -> P m -> P m'.

Lemma succeeds_now P : stable P -> succeeds P now_ms (fun _ => P).
Proof.
  intros HP m Hm H. destruct (now_ms_run m) as (n & m' & E & Hs & Hf). exists n, m'. unfold calm in *.
  split; [done|]. split; [congruence | by eapply HP].
Qed.
Lemma succeeds_execute u P Q : (forall m, P m -> Q tt (with_db (mr_txn m) (u (mr_db m)) m)) -> succeeds P (execute u) Q.
Proof.
  intros H m Hm HP. exists tt, (with_db (mr_txn m) (u (mr_db m)) m). unfold execute, try_execute.
  rewrite sqlite_calm by done. auto.
Qed.
Lemma succeeds_transaction c P R Q :
  (forall m, P m -> mr_txn m = None /\ R (with_db (Some (mr_db m)) (mr_db m) m)) ->
  succeeds R c (fun _ m => is_Some (mr_txn m) /\ Q (with_db None (mr_db m) m)) ->
  succeeds P (immediate_transaction c) (fun _ => Q).
Proof.
  intros HP Hc m Hm H. destruct (HP m H) as [Ht HR]. unfold immediate_transaction.
  assert (Hb : begin_immediate m = (Ok tt, with_db (Some (mr_db m)) (mr_db m) m)).
  { unfold begin_immediate. rewrite sqlite_calm by done. by rewrite Ht. }
  rewrite Mir_bind_run, Hb, Mir_bind_run. unfold catch.
  destruct (Hc (with_db (Some (mr_db m)) (mr_db m) m) Hm HR) as (u & m2 & -> & Hm2 & [image Hi] & HQ).
  exists tt, (with_db None (mr_db m2) m2). split; [|done]. unfold commit. rewrite sqlite_calm by done. by rewrite Hi.
Qed.
Lemma succeeds_read p bs P : (forall m, P m -> mr_disk m !! p = Some bs) -> succeeds P (read_file p) (fun a m => a = bs /\ P m).
Proof. intros H m Hm HP. exists bs, m. rewrite read_file_calm, (H m) by done. eauto. Qed.

(** ** Files an operation leaves alone *)

Definition leaves {A} (p : bytes) (c : Mir A) : Prop := forall m, mr_disk (snd (c m)) !! p = mr_disk m !! p.

Section Leaves.
Context (p : bytes).

Lemma leaves_only {A} ps (c : Mir A) : only ps c -> p ∉ ps -> leaves p c.
Proof. intros Hc Hp m. by apply Hc. Qed.
Lemma leaves_bind {A B} (c : Mir A) (k : A -> Mir B) : leaves p c -> (forall a, leaves p (k a)) -> leaves p (c ≫= k).
Proof.
  intros Hc Hk m. rewrite Mir_bind_run. specialize (Hc m). destruct (c m) as [[a|e] m1]; [|done].
  cbn in Hc. by rewrite Hk.
Qed.
Lemma leaves_catch {A} (c : Mir A) : leaves p c -> leaves p (catch c).
Proof. intros Hc m. specialize (Hc m). unfold catch. by destruct (c m). Qed.
Lemma leaves_context {A} e (c : Mir A) : leaves p c -> leaves p (context e c).
Proof. intros Hc m. specialize (Hc m). unfold context. by destruct (c m). Qed.
Lemma leaves_sqlite {A} (g : Mir A) : leaves p g -> leaves p (sqlite g).
Proof.
  intros Hg m. unfold sqlite. destruct (next_fault m) as [f m1] eqn:E. apply next_fault_same in E as (_ & _ & H3 & _).
  destruct f as [[|]|]; cbn; [by rewrite H3| |by rewrite Hg, H3]. unfold abandon. destruct (mr_txn m1); cbn; by rewrite H3.
Qed.
Lemma leaves_query {A} (q : database -> A) : leaves p (query q).
Proof. apply leaves_sqlite. by intros m. Qed.
Lemma leaves_try_execute u : leaves p (try_execute u).
Proof. apply leaves_sqlite. intros m. by destruct (u (mr_db m)). Qed.
Lemma leaves_transaction c : leaves p c -> leaves p (immediate_transaction c).
Proof.
  intros Hc. apply leaves_bind; [apply leaves_sqlite; intros m; by destruct (mr_txn m)|]. intros [].
  apply leaves_bind; [by apply leaves_catch|]. intros [u|e].
  - apply leaves_sqlite. intros m. by destruct (mr_txn m).
  - apply leaves_bind; [apply leaves_catch, leaves_sqlite; intros m; by destruct (mr_txn m) | by intros r m].
Qed.
Lemma leaves_for_each {A} (f : A -> Mir unit) l : (forall a, leaves p (f a)) -> leaves p (for_each f l).
Proof. intros Hf. induction l as [|a l IH]; cbn [for_each]; [by intros m|]. apply leaves_bind; [done|]. by intros []. Qed.
Lemma leaves_durable q content : q <> p -> (forall n, durable_tmp q n <> p) -> leaves p (write_durable_file q content).
Proof. intros Hq Ht m. destruct (only_write_durable q content m) as (n & _ & _ & H). by apply H. Qed.
End Leaves.

(** Steps through an operation that leaves a file alone. *)
Ltac leaves_through leaf :=
  cbv beta zeta;
  lazymatch goal with
  | |- leaves _ (mbind _ _) => apply leaves_bind; [leaves_through leaf | intros ?; leaves_through leaf]
  | |- leaves _ (fmap _ _) => apply leaves_bind; [leaves_through leaf | intros ?; leaves_through leaf]
  | |- leaves _ (catch _) => apply leaves_catch; leaves_through leaf
  | |- leaves _ (context _ _) => apply leaves_context; leaves_through leaf
  | |- leaves _ (query _) => apply leaves_query
  | |- leaves _ (execute _) => apply leaves_try_execute
  | |- leaves _ (try_execute _) => apply leaves_try_execute
  | |- leaves _ (immediate_transaction _) => apply leaves_transaction; leaves_through leaf
  | |- leaves _ (for_each _ _) => apply leaves_for_each; intros ?; leaves_through leaf
  | |- leaves _ (if ?b then _ else _) => destruct b; leaves_through leaf
  | |- leaves _ (match ?x with _ => _ end) => destruct x; leaves_through leaf
  | |- _ => first [ apply (leaves_only _ []); [solve [auto with mirror] | apply not_elem_of_nil] | leaf ]
  end.

(** ** Runs that stay free of faults *)

Definition quiet {A : Type} (c : Mir A) : Prop := forall m, calm m -> calm (snd (c m)).

Lemma quiet_ret {A} (a : A) : quiet (mret a).
Proof. by intros m. Qed.
Lemma quiet_bind {A B} (c : Mir A) (k : A -> Mir B) : quiet c -> (forall a, quiet (k a)) -> quiet (c ≫= k).
Proof. intros Hc Hk m Hm. rewrite Mir_bind_run. specialize (Hc m Hm). destruct (c m) as [[a|e] m1]; [by apply Hk | done]. Qed.
Lemma quiet_catch {A} (c : Mir A) : quiet c -> quiet (catch c).
Proof. intros Hc m Hm. specialize (Hc m Hm). unfold catch. by destruct (c m). Qed.
Lemma quiet_context {A} e (c : Mir A) : quiet c -> quiet (context e c).
Proof. intros Hc m Hm. specialize (Hc m Hm). unfold context. by destruct (c m). Qed.
Lemma quiet_io {A} (g : Mir A) : quiet g -> quiet (io g).
Proof. intros Hg m Hm. rewrite io_calm by done. by apply Hg. Qed.
Lemma quiet_now_nanos : quiet now_nanos.
Proof. intros m Hm. destruct (now_nanos_run m) as (n & m' & -> & _ & E). unfold calm in *. cbn. congruence. Qed.
Lemma quiet_write p bs : quiet (write_all p bs).
Proof. intros m Hm. unfold write_all, next_fault. by rewrite Hm. Qed.

(** A durable write into a mirror without faults leaves one without faults. *)
Lemma quiet_durable p bs : quiet (write_durable_file p bs).
Proof.
  apply quiet_bind; [apply quiet_io, quiet_ret|]. intros []. apply quiet_bind; [apply quiet_now_nanos|]. intros n. cbv zeta.
  apply quiet_bind; [apply quiet_catch|intros r; apply quiet_bind; [destruct r|]].
  - apply quiet_bind; [apply quiet_io; intros m; by destruct (mr_disk m !! _)|]. intros [].
    apply quiet_bind; [apply quiet_write|]. intros []. apply quiet_bind; [apply quiet_io, quiet_ret|]. intros [].
    apply quiet_bind; [apply quiet_io; intros m; by destruct (mr_disk m !! _)|]. intros []. apply quiet_context, quiet_io, quiet_ret.
  - by intros m.
  - apply quiet_bind; [apply quiet_catch, quiet_io; intros m; by destruct (mr_disk m !! _)|]. by intros u m.
  - by intros u m.
Qed.

(** A file next to another one: the directory stays. *)
Lemma rsplit_once_app c x y : exists z n, rsplit_once c (x ++ c :: y) = Some (x ++ z, n).
Proof.
  induction x as [|b x IH]; cbn.
  - destruct (rsplit_once c y) as [[before after]|]; [by eexists _, _|]. rewrite byte_eqb_refl. by exists [], y.
  - destruct IH as (z & n & ->). by exists z, n.
Qed.
Lemma with_extension_dir dir name ext : exists z, with_extension (dir ++ B"/" ++ name) ext = dir ++ z.
Proof.
  unfold with_extension. destruct (rsplit_once_app "/" dir name) as (z & n & E). change (B"/" ++ name) with ("/"%byte :: name).
  rewrite E. eexists. rewrite <- !app_assoc. reflexivity.
Qed.
