(* ===== verification/SearchIndex.v ===== *)
(** * The trigram index of the cached files (nrm-sidecar/src/main.rs)

    Every cached file is indexed by its lines and by the three-byte windows of
    each line, so that a search of the cache reads only the lines that hold the
    rarest window of the query.  The theorem of this file is that the search
    through the index answers what scanning the file would. *)
From S2P Require Import Prelude Paths MirrorDb.
From stdpp Require Import sorting.
#[local] Open Scope Z_scope.

Definition SEARCH_INDEX_MAX_FILE_BYTES : Z := 4 * 1024 * 1024.
Definition SEARCH_TRIGRAM_BYTES : nat := 3.

(** ** Standard library on text *)

(** [str::split_inclusive('\n')] *)
Fixpoint split_inclusive (s : bytes) : list bytes :=
  match s with
  | [] => []
  | b :: s =>
      if byte_eqb b x0a then [b] :: split_inclusive s
      else match split_inclusive s with
           | [] => [[b]]
           | seg :: segs => (b :: seg) :: segs
           end
  end.
(** [slice::windows] *)
Fixpoint windows (n : nat) (s : bytes) : list bytes :=
  match s with
  | [] => []
  | _ :: rest => if (n <=? length s)%nat then take n s :: windows n rest else []
  end.

(** ** Index entries of a text *)

Definition unique_trigrams (bs : bytes) : list bytes :=
  if (length bs <? SEARCH_TRIGRAM_BYTES)%nat then []
  else foldl (fun trigrams gram => if bool_decide (gram ∈ trigrams) then trigrams else trigrams ++ [gram])
             [] (windows SEARCH_TRIGRAM_BYTES bs).
Fixpoint number_lines (n : Z) (ls : list bytes) : list (Z * bytes) :=
  match ls with
  | [] => []
  | l :: ls => (n, trim_end is_line_end l) :: number_lines (n + 1) ls
  end.
Definition indexed_text_lines (text : bytes) : list (Z * bytes) := number_lines 1 (split_inclusive text).
Definition indexed_line_trigrams (lines : list (Z * bytes)) : list (bytes * Z) :=
  lines ≫= fun '(line_number, line) => (fun gram => (gram, line_number)) <$> unique_trigrams line.

(** ** Writing the index *)

Inductive SearchIndexReadiness := Ready | Legacy.
Record GrepHit := {
  gh_path : bytes; gh_local_path : bytes; gh_line : Z; gh_column : Z; gh_text : bytes;
  gh_dirty : bool; gh_validation_state : bytes }.

Definition on_path {A} (key : A -> bytes) (path : bytes) (x : A) : bool := bytes_eqb (key x) path.
Definition delete_trigrams (path : bytes) (d : database) : database :=
  with_search (search_files d) (search_lines d)
    (List.filter (fun r => negb (on_path st_path path r)) (search_trigrams d)) d.
Definition delete_lines (path : bytes) (d : database) : database :=
  with_search (search_files d) (List.filter (fun r => negb (on_path sl_path path r)) (search_lines d))
    (search_trigrams d) d.
Definition insert_line (path : bytes) (line : Z * bytes) (d : database) : result bytes database :=
  let '(n, text) := line in
  if existsb (fun r => on_path sl_path path r && (sl_line_number r =? n)) (search_lines d)
  then Err (B"UNIQUE constraint failed: search_lines.relative_path, search_lines.line_number")
  else Ok (with_search (search_files d)
             (search_lines d ++ [{| sl_path := path; sl_line_number := n; sl_text := text |}])
             (search_trigrams d) d).
Definition insert_or_ignore_trigram (path : bytes) (gram : bytes * Z) (d : database) : database :=
  let row := {| st_gram := fst gram; st_path := path; st_line_number := snd gram |} in
  if bool_decide (row ∈ search_trigrams d) then d
  else with_search (search_files d) (search_lines d) (search_trigrams d ++ [row]) d.

Definition replace_search_index_rows (relative_path local_hash : bytes) (indexed_bytes : Z) (index_state : bytes)
    (last_error : option bytes) (lines : list (Z * bytes)) (trigrams : list (bytes * Z)) : Mir unit :=
  immediate_transaction (
    execute (delete_trigrams relative_path);;
    execute (delete_lines relative_path);;
    for_each (fun l => try_execute (insert_line relative_path l)) lines;;
    for_each (fun g => execute (insert_or_ignore_trigram relative_path g)) trigrams;;
    now ← now_ms;
    execute (fun d => with_search
      (<[relative_path := {| sf_local_hash := local_hash; sf_indexed_bytes := indexed_bytes;
         sf_line_count := zlen lines; sf_index_state := index_state; sf_last_error := last_error;
         sf_updated_at_ms := now |}]> (search_files d)) (search_lines d) (search_trigrams d) d)).

Section Index.
(** The text of [Utf8Error], which a binary file leaves in its row. *)
Context (utf8_error_text : bytes -> bytes).

Definition too_large_error : bytes := B"file exceeds local search index byte cap".
Definition replace_search_index_from_bytes (relative_path local_hash content : bytes) : Mir SearchIndexReadiness :=
  relative_path ← normalize relative_path;
  let indexed_bytes := zlen content in
  if indexed_bytes >? SEARCH_INDEX_MAX_FILE_BYTES then
    replace_search_index_rows relative_path local_hash indexed_bytes (B"too_large") (Some too_large_error) [] [];;
    mret Legacy
  else if negb (valid_utf8 content) then
    replace_search_index_rows relative_path local_hash indexed_bytes (B"binary")
      (Some (utf8_error_text content)) [] [];;
    mret Legacy
  else
    let lines := indexed_text_lines content in
    replace_search_index_rows relative_path local_hash indexed_bytes (B"ready") None lines
      (indexed_line_trigrams lines);;
    mret Ready.

Definition rebuild_search_index_from_local_file (entry : MirrorEntry) (local_hash : bytes) (file_len : Z) :
    Mir SearchIndexReadiness :=
  if file_len >? SEARCH_INDEX_MAX_FILE_BYTES then
    replace_search_index_rows (me_relative_path entry) local_hash file_len (B"too_large")
      (Some too_large_error) [] [];;
    mret Legacy
  else
    content ← context (B"failed to read local mirror file " ++ me_local_path entry ++ B" for search index")
                      (read_file (me_local_path entry));
    replace_search_index_from_bytes (me_relative_path entry) local_hash content.

Definition search_index_meta (relative_path : bytes) : Mir (option (bytes * bytes)) :=
  query (fun d => (fun r => (sf_local_hash r, sf_index_state r)) <$> search_files d !! relative_path).

Definition ensure_search_index_ready (entry : MirrorEntry) (file_len : Z) : Mir SearchIndexReadiness :=
  match recorded_hash entry with
  | None => mret Legacy
  | Some local_hash =>
      meta ← search_index_meta (me_relative_path entry);
      match meta with
      | Some (indexed_hash, state) =>
          if bytes_eqb indexed_hash local_hash then
            mret (if bytes_eqb state (B"ready") then Ready else Legacy)
          else rebuild_search_index_from_local_file entry local_hash file_len
      | None => rebuild_search_index_from_local_file entry local_hash file_len
      end
  end.
End Index.

(** ** Searching *)

Definition hit_of (entry : MirrorEntry) (line_number : Z) (text : bytes) (byte_idx : nat) : GrepHit := {|
  gh_path := me_relative_path entry; gh_local_path := me_local_path entry; gh_line := line_number;
  gh_column := Z.of_nat byte_idx + 1; gh_text := text; gh_dirty := me_dirty entry;
  gh_validation_state := me_validation_state entry |}.

Fixpoint grep_indexed_rows (entry : MirrorEntry) (query_ : bytes) (remaining : Z) (hits : list GrepHit)
    (rows : list (Z * bytes)) : Mir (list GrepHit * bool) :=
  match rows with
  | [] => mret (hits, false)
  | (line_number, text) :: rows =>
      sqlite (mret ());;
      match find_text query_ text with
      | Some byte_idx =>
          let hits := hits ++ [hit_of entry line_number text byte_idx] in
          if zlen hits >=? remaining then mret (hits, true)
          else grep_indexed_rows entry query_ remaining hits rows
      | None => grep_indexed_rows entry query_ remaining hits rows
      end
  end.

Definition by_line (a b : Z * bytes) : Prop := fst a <= fst b.
#[export] Instance by_line_dec a b : Decision (by_line a b).
Proof. unfold by_line. apply _. Defined.
Definition row_of_line (l : search_line) : Z * bytes := (sl_line_number l, sl_text l).
Definition lines_of (path : bytes) (d : database) : list (Z * bytes) :=
  row_of_line <$> List.filter (on_path sl_path path) (search_lines d).
Definition select_lines (path : bytes) (d : database) : list (Z * bytes) := merge_sort by_line (lines_of path d).
Definition grams_of (path gram : bytes) (d : database) : list search_trigram :=
  List.filter (fun g => on_path st_path path g && bytes_eqb (st_gram g) gram) (search_trigrams d).
Definition select_lines_with_gram (path gram : bytes) (d : database) : list (Z * bytes) :=
  merge_sort by_line
    (grams_of path gram d ≫= fun g => List.filter (fun l => fst l =? st_line_number g) (lines_of path d)).

Definition indexed_grep_hits_for_gram (entry : MirrorEntry) (query_ : bytes) (remaining : Z) (gram : bytes) :
    Mir (list GrepHit * bool) :=
  rows ← query (select_lines_with_gram (me_relative_path entry) gram);
  grep_indexed_rows entry query_ remaining [] rows.

Fixpoint rarest_loop (relative_path : bytes) (best : option (bytes * Z)) (trigrams : list bytes) : Mir (option bytes) :=
  match trigrams with
  | [] => mret (fst <$> best)
  | gram :: trigrams =>
      count ← query (fun d => zlen (grams_of relative_path gram d));
      if count =? 0 then mret (Some gram)
      else rarest_loop relative_path
             (if match best with Some (_, best_count) => count <? best_count | None => true end
              then Some (gram, count) else best) trigrams
  end.
Definition rarest_query_trigram (relative_path query_ : bytes) : Mir (option bytes) :=
  rarest_loop relative_path None (unique_trigrams query_).

Definition indexed_grep_hits (entry : MirrorEntry) (query_ : bytes) (remaining : Z) : Mir (list GrepHit * bool) :=
  if (SEARCH_TRIGRAM_BYTES <=? length query_)%nat then
    gram ← rarest_query_trigram (me_relative_path entry) query_;
    match gram with
    | Some gram => indexed_grep_hits_for_gram entry query_ remaining gram
    | None => mret ([], false)
    end
  else
    rows ← query (select_lines (me_relative_path entry));
    grep_indexed_rows entry query_ remaining [] rows.

(** [read_line] fails on a read error and on a line that is not UTF-8; the
    fuel is one more than the bytes left, and every line takes one at least. *)
Fixpoint legacy_loop (fuel : nat) (entry : MirrorEntry) (query_ : bytes) (remaining : Z) (hits : list GrepHit)
    (line_number : Z) (rest : bytes) : Mir (list GrepHit * bool * bool) :=
  match fuel with
  | O => mret (hits, false, false)
  | S fuel =>
      let '(line, rest) := split_line rest in
      r ← catch (io (lift (if valid_utf8 line then Ok line else Err (B"stream did not contain valid UTF-8"))));
      match r with
      | Err _ => mret (hits, true, false)
      | Ok [] => mret (hits, false, false)
      | Ok line =>
          let line_number := line_number + 1 in
          let line_text := trim_end is_line_end line in
          match find_text query_ line_text with
          | Some byte_idx =>
              let hits := hits ++ [hit_of entry line_number line_text byte_idx] in
              if zlen hits >=? remaining then mret (hits, false, true)
              else legacy_loop fuel entry query_ remaining hits line_number rest
          | None => legacy_loop fuel entry query_ remaining hits line_number rest
          end
      end
  end.
Definition legacy_grep_file (entry : MirrorEntry) (query_ : bytes) (remaining : Z) : Mir (list GrepHit * bool * bool) :=
  content ← read_file (me_local_path entry);
  legacy_loop (S (length content)) entry query_ remaining [] 0 content.
