(* ===== verification/SearchIndexProps.v ===== *)
(** * The trigram index answers what a scan answers *)
From S2P Require Import Prelude Paths MirrorDb MirrorLogic SearchIndex.
From stdpp Require Import sorting.
#[local] Open Scope Z_scope.

(** ** Lines of a text *)

Lemma split_line_cons b s : exists l r, split_line (b :: s) = (b :: l, r) /\ split_inclusive (b :: s) = (b :: l) :: split_inclusive r /\
  (length r <= length s)%nat.
Proof.
  revert b. induction s as [|c s IH]; intros b.
  - cbn. destruct (byte_eqb b x0a); [exists [], []; by cbn|]. exists [], []. by cbn.
  - destruct (IH c) as (l & r & H1 & H2 & H3).
    remember (c :: s) as cs eqn:E. cbn [split_line split_inclusive]. destruct (byte_eqb b x0a).
    + exists [], cs. cbn. split_and!; [done..|]. lia.
    + rewrite H1, H2. exists (c :: l), r. subst cs. cbn [length]. split_and!; [done..|]. lia.
Qed.

Lemma cont_not_newline lo hi b : 128 <= lo -> in_range lo hi b = true -> byte_eqb b x0a = false.
Proof.
  intros Hlo H. apply byte_eqb_false. intros ->. unfold in_range in H. apply andb_true_iff in H as [H%Z.leb_le _].
  change (u8 x0a) with 10 in H. lia.
Qed.

Lemma split_line_skip b s : byte_eqb b x0a = false ->
  split_line (b :: s) = (b :: fst (split_line s), snd (split_line s)).
Proof. intros H. cbn [split_line]. rewrite H. by destruct (split_line s). Qed.

(** Cutting a text after a newline keeps both parts well formed. *)
Lemma valid_utf8_split s : valid_utf8 s = true ->
  valid_utf8 (fst (split_line s)) = true /\ valid_utf8 (snd (split_line s)) = true.
Proof.
  induction s as [s IH] using (induction_ltof1 _ (@length byte)). unfold ltof in IH.
  assert (Hhigh : forall b, (u8 b <=? 127) = false -> byte_eqb b x0a = false).
  { intros b Hb. apply byte_eqb_false. by intros ->. }
  destruct s as [|b s]; [done|]. cbn [valid_utf8]. destruct (u8 b <=? 127) eqn:Eb.
  { intros H. destruct (byte_eqb b x0a) eqn:En.
    - cbn [split_line]. rewrite En. cbn. by rewrite Eb.
    - rewrite split_line_skip by done. cbn [fst snd valid_utf8]. rewrite Eb. apply IH; [cbn; lia | done]. }
  rewrite split_line_skip by auto. destruct s as [|c1 s]; [done|].
  assert (Hc : forall lo hi c r, 128 <= lo -> in_range lo hi c = true ->
    split_line (c :: r) = (c :: fst (split_line r), snd (split_line r)))
    by (intros; eapply split_line_skip, cont_not_newline; eauto).
  destruct (in_range 194 223 b) eqn:E2.
  { intros [H1 H]%andb_true_iff. rewrite (Hc 128 191) by (lia || done). cbn [fst snd valid_utf8].
    rewrite Eb, E2, H1. apply IH; [cbn; lia | done]. }
  destruct s as [|c2 s]; [done|]. destruct (in_range 224 239 b) eqn:E3.
  { intros [[H1 H2]%andb_true_iff H]%andb_true_iff.
    assert (H1' : exists lo hi, 128 <= lo /\ in_range lo hi c1 = true)
      by (destruct (u8 b =? 224); [exists 160, 191|destruct (u8 b =? 237); [exists 128, 159|exists 128, 191]]; (split; [lia | done])).
    destruct H1' as (lo & hi & Hlo & H1'). rewrite (Hc lo hi c1) by done. cbn [fst snd].
    rewrite (Hc 128 191 c2) by (lia || done). cbn [fst snd valid_utf8]. rewrite Eb, E2, E3, H1, H2.
    apply IH; [cbn; lia | done]. }
  destruct s as [|c3 s]; [done|].
  intros [[[[E4 H1]%andb_true_iff H2]%andb_true_iff H3]%andb_true_iff H]%andb_true_iff.
  assert (H1' : exists lo hi, 128 <= lo /\ in_range lo hi c1 = true)
    by (destruct (u8 b =? 240); [exists 144, 191|destruct (u8 b =? 244); [exists 128, 143|exists 128, 191]]; (split; [lia | done])).
  destruct H1' as (lo & hi & Hlo & H1'). rewrite (Hc lo hi c1) by done. cbn [fst snd].
  rewrite (Hc 128 191 c2) by (lia || done). cbn [fst snd].
  rewrite (Hc 128 191 c3) by (lia || done). cbn [fst snd valid_utf8].
  rewrite Eb, E2, E3, E4, H1, H2, H3. apply IH; [cbn; lia | done].
Qed.

(** ** The search as a scan of numbered lines *)

Fixpoint scan_lines (entry : MirrorEntry) (query_ : bytes) (remaining : Z) (hits : list GrepHit)
    (rows : list (Z * bytes)) : list GrepHit * bool :=
  match rows with
  | [] => (hits, false)
  | (n, text) :: rows =>
      match find_text query_ text with
      | Some i =>
          let hits := hits ++ [hit_of entry n text i] in
          if zlen hits >=? remaining then (hits, true) else scan_lines entry query_ remaining hits rows
      | None => scan_lines entry query_ remaining hits rows
      end
  end.

(** Rows without a match can be left out. *)
Lemma scan_lines_filter entry q remaining (p : Z * bytes -> bool) rows hits :
  (forall r, r ∈ rows -> find_text q (snd r) <> None -> p r = true) ->
  scan_lines entry q remaining hits (List.filter p rows) = scan_lines entry q remaining hits rows.
Proof.
  revert hits. induction rows as [|[n text] rows IH]; intros hits H; [done|].
  assert (IH' : forall hits, scan_lines entry q remaining hits (List.filter p rows) = scan_lines entry q remaining hits rows)
    by (intros; apply IH; intros; apply H; [by right | done]).
  cbn [List.filter scan_lines]. destruct (p (n, text)) eqn:Ep; cbn [scan_lines].
  - destruct (find_text q text); [|done]. by rewrite IH'.
  - destruct (find_text q text) eqn:Ef; [|done].
    rewrite (H (n, text)) in Ep; [done | by left | by cbn; rewrite Ef].
Qed.

Lemma grep_rows_run entry q remaining hits rows m : calm m ->
  grep_indexed_rows entry q remaining hits rows m = (Ok (scan_lines entry q remaining hits rows), m).
Proof.
  intros Hm. revert hits. induction rows as [|[n text] rows IH]; intros hits; [done|].
  cbn [grep_indexed_rows scan_lines]. rewrite Mir_bind_run, sqlite_calm by done. cbn [mret Mir_ret].
  destruct (find_text q text); [|apply IH]. destruct (_ >=? remaining); [done | apply IH].
Qed.

Lemma legacy_run entry q remaining m : calm m -> forall fuel hits n rest,
  valid_utf8 rest = true -> (length rest < fuel)%nat ->
  legacy_loop fuel entry q remaining hits n rest m =
    (let '(hits, stop) := scan_lines entry q remaining hits (number_lines (n + 1) (split_inclusive rest)) in
     (Ok (hits, false, stop), m)).
Proof.
  intros Hm fuel. induction fuel as [|fuel IH]; intros hits n rest Hv Hf; [lia|].
  cbn [legacy_loop]. pose proof (valid_utf8_split rest Hv) as [Hl Hr].
  destruct rest as [|b rest].
  { cbn [split_line]. rewrite Mir_bind_run. unfold catch. by rewrite io_calm by done. }
  destruct (split_line_cons b rest) as (l & r & E & -> & Hlen). rewrite E in Hl, Hr |- *. cbn [fst snd] in Hl, Hr.
  rewrite Mir_bind_run. unfold catch. rewrite io_calm by done. unfold lift. rewrite Hl.
  cbn [number_lines scan_lines]. cbn [length] in Hf.
  destruct (find_text q (trim_end is_line_end (b :: l))); [|apply IH; [done | lia]].
  destruct (_ >=? remaining); [done|]. apply IH; [done | lia].
Qed.

(** ** Windows *)

Lemma windows_elem n s w : w ∈ windows n s -> exists pre post, s = pre ++ w ++ post /\ length w = n.
Proof.
  induction s as [|b s IH]; cbn [windows]; [by intros ?%elem_of_nil|].
  destruct (Nat.leb_spec n (length (b :: s))) as [Hn|]; [|by intros ?%elem_of_nil].
  intros [->|Hw]%elem_of_cons.
  - exists [], (drop n (b :: s)). split; [by rewrite take_drop|]. rewrite length_take. lia.
  - destruct (IH Hw) as (pre & post & -> & H). by exists (b :: pre), post.
Qed.

Lemma elem_windows n s pre w post : s = pre ++ w ++ post -> length w = n -> n <> 0%nat -> w ∈ windows n s.
Proof.
  intros -> Hw Hn. induction pre as [|b pre IH].
  - cbn [app]. destruct w as [|c w]; [cbn in Hw; congruence|]. cbn [app windows].
    destruct (Nat.leb_spec n (length (c :: w ++ post))) as [|Hc].
    + apply elem_of_cons. left. change (c :: w ++ post) with ((c :: w) ++ post). by rewrite <- Hw, take_app_length.
    + cbn [length] in Hw, Hc. rewrite length_app in Hc. lia.
  - cbn [app windows]. destruct (Nat.leb_spec n (length (b :: pre ++ w ++ post))) as [|Hc]; [by right|].
    cbn [length] in Hc. rewrite !length_app in Hc. lia.
Qed.

Lemma dedup_elem (ws acc : list bytes) g :
  g ∈ foldl (fun ts w => if bool_decide (w ∈ ts) then ts else ts ++ [w]) acc ws <-> g ∈ acc \/ g ∈ ws.
Proof.
  revert acc. induction ws as [|w ws IH]; intros acc; cbn [foldl]; [set_solver|].
  rewrite IH. case_bool_decide; set_solver.
Qed.

Lemma dedup_NoDup (ws acc : list bytes) :
  NoDup acc -> NoDup (foldl (fun ts w => if bool_decide (w ∈ ts) then ts else ts ++ [w]) acc ws).
Proof.
  revert acc. induction ws as [|w ws IH]; intros acc H; cbn [foldl]; [done|]. apply IH.
  case_bool_decide as Hw; [done|]. apply NoDup_app. split_and!; [done| |apply NoDup_singleton]. set_solver.
Qed.

Lemma unique_trigrams_elem s g : g ∈ unique_trigrams s <-> g ∈ windows SEARCH_TRIGRAM_BYTES s.
Proof.
  unfold unique_trigrams. destruct (Nat.ltb_spec (length s) SEARCH_TRIGRAM_BYTES) as [Hs|].
  - split; [by intros ?%elem_of_nil|]. intros (pre & post & -> & Hw)%windows_elem.
    rewrite !length_app in Hs. lia.
  - rewrite dedup_elem. set_solver.
Qed.

Lemma unique_trigrams_NoDup s : NoDup (unique_trigrams s).
Proof. unfold unique_trigrams. destruct (_ <? _)%nat; [constructor | apply dedup_NoDup; constructor]. Qed.


(** A line that holds the query holds every window of the query. *)
Lemma gram_of_match q s g : find_text q s <> None -> g ∈ unique_trigrams q -> g ∈ unique_trigrams s.
Proof.
  rewrite !unique_trigrams_elem. destruct (find_text q s) as [i|] eqn:E; [intros _|done].
  apply find_text_Some in E as (pre & post & -> & _). intros (p1 & p2 & -> & Hg)%windows_elem.
  apply (elem_windows _ _ (pre ++ p1) g (p2 ++ post)); [by rewrite <- !app_assoc | done | done].
Qed.

(** ** Numbered lines are in order *)

Definition line_lt (a b : Z * bytes) : Prop := fst a < fst b.

Lemma number_lines_ge n ls l : l ∈ number_lines n ls -> n <= fst l.
Proof.
  revert n. induction ls as [|x ls IH]; intros n; cbn [number_lines]; [by intros ?%elem_of_nil|].
  intros [->|H%IH]%elem_of_cons; cbn; lia.
Qed.

Lemma number_lines_sorted n ls : StronglySorted line_lt (number_lines n ls).
Proof.
  revert n. induction ls as [|x ls IH]; intros n; cbn [number_lines]; constructor; [done|].
  apply Forall_forall. intros l H%number_lines_ge. unfold line_lt. cbn. lia.
Qed.

Lemma sorted_filter {A} (R : relation A) (p : A -> bool) l : StronglySorted R l -> StronglySorted R (List.filter p l).
Proof.
  induction 1 as [|x l _ IH Hx]; cbn; [constructor|]. destruct (p x); [|done]. constructor; [done|].
  apply Forall_forall. rewrite Forall_forall in Hx. intros y Hy. apply Hx.
  apply list_elem_of_In in Hy. apply List.filter_In in Hy as [Hy _]. by apply list_elem_of_In.
Qed.

#[local] Instance by_line_total : Total by_line.
Proof. intros x y. unfold by_line. lia. Qed.
#[local] Instance by_line_trans : Transitive by_line.
Proof. intros x y z. unfold by_line. lia. Qed.

Lemma sort_sorted l : StronglySorted line_lt l -> merge_sort by_line l = l.
Proof.
  intros Hl. assert (Hkey : forall a b, a ∈ l -> b ∈ l -> fst a = fst b -> a = b).
  { induction Hl as [|x l _ IH Hx]; [by intros a b ?%elem_of_nil|]. rewrite Forall_forall in Hx.
    intros a b [->|Ha]%elem_of_cons [->|Hb]%elem_of_cons E; [done| | |by apply IH].
    - specialize (Hx b Hb). unfold line_lt in Hx. lia.
    - specialize (Hx a Ha). unfold line_lt in Hx. lia. }
  apply (StronglySorted_unique_strong by_line).
  - intros a b Ha Hb. rewrite merge_sort_Permutation in Ha. unfold by_line. intros. apply Hkey; [done..|lia].
  - apply StronglySorted_merge_sort; apply _.
  - clear Hkey. induction Hl as [|x l _ IH Hx]; constructor; [done|]. eapply Forall_impl; [done|].
    intros y. unfold line_lt, by_line. lia.
  - apply merge_sort_Permutation.
Qed.

Lemma filter_none {A} (p : A -> bool) l : (forall x, x ∈ l -> p x = false) -> List.filter p l = [].
Proof.
  induction l as [|x l IH]; intros H; cbn; [done|]. rewrite H by (by left). apply IH. intros y Hy. apply H. by right.
Qed.

Lemma lookup_line l (x : Z * bytes) : StronglySorted line_lt l -> x ∈ l -> List.filter (fun y => fst y =? fst x) l = [x].
Proof.
  induction 1 as [|y l Hl IH Hy]; [by intros ?%elem_of_nil|]. rewrite Forall_forall in Hy. cbn [List.filter].
  intros [->|Hx]%elem_of_cons.
  - rewrite Z.eqb_refl. f_equal. apply filter_none. intros z Hz. specialize (Hy z Hz). unfold line_lt in Hy. lia.
  - specialize (Hy x Hx). unfold line_lt in Hy. rewrite (proj2 (Z.eqb_neq _ _)) by lia. by apply IH.
Qed.

(** ** The tables after the file was indexed *)

Definition line_has (g : bytes) (l : Z * bytes) : bool := bool_decide (g ∈ unique_trigrams (snd l)).
Definition indexes (path content : bytes) (d : database) : Prop :=
  lines_of path d = indexed_text_lines content /\
  forall g, st_line_number <$> grams_of path g d = fst <$> List.filter (line_has g) (indexed_text_lines content).

Lemma filter_filter {A} (p q : A -> bool) l : List.filter p (List.filter q l) = List.filter (fun x => q x && p x) l.
Proof. induction l as [|x l IH]; cbn; [done|]. destruct (q x); cbn; [|done]. by destruct (p x); rewrite IH. Qed.

Lemma filter_nodup_eq (g : bytes) l : NoDup l ->
  List.filter (fun x => bytes_eqb x g) l = if bool_decide (g ∈ l) then [g] else [].
Proof.
  induction 1 as [|x l Hx _ IH]; cbn [List.filter]; [by rewrite bool_decide_eq_false_2 by apply not_elem_of_nil|].
  destruct (bytes_eqb x g) eqn:E.
  - apply bytes_eqb_true in E as ->. rewrite bool_decide_eq_true_2 by (by left). rewrite IH.
    by rewrite bool_decide_eq_false_2.
  - apply bytes_eqb_false in E. rewrite IH. rewrite (bool_decide_ext (g ∈ l) (g ∈ x :: l)); [done | set_solver].
Qed.

Lemma insert_lines_run path ls d d' : try_fold (fun d l => insert_line path l d) d ls = Ok d' ->
  lines_of path d' = lines_of path d ++ ls /\ search_trigrams d' = search_trigrams d.
Proof.
  revert d. induction ls as [|[n t] ls IH]; intros d; cbn [try_fold].
  - intros [= <-]. by rewrite app_nil_r.
  - rewrite bind_Ok. intros (d1 & H1 & H2). apply IH in H2 as [-> ->]. unfold insert_line in H1.
    destruct (existsb _ _); [done|]. injection H1 as <-. split; [|done].
    unfold lines_of. cbn [search_lines with_search]. rewrite List.filter_app, fmap_app. cbn [List.filter].
    unfold on_path at 2. cbn [sl_path]. rewrite (proj2 (bytes_eqb_true path path) eq_refl). cbn. by rewrite <- app_assoc.
Qed.

Lemma try_fold_pure {E A X} (f : A -> X -> A) a (l : list X) : try_fold (E := E) (fun a x => Ok (f a x)) a l = Ok (foldl f a l).
Proof. revert a. induction l as [|x l IH]; intros a; cbn; [done | apply IH]. Qed.

Definition gram_row (path : bytes) (g : bytes * Z) : search_trigram :=
  {| st_gram := fst g; st_path := path; st_line_number := snd g |}.

Lemma insert_grams_run path gs d : NoDup gs -> (forall g, g ∈ gs -> gram_row path g ∉ search_trigrams d) ->
  let d' := foldl (fun d g => insert_or_ignore_trigram path g d) d gs in
  search_trigrams d' = search_trigrams d ++ (gram_row path <$> gs) /\ search_lines d' = search_lines d.
Proof.
  intros Hnd. revert d. induction Hnd as [|g gs Hg Hnd IH]; intros d Hd; cbn [foldl fmap list_fmap].
  - by rewrite app_nil_r.
  - assert (Hins : insert_or_ignore_trigram path g d =
      with_search (search_files d) (search_lines d) (search_trigrams d ++ [gram_row path g]) d).
    { unfold insert_or_ignore_trigram. fold (gram_row path g).
      by rewrite bool_decide_eq_false_2 by (apply Hd; by left). }
    rewrite Hins. destruct (IH (with_search (search_files d) (search_lines d) (search_trigrams d ++ [gram_row path g]) d))
      as [-> ->].
    + cbn. intros h Hh [H|H%list_elem_of_singleton]%elem_of_app; [apply (Hd h); [by right | done]|].
      apply Hg. destruct g, h. injection H as -> ->. done.
    + cbn. by rewrite <- app_assoc.
Qed.

Lemma line_trigrams_cons n t ls : indexed_line_trigrams ((n, t) :: ls) =
  ((fun gram => (gram, n)) <$> unique_trigrams t) ++ indexed_line_trigrams ls.
Proof. done. Qed.

Lemma line_trigrams_number ls g : g ∈ indexed_line_trigrams ls -> exists l, l ∈ ls /\ snd g = fst l /\ fst g ∈ unique_trigrams (snd l).
Proof.
  unfold indexed_line_trigrams. intros ([n t] & Hg & Hl)%list_elem_of_bind.
  apply list_elem_of_fmap in Hg as (w & -> & Hw). by exists (n, t).
Qed.

Lemma line_trigrams_NoDup ls : StronglySorted line_lt ls -> NoDup (indexed_line_trigrams ls).
Proof.
  induction 1 as [|[n t] ls Hls IH Hn]; [constructor|]. rewrite line_trigrams_cons.
  apply NoDup_app. split_and!; [| |exact IH].
  - apply NoDup_fmap_2; [intros x y [= ->]; done | apply unique_trigrams_NoDup].
  - intros g (w & -> & _)%list_elem_of_fmap (l & Hl & E & _)%line_trigrams_number.
    rewrite Forall_forall in Hn. specialize (Hn l Hl). unfold line_lt in Hn. cbn in E, Hn. lia.
Qed.

Lemma line_trigrams_filter path ls g :
  st_line_number <$> List.filter (fun r => on_path st_path path r && bytes_eqb (st_gram r) g)
                       (gram_row path <$> indexed_line_trigrams ls) = fst <$> List.filter (line_has g) ls.
Proof.
  induction ls as [|[n t] ls IH]; [done|]. rewrite line_trigrams_cons, fmap_app, List.filter_app, fmap_app, IH. clear IH. cbn [List.filter]. unfold line_has at 2. cbn [snd].
  assert (H : forall us, st_line_number <$> List.filter (fun r => on_path st_path path r && bytes_eqb (st_gram r) g)
     (gram_row path <$> ((fun gram => (gram, n)) <$> us)) = (fun _ => n) <$> List.filter (fun x => bytes_eqb x g) us).
  { intros us. induction us as [|u us IHu]; [done|]. cbn [fmap list_fmap List.filter]. unfold on_path at 1.
    cbn [gram_row st_path st_gram fst]. rewrite (proj2 (bytes_eqb_true path path) eq_refl). cbn [andb].
    destruct (bytes_eqb u g); cbn [fmap list_fmap]; by rewrite <- IHu. }
  rewrite H, filter_nodup_eq by apply unique_trigrams_NoDup. by case_bool_decide.
Qed.

Lemma deleted_lines path d : lines_of path (delete_lines path d) = [].
Proof.
  unfold lines_of. cbn [search_lines delete_lines with_search]. rewrite filter_filter, filter_none; [done|].
  intros r _. apply andb_negb_l.
Qed.

(** A successful indexing leaves exactly the index of the content. *)
Lemma replace_rows_indexes path h n content m x m' :
  let lines := indexed_text_lines content in
  replace_search_index_rows path h n (B"ready") None lines (indexed_line_trigrams lines) m = (Ok x, m') ->
  indexes path content (mr_db m') /\ mr_disk m' = mr_disk m.
Proof.
  intros lines (_ & _ & m1 & y & m2 & Hd1 & Hk1 & _ & Ha & Hd & Hk)%immediate_transaction_Ok.
  apply Mir_bind_Ok in Ha as (? & a1 & (E1 & _ & K1)%execute_Ok & Ha).
  apply Mir_bind_Ok in Ha as (? & a2 & (E2 & _ & K2)%execute_Ok & Ha).
  apply Mir_bind_Ok in Ha as (? & a3 & (E3 & _ & K3)%for_each_Ok & Ha).
  apply Mir_bind_Ok in Ha as (? & a4 & (E4 & _ & K4)%for_each_Ok & Ha).
  apply Mir_bind_Ok in Ha as (now & a5 & (E5 & _ & K5)%now_ms_Ok & (E6 & _ & K6)%execute_Ok).
  rewrite Hk, K6, K5, K4, K3, K2, K1, Hk1. split; [|done].
  apply insert_lines_run in E3 as [E3 T3]. rewrite try_fold_pure in E4. injection E4 as E4.
  assert (Hsort : StronglySorted line_lt lines) by apply number_lines_sorted.
  assert (Hdel : forall r, r ∈ search_trigrams (mr_db a3) -> st_path r <> path).
  { rewrite T3, E2, E1. intros r Hr%list_elem_of_In Hp. cbn in Hr. apply List.filter_In in Hr as [_ Hr].
    unfold on_path in Hr. rewrite Hp, (proj2 (bytes_eqb_true path path) eq_refl) in Hr. done. }
  destruct (insert_grams_run path (indexed_line_trigrams lines) (mr_db a3)) as [G1 G2].
  - by apply line_trigrams_NoDup.
  - intros g _ Hr%Hdel. done.
  - rewrite E4, <- E5 in G1, G2. unfold indexes, lines_of, grams_of. rewrite Hd, E6. cbn [search_lines search_trigrams with_search].
    rewrite G1, G2. fold (lines_of path (mr_db a3)). rewrite E3, E2, deleted_lines. split; [done|].
    intros g. rewrite List.filter_app, fmap_app, line_trigrams_filter, filter_none; [done|].
    intros r Hr%Hdel. unfold on_path. by apply bytes_eqb_false in Hr as ->.
Qed.

(** ** Reading the index *)

Lemma bind_lookup (ls sub : list (Z * bytes)) : StronglySorted line_lt ls -> (forall l, l ∈ sub -> l ∈ ls) ->
  ((fst <$> sub) ≫= fun n => List.filter (fun l => fst l =? n) ls) = sub.
Proof.
  intros Hs. induction sub as [|x sub IH]; intros Hsub; [done|]. cbn [fmap list_fmap mbind list_bind].
  rewrite (lookup_line ls x) by (done || (apply Hsub; by left)). cbn [app]. f_equal. apply IH.
  intros l Hl. apply Hsub. by right.
Qed.

Lemma bind_fmap_key {A B C} (f : A -> B) (g : B -> list C) (l : list A) : (f <$> l) ≫= g = l ≫= fun x => g (f x).
Proof. induction l as [|x l IH]; cbn; [done|]. by rewrite <- IH. Qed.

Lemma select_gram path content d g : indexes path content d ->
  select_lines_with_gram path g d = List.filter (line_has g) (indexed_text_lines content).
Proof.
  intros [Hl Hg]. unfold select_lines_with_gram.
  rewrite <- (bind_fmap_key st_line_number (fun n => List.filter (fun l => fst l =? n) (lines_of path d))).
  rewrite Hg, Hl, bind_lookup; [apply sort_sorted, sorted_filter, number_lines_sorted | apply number_lines_sorted|].
  intros l Hin%list_elem_of_In. apply List.filter_In in Hin as [Hin _]. by apply list_elem_of_In.
Qed.

Lemma rarest_run path q m : calm m -> (SEARCH_TRIGRAM_BYTES <= length q)%nat ->
  exists g, rarest_query_trigram path q m = (Ok (Some g), m) /\ g ∈ unique_trigrams q.
Proof.
  intros Hm Hq. unfold rarest_query_trigram.
  assert (Hne : unique_trigrams q <> []).
  { intros E. assert (Hin : take 3 q ∈ unique_trigrams q).
    { apply unique_trigrams_elem, (elem_windows _ _ [] (take 3 q) (drop 3 q)); [by rewrite take_drop| |done].
      unfold SEARCH_TRIGRAM_BYTES in *. rewrite length_take. lia. }
    rewrite E in Hin. by apply elem_of_nil in Hin. }
  assert (Hgen : forall ts best, (forall b c, best = Some (b, c) -> b ∈ unique_trigrams q) -> ts ⊆ unique_trigrams q ->
    ts <> [] \/ best <> None ->
    exists g, rarest_loop path best ts m = (Ok (Some g), m) /\ g ∈ unique_trigrams q).
  { induction ts as [|t ts IH]; intros best Hb Hts Hsome; cbn [rarest_loop].
    - destruct best as [[b c]|]; [|by destruct Hsome]. exists b. split; [done|]. by eapply Hb.
    - rewrite Mir_bind_run, query_calm by done. destruct (_ =? 0); [exists t; split; [done|]; set_solver|].
      apply IH; [|set_solver|].
      + intros b c E. destruct best as [[b' c']|]; [destruct (_ <? c')|]; simplify_eq; [set_solver| |set_solver]; by eapply Hb.
      + right. destruct best as [[b' c']|]; [by destruct (_ <? c')|done]. }
  apply Hgen; [done | done | by left].
Qed.

Lemma indexed_grep_run entry q remaining content m : calm m -> indexes (me_relative_path entry) content (mr_db m) ->
  indexed_grep_hits entry q remaining m = (Ok (scan_lines entry q remaining [] (indexed_text_lines content)), m).
Proof.
  intros Hm Hi. unfold indexed_grep_hits. destruct (Nat.leb_spec SEARCH_TRIGRAM_BYTES (length q)) as [Hq|Hq].
  - rewrite Mir_bind_run. destruct (rarest_run (me_relative_path entry) q m Hm Hq) as (g & -> & Hg).
    unfold indexed_grep_hits_for_gram. rewrite Mir_bind_run, query_calm by done.
    rewrite (select_gram _ content) by done. rewrite grep_rows_run by done.
    rewrite scan_lines_filter; [done|]. intros r _ Hr. apply bool_decide_eq_true_2. by eapply gram_of_match.
  - rewrite Mir_bind_run, query_calm by done. rewrite grep_rows_run by done. unfold select_lines.
    destruct Hi as [-> _]. by rewrite sort_sorted by apply number_lines_sorted.
Qed.

(** C17 (equivalence): once a file was indexed, and as long as its index rows
    and its bytes stay the same, searching through the trigram index returns the
    same hits, in the same order, cut at the same limit and with the same
    limit flag, as reading the file line by line; for every query (also one
    shorter than a trigram, or empty) and every limit. *)
Theorem indexed_grep_equals_file_scan utf8_error_text entry h content m0 m1 m q remaining :
  let path := me_relative_path entry in
  normalized_path_string path = Some path ->
  replace_search_index_from_bytes utf8_error_text path h content m0 = (Ok Ready, m1) ->
  lines_of path (mr_db m) = lines_of path (mr_db m1) ->
  (forall g, grams_of path g (mr_db m) = grams_of path g (mr_db m1)) ->
  mr_disk m !! me_local_path entry = Some content -> calm m ->
  exists hits stop,
    indexed_grep_hits entry q remaining m = (Ok (hits, stop), m) /\
    legacy_grep_file entry q remaining m = (Ok (hits, false, stop), m).
Proof.
  intros path Hpath Hrep Hlines Hgrams Hdisk Hm.
  assert (Hv : valid_utf8 content = true /\ indexes path content (mr_db m1)).
  { unfold replace_search_index_from_bytes, normalize in Hrep. apply Mir_bind_Ok in Hrep as (p & m2 & Hp & Hrep).
    unfold normalized_path_string in Hpath. destruct (normalize_relative_path path) as [clean|]; [|done].
    injection Hpath as Hpath. injection Hp as <- <-. rewrite Hpath in Hrep.
    destruct (_ >? _); [by apply Mir_bind_Ok in Hrep as (? & ? & _ & ?)|].
    destruct (valid_utf8 content) eqn:Hv; [|by apply Mir_bind_Ok in Hrep as (? & ? & _ & ?)].
    apply Mir_bind_Ok in Hrep as (x & m3 & Hrows%replace_rows_indexes & [= <-]). split; [done|]. apply Hrows. }
  destruct Hv as [Hv Hi]. destruct (scan_lines entry q remaining [] (indexed_text_lines content)) as [hits stop] eqn:Es.
  exists hits, stop. split.
  - rewrite (indexed_grep_run _ _ _ content), Es; [done..|]. destruct Hi as [Hi1 Hi2].
    split; [exact (eq_trans Hlines Hi1) | intros g; fold path; rewrite Hgrams; apply Hi2].
  - unfold legacy_grep_file. rewrite Mir_bind_run, read_file_calm, Hdisk by done. cbn [ok_or].
    rewrite legacy_run; [|done..|lia]. change (0 + 1) with 1. fold (indexed_text_lines content). by rewrite Es.
Qed.

Definition demo_entry : MirrorEntry := {|
  me_relative_path := B"src/a.rs"; me_local_path := B"/m/files/src/a.rs"; me_size := 0; me_remote_hash := None;
  me_local_hash := None; me_state := B"hydrated"; me_dirty := false; me_validated_at_ms := 0;
  me_validation_state := B"valid"; me_last_error := None |}.
Definition demo_text : bytes := B"fn main()" ++ [x0d; x0a] ++ B"main main" ++ [x0a] ++ B"mai".
Definition demo_mirror : mirror := {|
  mr_db := empty_database; mr_txn := None; mr_disk := {[ B"/m/files/src/a.rs" := demo_text ]}; mr_clock := 0;
  mr_ticks := []; mr_faults := [] |}.
Definition indexed_mirror : mirror :=
  snd (replace_search_index_from_bytes (fun _ => []) (B"src/a.rs") (B"h") demo_text demo_mirror).

Lemma indexed_grep_equals_file_scan_witness :
  exists hits stop,
    indexed_grep_hits demo_entry (B"main") 10 indexed_mirror = (Ok (hits, stop), indexed_mirror) /\
    legacy_grep_file demo_entry (B"main") 10 indexed_mirror = (Ok (hits, false, stop), indexed_mirror).
Proof.
  apply (indexed_grep_equals_file_scan (fun _ => []) demo_entry (B"h") demo_text demo_mirror indexed_mirror);
    [vm_compute; reflexivity.. | intros g; reflexivity | vm_compute; reflexivity | reflexivity].
Defined.

(** The two lines that hold the query are found, with their columns. *)
Example indexed_grep_demo :
  match fst (indexed_grep_hits demo_entry (B"main") 10 indexed_mirror) with
  | Ok (hits, _) => map (fun h => (gh_line h, gh_column h)) hits
  | Err _ => []
  end = [(1, 4); (2, 1)].
Proof. vm_compute. reflexivity. Qed.

(** ** Indexing succeeds and touches the index only *)

Definition index_only (d d' : database) : Prop :=
  files d' = files d /\ save_queue d' = save_queue d /\ sqlite_sequence d' = sqlite_sequence d /\
  workspace_state d' = workspace_state d.
Definition besides_index (m0 m : mirror) : Prop := index_only (mr_db m0) (mr_db m) /\ mr_disk m = mr_disk m0.

Lemma besides_index_stable m0 (t : option database) : stable (fun m => mr_txn m = t /\ besides_index m0 m).
Proof. intros m m' (H1 & H2 & H3) [H4 [H5 H6]]. unfold besides_index. rewrite H1, H2, H3. done. Qed.
Lemma besides_index_search m0 m sf sl st :
  besides_index m0 m -> besides_index m0 (with_db (mr_txn m) (with_search sf sl st (mr_db m)) m).
Proof. intros [(H1 & H2 & H3 & H4) H5]. by split_and!. Qed.

Section IndexTotal.
Context (path : bytes) (m0 : mirror) (image : database).

Definition in_transaction (m : mirror) : Prop := mr_txn m = Some image /\ besides_index m0 m.
Lemma in_transaction_search m sf sl st : in_transaction m ->
  in_transaction (with_db (mr_txn m) (with_search sf sl st (mr_db m)) m).
Proof. intros [H1 H2]. split; [done | by apply besides_index_search]. Qed.

Lemma succeeds_insert_lines (ls : list (Z * bytes)) : NoDup (fst <$> ls) ->
  succeeds (fun m => in_transaction m /\ forall r, r ∈ search_lines (mr_db m) -> sl_path r = path -> sl_line_number r ∉ fst <$> ls)
    (for_each (fun l => try_execute (insert_line path l)) ls) (fun _ => in_transaction).
Proof.
  induction ls as [|[n t] ls IH]; cbn [for_each fmap list_fmap]; [intros _; apply succeeds_ret; by intros m []|].
  intros [Hn Hnd]%NoDup_cons. eapply (succeeds_bind _ _ _ (fun _ m => in_transaction m /\
    forall r, r ∈ search_lines (mr_db m) -> sl_path r = path -> sl_line_number r ∉ fst <$> ls)); [|intros []; by apply IH].
  intros m Hm [Hin Hfresh]. unfold try_execute. rewrite sqlite_calm by done. unfold insert_line.
  rewrite (proj2 (existsb_false _ _)).
  - eexists _, _. split; [done|]. split; [done|]. split; [by apply in_transaction_search|].
    cbn. intros r Hr Hp. apply elem_of_app in Hr as [Hr|Hr]; [|apply list_elem_of_singleton in Hr; by subst r].
    specialize (Hfresh r Hr Hp). cbn in Hfresh. set_solver.
  - apply Forall_forall. intros r Hr. unfold on_path. destruct (bytes_eqb (sl_path r) path) eqn:Ep; [|done].
    apply bytes_eqb_true in Ep. specialize (Hfresh r Hr Ep). cbn in Hfresh |- *. apply Z.eqb_neq. set_solver.
Qed.

Lemma succeeds_insert_grams gs :
  succeeds in_transaction (for_each (fun g => execute (insert_or_ignore_trigram path g)) gs) (fun _ => in_transaction).
Proof.
  induction gs as [|g gs IH]; cbn [for_each]; [by apply succeeds_ret|]. eapply (succeeds_bind _ _ _ (fun _ => in_transaction)); [|intros []; exact IH].
  apply succeeds_execute. intros m Hm. unfold insert_or_ignore_trigram.
  case_bool_decide; [by destruct Hm as [? ?]; split | by apply in_transaction_search].
Qed.
End IndexTotal.

Lemma succeeds_replace_rows m0 path h n st err (ls : list (Z * bytes)) gs : NoDup (fst <$> ls) ->
  succeeds (fun m => mr_txn m = None /\ besides_index m0 m) (replace_search_index_rows path h n st err ls gs)
    (fun _ m => mr_txn m = None /\ besides_index m0 m).
Proof.
  intros Hnd m Hm [Ht Hb]. apply (succeeds_transaction _ (fun m1 => mr_txn m1 = None /\ besides_index m0 m1 /\ mr_db m1 = mr_db m)
    (in_transaction m0 (mr_db m))); [|clear Hm Ht Hb|done|by split_and!].
  { intros m1 (H1 & H2 & H3). split; [done|]. rewrite H3. split; [done|]. cbn. by rewrite <- H3. }
  eapply succeeds_bind; [apply (succeeds_execute _ _ (fun _ => in_transaction m0 (mr_db m))); intros; by apply in_transaction_search|].
  intros []. eapply succeeds_bind; [apply (succeeds_execute _ _ (fun _ m1 => in_transaction m0 (mr_db m) m1 /\
    forall r, r ∈ search_lines (mr_db m1) -> sl_path r = path -> sl_line_number r ∉ fst <$> ls))|].
  { intros m1 H1. split; [by apply in_transaction_search|]. cbn. intros r Hr%list_elem_of_In Hp.
    apply List.filter_In in Hr as [_ Hr]. unfold on_path in Hr. rewrite Hp, (proj2 (bytes_eqb_true path path) eq_refl) in Hr. done. }
  intros []. eapply succeeds_bind; [by apply succeeds_insert_lines|].
  intros []. eapply succeeds_bind; [apply succeeds_insert_grams|].
  intros []. eapply succeeds_bind; [apply succeeds_now, besides_index_stable|].
  intros now. apply succeeds_execute. intros m1 H1. split; [by destruct H1 as [-> _]|]. split; [done|].
  destruct H1 as [_ H1]. exact (besides_index_search m0 m1 _ _ _ H1).
Qed.

Lemma number_lines_NoDup n ls : NoDup (fst <$> number_lines n ls).
Proof.
  revert n. induction ls as [|l ls IH]; intros n; cbn [number_lines fmap list_fmap]; constructor; [|apply IH].
  intros (x & E & Hx%number_lines_ge)%list_elem_of_fmap. cbn in E. lia.
Qed.

Lemma succeeds_replace_bytes m0 u path h content : is_ok (normalize_relative_path path) = true ->
  succeeds (fun m => mr_txn m = None /\ besides_index m0 m) (replace_search_index_from_bytes u path h content)
    (fun _ m => mr_txn m = None /\ besides_index m0 m).
Proof.
  intros Hp. destruct (normalize_relative_path path) as [clean|] eqn:E; [|done].
  eapply (succeeds_bind _ _ _ (fun _ m => mr_txn m = None /\ besides_index m0 m));
    [unfold normalize; rewrite E; by eapply succeeds_lift|].
  intros p. cbv beta zeta. destruct (_ >? _); [|destruct (negb _)];
    (eapply succeeds_bind; [apply succeeds_replace_rows | intros []; by apply succeeds_ret]); [constructor..|apply number_lines_NoDup].
Qed.
