(* ===== verification/Mirror.v ===== *)
(** * The mirror's operations (nrm-sidecar/src/main.rs, [impl Mirror])

    The metadata of mirrored files, the durable save queue and the resolution
    of conflicts.  An operation is a [Mir] computation in the order of the
    code's statements, so that a failure in the middle leaves what the code
    leaves. *)
From S2P Require Import Prelude Paths Protocol MirrorDb SearchIndex.

Definition hydrated_state : bytes := B"hydrated".
Definition is_hydrated (state : bytes) : bool := bytes_eqb state hydrated_state.

Record SaveQueueEntry := {
  se_id : Z; se_relative_path : bytes; se_expected_hash : option bytes; se_local_hash : bytes;
  se_snapshot_path : bytes }.
Record ConflictQueueEntry := {
  ce_id : Z; ce_relative_path : bytes; ce_local_hash : bytes; ce_snapshot_path : option bytes;
  ce_remote_conflict_path : option bytes; ce_conflict_actual_hash : option bytes;
  ce_remote_conflict_truncated : bool }.

(** ** Queries on the save queue *)

(** [state IN ('pending', 'failed')], with and without [snapshot_path IS NOT NULL], and
    [state IN ('pending', 'failed', 'conflict')]. *)
Definition is_waiting (r : queue_row) : bool :=
  match qr_state r with Pending | Failed => true | _ => false end.
Definition is_replayable (r : queue_row) : bool := is_waiting r && bool_decide (is_Some (qr_snapshot_path r)).
Definition is_unresolved (r : queue_row) : bool :=
  match qr_state r with Pending | Failed | Conflicted => true | _ => false end.

Definition entry_of_row (r : queue_row) : SaveQueueEntry := {|
  se_id := qr_id r; se_relative_path := qr_relative_path r; se_expected_hash := qr_expected_hash r;
  se_local_hash := qr_local_hash r; se_snapshot_path := default [] (qr_snapshot_path r) |}.
Definition conflict_of_row (r : queue_row) : ConflictQueueEntry := {|
  ce_id := qr_id r; ce_relative_path := qr_relative_path r; ce_local_hash := qr_local_hash r;
  ce_snapshot_path := qr_snapshot_path r; ce_remote_conflict_path := qr_remote_conflict_path r;
  ce_conflict_actual_hash := qr_conflict_actual_hash r;
  ce_remote_conflict_truncated := qr_remote_conflict_truncated r |}.

Definition replayable_on (path : bytes) (r : queue_row) : bool :=
  bytes_eqb (qr_relative_path r) path && is_replayable r.
Definition replayable_rows (path : bytes) (d : database) : list queue_row :=
  List.filter (replayable_on path) (save_queue d).

Definition latest_unresolved_save_hash (relative_path : bytes) : Mir (option bytes) :=
  query (fun d => qr_local_hash <$> last (replayable_rows relative_path d)).
Definition latest_unresolved_save_entry (relative_path : bytes) : Mir (option SaveQueueEntry) :=
  query (fun d => entry_of_row <$> last (replayable_rows relative_path d)).
Definition unresolved_save_count (relative_path : bytes) : Mir Z :=
  query (fun d => zlen (replayable_rows relative_path d)).
(** [LIMIT]: no limit is [i64::MAX]. *)
Definition limited {A} (limit : option nat) (l : list A) : list A :=
  match limit with Some n => take n l | None => l end.
Definition pending_save_entries (limit : option nat) : Mir (list SaveQueueEntry) :=
  query (fun d => limited limit (entry_of_row <$> List.filter is_replayable (save_queue d))).
Definition pending_save_count : Mir Z := query (fun d => zlen (List.filter is_replayable (save_queue d))).
Definition save_queue_entry (queue_id : Z) : Mir SaveQueueEntry :=
  row ← query (fun d => head (List.filter (fun r => (qr_id r =? queue_id) && is_replayable r) (save_queue d)));
  match row with
  | Some r => mret (entry_of_row r)
  | None => bail (B"queued save " ++ to_decimal queue_id ++ B" is not pending or failed")
  end.
Definition conflict_queue_entry (queue_id : Z) : Mir ConflictQueueEntry :=
  row ← query (fun d => head (List.filter (fun r => (qr_id r =? queue_id) && bool_decide (qr_state r = Conflicted)) (save_queue d)));
  match row with
  | Some r => mret (conflict_of_row r)
  | None => bail (B"queued save " ++ to_decimal queue_id ++ B" is not a conflict")
  end.
Definition newer_unresolved_save_count (relative_path : bytes) (queue_id : Z) : Mir Z :=
  query (fun d => zlen (List.filter (fun r => bytes_eqb (qr_relative_path r) relative_path && (queue_id <? qr_id r) &&
                                             is_unresolved r) (save_queue d))).
Definition ensure_no_newer_unresolved_save (entry : ConflictQueueEntry) : Mir unit :=
  newer ← newer_unresolved_save_count (ce_relative_path entry) (ce_id entry);
  if 0 <? newer then
    bail (B"cannot resolve conflict #" ++ to_decimal (ce_id entry) ++ B" for " ++ ce_relative_path entry ++
          B" because newer queued saves exist")
  else mret ().

(** ** Workspace state *)

Definition BACKGROUND_SCAN_CURSOR_KEY : bytes := B"background_scan_cursor".
Definition workspace_state_value (key : bytes) : Mir (option bytes) :=
  query (fun d => fst <$> workspace_state d !! key).
Definition set_workspace_state_value (key : bytes) (value : option bytes) : Mir unit :=
  match value with
  | Some value => now ← now_ms; execute (fun d => with_workspace (<[key := (value, now)]> (workspace_state d)) d)
  | None => execute (fun d => with_workspace (delete key (workspace_state d)) d)
  end.
Definition background_scan_cursor : Mir (option bytes) := workspace_state_value BACKGROUND_SCAN_CURSOR_KEY.
Definition set_background_scan_cursor (cursor : option bytes) : Mir unit :=
  set_workspace_state_value BACKGROUND_SCAN_CURSOR_KEY cursor.

(** ** Updates of one row *)

Definition set_metadata (r : file_row) (path_ : bytes) (size mtime_ms mode : Z) (is_dir is_symlink : bool)
    (remote : option bytes) (state : bytes) (now : Z) : file_row := {|
  fr_local_path := path_; fr_size := size; fr_mtime_ms := mtime_ms; fr_mode := mode; fr_is_dir := is_dir;
  fr_is_symlink := is_symlink; fr_metadata_kind_known := true; fr_remote_hash := remote;
  fr_local_hash := fr_local_hash r; fr_state := state; fr_dirty := fr_dirty r;
  fr_validated_at_ms := fr_validated_at_ms r; fr_validation_state := fr_validation_state r;
  fr_last_error := fr_last_error r; fr_updated_at_ms := now |}.
Definition set_error (error : bytes) (now : Z) (r : file_row) : file_row := {|
  fr_local_path := fr_local_path r; fr_size := fr_size r; fr_mtime_ms := fr_mtime_ms r; fr_mode := fr_mode r;
  fr_is_dir := fr_is_dir r; fr_is_symlink := fr_is_symlink r; fr_metadata_kind_known := fr_metadata_kind_known r;
  fr_remote_hash := fr_remote_hash r; fr_local_hash := fr_local_hash r; fr_state := fr_state r;
  fr_dirty := fr_dirty r; fr_validated_at_ms := fr_validated_at_ms r; fr_validation_state := fr_validation_state r;
  fr_last_error := Some error; fr_updated_at_ms := now |}.
Definition set_validation (remote : option bytes) (state : bytes) (validated : Z) (error : option bytes) (now : Z)
    (r : file_row) : file_row := {|
  fr_local_path := fr_local_path r; fr_size := fr_size r; fr_mtime_ms := fr_mtime_ms r; fr_mode := fr_mode r;
  fr_is_dir := fr_is_dir r; fr_is_symlink := fr_is_symlink r; fr_metadata_kind_known := fr_metadata_kind_known r;
  fr_remote_hash := remote; fr_local_hash := fr_local_hash r; fr_state := fr_state r; fr_dirty := fr_dirty r;
  fr_validated_at_ms := validated; fr_validation_state := state; fr_last_error := error; fr_updated_at_ms := now |}.
(** The columns a save of local bytes sets. *)
Definition set_local_save (size : Z) (local_hash : bytes) (now : Z) (r : file_row) : file_row := {|
  fr_local_path := fr_local_path r; fr_size := size; fr_mtime_ms := fr_mtime_ms r; fr_mode := fr_mode r;
  fr_is_dir := fr_is_dir r; fr_is_symlink := fr_is_symlink r; fr_metadata_kind_known := fr_metadata_kind_known r;
  fr_remote_hash := fr_remote_hash r; fr_local_hash := Some local_hash; fr_state := fr_state r; fr_dirty := true;
  fr_validated_at_ms := fr_validated_at_ms r; fr_validation_state := B"dirty"; fr_last_error := None;
  fr_updated_at_ms := now |}.
Definition set_clean_hash (size : Z) (local_hash : bytes) (now : Z) (r : file_row) : file_row := {|
  fr_local_path := fr_local_path r; fr_size := size; fr_mtime_ms := fr_mtime_ms r; fr_mode := fr_mode r;
  fr_is_dir := fr_is_dir r; fr_is_symlink := fr_is_symlink r; fr_metadata_kind_known := fr_metadata_kind_known r;
  fr_remote_hash := fr_remote_hash r; fr_local_hash := Some local_hash; fr_state := fr_state r; fr_dirty := fr_dirty r;
  fr_validated_at_ms := fr_validated_at_ms r; fr_validation_state := fr_validation_state r;
  fr_last_error := fr_last_error r; fr_updated_at_ms := now |}.
(** A save reached the remote, with other saves of the path still waiting, and without. *)
Definition set_still_dirty (size mtime_ms : Z) (new_hash : bytes) (now : Z) (r : file_row) : file_row := {|
  fr_local_path := fr_local_path r; fr_size := size; fr_mtime_ms := mtime_ms; fr_mode := fr_mode r;
  fr_is_dir := false; fr_is_symlink := false; fr_metadata_kind_known := true;
  fr_remote_hash := Some new_hash; fr_local_hash := fr_local_hash r; fr_state := fr_state r; fr_dirty := fr_dirty r;
  fr_validated_at_ms := fr_validated_at_ms r; fr_validation_state := B"dirty"; fr_last_error := None;
  fr_updated_at_ms := now |}.
Definition set_clean (size mtime_ms : Z) (new_hash : bytes) (now : Z) (r : file_row) : file_row := {|
  fr_local_path := fr_local_path r; fr_size := size; fr_mtime_ms := mtime_ms; fr_mode := fr_mode r;
  fr_is_dir := false; fr_is_symlink := false; fr_metadata_kind_known := true;
  fr_remote_hash := Some new_hash; fr_local_hash := Some new_hash; fr_state := hydrated_state; fr_dirty := false;
  fr_validated_at_ms := now; fr_validation_state := B"valid"; fr_last_error := None; fr_updated_at_ms := now |}.

Definition set_queue (state : queue_state) (expected : option bytes) (attempts : Z) (error : option bytes)
    (copy actual : option bytes) (truncated : bool) (now : Z) (r : queue_row) : queue_row := {|
  qr_id := qr_id r; qr_relative_path := qr_relative_path r; qr_expected_hash := expected;
  qr_local_hash := qr_local_hash r; qr_snapshot_path := qr_snapshot_path r; qr_state := state; qr_attempts := attempts;
  qr_last_error := error; qr_remote_conflict_path := copy; qr_conflict_actual_hash := actual;
  qr_remote_conflict_truncated := truncated; qr_created_at_ms := qr_created_at_ms r; qr_updated_at_ms := now |}.
(** Only the state and the error change. *)
Definition set_queue_state (state : queue_state) (error : option bytes) (now : Z) (r : queue_row) : queue_row :=
  set_queue state (qr_expected_hash r) (qr_attempts r) error (qr_remote_conflict_path r) (qr_conflict_actual_hash r)
    (qr_remote_conflict_truncated r) now r.

(** ** Operations *)

Section Mirror.
Context (hash_bytes : bytes -> bytes) (utf8_error_text : bytes -> bytes) (root : bytes).

Definition get (relative_path : bytes) : Mir (option MirrorEntry) :=
  relative_path ← normalize relative_path;
  query (fun d => mirror_entry_from_row relative_path <$> files d !! relative_path).

Definition upsert_metadata (meta : FileMeta) (state : bytes) : Mir unit :=
  local_path ← local_path root (fm_path meta);
  now ← now_ms;
  let size := as_i64 (fm_size meta) in
  execute (upsert_file (fm_path meta) {|
      fr_local_path := local_path; fr_size := size; fr_mtime_ms := fm_mtime_ms meta; fr_mode := fm_mode meta;
      fr_is_dir := fm_is_dir meta; fr_is_symlink := fm_is_symlink meta; fr_metadata_kind_known := true;
      fr_remote_hash := fm_hash meta; fr_local_hash := None; fr_state := state; fr_dirty := false;
      fr_validated_at_ms := 0; fr_validation_state := B"unknown"; fr_last_error := None; fr_updated_at_ms := now |}
    (fun old => set_metadata old local_path size (fm_mtime_ms meta) (fm_mode meta) (fm_is_dir meta) (fm_is_symlink meta)
       (if is_hydrated (fr_state old) then fr_remote_hash old
        else match fm_hash meta with Some h => Some h | None => fr_remote_hash old end)
       (if is_hydrated (fr_state old) then fr_state old else state) now)).
Definition upsert_metadata_batch (entries : list FileMeta) (state : bytes) : Mir unit :=
  immediate_transaction (for_each (fun entry => upsert_metadata entry state) entries).

Definition record_hydrated (meta : FileMeta) (remote_hash local_hash : bytes) : Mir unit :=
  local_path ← local_path root (fm_path meta);
  now ← now_ms;
  let row := {|
      fr_local_path := local_path; fr_size := as_i64 (fm_size meta); fr_mtime_ms := fm_mtime_ms meta;
      fr_mode := fm_mode meta; fr_is_dir := fm_is_dir meta; fr_is_symlink := fm_is_symlink meta;
      fr_metadata_kind_known := true; fr_remote_hash := Some remote_hash; fr_local_hash := Some local_hash;
      fr_state := hydrated_state; fr_dirty := false; fr_validated_at_ms := now; fr_validation_state := B"valid";
      fr_last_error := None; fr_updated_at_ms := now |} in
  execute (upsert_file (fm_path meta) row (fun _ => row)).

(** [relative_path.replace(['/', '\\'], "__")] *)
Definition safe_name (relative_path : bytes) : bytes :=
  relative_path ≫= fun b => if byte_eqb b "/" || byte_eqb b "\" then B"__" else [b].
Definition snapshot_name (relative_path : bytes) (now : Z) (local_hash : bytes) : bytes :=
  save_snapshots_root root ++ B"/" ++ safe_name relative_path ++ B"." ++ to_decimal now ++ B"." ++ local_hash ++ B".snapshot".
Definition write_save_snapshot (relative_path local_hash content : bytes) : Mir bytes :=
  now ← now_ms;
  let path := snapshot_name relative_path now local_hash in
  write_durable_file path content;;
  mret path.

(** The rows a queued save sets, in one transaction. *)
Definition pending_row (id : Z) (relative_path : bytes) (expected_hash : option bytes) (local_hash snapshot_path : bytes)
    (now : Z) : queue_row := {|
  qr_id := id; qr_relative_path := relative_path; qr_expected_hash := expected_hash; qr_local_hash := local_hash;
  qr_snapshot_path := Some snapshot_path; qr_state := Pending; qr_attempts := 0; qr_last_error := None;
  qr_remote_conflict_path := None; qr_conflict_actual_hash := None; qr_remote_conflict_truncated := false;
  qr_created_at_ms := now; qr_updated_at_ms := now |}.
Definition enqueue_rows (relative_path local_path local_hash : bytes) (expected_hash : option bytes)
    (content snapshot_path : bytes) (now : Z) : Mir unit :=
  execute (upsert_file relative_path {|
      fr_local_path := local_path; fr_size := zlen content; fr_mtime_ms := 0; fr_mode := 0; fr_is_dir := false;
      fr_is_symlink := false; fr_metadata_kind_known := false; fr_remote_hash := expected_hash;
      fr_local_hash := Some local_hash; fr_state := hydrated_state; fr_dirty := true; fr_validated_at_ms := 0;
      fr_validation_state := B"dirty"; fr_last_error := None; fr_updated_at_ms := now |}
    (set_local_save (zlen content) local_hash now));;
  execute (insert_queue (fun id => pending_row id relative_path expected_hash local_hash snapshot_path now)).

Definition last_insert_rowid : Mir Z := fun m => (Ok (sqlite_sequence (mr_db m)), m).
Definition enqueue_save (relative_path local_hash : bytes) (expected_hash : option bytes) (content : bytes) :
    Mir SaveQueueEntry :=
  relative_path ← normalize relative_path;
  local_path ← local_path root relative_path;
  latest ← latest_unresolved_save_hash relative_path;
  let effective_expected_hash := match latest with Some h => Some h | None => expected_hash end in
  snapshot_path ← write_save_snapshot relative_path local_hash content;
  now ← now_ms;
  immediate_transaction (enqueue_rows relative_path local_path local_hash effective_expected_hash content snapshot_path now);;
  queue_id ← last_insert_rowid;
  replace_search_index_from_bytes utf8_error_text relative_path local_hash content;;
  mret {| se_id := queue_id; se_relative_path := relative_path; se_expected_hash := effective_expected_hash;
          se_local_hash := local_hash; se_snapshot_path := snapshot_path |}.

Definition requires_explicit_recreate (entry : MirrorEntry) : bool :=
  bytes_eqb (me_validation_state entry) (B"deleted") ||
  (bytes_eqb (me_validation_state entry) (B"conflict") && bool_decide (me_remote_hash entry = None)).
Definition enqueue_local_save_inner (relative_path : bytes) (allow_adopt_or_recreate : bool) : Mir SaveQueueEntry :=
  relative_path ← normalize relative_path;
  entry ← get relative_path;
  (if bool_decide (entry = None) && negb allow_adopt_or_recreate
   then bail (relative_path ++ B" is not tracked in the mirror; use RemoteAdopt to create it remotely") else mret ());;
  (if from_option requires_explicit_recreate false entry && negb allow_adopt_or_recreate
   then bail (relative_path ++ B" was deleted remotely; use RemoteAdopt to recreate it") else mret ());;
  computed ← local_path root relative_path;
  let local_path := from_option me_local_path computed entry in
  content ← context (B"failed to read local mirror file " ++ local_path) (read_file local_path);
  let expected_hash := entry ≫= fun e =>
    if allow_adopt_or_recreate && bytes_eqb (me_validation_state e) (B"deleted") then None else me_remote_hash e in
  enqueue_save relative_path (hash_bytes content) expected_hash content.
Definition enqueue_local_save (relative_path : bytes) : Mir SaveQueueEntry := enqueue_local_save_inner relative_path false.
Definition enqueue_adopted_local_save (relative_path : bytes) : Mir SaveQueueEntry :=
  enqueue_local_save_inner relative_path true.

(** [self.get(..)?.ok_or_else(..)?] *)
Definition get_or (relative_path message : bytes) : Mir MirrorEntry :=
  entry ← get relative_path;
  match entry with Some e => mret e | None => bail message end.

Definition record_clean_local_hash (entry : MirrorEntry) (local_hash : bytes) : Mir unit :=
  len ← catch (metadata_len (me_local_path entry));
  let size := match len with Ok n => as_i64 n | Err _ => as_i64 (me_size entry) end in
  now ← now_ms;
  execute (fun d => match files d !! me_relative_path entry with
                    | Some r => if fr_dirty r then d else update_file (me_relative_path entry) (set_clean_hash size local_hash now) d
                    | None => d
                    end);;
  rebuild_search_index_from_local_file utf8_error_text entry local_hash (as_u64 size);;
  mret ().

Definition verified (entry : MirrorEntry) (hash : bytes) : Mir (MirrorEntry * bool) :=
  record_clean_local_hash entry hash;;
  updated ← get_or (me_relative_path entry) (B"verified file lost mirror metadata");
  mret (updated, false).
Definition sync_cached_file_integrity (entry : MirrorEntry) : Mir (MirrorEntry * bool) :=
  present ← (if is_hydrated (me_state entry) then is_file (me_local_path entry) else mret false);
  if negb present then mret (entry, false)
  else
    actual_hash ← context (B"failed to hash local mirror file " ++ me_local_path entry)
                          (hash_file hash_bytes (me_local_path entry));
    if bool_decide (recorded_hash entry = Some actual_hash) then
      if bool_decide (me_local_hash entry = Some actual_hash) then mret (entry, false)
      else verified entry actual_hash
    else
      content ← context (B"failed to read modified local mirror file " ++ me_local_path entry)
                        (read_file (me_local_path entry));
      let content_hash := hash_bytes content in
      if bool_decide (recorded_hash entry = Some content_hash) then verified entry content_hash
      else
        queued ← enqueue_save (me_relative_path entry) content_hash (me_remote_hash entry) content;
        updated ← get_or (se_relative_path queued) (B"queued modified file lost mirror metadata");
        mret (updated, true).

(** ** Outcomes of uploads *)

Definition of_id (id : Z) (r : queue_row) : bool := qr_id r =? id.

Definition mark_save_applied (queue_id : Z) (relative_path new_hash : bytes) (size mtime_ms : Z) : Mir unit :=
  immediate_transaction (
    now ← now_ms;
    execute (update_queue (of_id queue_id) (set_queue_state Applied None now));;
    unresolved ← unresolved_save_count relative_path;
    now ← now_ms;
    execute (update_file relative_path
      (if 0 <? unresolved then set_still_dirty (as_i64 size) mtime_ms new_hash now
       else set_clean (as_i64 size) mtime_ms new_hash now)));;
  entry ← get relative_path;
  match entry with
  | Some entry =>
      present ← is_file (me_local_path entry);
      if present : bool then
        len ← catch (metadata_len (me_local_path entry));
        rebuild_search_index_from_local_file utf8_error_text entry new_hash
          (match len with Ok n => n | Err _ => size end);;
        mret ()
      else mret ()
  | None => mret ()
  end.

Definition mark_save_failed (queue_id : Z) (relative_path error : bytes) : Mir unit :=
  immediate_transaction (
    now ← now_ms;
    execute (update_queue (of_id queue_id) (fun r =>
      set_queue Failed (qr_expected_hash r) (qr_attempts r + 1) (Some error) (qr_remote_conflict_path r)
        (qr_conflict_actual_hash r) (qr_remote_conflict_truncated r) now r));;
    now ← now_ms;
    execute (update_file relative_path (set_error error now))).

Definition conflict_copy_name (relative_path : bytes) (truncated : bool) (now : Z) : bytes :=
  conflicts_root root ++ B"/" ++ safe_name relative_path ++ B".remote." ++
  (if truncated then B"partial" else B"full") ++ B"." ++ to_decimal now.
Definition record_save_conflict (queue_id : Z) (relative_path : bytes) (actual_hash : option bytes)
    (remote_content : bytes) (remote_content_truncated : bool) (message : bytes) : Mir bytes :=
  now ← now_ms;
  let path := conflict_copy_name relative_path remote_content_truncated now in
  write_durable_file path remote_content;;
  immediate_transaction (
    now ← now_ms;
    execute (update_queue (of_id queue_id) (fun r =>
      set_queue Conflicted (qr_expected_hash r) (qr_attempts r + 1) (Some message) (Some path) actual_hash
        remote_content_truncated now r));;
    now ← now_ms;
    execute (update_file relative_path (fun r =>
      set_validation actual_hash (B"conflict") (fr_validated_at_ms r) (Some message) now r)));;
  mret path.

(** ** Resolving conflicts *)

Definition older_unresolved (relative_path : bytes) (bound : Z -> bool) (r : queue_row) : bool :=
  bytes_eqb (qr_relative_path r) relative_path && bound (qr_id r) && is_unresolved r.

Definition prepare_accept_local_conflict (queue_id : Z) : Mir SaveQueueEntry :=
  entry ← conflict_queue_entry queue_id;
  ensure_no_newer_unresolved_save entry;;
  snapshot_path ← match ce_snapshot_path entry with
                  | Some p => mret p
                  | None => bail (B"conflict #" ++ to_decimal (ce_id entry) ++ B" has no durable local snapshot")
                  end;
  snapshot_hash ← context (B"failed to hash conflict snapshot " ++ snapshot_path) (hash_file hash_bytes snapshot_path);
  (if negb (bytes_eqb snapshot_hash (ce_local_hash entry))
   then bail (B"conflict snapshot hash mismatch for " ++ ce_relative_path entry ++ B": expected=" ++
              ce_local_hash entry ++ B" actual=" ++ snapshot_hash)
   else mret ());;
  immediate_transaction (
    now ← now_ms;
    execute (update_queue (older_unresolved (ce_relative_path entry) (fun id => id <? ce_id entry))
      (set_queue_state Superseded (Some (B"superseded by accepted local conflict #" ++ to_decimal (ce_id entry))) now));;
    now ← now_ms;
    execute (update_queue (fun r => of_id (ce_id entry) r && bool_decide (qr_state r = Conflicted)) (fun r =>
      set_queue Pending (ce_conflict_actual_hash entry) (qr_attempts r) None None None false now r)));;
  mret {| se_id := ce_id entry; se_relative_path := ce_relative_path entry;
          se_expected_hash := ce_conflict_actual_hash entry; se_local_hash := ce_local_hash entry;
          se_snapshot_path := snapshot_path |}.

Fixpoint contains_text (needle s : bytes) : bool :=
  starts_with needle s || match s with [] => false | _ :: s => contains_text needle s end.
Definition conflict_copy_path_is_partial (path : bytes) : bool :=
  contains_text (B".remote.partial.") (from_option snd path (rsplit_once "/" path)).

Record AcceptedRemote := { ar_path : bytes; ar_hash : bytes; ar_size : Z; ar_local_path : bytes }.
(** What is checked before the local file is replaced: the conflict, the remote hash, the local path and the copy. *)
Definition accept_remote_checks (queue_id : Z) : Mir (ConflictQueueEntry * bytes * bytes * bytes) :=
  entry ← conflict_queue_entry queue_id;
  ensure_no_newer_unresolved_save entry;;
  remote_conflict_path ← match ce_remote_conflict_path entry with
                         | Some p => mret p
                         | None => bail (B"conflict #" ++ to_decimal (ce_id entry) ++ B" has no saved remote copy")
                         end;
  (if ce_remote_conflict_truncated entry || conflict_copy_path_is_partial remote_conflict_path
   then bail (B"cannot accept remote for conflict #" ++ to_decimal (ce_id entry) ++ B" because the saved remote copy is partial")
   else mret ());;
  recorded_remote_hash ← match ce_conflict_actual_hash entry with
                         | Some h => mret h
                         | None => bail (B"conflict #" ++ to_decimal (ce_id entry) ++ B" has no recorded remote hash")
                         end;
  local_path ← local_path root (ce_relative_path entry);
  current_local_hash ← context (B"failed to hash local mirror file " ++ local_path ++ B" before accepting remote conflict")
                               (hash_file hash_bytes local_path);
  (if negb (bytes_eqb current_local_hash (ce_local_hash entry))
   then bail (B"local mirror file changed since conflict #" ++ to_decimal (ce_id entry) ++ B" for " ++
              ce_relative_path entry ++ B"; refresh the conflict before accepting remote")
   else mret ());;
  content ← context (B"failed to read saved remote conflict copy " ++ remote_conflict_path) (read_file remote_conflict_path);
  let actual_hash := hash_bytes content in
  (if negb (bytes_eqb recorded_remote_hash actual_hash)
   then bail (B"saved remote conflict copy hash mismatch for " ++ ce_relative_path entry ++ B": expected=" ++
              recorded_remote_hash ++ B" actual=" ++ actual_hash)
   else mret ());;
  mret (entry, recorded_remote_hash, local_path, content).
Definition accept_remote_conflict (queue_id : Z) : Mir AcceptedRemote :=
  '(entry, recorded_remote_hash, local_path, content) ← accept_remote_checks queue_id;
  write_durable_file local_path content;;
  now ← now_ms;
  let size := zlen content in
  let fresh_row := {|
      fr_local_path := local_path; fr_size := size; fr_mtime_ms := now; fr_mode := 0; fr_is_dir := false;
      fr_is_symlink := false; fr_metadata_kind_known := true; fr_remote_hash := Some recorded_remote_hash;
      fr_local_hash := Some recorded_remote_hash; fr_state := hydrated_state; fr_dirty := false;
      fr_validated_at_ms := now; fr_validation_state := B"valid"; fr_last_error := None; fr_updated_at_ms := now |} in
  immediate_transaction (
    execute (update_queue (older_unresolved (ce_relative_path entry) (fun id => id <=? ce_id entry))
      (set_queue_state ResolvedRemote None now));;
    execute (upsert_file (ce_relative_path entry) fresh_row (fun old => {|
      fr_local_path := local_path; fr_size := size; fr_mtime_ms := now; fr_mode := fr_mode old; fr_is_dir := false;
      fr_is_symlink := false; fr_metadata_kind_known := true; fr_remote_hash := Some recorded_remote_hash;
      fr_local_hash := Some recorded_remote_hash; fr_state := hydrated_state; fr_dirty := false;
      fr_validated_at_ms := now; fr_validation_state := B"valid"; fr_last_error := None; fr_updated_at_ms := now |})));;
  replace_search_index_from_bytes utf8_error_text (ce_relative_path entry) recorded_remote_hash content;;
  mret {| ar_path := ce_relative_path entry; ar_hash := recorded_remote_hash; ar_size := size; ar_local_path := local_path |}.

(** ** Restoring a lost local file *)

Definition restore_part (local_path : bytes) : bytes := with_extension local_path (B"nrm-restore-part").
Definition restore_latest_dirty_snapshot (entry : MirrorEntry) : Mir unit :=
  latest ← latest_unresolved_save_entry (me_relative_path entry);
  save ← match latest with
         | Some save => mret save
         | None => bail (me_relative_path entry ++ B" is dirty but the local file is missing and no save snapshot exists")
         end;
  snapshot_hash ← context (B"failed to hash queued save snapshot " ++ se_snapshot_path save)
                          (hash_file hash_bytes (se_snapshot_path save));
  (if negb (bytes_eqb snapshot_hash (se_local_hash save))
   then bail (B"queued save snapshot hash mismatch for " ++ me_relative_path entry ++ B": expected=" ++
              se_local_hash save ++ B" actual=" ++ snapshot_hash)
   else mret ());;
  create_dir_all;;
  let part_path := restore_part (me_local_path entry) in
  context (B"failed to open queued save snapshot " ++ se_snapshot_path save) (read_file (se_snapshot_path save));;
  create part_path;;
  source ← read_file (se_snapshot_path save);
  write_all part_path source;;
  sync_all;;
  rename_durable part_path (me_local_path entry).

(** ** Validation *)

Definition record_validation (relative_path validation_state : bytes) (remote_hash error : option bytes) : Mir unit :=
  now ← now_ms;
  execute (update_file relative_path (fun r =>
    set_validation (match remote_hash with Some h => Some h | None => fr_remote_hash r end) validation_state now error now r)).
Definition mark_validation_error (relative_path error : bytes) : Mir unit :=
  now ← now_ms;
  execute (update_file relative_path (fun r =>
    set_validation (fr_remote_hash r) (B"error") now (Some error) now r)).
End Mirror.
