(* ===== verification/MirrorProps.v ===== *)
(** * Queued saves are durable

    The invariant of the mirror: every row of the save queue that names a
    snapshot has that snapshot on disk, with the bytes the row's hash is of, and
    rows are never dropped or renumbered.  It holds between any two calls,
    whatever failed, because every operation is built from calls that keep it. *)
From S2P Require Import Prelude Paths Protocol MirrorDb MirrorLogic SearchIndex Mirror.
From stdpp Require Import sorting.
#[local] Open Scope Z_scope.

(** What never changes of a queued save. *)
Record identity := { i_id : Z; i_path : bytes; i_hash : bytes; i_snapshot : option bytes }.
Definition identity_of (r : queue_row) : identity := {|
  i_id := qr_id r; i_path := qr_relative_path r; i_hash := qr_local_hash r; i_snapshot := qr_snapshot_path r |}.
Definition identities (d : database) : list identity := identity_of <$> save_queue d.

Section Durability.
Context (hash_bytes : bytes -> bytes) (utf8_error_text : bytes -> bytes) (root : bytes).
(** A hash is 64 hexadecimal digits. *)
Context (Hhash : forall c, length (hash_bytes c) = 64%nat).

(** A path of a mirrored file. *)
Definition under_files (p : bytes) : Prop := exists x, p = files_root root ++ x.
Definition files_ok (d : database) : Prop := map_Forall (fun _ r => under_files (fr_local_path r)) (files d).

(** An update that neither adds, drops nor renames queued saves, and keeps local paths in the mirror. *)
Definition tame (u : database -> database) : Prop := forall d,
  identities (u d) = identities d /\ sqlite_sequence (u d) = sqlite_sequence d /\ (files_ok d -> files_ok (u d)).

Lemma tame_update_file path f : (forall r, fr_local_path (f r) = fr_local_path r) -> tame (update_file path f).
Proof.
  intros Hf d. split_and!; [done..|]. unfold files_ok. cbn. intros H p r Hr. apply lookup_alter_Some in Hr as [(-> & r' & Hr & ->)|[_ Hr]].
  - rewrite Hf. by eapply H.
  - by eapply H.
Qed.
Lemma tame_upsert_file path new f : under_files (fr_local_path new) ->
  (forall r, under_files (fr_local_path r) -> under_files (fr_local_path (f r))) -> tame (upsert_file path new f).
Proof.
  intros Hn Hf d. split_and!; [done..|]. unfold files_ok. cbn. intros H. apply map_Forall_insert_2; [|done].
  destruct (files d !! path) eqn:E; [|done]. apply Hf. by eapply H.
Qed.
Lemma tame_search sf sl st : tame (fun d => with_search (sf d) (sl d) (st d) d).
Proof. by intros d. Qed.
Lemma tame_update_queue p f : (forall r, identity_of (f r) = identity_of r) -> tame (update_queue p f).
Proof.
  intros Hf d. split_and!; [|done..]. unfold identities, update_queue. cbn. rewrite <- list_fmap_compose.
  apply list_fmap_ext. intros i r _. cbn. destruct (p r); [apply Hf | done].
Qed.

Definition saved (k : gmap bytes bytes) (i : identity) : Prop :=
  forall q, i_snapshot i = Some q -> exists now c,
    q = snapshot_name root (i_path i) now (i_hash i) /\ k !! q = Some c /\ hash_bytes c = i_hash i.
Record db_ok (k : gmap bytes bytes) (d : database) : Prop := {
  ok_saved : Forall (saved k) (identities d);
  ok_order : StronglySorted Z.lt (i_id <$> identities d);
  ok_sequence : Forall (fun i => i_id i <= sqlite_sequence d) (identities d);
  ok_files : files_ok d }.
Definition inv (m : mirror) : Prop :=
  db_ok (mr_disk m) (mr_db m) /\
  forall image, mr_txn m = Some image -> db_ok (mr_disk m) image /\ identities image `prefix_of` identities (mr_db m).

Lemma inv_committed m : inv m -> db_ok (mr_disk m) (committed m).
Proof. intros [H1 H2]. unfold committed. destruct (mr_txn m) as [image|]; cbn; [by apply H2 | done]. Qed.
Lemma inv_saved m i : inv m -> i ∈ identities (committed m) -> saved (mr_disk m) i.
Proof. intros [H _ _ _]%inv_committed Hi. rewrite Forall_forall in H. by apply H. Qed.

Lemma tame_db_ok u k d : tame u -> db_ok k d -> db_ok k (u d).
Proof. intros Hu [H1 H2 H3 H4]. destruct (Hu d) as (E1 & E2 & E3). split; rewrite ?E1, ?E2; auto. Qed.

(** [runs D c Q]: from a state that satisfies the invariant and has [D] of its files, [c]
    keeps the invariant and every committed save, and a result has [Q]. *)
Definition runs {A : Type} (D : gmap bytes bytes -> Prop) (c : Mir A) (Q : A -> gmap bytes bytes -> Prop) : Prop :=
  forall m, inv m -> D (mr_disk m) ->
    inv (snd (c m)) /\ identities (committed m) `prefix_of` identities (committed (snd (c m))) /\
    forall a, fst (c m) = Ok a -> Q a (mr_disk (snd (c m))).
Definition safe {A : Type} (c : Mir A) : Prop := runs (fun _ => True) c (fun _ _ => True).

Section Rules.
Context {A B : Type} (D : gmap bytes bytes -> Prop).

Lemma runs_ret (a : A) (Q : A -> gmap bytes bytes -> Prop) : (forall k, D k -> Q a k) -> runs D (mret a) Q.
Proof. intros H m Hi HD. split_and!; [done..|]. intros a' [= <-]. auto. Qed.
Lemma runs_lift (r : result bytes A) Q : (forall a k, r = Ok a -> D k -> Q a k) -> runs D (lift r) Q.
Proof. intros H m Hi HD. split_and!; [done..|]. intros a E. by apply H. Qed.
Lemma runs_bail (e : bytes) (Q : A -> gmap bytes bytes -> Prop) : runs D (bail e) Q.
Proof. intros m Hi HD. by split_and!. Qed.
Lemma runs_bind (c : Mir A) (k : A -> Mir B) Q R :
  runs D c Q -> (forall a, runs (Q a) (k a) R) -> runs D (c ≫= k) R.
Proof.
  intros Hc Hk m Hi HD. rewrite Mir_bind_run. destruct (Hc m Hi HD) as (H1 & H2 & H3).
  destruct (c m) as [[a|e] m1]; cbn in *; [|by split_and!].
  destruct (Hk a m1 H1 (H3 a eq_refl)) as (H4 & H5 & H6). split_and!; [done| |done]. by etrans.
Qed.
(** A fact about the result alone is a hypothesis of what follows. *)
Lemma runs_bind_pure (c : Mir A) (k : A -> Mir B) (phi : A -> Prop) R :
  runs D c (fun a k => phi a /\ D k) -> (forall a, phi a -> runs D (k a) R) -> runs D (c ≫= k) R.
Proof.
  intros Hc Hk. apply (runs_bind c k (fun a k => phi a /\ D k)); [done|]. intros a m Hi [Ha HD]. by apply Hk.
Qed.
Lemma runs_weaken (c : Mir A) (D' : gmap bytes bytes -> Prop) (Q Q' : A -> gmap bytes bytes -> Prop) :
  runs D' c Q' -> (forall k, D k -> D' k) -> (forall a k, Q' a k -> Q a k) -> runs D c Q.
Proof. intros Hc HD HQ m Hi H. destruct (Hc m Hi (HD _ H)) as (? & ? & ?). split_and!; eauto. Qed.
Lemma runs_catch (c : Mir A) Q : runs D c Q -> runs D (catch c) (fun r k => forall a, r = Ok a -> Q a k).
Proof.
  intros Hc m Hi HD. destruct (Hc m Hi HD) as (H1 & H2 & H3). unfold catch. destruct (c m) as [r m1]; cbn in *.
  split_and!; [done..|]. intros r' [= <-]. done.
Qed.
Lemma runs_context (c : Mir A) (e : bytes) Q : runs D c Q -> runs D (context e c) Q.
Proof.
  intros Hc m Hi HD. destruct (Hc m Hi HD) as (H1 & H2 & H3). unfold context. destruct (c m) as [r m1]; cbn in *.
  split_and!; [done..|]. intros a E%map_err_Ok. auto.
Qed.
End Rules.

(** ** Calls on the database *)

Lemma inv_same_store m m' : same_store m m' -> inv m -> inv m' /\ committed m' = committed m.
Proof. intros (H1 & H2 & H3). unfold inv, committed. by rewrite H1, H2, H3. Qed.

Lemma inv_abandon m : inv m -> inv (abandon m) /\ committed (abandon m) = committed m /\ mr_disk (abandon m) = mr_disk m.
Proof.
  intros [H1 H2]. unfold abandon. destruct (mr_txn m) as [image|] eqn:E; [|by split_and!; [split; [|rewrite E]| |]].
  unfold inv, committed. rewrite E. cbn. split_and!; [by apply H2 | done | done | done].
Qed.

(** A call of SQLite fails before it did anything, or runs. *)
Lemma runs_sqlite {A} D (g : Mir A) Q : runs D g Q -> runs D (sqlite g) Q.
Proof.
  intros Hg m Hi HD. unfold sqlite. destruct (next_fault m) as [f m1] eqn:E.
  apply next_fault_same in E as (H1 & H2 & H3 & _).
  assert (Hs : same_store m m1) by (by split_and!). destruct (inv_same_store _ _ Hs Hi) as [Hi1 Hc].
  rewrite <- Hc. destruct f as [[|]|]; cbn [fst snd].
  - by split_and!.
  - destruct (inv_abandon m1 Hi1) as (? & -> & _). by split_and!.
  - apply Hg; [done|]. by rewrite H3.
Qed.

Lemma runs_query {A} D (q : database -> A) : runs D (query q) (fun _ => D).
Proof. apply runs_sqlite. intros m Hi HD. by split_and!. Qed.

Lemma runs_update D (g : database -> result bytes database) :
  (forall m d, inv m -> D (mr_disk m) -> g (mr_db m) = Ok d ->
     db_ok (mr_disk m) d /\ identities (mr_db m) `prefix_of` identities d) ->
  runs D (try_execute g) (fun _ => D).
Proof.
  intros Hg. apply runs_sqlite. intros m Hi HD. specialize (Hg m). destruct (g (mr_db m)) as [d|e]; cbn; [|by split_and!].
  destruct (Hg d Hi HD eq_refl) as [Hd Hp]. destruct Hi as [H1 H2]. unfold inv, committed. cbn.
  destruct (mr_txn m) as [image|] eqn:E; cbn; split_and!; try done.
  intros image' [= <-]. destruct (H2 image eq_refl) as [? ?]. split; [done|]. by etrans.
Qed.

Lemma runs_execute D u : tame u -> runs D (execute u) (fun _ => D).
Proof.
  intros Hu. apply runs_update. intros m d [Hi _] _ [= <-]. split; [by apply tame_db_ok|]. by destruct (Hu (mr_db m)) as (-> & _).
Qed.

Lemma runs_insert D row :
  (forall id k, D k -> qr_id (row id) = id /\ saved k (identity_of (row id))) ->
  runs D (execute (insert_queue row)) (fun _ => D).
Proof.
  intros Hrow. apply runs_update. intros m d [[H1 H2 H3 H4] _] HD [= <-].
  assert (E : identities (insert_queue row (mr_db m)) = identities (mr_db m) ++ [identity_of (row (sqlite_sequence (mr_db m) + 1))])
    by (unfold identities; cbn; by rewrite fmap_app).
  destruct (Hrow (sqlite_sequence (mr_db m) + 1) (mr_disk m) HD) as [Hid Hs].
  split; [|rewrite E; by eexists]. rewrite Forall_forall in H3. split; rewrite ?E, ?fmap_app; [| | |done].
  - apply Forall_app. by split; [|constructor].
  - apply StronglySorted_app_2; [|done|repeat constructor].
    intros x y (i & -> & Hi)%list_elem_of_fmap ->%list_elem_of_singleton. cbn. rewrite Hid. specialize (H3 i Hi). lia.
  - cbn [sqlite_sequence insert_queue with_queue]. apply Forall_app. split; [|constructor; [cbn; lia | done]].
    apply Forall_forall. intros i Hi. specialize (H3 i Hi). lia.
Qed.

Lemma runs_begin D : runs D begin_immediate (fun _ => D).
Proof.
  apply runs_sqlite. intros m [H1 H2] HD. destruct (mr_txn m) as [image|] eqn:E; cbn.
  - unfold inv. rewrite E. by split_and!.
  - unfold inv, committed. rewrite E. cbn. split_and!; [done| |done|done]. intros image [= <-]. done.
Qed.
Lemma runs_commit D : runs D commit (fun _ => D).
Proof.
  apply runs_sqlite. intros m [H1 H2] HD. unfold committed. destruct (mr_txn m) as [image|] eqn:E; cbn.
  - split_and!; [by split | by apply H2 | done].
  - unfold inv. rewrite E. by split_and!.
Qed.
Lemma runs_rollback D : runs D rollback (fun _ => D).
Proof.
  apply runs_sqlite. intros m [H1 H2] HD. unfold committed. destruct (mr_txn m) as [image|] eqn:E; cbn.
  - split_and!; [split; [by apply H2 | done] | done | done].
  - unfold inv. rewrite E. by split_and!.
Qed.

Lemma runs_transaction D c Q : runs D c (fun _ => Q) -> runs D (immediate_transaction c) (fun _ => Q).
Proof.
  intros Hc. eapply runs_bind; [apply runs_begin|]. intros [].
  eapply runs_bind; [by apply runs_catch|]. intros [u|e].
  - eapply runs_weaken; [apply (runs_commit Q)| |done]. intros k H. by eapply H.
  - eapply runs_bind; [apply runs_catch, runs_rollback | intros a; apply runs_bail].
Qed.

(** ** Calls on files *)

(** [p] is not the name of a snapshot. *)
Definition free (p : bytes) : Prop := forall path now h, length h = 64%nat -> p <> snapshot_name root path now h.

Lemma snapshot_name_end path now h : exists pre, snapshot_name root path now h = pre ++ B".snapshot".
Proof.
  unfold snapshot_name. exists (save_snapshots_root root ++ B"/" ++ safe_name path ++ B"." ++ to_decimal now ++ B"." ++ h).
  by rewrite <- !app_assoc.
Qed.

Lemma free_digit pre b : 48 <= u8 b <= 57 -> free (pre ++ [b]).
Proof.
  intros Hb path now h _ E. destruct (snapshot_name_end path now h) as [pre' E']. rewrite E' in E.
  change (B".snapshot") with (B".snapsho" ++ ["t"%byte]) in E. rewrite app_assoc in E.
  apply app_inj_2 in E as [_ [= ->]]; [|done]. change (u8 "t"%byte) with 116 in Hb. lia.
Qed.

Lemma free_part pre : free (pre ++ B"part").
Proof.
  intros path now h _ E. destruct (snapshot_name_end path now h) as [pre' E']. rewrite E' in E.
  change (B".snapshot") with (B".snap" ++ B"shot") in E. rewrite app_assoc in E.
  apply app_inj_2 in E as [_ E]; [|done]. discriminate E.
Qed.

Lemma with_extension_end p ext : exists pre, with_extension p ext = pre ++ ext.
Proof.
  unfold with_extension. destruct (rsplit_once "/" p) as [[dir name]|].
  - exists (dir ++ B"/" ++ file_stem name ++ B"."). by rewrite <- !app_assoc.
  - exists (file_stem p ++ B"."). by rewrite <- !app_assoc.
Qed.

Lemma free_tmp p n : free (durable_tmp p n).
Proof.
  unfold durable_tmp. destruct (with_extension_end p (B"tmp-" ++ to_decimal n)) as [pre ->].
  destruct (to_decimal_last n) as (ds & b & -> & Hb). rewrite !app_assoc. by apply free_digit.
Qed.

Lemma free_other_root c dir x : c <> "s"%byte -> free (root ++ "/"%byte :: c :: dir ++ x).
Proof.
  intros Hc path now h _ E. unfold snapshot_name, save_snapshots_root in E. rewrite <- !app_assoc in E.
  apply app_inv_head in E. change (B"/save-snapshots" ++ ?y) with ("/"%byte :: "s"%byte :: B"ave-snapshots" ++ y) in E.
  by injection E as -> _.
Qed.
Lemma free_files x : free (files_root root ++ x).
Proof. unfold files_root. rewrite <- app_assoc. by apply (free_other_root "f" (B"iles")). Qed.
Lemma free_conflicts x : free (conflicts_root root ++ x).
Proof. unfold conflicts_root. rewrite <- app_assoc. by apply (free_other_root "c" (B"onflicts")). Qed.

Lemma db_ok_disk (ps : list bytes) k k' d : (forall p, p ∈ ps -> free p) -> (forall q, q ∉ ps -> k' !! q = k !! q) ->
  db_ok k d -> db_ok k' d.
Proof.
  intros Hf Hk [H1 H2 H3 H4]. split; [|done..]. eapply Forall_impl; [exact H1|]. intros i Hi q Hq.
  destruct (Hi q Hq) as (now & c & -> & Hc & Hh). exists now, c. split_and!; [done| |done]. rewrite Hk; [done|].
  intros Hin. apply Hf in Hin. eapply Hin; [|reflexivity]. by rewrite <- Hh.
Qed.

Lemma inv_disk (ps : list bytes) m m' : (forall p, p ∈ ps -> free p) -> mr_db m' = mr_db m -> mr_txn m' = mr_txn m ->
  (forall q, q ∉ ps -> mr_disk m' !! q = mr_disk m !! q) -> inv m -> inv m' /\ committed m' = committed m.
Proof.
  intros Hf E1 E2 Hk [H1 H2]. unfold inv, committed. rewrite E1, E2. split; [|done]. split.
  - by eapply db_ok_disk.
  - intros image Hi. destruct (H2 image Hi). split; [by eapply db_ok_disk | done].
Qed.

(** A call on files other than snapshots. *)
Lemma runs_only {A} D ps (c : Mir A) : only ps c -> (forall p, p ∈ ps -> free p) ->
  (forall k k', (forall q, q ∉ ps -> k' !! q = k !! q) -> D k -> D k') -> runs D c (fun _ => D).
Proof.
  intros Hc Hf HD m Hi H. destruct (Hc m) as (H1 & H2 & H3). destruct (inv_disk ps m (snd (c m))) as [? ->]; [done..|].
  split_and!; [done..|]. intros a _. by eapply HD.
Qed.
Lemma runs_reads {A} D (c : Mir A) : (forall ps, only ps c) -> runs D c (fun _ => D).
Proof.
  clear Hhash. intros Hc m Hi H. destruct (Hc [] m) as (H1 & H2 & H3).
  assert (E : mr_disk (snd (c m)) = mr_disk m) by (apply map_eq; intros q; apply H3; set_solver).
  destruct (inv_same_store m (snd (c m))) as [? ->]; [by split_and! | done|]. by rewrite E.
Qed.
Lemma safe_durable p content : free p -> safe (write_durable_file p content).
Proof.
  intros Hp m Hi _. destruct (only_write_durable p content m) as (n & H1 & H2 & H3).
  destruct (inv_disk [p; durable_tmp p n] m (snd (write_durable_file p content m))) as [? ->]; [|done..| |done|by split_and!].
  - intros q [->|[->|[]%elem_of_nil]%elem_of_cons]%elem_of_cons; [done | apply free_tmp].
  - intros q Hq. apply H3; set_solver.
Qed.

(** ** Snapshots *)

Lemma snapshot_name_hash path now h path' now' h' : length h = length h' ->
  snapshot_name root path now h = snapshot_name root path' now' h' -> h = h'.
Proof.
  intros Hl. unfold snapshot_name. rewrite !app_assoc. intros E.
  apply app_inj_2 in E as [E _]; [|done]. by apply app_inj_2 in E as [_ ->].
Qed.

(** A snapshot name is only ever written with bytes of its hash, so a write that hits an
    existing snapshot leaves it good. *)
Lemma saved_write k k' p now path content i :
  p = snapshot_name root path now (hash_bytes content) ->
  (forall q, q <> p -> free q \/ k' !! q = k !! q) ->
  (k' !! p = k !! p \/ k' !! p = Some content) -> saved k i -> saved k' i.
Proof.
  intros Hp Hk Hpk Hi q Hq. destruct (Hi q Hq) as (n & c & Eq & Hc & Hh).
  assert (Hl : length (i_hash i) = 64%nat) by (rewrite <- Hh; apply Hhash).
  destruct (decide (q = p)) as [->|Hne].
  - destruct Hpk as [E|E]; [exists n, c; by rewrite E|]. exists n, content. split_and!; [done..|].
    rewrite Eq in Hp. apply snapshot_name_hash in Hp; [done|]. by rewrite Hl.
  - exists n, c. split_and!; [done| |done]. destruct (Hk q Hne) as [Hf|E]; [|by rewrite E]. by destruct (Hf _ _ _ Hl Eq).
Qed.

Lemma runs_snapshot path content :
  runs (fun _ => True) (write_save_snapshot root path (hash_bytes content) content)
    (fun p k => k !! p = Some content /\ exists now, p = snapshot_name root path now (hash_bytes content)).
Proof.
  eapply runs_bind; [apply runs_reads; auto with mirror|]. intros now.
  set (p := snapshot_name root path now (hash_bytes content)).
  assert (Hw : runs (fun _ => True) (write_durable_file p content) (fun _ k => k !! p = Some content)).
  { intros m [H1 H2] _. destruct (only_write_durable p content m) as (n & E1 & E2 & E3).
    destruct (write_durable_file p content m) as [r m'] eqn:E. cbn [fst snd] in *.
    apply write_durable_target in E as [T1 T2]; [|intros n' E'; by apply (free_tmp p n' path now (hash_bytes content))].
    assert (Hdb : forall d, db_ok (mr_disk m) d -> db_ok (mr_disk m') d).
    { intros d [G1 G2 G3 G4]. split; [|done..]. eapply Forall_impl; [exact G1|]. intros i.
      eapply (saved_write _ _ p now path); [done| |done]. intros q Hq.
      destruct (decide (q = durable_tmp p n)) as [->|]; [left; apply free_tmp | right; by apply E3]. }
    unfold inv, committed. rewrite E1, E2. split_and!; [by apply Hdb| |done|by intros a ->; apply T2].
    intros image Hi. destruct (H2 image Hi). by split; [apply Hdb|]. }
  eapply runs_bind; [exact Hw|]. intros []. apply runs_ret. intros k Hk. split; [done | by exists now].
Qed.

(** ** The index *)

Lemma tame_delete_trigrams path : tame (delete_trigrams path).
Proof. by intros d. Qed.
Lemma tame_delete_lines path : tame (delete_lines path).
Proof. by intros d. Qed.
Lemma tame_insert_trigram path g : tame (insert_or_ignore_trigram path g).
Proof. intros d. unfold insert_or_ignore_trigram. by case_bool_decide. Qed.

Lemma runs_for_each {A} D (f : A -> Mir unit) l : (forall a, runs D (f a) (fun _ => D)) -> runs D (for_each f l) (fun _ => D).
Proof.
  intros Hf. induction l as [|a l IH]; cbn [for_each]; [by apply runs_ret|].
  eapply runs_bind; [apply Hf|]. intros []. exact IH.
Qed.

Lemma runs_replace_rows D path h n st err lines grams :
  runs D (replace_search_index_rows path h n st err lines grams) (fun _ => D).
Proof.
  apply runs_transaction.
  eapply runs_bind; [apply runs_execute, tame_delete_trigrams|]. intros [].
  eapply runs_bind; [apply runs_execute, tame_delete_lines|]. intros [].
  eapply runs_bind; [apply runs_for_each; intros [ln t]; apply runs_update|intros []].
  - intros m d [Hi _] _. unfold insert_line. destruct (existsb _ _); [done|]. intros [= <-].
    split; [|done]. by apply (tame_db_ok (fun d => with_search _ _ _ d)).
  - eapply runs_bind; [apply runs_for_each; intros g; apply runs_execute, tame_insert_trigram|]. intros [].
    eapply runs_bind; [apply runs_reads; auto with mirror|]. intros now.
    apply runs_execute, (tame_search (fun d => <[path := _]> (search_files d)) search_lines search_trigrams).
Qed.

Lemma runs_replace_bytes D path h content :
  runs D (replace_search_index_from_bytes utf8_error_text path h content) (fun _ => D).
Proof.
  eapply runs_bind; [apply runs_reads; intros; apply only_lift|]. intros p. cbv beta zeta.
  destruct (_ >? _); [|destruct (negb _)];
    (eapply runs_bind; [apply runs_replace_rows | intros []; by apply runs_ret]).
Qed.

Lemma runs_rebuild D entry h n : runs D (rebuild_search_index_from_local_file utf8_error_text entry h n) (fun _ => D).
Proof.
  unfold rebuild_search_index_from_local_file. destruct (_ >? _).
  - eapply runs_bind; [apply runs_replace_rows | intros []; by apply runs_ret].
  - eapply runs_bind; [apply runs_context, runs_reads; auto with mirror|]. intros c. apply runs_replace_bytes.
Qed.


Lemma runs_local_path D path : runs D (local_path root path) (fun p k => under_files p /\ D k).
Proof.
  apply runs_lift. intros p k E HD. split; [|done]. destruct (normalize_relative_path path) as [clean|]; [|done].
  injection E as <-. by eexists.
Qed.
Lemma runs_get_files D path : runs D (get path) (fun e k => (forall e', e = Some e' -> under_files (me_local_path e')) /\ D k).
Proof.
  eapply runs_bind; [apply (runs_lift D _ (fun _ => D)); auto|]. intros p. apply runs_sqlite.
  intros m Hi HD. split_and!; [done..|]. intros e [= <-]. split; [|done]. cbn. intros e' He.
  destruct (files (mr_db m) !! p) as [r|] eqn:E; [|done]. injection He as <-. cbn. destruct Hi as [[_ _ _ Hf] _]. by eapply Hf.
Qed.
End Durability.

#[export] Hint Resolve tame_search : mirror.
#[export] Hint Extern 2 (tame _ (update_file _ _)) => apply tame_update_file; intros ?; repeat case_match; reflexivity : mirror.
#[export] Hint Extern 2 (tame _ (upsert_file _ _ _)) =>
  apply tame_upsert_file; [cbn; assumption | intros ? ?; cbn; assumption] : mirror.
#[export] Hint Extern 2 (tame _ (update_queue _ _)) => apply tame_update_queue; intros ?; reflexivity : mirror.

(** Steps through an operation: binds, branches, queries, reads and tame updates. *)
Ltac step_through leaf :=
  cbv beta zeta;
  lazymatch goal with
  | |- runs _ _ ?D (mbind _ (local_path _ _)) _ =>
      eapply runs_bind_pure; [apply runs_local_path | intros ? ?; step_through leaf]
  | |- runs _ _ ?D (mbind _ _) _ => eapply runs_bind; [step_through leaf | intros ?; step_through leaf]
  | |- runs _ _ ?D (fmap _ _) _ => first [ apply runs_reads; solve [auto with mirror] |
      unfold fmap, Mir_fmap; eapply runs_bind; [step_through leaf | intros ?; step_through leaf] ]
  | |- runs _ _ ?D (mret _) _ => first [apply (runs_ret _ _ D _ (fun _ => D)); intros; assumption | apply runs_ret; intros; done]
  | |- runs _ _ ?D (bail _) _ => apply runs_bail
  | |- runs _ _ ?D (lift _) _ => first [apply (runs_lift _ _ D _ (fun _ => D)); intros; assumption | apply runs_lift; intros; done]
  | |- runs _ _ ?D (query _) _ => apply runs_query
  | |- runs _ _ ?D (context _ _) _ => apply runs_context; step_through leaf
  | |- runs _ _ ?D (execute _) _ => apply runs_execute; solve [auto with mirror]
  | |- runs _ _ ?D (immediate_transaction _) _ => apply runs_transaction; step_through leaf
  | |- runs _ _ ?D (if ?b then _ else _) _ => destruct b; step_through leaf
  | |- runs _ _ ?D (match ?x with _ => _ end) _ => destruct x; step_through leaf
  | |- _ => first [ apply runs_reads; solve [auto with mirror] | leaf ]
  end.

(** ** Operations of the mirror *)

Section Operations.
Context (hash_bytes : bytes -> bytes) (utf8_error_text : bytes -> bytes) (root : bytes).
Context (Hhash : forall c, length (hash_bytes c) = 64%nat).
#[local] Abbreviation runs := (runs hash_bytes root).
#[local] Abbreviation safe c := (runs (fun _ => True) c (fun _ _ => True)).

#[local] Hint Resolve runs_rebuild runs_replace_bytes : mirror.
Ltac kept := step_through ltac:(solve [auto with mirror]).

Lemma runs_normalize D path : runs D (normalize path) (fun _ => D).
Proof. unfold normalize. kept. Qed.
#[local] Hint Resolve runs_normalize : mirror.

Lemma runs_get D path : runs D (get path) (fun _ => D).
Proof. unfold get. kept. Qed.
#[local] Hint Resolve runs_get : mirror.
Lemma runs_get_or D path e : runs D (get_or path e) (fun _ => D).
Proof. unfold get_or. kept. Qed.
#[local] Hint Resolve runs_get_or : mirror.
Lemma runs_upsert_metadata D meta st : runs D (upsert_metadata root meta st) (fun _ => D).
Proof. unfold upsert_metadata. kept. Qed.
Lemma runs_upsert_metadata_batch D metas st : runs D (upsert_metadata_batch root metas st) (fun _ => D).
Proof. apply runs_transaction, runs_for_each. intros meta. apply runs_upsert_metadata. Qed.
Lemma runs_record_hydrated D meta rh lh : runs D (record_hydrated root meta rh lh) (fun _ => D).
Proof. unfold record_hydrated. kept. Qed.

Lemma runs_enqueue_save path expected content :
  safe (enqueue_save utf8_error_text root path (hash_bytes content) expected content).
Proof.
  unfold enqueue_save, enqueue_rows. eapply runs_bind; [apply runs_normalize|]. intros rel.
  eapply runs_bind_pure; [apply runs_local_path|]. intros lp Hlp.
  eapply runs_bind; [apply runs_query|]. intros latest. cbv zeta.
  eapply runs_bind; [by apply runs_snapshot|]. intros p.
  eapply runs_bind; [apply runs_reads; auto with mirror|]. intros now.
  eapply runs_bind.
  { apply runs_transaction. eapply runs_bind; [apply runs_execute; auto with mirror|]. intros [].
    apply runs_insert. intros id k [Hk (ms & ->)]. split; [done|]. intros q [= <-]. by exists ms, content. }
  intros []. eapply runs_bind; [apply runs_reads; intros ps m; by cbn|]. intros id.
  eapply runs_bind; [apply runs_replace_bytes | intros r; by apply runs_ret].
Qed.
#[local] Hint Resolve runs_enqueue_save : mirror.

Lemma runs_enqueue_local path adopt : safe (enqueue_local_save_inner hash_bytes utf8_error_text root path adopt).
Proof. unfold enqueue_local_save_inner. kept. Qed.
Lemma runs_record_clean D entry h : runs D (record_clean_local_hash utf8_error_text entry h) (fun _ => D).
Proof.
  unfold record_clean_local_hash, metadata_len.
  eapply runs_bind; [apply runs_reads; auto with mirror|]. intros len.
  eapply runs_bind; [apply runs_reads; auto with mirror|]. intros now. cbv zeta.
  eapply runs_bind; [apply runs_execute|intros []; kept].
  intros d. destruct (files d !! _) as [r|]; [destruct (fr_dirty r)|]; [done| |done].
  by apply tame_update_file.
Qed.
#[local] Hint Resolve runs_enqueue_local runs_record_clean : mirror.
Lemma runs_verified D entry h : runs D (verified utf8_error_text entry h) (fun _ => D).
Proof. unfold verified. kept. Qed.
#[local] Hint Resolve runs_verified : mirror.
Lemma runs_sync_integrity entry : safe (sync_cached_file_integrity hash_bytes utf8_error_text root entry).
Proof. unfold sync_cached_file_integrity. kept. Qed.

Lemma runs_mark_applied D id path h size mtime : runs D (mark_save_applied utf8_error_text id path h size mtime) (fun _ => D).
Proof. unfold mark_save_applied, unresolved_save_count, metadata_len. kept. Qed.
Lemma runs_mark_failed D id path e : runs D (mark_save_failed id path e) (fun _ => D).
Proof. unfold mark_save_failed. kept. Qed.
Lemma runs_record_validation D path st rh e : runs D (record_validation path st rh e) (fun _ => D).
Proof. unfold record_validation. kept. Qed.
Lemma runs_mark_validation_error D path e : runs D (mark_validation_error path e) (fun _ => D).
Proof. unfold mark_validation_error. kept. Qed.
Lemma runs_conflict_entry D id : runs D (conflict_queue_entry id) (fun _ => D).
Proof. unfold conflict_queue_entry. kept. Qed.
Lemma runs_no_newer D e : runs D (ensure_no_newer_unresolved_save e) (fun _ => D).
Proof. unfold ensure_no_newer_unresolved_save, newer_unresolved_save_count. kept. Qed.
#[local] Hint Resolve runs_conflict_entry runs_no_newer : mirror.
Lemma runs_accept_local D id : runs D (prepare_accept_local_conflict hash_bytes id) (fun _ => D).
Proof. unfold prepare_accept_local_conflict. kept. Qed.
Lemma runs_record_conflict id path actual content truncated message :
  safe (record_save_conflict root id path actual content truncated message).
Proof.
  unfold record_save_conflict. eapply runs_bind; [apply runs_reads; auto with mirror|]. intros now. cbv zeta.
  eapply runs_bind; [apply safe_durable, free_conflicts; done|]. intros []. kept.
Qed.

Lemma runs_accept_remote id : safe (accept_remote_conflict hash_bytes utf8_error_text root id).
Proof.
  unfold accept_remote_conflict. eapply runs_bind_pure.
  - unfold accept_remote_checks. do 5 (eapply runs_bind; [kept | intros ?]; cbv beta zeta).
    eapply runs_bind_pure; [apply runs_local_path | intros lp Hlp]; cbv beta zeta.
    do 4 (eapply runs_bind; [kept | intros ?]; cbv beta zeta).
    apply (runs_ret _ _ _ _ (fun x k => under_files root (snd (fst x)) /\ True)). by split.
  - intros [[[entry h] lp] content] Hlp. cbn in Hlp. cbv beta iota.
    eapply runs_bind; [destruct Hlp as [x ->]; apply safe_durable, free_files; done | intros []].
    kept.
Qed.

Lemma free_restore_part p : free root (restore_part p).
Proof.
  unfold restore_part. destruct (with_extension_end p (B"nrm-restore-part")) as [pre ->].
  change (B"nrm-restore-part") with (B"nrm-restore-" ++ B"part"). rewrite app_assoc. apply free_part.
Qed.

Lemma runs_restore entry : under_files root (me_local_path entry) -> safe (restore_latest_dirty_snapshot hash_bytes entry).
Proof.
  intros [x Hx]. unfold restore_latest_dirty_snapshot, latest_unresolved_save_entry.
  do 6 (eapply runs_bind; [kept | intros ?]; cbv beta zeta).
  set (part := restore_part (me_local_path entry)).
  assert (Hf : forall p, p ∈ [part; me_local_path entry] -> free root p).
  { intros p [->|[->|[]%elem_of_nil]%elem_of_cons]%elem_of_cons; [apply free_restore_part | rewrite Hx; apply free_files]. }
  apply (runs_only _ _ Hhash _ [part; me_local_path entry]); [|done..].
  do 4 (apply only_bind; [auto with mirror|intros ?]). apply only_rename_durable; set_solver.
Qed.
End Operations.
