(* ===== verification/MirrorTotal.v ===== *)
(** * What the mirror's operations do when nothing fails

    The state each operation on the save queue leaves, for a mirror whose calls
    succeed and that has no open transaction. *)
From S2P Require Import Prelude Paths Protocol MirrorDb MirrorLogic SearchIndex SearchIndexProps Mirror.

(** No open transaction, and the tables are those of [d] but for the index. *)
Definition settled (d : database) (k : gmap bytes bytes) (m : mirror) : Prop :=
  mr_txn m = None /\ index_only d (mr_db m) /\ mr_disk m = k.

Lemma index_only_refl d : index_only d d.
Proof. by split_and!. Qed.
Lemma settled_stable d k : stable (settled d k).
Proof. intros m m' (H1 & H2 & H3) (H4 & H5 & H6). unfold settled. by rewrite H1, H2, H3. Qed.
Lemma settled_now d k : succeeds (settled d k) now_ms (fun _ => settled d k).
Proof. apply succeeds_now, settled_stable. Qed.

Section Total.
Context (hash_bytes : bytes -> bytes) (utf8_error_text : bytes -> bytes) (root : bytes).

Lemma settled_index d k path h content : is_ok (normalize_relative_path path) = true ->
  succeeds (settled d k) (replace_search_index_from_bytes utf8_error_text path h content) (fun _ => settled d k).
Proof.
  intros Hp m Hm (H1 & H2 & H3).
  destruct (succeeds_replace_bytes m utf8_error_text path h content Hp m Hm) as (a & m' & E & Hm' & (H4 & H5 & H6)).
  { split; [done|]. split; [apply index_only_refl | done]. }
  exists a, m'. split; [done|]. split; [done|]. split; [done|]. split; [|congruence].
  destruct H2 as (? & ? & ? & ?), H5 as (? & ? & ? & ?). split_and!; congruence.
Qed.
Lemma settled_rows d k path h n st err :
  succeeds (settled d k) (replace_search_index_rows path h n st err [] []) (fun _ => settled d k).
Proof.
  intros m Hm (H1 & H2 & H3).
  destruct (succeeds_replace_rows m path h n st err [] [] ltac:(constructor) m Hm) as (a & m' & E & Hm' & (H4 & H5 & H6)).
  { split; [done|]. split; [apply index_only_refl | done]. }
  exists a, m'. split; [done|]. split; [done|]. split; [done|]. split; [|congruence].
  destruct H2 as (? & ? & ? & ?), H5 as (? & ? & ? & ?). split_and!; congruence.
Qed.

Lemma settled_rebuild d k entry h n c : is_ok (normalize_relative_path (me_relative_path entry)) = true ->
  k !! me_local_path entry = Some c ->
  succeeds (settled d k) (rebuild_search_index_from_local_file utf8_error_text entry h n) (fun _ => settled d k).
Proof.
  intros Hp Hc. unfold rebuild_search_index_from_local_file. destruct (_ >? _).
  - eapply succeeds_bind; [apply settled_rows | intros []; by apply succeeds_ret].
  - eapply succeeds_bind.
    + apply succeeds_context, (succeeds_read _ c). by intros m (_ & _ & ->).
    + intros bs. eapply succeeds_weaken; [by apply settled_index | by intros m [_ ?] | done].
Qed.

Lemma settled_len d k p c : k !! p = Some c ->
  succeeds (settled d k) (metadata_len p) (fun n m => n = zlen c /\ settled d k m).
Proof.
  intros Hc. eapply succeeds_bind; [apply (succeeds_read _ c); by intros m (_ & _ & ->)|].
  intros bs. apply succeeds_ret. by intros m [-> H].
Qed.
Lemma settled_query {A} d k (q : database -> A) :
  (forall d', index_only d d' -> q d' = q d) -> succeeds (settled d k) (query q) (fun a m => a = q d /\ settled d k m).
Proof.
  intros Hq. eapply succeeds_weaken; [apply (succeeds_query q (settled d k))|done|].
  intros a m [-> H]. split; [|done]. by apply Hq, H.
Qed.

Lemma settled_get d k path : is_ok (normalize_relative_path path) = true ->
  succeeds (settled d k) (get path) (fun e m => (exists p, normalized_path_string path = Some p /\
    e = mirror_entry_from_row p <$> files d !! p) /\ settled d k m).
Proof.
  intros Hp. unfold get, normalized_path_string. destruct (normalize_relative_path path) as [clean|] eqn:E; [|done].
  eapply (succeeds_bind _ _ _ (fun p m => p = path_to_string clean /\ settled d k m)).
  { unfold normalize. rewrite E. by eapply succeeds_lift. }
  intros p. intros m Hm [-> H].
  destruct (settled_query d k (fun d => mirror_entry_from_row (path_to_string clean) <$> files d !! path_to_string clean)
    ltac:(intros d' (-> & _); done) m Hm H) as (a & m' & E2 & Hm' & [-> H']).
  exists (mirror_entry_from_row (path_to_string clean) <$> files d !! path_to_string clean), m'.
  split; [exact E2|]. split; [done|]. split; [|done]. by exists (path_to_string clean).
Qed.

(** An open transaction whose tables are those of [d] but for the index. *)
Definition pending_in (d : database) (k : gmap bytes bytes) (m : mirror) : Prop :=
  is_Some (mr_txn m) /\ index_only d (mr_db m) /\ mr_disk m = k.
Lemma pending_in_stable d k : stable (pending_in d k).
Proof. intros m m' (H1 & H2 & H3) (H4 & H5 & H6). unfold pending_in. by rewrite H1, H2, H3. Qed.

(** An update of the tables that reads nothing of the index. *)
Definition off_index (u : database -> database) : Prop := forall d d', index_only d d' -> index_only (u d) (u d').
Lemma off_index_file path f : off_index (update_file path f).
Proof. intros d d' (H1 & H2 & H3 & H4). unfold update_file. rewrite H1. by split_and!. Qed.
Lemma off_index_upsert path new f : off_index (upsert_file path new f).
Proof. intros d d' (H1 & H2 & H3 & H4). unfold upsert_file. rewrite H1. by split_and!. Qed.
Lemma off_index_queue p f : off_index (update_queue p f).
Proof. intros d d' (H1 & H2 & H3 & H4). unfold update_queue. rewrite H2, H3. by split_and!. Qed.
Lemma off_index_insert row : off_index (insert_queue row).
Proof. intros d d' (H1 & H2 & H3 & H4). unfold insert_queue. rewrite H2, H3. by split_and!. Qed.

Lemma pending_execute d k u : off_index u ->
  succeeds (pending_in d k) (execute u) (fun _ => pending_in (u d) k).
Proof. intros Hu. apply succeeds_execute. intros m (H1 & H2 & H3). split; [done|]. split; [by apply Hu | done]. Qed.

(** A transaction ends in tables of which [R] holds. *)
Lemma settled_transaction d k c (R : database -> Prop) :
  succeeds (pending_in d k) c (fun _ m => exists d', R d' /\ pending_in d' k m) ->
  succeeds (settled d k) (immediate_transaction c) (fun _ m => exists d', R d' /\ settled d' k m).
Proof.
  intros Hc. apply (succeeds_transaction _ _ (pending_in d k) (fun m => exists d', R d' /\ settled d' k m)).
  - intros m (H1 & H2 & H3). split; [done|]. by split; [eexists|].
  - eapply succeeds_weaken; [exact Hc|done|]. intros [] m (d' & HR & H1 & H2 & H3). split; [done|]. by exists d'.
Qed.
Lemma succeeds_exists {A B} (P : B -> mirror -> Prop) (c : Mir A) Q :
  (forall b, succeeds (P b) c Q) -> succeeds (fun m => exists b, P b m) c Q.
Proof. intros H m Hm [b Hb]. by apply (H b). Qed.
Lemma succeeds_pure {A} (phi : Prop) P (c : Mir A) Q :
  (phi -> succeeds P c Q) -> succeeds (fun m => phi /\ P m) c Q.
Proof. intros H m Hm [Hphi HP]. by apply H. Qed.

(** ** Outcomes of uploads *)

Definition row_applied (id now : Z) (d : database) : database :=
  update_queue (of_id id) (set_queue_state Applied None now) d.
(** The tables once a save of [path] is known to be on the remote with hash [h]. *)
Definition save_applied (id : Z) (path h : bytes) (size mtime now now' : Z) (d : database) : database :=
  let d := row_applied id now d in
  update_file path (if 0 <? zlen (replayable_rows path d) then set_still_dirty (as_i64 size) mtime h now'
                    else set_clean (as_i64 size) mtime h now') d.

Lemma mark_applied_settles d k id path h size mtime : is_ok (normalize_relative_path path) = true ->
  normalized_path_string path = Some path ->
  succeeds (settled d k) (mark_save_applied utf8_error_text id path h size mtime)
    (fun _ m => exists d', (exists now now', d' = save_applied id path h size mtime now now' d) /\ settled d' k m).
Proof.
  intros Hp Hn. unfold mark_save_applied. eapply succeeds_bind.
  - apply (settled_transaction d k _ (fun d' => exists now now', d' = save_applied id path h size mtime now now' d)).
    eapply succeeds_bind; [apply succeeds_now, pending_in_stable|]. intros now.
    eapply succeeds_bind; [apply pending_execute, off_index_queue|]. intros []. fold (row_applied id now d).
    eapply succeeds_bind.
    { eapply (succeeds_weaken _ _ (fun n m => n = zlen (replayable_rows path (row_applied id now d)) /\ pending_in (row_applied id now d) k m)).
      - apply (succeeds_query _ (pending_in (row_applied id now d) k)).
      - done.
      - intros n m [-> H]. split; [|done]. destruct H as (_ & (_ & Hq & _) & _). unfold replayable_rows. by rewrite Hq. }
    intros n. apply succeeds_pure. intros ->.
    eapply succeeds_bind; [apply succeeds_now, pending_in_stable|]. intros now'.
    eapply succeeds_weaken; [apply pending_execute, off_index_file|done|]. intros [] m H. eexists. split; [|exact H].
    by exists now, now'.
  - intros []. apply succeeds_exists. intros d'. apply succeeds_pure. intros HR.
    eapply succeeds_bind; [by apply settled_get|]. intros e. apply succeeds_pure. intros (p & Hp' & ->).
    rewrite Hn in Hp'. injection Hp' as <-. destruct (files d' !! path) as [r|]; cbn [fmap option_fmap option_map];
      [|apply succeeds_ret; eauto].
    eapply (succeeds_bind _ _ _ (fun b m => (b = true -> is_Some (k !! fr_local_path r)) /\ settled d' k m)).
    { intros m Hm H. unfold is_file, fmap, Mir_fmap. rewrite Mir_bind_run. unfold catch. rewrite read_file_calm by done.
      destruct H as (H1 & H2 & H3). cbn. rewrite H3. destruct (k !! fr_local_path r); eexists _, m;
        (split; [done|]; split; [done|]; split; [done || by eexists | by split_and!]). }
    intros b. apply succeeds_pure. intros Hb. destruct b; [|apply succeeds_ret; eauto]. destruct (Hb eq_refl) as [c Hc].
    eapply (succeeds_bind _ _ _ (fun _ => settled d' k)).
    { eapply succeeds_weaken; [by eapply succeeds_catch, settled_len|done|by intros a m (x & _ & _ & H)]. }
    intros len. eapply succeeds_bind; [by eapply settled_rebuild|]. intros u. apply succeeds_ret. eauto.
Qed.

(** No temporary file of an earlier write of [q] is left over. *)
Definition no_leftover (k : gmap bytes bytes) (q : bytes) : Prop := forall n, k !! durable_tmp q n = None.

Lemma durable_settles d k q content : no_leftover k q ->
  succeeds (settled d k) (write_durable_file q content) (fun _ m => exists k', settled d k' m).
Proof.
  intros Hk m Hm (H1 & H2 & H3). unfold write_durable_file. rewrite Mir_bind_run. unfold create_dir_all. rewrite io_calm by done.
  cbn [mret Mir_ret]. rewrite Mir_bind_run. destruct (now_nanos_run m) as (n & m1 & -> & (S1 & S2 & S3) & Hf). cbv zeta.
  assert (Hm1 : calm m1) by (unfold calm in *; congruence). set (tmp := durable_tmp q n).
  set (k2 := <[q := content]> (delete tmp (<[tmp := content]> (mr_disk m1)))). exists tt, (with_disk k2 m1).
  assert (Hrun : (create_new tmp;; write_all tmp content;; sync_all;; rename_durable tmp q) m1 = (Ok tt, with_disk k2 m1)).
  { unfold create_new, sync_all, rename_durable, rename, sync_parent_dir, context. rewrite Mir_bind_run, io_calm by done.
    rewrite S3, H3, (Hk n : k !! tmp = None). rewrite Mir_bind_run. unfold write_all, next_fault. cbn [mr_faults with_disk]. rewrite Hm1.
    rewrite Mir_bind_run, io_calm by done. cbn [mret Mir_ret mr_disk with_disk]. rewrite Mir_bind_run, io_calm by done.
    cbn [mr_disk with_disk]. rewrite alter_insert_eq, lookup_insert_eq, io_calm by done. cbn. unfold k2. by rewrite S3, H3. }
  split; [unfold or_remove; rewrite Mir_bind_run; unfold catch; by rewrite Hrun|]. split; [done|].
  exists k2. split_and!; cbn; [congruence | congruence | done].
Qed.

(** The tables once a save is known to be in conflict. *)
Lemma conflict_settles d k id path actual content truncated message :
  (forall now, no_leftover k (conflict_copy_name root path truncated now)) ->
  succeeds (settled d k) (record_save_conflict root id path actual content truncated message)
    (fun _ m => exists d' k', settled d' k' m /\ exists copy now,
       save_queue d' = (fun r => if of_id id r then set_queue Conflicted (qr_expected_hash r) (qr_attempts r + 1) (Some message)
                          (Some copy) actual truncated now r else r) <$> save_queue d).
Proof.
  intros Hk. unfold record_save_conflict. eapply succeeds_bind; [apply settled_now|]. intros now. cbv zeta.
  eapply succeeds_bind; [by apply durable_settles|]. intros []. apply succeeds_exists. intros k1.
  set (copy := conflict_copy_name _ _ _ now).
  eapply succeeds_bind.
  - apply (settled_transaction d k1 _ (fun d' => exists now, save_queue d' =
      (fun r => if of_id id r then set_queue Conflicted (qr_expected_hash r) (qr_attempts r + 1) (Some message)
                  (Some copy) actual truncated now r else r) <$> save_queue d)).
    eapply succeeds_bind; [apply succeeds_now, pending_in_stable|]. intros now1.
    eapply succeeds_bind; [apply pending_execute, off_index_queue|]. intros [].
    eapply succeeds_bind; [apply succeeds_now, pending_in_stable|]. intros now2.
    eapply succeeds_weaken; [apply pending_execute, off_index_file|done|]. intros [] m H. eexists. split; [|exact H]. by exists now1.
  - intros []. apply succeeds_exists. intros d'. apply succeeds_pure. intros [now1 Hq]. apply succeeds_ret. intros m H.
    exists d', k1. split; [done|]. by exists copy, now1.
Qed.
End Total.
