(* ===== verification/MirrorAtomic.v ===== *)
(** * Transactions of the mirror's database

    What a transaction leaves when any of its calls may fail: all of its updates
    or none.  The exception is a [COMMIT] that fails and leaves the transaction
    open, after which the connection takes no further transaction. *)
From S2P Require Import Prelude Paths Protocol MirrorDb MirrorLogic SearchIndex Mirror MirrorProps.

(** ** Properties of the tables through any run *)

(** [phi] holds of the tables and of the image an open transaction would return to. *)
Definition all_images (phi : database -> Prop) (m : mirror) : Prop :=
  phi (mr_db m) /\ forall image, mr_txn m = Some image -> phi image.
Definition keeps {A : Type} (phi : database -> Prop) (c : Mir A) : Prop :=
  forall m, all_images phi m -> all_images phi (snd (c m)).

Section Keeps.
Context (phi : database -> Prop).

Lemma keeps_only {A} ps (c : Mir A) : only ps c -> keeps phi c.
Proof. intros Hc m [H1 H2]. destruct (Hc m) as (E1 & E2 & _). split; rewrite ?E1, ?E2; auto. Qed.
Lemma keeps_bind {A B} (c : Mir A) (k : A -> Mir B) : keeps phi c -> (forall a, keeps phi (k a)) -> keeps phi (c ≫= k).
Proof. intros Hc Hk m Hm. rewrite Mir_bind_run. specialize (Hc m Hm). destruct (c m) as [[a|e] m1]; [by apply Hk | done]. Qed.
Lemma keeps_catch {A} (c : Mir A) : keeps phi c -> keeps phi (catch c).
Proof. intros Hc m Hm. specialize (Hc m Hm). unfold catch. by destruct (c m). Qed.
Lemma keeps_context {A} e (c : Mir A) : keeps phi c -> keeps phi (context e c).
Proof. intros Hc m Hm. specialize (Hc m Hm). unfold context. by destruct (c m). Qed.
Lemma keeps_sqlite {A} (g : Mir A) : keeps phi g -> keeps phi (sqlite g).
Proof.
  intros Hg m Hm. unfold sqlite. destruct (next_fault m) as [f m1] eqn:E. apply next_fault_same in E as (H1 & H2 & _).
  assert (Hm1 : all_images phi m1) by (destruct Hm; split; rewrite ?H1, ?H2; auto). destruct f as [[|]|]; cbn; [done| |by apply Hg].
  unfold abandon. destruct (mr_txn m1) as [image|] eqn:Et; [|done]. destruct Hm1 as [_ H]. split; cbn; [by apply H | done].
Qed.
Lemma keeps_query {A} (q : database -> A) : keeps phi (query q).
Proof. apply keeps_sqlite. by intros m. Qed.
Lemma keeps_try_execute u : (forall d d', phi d -> u d = Ok d' -> phi d') -> keeps phi (try_execute u).
Proof.
  intros Hu. apply keeps_sqlite. intros m [H1 H2]. destruct (u (mr_db m)) as [d|e] eqn:E; cbn; [|by split].
  split; cbn; [by eapply Hu | done].
Qed.
Lemma keeps_execute u : (forall d, phi d -> phi (u d)) -> keeps phi (execute u).
Proof. intros Hu. apply keeps_try_execute. intros d d' H [= <-]. auto. Qed.
Lemma keeps_transaction c : keeps phi c -> keeps phi (immediate_transaction c).
Proof.
  intros Hc. apply keeps_bind.
  { apply keeps_sqlite. intros m [H1 H2]. destruct (mr_txn m) as [image|] eqn:E; cbn; [by split; rewrite ?E|]. split; cbn; [done|]. by intros ? [= <-]. }
  intros []. apply keeps_bind; [by apply keeps_catch|]. intros [u|e].
  - apply keeps_sqlite. intros m [H1 H2]. destruct (mr_txn m) as [image|] eqn:E; cbn; [by split|]. by split; rewrite ?E.
  - apply keeps_bind; [|by intros r m]. apply keeps_catch, keeps_sqlite. intros m [H1 H2].
    destruct (mr_txn m) as [image|] eqn:E; cbn; [split; cbn; auto|]; [done|]. by split; rewrite ?E.
Qed.
Lemma keeps_for_each {A} (f : A -> Mir unit) l : (forall a, keeps phi (f a)) -> keeps phi (for_each f l).
Proof. intros Hf. induction l as [|a l IH]; cbn [for_each]; [by intros m|]. apply keeps_bind; [done|]. by intros []. Qed.
End Keeps.

(** A property that says nothing of the index. *)
Definition unindexed (phi : database -> Prop) : Prop := forall d sf sl st, phi d -> phi (with_search sf sl st d).

Lemma keeps_index phi u path h content : unindexed phi -> keeps phi (replace_search_index_from_bytes u path h content).
Proof.
  intros Hphi.
  assert (Hrows : forall path h n st err lines grams, keeps phi (replace_search_index_rows path h n st err lines grams)).
  { intros. apply keeps_transaction. apply keeps_bind; [apply keeps_execute; intros; by apply Hphi|]. intros [].
    apply keeps_bind; [apply keeps_execute; intros; by apply Hphi|]. intros []. apply keeps_bind.
    - apply keeps_for_each. intros [ln t]. apply keeps_try_execute. intros d d' Hd. unfold insert_line. destruct (existsb _ _); [done|].
      intros [= <-]. by apply Hphi.
    - intros []. apply keeps_bind.
      + apply keeps_for_each. intros g. apply keeps_execute. intros d Hd. unfold insert_or_ignore_trigram.
        case_bool_decide; [done | by apply Hphi].
      + intros []. apply keeps_bind; [apply (keeps_only _ []); auto with mirror|]. intros now. apply keeps_execute. intros. by apply Hphi. }
  apply keeps_bind; [apply (keeps_only _ []), only_lift|]. intros p. cbv beta zeta.
  destruct (_ >? _); [|destruct (negb _)]; (apply keeps_bind; [apply Hrows | by intros [] m]).
Qed.

(** ** All or nothing *)

(** What a call inside a transaction may do: go on with it, or fail and lose it. *)
Definition inside {A : Type} (c : Mir A) : Prop := forall m image, mr_txn m = Some image ->
  let m' := snd (c m) in
  mr_txn m' = Some image \/ (mr_txn m' = None /\ mr_db m' = image /\ is_ok (fst (c m)) = false).

Lemma inside_bind {A B} (c : Mir A) (k : A -> Mir B) : inside c -> (forall a, inside (k a)) -> inside (c ≫= k).
Proof.
  intros Hc Hk m image Hm. rewrite Mir_bind_run. specialize (Hc m image Hm). destruct (c m) as [[a|e] m1]; cbn in *; [|done].
  destruct Hc as [H|(_ & _ & H)]; [|done]. by apply Hk.
Qed.
Lemma inside_only {A} ps (c : Mir A) : only ps c -> inside c.
Proof. intros Hc m image Hm. left. destruct (Hc m) as (_ & -> & _). done. Qed.
Lemma inside_sqlite {A} (g : Mir A) : (forall m, mr_txn (snd (g m)) = mr_txn m) -> inside (sqlite g).
Proof.
  intros Hg m image Hm. unfold sqlite. destruct (next_fault m) as [f m1] eqn:E. apply next_fault_same in E as (_ & Ht & _).
  rewrite Hm in Ht. destruct f as [[|]|]; cbn; [by left| |left; by rewrite Hg]. right. unfold abandon. by rewrite Ht.
Qed.
Lemma inside_execute u : inside (execute u).
Proof. by apply inside_sqlite. Qed.
Lemma inside_query {A} (q : database -> A) : inside (query q).
Proof. by apply inside_sqlite. Qed.

Lemma committed_sqlite {A} (g : Mir A) m : (forall m, committed (snd (g m)) = committed m) ->
  committed (snd (sqlite g m)) = committed m.
Proof.
  intros Hg. unfold sqlite. destruct (next_fault m) as [f m1] eqn:E. apply next_fault_same in E as (H1 & H2 & _).
  assert (H : committed m1 = committed m) by (unfold committed; by rewrite H1, H2).
  destruct f as [[|]|]; cbn; [done| |by rewrite Hg]. rewrite <- H. unfold abandon, committed. by destruct (mr_txn m1) eqn:Et; cbn; rewrite ?Et.
Qed.
Lemma committed_begin m : committed (snd (begin_immediate m)) = committed m.
Proof. apply committed_sqlite. intros m1. unfold committed. by destruct (mr_txn m1) eqn:Et; cbn; rewrite ?Et. Qed.
Lemma committed_rollback m : committed (snd (rollback m)) = committed m.
Proof. apply committed_sqlite. intros m1. unfold committed. by destruct (mr_txn m1) eqn:Et; cbn; rewrite ?Et. Qed.
Lemma committed_commit m e m' : commit m = (Err e, m') -> committed m' = committed m.
Proof.
  unfold commit, sqlite. destruct (next_fault m) as [f m1] eqn:E. apply next_fault_same in E as (H1 & H2 & _).
  unfold committed. rewrite <- H1, <- H2. destruct f as [[|]|]; [by intros [= _ <-] | |].
  - intros [= _ <-]. unfold abandon. by destruct (mr_txn m1) eqn:Et; cbn; rewrite ?Et.
  - destruct (mr_txn m1) eqn:Et; [done|]. intros [= _ <-]. by rewrite Et.
Qed.

(** An update in a transaction is committed whole, or the tables another connection sees stay
    as they were and an error is reported. *)
Lemma transaction_atomic c m : inside c ->
  let m' := snd (immediate_transaction c m) in
  (fst (immediate_transaction c m) = Ok () /\ mr_txn m = None /\ mr_txn m' = None /\
   exists m1 m2, mr_db m1 = mr_db m /\ mr_disk m1 = mr_disk m /\ mr_txn m1 = Some (mr_db m) /\ c m1 = (Ok (), m2) /\
     mr_db m' = mr_db m2 /\ mr_disk m' = mr_disk m2) \/
  (is_ok (fst (immediate_transaction c m)) = false /\ committed m' = committed m).
Proof.
  intros Hc. destruct (immediate_transaction c m) as [r m'] eqn:E. cbn. destruct r as [[]|e].
  { left. apply immediate_transaction_Ok in E as (H1 & H2 & m1 & [] & m2 & H). split_and!; [done..|]. by exists m1, m2. }
  right. split; [done|]. unfold immediate_transaction in E. rewrite Mir_bind_run in E.
  pose proof (committed_begin m) as Hb. destruct (begin_immediate m) as [[u|e1] m1] eqn:Eb; cbn in Hb; [|injection E as _ <-; done].
  apply sqlite_Ok in Eb as (m0 & _ & Eb). destruct (mr_txn m0) eqn:Et0; [done|]. injection Eb as _ <-.
  rewrite <- Hb. rewrite Mir_bind_run in E. unfold catch in E.
  specialize (Hc (with_db (Some (mr_db m0)) (mr_db m0) m0) (mr_db m0) eq_refl).
  destruct (c _) as [[[]|e'] m2]; cbn in Hc.
  - apply committed_commit in E as ->. destruct Hc as [Hc|(_ & _ & ?)]; [|done]. unfold committed. by rewrite Hc.
  - rewrite Mir_bind_run in E. pose proof (committed_rollback m2) as Hr. destruct (rollback m2) as [r m3].
    injection E as _ <-. cbn in Hr. rewrite Hr. unfold committed. by destruct Hc as [->|(-> & -> & _)].
Qed.

(** ** Queuing a save *)

Section Enqueue.
Context (utf8_error_text : bytes -> bytes) (root : bytes).

Lemma leaves_index p path h content : leaves p (replace_search_index_from_bytes utf8_error_text path h content).
Proof. unfold replace_search_index_from_bytes, replace_search_index_rows, normalize. leaves_through ltac:(idtac). Qed.
Lemma leaves_rebuild p entry h n : leaves p (rebuild_search_index_from_local_file utf8_error_text entry h n).
Proof.
  unfold rebuild_search_index_from_local_file, replace_search_index_rows. leaves_through ltac:(apply leaves_index).
Qed.


(** A save is made on top of the latest one that still waits. *)
Definition effective_expected (path : bytes) (expected : option bytes) (d : database) : option bytes :=
  match qr_local_hash <$> last (replayable_rows path d) with Some h => Some h | None => expected end.
(** The tables [d'] are [d] with one more save of [path], and the file's row agrees with it. *)
Definition queued (path : bytes) (row : queue_row) (d d' : database) : Prop :=
  save_queue d' = save_queue d ++ [row] /\
  exists f, files d' !! path = Some f /\ fr_dirty f = true /\ fr_local_hash f = Some (qr_local_hash row).

Lemma snapshot_stored path h content m r m' : length h = 64%nat -> write_save_snapshot root path h content m = (r, m') ->
  mr_db m' = mr_db m /\ mr_txn m' = mr_txn m /\ forall p, r = Ok p -> mr_disk m' !! p = Some content.
Proof.
  intros Hl. unfold write_save_snapshot. rewrite Mir_bind_run. destruct (now_ms_run m) as (now & m1 & -> & (H1 & H2 & _) & _).
  cbv zeta. set (q := snapshot_name _ _ _ _). rewrite Mir_bind_run.
  destruct (only_write_durable q content m1) as (n & H3 & H4 & _).
  destruct (write_durable_file q content m1) as [r2 m2] eqn:E. cbn in H3, H4.
  apply write_durable_target in E as [_ E]; [|intros n' E'; by apply (free_tmp root q n' path now h)].
  destruct r2; intros [= <- <-]; (split_and!; [congruence..|]); intros p [= <-]. by apply E.
Qed.

Lemma enqueue_rows_atomic path lp h expected content snapshot now m r m' :
  immediate_transaction (enqueue_rows path lp h expected content snapshot now) m = (r, m') ->
  (is_ok r = false /\ committed m' = committed m) \/
  (r = Ok () /\ mr_txn m = None /\ mr_txn m' = None /\ mr_disk m' = mr_disk m /\
   sqlite_sequence (mr_db m') = sqlite_sequence (mr_db m) + 1 /\
   queued path (pending_row (sqlite_sequence (mr_db m) + 1) path expected h snapshot now) (mr_db m) (mr_db m')).
Proof.
  intros E. assert (Hin : inside (enqueue_rows path lp h expected content snapshot now))
    by (apply inside_bind; [|intros []]; apply inside_execute).
  apply (transaction_atomic _ m) in Hin. cbv zeta in Hin. rewrite E in Hin. cbn [fst snd] in Hin.
  destruct Hin as [(-> & H1 & H2 & m1 & m2 & D1 & K1 & T1 & Ec & D2 & K2)|H]; [right | by left].
  apply Mir_bind_Ok in Ec as ([] & m3 & (D3 & _ & K3)%execute_Ok & (D4 & _ & K4)%execute_Ok).
  rewrite D2, D4, D3, D1. split; [done|]. split; [done|]. split; [done|]. split; [congruence|]. split; [done|]. split; [done|].
  cbn. rewrite lookup_insert_eq. eexists. split; [done|]. by destruct (files (mr_db m) !! path).
Qed.

Lemma queued_index path row d u h content m : queued path row d (mr_db m) -> mr_txn m = None ->
  queued path row d (committed (snd (replace_search_index_from_bytes u path h content m))).
Proof.
  intros Hq Ht. destruct (keeps_index (queued path row d) u path h content) with (m := m) as [H1 H2]; [by intros ? ? ? ?| |].
  - split; [done|]. by rewrite Ht.
  - unfold committed. destruct (mr_txn (snd _)) eqn:E; cbn; [by apply H2 | exact H1].
Qed.

(** Once its snapshot is stored. *)
Lemma enqueue_tail path lp h expected content snapshot m r m' : mr_disk m !! snapshot = Some content ->
  (now ← now_ms;
   immediate_transaction (enqueue_rows path lp h expected content snapshot now);;
   queue_id ← last_insert_rowid;
   replace_search_index_from_bytes utf8_error_text path h content;;
   mret {| se_id := queue_id; se_relative_path := path; se_expected_hash := expected; se_local_hash := h;
           se_snapshot_path := snapshot |}) m = (r, m') ->
  (is_ok r = false /\ committed m' = committed m) \/
  mr_txn m = None /\ exists id now, let row := pending_row id path expected h snapshot now in
    queued path row (committed m) (committed m') /\ mr_disk m' !! snapshot = Some content /\
    (forall e, r = Ok e -> e = entry_of_row row).
Proof.
  intros K. rewrite Mir_bind_run. destruct (now_ms_run m) as (now & m3 & -> & (D3 & T3 & K3) & _). rewrite Mir_bind_run.
  destruct (immediate_transaction _ m3) as [r4 m4] eqn:E4. apply enqueue_rows_atomic in E4 as [[H4 C4]|(-> & T0 & T4 & K4 & S4 & Q4)].
  { destruct r4; [done|]. intros [= <- <-]. left. split; [done|]. rewrite C4. unfold committed. congruence. }
  rewrite Mir_bind_run. cbn [last_insert_rowid]. rewrite Mir_bind_run. intros E. right. split; [congruence|]. exists (sqlite_sequence (mr_db m4)), now.
  assert (Hc : committed m = mr_db m3) by (unfold committed; rewrite <- T3, T0; done). cbn zeta. rewrite Hc, S4.
  pose proof (queued_index _ _ _ utf8_error_text h content m4 Q4 T4) as Q5.
  pose proof (leaves_index snapshot path h content m4) as K5.
  destruct (replace_search_index_from_bytes utf8_error_text path h content m4) as [[x|] m5]; injection E as <- <-; cbn in Q5, K5;
    (split; [exact Q5|]; split; [congruence|]); intros e2 [= <-]. by rewrite S4.
Qed.

(** C15 (invariant) Queuing a save is all or nothing, whichever of its calls fail: the
    tables that are committed are as before and an error is reported, or they have exactly one more
    pending save, made on top of the latest save of the file that still waits, whose snapshot is
    stored, and the file's row is dirty with the save's hash.  A reported success means the
    latter, and names the new save. *)
Theorem enqueue_save_all_or_nothing path p h expected content m r m' :
  normalized_path_string path = Some p -> length h = 64%nat ->
  enqueue_save utf8_error_text root path h expected content m = (r, m') ->
  (is_ok r = false /\ committed m' = committed m) \/
  exists id snapshot now,
    let row := pending_row id p (effective_expected p expected (committed m)) h snapshot now in
    queued p row (committed m) (committed m') /\ mr_disk m' !! snapshot = Some content /\
    forall e, r = Ok e -> e = entry_of_row row.
Proof.
  intros Hp Hl. unfold enqueue_save. unfold normalized_path_string in Hp. unfold normalize.
  destruct (normalize_relative_path path) as [clean|]; [|done]. injection Hp as <-. rewrite Mir_bind_run. cbn [lift map_err].
  cbn [fmap result_fmap]. set (p := path_to_string clean). rewrite Mir_bind_run.
  destruct (local_path root p m) as [[lp|e] m0] eqn:E0; injection E0 as E0 <-; [|intros [= <- <-]; by left].
  rewrite Mir_bind_run. pose proof (committed_sqlite (fun m => (Ok (qr_local_hash <$> last (replayable_rows p (mr_db m))), m)) m
    ltac:(done)) as H1. unfold latest_unresolved_save_hash. fold (query (fun d => qr_local_hash <$> last (replayable_rows p d))) in H1.
  destruct (query _ m) as [[latest|] m1] eqn:E1; cbn in H1; [|intros [= <- <-]; by left].
  apply query_Ok in E1 as [-> (D1 & T1 & _)]. cbv zeta. rewrite Mir_bind_run.
  destruct (write_save_snapshot root p h content m1) as [r2 m2] eqn:E2. apply snapshot_stored in E2 as (D2 & T2 & K2); [|done].
  assert (C2 : committed m2 = committed m) by (rewrite <- H1; unfold committed; congruence). rewrite <- C2.
  destruct r2 as [snap|e]; [|intros [= <- <-]; by left]. specialize (K2 snap eq_refl). intros E.
  apply enqueue_tail in E as [?|(T & id & now & Q & K & He)]; [by left | right | exact K2].
  assert (Ed : mr_db m = committed m) by (unfold committed; rewrite <- T1, <- T2, T; done).
  exists id, snap, now. cbn zeta. rewrite C2 in *. rewrite Ed in Q, He. done.
Qed.
End Enqueue.

(** ** A failed commit *)

(** While a transaction is open, nothing is queued. *)
Lemma open_transaction_blocks_enqueue u root path h expected content m : calm m -> is_Some (mr_txn m) ->
  is_ok (fst (enqueue_save u root path h expected content m)) = false.
Proof.
  intros Hm Ht. destruct (enqueue_save u root path h expected content m) as [[e|] m'] eqn:E; [|done]. exfalso.
  unfold enqueue_save in E. apply Mir_bind_Ok in E as (p & m1 & E1 & E). injection E1 as _ <-.
  apply Mir_bind_Ok in E as (lp & m1 & E1 & E). injection E1 as _ <-.
  apply Mir_bind_Ok in E as (l & m1 & [_ (_ & T1 & _)]%query_Ok & E). cbv zeta in E.
  apply Mir_bind_Ok in E as (snap & m2 & E2 & E). apply Mir_bind_Ok in E as (now & m3 & (_ & T3 & _)%now_ms_Ok & E).
  apply Mir_bind_Ok in E as ([] & m4 & E4 & _). apply immediate_transaction_Ok in E4 as (T4 & _).
  assert (T2 : mr_txn m2 = mr_txn m1).
  { unfold write_save_snapshot in E2. apply Mir_bind_Ok in E2 as (now' & m5 & (_ & T5 & _)%now_ms_Ok & E2). cbv zeta in E2.
    set (q := snapshot_name _ _ _ _) in E2. destruct (only_write_durable q content m5) as (n & _ & T6 & _).
    apply Mir_bind_Ok in E2 as ([] & m6 & E6 & [= _ <-]). rewrite E6 in T6. cbn in T6. congruence. }
  destruct Ht as [image Ht]. congruence.
Qed.

(** C18 (error) A transaction whose [COMMIT] fails without ending it is not rolled back: its error is
    reported, and from then on every transaction of the connection fails at [BEGIN IMMEDIATE],
    so no later save can be queued. *)
Theorem failed_commit_blocks_later_saves action m m1 m2 n message :
  begin_immediate m = (Ok (), m1) -> action m1 = (Ok (), m2) -> mr_txn m2 = mr_txn m1 ->
  mr_faults m2 = [Some (Fail n message)] ->
  exists m3, immediate_transaction action m = (Err message, m3) /\ committed m3 = committed m /\
    (forall later, immediate_transaction later m3 = (Err (B"cannot start a transaction within a transaction"), m3)) /\
    forall u root path h expected content, is_ok (fst (enqueue_save u root path h expected content m3)) = false.
Proof.
  intros Hb Ha Ht Hf. exists (with_schedule [] m2). pose proof (committed_begin m) as Hc. rewrite Hb in Hc. cbn in Hc.
  pose proof Hb as Hb'. apply sqlite_Ok in Hb' as (m0 & _ & Hb'). destruct (mr_txn m0) eqn:T0; [done|]. injection Hb' as Hb'.
  assert (Hs : mr_txn m2 = Some (mr_db m0)) by (rewrite Ht, <- Hb'; done).
  split_and!.
  - unfold immediate_transaction. rewrite Mir_bind_run, Hb, Mir_bind_run. unfold catch. rewrite Ha.
    unfold commit, sqlite, next_fault. by rewrite Hf.
  - rewrite <- Hc. unfold committed. cbn. rewrite Hs, <- Hb'. done.
  - intros later. unfold immediate_transaction. rewrite Mir_bind_run. unfold begin_immediate. rewrite sqlite_calm by done.
    change (mr_txn (with_schedule [] m2)) with (mr_txn m2). by rewrite Hs.
  - intros. apply open_transaction_blocks_enqueue; [done|]. exists (mr_db m0). exact Hs.
Qed.

(** ** Concrete runs *)

Module Atomic.
Definition hash64 : bytes := repeat "a"%byte 64.
Definition state (faults : list (option fault)) : mirror := {|
  mr_db := empty_database; mr_txn := None; mr_disk := ∅; mr_clock := 7000000; mr_ticks := []; mr_faults := faults |}.
Definition busy : fault := Fail 0 (B"database is locked").
Definition action : Mir unit := enqueue_rows (B"a") (B"/m/files/a") hash64 None (B"x") (B"/m/s") 7.
Definition begun : mirror := snd (begin_immediate (state [None; None; None; Some busy])).
Definition acted : mirror := snd (action begun).
Definition run (faults : list (option fault)) : result bytes SaveQueueEntry * mirror :=
  enqueue_save (fun _ => []) (B"/m") (B"a") hash64 None (B"x") (state faults).
End Atomic.

Lemma enqueue_save_all_or_nothing_witness :
  fst (Atomic.run []) = Ok {| se_id := 1; se_relative_path := B"a"; se_expected_hash := None; se_local_hash := Atomic.hash64;
    se_snapshot_path := snapshot_name (B"/m") (B"a") 7 Atomic.hash64 |} /\
  ((is_ok (fst (Atomic.run [])) = false /\ committed (snd (Atomic.run [])) = committed (Atomic.state [])) \/
   exists id snapshot now,
    let row := pending_row id (B"a") None Atomic.hash64 snapshot now in
    queued (B"a") row (committed (Atomic.state [])) (committed (snd (Atomic.run []))) /\
    mr_disk (snd (Atomic.run [])) !! snapshot = Some (B"x") /\ forall e, fst (Atomic.run []) = Ok e -> e = entry_of_row row).
Proof.
  split; [reflexivity|].
  exact (enqueue_save_all_or_nothing (fun _ => []) (B"/m") (B"a") (B"a") Atomic.hash64 None (B"x") (Atomic.state [])
    (fst (Atomic.run [])) (snd (Atomic.run [])) eq_refl eq_refl (surjective_pairing _)).
Defined.

Lemma failed_commit_blocks_later_saves_witness :
  exists m3, immediate_transaction Atomic.action (Atomic.state [None; None; None; Some Atomic.busy]) = (Err (B"database is locked"), m3) /\
    committed m3 = committed (Atomic.state [None; None; None; Some Atomic.busy]) /\
    (forall later, immediate_transaction later m3 = (Err (B"cannot start a transaction within a transaction"), m3)) /\
    forall u root path h expected content, is_ok (fst (enqueue_save u root path h expected content m3)) = false.
Proof.
  exact (failed_commit_blocks_later_saves Atomic.action (Atomic.state [None; None; None; Some Atomic.busy]) Atomic.begun Atomic.acted 0 (B"database is locked")
    eq_refl eq_refl eq_refl eq_refl).
Defined.
