(* ===== verification/MirrorConflicts.v ===== *)
(** * Accepting the remote version of a conflict

    The local file is replaced by the saved remote copy only if nothing changed
    since the conflict was recorded, and its bytes stay in the snapshot of the
    save, whichever call fails. *)
From S2P Require Import Prelude Paths Protocol MirrorDb MirrorLogic SearchIndex Mirror MirrorProps MirrorAtomic.
From stdpp Require Import sorting.
#[local] Open Scope Z_scope.

Section Accept.
Context (hash_bytes : bytes -> bytes) (utf8_error_text : bytes -> bytes) (root : bytes).

(** A queued save that may be resolved in favour of the remote bytes [content], with hash [h],
    over the local file [lp]: it is in conflict, whole, the local file is still the one that was
    saved, and no later save of the file is unresolved. *)
Record acceptable (m : mirror) (row : queue_row) (h lp content : bytes) : Prop := {
  acc_queued : row ∈ save_queue (mr_db m);
  acc_conflict : qr_state row = Conflicted;
  acc_whole : qr_remote_conflict_truncated row = false;
  acc_latest : Forall (fun r => qr_relative_path r = qr_relative_path row -> qr_id row < qr_id r -> is_unresolved r = false)
                 (save_queue (mr_db m));
  acc_path : fst (local_path root (qr_relative_path row) m) = Ok lp;
  acc_local : exists old, mr_disk m !! lp = Some old /\ hash_bytes old = qr_local_hash row;
  acc_copy : exists copy, qr_remote_conflict_path row = Some copy /\ mr_disk m !! copy = Some content;
  acc_hash : qr_conflict_actual_hash row = Some h /\ hash_bytes content = h }.

Lemma check_Ok (b : bool) e m u m' : (if b then bail e else mret ()) m = (Ok u, m') -> b = false /\ m' = m.
Proof. by destruct b; [|intros [= _ <-]]. Qed.
Lemma context_Ok {A} e (c : Mir A) m a m' : context e c m = (Ok a, m') -> c m = (Ok a, m').
Proof. unfold context. destruct (c m) as [r m1]. intros [= E%map_err_Ok <-]. by rewrite E. Qed.
Lemma hash_file_Ok p m h m' : hash_file hash_bytes p m = (Ok h, m') ->
  exists c, mr_disk m !! p = Some c /\ h = hash_bytes c /\ same_store m m'.
Proof.
  unfold hash_file. intros (c & m1 & [H1 H2]%read_file_Ok & [= <- <-])%Mir_bind_Ok. by exists c.
Qed.
Lemma newer_none path id d : (0 <? zlen (List.filter (fun r => bytes_eqb (qr_relative_path r) path && (id <? qr_id r) && is_unresolved r)
    (save_queue d))) = false ->
  Forall (fun r => qr_relative_path r = path -> id < qr_id r -> is_unresolved r = false) (save_queue d).
Proof.
  intros H. apply Forall_forall. intros r Hr <- Hid. destruct (is_unresolved r) eqn:E; [|done]. exfalso.
  apply list_elem_of_In in Hr.
  assert (Hin : In r (List.filter (fun r' => bytes_eqb (qr_relative_path r') (qr_relative_path r) && (id <? qr_id r') && is_unresolved r')
    (save_queue d))).
  { apply List.filter_In. split; [done|]. rewrite E, (proj2 (Z.ltb_lt _ _) Hid), (proj2 (bytes_eqb_true _ _) eq_refl). done. }
  destruct (List.filter _ _); [done | discriminate H].
Qed.

Lemma accept_checks_Ok id m entry h lp content m' :
  accept_remote_checks hash_bytes root id m = (Ok (entry, h, lp, content), m') ->
  same_store m m' /\ exists row, qr_id row = id /\ entry = conflict_of_row row /\ acceptable m row h lp content.
Proof.
  unfold accept_remote_checks. intros (e & m1 & E1 & E)%Mir_bind_Ok.
  unfold conflict_queue_entry in E1. apply Mir_bind_Ok in E1 as (found & m0 & [-> S1]%query_Ok & E1).
  destruct (head _) as [row|] eqn:Eh; [|done]. injection E1 as <- <-.
  apply head_Some_elem_of, list_elem_of_In, List.filter_In in Eh as [Hin [Hid Hst]%andb_true_iff].
  apply Z.eqb_eq in Hid. apply bool_decide_eq_true in Hst.
  apply Mir_bind_Ok in E as ([] & m2 & E2 & E). unfold ensure_no_newer_unresolved_save in E2.
  apply Mir_bind_Ok in E2 as (n & m3 & [-> S2]%query_Ok & [Hn ->]%check_Ok).
  apply Mir_bind_Ok in E as (copy & m2 & E2 & E). destruct (ce_remote_conflict_path _) as [cp|] eqn:Ecp; [|done]. injection E2 as -> <-.
  apply Mir_bind_Ok in E as ([] & m2 & [Htr ->]%check_Ok & E). apply orb_false_iff in Htr as [Htr _].
  apply Mir_bind_Ok in E as (rh & m2 & E2 & E). destruct (ce_conflict_actual_hash _) as [ah|] eqn:Eah; [|done]. injection E2 as -> <-.
  apply Mir_bind_Ok in E as (p & m2 & E2 & E). injection E2 as Ep <-.
  apply Mir_bind_Ok in E as (ch & m4 & (old & Hold & -> & S3)%context_Ok%hash_file_Ok & E).
  apply Mir_bind_Ok in E as ([] & m5 & [Hlh ->]%check_Ok & E). apply negb_false_iff, bytes_eqb_true in Hlh.
  apply Mir_bind_Ok in E as (bs & m5 & [Hbs S4]%context_Ok%read_file_Ok & E). cbv zeta in E.
  apply Mir_bind_Ok in E as ([] & m6 & [Hrh ->]%check_Ok & [= <- <- <- <- <-]). apply negb_false_iff, bytes_eqb_true in Hrh.
  assert (S12 : same_store m m3) by (by etrans). assert (S123 : same_store m m4) by (by etrans).
  split; [by etrans|]. exists row. split; [done|]. split; [done|]. destruct S1 as (D1 & _ & K1), S12 as (_ & _ & K12), S123 as (_ & _ & K123).
  split; [by apply list_elem_of_In | done | done | | exact Ep | exists old; by rewrite <- K12 | exists copy; by rewrite <- K123 | by split].
  rewrite D1 in Hn. by apply newer_none in Hn.
Qed.

Lemma leaves_checks p id : leaves p (accept_remote_checks hash_bytes root id).
Proof.
  unfold accept_remote_checks, conflict_queue_entry, ensure_no_newer_unresolved_save, newer_unresolved_save_count, local_path.
  leaves_through ltac:(idtac).
Qed.

Lemma sorted_injective {A} (f : A -> Z) l x y : StronglySorted Z.lt (f <$> l) -> x ∈ l -> y ∈ l -> f x = f y -> x = y.
Proof.
  induction l as [|a l IH]; [by intros _ ?%elem_of_nil|]. cbn. rewrite StronglySorted_cons, Forall_forall. intros [Ha Hl].
  intros [->|Hx]%elem_of_cons [->|Hy]%elem_of_cons E; [done| | |by apply IH].
  - specialize (Ha (f y) (list_elem_of_fmap_2 f l y Hy)). lia.
  - specialize (Ha (f x) (list_elem_of_fmap_2 f l x Hx)). lia.
Qed.

(** Replacing the file and recording it. *)
Lemma accept_tail_target id m : 
  (forall row h lp content, qr_id row = id -> acceptable m row h lp content -> forall n, durable_tmp lp n <> lp) ->
  let m' := snd (accept_remote_conflict hash_bytes utf8_error_text root id m) in
  (forall p, mr_disk m' !! p = mr_disk m !! p) \/
  exists row h lp content, qr_id row = id /\ acceptable m row h lp content /\
    (mr_disk m' !! lp = mr_disk m !! lp \/ mr_disk m' !! lp = Some content).
Proof.
  intros Ht. unfold accept_remote_conflict. rewrite Mir_bind_run. pose proof (fun p => leaves_checks p id m) as Hl.
  destruct (accept_remote_checks hash_bytes root id m) as [[[[[e h] lp] content]|] m1] eqn:E; cbn in Hl; [right | by left].
  apply accept_checks_Ok in E as [(_ & _ & K1) (row & Hid & -> & Hacc)]. exists row, h, lp, content. split; [done|]. split; [done|].
  rewrite Mir_bind_run. destruct (write_durable_file lp content m1) as [r m2] eqn:E2.
  apply write_durable_target in E2 as [E2 _]; [|by eapply Ht]. rewrite K1 in E2. destruct r as [u|]; [|done].
  match goal with |- context[snd (?c m2)] => assert (Hc : leaves lp c) end; [|by rewrite Hc].
  leaves_through ltac:(apply leaves_index).
Qed.

Context (Hhash : forall c, length (hash_bytes c) = 64%nat).

(** C16 (safety) Accepting the remote version of a conflict, whichever of its calls fail,
    leaves the local file as it was, or replaces it by the saved copy whose hash is the recorded
    one, and then only if the conflict is the latest unresolved save of the file, its copy is
    whole, and the local bytes are still those of the save, so that the save's snapshot keeps them. *)
Theorem accept_remote_never_loses_local_bytes m row lp old : inv hash_bytes root m ->
  row ∈ save_queue (committed m) -> mr_txn m = None ->
  fst (local_path root (qr_relative_path row) m) = Ok lp -> (forall n, durable_tmp lp n <> lp) ->
  mr_disk m !! lp = Some old ->
  let m' := snd (accept_remote_conflict hash_bytes utf8_error_text root (qr_id row) m) in
  mr_disk m' !! lp = Some old \/
  exists content, mr_disk m' !! lp = Some content /\ acceptable m row (hash_bytes content) lp content /\
    forall q, qr_snapshot_path row = Some q -> exists s, mr_disk m' !! q = Some s /\ hash_bytes s = hash_bytes old.
Proof.
  intros Hi Hrow Htx Hlp Ht Hold m'. unfold committed in Hrow. rewrite Htx in Hrow. cbn in Hrow.
  assert (Hsame : forall row' h lp' c, qr_id row' = qr_id row -> acceptable m row' h lp' c -> row' = row /\ lp' = lp).
  { intros row' h lp' c Hid Hacc. assert (row' = row) as ->; [|split; [done|]; destruct Hacc; congruence].
    destruct Hi as [[_ Hs _ _] _]. unfold identities in Hs. rewrite <- list_fmap_compose in Hs.
    apply (sorted_injective (i_id ∘ identity_of) (save_queue (mr_db m))); [done|apply Hacc|done|done]. }
  destruct (accept_tail_target (qr_id row) m) as [H|(row' & h & lp' & content & Hid & Hacc & H)].
  { intros row' h lp' c Hid Hacc. by destruct (Hsame _ _ _ _ Hid Hacc) as [_ ->]. }
  - left. by rewrite <- Hold, <- H.
  - destruct (Hsame _ _ _ _ Hid Hacc) as [-> ->]. destruct H as [H|H]; [left; by rewrite <- Hold, <- H|]. right.
    exists content. split; [done|]. destruct (acc_hash _ _ _ _ _ Hacc) as [_ <-]. split; [done|]. intros q Hq.
    destruct (runs_accept_remote hash_bytes utf8_error_text root Hhash (qr_id row) m Hi I) as (Hi' & Hpre & _).
    destruct (inv_saved _ _ _ (identity_of row) Hi') with (q := q) as (now & s & _ & Hs & Hh); [|done|].
    + eapply elem_of_prefix; [|exact Hpre]. unfold identities, committed. rewrite Htx. by apply list_elem_of_fmap_2.
    + exists s. split; [done|]. destruct (acc_local _ _ _ _ _ Hacc) as (old2 & Hold2 & Hh2). cbn in Hh. congruence.
Qed.
End Accept.

(** A conflict of ["a"], whose local bytes are still the saved ones. *)
Module Conflict.
Definition pad64 (c : bytes) : bytes := take 64 (c ++ repeat "0"%byte 64).
Definition snapshot : bytes := snapshot_name (B"/m") (B"a") 7 (pad64 (B"mine")).
Definition row : queue_row := {|
  qr_id := 1; qr_relative_path := B"a"; qr_expected_hash := None; qr_local_hash := pad64 (B"mine");
  qr_snapshot_path := Some snapshot; qr_state := Conflicted; qr_attempts := 1; qr_last_error := None;
  qr_remote_conflict_path := Some (B"/m/conflicts/a.remote.full.8"); qr_conflict_actual_hash := Some (pad64 (B"theirs"));
  qr_remote_conflict_truncated := false; qr_created_at_ms := 7; qr_updated_at_ms := 8 |}.
Definition state : mirror := {|
  mr_db := with_queue 1 [row] empty_database; mr_txn := None;
  mr_disk := <[snapshot := B"mine"]> (<[B"/m/conflicts/a.remote.full.8" := B"theirs"]> {[B"/m/files/a" := B"mine"]});
  mr_clock := 9000000; mr_ticks := []; mr_faults := [] |}.
Definition accepted : mirror := snd (accept_remote_conflict pad64 (fun _ => []) (B"/m") 1 state).

Lemma pad64_length c : length (pad64 c) = 64%nat.
Proof. unfold pad64. rewrite length_take, length_app, repeat_length. lia. Qed.
Lemma state_inv : inv pad64 (B"/m") state.
Proof.
  split; [|done]. split.
  - constructor; [|done]. intros q [= <-]. exists 7, (B"mine"). split; [done|]. split; [|done]. apply lookup_insert_eq.
  - constructor; constructor.
  - constructor; [cbn; lia | constructor].
  - intros p r Hr. change (None = Some r) in Hr. done.
Qed.
Lemma tmp_fresh n : durable_tmp (B"/m/files/a") n <> B"/m/files/a".
Proof.
  intros E. apply (f_equal length) in E. change (durable_tmp _ n) with (B"/m/files/a.tmp-" ++ to_decimal n) in E.
  rewrite length_app in E. change (length (B"/m/files/a.tmp-")) with 15%nat in E. change (length (B"/m/files/a")) with 10%nat in E. lia.
Qed.
End Conflict.

Lemma accept_remote_never_loses_local_bytes_witness :
  mr_disk Conflict.accepted !! B"/m/files/a" = Some (B"theirs") /\
  (mr_disk Conflict.accepted !! B"/m/files/a" = Some (B"mine") \/
   exists content, mr_disk Conflict.accepted !! B"/m/files/a" = Some content /\
     acceptable Conflict.pad64 (B"/m") Conflict.state Conflict.row (Conflict.pad64 content) (B"/m/files/a") content /\
     forall q, qr_snapshot_path Conflict.row = Some q ->
       exists s, mr_disk Conflict.accepted !! q = Some s /\ Conflict.pad64 s = Conflict.pad64 (B"mine")).
Proof.
  split; [reflexivity|].
  exact (accept_remote_never_loses_local_bytes Conflict.pad64 (fun _ => []) (B"/m") Conflict.pad64_length Conflict.state Conflict.row
    (B"/m/files/a") (B"mine") Conflict.state_inv (list_elem_of_here _ _) eq_refl eq_refl Conflict.tmp_fresh eq_refl).
Defined.
