(* ===== verification/SaveReplay.v ===== *)
(** * Replaying saves to the remote (nrm-sidecar/src/main.rs, [Sidecar])

    The handlers that enqueue a save, send it to the agent in one request or as
    an upload in chunks, and record what became of it.  The agent is reached
    through an interface: any remote that answers requests. *)
From S2P Require Import Prelude Paths Protocol MirrorDb SearchIndex Mirror.

Definition SAVE_INLINE_MAX_BYTES : Z := 4 * 1024 * 1024.
Definition MAX_SAVE_PAYLOAD_BYTES : Z := MAX_FRAME_LEN - 1024 * 1024.
Definition SAVE_UPLOAD_CHUNK_BYTES : nat := 1024 * 1024.
Definition FAST_FLUSH_SNAPSHOT_MAX_BYTES : Z := 1024 * 1024.

Definition save_should_use_chunked_upload (snapshot_size : Z) : bool :=
  (snapshot_size >? SAVE_INLINE_MAX_BYTES) || (snapshot_size >? MAX_SAVE_PAYLOAD_BYTES).

(** ** The sidecar: its mirror and a remote *)

(** [AgentClient::request]: the response, or the error the handlers see. *)
Class Remote (W : Type) := request : Request -> W -> result bytes Response * W.

Definition Side (W A : Type) : Type := mirror * W -> result bytes A * (mirror * W).
#[export] Instance Side_ret W : MRet (Side W) := fun A a s => (Ok a, s).
#[export] Instance Side_bind W : MBind (Side W) := fun A B k c s =>
  match c s with
  | (Ok a, s) => k a s
  | (Err e, s) => (Err e, s)
  end.
(** [self.mirror.op(..)], [self.agent.request(..)] and a result as a value. *)
Definition on_mirror {W A} (c : Mir A) : Side W A := fun '(m, w) => let '(r, m) := c m in (r, (m, w)).
Definition on_agent {W} `{Remote W} (q : Request) : Side W Response := fun '(m, w) => let '(r, w) := request q w in (r, (m, w)).
Definition side_bail {W A} (message : bytes) : Side W A := fun s => (Err message, s).
Definition side_catch {W A} (c : Side W A) : Side W (result bytes A) := fun s => let '(r, s) := c s in (Ok r, s).

Inductive SaveAttempt :=
| AttemptApplied (path hash : bytes) (size : Z)
| AttemptConflict (path : bytes) (expected_hash actual_hash : option bytes) (remote_path : bytes)
    (remote_content_truncated : bool) (remote_size : option Z) (remote_content_bytes : Z)
| AttemptQueued (path reason : bytes) (remote_failure : bool).
Definition should_stop_queue_replay (a : SaveAttempt) : bool :=
  match a with AttemptQueued _ _ remote_failure => remote_failure | _ => false end.

Section Handlers.
Context {W : Type} `{Remote W}.
Context (hash_bytes : bytes -> bytes) (utf8_error_text : bytes -> bytes) (root : bytes).

(** [self.mirror.mark_save_failed(..)?; return Ok(SaveAttempt::Queued { .. })] *)
Definition queued_again (entry : SaveQueueEntry) (reason : bytes) (remote_failure : bool) : Side W SaveAttempt :=
  on_mirror (mark_save_failed (se_id entry) (se_relative_path entry) reason);;
  mret (AttemptQueued (se_relative_path entry) reason remote_failure).

Definition conflict_message (c : SaveConflict) : bytes :=
  if sc_remote_content_truncated c then
    B"remote content changed before queued save was applied; saved first " ++ to_decimal (zlen (sc_remote_content c)) ++
    B" of " ++ (match sc_remote_size c with Some size => to_decimal size | None => B"unknown" end) ++ B" remote bytes"
  else B"remote content changed before queued save was applied".

Definition record_save_outcome (entry : SaveQueueEntry) (outcome : SaveOutcome) : Side W SaveAttempt :=
  match outcome with
  | SaveOutcome_Applied a =>
      on_mirror (mark_save_applied utf8_error_text (se_id entry) (sa_path a) (sa_new_hash a) (sa_size a) (sa_mtime_ms a));;
      mret (AttemptApplied (sa_path a) (sa_new_hash a) (sa_size a))
  | SaveOutcome_Conflict c =>
      if bool_decide (sc_actual_hash c = Some (se_local_hash entry)) then
        size ← (match sc_remote_size c with
                | Some size => mret size
                | None => r ← on_mirror (catch (metadata_len (se_snapshot_path entry)));
                          mret (match r with Ok n => n | Err _ => 0 end)
                end);
        now ← on_mirror now_ms;
        on_mirror (mark_save_applied utf8_error_text (se_id entry) (sc_path c) (se_local_hash entry) size now);;
        mret (AttemptApplied (sc_path c) (se_local_hash entry) size)
      else
        conflict_path ← on_mirror (record_save_conflict root (se_id entry) (sc_path c) (sc_actual_hash c)
                                     (sc_remote_content c) (sc_remote_content_truncated c) (conflict_message c));
        mret (AttemptConflict (sc_path c) (sc_expected_hash c) (sc_actual_hash c) conflict_path
                (sc_remote_content_truncated c) (sc_remote_size c) (zlen (sc_remote_content c)))
  end.

Definition apply_small_save_entry (entry : SaveQueueEntry) (content : bytes) : Side W SaveAttempt :=
  response ← side_catch (on_agent (Request_WriteFileCas (se_relative_path entry) (se_expected_hash entry) content));
  match response with
  | Err error => queued_again entry (B"remote save attempt failed: " ++ error) true
  | Ok (Response_WriteFileCas outcome) => record_save_outcome entry outcome
  | Ok _ => side_bail (B"unexpected flush response")
  end.

(** The reads of the snapshot file give at most a chunk each; the fuel is one more than the
    bytes left, and every chunk takes one at least. *)
Fixpoint upload_loop (fuel : nat) (entry : SaveQueueEntry) (upload_id : bytes) (offset : Z) (rest : bytes) : Side W unit :=
  match fuel with
  | O => mret ()
  | S fuel =>
      chunk ← on_mirror (io (mret (take SAVE_UPLOAD_CHUNK_BYTES rest)));
      match chunk with
      | [] => mret ()
      | _ =>
          response ← on_agent (Request_WriteFileChunk upload_id offset chunk);
          match response with
          | Response_WriteFileChunk _ accepted =>
              if accepted =? offset + zlen chunk
              then upload_loop fuel entry upload_id accepted (drop SAVE_UPLOAD_CHUNK_BYTES rest)
              else side_bail (B"agent accepted unexpected byte count for " ++ se_relative_path entry ++ B": expected=" ++
                              to_decimal (offset + zlen chunk) ++ B" accepted=" ++ to_decimal accepted)
          | _ => side_bail (B"unexpected chunk write response")
          end
      end
  end.
Definition upload_snapshot_chunks (entry : SaveQueueEntry) (upload_id : bytes) : Side W unit :=
  content ← on_mirror (read_file (se_snapshot_path entry));
  upload_loop (S (length content)) entry upload_id 0 content.

Definition apply_chunked_save_entry (entry : SaveQueueEntry) (snapshot_size : Z) : Side W SaveAttempt :=
  begin_ ← side_catch (on_agent (Request_BeginWriteFileCas (se_relative_path entry) (se_expected_hash entry)
                                   (se_local_hash entry) snapshot_size));
  match begin_ with
  | Err error => queued_again entry (B"remote chunked save start failed: " ++ error) true
  | Ok (Response_BeginWriteFileCas (WriteStart_Conflict c)) => record_save_outcome entry (SaveOutcome_Conflict c)
  | Ok (Response_BeginWriteFileCas (WriteStart_Started started)) =>
      let upload_id := ws_upload_id started in
      uploaded ← side_catch (upload_snapshot_chunks entry upload_id);
      match uploaded with
      | Err error =>
          side_catch (on_agent (Request_AbortWriteFileCas upload_id));;
          queued_again entry (B"remote chunked save upload failed: " ++ error) true
      | Ok _ =>
          finish ← side_catch (on_agent (Request_FinishWriteFileCas upload_id));
          match finish with
          | Err error => queued_again entry (B"remote chunked save finish failed: " ++ error) true
          | Ok (Response_FinishWriteFileCas outcome) => record_save_outcome entry outcome
          | Ok _ => side_bail (B"unexpected chunked save finish response")
          end
      end
  | Ok _ => side_bail (B"unexpected chunked save begin response")
  end.

Definition apply_save_entry (entry : SaveQueueEntry) : Side W SaveAttempt :=
  let snapshot := se_snapshot_path entry in
  snapshot_size ← on_mirror (catch (metadata_len snapshot));
  match snapshot_size with
  | Err error => queued_again entry (B"failed to stat queued save snapshot " ++ snapshot ++ B": " ++ error) false
  | Ok snapshot_size =>
      actual_local_hash ← on_mirror (catch (hash_file hash_bytes snapshot));
      match actual_local_hash with
      | Err error => queued_again entry (B"failed to hash queued save snapshot " ++ snapshot ++ B": " ++ error) false
      | Ok actual_local_hash =>
          if negb (bytes_eqb actual_local_hash (se_local_hash entry)) then
            queued_again entry (B"queued save snapshot hash mismatch: expected=" ++ se_local_hash entry ++ B" actual=" ++
                                actual_local_hash) false
          else if save_should_use_chunked_upload snapshot_size then apply_chunked_save_entry entry snapshot_size
          else
            content ← on_mirror (catch (read_file snapshot));
            match content with
            | Err error => queued_again entry (B"failed to read queued save snapshot " ++ snapshot ++ B": " ++ error) false
            | Ok content => apply_small_save_entry entry content
            end
      end
  end.

(** ** Handlers *)

Definition adopt (path : bytes) : Side W SaveAttempt :=
  queued ← on_mirror (enqueue_adopted_local_save hash_bytes utf8_error_text root path); apply_save_entry queued.
Definition flush (path : bytes) : Side W SaveAttempt :=
  queued ← on_mirror (enqueue_local_save hash_bytes utf8_error_text root path); apply_save_entry queued.
Definition flush_queued (queue_id : Z) : Side W SaveAttempt :=
  queued ← on_mirror (save_queue_entry queue_id); apply_save_entry queued.
Definition accept_local_conflict (queue_id : Z) : Side W SaveAttempt :=
  queued ← on_mirror (prepare_accept_local_conflict hash_bytes queue_id); apply_save_entry queued.

Fixpoint replay_loop (attempts : list SaveAttempt) (entries : list SaveQueueEntry) : Side W (list SaveAttempt) :=
  match entries with
  | [] => mret attempts
  | entry :: entries =>
      attempt ← apply_save_entry entry;
      let attempts := attempts ++ [attempt] in
      if should_stop_queue_replay attempt then mret attempts else replay_loop attempts entries
  end.
Definition replay_queued_saves (limit : option nat) : Side W (list SaveAttempt) :=
  entries ← on_mirror (pending_save_entries limit); replay_loop [] entries.
Definition flush_queue (limit : option nat) : Side W (list SaveAttempt * Z) :=
  attempts ← replay_queued_saves limit;
  remaining ← on_mirror pending_save_count;
  mret (attempts, remaining).

(** [FastState::prepare_flush]: small files are queued at once and flushed by id later; the
    request of a large one is left as it is. *)
Inductive PreparedFlush := FlushUnchanged | FlushQueued (queue_id : Z) (path : bytes).
Definition prepare_flush (path : bytes) (adopt : bool) : Mir PreparedFlush :=
  local_path ← local_path root path;
  len ← catch (metadata_len local_path);
  if match len with Ok n => n >? FAST_FLUSH_SNAPSHOT_MAX_BYTES | Err _ => false end then mret FlushUnchanged
  else
    queued ← (if adopt then enqueue_adopted_local_save hash_bytes utf8_error_text root path
              else enqueue_local_save hash_bytes utf8_error_text root path);
    mret (FlushQueued (se_id queued) (se_relative_path queued)).
End Handlers.
