(* ===== verification/Hydrate.v ===== *)
(** * Filling and checking the mirror (nrm-sidecar/src/main.rs, [Sidecar])

    Reading files from the agent into the mirror, one in chunks or many in one
    request, opening a mirrored file, and checking cached files against the
    remote. *)
From S2P Require Import Prelude Paths Protocol MirrorDb SearchIndex Mirror SaveReplay.

Inductive HydrationInstall := ReplaceWithPart | AdoptExisting (local_hash : bytes).

Section Targets.
Context (hash_bytes : bytes -> bytes) (utf8_error_text : bytes -> bytes) (root : bytes).

Definition skipped_dirty : bytes := B"skipped dirty local mirror file".
Definition prepare_hydration_target (path local_path remote_hash : bytes) : Mir HydrationInstall :=
  entry ← get path;
  match entry with
  | Some entry =>
      unmanaged ← (present ← file_exists (me_local_path entry); mret (present && negb (is_hydrated (me_state entry))));
      if unmanaged : bool then
        (if me_dirty entry then bail skipped_dirty else mret ());;
        existing_hash ← context (B"failed to hash existing local mirror file " ++ me_local_path entry)
                                (hash_file hash_bytes (me_local_path entry));
        if bytes_eqb existing_hash remote_hash then mret (AdoptExisting existing_hash)
        else bail (B"skipped existing local mirror file without hydrated metadata")
      else
        '(entry, _) ← sync_cached_file_integrity hash_bytes utf8_error_text root entry;
        if me_dirty entry then bail skipped_dirty else mret ReplaceWithPart
  | None =>
      present ← file_exists local_path;
      if present : bool then
        existing_hash ← context (B"failed to hash existing unmanaged local mirror file " ++ local_path)
                                (hash_file hash_bytes local_path);
        if bytes_eqb existing_hash remote_hash then mret (AdoptExisting existing_hash)
        else bail (B"skipped existing unmanaged local mirror file")
      else mret ReplaceWithPart
  end.

(** [match install { ReplaceWithPart => rename_durable(..)?, AdoptExisting => let _ = remove_file(..) }] *)
Definition install_part (install : HydrationInstall) (part_path local_path local_hash : bytes) : Mir bytes :=
  match install with
  | ReplaceWithPart => rename_durable part_path local_path;; mret local_hash
  | AdoptExisting local_hash => ignore (remove_file part_path);; mret local_hash
  end.

Definition batch_part (local_path : bytes) : bytes := with_extension local_path (B"nrm-batch-part").
Definition record_batch_file (file : BatchReadFile) : Mir unit :=
  local_path ← local_path root (brf_path file);
  create_dir_all;;
  let part_path := batch_part local_path in
  or_remove part_path (
    create part_path;;
    write_all part_path (brf_content file);;
    sync_all;;
    local_hash ← hash_file hash_bytes part_path;
    (if negb (bytes_eqb local_hash (brf_hash file))
     then bail (B"batch hydration hash mismatch for " ++ brf_path file ++ B": local=" ++ local_hash ++ B" remote=" ++ brf_hash file)
     else mret ());;
    install ← prepare_hydration_target (brf_path file) local_path (brf_hash file);
    local_hash ← install_part install part_path local_path local_hash;
    record_hydrated root (brf_meta file) (brf_hash file) local_hash;;
    replace_search_index_from_bytes utf8_error_text (brf_path file) local_hash (brf_content file);;
    mret ()).

(** ** Validation *)

Definition record_validation_file (file : BatchValidateFile) : Mir bytes :=
  entry ← get_or (bvf_path file) (bvf_path file ++ B" is not known in the mirror");
  entry ← (present ← (if is_hydrated (me_state entry) then is_file (me_local_path entry) else mret false);
           if present : bool then fst <$> sync_cached_file_integrity hash_bytes utf8_error_text root entry else mret entry);
  if me_dirty entry then record_validation (me_relative_path entry) (B"dirty") None None;; mret (B"dirty")
  else
    match bvf_meta file with
    | None =>
        record_validation (me_relative_path entry) (B"deleted") None (Some (B"remote file no longer exists"));; mret (B"deleted")
    | Some meta =>
        let valid := bool_decide (fm_hash meta = me_remote_hash entry) in
        let state := if valid then B"valid" else B"stale" in
        record_validation (me_relative_path entry) state (if valid then fm_hash meta else None)
          (if valid then None else Some (B"remote hash differs from local mirror metadata"));;
        mret state
    end.

(** [for file in files { match self.record_validation_file(file) { .. } }]: the states, an error as [None]. *)
Fixpoint record_validation_files (files : list BatchValidateFile) : Mir (list (option bytes)) :=
  match files with
  | [] => mret []
  | file :: files =>
      r ← catch (record_validation_file file);
      rest ← record_validation_files files;
      mret ((match r with Ok state => Some state | Err _ => None end) :: rest)
  end.
Fixpoint mark_validation_errors (errors : list BatchReadError) : Mir unit :=
  match errors with
  | [] => mret ()
  | error :: errors => ignore (mark_validation_error (bre_path error) (bre_message error));; mark_validation_errors errors
  end.
Fixpoint record_batch_files (files : list BatchReadFile) : Mir (nat * list bytes) :=
  match files with
  | [] => mret (0%nat, [])
  | file :: files =>
      r ← catch (record_batch_file file);
      '(hydrated, failed) ← record_batch_files files;
      mret (match r with Ok _ => (S hydrated, failed) | Err _ => (hydrated, brf_path file :: failed) end)
  end.
End Targets.

Definition DEFAULT_CHUNK_SIZE : Z := 1024 * 1024.

Section Sidecar.
Context {W : Type} `{Remote W}.
Context (hash_bytes : bytes -> bytes) (utf8_error_text : bytes -> bytes) (root : bytes).

(** [request_maybe_preemptible_since]: another request preempts this one once [budget] more
    requests were sent. *)
Definition preemptible (budget : nat) (q : Request) : Side W (option Response) :=
  match budget with
  | O => mret None
  | S _ => response ← on_agent q; mret (Some response)
  end.

Definition batch_hydrate (budget : nat) (paths : list bytes) (max_file_bytes max_total_bytes : Z) :
    Side W (nat * list bytes * bool * bool) :=
  match paths with
  | [] => mret (0%nat, [], false, false)
  | _ =>
      response ← preemptible budget (Request_ReadFiles paths max_file_bytes max_total_bytes);
      match response with
      | None => mret (0%nat, [], true, true)
      | Some (Response_ReadFiles files errors truncated) =>
          '(hydrated, failed) ← on_mirror (record_batch_files hash_bytes utf8_error_text root files);
          mret (hydrated, failed ++ (bre_path <$> errors), truncated, false)
      | Some _ => side_bail (B"unexpected batch read response")
      end
  end.

(** [None] if the request was preempted. *)
Definition refresh_paths (budget : nat) (paths : list bytes) : Side W (option (list (option bytes))) :=
  match paths with
  | [] => mret (Some [])
  | _ =>
      response ← preemptible budget (Request_ValidateFiles paths true);
      match response with
      | None => mret None
      | Some (Response_ValidateFiles files errors) =>
          states ← on_mirror (record_validation_files hash_bytes utf8_error_text root files);
          on_mirror (mark_validation_errors errors);;
          mret (Some states)
      | Some _ => side_bail (B"unexpected refresh response")
      end
  end.

(** [validate], which answers the state of one path; [None] if it was preempted. *)
Definition validate (budget : nat) (path : bytes) : Side W (option bytes) :=
  entry ← on_mirror (get_or path (path ++ B" is not known in the mirror"));
  entry ← on_mirror (present ← (if is_hydrated (me_state entry) then is_file (me_local_path entry) else mret false);
                     if present : bool then fst <$> sync_cached_file_integrity hash_bytes utf8_error_text root entry
                     else mret entry);
  if me_dirty entry then on_mirror (record_validation (me_relative_path entry) (B"dirty") None None);; mret (Some (B"dirty"))
  else
    response ← preemptible budget (Request_ValidateFiles [me_relative_path entry] true);
    match response with
    | None => mret None
    | Some (Response_ValidateFiles files errors) =>
        match errors with
        | error :: _ => on_mirror (mark_validation_error (bre_path error) (bre_message error));; mret (Some (B"error"))
        | [] =>
            match files with
            | [] => side_bail (B"validate returned no result for " ++ me_relative_path entry)
            | file :: _ =>
                status ← on_mirror (record_validation_file hash_bytes utf8_error_text root file);
                on_mirror (get_or (bvf_path file) (bvf_path file ++ B" is not known in the mirror"));;
                mret (Some status)
            end
        end
    | Some _ => side_bail (B"unexpected validate response")
    end.

Inductive HydrationMode := Batch | Chunked.
Inductive HydrateOutcome := Hydrated (entry : MirrorEntry) (mode : HydrationMode) | Preempted.

(** The reads of [hydrate], until the last one or until the request is preempted. *)
Fixpoint read_loop (budget : nat) (path part_path : bytes) (offset : Z) : Side W (option (FileMeta * bytes)) :=
  match budget with
  | O => mret None
  | S budget =>
      response ← on_agent (Request_ReadFile path offset (Some DEFAULT_CHUNK_SIZE));
      match response with
      | Response_ReadFile _ _ eof content hash meta =>
          on_mirror (write_all part_path content);;
          if eof : bool then
            if bytes_eqb hash [] then side_bail (B"remote read for " ++ path ++ B" completed without a content hash")
            else mret (Some (meta, hash))
          else read_loop budget path part_path (offset + zlen content)
      | _ => side_bail (B"unexpected read response")
      end
  end.

Definition hydrate_part (local_path : bytes) : bytes := with_extension local_path (B"nrm-part").
Definition fetch (budget : nat) (path local_path part_path : bytes) : Side W (option (FileMeta * bytes * bytes)) :=
  on_mirror (create part_path);;
  read ← read_loop budget path part_path 0;
  match read with
  | None => mret None
  | Some (meta, remote_hash) =>
      on_mirror sync_all;;
      local_hash ← on_mirror (hash_file hash_bytes part_path);
      (if negb (bytes_eqb local_hash remote_hash)
       then side_bail (B"local hydration hash mismatch for " ++ path ++ B": local=" ++ local_hash ++ B" remote=" ++ remote_hash)
       else mret ());;
      install ← on_mirror (prepare_hydration_target hash_bytes utf8_error_text root path local_path remote_hash);
      local_hash ← on_mirror (install_part install part_path local_path local_hash);
      mret (Some (meta, remote_hash, local_hash))
  end.
Definition hydrate (budget : nat) (path : bytes) : Side W HydrateOutcome :=
  local_path ← on_mirror (local_path root path);
  on_mirror create_dir_all;;
  let part_path := hydrate_part local_path in
  hydrated ← side_catch (fetch budget path local_path part_path);
  match hydrated with
  | Err error => on_mirror (ignore (remove_file part_path));; side_bail error
  | Ok None => on_mirror (ignore (remove_file part_path));; mret Preempted
  | Ok (Some (meta, remote_hash, local_hash)) =>
      on_mirror (record_hydrated root meta remote_hash local_hash);;
      hydrated ← on_mirror (get_or path (B"hydrated file was not recorded in mirror metadata"));
      len ← on_mirror (catch (metadata_len (me_local_path hydrated)));
      on_mirror (rebuild_search_index_from_local_file utf8_error_text hydrated local_hash
                   (match len with Ok n => n | Err _ => fm_size meta end));;
      mret (Hydrated hydrated Chunked)
  end.

Definition hydrate_open_batch (budget : nat) (path : bytes) (max_file_bytes : Z) : Side W (option HydrateOutcome) :=
  response ← preemptible budget (Request_ReadFiles [path] max_file_bytes max_file_bytes);
  match response with
  | None => mret (Some Preempted)
  | Some (Response_ReadFiles files _ _) =>
      match last files with
      | None => mret None
      | Some file =>
          on_mirror (record_batch_file hash_bytes utf8_error_text root file);;
          entry ← on_mirror (get_or (brf_path file) (B"batch-open file was not recorded in mirror metadata"));
          mret (Some (Hydrated entry Batch))
      end
  | Some _ => side_bail (B"unexpected batch open response")
  end.
Definition open_hydrate (budget : nat) (path : bytes) (batch_max_file_bytes : Z) : Side W HydrateOutcome :=
  batch ← (if 0 <? batch_max_file_bytes then hydrate_open_batch budget path batch_max_file_bytes else mret None);
  match batch with
  | Some outcome => mret outcome
  | None => hydrate (if 0 <? batch_max_file_bytes then pred budget else budget) path
  end.

(** [open], up to the choice to hydrate: the cached entry and why it is served. *)
Inductive OpenOutcome :=
| OpenCached (entry : MirrorEntry) (cache_reason : bytes) (force_skipped restored_from_snapshot : bool)
| OpenHydrated (entry : MirrorEntry) (mode : HydrationMode) | OpenPreempted.
Definition cache_reason (entry : MirrorEntry) : bytes :=
  let s := me_validation_state entry in
  if bytes_eqb s (B"stale") || bytes_eqb s (B"deleted") || bytes_eqb s (B"conflict") then s else B"cached".
Definition open_cached (path : bytes) (force : bool) : Mir (option OpenOutcome) :=
  entry ← get path;
  match entry with
  | None => mret None
  | Some entry =>
      if negb (is_hydrated (me_state entry)) then mret None
      else
        lost ← (if me_dirty entry then negb <$> file_exists (me_local_path entry) else mret false);
        entry ← (if lost : bool then
                   restore_latest_dirty_snapshot hash_bytes entry;;
                   get_or (me_relative_path entry) (B"restored file lost mirror metadata")
                 else mret entry);
        present ← file_exists (me_local_path entry);
        if present : bool then
          '(entry, _) ← sync_cached_file_integrity hash_bytes utf8_error_text root entry;
          if me_dirty entry then mret (Some (OpenCached entry (B"dirty") force lost))
          else if negb force then mret (Some (OpenCached entry (cache_reason entry) false lost))
          else mret None
        else mret None
  end.
Definition open (budget : nat) (path : bytes) (force : bool) (batch_max_file_bytes : Z) : Side W OpenOutcome :=
  cached ← on_mirror (open_cached path force);
  match cached with
  | Some outcome => mret outcome
  | None =>
      hydrated ← open_hydrate budget path batch_max_file_bytes;
      mret (match hydrated with Hydrated entry mode => OpenHydrated entry mode | Preempted => OpenPreempted end)
  end.
End Sidecar.
