(* ===== verification/HydrateProps.v ===== *)
(** * Hydration never overwrites local edits *)
From S2P Require Import Prelude Paths Protocol MirrorDb MirrorLogic SearchIndex SearchIndexProps Mirror MirrorProps MirrorTotal MirrorAtomic SaveReplay Hydrate.

Section Clean.
Context (hash_bytes : bytes -> bytes) (utf8_error_text : bytes -> bytes) (root : bytes).

(** The row of [p] says that the local bytes [c] are what was last synchronised. *)
Definition clean_row (d : database) (p c : bytes) : Prop :=
  exists row, files d !! p = Some row /\ fr_dirty row = false /\ is_hydrated (fr_state row) = true /\
    recorded_hash (mirror_entry_from_row p row) = Some (hash_bytes c).

Lemma get_run d k m path p : calm m -> settled d k m -> normalized_path_string path = Some p ->
  get path m = (Ok (mirror_entry_from_row p <$> files d !! p), m).
Proof.
  intros Hm (_ & (Hf & _) & _) Hp. unfold get, normalize. unfold normalized_path_string in Hp.
  destruct (normalize_relative_path path) as [clean|] eqn:E; [|done]. injection Hp as <-.
  rewrite Mir_bind_run. unfold lift. cbn. rewrite query_calm by done. by rewrite Hf.
Qed.

Lemma is_file_run k m p : calm m -> mr_disk m = k -> is_file p m = (Ok (bool_decide (is_Some (k !! p))), m).
Proof.
  intros Hm <-. unfold is_file, fmap, Mir_fmap. rewrite Mir_bind_run. unfold catch. rewrite read_file_calm by done.
  by destruct (mr_disk m !! p).
Qed.

Lemma verified_run d k m p row h c : calm m -> settled d k m -> normalized_path_string p = Some p ->
  files d !! p = Some row -> k !! fr_local_path row = Some c ->
  exists e m', verified utf8_error_text (mirror_entry_from_row p row) h m = (Ok (e, false), m') /\
    me_dirty e = fr_dirty row /\ calm m' /\ mr_txn m' = None /\ mr_disk m' = k.
Proof.
  intros Hm Hs Hp Hrow Hc. unfold verified, record_clean_local_hash.
  assert (Hok : is_ok (normalize_relative_path p) = true)
    by (unfold normalized_path_string in Hp; by destruct (normalize_relative_path p)).
  set (entry := mirror_entry_from_row p row).
  set (u := fun size now d => match files d !! p with
     | Some r => if fr_dirty r then d else update_file p (set_clean_hash size h now) d | None => d end).
  assert (Hrun : succeeds (settled d k) (record_clean_local_hash utf8_error_text entry h)
    (fun _ m => exists size now, settled (u size now d) k m)).
  { eapply succeeds_bind; [by eapply succeeds_catch, settled_len|]. intros len. apply succeeds_exists. intros n.
    apply succeeds_pure. intros ->. apply succeeds_pure. intros ->. cbv zeta.
    eapply succeeds_bind; [apply settled_now|]. intros now.
    eapply (succeeds_bind _ _ _ (fun _ => settled (u (as_i64 (zlen c)) now d) k)).
    { apply succeeds_execute. intros m1 (H1 & H2 & H3). split; [done|]. split; [|done]. cbn.
      assert (Hfd : files (mr_db m1) = files d) by apply H2. unfold u. rewrite Hfd, Hrow.
      destruct (fr_dirty row); [done|]. by apply off_index_file. }
    intros []. eapply succeeds_bind; [eapply (settled_rebuild _ _ _ entry _ _ c); [done|]; exact Hc|]. intros r.
    apply succeeds_ret. eauto. }
  destruct (Hrun m Hm Hs) as ([] & m1 & E & Hm1 & size & now & Hs1). unfold record_clean_local_hash in E.
  rewrite Mir_bind_run, E. unfold get_or. rewrite Mir_bind_run, Mir_bind_run.
  change (me_relative_path entry) with p. rewrite (get_run (u size now d) k m1 p p) by done. unfold u. rewrite Hrow.
  destruct (fr_dirty row) eqn:Ed.
  - rewrite Hrow. eexists _, m1. destruct Hs1 as (? & _ & ?). by split_and!.
  - cbn [files update_file with_files]. rewrite lookup_alter_eq, Hrow. eexists _, m1. destruct Hs1 as (? & _ & ?). by split_and!.
Qed.

Lemma hash_file_run k m p c : calm m -> mr_disk m = k -> k !! p = Some c -> hash_file hash_bytes p m = (Ok (hash_bytes c), m).
Proof. intros Hm <- Hc. unfold hash_file, fmap, Mir_fmap. by rewrite Mir_bind_run, read_file_calm, Hc. Qed.

Lemma snapshot_calm path h content m p m' : calm m -> mr_txn m = None ->
  write_save_snapshot root path h content m = (Ok p, m') -> calm m' /\ mr_txn m' = None.
Proof.
  intros Hm Ht. unfold write_save_snapshot. rewrite Mir_bind_run. destruct (now_ms_run m) as (now & m1 & -> & (_ & Ht1 & _) & Hf).
  cbv zeta. rewrite Mir_bind_run. set (q := snapshot_name _ _ _ _).
  destruct (only_write_durable q content m1) as (n & _ & Ht2 & _). pose proof (quiet_durable q content m1) as Hq.
  destruct (write_durable_file q content m1) as [[u|] m2]; [|done]. intros [= _ <-]. cbn in *. unfold calm in *.
  split; [apply Hq|]; congruence.
Qed.

(** ** A modified file becomes a queued save *)

Lemma enqueue_save_dirty m path p h expected content e m' : calm m -> mr_txn m = None ->
  normalized_path_string path = Some p -> normalized_path_string p = Some p ->
  enqueue_save utf8_error_text root path h expected content m = (Ok e, m') ->
  se_relative_path e = p /\ calm m' /\ mr_txn m' = None /\ exists row, files (mr_db m') !! p = Some row /\ fr_dirty row = true.
Proof.
  intros Hm Ht Hp Hpp. unfold enqueue_save, enqueue_rows. intros (p' & m1 & E1 & E)%Mir_bind_Ok.
  assert (p' = p /\ m1 = m) as [-> ->].
  { unfold normalize, normalized_path_string in *. destruct (normalize_relative_path path); [|done]. injection Hp as <-. by injection E1 as <- <-. }
  apply Mir_bind_Ok in E as (lp & m1 & E1' & E). injection E1' as Elp <-.
  apply Mir_bind_Ok in E as (latest & m1 & E1' & E). unfold latest_unresolved_save_hash in E1'.
  rewrite query_calm in E1' by done. injection E1' as Hlatest <-.
  apply Mir_bind_Ok in E as (snap & m1 & E1' & E). cbv beta zeta in E.
  assert (Hm1 : calm m1 /\ mr_txn m1 = None) by (by apply (snapshot_calm p h content m snap m1)).
  match type of E with (?c m1 = _) => assert (Hc : succeeds (settled (mr_db m1) (mr_disk m1)) c (fun e m2 => se_relative_path e = p /\
     exists d', (exists row, files d' !! p = Some row /\ fr_dirty row = true) /\ settled d' (mr_disk m1) m2)) end.
  { eapply succeeds_bind; [apply settled_now|]. intros now. eapply succeeds_bind.
    - apply (settled_transaction _ _ _ (fun d' => exists row, files d' !! p = Some row /\ fr_dirty row = true)).
      eapply succeeds_bind; [apply pending_execute, off_index_upsert|]. intros [].
      eapply succeeds_weaken; [apply pending_execute, off_index_insert|done|]. intros [] m2 H2. eexists. split; [|exact H2].
      cbn. rewrite lookup_insert_eq. eexists. split; [done|]. by destruct (files (mr_db m1) !! p).
    - intros []. apply succeeds_exists. intros d'. apply succeeds_pure. intros HR.
      eapply (succeeds_bind _ _ _ (fun _ => settled d' (mr_disk m1))); [intros m2 H2 H3; by eexists _, m2|]. intros id.
      eapply succeeds_bind; [apply settled_index|].
      + unfold normalized_path_string in Hpp. by destruct (normalize_relative_path p).
      + intros r. apply succeeds_ret. eauto. }
  destruct (Hc m1) as (e2 & m2 & E2 & Hm2 & He & d' & Hrow & Hs); [apply Hm1|split; [apply Hm1|]; split; [by split_and!|done]|].
  rewrite E in E2. injection E2 as <- <-. split_and!; [done..|apply Hs|]. destruct Hs as (_ & (-> & _) & _). done.
Qed.

(** ** Choosing what to install *)

Lemma get_or_run d k m path p e : calm m -> settled d k m -> normalized_path_string path = Some p ->
  get_or path e m = (ok_or (mirror_entry_from_row p <$> files d !! p) e, m).
Proof.
  intros Hm Hs Hp. unfold get_or. rewrite Mir_bind_run, (get_run d k m path p) by done. by destruct (files d !! p).
Qed.

(** A hydrated file whose bytes are not the recorded ones is dirty once it was checked. *)
Lemma sync_dirty_or_clean m p row c e b m' : calm m -> mr_txn m = None -> normalized_path_string p = Some p ->
  files (mr_db m) !! p = Some row -> is_hydrated (fr_state row) = true -> mr_disk m !! fr_local_path row = Some c ->
  sync_cached_file_integrity hash_bytes utf8_error_text root (mirror_entry_from_row p row) m = (Ok (e, b), m') ->
  me_dirty e = true \/ clean_row (mr_db m) p c.
Proof.
  intros Hm Ht Hp Hrow Hh Hc. assert (Hs : settled (mr_db m) (mr_disk m) m) by (split; [done|]; split; [by split_and!|done]).
  unfold sync_cached_file_integrity. rewrite Mir_bind_run. change (me_state _) with (fr_state row). rewrite Hh.
  change (me_local_path _) with (fr_local_path row). rewrite (is_file_run (mr_disk m)) by done.
  rewrite bool_decide_eq_true_2 by (by eexists). cbn [negb]. rewrite Mir_bind_run. unfold context.
  rewrite (hash_file_run (mr_disk m) m _ c) by done. cbn [map_err].
  assert (Hclean : recorded_hash (mirror_entry_from_row p row) = Some (hash_bytes c) ->
    me_dirty e = fr_dirty row -> me_dirty e = true \/ clean_row (mr_db m) p c).
  { intros Hr ->. destruct (fr_dirty row) eqn:Ed; [by left|]. right. by exists row. }
  assert (Hv : verified utf8_error_text (mirror_entry_from_row p row) (hash_bytes c) m = (Ok (e, b), m') -> me_dirty e = fr_dirty row).
  { destruct (verified_run (mr_db m) (mr_disk m) m p row (hash_bytes c) c Hm Hs Hp Hrow Hc) as (e2 & m2 & -> & Hd & _). by intros [= <- _ _]. }
  case_bool_decide as Hr; [case_bool_decide; [intros [= <- _ _]; by apply Hclean | intros Hx; apply Hclean; auto]|].
  rewrite Mir_bind_run, read_file_calm, Hc by done. cbn [map_err ok_or]. rewrite bool_decide_eq_false_2 by done.
  intros (q & m1 & (Hq & Hm1 & Ht1 & row' & Hrow' & Hd)%(enqueue_save_dirty _ _ p) & E)%Mir_bind_Ok; [|done..].
  apply Mir_bind_Ok in E as (upd & m2 & E & [= <- _ _]). rewrite Hq in E.
  rewrite (get_or_run (mr_db m1) (mr_disk m1) m1 p p), Hrow' in E; [|done|split; [done|]; split; [by split_and!|done]|done].
  injection E as <- _. by left.
Qed.

Lemma prepare_replaces_clean m path p lp rh c m' : calm m -> mr_txn m = None ->
  normalized_path_string path = Some p -> normalized_path_string p = Some p ->
  (forall row, files (mr_db m) !! p = Some row -> fr_local_path row = lp) -> mr_disk m !! lp = Some c ->
  prepare_hydration_target hash_bytes utf8_error_text root path lp rh m = (Ok ReplaceWithPart, m') ->
  clean_row (mr_db m) p c.
Proof.
  intros Hm Ht Hp Hpp Hlp Hc. assert (Hs : settled (mr_db m) (mr_disk m) m) by (split; [done|]; split; [by split_and!|done]).
  unfold prepare_hydration_target. rewrite Mir_bind_run, (get_run (mr_db m) (mr_disk m) m path p) by done.
  destruct (files (mr_db m) !! p) as [row|] eqn:Hrow; cbn [fmap option_fmap option_map].
  - specialize (Hlp row eq_refl). rewrite Mir_bind_run, Mir_bind_run. change (me_local_path _) with (fr_local_path row). rewrite Hlp.
    unfold file_exists. rewrite (is_file_run (mr_disk m)) by done. rewrite bool_decide_eq_true_2 by (by eexists).
    change (me_state _) with (fr_state row). cbn [andb]. destruct (is_hydrated (fr_state row)) eqn:Hh; cbn [negb mret Mir_ret].
    + intros ([e b] & m1 & E & H)%Mir_bind_Ok. apply sync_dirty_or_clean with (c := c) in E; [|by rewrite ?Hlp..].
      destruct E as [E|E]; [|done]. by rewrite E in H.
    + intros (u & m1 & _ & H)%Mir_bind_Ok. apply Mir_bind_Ok in H as (h & m2 & _ & H). by destruct (bytes_eqb h rh).
  - rewrite Mir_bind_run. unfold file_exists. rewrite (is_file_run (mr_disk m)) by done.
    rewrite bool_decide_eq_true_2 by (by eexists). intros (h & m2 & _ & H)%Mir_bind_Ok. by destruct (bytes_eqb h rh).
Qed.

(** ** Files the choice leaves alone *)

Lemma snapshot_tmp_dir path now h n : exists z, durable_tmp (snapshot_name root path now h) n = save_snapshots_root root ++ z.
Proof. unfold durable_tmp, snapshot_name. apply with_extension_dir. Qed.
Lemma roots_disjoint x y : save_snapshots_root root ++ x <> files_root root ++ y.
Proof. unfold save_snapshots_root, files_root. rewrite <- !app_assoc. by intros E%app_inv_head. Qed.

Section Mirrored.
Context (x : bytes).
#[local] Abbreviation mirrored := (files_root root ++ x).

Lemma leaves_snapshot path h content : leaves mirrored (write_save_snapshot root path h content).
Proof.
  unfold write_save_snapshot. leaves_through ltac:(apply leaves_durable).
  - unfold snapshot_name. apply roots_disjoint.
  - intros n. destruct (snapshot_tmp_dir path a h n) as [z ->]. apply roots_disjoint.
Qed.
Lemma leaves_enqueue path h expected content : leaves mirrored (enqueue_save utf8_error_text root path h expected content).
Proof.
  unfold enqueue_save, enqueue_rows, normalize, local_path, latest_unresolved_save_hash.
  leaves_through ltac:(first [apply leaves_snapshot | apply leaves_index | by intros m]).
Qed.
Lemma leaves_sync entry : leaves mirrored (sync_cached_file_integrity hash_bytes utf8_error_text root entry).
Proof.
  unfold sync_cached_file_integrity, verified, record_clean_local_hash, get_or, get, normalize, metadata_len.
  leaves_through ltac:(first [apply leaves_enqueue | apply leaves_rebuild]).
Qed.
Lemma leaves_prepare path lp rh : leaves mirrored (prepare_hydration_target hash_bytes utf8_error_text root path lp rh).
Proof.
  unfold prepare_hydration_target, get, normalize, file_exists. leaves_through ltac:(apply leaves_sync).
Qed.
End Mirrored.

(** ** Installing *)

Lemma create_calm p m : calm m -> create p m = (Ok (), with_disk (<[p := []]> (mr_disk m)) m).
Proof. intros H. unfold create. by rewrite io_calm. Qed.
Lemma write_all_calm p bs m : calm m -> write_all p bs m = (Ok (), with_disk (alter (fun old => old ++ bs) p (mr_disk m)) m).
Proof. intros H. unfold write_all, next_fault. by rewrite H. Qed.

(** Filling a part file. *)
Lemma fill_part t bs m : calm m -> exists m', calm m' /\ mr_db m' = mr_db m /\ mr_txn m' = mr_txn m /\
  mr_disk m' = <[t := bs]> (mr_disk m) /\
  forall A (k : Mir A), (create t;; write_all t bs;; sync_all;; k) m = k m'.
Proof.
  intros Hm. exists (with_disk (alter (fun old => old ++ bs) t (<[t := []]> (mr_disk m))) (with_disk (<[t := []]> (mr_disk m)) m)).
  split_and!; [done..| |].
  - cbn. apply map_eq. intros q. destruct (decide (q = t)) as [->|Hq].
    + by rewrite lookup_alter_eq, !lookup_insert_eq.
    + by rewrite lookup_alter_ne, !lookup_insert_ne.
  - intros A k. rewrite Mir_bind_run, create_calm by done. rewrite Mir_bind_run, write_all_calm by done.
    rewrite Mir_bind_run. unfold sync_all. by rewrite io_calm.
Qed.

Lemma rename_durable_target p q m : p <> q ->
  let m' := snd (rename_durable p q m) in
  mr_disk m' !! q = mr_disk m !! q \/ mr_disk m' !! q = mr_disk m !! p.
Proof.
  intros Hpq. unfold rename_durable. rewrite Mir_bind_run. unfold rename, io.
  destruct (next_fault m) as [f m1] eqn:E. apply next_fault_same in E as (_ & _ & D & _).
  destruct f as [[|]|]; cbn; [left; by rewrite D..|]. destruct (mr_disk m1 !! p) as [bs|] eqn:Ep; cbn; [|left; by rewrite D].
  right. pose proof (sync_parent_only q [] (with_disk (<[q := bs]> (delete p (mr_disk m1))) m1)) as (_ & _ & H).
  rewrite H by set_solver. cbn. rewrite lookup_insert_eq, <- Ep. by rewrite D.
Qed.

Lemma local_path_dir path lp m m' : local_path root path m = (Ok lp, m') -> exists x, lp = files_root root ++ B"/" ++ x.
Proof. unfold local_path, lift. destruct (normalize_relative_path path); cbn; [|done]. intros [= <- _]. by eexists. Qed.

(** Choosing and installing changes a local file only to the bytes of the part file, and only if it is clean. *)
Lemma prepared_install_target m path x lp t h rh c : calm m -> mr_txn m = None -> normalized_path_string path = Some path ->
  lp = files_root root ++ x -> t <> lp -> (exists z, t = files_root root ++ z) ->
  (forall row, files (mr_db m) !! path = Some row -> fr_local_path row = lp) -> mr_disk m !! lp = Some c ->
  let m' := snd ((prepare_hydration_target hash_bytes utf8_error_text root path lp rh ≫= fun i => install_part i t lp h) m) in
  mr_disk m' !! lp = Some c \/ (clean_row (mr_db m) path c /\ mr_disk m' !! lp = mr_disk m !! t).
Proof.
  intros Hm Ht Hp -> Htl [z ->] Hrows Hc. rewrite Mir_bind_run.
  pose proof (fun y => leaves_prepare y path (files_root root ++ x) rh m) as H3.
  destruct (prepare_hydration_target _ _ _ _ _ _ m) as [[i|] m3] eqn:E; cbn [snd] in *; [|left; by rewrite H3].
  destruct i as [|h']; cbn [install_part]; rewrite Mir_bind_run.
  - apply (prepare_replaces_clean _ _ path _ _ c) in E; [|done..].
    destruct (rename_durable_target (files_root root ++ z) (files_root root ++ x) m3 Htl) as [H|H];
      destruct (rename_durable _ _ m3) as [[u|] m4]; cbn in *; rewrite H, H3; auto.
  - left. rewrite <- Hc, <- H3. unfold ignore. rewrite Mir_bind_run. unfold catch.
    destruct (only_remove [files_root root ++ z] (files_root root ++ z) ltac:(set_solver) m3) as (_ & _ & H).
    destruct (remove_file _ m3) as [r m4]. cbn in *. apply H. set_solver.
Qed.

Lemma leaves_record p (file : BatchReadFile) h : leaves p (record_hydrated root (brf_meta file) (brf_hash file) h;;
  replace_search_index_from_bytes utf8_error_text (brf_path file) h (brf_content file);; mret ()).
Proof. unfold record_hydrated, local_path. leaves_through ltac:(apply leaves_index). Qed.

Section Install.
Context (m : mirror) (file : BatchReadFile) (lp c : bytes).
Context (Hm : calm m) (Ht : mr_txn m = None).
Context (Hp : normalized_path_string (brf_path file) = Some (brf_path file)).
Context (Hlp : local_path root (brf_path file) m = (Ok lp, m)) (Hc : mr_disk m !! lp = Some c).
Context (Hrows : forall row, files (mr_db m) !! brf_path file = Some row -> fr_local_path row = lp).
Context (Hpart : batch_part lp <> lp).

(** C10 (safety) Recording a file of a batch read changes the local file of its path, when no call of the
    mirror fails, no transaction is open and the mirror knows the file by this path, only if the mirror's row says that it is clean and hydrated and that its bytes
    are the ones last synchronised, and then puts the fetched bytes there, which hash to the
    announced hash: bytes the user changed and that are nowhere else are never overwritten. *)
Theorem hydration_keeps_local_edits :
  let m' := snd (record_batch_file hash_bytes utf8_error_text root file m) in
  mr_disk m' !! lp = Some c \/
  (clean_row (mr_db m) (brf_path file) c /\ mr_disk m' !! lp = Some (brf_content file) /\
   hash_bytes (brf_content file) = brf_hash file).
Proof.
  destruct (local_path_dir _ _ _ _ Hlp) as [x Ex].
  assert (exists z, batch_part lp = files_root root ++ z) as [z Ez].
  { unfold batch_part. rewrite Ex. apply (with_extension_dir (files_root root)). }
  unfold record_batch_file. rewrite Mir_bind_run, Hlp, Mir_bind_run. unfold create_dir_all. rewrite io_calm by done. cbn [mret Mir_ret]. cbv zeta.
  match goal with |- context[or_remove ?t ?b m] => destruct (or_remove t b m) as [r m'] eqn:E end.
  apply or_remove_run in E as (m1 & E & Hk). cbn [snd]. rewrite !Hk by congruence. clear Hk m'.
  destruct (fill_part (batch_part lp) (brf_content file) m Hm) as (m2 & Hm2 & Hd2 & Ht2 & Hk2 & Hrun). rewrite Hrun in E.
  rewrite Mir_bind_run, (hash_file_run (mr_disk m2) m2 _ (brf_content file)) in E; [|done|done|by rewrite Hk2, lookup_insert_eq].
  assert (Hc2 : mr_disk m2 !! lp = Some c) by (by rewrite Hk2, lookup_insert_ne).
  destruct (bytes_eqb _ _) eqn:Ehash; cbn [negb] in E; [|injection E as _ <-; by left]. apply bytes_eqb_true in Ehash.
  rewrite Mir_bind_run in E. cbn [mret Mir_ret] in E. rewrite Mir_bind_assoc in E.
  apply (prepared_install_target m2 (brf_path file) (B"/" ++ x) lp (batch_part lp) (hash_bytes (brf_content file)) (brf_hash file)) in Hc2;
    [|congruence || eauto..|by rewrite Hd2].
  cbv zeta in Hc2. set (installed := prepare_hydration_target _ _ _ _ _ _ ≫= _) in *.
  assert (Hc1 : mr_disk m1 !! lp = mr_disk (snd (installed m2)) !! lp).
  { rewrite Mir_bind_run in E. destruct (installed m2) as [[h|] m3]; [|by injection E as _ <-].
    pose proof (leaves_record lp file h m3) as H. by rewrite E in H. }
  rewrite Hc1. destruct Hc2 as [H|[H1 H2]]; [by left|]. right. rewrite H2, Hk2, lookup_insert_eq. by rewrite Hd2 in H1.
Qed.
End Install.
End Clean.

(** A file the user edited after it was hydrated keeps its bytes, which become a queued save. *)
Module Edited.
Definition meta : FileMeta := {|
  fm_path := B"a.rs"; fm_size := 3; fm_mtime_ms := 5; fm_mode := 420; fm_is_dir := false; fm_is_symlink := false;
  fm_hash := Some (B"new") |}.
Definition fetched : BatchReadFile := {|
  brf_path := B"a.rs"; brf_content := B"new"; brf_hash := B"new"; brf_meta := meta |}.
Definition row : file_row := {|
  fr_local_path := B"/m/files/a.rs"; fr_size := 3; fr_mtime_ms := 5; fr_mode := 420; fr_is_dir := false;
  fr_is_symlink := false; fr_metadata_kind_known := true; fr_remote_hash := Some (B"old"); fr_local_hash := Some (B"old");
  fr_state := hydrated_state; fr_dirty := false; fr_validated_at_ms := 5; fr_validation_state := B"valid";
  fr_last_error := None; fr_updated_at_ms := 5 |}.
Definition state (local : bytes) : mirror := {|
  mr_db := with_files {[ B"a.rs" := row ]} empty_database; mr_txn := None; mr_disk := {[ B"/m/files/a.rs" := local ]};
  mr_clock := 0; mr_ticks := []; mr_faults := [] |}.
Definition run (local : bytes) : mirror :=
  snd (record_batch_file (fun c => c) (fun _ => []) (B"/m") fetched (state local)).

Lemma row_path local row' : files (mr_db (state local)) !! B"a.rs" = Some row' -> fr_local_path row' = B"/m/files/a.rs".
Proof. intros E. change (Some row = Some row') in E. by injection E as <-. Qed.
End Edited.

Lemma hydration_keeps_local_edits_witness :
  mr_disk (Edited.run (B"mine")) !! B"/m/files/a.rs" = Some (B"mine") /\
  (qr_local_hash <$> save_queue (mr_db (Edited.run (B"mine")))) = [B"mine"] /\
  mr_disk (Edited.run (B"old")) !! B"/m/files/a.rs" = Some (B"new") /\
  (mr_disk (Edited.run (B"mine")) !! B"/m/files/a.rs" = Some (B"mine") \/
   clean_row (fun c => c) (mr_db (Edited.state (B"mine"))) (B"a.rs") (B"mine") /\
   mr_disk (Edited.run (B"mine")) !! B"/m/files/a.rs" = Some (B"new") /\ B"new" = B"new").
Proof.
  split; [reflexivity|]. split; [reflexivity|]. split; [reflexivity|].
  exact (hydration_keeps_local_edits (fun c => c) (fun _ => []) (B"/m") (Edited.state (B"mine")) Edited.fetched
    (B"/m/files/a.rs") (B"mine") eq_refl eq_refl eq_refl eq_refl eq_refl (Edited.row_path (B"mine")) ltac:(discriminate)).
Defined.
