(* ===== verification/MirrorHistory.v ===== *)
(** * Every queued save survives

    All handlers of the sidecar that touch the mirror, interleaved with the
    user's edits of mirrored files, failing calls and restarts, keep the
    invariant of the save queue and every save that was committed. *)
From S2P Require Import Prelude Paths Protocol MirrorDb MirrorLogic SearchIndex Mirror MirrorProps MirrorConflicts SaveReplay Hydrate.

Section History.
Context {W : Type} `{Remote W}.
Context (hash_bytes : bytes -> bytes) (utf8_error_text : bytes -> bytes) (root : bytes).
Context (Hhash : forall c, length (hash_bytes c) = 64%nat).
#[local] Abbreviation runs := (runs hash_bytes root).
#[local] Abbreviation safe c := (runs (fun _ => True) c (fun _ _ => True)).
#[local] Abbreviation inv := (inv hash_bytes root).

Lemma safe_runs {A} (c : Mir A) : (forall D, runs D c (fun _ => D)) -> safe c.
Proof. intros Hc. apply (Hc (fun _ => True)). Qed.
#[local] Hint Resolve runs_enqueue_local runs_sync_integrity runs_get runs_get_or runs_conflict_entry runs_record_conflict
  runs_mark_applied runs_mark_failed runs_record_validation runs_mark_validation_error runs_accept_local runs_accept_remote
  runs_record_hydrated runs_rebuild runs_replace_bytes : mirror.
Ltac kept := step_through ltac:(solve [auto with mirror | apply safe_runs; intros; auto with mirror]).

(** ** Hydration *)

Lemma free_batch_part p : free root (batch_part p).
Proof.
  unfold batch_part. destruct (with_extension_end p (B"nrm-batch-part")) as [pre ->].
  change (B"nrm-batch-part") with (B"nrm-batch-" ++ B"part"). rewrite app_assoc. apply free_part.
Qed.
Lemma free_hydrate_part p : free root (hydrate_part p).
Proof.
  unfold hydrate_part. destruct (with_extension_end p (B"nrm-part")) as [pre ->].
  change (B"nrm-part") with (B"nrm-" ++ B"part"). rewrite app_assoc. apply free_part.
Qed.
Lemma safe_only {A} (p : bytes) (c : Mir A) : only [p] c -> free root p -> safe c.
Proof. intros Hc Hp. apply (runs_only _ _ Hhash _ [p]); [done| |done]. intros q Hq. apply list_elem_of_singleton in Hq as ->. done. Qed.

Lemma safe_prepare path lp rh : safe (prepare_hydration_target hash_bytes utf8_error_text root path lp rh).
Proof. unfold prepare_hydration_target, file_exists. kept. Qed.
Lemma safe_install i part lp h : free root part -> under_files root lp -> safe (install_part i part lp h).
Proof.
  intros Hp [x Hx]. destruct i as [|h']; cbn [install_part].
  - eapply runs_bind; [|intros []; by apply runs_ret].
    apply (runs_only _ _ Hhash _ [part; lp]); [by apply only_rename_durable; set_solver| |done].
    intros q [->|[->|[]%elem_of_nil]%elem_of_cons]%elem_of_cons; [done | rewrite Hx; apply free_files].
  - eapply runs_bind; [|intros ?; by apply runs_ret]. apply (safe_only part); [|done].
    apply only_bind; [apply only_catch, only_remove; set_solver | intros; apply only_ret].
Qed.

Lemma safe_or_remove {A} p (c : Mir A) : free root p -> safe c -> safe (or_remove p c).
Proof.
  intros Hp Hc. eapply (runs_bind _ _ _ _ _ (fun _ _ => True)).
  { eapply runs_weaken; [apply runs_catch, Hc|done|done]. }
  intros r. eapply (runs_bind _ _ _ _ _ (fun _ _ => True)); [|intros []; by apply runs_lift]. destruct r; [by apply runs_ret|].
  apply (safe_only p); [|done]. apply only_bind; [apply only_catch, only_remove; set_solver | intros; apply only_ret].
Qed.

Lemma safe_record_batch_file file : safe (record_batch_file hash_bytes utf8_error_text root file).
Proof.
  unfold record_batch_file. eapply runs_bind_pure; [apply runs_local_path|]. intros lp Hlp. cbv beta zeta.
  eapply runs_bind; [kept|]. intros []. apply safe_or_remove; [apply free_batch_part|].
  do 2 (eapply runs_bind; [apply (safe_only (batch_part lp)); [auto with mirror | apply free_batch_part] | intros []]).
  do 3 (eapply runs_bind; [kept | intros ?]; cbv beta).
  eapply runs_bind; [apply safe_prepare | intros i]. eapply runs_bind; [by apply safe_install, Hlp; apply free_batch_part | intros h].
  kept.
Qed.
Lemma safe_record_batch_files l : safe (record_batch_files hash_bytes utf8_error_text root l).
Proof.
  induction l as [|file l IH]; cbn [record_batch_files]; [by apply runs_ret|].
  eapply (runs_bind _ _ _ _ _ (fun _ _ => True)); [eapply runs_weaken; [apply runs_catch, safe_record_batch_file|done|done]|].
  intros r. eapply runs_bind; [exact IH|]. intros [n l']. by apply runs_ret.
Qed.
Lemma safe_record_validation_file file : safe (record_validation_file hash_bytes utf8_error_text root file).
Proof. unfold record_validation_file. kept. Qed.
Lemma safe_record_validation_files l : safe (record_validation_files hash_bytes utf8_error_text root l).
Proof.
  induction l as [|file l IH]; cbn [record_validation_files]; [by apply runs_ret|].
  eapply (runs_bind _ _ _ _ _ (fun _ _ => True)); [eapply runs_weaken; [apply runs_catch, safe_record_validation_file|done|done]|].
  intros r. eapply runs_bind; [exact IH|]. intros l'. by apply runs_ret.
Qed.
Lemma safe_mark_validation_errors l : safe (mark_validation_errors l).
Proof.
  induction l as [|e l IH]; cbn [mark_validation_errors]; [by apply runs_ret|].
  eapply runs_bind; [|intros; exact IH]. eapply (runs_bind _ _ _ _ _ (fun _ _ => True)); [|intros; by apply runs_ret].
  eapply runs_weaken; [apply runs_catch, (runs_mark_validation_error _ _ (fun _ => True))|done|done].
Qed.
Lemma safe_open_cached path force : safe (open_cached hash_bytes utf8_error_text root path force).
Proof.
  unfold open_cached, file_exists. eapply runs_bind_pure; [apply runs_get_files|]. intros [entry|] Hentry; [|by apply runs_ret].
  specialize (Hentry entry eq_refl). destruct (negb _); [by apply runs_ret|].
  eapply runs_bind; [kept|]. intros lost. eapply (runs_bind _ _ _ _ _ (fun _ _ => True)).
  { destruct lost; [|by apply runs_ret]. eapply runs_bind; [by apply runs_restore|]. intros []. kept. }
  intros e. kept.
Qed.

(** ** Handlers *)

(** The invariant is kept, and every committed save with it. *)
Definition grows (m m' : mirror) : Prop := inv m -> inv m' /\ identities (committed m) `prefix_of` identities (committed m').
#[local] Instance grows_preorder : PreOrder grows.
Proof.
  split; [by intros m Hm|]. intros a b c H1 H2 Ha. destruct (H1 Ha) as [Hb ?]. destruct (H2 Hb) as [Hc ?]. split; [done|]. by etrans.
Qed.
Definition side_safe {A} (c : Side W A) : Prop := forall s, grows (fst s) (fst (snd (c s))).

Lemma side_safe_ret {A} (a : A) : side_safe (mret a).
Proof. by intros s. Qed.
Lemma side_safe_bail {A} e : side_safe (@side_bail W A e).
Proof. by intros s. Qed.
Lemma side_safe_bind {A B} (c : Side W A) (k : A -> Side W B) : side_safe c -> (forall a, side_safe (k a)) -> side_safe (c ≫= k).
Proof.
  intros Hc Hk s. unfold mbind, Side_bind. specialize (Hc s). destruct (c s) as [[a|e] s1]; [|done]. etrans; [exact Hc|]. apply Hk.
Qed.
Lemma side_safe_catch {A} (c : Side W A) : side_safe c -> side_safe (side_catch c).
Proof. intros Hc s. specialize (Hc s). unfold side_catch. by destruct (c s). Qed.
Lemma side_safe_mirror {A} (c : Mir A) : safe c -> side_safe (on_mirror c).
Proof. intros Hc [m w] Hi. destruct (Hc m Hi I) as (H1 & H2 & _). cbn in *. by destruct (c m) as [r m1]. Qed.
Lemma side_safe_agent q : side_safe (on_agent q).
Proof. intros [m w]. cbn. by destruct (request q w). Qed.

(** Steps through a handler. *)
Ltac side_through leaf :=
  cbv beta zeta;
  lazymatch goal with
  | |- side_safe (mbind _ _) => apply side_safe_bind; [side_through leaf | intros ?; side_through leaf]
  | |- side_safe (mret _) => apply side_safe_ret
  | |- side_safe (side_bail _) => apply side_safe_bail
  | |- side_safe (side_catch _) => apply side_safe_catch; side_through leaf
  | |- side_safe (on_agent _) => apply side_safe_agent
  | |- side_safe (on_mirror (catch ?c)) => apply side_safe_mirror, (runs_reads _ _ _ (catch c)); intros; apply only_catch; auto with mirror
  | |- side_safe (if ?b then _ else _) => destruct b; side_through leaf
  | |- side_safe (match ?x with _ => _ end) => destruct x; side_through leaf
  | |- side_safe (on_mirror _) => first [ apply side_safe_mirror; leaf | solve [auto with mirror] ]
  | |- _ => solve [auto with mirror]
  end.
#[local] Hint Resolve safe_record_batch_file safe_record_batch_files safe_record_validation_file safe_record_validation_files
  safe_mark_validation_errors safe_open_cached safe_prepare : mirror.
Ltac side_kept := side_through ltac:(kept).

Lemma side_safe_queued_again entry reason f : side_safe (queued_again entry reason f).
Proof. unfold queued_again. side_kept. Qed.
#[local] Hint Resolve side_safe_queued_again : mirror.
Lemma side_safe_outcome entry o : side_safe (record_save_outcome utf8_error_text root entry o).
Proof. unfold record_save_outcome, metadata_len. side_kept. Qed.
#[local] Hint Resolve side_safe_outcome : mirror.
Lemma side_safe_upload fuel entry id off rest : side_safe (upload_loop fuel entry id off rest).
Proof.
  revert off rest. induction fuel as [|fuel IH]; intros off rest; cbn [upload_loop]; [apply side_safe_ret|].
  apply side_safe_bind; [apply side_safe_mirror, runs_reads; intros; apply only_io, only_ret|]. intros chunk. side_kept.
Qed.
#[local] Hint Resolve side_safe_upload : mirror.
Lemma side_safe_apply entry : side_safe (apply_save_entry hash_bytes utf8_error_text root entry).
Proof.
  unfold apply_save_entry, apply_small_save_entry, apply_chunked_save_entry, upload_snapshot_chunks, metadata_len. side_kept.
Qed.
#[local] Hint Resolve side_safe_apply : mirror.
Lemma side_safe_replay attempts entries : side_safe (replay_loop hash_bytes utf8_error_text root attempts entries).
Proof. revert attempts. induction entries as [|e l IH]; intros attempts; cbn [replay_loop]; side_kept. Qed.
#[local] Hint Resolve side_safe_replay : mirror.

Lemma side_safe_read_loop budget path part off : free root part -> side_safe (read_loop budget path part off).
Proof.
  intros Hp. revert off. induction budget as [|budget IH]; intros off; cbn [read_loop]; [apply side_safe_ret|].
  apply side_safe_bind; [apply side_safe_agent|]. intros response. destruct response; try apply side_safe_bail.
  apply side_safe_bind; [apply side_safe_mirror, (safe_only part); [auto with mirror | done]|]. intros []. side_kept.
Qed.
Lemma side_safe_fetch budget path lp part : free root part -> under_files root lp ->
  side_safe (fetch hash_bytes utf8_error_text root budget path lp part).
Proof.
  intros Hp Hlp. unfold fetch.
  apply side_safe_bind; [apply side_safe_mirror, (safe_only part); [auto with mirror | done]|]. intros [].
  apply side_safe_bind; [by apply side_safe_read_loop|]. intros [[meta rh]|]; [|apply side_safe_ret].
  do 3 (apply side_safe_bind; [side_kept | intros ?]). apply side_safe_bind; [side_kept | intros i].
  apply side_safe_bind; [by apply side_safe_mirror, safe_install | intros h]. apply side_safe_ret.
Qed.
Lemma side_safe_hydrate budget path : side_safe (hydrate hash_bytes utf8_error_text root budget path).
Proof.
  intros [m w]. unfold hydrate. unfold mbind at 1, Side_bind. unfold on_mirror at 1.
  destruct (local_path root path m) as [[lp|e] m1] eqn:E; injection E as E <-; [|done].
  assert (Hlp : under_files root lp) by (destruct (normalize_relative_path path); [injection E as <-; by eexists | done]).
  assert (Hrm : side_safe (on_mirror (W := W) (ignore (remove_file (hydrate_part lp))))).
  { apply side_safe_mirror, (safe_only (hydrate_part lp)); [|apply free_hydrate_part].
    apply only_bind; [apply only_catch, only_remove; set_solver | intros; apply only_ret]. }
  match goal with |- grows _ (fst (snd (?c _))) => enough (Hc : side_safe c) by apply (Hc (m, w)) end.
  apply side_safe_bind; [side_kept|]. intros []. cbv zeta.
  apply side_safe_bind; [by apply side_safe_catch, side_safe_fetch, Hlp; apply free_hydrate_part|]. intros hydrated. unfold metadata_len. side_kept.
Qed.
#[local] Hint Resolve side_safe_hydrate : mirror.
Lemma side_safe_preemptible budget q : side_safe (preemptible budget q).
Proof. unfold preemptible. side_kept. Qed.
#[local] Hint Resolve side_safe_preemptible : mirror.
Lemma side_safe_open budget path force n : side_safe (open hash_bytes utf8_error_text root budget path force n).
Proof. unfold open, open_hydrate, hydrate_open_batch. side_kept. Qed.

(** The requests of a client that change the mirror. *)
Inductive handler :=
| HandleFlush (path : bytes) | HandleAdopt (path : bytes) | HandlePrepareFlush (path : bytes) (adopt : bool)
| HandleFlushQueued (queue_id : Z) | HandleFlushQueue (limit : option nat)
| HandleAcceptLocal (queue_id : Z) | HandleAcceptRemote (queue_id : Z)
| HandleOpen (budget : nat) (path : bytes) (force : bool) (batch_max_file_bytes : Z)
| HandleBatchHydrate (budget : nat) (paths : list bytes) (max_file_bytes max_total_bytes : Z)
| HandleRefresh (budget : nat) (paths : list bytes) | HandleValidate (budget : nat) (path : bytes)
| HandleMetadata (entries : list FileMeta) (state : bytes) | HandleCursor (cursor : option bytes).
Definition exec (h : handler) : Side W unit :=
  match h with
  | HandleFlush path => flush hash_bytes utf8_error_text root path;; mret ()
  | HandleAdopt path => adopt hash_bytes utf8_error_text root path;; mret ()
  | HandlePrepareFlush path adopt => on_mirror (prepare_flush hash_bytes utf8_error_text root path adopt);; mret ()
  | HandleFlushQueued id => flush_queued hash_bytes utf8_error_text root id;; mret ()
  | HandleFlushQueue limit => flush_queue hash_bytes utf8_error_text root limit;; mret ()
  | HandleAcceptLocal id => accept_local_conflict hash_bytes utf8_error_text root id;; mret ()
  | HandleAcceptRemote id => on_mirror (accept_remote_conflict hash_bytes utf8_error_text root id);; mret ()
  | HandleOpen budget path force n => open hash_bytes utf8_error_text root budget path force n;; mret ()
  | HandleBatchHydrate budget paths a b => batch_hydrate hash_bytes utf8_error_text root budget paths a b;; mret ()
  | HandleRefresh budget paths => refresh_paths hash_bytes utf8_error_text root budget paths;; mret ()
  | HandleValidate budget path => validate hash_bytes utf8_error_text root budget path;; mret ()
  | HandleMetadata entries state => on_mirror (upsert_metadata_batch root entries state);; mret ()
  | HandleCursor cursor => on_mirror (set_background_scan_cursor cursor);; mret ()
  end.

Lemma safe_cursor cursor : safe (set_background_scan_cursor cursor).
Proof.
  unfold set_background_scan_cursor, set_workspace_state_value. destruct cursor as [value|]; [|by apply runs_execute; intros d].
  eapply runs_bind; [apply (runs_reads _ _ (fun _ => True)); auto with mirror|]. intros now. by apply runs_execute; intros d.
Qed.
#[local] Hint Resolve side_safe_open safe_cursor runs_upsert_metadata_batch : mirror.
Lemma side_safe_exec h : side_safe (exec h).
Proof.
  destruct h; cbn [exec]; unfold flush, SaveReplay.adopt, flush_queued, flush_queue, accept_local_conflict, batch_hydrate, refresh_paths,
    validate, prepare_flush, replay_queued_saves, pending_save_entries, pending_save_count, save_queue_entry,
    enqueue_local_save, enqueue_adopted_local_save, metadata_len; side_kept.
Qed.

(** ** Histories *)

Definition clocked (clock : Z) (ticks : list Z) (faults : list (option fault)) (m : mirror) : mirror := {|
  mr_db := mr_db m; mr_txn := mr_txn m; mr_disk := mr_disk m; mr_clock := clock; mr_ticks := ticks; mr_faults := faults |}.
(** Requests are served; the user writes or deletes mirrored files; the remote changes; calls will
    fail as given; the process ends and starts again, which drops an open transaction.  A
    process that is killed inside a request is one whose remaining calls fail before it restarts. *)
Inductive step : mirror * W -> mirror * W -> Prop :=
| step_request h s : step s (snd (exec h s))
| step_edit m w p c : under_files root p -> step (m, w) (with_disk (<[p := c]> (mr_disk m)) m, w)
| step_delete m w p : under_files root p -> step (m, w) (with_disk (delete p (mr_disk m)) m, w)
| step_remote m w w' : step (m, w) (m, w')
| step_clock m w clock ticks faults : step (m, w) (clocked clock ticks faults m, w)
| step_restart m w : step (m, w) (abandon m, w).

Lemma step_grows s s' : step s s' -> grows (fst s) (fst s').
Proof.
  intros [h s1|m w p c [x ->]|m w p [x ->]|m w w'|m w clock ticks faults|m w]; cbn.
  - apply side_safe_exec.
  - intros Hi. destruct (inv_disk hash_bytes root Hhash [files_root root ++ x] m (with_disk (<[files_root root ++ x := c]> (mr_disk m)) m)) as [? ->];
      try done; [intros q ->%list_elem_of_singleton; apply free_files|]. intros q Hq. apply lookup_insert_ne. set_solver.
  - intros Hi. destruct (inv_disk hash_bytes root Hhash [files_root root ++ x] m (with_disk (delete (files_root root ++ x) (mr_disk m)) m)) as [? ->];
      try done; [intros q ->%list_elem_of_singleton; apply free_files|]. intros q Hq. apply lookup_delete_ne. set_solver.
  - done.
  - intros Hi. by destruct (inv_same_store hash_bytes root m (clocked clock ticks faults m)) as [? ->].
  - intros Hi. by destruct (inv_abandon hash_bytes root m Hi) as (? & -> & _).
Qed.

Lemma history_grows s s' : rtc step s s' -> grows (fst s) (fst s').
Proof. induction 1 as [s|s1 s2 s3 H12 _ IH]; [done|]. etrans; [by apply step_grows | done]. Qed.

(** C3 (invariant) Once a save is queued, it is there for good: in every history of requests,
    edits and deletions of mirrored files, remote changes, failing calls and restarts, its row
    keeps its id, path and hash, and its snapshot stays on disk with the bytes that hash to it. *)
Theorem queued_saves_survive s s' row q : rtc step s s' -> inv (fst s) ->
  row ∈ save_queue (committed (fst s)) -> qr_snapshot_path row = Some q ->
  inv (fst s') /\
  exists row' c, row' ∈ save_queue (committed (fst s')) /\ identity_of row' = identity_of row /\
    mr_disk (fst s') !! q = Some c /\ hash_bytes c = qr_local_hash row.
Proof.
  intros Hs Hi Hrow Hq. destruct (history_grows s s' Hs Hi) as [Hi' Hpre]. split; [done|].
  assert (Hin : identity_of row ∈ identities (committed (fst s'))) by (eapply elem_of_prefix; [|exact Hpre]; by apply list_elem_of_fmap_2).
  destruct (inv_saved _ _ _ _ Hi' Hin q Hq) as (now & c & _ & Hc & Hh).
  apply list_elem_of_fmap in Hin as (row' & Hid & Hrow'). by exists row', c.
Qed.
End History.

(** The local file of a conflict is edited and queued again while calls fail, then deleted; the sidecar restarts. *)
Module Crashes.
#[local] Instance offline : Remote unit := fun _ w => (Err (B"agent is offline"), w).
Definition exec := exec Conflict.pad64 (fun _ => []) (B"/m").
Definition step := step Conflict.pad64 (fun _ => []) (B"/m").
Definition edited : mirror := with_disk (<[B"/m/files/a" := B"more"]> (mr_disk Conflict.state)) Conflict.state.
Definition failing : mirror := clocked 5 [1; 1] [None; None; None; Some (Fail 0 (B"disk I/O error"))] edited.
Definition flushed : mirror * unit := snd (exec (HandleFlush (B"a")) (failing, tt)).
Definition final : mirror * unit := (abandon (fst flushed), snd flushed).

Lemma history : rtc step (Conflict.state, tt) final.
Proof.
  eapply rtc_l; [apply (step_edit _ _ _ _ _ (B"/m/files/a") (B"more")); by exists (B"/a")|].
  eapply rtc_l; [apply (step_clock _ _ _ _ _ 5 [1; 1] [None; None; None; Some (Fail 0 (B"disk I/O error"))])|].
  eapply rtc_l; [apply (step_request _ _ _ (HandleFlush (B"a")))|].
  unfold final, flushed, exec. destruct (snd (MirrorHistory.exec _ _ _ _ _)) as [m w]. apply rtc_once, step_restart.
Qed.
End Crashes.

Lemma queued_saves_survive_witness :
  inv Conflict.pad64 (B"/m") (fst Crashes.final) /\
  exists row' c, row' ∈ save_queue (committed (fst Crashes.final)) /\ identity_of row' = identity_of Conflict.row /\
    mr_disk (fst Crashes.final) !! Conflict.snapshot = Some c /\ Conflict.pad64 c = Conflict.pad64 (B"mine").
Proof.
  exact (queued_saves_survive (W := unit) Conflict.pad64 (fun _ => []) (B"/m") Conflict.pad64_length (Conflict.state, tt) Crashes.final
    Conflict.row Conflict.snapshot Crashes.history Conflict.state_inv (list_elem_of_here _ _) eq_refl).
Defined.
