(* ===== verification/SaveReplayProps.v ===== *)
(** * Queued saves and the remote

    What the sidecar may rely on from a remote is a class: a file is replaced
    only as a whole and only if it has the expected content, and the replies are
    true.  Against that interface no attempt overwrites a remote edit, and an attempt
    reports the truth.  The agent is shown to obey the laws in [SaveAgent]. *)
From S2P Require Import Prelude Paths Protocol MirrorDb MirrorLogic SearchIndex SearchIndexProps Mirror MirrorProps MirrorTotal SaveReplay.

(** ** The remote as a store of files *)

(** [view w p] is the content of the regular file the remote has for the workspace path [p];
    [declared] are the open uploads with their path, expected hash and announced hash. *)
Class RemoteFiles (W : Type) := {
  view : W -> bytes -> option bytes;
  tracked : bytes -> Prop;
  remote_inv : W -> Prop;
  declared : W -> bytes -> option (bytes * option bytes * bytes) }.

Section Laws.
Context {W : Type} `{RemoteFiles W} (hash_bytes : bytes -> bytes).

Definition view_hash (w : W) (p : bytes) : option bytes := hash_bytes <$> view w p.
Definition unchanged (w w' : W) : Prop := forall q, tracked q -> view w' q = view w q.
(** [p] had the expected hash and has the new one; nothing else changed. *)
Definition swapped (w w' : W) (p : bytes) (expected : option bytes) (h : bytes) : Prop :=
  view_hash w p = expected /\ view_hash w' p = Some h /\ forall q, tracked q -> q <> p -> view w' q = view w q.
Definition cas_step (w w' : W) (p : bytes) (expected : option bytes) (h : bytes) : Prop :=
  unchanged w w' \/ swapped w w' p expected h.

Definition true_conflict (w w' : W) (p : bytes) (expected : option bytes) (c : SaveConflict) : Prop :=
  unchanged w w' /\ sc_path c = p /\ sc_actual_hash c = view_hash w p /\ view_hash w p <> expected.
Definition true_outcome (w w' : W) (p : bytes) (expected : option bytes) (h : bytes) (o : SaveOutcome) : Prop :=
  match o with
  | SaveOutcome_Applied a => swapped w w' p expected h /\ sa_path a = p /\ sa_new_hash a = h
  | SaveOutcome_Conflict c => true_conflict w w' p expected c
  end.
End Laws.

(** Saves in one request. *)
Class CasWrites (W : Type) `{Remote W, RemoteFiles W} (hash_bytes : bytes -> bytes) : Prop := {
  law_write w p e c r w' : remote_inv w -> tracked p -> request (Request_WriteFileCas p e c) w = (r, w') ->
    remote_inv w' /\ cas_step hash_bytes w w' p e (hash_bytes c) /\
    match r with
    | Ok (Response_WriteFileCas o) => true_outcome hash_bytes w w' p e (hash_bytes c) o
    | Ok _ => False
    | Err _ => True
    end }.

(** Saves in chunks. *)
Class CasUploads (W : Type) `{Remote W, RemoteFiles W} (hash_bytes : bytes -> bytes) : Prop := {
  law_begin w p e h n r w' : remote_inv w -> tracked p -> request (Request_BeginWriteFileCas p e h n) w = (r, w') ->
    remote_inv w' /\ unchanged w w' /\
    match r with
    | Ok (Response_BeginWriteFileCas (WriteStart_Started s)) => declared w' (ws_upload_id s) = Some (p, e, h)
    | Ok (Response_BeginWriteFileCas (WriteStart_Conflict c)) => true_conflict hash_bytes w w' p e c
    | Ok _ => False
    | Err _ => True
    end;
  law_chunk w id o c r w' : remote_inv w -> request (Request_WriteFileChunk id o c) w = (r, w') ->
    remote_inv w' /\ unchanged w w' /\ (declared w' id = declared w id \/ declared w' id = None);
  law_finish w id r w' : remote_inv w -> request (Request_FinishWriteFileCas id) w = (r, w') ->
    remote_inv w' /\
    match declared w id with
    | Some (p, e, h) => cas_step hash_bytes w w' p e h /\
        match r with
        | Ok (Response_FinishWriteFileCas o) => true_outcome hash_bytes w w' p e h o
        | Ok _ => False
        | Err _ => True
        end
    | None => unchanged w w' /\ is_ok r = false
    end;
  law_abort w id r w' : remote_inv w -> request (Request_AbortWriteFileCas id) w = (r, w') ->
    remote_inv w' /\ unchanged w w' }.

Section Attempts.
Context {W : Type} `{Remote W, RemoteFiles W}.
Context (hash_bytes : bytes -> bytes) `{!CasWrites W hash_bytes, !CasUploads W hash_bytes} (utf8_error_text : bytes -> bytes) (root : bytes).
Abbreviation view_hash := (view_hash hash_bytes).
Abbreviation swapped := (swapped hash_bytes).
Abbreviation cas_step := (cas_step hash_bytes).

Lemma unchanged_trans (w1 w2 w3 : W) : unchanged w1 w2 -> unchanged w2 w3 -> unchanged w1 w3.
Proof. intros H1 H2 q Hq. by rewrite H2, H1. Qed.
Lemma view_hash_unchanged w w' p : tracked p -> unchanged w w' -> view_hash w' p = view_hash w p.
Proof. intros Hp Hu. unfold SaveReplayProps.view_hash. by rewrite Hu. Qed.
Lemma cas_unchanged_l w w1 w2 p e h : tracked p -> unchanged w w1 -> cas_step w1 w2 p e h -> cas_step w w2 p e h.
Proof.
  intros Hp Hu [H3|(H3 & H4 & H5)]; [left; by eapply unchanged_trans|]. right.
  rewrite (view_hash_unchanged _ _ _ Hp Hu) in H3. split_and!; [done..|]. intros q Hq Hne. by rewrite H5, Hu.
Qed.
Lemma true_outcome_unchanged_l w w1 w2 p e h o : tracked p -> unchanged w w1 ->
  true_outcome hash_bytes w1 w2 p e h o -> true_outcome hash_bytes w w2 p e h o.
Proof.
  intros Hp Hu. destruct o as [a|c]; cbn.
  - intros [(H3 & H4 & H5) Ha]. split; [|done]. rewrite (view_hash_unchanged _ _ _ Hp Hu) in H3.
    split_and!; [done..|]. intros q Hq Hne. by rewrite H5, Hu.
  - unfold true_conflict. rewrite (view_hash_unchanged _ _ _ Hp Hu). intros (H3 & Hc). split; [|done]. by eapply unchanged_trans.
Qed.

(** What an attempt to upload [entry] may do and say. *)
Definition honest (entry : SaveQueueEntry) (w : W) (r : result bytes SaveAttempt) (w' : W) : Prop :=
  let p := se_relative_path entry in
  remote_inv w' /\ cas_step w w' p (se_expected_hash entry) (se_local_hash entry) /\
  match r with
  | Ok (AttemptApplied path h _) => path = p /\ h = se_local_hash entry /\ view_hash w' p = Some h
  | Ok (AttemptConflict path _ actual _ _ _ _) =>
      path = p /\ unchanged w w' /\ actual = view_hash w p /\ actual <> se_expected_hash entry /\
      actual <> Some (se_local_hash entry)
  | Ok (AttemptQueued path _ _) => path = p
  | Err _ => True
  end.

(** A step that only involves the mirror. *)
Lemma side_bind_run {A B} (c : Side W A) (k : A -> Side W B) s :
  (c ≫= k) s = match c s with (Ok a, s') => k a s' | (Err e, s') => (Err e, s') end.
Proof. done. Qed.
Lemma on_mirror_run {A} (c : Mir A) (m : mirror) (w : W) :
  on_mirror c (m, w) = (fst (c m), (snd (c m), w)).
Proof. unfold on_mirror. by destruct (c m). Qed.

Lemma honest_queued entry reason rf w0 m w r m' w' :
  remote_inv w -> cas_step w0 w (se_relative_path entry) (se_expected_hash entry) (se_local_hash entry) ->
  queued_again entry reason rf (m, w) = (r, (m', w')) -> honest entry w0 r w'.
Proof.
  intros Hi Hc. unfold queued_again. rewrite side_bind_run, on_mirror_run.
  destruct (fst _); intros [= <- _ <-]; by split_and!.
Qed.

Lemma honest_outcome entry o w0 m w r m' w' :
  remote_inv w -> tracked (se_relative_path entry) ->
  true_outcome hash_bytes w0 w (se_relative_path entry) (se_expected_hash entry) (se_local_hash entry) o ->
  record_save_outcome utf8_error_text root entry o (m, w) = (r, (m', w')) -> honest entry w0 r w'.
Proof.
  intros Hi Hp Ho. destruct o as [a|c]; cbn [record_save_outcome].
  - destruct Ho as (Hs & Hpa & Hh). rewrite side_bind_run, on_mirror_run.
    assert (Hc : cas_step w0 w (se_relative_path entry) (se_expected_hash entry) (se_local_hash entry)) by by right.
    destruct (fst _); intros [= <- _ <-]; [|by split_and!]. split_and!; [done..|]. rewrite Hh. apply Hs.
  - destruct Ho as (Hu & Hpc & Ha & Hne).
    assert (Hc : cas_step w0 w (se_relative_path entry) (se_expected_hash entry) (se_local_hash entry)) by by left.
    case_bool_decide as Hl.
    + rewrite side_bind_run.
      assert (Hsize : exists x m1, (match sc_remote_size c with
                | Some size => mret size
                | None => r ← on_mirror (catch (metadata_len (se_snapshot_path entry)));
                          mret (match r with Ok n => n | Err _ => 0 end)
                end : Side W Z) (m, w) = (Ok x, (m1, w))).
      { destruct (sc_remote_size c); [by eexists _, m|]. rewrite side_bind_run, on_mirror_run. unfold catch.
        destruct (metadata_len _ m) as [r1 m1]. cbn. by eexists _, m1. }
      destruct Hsize as (x & m1 & ->). rewrite side_bind_run, on_mirror_run.
      destruct (fst (now_ms m1)); [|intros [= <- _ <-]; by split_and!].
      rewrite side_bind_run, on_mirror_run.
      destruct (fst _); intros [= <- _ <-]; [|by split_and!]. split_and!; [done..|].
      rewrite (view_hash_unchanged w0 w) by done. congruence.
    + rewrite side_bind_run, on_mirror_run.
      destruct (fst _); intros [= <- _ <-]; [|by split_and!]. split_and!; [done..| |]; congruence.
Qed.

Lemma on_agent_run (q : Request) (m : mirror) (w : W) :
  on_agent q (m, w) = (fst (request q w), (m, snd (request q w))).
Proof. unfold on_agent. by destruct (request q w). Qed.
Lemma catch_agent_run (q : Request) (m : mirror) (w : W) :
  side_catch (on_agent q) (m, w) = (Ok (fst (request q w)), (m, snd (request q w))).
Proof. unfold side_catch. by rewrite on_agent_run. Qed.

Lemma honest_small entry content m w r m' w' :
  remote_inv w -> tracked (se_relative_path entry) -> hash_bytes content = se_local_hash entry ->
  apply_small_save_entry utf8_error_text root entry content (m, w) = (r, (m', w')) -> honest entry w r w'.
Proof.
  intros Hi Hp Hh. unfold apply_small_save_entry. rewrite side_bind_run, catch_agent_run.
  destruct (request _ w) as [q w1] eqn:Eq. cbn [fst snd].
  apply law_write in Eq as (Hi1 & Hc & Hq); [|done..]. rewrite Hh in *.
  destruct q as [[]|e]; try done; [|by apply honest_queued]. by apply honest_outcome.
Qed.

(** An upload in chunks leaves the files alone and its declaration as it was, or drops it. *)
Lemma upload_loop_run entry id decl fuel : forall offset rest m w r m' w',
  remote_inv w -> (declared w id = decl \/ declared w id = None) ->
  upload_loop fuel entry id offset rest (m, w) = (r, (m', w')) ->
  remote_inv w' /\ unchanged w w' /\ (declared w' id = decl \/ declared w' id = None).
Proof.
  induction fuel as [|fuel IH]; intros offset rest m w r m' w' Hi Hd; cbn [upload_loop]; [by intros [= <- <- <-]|].
  rewrite side_bind_run, on_mirror_run. destruct (fst _) as [[|b chunk]|e]; [by intros [= <- <- <-]| |by intros [= <- <- <-]].
  rewrite side_bind_run, on_agent_run. destruct (request _ w) as [q w1] eqn:Eq. cbn [fst snd].
  apply law_chunk in Eq as (Hi1 & Hu & Hd1); [|done].
  assert (Hd2 : declared w1 id = decl \/ declared w1 id = None) by (destruct Hd, Hd1; (left; congruence) || (right; congruence)).
  destruct q as [q|e]; [|by intros [= <- <- <-]]. destruct q; try (by intros [= <- <- <-]).
  destruct (_ =? _); [|by intros [= <- <- <-]]. intros E. apply IH in E as (? & ? & ?); [|done..].
  split_and!; [done| |done]. by eapply unchanged_trans.
Qed.

Lemma honest_chunked entry size m w r m' w' :
  remote_inv w -> tracked (se_relative_path entry) ->
  apply_chunked_save_entry utf8_error_text root entry size (m, w) = (r, (m', w')) -> honest entry w r w'.
Proof.
  intros Hi Hp. unfold apply_chunked_save_entry. rewrite side_bind_run, catch_agent_run.
  destruct (request _ w) as [q w1] eqn:Eq. cbn [fst snd]. apply law_begin in Eq as (Hi1 & Hu1 & Hq); [|done..].
  destruct q as [[]|e]; try done; [|by apply honest_queued; [|left]].
  destruct outcome as [started|c]; [|by apply honest_outcome].
  rewrite side_bind_run. unfold side_catch at 1, upload_snapshot_chunks. rewrite side_bind_run, on_mirror_run.
  assert (Hup : exists r2 m2 w2, (match fst (read_file (se_snapshot_path entry) m) with
      | Ok content => upload_loop (S (length content)) entry (ws_upload_id started) 0 content
                        (snd (read_file (se_snapshot_path entry) m), w1)
      | Err e => (Err e, (snd (read_file (se_snapshot_path entry) m), w1)) end) = (r2, (m2, w2)) /\
      remote_inv w2 /\ unchanged w1 w2 /\ (declared w2 (ws_upload_id started) =
        Some (se_relative_path entry, se_expected_hash entry, se_local_hash entry) \/ declared w2 (ws_upload_id started) = None)).
  { destruct (fst (read_file _ m)) as [content|e]; [|eexists _, _, w1; split; [done|]; split_and!; auto; done].
    destruct (upload_loop _ _ _ _ _ _) as [r2 [m2 w2]] eqn:El. exists r2, m2, w2. split; [done|].
    eapply upload_loop_run; [exact Hi1 | by left | exact El]. }
  destruct Hup as (r2 & m2 & w2 & -> & Hi2 & Hu2 & Hd2).
  assert (Hu : unchanged w w2) by (by eapply unchanged_trans).
  destruct r2 as [u|e].
  - rewrite side_bind_run, catch_agent_run. destruct (request _ w2) as [q w3] eqn:Ef. cbn [fst snd].
    apply law_finish in Ef as (Hi3 & Hf); [|done].
    destruct Hd2 as [Hd2|Hd2]; rewrite Hd2 in Hf.
    + destruct Hf as [Hc Ho]. destruct q as [[]|e]; try done; [|apply honest_queued; [done|]; by eapply cas_unchanged_l].
      apply honest_outcome; [done..|]. by eapply true_outcome_unchanged_l.
    + destruct Hf as [Hc Ho]. destruct q as [q|e]; [done|]. apply honest_queued; [done|]. left. by eapply unchanged_trans.
  - rewrite side_bind_run, catch_agent_run. destruct (request _ w2) as [q w3] eqn:Ea. cbn [fst snd].
    apply law_abort in Ea as (Hi3 & Hu3); [|done]. apply honest_queued; [done|]. left. by eapply unchanged_trans.
Qed.

(** Against any remote that obeys the laws, an attempt to upload a queued save does and says
    only what it may, whatever fails on either side. *)
Theorem attempt_honest entry m w r m' w' :
  remote_inv w -> tracked (se_relative_path entry) ->
  apply_save_entry hash_bytes utf8_error_text root entry (m, w) = (r, (m', w')) ->
  honest entry w r w'.
Proof.
  intros Hi Hp. unfold apply_save_entry. rewrite side_bind_run, on_mirror_run.
  assert (Hq : forall m1 reason rf r m' w', queued_again entry reason rf (m1, w) = (r, (m', w')) -> honest entry w r w')
    by (intros *; apply honest_queued; [done | by left]).
  destruct (catch _ m) as [r1 m1] eqn:E1. unfold catch in E1. destruct (metadata_len _ m) as [n m1']. injection E1 as <- <-.
  cbn [fst snd]. destruct n as [n|e]; [|apply Hq]. rewrite side_bind_run, on_mirror_run.
  destruct (catch _ m1') as [r2 m2] eqn:E2. unfold catch in E2. destruct (hash_file _ _ m1') as [h m2'] eqn:Eh. injection E2 as <- <-.
  cbn [fst snd]. destruct h as [h|e]; [|apply Hq]. destruct (bytes_eqb h _) eqn:Ehash; cbn [negb]; [|apply Hq].
  apply bytes_eqb_true in Ehash. destruct (save_should_use_chunked_upload n); [by apply honest_chunked|].
  rewrite side_bind_run, on_mirror_run. destruct (catch _ m2') as [r3 m3] eqn:E3. unfold catch in E3.
  destruct (read_file _ m2') as [c m3'] eqn:Er. injection E3 as <- <-. cbn [fst snd]. destruct c as [c|e]; [|apply Hq].
  apply honest_small; [done..|]. rewrite <- Ehash.
  apply Mir_bind_Ok in Eh as (bs & m4 & (Hb & Hs)%read_file_Ok & [= <- ->]).
  apply read_file_Ok in Er as [Hc _]. destruct Hs as (_ & _ & Hs). rewrite Hs in Hc. by simplify_eq.
Qed.
End Attempts.
