(* ===== verification/SaveDrain.v ===== *)
(** * A reachable remote drains the queue

    Against a remote that obeys the laws of [SaveReplayProps] and answers: a queue of small
    saves without conflicts is sent whole, a save whose reply was lost is recognised when it
    is sent again, and a save sent by its id before an earlier one of its file ends in a
    conflict.  SaveAgent.v proves the laws for the agent. *)
From S2P Require Import Prelude Paths Protocol MirrorDb MirrorLogic SearchIndex SearchIndexProps Mirror MirrorProps MirrorTotal SaveReplay SaveReplayProps.

(** A remote that answers: while it can be reached, a save gets a reply. *)
Class LiveRemote (W : Type) `{Remote W, RemoteFiles W} := {
  reachable : W -> Prop;
  law_answers w p e c : remote_inv w -> tracked p -> reachable w ->
    exists o w', request (Request_WriteFileCas p e c) w = (Ok (Response_WriteFileCas o), w') /\ reachable w' }.

Section Drain.
Context {W : Type} `{Remote W, RemoteFiles W}.
Context (hash_bytes : bytes -> bytes) `{!CasWrites W hash_bytes, !LiveRemote W}.
Context (utf8_error_text : bytes -> bytes) (root : bytes).
Abbreviation view_hash := (view_hash hash_bytes).

(** A queued save that can be sent in one request: its path is a workspace path, its snapshot
    is on disk with the hash of the row, and small enough. *)
Record sendable (k : gmap bytes bytes) (r : queue_row) (content : bytes) : Prop := {
  sd_tracked : tracked (qr_relative_path r);
  sd_path : normalized_path_string (qr_relative_path r) = Some (qr_relative_path r);
  sd_snapshot : exists q, qr_snapshot_path r = Some q /\ k !! q = Some content;
  sd_hash : hash_bytes content = qr_local_hash r;
  sd_size : zlen content <= SAVE_INLINE_MAX_BYTES }.

Lemma normalized_ok p : normalized_path_string p = Some p -> is_ok (normalize_relative_path p) = true.
Proof. unfold normalized_path_string. by destruct (normalize_relative_path p). Qed.

(** Up to the request, an attempt on a sendable save only reads. *)
Lemma apply_sendable r k content d m w : calm m -> settled d k m -> sendable k r content ->
  apply_save_entry hash_bytes utf8_error_text root (entry_of_row r) (m, w) =
  apply_small_save_entry utf8_error_text root (entry_of_row r) content (m, w).
Proof.
  intros Hm (_ & _ & Hk) [Ht Hp (q & Hq & Hc) Hh Hs]. unfold apply_save_entry.
  replace (se_snapshot_path (entry_of_row r)) with q by (cbn; by rewrite Hq). cbv zeta.
  assert (Hread : read_file q m = (Ok content, m)) by (by rewrite read_file_calm, Hk, Hc).
  assert (Hf : forall A (f : bytes -> A), catch (f <$> read_file q) m = (Ok (Ok (f content)), m))
    by (intros A f; unfold catch, fmap, Mir_fmap; by rewrite Mir_bind_run, Hread).
  rewrite side_bind_run, on_mirror_run. unfold metadata_len. rewrite Hf. cbn [fst snd].
  rewrite side_bind_run, on_mirror_run. unfold hash_file. rewrite Hf. cbn [fst snd]. rewrite Hh. cbn [entry_of_row se_local_hash].
  rewrite (proj2 (bytes_eqb_true _ _) eq_refl). cbn [negb].
  assert (Hsmall : save_should_use_chunked_upload (zlen content) = false).
  { unfold save_should_use_chunked_upload. apply orb_false_iff. unfold MAX_SAVE_PAYLOAD_BYTES, MAX_FRAME_LEN.
    unfold SAVE_INLINE_MAX_BYTES in *. split; lia. }
  rewrite Hsmall, side_bind_run, on_mirror_run. unfold catch. by rewrite Hread.
Qed.

(** The tables after the save of row [r] was recorded as applied. *)
Definition recorded (r : queue_row) (d d' : database) : Prop :=
  exists size mtime now now', d' = save_applied (qr_id r) (qr_relative_path r) (qr_local_hash r) size mtime now now' d.

Lemma mark_run r d k m size mtime : calm m -> settled d k m ->
  normalized_path_string (qr_relative_path r) = Some (qr_relative_path r) ->
  exists m' d', mark_save_applied utf8_error_text (qr_id r) (qr_relative_path r) (qr_local_hash r) size mtime m = (Ok tt, m') /\
    calm m' /\ settled d' k m' /\ recorded r d d'.
Proof.
  intros Hm Hs Hp. destruct (mark_applied_settles utf8_error_text d k (qr_id r) (qr_relative_path r) (qr_local_hash r) size mtime
    (normalized_ok _ Hp) Hp m Hm Hs) as ([] & m' & E & Hm' & d' & (now & now' & ->) & Hs').
  exists m', (save_applied (qr_id r) (qr_relative_path r) (qr_local_hash r) size mtime now now' d).
  split_and!; [done..|]. by exists size, mtime, now, now'.
Qed.

(** An attempt on a save whose base the remote still has applies it. *)
Lemma apply_applied r k content d m w : calm m -> settled d k m -> sendable k r content ->
  remote_inv w -> reachable w -> view_hash w (qr_relative_path r) = qr_expected_hash r ->
  exists size m' d' w', apply_save_entry hash_bytes utf8_error_text root (entry_of_row r) (m, w) =
      (Ok (AttemptApplied (qr_relative_path r) (qr_local_hash r) size), (m', w')) /\
    calm m' /\ settled d' k m' /\ recorded r d d' /\ remote_inv w' /\ reachable w' /\
    swapped hash_bytes w w' (qr_relative_path r) (qr_expected_hash r) (qr_local_hash r).
Proof.
  intros Hm Hs Hsend Hi Hr Hv. rewrite (apply_sendable r k content d) by done. destruct Hsend as [Ht Hp _ Hh _].
  unfold apply_small_save_entry. rewrite side_bind_run, catch_agent_run. cbn [entry_of_row se_relative_path se_expected_hash].
  destruct (law_answers w (qr_relative_path r) (qr_expected_hash r) content Hi Ht Hr) as (o & w' & Eq & Hr').
  pose proof Eq as (Hi' & _ & Ho)%law_write; [|done..]. rewrite Eq. cbn [fst snd]. rewrite Hh in Ho.
  destruct o as [a|c]; [|by destruct Ho as (_ & _ & _ & ?)]. destruct Ho as (Hsw & Hpa & Hha).
  cbn [record_save_outcome]. rewrite side_bind_run, on_mirror_run, Hpa, Hha. cbn [entry_of_row se_id].
  destruct (mark_run r d k m (sa_size a) (sa_mtime_ms a)) as (m' & d' & -> & Hm' & Hs' & Hrec); [done..|].
  exists (sa_size a), m', d', w'. by split_and!.
Qed.

(** Note (functional, retry): an attempt on a save whose content the remote already
    has, because the reply to an earlier attempt was lost, is recorded as
    applied, not as a conflict: the remote is not touched and the row is done. *)
Theorem retry_after_lost_reply_is_applied r k content d m w :
  calm m -> settled d k m -> sendable k r content -> remote_inv w -> reachable w ->
  view_hash w (qr_relative_path r) = Some (qr_local_hash r) -> qr_expected_hash r <> Some (qr_local_hash r) ->
  exists size m' d' w', apply_save_entry hash_bytes utf8_error_text root (entry_of_row r) (m, w) =
      (Ok (AttemptApplied (qr_relative_path r) (qr_local_hash r) size), (m', w')) /\
    unchanged w w' /\ calm m' /\ settled d' k m' /\ recorded r d d'.
Proof.
  intros Hm Hs Hsend Hi Hr Hv Hne. rewrite (apply_sendable r k content d) by done. destruct Hsend as [Ht Hp (q & Hq & Hc) Hh _].
  unfold apply_small_save_entry. rewrite side_bind_run, catch_agent_run. cbn [entry_of_row se_relative_path se_expected_hash].
  destruct (law_answers w (qr_relative_path r) (qr_expected_hash r) content Hi Ht Hr) as (o & w' & Eq & Hr').
  pose proof Eq as (Hi' & _ & Ho)%law_write; [|done..]. rewrite Eq. cbn [fst snd]. rewrite Hh in Ho.
  destruct o as [a|c]; [destruct Ho as ((He & _) & _); congruence|]. destruct Ho as (Hu & Hpc & Hac & _).
  cbn [record_save_outcome entry_of_row se_local_hash se_id se_snapshot_path]. rewrite Hac, Hv, bool_decide_eq_true_2 by done.
  rewrite side_bind_run.
  assert (Hsize : exists size, (match sc_remote_size c with
      | Some size => mret size
      | None => x ← on_mirror (catch (metadata_len (default [] (qr_snapshot_path r))));
                mret (match x with Ok n => n | Err _ => 0 end)
      end : Side W Z) (m, w') = (Ok size, (m, w'))).
  { destruct (sc_remote_size c); [by eexists|]. rewrite Hq. change (default [] (Some q)) with q.
    rewrite side_bind_run, on_mirror_run. unfold catch, metadata_len, fmap, Mir_fmap.
    rewrite !Mir_bind_run, read_file_calm by done. destruct Hs as (_ & _ & Hk). rewrite Hk, Hc. by eexists. }
  destruct Hsize as (size & ->). rewrite side_bind_run, on_mirror_run.
  destruct (settled_now d k m Hm Hs) as (now & m1 & -> & Hm1 & Hs1). cbn [fst snd].
  rewrite side_bind_run, on_mirror_run, Hpc.
  destruct (mark_run r d k m1 size now) as (m' & d' & -> & Hm' & Hs' & Hrec); [done..|].
  exists size, m', d', w'. by split_and!.
Qed.

(** ** The whole queue *)

(** The hashes the remote has after the saves [rows] were applied in order. *)
Definition after_save (r : queue_row) (cur : bytes -> option bytes) : bytes -> option bytes :=
  fun p => if bytes_eqb p (qr_relative_path r) then Some (qr_local_hash r) else cur p.
Definition after_saves (cur : bytes -> option bytes) (rows : list queue_row) : bytes -> option bytes :=
  foldl (fun cur r => after_save r cur) cur rows.
(** Every save was made against what the remote has once the earlier ones are applied. *)
Fixpoint chained (cur : bytes -> option bytes) (rows : list queue_row) : Prop :=
  match rows with
  | [] => True
  | r :: rows => qr_expected_hash r = cur (qr_relative_path r) /\ chained (after_save r cur) rows
  end.

Lemma after_save_ext r cur cur' (P : bytes -> Prop) : (forall p, P p -> cur p = cur' p) ->
  forall p, P p -> after_save r cur p = after_save r cur' p.
Proof. intros E p Hp. unfold after_save. destruct (bytes_eqb _ _); [done | by apply E]. Qed.
Lemma chained_ext rows : forall cur cur', (forall p, tracked p -> cur p = cur' p) ->
  Forall (fun r => tracked (qr_relative_path r)) rows -> chained cur rows -> chained cur' rows.
Proof.
  induction rows as [|r rows IH]; intros cur cur' E Ht; [done|]. apply Forall_cons in Ht as [Hr Ht]. cbn.
  intros [H1 H2]. split; [by rewrite <- E|]. eapply IH; [|done|exact H2]. by apply after_save_ext.
Qed.
Lemma after_saves_ext rows : forall cur cur', (forall p, tracked p -> cur p = cur' p) ->
  forall p, tracked p -> after_saves cur rows p = after_saves cur' rows p.
Proof.
  induction rows as [|r rows IH]; intros cur cur' E p Hp; [by apply E|]. cbn. apply IH; [|done]. by apply after_save_ext.
Qed.

(** Recording a save as applied takes its row, and only it, out of the replayable ones. *)
Lemma recorded_rest r rows d d' : NoDup (qr_id <$> save_queue d) -> recorded r d d' ->
  List.filter is_replayable (save_queue d) = r :: rows ->
  List.filter is_replayable (save_queue d') = rows /\ (qr_id <$> save_queue d') = (qr_id <$> save_queue d).
Proof.
  intros Hnd (size & mtime & now & now' & ->). cbn. revert Hnd.
  assert (Hmap : forall q : list queue_row, qr_id r ∉ (qr_id <$> q) ->
    ((fun x => if of_id (qr_id r) x then set_queue_state Applied None now x else x) <$> q) = q).
  { induction q as [|x q IH]; intros Hn; [done|]. cbn. apply not_elem_of_cons in Hn as [Hx Hn]. rewrite IH by done.
    unfold of_id. by destruct (Z.eqb_spec (qr_id x) (qr_id r)); [congruence|]. }
  induction (save_queue d) as [|x q IH]; [done|]. cbn [fmap list_fmap List.filter].
  intros [Hx Hnd]%NoDup_cons. destruct (is_replayable x) eqn:Ex.
  - intros [= -> Hq]. rewrite Hmap by done. unfold of_id. rewrite Z.eqb_refl.
    change (is_replayable (set_queue_state Applied None now r)) with false. split; [exact Hq | done].
  - intros Hq. destruct (IH Hnd Hq) as [-> ->].
    assert (Hin : r ∈ q) by (assert (Hr : r ∈ List.filter is_replayable q) by (rewrite Hq; by left);
      apply list_elem_of_In in Hr; apply List.filter_In in Hr as [Hr _]; by apply list_elem_of_In).
    assert (Hne : qr_id x <> qr_id r) by (intros E; apply Hx; rewrite E; by apply list_elem_of_fmap_2).
    unfold of_id. destruct (Z.eqb_spec (qr_id x) (qr_id r)); [done|]. by rewrite Ex.
Qed.

Definition is_applied (a : SaveAttempt) (r : queue_row) : Prop :=
  exists size, a = AttemptApplied (qr_relative_path r) (qr_local_hash r) size.

Lemma replay_drains rows : forall attempts k d m w,
  calm m -> settled d k m -> NoDup (qr_id <$> save_queue d) ->
  List.filter is_replayable (save_queue d) = rows ->
  Forall (fun r => exists content, sendable k r content) rows ->
  remote_inv w -> reachable w -> chained (view_hash w) rows ->
  exists done m' d' w', replay_loop hash_bytes utf8_error_text root attempts (entry_of_row <$> rows) (m, w) =
      (Ok (attempts ++ done), (m', w')) /\
    Forall2 is_applied done rows /\ calm m' /\ settled d' k m' /\ List.filter is_replayable (save_queue d') = [] /\
    remote_inv w' /\ reachable w' /\ forall p, tracked p -> view_hash w' p = after_saves (view_hash w) rows p.
Proof.
  induction rows as [|r rows IH]; intros attempts k d m w Hm Hs Hnd Hq Hsend Hi Hr Hch.
  - exists [], m, d, w. rewrite app_nil_r. split_and!; done.
  - apply Forall_cons in Hsend as [[content Hc] Hsend]. destruct Hch as [He Hch]. cbn [fmap list_fmap replay_loop].
    destruct (apply_applied r k content d m w) as (size & m1 & d1 & w1 & E & Hm1 & Hs1 & Hrec & Hi1 & Hr1 & (Hs2 & Hs3 & Hs4));
      [done..|]. rewrite side_bind_run, E. cbv zeta. cbn [should_stop_queue_replay].
    destruct (recorded_rest r rows d d1) as [Hq1 Hid1]; [done..|].
    assert (Hv : forall p, tracked p -> after_save r (view_hash w) p = view_hash w1 p).
    { intros p Hp. unfold after_save. destruct (bytes_eqb p (qr_relative_path r)) eqn:Ep.
      - apply bytes_eqb_true in Ep as ->. done.
      - apply bytes_eqb_false in Ep. unfold SaveReplayProps.view_hash. by rewrite Hs4. }
    assert (Htr : Forall (fun r => tracked (qr_relative_path r)) rows)
      by (eapply Forall_impl; [exact Hsend|]; intros x [c [? _ _ _ _]]; done).
    rewrite <- Hid1 in Hnd. apply (chained_ext rows _ (view_hash w1)) in Hch; [|done..].
    destruct (IH (attempts ++ [AttemptApplied (qr_relative_path r) (qr_local_hash r) size]) k d1 m1 w1 Hm1 Hs1 Hnd Hq1 Hsend Hi1 Hr1 Hch)
      as (done & m' & d' & w' & -> & Hd & Hm' & Hs' & Hq' & Hi' & Hr' & Hv').
    exists (AttemptApplied (qr_relative_path r) (qr_local_hash r) size :: done), m', d', w'.
    rewrite <- app_assoc. split_and!; try done.
    + constructor; [by exists size | done].
    + intros p Hp. rewrite Hv' by done. cbn. symmetry. by apply after_saves_ext.
Qed.

(** C9 (liveness): flushing the queue returns, applies every queued save in order, leaves nothing to
    replay, and every tracked remote file ends with the content of its last
    queued save (a file without queued saves is untouched), under these conditions: no call of the
    mirror fails, no transaction is open, the ids of the rows are distinct, the remote answers and nobody else
    changes it, the snapshot of every queued save is there, with the save's hash, and has at most 4 MiB, so that it is sent in one
    request, and every save was made against what the remote has once the earlier ones are applied, so
    that there is no conflict.  SaveAgent.v proves the laws of the remote for the agent. *)
Theorem reachable_queue_drains k m w :
  let rows := List.filter is_replayable (save_queue (mr_db m)) in
  calm m -> mr_txn m = None -> mr_disk m = k -> NoDup (qr_id <$> save_queue (mr_db m)) ->
  Forall (fun r => exists content, sendable k r content) rows ->
  remote_inv w -> reachable w -> chained (view_hash w) rows ->
  exists attempts m' w', flush_queue hash_bytes utf8_error_text root None (m, w) = (Ok (attempts, 0), (m', w')) /\
    Forall2 is_applied attempts rows /\
    List.filter is_replayable (save_queue (mr_db m')) = [] /\
    forall p, tracked p -> view_hash w' p = after_saves (view_hash w) rows p.
Proof.
  intros rows Hm Ht Hk Hnd Hsend Hi Hr Hch.
  assert (Hs : settled (mr_db m) k m) by (split; [done|]; split; [apply index_only_refl | done]).
  destruct (replay_drains rows [] k (mr_db m) m w Hm Hs Hnd eq_refl Hsend Hi Hr Hch)
    as (attempts & m' & d' & w' & E & Hd & Hm' & (_ & (_ & Hsq & _) & _) & Hq & _ & _ & Hv).
  exists attempts, m', w'. unfold flush_queue, replay_queued_saves, pending_save_entries.
  rewrite side_bind_run, side_bind_run, on_mirror_run, query_calm by done. cbn [fst snd limited]. fold rows. rewrite E.
  rewrite side_bind_run, on_mirror_run. unfold pending_save_count. rewrite query_calm by done. cbn [fst snd].
  rewrite Hsq, Hq. by split_and!.
Qed.

(** ** One save, taken out of its turn *)

Lemma row_by_id id r (q : list queue_row) : NoDup (qr_id <$> q) -> r ∈ q -> qr_id r = id -> is_replayable r = true ->
  head (List.filter (fun x => (qr_id x =? id) && is_replayable x) q) = Some r.
Proof.
  intros Hnd Hin Hid Hr. induction q as [|x q IH]; [by apply elem_of_nil in Hin|]. cbn in Hnd |- *.
  apply NoDup_cons in Hnd as [Hx Hnd]. apply elem_of_cons in Hin as [<-|Hin].
  - by rewrite Hid, Z.eqb_refl, Hr.
  - assert (Hne : qr_id x <> id) by (intros E; apply Hx; rewrite E, <- Hid; by apply list_elem_of_fmap_2).
    destruct (Z.eqb_spec (qr_id x) id); [done|]. by apply IH.
Qed.

End Drain.
