(* ===== verification/SaveAgent.v ===== *)
(** * The agent behind the sidecar's interface

    The agent of AgentWrite.v, reached over a link that may lose requests and
    replies, is a remote the sidecar's theorems apply to: its saves, in one request or
    in chunks, obey the laws of [CasWrites] and [CasUploads], and it answers while nothing
    fails.  So an attempt to upload a queued save to the agent never overwrites a remote edit. *)
From S2P Require Import Prelude Paths Protocol MirrorDb MirrorLogic Mirror MirrorTotal SaveReplay SaveReplayProps SaveDrain.
From S2P Require Import AgentFs AgentWrite AgentWriteProps AgentUploads.

Inductive delivery := Delivered | LostRequest | LostReply.
#[export] Instance delivery_eq_dec : EqDecision delivery.
Proof. solve_decision. Defined.

(** The agent's table and files, and for each request to come how it is delivered and how many
    nanoseconds pass before it. *)
Record agent_link := { al_state : AgentState; al_fs : fs; al_link : list (delivery * Z) }.

Definition advance (dt : Z) (f : fs) : fs :=
  {| names := names f; inodes := inodes f; faults := faults f; clock := clock f + dt |}.
Definition next_delivery (w : agent_link) : delivery * Z * list (delivery * Z) :=
  match al_link w with
  | (d, dt) :: l => (d, dt, l)
  | [] => (Delivered, 0, [])
  end.

(** The names of temporary files. *)
Definition temp_name (t : bytes) : Prop :=
  (exists x n, t = tmp_path_of x n) \/ exists x id, t = with_extension x (B"nrm-upload-" ++ id).

Section AgentRemote.
Context (hash_bytes : bytes -> bytes) (agent_root : bytes) (host : WriteHost).
Context (agent_error_text : agent_error -> bytes).

Definition agent_request (q : Request) (w : agent_link) : result bytes Response * agent_link :=
  let '(d, dt, l) := next_delivery w in
  let f := advance dt (al_fs w) in
  match d with
  | LostRequest => (Err (B"agent connection closed"), {| al_state := al_state w; al_fs := f; al_link := l |})
  | _ =>
      match handle_write hash_bytes agent_root host (clock f) (al_state w) q f with
      | None => (Err (B"request is not a write"), {| al_state := al_state w; al_fs := f; al_link := l |})
      | Some (r, st, f) =>
          ((match d with LostReply => Err (B"agent connection closed") | _ => map_err agent_error_text r end),
           {| al_state := st; al_fs := f; al_link := l |})
      end
  end.
#[local] Instance agent_remote : Remote agent_link := agent_request.

(** Where a workspace path is on the agent's disk.  Nobody else writes, the links above a tracked
    path lead to the same directory all along, and targets are distinct, no temporary names and no lock files. *)
Context (abs : bytes -> bytes) (is_tracked : bytes -> Prop).
Record workspace : Prop := {
  ws_alone : alone host;
  ws_links f p x dir d : is_tracked p -> resolve_remote_path agent_root p = Ok x -> dir_of x = Some dir ->
    wh_canonicalize host f dir = Ok d -> path_in d (name_of x) = abs p;
  ws_distinct p q : is_tracked p -> is_tracked q -> abs p = abs q -> p = q;
  ws_temps p : is_tracked p -> ~ temp_name (abs p);
  ws_locks p key : is_tracked p -> abs p <> lock_path host key }.
Context (Hws : workspace).

Definition node_content (n : option node) : option bytes := match n with Some (NFile c) => Some c | _ => None end.
Abbreviation content_at f p := (node_content (node_at f (abs p))).

(** The uploads are of tracked paths, and each has a file of its own that only its temporary name leads to. *)
Record uploads_ok (st : AgentState) (f : fs) : Prop := {
  uo_path id u : uploads st !! id = Some u -> is_tracked (up_path u) /\ up_target_abs u = abs (up_path u);
  uo_temp id u : uploads st !! id = Some u -> temp_name (up_tmp_path u) /\ only_at (up_tmp_file u) (up_tmp_path u) f;
  uo_files id id' u u' : uploads st !! id = Some u -> uploads st !! id' = Some u' -> up_tmp_file u = up_tmp_file u' -> id = id' }.

#[local] Instance agent_files : RemoteFiles agent_link := {|
  view w p := content_at (al_fs w) p;
  tracked := is_tracked;
  remote_inv w := uploads_ok (al_state w) (al_fs w);
  declared w id := (fun u => (up_path u, up_expected_hash u, up_content_hash u)) <$> uploads (al_state w) !! id |}.

(** ** Files that stay *)

(** The tracked files have the same content, and the files of the uploads are where they were. *)
Definition undisturbed_files (f f' : fs) : Prop :=
  (forall q, is_tracked q -> content_at f' q = content_at f q) /\ forall i t, only_at i t f -> only_at i t f'.

Lemma undisturbed_trans f1 f2 f3 : undisturbed_files f1 f2 -> undisturbed_files f2 f3 -> undisturbed_files f1 f3.
Proof. intros [H1 H2] [H3 H4]. split; [intros q Hq; by rewrite H3, H1 | auto]. Qed.

Lemma hash_content n : hash_bytes <$> node_content n = node_hash hash_bytes n.
Proof. by destruct n as [[c| |]|]. Qed.

Lemma made_content q f f' : is_tracked q -> kept_or_made host (abs q) f f' -> content_at f' q = content_at f q.
Proof.
  intros Hq [->|[-> [->|[[key Hk] _]]]]; [done..|]. by destruct (ws_locks Hws q key Hq).
Qed.
Lemma grown_content q f f' : is_tracked q -> grown_from host (abs q) f f' -> content_at f' q = content_at f q.
Proof. intros Hq Hf. apply made_content; [done|]. by apply grown_node. Qed.
(** A program that keeps every tracked path. *)
Lemma kept_content {A} (m : M A) f q : is_tracked q -> (forall e d, keeps (holds (abs q) e d (clock f)) m) ->
  content_at (snd (m f)) q = content_at f q.
Proof. intros Hq Hm. apply grown_content; [done|]. by apply grown_later, grown_refl. Qed.

Lemma kept_mine {A} (m : M A) i t f : keeps (only_at i t) m -> only_at i t f -> only_at i t (snd (m f)).
Proof. intros Hm Hf. specialize (Hm f Hf). by destruct (m f) as [[] ?]. Qed.

Lemma uploads_ok_files st f f' : uploads_ok st f -> (forall i t, only_at i t f -> only_at i t f') -> uploads_ok st f'.
Proof. intros [H1 H2 H3] Hf. split; [done| |done]. intros id u Hu. destruct (H2 id u Hu). auto. Qed.
Lemma uploads_ok_sub st st' f : uploads_ok st f -> uploads st' ⊆ uploads st -> uploads_ok st' f.
Proof.
  intros [H1 H2 H3] Hs. assert (Hl : forall id u, uploads st' !! id = Some u -> uploads st !! id = Some u) by (intros id u Hu; by eapply lookup_weaken).
  split; [intros id u Hu; by apply (H1 id), Hl | intros id u Hu; by apply (H2 id), Hl|].
  intros id id' u u' Hu Hu'. by apply (H3 id id' u u'); apply Hl.
Qed.

Lemma open_target active p f a f1 : is_tracked p -> open_save hash_bytes agent_root host active p f = (Ok a, f1) -> a = abs p.
Proof.
  intros Hp. unfold open_save. intros (a' & f2 & Hprep & (? & ? & _ & (? & ? & _ & (? & ? & _ & [= -> _])%M_bind_Ok)%M_bind_Ok)%M_bind_Ok)%M_bind_Ok.
  unfold prepare_write_target in Hprep. apply M_bind_Ok in Hprep as (path & f3 & Hx & Hprep). injection Hx as Hx _.
  do 3 (apply M_bind_Ok in Hprep as (? & ? & _ & Hprep)). destruct (dir_of path) as [dir|] eqn:Ed; [|done].
  apply M_bind_Ok in Hprep as (? & ? & _ & Hprep). apply M_bind_Ok in Hprep as (d & f4 & Hd & Hprep).
  apply M_bind_Ok in Hprep as (? & ? & _ & [= <- _]).
  apply M_bind_Ok in Hd as (? & ? & _ & (f5 & ? & _ & [= Hd _])%M_bind_Ok). by eapply (ws_links Hws).
Qed.

Lemma open_undisturbed active p f r f1 : open_save hash_bytes agent_root host active p f = (r, f1) -> undisturbed_files f f1.
Proof.
  intros Ho. replace f1 with (snd (open_save hash_bytes agent_root host active p f)) by (by rewrite Ho). split.
  - intros q Hq. apply grown_content; [done|]. rewrite Ho. eapply open_save_grown; [|exact Ho]. by apply alone_leaves, Hws.
  - intros i t. apply kept_mine, keeps_mine_open, Hws.
Qed.
Lemma temp_not_target t q : temp_name t -> is_tracked q -> t <> abs q.
Proof. intros Ht Hq ->. by apply (ws_temps Hws q Hq). Qed.

(** A remote with these files, for the vocabulary of the laws. *)
Definition with_files (f : fs) : agent_link := {| al_state := new_agent; al_fs := f; al_link := [] |}.
Abbreviation same f f' := (unchanged (with_files f) (with_files f')).
Abbreviation step f f' p e h := (cas_step hash_bytes (with_files f) (with_files f') p e h).
Abbreviation true_reply f f' p e h o := (true_outcome hash_bytes (with_files f) (with_files f') p e h o).

(** What an answered save means for the remote, given the files [g] at its second look. *)
Lemma answered_step p e c f g f' r : is_tracked p ->
  content_at g p = content_at f p -> (forall q, is_tracked q -> q <> p -> content_at f' q = content_at f q) ->
  answered hash_bytes host e c (abs p) g f' r -> (forall o, r = Ok o -> outcome_path o = p) ->
  step f f' p e (hash_bytes c) /\ match r with Ok o => true_reply f f' p e (hash_bytes c) o | Err _ => True end.
Proof.
  intros Hp Hg Hq [Ha1 Ha2] Hpath. specialize (Ha2 ltac:(split_and!; apply alone_leaves, Hws)).
  assert (Hh : view_hash hash_bytes (with_files f) p = node_hash hash_bytes (node_at g (abs p))).
  { unfold view_hash. cbn. by rewrite <- Hg, hash_content. }
  assert (Hsame : node_at f' (abs p) = node_at g (abs p) -> same f f').
  { intros E q Hqt. cbn. destruct (decide (q = p)) as [->|Hne]; [by rewrite E, Hg | by apply Hq]. }
  assert (Hswap : node_hash hash_bytes (node_at g (abs p)) = e -> node_at f' (abs p) = Some (NFile c) ->
    swapped hash_bytes (with_files f) (with_files f') p e (hash_bytes c)).
  { intros He E. split_and!; [by rewrite Hh | unfold view_hash; cbn; by rewrite E | done]. }
  destruct r as [[a|cf]|err].
  - destruct Ha2 as (E & Hn & _). split; [right; by apply Hswap|]. split; [by apply Hswap|]. split; [by apply (Hpath _ eq_refl) | done].
  - destruct Ha1 as [Hne Hact]. split; [left; by apply Hsame|]. split_and!; [by apply Hsame | by apply (Hpath _ eq_refl) | by rewrite Hh | by rewrite Hh].
  - split; [|done]. destruct Ha2 as [E|[He E]]; [left; by apply Hsame | right; by apply Hswap].
Qed.

(** ** One-shot saves *)

Section OneShot.
Context (p : bytes) (e : option bytes) (c : bytes) (Hp : is_tracked p).

Lemma save_elsewhere f f1 q : is_tracked q -> q <> p -> undisturbed_files f f1 -> clock f1 = clock f ->
  content_at (snd (write_file_cas_prepared hash_bytes host p e c (abs p) f1)) q = content_at f q.
Proof.
  intros Hq Hne [Hc _] Ht. rewrite <- (Hc q Hq). apply kept_content; [done|]. intros en d. unfold write_file_cas_prepared.
  assert (Ha : left_alone host (abs q)) by apply alone_leaves, Hws.
  assert (Htmp : tmp_path_of (abs p) (clock f1) <> abs q) by (apply temp_not_target; [left; by eexists _, _ | done]).
  assert (Hpq : abs p <> abs q) by (intros E; by apply Hne, (ws_distinct Hws)).
  eapply spec_bind; [by apply (spec_stage_elsewhere hash_bytes host (abs q) en d (clock f1) Ha)|].
  intros [o|[tmp ino]]; [by apply spec_ret; intros ? []|]. apply (spec_pure _ (tmp = tmp_path_of (abs p) (clock f1))); [by intros ? []|].
  intros ->. eapply spec_weaken; [apply (keeps_swap hash_bytes host (abs q) en d (clock f1) Ha)|by intros ? []|done|done]; try done.
  unfold report_applied. kept.
Qed.

(** The effect of one handled save on the tracked files and the uploads. *)
Lemma cas_state_view st f r st' f' :
  write_file_cas_state hash_bytes agent_root host st p e c f = (r, st', f') ->
  st' = st /\ (forall i t, only_at i t f -> only_at i t f') /\ step f f' p e (hash_bytes c) /\
  match r with
  | Ok (Response_WriteFileCas o) => true_reply f f' p e (hash_bytes c) o
  | Ok _ => False
  | Err _ => True
  end.
Proof.
  unfold write_file_cas_state. destruct (open_save hash_bytes agent_root host (active_write_targets st) p f) as [[a|err] f1] eqn:Eo; cycle 1.
  { unfold mbind, M_bind. rewrite Eo. intros [= <- <- <-]. apply open_undisturbed in Eo as [H1 H2]. split_and!; [done..| |done]. by left. }
  pose proof (open_target _ _ _ _ _ Hp Eo) as ->. pose proof (open_undisturbed _ _ _ _ _ Eo) as Hu.
  assert (Ht : clock f1 = clock f).
  { pose proof (keeps_time_open hash_bytes agent_root host (clock f) (active_write_targets st) p f eq_refl) as H. by rewrite Eo in H. }
  destruct (write_file_cas_prepared hash_bytes host p e c (abs p) f1) as [o f2] eqn:Ew.
  assert (Hrun : (abs ← open_save hash_bytes agent_root host (active_write_targets st) p;
      Response_WriteFileCas <$> write_file_cas_prepared hash_bytes host p e c abs) f = (Response_WriteFileCas <$> o, f2)).
  { unfold mbind at 1, M_bind at 1. rewrite Eo. unfold fmap at 1, M_fmap, mbind, M_bind. rewrite Ew. by destruct o. }
  rewrite Hrun. intros [= <- <- <-]. split; [done|]. split.
  { intros i t Hi%Hu. replace f2 with (snd (write_file_cas_prepared hash_bytes host p e c (abs p) f1)) by (by rewrite Ew).
    apply kept_mine; [|done]. apply keeps_mine_prepared, Hws. }
  assert (Hne : tmp_path_of (abs p) (clock f) <> abs p) by (apply temp_not_target; [left; by eexists _, _ | done]).
  destruct (prepared_effect hash_bytes agent_root host _ p e c (abs p) f f1 o f2 Eo Hne (alone_spares _ _ (ws_alone Hws)) Ew) as [He Hpath].
  assert (Hq : forall q, is_tracked q -> q <> p -> content_at f2 q = content_at f q).
  { intros q Hq Hqp. rewrite <- (save_elsewhere f f1 q Hq Hqp Hu Ht). by rewrite Ew. }
  assert (Hleft : left_alone host (abs p)) by apply alone_leaves, Hws.
  assert (Hend : match o with
      | Ok (SaveOutcome_Applied _) => False
      | Ok (SaveOutcome_Conflict cf) => sc_actual_hash cf <> e /\ (left_alone host (abs p) -> sc_actual_hash cf = node_hash hash_bytes (node_at f1 (abs p)))
      | Err _ => True end /\ (left_alone host (abs p) -> kept_or_made host (abs p) f f2) ->
    step f f2 p e (hash_bytes c) /\ match o with Ok o => true_reply f f2 p e (hash_bytes c) o | Err _ => True end).
  { intros [Ho Hk]. assert (Hs : same f f2).
    { intros q Hqt. cbn. destruct (decide (q = p)) as [->|Hqp]; [by apply made_content, Hk | by apply Hq]. }
    split; [by left|]. destruct o as [[a|cf]|err]; try done. destruct Ho as [Hce Hca]. specialize (Hca Hleft).
    assert (Hv : view_hash hash_bytes (with_files f) p = sc_actual_hash cf).
    { unfold view_hash. cbn. rewrite <- (proj1 Hu p Hp), hash_content. done. }
    split_and!; [done | by apply (Hpath _ eq_refl) | done | by rewrite Hv]. }
  unfold save_effect in He. destruct (stage_save _ _ _ _ _ _ f1) as [[[?|?]|?] g].
  2:{ destruct He as [Hg Ha]. destruct (answered_step p e c f g f2 o) as [H1 H2]; [done | by apply made_content, Hg | done..|].
      split; [done|]. by destruct o. }
  all: destruct (Hend He) as [H1 H2]; split; [done|]; by destruct o.
Qed.
End OneShot.

Lemma advance_ok dt st f : uploads_ok st f -> uploads_ok st (advance dt f).
Proof. intros Hi. by eapply uploads_ok_files; [exact Hi|]. Qed.

#[local] Instance agent_cas_writes : CasWrites agent_link hash_bytes.
Proof.
  split. intros w p e c r w' Hi Hp Hq. unfold request, agent_remote, agent_request in Hq.
  destruct (next_delivery w) as [[d dt] l]. cbn [handle_write] in Hq.
  destruct (write_file_cas_state hash_bytes agent_root host (al_state w) p e c (advance dt (al_fs w))) as [[r0 st] f] eqn:Es.
  destruct (cas_state_view p e c Hp _ _ _ _ _ Es) as (-> & Hm & Hc & Ho).
  assert (Hi' : uploads_ok (al_state w) f) by (apply (uploads_ok_files _ (advance dt (al_fs w))); [by apply advance_ok | exact Hm]).
  destruct d; injection Hq as <- <-; [|split; [by apply advance_ok|]; split; [left; by intros q _ | done]|split; [exact Hi'|]; by split].
  split; [exact Hi'|]. split; [exact Hc|]. by destruct r0.
Qed.

(** ** Uploads *)

Lemma upload_unlink q e d now st id u f : uploads_ok st f -> uploads st !! id = Some u -> is_tracked q ->
  keeps (holds (abs q) e d now) (remove_temp_file (up_tmp_path u)).
Proof. intros Hi Hu Hq. apply keeps_unlink. apply temp_not_target; [by eapply uo_temp | done]. Qed.

Lemma dropped_sub id st : uploads (dropped id st) ⊆ uploads st.
Proof. unfold dropped. destruct (uploads st !! id); [apply delete_subseteq | done]. Qed.

Lemma drop_undisturbed id st f st' f' : uploads_ok st f -> drop_upload id st f = (Ok st', f') ->
  st' = dropped id st /\ undisturbed_files f f' /\ clock f' = clock f.
Proof.
  intros Hi Hd. pose proof (drop_upload_run id st f) as Hr. rewrite Hd in Hr. injection Hr as ->. split; [done|].
  assert (Hk : forall q e d, is_tracked q -> keeps (holds (abs q) e d (clock f)) (drop_upload id st)).
  { intros q e d Hq. unfold drop_upload. destruct (uploads st !! id) as [u|] eqn:Hu; [|kept].
    pose proof (upload_unlink q e d (clock f) st id u f Hi Hu Hq). kept. }
  assert (Hm : forall i t, keeps (only_at i t) (drop_upload id st)).
  { intros i t. unfold drop_upload, remove_temp_file. pose proof (keeps_mine_unlink i t). destruct (uploads st !! id) as [u|]; kept. }
  assert (Ht : keeps (at_time (clock f)) (drop_upload id st)).
  { unfold drop_upload, remove_temp_file, unlink. destruct (uploads st !! id); kept. }
  replace f' with (snd (drop_upload id st f)) by (by rewrite Hd). split; [split|].
  - intros q Hq. apply kept_content; [done|]. intros e d. by apply Hk.
  - intros i t. by apply kept_mine.
  - specialize (Ht f eq_refl). by rewrite Hd in Ht |- *.
Qed.

Lemma drops_undisturbed ids : forall st f, uploads_ok st f -> exists st' f', drop_uploads ids st f = (Ok st', f') /\
  uploads st' ⊆ uploads st /\ undisturbed_files f f' /\ clock f' = clock f.
Proof.
  induction ids as [|id ids IH]; intros st f Hi; cbn [drop_uploads]; [exists st, f; split_and!; try done; by split|].
  unfold mbind, M_bind. destruct (drop_upload id st f) as [[st1|?] f1] eqn:Ed;
    [|pose proof (drop_upload_run id st f) as Hr; by rewrite Ed in Hr].
  destruct (drop_undisturbed id st f st1 f1 Hi Ed) as (-> & Hu & Ht).
  destruct (IH (dropped id st) f1) as (st' & f' & E & Hs & Hu' & Ht').
  { eapply uploads_ok_sub; [|apply dropped_sub]. eapply uploads_ok_files; [exact Hi | apply Hu]. }
  exists st', f'. split; [exact E|]. split; [etransitivity; [exact Hs | apply dropped_sub]|].
  split; [by eapply undisturbed_trans | congruence].
Qed.

Lemma cleanup_undisturbed now st f st1 f1 : uploads_ok st f -> cleanup now st f = (st1, f1) ->
  uploads st1 ⊆ uploads st /\ undisturbed_files f f1 /\ clock f1 = clock f /\ uploads_ok st1 f1.
Proof.
  intros Hi. unfold cleanup, cleanup_expired_uploads_at.
  destruct (drops_undisturbed (expired_uploads now st) st f Hi) as (st' & f' & -> & Hs & Hu & Ht). intros [= <- <-].
  split_and!; [done..|]. eapply uploads_ok_sub; [|exact Hs]. eapply uploads_ok_files; [exact Hi | apply Hu].
Qed.

(** A new upload, or the same one with more bytes. *)
Lemma uploads_ok_insert st active id u f : uploads_ok st f ->
  is_tracked (up_path u) /\ up_target_abs u = abs (up_path u) ->
  temp_name (up_tmp_path u) /\ only_at (up_tmp_file u) (up_tmp_path u) f ->
  (forall id' u', uploads st !! id' = Some u' -> up_tmp_file u' = up_tmp_file u -> id' = id) ->
  uploads_ok {| uploads := <[id := u]> (uploads st); active_write_targets := active |} f.
Proof.
  intros [H1 H2 H3] Hp Ht Hd. split; cbn.
  - intros id' u' [[<- <-]|[_ Hu']]%lookup_insert_Some; [done | exact (H1 id' u' Hu')].
  - intros id' u' [[<- <-]|[_ Hu']]%lookup_insert_Some; [done | exact (H2 id' u' Hu')].
  - intros id1 id2 u1 u2 [[<- <-]|[_ Hu1]]%lookup_insert_Some [[<- <-]|[_ Hu2]]%lookup_insert_Some E; [done|..];
      [symmetry; by apply (Hd id2 u2) | by apply (Hd id1 u1) | by apply (H3 id1 id2 u1 u2)].
Qed.

Section Begin.
Context (p : bytes) (e : option bytes) (Hp : is_tracked p).

Lemma begin_new : spec (fun _ => True) (begin_prepared hash_bytes host p e (abs p))
  (fun b f => match b with
   | BegunConflict c => sc_path c = p
   | BegunUpload _ tmp ino => temp_name tmp /\ only_at ino tmp f
   end) (fun _ => True).
Proof.
  unfold begin_prepared. do 3 (eapply spec_bind; [apply spec_any|]; intros ?). destruct (negb _).
  { eapply spec_bind; [apply spec_any|]. intros []. eapply (spec_fmap _ _ _ (fun c _ => sc_path c = p)); [|done].
    unfold save_conflict. eapply spec_bind; [apply spec_any|]. intros [[content truncated] size]. by apply spec_ret. }
  apply spec_get. intros f0 _. cbv zeta. do 2 (eapply spec_bind; [apply spec_any|]; intros ?).
  set (tmp := with_extension _ _). eapply (spec_bind _ _ _ (fun ino f => only_at ino tmp f)).
  - unfold create_temp_file, create_new. eapply spec_bind; [apply spec_any|]. intros []. apply spec_get. intros f _.
    destruct (names f !! tmp); [by apply spec_throw|]. intros f1 ->. cbn. split; cbn; [rewrite lookup_insert_eq; by eexists|].
    intros x [[<- _]|[_ Hx]]%lookup_insert_Some; [done|]. by destruct (fresh_unnamed f x).
  - intros ino. apply spec_ret. intros f Hf. split; [right; by eexists _, _ | done].
Qed.

(** The tracked files are left alone, and a conflict tells what is there. *)
Lemma begin_elsewhere q en d now : is_tracked q ->
  keeps (holds (abs q) en d now) (begin_prepared hash_bytes host p e (abs p)).
Proof.
  intros Hq. pose proof (keeps_others host (abs q) en d now (alone_leaves _ _ (ws_alone Hws))).
  assert (Hc : forall x id, keeps (holds (abs q) en d now) (create_temp_file (with_extension x (B"nrm-upload-" ++ id)))).
  { intros x id. eapply spec_weaken; [apply spec_create_elsewhere|done|by intros ? ? []|done].
    apply temp_not_target; [right; by eexists _, _ | done]. }
  unfold begin_prepared, open_write_parent, verify_write_parent_current. kept.
Qed.
Lemma begin_conflict f c f' : begin_prepared hash_bytes host p e (abs p) f = (Ok (BegunConflict c), f') ->
  sc_actual_hash c = node_hash hash_bytes (node_at f (abs p)) /\ sc_actual_hash c <> e.
Proof.
  intros Hr. assert (Hspec : spec (like f) (begin_prepared hash_bytes host p e (abs p))
    (fun b _ => forall c, b = BegunConflict c -> sc_actual_hash c = node_hash hash_bytes (node_at f (abs p)) /\ sc_actual_hash c <> e) (fun _ => True)).
  { assert (Hpause : forall k, keeps (like f) (pause host k)) by (intros k g Hg; unfold pause; by rewrite (ws_alone Hws)).
    unfold begin_prepared. do 2 (eapply spec_bind; [apply (keeps_spec (like f)); kept|]; intros []).
    eapply spec_bind; [eapply spec_weaken; [apply (spec_current_hash hash_bytes f (abs p))|done|done|done]|]. intros h. cbn beta.
    apply (spec_pure _ (h = node_hash hash_bytes (node_at f (abs p)))); [by intros g []|]. intros ->. case_bool_decide as He; cbn [negb].
    - apply spec_get. intros f0 _. cbv zeta. do 3 (eapply spec_bind; [apply spec_any|]; intros ?). by apply spec_ret.
    - eapply (spec_bind _ _ _ (fun _ => like f)); [eapply spec_weaken; [apply Hpause|by intros g []|done|done]|]. intros [].
      eapply spec_fmap; [eapply spec_weaken; [apply (spec_conflict f)|done|done|done]|].
      intros c0 g (_ & Ha & _) c1 [= <-]. by rewrite Ha. }
  exact (run_spec _ _ _ _ _ _ _ Hspec (like_refl f) Hr c eq_refl).
Qed.

Lemma begin_view now st h n f r st' f' : uploads_ok st f ->
  begin_write_file_cas hash_bytes agent_root host now st p e h n f = (r, st', f') ->
  uploads_ok st' f' /\ same f f' /\
  match r with
  | Ok (Response_BeginWriteFileCas (WriteStart_Started s)) =>
      exists u, uploads st' !! ws_upload_id s = Some u /\ up_path u = p /\ up_expected_hash u = e /\ up_content_hash u = h
  | Ok (Response_BeginWriteFileCas (WriteStart_Conflict c)) => true_conflict hash_bytes (with_files f) (with_files f') p e c
  | Ok _ => False
  | Err _ => True
  end.
Proof.
  intros Hi. unfold begin_write_file_cas. destruct (cleanup now st f) as [st1 f1] eqn:Ec.
  destruct (cleanup_undisturbed now st f st1 f1 Hi Ec) as (_ & Hu1 & _ & Hi1).
  destruct (enforce_upload_limits st1 n) as [[]|]; [|intros [= <- <- <-]; split_and!; try done; intros q Hq; by apply Hu1].
  destruct (open_save hash_bytes agent_root host (active_write_targets st1) p f1) as [o f2] eqn:Eo.
  pose proof (undisturbed_trans _ _ _ Hu1 (open_undisturbed _ _ _ _ _ Eo)) as Hu2.
  assert (Hi2 : uploads_ok st1 f2) by (eapply uploads_ok_files; [exact Hi1 | by eapply open_undisturbed]).
  destruct o as [a|err]; [|intros [= <- <- <-]; split_and!; try done; intros q Hq; by apply Hu2].
  pose proof (open_target _ _ _ _ _ Hp Eo) as ->.
  assert (Hv : forall q, is_tracked q -> content_at (snd (begin_prepared hash_bytes host p e (abs p) f2)) q = content_at f q).
  { intros q Hq. rewrite kept_content; [by apply Hu2 | done | intros; by apply begin_elsewhere]. }
  assert (Hm : forall i t, only_at i t f2 -> match begin_prepared hash_bytes host p e (abs p) f2 with
      | (Ok b, f3) => only_at i t f3 /\ match b with BegunUpload _ _ ino => ino <> i | BegunConflict _ => True end
      | (Err _, f3) => only_at i t f3 end).
  { intros i t Hit. apply (keeps_mine_begin hash_bytes host (ws_alone Hws) i t p e (abs p) f2 Hit). }
  pose proof (begin_new f2 I) as Hb.
  destruct (begin_prepared hash_bytes host p e (abs p) f2) as [[[c|id tmp ino]|err] f3] eqn:Eb; cbn [snd] in Hv.
  - destruct (begin_conflict f2 c f3 Eb) as [Ha Hne]. intros [= <- <- <-].
    assert (Hvh : view_hash hash_bytes (with_files f) p = sc_actual_hash c).
    { rewrite Ha, <- hash_content. unfold view_hash. cbn. by rewrite (proj1 Hu2 p Hp). }
    split_and!; [eapply uploads_ok_files; [exact Hi2 | intros i t Hit; by apply Hm] | done|]. by split_and!; [|done|rewrite Hvh..].
  - intros [= <- <- <-]. split_and!; [|done|].
    + apply uploads_ok_insert; [eapply uploads_ok_files; [exact Hi2 | intros i t Hit; by apply Hm] | done | done|].
      intros id' u' Hu' E. destruct (uo_temp _ _ Hi2 id' u' Hu') as [_ Ho]. destruct (Hm _ _ Ho) as [_ Hne]. cbn in E. congruence.
    + cbn. rewrite lookup_insert_eq. by eexists.
  - intros [= <- <- <-]. split_and!; [eapply uploads_ok_files; [exact Hi2 | intros i t Hit; by apply (Hm i t)] | done | done].
Qed.
End Begin.

Lemma chunk_view now st id o c f r st' f' : uploads_ok st f ->
  write_file_chunk now st id o c f = (r, st', f') ->
  uploads_ok st' f' /\ same f f' /\
  (forall u', uploads st' !! id = Some u' -> exists u, uploads st !! id = Some u /\
     up_path u' = up_path u /\ up_expected_hash u' = up_expected_hash u /\ up_content_hash u' = up_content_hash u).
Proof.
  intros Hi. unfold write_file_chunk. destruct (cleanup now st f) as [st1 f1] eqn:Ec.
  destruct (cleanup_undisturbed now st f st1 f1 Hi Ec) as (Hs & [Hv Hm] & Ht & Hi1).
  assert (Hsame : same f f1) by (intros q Hq; by apply Hv).
  assert (Hback : forall u', uploads st1 !! id = Some u' -> exists u, uploads st !! id = Some u /\
     up_path u' = up_path u /\ up_expected_hash u' = up_expected_hash u /\ up_content_hash u' = up_content_hash u).
  { intros u' Hu'. exists u'. split; [by eapply lookup_weaken | done]. }
  destruct (uploads st1 !! id) as [u|] eqn:Hu; [|intros [= _ <- <-]; split_and!; try done; by rewrite Hu].
  destruct (negb _); [intros [= _ <- <-]; split_and!; try done; by rewrite Hu|]. cbv zeta.
  destruct (_ >? _); [intros [= _ <- <-]; split_and!; try done; by rewrite Hu|].
  destruct (uo_temp _ _ Hi1 id u Hu) as [Htn Hot].
  assert (Hk : forall q e d, is_tracked q -> e <> Some (EFile (up_tmp_file u)) ->
    keeps (holds (abs q) e d (clock f1)) (syscall;; write_at (up_tmp_file u) (Z.to_nat o) c)) by (intros; kept).
  assert (Hk1 : forall q, is_tracked q -> content_at (snd ((syscall;; write_at (up_tmp_file u) (Z.to_nat o) c) f1)) q = content_at f1 q).
  { intros q Hq. set (m := _ ≫= _).
    assert (He : names f1 !! abs q <> Some (EFile (up_tmp_file u))).
    { intros E. apply Hot in E. by apply (temp_not_target (up_tmp_path u) q). }
    pose proof (Hk q _ (file_of (abs q) f1) Hq He f1 (holds_now (abs q) f1)) as H. fold m in H.
    assert (Hn : node_at (snd (m f1)) (abs q) = node_at f1 (abs q))
      by (destruct (m f1) as [[] ?]; by eapply holds_node; [exact H | apply holds_now]). by rewrite Hn. }
  assert (Hm1 : forall i t, only_at i t f1 -> only_at i t (snd ((syscall;; write_at (up_tmp_file u) (Z.to_nat o) c) f1))).
  { intros i t. apply kept_mine. pose proof (keeps_mine_write i t). kept. }
  destruct ((syscall;; _) f1) as [[[]|err] f2]; cbn [snd] in Hk1, Hm1; intros [= _ <- <-].
  - split_and!.
    + pose proof (uploads_ok_files _ _ _ Hi1 Hm1) as Hi2. apply uploads_ok_insert; [done | exact (uo_path _ _ Hi2 id u Hu) | exact (uo_temp _ _ Hi2 id u Hu)|].
      intros id' u' Hu' E. by apply (uo_files _ _ Hi2 id' id u' u).
    + intros q Hq. cbn. by rewrite Hk1, Hv.
    + cbn. rewrite lookup_insert_eq. intros u' [= <-]. exists u. split; [by eapply lookup_weaken | done].
  - split_and!; [by eapply uploads_ok_files | intros q Hq; cbn; by rewrite Hk1, Hv | by rewrite Hu].
Qed.

Lemma finish_view now st id f r st' f' : uploads_ok st f ->
  finish_write_file_cas hash_bytes host now st id f = (r, st', f') ->
  uploads_ok st' f' /\
  match uploads st !! id with
  | Some u => step f f' (up_path u) (up_expected_hash u) (up_content_hash u) /\
      match r with
      | Ok (Response_FinishWriteFileCas o) => true_reply f f' (up_path u) (up_expected_hash u) (up_content_hash u) o
      | Ok _ => False
      | Err _ => True
      end
  | None => same f f' /\ is_ok r = false
  end.
Proof.
  intros Hi. unfold finish_write_file_cas. destruct (cleanup now st f) as [st1 f1] eqn:Ec.
  destruct (cleanup_undisturbed now st f st1 f1 Hi Ec) as (Hs & Hu1 & _ & Hi1).
  assert (Hsame : same f f1) by (intros q Hq; by apply Hu1).
  destruct (uploads st1 !! id) as [u|] eqn:Hu.
  2:{ intros [= <- <- <-]. split; [done|]. destruct (uploads st !! id); [split; [by left | done] | done]. }
  rewrite (lookup_weaken _ _ _ _ Hu Hs).
  destruct (uo_path _ _ Hi1 id u Hu) as [Hp Habs]. destruct (uo_temp _ _ Hi1 id u Hu) as [Htn Hot].
  destruct (finish_prepared hash_bytes host u f1) as [o f2] eqn:Ef. intros [= <- <- <-]. split.
  { assert (Hd : uploads_ok {| uploads := delete id (uploads st1); active_write_targets := remove_keys (up_target_keys u) (active_write_targets st1) |} f1)
      by (eapply uploads_ok_sub; [exact Hi1 | apply delete_subseteq]).
    destruct Hd as [H1 H2 H3]. split; [done| |done]. intros id' u' Hu'. destruct (H2 id' u' Hu') as [H4 H5]. split; [done|].
    replace f2 with (snd (finish_prepared hash_bytes host u f1)) by (by rewrite Ef). apply kept_mine; [|done].
    apply keeps_mine_finish; [apply Hws|]. intros E. cbn in Hu'. apply lookup_delete_Some in Hu' as [Hne Hu'].
    by apply Hne, (uo_files _ _ Hi1 id id' u u'). }
  assert (Hne : up_tmp_path u <> up_target_abs u) by (rewrite Habs; by apply temp_not_target).
  destruct (finish_prepared_effect hash_bytes host u f1 o f2 Hne (alone_spares _ _ (ws_alone Hws)) (proj1 Hot) Ef) as [He Hpath].
  assert (Hq : forall q, is_tracked q -> q <> up_path u -> content_at f2 q = content_at f q).
  { intros q Hq Hqp. rewrite <- (proj1 Hu1 q Hq). replace f2 with (snd (finish_prepared hash_bytes host u f1)) by (by rewrite Ef).
    apply kept_content; [done|]. intros e d. apply keeps_finish; [by apply temp_not_target| |apply alone_leaves, Hws].
    rewrite Habs. intros E. by apply Hqp, (ws_distinct Hws). }
  assert (Hleft : left_alone host (abs (up_path u))) by apply alone_leaves, Hws.
  unfold finish_effect in He. rewrite Habs in He. destruct He as [[Herr Hn]|(Hw & Hh & g & Hg & Ha)].
  - destruct o; [done|]. split; [|done]. left. intros q Hqt. cbn. destruct (decide (q = up_path u)) as [->|Hqp]; [|by apply Hq].
    rewrite (Hn Hleft). by apply Hu1.
  - destruct (answered_step (up_path u) (up_expected_hash u) (file_data f1 (up_tmp_file u)) f g f2 o) as [H1 H2]; try done.
    { rewrite (Hg Hleft). by apply Hu1. }
    rewrite Hh in H1, H2. split; [done|]. by destruct o.
Qed.

Lemma abort_view now st id f r st' f' : uploads_ok st f ->
  abort_write_file_cas now st id f = (r, st', f') -> uploads_ok st' f' /\ same f f'.
Proof.
  intros Hi. unfold abort_write_file_cas. destruct (cleanup now st f) as [st1 f1] eqn:Ec.
  destruct (cleanup_undisturbed now st f st1 f1 Hi Ec) as (Hs & Hu1 & _ & Hi1).
  destruct (drop_upload id st1 f1) as [[st2|err] f2] eqn:Ed; [|pose proof (drop_upload_run id st1 f1) as Hr; by rewrite Ed in Hr].
  destruct (drop_undisturbed id st1 f1 st2 f2 Hi1 Ed) as (-> & Hu2 & _). intros [= _ <- <-]. split.
  - eapply uploads_ok_sub; [|apply dropped_sub]. eapply uploads_ok_files; [exact Hi1 | apply Hu2].
  - intros q Hq. by apply (undisturbed_trans _ _ _ Hu1 Hu2).
Qed.

(** A lost reply tells nothing, a lost request does nothing. *)
Lemma agent_request_run q w r w' : agent_request q w = (r, w') -> remote_inv w ->
  exists f, (forall p, content_at f p = content_at (al_fs w) p) /\ uploads_ok (al_state w) f /\
    ((al_state w' = al_state w /\ al_fs w' = f /\ is_ok r = false) \/
     exists now r0 st' f', handle_write hash_bytes agent_root host now (al_state w) q f = Some (r0, st', f') /\
       al_state w' = st' /\ al_fs w' = f' /\ (r = map_err agent_error_text r0 \/ is_ok r = false)).
Proof.
  intros Hq Hi. unfold agent_request in Hq. destruct (next_delivery w) as [[d dt] l]. exists (advance dt (al_fs w)).
  split; [done|]. split; [by apply advance_ok|].
  destruct d; [|injection Hq as <- <-; by left|]; destruct (handle_write _ _ _ _ _ _ _) as [[[r0 st'] f']|] eqn:E;
    injection Hq as <- <-; try (by left); right; eexists _, _, _, _; (split; [exact E|]); split_and!; auto.
Qed.

Lemma same_files (w w' : agent_link) f : (forall p, content_at f p = content_at (al_fs w) p) ->
  unchanged (with_files f) (with_files (al_fs w')) -> unchanged w w'.
Proof. intros Hf Hu q Hq. transitivity (content_at f q); [exact (Hu q Hq) | apply Hf]. Qed.
Lemma view_files (w : agent_link) f p : (forall p, content_at f p = content_at (al_fs w) p) ->
  view_hash hash_bytes (with_files f) p = view_hash hash_bytes w p.
Proof. intros Hf. unfold view_hash. cbn. by rewrite Hf. Qed.
Lemma swapped_files (w w' : agent_link) f p e h : (forall p, content_at f p = content_at (al_fs w) p) ->
  swapped hash_bytes (with_files f) (with_files (al_fs w')) p e h -> swapped hash_bytes w w' p e h.
Proof.
  intros Hf (H1 & H2 & H3). split_and!; [by rewrite <- (view_files w f) | exact H2|]. intros q Hq Hne.
  transitivity (content_at f q); [exact (H3 q Hq Hne) | apply Hf].
Qed.
Lemma conflict_files (w w' : agent_link) f p e c : (forall p, content_at f p = content_at (al_fs w) p) ->
  true_conflict hash_bytes (with_files f) (with_files (al_fs w')) p e c -> true_conflict hash_bytes w w' p e c.
Proof. intros Hf (H1 & H2 & H3 & H4). split_and!; [by eapply same_files | done | |]; by rewrite <- (view_files w f). Qed.
Lemma step_files (w w' : agent_link) f p e h : (forall p, content_at f p = content_at (al_fs w) p) ->
  step f (al_fs w') p e h -> cas_step hash_bytes w w' p e h.
Proof. intros Hf [H|H]; [left; by eapply same_files | right; by eapply swapped_files]. Qed.

#[local] Instance agent_cas_uploads : CasUploads agent_link hash_bytes.
Proof.
  split; unfold request, agent_remote.
  - intros w p e h n r w' Hi Hp Hq. destruct (agent_request_run _ _ _ _ Hq Hi) as (f & Hf & Hif & [(Hst & Hfs & Hr)|H]).
    { cbn. rewrite Hst, Hfs. split_and!; [done | by eapply same_files; [exact Hf | rewrite Hfs] | by destruct r]. }
    destruct H as (now & r0 & st' & f' & Hh & Hst & Hfs & Hr). injection Hh as Hh.
    destruct (begin_view p e Hp _ _ _ _ _ _ _ _ Hif Hh) as (Hi' & Hs & Ho). subst st' f'.
    split; [done|]. split; [by eapply same_files|]. destruct Hr as [->|Hr]; [|by destruct r].
    destruct r0 as [[]|]; try done. destruct outcome as [s|c]; cbn in *; [|by eapply conflict_files].
    destruct Ho as (u & -> & <- & <- & <-). done.
  - intros w id o c r w' Hi Hq. destruct (agent_request_run _ _ _ _ Hq Hi) as (f & Hf & Hif & [(Hst & Hfs & Hr)|H]).
    { cbn. rewrite Hst, Hfs. split_and!; [done | by eapply same_files; [exact Hf | rewrite Hfs] | by left]. }
    destruct H as (now & r0 & st' & f' & Hh & Hst & Hfs & Hr). injection Hh as Hh.
    destruct (chunk_view _ _ _ _ _ _ _ _ _ Hif Hh) as (Hi' & Hs & Hb). subst st' f'. split; [done|].
    split; [by eapply same_files|]. cbn. destruct (uploads (al_state w') !! id) as [u'|]; [|by right]. left.
    destruct (Hb u' eq_refl) as (u & -> & H1 & H2 & H3). cbn. by rewrite H1, H2, H3.
  - intros w id r w' Hi Hq. destruct (agent_request_run _ _ _ _ Hq Hi) as (f & Hf & Hif & [(Hst & Hfs & Hr)|H]).
    { assert (Hs : unchanged w w') by (eapply same_files; [exact Hf | by rewrite Hfs]). cbn. rewrite Hst, Hfs. split; [done|].
      destruct (uploads (al_state w) !! id) as [u|]; cbn; [|done]. split; [by left | by destruct r]. }
    destruct H as (now & r0 & st' & f' & Hh & Hst & Hfs & Hr). injection Hh as Hh.
    destruct (finish_view _ _ _ _ _ _ _ Hif Hh) as (Hi' & Ho). subst st' f'. split; [done|]. cbn.
    destruct (uploads (al_state w) !! id) as [u|]; cbn.
    + destruct Ho as [Hs Ho]. split; [by eapply step_files|]. destruct Hr as [->|Hr]; [|by destruct r].
      destruct r0 as [[]|]; try done. destruct outcome as [a|c]; cbn in *; [|by eapply conflict_files].
      destruct Ho as [Hsw Ho]. split; [by eapply swapped_files | done].
    + destruct Ho as [Hs Ho]. split; [by eapply same_files|]. destruct Hr as [->|Hr]; [by destruct r0 | done].
  - intros w id r w' Hi Hq. destruct (agent_request_run _ _ _ _ Hq Hi) as (f & Hf & Hif & [(Hst & Hfs & Hr)|H]).
    { cbn. rewrite Hst, Hfs. split; [done | by eapply same_files; [exact Hf | rewrite Hfs]]. }
    destruct H as (now & r0 & st' & f' & Hh & Hst & Hfs & Hr). injection Hh as Hh.
    destruct (abort_view _ _ _ _ _ _ _ Hif Hh) as (Hi' & Hs). subst st' f'. split; [done | by eapply same_files].
Qed.

(** C4 (safety): whatever calls fail on either side and whatever requests and replies are lost, one attempt to upload a queued
    save to the agent, in one request or in chunks, leaves the content of every tracked
    remote file as it was, or replaces the save's own file, and that only if the
    file had the hash the save was made against; the new content has the save's hash.  If the attempt says applied, the remote
    file has the save's hash; if it says conflict, nothing changed and the file
    has neither the expected hash nor the save's.  Nobody else writes to the remote during the
    attempt, and the agent's upload table is in order, as it is at the start and after each attempt. *)
Theorem attempt_never_overwrites_remote_edits utf8_error_text root entry m w r m' w' :
  uploads_ok (al_state w) (al_fs w) -> is_tracked (se_relative_path entry) ->
  apply_save_entry hash_bytes utf8_error_text root entry (m, w) = (r, (m', w')) ->
  let p := se_relative_path entry in
  let hash_now (w : agent_link) := hash_bytes <$> content_at (al_fs w) p in
  let all_same := forall q, is_tracked q -> content_at (al_fs w') q = content_at (al_fs w) q in
  uploads_ok (al_state w') (al_fs w') /\
  (all_same \/
   hash_now w = se_expected_hash entry /\ hash_now w' = Some (se_local_hash entry) /\
   forall q, is_tracked q -> q <> p -> content_at (al_fs w') q = content_at (al_fs w) q) /\
  match r with
  | Ok (AttemptApplied path h _) => path = p /\ h = se_local_hash entry /\ hash_now w' = Some h
  | Ok (AttemptConflict path _ actual _ _ _ _) =>
      path = p /\ all_same /\ actual = hash_now w /\ actual <> se_expected_hash entry /\ actual <> Some (se_local_hash entry)
  | Ok (AttemptQueued path _ _) => path = p
  | Err _ => True
  end.
Proof. exact (attempt_honest hash_bytes utf8_error_text root entry m w r m' w'). Qed.

(** ** While nothing fails, the agent answers *)

Lemma run_conflict path a e h f : quiet f ->
  exists c, report_conflict host path a e h f = (Ok (SaveOutcome_Conflict c), f).
Proof.
  intros Hq. assert (Hc : exists x, remote_conflict_content a f = (Ok x, f)).
  { unfold remote_conflict_content.
    assert (Ho : exists o, open_existing_content_file a f = (o, f)).
    { unfold open_existing_content_file. rewrite run_syscall_then, run_get by done.
      destruct (names f !! a) as [[ino| |]|]; [rewrite run_syscall_then by done|..]; by eexists. }
    destruct Ho as [o Ho]. rewrite (run_bind _ _ f o f) by (unfold attempt; by rewrite Ho).
    destruct o as [ino|err]; [|by eexists]. rewrite run_get. cbv zeta.
    rewrite (run_bind _ _ f (Ok (take (Z.to_nat (Z.min (zlen (file_data f ino)) MAX_CONFLICT_CONTENT_BYTES)) (file_data f ino))) f); [by eexists|].
    unfold attempt, read_open_file_prefix. by rewrite run_syscall_then. }
  destruct Hc as [[[content truncated] size] Hc]. unfold report_conflict. rewrite (run_pause host (ws_alone Hws)).
  unfold save_conflict, fmap, M_fmap. eexists. erewrite run_bind; [|by erewrite run_bind; [|exact Hc]]. done.
Qed.

(** The names after a save: the target may be a new file. *)
Definition named_like (a : bytes) (f f' : fs) : Prop :=
  quiet f' /\ (names f' = names f \/ exists i, names f' = <[a := EFile i]> (names f)).

Lemma stage_answers path e content a f :
  let tmp := tmp_path_of a (clock f) in
  let ino := fresh (used_inos f) in
  quiet f -> names f !! a <> Some ESymlink -> names f !! tmp = None ->
  (exists c, stage_save hash_bytes host path e content a f = (Ok (inl (SaveOutcome_Conflict c)), f)) \/
  (node_hash hash_bytes (node_at f a) = e /\
   exists i, stage_save hash_bytes host path e content a f = (Ok (inr (tmp, ino)), stage tmp ino i f)).
Proof.
  intros tmp ino Hq Hs Ht. pose proof (@run_pause host (ws_alone Hws)) as Hpause.
  assert (Hs' : node_at f a <> Some NSymlink) by (unfold node_at; by destruct (names f !! a) as [[| |]|]).
  unfold stage_save, open_write_parent, verify_write_parent_current. rewrite run_syscall_then, Hpause by done.
  rewrite (run_bind _ _ _ _ _ (run_current_hash hash_bytes a f Hq Hs')). case_bool_decide as He; cbn [negb].
  2:{ left. destruct (run_conflict path a e (node_hash hash_bytes (node_at f a)) f Hq) as [c Hc]. exists c.
      unfold fmap, M_fmap. by rewrite (run_bind _ _ _ _ _ Hc). }
  right. split; [done|]. rewrite run_get, run_syscall_then by done. cbv zeta. fold tmp. rewrite Hpause.
  rewrite (run_bind _ _ _ _ _ (run_create tmp f Hq Ht)), Hpause. fold ino.
  set (g := stage tmp ino {| data := []; mtime_ms := clock f / 1000000 |} f).
  set (i2 := {| data := overwrite (file_data g ino) 0 content; mtime_ms := clock f / 1000000 |}). set (g2 := stage tmp ino i2 f).
  assert (Hfill : (write_at ino 0 content;; sync_all) g = (Ok (), g2)).
  { rewrite (run_bind _ _ _ _ _ (run_write_at ino 0 content g Hq)). unfold g at 2 3. cbn [clock stage with_names with_inodes].
    rewrite put_stage. by apply run_syscall. }
  rewrite (run_bind _ _ _ _ _ (run_cleanup tmp _ _ _ _ Hfill)).
  assert (Htmp : names g2 !! tmp = Some (EFile ino)) by apply lookup_insert_eq.
  rewrite (run_bind _ _ _ _ _ (run_cleanup tmp _ _ _ _ (run_verify_temp ino tmp g2 Hq Htmp))).
  rewrite (run_bind _ _ _ _ _ (run_cleanup tmp _ _ _ _ (run_syscall g2 Hq))), Hpause. by exists i2.
Qed.

Lemma cas_prepared_answers path e content a f :
  quiet f -> names f !! a <> Some ESymlink -> names f !! a <> Some EDir ->
  names f !! tmp_path_of a (clock f) = None -> tmp_path_of a (clock f) <> a ->
  exists o f', write_file_cas_prepared hash_bytes host path e content a f = (Ok o, f') /\ named_like a f f'.
Proof.
  intros Hq Hs Hd Ht Hne. pose proof (@run_pause host (ws_alone Hws)) as Hpause. unfold write_file_cas_prepared.
  destruct (stage_answers path e content a f Hq Hs Ht) as [[c Hst]|(He & i2 & Hst)]; rewrite (run_bind _ _ _ _ _ Hst).
  { eexists _, f. split; [done|]. by split; [|left]. }
  set (tmp := tmp_path_of a (clock f)) in *. set (ino := fresh (used_inos f)). set (g2 := stage tmp ino i2 f).
  assert (Hna : names g2 !! a = names f !! a) by (cbn; by rewrite lookup_insert_ne).
  assert (Hsame : node_at g2 a = node_at f a) by (apply stage_node; [apply fresh_unnamed | done]).
  assert (Hs2 : node_at g2 a <> Some NSymlink) by (rewrite Hsame; unfold node_at; by destruct (names f !! a) as [[| |]|]).
  unfold swap_save. rewrite (run_bind _ _ _ _ _ (run_current_hash hash_bytes a g2 Hq Hs2)), Hsame, He, bool_decide_eq_true_2 by done.
  cbn [negb]. rewrite Hpause. assert (Htmp : names g2 !! tmp = Some (EFile ino)) by apply lookup_insert_eq.
  assert (Hd2 : names g2 !! a <> Some EDir) by (by rewrite Hna).
  rewrite (run_bind _ _ _ _ _ (run_commit a tmp ino g2 Hq Htmp Hd2)), Hpause. set (cm := committed tmp a ino g2).
  assert (Hn : names cm !! a = Some (EFile ino)) by apply lookup_insert_eq.
  assert (Hh : hash_file hash_bytes a cm = (Ok (hash_bytes (file_data cm ino)), cm)).
  { unfold hash_file. rewrite run_syscall_then, run_get, Hn by done. by apply run_hash_open. }
  unfold report_applied. rewrite (run_bind _ _ _ _ _ Hh). destruct (run_file_meta hash_bytes a ino cm Hq Hn) as [mt Hm].
  rewrite (run_bind _ _ _ _ _ Hm). eexists _, cm. split; [done|]. split; [done|]. right. exists ino.
  cbn. f_equal. by apply delete_insert_id.
Qed.

(** Opening a save: the directories of the tracked files exist, and the lock files can be made. *)
Context (dirs : bytes -> list bytes).
Definition dirs_ready (f : fs) (p : bytes) : Prop := forall d, d ∈ dirs p -> names f !! d = Some EDir.
Context (Hfind : forall f p, is_tracked p -> dirs_ready f p ->
  exists x dir key d, resolve_remote_path agent_root p = Ok x /\ dir_of x = Some dir /\
    real_path host f dir = Ok key /\ is_Some (names f !! key) /\
    wh_canonicalize host f dir = Ok d /\ names f !! d = Some EDir /\ ensure_path_within_root agent_root d = Ok () /\
    real_path host f x = Ok (abs p) /\ path_in d (name_of x) = abs p).
Definition locks_ready (f : fs) : Prop :=
  (forall e, names f !! write_lock_root_path host = Some e -> e = EDir) /\
  forall key e, names f !! lock_path host key = Some e -> exists i, e = EFile i.

Lemma prepare_answers f p : is_tracked p -> quiet f -> dirs_ready f p -> names f !! abs p <> Some ESymlink ->
  prepare_write_target agent_root host p f = (Ok (abs p), f).
Proof.
  intros Hp Hq Hd Hs. destruct (Hfind f p Hp Hd) as (x & dir & key & d & Hx & Hdir & Hkey & [en Hen] & Hc & Hcd & Hin & Hrp & Habs).
  unfold prepare_write_target. rewrite (run_bind _ _ f x f) by (unfold lift_result; by rewrite Hx).
  rewrite run_syscall_then, run_get, Hrp by done. rewrite bool_decide_eq_false_2 by done.
  rewrite (run_bind _ _ f () f) by done. rewrite Hdir.
  assert (Hcan : canonicalized host dir f = (Ok d, f)).
  { unfold canonicalized. rewrite run_syscall_then, run_get by done. unfold lift_result. by rewrite Hc. }
  assert (Hens : ensure_write_parent_inside_root agent_root host dir f = (Ok (), f)).
  { unfold ensure_write_parent_inside_root. cbn [existing_ancestor].
    assert (Hex : path_exists host dir f = (Ok true, f)).
    { unfold path_exists. rewrite (run_bind _ _ f (Ok ()) f) by (unfold attempt; by rewrite run_syscall). by rewrite run_get, Hc. }
    rewrite (run_bind _ _ f dir f) by (by rewrite (run_bind _ _ _ _ _ Hex)).
    rewrite (run_bind _ _ f d f) by exact Hcan. rewrite (run_bind _ _ f () f) by (unfold lift_result; by rewrite Hin).
    unfold create_dir_all. cbn [create_dirs]. destruct dir as [|b dir]; [done|].
    assert (Hmk : mkdir host (b :: dir) f = (Err EExists, f)).
    { unfold mkdir. by rewrite run_syscall_then, run_get, Hkey, Hen by done. }
    rewrite (run_bind _ _ f (Err EExists) f) by (unfold attempt; by rewrite Hmk). unfold unless_dir.
    rewrite (run_bind _ _ f true f); [done|]. unfold is_dir.
    rewrite (run_bind _ _ f (Ok ()) f) by (unfold attempt; by rewrite run_syscall). rewrite run_get, Hc. by rewrite bool_decide_eq_true_2. }
  rewrite (run_bind _ _ _ _ _ Hens), (run_bind _ _ _ _ _ Hcan), (run_bind _ _ f () f) by (unfold lift_result; by rewrite Hin).
  by rewrite Habs.
Qed.

(** Opening only adds the lock directory and the lock file. *)
Definition opened (f f1 : fs) : Prop :=
  quiet f1 /\ clock f1 = clock f /\ names f ⊆ names f1 /\ locks_ready f1 /\
  forall x e, names f1 !! x = Some e -> names f !! x = Some e \/ x = write_lock_root_path host \/ exists key, x = lock_path host key.

Lemma lock_root_differs key : lock_path host key <> write_lock_root_path host.
Proof. unfold lock_path. intros E%(f_equal length). rewrite !length_app in E. change (length (B"/")) with 1%nat in E. lia. Qed.
Lemma opened_refl f : quiet f -> locks_ready f -> opened f f.
Proof. intros Hq Hl. split_and!; try done. auto. Qed.
Lemma opened_trans f1 f2 f3 : opened f1 f2 -> opened f2 f3 -> opened f1 f3.
Proof.
  intros (_ & Hc1 & Hs1 & _ & Hn1) (Hq & Hc2 & Hs2 & Hl & Hn2). split_and!; [done | congruence | by etransitivity | done|].
  intros x e Hx. destruct (Hn2 x e Hx) as [Hx2|?]; [by apply (Hn1 x e) | by right].
Qed.
Lemma opened_insert f x e nodes : quiet f -> locks_ready f -> names f !! x = None ->
  (x = write_lock_root_path host /\ e = EDir \/ exists key i, x = lock_path host key /\ e = EFile i) ->
  opened f (with_names (<[x := e]> (names f)) (with_inodes nodes f)).
Proof.
  intros Hq [Hr Hl] Hx Hnew. split_and!; cbn; [done | done | by apply insert_subseteq | |].
  - split; cbn.
    + intros e' [[E1 <-]|[_ H]]%lookup_insert_Some; [|by apply Hr]. destruct Hnew as [[_ ->]|(key & i & -> & _)]; [done|].
      by destruct (lock_root_differs key).
    + intros key e' [[E1 <-]|[_ H]]%lookup_insert_Some; [|by apply (Hl key)]. destruct Hnew as [[-> _]|(key' & i & _ & ->)]; [|by eexists].
      by destruct (lock_root_differs key).
  - intros y e' [[<- <-]|[_ H]]%lookup_insert_Some; [right | by left]. destruct Hnew as [[-> _]|(key & i & -> & _)]; [by left | right; by eexists].
Qed.

Lemma lock_root_answers f : quiet f -> locks_ready f ->
  exists f1, open_private_unix_lock_root host f = (Ok (), f1) /\ opened f f1.
Proof.
  intros Hq Hl. unfold open_private_unix_lock_root. set (root := write_lock_root_path host).
  assert (Hend : forall g, quiet g -> names g !! root = Some EDir ->
    (entry ← symlink_metadata root;
     match entry with Some EDir => syscall;; syscall | Some _ => throw ENotDirectory | None => throw EIo end) g = (Ok (), g)).
  { intros g Hg Hn. rewrite (run_bind _ _ _ _ _ (run_metadata root g Hg)), Hn. rewrite run_syscall_then by done. by apply run_syscall. }
  rewrite (run_bind _ _ _ _ _ (run_metadata root f Hq)). destruct (names f !! root) as [e|] eqn:E.
  - pose proof (proj1 Hl e E) as ->. exists f. split; [|by apply opened_refl]. rewrite (run_bind _ _ f () f) by done. by apply Hend.
  - set (f1 := with_names (<[root := EDir]> (names f)) f). exists f1.
    assert (Ho : opened f f1).
    { replace f1 with (with_names (<[root := EDir]> (names f)) (with_inodes (inodes f) f)) by done. apply opened_insert; try done. by left. }
    split; [|done]. rewrite (run_bind _ _ f () f1); [apply Hend; [done | apply lookup_insert_eq]|].
    rewrite run_syscall_then, run_get, E by done. rewrite (run_bind _ _ f () f1) by done. by apply run_syscall.
Qed.

Lemma locks_answer key f : quiet f -> locks_ready f -> exists f1, acquire_write_locks host [key] f = (Ok (), f1) /\ opened f f1.
Proof.
  intros Hq Hl. destruct (lock_root_answers f Hq Hl) as (f1 & E1 & Ho1). unfold acquire_write_locks.
  rewrite (run_bind _ _ _ _ _ E1). cbn [lock_files]. destruct Ho1 as (Hq1 & ? & ? & Hl1 & ?) eqn:Eo. clear Eo.
  assert (Hfile : exists f2, open_private_unix_lock_file host key f1 = (Ok (), f2) /\ opened f1 f2).
  { unfold open_private_unix_lock_file. rewrite run_syscall_then, run_get by done.
    destruct (names f1 !! lock_path host key) as [en|] eqn:E.
    - destruct (proj2 Hl1 key en E) as [i ->]. exists f1. split; [|by apply opened_refl].
      rewrite (run_bind _ _ f1 () f1) by done. by apply run_syscall.
    - eexists. rewrite run_bind with (a := ()) (f' := with_names (<[lock_path host key := EFile (fresh (used_inos f1))]> (names f1))
        (with_inodes (<[fresh (used_inos f1) := {| data := []; mtime_ms := clock f1 / 1000000 |}]> (inodes f1)) f1)) by done.
      split; [by apply run_syscall|]. apply opened_insert; try done. right. by eexists _, _. }
  destruct Hfile as (f2 & E2 & Ho2). rewrite (run_bind _ _ _ _ _ E2). exists f2. split; [|by eapply opened_trans].
  rewrite (run_bind _ _ f2 (Ok ()) f2); [done|]. unfold attempt. by rewrite run_syscall by apply Ho2.
Qed.

Lemma open_answers f p : is_tracked p -> quiet f -> dirs_ready f p -> names f !! abs p <> Some ESymlink -> locks_ready f ->
  exists f1, open_save hash_bytes agent_root host ∅ p f = (Ok (abs p), f1) /\ opened f f1.
Proof.
  intros Hp Hq Hd Hs Hl. unfold open_save. rewrite (run_bind _ _ _ _ _ (prepare_answers f p Hp Hq Hd Hs)).
  rewrite (run_bind _ _ f () f) by done. rewrite (run_pause host (ws_alone Hws)).
  destruct (locks_answer (hash_bytes (agent_root ++ B":" ++ abs p)) f Hq Hl) as (f1 & E & Ho). exists f1. split; [|done].
  unfold write_target_keys. by rewrite (run_bind _ _ _ _ _ E).
Qed.

(** The link delivers, no call fails, no temporary file is left over, the directories exist, and
    targets and lock files are regular files or missing. *)
Record agent_reachable (w : agent_link) : Prop := {
  ar_link : Forall (fun x => fst x = Delivered) (al_link w);
  ar_quiet : quiet (al_fs w);
  ar_free : active_write_targets (al_state w) = ∅;
  ar_temps : forall x n, names (al_fs w) !! tmp_path_of x n = None;
  ar_targets : forall p, is_tracked p -> names (al_fs w) !! abs p <> Some ESymlink /\ names (al_fs w) !! abs p <> Some EDir;
  ar_dirs : forall p, is_tracked p -> dirs_ready (al_fs w) p;
  ar_locks : locks_ready (al_fs w) }.
Context (Hapart : forall p x n key, is_tracked p ->
  abs p <> write_lock_root_path host /\ tmp_path_of x n <> write_lock_root_path host /\ tmp_path_of x n <> lock_path host key).

(** What opening leaves of a name that is not a lock's. *)
Lemma opened_same f f1 x : opened f f1 -> x <> write_lock_root_path host -> (forall key, x <> lock_path host key) ->
  names f1 !! x = names f !! x.
Proof.
  intros (_ & _ & Hs & _ & Hn) Hr Hl. destruct (names f1 !! x) as [e|] eqn:E1.
  - destruct (Hn x e E1) as [->|[->|[key ->]]]; [done..|]. by destruct (Hl key).
  - destruct (names f !! x) as [e|] eqn:E0; [|done]. pose proof (lookup_weaken _ _ _ _ E0 Hs). congruence.
Qed.

Lemma reachable_after f f1 f' p st l : is_tracked p -> opened f f1 -> named_like (abs p) f1 f' ->
  agent_reachable {| al_state := st; al_fs := f; al_link := l |} -> agent_reachable {| al_state := st; al_fs := f'; al_link := l |}.
Proof.
  intros Hp Ho [Hq' Hn] [Hl Hq Ha Ht Htg Hd Hlk]. cbn in *. pose proof Ho as (_ & _ & Hsub & [Hlr Hlf] & _).
  assert (Hsame : forall q, is_tracked q -> names f1 !! abs q = names f !! abs q).
  { intros q Hq2. eapply opened_same; [done | by apply (Hapart q [] 0 []) | intros key; by apply (ws_locks Hws)]. }
  assert (Hins : forall x e, names f1 !! x = Some e -> e <> EDir \/ x <> abs p).
  { intros x e Hx. destruct (decide (x = abs p)) as [->|]; [left | by right]. rewrite Hsame in Hx by done. intros ->. by destruct (Htg p Hp). }
  split; cbn; try done.
  - intros x n. assert (H1 : names f1 !! tmp_path_of x n = None).
    { erewrite opened_same; [apply Ht | exact Ho | by apply (Hapart p x n []) | intros key; by apply (Hapart p x n key)]. }
    destruct Hn as [->|[i ->]]; [done|]. rewrite lookup_insert_ne; [done|]. intros E. apply (ws_temps Hws p Hp). left. by eexists _, _.
  - intros q Hq2. destruct Hn as [->|[i ->]]; [rewrite Hsame by done; by apply Htg|].
    destruct (decide (abs p = abs q)) as [->|Hne]; [by rewrite lookup_insert_eq|]. rewrite lookup_insert_ne, Hsame by done. by apply Htg.
  - intros q Hq2 d Hin. pose proof (lookup_weaken _ _ _ _ (Hd q Hq2 d Hin) Hsub) as H1.
    destruct Hn as [->|[i ->]]; [done|]. destruct (Hins d EDir H1); [done|]. by rewrite lookup_insert_ne.
  - destruct Hn as [En|[i En]]; split; rewrite ?En; try done.
    + rewrite lookup_insert_ne by (by apply (Hapart p [] 0 [])). done.
    + intros key. rewrite lookup_insert_ne by (by apply (ws_locks Hws)). apply Hlf.
Qed.

Lemma agent_answers w p e c : is_tracked p -> agent_reachable w ->
  exists o w', agent_request (Request_WriteFileCas p e c) w = (Ok (Response_WriteFileCas o), w') /\ agent_reachable w'.
Proof.
  intros Hp Hw. pose proof Hw as [Hl Hq Ha Ht Htg Hd Hlk].
  assert (Hdel : exists dt l, next_delivery w = (Delivered, dt, l) /\ Forall (fun x => fst x = Delivered) l).
  { unfold next_delivery. destruct (al_link w) as [|[d dt] l]; [by exists 0, []|]. apply Forall_cons in Hl as [Hd' Hl].
    cbn in Hd'. subst d. by exists dt, l. }
  destruct Hdel as (dt & l & Hn & Hl'). unfold agent_request. rewrite Hn. cbn [handle_write]. set (f := advance dt (al_fs w)).
  assert (Hf : agent_reachable {| al_state := al_state w; al_fs := f; al_link := l |}) by (by split).
  unfold write_file_cas_state. rewrite Ha. destruct (open_answers f p Hp Hq (Hd p Hp) (proj1 (Htg p Hp)) Hlk) as (f1 & Eo & Ho).
  rewrite (run_bind _ _ _ _ _ Eo).
  assert (Hsame : forall x, (x = abs p \/ exists y n, x = tmp_path_of y n) -> names f1 !! x = names f !! x).
  { intros x Hx. eapply opened_same; [exact Ho| |]; [|intros key]; destruct Hx as [->|(y & n & ->)];
      [by apply (Hapart p [] 0 []) | by apply (Hapart p y n []) | by apply (ws_locks Hws) | by apply (Hapart p y n key)]. }
  destruct (cas_prepared_answers p e c (abs p) f1) as (o & f' & Ew & Hnl).
  - apply Ho.
  - rewrite Hsame by (by left). by apply Htg.
  - rewrite Hsame by (by left). by apply Htg.
  - rewrite Hsame by (right; by eexists _, _). apply Ht.
  - apply temp_not_target; [left; by eexists _, _ | done].
  - unfold fmap at 1, M_fmap. rewrite (run_bind _ _ _ _ _ Ew). cbn. eexists o, _. split; [reflexivity|]. by eapply reachable_after.
Qed.

#[local] Instance agent_live : LiveRemote agent_link := {|
  reachable := agent_reachable;
  law_answers w p e c _ Hp Hr := agent_answers w p e c Hp Hr |}.
End AgentRemote.

(** ** A queue against the agent *)

Definition demo_tracked (p : bytes) : Prop := p = B"a.rs" \/ p = B"b.rs".
Definition demo_abs (p : bytes) : bytes := B"/w/" ++ p.
Definition demo_dirs (p : bytes) : list bytes := [B"/"; B"/w"].
Abbreviation demo_agent := (demo_host nobody).

Lemma with_extension_suffix x ext : exists pre, with_extension x ext = pre ++ B"." ++ ext.
Proof.
  unfold with_extension. destruct (rsplit_once "/" x) as [[dir name]|]; [|by eexists].
  exists (dir ++ B"/" ++ file_stem name). by rewrite <- !app_assoc.
Qed.
Lemma demo_length p : demo_tracked p -> length (demo_abs p) = 7%nat.
Proof. by intros [-> | ->]. Qed.
Lemma demo_not_temp p : demo_tracked p -> ~ temp_name (demo_abs p).
Proof.
  intros Hp%demo_length [(x & n & E)|(x & id & E)]; rewrite E in Hp; unfold tmp_path_of in Hp;
    match type of Hp with length (with_extension _ ?ext) = _ => destruct (with_extension_suffix x ext) as [pre Hx] end;
    rewrite Hx, !length_app in Hp.
  - change (length (B"nrm-tmp-")) with 8%nat in Hp. lia.
  - change (length (B"nrm-upload-")) with 11%nat in Hp. lia.
Qed.
Lemma demo_resolve p : demo_tracked p -> resolve_remote_path (B"/w") p = Ok (B"/w/" ++ p) /\ dir_of (B"/w/" ++ p) = Some (B"/w") /\
  path_in (B"/w") (name_of (B"/w/" ++ p)) = B"/w/" ++ p.
Proof. intros [-> | ->]; vm_compute; done. Qed.

Lemma demo_workspace : workspace (B"/w") demo_agent demo_abs demo_tracked.
Proof.
  split.
  - apply demo_alone.
  - intros f p x dir d Hp Hx Hdir Hc. destruct (demo_resolve p Hp) as (H1 & H2 & H3). assert (x = B"/w/" ++ p) as -> by congruence.
    assert (dir = B"/w") as -> by congruence. cbn in Hc. unfold demo_canonicalize in Hc.
    assert (d = B"/w") as -> by (destruct (names f !! B"/w") as [[| |]|]; congruence). exact H3.
  - intros p q _ _ E. by apply app_inv_head in E.
  - exact demo_not_temp.
  - intros p key Hp%demo_length E. rewrite E in Hp. unfold lock_path, write_lock_root_path in Hp. rewrite !length_app in Hp.
    change (length (B"/nrm-agent-locks-v1-")) with 20%nat in Hp. lia.
Qed.

Lemma demo_find f p : demo_tracked p -> dirs_ready demo_dirs f p ->
  exists x dir key d, resolve_remote_path (B"/w") p = Ok x /\ dir_of x = Some dir /\
    real_path demo_agent f dir = Ok key /\ is_Some (names f !! key) /\
    wh_canonicalize demo_agent f dir = Ok d /\ names f !! d = Some EDir /\ ensure_path_within_root (B"/w") d = Ok () /\
    real_path demo_agent f x = Ok (demo_abs p) /\ path_in d (name_of x) = demo_abs p.
Proof.
  intros Hp Hd. destruct (demo_resolve p Hp) as (H1 & H2 & H3).
  assert (Hr : names f !! B"/" = Some EDir) by (apply Hd; by left).
  assert (Hw : names f !! B"/w" = Some EDir) by (apply Hd; right; by left).
  assert (Hc : forall x, names f !! x = Some EDir -> wh_canonicalize demo_agent f x = Ok x) by (intros x Hx; cbn; unfold demo_canonicalize; by rewrite Hx).
  exists (B"/w/" ++ p), (B"/w"), (B"/w"), (B"/w").
  assert (Hwr : real_path demo_agent f (B"/w") = Ok (B"/w")).
  { unfold real_path. change (dir_of (B"/w")) with (Some (B"/")). cbn [mbind result_bind]. rewrite (Hc _ Hr). reflexivity. }
  assert (Hxr : real_path demo_agent f (B"/w/" ++ p) = Ok (demo_abs p)).
  { unfold real_path. rewrite H2, (Hc _ Hw). cbn [mbind result_bind]. by rewrite H3. }
  split_and!; try done. by apply Hc.
Qed.

Lemma demo_apart p x n key : demo_tracked p -> demo_abs p <> write_lock_root_path demo_agent /\
  tmp_path_of x n <> write_lock_root_path demo_agent /\ tmp_path_of x n <> lock_path demo_agent key.
Proof.
  intros Hp. split_and!.
  - intros E. pose proof (demo_length p Hp) as Hl. rewrite E in Hl. discriminate Hl.
  - unfold tmp_path_of. destruct (with_extension_suffix x (B"nrm-tmp-" ++ to_decimal n)) as [pre ->]. intros E.
    assert (Hin : "."%byte ∈ write_lock_root_path demo_agent) by (rewrite <- E; apply elem_of_app; right; by left).
    apply (bool_decide_eq_false_1 ("."%byte ∈ write_lock_root_path demo_agent)); [vm_compute; reflexivity | exact Hin].
  - unfold tmp_path_of. destruct (with_extension_suffix x (B"nrm-tmp-" ++ to_decimal n)) as [pre ->].
    destruct (to_decimal_last n) as (ds & b & -> & Hb). unfold lock_path. change (B".lock") with (B".loc" ++ ["k"%byte]). rewrite !app_assoc.
    intros E%app_inj_2; [|done]. destruct E as [_ [= ->]]. change (u8 "k"%byte) with 107 in Hb. lia.
Qed.

#[local] Instance demo_remote : Remote agent_link := agent_remote demo_hash (B"/w") demo_agent (fun _ => []).
#[local] Instance demo_files : RemoteFiles agent_link := agent_files demo_abs demo_tracked.
#[local] Instance demo_writes : CasWrites agent_link demo_hash :=
  agent_cas_writes demo_hash (B"/w") demo_agent (fun _ => []) demo_abs demo_tracked demo_workspace.
#[local] Instance demo_live : LiveRemote agent_link :=
  agent_live demo_hash (B"/w") demo_agent (fun _ => []) demo_abs demo_tracked demo_workspace demo_dirs demo_find demo_apart.

Definition demo_link (l : list (delivery * Z)) : agent_link := {| al_state := new_agent; al_fs := demo_fs []; al_link := l |}.
Definition demo_save (id : Z) (path : bytes) (expected : bytes) (content : bytes) : queue_row := {|
  qr_id := id; qr_relative_path := path; qr_expected_hash := Some (demo_hash expected); qr_local_hash := demo_hash content;
  qr_snapshot_path := Some (B"/m/save-snapshots/" ++ to_decimal id); qr_state := Pending; qr_attempts := 0;
  qr_last_error := None; qr_remote_conflict_path := None; qr_conflict_actual_hash := None;
  qr_remote_conflict_truncated := false; qr_created_at_ms := 0; qr_updated_at_ms := 0 |}.
Definition demo_queue : list queue_row :=
  [demo_save 1 (B"a.rs") (B"old") (B"one"); demo_save 2 (B"b.rs") (B"other") (B"two"); demo_save 3 (B"a.rs") (B"one") (B"three")].
Definition demo_disk : gmap bytes bytes :=
  {[ B"/m/save-snapshots/1" := B"one"; B"/m/save-snapshots/2" := B"two"; B"/m/save-snapshots/3" := B"three" ]}.
Definition demo_mirror : mirror := {|
  mr_db := with_queue 3 demo_queue empty_database; mr_txn := None; mr_disk := demo_disk; mr_clock := 0; mr_ticks := [];
  mr_faults := [] |}.

Lemma demo_sendable id path expected content :
  demo_tracked path -> demo_disk !! (B"/m/save-snapshots/" ++ to_decimal id) = Some content ->
  zlen content <= SAVE_INLINE_MAX_BYTES -> sendable demo_hash demo_disk (demo_save id path expected content) content.
Proof.
  intros Hp Hk Hs. split; [done| |by eexists|done|done]. destruct Hp as [-> | ->]; vm_compute; reflexivity.
Qed.

Lemma demo_reachable w : al_state w = new_agent -> Forall (fun x => fst x = Delivered) (al_link w) -> quiet (al_fs w) ->
  (forall d, d ∈ demo_dirs [] -> names (al_fs w) !! d = Some EDir) ->
  (forall x e, names (al_fs w) !! x = Some e -> x ∈ demo_dirs [] \/ (exists p, demo_tracked p /\ x = demo_abs p /\ exists i, e = EFile i) \/
     (x = write_lock_root_path demo_agent /\ e = EDir) \/ exists key i, x = lock_path demo_agent key /\ e = EFile i) ->
  agent_reachable demo_agent demo_abs demo_tracked demo_dirs w.
Proof.
  intros Hst Hl Hq Hd Hn.
  assert (Hshort : forall x n, tmp_path_of x n ∈ demo_dirs [] -> False).
  { intros x n Hin. destruct (with_extension_suffix x (B"nrm-tmp-" ++ to_decimal n)) as [pre Hx]. unfold tmp_path_of in Hin.
    rewrite Hx in Hin. assert (Hlen : (length (pre ++ B"." ++ B"nrm-tmp-" ++ to_decimal n) <= 2)%nat)
      by (apply elem_of_cons in Hin as [->|[->|[]%elem_of_nil]%elem_of_cons]; vm_compute; lia).
    rewrite !length_app in Hlen. change (length (B"nrm-tmp-")) with 8%nat in Hlen. lia. }
  split; [done | done | by rewrite Hst | | | |].
  - intros x n. destruct (names (al_fs w) !! tmp_path_of x n) as [e|] eqn:E; [|done].
    destruct (Hn _ _ E) as [Hin|[(p & Hp & Ep & _)|[[Er _]|(key & i & Ek & _)]]]; [by destruct (Hshort x n)|..].
    + destruct (demo_not_temp p Hp). left. by eexists _, _.
    + by destruct (demo_apart (B"a.rs") x n [] (or_introl eq_refl)) as (_ & ? & _).
    + by destruct (demo_apart (B"a.rs") x n key (or_introl eq_refl)) as (_ & _ & ?).
  - intros p Hp. assert (Hk : forall e, names (al_fs w) !! demo_abs p = Some e -> exists i, e = EFile i).
    { intros e E. destruct (Hn _ _ E) as [Hin|[(p' & _ & _ & ?)|[[Er _]|(key & i & Ek & ->)]]]; [|done| |by eexists].
      - pose proof (demo_length p Hp) as Hlen. apply elem_of_cons in Hin as [Hin|[Hin|[]%elem_of_nil]%elem_of_cons]; rewrite Hin in Hlen; discriminate.
      - by destruct (demo_apart p [] 0 [] Hp). }
    split; intros E; destruct (Hk _ E) as [i ?]; discriminate.
  - intros p _ d Hin. by apply Hd.
  - split.
    + intros e E. destruct (Hn _ _ E) as [Hin|[(p & Hp & Ep & _)|[[_ ->]|(key & i & Ek & _)]]]; [|by destruct (demo_apart p [] 0 [] Hp)|done|].
      * apply (bool_decide_eq_true_2 _) in Hin. vm_compute in Hin. discriminate.
      * symmetry in Ek. by apply lock_root_differs in Ek.
    + intros key e E. destruct (Hn _ _ E) as [Hin|[(p & Hp & Ep & Hi)|[[Er _]|(key' & i & _ & ->)]]]; [|done|by apply lock_root_differs in Er|by eexists].
      exfalso. assert (Hlen : (length (lock_path demo_agent key) <= 2)%nat)
        by (apply elem_of_cons in Hin as [->|[->|[]%elem_of_nil]%elem_of_cons]; vm_compute; lia).
      unfold lock_path, write_lock_root_path in Hlen. rewrite !length_app in Hlen. change (length (B"/nrm-agent-locks-v1-")) with 20%nat in Hlen. lia.
Qed.

(** The names of the demonstration, checked by computation. *)
Definition demo_name (x : bytes) (e : dir_entry) : bool :=
  bool_decide (x ∈ demo_dirs []) ||
  match e with
  | EFile _ => bool_decide (x ∈ [demo_abs (B"a.rs"); demo_abs (B"b.rs"); lock_path demo_agent (demo_hash (B"/w:/w/a.rs"))])
  | _ => bool_decide (x = write_lock_root_path demo_agent /\ e = EDir)
  end.
Lemma demo_names f : forallb (fun '(x, e) => demo_name x e) (map_to_list (names f)) = true ->
  forall x e, names f !! x = Some e -> x ∈ demo_dirs [] \/ (exists p, demo_tracked p /\ x = demo_abs p /\ exists i, e = EFile i) \/
    (x = write_lock_root_path demo_agent /\ e = EDir) \/ exists key i, x = lock_path demo_agent key /\ e = EFile i.
Proof.
  intros Hf x e Hx%elem_of_map_to_list. rewrite forallb_forall in Hf. apply list_elem_of_In in Hx. specialize (Hf _ Hx). cbn beta iota in Hf.
  unfold demo_name in Hf. apply orb_true_iff in Hf as [H|H]; [left; by apply bool_decide_eq_true in H|]. right.
  destruct e as [i| |]; apply bool_decide_eq_true in H; [|right; by left..].
  apply elem_of_cons in H as [->|H]; [left; exists (B"a.rs"); split; [by left | split; [done | by eexists]]|].
  apply elem_of_cons in H as [->|H]; [left; exists (B"b.rs"); split; [by right | split; [done | by eexists]]|].
  apply list_elem_of_singleton in H as ->. right. right. by eexists _, i.
Qed.
Lemma demo_ready w : al_state w = new_agent -> forallb (fun x => bool_decide (fst x = Delivered)) (al_link w) = true -> quiet (al_fs w) ->
  forallb (fun d => bool_decide (names (al_fs w) !! d = Some EDir)) (demo_dirs []) = true ->
  forallb (fun '(x, e) => demo_name x e) (map_to_list (names (al_fs w))) = true ->
  agent_reachable demo_agent demo_abs demo_tracked demo_dirs w.
Proof.
  intros Hst Hl Hq Hd Hn. apply demo_reachable; [done| |done| |by apply demo_names].
  - apply Forall_forall. intros x Hx%list_elem_of_In. rewrite forallb_forall in Hl. by apply (bool_decide_eq_true_1 _), Hl.
  - intros d Hin%list_elem_of_In. rewrite forallb_forall in Hd. by apply (bool_decide_eq_true_1 _), Hd.
Qed.
Lemma new_uploads_ok f : uploads_ok demo_abs demo_tracked new_agent f.
Proof. split; intros *; cbn; by rewrite lookup_empty. Qed.

(** Three saves of two files reach the agent in order. *)
Lemma reachable_queue_drains_witness :
  exists attempts m' w', flush_queue demo_hash (fun _ => []) (B"/m") None (demo_mirror, demo_link [(Delivered, 5)]) =
      (Ok (attempts, 0), (m', w')) /\ Forall2 is_applied attempts demo_queue /\
    List.filter is_replayable (save_queue (mr_db m')) = [] /\
    forall p, tracked p -> view_hash demo_hash w' p = after_saves (view_hash demo_hash (demo_link [(Delivered, 5)])) demo_queue p.
Proof.
  apply (reachable_queue_drains demo_hash (fun _ => []) (B"/m") demo_disk demo_mirror (demo_link [(Delivered, 5)])).
  - reflexivity.
  - reflexivity.
  - reflexivity.
  - vm_compute. repeat constructor; set_solver.
  - change (List.filter is_replayable (save_queue (mr_db demo_mirror))) with demo_queue.
    constructor; [|constructor; [|constructor; [|constructor]]].
    + exists (B"one"). apply demo_sendable; [by left | vm_compute; reflexivity | vm_compute; congruence].
    + exists (B"two"). apply demo_sendable; [by right | vm_compute; reflexivity | vm_compute; congruence].
    + exists (B"three"). apply demo_sendable; [by left | vm_compute; reflexivity | vm_compute; congruence].
  - apply new_uploads_ok.
  - apply demo_ready; vm_compute; reflexivity.
  - vm_compute. repeat split.
Defined.

(** The reply to the first attempt is lost; the second one finds the content in place. *)
Definition lost_reply : mirror * agent_link :=
  snd (apply_save_entry demo_hash (fun _ => []) (B"/m") (entry_of_row (demo_save 1 (B"a.rs") (B"old") (B"one")))
         (demo_mirror, demo_link [(LostReply, 5)])).

Lemma lost_reply_ok : uploads_ok demo_abs demo_tracked (al_state (snd lost_reply)) (al_fs (snd lost_reply)).
Proof.
  assert (E : uploads (al_state (snd lost_reply)) = ∅) by (vm_compute; reflexivity). split; intros *; rewrite E; by rewrite lookup_empty.
Qed.

Lemma retry_after_lost_reply_is_applied_witness :
  view_hash demo_hash (snd lost_reply) (B"a.rs") = Some (demo_hash (B"one")) /\
  exists size m' d' w',
    apply_save_entry demo_hash (fun _ => []) (B"/m") (entry_of_row (demo_save 1 (B"a.rs") (B"old") (B"one"))) (fst lost_reply, snd lost_reply) =
      (Ok (AttemptApplied (B"a.rs") (demo_hash (B"one")) size), (m', w')) /\
    unchanged (snd lost_reply) w' /\ calm m' /\ settled d' demo_disk m' /\
    recorded (demo_save 1 (B"a.rs") (B"old") (B"one")) (mr_db (fst lost_reply)) d'.
Proof.
  split; [vm_compute; reflexivity|].
  apply (retry_after_lost_reply_is_applied demo_hash (fun _ => []) (B"/m") (demo_save 1 (B"a.rs") (B"old") (B"one")) demo_disk
    (B"one") (mr_db (fst lost_reply)) (fst lost_reply) (snd lost_reply)).
  - vm_compute. reflexivity.
  - split; [vm_compute; reflexivity|]. split; [exact (index_only_refl _) | refine (bool_decide_eq_true_1 _ _); vm_compute; reflexivity].
  - apply demo_sendable; [by left | vm_compute; reflexivity | vm_compute; congruence].
  - exact lost_reply_ok.
  - apply demo_ready; vm_compute; reflexivity.
  - vm_compute. reflexivity.
  - vm_compute. discriminate.
Defined.

(** No name of the demonstration's disk has an extension. *)
Lemma demo_no_leftover q : no_leftover demo_disk q.
Proof.
  intros n. destruct (demo_disk !! durable_tmp q n) as [c|] eqn:E; [|done]. exfalso.
  apply elem_of_map_to_list, list_elem_of_In in E.
  assert (Hf : forallb (fun x => bool_decide ("."%byte ∉ fst x)) (map_to_list demo_disk) = true) by (vm_compute; reflexivity).
  rewrite forallb_forall in Hf. specialize (Hf _ E). apply bool_decide_eq_true in Hf. apply Hf. cbn [fst]. unfold durable_tmp.
  destruct (with_extension_suffix q (B"tmp-" ++ to_decimal n)) as [pre ->]. apply elem_of_app. right. by left.
Qed.


(** The first save of the queue in one request; and a save of more than 4 MiB, which goes in chunks
    over a link that loses its second reply. *)
Definition big_content : bytes := replicate (Z.to_nat (SAVE_INLINE_MAX_BYTES + 1)) "x"%byte.
Definition big_save : queue_row := demo_save 4 (B"b.rs") (B"other") big_content.
Definition big_mirror : mirror := {|
  mr_db := with_queue 4 [big_save] empty_database; mr_txn := None; mr_disk := {[ B"/m/save-snapshots/4" := big_content ]};
  mr_clock := 0; mr_ticks := []; mr_faults := [] |}.

Lemma big_is_chunked : save_should_use_chunked_upload (zlen big_content) = true.
Proof.
  unfold save_should_use_chunked_upload, zlen, big_content. rewrite length_replicate, Z2Nat.id by done. reflexivity.
Qed.

Definition big_link : agent_link := demo_link [(Delivered, 5); (LostReply, 5)].
Definition small_attempt : result bytes SaveAttempt * (mirror * agent_link) :=
  apply_save_entry demo_hash (fun _ => []) (B"/m") (entry_of_row (demo_save 1 (B"a.rs") (B"old") (B"one")))
    (demo_mirror, demo_link [(Delivered, 5)]).
Definition big_attempt : result bytes SaveAttempt * (mirror * agent_link) :=
  apply_save_entry demo_hash (fun _ => []) (B"/m") (entry_of_row big_save) (big_mirror, big_link).

Lemma attempt_never_overwrites_remote_edits_witness :
  fst small_attempt = Ok (AttemptApplied (B"a.rs") (demo_hash (B"one")) 3) /\
  demo_hash <$> node_content (node_at (al_fs (snd (snd small_attempt))) (demo_abs (B"a.rs"))) = Some (demo_hash (B"one")) /\
  save_should_use_chunked_upload (zlen big_content) = true /\
  uploads_ok demo_abs demo_tracked (al_state (snd (snd big_attempt))) (al_fs (snd (snd big_attempt))) /\
  node_content (node_at (al_fs (snd (snd big_attempt))) (demo_abs (B"a.rs"))) =
    node_content (node_at (al_fs big_link) (demo_abs (B"a.rs"))).
Proof.
  pose proof (fun r m w => attempt_never_overwrites_remote_edits demo_hash (B"/w") demo_agent (fun _ => []) demo_abs demo_tracked
    demo_workspace (fun _ => []) (B"/m") (entry_of_row r) m w) as Hlaw.
  assert (Er : fst small_attempt = Ok (AttemptApplied (B"a.rs") (demo_hash (B"one")) 3)) by (vm_compute; reflexivity).
  destruct small_attempt as [r1 [m1 w1]] eqn:Es. destruct big_attempt as [r2 [m2 w2]] eqn:Eb. cbn [fst snd] in *. subst r1.
  destruct (Hlaw (demo_save 1 (B"a.rs") (B"old") (B"one")) demo_mirror (demo_link [(Delivered, 5)]) _ m1 w1 (new_uploads_ok _) (or_introl eq_refl) Es) as (_ & _ & _ & _ & Hh).
  destruct (Hlaw big_save big_mirror big_link r2 m2 w2 (new_uploads_ok _) (or_intror eq_refl) Eb) as (Hu & Hsame & _).
  split_and!; [done | exact Hh | exact big_is_chunked | exact Hu |].
  destruct Hsame as [H|(_ & _ & H)]; apply H; [by left | by left | done].
Defined.
