(* ===== verification/HydrateAgent.v ===== *)
(** * Hydration from an agent that answers

    Fetching a file in chunks from a remote that serves it completes, unless another
    request preempts it, and leaves the remote's bytes in the mirror. *)
From S2P Require Import Prelude Paths Protocol MirrorDb MirrorLogic SearchIndex SearchIndexProps Mirror MirrorProps MirrorTotal SaveReplay SaveReplayProps Hydrate HydrateProps.

(** The chunk that [hydrate] asks for at [offset], and whether it is the last. *)
Definition chunk_of (c : bytes) (offset : Z) : bytes := take (Z.to_nat DEFAULT_CHUNK_SIZE) (drop (Z.to_nat offset) c).
Definition is_last_chunk (c : bytes) (offset : Z) : bool := zlen c - offset <=? DEFAULT_CHUNK_SIZE.

(** A remote from which the file at a path can be read, chunk by chunk. *)
Class ServesReads (W : Type) `{Remote W} (hash_bytes : bytes -> bytes) := {
  serves : W -> bytes -> bytes -> Prop;
  law_read w path c offset : serves w path c -> 0 <= offset <= zlen c ->
    exists meta w', request (Request_ReadFile path offset (Some DEFAULT_CHUNK_SIZE)) w =
        (Ok (Response_ReadFile path offset (is_last_chunk c offset) (chunk_of c offset)
               (if is_last_chunk c offset then hash_bytes c else []) meta), w') /\
      fm_path meta = path /\ serves w' path c }.

(** The chunks fit in [budget] requests; an empty file takes one. *)
Definition fits_budget (c : bytes) (offset : Z) (budget : nat) : bool :=
  (0 <? budget)%nat && (zlen c - offset <=? Z.of_nat budget * DEFAULT_CHUNK_SIZE).

Lemma chunk_positive : 0 < DEFAULT_CHUNK_SIZE.
Proof. done. Qed.

Lemma budget_succ n : Z.of_nat (S n) * DEFAULT_CHUNK_SIZE = Z.of_nat n * DEFAULT_CHUNK_SIZE + DEFAULT_CHUNK_SIZE.
Proof. rewrite Nat2Z.inj_succ. apply Z.mul_succ_l. Qed.
Lemma budget_nonneg n : 0 <= Z.of_nat n * DEFAULT_CHUNK_SIZE.
Proof. pose proof chunk_positive. apply Z.mul_nonneg_nonneg; lia. Qed.

Section Fetch.
Context {W : Type} `{Remote W}.
Context (hash_bytes : bytes -> bytes) `{!ServesReads W hash_bytes} (Hhash : forall c, hash_bytes c <> []).
Context (utf8_error_text : bytes -> bytes) (root : bytes).

Lemma chunk_append c offset : 0 <= offset <= zlen c ->
  take (Z.to_nat offset) c ++ chunk_of c offset = take (Z.to_nat (offset + zlen (chunk_of c offset))) c.
Proof.
  intros Ho. unfold chunk_of, zlen in *. rewrite length_take, length_drop, take_take_drop.
  destruct (decide (Z.to_nat offset + Z.to_nat DEFAULT_CHUNK_SIZE <= length c)%nat).
  - f_equal. lia.
  - rewrite !take_ge; [done|lia..].
Qed.
Lemma last_chunk_all c offset : 0 <= offset <= zlen c -> is_last_chunk c offset = true ->
  take (Z.to_nat offset) c ++ chunk_of c offset = c.
Proof.
  intros Ho Hl. unfold chunk_of, is_last_chunk, zlen in *. rewrite take_take_drop. apply take_ge. lia.
Qed.
Lemma chunk_full c offset : 0 <= offset <= zlen c -> is_last_chunk c offset = false -> zlen (chunk_of c offset) = DEFAULT_CHUNK_SIZE.
Proof.
  intros Ho Hl. pose proof chunk_positive. unfold chunk_of, is_last_chunk, zlen in *. rewrite length_take, length_drop. lia.
Qed.

(** The same tables, and the files but for the part file. *)
Definition filled (part bs : bytes) (m m' : mirror) : Prop :=
  calm m' /\ mr_db m' = mr_db m /\ mr_txn m' = mr_txn m /\ mr_disk m' = <[part := bs]> (mr_disk m).

Lemma write_chunk part old bs m : calm m -> mr_disk m !! part = Some old ->
  exists m', write_all part bs m = (Ok (), m') /\ filled part (old ++ bs) m m'.
Proof.
  intros Hm Hold. eexists. split; [by apply write_all_calm|]. split_and!; [done..|]. cbn.
  apply map_eq. intros q. destruct (decide (q = part)) as [->|Hq].
  - by rewrite lookup_alter_eq, lookup_insert_eq, Hold.
  - by rewrite lookup_alter_ne, lookup_insert_ne.
Qed.

Lemma filled_trans part a b m m1 m2 : filled part a m m1 -> filled part b m1 m2 -> filled part b m m2.
Proof.
  intros (_ & H1 & H2 & H3) (H4 & H5 & H6 & H7). split; [done|]. split; [congruence|]. split; [congruence|].
  by rewrite H7, H3, insert_insert_eq.
Qed.

(** The loop fetches the rest of the file, or is preempted. *)
Lemma read_loop_run budget : forall path part c offset m w, calm m -> serves w path c -> 0 <= offset <= zlen c ->
  mr_disk m !! part = Some (take (Z.to_nat offset) c) ->
  exists r bs m' w', read_loop budget path part offset (m, w) = (Ok r, (m', w')) /\ filled part bs m m' /\ serves w' path c /\
    if fits_budget c offset budget then bs = c /\ exists meta, r = Some (meta, hash_bytes c) /\ fm_path meta = path else r = None.
Proof.
  induction budget as [|budget IH]; intros path part c offset m w Hm Hw Ho Hpart; cbn [read_loop].
  - exists None, (take (Z.to_nat offset) c), m, w. split; [done|]. split; [|done]. split_and!; try done. by rewrite insert_id.
  - destruct (law_read w path c offset Hw Ho) as (meta & w1 & E & Hpath & Hw1). rewrite side_bind_run, on_agent_run, E. cbn [fst snd].
    destruct (write_chunk part _ (chunk_of c offset) m Hm Hpart) as (m1 & E1 & Hf). rewrite side_bind_run, on_mirror_run, E1. cbn [fst snd].
    pose proof chunk_positive as Hpos. destruct (is_last_chunk c offset) eqn:El.
    + rewrite (last_chunk_all c offset) in Hf by done. destruct (bytes_eqb (hash_bytes c) []) eqn:Eh.
      { apply bytes_eqb_true in Eh. by destruct (Hhash c). }
      exists (Some (meta, hash_bytes c)), c, m1, w1. split; [done|]. split; [done|]. split; [done|].
      assert (fits_budget c offset (S budget) = true) as ->; [|eauto].
      unfold fits_budget, is_last_chunk in *. apply andb_true_iff. split; [done|].
      rewrite budget_succ. pose proof (budget_nonneg budget). lia.
    + pose proof (chunk_full c offset Ho El) as Hlen. rewrite (chunk_append c offset) in Hf by done.
      destruct (IH path part c (offset + zlen (chunk_of c offset)) m1 w1) as (r & bs & m2 & w2 & E2 & Hf2 & Hw2 & Hr).
      * apply Hf.
      * done.
      * rewrite Hlen. unfold is_last_chunk in El. lia.
      * destruct Hf as (_ & _ & _ & ->). apply lookup_insert_eq.
      * exists r, bs, m2, w2. split; [done|]. split; [by eapply filled_trans|]. split; [done|].
        assert (fits_budget c offset (S budget) = fits_budget c (offset + zlen (chunk_of c offset)) budget) as ->; [|done].
        unfold fits_budget, is_last_chunk in *. rewrite Hlen. destruct budget as [|budget]; cbn [Nat.ltb Nat.leb andb].
        -- exact El.
        -- rewrite (budget_succ (S budget)). lia.
Qed.

(** The local file may be replaced: there is none, or the mirror knows it and its bytes are the
    ones last synchronised. *)
Definition replaceable (m : mirror) (path lp : bytes) : Prop :=
  match files (mr_db m) !! path with
  | None => mr_disk m !! lp = None
  | Some row => fr_local_path row = lp /\ fr_dirty row = false /\
      match mr_disk m !! lp with
      | None => True
      | Some old => is_hydrated (fr_state row) = true /\ recorded_hash (mirror_entry_from_row path row) = Some (hash_bytes old)
      end
  end.

Lemma settled_self m : mr_txn m = None -> settled (mr_db m) (mr_disk m) m.
Proof. intros Ht. split; [done|]. by split; [apply index_only_refl|]. Qed.

(** Checking a clean file finds it clean. *)
Lemma sync_clean m path row : calm m -> mr_txn m = None -> normalized_path_string path = Some path ->
  files (mr_db m) !! path = Some row -> replaceable m path (fr_local_path row) ->
  exists e b m', sync_cached_file_integrity hash_bytes utf8_error_text root (mirror_entry_from_row path row) m = (Ok (e, b), m') /\
    me_dirty e = false /\ calm m' /\ mr_txn m' = None /\ mr_disk m' = mr_disk m.
Proof.
  intros Hm Ht Hp Hrow. unfold replaceable. rewrite Hrow. intros (_ & Hd & Hold).
  assert (Hsame : exists e b m', (mret (mirror_entry_from_row path row, false) : Mir (MirrorEntry * bool)) m = (Ok (e, b), m') /\
    me_dirty e = false /\ calm m' /\ mr_txn m' = None /\ mr_disk m' = mr_disk m) by (eexists _, _, m; by split_and!).
  unfold sync_cached_file_integrity. rewrite Mir_bind_run. change (me_state _) with (fr_state row).
  destruct (is_hydrated (fr_state row)) eqn:Eh; [|exact Hsame]. change (me_local_path _) with (fr_local_path row).
  rewrite (is_file_run (mr_disk m)) by done. destruct (mr_disk m !! fr_local_path row) as [old|] eqn:Eold; [|exact Hsame].
  rewrite bool_decide_eq_true_2 by (by eexists). cbn [negb]. destruct Hold as [_ Hold]. rewrite Mir_bind_run. unfold context.
  rewrite (hash_file_run hash_bytes (mr_disk m) m _ old) by done. cbn [map_err]. rewrite (bool_decide_eq_true_2 (recorded_hash _ = _)) by done.
  case_bool_decide; [exact Hsame|].
  destruct (verified_run utf8_error_text (mr_db m) (mr_disk m) m path row (hash_bytes old) old) as (e & m' & E & He & ? & ? & ?);
    [done|by apply settled_self|done..|]. rewrite Hd in He. eexists e, false, m'. by split_and!.
Qed.

Lemma prepare_replaceable m path lp rh : calm m -> mr_txn m = None -> normalized_path_string path = Some path -> replaceable m path lp ->
  exists m', prepare_hydration_target hash_bytes utf8_error_text root path lp rh m = (Ok ReplaceWithPart, m') /\
    calm m' /\ mr_txn m' = None /\ mr_disk m' = mr_disk m.
Proof.
  intros Hm Ht Hp Hr. unfold prepare_hydration_target.
  rewrite Mir_bind_run, (get_run (mr_db m) (mr_disk m) m path path); [|done|by apply settled_self|done].
  pose proof Hr as Hr'. unfold replaceable in Hr'. destruct (files (mr_db m) !! path) as [row|] eqn:Hrow; cbn [fmap option_fmap option_map].
  - destruct Hr' as (<- & Hd & Hold). rewrite Mir_bind_run, Mir_bind_run. change (me_local_path _) with (fr_local_path row).
    unfold file_exists. rewrite (is_file_run (mr_disk m)) by done. change (me_state _) with (fr_state row).
    assert (Hun : bool_decide (is_Some (mr_disk m !! fr_local_path row)) && negb (is_hydrated (fr_state row)) = false).
    { destruct (mr_disk m !! fr_local_path row) as [old|]; [|done]. destruct Hold as [-> _]. apply andb_false_r. }
    cbn [mret Mir_ret]. rewrite Hun, Mir_bind_run.
    destruct (sync_clean m path row Hm Ht Hp Hrow Hr) as (e & b & m' & -> & -> & ? & ? & ?). by exists m'.
  - rewrite Mir_bind_run. unfold file_exists. rewrite (is_file_run (mr_disk m)), Hr' by done. exists m. by split_and!.
Qed.

Lemma install_replaces m part lp h c : calm m -> mr_disk m !! part = Some c ->
  exists m', install_part ReplaceWithPart part lp h m = (Ok h, m') /\ calm m' /\ mr_db m' = mr_db m /\ mr_txn m' = mr_txn m /\
    mr_disk m' = <[lp := c]> (delete part (mr_disk m)).
Proof.
  intros Hm Hc. eexists. unfold install_part, rename_durable, rename, sync_parent_dir, context.
  rewrite !Mir_bind_run, io_calm, Hc by done. cbn [fst snd]. rewrite io_calm by done. by split_and!.
Qed.

(** What hydration leaves: the bytes of [c] as a clean file. *)
Definition holds_clean (m : mirror) (path lp c : bytes) (e : MirrorEntry) : Prop :=
  mr_disk m !! lp = Some c /\ (mirror_entry_from_row path <$> files (mr_db m) !! path) = Some e /\
  me_local_path e = lp /\ is_hydrated (me_state e) = true /\ me_dirty e = false /\
  me_remote_hash e = Some (hash_bytes c) /\ me_local_hash e = Some (hash_bytes c).

Lemma record_run m path lp c meta : calm m -> mr_txn m = None -> normalized_path_string path = Some path ->
  (forall m', local_path root path m' = (Ok lp, m')) -> fm_path meta = path -> mr_disk m !! lp = Some c ->
  exists e m', record_hydrated root meta (hash_bytes c) (hash_bytes c) m = (Ok (), m') /\ calm m' /\ mr_txn m' = None /\
    mr_disk m' = mr_disk m /\ holds_clean m' path lp c e.
Proof.
  intros Hm Ht Hp Hlp <- Hc. unfold record_hydrated. rewrite Mir_bind_run, Hlp, Mir_bind_run.
  destruct (now_ms_run m) as (now & m1 & -> & (Hd & Ht1 & Hk) & Hf). assert (Hm1 : calm m1) by (unfold calm in *; congruence).
  cbv zeta. unfold execute, try_execute. rewrite sqlite_calm by done. eexists _, _. split; [done|].
  split; [done|]. split; [cbn; congruence|]. split; [done|]. split; [cbn; by rewrite Hk|]. cbn. rewrite lookup_insert_eq.
  split; [by destruct (files (mr_db m1) !! fm_path meta)|]. by split_and!.
Qed.

Lemma filled_replaceable m m' path lp part bs : part <> lp -> filled part bs m m' -> replaceable m path lp -> replaceable m' path lp.
Proof.
  intros Hne (_ & Hd & _ & Hk). unfold replaceable. rewrite Hd, Hk, lookup_insert_ne by done. done.
Qed.

Lemma fetch_run budget path lp part c m w : calm m -> mr_txn m = None -> normalized_path_string path = Some path ->
  part <> lp -> serves w path c -> replaceable m path lp ->
  exists r m' w', fetch hash_bytes utf8_error_text root budget path lp part (m, w) = (Ok r, (m', w')) /\ serves w' path c /\
    calm m' /\ mr_txn m' = None /\
    if fits_budget c 0 budget
    then (exists meta, r = Some (meta, hash_bytes c, hash_bytes c) /\ fm_path meta = path) /\
      mr_disk m' = <[lp := c]> (delete part (mr_disk m))
    else r = None /\ exists bs, filled part bs m m'.
Proof.
  intros Hm Ht Hp Hne Hw Hr. unfold fetch. rewrite side_bind_run, on_mirror_run, create_calm by done. cbn [fst snd].
  set (m1 := with_disk _ m). assert (Hf1 : filled part [] m m1) by done.
  destruct (read_loop_run budget path part c 0 m1 w) as (r & bs & m2 & w2 & E & Hf2 & Hw2 & Hcase); [done..|unfold zlen; lia| |].
  { cbn. by rewrite lookup_insert_eq. }
  pose proof (filled_trans _ _ _ _ _ _ Hf1 Hf2) as Hf. pose proof Hf as (Hm2 & Hd2 & Ht2 & Hk2). rewrite Ht in Ht2.
  rewrite side_bind_run, E. destruct (fits_budget c 0 budget); cycle 1.
  { subst r. exists None, m2, w2. split_and!; try done. by exists bs. }
  destruct Hcase as (-> & meta & -> & Hmeta).
  rewrite side_bind_run, on_mirror_run. unfold sync_all. rewrite io_calm by done. cbn [fst snd mret Mir_ret].
  rewrite side_bind_run, on_mirror_run, (hash_file_run hash_bytes (mr_disk m2) m2 part c); [|done|done|by rewrite Hk2, lookup_insert_eq].
  cbn [fst snd]. rewrite (proj2 (bytes_eqb_true _ _) eq_refl). cbn [negb]. rewrite side_bind_run. cbn [mret Side_ret].
  destruct (prepare_replaceable m2 path lp (hash_bytes c)) as (m3 & E3 & Hm3 & Ht3 & Hk3); [done..|by eapply filled_replaceable|].
  rewrite side_bind_run, on_mirror_run, E3. cbn [fst snd].
  destruct (install_replaces m3 part lp (hash_bytes c) c) as (m4 & E4 & Hm4 & _ & Ht4 & Hk4); [done|by rewrite Hk3, Hk2, lookup_insert_eq|].
  rewrite side_bind_run, on_mirror_run, E4. exists (Some (meta, hash_bytes c, hash_bytes c)), m4, w2.
  split; [done|]. split; [done|]. split; [done|]. split; [congruence|]. split; [by exists meta|].
  by rewrite Hk4, Hk3, Hk2, delete_insert_eq.
Qed.

(** C31 (termination) Hydrating a file that the remote serves, when no call fails, no transaction is open and the
    local file may be replaced, being absent or clean and as it was last synchronised: with a request for each chunk before another request preempts it, it returns with
    the remote's bytes as a clean local file and nothing else changed but the part file, which is
    gone; with fewer it returns [Preempted], and the tables and files are as before. *)
Theorem hydrate_completes budget path lp c m w :
  calm m -> mr_txn m = None -> normalized_path_string path = Some path ->
  (forall m', local_path root path m' = (Ok lp, m')) -> hydrate_part lp <> lp ->
  serves w path c -> replaceable m path lp ->
  exists m' w', serves w' path c /\
    if fits_budget c 0 budget then
      exists e, hydrate hash_bytes utf8_error_text root budget path (m, w) = (Ok (Hydrated e Chunked), (m', w')) /\
        holds_clean m' path lp c e /\ mr_disk m' = <[lp := c]> (delete (hydrate_part lp) (mr_disk m))
    else hydrate hash_bytes utf8_error_text root budget path (m, w) = (Ok Preempted, (m', w')) /\
      mr_db m' = mr_db m /\ mr_disk m' = delete (hydrate_part lp) (mr_disk m).
Proof.
  intros Hm Ht Hp Hlp Hne Hw Hr. unfold hydrate. rewrite side_bind_run, on_mirror_run, Hlp. cbn [fst snd].
  rewrite side_bind_run, on_mirror_run. unfold create_dir_all. rewrite io_calm by done. cbn [fst snd mret Mir_ret]. cbv zeta.
  destruct (fetch_run budget path lp (hydrate_part lp) c m w) as (r & m1 & w1 & E & Hw1 & Hm1 & Ht1 & Hcase); [done..|].
  rewrite side_bind_run. unfold side_catch. rewrite E. destruct (fits_budget c 0 budget).
  - destruct Hcase as ((meta & -> & Hmeta) & Hk1).
    destruct (record_run m1 path lp c meta) as (e & m2 & E2 & Hm2 & Ht2 & Hk2 & Hholds); [done..|by rewrite Hk1, lookup_insert_eq|].
    pose proof Hholds as (Hc & He & He1 & _). rewrite side_bind_run, on_mirror_run, E2. cbn [fst snd].
    rewrite side_bind_run, on_mirror_run, (get_or_run (mr_db m2) (mr_disk m2) m2 path path), He; [|done|by apply settled_self|done].
    cbn [fst snd ok_or]. rewrite side_bind_run, on_mirror_run. unfold metadata_len, catch, fmap, Mir_fmap.
    rewrite Mir_bind_run, read_file_calm, He1, Hc by done. cbn [fst snd ok_or mret Mir_ret].
    destruct (settled_rebuild utf8_error_text (mr_db m2) (mr_disk m2) e (hash_bytes c) (zlen c) c) with (m := m2)
      as (x & m3 & E3 & Hm3 & (Ht3 & (Hfiles & _) & Hk3)); [|by rewrite He1|done|by apply settled_self|].
    { destruct (files (mr_db m2) !! path) as [row|]; [|done]. injection He as <-. cbn. unfold normalized_path_string in Hp.
      by destruct (normalize_relative_path path). }
    rewrite side_bind_run, on_mirror_run, E3. exists m3, w1. split; [done|]. exists e. split; [done|]. split; [|congruence].
    unfold holds_clean. rewrite Hfiles, Hk3. exact Hholds.
  - destruct Hcase as (-> & bs & _ & Hd & _ & Hk). rewrite side_bind_run, on_mirror_run. unfold ignore, catch, remove_file.
    rewrite Mir_bind_run, io_calm by done. rewrite Hk, lookup_insert_eq. cbn [fst snd mret Mir_ret].
    eexists _, w1. split; [done|]. split; [done|]. split; [done|]. cbn. by rewrite delete_insert_eq.
Qed.
End Fetch.
