(* ===== verification/HydrateServed.v ===== *)
(** * Hydration from the agent

    The agent of AgentReads.v, while no system call fails, serves its files to the
    chunked reads of [hydrate], so hydration from it completes. *)
From S2P Require Import Prelude Paths Protocol MirrorDb MirrorLogic SearchIndex Mirror MirrorTotal SaveReplay Hydrate HydrateAgent.
From S2P Require Import AgentFs AgentWrite AgentWriteProps AgentUploads AgentReads AgentReadsProps.

(** The agent at the other end of a connection that works. *)
Record agent_process := { ap_state : AgentState; ap_grep : GrepState; ap_fs : fs }.

Section Served.
Context `{Hplat : Platform} (hash_bytes : bytes -> bytes) (agent_root : bytes) (error_text : agent_error -> bytes).
Context (package_version : bytes) (capabilities : CapabilitySet) (host : WriteHost).

Definition ask (q : Request) (w : agent_process) : result bytes Response * agent_process :=
  let '(r, st, gs, f) := handle_request hash_bytes agent_root error_text package_version capabilities host
    (clock (ap_fs w)) (ap_state w) (ap_grep w) q (ap_fs w) in
  (map_err error_text r, {| ap_state := st; ap_grep := gs; ap_fs := f |}).
#[local] Instance asks : Remote agent_process := ask.

(** The agent finds the file of [path], and no call fails. *)
Definition has_file (w : agent_process) (path c : bytes) : Prop :=
  quiet (ap_fs w) /\ exists abs, resolve_content (ap_fs w) path = Ok abs /\ node_at (ap_fs w) abs = Some (NFile c).

Lemma open_content_run f path abs c : quiet f -> resolve_content f path = Ok abs -> node_at f abs = Some (NFile c) ->
  exists ino, open_content path f = (Ok (ino, metadata_of f (EFile ino)), f) /\ file_data f ino = c.
Proof.
  intros Hq Habs Hn. unfold node_at in Hn. destruct (names f !! abs) as [[ino| |]|] eqn:En; [|done..]. injection Hn as <-.
  exists ino. split; [|done]. unfold open_content. rewrite run_get. unfold lift_result. rewrite Habs.
  rewrite (run_bind _ _ f abs f) by done. rewrite (run_bind _ _ f ino f), run_get; [done|].
  unfold open_existing_content_file. by rewrite run_syscall_then, run_get, En, run_syscall_then.
Qed.

Lemma read_chunk_run f path abs c offset : quiet f -> resolve_content f path = Ok abs -> node_at f abs = Some (NFile c) ->
  0 <= offset <= zlen c ->
  exists meta, read_file hash_bytes path offset (Some DEFAULT_CHUNK_SIZE) f =
    (Ok (Response_ReadFile path offset (is_last_chunk c offset) (chunk_of c offset)
           (if is_last_chunk c offset then hash_bytes c else []) meta), f) /\ fm_path meta = path.
Proof.
  intros Hq Habs Hn Ho. destruct (open_content_run f path abs c Hq Habs Hn) as (ino & E & Hdata).
  unfold read_file. rewrite (run_bind _ _ _ _ _ E). cbv zeta. change (md_len (metadata_of f (EFile ino))) with (zlen (file_data f ino)).
  rewrite Hdata. destruct (offset >? zlen c) eqn:E1; [lia|]. rewrite run_syscall_then by done. cbn [default id from_option]. unfold id.
  set (len := Z.min DEFAULT_CHUNK_SIZE (zlen c - offset)).
  assert (Hlen : len <= DEFAULT_CHUNK_SIZE) by (unfold len; lia).
  assert (Hcap : DEFAULT_CHUNK_SIZE <= AGENT_READ_RESPONSE_MAX_BYTES) by (by apply Z.leb_le).
  destruct (len >? AGENT_READ_RESPONSE_MAX_BYTES) eqn:E2; [lia|].
  assert (Hchunk : take (Z.to_nat len) (drop (Z.to_nat offset) c) = chunk_of c offset).
  { unfold chunk_of, len. destruct (decide (DEFAULT_CHUNK_SIZE <= zlen c - offset)); [by rewrite Z.min_l|].
    rewrite Z.min_r by lia. unfold zlen in *. rewrite !take_ge; [done|rewrite length_drop; lia..]. }
  assert (Hsize : zlen (chunk_of c offset) = len).
  { rewrite <- Hchunk. unfold zlen in *. rewrite length_take, length_drop. pose proof chunk_positive. lia. }
  rewrite (run_bind _ _ f (chunk_of c offset) f); cycle 1.
  { unfold read_exact_at. rewrite run_syscall_then, run_get, Hdata, Hchunk by done. cbv zeta. by rewrite Hsize, Z.ltb_irrefl. }
  assert (Heof : (offset + len >=? zlen c) = is_last_chunk c offset) by (unfold is_last_chunk, len; pose proof chunk_positive; lia).
  rewrite Heof. destruct (is_last_chunk c offset).
  - rewrite (run_bind _ _ _ _ _ (run_hash_open hash_bytes ino f Hq)), Hdata. by eexists.
  - by eexists.
Qed.

#[local] Instance agent_serves : ServesReads agent_process hash_bytes.
Proof.
  refine {| serves := has_file |}. intros w path c offset (Hq & abs & Habs & Hn) Ho.
  destruct (read_chunk_run _ path abs c offset Hq Habs Hn Ho) as (meta & E & Hmeta).
  exists meta, w. split; [|split; [done|]; split; [done|]; by exists abs].
  unfold request, asks, ask, handle_request. rewrite E. by destruct w.
Defined.
End Served.

(** A first read of a small file, with one request to spare, and preempted before it began. *)
Module FirstRead.
Definition hash (c : bytes) : bytes := B"h" ++ c.
Definition capabilities : CapabilitySet := v1_agent.
Definition no_text (e : agent_error) : bytes := [].
Definition agent : agent_process := {|
  ap_state := new_agent; ap_grep := TwoFiles.new_grep; ap_fs := TwoFiles.files |}.
Definition empty_mirror : mirror := {|
  mr_db := empty_database; mr_txn := None; mr_disk := ∅; mr_clock := 0; mr_ticks := []; mr_faults := [] |}.
#[global] Instance link : Remote agent_process := asks hash (B"/w") no_text (B"1") capabilities (demo_host nobody).
#[global] Instance reads : ServesReads agent_process hash := agent_serves hash (B"/w") no_text (B"1") capabilities (demo_host nobody).
Definition fetch_a (budget : nat) := hydrate hash (fun _ => []) (B"/m") budget (B"a.txt") (empty_mirror, agent).
Lemma agent_has_a : serves agent (B"a.txt") (B"miss").
Proof. split; [done|]. by exists (B"/w/a.txt"). Qed.
End FirstRead.

Lemma hydrate_completes_witness :
  (exists m' w', serves w' (B"a.txt") (B"miss") /\ exists e,
     FirstRead.fetch_a 1 = (Ok (Hydrated e Chunked), (m', w')) /\
     holds_clean FirstRead.hash m' (B"a.txt") (B"/m/files/a.txt") (B"miss") e /\
     mr_disk m' = <[B"/m/files/a.txt" := B"miss"]> (delete (hydrate_part (B"/m/files/a.txt")) ∅)) /\
  exists m' w', serves w' (B"a.txt") (B"miss") /\ FirstRead.fetch_a 0 = (Ok Preempted, (m', w')) /\
    mr_db m' = empty_database /\ mr_disk m' = delete (hydrate_part (B"/m/files/a.txt")) ∅.
Proof.
  split.
  - exact (hydrate_completes FirstRead.hash ltac:(discriminate) (fun _ => []) (B"/m") 1 (B"a.txt") (B"/m/files/a.txt") (B"miss")
      FirstRead.empty_mirror FirstRead.agent eq_refl eq_refl eq_refl (fun _ => eq_refl) ltac:(discriminate) FirstRead.agent_has_a eq_refl).
  - exact (hydrate_completes FirstRead.hash ltac:(discriminate) (fun _ => []) (B"/m") 0 (B"a.txt") (B"/m/files/a.txt") (B"miss")
      FirstRead.empty_mirror FirstRead.agent eq_refl eq_refl eq_refl (fun _ => eq_refl) ltac:(discriminate) FirstRead.agent_has_a eq_refl).
Defined.
