(* ===== verification/FetchHost.v ===== *)
(** * The host of a registry fetch (crates/nrm-registry/src/fetch.rs)

    The errors of a fetch, its deadline, and the clock, the files and the network that it meets.
    Every look at the clock and every system call is numbered: the class [Machine] says what the
    clock shows, how each call ends and what other processes did to the files before it.  A loop
    that does not end within its fuel stops with [Spin]. *)
From S2P Require Import Prelude Paths Registry UrlPolicy.

(** ** Errors *)

(** [std::io::ErrorKind], as far as the code tells kinds apart. *)
Inductive ErrorKind :=
| NotFound | AlreadyExists | WouldBlock | Interrupted | TimedOut | ConnectionAborted | ConnectionRefused
| ConnectionReset | NetworkUnreachable | HostUnreachable | AddrNotAvailable | NotConnected | BrokenPipe
| UnexpectedEof | WriteZero | InvalidData | InvalidInput | OtherKind.
#[export] Instance error_kind_eq_dec : EqDecision ErrorKind.
Proof. solve_decision. Defined.

(** [ureq::Error], as far as [network_error] tells its cases apart. *)
Inductive UreqError := Ureq_Timeout | Ureq_HostNotFound | Ureq_ConnectionFailed | Ureq_Io (kind : ErrorKind) | Ureq_Other.

Inductive NetworkFailureKind := Timeout | Connection | Protocol.

Inductive FetchErrorCode :=
| Code_UrlPolicy | Code_MalformedManifest | Code_MalformedSignature | Code_InvalidSignatureThreshold
| Code_InsufficientSignatures | Code_VersionMismatch | Code_ProtocolVersionMismatch | Code_TargetNotPublished
| Code_InvalidTimeout | Code_OperationDeadline | Code_InvalidCacheLimit | Code_CacheLockTimeout | Code_LocalIo
| Code_NetworkTimeout | Code_NetworkConnection | Code_NetworkProtocol | Code_HttpRateLimited
| Code_HttpServerError | Code_HttpClientError | Code_HttpUnexpectedStatus | Code_RedirectLocationMissing
| Code_RedirectLimitExceeded | Code_RedirectPolicy | Code_BodyTooLarge | Code_ArtifactSizeMismatch
| Code_ArtifactDigestMismatch | Code_FileArtifactEscapes | Code_NotRegularFile | Code_CacheBudgetExceeded
| Code_CacheFallbackUnavailable.
#[export] Instance fetch_error_code_eq_dec : EqDecision FetchErrorCode.
Proof. solve_decision. Defined.

(** [FetchErrorCode::as_str] *)
Definition code_as_str (code : FetchErrorCode) : bytes :=
  match code with
  | Code_UrlPolicy => B"url_policy"
  | Code_MalformedManifest => B"malformed_manifest"
  | Code_MalformedSignature => B"malformed_signature"
  | Code_InvalidSignatureThreshold => B"invalid_signature_threshold"
  | Code_InsufficientSignatures => B"insufficient_signatures"
  | Code_VersionMismatch => B"version_mismatch"
  | Code_ProtocolVersionMismatch => B"protocol_version_mismatch"
  | Code_TargetNotPublished => B"target_not_published"
  | Code_InvalidTimeout => B"invalid_timeout"
  | Code_OperationDeadline => B"operation_deadline"
  | Code_InvalidCacheLimit => B"invalid_cache_limit"
  | Code_CacheLockTimeout => B"cache_lock_timeout"
  | Code_LocalIo => B"local_io"
  | Code_NetworkTimeout => B"network_timeout"
  | Code_NetworkConnection => B"network_connection"
  | Code_NetworkProtocol => B"network_protocol"
  | Code_HttpRateLimited => B"http_rate_limited"
  | Code_HttpServerError => B"http_server_error"
  | Code_HttpClientError => B"http_client_error"
  | Code_HttpUnexpectedStatus => B"http_unexpected_status"
  | Code_RedirectLocationMissing => B"redirect_location_missing"
  | Code_RedirectLimitExceeded => B"redirect_limit_exceeded"
  | Code_RedirectPolicy => B"redirect_policy"
  | Code_BodyTooLarge => B"body_too_large"
  | Code_ArtifactSizeMismatch => B"artifact_size_mismatch"
  | Code_ArtifactDigestMismatch => B"artifact_digest_mismatch"
  | Code_FileArtifactEscapes => B"file_artifact_escapes"
  | Code_NotRegularFile => B"not_regular_file"
  | Code_CacheBudgetExceeded => B"cache_budget_exceeded"
  | Code_CacheFallbackUnavailable => B"cache_fallback_unavailable"
  end.

Section Errors.
Context `{RegistryDeps} `{UrlLib}.

Inductive FetchError :=
| UrlPolicy (e : UrlPolicyError)
| Verification (e : VerificationError)
| TargetNotPublished (t : AgentTarget)
| InvalidTimeout
| OperationDeadline (phase : bytes)
| InvalidCacheLimit
| CacheLockTimeout (path : bytes)
| Io (operation path : bytes) (source : ErrorKind)
| Network (kind : NetworkFailureKind) (url : bytes) (source : UreqError)
| HttpStatus (url : bytes) (status : Z)
| MissingRedirectLocation (url : bytes)
| TooManyRedirects (max : nat)
| RedirectPolicy (from_ to_ reason : bytes)
| BodyTooLarge (kind url : bytes) (max : Z)
| ArtifactSize (filename : bytes) (expected actual : Z)
| ArtifactDigest (filename expected actual : bytes)
| FileArtifactEscapes (artifact manifest_dir : bytes)
| NotRegularFile (path : bytes)
| CacheBudget (required max : Z)
| CacheFallbackUnavailable (network cache : bytes).

(** [FetchError::code] *)
Definition code (error : FetchError) : FetchErrorCode :=
  match error with
  | UrlPolicy _ => Code_UrlPolicy
  | Verification (SignatureDocumentError _) => Code_MalformedSignature
  | Verification (InvalidThreshold _ _) => Code_InvalidSignatureThreshold
  | Verification (InsufficientSignatures _ _) => Code_InsufficientSignatures
  | Verification (ManifestError_ (VersionMismatch _ _)) => Code_VersionMismatch
  | Verification (ManifestError_ (ManifestProtocolVersionMismatch _ _)) => Code_ProtocolVersionMismatch
  | Verification (ManifestError_ _) => Code_MalformedManifest
  | TargetNotPublished _ => Code_TargetNotPublished
  | InvalidTimeout => Code_InvalidTimeout
  | OperationDeadline _ => Code_OperationDeadline
  | InvalidCacheLimit => Code_InvalidCacheLimit
  | CacheLockTimeout _ => Code_CacheLockTimeout
  | Io _ _ _ => Code_LocalIo
  | Network Timeout _ _ => Code_NetworkTimeout
  | Network Connection _ _ => Code_NetworkConnection
  | Network Protocol _ _ => Code_NetworkProtocol
  | HttpStatus _ status =>
      if status =? 429 then Code_HttpRateLimited
      else if (status >=? 500) && (status <=? 599) then Code_HttpServerError
      else if (status >=? 400) && (status <=? 499) then Code_HttpClientError
      else Code_HttpUnexpectedStatus
  | MissingRedirectLocation _ => Code_RedirectLocationMissing
  | TooManyRedirects _ => Code_RedirectLimitExceeded
  | RedirectPolicy _ _ _ => Code_RedirectPolicy
  | BodyTooLarge _ _ _ => Code_BodyTooLarge
  | ArtifactSize _ _ _ => Code_ArtifactSizeMismatch
  | ArtifactDigest _ _ _ => Code_ArtifactDigestMismatch
  | FileArtifactEscapes _ _ => Code_FileArtifactEscapes
  | NotRegularFile _ => Code_NotRegularFile
  | CacheBudget _ _ => Code_CacheBudgetExceeded
  | CacheFallbackUnavailable _ _ => Code_CacheFallbackUnavailable
  end.

Definition is_cache_fallback_eligible (error : FetchError) : bool :=
  match error with
  | Network (Timeout | Connection) _ _ => true
  | HttpStatus _ status => (status =? 429) || ((500 <=? status) && (status <=? 599))
  | _ => false
  end.
End Errors.

(** ** Files *)

(** What a path names; a file has the identity (device and inode) that [same_file_identity]
    compares.  Paths are canonical names; a link is an entry that is neither file nor directory. *)
Inductive node := NFile (ident : Z) (data : bytes) (modified : option Z) | NDir | NLink.
#[export] Instance node_eq_dec : EqDecision node.
Proof. solve_decision. Defined.
Abbreviation files := (gmap bytes node).

(** How a system call ends: [o_others] is what other processes did before it, [o_fail] a failure
    without effect, [o_amount] the bytes a read or write moves, [o_blocked] whether somebody else
    holds the lock, [o_now] the time of day, [o_ident] the identity of a file the call creates. *)
Record outcome := {
  o_others : files -> files; o_fail : option ErrorKind; o_amount : nat; o_blocked : bool; o_now : Z; o_ident : Z }.

(** ** The network *)

(** [ureq::Agent] as [http_agent] configures it, and a response before its body is read. *)
Record HttpAgent := {
  timeout_global : Z; max_redirects : Z; http_status_as_error : bool; https_only : bool; use_proxy : bool }.
Record Response := {
  status : Z; location_header : option bytes; content_length_header : option bytes; body : bytes }.

(** [Url::join], [Url::to_file_path] and the setters of the [url] crate.  Text after the serialised
    URL and a new last segment of its path leave the scheme alone. *)
Class FetchUrls `{UrlLib} := {
  url_join : Url -> bytes -> option Url;
  url_to_file_path : Url -> option bytes;
  url_clear_username : Url -> Url;
  url_clear_password : Url -> Url;
  url_set_query : Url -> option bytes -> Url;
  url_set_fragment : Url -> option bytes -> Url;
  url_suffix_scheme url suffix url' : url_parse (url_as_str url ++ suffix) = Ok url' -> url_scheme url' = url_scheme url;
  url_last_segment_scheme url name url' : url_with_last_segment url name = Some url' -> url_scheme url' = url_scheme url }.

(** [canonical] follows links to the name of what a path names; a name that is no link is its own.
    A call fails with [NotFound] only when there is no such entry. *)
Class Machine `{RegistryDeps} `{UrlLib} := {
  now_at : nat -> Z;
  outcome_of : nat -> outcome;
  http_call : nat -> HttpAgent -> Url -> Z -> result UreqError Response;
  canonical : files -> bytes -> option bytes;
  process_id : Z;
  error_display : FetchError -> bytes;
  canonical_self fs p n : fs !! p = Some n -> n <> NLink -> canonical fs p = Some p;
  fail_not_found i : o_fail (outcome_of i) <> Some NotFound }.

(** ** Effects *)

Record world `{UrlLib} := {
  w_files : files; looks : nat; calls : nat; temp_file_sequence : Z; requested : list Url }.

Section Effects.
Context `{Hreg : RegistryDeps} `{Hurl : UrlLib} `{Hmach : !Machine}.

Inductive stop := Failed (e : FetchError) | Spin.
Definition F (A : Type) : Type := world -> result stop A * world.
#[export] Instance F_ret : MRet F := fun A a w => (Ok a, w).
#[export] Instance F_bind : MBind F := fun A B k m w =>
  match m w with
  | (Ok a, w) => k a w
  | (Err e, w) => (Err e, w)
  end.
Definition throw {A} (e : FetchError) : F A := fun w => (Err (Failed e), w).
Definition spin {A} : F A := fun w => (Err Spin, w).
(** A [Result] the code looks at. *)
Definition attempt {A} (m : F A) : F (result FetchError A) := fun w =>
  match m w with
  | (Ok a, w) => (Ok (Ok a), w)
  | (Err (Failed e), w) => (Ok (Err e), w)
  | (Err Spin, w) => (Err Spin, w)
  end.
(** [r?] *)
Definition lift {A} (r : result FetchError A) : F A := match r with Ok a => mret a | Err e => throw e end.
Definition lift_url {A} (r : result UrlPolicyError A) : F A := lift (map_err UrlPolicy r).
Definition io_error (operation path : bytes) (source : ErrorKind) : FetchError := Io operation path source.
(** [r.map_err(|source| io_error(operation, path, source))?] *)
Definition io_or {A} (operation path : bytes) (r : result ErrorKind A) : F A :=
  lift (map_err (io_error operation path) r).

(** ** The deadline *)

(** [Instant::now()] *)
Definition instant_now : F Z := fun w =>
  (Ok (now_at (looks w)),
   {| w_files := w_files w; looks := S (looks w); calls := calls w;
      temp_file_sequence := temp_file_sequence w; requested := requested w |}).

Record FetchDeadline := { started : Z; total : Z }.
Definition from_timeout (timeout : Z) : F FetchDeadline :=
  now ← instant_now; mret {| started := now; total := timeout |}.
Definition remaining_duration (self : FetchDeadline) : F Z :=
  now ← instant_now; mret (saturating_sub (total self) (Z.max 0 (now - started self))).
Definition check (self : FetchDeadline) (phase : bytes) : F unit :=
  left ← remaining_duration self;
  if left =? 0 then throw (OperationDeadline phase) else mret ().
Definition remaining (self : FetchDeadline) (phase : bytes) : F Z :=
  left ← remaining_duration self;
  if left =? 0 then throw (OperationDeadline phase) else mret left.

(** ** System calls *)

Definition io {A} (f : outcome -> files -> result ErrorKind A * files) : F (result ErrorKind A) := fun w =>
  let o := outcome_of (calls w) in
  let fs := o_others o (w_files w) in
  let '(r, fs) := match o_fail o with Some kind => (Err kind, fs) | None => f o fs end in
  (Ok r, {| w_files := fs; looks := looks w; calls := S (calls w);
            temp_file_sequence := temp_file_sequence w; requested := requested w |}).

Definition is_dir (fs : files) (path : bytes) : bool :=
  match canonical fs path ≫= fun c => fs !! c with Some NDir => true | _ => false end.

(** [Path::join], and the parent and last component of a path that it made. *)
Definition path_join (dir name : bytes) : bytes :=
  if is_absolute name then name
  else if bytes_eqb dir [] || ends_with (B"/") dir then dir ++ name
  else dir ++ "/"%byte :: name.
Definition path_parent (path : bytes) : option bytes := fst <$> rsplit_once "/" path.
Definition path_file_name (path : bytes) : bytes := from_option snd path (rsplit_once "/" path).

(** [fs::symlink_metadata] and [DirEntry::metadata]; [fs::metadata]; [File::open]: an open file
    keeps its identity and is read as it was when it was opened. *)
Definition lookup_or_missing (o : option node) : result ErrorKind node := ok_or o NotFound.
Definition symlink_metadata (path : bytes) : F (result ErrorKind node) :=
  io (fun _ fs => (lookup_or_missing (fs !! path), fs)).
Definition metadata (path : bytes) : F (result ErrorKind node) :=
  io (fun _ fs => (lookup_or_missing (canonical fs path ≫= fun c => fs !! c), fs)).
Definition open_read (path : bytes) : F (result ErrorKind node) := metadata path.
Definition canonicalize (path : bytes) : F (result ErrorKind bytes) :=
  io (fun _ fs => (ok_or (canonical fs path) NotFound, fs)).
(** Metadata, locks, seeks and synchronisation of an open file: calls that may only fail. *)
Definition handle_call : F (result ErrorKind unit) := io (fun _ fs => (Ok (), fs)).

Inductive lock_result := Locked | LockWouldBlock | LockError (kind : ErrorKind).
(** [fs4::FileExt::try_lock] and [try_lock_shared] *)
Definition try_lock : F lock_result :=
  r ← io (fun o fs => (Ok (o_blocked o), fs));
  mret (match r with
        | Ok false => Locked
        | Ok true => LockWouldBlock
        | Err kind => LockError kind
        end).

(** [OpenOptions::new().write(true).open(path)]: the name of the file. *)
Definition open_write (path : bytes) : F (result ErrorKind bytes) :=
  io (fun _ fs =>
    (match canonical fs path with
     | None => Err NotFound
     | Some c => match fs !! c with Some (NFile _ _ _) => Ok c | Some _ => Err OtherKind | None => Err NotFound end
     end, fs)).

(** [fs::create_dir_all]; the parents it may create are not looked at. *)
Definition create_dir_all (path : bytes) : F (result ErrorKind unit) :=
  io (fun _ fs =>
    match fs !! path with
    | None => (Ok (), <[path := NDir]> fs)
    | Some _ => (if is_dir fs path then Ok () else Err AlreadyExists, fs)
    end).

(** [File::write] at the end of the file, and [Read::read] of a file or response body of which
    [rest] is unread; only the end of it reads as nothing. *)
Definition append (path chunk : bytes) (now : Z) (fs : files) : files :=
  match fs !! path with
  | Some (NFile ident data _) => <[path := NFile ident (data ++ chunk) (Some now)]> fs
  | _ => fs
  end.
Definition write (path bs : bytes) : F (result ErrorKind nat) :=
  io (fun o fs =>
    let n := Nat.min (o_amount o) (length bs) in (Ok n, append path (take n bs) (o_now o) fs)).
Definition read (limit : Z) (rest : bytes) : F (result ErrorKind bytes) :=
  io (fun o fs => (Ok (take (Nat.min (Z.to_nat limit) (Nat.max 1 (o_amount o))) rest), fs)).

(** [fs::remove_file], [fs::rename], [File::set_times] *)
Definition remove_file (path : bytes) : F (result ErrorKind unit) :=
  io (fun _ fs =>
    match fs !! path with
    | None => (Err NotFound, fs)
    | Some NDir => (Err OtherKind, fs)
    | Some _ => (Ok (), delete path fs)
    end).
Definition rename (from_ to_ : bytes) : F (result ErrorKind unit) :=
  io (fun _ fs =>
    match fs !! from_, fs !! to_ with
    | None, _ => (Err NotFound, fs)
    | _, Some NDir => (Err OtherKind, fs)
    | Some n, _ => (Ok (), <[to_ := n]> (delete from_ fs))
    end).
Definition set_times (path : bytes) : F (result ErrorKind unit) :=
  io (fun o fs =>
    (Ok (), match fs !! path with
            | Some (NFile ident data _) => <[path := NFile ident data (Some (o_now o))]> fs
            | _ => fs
            end)).

(** The paths of the entries of a directory. *)
Definition entries_of (dir : bytes) (fs : files) : list bytes :=
  List.filter (fun p => bool_decide (path_parent p = Some dir)) (map_to_list fs).*1.
Definition read_dir (dir : bytes) : F (result ErrorKind (list bytes)) :=
  io (fun _ fs => (if is_dir fs dir then Ok (entries_of dir fs) else Err NotFound, fs)).

(** [open_private], which always opens for writing here. *)
Definition open_private (path : bytes) (create_new : bool) : F (result ErrorKind unit) :=
  io (fun o fs =>
    match fs !! path with
    | None =>
        if from_option (is_dir fs) false (path_parent path)
        then (Ok (), <[path := NFile (o_ident o) [] (Some (o_now o))]> fs)
        else (Err NotFound, fs)
    | Some n =>
        (if create_new then Err AlreadyExists
         else match n with NDir => Err OtherKind | _ => Ok () end, fs)
    end).

(** [Agent::get(url)] with a timeout, [call()]: every request is recorded. *)
Definition call (agent : HttpAgent) (url : Url) (timeout : Z) : F (result UreqError Response) := fun w =>
  (Ok (http_call (length (requested w)) agent url timeout),
   {| w_files := w_files w; looks := looks w; calls := calls w;
      temp_file_sequence := temp_file_sequence w; requested := requested w ++ [url] |}).
End Effects.
