(* ===== verification/FetchHttp.v ===== *)
(** * Requests and redirects of a registry fetch (crates/nrm-registry/src/fetch.rs)

    The URLs a fetch may turn to, following redirects, and reading of bounded bodies and of the
    files of a local registry. *)
From S2P Require Import Prelude Paths Registry UrlPolicy FetchHost.

Definition MAX_REDIRECTS : nat := 5.
Definition COPY_BUFFER_BYTES : Z := 64 * 1024.

Inductive RedirectPolicyMode := Production | LocalTest.
#[export] Instance redirect_mode_eq_dec : EqDecision RedirectPolicyMode.
Proof. solve_decision. Defined.
Inductive Sibling := Sibling_Signature | Sibling_Artifact (filename : bytes).

(** [network_error]'s classification of an error of the HTTP client. *)
Definition network_failure_kind (source : UreqError) : NetworkFailureKind :=
  match source with
  | Ureq_Timeout => Timeout
  | Ureq_HostNotFound | Ureq_ConnectionFailed => Connection
  | Ureq_Io TimedOut => Timeout
  | Ureq_Io (ConnectionAborted | ConnectionRefused | ConnectionReset | NetworkUnreachable | HostUnreachable
            | AddrNotAvailable | NotConnected | BrokenPipe | UnexpectedEof) => Connection
  | _ => Protocol
  end.

(** [http_agent] *)
Definition http_agent (timeout : Z) (mode : RedirectPolicyMode) : HttpAgent := {|
  timeout_global := timeout; max_redirects := 0; http_status_as_error := false;
  https_only := bool_decide (mode = Production); use_proxy := false |}.

Section Http.
Context `{Hreg : RegistryDeps} `{Hurl : UrlLib} `{Hjoin : !FetchUrls} `{Hmach : !Machine}.
(** Rounds of a loop that goes on while the clock allows it. *)
Context (fuel : nat).

Definition redacted_url (url : Url) : Url :=
  let url := if negb (bytes_eqb (url_username url) []) || bool_decide (is_Some (url_password url))
             then url_clear_password (url_clear_username url) else url in
  let url := if bool_decide (is_Some (url_query url)) then url_set_query url (Some (B"redacted")) else url in
  url_set_fragment url None.
Definition redacted (url : Url) : bytes := url_as_str (redacted_url url).

Definition network_error (url : Url) (source : UreqError) : FetchError :=
  Network (network_failure_kind source) (redacted url) source.

(** [rest.split(['/', '?', '#']).next()] and [contains('@')] *)
Definition first_segment_contains_at (rest : bytes) : bool :=
  match split_by (fun b => byte_eqb b "/" || byte_eqb b "?" || byte_eqb b "#") rest with
  | authority :: _ => contains_byte "@" authority
  | [] => false
  end.
Definition url_authority_contains_at (url : Url) : bool :=
  match split_once (B"://") (url_as_str url) with
  | Some (_, rest) => first_segment_contains_at rest
  | None => false
  end.
Definition raw_redirect_authority_contains_at (location : bytes) : bool :=
  let authority := match split_once (B"://") location with
                   | Some (_, rest) => Some rest
                   | None => strip_prefix (B"//") location
                   end in
  from_option first_segment_contains_at false authority.

Definition has_credentials (url : Url) : bool :=
  negb (bytes_eqb (url_username url) []) || bool_decide (is_Some (url_password url)) || url_authority_contains_at url.
Definition resolve_redirect (current : Url) (location : bytes) (mode : RedirectPolicyMode) : result FetchError Url :=
  _ ← fail_if (has_credentials current)
        (RedirectPolicy (redacted current) (B"<redacted>") (B"redirect source URL contains credentials"));
  _ ← fail_if (bool_decide (mode = Production) && negb (bytes_eqb (url_scheme current) (B"https")))
        (RedirectPolicy (redacted current) (B"<invalid>") (B"redirect source is not HTTPS"));
  _ ← fail_if (raw_redirect_authority_contains_at location)
        (RedirectPolicy (redacted current) (B"<redacted>") (B"redirect URL contains credentials"));
  target ← ok_or (url_join current location)
        (RedirectPolicy (redacted current) (B"<invalid>") (B"Location is not a valid URL reference"));
  let allowed_scheme := bytes_eqb (url_scheme target) (B"https") ||
    (bool_decide (mode = LocalTest) && bytes_eqb (url_scheme target) (B"http")) in
  _ ← fail_if (negb allowed_scheme)
        (RedirectPolicy (redacted current) (redacted target) (B"redirect would downgrade or change the HTTPS scheme"));
  _ ← fail_if (has_credentials target)
        (RedirectPolicy (redacted current) (redacted target) (B"redirect URL contains credentials"));
  _ ← fail_if (bool_decide (is_Some (url_fragment target)))
        (RedirectPolicy (redacted current) (redacted target) (B"redirect URL contains a fragment"));
  _ ← fail_if (bool_decide (mode = Production) &&
               from_option (fun host => negb (host_is_globally_routable host)) false (url_host target))
        (RedirectPolicy (redacted current) (redacted target) (B"redirect destination is local or private"));
  Ok target.
Definition validate_redirect_url (current : Url) (location : bytes) : result FetchError Url :=
  resolve_redirect current location Production.

(** [sibling_url] *)
Definition fetch_sibling_url (manifest_url : Url) (sibling : Sibling) (mode : RedirectPolicyMode) : result FetchError Url :=
  if bool_decide (mode = Production) then
    map_err UrlPolicy
      (match sibling with
       | Sibling_Signature => signature_url manifest_url
       | Sibling_Artifact filename => artifact_url manifest_url filename
       end)
  else
    filename ← map_err UrlPolicy
      (match sibling with
       | Sibling_Signature =>
           name ← ok_or (segments ← url_path_segments manifest_url; last segments) MissingManifestFilename;
           Ok (name ++ B".sig")
       | Sibling_Artifact filename => Ok filename
       end);
    map_err UrlPolicy (ok_or (url_with_last_segment manifest_url filename) MissingManifestFilename).

(** ** Requests *)

Definition is_redirect_status (status : Z) : bool :=
  (status =? 301) || (status =? 302) || (status =? 303) || (status =? 307) || (status =? 308).
(** The loop [for redirects in 0..=MAX_REDIRECTS], with [more] redirects still allowed. *)
Fixpoint redirect_loop (agent : HttpAgent) (more : nat) (current : Url) (deadline : FetchDeadline)
    (mode : RedirectPolicyMode) : F (Url * Response) :=
  rest ← remaining deadline (B"network request");
  response ← call agent current rest;
  check deadline (B"network request");;
  response ← lift (map_err (network_error current) response);
  if is_redirect_status (status response) then
    match more with
    | O => throw (TooManyRedirects MAX_REDIRECTS)
    | S more =>
        location ← lift (ok_or (location_header response) (MissingRedirectLocation (redacted current)));
        target ← lift (resolve_redirect current location mode);
        check deadline (B"network redirect");;
        redirect_loop agent more target deadline mode
    end
  else if negb ((200 <=? status response) && (status response <=? 299)) then
    throw (HttpStatus (redacted current) (status response))
  else
    check deadline (B"network response headers");;
    mret (current, response).
Definition open_with_redirects (agent : HttpAgent) (initial : Url) (deadline : FetchDeadline) (mode : RedirectPolicyMode) :
    F (Url * Response) := redirect_loop agent MAX_REDIRECTS initial deadline mode.

(** ** Bounded reads *)

(** The loop that [read_bounded], [read_file_url_bounded] and [read_cache_file] share; [rest] is
    what the reader has not given yet. *)
Fixpoint read_rounds (rounds : nat) (left : Z) (rest acc : bytes) (phase : bytes) (on_error : ErrorKind -> FetchError)
    (deadline : FetchDeadline) : F bytes :=
  if left <=? 0 then mret acc
  else match rounds with
  | O => spin
  | S rounds =>
      check deadline phase;;
      chunk ← read (Z.min left COPY_BUFFER_BYTES) rest;
      check deadline phase;;
      match chunk with
      | Err Interrupted => read_rounds rounds left rest acc phase on_error deadline
      | Err source => throw (on_error source)
      | Ok [] => mret acc
      | Ok chunk =>
          read_rounds rounds (saturating_sub left (zlen chunk)) (drop (length chunk) rest) (acc ++ chunk) phase on_error
            deadline
      end
  end.
Definition read_at_most (max : Z) (rest phase : bytes) (on_error : ErrorKind -> FetchError) (too_large : FetchError)
    (deadline : FetchDeadline) : F bytes :=
  bs ← read_rounds fuel (saturating_add max 1) rest [] phase on_error deadline;
  if zlen bs >? max then throw too_large
  else check deadline phase;; mret bs.

Definition read_bounded (reader : bytes) (max : Z) (kind : bytes) (url : Url) (deadline : FetchDeadline) : F bytes :=
  read_at_most max reader (B"network response read") (fun source => network_error url (Ureq_Io source))
    (BodyTooLarge kind (redacted url) max) deadline.

Definition content_length (response : Response) : option Z := content_length_header response ≫= parse_usize.
Definition get_bounded (agent : HttpAgent) (url : Url) (max : Z) (kind : bytes) (deadline : FetchDeadline)
    (mode : RedirectPolicyMode) : F bytes :=
  check deadline (B"network response headers");;
  '(final_url, response) ← open_with_redirects agent url deadline mode;
  check deadline (B"network response headers");;
  lift (fail_if (from_option (fun length => length >? max) false (content_length response))
          (BodyTooLarge kind (redacted final_url) max));;
  check deadline (B"network response headers");;
  read_bounded (body response) max kind final_url deadline.

(** ** A registry of local files *)

Definition read_file_url_bounded (url : Url) (max : Z) (kind : bytes) (deadline : FetchDeadline) : F bytes :=
  check deadline (B"file registry read");;
  path ← lift_url (ok_or (url_to_file_path url) FileUrlNotLocalAbsolute);
  meta ← metadata path;
  check deadline (B"file registry stat");;
  meta ← io_or (B"stat") path meta;
  match meta with
  | NFile _ now_there _ =>
      if zlen now_there >? max then throw (BodyTooLarge kind (redacted url) max)
      else
        file ← open_read path;
        check deadline (B"file registry open");;
        file ← io_or (B"open") path file;
        (* a directory opens, and fails when it is read *)
        match file with
        | NFile _ data _ =>
            read_at_most max data (B"file registry read") (io_error (B"read") path) (BodyTooLarge kind (redacted url) max)
              deadline
        | _ =>
            check deadline (B"file registry read");; _ ← handle_call; check deadline (B"file registry read");;
            throw (io_error (B"read") path OtherKind)
        end
  | _ => throw (NotRegularFile path)
  end.

(** [Path::starts_with] compares whole components; both sides are canonical. *)
Definition path_below (path dir : bytes) : bool :=
  bool_decide (path_segments dir `prefix_of` path_segments path).
(** [same_file_identity] on Unix *)
Definition same_file_identity (ident : Z) (resolved : bytes) : F (result ErrorKind bool) :=
  left ← handle_call;
  match left with
  | Err kind => mret (Err kind)
  | Ok _ =>
      right ← metadata resolved;
      mret (match right with
            | Ok (NFile ident' _ _) => Ok (ident =? ident')
            | Ok _ => Ok false
            | Err kind => Err kind
            end)
  end.

(** The bytes of the file it opened. *)
Definition open_contained_file_artifact (manifest_url artifact_url : Url) (deadline : FetchDeadline) : F bytes :=
  check deadline (B"file artifact containment");;
  manifest_path ← lift_url (ok_or (url_to_file_path manifest_url) FileUrlNotLocalAbsolute);
  manifest_parent ← lift_url (ok_or (path_parent manifest_path) FileUrlNotLocalAbsolute);
  manifest_dir ← canonicalize manifest_parent;
  check deadline (B"file artifact containment");;
  manifest_dir ← io_or (B"canonicalize") manifest_parent manifest_dir;
  artifact_path ← lift_url (ok_or (url_to_file_path artifact_url) FileUrlNotLocalAbsolute);
  canonical_artifact ← canonicalize artifact_path;
  check deadline (B"file artifact containment");;
  canonical_artifact ← io_or (B"canonicalize") artifact_path canonical_artifact;
  lift (fail_if (negb (path_below canonical_artifact manifest_dir)) (FileArtifactEscapes canonical_artifact manifest_dir));;
  file ← open_read artifact_path;
  check deadline (B"file artifact open");;
  file ← io_or (B"open file registry artifact") artifact_path file;
  opened_metadata ← handle_call;
  check deadline (B"file artifact stat");;
  io_or (B"stat open file registry artifact") artifact_path opened_metadata;;
  match file with
  | NFile ident data _ =>
      canonical_after ← canonicalize artifact_path;
      check deadline (B"file artifact containment");;
      canonical_after ← io_or (B"canonicalize") artifact_path canonical_after;
      lift (fail_if (negb (path_below canonical_after manifest_dir)) (FileArtifactEscapes canonical_after manifest_dir));;
      same_identity ← same_file_identity ident canonical_after;
      check deadline (B"file artifact identity");;
      same_identity ← io_or (B"identify file registry artifact") artifact_path same_identity;
      if negb same_identity then throw (io_error (B"pin file registry artifact") artifact_path InvalidData)
      else check deadline (B"file artifact preparation");; mret data
  | _ => throw (NotRegularFile canonical_artifact)
  end.
End Http.
