(* ===== verification/FetchCache.v ===== *)
(** * The cache of a registry fetch (crates/nrm-registry/src/fetch.rs, [CacheGuard])

    Manifest pairs and artifacts under one directory, behind an advisory lock: staged writes, reads
    that trust nothing they find, and eviction of the oldest entries. *)
From stdpp Require Import sorting.
From S2P Require Import Prelude Paths Registry UrlPolicy FetchHost FetchHttp.

(** ** Ordering of cache entries: by time, then by path *)

(** [Path::cmp]: component by component, each by its bytes. *)
Definition segments_compare : list bytes -> list bytes -> comparison := lex_compare bytes_compare.
Record cache_file := { cf_modified : Z; cf_path : bytes; cf_size : Z }.
(** [left.0.cmp(&right.0).then_with(|| left.1.cmp(&right.1))] is not [Greater]. *)
Definition evicts_before (left right : cache_file) : bool :=
  match cf_modified left ?= cf_modified right with
  | Lt => true
  | Gt => false
  | Eq => match segments_compare (path_segments (cf_path left)) (path_segments (cf_path right)) with
          | Gt => false
          | _ => true
          end
  end.
Definition eviction_order (left right : cache_file) : Prop := evicts_before left right = true.
#[export] Instance eviction_order_dec : RelDecision eviction_order.
Proof. intros l r. unfold eviction_order. apply _. Defined.

Section Cache.
Context `{Hreg : RegistryDeps} `{Hurl : UrlLib} `{Hjoin : !FetchUrls} `{Hmach : !Machine}.
Context (fuel : nat).

Record CacheGuard := { manifests : bytes; artifacts_dir : bytes; max_bytes : Z; deadline : FetchDeadline }.
Record ManifestCachePaths := { manifest_path : bytes; signature_path : bytes }.
Inductive ArtifactReadSource := Source_File | Source_Network (url : Url).
Definition source_error (self : ArtifactReadSource) (destination : bytes) (source : ErrorKind) : FetchError :=
  match self with
  | Source_File => io_error (B"read artifact") destination source
  | Source_Network url => network_error url (Ureq_Io source)
  end.

(** ** Opening *)

(** The loop that waits for the lock; a wait is over when the clock says so. *)
Fixpoint lock_loop (rounds : nat) (lock_path : bytes) (deadline : FetchDeadline) : F unit :=
  match rounds with
  | O => spin
  | S rounds =>
      in_time ← attempt (check deadline (B"cache lock wait"));
      if negb (is_ok in_time) then throw (CacheLockTimeout lock_path) else
      locked ← try_lock;
      in_time ← attempt (check deadline (B"cache lock wait"));
      if negb (is_ok in_time) then throw (CacheLockTimeout lock_path) else
      match locked with
      | Locked => mret ()
      | LockWouldBlock =>
          wait ← attempt (remaining deadline (B"cache lock wait"));
          if negb (is_ok wait) then throw (CacheLockTimeout lock_path)
          else lock_loop rounds lock_path deadline
      | LockError source => throw (io_error (B"lock cache") lock_path source)
      end
  end.
Definition cache_open (root : bytes) (max_bytes : Z) (deadline : FetchDeadline) : F CacheGuard :=
  check deadline (B"cache directory creation");;
  created ← create_dir_all root;
  check deadline (B"cache directory creation");;
  io_or (B"create cache directory") root created;;
  let manifests := path_join root (B"manifests") in
  let artifacts := path_join root (B"artifacts") in
  created ← create_dir_all manifests;
  check deadline (B"cache directory creation");;
  io_or (B"create cache directory") manifests created;;
  created ← create_dir_all artifacts;
  check deadline (B"cache directory creation");;
  io_or (B"create cache directory") artifacts created;;
  let lock_path := path_join root (B".lock") in
  lock ← open_private lock_path false;
  check deadline (B"cache lock open");;
  io_or (B"open cache lock") lock_path lock;;
  lock_loop fuel lock_path deadline;;
  mret {| manifests := manifests; artifacts_dir := artifacts; max_bytes := max_bytes; deadline := deadline |}.

Definition manifest_paths (self : CacheGuard) (url : Url) : F ManifestCachePaths :=
  check (deadline self) (B"manifest cache key");;
  let key := sha256_hex (url_as_str url) in
  check (deadline self) (B"manifest cache key");;
  mret {| manifest_path := path_join (manifests self) (key ++ B".json");
          signature_path := path_join (manifests self) (key ++ B".sig") |}.
Definition artifact_path (self : CacheGuard) (digest : bytes) : F bytes :=
  check (deadline self) (B"artifact cache path");;
  mret (path_join (artifacts_dir self) digest).

(** ** Reading *)

Definition read_cache_file (path : bytes) (max : Z) (deadline : FetchDeadline) : F bytes :=
  check deadline (B"registry cache read");;
  meta ← symlink_metadata path;
  check deadline (B"registry cache stat");;
  meta ← io_or (B"stat cached registry data") path meta;
  match meta with
  | NFile _ now_there _ =>
      let oversized := io_error (B"read oversized cached registry data") path InvalidData in
      if zlen now_there >? max then throw oversized
      else
        file ← open_read path;
        check deadline (B"registry cache open");;
        file ← io_or (B"open cache entry") path file;
        match file with
        | NFile _ data _ =>
            read_at_most fuel max data (B"registry cache read") (io_error (B"read cache entry") path) oversized deadline
        | _ =>
            check deadline (B"registry cache read");; _ ← handle_call; check deadline (B"registry cache read");;
            throw (io_error (B"read cache entry") path OtherKind)
        end
  | _ => throw (NotRegularFile path)
  end.
Definition read_manifest_pair (self : CacheGuard) (paths : ManifestCachePaths) : F (bytes * bytes) :=
  manifest ← read_cache_file (manifest_path paths) MANIFEST_MAX_BYTES (deadline self);
  signature ← read_cache_file (signature_path paths) SIGNATURE_DOCUMENT_MAX_BYTES (deadline self);
  check (deadline self) (B"manifest cache read");;
  mret (manifest, signature).

(** The loop of [digest_open_file]; the digest is that of everything read. *)
Fixpoint digest_rounds (rounds : nat) (total : Z) (rest acc : bytes) (path : bytes) (max : Z) (deadline : FetchDeadline) :
    F (Z * bytes) :=
  match rounds with
  | O => spin
  | S rounds =>
      check deadline (B"cached artifact digest");;
      chunk ← read COPY_BUFFER_BYTES rest;
      check deadline (B"cached artifact digest");;
      match chunk with
      | Err Interrupted => digest_rounds rounds total rest acc path max deadline
      | Err source => throw (io_error (B"read cached artifact") path source)
      | Ok [] => mret (total, sha256_hex acc)
      | Ok chunk =>
          let total := saturating_add total (zlen chunk) in
          if total >? max then mret (total, [])
          else
            check deadline (B"cached artifact digest");;
            digest_rounds rounds total (drop (length chunk) rest) (acc ++ chunk) path max deadline
      end
  end.
Definition digest_open_file (data path : bytes) (max : Z) (deadline : FetchDeadline) : F (Z * bytes) :=
  check deadline (B"cached artifact digest");;
  sought ← handle_call;
  check deadline (B"cached artifact seek");;
  io_or (B"seek cached artifact") path sought;;
  digested ← attempt (digest_rounds fuel 0 data [] path max deadline);
  match digested with
  | Err (OperationDeadline phase) => throw (OperationDeadline phase)
  | _ =>
      rewound ← handle_call;
      check deadline (B"cached artifact rewind");;
      io_or (B"rewind cached artifact") path rewound;;
      lift digested
  end.

Definition remove_invalid_cache_entry (path : bytes) (deadline : FetchDeadline) : F unit :=
  check deadline (B"invalid cache entry removal");;
  removed ← remove_file path;
  check deadline (B"invalid cache entry removal");;
  match removed with
  | Ok _ | Err NotFound => mret ()
  | Err source => throw (io_error (B"remove invalid cache entry") path source)
  end.

(** The bytes of the open, leased file. *)
Definition open_verified_cached_artifact (self : CacheGuard) (path : bytes) (artifact : Artifact) : F (option bytes) :=
  check (deadline self) (B"cached artifact stat");;
  meta ← symlink_metadata path;
  check (deadline self) (B"cached artifact stat");;
  match meta with
  | Err NotFound => mret None
  | Err source => throw (io_error (B"stat cached artifact") path source)
  | Ok meta =>
      let fits := match meta with NFile _ data _ => zlen data =? size_ artifact | _ => false end in
      if negb fits then remove_invalid_cache_entry path (deadline self);; mret None
      else
        file ← open_read path;
        check (deadline self) (B"cached artifact open");;
        file ← io_or (B"open verified cached artifact") path file;
        check (deadline self) (B"cached artifact lease");;
        lease ← try_lock;
        check (deadline self) (B"cached artifact lease");;
        match lease with
        | LockWouldBlock => throw (io_error (B"lease verified cached artifact") path WouldBlock)
        | LockError source => throw (io_error (B"lease verified cached artifact") path source)
        | Locked =>
            check (deadline self) (B"cached artifact lease");;
            let data := match file with NFile _ data _ => data | _ => [] end in
            '(actual_size, actual_digest) ← digest_open_file data path ARTIFACT_MAX_BYTES (deadline self);
            if negb (actual_size =? size_ artifact) || negb (bytes_eqb actual_digest (sha256 artifact)) then
              remove_invalid_cache_entry path (deadline self);; mret None
            else
              check (deadline self) (B"cached artifact verification");;
              mret (Some data)
        end
  end.
(** ** Writing *)

(** [TEMP_FILE_SEQUENCE.fetch_add(1, Ordering::Relaxed)] *)
Definition next_sequence : F Z := fun w =>
  (Ok (temp_file_sequence w),
   {| w_files := w_files w; looks := looks w; calls := calls w;
      temp_file_sequence := (temp_file_sequence w + 1) mod 2 ^ 64; requested := requested w |}).
Definition temp_name (name : bytes) (sequence : Z) : bytes :=
  B"." ++ name ++ B"." ++ to_decimal process_id ++ B"." ++ to_decimal sequence ++ B".tmp".
Fixpoint create_temp_loop (attempts : nat) (destination parent name : bytes) (deadline : FetchDeadline) : F bytes :=
  match attempts with
  | O => throw (io_error (B"create cache temporary file") destination AlreadyExists)
  | S attempts =>
      check deadline (B"cache temporary file creation");;
      sequence ← next_sequence;
      let path := path_join parent (temp_name name sequence) in
      opened ← open_private path true;
      check deadline (B"cache temporary file creation");;
      match opened with
      | Ok _ => mret path
      | Err AlreadyExists => create_temp_loop attempts destination parent name deadline
      | Err source => throw (io_error (B"create cache temporary file") path source)
      end
  end.
Definition create_temp_for (destination : bytes) (deadline : FetchDeadline) : F bytes :=
  check deadline (B"cache temporary file creation");;
  parent ← lift (ok_or (path_parent destination) (io_error (B"create cache temporary file") destination InvalidInput));
  create_temp_loop 128 destination parent (path_file_name destination) deadline.

Fixpoint write_all_rounds (rounds : nat) (path bs phase operation : bytes) (deadline : FetchDeadline) : F unit :=
  match bs with
  | [] => mret ()
  | _ =>
      match rounds with
      | O => spin
      | S rounds =>
          check deadline phase;;
          written ← write path bs;
          check deadline phase;;
          match written with
          | Ok O => throw (io_error operation path WriteZero)
          | Ok n => write_all_rounds rounds path (drop n bs) phase operation deadline
          | Err Interrupted => write_all_rounds rounds path bs phase operation deadline
          | Err source => throw (io_error operation path source)
          end
      end
  end.
Definition write_all_deadlined (path bs phase operation : bytes) (deadline : FetchDeadline) : F unit :=
  write_all_rounds fuel path bs phase operation deadline.

(** [replace_file] and [sync_parent] on Unix *)
Definition replace_file (source destination : bytes) (deadline : FetchDeadline) : F unit :=
  check deadline (B"cache entry replacement");;
  replaced ← rename source destination;
  check deadline (B"cache entry replacement");;
  io_or (B"replace cache entry") destination replaced.
Definition sync_parent (path : bytes) (deadline : FetchDeadline) : F unit :=
  check deadline (B"cache directory sync");;
  parent ← lift (ok_or (path_parent path) (io_error (B"sync cache directory") path InvalidInput));
  directory ← open_read parent;
  check deadline (B"cache directory sync");;
  _ ← io_or (B"open cache directory") parent directory;
  synced ← handle_call;
  check deadline (B"cache directory sync");;
  io_or (B"sync cache directory") parent synced.

(** [if result.is_err() { let _ = fs::remove_file(&temp_path); } result] *)
Definition or_remove_temp (temp_path : bytes) (m : F unit) : F unit :=
  result ← attempt m;
  match result with
  | Ok _ => mret ()
  | Err error => _ ← remove_file temp_path; throw error
  end.

(** [bytes.chunks(COPY_BUFFER_BYTES)] *)
Fixpoint chunks (n : nat) (size : nat) (bs : bytes) : list bytes :=
  match n, bs with
  | _, [] | O, _ => []
  | S n, _ => take size bs :: chunks n size (drop size bs)
  end.
Fixpoint write_chunks (parts : list bytes) (temp_path : bytes) (deadline : FetchDeadline) : F unit :=
  match parts with
  | [] => mret ()
  | chunk :: parts =>
      write_all_deadlined temp_path chunk (B"cache entry write") (B"write cache entry") deadline;;
      write_chunks parts temp_path deadline
  end.
Definition atomic_write (destination bs : bytes) (deadline : FetchDeadline) : F unit :=
  check deadline (B"cache entry write");;
  temp_path ← create_temp_for destination deadline;
  or_remove_temp temp_path
    (write_chunks (chunks (length bs) (Z.to_nat COPY_BUFFER_BYTES) bs) temp_path deadline;;
     check deadline (B"cache entry sync");;
     synced ← handle_call;
     check deadline (B"cache entry sync");;
     io_or (B"sync cache entry") temp_path synced;;
     replace_file temp_path destination deadline;;
     sync_parent destination deadline).

(** [OpenOptions] without [?]: a file that cannot be opened or touched is left as it is. *)
Definition touch (self : CacheGuard) (path : bytes) : F unit :=
  check (deadline self) (B"cache recency update");;
  opened ← open_write path;
  check (deadline self) (B"cache recency update");;
  match opened with
  | Ok file => _ ← set_times file; check (deadline self) (B"cache recency update")
  | Err _ => mret ()
  end.
Definition touch_manifest_pair (self : CacheGuard) (paths : ManifestCachePaths) : F unit :=
  touch self (manifest_path paths);; touch self (signature_path paths).
Definition write_manifest_pair (self : CacheGuard) (paths : ManifestCachePaths) (manifest signature : bytes) : F unit :=
  atomic_write (manifest_path paths) manifest (deadline self);;
  atomic_write (signature_path paths) signature (deadline self);;
  touch self (manifest_path paths);;
  touch self (signature_path paths).

(** The copy loop of [install_artifact_reader]; it returns what it copied. *)
Fixpoint copy_rounds (rounds : nat) (self : CacheGuard) (temp_path : bytes) (total : Z) (rest acc : bytes)
    (destination : bytes) (artifact : Artifact) (source_kind : ArtifactReadSource) : F (Z * bytes) :=
  match rounds with
  | O => spin
  | S rounds =>
      check (deadline self) (B"artifact cache copy");;
      chunk ← read COPY_BUFFER_BYTES rest;
      check (deadline self) (B"artifact cache copy");;
      match chunk with
      | Err Interrupted => copy_rounds rounds self temp_path total rest acc destination artifact source_kind
      | Err source => throw (source_error source_kind destination source)
      | Ok [] => mret (total, acc)
      | Ok chunk =>
          let total := saturating_add total (zlen chunk) in
          if (total >? ARTIFACT_MAX_BYTES) || (total >? size_ artifact) then
            throw (ArtifactSize (filename artifact) (size_ artifact) total)
          else
            write_all_deadlined temp_path chunk (B"artifact cache write") (B"write artifact cache") (deadline self);;
            check (deadline self) (B"artifact digest");;
            copy_rounds rounds self temp_path total (drop (length chunk) rest) (acc ++ chunk) destination artifact source_kind
      end
  end.
Definition install_artifact_reader (self : CacheGuard) (reader destination : bytes) (artifact : Artifact)
    (source_kind : ArtifactReadSource) : F unit :=
  check (deadline self) (B"artifact cache copy");;
  temp_path ← create_temp_for destination (deadline self);
  or_remove_temp temp_path
    ('(total, copied) ← copy_rounds fuel self temp_path 0 reader [] destination artifact source_kind;
     if negb (total =? size_ artifact) then throw (ArtifactSize (filename artifact) (size_ artifact) total)
     else
       let digest := sha256_hex copied in
       if negb (bytes_eqb digest (sha256 artifact)) then throw (ArtifactDigest (filename artifact) (sha256 artifact) digest)
       else
         check (deadline self) (B"artifact cache sync");;
         synced ← handle_call;
         check (deadline self) (B"artifact cache sync");;
         io_or (B"sync artifact cache") temp_path synced;;
         replace_file temp_path destination (deadline self);;
         sync_parent destination (deadline self);;
         check (deadline self) (B"artifact cache activation")).
Definition install_artifact_from_file (self : CacheGuard) (source destination : bytes) (artifact : Artifact) : F unit :=
  install_artifact_reader self source destination artifact Source_File.
Definition install_artifact_from_network (self : CacheGuard) (url : Url) (destination : bytes) (artifact : Artifact)
    (timeout : Z) (mode : RedirectPolicyMode) : F unit :=
  check (deadline self) (B"artifact network request");;
  let agent := http_agent timeout mode in
  '(final_url, response) ← open_with_redirects agent url (deadline self) mode;
  check (deadline self) (B"artifact response headers");;
  match content_length response with
  | Some length =>
      if length >? ARTIFACT_MAX_BYTES then throw (BodyTooLarge (B"artifact") (redacted final_url) ARTIFACT_MAX_BYTES)
      else if negb (length =? size_ artifact) then throw (ArtifactSize (filename artifact) (size_ artifact) length)
      else mret ()
  | None => mret ()
  end;;
  check (deadline self) (B"artifact response headers");;
  install_artifact_reader self (body response) destination artifact (Source_Network final_url).

(** ** Eviction *)

(** [SystemTime::UNIX_EPOCH] *)
Definition UNIX_EPOCH : Z := 0.
Fixpoint scan_entries (self : CacheGuard) (paths : list bytes) (acc : list cache_file * Z) : F (list cache_file * Z) :=
  match paths with
  | [] => mret acc
  | path :: paths =>
      check (deadline self) (B"cache eviction scan");;
      meta ← symlink_metadata path;
      check (deadline self) (B"cache eviction scan");;
      meta ← io_or (B"stat cache entry") path meta;
      match meta with
      | NFile _ data modified =>
          scan_entries self paths
            (acc.1 ++ [{| cf_modified := default UNIX_EPOCH modified; cf_path := path; cf_size := zlen data |}],
             saturating_add acc.2 (zlen data))
      | _ => scan_entries self paths acc
      end
  end.
Fixpoint scan_directories (self : CacheGuard) (directories : list bytes) (acc : list cache_file * Z) :
    F (list cache_file * Z) :=
  match directories with
  | [] => mret acc
  | directory :: directories =>
      check (deadline self) (B"cache eviction scan");;
      entries ← read_dir directory;
      check (deadline self) (B"cache eviction scan");;
      entries ← io_or (B"read cache directory") directory entries;
      acc ← scan_entries self entries acc;
      scan_directories self directories acc
  end.
(** The loop over the sorted files; it returns the total that is left. *)
Fixpoint evict_loop (self : CacheGuard) (protected : list bytes) (listed : list cache_file) (total : Z) : F Z :=
  match listed with
  | [] => mret total
  | file :: listed =>
      check (deadline self) (B"cache eviction");;
      if total <=? max_bytes self then mret total
      else if bool_decide (cf_path file ∈ protected) then evict_loop self protected listed total
      else
        handle ← open_write (cf_path file);
        check (deadline self) (B"cache eviction open");;
        match handle with
        | Err NotFound => evict_loop self protected listed (saturating_sub total (cf_size file))
        | Err source => throw (io_error (B"open cache entry for eviction") (cf_path file) source)
        | Ok _ =>
            check (deadline self) (B"cache eviction lock");;
            locked ← try_lock;
            check (deadline self) (B"cache eviction lock");;
            match locked with
            | LockWouldBlock => evict_loop self protected listed total
            | LockError source => throw (io_error (B"lock cache entry for eviction") (cf_path file) source)
            | Locked =>
                check (deadline self) (B"cache eviction lock");;
                removed ← remove_file (cf_path file);
                check (deadline self) (B"cache eviction remove");;
                match removed with
                | Ok _ | Err NotFound => evict_loop self protected listed (saturating_sub total (cf_size file))
                | Err source => throw (io_error (B"evict cache entry") (cf_path file) source)
                end
            end
        end
  end.
Definition evict_to_budget (self : CacheGuard) (protected : list bytes) : F unit :=
  check (deadline self) (B"cache eviction");;
  '(listed, total) ← scan_directories self [manifests self; artifacts_dir self] ([], 0);
  if total <=? max_bytes self then check (deadline self) (B"cache eviction")
  else
    check (deadline self) (B"cache eviction sort");;
    let listed := merge_sort eviction_order listed in
    check (deadline self) (B"cache eviction sort");;
    total ← evict_loop self protected listed total;
    if total >? max_bytes self then throw (CacheBudget total (max_bytes self))
    else check (deadline self) (B"cache eviction").

(** [Path::is_file] *)
Definition is_file (path : bytes) : F bool :=
  meta ← metadata path; mret (match meta with Ok (NFile _ _ _) => true | _ => false end).
Definition evict_for_result (self : CacheGuard) (artifact_path : bytes) (pair_paths : ManifestCachePaths)
    (artifact_size pair_size : Z) : F unit :=
  check (deadline self) (B"cache result eviction");;
  keep_pair ←
    (if negb (saturating_add artifact_size pair_size <=? max_bytes self) then mret false
     else manifest_there ← is_file (manifest_path pair_paths);
          if negb manifest_there then mret false else is_file (signature_path pair_paths));
  check (deadline self) (B"cache result eviction");;
  if keep_pair : bool
  then evict_to_budget self [artifact_path; manifest_path pair_paths; signature_path pair_paths]
  else evict_to_budget self [artifact_path].
End Cache.
