(* ===== verification/Fetch.v ===== *)
(** * Fetching an agent from the registry (crates/nrm-registry/src/fetch.rs)

    [fetch_verified_artifact]: the manifest and its signature from the network, a local registry or
    the cache, their verification, and the artifact for the target with its size and digest. *)
From S2P Require Import Prelude Paths Registry UrlPolicy FetchHost FetchHttp FetchCache.

Inductive ArtifactSource := ArtifactSource_Network | ArtifactSource_File | ArtifactSource_Cache.
Inductive ManifestSource := ManifestSource_Network | ManifestSource_File | VerifiedCacheFallback.
#[export] Instance manifest_source_eq_dec : EqDecision ManifestSource.
Proof. solve_decision. Defined.
Record CacheState := { manifest_fallback : bool; artifact_hit : bool }.

Section Fetch.
Context `{Hreg : RegistryDeps} `{Hurl : UrlLib} `{Hjoin : !FetchUrls} `{Hmach : !Machine}.
Context (fuel : nat).

Record FetchConfig := {
  cfg_manifest_url : Url; cfg_target : AgentTarget; cfg_expected_version : Version; cfg_expected_protocol_version : Z;
  cfg_trusted_keys : gmap bytes TrustedPublicKey; cfg_signature_threshold : Z; cfg_cache_dir : bytes; cfg_cache_max_bytes : Z;
  cfg_timeout : Z }.
(** [artifact_lease] is the open file, given by its bytes. *)
Record FetchedArtifact := {
  local_path : bytes; fa_sha256 : bytes; source : ArtifactSource; manifest_source : ManifestSource;
  cache_state : CacheState; verified_manifest : VerifiedManifest; artifact : Artifact; artifact_lease : bytes }.

Inductive ManifestPairRetrievalError :=
| RetrievalError_Manifest (error : FetchError)
| RetrievalError_Signature (fresh_manifest : bytes) (error : FetchError).

(** ** The manifest and its signature *)

Definition recover_cached_manifest_pair (cache : CacheGuard) (pair_paths : ManifestCachePaths)
    (retrieval_error : ManifestPairRetrievalError) : F (bytes * bytes * ManifestSource) :=
  check (deadline cache) (B"manifest cache fallback");;
  let '(fresh_manifest, network_error) :=
    match retrieval_error with
    | RetrievalError_Manifest error => (None, error)
    | RetrievalError_Signature fresh_manifest error => (Some fresh_manifest, error)
    end in
  if negb (is_cache_fallback_eligible network_error) then throw network_error
  else
    cached ← attempt (read_manifest_pair fuel cache pair_paths);
    match cached with
    | Err cache_error =>
        if bool_decide (code cache_error = Code_OperationDeadline) then throw cache_error
        else throw (CacheFallbackUnavailable (error_display network_error) (error_display cache_error))
    | Ok (cached_manifest, cached_signature) =>
        match fresh_manifest with
        | Some fresh_manifest =>
            if negb (bytes_eqb fresh_manifest cached_manifest) then throw network_error
            else
              check (deadline cache) (B"manifest cache fallback");;
              mret (fresh_manifest, cached_signature, VerifiedCacheFallback)
        | None =>
            check (deadline cache) (B"manifest cache fallback");;
            mret (cached_manifest, cached_signature, VerifiedCacheFallback)
        end
    end.

(** The result is a value: the caller looks at which of the two requests failed. *)
Definition retrieve_manifest_pair (manifest_url signature_url : Url) (timeout : Z) (deadline : FetchDeadline)
    (mode : RedirectPolicyMode) : F (result ManifestPairRetrievalError (bytes * bytes)) :=
  let agent := http_agent timeout mode in
  manifest ← attempt (get_bounded fuel agent manifest_url MANIFEST_MAX_BYTES (B"manifest") deadline mode);
  match manifest with
  | Err error => mret (Err (RetrievalError_Manifest error))
  | Ok manifest =>
      signature ← attempt (get_bounded fuel agent signature_url SIGNATURE_DOCUMENT_MAX_BYTES (B"signature document")
                             deadline mode);
      match signature with
      | Err error => mret (Err (RetrievalError_Signature manifest error))
      | Ok signature => mret (Ok (manifest, signature))
      end
  end.

(** The [match config.manifest_url.scheme()] that selects the pair. *)
Definition select_manifest_pair (config : FetchConfig) (signature : Url) (cache : CacheGuard)
    (pair_paths : ManifestCachePaths) (mode : RedirectPolicyMode) : F (bytes * bytes * ManifestSource) :=
  let scheme := url_scheme (cfg_manifest_url config) in
  let from_network :=
    retrieved ← retrieve_manifest_pair (cfg_manifest_url config) signature (cfg_timeout config) (deadline cache) mode;
    match retrieved with
    | Ok (manifest, signature_bytes) => mret (manifest, signature_bytes, ManifestSource_Network)
    | Err error => recover_cached_manifest_pair cache pair_paths error
    end in
  if bytes_eqb scheme (B"file") then
    manifest ← read_file_url_bounded fuel (cfg_manifest_url config) MANIFEST_MAX_BYTES (B"manifest") (deadline cache);
    signature_bytes ← read_file_url_bounded fuel signature SIGNATURE_DOCUMENT_MAX_BYTES (B"signature document") (deadline cache);
    mret (manifest, signature_bytes, ManifestSource_File)
  else if bytes_eqb scheme (B"https") then from_network
  else if bytes_eqb scheme (B"http") && bool_decide (mode = LocalTest) then from_network
  else throw (UrlPolicy (UnsupportedScheme scheme)).

(** ** The artifact *)

(** The result after the artifact was found or installed, which the two returns share. *)
Definition finish_fetch (cache : CacheGuard) (pair_paths : ManifestCachePaths) (manifest_bytes signature_bytes : bytes)
    (origin : ArtifactSource) (msource : ManifestSource) (hit : bool) (verified : VerifiedManifest) (art : Artifact)
    (path lease : bytes) : F FetchedArtifact :=
  touch cache path;;
  touch_manifest_pair cache pair_paths;;
  evict_for_result cache path pair_paths (size_ art) (zlen manifest_bytes + zlen signature_bytes);;
  check (deadline cache) (B"registry result preparation");;
  mret {| local_path := path; fa_sha256 := sha256 art; source := origin; manifest_source := msource;
          cache_state := {| manifest_fallback := bool_decide (msource = VerifiedCacheFallback); artifact_hit := hit |};
          verified_manifest := verified; artifact := art; artifact_lease := lease |}.

(** The [match config.manifest_url.scheme()] that installs the artifact. *)
Definition install_artifact (config : FetchConfig) (cache : CacheGuard) (path : bytes) (art : Artifact)
    (mode : RedirectPolicyMode) : F ArtifactSource :=
  artifact_url ← lift (fetch_sibling_url (cfg_manifest_url config) (Sibling_Artifact (filename art)) mode);
  if bytes_eqb (url_scheme (cfg_manifest_url config)) (B"file") then
    file ← open_contained_file_artifact (cfg_manifest_url config) artifact_url (deadline cache);
    install_artifact_from_file fuel cache file path art;;
    mret ArtifactSource_File
  else
    install_artifact_from_network fuel cache artifact_url path art (cfg_timeout config) mode;;
    mret ArtifactSource_Network.

(** Caching of a pair that did not come from the cache. *)
Definition store_manifest_pair (config : FetchConfig) (cache : CacheGuard) (pair_paths : ManifestCachePaths)
    (manifest_bytes signature_bytes : bytes) (msource : ManifestSource) : F unit :=
  if bool_decide (msource = VerifiedCacheFallback) then mret ()
  else
    let pair_size := saturating_add (zlen manifest_bytes) (zlen signature_bytes) in
    if pair_size <=? cfg_cache_max_bytes config then
      write_manifest_pair fuel cache pair_paths manifest_bytes signature_bytes;;
      evict_to_budget cache [manifest_path pair_paths; signature_path pair_paths]
    else
      remove_invalid_cache_entry (manifest_path pair_paths) (deadline cache);;
      remove_invalid_cache_entry (signature_path pair_paths) (deadline cache).

(** From the verified pair to the result. *)
Definition fetch_artifact (config : FetchConfig) (cache : CacheGuard) (pair_paths : ManifestCachePaths)
    (manifest_bytes signature_bytes : bytes) (msource : ManifestSource) (verified : VerifiedManifest) (art : Artifact)
    (mode : RedirectPolicyMode) : F FetchedArtifact :=
  store_manifest_pair config cache pair_paths manifest_bytes signature_bytes msource;;
  path ← artifact_path cache (sha256 art);
  lease ← open_verified_cached_artifact fuel cache path art;
  match lease with
  | Some lease =>
      finish_fetch cache pair_paths manifest_bytes signature_bytes ArtifactSource_Cache msource true verified art path lease
  | None =>
      origin ← install_artifact config cache path art mode;
      lease ← open_verified_cached_artifact fuel cache path art;
      match lease with
      | None =>
          throw (ArtifactDigest (filename art) (sha256 art) (B"cache changed after verified write"))
      | Some lease =>
          finish_fetch cache pair_paths manifest_bytes signature_bytes origin msource false verified art path lease
      end
  end.

Definition fetch_verified_artifact_inner (config : FetchConfig) (mode : RedirectPolicyMode) : F FetchedArtifact :=
  if cfg_timeout config =? 0 then throw InvalidTimeout
  else if cfg_cache_max_bytes config =? 0 then throw InvalidCacheLimit
  else
    deadline ← from_timeout (cfg_timeout config);
    check deadline (B"registry URL resolution");;
    signature ← lift (fetch_sibling_url (cfg_manifest_url config) Sibling_Signature mode);
    check deadline (B"registry URL resolution");;
    cache ← cache_open fuel (cfg_cache_dir config) (cfg_cache_max_bytes config) deadline;
    evict_to_budget cache [];;
    pair_paths ← manifest_paths cache (cfg_manifest_url config);
    '(manifest_bytes, signature_bytes, msource) ← select_manifest_pair config signature cache pair_paths mode;
    check deadline (B"manifest verification");;
    let verified := verify_manifest manifest_bytes signature_bytes (cfg_trusted_keys config)
                      (cfg_signature_threshold config) (cfg_expected_version config) (cfg_expected_protocol_version config) in
    check deadline (B"manifest verification");;
    verified ← lift (map_err Verification verified);
    check deadline (B"manifest target selection");;
    art ← lift (ok_or (find (fun a => bool_decide (target a = cfg_target config)) (artifacts (manifest verified)))
                  (TargetNotPublished (cfg_target config)));
    check deadline (B"manifest target selection");;
    if size_ art >? cfg_cache_max_bytes config then throw (CacheBudget (size_ art) (cfg_cache_max_bytes config))
    else fetch_artifact config cache pair_paths manifest_bytes signature_bytes msource verified art mode.
Definition fetch_verified_artifact (config : FetchConfig) : F FetchedArtifact :=
  fetch_verified_artifact_inner config Production.
End Fetch.
