(* ===== verification/FetchProps.v ===== *)
(** * What a registry fetch guarantees

    Requests, termination and the verification of what is returned, for every host: any clock, any
    answers, any failing calls, other processes that change files outside the cache. *)
From stdpp Require Import sorting.
From S2P Require Import Prelude Paths Registry UrlPolicy FetchHost FetchHttp FetchCache Fetch.

Section Logic.
Context `{Hreg : RegistryDeps} `{Hurl : UrlLib} `{Hmach : !Machine}.

Lemma F_bind_Ok {A B} (m : F A) (k : A -> F B) (w : world) b w' :
  (m ≫= k) w = (Ok b, w') <-> exists a w1, m w = (Ok a, w1) /\ k a w1 = (Ok b, w').
Proof.
  unfold mbind, F_bind. destruct (m w) as [[a|e] w1]; split.
  - eauto.
  - intros (? & ? & [= <- <-] & ?). done.
  - done.
  - intros (? & ? & [=] & ?).
Qed.
Lemma F_ret_Ok {A} (a : A) (w : world) b w' : (mret a : F A) w = (Ok b, w') <-> a = b /\ w = w'.
Proof. unfold mret, F_ret. naive_solver. Qed.
Lemma lift_Ok {A} (r : result FetchError A) (w : world) b w' : lift r w = (Ok b, w') <-> r = Ok b /\ w = w'.
Proof. destruct r; cbn; unfold mret, F_ret, throw; naive_solver. Qed.

(** ** State that every step keeps, whatever it returns *)

Definition keeps {A} (I : world -> Prop) (m : F A) : Prop := forall w, I w -> I (m w).2.

Section Keeps.
Context (I : world -> Prop).
Lemma fetch_keeps_ret {A} (a : A) : keeps I (mret a).
Proof. by intros w. Qed.
Lemma fetch_keeps_throw {A} e : keeps I (throw (A := A) e).
Proof. by intros w. Qed.
Lemma fetch_keeps_spin {A} : keeps I (spin (A := A)).
Proof. by intros w. Qed.
Lemma fetch_keeps_bind {A B} (m : F A) (k : A -> F B) : keeps I m -> (forall a, keeps I (k a)) -> keeps I (m ≫= k).
Proof.
  intros Hm Hk w Hw. specialize (Hm w Hw). unfold mbind, F_bind.
  destruct (m w) as [[a|e] w1]; [by apply Hk | done].
Qed.
Lemma fetch_keeps_attempt {A} (m : F A) : keeps I m -> keeps I (attempt m).
Proof. intros Hm w Hw. specialize (Hm w Hw). unfold attempt. by destruct (m w) as [[a|[e|]] w1]. Qed.
Lemma fetch_keeps_lift {A} (r : result FetchError A) : keeps I (lift r).
Proof. by destruct r; intros w. Qed.
Lemma keeps_Ok {A} (m : F A) w a w' : keeps I m -> m w = (Ok a, w') -> I w -> I w'.
Proof. intros Hm E Hw. specialize (Hm w Hw). by rewrite E in Hm. Qed.
End Keeps.

(** ** Runs that do not spin *)

Definition quiet {A} (m : F A) : Prop := forall w, (m w).1 <> Err Spin.
Lemma fetch_quiet_ret {A} (a : A) : quiet (mret a).
Proof. by intros w. Qed.
Lemma fetch_quiet_throw {A} e : quiet (throw (A := A) e).
Proof. by intros w. Qed.
Lemma fetch_quiet_bind {A B} (m : F A) (k : A -> F B) : quiet m -> (forall a, quiet (k a)) -> quiet (m ≫= k).
Proof.
  intros Hm Hk w. specialize (Hm w). unfold mbind, F_bind.
  destruct (m w) as [[a|e] w1]; [apply Hk | cbn in *; congruence].
Qed.
Lemma fetch_quiet_attempt {A} (m : F A) : quiet m -> quiet (attempt m).
Proof. intros Hm w. specialize (Hm w). unfold attempt. by destruct (m w) as [[a|[e|]] w1]. Qed.
Lemma fetch_quiet_lift {A} (r : result FetchError A) : quiet (lift r).
Proof. by destruct r; intros w. Qed.
Lemma fetch_quiet_io {A} (f : outcome -> files -> result ErrorKind A * files) : quiet (io f).
Proof. intros w. unfold io. by repeat case_match. Qed.
Lemma fetch_quiet_instant_now : quiet instant_now.
Proof. by intros w. Qed.
Lemma quiet_call agent url timeout : quiet (call agent url timeout).
Proof. by intros w. Qed.
Lemma quiet_next_sequence : quiet next_sequence.
Proof. by intros w. Qed.
End Logic.

(** Takes a run apart along its binds and branches; [leaf] closes the primitive steps. *)
Ltac run_steps bind leaf :=
  repeat first
    [ progress intros
    | leaf
    | apply bind
    | match goal with |- context [match ?x with _ => _ end] => destruct x end ].

Create HintDb fetch_quiet.
Create HintDb fetch_keeps.
#[export] Hint Resolve fetch_quiet_ret fetch_quiet_throw fetch_quiet_lift fetch_quiet_io fetch_quiet_instant_now quiet_call quiet_next_sequence : fetch_quiet.
#[export] Hint Resolve fetch_keeps_ret fetch_keeps_throw fetch_keeps_spin fetch_keeps_lift : fetch_keeps.

(** ** Termination *)

Section Termination.
Context `{Hreg : RegistryDeps} `{Hurl : UrlLib} `{Hjoin : !FetchUrls} `{Hmach : !Machine}.

(** From look [N] on, the clock shows that the time of the deadline is over. *)
Definition expires (d : FetchDeadline) (N : nat) : Prop := forall n, (N <= n)%nat -> started d + total d <= now_at n.

Lemma fetch_check_Ok d phase (w : world) u w' :
  check d phase w = (Ok u, w') ->
  looks w' = S (looks w) /\ w_files w' = w_files w /\ calls w' = calls w /\ now_at (looks w) < started d + total d.
Proof.
  unfold check, remaining_duration, instant_now, mbind, F_bind, mret, F_ret, throw, saturating_sub.
  cbn. case_match eqn:E; [done|]. intros [= <- <-]. apply Z.eqb_neq in E. cbn. split_and!; [done..|lia].
Qed.

Lemma check_Err d phase (w : world) s w' : check d phase w = (Err s, w') -> s = Failed (OperationDeadline phase).
Proof.
  unfold check, remaining_duration, instant_now, mbind, F_bind, mret, F_ret, throw. cbn. case_match; [|done].
  by intros [= <- _].
Qed.

Lemma io_looks {A} (n : nat) (f : outcome -> files -> result ErrorKind A * files) : keeps (fun w => (n <= looks w)%nat) (io f).
Proof. intros w Hw. unfold io. by repeat case_match. Qed.
Lemma now_looks (n : nat) : keeps (fun w => (n <= looks w)%nat) instant_now.
Proof. intros w Hw. cbn. lia. Qed.
Lemma quiet_check d phase : quiet (check d phase).
Proof. unfold check, remaining_duration. run_steps @fetch_quiet_bind ltac:(solve [eauto with fetch_quiet]). Qed.
Lemma quiet_remaining d phase : quiet (remaining d phase).
Proof. unfold remaining, remaining_duration. run_steps @fetch_quiet_bind ltac:(solve [eauto with fetch_quiet]). Qed.
Lemma remaining_looks (n : nat) d phase : keeps (fun w => (n <= looks w)%nat) (remaining d phase).
Proof.
  unfold remaining, remaining_duration.
  run_steps @fetch_keeps_bind ltac:(solve [eauto using now_looks with fetch_keeps]).
Qed.
Lemma check_looks (n : nat) d phase : keeps (fun w => (n <= looks w)%nat) (check d phase).
Proof.
  unfold check, remaining_duration.
  run_steps @fetch_keeps_bind ltac:(solve [eauto using now_looks with fetch_keeps]).
Qed.

(** [m] does not spin when the clock has been looked at [n] times before. *)
Definition calm {A} (n : nat) (m : F A) : Prop := forall w : world, (n <= looks w)%nat -> (m w).1 <> Err Spin.
Lemma calm_quiet {A} (n : nat) (m : F A) : quiet m -> calm n m.
Proof. intros Hm w _. apply Hm. Qed.
Lemma calm_bind {A B} (n : nat) (m : F A) (k : A -> F B) :
  quiet m -> keeps (fun w => (n <= looks w)%nat) m -> (forall a, calm n (k a)) -> calm n (m ≫= k).
Proof.
  intros Hq Hm Hk w Hw. specialize (Hq w). specialize (Hm w Hw). unfold mbind, F_bind.
  destruct (m w) as [[a|e] w1]; [by apply Hk | cbn in *; congruence].
Qed.

Section Deadline.
Context (d : FetchDeadline) (N : nat) (HN : expires d N).

(** A check that passes bounds the looks so far. *)
Lemma check_before (w : world) phase u w' : check d phase w = (Ok u, w') -> (looks w < N)%nat.
Proof.
  intros (_ & _ & _ & Hnow)%fetch_check_Ok. destruct (le_lt_dec N (looks w)) as [Hle|]; [|done].
  specialize (HN _ Hle). lia.
Qed.
Lemma calm_check {B} n phase (k : unit -> F B) :
  ((n < N)%nat -> calm (S n) (k ())) -> calm n (check d phase ≫= k).
Proof.
  intros Hk w Hw. unfold mbind, F_bind. pose proof (quiet_check d phase w) as Hq.
  destruct (check d phase w) as [[[]|e] w1] eqn:E; [|cbn in *; congruence].
  pose proof (check_before _ _ _ _ E). apply fetch_check_Ok in E as (E & _). apply Hk; lia.
Qed.
Lemma calm_attempt_check {B} n phase (k : result FetchError unit -> F B) :
  ((n < N)%nat -> calm (S n) (k (Ok ()))) -> (forall e, quiet (k (Err e))) -> calm n (attempt (check d phase) ≫= k).
Proof.
  intros Hk Hq w Hw. unfold mbind, F_bind, attempt. pose proof (quiet_check d phase w) as Hqc.
  destruct (check d phase w) as [[[]|[e|]] w1] eqn:E; [|apply Hq|cbn in *; congruence].
  pose proof (check_before _ _ _ _ E). apply fetch_check_Ok in E as (E & _). apply Hk; lia.
Qed.
End Deadline.
End Termination.
#[export] Hint Resolve quiet_check quiet_remaining : fetch_quiet.
#[export] Hint Resolve check_looks remaining_looks io_looks now_looks : fetch_keeps.

(** A run all of whose steps are quiet; a loop round by round, with its recursion as a hypothesis. *)
Ltac quiet_steps :=
  run_steps @fetch_quiet_bind ltac:(first [solve [eauto with fetch_quiet] | apply fetch_quiet_attempt]).
Ltac looks_steps :=
  run_steps @fetch_keeps_bind ltac:(first [solve [eauto with fetch_keeps] | apply fetch_keeps_attempt]).
Ltac calm_steps :=
  repeat first
    [ progress intros
    | progress cbn [is_ok negb]
    | match goal with |- quiet _ => solve [quiet_steps] end
    | solve [apply calm_quiet; eauto with fetch_quiet]
    | match goal with IH : forall n, _ -> _ -> calm n _ |- _ => apply IH; lia end
    | match goal with IH : context [calm _ (_ _)] |- calm _ _ => apply IH; lia end
    | eapply calm_check; [eassumption|]
    | eapply calm_attempt_check; [eassumption| |]
    | apply calm_bind; [solve [quiet_steps] | solve [looks_steps] |]
    | match goal with |- context [match ?x with _ => _ end] => destruct x end ].

Section Quiet.
Context `{Hreg : RegistryDeps} `{Hurl : UrlLib} `{Hjoin : !FetchUrls} `{Hmach : !Machine}.
Context (d : FetchDeadline) (N fuel : nat) (HN : expires d N) (Hfuel : (N < fuel)%nat).

Lemma read_rounds_calm rounds : forall n left rest acc phase on_error,
  (0 < rounds)%nat -> (N < n + rounds)%nat -> calm n (read_rounds rounds left rest acc phase on_error d).
Proof.
  induction rounds as [|rounds IH]; intros n left rest acc phase on_error Hr Hn; [lia|].
  cbn [read_rounds]. calm_steps.
Qed.
Lemma write_all_rounds_calm rounds : forall n path bs phase operation,
  (0 < rounds)%nat -> (N < n + rounds)%nat -> calm n (write_all_rounds rounds path bs phase operation d).
Proof.
  induction rounds as [|rounds IH]; intros n path bs phase operation Hr Hn; [lia|].
  cbn [write_all_rounds]. calm_steps.
Qed.
Lemma digest_rounds_calm rounds : forall n total rest acc path max,
  (0 < rounds)%nat -> (N < n + rounds)%nat -> calm n (digest_rounds rounds total rest acc path max d).
Proof.
  induction rounds as [|rounds IH]; intros n total rest acc path max Hr Hn; [lia|].
  cbn [digest_rounds]. calm_steps.
Qed.
Lemma lock_loop_calm rounds : forall n path,
  (0 < rounds)%nat -> (N < n + rounds)%nat -> calm n (lock_loop rounds path d).
Proof.
  induction rounds as [|rounds IH]; intros n path Hr Hn; [lia|].
  cbn [lock_loop]. calm_steps.
Qed.

Lemma calm_all {A} (m : F A) : calm 0 m -> quiet m.
Proof. intros Hm w. apply Hm. lia. Qed.
Lemma read_at_most_quiet max rest phase on_error too_large : quiet (read_at_most fuel max rest phase on_error too_large d).
Proof.
  unfold read_at_most. apply fetch_quiet_bind; [apply calm_all, read_rounds_calm; lia | quiet_steps].
Qed.
Lemma write_all_quiet path bs phase operation : quiet (write_all_deadlined fuel path bs phase operation d).
Proof. apply calm_all, write_all_rounds_calm; lia. Qed.
Lemma write_all_looks n rounds path bs phase operation :
  keeps (fun w => (n <= looks w)%nat) (write_all_rounds rounds path bs phase operation d).
Proof. revert bs. induction rounds as [|rounds IH]; intros bs; cbn [write_all_rounds]; looks_steps. Qed.

Section Cached.
Context (cache : CacheGuard) (Hd : deadline cache = d).
Lemma copy_rounds_calm rounds : forall n temp_path total rest acc destination art kind,
  (0 < rounds)%nat -> (N < n + rounds)%nat ->
  calm n (copy_rounds fuel rounds cache temp_path total rest acc destination art kind).
Proof.
  induction rounds as [|rounds IH]; intros n temp_path total rest acc destination art kind Hr Hn; [lia|].
  cbn [copy_rounds]. rewrite Hd.
  pose proof write_all_quiet. pose proof write_all_looks. unfold write_all_deadlined in *. calm_steps.
Qed.
Lemma copy_quiet temp_path total rest acc destination art kind :
  quiet (copy_rounds fuel fuel cache temp_path total rest acc destination art kind).
Proof. apply calm_all, copy_rounds_calm; lia. Qed.
End Cached.

Lemma digest_quiet total rest acc path max : quiet (digest_rounds fuel total rest acc path max d).
Proof. apply calm_all, digest_rounds_calm; lia. Qed.
Lemma lock_quiet path : quiet (lock_loop fuel path d).
Proof. apply calm_all, lock_loop_calm; lia. Qed.
Lemma redirect_quiet agent more url mode : quiet (redirect_loop agent more url d mode).
Proof. revert url. induction more as [|more IH]; intros url; cbn [redirect_loop]; quiet_steps. Qed.
Lemma create_temp_quiet attempts destination parent name : quiet (create_temp_loop attempts destination parent name d).
Proof. induction attempts as [|attempts IH]; cbn [create_temp_loop]; quiet_steps. Qed.
Lemma write_chunks_quiet parts path : quiet (write_chunks fuel parts path d).
Proof.
  induction parts as [|chunk parts IH]; cbn [write_chunks]; pose proof write_all_quiet; quiet_steps.
Qed.
Lemma atomic_write_quiet destination bs : quiet (atomic_write fuel destination bs d).
Proof.
  unfold atomic_write, or_remove_temp, create_temp_for, replace_file, sync_parent.
  pose proof create_temp_quiet. pose proof write_chunks_quiet. quiet_steps.
Qed.
Lemma get_bounded_quiet agent url max kind mode : quiet (get_bounded fuel agent url max kind d mode).
Proof.
  unfold get_bounded, open_with_redirects, read_bounded.
  pose proof redirect_quiet. pose proof read_at_most_quiet. quiet_steps.
Qed.
Lemma read_file_url_quiet url max kind : quiet (read_file_url_bounded fuel url max kind d).
Proof. unfold read_file_url_bounded. pose proof read_at_most_quiet. quiet_steps. Qed.
Lemma open_contained_quiet m a : quiet (open_contained_file_artifact m a d).
Proof. unfold open_contained_file_artifact, same_file_identity. quiet_steps. Qed.
Lemma read_cache_file_quiet path max : quiet (read_cache_file fuel path max d).
Proof. unfold read_cache_file. pose proof read_at_most_quiet. quiet_steps. Qed.
Lemma remove_invalid_quiet path : quiet (remove_invalid_cache_entry path d).
Proof. unfold remove_invalid_cache_entry. quiet_steps. Qed.
Lemma digest_open_quiet data path max : quiet (digest_open_file fuel data path max d).
Proof. unfold digest_open_file. pose proof digest_quiet. quiet_steps. Qed.

Section CachedQuiet.
Context (cache : CacheGuard) (Hd : deadline cache = d).
Lemma touch_quiet path : quiet (touch cache path).
Proof. unfold touch. quiet_steps. Qed.
Lemma scan_entries_quiet paths acc : quiet (scan_entries cache paths acc).
Proof. revert acc. induction paths as [|path paths IH]; intros acc; cbn [scan_entries]; quiet_steps. Qed.
Lemma scan_quiet dirs acc : quiet (scan_directories cache dirs acc).
Proof.
  pose proof scan_entries_quiet.
  revert acc. induction dirs as [|dir dirs IH]; intros acc; cbn [scan_directories]; quiet_steps.
Qed.
Lemma evict_loop_quiet protected listed total : quiet (evict_loop cache protected listed total).
Proof.
  revert total. induction listed as [|file listed IH]; intros total; cbn [evict_loop]; unfold try_lock; quiet_steps.
Qed.
Lemma evict_quiet protected : quiet (evict_to_budget cache protected).
Proof. unfold evict_to_budget. pose proof scan_quiet. pose proof evict_loop_quiet. quiet_steps. Qed.
Lemma finish_quiet paths mb sb origin msource hit verified art path lease :
  quiet (finish_fetch cache paths mb sb origin msource hit verified art path lease).
Proof.
  unfold finish_fetch, touch_manifest_pair, evict_for_result, is_file.
  pose proof touch_quiet. pose proof evict_quiet. quiet_steps.
Qed.
Lemma open_verified_quiet path art : quiet (open_verified_cached_artifact fuel cache path art).
Proof.
  unfold open_verified_cached_artifact, try_lock. rewrite Hd.
  pose proof remove_invalid_quiet. pose proof digest_open_quiet. quiet_steps.
Qed.
Lemma install_reader_quiet reader destination art kind :
  quiet (install_artifact_reader fuel cache reader destination art kind).
Proof.
  unfold install_artifact_reader, or_remove_temp, create_temp_for, replace_file, sync_parent. rewrite Hd.
  pose proof create_temp_quiet. pose proof (copy_quiet cache Hd). quiet_steps.
Qed.
Lemma install_quiet config path art mode : quiet (install_artifact fuel config cache path art mode).
Proof.
  unfold install_artifact, install_artifact_from_file, install_artifact_from_network, open_with_redirects. rewrite Hd.
  pose proof install_reader_quiet. pose proof open_contained_quiet. pose proof redirect_quiet. quiet_steps.
Qed.
Lemma store_pair_quiet config paths mb sb msource : quiet (store_manifest_pair fuel config cache paths mb sb msource).
Proof.
  unfold store_manifest_pair, write_manifest_pair. rewrite Hd.
  pose proof remove_invalid_quiet. pose proof atomic_write_quiet. pose proof touch_quiet. pose proof evict_quiet.
  quiet_steps.
Qed.
Lemma fetch_artifact_quiet config paths mb sb msource verified art mode :
  quiet (fetch_artifact fuel config cache paths mb sb msource verified art mode).
Proof.
  unfold fetch_artifact, artifact_path. pose proof store_pair_quiet. pose proof open_verified_quiet.
  pose proof finish_quiet. pose proof install_quiet. quiet_steps.
Qed.
Lemma select_pair_quiet config signature paths mode : quiet (select_manifest_pair fuel config signature cache paths mode).
Proof.
  unfold select_manifest_pair, retrieve_manifest_pair, recover_cached_manifest_pair, read_manifest_pair. rewrite Hd.
  pose proof read_file_url_quiet. pose proof get_bounded_quiet. pose proof read_cache_file_quiet. quiet_steps.
Qed.
End CachedQuiet.

Lemma cache_open_quiet root max : quiet (cache_open fuel root max d).
Proof. unfold cache_open. pose proof lock_quiet. quiet_steps. Qed.
Lemma cache_open_Ok root max w cache w' :
  cache_open fuel root max d w = (Ok cache, w') ->
  cache = {| manifests := path_join root (B"manifests"); artifacts_dir := path_join root (B"artifacts");
             max_bytes := max; deadline := d |}.
Proof.
  unfold cache_open. intros Hrun. repeat (apply F_bind_Ok in Hrun as (? & ? & _ & Hrun)).
  by apply F_ret_Ok in Hrun as [<- _].
Qed.
End Quiet.

Section Terminates.
Context `{Hreg : RegistryDeps} `{Hurl : UrlLib} `{Hjoin : !FetchUrls} `{Hmach : !Machine}.

Lemma quiet_bind_value {A B} (P : A -> Prop) (m : F A) (k : A -> F B) :
  (forall w a w', m w = (Ok a, w') -> P a) -> quiet m -> (forall a, P a -> quiet (k a)) -> quiet (m ≫= k).
Proof.
  intros HP Hm Hk w. specialize (Hm w). specialize (HP w). unfold mbind, F_bind.
  destruct (m w) as [[a|e] w1]; [by eapply Hk, HP | cbn in *; congruence].
Qed.

(** C29 (termination).  A fetch returns: whatever the network, the files and other processes do,
    and however often calls are interrupted, no loop of it outlives the time it was given.  [N] is
    the number of looks at the clock after which the clock shows that the time is over. *)
Theorem fetch_returns_in_time fuel config mode (w : world) N :
  (forall n, (N <= n)%nat -> now_at (looks w) + cfg_timeout config <= now_at n) -> (N < fuel)%nat ->
  (fetch_verified_artifact_inner fuel config mode w).1 <> Err Spin.
Proof.
  intros HN Hfuel. unfold fetch_verified_artifact_inner.
  destruct (cfg_timeout config =? 0); [done|]. destruct (cfg_cache_max_bytes config =? 0); [done|].
  set (d := {| started := now_at (looks w); total := cfg_timeout config |}).
  assert (expires d N) as Hd by exact HN.
  unfold mbind at 1, F_bind at 1. replace (from_timeout _ w) with (Ok (E := stop) d, (instant_now w).2) by reflexivity.
  cbv beta iota.
  match goal with |- ((?m ≫= ?k) ?w).1 <> _ => enough (quiet (m ≫= k)) as Hq by apply Hq end.
  pose proof (select_pair_quiet d N fuel Hd Hfuel). pose proof (fetch_artifact_quiet d N fuel Hd Hfuel).
  apply fetch_quiet_bind; [quiet_steps|intros _]. apply fetch_quiet_bind; [quiet_steps|intros signature].
  apply fetch_quiet_bind; [quiet_steps|intros _].
  eapply (quiet_bind_value (fun cache => deadline cache = d));
    [intros ? ? ? ->%cache_open_Ok; done | by eapply cache_open_quiet | intros cache Hcache].
  pose proof (evict_quiet cache). unfold manifest_paths. quiet_steps.
Qed.
End Terminates.
