(* ===== verification/FetchRequests.v ===== *)
(** * Where a registry fetch connects to

    Every request of a fetch goes to a public https host without credentials, redirects included,
    and the number of requests is bounded. *)
From S2P Require Import Prelude Paths Registry UrlPolicy FetchHost FetchHttp FetchCache Fetch FetchProps.

(** ** Steps without requests keep what only depends on the requests *)

Section Silent.
Context `{Hreg : RegistryDeps} `{Hurl : UrlLib} `{Hjoin : !FetchUrls} `{Hmach : !Machine}.
Context (I : world -> Prop) (fuel : nat).
Hypothesis keeps_io : forall A (f : outcome -> files -> result ErrorKind A * files), keeps I (io f).
Hypothesis keeps_now : keeps I instant_now.
Hypothesis keeps_sequence : keeps I next_sequence.

Ltac silent := run_steps @fetch_keeps_bind ltac:(first [solve [eauto with fetch_keeps] | apply fetch_keeps_attempt]).

Lemma silent_check d phase : keeps I (check d phase).
Proof using keeps_now. unfold check, remaining_duration. silent. Qed.
Hint Resolve silent_check : fetch_keeps.
Lemma silent_read_at_most max rest phase on_error too_large d :
  keeps I (read_at_most fuel max rest phase on_error too_large d).
Proof using keeps_now keeps_io.
  unfold read_at_most. apply fetch_keeps_bind; [|silent]. generalize (saturating_add max 1), ([] : bytes).
  revert rest. induction fuel as [|rounds IH]; intros rest left acc; cbn [read_rounds]; silent.
Qed.
Lemma silent_write_all path bs phase operation d : keeps I (write_all_deadlined fuel path bs phase operation d).
Proof using keeps_now keeps_io.
  unfold write_all_deadlined. revert bs. induction fuel as [|rounds IH]; intros bs; cbn [write_all_rounds]; silent.
Qed.
Lemma silent_digest rounds total rest acc path max d : keeps I (digest_rounds rounds total rest acc path max d).
Proof using keeps_now keeps_io.
  revert total rest acc. induction rounds as [|rounds IH]; intros total rest acc; cbn [digest_rounds]; silent.
Qed.
Lemma silent_lock rounds path d : keeps I (lock_loop rounds path d).
Proof using keeps_now keeps_io.
  induction rounds as [|rounds IH]; cbn [lock_loop]; unfold remaining, remaining_duration, try_lock; silent.
Qed.
Lemma silent_copy rounds cache temp total rest acc destination art kind :
  keeps I (copy_rounds fuel rounds cache temp total rest acc destination art kind).
Proof using keeps_now keeps_io.
  pose proof silent_write_all.
  revert total rest acc. induction rounds as [|rounds IH]; intros total rest acc; cbn [copy_rounds]; silent.
Qed.
Lemma silent_create_temp destination d : keeps I (create_temp_for destination d).
Proof using keeps_now keeps_io keeps_sequence.
  unfold create_temp_for. apply fetch_keeps_bind; [silent|intros _]. apply fetch_keeps_bind; [silent|intros parent].
  generalize 128%nat. intros n. induction n as [|n IH]; cbn [create_temp_loop]; silent.
Qed.
Hint Resolve silent_read_at_most silent_write_all silent_digest silent_lock silent_copy silent_create_temp : fetch_keeps.
Lemma silent_write_chunks parts path d : keeps I (write_chunks fuel parts path d).
Proof using keeps_now keeps_io. induction parts as [|chunk parts IH]; cbn [write_chunks]; silent. Qed.
Hint Resolve silent_write_chunks : fetch_keeps.
Lemma silent_atomic_write destination bs d : keeps I (atomic_write fuel destination bs d).
Proof using All. unfold atomic_write, or_remove_temp, replace_file, sync_parent. silent. Qed.
Lemma silent_touch cache path : keeps I (touch cache path).
Proof using keeps_now keeps_io. unfold touch. silent. Qed.
Lemma silent_remove_invalid path d : keeps I (remove_invalid_cache_entry path d).
Proof using keeps_now keeps_io. unfold remove_invalid_cache_entry. silent. Qed.
Lemma silent_scan_entries cache paths acc : keeps I (scan_entries cache paths acc).
Proof using keeps_now keeps_io. revert acc. induction paths as [|path paths IH]; intros acc; cbn [scan_entries]; silent. Qed.
Hint Resolve silent_atomic_write silent_touch silent_remove_invalid silent_scan_entries : fetch_keeps.
Lemma silent_scan cache dirs acc : keeps I (scan_directories cache dirs acc).
Proof using keeps_now keeps_io. revert acc. induction dirs as [|dir dirs IH]; intros acc; cbn [scan_directories]; silent. Qed.
Lemma silent_evict_loop cache protected listed total : keeps I (evict_loop cache protected listed total).
Proof using keeps_now keeps_io.
  revert total. induction listed as [|file listed IH]; intros total; cbn [evict_loop]; unfold try_lock; silent.
Qed.
Hint Resolve silent_scan silent_evict_loop : fetch_keeps.
Lemma silent_evict cache protected : keeps I (evict_to_budget cache protected).
Proof using keeps_now keeps_io. unfold evict_to_budget. silent. Qed.
Hint Resolve silent_evict : fetch_keeps.
Lemma silent_finish cache paths mb sb origin msource hit verified art path lease :
  keeps I (finish_fetch cache paths mb sb origin msource hit verified art path lease).
Proof using keeps_now keeps_io. unfold finish_fetch, touch_manifest_pair, evict_for_result, is_file. silent. Qed.
Lemma silent_open_verified cache path art : keeps I (open_verified_cached_artifact fuel cache path art).
Proof using keeps_now keeps_io. unfold open_verified_cached_artifact, digest_open_file, try_lock. silent. Qed.
Lemma silent_install_reader cache reader destination art kind :
  keeps I (install_artifact_reader fuel cache reader destination art kind).
Proof using All. unfold install_artifact_reader, or_remove_temp, replace_file, sync_parent. silent. Qed.
Lemma silent_store_pair config cache paths mb sb msource : keeps I (store_manifest_pair fuel config cache paths mb sb msource).
Proof using All. unfold store_manifest_pair, write_manifest_pair. silent. Qed.
Lemma silent_cache_open root max d : keeps I (cache_open fuel root max d).
Proof using keeps_now keeps_io. unfold cache_open. silent. Qed.
Lemma silent_read_pair cache paths : keeps I (read_manifest_pair fuel cache paths).
Proof using keeps_now keeps_io. unfold read_manifest_pair, read_cache_file. silent. Qed.
Lemma silent_read_file_url url max kind d : keeps I (read_file_url_bounded fuel url max kind d).
Proof using keeps_now keeps_io. unfold read_file_url_bounded. silent. Qed.
Lemma silent_open_contained m a d : keeps I (open_contained_file_artifact m a d).
Proof using keeps_now keeps_io. unfold open_contained_file_artifact, same_file_identity. silent. Qed.
End Silent.

(** ** Runs that make at most [k] requests, each to an admissible URL *)

Section Requests.
Context `{Hreg : RegistryDeps} `{Hurl : UrlLib} `{Hjoin : !FetchUrls} `{Hmach : !Machine}.
Context (fuel : nat).

Record public_https (url : Url) : Prop := {
  pub_scheme : url_scheme url = B"https";
  pub_no_credentials : url_username url = [] /\ url_password url = None /\ url_authority_contains_at url = false;
  pub_no_fragment : url_fragment url = None;
  pub_host host : url_host url = Some host -> host_is_globally_routable host = true }.

Definition spends {A} (k : nat) (m : F A) : Prop := forall w : world,
  exists new, requested (m w).2 = requested w ++ new /\ Forall public_https new /\ (length new <= k)%nat.

Lemma spends_silent {A} (m : F A) : (forall old, keeps (fun w => requested w = old) m) -> spends 0 m.
Proof. intros Hm w. exists []. rewrite (Hm (requested w) w eq_refl), app_nil_r. split_and!; [done|constructor|done]. Qed.
Lemma spends_weaken {A} j k (m : F A) : spends j m -> (j <= k)%nat -> spends k m.
Proof. intros Hm Hjk w. destruct (Hm w) as (new & ? & ? & ?). exists new. split_and!; [done..|lia]. Qed.
Lemma spends_bind {A B} j k (m : F A) (f : A -> F B) :
  spends j m -> (forall w a w', m w = (Ok a, w') -> spends k (f a)) -> spends (j + k) (m ≫= f).
Proof.
  intros Hm Hf w. destruct (Hm w) as (new & E & HP & Hn). unfold mbind, F_bind.
  destruct (m w) as [[a|e] w1] eqn:Em; cbn in E.
  - destruct (Hf _ _ _ Em w1) as (new' & -> & HP' & Hn'). exists (new ++ new').
    rewrite E, app_assoc. split_and!; [done | by apply Forall_app | rewrite length_app; lia].
  - exists new. split_and!; [done..|lia].
Qed.
Lemma spends_attempt {A} k (m : F A) : spends k m -> spends k (attempt m).
Proof. intros Hm w. specialize (Hm w). unfold attempt. by destruct (m w) as [[a|[e|]] w1]. Qed.

Lemma io_requested {A} (f : outcome -> files -> result ErrorKind A * files) old : keeps (fun w => requested w = old) (io f).
Proof. intros w Hw. unfold io. by repeat case_match. Qed.
Lemma now_requested old : keeps (fun w => requested w = old) instant_now.
Proof. by intros w. Qed.
Lemma sequence_requested old : keeps (fun w => requested w = old) next_sequence.
Proof. by intros w. Qed.
End Requests.

Ltac no_requests lem :=
  apply spends_silent; intros ?; apply lem; auto using @io_requested, @now_requested, @sequence_requested.
Ltac silent_leaf :=
  first
    [ solve [eauto using @now_requested, @io_requested, @sequence_requested with fetch_keeps] | apply silent_check | apply silent_open_contained
    | apply silent_read_file_url | apply silent_read_pair | apply silent_cache_open | apply silent_store_pair
    | apply silent_install_reader | apply silent_open_verified | apply silent_finish | apply silent_evict
    | apply silent_read_at_most | apply fetch_keeps_attempt ].
Ltac silent_run := apply spends_silent; intros ?; run_steps @fetch_keeps_bind silent_leaf.

Section RequestsProps.
Context `{Hreg : RegistryDeps} `{Hurl : UrlLib} `{Hjoin : !FetchUrls} `{Hmach : !Machine}.
Context (fuel : nat).

Lemma resolve_redirect_public current location url :
  resolve_redirect current location Production = Ok url -> public_https url.
Proof.
  unfold resolve_redirect, has_credentials. intros Hp.
  do 3 (apply bind_Ok in Hp as ([] & _ & Hp)). apply bind_Ok in Hp as (target & _ & Hp). cbv zeta in Hp.
  apply bind_Ok in Hp as ([] & Hs%fail_if_Ok & Hp). apply bind_Ok in Hp as ([] & Hc%fail_if_Ok & Hp).
  apply bind_Ok in Hp as ([] & Hf%fail_if_Ok & Hp). apply bind_Ok in Hp as ([] & Hh%fail_if_Ok & [= ->]).
  cbn in Hs, Hh. rewrite orb_false_r in Hs. to_prop. split; [done| | |].
  - split_and!; [done|by apply eq_None_not_Some|done].
  - by apply eq_None_not_Some.
  - intros host Hhost. rewrite Hhost in Hh. by apply negb_false_iff in Hh.
Qed.

Lemma admitted_public url : manifest_url_admitted url -> url_scheme url = B"https" -> public_https url.
Proof.
  intros [(Hu & Hpw & Ha) [_ Hf] Hplace _] Hs. split; [done| |done|].
  - split_and!; [done..|]. unfold url_authority_contains_at, first_segment_contains_at.
    unfold raw_authority_contains_at in Ha. by destruct (split_once _ _) as [[? ?]|].
  - intros host Hhost. destruct Hplace as [(_ & h & Hh & Hr)|(E & _)]; [congruence|].
    rewrite Hs in E. done.
Qed.

Lemma call_spends agent url timeout : public_https url -> spends 1 (call agent url timeout).
Proof. intros Hu w. exists [url]. split_and!; [done|by apply Forall_singleton|done]. Qed.

Lemma redirect_spends agent more url d :
  public_https url -> spends (S more) (redirect_loop agent more url d Production).
Proof.
  revert url. induction more as [|more IH]; intros url Hu; cbn [redirect_loop].
  all: eapply (spends_weaken (0 + (1 + _))); [|apply Nat.le_refl].
  all: apply spends_bind; [unfold remaining, remaining_duration; silent_run|intros _ rest _ _].
  all: apply spends_bind; [by apply call_spends|intros _ response _ _].
  - silent_run.
  - apply (spends_bind 0); [silent_run|intros _ _ _ _]. apply (spends_bind 0); [silent_run|intros _ answer _ _].
    destruct (is_redirect_status _); [|eapply (spends_weaken 0); [silent_run|lia]].
    apply (spends_bind 0); [silent_run|intros _ location _ _].
    apply (spends_bind 0); [silent_run|intros w1 target w2 Ht].
    apply lift_Ok in Ht as [Ht _]. apply (spends_bind 0); [silent_run|intros _ _ _ _].
    by eapply IH, resolve_redirect_public.
Qed.

Lemma get_bounded_spends agent url max kind d :
  public_https url -> spends 6 (get_bounded fuel agent url max kind d Production).
Proof.
  intros Hu. unfold get_bounded, open_with_redirects.
  apply (spends_bind 0); [silent_run|intros _ _ _ _].
  apply (spends_bind 6 0); [by apply redirect_spends|intros _ [final response] _ _].
  unfold read_bounded. silent_run.
Qed.

Lemma retrieve_spends manifest signature timeout d :
  public_https manifest -> public_https signature ->
  spends 12 (retrieve_manifest_pair fuel manifest signature timeout d Production).
Proof.
  intros Hm Hs. unfold retrieve_manifest_pair. cbv zeta.
  apply (spends_bind 6 6); [by apply spends_attempt, get_bounded_spends|intros _ [bs|e] _ _].
  - apply (spends_bind 6 0); [by apply spends_attempt, get_bounded_spends|intros _ r _ _]. silent_run.
  - eapply (spends_weaken 0); [silent_run|lia].
Qed.

Lemma select_spends config signature cache paths :
  (url_scheme (cfg_manifest_url config) = B"https" -> public_https (cfg_manifest_url config) /\ public_https signature) ->
  spends 12 (select_manifest_pair fuel config signature cache paths Production).
Proof.
  intros Hpub. unfold select_manifest_pair. cbv zeta.
  destruct (bytes_eqb _ (B"file")); [eapply (spends_weaken 0); [silent_run|lia]|].
  destruct (bytes_eqb _ (B"https")) eqn:Es.
  - apply bytes_eqb_true in Es. destruct (Hpub Es).
    apply (spends_bind 12 0); [by apply retrieve_spends|intros _ [[mb sb]|e] _ _]; [silent_run|].
    unfold recover_cached_manifest_pair. silent_run.
  - rewrite andb_false_r. eapply (spends_weaken 0); [silent_run|lia].
Qed.

Lemma install_spends config cache path art :
  (url_scheme (cfg_manifest_url config) = B"https" \/ url_scheme (cfg_manifest_url config) = B"file") ->
  spends 6 (install_artifact fuel config cache path art Production).
Proof.
  intros Hs. unfold install_artifact. apply (spends_bind 0); [silent_run|intros w url w' Hu].
  apply lift_Ok in Hu as [Hu _]. cbn in Hu. apply map_err_Ok in Hu.
  destruct (bytes_eqb _ (B"file")) eqn:Ef.
  { eapply (spends_weaken 0); [unfold install_artifact_from_file; silent_run|lia]. }
  apply bytes_eqb_false in Ef. destruct Hs as [Hs|]; [|done].
  assert (public_https url) as Hpub.
  { pose proof (artifact_url_admitted _ _ _ Hu) as (_ & _ & Ha). apply admitted_public; [done|]. rewrite <- Hs.
    unfold artifact_url, sibling_url in Hu. do 2 apply bind_Ok in Hu as ([] & _ & Hu).
    apply bind_Ok in Hu as (u & Hu%ok_or_Ok & Hend). apply bind_Ok in Hend as ([] & _ & [= <-]).
    by eapply url_last_segment_scheme. }
  apply (spends_bind 6 0); [|intros; silent_run].
  unfold install_artifact_from_network, open_with_redirects. cbv zeta.
  apply (spends_bind 0); [silent_run|intros _ _ _ _].
  apply (spends_bind 6 0); [by apply redirect_spends|intros _ [final response] _ _]. silent_run.
Qed.

Lemma fetch_artifact_spends config cache paths mb sb msource verified art :
  (url_scheme (cfg_manifest_url config) = B"https" \/ url_scheme (cfg_manifest_url config) = B"file") ->
  spends 6 (fetch_artifact fuel config cache paths mb sb msource verified art Production).
Proof.
  intros Hs. unfold fetch_artifact, artifact_path.
  apply (spends_bind 0); [silent_run|intros _ _ _ _]. apply (spends_bind 0); [silent_run|intros _ path _ _].
  apply (spends_bind 0); [silent_run|intros _ [lease|] _ _]; [eapply (spends_weaken 0); [silent_run|lia]|].
  apply (spends_bind 6 0); [by apply install_spends|intros _ origin _ _]. silent_run.
Qed.

(** C27 (requests).  Every request of a fetch, those that follow redirects included, goes by https
    to a URL without credentials or fragment whose host is not local or private, and there are at
    most eighteen: six for each of manifest, signature and artifact. *)
Theorem requests_stay_public config (w : world) :
  exists new, requested (fetch_verified_artifact fuel config w).2 = requested w ++ new /\
    Forall public_https new /\ (length new <= 18)%nat.
Proof.
  enough (spends 18 (fetch_verified_artifact fuel config)) as Hs by apply Hs.
  unfold fetch_verified_artifact, fetch_verified_artifact_inner.
  destruct (cfg_timeout config =? 0); [eapply (spends_weaken 0); [silent_run|lia]|].
  destruct (cfg_cache_max_bytes config =? 0); [eapply (spends_weaken 0); [silent_run|lia]|].
  apply (spends_bind 0); [unfold from_timeout; silent_run|intros _ d _ _].
  apply (spends_bind 0); [silent_run|intros _ _ _ _].
  apply (spends_bind 0); [silent_run|intros w1 signature w2 Hsig]. apply lift_Ok in Hsig as [Hsig _].
  cbn in Hsig. apply map_err_Ok in Hsig. pose proof (signature_url_admitted _ _ Hsig) as [Hbase Hadm].
  assert (url_scheme signature = url_scheme (cfg_manifest_url config)) as Hscheme.
  { unfold signature_url in Hsig. apply bind_Ok in Hsig as ([] & _ & Hsig).
    apply bind_Ok in Hsig as (u & Hu%map_err_Ok & Hend). apply bind_Ok in Hend as ([] & _ & [= <-]).
    by eapply url_suffix_scheme. }
  do 3 (apply (spends_bind 0); [silent_run|intros _ ? _ _]).
  apply (spends_bind 0); [unfold manifest_paths; silent_run|intros _ paths _ _].
  apply (spends_bind 12 6).
  { apply select_spends. intros Hs. split; apply admitted_public; congruence. }
  intros _ [[mb sb] msource] _ _. cbv zeta.
  do 6 (apply (spends_bind 0); [silent_run|intros _ ? _ _]).
  case_match; [eapply (spends_weaken 0); [silent_run|lia]|].
  apply fetch_artifact_spends. destruct (url_place _ Hbase) as [[]|[]]; auto.
Qed.
End RequestsProps.
