(* ===== verification/FetchVerified.v ===== *)
(** * What a registry fetch returns

    The artifact of a fetch that succeeds was published for the target by a manifest that the
    trusted keys signed, and the cached file has its size and digest; the cache stands in for the
    network only where it may. *)
From S2P Require Import Prelude Paths Registry UrlPolicy FetchHost FetchHttp FetchCache Fetch FetchProps.

Lemma rsplit_once_last c dir name : c ∉ name -> rsplit_once c (dir ++ c :: name) = Some (dir, name).
Proof.
  intros Hn. induction dir as [|b dir IH]; cbn [app rsplit_once]; [|by rewrite IH].
  assert (rsplit_once c name = None) as ->.
  { induction name as [|b name IH]; [done|]. cbn [rsplit_once]. apply not_elem_of_cons in Hn as [Hb Hn].
    rewrite IH by done. by rewrite (proj2 (byte_eqb_false b c)) by congruence. }
  by rewrite byte_eqb_refl.
Qed.

Section Verified.
Context `{Hreg : RegistryDeps} `{Hurl : UrlLib} `{Hjoin : !FetchUrls} `{Hmach : !Machine}.
Context (fuel : nat) (root : bytes).

(** The directories of the cache and what is directly in them. *)
Definition in_cache (p : bytes) : Prop :=
  p = path_join root (B"manifests") \/ p = path_join root (B"artifacts") \/
  path_parent p = Some (path_join root (B"manifests")) \/ path_parent p = Some (path_join root (B"artifacts")).
(** Processes that respect the lock of the cache leave it alone. *)
Definition undisturbed : Prop :=
  forall i (fs : files) p, in_cache p -> o_others (outcome_of i) fs !! p = fs !! p.

(** The regular file with these bytes is there. *)
Definition holds (path data : bytes) (w : world) : Prop :=
  exists ident modified, w_files w !! path = Some (NFile ident data modified).

Context (Hothers : undisturbed).

Definition at_path (path : bytes) (n : option node) (w : world) : Prop := w_files w !! path = n.

Section Path.
Context (path : bytes) (Hpath : in_cache path).

Lemma io_reads {A : Type} (n : option node) (g : outcome -> files -> result ErrorKind A) :
  keeps (at_path path n) (io (fun o fs => (g o fs, fs))).
Proof using Hothers Hpath.
  intros w Hw. unfold io, at_path in *. repeat case_match; simplify_eq; cbn; by rewrite Hothers.
Qed.
Lemma now_at_path n : keeps (at_path path n) instant_now.
Proof. by intros w. Qed.
Lemma io_reads_holds {A} (data : bytes) (g : outcome -> files -> result ErrorKind A) :
  keeps (holds path data) (io (fun o fs => (g o fs, fs))).
Proof using Hothers Hpath. intros w (ident & md & Hw). exists ident, md. by apply io_reads. Qed.
Lemma check_at_path n d phase : keeps (at_path path n) (check d phase).
Proof. unfold check, remaining_duration. run_steps @fetch_keeps_bind ltac:(solve [eauto using now_at_path with fetch_keeps]). Qed.
Lemma check_holds data d phase : keeps (holds path data) (check d phase).
Proof. intros w (ident & md & Hw). exists ident, md. by apply check_at_path. Qed.

Lemma io_value {A : Type} (g : outcome -> files -> result ErrorKind A) (w : world) r w' (n : option node) :
  at_path path n w -> io (fun o fs => (g o fs, fs)) w = (Ok r, w') -> at_path path n w' /\
  ((exists kind, r = Err kind /\ kind <> NotFound) \/ r = g (outcome_of (calls w)) (w_files w')).
Proof using Hothers Hpath.
  intros Hw E. pose proof (keeps_Ok _ _ _ _ _ (io_reads n g) E Hw) as Hw'. split; [done|].
  unfold io in E. pose proof (fail_not_found (calls w)) as Hf.
  destruct (o_fail _) as [kind|]; injection E as <- <-; [left; eexists; split; [done|congruence] | by right].
Qed.

(** ** The digest of an open file is that of all its bytes *)

Lemma read_value limit rest (w : world) chunk w' :
  0 < limit -> read limit rest w = (Ok (Ok chunk), w') -> exists k, (0 < k)%nat /\ chunk = take k rest.
Proof.
  intros Hl. unfold read, io. destruct (o_fail _); [done|]. intros [= <- <-]. eexists. split; [|done]. lia.
Qed.
Lemma digest_rounds_value rounds total rest acc d max (w : world) t dg w' :
  max < u64_max -> total = zlen acc -> total <= max ->
  digest_rounds rounds total rest acc path max d w = (Ok (t, dg), w') ->
  max < t \/ (t = zlen (acc ++ rest) /\ dg = sha256_hex (acc ++ rest)).
Proof.
  intros Hmax. revert total rest acc w. induction rounds as [|rounds IH]; intros total rest acc w Htot Hle Hrun; [done|].
  cbn [digest_rounds] in Hrun. apply F_bind_Ok in Hrun as ([] & w1 & _ & Hrun).
  apply F_bind_Ok in Hrun as (r & w2 & Hread & Hrun). apply F_bind_Ok in Hrun as ([] & w3 & _ & Hrun).
  destruct r as [chunk|kind]; [|destruct kind; try done; by eapply IH in Hrun].
  apply read_value in Hread as (k & Hk & ->); [|by unfold COPY_BUFFER_BYTES].
  destruct (take k rest) as [|b chunk] eqn:Et.
  - apply F_ret_Ok in Hrun as [[= <- <-] _]. right.
    destruct rest as [|? ?]; [by rewrite app_nil_r|]. destruct k; [lia|done].
  - rewrite <- Et in Hrun. cbv zeta in Hrun. revert Hrun. case_match eqn:Eg.
    + intros [[= <- <-] _]%F_ret_Ok. left. by apply Z.gtb_lt in Eg.
    + intros ([] & w4 & _ & Hrun)%F_bind_Ok.
      assert (saturating_add total (zlen (take k rest)) = zlen (acc ++ take k rest)) as Esum.
      { rewrite Z.gtb_ltb in Eg. apply Z.ltb_ge in Eg. unfold saturating_add in *. rewrite zlen_app. lia. }
      apply IH in Hrun; [|done|rewrite Z.gtb_ltb in Eg; by apply Z.ltb_ge in Eg].
      enough (take k rest ++ drop (length (take k rest)) rest = rest) as Eall by (by rewrite <- app_assoc, Eall in Hrun).
      rewrite length_take. destruct (Nat.min_spec k (length rest)) as [[_ ->]|[Hge ->]]; [apply take_drop|].
      by rewrite take_ge, drop_ge, app_nil_r by lia.
Qed.
Lemma digest_open_value data d max (w : world) t dg w' :
  0 <= max < u64_max -> digest_open_file fuel data path max d w = (Ok (t, dg), w') ->
  max < t \/ (t = zlen data /\ dg = sha256_hex data).
Proof.
  intros Hmax Hrun. unfold digest_open_file in Hrun.
  do 4 (apply F_bind_Ok in Hrun as (? & ? & _ & Hrun)).
  apply F_bind_Ok in Hrun as (digested & w2 & Hd & Hrun).
  assert (digested = Ok (t, dg)) as ->.
  { destruct digested as [v|e]; [|destruct e]; try done.
    all: do 3 (apply F_bind_Ok in Hrun as (? & ? & _ & Hrun)); by apply lift_Ok in Hrun as [[= ->] _]. }
  unfold attempt in Hd. destruct (digest_rounds _ _ _ _ _ _ _ _) as [[v|[e|]] w3] eqn:E; try done.
  injection Hd as -> ->. by apply digest_rounds_value in E; [|lia|done|lia].
Qed.

Lemma io_or_Ok {A} operation p (r : result ErrorKind A) (w : world) a w' :
  io_or operation p r w = (Ok a, w') <-> r = Ok a /\ w = w'.
Proof. unfold io_or. by rewrite lift_Ok, map_err_Ok. Qed.

(** A check, then the rest of the run from an unchanged entry. *)
Lemma check_then {B} (n : option node) d phase (k : unit -> F B) (w : world) b w' :
  (check d phase ≫= k) w = (Ok b, w') -> at_path path n w -> exists w1, at_path path n w1 /\ k () w1 = (Ok b, w').
Proof.
  intros ([] & w1 & Hc & Hrun)%F_bind_Ok Hw. exists w1. split; [|done]. exact (keeps_Ok _ _ _ _ _ (check_at_path n _ _) Hc Hw).
Qed.
(** A call that only reads, then the rest. *)
Lemma reads_then {A B : Type} (n : option node) (g : outcome -> files -> result ErrorKind A) (k : result ErrorKind A -> F B) (w : world) b w' :
  (io (fun o fs => (g o fs, fs)) ≫= k) w = (Ok b, w') -> at_path path n w ->
  exists r w1, at_path path n w1 /\ k r w1 = (Ok b, w') /\
    ((exists kind, r = Err kind /\ kind <> NotFound) \/ r = g (outcome_of (calls w)) (w_files w1)).
Proof using Hothers Hpath.
  intros (r & w1 & Hr & Hrun)%F_bind_Ok Hw. destruct (io_value _ _ _ _ _ Hw Hr). eauto.
Qed.
Lemma quiet_then {A B : Type} (n : option node) (m : F A) (k : A -> F B) (w : world) b w' :
  keeps (at_path path n) m -> (m ≫= k) w = (Ok b, w') -> at_path path n w ->
  exists a w0 w1, at_path path n w1 /\ k a w1 = (Ok b, w') /\ m w0 = (Ok a, w1).
Proof.
  intros Hm (a & w1 & Hr & Hrun)%F_bind_Ok Hw. exists a, w, w1. split; [|done]. by eapply keeps_Ok.
Qed.
Lemma digest_open_reads (n : option node) data d max : keeps (at_path path n) (digest_open_file fuel data path max d).
Proof using Hothers Hpath.
  unfold digest_open_file.
  assert (forall rounds total rest acc, keeps (at_path path n) (digest_rounds rounds total rest acc path max d)) as Hrounds.
  { intros rounds. induction rounds as [|rounds IH]; intros total rest acc; cbn [digest_rounds]; unfold read.
    all: run_steps @fetch_keeps_bind ltac:(first [solve [eauto using check_at_path, io_reads with fetch_keeps] | apply IH]). }
  unfold handle_call.
  run_steps @fetch_keeps_bind ltac:(first [solve [eauto using check_at_path, io_reads with fetch_keeps] | apply fetch_keeps_attempt]).
Qed.

(** What the cache gives out has the size and the digest that were asked for, and is still there. *)
Lemma open_verified_sound cache art (w : world) data w' :
  size_ art <= ARTIFACT_MAX_BYTES ->
  open_verified_cached_artifact fuel cache path art w = (Ok (Some data), w') ->
  holds path data w' /\ zlen data = size_ art /\ sha256_hex data = sha256 art.
Proof using Hothers Hpath.
  intros Hsize Hrun. unfold open_verified_cached_artifact, symlink_metadata, open_read, metadata in Hrun.
  assert (at_path path (w_files w !! path) w) as Hw by done. revert Hw. generalize (w_files w !! path). intros n Hw.
  eapply check_then in Hrun as (w1 & Hw1 & Hrun); [|exact Hw].
  eapply reads_then in Hrun as (meta & w2 & Hw2 & Hrun & Hmeta); [|exact Hw1].
  eapply check_then in Hrun as (w3 & Hw3 & Hrun); [|exact Hw2].
  destruct meta as [meta|kind]; [|by destruct kind].
  destruct Hmeta as [(? & ? & _)|Hmeta]; [done|].
  cbv zeta in Hrun. destruct (negb _) eqn:Efits in Hrun.
  { by apply F_bind_Ok in Hrun as (? & ? & _ & [? _]%F_ret_Ok). }
  unfold lookup_or_missing in Hmeta. symmetry in Hmeta. apply ok_or_Ok in Hmeta.
  destruct meta as [ident stored md| |]; [|done..]. apply negb_false_iff, Z.eqb_eq in Efits.
  assert (n = Some (NFile ident stored md)) as -> by (unfold at_path in Hw2; congruence).
  eapply reads_then in Hrun as (file & w4 & Hw4 & Hrun & Hfile); [|exact Hw3].
  eapply check_then in Hrun as (w5 & Hw5 & Hrun); [|exact Hw4].
  apply F_bind_Ok in Hrun as (node & w6 & [-> <-]%io_or_Ok & Hrun).
  destruct Hfile as [(? & ? & _)|Hfile]; [done|].
  assert (node = NFile ident stored md) as ->.
  { unfold lookup_or_missing in Hfile. symmetry in Hfile. apply ok_or_Ok in Hfile.
    unfold at_path in Hw4. rewrite (canonical_self _ _ _ Hw4) in Hfile by done. cbn in Hfile. congruence. }
  eapply check_then in Hrun as (w7 & Hw7 & Hrun); [|exact Hw5].
  eapply quiet_then in Hrun as (lease & wl & w8 & Hw8 & Hrun & _); [| |exact Hw7].
  2:{ unfold try_lock. run_steps @fetch_keeps_bind ltac:(solve [eauto using io_reads with fetch_keeps]). }
  eapply check_then in Hrun as (w9 & Hw9 & Hrun); [|exact Hw8].
  destruct lease; [|done..]. eapply check_then in Hrun as (w10 & Hw10 & Hrun); [|exact Hw9]. cbv zeta in Hrun.
  eapply quiet_then in Hrun as ([size' digest'] & wd & w11 & Hw11 & Hrun & Hdigest); [|apply digest_open_reads|exact Hw10].
  destruct (negb _ || negb _) eqn:Ematch in Hrun.
  { by apply F_bind_Ok in Hrun as (? & ? & _ & [? _]%F_ret_Ok). }
  eapply check_then in Hrun as (w12 & Hw12 & [[= <-] <-]%F_ret_Ok); [|exact Hw11].
  apply digest_open_value in Hdigest; [|done]. to_prop. split; [by exists ident, md|]. split; [done|].
  destruct Hdigest as [|[_ <-]]; [lia|done].
Qed.

(** ** Recency and eviction keep a protected file *)

Lemma set_times_holds data p : keeps (holds path data) (set_times p).
Proof using Hothers Hpath.
  intros w (ident & md & Hw). rewrite <- (Hothers (calls w)) in Hw by done. unfold set_times, io.
  destruct (o_fail _); cbn; [by exists ident, md|].
  destruct (decide (p = path)) as [->|Hne].
  - rewrite Hw. eexists _, _. apply lookup_insert_eq.
  - exists ident, md. cbn. case_match; [|done]. case_match; [|done..]. by rewrite lookup_insert_ne.
Qed.
Lemma remove_holds data p : p <> path -> keeps (holds path data) (remove_file p).
Proof using Hothers Hpath.
  intros Hne w (ident & md & Hw). rewrite <- (Hothers (calls w)) in Hw by done. unfold remove_file, io.
  exists ident, md. repeat case_match; simplify_eq; cbn; rewrite ?lookup_delete_ne by done; done.
Qed.
Ltac holding :=
  run_steps @fetch_keeps_bind
    ltac:(solve [eauto using check_holds, io_reads_holds, set_times_holds, remove_holds with fetch_keeps]).

Lemma touch_holds data cache p : keeps (holds path data) (touch cache p).
Proof using Hothers Hpath. unfold touch, open_write. holding. Qed.
Lemma scan_holds data cache dirs acc : keeps (holds path data) (scan_directories cache dirs acc).
Proof using Hothers Hpath.
  assert (forall paths acc, keeps (holds path data) (scan_entries cache paths acc)).
  { intros paths. induction paths as [|p paths IH]; intros acc'; cbn [scan_entries]; unfold symlink_metadata; holding. }
  revert acc. induction dirs as [|dir dirs IH]; intros acc; cbn [scan_directories]; unfold read_dir; holding.
Qed.
Lemma evict_loop_holds data cache protected listed total :
  path ∈ protected -> keeps (holds path data) (evict_loop cache protected listed total).
Proof using Hothers Hpath.
  intros Hin. revert total. induction listed as [|file listed IH]; intros total; cbn [evict_loop]; [holding|].
  apply fetch_keeps_bind; [holding|intros _]. destruct (_ <=? _); [holding|].
  destruct (bool_decide_reflect (cf_path file ∈ protected)) as [|Hout]; [holding|].
  assert (cf_path file <> path) by (by intros <-). unfold open_write, try_lock. holding.
Qed.
Lemma evict_holds data cache protected : path ∈ protected -> keeps (holds path data) (evict_to_budget cache protected).
Proof using Hothers Hpath.
  intros Hin. unfold evict_to_budget. pose proof (scan_holds data). 
  pose proof (fun listed total => evict_loop_holds data cache protected listed total Hin). holding.
Qed.
Lemma evict_for_result_holds data cache paths art_size pair_size :
  keeps (holds path data) (evict_for_result cache path paths art_size pair_size).
Proof using Hothers Hpath.
  unfold evict_for_result, is_file, metadata. apply fetch_keeps_bind; [holding|intros _].
  apply fetch_keeps_bind; [holding|intros keep_pair]. apply fetch_keeps_bind; [holding|intros _].
  destruct keep_pair; apply evict_holds; set_solver.
Qed.

Lemma finish_fetch_sound cache paths mb sb origin msource hit verified art lease (w : world) r w' :
  holds path lease w -> finish_fetch cache paths mb sb origin msource hit verified art path lease w = (Ok r, w') ->
  verified_manifest r = verified /\ artifact r = art /\ artifact_lease r = lease /\ local_path r = path /\
  fa_sha256 r = sha256 art /\ manifest_source r = msource /\ holds path lease w' /\
  now_at (pred (looks w')) < started (deadline cache) + total (deadline cache).
Proof using Hothers Hpath.
  intros Hw Hrun. unfold finish_fetch, touch_manifest_pair in Hrun.
  apply F_bind_Ok in Hrun as (? & w1 & H1 & Hrun). pose proof (keeps_Ok _ _ _ _ _ (touch_holds lease _ _) H1 Hw) as K1.
  apply F_bind_Ok in Hrun as (? & w2 & H2 & Hrun). apply F_bind_Ok in H2 as (? & w3 & H3 & H2).
  pose proof (keeps_Ok _ _ _ _ _ (touch_holds lease _ _) H3 K1) as K3.
  pose proof (keeps_Ok _ _ _ _ _ (touch_holds lease _ _) H2 K3) as K2.
  apply F_bind_Ok in Hrun as (? & w4 & H4 & Hrun).
  pose proof (keeps_Ok _ _ _ _ _ (evict_for_result_holds lease _ _ _ _) H4 K2) as K4.
  apply F_bind_Ok in Hrun as ([] & w5 & H5 & [<- <-]%F_ret_Ok). cbn.
  pose proof (keeps_Ok _ _ _ _ _ (check_holds lease _ _) H5 K4).
  apply fetch_check_Ok in H5 as (-> & _ & _ & Hnow). done.
Qed.
End Path.
End Verified.

Section Results.
Context `{Hreg : RegistryDeps} `{Hurl : UrlLib} `{Hjoin : !FetchUrls} `{Hmach : !Machine}.
Context (fuel : nat).

Lemma hex_no_slash n digest : lower_hex n digest -> "/"%byte ∉ digest.
Proof. intros [_ HF] Hin. rewrite Forall_forall in HF. by specialize (HF _ Hin). Qed.
Lemma cache_dir_parent root (dir name : bytes) :
  dir = B"manifests" \/ dir = B"artifacts" -> "/"%byte ∉ name ->
  path_parent (path_join (path_join root dir) name) = Some (path_join root dir).
Proof.
  intros Hdir Hname. assert (exists pre, path_join root dir = pre ++ dir) as [pre E].
  { unfold path_join. replace (is_absolute dir) with false by (by destruct Hdir as [-> | ->]).
    case_match; [by exists root | exists (root ++ ["/"%byte]); by rewrite <- app_assoc]. }
  assert (is_absolute name = false) as Hrel.
  { destruct (is_absolute name) eqn:E2; [|done]. unfold is_absolute in E2. apply starts_with_spec in E2 as [t ->].
    by destruct Hname; left. }
  assert (bytes_eqb (path_join root dir) [] || ends_with (B"/") (path_join root dir) = false) as Hsep.
  { rewrite E. apply orb_false_iff. split.
    - apply bytes_eqb_false. by destruct pre, Hdir as [-> | ->].
    - unfold ends_with. rewrite reverse_app. by destruct Hdir as [-> | ->]. }
  unfold path_join at 1. rewrite Hrel, Hsep. unfold path_parent. by rewrite rsplit_once_last.
Qed.

(** The artifact for the target, as the manifest lists it. *)
Lemma verified_artifact_admitted mb sb keys threshold v protocol vm art :
  verify_manifest mb sb keys threshold v protocol = Ok vm -> In art (artifacts (manifest vm)) ->
  lower_hex 64 (sha256 art) /\ size_ art <= ARTIFACT_MAX_BYTES.
Proof.
  intros Hp Hin. unfold verify_manifest in Hp. cbv zeta in Hp.
  apply bind_Ok in Hp as ([] & _ & Hp). apply bind_Ok in Hp as ([] & _ & Hp). apply bind_Ok in Hp as (doc & _ & Hp).
  apply bind_Ok in Hp as ([] & _ & Hp). apply bind_Ok in Hp as (m & Hm%map_err_Ok & [= <-]). cbn in Hin.
  apply parse_manifest_Ok in Hm as (raw & Hm). apply admitted_artifacts in Hm.
  apply list_elem_of_In, list_elem_of_lookup in Hin as [i Hi].
  destruct (Forall2_lookup_r _ _ _ _ _ Hm Hi) as (x & _ & [_ _ [_ Hhex] [_ Hsize]]). split; [done|lia].
Qed.

(** What a fetch that succeeds returns. *)
Record fetched (config : FetchConfig) (r : FetchedArtifact) (w : world) : Prop := {
  fetched_verified : exists mb sb, verify_manifest mb sb (cfg_trusted_keys config) (cfg_signature_threshold config)
    (cfg_expected_version config) (cfg_expected_protocol_version config) = Ok (verified_manifest r);
  fetched_published : In (artifact r) (artifacts (manifest (verified_manifest r))) /\
    target (artifact r) = cfg_target config;
  fetched_digest : sha256_hex (artifact_lease r) = sha256 (artifact r) /\ fa_sha256 r = sha256 (artifact r);
  fetched_size : zlen (artifact_lease r) = size_ (artifact r) /\ size_ (artifact r) <= cfg_cache_max_bytes config;
  fetched_cached : holds (local_path r) (artifact_lease r) w }.

Lemma fetch_artifact_sound config cache paths mb sb msource verified art mode (w : world) r w' :
  undisturbed (cfg_cache_dir config) -> lower_hex 64 (sha256 art) -> size_ art <= ARTIFACT_MAX_BYTES ->
  artifacts_dir cache = path_join (cfg_cache_dir config) (B"artifacts") ->
  fetch_artifact fuel config cache paths mb sb msource verified art mode w = (Ok r, w') ->
  verified_manifest r = verified /\ artifact r = art /\ fa_sha256 r = sha256 art /\
  sha256_hex (artifact_lease r) = sha256 art /\ zlen (artifact_lease r) = size_ art /\
  holds (local_path r) (artifact_lease r) w' /\
  now_at (pred (looks w')) < started (deadline cache) + total (deadline cache).
Proof.
  intros Hothers Hhex Hsize Hdir Hrun. unfold fetch_artifact, artifact_path in Hrun.
  apply F_bind_Ok in Hrun as (? & w1 & _ & Hrun). apply F_bind_Ok in Hrun as (path & w2 & Hpath & Hrun).
  apply F_bind_Ok in Hpath as (? & ? & _ & [<- _]%F_ret_Ok). rewrite Hdir in Hrun.
  set (path := path_join _ _) in Hrun.
  assert (in_cache (cfg_cache_dir config) path) as Hin.
  { right; right; right. apply cache_dir_parent; [by right | by eapply hex_no_slash]. }
  assert (forall w2 w3 lease hit origin w',
    open_verified_cached_artifact fuel cache path art w2 = (Ok (Some lease), w3) ->
    finish_fetch cache paths mb sb origin msource hit verified art path lease w3 = (Ok r, w') ->
    verified_manifest r = verified /\ artifact r = art /\ fa_sha256 r = sha256 art /\
    sha256_hex (artifact_lease r) = sha256 art /\ zlen (artifact_lease r) = size_ art /\
    holds (local_path r) (artifact_lease r) w' /\ now_at (pred (looks w')) < started (deadline cache) + total (deadline cache))
    as Hdone.
  { intros w3 w4 lease hit origin w5 Hopen Hfin.
    eapply (open_verified_sound fuel) in Hopen as (Hholds & Hlen & Hdigest); [|done..].
    eapply finish_fetch_sound in Hfin as (-> & -> & -> & -> & -> & _ & ? & ?); [|done..]. done. }
  apply F_bind_Ok in Hrun as ([lease|] & w3 & Hopen & Hrun); [by eapply Hdone|].
  apply F_bind_Ok in Hrun as (origin & w4 & _ & Hrun).
  apply F_bind_Ok in Hrun as ([lease'|] & w5 & Hopen' & Hrun); [by eapply Hdone | done].
Qed.

(** C11 (verified artifacts).  Whatever the network, the local registry and the cache contain, and
    however calls fail, a fetch that succeeds returns the artifact that a manifest signed by the
    threshold of trusted keys publishes for the target, version and protocol asked for; the file in
    the cache has exactly its size and SHA-256; and the result is there before the time is over.
    Other processes are only assumed to leave the manifests and artifacts of the cache alone meanwhile, as
    those do that respect its lock. *)
Theorem fetched_artifact_is_verified config mode (w : world) r w' :
  undisturbed (cfg_cache_dir config) ->
  fetch_verified_artifact_inner fuel config mode w = (Ok r, w') ->
  fetched config r w' /\ now_at (pred (looks w')) < now_at (looks w) + cfg_timeout config.
Proof.
  intros Hothers Hrun. unfold fetch_verified_artifact_inner in Hrun.
  destruct (cfg_timeout config =? 0); [done|]. destruct (cfg_cache_max_bytes config =? 0); [done|].
  apply F_bind_Ok in Hrun as (d & w1 & [= <- <-] & Hrun). set (w1 := (_ : world)) in Hrun.
  do 3 (apply F_bind_Ok in Hrun as (? & ? & _ & Hrun)).
  apply F_bind_Ok in Hrun as (cache & w2 & ->%cache_open_Ok & Hrun).
  do 2 (apply F_bind_Ok in Hrun as (? & ? & _ & Hrun)).
  apply F_bind_Ok in Hrun as ([[mb sb] msource] & w3 & _ & Hrun). cbv zeta in Hrun.
  do 2 (apply F_bind_Ok in Hrun as (? & ? & _ & Hrun)).
  apply F_bind_Ok in Hrun as (vm & w4 & [Hvm%map_err_Ok _]%lift_Ok & Hrun).
  apply F_bind_Ok in Hrun as (? & ? & _ & Hrun).
  apply F_bind_Ok in Hrun as (art & w5 & [Hart%ok_or_Ok _]%lift_Ok & Hrun).
  apply F_bind_Ok in Hrun as (? & ? & _ & Hrun). apply find_some in Hart as [Hin Htarget].
  destruct (_ >? _) eqn:Ebudget in Hrun; [done|]. rewrite Z.gtb_ltb in Ebudget. apply Z.ltb_ge in Ebudget.
  destruct (verified_artifact_admitted _ _ _ _ _ _ _ _ Hvm Hin) as [Hhex Hsize].
  eapply fetch_artifact_sound in Hrun as (E1 & E2 & E3 & Hd & Hs & Hholds & Hnow); [|done..].
  split; [|exact Hnow]. apply bool_decide_eq_true in Htarget. split; rewrite ?E1, ?E2, ?E3; eauto.
Qed.

(** ** The cache instead of the network *)

Definition retrieval_cause (error : ManifestPairRetrievalError) : FetchError :=
  match error with RetrievalError_Manifest e | RetrievalError_Signature _ e => e end.
(** The network could not be reached in time, or the server asked to come back later. *)
Definition unreachable (e : FetchError) : Prop :=
  (exists kind url source, e = Network kind url source /\ (kind = Timeout \/ kind = Connection)) \/
  (exists url status, e = HttpStatus url status /\ (status = 429 \/ 500 <= status <= 599)).
Lemma eligible_unreachable e : is_cache_fallback_eligible e = true <-> unreachable e.
Proof.
  unfold unreachable. split.
  - destruct e as [| | | | | | | |kind url source|url status| | | | | | | | | |]; try done; cbn.
    + destruct kind; [left; eauto 8..|done].
    + intros Hs. right. exists url, status. split; [done|]. to_prop. lia.
  - intros [(kind & url & source & -> & [-> | ->])|(url & status & -> & Hs)]; [done..|]. cbn.
    destruct Hs as [-> |[Hlo Hhi]]; [done|]. apply orb_true_iff. right. apply andb_true_iff. by rewrite !Z.leb_le.
Qed.

(** Note (fallback).  A manifest pair comes from the cache only when the network could not be reached
    in time or answered 429 or 5xx, and when only the signature could not be retrieved, only if the
    cached manifest is the one just retrieved; any other failure of the retrieval, the end of the
    time included, is reported as it is and never hidden by the cache. *)
Theorem fallback_only_when_unreachable config signature cache paths mode (w : world) :
  url_scheme (cfg_manifest_url config) = B"https" ->
  (forall mb sb w', select_manifest_pair fuel config signature cache paths mode w = (Ok (mb, sb, VerifiedCacheFallback), w') ->
     exists error w1, retrieve_manifest_pair fuel (cfg_manifest_url config) signature (cfg_timeout config) (deadline cache) mode w =
       (Ok (Err error), w1) /\ unreachable (retrieval_cause error) /\
     (forall fresh e, error = RetrievalError_Signature fresh e -> mb = fresh)) /\
  (forall error w1, retrieve_manifest_pair fuel (cfg_manifest_url config) signature (cfg_timeout config) (deadline cache) mode w =
       (Ok (Err error), w1) -> ~ unreachable (retrieval_cause error) ->
     exists e w2, select_manifest_pair fuel config signature cache paths mode w = (Err (Failed e), w2) /\
       (e = retrieval_cause error \/ e = OperationDeadline (B"manifest cache fallback"))).
Proof.
  intros Hs. unfold select_manifest_pair. cbv zeta. rewrite Hs.
  replace (bytes_eqb (B"https") (B"file")) with false by done.
  replace (bytes_eqb (B"https") (B"https")) with true by done. split.
  - intros mb sb w' (r & w1 & Hr & Hrun)%F_bind_Ok.
    destruct r as [[mb' sb']|error]; [by apply F_ret_Ok in Hrun as [? _]|]. exists error, w1. split; [done|].
    unfold recover_cached_manifest_pair in Hrun. apply F_bind_Ok in Hrun as ([] & w2 & _ & Hrun).
    rewrite <- eligible_unreachable. destruct error as [e|fresh e]; cbn [retrieval_cause].
    + destruct (is_cache_fallback_eligible e); [|done]. split; [done|]. by intros.
    + destruct (is_cache_fallback_eligible e); [|done]. split; [done|]. intros ? ? [= <- <-]. cbn [negb] in Hrun.
      apply F_bind_Ok in Hrun as (r & w3 & _ & Hrun). destruct r as [[cm cs]|ce]; [|by destruct (bool_decide _)].
      destruct (negb _) eqn:E in Hrun; [done|]. by apply F_bind_Ok in Hrun as (? & ? & _ & [[= -> _] _]%F_ret_Ok).
  - intros error w1 Hr Hun. unfold mbind at 1, F_bind at 1. rewrite Hr.
    rewrite <- eligible_unreachable in Hun. apply not_true_is_false in Hun.
    unfold recover_cached_manifest_pair, mbind at 1, F_bind at 1.
    pose proof (quiet_check (deadline cache) (B"manifest cache fallback") w1) as Hq.
    destruct (check _ _ w1) as [[[]|[e|]] w2] eqn:Ec; [| |cbn in Hq; congruence].
    + exists (retrieval_cause error), w2. destruct error; cbn in *; rewrite Hun; cbn; auto.
    + exists e, w2. split; [done|]. right. by apply check_Err in Ec as [= ->].
Qed.
End Results.
