(* ===== verification/FetchEviction.v ===== *)
(** * Eviction from the cache of a registry fetch

    The order of eviction, what a scan of the cache finds, and the budget, protection and age of what
    is left. *)
From stdpp Require Import sorting.
From S2P Require Import Prelude Paths Registry UrlPolicy FetchHost FetchHttp FetchCache FetchProps FetchVerified.

(** ** Orders given by a comparison *)

Record good_compare {A} (compare : A -> A -> comparison) : Prop := {
  compare_eq x y : compare x y = Eq <-> x = y;
  compare_opp x y : compare y x = CompOpp (compare x y);
  compare_lt x y z : compare x y = Lt -> compare y z = Lt -> compare x z = Lt }.

Lemma Z_compare_good : good_compare Z.compare.
Proof.
  split; [exact Z.compare_eq_iff|exact Z.compare_antisym|].
  intros x y z. rewrite !Z.compare_lt_iff. lia.
Qed.
Lemma u8_compare_good : good_compare (fun x y => u8 x ?= u8 y).
Proof.
  destruct Z_compare_good as [Heq Hopp Hlt]. split; [|intros; apply Hopp|intros x y z; apply Hlt].
  intros x y. rewrite Heq. split; [apply u8_inj|congruence].
Qed.
Lemma lex_compare_good {A} (compare : A -> A -> comparison) : good_compare compare -> good_compare (lex_compare compare).
Proof.
  intros [Heq Hopp Hlt]. split.
  - intros x. induction x as [|a x IH]; intros [|b y]; cbn; try done.
    destruct (compare a b) eqn:E; [apply Heq in E as ->; rewrite IH; naive_solver| |].
    all: split; [done|]; intros [= -> ->]; by rewrite (proj2 (Heq b b) eq_refl) in E.
  - intros x. induction x as [|a x IH]; intros [|b y]; cbn; try done.
    rewrite (Hopp a b). destruct (compare a b); cbn; [apply IH|done..].
  - intros x. induction x as [|a x IH]; intros [|b y] [|c z]; cbn; try done.
    destruct (compare a b) eqn:E1; [apply Heq in E1 as ->|..]; [|destruct (compare b c) eqn:E2|done].
    + destruct (compare b c); [apply IH|done..].
    + apply Heq in E2 as ->. by rewrite E1.
    + by rewrite (Hlt a b c).
    + done.
Qed.

Lemma eviction_total : Total eviction_order.
Proof.
  pose proof (lex_compare_good _ (lex_compare_good _ u8_compare_good)) as [_ Hopp _].
  intros l r. unfold eviction_order, evicts_before, segments_compare, bytes_compare.
  rewrite (Z.compare_antisym (cf_modified l) (cf_modified r)).
  rewrite (Hopp (path_segments (cf_path l)) (path_segments (cf_path r))).
  destruct (cf_modified l ?= cf_modified r); cbn; [|by left|by right].
  destruct (lex_compare _ _ _); cbn; auto.
Qed.
Lemma eviction_trans : Transitive eviction_order.
Proof.
  pose proof (lex_compare_good _ (lex_compare_good _ u8_compare_good)) as [Heq _ Hlt].
  fold bytes_compare in Heq, Hlt. fold segments_compare in Heq, Hlt.
  intros x y z. unfold eviction_order, evicts_before.
  destruct (Z.compare_spec (cf_modified x) (cf_modified y)) as [Exy|Exy|Exy];
  destruct (Z.compare_spec (cf_modified y) (cf_modified z)) as [Eyz|Eyz|Eyz]; try done.
  all: destruct (Z.compare_spec (cf_modified x) (cf_modified z)) as [Exz|Exz|Exz]; try lia; try done.
  destruct (segments_compare (path_segments (cf_path x)) (path_segments (cf_path y))) eqn:E1; [|clear Heq|done].
  - apply Heq in E1 as ->. done.
  - destruct (segments_compare (path_segments (cf_path y)) (path_segments (cf_path z))) eqn:E2; [|by rewrite (Hlt _ _ _ E1 E2)|done].
    pose proof (lex_compare_good _ (lex_compare_good _ u8_compare_good)) as [Heq _ _].
    fold bytes_compare in Heq. fold segments_compare in Heq. apply Heq in E2 as <-. by rewrite E1.
Qed.

(** ** What the cache holds *)

Definition zsum (l : list Z) : Z := foldr Z.add 0 l.
Lemma zsum_app l1 l2 : zsum (l1 ++ l2) = zsum l1 + zsum l2.
Proof. induction l1 as [|x l1 IH]; cbn; [done|]. unfold zsum in *. lia. Qed.
Lemma zsum_perm l1 l2 : l1 ≡ₚ l2 -> zsum l1 = zsum l2.
Proof. induction 1; cbn in *; unfold zsum in *; lia. Qed.

Definition node_size (n : node) : Z := match n with NFile _ data _ => zlen data | _ => 0 end.
(** The entry of a scan for a path. *)
Definition listed_as (p : bytes) (n : node) : option cache_file :=
  match n with
  | NFile _ data modified => Some {| cf_modified := default UNIX_EPOCH modified; cf_path := p; cf_size := zlen data |}
  | _ => None
  end.

Section Contents.
Context (root : bytes).
Definition cache_entry (p : bytes) : Prop :=
  path_parent p = Some (path_join root (B"manifests")) \/ path_parent p = Some (path_join root (B"artifacts")).
#[export] Instance cache_entry_dec p : Decision (cache_entry p).
Proof. unfold cache_entry. apply _. Defined.
(** The entries of the cache, and their bytes. *)
Definition contents (fs : files) : files := filter (fun kv : bytes * node => cache_entry kv.1) fs.
Definition bytes_of (c : files) : Z := zsum ((fun kv : bytes * node => node_size kv.2) <$> map_to_list c).
Definition cache_bytes (fs : files) : Z := bytes_of (contents fs).
Definition listing (c : files) : list cache_file := omap (fun kv : bytes * node => listed_as kv.1 kv.2) (map_to_list c).

Lemma contents_lookup (fs : files) p : cache_entry p -> contents fs !! p = fs !! p.
Proof.
  intros Hp. unfold contents. rewrite map_lookup_filter. destruct (fs !! p) eqn:E; cbn; [|done].
  by rewrite option_guard_True.
Qed.
Lemma contents_Some (fs : files) p n : contents fs !! p = Some n <-> fs !! p = Some n /\ cache_entry p.
Proof. unfold contents. by rewrite map_lookup_filter_Some. Qed.
Lemma contents_delete (fs : files) p : contents (delete p fs) = delete p (contents fs).
Proof. apply map_filter_delete. Qed.

Lemma listing_sum (c : files) : zsum (cf_size <$> listing c) = bytes_of c.
Proof.
  unfold bytes_of, listing. induction (map_to_list c) as [|[p n] l IH]; [done|].
  destruct n; [exact (f_equal (Z.add (zlen data)) IH)|exact IH..].
Qed.
Lemma listing_In (c : files) f : f ∈ listing c <-> exists n, c !! cf_path f = Some n /\ listed_as (cf_path f) n = Some f.
Proof.
  unfold listing. rewrite list_elem_of_omap. split.
  - intros ([p n] & Hin%elem_of_map_to_list & Hl). cbn in *.
    assert (cf_path f = p) as -> by (destruct n; cbn in Hl; by simplify_eq). eauto.
  - intros (n & Hc & Hl). exists (cf_path f, n). split; [by apply elem_of_map_to_list|done].
Qed.
Lemma listing_NoDup (c : files) : NoDup (cf_path <$> listing c).
Proof.
  unfold listing. pose proof (NoDup_fst_map_to_list c) as Hnd. revert Hnd.
  induction (map_to_list c) as [|[p n] l IH]; cbn; intros Hnd; [constructor|].
  apply NoDup_cons in Hnd as [Hp Hnd]. destruct n; cbn; [|by apply IH..]. apply NoDup_cons. split; [|by apply IH].
  intros (f & Ef & Hf)%list_elem_of_fmap. apply Hp. apply list_elem_of_omap in Hf as ([p' n'] & Hin & Hl).
  apply list_elem_of_fmap. exists (p', n'). split; [|done]. destruct n'; cbn in Hl; by simplify_eq.
Qed.
Lemma bytes_of_delete (c : files) p n : c !! p = Some n -> bytes_of (delete p c) = bytes_of c - node_size n.
Proof.
  intros Hc. unfold bytes_of.
  rewrite <- (zsum_perm _ _ (fmap_Permutation _ _ _ (map_to_list_delete _ _ _ Hc))). cbn. unfold zsum. lia.
Qed.
Lemma bytes_of_nonneg (c : files) : 0 <= bytes_of c.
Proof.
  unfold bytes_of. induction (map_to_list c) as [|[p n] l IH]; [done|]. cbn [fmap list_fmap zsum foldr fst snd].
  assert (0 <= node_size n) by (destruct n; cbn; auto using zlen_nonneg; lia). unfold zsum in IH. cbn in *. lia.
Qed.

(** Listing the two directories lists the contents. *)
Definition listed_at (c : files) (p : bytes) : option cache_file := c !! p ≫= listed_as p.
Lemma listed_at_path (c : files) p f : listed_at c p = Some f -> cf_path f = p.
Proof. unfold listed_at. destruct (c !! p) as [[]|]; cbn; intros [= <-]; done. Qed.
Lemma listed_sum_nonneg (c : files) (l : list bytes) : 0 <= zsum (cf_size <$> omap (listed_at c) l).
Proof.
  induction l as [|p l IH]; [done|]. cbn. unfold listed_at at 1. destruct (c !! p) as [[]|]; cbn; try exact IH. cbn in IH.
  pose proof (zlen_nonneg data). unfold zsum in *. cbn in *. lia.
Qed.
Lemma listed_at_NoDup (c : files) (l : list bytes) : NoDup l -> NoDup (omap (listed_at c) l).
Proof.
  induction 1 as [|p l Hp Hnd IH]; cbn; [constructor|]. destruct (listed_at c p) as [f|] eqn:E; [|done].
  constructor; [|done]. intros (q & Hq & Eq)%list_elem_of_omap.
  apply listed_at_path in E as <-. apply listed_at_path in Eq as <-. done.
Qed.
Lemma entries_of_In (fs : files) dir p : p ∈ entries_of dir fs <-> path_parent p = Some dir /\ is_Some (fs !! p).
Proof.
  unfold entries_of. rewrite list_elem_of_In, filter_In, <- list_elem_of_In, bool_decide_eq_true, list_elem_of_fmap. split.
  - intros [([q n] & -> & Hin%elem_of_map_to_list) Hp]. eauto.
  - intros [Hp [n Hn]]. split; [|done]. exists (p, n). by rewrite elem_of_map_to_list.
Qed.
Lemma entries_of_NoDup (fs : files) dir : NoDup (entries_of dir fs).
Proof. apply NoDup_ListNoDup, List.NoDup_filter, NoDup_ListNoDup, NoDup_fst_map_to_list. Qed.
Lemma directories_distinct : path_join root (B"manifests") <> path_join root (B"artifacts").
Proof.
  unfold path_join. change (is_absolute (B"manifests")) with false. change (is_absolute (B"artifacts")) with false.
  destruct (bytes_eqb root [] || _); intros E; apply app_inv_head in E; done.
Qed.
Lemma directories_listed (fs1 fs2 c : files) :
  contents fs1 = c -> contents fs2 = c ->
  omap (listed_at c) (entries_of (path_join root (B"manifests")) fs1 ++ entries_of (path_join root (B"artifacts")) fs2) ≡ₚ
  listing c.
Proof.
  intros E1 E2. pose proof directories_distinct as Hne. apply NoDup_Permutation.
  - apply listed_at_NoDup, NoDup_app. split_and!; [apply entries_of_NoDup| |apply entries_of_NoDup].
    intros p [H1 _]%entries_of_In [H2 _]%entries_of_In. congruence.
  - apply (NoDup_fmap_1 cf_path), listing_NoDup.
  - intros f. rewrite list_elem_of_omap, listing_In. setoid_rewrite elem_of_app. setoid_rewrite entries_of_In. split.
    + intros (p & _ & Hf). pose proof (listed_at_path _ _ _ Hf) as <-. unfold listed_at in Hf.
      apply bind_Some in Hf as (n & Hn & Hf). eauto.
    + intros (n & Hc & Hf). exists (cf_path f). split; [|unfold listed_at; by rewrite Hc].
      assert (cache_entry (cf_path f)) as Hentry by (rewrite <- E1 in Hc; by apply contents_Some in Hc as [_ ?]).
      destruct Hentry as [Hp|Hp]; [left|right]; split; try done; eexists.
      * rewrite <- E1 in Hc. by apply contents_Some in Hc as [? _].
      * rewrite <- E2 in Hc. by apply contents_Some in Hc as [? _].
Qed.
End Contents.

(** ** Scanning and evicting *)

Section Evict.
Context `{Hreg : RegistryDeps} `{Hurl : UrlLib} `{Hjoin : !FetchUrls} `{Hmach : !Machine}.
Context (root : bytes) (Hothers : undisturbed root) (cache : CacheGuard).
Context (Hm : manifests cache = path_join root (B"manifests")) (Ha : artifacts_dir cache = path_join root (B"artifacts")).

Definition holding_contents (c : files) (w : world) : Prop := contents root (w_files w) = c.

Lemma others_contents (i : nat) (fs : files) : contents root (o_others (outcome_of i) fs) = contents root fs.
Proof using Hothers.
  apply map_eq. intros p. destruct (decide (cache_entry root p)) as [Hp|Hp].
  - rewrite !contents_lookup by done. apply Hothers. destruct Hp; unfold in_cache; auto.
  - unfold contents. by rewrite !(proj2 (map_lookup_filter_None _ _ _)) by (by right).
Qed.
Lemma reads_contents {A : Type} (c : files) (g : outcome -> files -> result ErrorKind A) :
  keeps (holding_contents c) (io (fun o fs => (g o fs, fs))).
Proof using Hothers.
  intros w Hw. unfold io, holding_contents in *. repeat case_match; simplify_eq; cbn; by rewrite others_contents.
Qed.
Lemma check_contents (c : files) d phase : keeps (holding_contents c) (check d phase).
Proof.
  unfold check, remaining_duration.
  run_steps @fetch_keeps_bind ltac:(solve [eauto with fetch_keeps | by intros w]).
Qed.
(** A check or a call that reads, then the rest of the run. *)
Lemma check_next {B : Type} (c : files) d phase (k : unit -> F B) (w : world) b w' :
  (check d phase ≫= k) w = (Ok b, w') -> holding_contents c w -> exists w1, holding_contents c w1 /\ k () w1 = (Ok b, w').
Proof. intros ([] & w1 & Hc & Hrun)%F_bind_Ok Hw. exists w1. split; [|done]. exact (keeps_Ok _ _ _ _ _ (check_contents c _ _) Hc Hw). Qed.
Lemma reads_next {A B : Type} (c : files) (g : outcome -> files -> result ErrorKind A) (k : result ErrorKind A -> F B) (w : world) b w' :
  (io (fun o fs => (g o fs, fs)) ≫= k) w = (Ok b, w') -> holding_contents c w ->
  exists r w1, holding_contents c w1 /\ k r w1 = (Ok b, w') /\
    ((exists kind, r = Err kind /\ kind <> NotFound) \/ r = g (outcome_of (calls w)) (w_files w1)).
Proof using Hothers.
  intros (r & w1 & Hr & Hrun)%F_bind_Ok Hw. exists r, w1.
  pose proof (keeps_Ok _ _ _ _ _ (reads_contents c g) Hr Hw) as Hw1. split_and!; [done..|].
  unfold io in Hr. pose proof (fail_not_found (calls w)) as Hf.
  destruct (o_fail _) as [kind|]; injection Hr as <- <-; [left; eexists; split; [done|congruence] | by right].
Qed.

Lemma scan_entries_value (c : files) paths acc (w : world) acc' w' :
  scan_entries cache paths acc w = (Ok acc', w') -> holding_contents c w -> Forall (cache_entry root) paths ->
  0 <= acc.2 <= u64_max ->
  holding_contents c w' /\ acc'.1 = acc.1 ++ omap (listed_at c) paths /\
  acc'.2 = Z.min (acc.2 + zsum (cf_size <$> omap (listed_at c) paths)) u64_max.
Proof using Hothers.
  revert acc w. induction paths as [|p paths IH]; intros acc w Hrun Hw Hpaths Hacc; cbn [scan_entries] in Hrun.
  { apply F_ret_Ok in Hrun as [<- <-]. cbn. rewrite app_nil_r. split_and!; [done..|lia]. }
  apply Forall_cons in Hpaths as [Hp Hpaths]. unfold symlink_metadata in Hrun.
  eapply check_next in Hrun as (w1 & Hw1 & Hrun); [|exact Hw].
  eapply reads_next in Hrun as (meta & w2 & Hw2 & Hrun & Hmeta); [|exact Hw1].
  eapply check_next in Hrun as (w3 & Hw3 & Hrun); [|exact Hw2].
  apply F_bind_Ok in Hrun as (n & w4 & [-> <-]%io_or_Ok & Hrun).
  destruct Hmeta as [(? & ? & _)|Hmeta]; [done|]. symmetry in Hmeta. apply ok_or_Ok in Hmeta.
  assert (c !! p = Some n) as Hc by (rewrite <- Hw2; by rewrite contents_lookup).
  assert (listed_at c p = listed_as p n) as El by (unfold listed_at; by rewrite Hc). cbn [omap list_omap]. rewrite El.
  destruct n as [ident data md| |]; cbn [listed_as] in *; [|by eapply IH..].
  eapply IH in Hrun as (Hw' & E1 & E2); [|done..|].
  - split; [done|]. cbn in E1, E2. rewrite E1, E2, <- app_assoc. split; [done|].
    cbn. fold (zsum (cf_size <$> omap (listed_at c) paths)). unfold saturating_add.
    pose proof (zlen_nonneg data). pose proof (listed_sum_nonneg c paths).
    unfold zsum in *. cbn in *. lia.
  - cbn. unfold saturating_add. pose proof (zlen_nonneg data). lia.
Qed.

Lemma read_dir_value (c : files) dir (w : world) {B : Type} (k : list bytes -> F B) op phase b w' :
  (read_dir dir ≫= fun entries => check (deadline cache) phase ≫= fun _ => io_or op dir entries ≫= k) w = (Ok b, w') ->
  holding_contents c w ->
  exists (fs : files) w1, holding_contents c w1 /\ contents root fs = c /\ k (entries_of dir fs) w1 = (Ok b, w').
Proof using Hothers.
  intros Hrun Hw. unfold read_dir in Hrun.
  eapply reads_next in Hrun as (r & w1 & Hw1 & Hrun & Hr); [|exact Hw].
  eapply check_next in Hrun as (w2 & Hw2 & Hrun); [|exact Hw1].
  apply F_bind_Ok in Hrun as (l & w3 & [-> <-]%io_or_Ok & Hrun). destruct Hr as [(? & ? & _)|Hr]; [done|].
  destruct (is_dir _ _); [injection Hr as ->|done]. eauto.
Qed.
Lemma entries_are_cached (fs : files) dir : dir = path_join root (B"manifests") \/ dir = path_join root (B"artifacts") ->
  Forall (cache_entry root) (entries_of dir fs).
Proof.
  intros Hdir. apply Forall_forall. intros p [Hp _]%entries_of_In. unfold cache_entry. destruct Hdir; subst; auto.
Qed.
Lemma scan_value (c : files) (w : world) listed total w' :
  scan_directories cache [manifests cache; artifacts_dir cache] ([], 0) w = (Ok (listed, total), w') ->
  holding_contents c w -> holding_contents c w' /\ listed ≡ₚ listing c /\ total = Z.min (bytes_of c) u64_max.
Proof using Hothers Hm Ha.
  intros Hrun Hw. rewrite Hm, Ha in Hrun. cbn [scan_directories] in Hrun.
  eapply check_next in Hrun as (w1 & Hw1 & Hrun); [|exact Hw].
  eapply read_dir_value in Hrun as (fs1 & w2 & Hw2 & Hfs1 & Hrun); [|exact Hw1].
  apply F_bind_Ok in Hrun as ([l1 t1] & w3 & Hscan & Hrun).
  eapply scan_entries_value in Hscan as (Hw3 & El1 & Et1); [|done|by apply entries_are_cached; left|done].
  eapply check_next in Hrun as (w4 & Hw4 & Hrun); [|exact Hw3].
  eapply read_dir_value in Hrun as (fs2 & w5 & Hw5 & Hfs2 & Hrun); [|exact Hw4].
  apply F_bind_Ok in Hrun as ([l2 t2] & w6 & Hscan2 & [[= <- <-] <-]%F_ret_Ok). cbn [fst snd app] in *.
  set (e1 := omap (listed_at c) (entries_of _ fs1)) in *.
  pose proof (directories_listed root fs1 fs2 c Hfs1 Hfs2) as Hperm. rewrite omap_app in Hperm. fold e1 in Hperm.
  pose proof (listed_sum_nonneg c (entries_of (path_join root (B"manifests")) fs1)) as Hpos. fold e1 in Hpos.
  pose proof (listed_sum_nonneg c (entries_of (path_join root (B"artifacts")) fs2)) as Hpos2.
  assert (0 <= u64_max) by done.
  eapply scan_entries_value in Hscan2 as (Hw6 & El2 & Et2); [|done|by apply entries_are_cached; right|cbn; lia].
  cbn [fst snd] in *. subst l1 t1. split; [done|]. rewrite El2. split; [done|].
  rewrite Et2, <- listing_sum, <- (zsum_perm _ _ (fmap_Permutation _ _ _ Hperm)), fmap_app, zsum_app. lia.
Qed.

(** The contents without some files. *)
Definition without (gone : list cache_file) (c : files) : files := foldr (fun f c => delete (cf_path f) c) c gone.
Lemma without_delete (gone : list cache_file) (p : bytes) (c : files) : without gone (delete p c) = delete p (without gone c).
Proof.
  induction gone as [|f gone IH]; [done|].
  change (delete (cf_path f) (without gone (delete p c)) = delete p (delete (cf_path f) (without gone c))).
  by rewrite IH, delete_delete.
Qed.
Lemma without_lookup (gone : list cache_file) (c : files) (p : bytes) :
  without gone c !! p = if decide (p ∈ cf_path <$> gone) then None else c !! p.
Proof.
  induction gone as [|f gone IH]; [done|]. cbn [without foldr fmap list_fmap]. 
  destruct (decide (cf_path f = p)) as [<-|Hne].
  - rewrite lookup_delete_eq. by rewrite decide_True by left.
  - rewrite lookup_delete_ne by done. fold (without gone c). rewrite IH.
    apply decide_ext. rewrite elem_of_cons. split; [by right|]. intros [->|]; done.
Qed.

Definition nothing_leased : Prop := forall i, o_blocked (outcome_of i) = false.
Record evicted (protected : list bytes) (c : files) (listed : list cache_file) (total : Z) (gone seen rest : list cache_file)
    (c' : files) (t : Z) : Prop := {
  ev_split : listed = seen ++ rest;
  ev_gone f : f ∈ gone -> f ∈ seen /\ cf_path f ∉ protected;
  ev_contents : c' = without gone c;
  ev_total : t = bytes_of c';
  ev_seen f : nothing_leased -> f ∈ seen -> f ∈ gone \/ cf_path f ∈ protected }.

(** The entry at the head of the list is a file of the cache. *)
Lemma listed_file (f : cache_file) (listed : list cache_file) (c : files) :
  (forall g, g ∈ f :: listed -> g ∈ listing c) -> exists ident data md, c !! cf_path f = Some (NFile ident data md) /\ cf_size f = zlen data.
Proof.
  intros Hin. destruct (proj1 (listing_In c f) (Hin f (list_elem_of_here _ _))) as (n & Hc & Hl).
  destruct n; [|done..]. injection Hl as <-. cbn in *. eauto.
Qed.
(** The calls on a file of the cache: it opens, unless the call fails, and is removed. *)
Lemma open_cached {B : Type} (c : files) p ident data md (k : result ErrorKind bytes -> F B) (w : world) b w' :
  (open_write p ≫= k) w = (Ok b, w') -> holding_contents c w -> c !! p = Some (NFile ident data md) ->
  exists r w1, holding_contents c w1 /\ k r w1 = (Ok b, w') /\ r <> Err NotFound.
Proof using Hothers.
  intros Hrun Hw Hc. unfold open_write in Hrun.
  eapply reads_next in Hrun as (r & w1 & Hw1 & Hrun & Hr); [|exact Hw]. exists r, w1. split_and!; [done..|].
  destruct Hr as [(kind & -> & Hk)| ->]; [congruence|].
  rewrite <- Hw1 in Hc. apply contents_Some in Hc as [Hc _]. rewrite (canonical_self _ _ _ Hc) by done. by rewrite Hc.
Qed.
Lemma remove_cached {B : Type} (c : files) p ident data md (k : result ErrorKind unit -> F B) (w : world) b w' :
  (remove_file p ≫= k) w = (Ok b, w') -> holding_contents c w -> c !! p = Some (NFile ident data md) ->
  exists r w1, k r w1 = (Ok b, w') /\ ((r = Ok () /\ holding_contents (delete p c) w1) \/ exists kind, r = Err kind /\ kind <> NotFound).
Proof using Hothers.
  intros (r & w1 & Hr & Hrun)%F_bind_Ok Hw Hc. exists r, w1. split; [done|].
  rewrite <- Hw, <- (others_contents (calls w)) in Hc. apply contents_Some in Hc as [Hc _].
  unfold remove_file, io in Hr. rewrite Hc in Hr. pose proof (fail_not_found (calls w)) as Hf.
  destruct (o_fail _) as [kind|]; injection Hr as <- <-; [right; eexists; split; [done|congruence]|].
  left. split; [done|]. unfold holding_contents in *. cbn. by rewrite contents_delete, others_contents, Hw.
Qed.

(** One more entry was looked at, and removed or not. *)
Lemma evicted_skip (protected : list bytes) (c : files) listed total f gone seen rest c' t :
  evicted protected c listed total gone seen rest c' t -> (nothing_leased -> cf_path f ∈ protected) ->
  evicted protected c (f :: listed) total gone (f :: seen) rest c' t.
Proof.
  intros [-> Hgone -> -> Hseen] Hf. split; try done.
  - intros g [? ?]%Hgone. split; [by right|done].
  - intros g Hno [->|Hg]%elem_of_cons; [right; by apply Hf | by apply Hseen].
Qed.
Lemma evicted_remove (protected : list bytes) (c : files) listed total total' f gone seen rest c' t :
  evicted protected (delete (cf_path f) c) listed total' gone seen rest c' t -> cf_path f ∉ protected ->
  evicted protected c (f :: listed) total (f :: gone) (f :: seen) rest c' t.
Proof.
  intros [-> Hgone -> -> Hseen] Hf. split; try done.
  - intros g [->|[? ?]%Hgone]%elem_of_cons; [split; [by left|done] | split; [by right|done]].
  - apply without_delete.
  - intros g Hno [->|Hg]%elem_of_cons; [left; by left|]. destruct (Hseen g Hno Hg); [left; by right | by right].
Qed.

Lemma evict_loop_value (protected : list bytes) (listed : list cache_file) (c : files) total (w : world) t w' :
  evict_loop cache protected listed total w = (Ok t, w') -> holding_contents c w ->
  NoDup (cf_path <$> listed) -> (forall f, f ∈ listed -> f ∈ listing c) -> total = bytes_of c ->
  exists gone seen rest, evicted protected c listed total gone seen rest (contents root (w_files w')) t /\
    (rest <> [] -> t <= max_bytes cache).
Proof using Hothers.
  revert c total w. induction listed as [|f listed IH]; intros c total w Hrun Hw Hnd Hin Htot; cbn [evict_loop] in Hrun.
  { apply F_ret_Ok in Hrun as [<- <-]. exists [], [], []. split; [|done].
    split; try done; [by intros ? ?%elem_of_nil | by rewrite Hw | by intros ? _ ?%elem_of_nil]. }
  eapply check_next in Hrun as (w1 & Hw1 & Hrun); [|exact Hw].
  destruct (Z.leb_spec total (max_bytes cache)).
  { apply F_ret_Ok in Hrun as [<- <-]. exists [], [], (f :: listed). split; [|done].
    split; try done; [by intros ? ?%elem_of_nil | by rewrite Hw1 | by intros ? _ ?%elem_of_nil]. }
  destruct (listed_file _ _ _ Hin) as (ident & data & md & Hc & Hsize).
  apply NoDup_cons in Hnd as [Hf Hnd]. assert (forall g, g ∈ listed -> g ∈ listing c) as Hin' by (intros; apply Hin; by right).
  assert (forall w1, evict_loop cache protected listed total w1 = (Ok t, w') -> holding_contents c w1 ->
    (nothing_leased -> cf_path f ∈ protected) ->
    exists gone seen rest, evicted protected c (f :: listed) total gone seen rest (contents root (w_files w')) t /\
      (rest <> [] -> t <= max_bytes cache)) as Hskip.
  { intros w2 Hrun2 Hw2 Hf2. destruct (IH c total w2 Hrun2 Hw2 Hnd Hin' Htot) as (gone & seen & rest & Hev & Hrest).
    exists gone, (f :: seen), rest. split; [by apply evicted_skip | done]. }
  destruct (bool_decide_reflect (cf_path f ∈ protected)) as [Hprot|Hprot]; [by eapply Hskip|].
  eapply open_cached in Hrun as (r & w2 & Hw2 & Hrun & Hr); [|done..].
  eapply check_next in Hrun as (w3 & Hw3 & Hrun); [|exact Hw2].
  destruct r as [handle|kind]; [|by destruct kind].
  eapply check_next in Hrun as (w4 & Hw4 & Hrun); [|exact Hw3].
  apply F_bind_Ok in Hrun as (lock & w5 & Hlock & Hrun). apply F_bind_Ok in Hlock as (lr & w6 & Hio & [Elock <-]%F_ret_Ok).
  pose proof (keeps_Ok _ _ _ _ _ (reads_contents c _) Hio Hw4) as Hw6.
  eapply check_next in Hrun as (w7 & Hw7 & Hrun); [|exact Hw6].
  destruct lock as [| |kind]; [| |done].
  2:{ eapply Hskip; [done..|]. intros Hno. unfold io in Hio. rewrite Hno in Hio.
      destruct (o_fail _); injection Hio as <- <-; done. }
  eapply check_next in Hrun as (w8 & Hw8 & Hrun); [|exact Hw7].
  eapply remove_cached in Hrun as (rr & w9 & Hrun & Hrr); [|done..].
  apply F_bind_Ok in Hrun as ([] & w10 & Hcheck & Hrun).
  destruct Hrr as [[-> Hw9]|(kind & -> & Hk)]; [|by destruct kind].
  pose proof (keeps_Ok _ _ _ _ _ (check_contents _ _ _) Hcheck Hw9) as Hw10.
  pose proof (bytes_of_delete _ _ _ Hc) as Hdel. pose proof (bytes_of_nonneg (delete (cf_path f) c)) as Hpos.
  eapply IH in Hrun as (gone & seen & rest & Hev & Hrest); [|exact Hw10|done| |].
  - exists (f :: gone), (f :: seen), rest. split; [by eapply evicted_remove | done].
  - intros g Hg. apply listing_In. destruct (proj1 (listing_In c g) (Hin' g Hg)) as (n & Hn & Hl). exists n.
    rewrite lookup_delete_ne; [done|]. intros E. apply Hf, list_elem_of_fmap. eauto.
  - cbn in Hdel. unfold saturating_sub. lia.
Qed.

Lemma evict_value (protected : list bytes) (c : files) (w : world) u w' :
  evict_to_budget cache protected w = (Ok u, w') -> holding_contents c w -> bytes_of c <= u64_max ->
  (bytes_of c <= max_bytes cache /\ contents root (w_files w') = c) \/
  exists listed gone seen rest, merge_sort eviction_order listed = seen ++ rest /\ listed ≡ₚ listing c /\
    evicted protected c (seen ++ rest) (bytes_of c) gone seen rest (contents root (w_files w')) (bytes_of (contents root (w_files w'))) /\
    max_bytes cache < bytes_of c /\ bytes_of (contents root (w_files w')) <= max_bytes cache.
Proof using Hothers Hm Ha.
  intros Hrun Hw Hsum. unfold evict_to_budget in Hrun.
  eapply check_next in Hrun as (w1 & Hw1 & Hrun); [|exact Hw].
  apply F_bind_Ok in Hrun as ([listed total] & w2 & Hscan & Hrun).
  eapply scan_value in Hscan as (Hw2 & Hlisted & Htot); [|exact Hw1].
  rewrite Z.min_l in Htot by done. subst total. destruct (Z.leb_spec (bytes_of c) (max_bytes cache)) as [Hle|Hgt].
  { left. split; [done|]. exact (keeps_Ok _ _ _ _ _ (check_contents c _ _) Hrun Hw2). }
  right. eapply check_next in Hrun as (w3 & Hw3 & Hrun); [|exact Hw2]. cbv zeta in Hrun.
  eapply check_next in Hrun as (w4 & Hw4 & Hrun); [|exact Hw3].
  apply F_bind_Ok in Hrun as (t & w5 & Hloop & Hrun).
  pose proof (merge_sort_Permutation eviction_order listed) as Hsort.
  eapply evict_loop_value in Hloop as (gone & seen & rest & Hev & _); [|exact Hw4| | |done].
  - destruct Hev as [Esplit Hgone Hc' -> Hseen]. destruct (_ >? _) eqn:Eg in Hrun; [done|].
    rewrite Z.gtb_ltb in Eg. apply Z.ltb_ge in Eg.
    pose proof (keeps_Ok (holding_contents (contents root (w_files w5))) _ _ _ _ (check_contents _ _ _) Hrun eq_refl) as Ew.
    unfold holding_contents in Ew. rewrite Ew. exists listed, gone, seen, rest. split_and!; try done.
  - rewrite Hsort, Hlisted. apply listing_NoDup.
  - intros f. by rewrite Hsort, Hlisted.
Qed.

(** Note (eviction).  When eviction succeeds the cache is within its budget; protected files are as
    before, nothing goes while the budget is met, and what is kept is the youngest: unless another
    process uses a file, no unprotected file is older than one that was removed. *)
Theorem eviction_meets_budget protected (w : world) u w' :
  cache_bytes root (w_files w) <= u64_max ->
  evict_to_budget cache protected w = (Ok u, w') ->
  cache_bytes root (w_files w') <= max_bytes cache /\
  (forall p, cache_entry root p -> w_files w' !! p = w_files w !! p \/ (w_files w' !! p = None /\ p ∉ protected)) /\
  (cache_bytes root (w_files w) <= max_bytes cache -> contents root (w_files w') = contents root (w_files w)) /\
  (nothing_leased -> forall f g, f ∈ listing (contents root (w_files w)) -> g ∈ listing (contents root (w_files w)) ->
     w_files w' !! cf_path f = None -> is_Some (w_files w' !! cf_path g) -> cf_path g ∉ protected -> eviction_order f g).
Proof using Hothers Hm Ha.
  intros Hsum Hrun. unfold cache_bytes in *. set (c := contents root (w_files w)) in *.
  assert (forall p, cache_entry root p -> w_files w !! p = c !! p) as Hc by (intros p Hp; subst c; by rewrite contents_lookup).
  assert (forall p, cache_entry root p -> w_files w' !! p = contents root (w_files w') !! p) as Hc'
    by (intros p Hp; by rewrite contents_lookup).
  assert (forall f, f ∈ listing c -> cache_entry root (cf_path f)) as Hl.
  { intros f (n & Hn & _)%listing_In. by apply contents_Some in Hn as [_ ?]. }
  destruct (evict_value _ c _ _ _ Hrun eq_refl Hsum) as [[Hle E]|(listed & gone & seen & rest & Esort & Hperm & Hev & Hgt & Hle)].
  - rewrite E. split_and!; [done| |done|].
    + intros p Hp. left. by rewrite Hc, Hc', E.
    + intros _ f g Hf _ Hnone. rewrite Hc', E in Hnone by auto. apply listing_In in Hf as (n & Hn & _). congruence.
  - destruct Hev as [_ Hgone Ew _ Hseen]. split_and!; [done| |lia|].
    + intros p Hp. rewrite Hc, Hc', Ew, without_lookup by done.
      destruct (decide (p ∈ cf_path <$> gone)) as [(f & -> & [_ ?]%Hgone)%list_elem_of_fmap|]; [by right | by left].
    + intros Hno f g Hf Hg Hnone Hsome Hunprot. pose proof (Hl _ Hf). pose proof (Hl _ Hg).
      rewrite Hc', Ew, without_lookup in Hnone, Hsome by done.
      destruct (decide (cf_path f ∈ cf_path <$> gone)) as [(f' & Ef & Hf')%list_elem_of_fmap|]; cycle 1.
      { apply listing_In in Hf as (nf & Hnf & _). congruence. }
      assert (f = f') as <-.
      { apply listing_In in Hf as (n & Hn & Elist). apply Hgone in Hf' as [Hf' _].
        assert (f' ∈ listing c) as (n' & Hn' & Elist')%listing_In.
        { rewrite <- Hperm, <- (merge_sort_Permutation eviction_order), Esort. apply elem_of_app. by left. }
        rewrite <- Ef in Hn', Elist'. congruence. }
      destruct (decide (cf_path g ∈ cf_path <$> gone)) as [|Hkept]; [by destruct Hsome|].
      assert (g ∈ rest) as Hrest.
      { rewrite <- Hperm, <- (merge_sort_Permutation eviction_order), Esort in Hg. apply elem_of_app in Hg as [Hg|]; [|done].
        destruct (Hseen g Hno Hg) as [Hin|]; [|done]. destruct Hkept. apply list_elem_of_fmap. eauto. }
      pose proof eviction_total. pose proof eviction_trans.
      pose proof (StronglySorted_merge_sort eviction_order listed) as Hsorted. rewrite Esort in Hsorted.
      eapply (StronglySorted_app_1_elem_of eviction_order); [exact Hsorted|by apply Hgone|done].
Qed.
End Evict.
