(* ===== verification/FetchExamples.v ===== *)
(** * A host for registry fetches, and fetches on it

    A network that serves a signed manifest and its artifact, a clock that advances at every look,
    and an empty disk: the theorems on fetches apply to it. *)
From S2P Require Import Prelude Paths Registry UrlPolicy FetchHost FetchHttp FetchCache Fetch FetchProps FetchRequests FetchVerified FetchEviction.

(** URLs of one https host, by their text. *)
Definition https_urls : UrlLib := {|
  Url := bytes; UrlParseError := unit;
  url_parse := Ok; url_as_str := fun u => u; url_scheme := fun _ => B"https";
  url_username := fun _ => []; url_password := fun _ => None;
  url_host := fun _ => Some (HostDomain (B"example.com"));
  url_query := fun _ => None; url_fragment := fun _ => None;
  url_path_segments := fun u => Some (split_on "/" u);
  url_with_last_segment := fun u name => Some (u ++ name);
  url_file_path_is_absolute := fun _ => false |}.
Definition https_joins : @FetchUrls https_urls.
Proof.
  refine (@Build_FetchUrls https_urls (fun _ location => Some location) (fun _ => None) (fun u => u) (fun u => u)
            (fun u _ => u) (fun u _ => u) _ _).
  - done.
  - done.
Defined.

Definition quiet_outcome (i : nat) : outcome := {|
  o_others := fun fs => fs; o_fail := None; o_amount := 4096; o_blocked := false; o_now := Z.of_nat i; o_ident := Z.of_nat i |}.
Definition serve (i : nat) : Response := {|
  status := 200; location_header := None; content_length_header := None;
  body := match i with 0%nat | 1%nat => B"{}" | _ => replicate 1024 x00 end |}.
Definition toy_machine : @Machine toy_deps https_urls.
Proof.
  refine (@Build_Machine toy_deps https_urls Z.of_nat quiet_outcome (fun i _ _ _ => Ok (serve i))
    (fun fs p => match fs !! p with Some NLink | None => None | Some _ => Some p end) 7 (fun _ => []) _ _).
  - by intros fs p [] ->.
  - done.
Defined.

#[local] Existing Instances toy_deps https_urls https_joins toy_machine.
Definition toy_config (timeout : Z) : FetchConfig := {|
  cfg_manifest_url := B"https://example.com/0.2.0/manifest.json"; cfg_target := X86_64AppleDarwin;
  cfg_expected_version := B"0.2.0"; cfg_expected_protocol_version := 8; cfg_trusted_keys := toy_trusted;
  cfg_signature_threshold := 2; cfg_cache_dir := B"/cache"; cfg_cache_max_bytes := 4096; cfg_timeout := timeout |}.
Definition fresh_world : world := {| w_files := {[ B"/" := NDir ]}; looks := 0; calls := 0; temp_file_sequence := 0; requested := [] |}.

Definition fetch_result : result stop FetchedArtifact * world := fetch_verified_artifact_inner 8 (toy_config 5000) Production fresh_world.
Lemma fetch_result_Ok : is_ok fetch_result.1 = true.
Proof. by vm_compute. Qed.
Lemma fetch_result_run : exists r w', fetch_verified_artifact_inner 8 (toy_config 5000) Production fresh_world = (Ok r, w').
Proof.
  pose proof fetch_result_Ok as Hok. unfold fetch_result in Hok.
  destruct (fetch_verified_artifact_inner _ _ _ _) as [[r|e] w']; [by exists r, w'|done].
Qed.
Lemma toy_undisturbed root : undisturbed root.
Proof. done. Qed.

Lemma fetch_returns_in_time_witness :
  (fetch_verified_artifact_inner 11 (toy_config 10) Production fresh_world).1 <> Err Spin.
Proof. apply (fetch_returns_in_time 11 (toy_config 10) Production fresh_world 10); [cbn; lia | lia]. Defined.

Lemma requests_stay_public_witness :
  exists new, requested (fetch_verified_artifact 8 (toy_config 5000) fresh_world).2 = [] ++ new /\
    Forall public_https new /\ (length new <= 18)%nat.
Proof. exact (requests_stay_public 8 (toy_config 5000) fresh_world). Defined.

Lemma fetched_artifact_is_verified_witness :
  exists r w', fetch_verified_artifact_inner 8 (toy_config 5000) Production fresh_world = (Ok r, w') /\
    fetched (toy_config 5000) r w'.
Proof.
  destruct fetch_result_run as (r & w' & Hrun). exists r, w'. split; [exact Hrun|].
  exact (proj1 (fetched_artifact_is_verified 8 (toy_config 5000) Production fresh_world r w' (toy_undisturbed _) Hrun)).
Defined.

Definition toy_cache (max : Z) : CacheGuard := {|
  manifests := path_join (B"/cache") (B"manifests"); artifacts_dir := path_join (B"/cache") (B"artifacts");
  max_bytes := max; deadline := {| started := 0; total := 5000 |} |}.
Definition toy_select : F (bytes * bytes * ManifestSource) :=
  select_manifest_pair 8 (toy_config 1) (B"s") (toy_cache 1) {| manifest_path := []; signature_path := [] |} Production.
Definition toy_retrieve : F (result ManifestPairRetrievalError (bytes * bytes)) :=
  retrieve_manifest_pair 8 (cfg_manifest_url (toy_config 1)) (B"s") 1 (deadline (toy_cache 1)) Production.
Lemma fallback_only_when_unreachable_witness :
  (forall mb sb w', toy_select fresh_world = (Ok (mb, sb, VerifiedCacheFallback), w') ->
     exists error w1, toy_retrieve fresh_world = (Ok (Err error), w1) /\ unreachable (retrieval_cause error) /\
     (forall fresh e, error = RetrievalError_Signature fresh e -> mb = fresh)) /\
  (forall error w1, toy_retrieve fresh_world = (Ok (Err error), w1) -> ~ unreachable (retrieval_cause error) ->
     exists e w2, toy_select fresh_world = (Err (Failed e), w2) /\
       (e = retrieval_cause error \/ e = OperationDeadline (B"manifest cache fallback"))).
Proof.
  exact (fallback_only_when_unreachable 8 (toy_config 1) (B"s") (toy_cache 1)
    {| manifest_path := []; signature_path := [] |} Production fresh_world eq_refl).
Defined.

(** A cache of ten bytes, with room for five: the older file goes. *)
Definition full_world : world := {|
  w_files := list_to_map [(B"/cache/manifests", NDir); (B"/cache/artifacts", NDir);
                          (B"/cache/artifacts/aa", NFile 1 (B"12345") (Some 1)); (B"/cache/artifacts/bb", NFile 2 (B"67890") (Some 2))];
  looks := 0; calls := 0; temp_file_sequence := 0; requested := [] |}.
Lemma full_world_evicted : exists u w', evict_to_budget (toy_cache 5) [] full_world = (Ok u, w').
Proof.
  assert (is_ok (evict_to_budget (toy_cache 5) [] full_world).1 = true) as Hok by (by vm_compute).
  destruct (evict_to_budget _ _ _) as [[u|e] w']; [by exists u, w'|done].
Qed.
Lemma eviction_meets_budget_witness :
  exists u w', evict_to_budget (toy_cache 5) [] full_world = (Ok u, w') /\ cache_bytes (B"/cache") (w_files w') <= 5.
Proof.
  destruct full_world_evicted as (u & w' & Hrun). exists u, w'. split; [exact Hrun|].
  refine (proj1 (eviction_meets_budget (B"/cache") (toy_undisturbed _) (toy_cache 5) eq_refl eq_refl [] full_world u w' _ Hrun)).
  apply Z.leb_le. by vm_compute.
Defined.
