(* ===== verification/RemoteHost.v ===== *)
(** * Remote hosts, destinations and launch plans (nrm-sidecar/src/remote_host.rs and main.rs)

    What the sidecar learns of a host from its probes, which destinations, roots and agent names it
    accepts, and the command lines it makes of them.  A [bail!] is its text. *)
From S2P Require Import Prelude RuntimeMessages LspProxy.

Definition PROBE_SCHEMA_VERSION : Z := 1.
Definition WINDOWS_REMOTE_COMMAND_MAX_CHARS : Z := 8191.
Definition POWERSHELL_BOOTSTRAP_MAGIC : bytes := B"NRM1".
Definition POWERSHELL_BOOTSTRAP_MAX_BYTES : Z := 64 * 1024.
Definition REMOTE_HOST_PATH_MAX_BYTES : Z := 16 * 1024.
Definition POSIX_SHELL_PATH_MAX_BYTES : Z := 4096.

(** [Result] of the crate anyhow, with the message *)
Abbreviation checked A := (result bytes A).

Inductive RemotePathStyle := Posix | Windows.
#[export] Instance path_style_eq_dec : EqDecision RemotePathStyle.
Proof. solve_decision. Defined.
Record RemoteHostInfo := {
  hi_os : bytes; hi_arch : bytes; hi_shell : bytes; hi_home : bytes; hi_local_app_data : option bytes;
  hi_path_style : RemotePathStyle; hi_target : bytes }.
#[export] Instance host_info_eq_dec : EqDecision RemoteHostInfo.
Proof. solve_decision. Defined.

(** ** Paths *)

Definition is_dot_or_dotdot (s : bytes) : bool := bytes_eqb s (B".") || bytes_eqb s (B"..").
Definition reject_field_controls (name value : bytes) : checked unit :=
  fail_if (bytes_eqb value [] || has_control_char value) (name ++ B" must not be empty or contain control characters").

Definition validate_canonical_posix_path (name value : bytes) : checked unit :=
  _ ← reject_field_controls name value;
  _ ← fail_if ((zlen value >? REMOTE_HOST_PATH_MAX_BYTES) || negb (starts_with (B"/") value))
        (name ++ B" must be a bounded absolute POSIX path");
  _ ← fail_if (negb (bytes_eqb value (B"/")) && ends_with (B"/") value) (name ++ B" must not have a trailing separator");
  fail_if ((zlen value >? 1) &&
           existsb (fun component => bytes_eqb component [] || is_dot_or_dotdot component) (split_on "/" (drop 1 value)))
    (name ++ B" must be a canonical POSIX path").

Definition is_executable_byte (b : byte) : bool :=
  is_ascii_alphanumeric b || byte_eqb b "/" || byte_eqb b "." || byte_eqb b "_" || byte_eqb b "+" || byte_eqb b "-".
Definition validate_canonical_posix_executable (name value : bytes) : checked unit :=
  _ ← validate_canonical_posix_path name value;
  fail_if (negb (forallb is_executable_byte value))
    (name ++ B" contains characters outside the safe executable-path set").

Definition validate_canonical_windows_path (name value : bytes) : checked unit :=
  _ ← reject_field_controls name value;
  match value with
  | drive :: colon :: separator :: rest =>
      _ ← fail_if (zlen value >? REMOTE_HOST_PATH_MAX_BYTES) (name ++ B" must be a bounded absolute Windows path");
      _ ← fail_if (negb (is_ascii_upper drive) || negb (byte_eqb colon ":") ||
                   negb (byte_eqb separator "/" || byte_eqb separator "\") ||
                   starts_with (B"//") value || starts_with (B"\\") value)
            (name ++ B" must use an absolute local drive root");
      let other_separator := if byte_eqb separator "/" then "\"%byte else "/"%byte in
      _ ← fail_if (contains_byte other_separator value) (name ++ B" must use one canonical separator style");
      _ ← fail_if ((zlen value >? 3) && ends_with [separator] value) (name ++ B" must not have a trailing separator");
      fail_if ((zlen value >? 3) &&
               existsb (fun component => bytes_eqb component [] || is_dot_or_dotdot component) (split_on separator rest))
        (name ++ B" must be a canonical Windows path")
  | _ => Err (name ++ B" must be a bounded absolute Windows path")
  end.

(** ** Host information *)

Definition to_ascii_lowercase (s : bytes) : bytes := ascii_lower <$> s.
(** The [match]es on the names of systems and architectures *)
Definition canonical_os (os : bytes) : checked bytes :=
  let os := to_ascii_lowercase os in
  if bytes_eqb os (B"linux") then Ok (B"linux")
  else if bytes_eqb os (B"darwin") || bytes_eqb os (B"macos") then Ok (B"macos")
  else if bytes_eqb os (B"windows") || bytes_eqb os (B"windows_nt") then Ok (B"windows")
  else Err (B"unsupported remote operating system `" ++ os ++ B"`").
Definition canonical_arch (arch : bytes) : checked bytes :=
  let arch := to_ascii_lowercase arch in
  if bytes_eqb arch (B"x86_64") || bytes_eqb arch (B"amd64") then Ok (B"x86_64")
  else if bytes_eqb arch (B"aarch64") || bytes_eqb arch (B"arm64") then Ok (B"aarch64")
  else Err (B"unsupported remote architecture `" ++ arch ++ B"`").
Definition target_of (os arch : bytes) : bytes :=
  if bytes_eqb os (B"linux") then arch ++ B"-unknown-linux-musl"
  else if bytes_eqb os (B"macos") then arch ++ B"-apple-darwin"
  else arch ++ B"-pc-windows-msvc".
Definition try_option {A} (f : A -> checked unit) (o : option A) : checked unit :=
  match o with Some a => f a | None => Ok () end.

Definition build_host_info (os arch shell home : bytes) (local_app_data : option bytes) (path_style : RemotePathStyle) :
    checked RemoteHostInfo :=
  os ← canonical_os os;
  arch ← canonical_arch arch;
  _ ← reject_field_controls (B"shell") shell;
  _ ← reject_field_controls (B"home") home;
  _ ← try_option (reject_field_controls (B"local_app_data")) local_app_data;
  _ ← match path_style with
      | Posix => validate_canonical_posix_path (B"home") home
      | Windows =>
          _ ← validate_canonical_windows_path (B"home") home;
          try_option (validate_canonical_windows_path (B"local_app_data")) local_app_data
      end;
  Ok {| hi_os := os; hi_arch := arch; hi_shell := shell; hi_home := home; hi_local_app_data := local_app_data;
        hi_path_style := path_style; hi_target := target_of os arch |}.

Definition validate_remote_host_info (info : RemoteHostInfo) : checked unit :=
  let expected_style := if bytes_eqb (hi_os info) (B"windows") then Windows else Posix in
  _ ← fail_if (negb (bool_decide (hi_path_style info = expected_style)))
        (B"remote host path style does not match its operating system");
  _ ← fail_if (negb (Bool.eqb (bool_decide (hi_path_style info = Windows)) (bool_decide (is_Some (hi_local_app_data info)))))
        (B"remote host local app-data metadata does not match its platform");
  _ ← fail_if (bytes_eqb (hi_shell info) [] || has_control_char (hi_shell info))
        (B"remote host shell must not be empty or contain control characters");
  _ ← fail_if (bool_decide (hi_path_style info = Windows) && negb (bytes_eqb (hi_shell info) (B"powershell")))
        (B"Windows remote host must use the PowerShell planner");
  _ ← match hi_path_style info with
      | Posix =>
          _ ← validate_canonical_posix_path (B"remote host home") (hi_home info);
          validate_canonical_posix_executable (B"remote host shell") (hi_shell info)
      | Windows =>
          _ ← validate_canonical_windows_path (B"remote host home") (hi_home info);
          local_app_data ← ok_or (hi_local_app_data info) (B"Windows remote host has no local app-data path");
          validate_canonical_windows_path (B"remote host local app-data") local_app_data
      end;
  rebuilt ← build_host_info (hi_os info) (hi_arch info) (hi_shell info) (hi_home info) (hi_local_app_data info)
              (hi_path_style info);
  fail_if (negb (bool_decide (rebuilt = info))) (B"remote host metadata is not canonical").

(** ** Probes *)

(** [reject_probe_controls(.., true)]: a newline is allowed. *)
Definition reject_probe_controls (value : bytes) : checked unit :=
  fail_if (has_control_char (List.filter (fun b => negb (byte_eqb b x0a)) value))
    (B"host probe response contains control characters").
Definition strip_newline (s : bytes) : bytes := if ends_with [x0a] s then take (length s - 1) s else s.

(** [remote_host::parse_posix_probe] *)
Definition parse_legacy_posix_probe (stdout : bytes) : checked RemoteHostInfo :=
  _ ← reject_probe_controls stdout;
  match split_on x0a (strip_newline stdout) with
  | [f0; f1; f2; f3] =>
      _ ← fail_if (negb (bytes_eqb f0 (B"NRM_HOST_INFO_V1"))) (B"POSIX host probe returned an invalid response");
      _ ← fail_if (bytes_eqb f3 [] || negb (starts_with (B"/") f3)) (B"POSIX host probe returned an invalid home directory");
      build_host_info f1 f2 (B"sh") f3 None Posix
  | _ => Err (B"POSIX host probe returned an invalid response")
  end.

Definition is_safe_posix_shell_path (shell : bytes) : bool :=
  if (zlen shell <? 2) || (zlen shell >? POSIX_SHELL_PATH_MAX_BYTES) || negb (starts_with (B"/") shell) ||
     negb (forallb is_executable_byte shell)
  then false
  else forallb (fun component => negb (bytes_eqb component []) && negb (is_dot_or_dotdot component))
         (split_on "/" (drop 1 shell)).
Definition with_shell (shell : bytes) (host : RemoteHostInfo) : RemoteHostInfo := {|
  hi_os := hi_os host; hi_arch := hi_arch host; hi_shell := shell; hi_home := hi_home host;
  hi_local_app_data := hi_local_app_data host; hi_path_style := hi_path_style host; hi_target := hi_target host |}.
Definition parse_posix_probe (stdout : bytes) : checked RemoteHostInfo :=
  let fields := split_on x0a (strip_newline stdout) in
  match fields with
  | f0 :: f1 :: f2 :: f3 :: rest =>
      _ ← fail_if (negb (zlen rest <=? 1)) (B"POSIX host probe returned an invalid response");
      let legacy := f0 ++ [x0a] ++ f1 ++ [x0a] ++ f2 ++ [x0a] ++ f3 ++ [x0a] in
      host ← parse_legacy_posix_probe legacy;
      let shell := match rest with
                   | shell :: _ => if is_safe_posix_shell_path shell then shell else B"/bin/sh"
                   | [] => B"/bin/sh"
                   end in
      Ok (with_shell shell host)
  | _ => Err (B"POSIX host probe returned an invalid response")
  end.

Record PowerShellProbe := {
  pp_schema_version : Z; pp_os : bytes; pp_arch : bytes; pp_shell : bytes; pp_home : bytes; pp_local_app_data : bytes;
  pp_path_style : bytes }.
Definition eq_ignore_case (a b : bytes) : bool := bytes_eqb (to_ascii_lowercase a) (to_ascii_lowercase b).

Section Probes.
(** [serde_json::from_str] of a probe *)
Context (probe_from_str : bytes -> option PowerShellProbe).

Definition parse_powershell_probe (stdout : bytes) : checked RemoteHostInfo :=
  probe ← ok_or (probe_from_str (trim stdout)) (B"PowerShell host probe returned invalid JSON");
  _ ← fail_if (negb (pp_schema_version probe =? PROBE_SCHEMA_VERSION) ||
               negb (eq_ignore_case (pp_os probe) (B"windows")) ||
               negb (eq_ignore_case (pp_shell probe) (B"powershell")) ||
               negb (eq_ignore_case (pp_path_style probe) (B"windows")))
        (B"PowerShell host probe returned incompatible platform metadata");
  _ ← fail_if (bytes_eqb (pp_home probe) [] || bytes_eqb (pp_local_app_data probe) [])
        (B"PowerShell host probe returned an empty required directory");
  _ ← reject_field_controls (B"home") (pp_home probe);
  _ ← reject_field_controls (B"local_app_data") (pp_local_app_data probe);
  build_host_info (B"windows") (pp_arch probe) (B"powershell") (pp_home probe) (Some (pp_local_app_data probe)) Windows.

(** [detect_remote_host_info] over ssh: how the probes ended, and whether there was time left
    after the first one. *)
Definition detect_remote_host_info (powershell posix : checked bytes) (time_left : bool) : checked RemoteHostInfo :=
  match powershell ≫= parse_powershell_probe with
  | Ok info => Ok info
  | Err powershell_error =>
      if negb time_left then Err powershell_error
      else posix ≫= parse_posix_probe
  end.
End Probes.

(** ** Roots *)

Definition contains_text (pat s : bytes) : bool := bool_decide (is_Some (find_text pat s)).
(** The root is UTF-8 text. *)
Definition validate_remote_root (host : RemoteHostInfo) (root : bytes) : checked unit :=
  _ ← reject_field_controls (B"remote root") root;
  _ ← fail_if (starts_with (B"//") root || starts_with (B"\\") root || starts_with (B"/\") root)
        (B"remote root must not use a UNC path");
  match hi_path_style host with
  | Posix =>
      _ ← fail_if (negb (starts_with (B"/") root)) (B"POSIX remote root must be absolute");
      _ ← fail_if (contains_text (B"//") (drop 1 root)) (B"POSIX remote root must not contain empty segments");
      fail_if (existsb is_dot_or_dotdot (split_on "/" root)) (B"POSIX remote root must not contain dot segments")
  | Windows =>
      match root with
      | drive :: colon :: slash :: remainder =>
          _ ← fail_if (negb (is_ascii_upper drive) || negb (byte_eqb colon ":") || negb (byte_eqb slash "/"))
                (B"Windows remote root must use an absolute drive path such as B:/repo");
          _ ← fail_if (contains_byte "\" root) (B"Windows remote root must use forward slashes");
          _ ← fail_if (starts_with (B"/") remainder || contains_text (B"//") remainder)
                (B"Windows remote root must not contain empty segments");
          try_each (fun segment =>
              _ ← fail_if (is_dot_or_dotdot segment) (B"Windows remote root must not contain dot segments");
              _ ← fail_if (contains_byte ":" segment) (B"Windows remote root must not contain alternate data streams");
              fail_if (ends_with (B".") segment || ends_with (B" ") segment)
                (B"Windows remote root segments must not end in a dot or space"))
            (List.filter (fun segment => negb (bytes_eqb segment [])) (split_on "/" remainder))
      | _ => Err (B"Windows remote root must use an absolute drive path such as B:/repo")
      end
  end.

(** ** SSH destinations *)

(** [char::is_whitespace] in UTF-8 text *)
Fixpoint has_whitespace (s : bytes) : bool :=
  match s with
  | [] => false
  | _ :: rest => negb (Nat.eqb (whitespace_length s) 0) || has_whitespace rest
  end.
Definition is_name_byte (b : byte) : bool :=
  is_ascii_alphanumeric b || byte_eqb b "." || byte_eqb b "_" || byte_eqb b "-".
Definition is_address_byte (b : byte) : bool := is_name_byte b || byte_eqb b ":" || byte_eqb b "%".

Definition validate_ssh_destination (destination : bytes) : checked unit :=
  _ ← fail_if (bytes_eqb destination []) (B"ssh destination must not be empty");
  _ ← fail_if (starts_with (B"-") destination) (B"ssh destination must not begin with `-`");
  _ ← fail_if (has_whitespace destination || has_control_char destination)
        (B"ssh destination must not contain whitespace or control characters");
  _ ← fail_if (contains_byte "/" destination || contains_byte "\" destination)
        (B"ssh destination must not contain path separators");
  '(user, host) ← match split_on "@" destination with
                  | [host] => Ok (None, host)
                  | [user; host] => Ok (Some user, host)
                  | _ => Err (B"ssh destination must contain at most one `@`")
                  end;
  _ ← fail_if (from_option (fun user => bytes_eqb user [] || negb (forallb is_name_byte user)) false user)
        (B"ssh destination contains an invalid user name");
  _ ← fail_if (bytes_eqb host [] || starts_with (B"-") host) (B"ssh destination contains an invalid host name");
  if starts_with (B"[") host || ends_with (B"]") host then
    _ ← fail_if (negb (starts_with (B"[") host && ends_with (B"]") host) || (zlen host <=? 2))
          (B"ssh destination contains an invalid bracketed host");
    let address := take (length host - 2) (drop 1 host) in
    fail_if (negb (forallb is_address_byte address)) (B"ssh destination contains an invalid bracketed host")
  else fail_if (negb (forallb is_name_byte host)) (B"ssh destination contains an invalid host name").

Record SshTransport := { ssh_program : bytes; ssh_target : bytes; ssh_connect_timeout_seconds : Z }.
Inductive RemoteTransport := Local | Ssh (ssh : SshTransport).

Definition from_ssh (ssh : option bytes) (connect_timeout_seconds : Z) : checked RemoteTransport :=
  match ssh with
  | Some target =>
      _ ← validate_ssh_destination target;
      Ok (Ssh {| ssh_program := B"ssh"; ssh_target := target; ssh_connect_timeout_seconds := connect_timeout_seconds |})
  | None => Ok Local
  end.
Definition workspace_identity (transport : RemoteTransport) : bytes :=
  match transport with Local => B"local" | Ssh ssh => ssh_target ssh end.
Definition ascii_upper (b : byte) : byte := if is_ascii_lower b then byte_of (u8 b - 32) else b.
Definition normalize_remote_root (transport : RemoteTransport) (remote_root : bytes) : checked bytes :=
  match transport with
  | Local => Ok remote_root
  | Ssh _ =>
      _ ← fail_if (has_control_char remote_root) (B"SSH remote root must not contain control characters");
      match remote_root with
      | drive :: colon :: slash :: rest =>
          if is_ascii_alphabetic drive && byte_eqb colon ":" && byte_eqb slash "/"
          then Ok (ascii_upper drive :: colon :: slash :: rest)
          else Ok remote_root
      | _ => Ok remote_root
      end
  end.
Definition command_args (ssh : SshTransport) (remote_command : bytes) : list bytes :=
  [B"-o"; B"BatchMode=yes"; B"-o"; B"ConnectTimeout=" ++ to_decimal (ssh_connect_timeout_seconds ssh);
   B"-o"; B"ServerAliveInterval=15"; B"-o"; B"ServerAliveCountMax=2"; B"-o"; B"ControlMaster=no";
   B"-o"; B"ControlPath=none"; B"--"; ssh_target ssh; remote_command].

(** [workspace_key]: the first 24 digits of a BLAKE3 digest *)
Definition workspace_key (blake3_hex : bytes -> bytes) (transport : RemoteTransport) (remote_root : bytes) : bytes :=
  take 24 (blake3_hex (workspace_identity transport ++ [x00] ++ remote_root)).

(** ** Agents *)

Definition remote_agent_uses_managed_path (agent : bytes) : bool :=
  negb (contains_byte "/" agent || contains_byte "\" agent || contains_byte ":" agent).
Definition validate_managed_remote_agent_name (agent : bytes) : checked unit :=
  fail_if (bytes_eqb agent [] || is_dot_or_dotdot agent || starts_with (B"-") agent || negb (forallb is_name_byte agent))
    (B"remote_agent must be an absolute path or a safe bare command name").
Definition is_reserved_windows_byte (b : byte) : bool :=
  byte_eqb b "<" || byte_eqb b ">" || byte_eqb b x22 || byte_eqb b "|" || byte_eqb b "?" || byte_eqb b "*".
Definition validate_remote_agent_reference_for_style (agent : bytes) (path_style : RemotePathStyle) : checked unit :=
  if remote_agent_uses_managed_path agent then validate_managed_remote_agent_name agent
  else
    _ ← fail_if (bytes_eqb agent [] || has_control_char agent || starts_with (B"-") agent)
          (B"remote_agent executable path is invalid");
    match path_style with
    | Posix =>
        _ ← validate_canonical_posix_executable (B"remote_agent executable") agent;
        fail_if (bytes_eqb agent (B"/")) (B"remote_agent executable must name a file")
    | Windows =>
        _ ← validate_canonical_windows_path (B"remote_agent executable") agent;
        match agent with
        | _ :: _ :: separator :: (_ :: _) as rest =>
            try_each (fun component =>
                fail_if (contains_byte ":" component || ends_with (B".") component || ends_with (B" ") component ||
                         existsb is_reserved_windows_byte component)
                  (B"remote_agent executable contains an invalid Windows path segment"))
              (split_on separator (drop 3 agent))
        | _ => Err (B"remote_agent executable must name a file")
        end
    end.
Definition validate_remote_agent_reference (agent : bytes) (host : RemoteHostInfo) : checked unit :=
  validate_remote_agent_reference_for_style agent (hi_path_style host).
Definition validate_unresolved_remote_agent_reference (agent : bytes) : checked unit :=
  if remote_agent_uses_managed_path agent then validate_managed_remote_agent_name agent
  else validate_remote_agent_reference_for_style agent (if starts_with (B"/") agent then Posix else Windows).

Definition default_posix_remote_agent_install_path (agent : bytes) : checked bytes :=
  if starts_with (B"/") agent then
    _ ← validate_remote_agent_reference_for_style agent Posix; Ok agent
  else if negb (remote_agent_uses_managed_path agent) then
    Err (B"POSIX remote_agent must be an absolute path or a bare command name")
  else _ ← validate_managed_remote_agent_name agent; Ok (B"$HOME/.local/bin/" ++ agent).
Definition is_separator (b : byte) : bool := byte_eqb b "/" || byte_eqb b "\".
Definition default_remote_agent_install_path (agent : bytes) (host : RemoteHostInfo) : checked bytes :=
  _ ← validate_remote_agent_reference agent host;
  match hi_path_style host with
  | Posix => default_posix_remote_agent_install_path agent
  | Windows =>
      if negb (remote_agent_uses_managed_path agent) then Ok agent
      else
        _ ← validate_managed_remote_agent_name agent;
        local_app_data ← ok_or (hi_local_app_data host) (B"Windows remote host did not report LOCALAPPDATA");
        let local_app_data := trim_end is_separator local_app_data in
        _ ← fail_if (bytes_eqb local_app_data []) (B"Windows remote host reported an empty LOCALAPPDATA");
        let filename := if ends_with (B".exe") (to_ascii_lowercase agent) then agent else agent ++ B".exe" in
        Ok (local_app_data ++ B"\nrm\bin\" ++ filename)
  end.
