(* ===== verification/RemoteCommands.v ===== *)
(** * Launch plans and command lines (nrm-sidecar/src/main.rs and remote_host.rs)

    How a program and its arguments reach the remote host: through [sh -c] on a POSIX host, and
    through a fixed PowerShell script with its document on standard input on Windows. *)
From S2P Require Import Prelude RuntimeMessages LspProxy RemoteHost.

(** ** Windows command lines *)

Definition backslashes (n : nat) : bytes := replicate n ("\"%byte).
Definition is_blank (b : byte) : bool := byte_eqb b " " || byte_eqb b x09.

(** The loop of [windows_quote_argument]: [n] backslashes are held back.  A length fits in
    [usize], so that doubling it does not saturate. *)
Fixpoint quote_argument_loop (n : nat) (argument : bytes) : bytes :=
  match argument with
  | [] => backslashes (2 * n) ++ [x22]
  | character :: rest =>
      if byte_eqb character "\" then quote_argument_loop (S n) rest
      else if byte_eqb character x22 then backslashes (2 * n + 1) ++ [x22] ++ quote_argument_loop 0 rest
      else backslashes n ++ [character] ++ quote_argument_loop 0 rest
  end.
Definition windows_quote_argument (argument : bytes) : bytes :=
  if negb (bytes_eqb argument []) && negb (existsb (fun b => is_blank b || byte_eqb b x22) argument) then argument
  else x22 :: quote_argument_loop 0 argument.
Definition windows_join_arguments (args : list bytes) : bytes := join_words (windows_quote_argument <$> args).

(** How the Microsoft C runtime splits a command line into arguments: blanks outside quotes
    separate, an even number of backslashes before a quote is halved and the quote opens or
    closes, after an odd number the quote is literal, two quotes inside quotes are a literal one,
    and other backslashes are literal.  [n] backslashes are pending. *)
Fixpoint split_arguments (quoted : bool) (n : nat) (word : option bytes) (s : bytes) : list bytes :=
  let pending := from_option id [] word ++ backslashes n in
  match s with
  | [] => if bool_decide (word = None) && Nat.eqb n 0 then [] else [pending]
  | b :: rest =>
      if byte_eqb b "\" then split_arguments quoted (S n) word rest
      else if byte_eqb b x22 then
        let halved := from_option id [] word ++ backslashes (n / 2) in
        if Nat.odd n then split_arguments quoted 0 (Some (halved ++ [x22])) rest
        else if quoted then
          match rest with
          | c :: rest' =>
              if byte_eqb c x22 then split_arguments true 0 (Some (halved ++ [x22])) rest'
              else split_arguments false 0 (Some halved) rest
          | [] => split_arguments false 0 (Some halved) rest
          end
        else split_arguments true 0 (Some halved) rest
      else if negb quoted && is_blank b then
        (if bool_decide (word = None) && Nat.eqb n 0 then [] else [pending]) ++ split_arguments false 0 None rest
      else split_arguments quoted 0 (Some (pending ++ [b])) rest
  end.
(** The program's name comes first, and in it quotes only group and backslashes are literal. *)
Fixpoint split_program (quoted : bool) (program : bytes) (s : bytes) : list bytes :=
  match s with
  | [] => [program]
  | b :: rest =>
      if byte_eqb b x22 then split_program (negb quoted) program rest
      else if negb quoted && is_blank b then program :: split_arguments false 0 None rest
      else split_program quoted (program ++ [b]) rest
  end.
Definition command_line_arguments (s : bytes) : list bytes := split_program false [] s.

(** ** PowerShell *)

(** A text with its double quotes written as tildes *)
Definition quoted_text (s : bytes) : bytes := (fun b => if byte_eqb b "~" then x22 else b) <$> s.

Definition reject_process_field (name value : bytes) : checked unit :=
  fail_if (bytes_eqb value [] || has_control_char value)
    (B"PowerShell process " ++ name ++ B" must not be empty or contain control characters").
Definition reject_process_argument (value : bytes) : checked unit :=
  fail_if (has_control_char value) (B"PowerShell process argument must not contain control characters").

Record ProcessPayload := {
  py_program : bytes; py_arguments : list bytes; py_command_line : bytes; py_cwd : option bytes;
  py_path_prepend : option bytes; py_agent_launch_diagnostics : bool; py_agent_root : option bytes }.
Record PowerShellProcessCommand := { ps_command : bytes; ps_stdin_prefix : bytes }.

Definition bootstrap : bytes := quoted_text (B"$ErrorActionPreference='Stop'
$ProgressPreference='SilentlyContinue'
[Console]::SetOut([IO.TextWriter]::Null)
$stream=[Console]::OpenStandardInput(1)
function Read-NrmBytes([int]$length) {
  $bytes=New-Object byte[] $length
  $offset=0
  while($offset -lt $length) {
    $count=$stream.Read($bytes,$offset,$length-$offset)
    if($count -eq 0) { throw 'truncated nrm process bootstrap' }
    $offset+=$count
  }
  return ,$bytes
}
function Fail-Nrm($kind,$status) {
  $record=[Text.Encoding]::ASCII.GetBytes(~NRM_AGENT_LAUNCH_V1`tFAILURE`t$kind`n~)
  $output=[Console]::OpenStandardOutput()
  $output.Write($record,0,$record.Length);$output.Flush();exit $status
}
[byte[]]$header=Read-NrmBytes 12
if($header[0]-ne 78 -or $header[1]-ne 82 -or $header[2]-ne 77 -or $header[3]-ne 49) { throw 'invalid nrm process bootstrap' }
$scriptLength=[BitConverter]::ToUInt32($header,4)
$payloadLength=[BitConverter]::ToUInt32($header,8)
if($scriptLength -gt 65536 -or $payloadLength -gt 65536) { throw 'oversized nrm process bootstrap' }
[byte[]]$compressed=Read-NrmBytes ([int]$scriptLength)
[byte[]]$payload=Read-NrmBytes ([int]$payloadLength)
$document=[Text.Encoding]::UTF8.GetString($payload)|ConvertFrom-Json
$diagnose=$document.agent_launch_diagnostics -eq $true
if($diagnose) {
  $pathPrepend=[string]$document.path_prepend
  if(-not [string]::IsNullOrEmpty($pathPrepend)) {
    $env:PATH=$pathPrepend+[IO.Path]::PathSeparator+$env:PATH
  }
  $root=[string]$document.agent_root
  if([string]::IsNullOrEmpty($root) -or -not [IO.Directory]::Exists($root)) {
    Fail-Nrm root_missing 66
  }
  $program=[string]$document.program
  $isPath=[IO.Path]::IsPathRooted($program) -or $program.Contains('\') -or $program.Contains('/')
  if($isPath) {
    if([IO.Directory]::Exists($program)) { Fail-Nrm not_executable 126 }
    if(-not [IO.File]::Exists($program)) { Fail-Nrm missing 127 }
  } else {
    try {
      $resolved=Get-Command -Name $program -CommandType Application -ErrorAction Stop|Select-Object -First 1
      if($null -eq $resolved) { Fail-Nrm missing 127 }
    } catch { Fail-Nrm missing 127 }
  }
}
$memory=New-Object IO.MemoryStream(,$compressed)
$gzip=New-Object IO.Compression.GZipStream($memory,[IO.Compression.CompressionMode]::Decompress)
$reader=New-Object IO.StreamReader($gzip,[Text.Encoding]::UTF8)
& ([ScriptBlock]::Create($reader.ReadToEnd())) $payload").

(** What the bootstrap reads of its standard input before it starts the script: the header, the
    script and the payload, and what is left for the process it starts. *)
Definition u32_le (n : Z) : bytes := [byte_of n; byte_of (n / 256); byte_of (n / 65536); byte_of (n / 16777216)].
Definition read_u32_le (s : bytes) : Z :=
  match s with
  | b0 :: b1 :: b2 :: b3 :: _ => u8 b0 + 256 * u8 b1 + 65536 * u8 b2 + 16777216 * u8 b3
  | _ => 0
  end.
Definition read_nrm_bytes (length : Z) (stream : bytes) : checked (bytes * bytes) :=
  _ ← fail_if (zlen stream <? length) (B"truncated nrm process bootstrap");
  Ok (take (Z.to_nat length) stream, drop (Z.to_nat length) stream).
Definition read_bootstrap (stream : bytes) : checked (bytes * bytes * bytes) :=
  '(header, stream) ← read_nrm_bytes 12 stream;
  _ ← fail_if (negb (starts_with POWERSHELL_BOOTSTRAP_MAGIC header)) (B"invalid nrm process bootstrap");
  let script_length := read_u32_le (drop 4 header) in
  let payload_length := read_u32_le (drop 8 header) in
  _ ← fail_if ((script_length >? 65536) || (payload_length >? 65536)) (B"oversized nrm process bootstrap");
  '(compressed, stream) ← read_nrm_bytes script_length stream;
  '(payload, stream) ← read_nrm_bytes payload_length stream;
  Ok (compressed, payload, stream).

(** ** The process the embedded script starts *)

Section ProcessScript.
(** [IO.Path.GetFullPath(IO.Path.Combine(..))], [IO.Path.IsPathRooted], the source of the first application
    [Get-Command] finds, and [cmd.exe] of the system directory, if it is there. *)
Context (full_path : bytes -> bytes -> bytes) (is_path_rooted : bytes -> bool) (get_command : bytes -> checked bytes)
  (system_cmd : checked bytes).

Definition has_drive (program : bytes) : bool :=
  match program with drive :: colon :: _ => is_ascii_alphabetic drive && byte_eqb colon ":" | _ => false end.
Definition is_drive_absolute (program : bytes) : bool :=
  has_drive program && match drop 2 program with slash :: _ => is_separator slash | [] => false end.
Definition is_unc_absolute (program : bytes) : bool := starts_with (B"\\") program || starts_with (B"//") program.

Definition application_name (payload : ProcessPayload) : checked bytes :=
  let program := py_program payload in
  let directory := default [] (py_cwd payload) in
  if is_drive_absolute program || is_unc_absolute program then Ok program
  else if starts_with (B"\") program || starts_with (B"/") program then Err (B"root-relative executable paths are unsupported")
  else if has_drive program then Err (B"drive-relative executable paths are unsupported")
  else if existsb is_separator program then
    _ ← fail_if (bytes_eqb directory []) (B"relative executable paths require a working directory");
    Ok (full_path directory program)
  else
    application ← get_command program;
    _ ← fail_if (bytes_eqb application [] || negb (is_path_rooted application))
          (B"Get-Command returned a non-absolute application path for " ++ program);
    Ok application.

(** The extension is [.cmd] or [.bat] in any case. *)
Definition is_batch (application : bytes) : bool :=
  let extension := drop (length application - 4) application in
  eq_ignore_case extension (B".cmd") || eq_ignore_case extension (B".bat").
Definition reject_batch_value (value : bytes) : checked unit :=
  _ ← fail_if (has_control_char value) (B"batch application paths and arguments must not contain control characters");
  fail_if (contains_byte x22 value || contains_byte "%" value)
    (B"batch application paths and arguments must not contain double quotes or percent signs").
(** [-replace '(\\+)$', '$1$1'] *)
Fixpoint trailing_backslashes (n : nat) (value : bytes) : nat :=
  match value with
  | [] => n
  | b :: value => trailing_backslashes (if byte_eqb b "\" then S n else 0) value
  end.
Definition batch_quote (value : bytes) : bytes := x22 :: value ++ backslashes (trailing_backslashes 0 value) ++ [x22].
Definition batch_command (application : bytes) (arguments : list bytes) : bytes :=
  batch_quote application ++ (arguments ≫= fun argument => " "%byte :: batch_quote argument).
(** What is started, and with which command line. *)
Definition start_process (payload : ProcessPayload) : checked (bytes * bytes) :=
  application ← application_name payload;
  if is_batch application then
    _ ← try_each reject_batch_value (application :: py_arguments payload);
    cmd_application ← system_cmd;
    Ok (cmd_application, [x22] ++ cmd_application ++ quoted_text (B"~ /d /s /v:off /c ~") ++
                         batch_command application (py_arguments payload) ++ [x22])
  else Ok (application, py_command_line payload).
End ProcessScript.

(** Standard base64 and the JSON of a payload, and the bytes of the embedded compressed script.
    Base64 writes four characters for each started group of three bytes, and the script fits the
    limit its own check compares it with. *)
Class PowerShellHost := {
  base64 : bytes -> bytes;
  payload_to_vec : ProcessPayload -> bytes;
  compressed_script : bytes;
  base64_length s : zlen (base64 s) = (zlen s + 2) / 3 * 4;
  script_fits : zlen compressed_script <= POWERSHELL_BOOTSTRAP_MAX_BYTES }.

Section PowerShell.
Context `{PowerShellHost}.

(** For ASCII scripts: each character is one UTF-16 unit, low byte first. *)
Definition powershell_encoded_command (script : bytes) : bytes :=
  B"powershell.exe -NoLogo -NoProfile -NonInteractive -ExecutionPolicy Bypass -EncodedCommand " ++
  base64 (script ≫= fun b => [b; x00]).

(** [args.windows(2).find_map(..)] *)
Fixpoint agent_root_argument (args : list bytes) : option bytes :=
  match args with
  | first :: (second :: _) as rest => if bytes_eqb first (B"--root") then Some second else agent_root_argument rest
  | _ => None
  end.

Definition powershell_process_command_inner (program : bytes) (args : list bytes) (cwd path_prepend : option bytes)
    (agent_launch_diagnostics : bool) : checked PowerShellProcessCommand :=
  _ ← reject_process_field (B"program") program;
  _ ← try_each reject_process_argument args;
  _ ← try_option (reject_process_field (B"working directory")) cwd;
  _ ← try_option (reject_process_field (B"PATH prefix")) path_prepend;
  agent_root ← (if agent_launch_diagnostics then
                  root ← ok_or (agent_root_argument args) (B"agent launch diagnostics require a --root argument");
                  Ok (Some root)
                else Ok None);
  let payload := payload_to_vec {|
    py_program := program; py_arguments := args; py_command_line := windows_join_arguments (program :: args);
    py_cwd := cwd; py_path_prepend := path_prepend; py_agent_launch_diagnostics := agent_launch_diagnostics;
    py_agent_root := agent_root |} in
  _ ← fail_if ((zlen compressed_script >? POWERSHELL_BOOTSTRAP_MAX_BYTES) || (zlen payload >? POWERSHELL_BOOTSTRAP_MAX_BYTES))
        (B"PowerShell process bootstrap exceeds the 65536-byte document limit");
  let command := powershell_encoded_command bootstrap in
  _ ← fail_if (zlen command >? WINDOWS_REMOTE_COMMAND_MAX_CHARS)
        (B"PowerShell process command exceeds the 8191-character Windows command-line limit");
  Ok {| ps_command := command;
        ps_stdin_prefix := POWERSHELL_BOOTSTRAP_MAGIC ++ u32_le (zlen compressed_script) ++ u32_le (zlen payload) ++
                           compressed_script ++ payload |}.
Definition powershell_process_command (program : bytes) (args : list bytes) (cwd path_prepend : option bytes) :=
  powershell_process_command_inner program args cwd path_prepend false.
Definition powershell_agent_process_command (program : bytes) (args : list bytes) (cwd path_prepend : option bytes) :=
  powershell_process_command_inner program args cwd path_prepend true.

Definition powershell_agent_remote_subcommand (agent : bytes) (host : RemoteHostInfo) (args : list bytes) :
    checked PowerShellProcessCommand :=
  '(program, path_prepend) ←
     (if remote_agent_uses_managed_path agent then
        local_app_data ← ok_or (hi_local_app_data host) (B"Windows remote host did not report LOCALAPPDATA");
        let managed_dir := trim_end is_separator local_app_data ++ B"\nrm\bin" in
        Ok (if eq_ignore_case agent (B"nrm-agent") || eq_ignore_case agent (B"nrm-agent.exe")
            then managed_dir ++ B"\nrm-agent.exe" else agent, Some managed_dir)
      else Ok (agent, None));
  powershell_agent_process_command program args None path_prepend.
Definition powershell_lsp_remote_command (remote_root program : bytes) (arguments : list bytes) :
    checked PowerShellProcessCommand :=
  powershell_process_command program arguments (Some remote_root) None.

(** ** POSIX *)

Definition launch_script : bytes := quoted_text (B"set -u
agent=$1
root=$2
managed=$3
shift 3
fail() {
  printf 'NRM_AGENT_LAUNCH_V1\tFAILURE\t%s\n' ~$1~
  exit ~$2~
}
if [ ! -d ~$root~ ]; then fail root_missing 66; fi
if [ ~$managed~ = 1 ]; then
  PATH=~${HOME-}/.local/bin:${PATH-}~
  export PATH
fi
case ~$agent~ in
  */*) executable=$agent ;;
  *) executable=$(command -v ~$agent~ 2>/dev/null) || fail missing 127 ;;
esac
if [ ! -e ~$executable~ ] && [ ! -L ~$executable~ ]; then fail missing 127; fi
if [ ! -f ~$executable~ ] || [ ! -x ~$executable~ ]; then fail not_executable 126; fi
printf 'NRM_AGENT_LAUNCH_V1\tREADY\n' || exit 70
exec ~$executable~ ~$@~").

Definition posix_agent_remote_subcommand (agent remote_root : bytes) (args : list bytes) : bytes :=
  join_words ([shell_quote (B"sh"); shell_quote (B"-c"); shell_quote launch_script; shell_quote (B"nrm-agent-launch");
               shell_quote agent; shell_quote remote_root;
               shell_quote (if remote_agent_uses_managed_path agent then B"1" else B"0")] ++ (shell_quote <$> args)).

(** ** Plans *)

Record ProcessLaunchPlan := {
  plan_program : bytes; plan_args : list bytes; plan_current_dir : option bytes; plan_stdin_prefix : bytes }.

Definition agent_subcommand_plan (transport : RemoteTransport) (agent remote_root : bytes) (host : RemoteHostInfo)
    (args : list bytes) : checked ProcessLaunchPlan :=
  _ ← validate_remote_agent_reference agent host;
  match transport with
  | Local => Ok {| plan_program := agent; plan_args := args; plan_current_dir := None; plan_stdin_prefix := [] |}
  | Ssh ssh =>
      _ ← validate_remote_root host remote_root;
      '(remote_command, stdin_prefix) ←
         match hi_path_style host with
         | Posix => Ok (posix_agent_remote_subcommand agent remote_root args, [])
         | Windows =>
             launch ← powershell_agent_remote_subcommand agent host args;
             Ok (ps_command launch, ps_stdin_prefix launch)
         end;
      Ok {| plan_program := ssh_program ssh; plan_args := command_args ssh remote_command; plan_current_dir := None;
            plan_stdin_prefix := stdin_prefix |}
  end.
Definition agent_plan (transport : RemoteTransport) (agent remote_root : bytes) (host : RemoteHostInfo) :=
  agent_subcommand_plan transport agent remote_root host [B"serve"; B"--root"; remote_root].
Definition runtime_plan (transport : RemoteTransport) (agent remote_root : bytes) (host : RemoteHostInfo) :=
  agent_subcommand_plan transport agent remote_root host [B"runtime"; B"--root"; remote_root].
(** The command of a language server is not empty: its program and its arguments. *)
Definition lsp_plan (transport : RemoteTransport) (remote_root program : bytes) (arguments : list bytes)
    (host : RemoteHostInfo) : checked ProcessLaunchPlan :=
  match transport with
  | Local => Ok {| plan_program := program; plan_args := arguments; plan_current_dir := Some remote_root;
                   plan_stdin_prefix := [] |}
  | Ssh ssh =>
      _ ← validate_remote_root host remote_root;
      '(remote_command, stdin_prefix) ←
         match hi_path_style host with
         | Posix => Ok (posix_lsp_remote_command remote_root (program :: arguments), [])
         | Windows =>
             launch ← powershell_lsp_remote_command remote_root program arguments;
             Ok (ps_command launch, ps_stdin_prefix launch)
         end;
      Ok {| plan_program := ssh_program ssh; plan_args := command_args ssh remote_command; plan_current_dir := None;
            plan_stdin_prefix := stdin_prefix |}
  end.
End PowerShell.
