(* ===== verification/RemoteHostProps.v ===== *)
(** * What detection and validation of hosts promise each other

    The host information detection makes is the one every later validation accepts, with one
    exception; the destinations accepted are exactly a grammar in which nothing is an option. *)
From S2P Require Import Prelude RuntimeMessages LspProxy RemoteHost.

(** ** Shape of checks: the name in a message does not matter *)

Lemma posix_path_renamed name name' v u :
  validate_canonical_posix_path name v = Ok u -> validate_canonical_posix_path name' v = Ok ().
Proof.
  unfold validate_canonical_posix_path, reject_field_controls. intros H. inv_ok.
  repeat match goal with H : ?c = false |- context [?c] => rewrite H end. reflexivity.
Qed.
Lemma windows_path_renamed name name' v u :
  validate_canonical_windows_path name v = Ok u -> validate_canonical_windows_path name' v = Ok ().
Proof.
  unfold validate_canonical_windows_path, reject_field_controls. intros H. inv_ok.
  destruct v as [|drive [|colon [|separator rest]]]; try discriminate. inv_ok.
  cbn zeta. repeat match goal with H : ?c = false |- context [?c] => rewrite H end. reflexivity.
Qed.

Lemma canonical_os_idempotent os os' : canonical_os os = Ok os' -> canonical_os os' = Ok os'.
Proof. unfold canonical_os. intros H. inv_ok; repeat case_match; simplify_eq; vm_compute; reflexivity. Qed.
Lemma canonical_arch_idempotent arch arch' : canonical_arch arch = Ok arch' -> canonical_arch arch' = Ok arch'.
Proof. unfold canonical_arch. intros H. repeat case_match; simplify_eq; vm_compute; reflexivity. Qed.

(** What the construction checked, and that it gives the same result again. *)
Lemma build_host_info_again os arch shell home local_app_data style info :
  build_host_info os arch shell home local_app_data style = Ok info ->
  build_host_info (hi_os info) (hi_arch info) shell home local_app_data style = Ok info /\
  hi_shell info = shell /\ hi_home info = home /\ hi_local_app_data info = local_app_data /\ hi_path_style info = style.
Proof.
  unfold build_host_info. intros H. inv_ok; cbn;
  (match goal with H : canonical_os _ = Ok _ |- _ => rewrite (canonical_os_idempotent _ _ H) end);
  (match goal with H : canonical_arch _ = Ok _ |- _ => rewrite (canonical_arch_idempotent _ _ H) end);
  cbn; repeat match goal with H : ?c = Ok _ |- context [?c] => rewrite H; cbn end; done.
Qed.

(** A shell the probe keeps is one the validation accepts. *)
Lemma executable_byte_plain b : is_executable_byte b = true -> is_ascii_control b = false /\ byte_eqb b xc2 = false.
Proof. destruct b; vm_compute; done. Qed.
Lemma executable_no_control s : forallb is_executable_byte s = true -> has_control_char s = false.
Proof.
  induction s as [|b s IH]; cbn; [done|]. intros [Hb Hs]%andb_prop.
  destruct (executable_byte_plain b Hb) as [-> ->]. cbn. auto.
Qed.
Lemma split_on_trailing c t : split_on c (t ++ [c]) = split_on c t ++ [[]].
Proof.
  unfold split_on. induction t as [|b t IH]; cbn; [by rewrite byte_eqb_refl|]. rewrite IH.
  destruct (byte_eqb c b); [done|]. pose proof (split_by_nonempty (byte_eqb c) t).
  by destruct (split_by (byte_eqb c) t).
Qed.
Lemma no_trailing_separator c s :
  Forall (fun seg => seg <> []) (split_on c s) -> ends_with [c] s = false.
Proof.
  intros H. apply not_true_iff_false. intros [t ->]%ends_with_spec. rewrite split_on_trailing in H.
  apply Forall_app in H as [_ H]. by inv H.
Qed.
Lemma ends_with_cons c b d s : ends_with [c] (b :: d :: s) = ends_with [c] (d :: s).
Proof.
  unfold ends_with. rewrite !reverse_cons. change (reverse [c]) with [c].
  by destruct (reverse s) eqn:E.
Qed.

Lemma safe_shell_accepted name shell :
  is_safe_posix_shell_path shell = true -> validate_canonical_posix_executable name shell = Ok ().
Proof.
  unfold is_safe_posix_shell_path. destruct (_ || _) eqn:E; [done|]. rewrite !orb_false_iff, !negb_false_iff in E.
  destruct E as [[[Hlen Hmax] Hroot] Hbytes]. intros Hcomp.
  unfold validate_canonical_posix_executable, validate_canonical_posix_path, reject_field_controls.
  destruct shell as [|b [|c rest]]; [done..|]. cbn [drop] in *.
  rewrite (executable_no_control _ Hbytes), Hroot, Hbytes. clear Hbytes Hroot.
  assert (Hparts : Forall (fun x => bytes_eqb x [] || is_dot_or_dotdot x = false) (split_on "/" (c :: rest))).
  { apply forallb_Forall in Hcomp. eapply Forall_impl; [exact Hcomp|]. cbn. intros x [? ?]%andb_prop.
    by rewrite orb_false_iff, <- !negb_true_iff. }
  change (B"/") with ["/"%byte]. rewrite (proj2 (existsb_false _ _) Hparts), ends_with_cons, no_trailing_separator; cycle 1.
  { eapply Forall_impl; [exact Hparts|]. cbn. intros x [Hx _]%orb_false_iff ->. done. }
  rewrite !andb_false_r. cbn. replace (zlen _ >? _) with false; [done|].
  assert (REMOTE_HOST_PATH_MAX_BYTES = 16384 /\ POSIX_SHELL_PATH_MAX_BYTES = 4096) as [? ?] by done. lia.
Qed.

(** The exception: a POSIX probe that names Windows. *)
Definition posix_windows (info : RemoteHostInfo) : bool :=
  bytes_eqb (hi_os info) (B"windows") && bool_decide (hi_path_style info = Posix).
Definition path_style_mismatch : bytes := B"remote host path style does not match its operating system".

Lemma build_host_info_shell os arch shell shell' home local_app_data style info :
  build_host_info os arch shell home local_app_data style = Ok info ->
  reject_field_controls (B"shell") shell' = Ok () ->
  build_host_info os arch shell' home local_app_data style = Ok (with_shell shell' info).
Proof.
  unfold build_host_info. intros H Hs. rewrite Hs. inv_ok; cbn;
  repeat match goal with H : ?c = Ok _ |- context [?c] => rewrite H; cbn end; done.
Qed.
Lemma executable_no_controls name shell :
  validate_canonical_posix_executable name shell = Ok () ->
  bytes_eqb shell [] || has_control_char shell = false.
Proof.
  unfold validate_canonical_posix_executable, validate_canonical_posix_path, reject_field_controls. intros H. by inv_ok.
Qed.

Lemma posix_info_accepted os arch shell home info :
  build_host_info os arch (B"sh") home None Posix = Ok info ->
  validate_canonical_posix_executable (B"remote host shell") shell = Ok () ->
  validate_remote_host_info (with_shell shell info) =
  if posix_windows info then Err path_style_mismatch else Ok ().
Proof.
  intros Hbuild Hshell. destruct (build_host_info_again _ _ _ _ _ _ _ Hbuild) as (Hagain & ? & Hh & Hl & Hstyle).
  pose proof (executable_no_controls _ _ Hshell) as Hctl.
  apply (build_host_info_shell _ _ _ shell) in Hagain; [|unfold reject_field_controls; by rewrite Hctl].
  unfold validate_remote_host_info, posix_windows. cbn [with_shell hi_os hi_arch hi_shell hi_home hi_local_app_data hi_path_style hi_target].
  rewrite Hl, Hstyle, Hh, Hagain, Hctl, Hshell. cbn.
  destruct (bytes_eqb (hi_os info) (B"windows")); [done|]. cbn.
  unfold build_host_info in Hbuild. inv_ok.
  rewrite (posix_path_renamed (B"home") _ home _ ltac:(eassumption)). cbn. by rewrite bool_decide_true by done.
Qed.

Lemma windows_info_accepted arch home local_app_data info :
  build_host_info (B"windows") arch (B"powershell") home (Some local_app_data) Windows = Ok info ->
  validate_remote_host_info info = Ok () /\ posix_windows info = false.
Proof.
  intros Hbuild. destruct (build_host_info_again _ _ _ _ _ _ _ Hbuild) as (Hagain & Hs & Hh & Hl & Hstyle).
  assert (Hos : hi_os info = B"windows").
  { assert (canonical_os (B"windows") = Ok (B"windows")) by reflexivity. unfold build_host_info in Hbuild. inv_ok.
    cbn. congruence. }
  unfold validate_remote_host_info, posix_windows. rewrite Hs, Hl, Hstyle, Hh, Hos in *. rewrite Hagain. cbn.
  unfold build_host_info in Hbuild. inv_ok.
  rewrite (windows_path_renamed (B"home") _ home _ ltac:(eassumption)). cbn.
  rewrite (windows_path_renamed (B"local_app_data") _ local_app_data _ ltac:(eassumption)). cbn.
  by rewrite bool_decide_true by done.
Qed.

Lemma probed_shell_accepted rest :
  validate_canonical_posix_executable (B"remote host shell")
    match rest with
    | shell :: _ => if is_safe_posix_shell_path shell then shell else B"/bin/sh"
    | [] => B"/bin/sh"
    end = Ok ().
Proof. destruct rest as [|shell rest]; [done|]. destruct (is_safe_posix_shell_path shell) eqn:E; [by apply safe_shell_accepted | done]. Qed.

Lemma legacy_probe_built stdout host :
  parse_legacy_posix_probe stdout = Ok host ->
  exists os arch home, build_host_info os arch (B"sh") home None Posix = Ok host.
Proof.
  unfold parse_legacy_posix_probe. intros H. inv_ok.
  destruct (split_on _ _) as [|f0 [|f1 [|f2 [|f3 [|f4 rest]]]]]; try discriminate. inv_ok. eauto.
Qed.

(** C26 (type) Every host information that detection produces, over ssh and from whatever the
    probes answered, is well-formed: its system, architecture, target, shell and directories are the
    canonical ones that every later check of a launch ticket or an install requires, and that check
    accepts it.  The one exception is a POSIX probe that names Windows as its system (an ssh server in
    a POSIX layer on Windows whose uname says so): detection accepts it, and the check always refuses
    it for its path style. *)
Theorem detected_host_is_well_formed (probe_from_str : bytes -> option PowerShellProbe) (powershell posix : checked bytes)
    (time_left : bool) (info : RemoteHostInfo) :
  detect_remote_host_info probe_from_str powershell posix time_left = Ok info ->
  validate_remote_host_info info = if posix_windows info then Err path_style_mismatch else Ok ().
Proof.
  unfold detect_remote_host_info. destruct (powershell ≫= _) as [w|] eqn:Ew.
  - intros [= <-]. unfold parse_powershell_probe in Ew. inv_ok.
    edestruct windows_info_accepted as [-> ->]; done.
  - destruct time_left; [|done]. cbn. intros H. inv_ok. unfold parse_posix_probe in H.
    destruct (split_on _ _) as [|f0 [|f1 [|f2 [|f3 rest]]]]; try discriminate.
    apply bind_Ok in H as (? & _ & (host & Hhost & [= <-])%bind_Ok).
    apply legacy_probe_built in Hhost as (os & arch & home & Hbuild).
    apply (posix_info_accepted _ _ _ _ _ Hbuild), probed_shell_accepted.
Qed.

Definition toy_probe : bytes :=
  B"NRM_HOST_INFO_V1" ++ [x0a] ++ B"Linux" ++ [x0a] ++ B"x86_64" ++ [x0a] ++ B"/home/dev" ++ [x0a] ++ B"/usr/bin/fish" ++ [x0a].
Lemma detected_host_is_well_formed_witness :
  match detect_remote_host_info (fun _ => None) (Ok []) (Ok toy_probe) true with
  | Ok info => validate_remote_host_info info = Ok () /\ hi_shell info = B"/usr/bin/fish"
  | Err _ => False
  end.
Proof.
  split; [|reflexivity].
  apply (detected_host_is_well_formed (fun _ => None) (Ok []) (Ok toy_probe) true). reflexivity.
Defined.

(** ** Destinations *)

(** What a destination is: a host, or a user name, an at sign and a host. *)
Definition is_name (s : bytes) : bool :=
  negb (bytes_eqb s []) && negb (starts_with (B"-") s) && forallb is_name_byte s.
Definition is_bracketed (s : bytes) : bool :=
  starts_with (B"[") s && ends_with (B"]") s && (2 <? zlen s) &&
  forallb is_address_byte (take (length s - 2) (drop 1 s)).
Definition is_host (s : bytes) : bool := is_name s || is_bracketed s.
Definition is_destination (s : bytes) : Prop :=
  is_host s = true \/ exists user host, s = user ++ "@"%byte :: host /\ is_name user = true /\ is_host host = true.

Definition is_destination_byte (b : byte) : bool :=
  is_address_byte b || byte_eqb b "@" || byte_eqb b "[" || byte_eqb b "]".
Lemma destination_byte_plain b :
  is_destination_byte b = true ->
  is_ascii_control b = false /\ byte_eqb b xc2 = false /\ byte_eqb "/" b = false /\ byte_eqb "\" b = false.
Proof. destruct b; vm_compute; done. Qed.
Lemma destination_byte_not_space b s : is_destination_byte b = true -> whitespace_length (b :: s) = 0%nat.
Proof. destruct b; vm_compute; done. Qed.
Lemma destination_plain s :
  forallb is_destination_byte s = true ->
  has_whitespace s || has_control_char s = false /\ contains_byte "/" s || contains_byte "\" s = false.
Proof.
  induction s as [|b s IH]; [done|]. cbn [forallb]. intros [Hb Hs]%andb_prop.
  destruct (IH Hs) as [[Hw Hc]%orb_false_iff [H1 H2]%orb_false_iff].
  destruct (destination_byte_plain b Hb) as (Hctl & Hc2 & Hslash & Hback).
  cbn [has_whitespace has_control_char contains_byte existsb]. rewrite (destination_byte_not_space b s Hb), Hw, Hc, Hctl, Hc2.
  split; [done|]. unfold contains_byte in *. cbn [existsb]. rewrite H1, H2.
  by rewrite Hslash, Hback.
Qed.

Lemma name_byte_facts b :
  is_name_byte b = true -> is_destination_byte b = true /\ byte_eqb "@" b = false /\ byte_eqb "[" b = false /\ byte_eqb "]" b = false.
Proof. destruct b; vm_compute; done. Qed.
Lemma address_byte_facts b : is_address_byte b = true -> is_destination_byte b = true /\ byte_eqb "@" b = false.
Proof. destruct b; vm_compute; done. Qed.
Lemma forallb_weaken {A : Type} (p q : A -> bool) l :
  (forall x, p x = true -> q x = true) -> forallb p l = true -> forallb q l = true.
Proof. rewrite !forallb_Forall. intros H Hl. by eapply Forall_impl. Qed.

Lemma name_not_bracketed s :
  forallb is_name_byte s = true -> starts_with (B"[") s || ends_with (B"]") s = false.
Proof.
  intros H. apply orb_false_iff. rewrite <- !not_true_iff_false, starts_with_spec, ends_with_spec.
  split; intros [t ->]; rewrite forallb_app in H; apply andb_prop in H; destruct H as [H1 H2]; done.
Qed.
Lemma bracketed_inv s : is_bracketed s = true ->
  exists address, s = "["%byte :: address ++ ["]"%byte] /\ address <> [] /\ forallb is_address_byte address = true.
Proof.
  unfold is_bracketed. rewrite !andb_true_iff, starts_with_spec, ends_with_spec.
  intros [[[[t ->] [u Hu]] Hlen] Hb]. to_prop. change (B"[") with ["["%byte] in *. cbn [app] in *.
  destruct u as [|c u]; [by inv Hu|]. injection Hu as <- ->. change (B"]") with ["]"%byte] in *.
  cbn [skipn] in Hb. exists u. split; [done|]. rewrite zlen_cons, zlen_app in Hlen. change (zlen ["]"%byte]) with 1 in Hlen.
  split; [intros ->; rewrite zlen_nil in Hlen; lia|]. cbn [length] in Hb. rewrite length_app in Hb. cbn [length] in Hb.
  replace (S (length u + 1) - 2)%nat with (length u) in Hb by lia.
  change (drop 0 ?l) with l in Hb. rewrite take_app_length in Hb. by apply forallb_Forall.
Qed.
Lemma not_contained (p : byte -> bool) c s :
  (forall b, p b = true -> byte_eqb c b = false) -> forallb p s = true -> contains_byte c s = false.
Proof. intros H. unfold contains_byte. rewrite forallb_Forall, existsb_false. intros Hl. by eapply Forall_impl. Qed.
Lemma name_plain s : forallb is_name_byte s = true -> forallb is_destination_byte s = true /\ contains_byte "@" s = false.
Proof.
  split; [eapply forallb_weaken; [|done] | eapply not_contained; [|done]]; intros; by apply name_byte_facts.
Qed.
Lemma host_plain s : is_host s = true -> forallb is_destination_byte s = true /\ contains_byte "@" s = false.
Proof.
  unfold is_host. intros [H|H]%orb_prop.
  - unfold is_name in H. to_prop. by apply name_plain, forallb_Forall.
  - apply bracketed_inv in H as (address & -> & _ & Ha). unfold contains_byte. cbn. rewrite forallb_app, existsb_app.
    rewrite (forallb_weaken _ is_destination_byte _ (fun b Hb => proj1 (address_byte_facts b Hb)) Ha). 
    by rewrite (not_contained _ "@" _ (fun b Hb => proj2 (address_byte_facts b Hb)) Ha : existsb _ _ = _).
Qed.

(** The last part of the validation *)
Definition check_host (host : bytes) : checked unit :=
  _ ← fail_if (bytes_eqb host [] || starts_with (B"-") host) (B"ssh destination contains an invalid host name");
  if starts_with (B"[") host || ends_with (B"]") host then
    _ ← fail_if (negb (starts_with (B"[") host && ends_with (B"]") host) || (zlen host <=? 2))
          (B"ssh destination contains an invalid bracketed host");
    let address := take (length host - 2) (drop 1 host) in
    fail_if (negb (forallb is_address_byte address)) (B"ssh destination contains an invalid bracketed host")
  else fail_if (negb (forallb is_name_byte host)) (B"ssh destination contains an invalid host name").
Lemma bracket_first s : starts_with (B"[") s = true -> bytes_eqb s [] || starts_with (B"-") s = false.
Proof. by intros [t ->]%starts_with_spec. Qed.
Lemma check_host_spec host u : check_host host = Ok u <-> is_host host = true.
Proof.
  destruct u. unfold check_host, is_host, is_name, is_bracketed. rewrite Z.ltb_antisym.
  pose proof (name_not_bracketed host). pose proof (bracket_first host).
  destruct (starts_with (B"[") host), (ends_with (B"]") host), (forallb is_name_byte host), (bytes_eqb host []),
    (starts_with (B"-") host), (zlen host <=? 2), (forallb is_address_byte _);
  cbn in *; naive_solver.
Qed.
Lemma validate_ssh_destination_eq d :
  validate_ssh_destination d =
  (_ ← fail_if (bytes_eqb d []) (B"ssh destination must not be empty");
   _ ← fail_if (starts_with (B"-") d) (B"ssh destination must not begin with `-`");
   _ ← fail_if (has_whitespace d || has_control_char d)
         (B"ssh destination must not contain whitespace or control characters");
   _ ← fail_if (contains_byte "/" d || contains_byte "\" d) (B"ssh destination must not contain path separators");
   '(user, host) ← match split_on "@" d with
                   | [host] => Ok (None, host)
                   | [user; host] => Ok (Some user, host)
                   | _ => Err (B"ssh destination must contain at most one `@`")
                   end;
   _ ← fail_if (from_option (fun user => bytes_eqb user [] || negb (forallb is_name_byte user)) false user)
         (B"ssh destination contains an invalid user name");
   check_host host).
Proof. done. Qed.
Lemma host_first s : is_host s = true -> bytes_eqb s [] = false /\ starts_with (B"-") s = false.
Proof.
  unfold is_host, is_name, is_bracketed. pose proof (bracket_first s).
  destruct (bytes_eqb s []), (starts_with (B"-") s), (starts_with (B"[") s); naive_solver.
Qed.
Lemma name_first s t : is_name s = true -> bytes_eqb (s ++ t) [] = false /\ starts_with (B"-") (s ++ t) = false.
Proof. unfold is_name. destruct s as [|b s]; [done|]. intros H. to_prop. done. Qed.
Lemma split_on_one c s t : contains_byte c s = false -> split_on c s = [s] /\
  (contains_byte c t = false -> split_on c (s ++ c :: t) = [s; t]).
Proof.
  unfold contains_byte, split_on. rewrite !existsb_false. intros Hs. split; [by apply split_by_clean|].
  intros Ht. rewrite split_by_app by (done || apply byte_eqb_refl). by rewrite split_by_clean.
Qed.

Lemma destination_accepted destination : validate_ssh_destination destination = Ok () <-> is_destination destination.
Proof.
  rewrite validate_ssh_destination_eq. split.
  - intros H. apply bind_Ok in H as (? & _ & H). apply bind_Ok in H as (? & Hdash & H).
    apply bind_Ok in H as (? & _ & H). apply bind_Ok in H as (? & _ & H).
    rewrite <- (join_split "@" destination). rewrite <- (join_split "@" destination), fail_if_Ok in Hdash.
    destruct (split_on "@" destination) as [|a [|b [|? ?]]]; try discriminate; cbn -[B check_host] in *.
    { left. by eapply check_host_spec. }
    apply bind_Ok in H as (? & Huser%fail_if_Ok & Hhost%check_host_spec).
    right. exists a, b. split; [done|]. split; [|done]. unfold is_name. to_prop.
    destruct a as [|c a]; [done|]. rewrite (proj2 (forallb_Forall _ _)) by done.
    change (B"-") with ["-"%byte] in *. cbn in Hdash |- *. by rewrite Hdash.
  - intros [Hh|(user & host & -> & Hu & Hh)]; destruct (host_plain _ Hh) as [Hp Hat].
    + destruct (host_first _ Hh) as [-> ->], (destination_plain _ Hp) as [-> ->].
      destruct (split_on_one "@" destination [] Hat) as [-> _]. cbn -[check_host]. by apply check_host_spec.
    + destruct (name_first user ("@"%byte :: host) Hu) as [-> ->].
      assert (Hn : bytes_eqb user [] = false /\ forallb is_name_byte user = true) by 
        (unfold is_name in Hu; to_prop; split; [by apply bytes_eqb_false | by apply forallb_Forall]).
      destruct Hn as [He Hn]. destruct (name_plain _ Hn) as [Hup Huat].
      destruct (destination_plain (user ++ "@"%byte :: host)) as [-> ->]; [rewrite forallb_app; cbn [forallb]; by rewrite Hup, Hp|].
      destruct (split_on_one "@" user host Huat) as [_ ->]; [|done].
      cbn -[check_host]. rewrite He, Hn. cbn -[check_host]. by apply check_host_spec.
Qed.

(** Note (equivalence) The destinations [validate_ssh_destination] accepts are exactly those of a
    grammar: a host, or a user name, an at sign and a host, where a name is a nonempty run of
    letters, digits, dots, underscores and dashes that does not begin with a dash, and a host is a
    name or an address in square brackets.  So a destination is never an option of ssh, never a URI
    with a port or a path, and never more than one word. *)
Theorem ssh_destination_grammar (destination : bytes) :
  validate_ssh_destination destination = Ok () <-> is_destination destination.
Proof. apply destination_accepted. Qed.
