(* ===== verification/RemoteCommandsProps.v ===== *)
(** * What the remote side makes of a launch plan

    The arguments a Windows process or a POSIX shell sees are the arguments of the plan, the
    PowerShell bootstrap reads back what is sent to it, and its script starts what the plan
    says or refuses it. *)
From S2P Require Import Prelude RuntimeMessages LspProxy RemoteHost RemoteHostProps RemoteCommands.

(** ** Windows command lines *)

(** What follows an argument: the end, or a blank and the other arguments. *)
Definition ended (tail : bytes) : Prop := tail = [] \/ exists rest, tail = " "%byte :: rest.
Definition after (tail : bytes) : list bytes :=
  match tail with [] => [] | _ :: rest => split_arguments false 0 None rest end.

Lemma split_backslashes q k word m rest :
  split_arguments q k word (backslashes m ++ rest) = split_arguments q (k + m) word rest.
Proof.
  revert k. induction m as [|m IH]; intros k; cbn; [by rewrite Nat.add_0_r|].
  change (replicate m ("\"%byte)) with (backslashes m). rewrite IH. f_equal. lia.
Qed.
Lemma backslashes_snoc n s : backslashes n ++ ("\"%byte :: s) = backslashes (S n) ++ s.
Proof. unfold backslashes. rewrite replicate_S_end, <- app_assoc. done. Qed.
Lemma half_even n : (2 * n / 2 = n)%nat /\ ((2 * n + 1) / 2 = n)%nat /\ Nat.odd (2 * n) = false /\ Nat.odd (2 * n + 1) = true.
Proof.
  split_and!.
  - rewrite Nat.mul_comm. by apply Nat.div_mul.
  - rewrite Nat.mul_comm, Nat.div_add_l by lia. cbn. lia.
  - rewrite Nat.odd_mul. done.
  - rewrite Nat.add_1_r, Nat.odd_succ, Nat.even_mul. done.
Qed.

Lemma quote_loop_split s n w tail :
  ended tail ->
  split_arguments true 0 (Some w) (quote_argument_loop n s ++ tail) =
  split_arguments false 0 (Some (w ++ backslashes n ++ s)) tail.
Proof.
  intros Htail. destruct (half_even n) as (H1 & H2 & H3 & H4).
  revert n w H1 H2 H3 H4. induction s as [|b s IH]; intros n w H1 H2 H3 H4; cbn [quote_argument_loop].
  - rewrite <- app_assoc, split_backslashes, Nat.add_0_l, app_nil_r. cbn [app split_arguments].
    change (byte_eqb x22 "\") with false. change (byte_eqb x22 x22) with true. rewrite H1, H3.
    destruct Htail as [->|[rest ->]]; done.
  - destruct (byte_eqb b "\") eqn:E1.
    { apply byte_eqb_true in E1 as ->. destruct (half_even (S n)) as (? & ? & ? & ?). by rewrite IH, backslashes_snoc. }
    destruct (half_even 0) as (? & ? & ? & ?).
    destruct (byte_eqb b x22) eqn:E2; rewrite <- !app_assoc, split_backslashes, Nat.add_0_l; cbn [app split_arguments].
    + apply byte_eqb_true in E2 as ->. change (byte_eqb x22 "\") with false. change (byte_eqb x22 x22) with true.
      rewrite H2, H4, IH by done. cbn. by rewrite <- !app_assoc.
    + rewrite E1, E2. cbn [negb andb]. rewrite IH by done. cbn. by rewrite <- !app_assoc.
Qed.

Definition is_bare (b : byte) : bool := negb (is_blank b || byte_eqb b x22).
Lemma bare_split s n word tail :
  forallb is_bare s = true -> ended tail -> (s <> [] \/ word <> None \/ n <> 0%nat) ->
  split_arguments false n word (s ++ tail) = (from_option id [] word ++ backslashes n ++ s) :: after tail.
Proof.
  intros Hs Htail. revert n word. induction s as [|b s IH]; intros n word Hne.
  - rewrite app_nil_r. cbn [app].
    assert (bool_decide (word = None) && Nat.eqb n 0 = false) as Hw.
    { apply andb_false_iff. destruct Hne as [?|[?|?]]; [done| |right; by apply Nat.eqb_neq]. left. by apply bool_decide_eq_false. }
    destruct Htail as [->|[rest ->]]; cbn [split_arguments after]; rewrite ?Hw; [done|].
    change (byte_eqb " " "\") with false. change (byte_eqb " " x22) with false.
    change (is_blank " ") with true. cbn [negb andb]. done.
  - cbn [forallb] in Hs. apply andb_prop in Hs as [Hb Hs]. unfold is_bare in Hb.
    apply negb_true_iff, orb_false_iff in Hb as [Hblank Hquote]. specialize (IH Hs).
    cbn [app split_arguments]. rewrite Hblank, Hquote. destruct (byte_eqb b "\") eqn:E1.
    + apply byte_eqb_true in E1 as ->. rewrite IH by (right; right; lia). by rewrite backslashes_snoc.
    + cbn [negb andb]. rewrite IH by (right; by left). cbn. by rewrite <- !app_assoc.
Qed.

Lemma split_forced a tail :
  ended tail -> split_arguments false 0 None (x22 :: quote_argument_loop 0 a ++ tail) = a :: after tail.
Proof.
  intros Htail. cbn [app split_arguments]. change (byte_eqb x22 "\") with false. change (byte_eqb x22 x22) with true. cbn [Nat.odd].
  change (Nat.odd 0) with false. cbn [Nat.div from_option]. cbn. rewrite quote_loop_split by done.
  pose proof (bare_split [] 0 (Some a) tail) as H. cbn in H. rewrite app_nil_r in H. apply H; auto.
Qed.
Lemma split_quoted a tail :
  ended tail -> split_arguments false 0 None (windows_quote_argument a ++ tail) = a :: after tail.
Proof.
  intros Htail. unfold windows_quote_argument. destruct (_ && _) eqn:E.
  - apply andb_prop in E as [Hne Hb]. rewrite negb_true_iff in *. apply bytes_eqb_false in Hne.
    rewrite bare_split; [done| |done|by left]. apply existsb_false in Hb. apply forallb_Forall.
    eapply Forall_impl; [exact Hb|]. cbn. intros b Hx. unfold is_bare. by rewrite Hx.
  - by apply split_forced.
Qed.

Lemma join_ended args : ended (match args with [] => [] | _ => " "%byte :: windows_join_arguments args end).
Proof. destruct args; [by left | right; eauto]. Qed.
Lemma join_cons a args :
  windows_join_arguments (a :: args) =
  windows_quote_argument a ++ match args with [] => [] | _ => " "%byte :: windows_join_arguments args end.
Proof. unfold windows_join_arguments, join_words. destruct args; cbn; [by rewrite app_nil_r | done]. Qed.
Lemma split_joined args : split_arguments false 0 None (windows_join_arguments args) = args.
Proof.
  induction args as [|a args IH]; [done|]. rewrite join_cons, split_quoted by apply join_ended.
  f_equal. destruct args; [done|]. exact IH.
Qed.

(** The program *)
Lemma split_program_run q s acc tail :
  (forallb (fun b => negb (byte_eqb b x22)) s = true) -> (q = true \/ forallb is_bare s = true) ->
  split_program q acc (s ++ tail) = split_program q (acc ++ s) tail.
Proof.
  revert acc. induction s as [|b s IH]; intros acc Hq Hb; [by rewrite app_nil_r|].
  cbn [forallb] in *. apply andb_prop in Hq as [Hq Hqs]. apply negb_true_iff in Hq. cbn [app split_program]. rewrite Hq.
  replace (negb q && is_blank b) with false.
  - rewrite IH; [by rewrite <- app_assoc | done | destruct Hb as [|[? ?]%andb_prop]; auto].
  - destruct Hb as [->|[Hb _]%andb_prop]; [done|]. unfold is_bare in Hb. apply negb_true_iff, orb_false_iff in Hb as [-> _].
    by rewrite andb_false_r.
Qed.
Lemma quote_loop_plain s n :
  forallb (fun b => negb (byte_eqb b x22)) s = true -> ends_with ["\"%byte] s = false -> (s <> [] \/ n = 0%nat) ->
  quote_argument_loop n s = backslashes n ++ s ++ [x22].
Proof.
  revert n. induction s as [|b s IH]; intros n Hq He Hne; [by destruct Hne as [? | ->]|].
  cbn [forallb] in Hq. apply andb_prop in Hq as [Hb Hs]. apply negb_true_iff in Hb. cbn [quote_argument_loop]. rewrite Hb.
  assert (s = [] \/ ends_with ["\"%byte] s = false) as Htail.
  { destruct s; [by left|right]. by rewrite ends_with_cons in He. }
  destruct (byte_eqb b "\") eqn:E.
  - apply byte_eqb_true in E as ->. destruct Htail as [->|Ht]; [done|].
    destruct s as [|c s]; [done|]. rewrite IH; [by rewrite <- backslashes_snoc | done | done | by left].
  - rewrite IH; [cbn; by rewrite ?app_nil_l | done | by destruct Htail as [->|?] | by right].
Qed.

Lemma no_quote value : contains_byte x22 value = false -> forallb (fun b => negb (byte_eqb b x22)) value = true.
Proof.
  unfold contains_byte. intros Hq%existsb_false. apply forallb_Forall. eapply Forall_impl; [exact Hq|]. cbn. intros b Hb.
  apply negb_true_iff. apply byte_eqb_false in Hb. by apply byte_eqb_false.
Qed.
Lemma command_line_roundtrip program args :
  contains_byte x22 program = false -> ends_with ["\"%byte] program = false ->
  command_line_arguments (windows_join_arguments (program :: args)) = program :: args.
Proof.
  intros Hq He. rewrite join_cons. unfold command_line_arguments.
  pose proof (no_quote _ Hq) as Hp.
  assert (Hrest : forall t, split_program false program (match args with [] => [] | _ => " "%byte :: t end) =
                    program :: match args with [] => [] | _ => split_arguments false 0 None t end) by by destruct args.
  unfold windows_quote_argument. destruct (_ && _) eqn:E.
  - rewrite split_program_run; [|done|]; cycle 1.
    { right. apply andb_prop in E as [_ Hb%negb_true_iff]. apply existsb_false in Hb. apply forallb_Forall.
      eapply Forall_impl; [exact Hb|]. cbn. intros b Hx. unfold is_bare. by rewrite Hx. }
    rewrite Hrest, split_joined. by destruct args.
  - rewrite quote_loop_plain by auto. cbn [backslashes replicate app split_program].
    change (byte_eqb x22 x22) with true. cbn [negb]. rewrite <- app_assoc, split_program_run by auto. cbn [app split_program].
    change (byte_eqb x22 x22) with true. cbn [negb]. rewrite Hrest, split_joined. by destruct args.
Qed.

(** ** Batch files *)

(** Without quotes in it, a value is quoted the way arguments are. *)
Lemma quote_loop_trailing s n : forallb (fun b => negb (byte_eqb b x22)) s = true ->
  quote_argument_loop n s = backslashes n ++ s ++ backslashes (trailing_backslashes n s) ++ [x22].
Proof.
  revert n. induction s as [|b s IH]; intros n Hq; cbn [quote_argument_loop trailing_backslashes].
  { unfold backslashes. cbn [app]. rewrite app_assoc, <- replicate_add. do 2 f_equal. lia. }
  cbn [forallb] in Hq. apply andb_prop in Hq as [Hb Hs]. apply negb_true_iff in Hb. rewrite Hb.
  destruct (byte_eqb b "\") eqn:E; rewrite IH by done; [apply byte_eqb_true in E as ->; by rewrite <- backslashes_snoc | done].
Qed.
Lemma batch_quote_loop a : contains_byte x22 a = false -> batch_quote a = x22 :: quote_argument_loop 0 a.
Proof. intros Hq%no_quote. unfold batch_quote. by rewrite quote_loop_trailing. Qed.

Lemma split_batch args : Forall (fun a => contains_byte x22 a = false) args ->
  let text := args ≫= fun argument => " "%byte :: batch_quote argument in ended text /\ after text = args.
Proof.
  induction 1 as [|a args Ha _ [IHe IHa]]; [split; [by left | done]|]. cbn zeta in *. rewrite bind_cons.
  split; [right; by eexists|]. cbn [app after]. rewrite batch_quote_loop by done. rewrite <- app_comm_cons. by rewrite split_forced, IHa.
Qed.

Lemma trailing_snoc s n b : byte_eqb b "\" = false -> trailing_backslashes n (s ++ [b]) = 0%nat.
Proof. intros Hb. revert n. induction s as [|c s IH]; intros n; cbn; [by rewrite Hb | apply IH]. Qed.
Lemma batch_no_backslash application : is_batch application = true -> trailing_backslashes 0 application = 0%nat.
Proof.
  intros Hb. rewrite <- (take_drop (length application - 4) application). unfold is_batch in Hb.
  set (extension := drop _ application) in *.
  assert (Hl : exists t c, to_ascii_lowercase extension = t ++ [c] /\ byte_eqb c "\" = false).
  { apply orb_true_iff in Hb as [Hb|Hb]; apply bytes_eqb_true in Hb; rewrite Hb; [exists (B".cm"), "d"%byte | exists (B".ba"), "t"%byte]; done. }
  destruct Hl as (t & c & Hl & Hc). unfold to_ascii_lowercase in Hl. apply fmap_app_inv in Hl as (pre & last & _ & Hlast & ->).
  destruct last as [|b [|? ?]]; try discriminate Hlast. injection Hlast as ->.
  rewrite app_assoc. apply trailing_snoc. destruct (byte_eqb b "\") eqn:E; [|done]. by apply byte_eqb_true in E as ->.
Qed.

(** The command given to [cmd.exe] splits into the application and its arguments. *)
Lemma batch_command_roundtrip application args : is_batch application = true ->
  Forall (fun a => contains_byte x22 a = false) (application :: args) ->
  command_line_arguments (batch_command application args) = application :: args.
Proof.
  intros Hb [Hq Hargs]%Forall_cons. destruct (split_batch args Hargs) as [He Ha]. unfold batch_command, command_line_arguments.
  set (text := args ≫= _) in *. unfold batch_quote. rewrite batch_no_backslash by done. cbn [backslashes replicate app split_program].
  change (byte_eqb x22 x22) with true. cbn [negb]. rewrite <- app_assoc, split_program_run by auto using no_quote. cbn [app split_program].
  change (byte_eqb x22 x22) with true. cbn [negb]. destruct He as [E|[rest E]]; rewrite E in Ha |- *; by rewrite <- Ha.
Qed.

(** ** The bootstrap *)

Lemma read_u32_le_back n t : 0 <= n <= 65536 -> read_u32_le (u32_le n ++ t) = n.
Proof. intros Hn. unfold u32_le. cbn [app read_u32_le]. rewrite !u8_byte_of. Z.div_mod_to_equations. lia. Qed.
Lemma read_nrm_bytes_app n s t : zlen s = n -> read_nrm_bytes n (s ++ t) = Ok (s, t).
Proof.
  intros <-. unfold read_nrm_bytes. rewrite zlen_app. pose proof (zlen_nonneg t).
  replace (zlen s + zlen t <? zlen s) with false by lia. cbn. unfold zlen. rewrite Nat2Z.id.
  by rewrite take_app_length, drop_app_length.
Qed.
Lemma read_bootstrap_back script payload rest :
  zlen script <= POWERSHELL_BOOTSTRAP_MAX_BYTES -> zlen payload <= POWERSHELL_BOOTSTRAP_MAX_BYTES ->
  read_bootstrap ((POWERSHELL_BOOTSTRAP_MAGIC ++ u32_le (zlen script) ++ u32_le (zlen payload) ++ script ++ payload) ++ rest) =
  Ok (script, payload, rest).
Proof.
  assert (POWERSHELL_BOOTSTRAP_MAX_BYTES = 65536) as -> by done. intros Hs Hp.
  pose proof (zlen_nonneg script). pose proof (zlen_nonneg payload). unfold read_bootstrap.
  replace ((POWERSHELL_BOOTSTRAP_MAGIC ++ u32_le (zlen script) ++ u32_le (zlen payload) ++ script ++ payload) ++ rest)
    with ((POWERSHELL_BOOTSTRAP_MAGIC ++ u32_le (zlen script) ++ u32_le (zlen payload)) ++ script ++ payload ++ rest)
    by by rewrite <- !app_assoc.
  rewrite (read_nrm_bytes_app 12) by done. cbn [mbind result_bind].
  replace (starts_with _ _) with true by (symmetry; apply starts_with_spec; eauto).
  replace (drop 4 _) with (u32_le (zlen script) ++ u32_le (zlen payload)) by done.
  replace (drop 8 _) with (u32_le (zlen payload) ++ []) by done. rewrite !read_u32_le_back by lia.
  replace (_ || _) with false by lia. cbn -[read_nrm_bytes].
  rewrite read_nrm_bytes_app by done. cbn -[read_nrm_bytes]. by rewrite read_nrm_bytes_app.
Qed.

Section Launches.
Context `{PowerShellHost}.

(** The fixed command fits the limit of Windows, so that its check never fails. *)
Lemma bootstrap_command_fits : (zlen (powershell_encoded_command bootstrap) >? WINDOWS_REMOTE_COMMAND_MAX_CHARS) = false.
Proof.
  unfold powershell_encoded_command. rewrite zlen_app, base64_length.
  vm_compute. reflexivity.
Qed.

(** The document sent for a process *)
Definition process_payload (program : bytes) (args : list bytes) (cwd path_prepend : option bytes) (diagnostics : bool) :
    ProcessPayload := {|
  py_program := program; py_arguments := args; py_command_line := windows_join_arguments (program :: args);
  py_cwd := cwd; py_path_prepend := path_prepend; py_agent_launch_diagnostics := diagnostics;
  py_agent_root := if diagnostics then agent_root_argument args else None |}.

(** What the batch branch refuses. *)
Definition batch_unsafe (value : bytes) : bool := has_control_char value || contains_byte x22 value || contains_byte "%" value.
Lemma batch_values_checked values :
  if existsb batch_unsafe values then exists e, try_each reject_batch_value values = Err e
  else try_each reject_batch_value values = Ok () /\ Forall (fun a => contains_byte x22 a = false) values.
Proof.
  assert (Hone : forall v, if batch_unsafe v then exists e, reject_batch_value v = Err e
    else reject_batch_value v = Ok () /\ contains_byte x22 v = false).
  { intros v. unfold batch_unsafe, reject_batch_value. destruct (has_control_char v); [by eexists|].
    destruct (contains_byte x22 v); [by eexists|]. by destruct (contains_byte "%" v); [eexists|]. }
  induction values as [|v values IH]; [done|]. cbn [existsb try_each]. specialize (Hone v).
  destruct (batch_unsafe v); [destruct Hone as [e ->]; by exists e|]. destruct Hone as [-> Hv]. cbn [orb mbind result_bind].
  destruct (existsb batch_unsafe values); [exact IH|]. destruct IH as [IH1 IH2]. split; [exact IH1 | by constructor].
Qed.

(** The process the script starts for a document, once its program was resolved. *)
Lemma started_process full_path rooted get_command cmd payload application :
  application_name full_path rooted get_command payload = Ok application ->
  contains_byte x22 (py_program payload) = false -> ends_with ["\"%byte] (py_program payload) = false ->
  py_command_line payload = windows_join_arguments (py_program payload :: py_arguments payload) ->
  let started := start_process full_path rooted get_command (Ok cmd) payload in
  if is_batch application then
    if existsb batch_unsafe (application :: py_arguments payload) then exists e, started = Err e
    else exists command,
      started = Ok (cmd, quoted_text (B"~") ++ cmd ++ quoted_text (B"~ /d /s /v:off /c ~") ++ command ++ quoted_text (B"~")) /\
      command_line_arguments command = application :: py_arguments payload
  else exists line, started = Ok (application, line) /\ command_line_arguments line = py_program payload :: py_arguments payload.
Proof.
  intros Happ Hq Hb Hline started. unfold started, start_process. rewrite Happ. cbn [mbind result_bind].
  destruct (is_batch application) eqn:Ebatch; cycle 1.
  { eexists. split; [done|]. rewrite Hline. by apply command_line_roundtrip. }
  pose proof (batch_values_checked (application :: py_arguments payload)) as Hv. destruct (existsb _ _).
  - destruct Hv as [e ->]. by exists e.
  - destruct Hv as [-> Hv]. cbn [mbind result_bind]. eexists. split; [done|]. by apply batch_command_roundtrip.
Qed.

(** C20 (roundtrip): a process launched through PowerShell gets what the plan says.  For a program without double quote that
    does not end in a backslash, when no field has control characters, the program and directories are
    not empty, an agent's arguments have a [--root], and the document has at most 64 KiB, there is a
    command; what is written to standard input is read by the bootstrap as exactly the embedded script and
    the document, with everything after it left for the process.  Once the script has resolved the
    program, it starts it with a command line that splits, by the rules of the
    Microsoft C runtime, into the program and every argument, blanks, quotes and backslashes included; for
    a batch file it refuses double quotes, percent signs and control characters and otherwise
    has [cmd.exe] run a command that splits the same way into the resolved file and the arguments. *)
Theorem powershell_launch_roundtrip (program : bytes) (args : list bytes) (cwd path_prepend : option bytes)
    (diagnostics : bool) (rest : bytes) :
  reject_process_field (B"program") program = Ok () ->
  try_each reject_process_argument args = Ok () ->
  try_option (reject_process_field (B"working directory")) cwd = Ok () ->
  try_option (reject_process_field (B"PATH prefix")) path_prepend = Ok () ->
  (diagnostics = true -> is_Some (agent_root_argument args)) ->
  let payload := process_payload program args cwd path_prepend diagnostics in
  zlen (payload_to_vec payload) <= POWERSHELL_BOOTSTRAP_MAX_BYTES ->
  contains_byte x22 program = false -> ends_with ["\"%byte] program = false ->
  exists launch,
    powershell_process_command_inner program args cwd path_prepend diagnostics = Ok launch /\
    read_bootstrap (ps_stdin_prefix launch ++ rest) = Ok (compressed_script, payload_to_vec payload, rest) /\
    forall full_path rooted get_command cmd application,
      application_name full_path rooted get_command payload = Ok application ->
      let started := start_process full_path rooted get_command (Ok cmd) payload in
      if is_batch application then
        if existsb batch_unsafe (application :: args) then exists e, started = Err e
        else exists command,
          started = Ok (cmd, quoted_text (B"~") ++ cmd ++ quoted_text (B"~ /d /s /v:off /c ~") ++ command ++ quoted_text (B"~")) /\
          command_line_arguments command = application :: args
      else exists line, started = Ok (application, line) /\ command_line_arguments line = program :: args.
Proof.
  intros Hprogram Hargs Hcwd Hpath Hroot payload Hfits Hquote Hback. pose proof script_fits.
  unfold powershell_process_command_inner. rewrite Hprogram, Hargs, Hcwd, Hpath, bootstrap_command_fits.
  cbn [mbind result_bind fail_if].
  assert (Hr : (if diagnostics
                then root ← ok_or (agent_root_argument args) (B"agent launch diagnostics require a --root argument"); Ok (Some root)
                else Ok None) = Ok (E := bytes) (py_agent_root payload)).
  { cbn. destruct diagnostics; [|done]. by destruct (Hroot eq_refl) as [r ->]. }
  rewrite Hr. cbn [mbind result_bind]. change {| py_program := program |} with payload.
  replace (_ || _) with false by lia. cbn [fail_if mbind result_bind]. eexists. split; [done|].
  split; [by apply read_bootstrap_back|]. intros full_path rooted get_command cmd application Happ.
  exact (started_process full_path rooted get_command cmd payload application Happ Hquote Hback eq_refl).
Qed.
End Launches.

(** ** POSIX hosts *)

(** The plan runs ssh with options, the end of options, the target and one command, which the
    remote shell splits into exactly [words] without expanding anything. *)
Definition runs_remotely (ssh : SshTransport) (plan : ProcessLaunchPlan) (words : list bytes) : Prop :=
  plan_program plan = ssh_program ssh /\ plan_current_dir plan = None /\ plan_stdin_prefix plan = [] /\
  exists options command,
    plan_args plan = options ++ [B"--"; ssh_target ssh; command] /\ B"--" ∉ options /\
    shell_words false None command = Some words.

Lemma ssh_runs ssh command words :
  shell_words false None command = Some words ->
  runs_remotely ssh {| plan_program := ssh_program ssh; plan_args := command_args ssh command; plan_current_dir := None;
                       plan_stdin_prefix := [] |} words.
Proof.
  intros H. unfold runs_remotely. cbn. split_and!; [done..|].
  eexists [_;_;_;_;_;_;_;_;_;_;_;_], command. split; [done|]. split; [|done].
  rewrite !elem_of_cons. intros Hin. 
  repeat (destruct Hin as [Hin|Hin]; [apply (f_equal (fun s => bytes_eqb (take 2 s) (B"--"))) in Hin; lazy in Hin; discriminate|]).
  by apply elem_of_nil in Hin.
Qed.

(** C25 (safety) On a POSIX host, every agent, runtime and language server is launched with exactly
    the words of its plan: for an accepted agent and root there is a plan, it runs ssh with the
    validated destination after the end of the options, and the remote shell's words are the launch
    script followed by the agent, the root, the flag of a managed name and the arguments, whatever
    characters they contain; likewise for a language server's directory and command. *)
Theorem posix_launch_words `{PowerShellHost} (target agent root program : bytes) (seconds : Z) (ssh : SshTransport)
    (host : RemoteHostInfo) (args arguments : list bytes) :
  from_ssh (Some target) seconds = Ok (Ssh ssh) -> hi_path_style host = Posix ->
  validate_remote_agent_reference agent host = Ok () -> validate_remote_root host root = Ok () ->
  is_destination (ssh_target ssh) /\
  (exists plan, agent_subcommand_plan (Ssh ssh) agent root host args = Ok plan /\
     runs_remotely ssh plan ([B"sh"; B"-c"; launch_script; B"nrm-agent-launch"; agent; root;
                              if remote_agent_uses_managed_path agent then B"1" else B"0"] ++ args)) /\
  (exists plan, lsp_plan (Ssh ssh) root program arguments host = Ok plan /\
     runs_remotely ssh plan
       ([B"sh"; B"-lc"; quoted_text (B"cd ~$1~ && shift && exec ~$@~"); B"nrm-lsp-proxy"; root; program] ++ arguments)).
Proof.
  intros Hssh Hstyle Hagent Hroot. unfold from_ssh in Hssh. inv_ok. cbn [ssh_target].
  split; [apply destination_accepted; by destruct x|].
  unfold agent_subcommand_plan, lsp_plan. rewrite Hstyle, Hagent, Hroot. cbn [mbind result_bind].
  split; (eexists; split; [done|]); apply ssh_runs.
  - unfold posix_agent_remote_subcommand. rewrite <- (shell_words_join (_ ++ args)) by done. by rewrite fmap_app.
  - unfold posix_lsp_remote_command. rewrite <- (shell_words_join (_ ++ arguments)) by done. by rewrite fmap_app.
Qed.

(** ** Examples *)

Definition toy_base64 (s : bytes) : bytes := replicate (Z.to_nat ((zlen s + 2) / 3 * 4)) ("A"%byte).
Lemma toy_base64_length s : zlen (toy_base64 s) = (zlen s + 2) / 3 * 4.
Proof.
  unfold toy_base64, zlen at 1. rewrite length_replicate. pose proof (zlen_nonneg s).
  assert (0 <= (zlen s + 2) / 3) by (apply Z.div_pos; lia). lia.
Qed.
#[local] Instance toy_powershell : PowerShellHost.
Proof.
  refine (@Build_PowerShellHost toy_base64 (fun payload => py_command_line payload) (B"script") toy_base64_length _).
  vm_compute. discriminate.
Defined.
Definition toy_arguments : list bytes := [B"serve"; B"--root"; B"C:/my repo\"; [x22; "\"%byte; x22]; []].

Definition toy_payload : ProcessPayload :=
  process_payload (B"C:\Program Files\nrm-agent.exe") toy_arguments None (Some (B"C:\bin")) true.

Lemma powershell_launch_roundtrip_witness :
  exists launch,
    powershell_process_command_inner (B"C:\Program Files\nrm-agent.exe") toy_arguments None (Some (B"C:\bin")) true = Ok launch /\
    read_bootstrap (ps_stdin_prefix launch ++ B"frames") =
      Ok (compressed_script, payload_to_vec toy_payload, B"frames") /\
    exists line, start_process (fun dir name => name) (fun _ => true) Ok (Ok (B"C:\Windows\System32\cmd.exe")) toy_payload =
        Ok (B"C:\Program Files\nrm-agent.exe", line) /\
      command_line_arguments line = B"C:\Program Files\nrm-agent.exe" :: toy_arguments.
Proof.
  destruct (powershell_launch_roundtrip (B"C:\Program Files\nrm-agent.exe") toy_arguments None (Some (B"C:\bin")) true (B"frames"))
    as (launch & H1 & H2 & H3); try reflexivity; [eexists; reflexivity | vm_compute; discriminate |].
  exists launch. split; [exact H1|]. split; [exact H2|].
  exact (H3 (fun dir name => name) (fun _ => true) Ok (B"C:\Windows\System32\cmd.exe") (B"C:\Program Files\nrm-agent.exe") eq_refl).
Defined.

(** A batch file is run by [cmd.exe], its trailing backslash kept, and refused a percent sign. *)
Definition toy_batch (argument : bytes) : ProcessPayload := process_payload (B"C:\my tools\run.CMD") [argument; B"two words"] None None false.
Example toy_batch_start :
  start_process (fun dir name => name) (fun _ => true) Ok (Ok (B"C:\cmd.exe")) (toy_batch (B"C:\dir\")) =
    Ok (B"C:\cmd.exe", quoted_text (B"~C:\cmd.exe~ /d /s /v:off /c ~~C:\my tools\run.CMD~ ~C:\dir\\~ ~two words~~")) /\
  start_process (fun dir name => name) (fun _ => true) Ok (Ok (B"C:\cmd.exe")) (toy_batch (B"%PATH%")) =
    Err (B"batch application paths and arguments must not contain double quotes or percent signs").
Proof. split; vm_compute; reflexivity. Qed.

Definition toy_host : RemoteHostInfo := {|
  hi_os := B"linux"; hi_arch := B"x86_64"; hi_shell := B"/bin/sh"; hi_home := B"/home/dev"; hi_local_app_data := None;
  hi_path_style := Posix; hi_target := B"x86_64-unknown-linux-musl" |}.
Lemma posix_launch_words_witness :
  exists plan,
    agent_subcommand_plan (Ssh {| ssh_program := B"ssh"; ssh_target := B"dev@host"; ssh_connect_timeout_seconds := 10 |})
      (B"nrm-agent") (B"/srv/it's; $HOME") toy_host [B"serve"] = Ok plan /\
    runs_remotely {| ssh_program := B"ssh"; ssh_target := B"dev@host"; ssh_connect_timeout_seconds := 10 |} plan
      [B"sh"; B"-c"; launch_script; B"nrm-agent-launch"; B"nrm-agent"; B"/srv/it's; $HOME"; B"1"; B"serve"].
Proof.
  apply (posix_launch_words (B"dev@host") (B"nrm-agent") (B"/srv/it's; $HOME") (B"clangd") 10 _ toy_host [B"serve"] []);
    reflexivity.
Defined.
