(* ===== verification/RuntimeRecords.v ===== *)
(** * Private runtime records (nrm-sidecar/src/runtime_proxy.rs)

    Four directories of small files that only the owner may touch: tickets, results and signals, one
    file each, and the trust store.  A directory changes only under its lock file, so an operation
    meets no other process's changes between its lock and its end; every system call may fail, and
    the time of day, the monotonic clock, the order of a directory's entries and the random bytes are
    whatever the host says.  Paths and numbers in messages are left out. *)
From stdpp Require Import sorting.
From S2P Require Import Prelude.

(** [Duration], in nanoseconds *)
Definition from_secs (n : Z) : Z := n * 1000000000.
Definition from_millis (n : Z) : Z := n * 1000000.
Definition as_millis (d : Z) : Z := d / 1000000.

Definition RUNTIME_RECORD_LOCK_FILE : bytes := B".records.lock".
Definition TICKET_ID_BYTES : Z := 32.
Definition TICKET_ID_HEX_LEN : Z := TICKET_ID_BYTES * 2.
Definition MAX_TICKET_CREATE_ATTEMPTS : nat := 16.
Definition TICKET_ORPHAN_MAX_AGE : Z := from_secs (5 * 60).
Definition MAX_RUNTIME_RECORD_ENTRIES : Z := 4096.
Definition MAX_RUNTIME_RECORD_SCAN_ENTRIES : Z := MAX_RUNTIME_RECORD_ENTRIES + 1024.
Definition MAX_RUNTIME_RECORD_TOTAL_BYTES : Z := 64 * 1024 * 1024.
Definition RUNTIME_CONTROL_LOCK_TIMEOUT : Z := from_secs 5.
Definition RUNTIME_CONTROL_LOCK_POLL : Z := from_millis 5.

(** ** Files *)

Inductive entry_kind := Regular | Symlink | OtherNode.
#[export] Instance entry_kind_eq_dec : EqDecision entry_kind.
Proof. solve_decision. Defined.
Record entry := {
  e_kind : entry_kind; e_nlink : Z; e_uid : Z; e_mode : Z; e_data : bytes; e_modified : option Z }.
Abbreviation directory := (gmap bytes entry).
Inductive place := RuntimeDir | TicketsDir | ResultsDir | ControlDir.
#[export] Instance place_eq_dec : EqDecision place.
Proof. solve_decision. Defined.

Inductive io_kind := NotFound | AlreadyExists | OtherKind.
#[export] Instance io_kind_eq_dec : EqDecision io_kind.
Proof. solve_decision. Defined.

(** How a call ends: [o_fail] a failure, [o_amount] what a failed write still wrote, [o_blocked]
    whether somebody else holds the lock, [o_now] the time of day in nanoseconds since the epoch, [o_delay] the time
    the call takes, [o_order] the order in which a directory lists its names. *)
Record outcome := {
  o_fail : option io_kind; o_amount : nat; o_blocked : bool; o_now : Z; o_delay : nat; o_order : list bytes -> list bytes }.

(** A call that finds its file does not report it missing, one that may create it does not report
    it present, and a listing is a listing. *)
Class Host := {
  outcome_of : nat -> outcome;
  random_of : nat -> Z -> option bytes;
  effective_uid : Z;
  umask : Z;
  fail_is_real i : o_fail (outcome_of i) <> Some NotFound /\ o_fail (outcome_of i) <> Some AlreadyExists;
  order_lists i names : o_order (outcome_of i) names ≡ₚ names;
  random_length i n bs : random_of i n = Some bs -> zlen bs = n }.

Record world := { dir_of : place -> directory; calls : nat; randoms : nat; instant : Z }.

(** An error of the crate anyhow: a text, or a text and the kind of the system error under it. *)
Inductive failure := Bail (message : bytes) | IoError (context : bytes) (kind : io_kind).
Inductive stop := Failed (e : failure) | Spin.

(** ** Effects *)

Definition R (A : Type) : Type := world -> result stop A * world.
#[export] Instance R_ret : MRet R := fun A a w => (Ok a, w).
#[export] Instance R_bind : MBind R := fun A B k m w =>
  match m w with
  | (Ok a, w) => k a w
  | (Err e, w) => (Err e, w)
  end.
Definition throw {A} (e : failure) : R A := fun w => (Err (Failed e), w).
Definition bail {A} (message : bytes) : R A := throw (Bail message).
Definition spin {A} : R A := fun w => (Err Spin, w).
(** A [Result] the code looks at. *)
Definition attempt {A} (m : R A) : R (result failure A) := fun w =>
  match m w with
  | (Ok a, w) => (Ok (Ok a), w)
  | (Err (Failed e), w) => (Ok (Err e), w)
  | (Err Spin, w) => (Err Spin, w)
  end.
Definition lift {A} (r : result failure A) : R A := match r with Ok a => mret a | Err e => throw e end.
Definition bail_if (c : bool) (message : bytes) : R unit := if c then bail message else mret ().
(** [r.context(..)?] of a system call *)
Definition io_context {A} (text : bytes) (r : result io_kind A) : R A := lift (map_err (IoError text) r).
Definition checked_text {A} (r : result bytes A) : R A := lift (map_err Bail r).

Definition set_dir (p : place) (d : directory) (w : world) : world := {|
  dir_of := fun q => if decide (q = p) then d else dir_of w q;
  calls := calls w; randoms := randoms w; instant := instant w |}.
Definition tick (o : outcome) (w : world) : world := {|
  dir_of := dir_of w; calls := S (calls w); randoms := randoms w; instant := instant w + Z.of_nat (o_delay o) |}.

Section Calls.
Context `{Host}.

(** A call on a directory: what it does when it works, and what a failed one leaves. *)
Definition io_partial {A} (p : place) (f : outcome -> directory -> result io_kind A * directory)
    (partial : outcome -> directory -> directory) : R (result io_kind A) := fun w =>
  let o := outcome_of (calls w) in
  match o_fail o with
  | Some kind => (Ok (Err kind), set_dir p (partial o (dir_of w p)) (tick o w))
  | None => let '(r, d) := f o (dir_of w p) in (Ok r, set_dir p d (tick o w))
  end.
Definition io {A} (p : place) (f : outcome -> directory -> result io_kind A * directory) : R (result io_kind A) :=
  io_partial p f (fun _ d => d).
(** A call that changes nothing here: metadata of a handle, synchronisation *)
Definition handle_call : R (result io_kind unit) := io RuntimeDir (fun _ d => (Ok (), d)).

(** [SystemTime::now()] and [Instant::now()] do not fail. *)
Definition time_of_day : R Z := fun w =>
  let o := outcome_of (calls w) in (Ok (o_now o), tick o w).
Definition instant_now : R Z := fun w =>
  let o := outcome_of (calls w) in (Ok (instant w + Z.of_nat (o_delay o)), tick o w).
Definition sleep (duration : Z) : R unit := fun w =>
  (Ok (), {| dir_of := dir_of w; calls := calls w; randoms := randoms w; instant := instant w + duration |}).

(** [Duration::as_millis] of the time since the epoch, as a [u64] *)
Definition unix_time_ms : R Z :=
  now ← time_of_day;
  _ ← bail_if (now <? 0) (B"system clock is before the Unix epoch");
  _ ← bail_if (as_millis now >? u64_max) (B"system clock does not fit runtime ticket timestamp");
  mret (as_millis now).

(** [{byte:02x}] of each random byte *)
Definition random_hex_id (byte_length : Z) : R bytes := fun w =>
  let w' := {| dir_of := dir_of w; calls := calls w; randoms := S (randoms w); instant := instant w |} in
  match random_of (randoms w) byte_length with
  | None => (Err (Failed (IoError (B"failed to obtain randomness for runtime record") OtherKind)), w')
  | Some random => (Ok (random ≫= hex_byte), w')
  end.

(** ** Private files *)

Definition new_entry (o : outcome) : entry := {|
  e_kind := Regular; e_nlink := 1; e_uid := effective_uid; e_mode := Z.land 384 (Z.lnot umask); e_data := [];
  e_modified := Some (o_now o) |}.
(** [create_new] with mode 0600 *)
Definition create_private_ticket_file (p : place) (name : bytes) : R (result io_kind entry) :=
  io p (fun o d =>
    match d !! name with
    | Some _ => (Err AlreadyExists, d)
    | None => (Ok (new_entry o), <[name := new_entry o]> d)
    end).
(** An open file is read as it was when it was opened: nobody writes to a published record. *)
Definition open_private_ticket_file (p : place) (name : bytes) : R (result io_kind entry) :=
  io p (fun _ d =>
    match d !! name with
    | None => (Err NotFound, d)
    | Some e => (if bool_decide (e_kind e = Symlink) then Err OtherKind else Ok e, d)
    end).
Definition remove_file (p : place) (name : bytes) : R (result io_kind unit) :=
  io p (fun _ d =>
    match d !! name with
    | None => (Err NotFound, d)
    | Some e => if bool_decide (e_kind e = OtherNode) then (Err OtherKind, d) else (Ok (), delete name d)
    end).
Definition remove_open_ticket_file (p : place) (name : bytes) : R (result io_kind unit) := remove_file p name.

Definition written (content : bytes) (o : outcome) (e : entry) : entry := {|
  e_kind := e_kind e; e_nlink := e_nlink e; e_uid := e_uid e; e_mode := e_mode e; e_data := content;
  e_modified := Some (o_now o) |}.
(** [file.write_all] to a new file: a failed one may have written a part. *)
Definition write_all (p : place) (name content : bytes) : R (result io_kind unit) :=
  io_partial p (fun o d => (Ok (), alter (written content o) name d))
    (fun o d => alter (written (take (o_amount o) content) o) name d).
Definition file_sync_all : R (result io_kind unit) := handle_call.
(** [File::open(parent)?.sync_all()?] *)
Definition sync_parent_dir : R unit :=
  opened ← handle_call; _ ← io_context (B"failed to sync directory") opened;
  synced ← handle_call; io_context (B"failed to sync directory") synced.

(** [file.take(limit).read_to_end] *)
Definition read_at_most (limit : Z) (file : entry) (text : bytes) : R bytes :=
  r ← handle_call; _ ← io_context text r;
  mret (take (Z.to_nat limit) (e_data file)).

Definition validate_private_ticket_file (file : entry) : R unit :=
  metadata ← handle_call;
  _ ← io_context (B"failed to inspect runtime ticket") metadata;
  _ ← bail_if (negb (bool_decide (e_kind file = Regular)) || negb (e_nlink file =? 1))
        (B"runtime ticket must be a regular, singly-linked file");
  _ ← bail_if (negb (e_uid file =? effective_uid)) (B"runtime ticket must be owned by the current uid");
  let mode := Z.land (e_mode file) 4095 in
  bail_if (negb (mode =? 384)) (B"runtime ticket must have mode 0600").

(** The directories exist and are private, or the call fails. *)
Definition ensure_private_ticket_directory (p : place) : R unit :=
  r ← handle_call; io_context (B"failed to prepare private runtime ticket directory") r.

(** ** Locks *)

Definition open_private_runtime_lock (p : place) (name : bytes) : R (result io_kind entry) := open_private_ticket_file p name.

(** The lock file is opened, and made when it is not there. *)
Fixpoint open_lock (fuel : nat) (p : place) (file_name : bytes) : R entry :=
  match fuel with
  | O => spin
  | S fuel =>
      opened ← open_private_runtime_lock p file_name;
      match opened with
      | Ok file => mret file
      | Err NotFound =>
          created ← create_private_ticket_file p file_name;
          match created with
          | Ok file => _ ← validate_private_ticket_file file; open_lock fuel p file_name
          | Err AlreadyExists => open_lock fuel p file_name
          | Err kind => throw (IoError (B"failed to create private lock") kind)
          end
      | Err kind => throw (IoError (B"failed to open private lock") kind)
      end
  end.
(** [fs4::FileExt::try_lock] until it is held or the time is over *)
Definition try_lock : R (result io_kind bool) := io RuntimeDir (fun o d => (Ok (negb (o_blocked o)), d)).
Fixpoint lock_loop (fuel : nat) (deadline : Z) : R unit :=
  match fuel with
  | O => spin
  | S fuel =>
      r ← try_lock;
      match r with
      | Ok true => mret ()
      | Ok false =>
          now ← instant_now;
          if now <? deadline then _ ← sleep RUNTIME_CONTROL_LOCK_POLL; lock_loop fuel deadline
          else bail (B"private lock timed out after 5000 ms")
      | Err kind => throw (IoError (B"failed to lock private") kind)
      end
  end.
(** The file is made at most once, and a wait of 5 ms repeats at most 1001 times before the
    deadline of 5 s. *)
Definition acquire_private_runtime_lock (p : place) (file_name : bytes) : R unit :=
  file ← open_lock 3 p file_name;
  _ ← validate_private_ticket_file file;
  now ← instant_now;
  _ ← lock_loop 1002 (now + RUNTIME_CONTROL_LOCK_TIMEOUT);
  validate_private_ticket_file file.
Definition acquire_runtime_record_lock (p : place) : R unit := acquire_private_runtime_lock p RUNTIME_RECORD_LOCK_FILE.

(** ** Listings *)

Record RuntimeStateEntry := { se_name : bytes; se_size : Z; se_modified : option Z }.
Record RuntimeStateUsage := { us_entries : Z; us_bytes : Z }.
Record RuntimeStateScan := { sc_entries : list RuntimeStateEntry; sc_overflow : bool }.

Definition read_dir (p : place) (text : bytes) : R (list bytes) :=
  r ← io p (fun o d => (Ok (o_order o (map_to_list d).*1), d)); io_context text r.
Definition symlink_metadata (p : place) (name : bytes) : R (result io_kind entry) :=
  io p (fun _ d => (ok_or (d !! name) NotFound, d)).
Definition state_entry (name : bytes) (e : entry) : RuntimeStateEntry := {|
  se_name := name; se_size := zlen (e_data e); se_modified := e_modified e |}.

(** The loops of the scans: entries that [wanted] does not want are passed over. *)
Fixpoint scan_loop (p : place) (wanted : bytes -> bool) (maximum : Z) (names : list bytes)
    (found : list RuntimeStateEntry) : R RuntimeStateScan :=
  match names with
  | [] => mret {| sc_entries := found; sc_overflow := false |}
  | name :: names =>
      r ← handle_call;
      _ ← io_context (B"failed to inspect runtime directory entry") r;
      if negb (wanted name) then scan_loop p wanted maximum names found
      else if zlen found =? maximum then mret {| sc_entries := found; sc_overflow := true |}
      else
        metadata ← symlink_metadata p name;
        match metadata with
        | Ok e => scan_loop p wanted maximum names (found ++ [state_entry name e])
        | Err NotFound => scan_loop p wanted maximum names found
        | Err kind => throw (IoError (B"failed to inspect runtime state record") kind)
        end
  end.
(** [left.path.cmp(&right.path)]: the paths differ in their last component. *)
Definition name_le (left right : RuntimeStateEntry) : Prop :=
  bytes_compare (se_name left) (se_name right) <> Gt.
#[export] Instance name_le_dec left right : Decision (name_le left right).
Proof. unfold name_le. apply _. Defined.
Definition scan_directory (p : place) (wanted : bytes -> bool) (maximum : Z) : R RuntimeStateScan :=
  names ← read_dir p (B"failed to inspect private runtime directory");
  scan ← scan_loop p wanted maximum names [];
  mret {| sc_entries := merge_sort name_le (sc_entries scan); sc_overflow := sc_overflow scan |}.
Definition is_record_name (name : bytes) : bool := negb (bytes_eqb name RUNTIME_RECORD_LOCK_FILE).
Definition scan_runtime_record_directory (p : place) (maximum : Z) : R RuntimeStateScan :=
  scan_directory p is_record_name maximum.

Definition runtime_state_usage (entries : list RuntimeStateEntry) : result failure RuntimeStateUsage :=
  try_fold (fun usage entry =>
      count ← ok_or (checked_add (us_entries usage) 1) (Bail (B"runtime state entry count overflow"));
      total ← ok_or (checked_add (us_bytes usage) (se_size entry)) (Bail (B"runtime state byte count overflow"));
      Ok {| us_entries := count; us_bytes := total |})
    {| us_entries := 0; us_bytes := 0 |} entries.

Definition ensure_runtime_state_capacity (usage : RuntimeStateUsage) (additional_bytes maximum_entries maximum_bytes : Z) :
    result failure unit :=
  projected_entries ← ok_or (checked_add (us_entries usage) 1) (Bail (B"entry count overflow"));
  _ ← fail_if (projected_entries >? maximum_entries) (Bail (B"reached its entry limit"));
  projected_bytes ← ok_or (checked_add (us_bytes usage) additional_bytes) (Bail (B"byte count overflow"));
  fail_if (projected_bytes >? maximum_bytes) (Bail (B"reached its byte limit")).

(** ** Records *)

Definition validate_hex (length : Z) (text : bytes) : bool := (zlen text =? length) && forallb is_lower_hex text.
Definition validate_ticket_id (ticket_id : bytes) : result failure unit :=
  fail_if (negb (validate_hex TICKET_ID_HEX_LEN ticket_id))
    (Bail (B"runtime ticket ID must be 64 lowercase hexadecimal characters")).
Definition strip_suffix (suffix s : bytes) : option bytes :=
  if ends_with suffix s then Some (take (length s - length suffix) s) else None.
Definition runtime_record_id (name : bytes) : option bytes :=
  id ← strip_suffix (B".json") name;
  if is_ok (validate_ticket_id id) then Some id else None.
Definition record_name (id : bytes) : bytes := id ++ B".json".

(** Removal of one orphan; [true] when a file is gone. *)
Definition remove_orphan (p : place) (name : bytes) : R bool :=
  opened ← open_private_ticket_file p name;
  match opened with
  | Err NotFound => mret false
  | Err kind => throw (IoError (B"failed to open orphan runtime record") kind)
  | Ok file =>
      _ ← validate_private_ticket_file file;
      removed ← remove_open_ticket_file p name;
      _ ← io_context (B"failed to remove orphan runtime record") removed;
      mret true
  end.
(** [modified.and_then(|modified| now.duration_since(modified).ok())] *)
Definition age_at (now : Z) (modified : option Z) : option Z :=
  modified ← modified; if modified <=? now then Some (now - modified) else None.
Definition is_orphan (now orphan_age : Z) (modified : option Z) : bool :=
  from_option (fun age => age >=? orphan_age) false (age_at now modified).
Fixpoint cleanup_loop (p : place) (excluded_id : option bytes) (orphan_age now : Z) (entries : list RuntimeStateEntry)
    (removed : bool) : R bool :=
  match entries with
  | [] => mret removed
  | entry :: entries =>
      match runtime_record_id (se_name entry) with
      | None => cleanup_loop p excluded_id orphan_age now entries removed
      | Some id =>
          if bool_decide (excluded_id = Some id) || negb (is_orphan now orphan_age (se_modified entry))
          then cleanup_loop p excluded_id orphan_age now entries removed
          else
            gone ← remove_orphan p (se_name entry);
            cleanup_loop p excluded_id orphan_age now entries (removed || gone)
      end
  end.
Definition cleanup_orphan_runtime_records_with_policy (p : place) (excluded_id : option bytes) (orphan_age scan_limit : Z) :
    R RuntimeStateUsage :=
  _ ← bail_if (scan_limit =? 0) (B"runtime record cleanup scan limit must be positive");
  scan ← scan_runtime_record_directory p scan_limit;
  now ← time_of_day;
  removed ← cleanup_loop p excluded_id orphan_age now (sc_entries scan) false;
  _ ← (if removed : bool then sync_parent_dir else mret ());
  _ ← bail_if (sc_overflow scan) (B"runtime record cleanup exceeded its batch limit; retry");
  remaining ← scan_runtime_record_directory p scan_limit;
  _ ← bail_if (sc_overflow remaining) (B"runtime record directory exceeds its scan limit");
  lift (runtime_state_usage (sc_entries remaining)).
Definition prepare_runtime_record_publication (p : place) (excluded_id : option bytes) (additional_bytes : Z) : R unit :=
  usage ← cleanup_orphan_runtime_records_with_policy p excluded_id TICKET_ORPHAN_MAX_AGE MAX_RUNTIME_RECORD_SCAN_ENTRIES;
  lift (ensure_runtime_state_capacity usage additional_bytes MAX_RUNTIME_RECORD_ENTRIES MAX_RUNTIME_RECORD_TOTAL_BYTES).

Definition runtime_record_usage (p : place) : R RuntimeStateUsage :=
  scan ← scan_runtime_record_directory p MAX_RUNTIME_RECORD_SCAN_ENTRIES;
  _ ← bail_if (sc_overflow scan) (B"runtime record directory exceeds its scan limit");
  usage ← lift (runtime_state_usage (sc_entries scan));
  _ ← bail_if (us_entries usage >? MAX_RUNTIME_RECORD_ENTRIES) (B"runtime record directory exceeds its entry limit");
  _ ← bail_if (us_bytes usage >? MAX_RUNTIME_RECORD_TOTAL_BYTES) (B"runtime record directory exceeds its byte limit");
  mret usage.
Definition validate_runtime_record_publication (p : place) : R unit := _ ← runtime_record_usage p; mret ().

Definition remove_new_runtime_record (p : place) (name : bytes) : R unit :=
  opened ← open_private_ticket_file p name;
  match opened with
  | Ok file =>
      valid ← attempt (validate_private_ticket_file file);
      match valid with
      | Ok _ => _ ← remove_open_ticket_file p name; mret ()
      | Err _ => mret ()
      end
  | Err _ => mret ()
  end.

Definition take_runtime_record (p : place) (name : bytes) : R entry :=
  _ ← acquire_runtime_record_lock p;
  opened ← open_private_ticket_file p name;
  file ← io_context (B"failed to open runtime record") opened;
  _ ← validate_private_ticket_file file;
  removed ← remove_open_ticket_file p name;
  _ ← io_context (B"failed to consume runtime record") removed;
  _ ← sync_parent_dir;
  mret file.
End Calls.
