(* ===== verification/RuntimeControl.v ===== *)
(** * The signal mailbox of a runtime bridge (nrm-sidecar/src/runtime_proxy.rs)

    A signal for a running bridge is a file named after its ticket in the control directory:
    published whole under the mailbox lock, read and removed by the bridge. *)
From stdpp Require Import sorting.
From S2P Require Import Prelude RuntimeMessages RuntimeRecords.

Definition RUNTIME_CONTROL_SCHEMA_VERSION : Z := 1.
Definition RUNTIME_CONTROL_NONCE_BYTES : Z := 16.
Definition MAX_RUNTIME_CONTROL_BYTES : Z := 4 * 1024.
Definition MAX_RUNTIME_CONTROL_ENTRIES : Z := 4096.
Definition MAX_RUNTIME_CONTROL_SCAN_ENTRIES : Z := MAX_RUNTIME_CONTROL_ENTRIES + 1024.
Definition RUNTIME_CONTROL_MAX_AGE : Z := from_secs (5 * 60).
Definition RUNTIME_CONTROL_LOCK_FILE : bytes := B".mailbox.lock".
Definition TICKET_CLOCK_SKEW : Z := from_secs 5.

#[export] Instance runtime_signal_eq_dec : EqDecision RuntimeSignal.
Proof. solve_decision. Defined.
Record RuntimeControlMessage := {
  cm_schema_version : Z; cm_ticket_id : bytes; cm_issued_at_unix_ms : Z; cm_signal : RuntimeSignal }.

(** JSON of a message: what is written is read back, and nothing shorter is a document. *)
Class ControlCodec := {
  control_to_vec : RuntimeControlMessage -> bytes;
  control_from_slice : bytes -> option RuntimeControlMessage;
  control_roundtrip m : control_from_slice (control_to_vec m) = Some m;
  control_prefix m n : (n < length (control_to_vec m))%nat -> control_from_slice (take n (control_to_vec m)) = None }.

(** ** Names *)

(** [stem.split_once('-')] *)
Fixpoint split_once (c : byte) (s : bytes) : option (bytes * bytes) :=
  match s with
  | [] => None
  | b :: rest => if byte_eqb b c then Some ([], rest)
                 else '(before, after) ← split_once c rest; Some (b :: before, after)
  end.
Definition control_file_ids (name : bytes) : option (bytes * bytes) :=
  stem ← strip_suffix (B".json") name;
  '(ticket_id, nonce) ← split_once "-" stem;
  if negb (is_ok (validate_ticket_id ticket_id)) || negb (validate_hex (RUNTIME_CONTROL_NONCE_BYTES * 2) nonce) then None
  else Some (ticket_id, nonce).
Definition is_pending_control_file (name : bytes) : bool :=
  match strip_prefix (B".pending-") name ≫= strip_suffix (B".tmp") with
  | Some nonce => validate_hex (RUNTIME_CONTROL_NONCE_BYTES * 2) nonce
  | None => false
  end.
Definition control_name (ticket_id nonce : bytes) : bytes := ticket_id ++ B"-" ++ nonce ++ B".json".
Definition pending_name (nonce : bytes) : bytes := B".pending-" ++ nonce ++ B".tmp".

Section Mailbox.
Context `{Host} `{ControlCodec}.

Definition acquire_runtime_control_lock : R unit := acquire_private_runtime_lock ControlDir RUNTIME_CONTROL_LOCK_FILE.

(** ** Listing and cleanup *)

Fixpoint control_paths_loop (maximum : Z) (names found : list bytes) : R (list bytes) :=
  match names with
  | [] => mret found
  | name :: names =>
      r ← handle_call;
      _ ← io_context (B"failed to inspect runtime control directory entry") r;
      if bytes_eqb name RUNTIME_CONTROL_LOCK_FILE then control_paths_loop maximum names found
      else if zlen found =? maximum then bail (B"runtime control directory exceeds its entry limit")
      else control_paths_loop maximum names (found ++ [name])
  end.
Definition bytes_le (left right : bytes) : Prop := bytes_compare left right <> Gt.
#[export] Instance bytes_le_dec left right : Decision (bytes_le left right).
Proof. unfold bytes_le. apply _. Defined.
Definition bounded_control_paths_at_limit (maximum : Z) : R (list bytes) :=
  names ← read_dir ControlDir (B"failed to inspect private runtime control directory");
  paths ← control_paths_loop maximum names [];
  mret (merge_sort bytes_le paths).
Definition bounded_control_paths : R (list bytes) := bounded_control_paths_at_limit MAX_RUNTIME_CONTROL_ENTRIES.

(** A file that may have gone is removed, or it was not there. *)
Definition remove_control_file (name text : bytes) : R unit :=
  opened ← open_private_ticket_file ControlDir name;
  match opened with
  | Ok file =>
      _ ← validate_private_ticket_file file;
      removed ← remove_open_ticket_file ControlDir name;
      _ ← io_context text removed;
      sync_parent_dir
  | Err NotFound => mret ()
  | Err kind => throw (IoError text kind)
  end.
Fixpoint cleanup_control_loop (names : list bytes) : R unit :=
  match names with
  | [] => mret ()
  | name :: names =>
      if negb (bool_decide (is_Some (control_file_ids name))) && negb (is_pending_control_file name)
      then cleanup_control_loop names
      else
        metadata ← symlink_metadata ControlDir name;
        match metadata with
        | Err NotFound => cleanup_control_loop names
        | Err kind => throw (IoError (B"failed to inspect orphan runtime signal") kind)
        | Ok e =>
            now ← time_of_day;
            _ ← (if from_option (fun age => age >? RUNTIME_CONTROL_MAX_AGE) false (age_at now (e_modified e))
                 then remove_control_file name (B"failed to open orphan runtime signal") else mret ());
            cleanup_control_loop names
        end
  end.
Definition cleanup_orphan_control_files : R unit :=
  names ← bounded_control_paths_at_limit MAX_RUNTIME_CONTROL_SCAN_ENTRIES;
  cleanup_control_loop names.

(** ** Sending a signal *)

Definition signal_of_name (signal : bytes) : option RuntimeSignal :=
  if bytes_eqb signal (B"interrupt") then Some Interrupt
  else if bytes_eqb signal (B"terminate") then Some Terminate
  else if bytes_eqb signal (B"kill") then Some Kill
  else if bytes_eqb signal (B"hangup") then Some Hangup
  else None.

(** [renameat2] with [RENAME_NOREPLACE] *)
Definition publish_private_record_noreplace (p : place) (source destination : bytes) : R (result io_kind unit) :=
  io p (fun _ d =>
    match d !! source, d !! destination with
    | None, _ => (Err NotFound, d)
    | Some _, Some _ => (Err AlreadyExists, d)
    | Some e, None => (Ok (), <[destination := e]> (delete source d))
    end).

Definition write_new_file (p : place) (name content : bytes) (file : entry) (write_text sync_text : bytes) : R unit :=
  _ ← validate_private_ticket_file file;
  r ← write_all p name content; _ ← io_context write_text r;
  r ← file_sync_all; io_context sync_text r.

Fixpoint publish_signal_loop (attempts : nat) (ticket_id content : bytes) : R unit :=
  match attempts with
  | O => bail (B"failed to allocate a unique runtime signal record")
  | S attempts =>
      nonce ← random_hex_id RUNTIME_CONTROL_NONCE_BYTES;
      let path := control_name ticket_id nonce in
      pending_nonce ← random_hex_id RUNTIME_CONTROL_NONCE_BYTES;
      let pending_path := pending_name pending_nonce in
      created ← create_private_ticket_file ControlDir pending_path;
      match created with
      | Ok file =>
          write_result ← attempt (write_new_file ControlDir pending_path content file
                                    (B"failed to write runtime signal") (B"failed to sync runtime signal"));
          match write_result with
          | Err error => _ ← remove_file ControlDir pending_path; throw error
          | Ok _ =>
              published ← publish_private_record_noreplace ControlDir pending_path path;
              match published with
              | Ok _ => sync_parent_dir
              | Err kind =>
                  _ ← remove_file ControlDir pending_path;
                  if bool_decide (kind = AlreadyExists) then publish_signal_loop attempts ticket_id content
                  else throw (IoError (B"failed to publish runtime signal") kind)
              end
          end
      | Err AlreadyExists => publish_signal_loop attempts ticket_id content
      | Err kind => throw (IoError (B"failed to create pending runtime signal") kind)
      end
  end.
Definition enqueue_signal (ticket_id signal : bytes) : R unit :=
  signal ← lift (ok_or (signal_of_name signal) (Bail (B"runtime signal must be interrupt, terminate, kill, or hangup")));
  _ ← lift (validate_ticket_id ticket_id);
  _ ← ensure_private_ticket_directory ControlDir;
  _ ← acquire_runtime_control_lock;
  _ ← cleanup_orphan_control_files;
  paths ← bounded_control_paths;
  _ ← bail_if (zlen paths >=? MAX_RUNTIME_CONTROL_ENTRIES) (B"runtime control directory reached its 4096-entry limit");
  now ← unix_time_ms;
  let content := control_to_vec {| cm_schema_version := RUNTIME_CONTROL_SCHEMA_VERSION; cm_ticket_id := ticket_id;
                                   cm_issued_at_unix_ms := now; cm_signal := signal |} in
  _ ← bail_if (zlen content >? MAX_RUNTIME_CONTROL_BYTES) (B"runtime signal exceeds its file limit");
  publish_signal_loop MAX_TICKET_CREATE_ATTEMPTS ticket_id content.

(** ** The bridge's side *)

Definition mailbox_open (ticket_id : bytes) : R unit :=
  _ ← lift (validate_ticket_id ticket_id);
  _ ← ensure_private_ticket_directory ControlDir;
  _ ← acquire_runtime_control_lock;
  _ ← cleanup_orphan_control_files;
  _ ← bounded_control_paths;
  mret ().
Definition is_for (ticket_id name : bytes) : bool :=
  match control_file_ids name with Some (id, _) => bytes_eqb id ticket_id | None => false end.
Definition matching_paths (ticket_id : bytes) : R (list bytes) :=
  paths ← bounded_control_paths; mret (List.filter (is_for ticket_id) paths).

(** One signal file, taken and decoded: [None] for a file that has gone or a message that is too old. *)
Definition drain_one (ticket_id : bytes) (now allowed_future : Z) (name : bytes) :
    R (option (Z * bytes * RuntimeSignal)) :=
  opened ← open_private_ticket_file ControlDir name;
  match opened with
  | Err NotFound => mret None
  | Err kind => throw (IoError (B"failed to open runtime signal") kind)
  | Ok file =>
      _ ← validate_private_ticket_file file;
      removed ← remove_open_ticket_file ControlDir name;
      _ ← io_context (B"failed to remove runtime signal") removed;
      _ ← sync_parent_dir;
      content ← read_at_most (MAX_RUNTIME_CONTROL_BYTES + 1) file (B"failed to read runtime signal");
      _ ← bail_if (zlen content >? MAX_RUNTIME_CONTROL_BYTES) (B"runtime signal exceeds its file limit");
      message ← lift (ok_or (control_from_slice content) (Bail (B"runtime signal is not strict JSON")));
      _ ← bail_if (negb (cm_schema_version message =? RUNTIME_CONTROL_SCHEMA_VERSION) ||
                   negb (bytes_eqb (cm_ticket_id message) ticket_id)) (B"runtime signal binding is invalid");
      _ ← bail_if (cm_issued_at_unix_ms message >? allowed_future) (B"runtime signal issue time is in the future");
      if saturating_sub now (cm_issued_at_unix_ms message) <=? as_millis RUNTIME_CONTROL_MAX_AGE
      then mret (Some (cm_issued_at_unix_ms message, name, cm_signal message))
      else mret None
  end.
Fixpoint drain_loop (ticket_id : bytes) (now allowed_future : Z) (names : list bytes)
    (messages : list (Z * bytes * RuntimeSignal)) : R (list (Z * bytes * RuntimeSignal)) :=
  match names with
  | [] => mret messages
  | name :: names =>
      message ← drain_one ticket_id now allowed_future name;
      drain_loop ticket_id now allowed_future names (messages ++ option_list message)
  end.
(** By issue time, then by path *)
Definition issued_le (left right : Z * bytes * RuntimeSignal) : Prop :=
  left.1.1 < right.1.1 \/ (left.1.1 = right.1.1 /\ bytes_le left.1.2 right.1.2).
#[export] Instance issued_le_dec left right : Decision (issued_le left right).
Proof. unfold issued_le. apply _. Defined.
Definition drain (ticket_id : bytes) : R (list RuntimeSignal) :=
  _ ← acquire_runtime_control_lock;
  now ← unix_time_ms;
  let allowed_future := saturating_add now (as_millis TICKET_CLOCK_SKEW) in
  names ← matching_paths ticket_id;
  messages ← drain_loop ticket_id now allowed_future names [];
  mret (merge_sort issued_le messages).*2.

Fixpoint discard_loop (names : list bytes) : R unit :=
  match names with
  | [] => mret ()
  | name :: names => _ ← remove_control_file name (B"failed to discard runtime signal"); discard_loop names
  end.
Definition discard (ticket_id : bytes) : R unit :=
  _ ← acquire_runtime_control_lock;
  names ← matching_paths ticket_id;
  discard_loop names.
End Mailbox.
