(* ===== verification/RuntimeTickets.v ===== *)
(** * Runtime tickets and results (nrm-sidecar/src/runtime_proxy.rs, as built for Unix)

    A ticket is the permission to run one process on one workspace: written to a private file under
    a random name, valid for thirty seconds, and removed before it is read.  A result goes the other
    way. *)
From S2P Require Import Prelude Protocol RuntimeMessages RuntimeMachine LspProxy RemoteHost RuntimeRecords RuntimeControl.

Definition TICKET_SCHEMA_VERSION : Z := 1.
Definition MAX_TICKET_BYTES : Z := 256 * 1024.
Definition MAX_TICKET_FILE_BYTES : Z := 384 * 1024.
Definition TICKET_TTL : Z := from_secs 30.
Definition MAX_RUNTIME_TIMEOUT_MS : Z := 24 * 60 * 60 * 1000.
Definition MAX_SSH_CONNECT_TIMEOUT_SECONDS : Z := 3600.
Definition RUNTIME_TRANSPORT_EXIT_CODE : Z := 125.
Definition RUNTIME_RESULT_SCHEMA_VERSION : Z := 1.
Definition MAX_RUNTIME_RESULT_BYTES : Z := 32 * 1024.
Definition CARGO_PKG_VERSION : bytes := B"0.2.0".

(** ** Data *)

Record RuntimeTicket := {
  t_schema_version : Z; t_workspace_key : bytes; t_remote_root : bytes; t_ssh : option bytes; t_agent : bytes;
  t_ssh_connect_timeout_seconds : Z; t_request_timeout_ms : Z; t_capability : RuntimeCapability;
  t_spec : RuntimeProcessSpec; t_remote_host : option RemoteHostInfo }.
Record StoredRuntimeTicket := {
  st_schema_version : Z; st_ticket_id : bytes; st_issued_at_unix_ms : Z; st_expires_at_unix_ms : Z; st_ticket : RuntimeTicket }.
Inductive RuntimeContentProtection := PosixMode | WindowsDpapi | WindowsAcl.
#[export] Instance content_protection_eq_dec : EqDecision RuntimeContentProtection.
Proof. solve_decision. Defined.
Record RuntimeTicketEnvelope := {
  te_schema_version : Z; te_workspace_key : bytes; te_protection : RuntimeContentProtection; te_protected_payload : bytes }.
Inductive RuntimeResultKind :=
| Kind_ProcessExit | Kind_Signal | Kind_TimedOut | Kind_OutputLimit | Kind_Cancelled | Kind_Detached | Kind_RuntimeError
| Kind_TransportError.
Record RuntimeProxyResult := {
  pr_schema_version : Z; pr_exit_code : Z; pr_kind : RuntimeResultKind; pr_error_code : option bytes;
  pr_message : option bytes; pr_output_truncated : bool; pr_bridge_stderr : option bytes }.
Record RuntimeResultEnvelope := {
  re_schema_version : Z; re_protection : RuntimeContentProtection; re_protected_payload : bytes }.

(** JSON of the documents, base64, BLAKE3 and the text of a stream error: what is written is read
    back, and nothing shorter than an envelope is a document. *)
Class TicketCodec := {
  stored_to_vec : StoredRuntimeTicket -> bytes;
  stored_from_slice : bytes -> option StoredRuntimeTicket;
  envelope_to_vec : RuntimeTicketEnvelope -> bytes;
  envelope_from_slice : bytes -> option RuntimeTicketEnvelope;
  result_to_vec : RuntimeProxyResult -> bytes;
  result_from_slice : bytes -> option RuntimeProxyResult;
  result_envelope_to_vec : RuntimeResultEnvelope -> bytes;
  result_envelope_from_slice : bytes -> option RuntimeResultEnvelope;
  base64_encode : bytes -> bytes;
  base64_decode : bytes -> option bytes;
  blake3_hex : bytes -> bytes;
  state_error_text : RuntimeStateError -> bytes;
  stored_roundtrip x : stored_from_slice (stored_to_vec x) = Some x;
  envelope_roundtrip x : envelope_from_slice (envelope_to_vec x) = Some x;
  envelope_prefix x n : (n < length (envelope_to_vec x))%nat -> envelope_from_slice (take n (envelope_to_vec x)) = None;
  result_roundtrip x : result_from_slice (result_to_vec x) = Some x;
  result_envelope_roundtrip x : result_envelope_from_slice (result_envelope_to_vec x) = Some x;
  base64_roundtrip x : base64_decode (base64_encode x) = Some x }.

Section Tickets.
Context `{Host} `{ControlCodec} `{TicketCodec}.

(** ** Validation *)

Definition machine_step {A} (r : machine_result A) : checked A := map_err state_error_text r.
Definition validate_ticket (ticket : RuntimeTicket) : checked unit :=
  _ ← fail_if (negb (t_schema_version ticket =? TICKET_SCHEMA_VERSION)) (B"unsupported runtime ticket schema version");
  _ ← fail_if (negb (validate_hex 24 (t_workspace_key ticket))) (B"runtime ticket workspace key is invalid");
  _ ← fail_if ((t_ssh_connect_timeout_seconds ticket =? 0) ||
               (t_ssh_connect_timeout_seconds ticket >? MAX_SSH_CONNECT_TIMEOUT_SECONDS))
        (B"runtime ticket SSH connect timeout must be from 1 to 3600 seconds");
  _ ← fail_if ((t_request_timeout_ms ticket =? 0) || (t_request_timeout_ms ticket >? MAX_RUNTIME_TIMEOUT_MS))
        (B"runtime ticket request timeout must be from 1 to 86400000 milliseconds");
  _ ← fail_if (bool_decide (t_capability ticket = WorkspaceWatchV1))
        (B"runtime process ticket cannot request workspace-watch capability");
  transport ← from_ssh (t_ssh ticket) (t_ssh_connect_timeout_seconds ticket);
  remote_root ← normalize_remote_root transport (t_remote_root ticket);
  _ ← match transport, t_remote_host ticket with
      | Local, Some _ => Err (B"local runtime ticket must not include remote host metadata")
      | Local, None => validate_remote_agent_reference_for_style (t_agent ticket) Posix
      | Ssh _, Some host =>
          _ ← validate_remote_host_info host;
          _ ← validate_remote_root host remote_root;
          validate_remote_agent_reference (t_agent ticket) host
      | Ssh _, None => validate_unresolved_remote_agent_reference (t_agent ticket)
      end;
  _ ← fail_if (negb (bytes_eqb (t_workspace_key ticket) (workspace_key blake3_hex transport remote_root)))
        (B"runtime ticket does not belong to the requested workspace");
  let capabilities := {|
    scan := scan v1_agent; read := read v1_agent; write_cas := write_cas v1_agent; checksum := checksum v1_agent;
    grep := grep v1_agent; lsp_proxy := lsp_proxy v1_agent; batch_read := batch_read v1_agent;
    batch_validate := batch_validate v1_agent; chunked_write := chunked_write v1_agent;
    request_ids := request_ids v1_agent; cancellation := cancellation v1_agent; streaming := streaming v1_agent;
    multiplexing := multiplexing v1_agent; git := git v1_agent; runtime_process_v1 := true; runtime_pty_v1 := true;
    workspace_watch_v1 := workspace_watch_v1 v1_agent |} in
  let machine := new_machine Client capabilities in
  machine ← machine_step (observe_outbound machine (ClientHello CARGO_PKG_VERSION PROTOCOL_VERSION (t_capability ticket)));
  machine ← machine_step (observe_inbound machine (ServerHello CARGO_PKG_VERSION PROTOCOL_VERSION (t_capability ticket)));
  _ ← machine_step (observe_outbound machine (StartProcess 1 (t_spec ticket)));
  Ok ().

Definition validate_stored_ticket_at (stored : StoredRuntimeTicket) (ticket_id workspace_key : bytes) (now : Z) : checked unit :=
  _ ← fail_if (negb (st_schema_version stored =? TICKET_SCHEMA_VERSION)) (B"unsupported stored runtime ticket schema version");
  _ ← fail_if (negb (bytes_eqb (t_workspace_key (st_ticket stored)) workspace_key))
        (B"runtime ticket workspace binding does not match its envelope");
  _ ← fail_if (negb (bytes_eqb (st_ticket_id stored) ticket_id)) (B"runtime ticket ID binding does not match its file name");
  let ttl_ms := as_millis TICKET_TTL in
  _ ← fail_if ((st_expires_at_unix_ms stored <? st_issued_at_unix_ms stored) ||
               negb (st_expires_at_unix_ms stored - st_issued_at_unix_ms stored =? ttl_ms))
        (B"runtime ticket lifetime is invalid");
  let allowed_future := saturating_add now (as_millis TICKET_CLOCK_SKEW) in
  _ ← fail_if (st_issued_at_unix_ms stored >? allowed_future) (B"runtime ticket issue time is in the future");
  _ ← fail_if (now >? st_expires_at_unix_ms stored) (B"ticket_expired: runtime ticket has expired");
  validate_ticket (st_ticket stored).
Definition validate_stored_ticket (stored : StoredRuntimeTicket) (ticket_id workspace_key : bytes) : R unit :=
  now ← unix_time_ms; checked_text (validate_stored_ticket_at stored ticket_id workspace_key now).

(** ** Protection of contents, on Unix by the file's mode alone *)

Definition protect_ticket_content (content : bytes) : RuntimeContentProtection * bytes := (PosixMode, content).
Definition unprotect_ticket_content (content : bytes) (protection : RuntimeContentProtection) : checked bytes :=
  _ ← fail_if (negb (bool_decide (protection = PosixMode))) (B"runtime ticket protection does not match this platform");
  Ok content.
Definition protect_result_content (content : bytes) : RuntimeContentProtection * bytes := (PosixMode, content).
Definition unprotect_result_content (content : bytes) (protection : RuntimeContentProtection) : checked bytes :=
  _ ← fail_if (negb (bool_decide (protection = PosixMode))) (B"runtime result protection does not match this platform");
  Ok content.

(** ** Publication of a record whose content is [content] *)

(** The file is there: it is written, or taken away again. *)
Definition fill_record (p : place) (name content : bytes) (file : entry) (write_text sync_text : bytes) : R unit :=
  result ← attempt (_ ← write_new_file p name content file write_text sync_text; sync_parent_dir);
  match result with
  | Err error => _ ← remove_new_runtime_record p name; throw error
  | Ok _ =>
      valid ← attempt (validate_runtime_record_publication p);
      match valid with
      | Err error => _ ← remove_new_runtime_record p name; _ ← attempt sync_parent_dir; throw error
      | Ok _ => mret ()
      end
  end.

(** ** Tickets *)

Definition stored_ticket (id : bytes) (issued_at_unix_ms expires_at_unix_ms : Z) (ticket : RuntimeTicket) : StoredRuntimeTicket := {|
  st_schema_version := TICKET_SCHEMA_VERSION; st_ticket_id := id; st_issued_at_unix_ms := issued_at_unix_ms;
  st_expires_at_unix_ms := expires_at_unix_ms; st_ticket := ticket |}.
Definition ticket_content (stored : StoredRuntimeTicket) : bytes :=
  let '(protection, protected) := protect_ticket_content (stored_to_vec stored) in
  envelope_to_vec {| te_schema_version := TICKET_SCHEMA_VERSION; te_workspace_key := t_workspace_key (st_ticket stored);
                     te_protection := protection; te_protected_payload := base64_encode protected |}.

Fixpoint create_ticket_loop (attempts : nat) (ticket : RuntimeTicket) (issued_at_unix_ms expires_at_unix_ms : Z) : R bytes :=
  match attempts with
  | O => bail (B"failed to allocate a unique runtime ticket ID")
  | S attempts =>
      id ← random_hex_id TICKET_ID_BYTES;
      _ ← lift (validate_ticket_id id);
      let content := ticket_content (stored_ticket id issued_at_unix_ms expires_at_unix_ms ticket) in
      _ ← bail_if (zlen content >? MAX_TICKET_FILE_BYTES) (B"protected runtime ticket exceeds its 393216-byte file limit");
      _ ← prepare_runtime_record_publication TicketsDir None (zlen content);
      created ← create_private_ticket_file TicketsDir (record_name id);
      match created with
      | Ok file =>
          _ ← fill_record TicketsDir (record_name id) content file
                (B"failed to write runtime ticket") (B"failed to sync runtime ticket");
          mret id
      | Err AlreadyExists => create_ticket_loop attempts ticket issued_at_unix_ms expires_at_unix_ms
      | Err kind => throw (IoError (B"failed to create runtime ticket") kind)
      end
  end.
Definition create_ticket (ticket : RuntimeTicket) : R bytes :=
  _ ← checked_text (validate_ticket ticket);
  _ ← ensure_private_ticket_directory TicketsDir;
  _ ← acquire_runtime_record_lock TicketsDir;
  issued_at_unix_ms ← unix_time_ms;
  expires_at_unix_ms ← lift (ok_or (checked_add issued_at_unix_ms (as_millis TICKET_TTL))
                                   (Bail (B"runtime ticket expiry overflow")));
  create_ticket_loop MAX_TICKET_CREATE_ATTEMPTS ticket issued_at_unix_ms expires_at_unix_ms.

Definition consume_ticket (ticket_id : bytes) : R RuntimeTicket :=
  _ ← lift (validate_ticket_id ticket_id);
  _ ← ensure_private_ticket_directory TicketsDir;
  file ← take_runtime_record TicketsDir (record_name ticket_id);
  content ← read_at_most (MAX_TICKET_FILE_BYTES + 1) file (B"failed to read runtime ticket");
  _ ← bail_if (zlen content >? MAX_TICKET_FILE_BYTES) (B"runtime ticket exceeds its 393216-byte file limit");
  envelope ← lift (ok_or (envelope_from_slice content) (Bail (B"runtime ticket envelope is not strict JSON")));
  _ ← bail_if (negb (te_schema_version envelope =? TICKET_SCHEMA_VERSION))
        (B"unsupported runtime ticket envelope schema version");
  _ ← bail_if (negb (validate_hex 24 (te_workspace_key envelope))) (B"runtime ticket envelope workspace key is invalid");
  protected ← lift (ok_or (base64_decode (te_protected_payload envelope))
                          (Bail (B"runtime ticket envelope payload is not standard base64")));
  plaintext ← checked_text (unprotect_ticket_content protected (te_protection envelope));
  _ ← bail_if (zlen plaintext >? MAX_TICKET_BYTES) (B"runtime ticket plaintext exceeds its 262144-byte limit");
  stored ← lift (ok_or (stored_from_slice plaintext) (Bail (B"runtime ticket is not strict JSON")));
  _ ← validate_stored_ticket stored ticket_id (te_workspace_key envelope);
  mret (st_ticket stored).

Definition remove_ticket (ticket_id : bytes) : R unit :=
  _ ← ensure_private_ticket_directory TicketsDir;
  _ ← acquire_runtime_record_lock TicketsDir;
  _ ← lift (validate_ticket_id ticket_id);
  opened ← open_private_ticket_file TicketsDir (record_name ticket_id);
  file ← io_context (B"failed to open runtime ticket") opened;
  _ ← validate_private_ticket_file file;
  removed ← remove_open_ticket_file TicketsDir (record_name ticket_id);
  _ ← io_context (B"failed to remove runtime ticket") removed;
  sync_parent_dir.

(** [create_ticket_from_stdin]: the request is [input], of which [request_from_slice] makes a
    ticket, and [printed] says whether the ID could be returned. *)
Definition create_ticket_from_stdin (request_from_slice : bytes -> option RuntimeTicket) (input : bytes) (printed : bool) :
    R bytes :=
  let request := take (Z.to_nat (MAX_TICKET_BYTES + 1)) input in
  _ ← bail_if (zlen request >? MAX_TICKET_BYTES) (B"runtime ticket request exceeds its 262144-byte limit");
  ticket ← lift (ok_or (request_from_slice request) (Bail (B"runtime ticket request is not strict JSON")));
  id ← create_ticket ticket;
  if printed then mret id
  else _ ← attempt (remove_ticket id); bail (B"failed to return runtime ticket ID").

(** ** Results *)

Definition result_content (result : RuntimeProxyResult) : bytes :=
  let '(protection, protected) := protect_result_content (result_to_vec result) in
  result_envelope_to_vec {| re_schema_version := RUNTIME_RESULT_SCHEMA_VERSION; re_protection := protection;
                            re_protected_payload := base64_encode protected |}.
Definition write_runtime_result (ticket_id : bytes) (result : RuntimeProxyResult) : R unit :=
  _ ← lift (validate_ticket_id ticket_id);
  _ ← ensure_private_ticket_directory ResultsDir;
  _ ← bail_if (zlen (result_to_vec result) >? MAX_RUNTIME_RESULT_BYTES) (B"runtime result exceeds its 32768-byte limit");
  let content := result_content result in
  _ ← bail_if (zlen content >? MAX_TICKET_FILE_BYTES) (B"protected runtime result exceeds its file limit");
  _ ← acquire_runtime_record_lock ResultsDir;
  _ ← prepare_runtime_record_publication ResultsDir (Some ticket_id) (zlen content);
  created ← create_private_ticket_file ResultsDir (record_name ticket_id);
  file ← io_context (B"failed to create runtime result") created;
  fill_record ResultsDir (record_name ticket_id) content file
    (B"failed to write runtime result") (B"failed to sync runtime result").

Definition publish_runtime_result (ticket_id : bytes) (result : RuntimeProxyResult) : R Z :=
  written ← attempt (write_runtime_result ticket_id result);
  mret (if is_ok written then pr_exit_code result else RUNTIME_TRANSPORT_EXIT_CODE).

Definition consume_runtime_result (ticket_id : bytes) : R RuntimeProxyResult :=
  _ ← ensure_private_ticket_directory ResultsDir;
  _ ← lift (validate_ticket_id ticket_id);
  file ← take_runtime_record ResultsDir (record_name ticket_id);
  content ← read_at_most (MAX_TICKET_FILE_BYTES + 1) file (B"failed to read runtime result");
  _ ← bail_if (zlen content >? MAX_TICKET_FILE_BYTES) (B"runtime result exceeds its file limit");
  envelope ← lift (ok_or (result_envelope_from_slice content) (Bail (B"runtime result envelope is not strict JSON")));
  _ ← bail_if (negb (re_schema_version envelope =? RUNTIME_RESULT_SCHEMA_VERSION))
        (B"unsupported runtime result envelope schema version");
  protected ← lift (ok_or (base64_decode (re_protected_payload envelope))
                          (Bail (B"runtime result envelope payload is not standard base64")));
  plaintext ← checked_text (unprotect_result_content protected (re_protection envelope));
  _ ← bail_if (zlen plaintext >? MAX_RUNTIME_RESULT_BYTES) (B"runtime result exceeds its 32768-byte limit");
  result ← lift (ok_or (result_from_slice plaintext) (Bail (B"runtime result is not strict JSON")));
  mailbox ← attempt (mailbox_open ticket_id);
  _ ← match mailbox with
      | Ok _ => _ ← attempt (discard ticket_id); mret ()
      | Err _ => mret ()
      end;
  mret result.
End Tickets.
