(* ===== verification/RuntimeTrust.v ===== *)
(** * The workspace trust store (nrm-sidecar/src/runtime_proxy.rs)

    The set of digests of workspaces the user trusts, kept as one private JSON file that is replaced
    whole under its lock. *)
From stdpp Require Import sorting.
From S2P Require Import Prelude RuntimeMessages RuntimeRecords RuntimeControl.

Definition RUNTIME_TRUST_SCHEMA_VERSION : Z := 1.
Definition RUNTIME_TRUST_STORE_FILE : bytes := B"trusted-workspaces-v1.json".
Definition RUNTIME_TRUST_LOCK_FILE : bytes := B".trusted-workspaces-v1.lock".
Definition RUNTIME_TRUST_MAX_BYTES : Z := 1024 * 1024.
Definition RUNTIME_TRUST_MAX_ENTRIES : Z := 4096.
Definition RUNTIME_TRUST_PENDING_MAX_ENTRIES : Z := 16.
Definition RUNTIME_TRUST_PENDING_SCAN_ENTRIES : Z := 64.
Definition RUNTIME_TRUST_PENDING_MAX_BYTES : Z := 16 * 1024 * 1024.

(** [BTreeMap<String, bool>] *)
Record RuntimeTrustStore := { ts_schema_version : Z; ts_trusted : gmap bytes bool }.
#[export] Instance trust_store_eq_dec : EqDecision RuntimeTrustStore.
Proof. solve_decision. Defined.

(** JSON of the store: what is written is read back. *)
Class TrustCodec := {
  trust_to_vec : RuntimeTrustStore -> bytes;
  trust_from_slice : bytes -> option RuntimeTrustStore;
  trust_roundtrip s : trust_from_slice (trust_to_vec s) = Some s }.

Definition validate_trust_digest (digest : bytes) : result failure unit :=
  fail_if (negb (validate_hex 64 digest)) (Bail (B"workspace trust digest must be 64 lowercase hexadecimal characters")).
Definition validate_runtime_trust_store (store : RuntimeTrustStore) : result failure unit :=
  _ ← fail_if (negb (ts_schema_version store =? RUNTIME_TRUST_SCHEMA_VERSION))
        (Bail (B"unsupported workspace trust schema version"));
  _ ← fail_if (Z.of_nat (size (ts_trusted store)) >? RUNTIME_TRUST_MAX_ENTRIES)
        (Bail (B"workspace trust store exceeds its 4096-entry limit"));
  try_each (fun '(digest, trusted) =>
      _ ← validate_trust_digest digest;
      fail_if (negb trusted) (Bail (B"workspace trust store values must be true")))
    (map_to_list (ts_trusted store)).
Definition empty_store : RuntimeTrustStore := {| ts_schema_version := RUNTIME_TRUST_SCHEMA_VERSION; ts_trusted := ∅ |}.

Definition is_trust_pending_file (name : bytes) : bool :=
  match strip_prefix (B".trust-pending-") name ≫= strip_suffix (B".tmp") with
  | Some nonce => validate_hex (RUNTIME_CONTROL_NONCE_BYTES * 2) nonce
  | None => false
  end.
Definition trust_pending_name (nonce : bytes) : bytes := B".trust-pending-" ++ nonce ++ B".tmp".

Section Trust.
Context `{Host} `{TrustCodec}.

Definition read_runtime_trust_store : R RuntimeTrustStore :=
  opened ← open_private_ticket_file RuntimeDir RUNTIME_TRUST_STORE_FILE;
  match opened with
  | Err NotFound => mret empty_store
  | Err kind => throw (IoError (B"failed to open workspace trust store") kind)
  | Ok file =>
      _ ← validate_private_ticket_file file;
      metadata ← handle_call; _ ← io_context (B"failed to inspect workspace trust store") metadata;
      _ ← bail_if (zlen (e_data file) >? RUNTIME_TRUST_MAX_BYTES) (B"workspace trust store exceeds its 1048576-byte limit");
      content ← read_at_most (RUNTIME_TRUST_MAX_BYTES + 1) file (B"failed to read workspace trust store");
      _ ← bail_if (zlen content >? RUNTIME_TRUST_MAX_BYTES) (B"workspace trust store exceeds its 1048576-byte limit");
      store ← lift (ok_or (trust_from_slice content) (Bail (B"workspace trust store is not strict JSON")));
      _ ← lift (validate_runtime_trust_store store);
      mret store
  end.

(** ** Files left by a writer that crashed *)

Definition scan_trust_pending_files (maximum : Z) : R RuntimeStateScan :=
  scan_directory RuntimeDir is_trust_pending_file maximum.
Fixpoint cleanup_trust_loop (entries : list RuntimeStateEntry) (removed : bool) : R bool :=
  match entries with
  | [] => mret removed
  | entry :: entries => gone ← remove_orphan RuntimeDir (se_name entry); cleanup_trust_loop entries (removed || gone)
  end.
Definition cleanup_orphan_trust_pending_files : R unit :=
  scan ← scan_trust_pending_files RUNTIME_TRUST_PENDING_SCAN_ENTRIES;
  removed ← cleanup_trust_loop (sc_entries scan) false;
  _ ← (if removed : bool then sync_parent_dir else mret ());
  bail_if (sc_overflow scan) (B"pending workspace trust store cleanup exceeded its 64-entry batch limit; retry").
Definition ensure_trust_pending_capacity (additional_bytes : Z) : R unit :=
  scan ← scan_trust_pending_files (RUNTIME_TRUST_PENDING_MAX_ENTRIES + 1);
  _ ← bail_if (sc_overflow scan) (B"pending workspace trust stores exceed their 16-entry limit");
  usage ← lift (runtime_state_usage (sc_entries scan));
  lift (ensure_runtime_state_capacity usage additional_bytes RUNTIME_TRUST_PENDING_MAX_ENTRIES RUNTIME_TRUST_PENDING_MAX_BYTES).

(** ** Writing *)

(** [fs::rename] *)
Definition replace_private_record (p : place) (source destination : bytes) : R (result io_kind unit) :=
  io p (fun _ d =>
    match d !! source, d !! destination with
    | None, _ => (Err NotFound, d)
    | Some e, Some e' => if bool_decide (e_kind e' = OtherNode) then (Err OtherKind, d)
                         else (Ok (), <[destination := e]> (delete source d))
    | Some e, None => (Ok (), <[destination := e]> (delete source d))
    end).

Fixpoint write_trust_loop (attempts : nat) (content : bytes) : R unit :=
  match attempts with
  | O => bail (B"failed to allocate a unique pending workspace trust store")
  | S attempts =>
      nonce ← random_hex_id RUNTIME_CONTROL_NONCE_BYTES;
      let temporary := trust_pending_name nonce in
      created ← create_private_ticket_file RuntimeDir temporary;
      match created with
      | Ok file =>
          write_result ← attempt (write_new_file RuntimeDir temporary content file
                                    (B"failed to write workspace trust store") (B"failed to sync workspace trust store"));
          match write_result with
          | Err error => _ ← remove_file RuntimeDir temporary; throw error
          | Ok _ =>
              replaced ← replace_private_record RuntimeDir temporary RUNTIME_TRUST_STORE_FILE;
              match replaced with
              | Err kind =>
                  _ ← remove_file RuntimeDir temporary;
                  throw (IoError (B"failed to atomically replace workspace trust store") kind)
              | Ok _ =>
                  _ ← sync_parent_dir;
                  reopened ← open_private_ticket_file RuntimeDir RUNTIME_TRUST_STORE_FILE;
                  activated ← io_context (B"failed to reopen activated workspace trust store") reopened;
                  validate_private_ticket_file activated
              end
          end
      | Err AlreadyExists => write_trust_loop attempts content
      | Err kind => throw (IoError (B"failed to create pending workspace trust store") kind)
      end
  end.
Definition write_runtime_trust_store (store : RuntimeTrustStore) : R unit :=
  _ ← lift (validate_runtime_trust_store store);
  let content := trust_to_vec store in
  _ ← bail_if (zlen content >? RUNTIME_TRUST_MAX_BYTES) (B"workspace trust store exceeds its 1048576-byte limit");
  _ ← ensure_trust_pending_capacity (zlen content);
  opened ← open_private_ticket_file RuntimeDir RUNTIME_TRUST_STORE_FILE;
  _ ← match opened with
      | Ok existing => validate_private_ticket_file existing
      | Err NotFound => mret ()
      | Err kind => throw (IoError (B"failed to inspect existing workspace trust store") kind)
      end;
  write_trust_loop MAX_TICKET_CREATE_ATTEMPTS content.

(** ** The commands *)

Definition lock_trust : R unit :=
  _ ← ensure_private_ticket_directory RuntimeDir;
  _ ← acquire_private_runtime_lock RuntimeDir RUNTIME_TRUST_LOCK_FILE;
  cleanup_orphan_trust_pending_files.
Definition prepare_runtime_state : R unit := _ ← lock_trust; _ ← read_runtime_trust_store; mret ().
(** The answer "trusted" or "untrusted" *)
Definition check_workspace_trust (digest : bytes) : R bool :=
  _ ← lift (validate_trust_digest digest);
  _ ← lock_trust;
  store ← read_runtime_trust_store;
  mret (bool_decide (is_Some (ts_trusted store !! digest))).
Definition set_workspace_trust (digest : bytes) (trusted : bool) : R unit :=
  _ ← lift (validate_trust_digest digest);
  _ ← lock_trust;
  store ← read_runtime_trust_store;
  if trusted then
    _ ← bail_if (negb (bool_decide (is_Some (ts_trusted store !! digest))) &&
                 (Z.of_nat (size (ts_trusted store)) >=? RUNTIME_TRUST_MAX_ENTRIES))
          (B"workspace trust store reached its 4096-entry limit");
    write_runtime_trust_store {| ts_schema_version := ts_schema_version store; ts_trusted := <[digest := true]> (ts_trusted store) |}
  else
    write_runtime_trust_store {| ts_schema_version := ts_schema_version store; ts_trusted := delete digest (ts_trusted store) |}.
End Trust.
