(* ===== verification/RuntimeRecordsProps.v ===== *)
(** * Rules for operations on private runtime records

    What an operation keeps of the directories whatever fails in it, what a successful one has done,
    and that none of the loops runs out of fuel. *)
From stdpp Require Import sorting.
From S2P Require Import Prelude RuntimeMessages RuntimeRecords RuntimeControl.

(** ** Successful runs *)

Lemma R_bind_Ok {A B} (m : R A) (k : A -> R B) (w : world) b w' :
  (m ≫= k) w = (Ok b, w') <-> exists a w1, m w = (Ok a, w1) /\ k a w1 = (Ok b, w').
Proof.
  unfold mbind, R_bind. destruct (m w) as [[a|e] w1]; split.
  - eauto.
  - intros (? & ? & [= <- <-] & ?). done.
  - done.
  - intros (? & ? & [=] & ?).
Qed.
Lemma R_ret_Ok {A} (a : A) (w : world) b w' : (mret a : R A) w = (Ok b, w') <-> a = b /\ w = w'.
Proof. unfold mret, R_ret. naive_solver. Qed.
Lemma lift_run_Ok {A} (r : result failure A) (w : world) b w' : lift r w = (Ok b, w') <-> r = Ok b /\ w = w'.
Proof. destruct r; cbn; unfold mret, R_ret, throw; naive_solver. Qed.
Lemma record_context_Ok {A} text (r : result io_kind A) (w : world) b w' : io_context text r w = (Ok b, w') <-> r = Ok b /\ w = w'.
Proof. unfold io_context. rewrite lift_run_Ok, map_err_Ok. done. Qed.
Lemma checked_text_Ok {A} (r : result bytes A) (w : world) b w' : checked_text r w = (Ok b, w') <-> r = Ok b /\ w = w'.
Proof. unfold checked_text. rewrite lift_run_Ok, map_err_Ok. done. Qed.
Lemma bail_if_Ok c message (w : world) u w' : bail_if c message w = (Ok u, w') <-> c = false /\ w = w'.
Proof. unfold bail_if. destruct c; cbn; unfold bail, throw, mret, R_ret; destruct u; naive_solver. Qed.
Lemma attempt_Ok {A} (m : R A) (w : world) r w' :
  attempt m w = (Ok r, w') <-> match r with Ok a => m w = (Ok a, w') | Err e => m w = (Err (Failed e), w') end.
Proof. unfold attempt. destruct (m w) as [[a|[e|]] w1], r; naive_solver. Qed.

(** Takes a successful run apart. *)
Ltac run_step :=
  match goal with
  | H : (_ ≫= _) _ = (Ok _, _) |- _ => apply R_bind_Ok in H as (? & ? & ? & H)
  | H : mret _ _ = (Ok _, _) |- _ => apply R_ret_Ok in H as [? ?]; try subst
  | H : lift _ _ = (Ok _, _) |- _ => apply lift_run_Ok in H as [? ?]; try subst
  | H : io_context _ _ _ = (Ok _, _) |- _ => apply record_context_Ok in H as [? ?]; try subst
  | H : checked_text _ _ = (Ok _, _) |- _ => apply checked_text_Ok in H as [? ?]; try subst
  | H : bail_if _ _ _ = (Ok _, _) |- _ => apply bail_if_Ok in H as [? ?]; try subst
  | H : throw _ _ = (Ok _, _) |- _ => discriminate H
  | H : bail _ _ = (Ok _, _) |- _ => discriminate H
  end.
Ltac run := repeat (run_step; cbn [fst snd] in * ).

(** ** State that every step keeps, whatever it returns *)

Definition keeps {A} (I : world -> Prop) (m : R A) : Prop := forall w, I w -> I (m w).2.

Section Keeps.
Context (I : world -> Prop).
Lemma record_keeps_ret {A} (a : A) : keeps I (mret a).
Proof. by intros w. Qed.
Lemma record_keeps_throw {A} e : keeps I (throw (A := A) e).
Proof. by intros w. Qed.
Lemma keeps_bail {A} e : keeps I (bail (A := A) e).
Proof. by intros w. Qed.
Lemma record_keeps_spin {A} : keeps I (spin (A := A)).
Proof. by intros w. Qed.
Lemma record_keeps_bind {A B} (m : R A) (k : A -> R B) : keeps I m -> (forall a, keeps I (k a)) -> keeps I (m ≫= k).
Proof.
  intros Hm Hk w Hw. specialize (Hm w Hw). unfold mbind, R_bind.
  destruct (m w) as [[a|e] w1]; [by apply Hk | done].
Qed.
(** When what follows needs to know what the first step returned *)
Lemma keeps_bind_when {A B} (Q : A -> Prop) (m : R A) (k : A -> R B) :
  keeps I m -> (forall w a w', m w = (Ok a, w') -> Q a) -> (forall a, Q a -> keeps I (k a)) -> keeps I (m ≫= k).
Proof.
  intros Hm HQ Hk w Hw. specialize (Hm w Hw). unfold mbind, R_bind.
  destruct (m w) as [[a|e] w1] eqn:E; [by apply Hk, Hm; eapply HQ | done].
Qed.
Lemma record_keeps_attempt {A} (m : R A) : keeps I m -> keeps I (attempt m).
Proof. intros Hm w Hw. specialize (Hm w Hw). unfold attempt. by destruct (m w) as [[a|[e|]] w1]. Qed.
Lemma record_keeps_lift {A} (r : result failure A) : keeps I (lift r).
Proof. by destruct r; intros w. Qed.
Lemma record_keeps_context {A} text (r : result io_kind A) : keeps I (io_context text r).
Proof. apply record_keeps_lift. Qed.
Lemma keeps_checked_text {A} (r : result bytes A) : keeps I (checked_text r).
Proof. apply record_keeps_lift. Qed.
Lemma keeps_bail_if c message : keeps I (bail_if c message).
Proof. by destruct c; intros w. Qed.
Lemma keeps_run {A} (m : R A) w r w' : keeps I m -> m w = (r, w') -> I w -> I w'.
Proof. intros Hm E Hw. specialize (Hm w Hw). by rewrite E in Hm. Qed.
End Keeps.

Create HintDb record_keeps.
#[export] Hint Resolve record_keeps_ret record_keeps_throw keeps_bail record_keeps_spin record_keeps_lift record_keeps_context keeps_checked_text keeps_bail_if
  record_keeps_attempt : record_keeps.
(** Takes an operation apart along its binds and branches. *)
Ltac keep_steps :=
  repeat first
    [ progress intros
    | solve [eauto with record_keeps]
    | apply record_keeps_bind
    | apply record_keeps_attempt
    | match goal with |- keeps _ (match ?x with _ => _ end) => destruct x end ].

(** ** Rules on the directories *)

(** The lock file of each directory *)
Definition lock_of (p : place) : bytes :=
  match p with
  | TicketsDir | ResultsDir => RUNTIME_RECORD_LOCK_FILE
  | ControlDir => RUNTIME_CONTROL_LOCK_FILE
  | RuntimeDir => B".trusted-workspaces-v1.lock"
  end.

Section Directories.
Context `{Host}.
(** What the directory of a place may hold, when so many random values were drawn *)
Context (D : nat -> place -> directory -> Prop).
(** At least [m] random values were drawn and [c] calls made. *)
Context (m c : nat).
Definition dirs_ok (w : world) : Prop :=
  (m <= randoms w)%nat /\ (c <= calls w)%nat /\ forall p, D (randoms w) p (dir_of w p).

Record closed := {
  d_mono n n' p d : (n <= n')%nat -> D n p d -> D n' p d;
  d_delete n p name d : D n p d -> D n p (delete name d);
  d_lock n p o d : d !! lock_of p = None -> D n p d -> D n p (<[lock_of p := new_entry o]> d) }.
Context (HD : closed).

Lemma set_dir_ok (n : nat) (p : place) (d : directory) (w : world) :
  randoms w = n -> dirs_ok w -> D n p d -> dirs_ok (set_dir p d w).
Proof. intros <- (Hm & Hc & Hw) Hd. split_and!; [done..|]. intros q. cbn. case_decide; [by subst | apply Hw]. Qed.
Lemma tick_ok (o : outcome) (w : world) : dirs_ok w -> dirs_ok (tick o w).
Proof. intros (Hm & Hc & Hw). split_and!; cbn; [done|lia|done]. Qed.
Lemma keeps_io_partial {A : Type} (p : place) (f : outcome -> directory -> result io_kind A * directory)
    (partial : outcome -> directory -> directory) :
  (forall (n : nat) (o : outcome) (d : directory), (m <= n)%nat -> D n p d -> D n p (f o d).2 /\ D n p (partial o d)) ->
  keeps dirs_ok (io_partial p f partial).
Proof.
  intros Hf w Hw. pose proof (tick_ok (outcome_of (calls w)) w Hw) as Htick.
  unfold io_partial. destruct (Hf (randoms w) (outcome_of (calls w)) (dir_of w p)) as [H1 H2]; [apply Hw.. |].
  destruct (o_fail _); [by apply (set_dir_ok (randoms w))|].
  destruct (f _ _) as [r d]. by apply (set_dir_ok (randoms w)).
Qed.
Lemma keeps_io {A : Type} (p : place) (f : outcome -> directory -> result io_kind A * directory) :
  (forall (n : nat) (o : outcome) (d : directory), (m <= n)%nat -> D n p d -> D n p (f o d).2) -> keeps dirs_ok (io p f).
Proof. intros Hf. apply keeps_io_partial. auto. Qed.
Lemma keeps_pure_io {A : Type} (p : place) (f : outcome -> directory -> result io_kind A) : keeps dirs_ok (io p (fun o d => (f o d, d))).
Proof. by apply keeps_io. Qed.

Lemma keeps_handle_call : keeps dirs_ok handle_call.
Proof. apply keeps_pure_io. Qed.
Lemma keeps_time_of_day : keeps dirs_ok time_of_day.
Proof. intros w Hw. by apply tick_ok. Qed.
Lemma keeps_instant_now : keeps dirs_ok instant_now.
Proof. intros w Hw. by apply tick_ok. Qed.
Lemma keeps_sleep d : keeps dirs_ok (sleep d).
Proof. by intros w. Qed.
Lemma keeps_random n : keeps dirs_ok (random_hex_id n).
Proof.
  intros w (Hm & Hc & Hw). unfold random_hex_id.
  destruct (random_of _ _); (split_and!; cbn; [lia | lia |]); intros p; (eapply (d_mono HD); [|apply Hw]); lia.
Qed.
Lemma keeps_open (p : place) (name : bytes) : keeps dirs_ok (open_private_ticket_file p name).
Proof. apply keeps_io. intros n o d _ Hd. by destruct (d !! name). Qed.
Lemma keeps_symlink_metadata (p : place) (name : bytes) : keeps dirs_ok (symlink_metadata p name).
Proof. by apply keeps_io. Qed.
Lemma keeps_remove_file (p : place) (name : bytes) : keeps dirs_ok (remove_file p name).
Proof.
  apply keeps_io. intros n o d _ Hd. destruct (d !! name) as [e|]; [|done]. destruct (bool_decide _); [done|].
  by apply (d_delete HD).
Qed.
Lemma keeps_create (p : place) (name : bytes) :
  (forall (n : nat) (o : outcome) (d : directory), (m <= n)%nat -> d !! name = None -> D n p d -> D n p (<[name := new_entry o]> d)) ->
  keeps dirs_ok (create_private_ticket_file p name).
Proof. intros Hn. apply keeps_io. intros n o d Hle Hd. destruct (d !! name) eqn:E; [done|]. by apply Hn. Qed.
Lemma keeps_write (p : place) (name content : bytes) :
  (forall (n k : nat) (o : outcome) (d : directory), (m <= n)%nat -> D n p d -> D n p (alter (written (take k content) o) name d)) ->
  keeps dirs_ok (write_all p name content).
Proof.
  intros Hg. apply keeps_io_partial. intros n o d Hle Hd. split; [|by apply Hg].
  specialize (Hg n (length content) o d Hle Hd). by rewrite firstn_all in Hg.
Qed.
Lemma dirs_ok_weaken (m' c' : nat) (w : world) :
  dirs_ok w -> (m' <= m)%nat -> (c' <= c)%nat -> (m' <= randoms w)%nat /\ (c' <= calls w)%nat /\ forall p, D (randoms w) p (dir_of w p).
Proof. intros (? & ? & ?) ? ?. split_and!; [lia.. | done]. Qed.
End Directories.

(** Rules that look at each file alone: its place, its name and its content *)
Section Entries.
Context `{Host} (G : nat -> place -> bytes -> bytes -> Prop).
Definition dir_ok (n : nat) (p : place) (d : directory) : Prop := map_Forall (fun name e => G n p name (e_data e)) d.
Record lawful := {
  g_mono n n' p name data : (n <= n')%nat -> G n p name data -> G n' p name data;
  g_lock n p : G n p (lock_of p) [] }.
Lemma lawful_closed : lawful -> closed dir_ok.
Proof.
  intros HG. split.
  - intros n n' p d Hle Hd. eapply map_Forall_impl; [exact Hd|]. cbn. intros name e. by apply (g_mono HG).
  - intros n p name d Hd. by apply map_Forall_delete.
  - intros n p o d _ Hd. apply map_Forall_insert_2; [by apply (g_lock HG) | done].
Qed.
Lemma dir_ok_insert (m : nat) (p : place) (name : bytes) :
  (forall n : nat, (m <= n)%nat -> G n p name []) ->
  forall (n : nat) (o : outcome) (d : directory), (m <= n)%nat -> d !! name = None -> dir_ok n p d -> dir_ok n p (<[name := new_entry o]> d).
Proof. intros Hn n o d Hle _ Hd. by apply map_Forall_insert_2; [apply Hn|]. Qed.
Lemma dir_ok_write (m : nat) (p : place) (name content : bytes) :
  (forall n k : nat, (m <= n)%nat -> G n p name (take k content)) ->
  forall (n k : nat) (o : outcome) (d : directory), (m <= n)%nat -> dir_ok n p d -> dir_ok n p (alter (written (take k content) o) name d).
Proof.
  intros Hg n k o d Hle Hd x e. rewrite lookup_alter_Some. intros [(<- & e' & He & ->)|[Hne He]]; [by apply Hg | by apply Hd].
Qed.
End Entries.
Abbreviation entries_ok G := (dirs_ok (dir_ok G)).
#[export] Hint Resolve lawful_closed : record_keeps.

#[export] Hint Resolve keeps_pure_io keeps_handle_call keeps_time_of_day keeps_instant_now keeps_sleep keeps_random keeps_open
  keeps_symlink_metadata keeps_remove_file : record_keeps.

Section Library.
Context `{Host} (D : nat -> place -> directory -> Prop) (HD : closed D) (m c : nat).

Lemma keeps_validate (file : entry) : keeps (dirs_ok D m c) (validate_private_ticket_file file).
Proof. unfold validate_private_ticket_file. keep_steps. Qed.
Lemma keeps_sync_parent : keeps (dirs_ok D m c) sync_parent_dir.
Proof. unfold sync_parent_dir. keep_steps. Qed.
Lemma keeps_unix_time : keeps (dirs_ok D m c) unix_time_ms.
Proof. unfold unix_time_ms. keep_steps. Qed.
Lemma keeps_ensure (p : place) : keeps (dirs_ok D m c) (ensure_private_ticket_directory p).
Proof. unfold ensure_private_ticket_directory. keep_steps. Qed.
Lemma keeps_read_at_most (limit : Z) (file : entry) (text : bytes) : keeps (dirs_ok D m c) (read_at_most limit file text).
Proof. unfold read_at_most. keep_steps. Qed.
Lemma keeps_lock (p : place) (name : bytes) :
  name = lock_of p -> keeps (dirs_ok D m c) (acquire_private_runtime_lock p name).
Proof.
  intros ->. assert (Hcreate := keeps_create D m c p (lock_of p) (fun n o d _ => d_lock D HD n p o d)).
  assert (Hopen : forall fuel, keeps (dirs_ok D m c) (open_lock fuel p (lock_of p))).
  { induction fuel as [|fuel IH]; cbn [open_lock]; unfold open_private_runtime_lock; [apply record_keeps_spin|].
    pose proof keeps_validate. keep_steps. }
  assert (Hloop : forall fuel deadline, keeps (dirs_ok D m c) (lock_loop fuel deadline)).
  { induction fuel as [|fuel IH]; intros deadline; cbn [lock_loop]; unfold try_lock; [apply record_keeps_spin|]. keep_steps. }
  unfold acquire_private_runtime_lock. pose proof keeps_validate. keep_steps.
Qed.
Definition is_record_dir (p : place) : Prop := RUNTIME_RECORD_LOCK_FILE = lock_of p.
Lemma keeps_record_lock (p : place) : is_record_dir p -> keeps (dirs_ok D m c) (acquire_runtime_record_lock p).
Proof. apply keeps_lock. Qed.
Lemma keeps_read_dir (p : place) (text : bytes) : keeps (dirs_ok D m c) (read_dir p text).
Proof. unfold read_dir. keep_steps. Qed.
Lemma keeps_scan (p : place) (wanted : bytes -> bool) (maximum : Z) : keeps (dirs_ok D m c) (scan_directory p wanted maximum).
Proof.
  assert (Hloop : forall names found, keeps (dirs_ok D m c) (scan_loop p wanted maximum names found)).
  { induction names as [|name names IH]; intros found; cbn [scan_loop]; keep_steps. }
  unfold scan_directory. pose proof keeps_read_dir. keep_steps.
Qed.
End Library.
#[export] Hint Extern 0 (is_record_dir _) => reflexivity : record_keeps.
#[export] Hint Resolve keeps_validate keeps_sync_parent keeps_unix_time keeps_ensure keeps_read_at_most keeps_record_lock
  keeps_read_dir keeps_scan : record_keeps.

Section Records.
Context `{Host} (D : nat -> place -> directory -> Prop) (HD : closed D) (m c : nat).
Lemma keeps_remove_orphan (p : place) (name : bytes) : keeps (dirs_ok D m c) (remove_orphan p name).
Proof. unfold remove_orphan, remove_open_ticket_file. keep_steps. Qed.
Lemma keeps_cleanup_loop (p : place) (excluded : option bytes) (age now : Z) (entries : list RuntimeStateEntry) (removed : bool) : keeps (dirs_ok D m c) (cleanup_loop p excluded age now entries removed).
Proof.
  revert removed. pose proof keeps_remove_orphan. induction entries as [|x entries IH]; intros removed; cbn [cleanup_loop]; keep_steps.
Qed.
Lemma keeps_prepare (p : place) (excluded : option bytes) (additional : Z) : keeps (dirs_ok D m c) (prepare_runtime_record_publication p excluded additional).
Proof.
  unfold prepare_runtime_record_publication, cleanup_orphan_runtime_records_with_policy, scan_runtime_record_directory.
  pose proof keeps_cleanup_loop. keep_steps.
Qed.
Lemma keeps_publication (p : place) : keeps (dirs_ok D m c) (validate_runtime_record_publication p).
Proof. unfold validate_runtime_record_publication, runtime_record_usage, scan_runtime_record_directory. keep_steps. Qed.
Lemma keeps_remove_new (p : place) (name : bytes) : keeps (dirs_ok D m c) (remove_new_runtime_record p name).
Proof. unfold remove_new_runtime_record, remove_open_ticket_file. keep_steps. Qed.
Lemma keeps_take (p : place) (name : bytes) : is_record_dir p -> keeps (dirs_ok D m c) (take_runtime_record p name).
Proof. unfold take_runtime_record, remove_open_ticket_file. keep_steps. Qed.
End Records.
#[export] Hint Resolve keeps_remove_orphan keeps_prepare keeps_publication keeps_remove_new keeps_take : record_keeps.
