(* ===== verification/RuntimeHistory.v ===== *)
(** * Histories of runtime records

    Every command of the runtime bridge that touches the record directories, one after the other
    under their locks, in any order and with any failures. *)
From S2P Require Import Prelude Protocol RuntimeMessages RuntimeMachine LspProxy RemoteHost RuntimeRecords RuntimeControl RuntimeTickets RuntimeTrust RuntimeRecordsProps.

(** ** What mailbox and trust store leave alone *)

Section Other.
Context `{Host} `{ControlCodec} `{TrustCodec}.
Context (D : nat -> place -> directory -> Prop) (HD : closed D) (m c : nat).

(** Anything may lie in [p]. *)
Definition free (p : place) : Prop := forall (n : nat) (d : directory), D n p d.
Lemma keeps_free_io {A : Type} (p : place) (f : outcome -> directory -> result io_kind A * directory)
    (partial : outcome -> directory -> directory) :
  free p -> keeps (dirs_ok D m c) (io_partial p f partial).
Proof. intros Hp. apply keeps_io_partial. intros n o d _ _. split; apply Hp. Qed.

Lemma keeps_control_lock : keeps (dirs_ok D m c) acquire_runtime_control_lock.
Proof. apply keeps_lock; done. Qed.
Lemma keeps_control_paths maximum : keeps (dirs_ok D m c) (bounded_control_paths_at_limit maximum).
Proof.
  assert (Hloop : forall names found, keeps (dirs_ok D m c) (control_paths_loop maximum names found)).
  { induction names as [|name names IH]; intros found; cbn [control_paths_loop]; keep_steps. }
  unfold bounded_control_paths_at_limit. keep_steps.
Qed.
Lemma keeps_remove_control name text : keeps (dirs_ok D m c) (remove_control_file name text).
Proof. unfold remove_control_file, remove_open_ticket_file. keep_steps. Qed.
Lemma keeps_cleanup_control : keeps (dirs_ok D m c) cleanup_orphan_control_files.
Proof.
  pose proof keeps_remove_control.
  assert (Hloop : forall names, keeps (dirs_ok D m c) (cleanup_control_loop names)).
  { induction names as [|name names IH]; cbn [cleanup_control_loop]; keep_steps. }
  pose proof keeps_control_paths. unfold cleanup_orphan_control_files. keep_steps.
Qed.
Lemma keeps_mailbox_open id : keeps (dirs_ok D m c) (mailbox_open id).
Proof.
  pose proof keeps_control_lock. pose proof keeps_cleanup_control. pose proof keeps_control_paths.
  unfold mailbox_open, bounded_control_paths. keep_steps.
Qed.
Lemma keeps_matching id : keeps (dirs_ok D m c) (matching_paths id).
Proof. pose proof keeps_control_paths. unfold matching_paths, bounded_control_paths. keep_steps. Qed.
Lemma keeps_discard id : keeps (dirs_ok D m c) (discard id).
Proof.
  pose proof keeps_remove_control. pose proof keeps_control_lock. pose proof keeps_matching.
  assert (Hloop : forall names, keeps (dirs_ok D m c) (discard_loop names)).
  { induction names as [|name names IH]; cbn [discard_loop]; keep_steps. }
  unfold discard. keep_steps.
Qed.
Lemma keeps_drain id : keeps (dirs_ok D m c) (drain id).
Proof.
  pose proof keeps_control_lock. pose proof keeps_matching.
  assert (Hone : forall now future name, keeps (dirs_ok D m c) (drain_one id now future name)).
  { intros. unfold drain_one, remove_open_ticket_file. keep_steps. }
  assert (Hloop : forall now future names messages, keeps (dirs_ok D m c) (drain_loop id now future names messages)).
  { induction names as [|name names IH]; intros messages; cbn [drain_loop]; keep_steps. }
  unfold drain. keep_steps.
Qed.
Lemma keeps_free_create (p : place) (name : bytes) : free p -> keeps (dirs_ok D m c) (create_private_ticket_file p name).
Proof. intros Hp. by apply keeps_free_io. Qed.
Lemma keeps_free_write_new (p : place) (name content : bytes) (file : entry) (t1 t2 : bytes) :
  free p -> keeps (dirs_ok D m c) (write_new_file p name content file t1 t2).
Proof.
  intros Hp. assert (keeps (dirs_ok D m c) (write_all p name content)) by by apply keeps_free_io.
  unfold write_new_file, file_sync_all. keep_steps.
Qed.
Lemma keeps_enqueue id signal : free ControlDir -> keeps (dirs_ok D m c) (enqueue_signal id signal).
Proof.
  intros Hp. pose proof keeps_control_lock. pose proof keeps_cleanup_control. pose proof keeps_control_paths.
  pose proof keeps_free_create. pose proof keeps_free_write_new.
  assert (forall s d, keeps (dirs_ok D m c) (publish_private_record_noreplace ControlDir s d)) by (intros; by apply keeps_free_io).
  assert (Hloop : forall n content, keeps (dirs_ok D m c) (publish_signal_loop n id content)).
  { induction n as [|n IH]; intros content; cbn [publish_signal_loop]; keep_steps. }
  unfold enqueue_signal, bounded_control_paths. keep_steps.
Qed.

Lemma keeps_lock_trust : keeps (dirs_ok D m c) lock_trust.
Proof.
  assert (keeps (dirs_ok D m c) (acquire_private_runtime_lock RuntimeDir RUNTIME_TRUST_LOCK_FILE))
    by (apply keeps_lock; done).
  assert (Hloop : forall entries removed, keeps (dirs_ok D m c) (cleanup_trust_loop entries removed)).
  { induction entries as [|e entries IH]; intros removed; cbn [cleanup_trust_loop]; keep_steps. }
  unfold lock_trust, cleanup_orphan_trust_pending_files, scan_trust_pending_files. keep_steps.
Qed.
Lemma keeps_read_trust : keeps (dirs_ok D m c) read_runtime_trust_store.
Proof. unfold read_runtime_trust_store. keep_steps. Qed.
Lemma keeps_write_trust store : free RuntimeDir -> keeps (dirs_ok D m c) (write_runtime_trust_store store).
Proof.
  intros Hp. pose proof keeps_free_create. pose proof keeps_free_write_new.
  assert (forall s d, keeps (dirs_ok D m c) (replace_private_record RuntimeDir s d)) by (intros; by apply keeps_free_io).
  assert (Hloop : forall n content, keeps (dirs_ok D m c) (write_trust_loop n content)).
  { induction n as [|n IH]; intros content; cbn [write_trust_loop]; keep_steps. }
  unfold write_runtime_trust_store, ensure_trust_pending_capacity, scan_trust_pending_files. keep_steps.
Qed.
Lemma keeps_set_trust digest trusted : free RuntimeDir -> keeps (dirs_ok D m c) (set_workspace_trust digest trusted).
Proof.
  intros Hp. pose proof keeps_write_trust. pose proof keeps_lock_trust. pose proof keeps_read_trust.
  unfold set_workspace_trust. keep_steps.
Qed.
Lemma keeps_check_trust digest : keeps (dirs_ok D m c) (check_workspace_trust digest).
Proof. pose proof keeps_lock_trust. pose proof keeps_read_trust. unfold check_workspace_trust. keep_steps. Qed.
Lemma keeps_prepare_state : keeps (dirs_ok D m c) prepare_runtime_state.
Proof. pose proof keeps_lock_trust. pose proof keeps_read_trust. unfold prepare_runtime_state. keep_steps. Qed.
End Other.
#[export] Hint Resolve keeps_mailbox_open keeps_discard keeps_drain keeps_enqueue keeps_set_trust keeps_check_trust
  keeps_prepare_state : record_keeps.

(** ** Tickets and results *)

Section TicketCommands.
Context `{Host} `{ControlCodec} `{TicketCodec} `{TrustCodec}.
Context (D : nat -> place -> directory -> Prop) (HD : closed D).

Lemma keeps_consume m c id : keeps (dirs_ok D m c) (consume_ticket id).
Proof. unfold consume_ticket, validate_stored_ticket. keep_steps. Qed.
Lemma keeps_remove_ticket m c id : keeps (dirs_ok D m c) (remove_ticket id).
Proof. unfold remove_ticket, remove_open_ticket_file. keep_steps. Qed.
Lemma keeps_consume_result m c id : keeps (dirs_ok D m c) (consume_runtime_result id).
Proof. unfold consume_runtime_result. keep_steps. Qed.
Lemma keeps_fill_dir (m c : nat) (p : place) (name content : bytes) (file : entry) (t1 t2 : bytes) :
  keeps (dirs_ok D m c) (write_all p name content) -> keeps (dirs_ok D m c) (fill_record p name content file t1 t2).
Proof. intros Hw. unfold fill_record, write_new_file, file_sync_all. keep_steps. Qed.
Lemma keeps_write_result m c id result : free D ResultsDir -> keeps (dirs_ok D m c) (write_runtime_result id result).
Proof.
  intros Hp. pose proof (keeps_free_create D m c ResultsDir (record_name id) Hp).
  assert (forall file t1 t2, keeps (dirs_ok D m c) (fill_record ResultsDir (record_name id) (result_content result) file t1 t2))
    by (intros; apply keeps_fill_dir; by apply keeps_free_io).
  unfold write_runtime_result. keep_steps.
Qed.
End TicketCommands.

Section Tickets.
Context `{Host} `{ControlCodec} `{TicketCodec} `{TrustCodec}.
Context (G : nat -> place -> bytes -> bytes -> Prop) (HG : lawful G).

Lemma keeps_fill (m c : nat) (p : place) (name content : bytes) (file : entry) (t1 t2 : bytes) :
  (forall n k : nat, (m <= n)%nat -> G n p name (take k content)) ->
  keeps (entries_ok G m c) (fill_record p name content file t1 t2).
Proof. intros Hg. apply keeps_fill_dir; [by apply lawful_closed|]. by apply keeps_write, dir_ok_write. Qed.

(** The drawn identifier number [i] *)
Definition drawn (i : nat) (id : bytes) : Prop := exists r, random_of i TICKET_ID_BYTES = Some r /\ id = r ≫= hex_byte.
Definition expiry (at_ : Z) : Z := at_ + as_millis TICKET_TTL.
Definition issued_content (id : bytes) (at_ : Z) (ticket : RuntimeTicket) : bytes :=
  ticket_content (stored_ticket id at_ (expiry at_) ticket).

Lemma keeps_create_loop attempts ticket at_ (m c : nat) :
  (forall i id n k, drawn i id -> (m <= i < n)%nat -> G n TicketsDir (record_name id) (take k (issued_content id at_ ticket))) ->
  keeps (entries_ok G m c) (create_ticket_loop attempts ticket at_ (expiry at_)).
Proof.
  revert m. induction attempts as [|attempts IH]; intros m Hg; cbn [create_ticket_loop]; [apply keeps_bail|].
  intros w Hw. unfold mbind at 1, R_bind at 1.
  pose proof (keeps_random (dir_ok G) m c (lawful_closed G HG) TICKET_ID_BYTES w Hw) as Hw1. unfold random_hex_id in *.
  destruct (random_of (randoms w) TICKET_ID_BYTES) as [r|] eqn:Er; [|done].
  set (id := r ≫= hex_byte). set (w1 := {| randoms := S (randoms w) |}) in *. cbn [snd] in Hw1.
  assert (Hd : drawn (randoms w) id) by by exists r.
  assert (Hat : forall n k : nat, (S (randoms w) <= n)%nat -> G n TicketsDir (record_name id) (take k (issued_content id at_ ticket))).
  { intros n k Hn. apply (Hg (randoms w)); [done|]. destruct Hw as [? _]. lia. }
  assert (entries_ok G (S (randoms w)) c w1) as Hw2 by (destruct Hw1 as (? & ? & ?); split_and!; [cbn; lia | done..]).
  enough (Hk : keeps (entries_ok G (S (randoms w)) c) (
      _ ← lift (validate_ticket_id id);
      let content := ticket_content (stored_ticket id at_ (expiry at_) ticket) in
      _ ← bail_if (zlen content >? MAX_TICKET_FILE_BYTES) (B"protected runtime ticket exceeds its 393216-byte file limit");
      _ ← prepare_runtime_record_publication TicketsDir None (zlen content);
      created ← create_private_ticket_file TicketsDir (record_name id);
      match created with
      | Ok file =>
          _ ← fill_record TicketsDir (record_name id) content file
                (B"failed to write runtime ticket") (B"failed to sync runtime ticket");
          mret id
      | Err AlreadyExists => create_ticket_loop attempts ticket at_ (expiry at_)
      | Err kind => throw (IoError (B"failed to create runtime ticket") kind)
      end)).
  { destruct (Hk w1 Hw2) as (? & ? & ?). destruct Hw as [? _]. split_and!; [cbn in *; lia | done..]. }
  pose proof (keeps_create (dir_ok G) (S (randoms w)) c TicketsDir (record_name id) (dir_ok_insert G _ _ _ (fun n => Hat n 0%nat))).
  assert (forall file t1 t2,
      keeps (entries_ok G (S (randoms w)) c) (fill_record TicketsDir (record_name id) (issued_content id at_ ticket) file t1 t2))
    by (intros; by apply keeps_fill).
  assert (keeps (entries_ok G (S (randoms w)) c) (create_ticket_loop attempts ticket at_ (expiry at_))).
  { apply IH. intros i id' n k Hi Hn. apply (Hg i); [done|]. destruct Hw as [? _]. lia. }
  cbv zeta. keep_steps.
Qed.

(** The time call number [i] shows, in milliseconds *)
Definition clock_at (i : nat) : Z := as_millis (o_now (outcome_of i)).
Lemma unix_time_Ok w at_ w' : unix_time_ms w = (Ok at_, w') -> at_ = clock_at (calls w) /\ calls w' = S (calls w).
Proof. unfold unix_time_ms. intros Hrun. run. by injection H3 as <- <-. Qed.

(** Any files, any number of random values: only calls are counted. *)
Definition anything (n : nat) (p : place) (name data : bytes) : Prop := True.
Lemma anything_lawful : lawful anything.
Proof. done. Qed.
Lemma anything_closed : closed (dir_ok anything).
Proof. apply lawful_closed, anything_lawful. Qed.
Lemma calls_grow {A : Type} (op : R A) (w : world) :
  keeps (entries_ok anything 0 (calls w)) op -> (calls w <= calls (op w).2)%nat.
Proof. intros Hop. destruct (Hop w) as (_ & Hc & _); [|done]. split_and!; [lia | lia | done]. Qed.

Lemma entries_ok_calls m c c' w : entries_ok G m c' w -> (c <= calls w)%nat -> entries_ok G m c w.
Proof. intros (? & ? & ?) ?. done. Qed.

Lemma bind_run {A B : Type} (op : R A) (k : A -> R B) (w : world) :
  (exists e, op w = (Err e, (op w).2) /\ (op ≫= k) w = (Err e, (op w).2)) \/
  (exists a, op w = (Ok a, (op w).2) /\ (op ≫= k) w = k a (op w).2).
Proof. unfold mbind, R_bind. destruct (op w) as [[a|e] w1]; eauto. Qed.

End Tickets.

Ltac split_bind Hrun :=
  match goal with
  | |- context [mbind (M := R) ?k ?op ?w] => destruct (bind_run op k w) as [(? & _ & ->)|(? & Hrun & ->)]
  end.

Section Creation.
Context `{Host} `{ControlCodec} `{TicketCodec} (G : nat -> place -> bytes -> bytes -> Prop) (HG : lawful G).

Lemma create_ticket_keeps ticket w (m c : nat) :
  entries_ok G m c w ->
  (forall i id n k c', drawn i id -> (m <= i < n)%nat -> (calls w <= c' < calls (create_ticket ticket w).2)%nat ->
     validate_ticket ticket = Ok () -> G n TicketsDir (record_name id) (take k (issued_content id (clock_at c') ticket))) ->
  entries_ok G m c (create_ticket ticket w).2.
Proof.
  pose proof anything_lawful. unfold create_ticket. intros Hw.
  split_bind Hv;
    [by destruct (validate_ticket ticket)|].
  apply checked_text_Ok in Hv as [Hv Heq]. rewrite <- Heq. clear Heq.
  pose proof (keeps_ensure (dir_ok G) m c TicketsDir w Hw) as Hw1.
  pose proof (calls_grow (ensure_private_ticket_directory TicketsDir) w (keeps_ensure _ _ _ _)) as Hc1.
  split_bind Hx; [done|].
  set (w1 := (_ w).2) in *.
  pose proof (keeps_record_lock (dir_ok G) (lawful_closed G HG) m c TicketsDir eq_refl w1 Hw1) as Hw2.
  pose proof (calls_grow (acquire_runtime_record_lock TicketsDir) w1 (keeps_record_lock _ anything_closed _ _ TicketsDir eq_refl)) as Hc2.
  split_bind Hy; [done|].
  set (w2 := (_ w1).2) in *.
  pose proof (keeps_unix_time (dir_ok G) m c w2 Hw2) as Hw3.
  split_bind Hat; [done|].
  apply unix_time_Ok in Hat as [-> Hc3]. set (w3 := (_ w2).2) in *.
  destruct (checked_add _ _) as [expires|] eqn:Eadd; [|done]. apply checked_add_Some in Eadd as [-> _].
  change (clock_at (calls w2) + as_millis TICKET_TTL) with (expiry (clock_at (calls w2))).
  change ((lift (ok_or (Some ?x) _) ≫= ?k) w3) with (k x w3). cbv beta. intros Hg.
  assert (calls w3 <= calls (create_ticket_loop MAX_TICKET_CREATE_ATTEMPTS ticket (clock_at (calls w2))
                               (expiry (clock_at (calls w2))) w3).2)%nat.
  { apply calls_grow. by apply keeps_create_loop. }
  destruct x. apply keeps_create_loop; [done| |done]. intros i id n k Hi Hn. apply (Hg i); [done|done| |done]. lia.
Qed.
End Creation.

(** ** Successful consumption *)

Section Consumption.
Context `{Host} `{ControlCodec} `{TicketCodec}.

Lemma open_file_Ok (p : place) (name : bytes) (w : world) (e : entry) (w' : world) :
  open_private_ticket_file p name w = (Ok (Ok e), w') -> dir_of w p !! name = Some e.
Proof.
  unfold open_private_ticket_file, io, io_partial. destruct (o_fail _); [done|].
  destruct (dir_of w p !! name) as [e'|]; [|done]. destruct (bool_decide _); [done|].
  by intros [= ->].
Qed.
Lemma remove_file_Ok (p : place) (name : bytes) (w w' : world) (u : unit) :
  remove_file p name w = (Ok (Ok u), w') -> dir_of w' p = delete name (dir_of w p).
Proof.
  unfold remove_file, io, io_partial. destruct (o_fail _); [done|].
  destruct (dir_of w p !! name) as [e'|]; [|done]. destruct (bool_decide _); [done|]. intros [= _ <-]. cbn. by rewrite decide_True.
Qed.

(** No file of [place] is named [name]. *)
Definition without (where_ : place) (name : bytes) (n : nat) (p : place) (x data : bytes) : Prop := p = where_ -> x <> name.
Lemma without_lawful where_ name :
  name <> lock_of where_ -> lawful (without where_ name).
Proof. intros Hn. split; [done|]. by intros n p ->. Qed.
Lemma record_without_lookup where_ name m c w : entries_ok (without where_ name) m c w <->
  (m <= randoms w)%nat /\ (c <= calls w)%nat /\ dir_of w where_ !! name = None.
Proof.
  split; intros (Hm & Hc & Hd); split_and!; try done.
  - specialize (Hd where_). destruct (dir_of w where_ !! name) as [e|] eqn:E; [|done]. by destruct (Hd _ _ E eq_refl).
  - intros p x e Hx -> ->. congruence.
Qed.
Lemma entries_lookup (G : nat -> place -> bytes -> bytes -> Prop) m c w (p : place) (name : bytes) (e : entry) :
  entries_ok G m c w -> dir_of w p !! name = Some e -> G (randoms w) p name (e_data e).
Proof. intros (_ & _ & Hd) He. exact (Hd p name e He). Qed.

Lemma take_record_Ok (G : nat -> place -> bytes -> bytes -> Prop) (HG : lawful G) (m c : nat) p name w e w' :
  is_record_dir p -> entries_ok G m c w -> take_runtime_record p name w = (Ok e, w') ->
  (exists n, G n p name (e_data e) /\ (n <= randoms w')%nat) /\ dir_of w' p !! name = None.
Proof.
  intros Hp Hw Hrun. unfold take_runtime_record in Hrun. apply R_bind_Ok in Hrun as (u1 & w1 & Hlock & Hrun).
  apply R_bind_Ok in Hrun as (r & w2 & Hopen & Hrun). run.
  match goal with Hv : validate_private_ticket_file _ _ = (_, ?w3), Hr : remove_open_ticket_file _ _ _ = (_, ?w4),
    Hs : sync_parent_dir _ = _ |- _ => rename Hv into Hvalid, Hr into Hremove, Hs into Hsync end.
  pose proof (keeps_run _ _ _ _ _ (keeps_record_lock _ (lawful_closed G HG) m c p Hp) Hlock Hw) as Hw1.
  pose proof (open_file_Ok _ _ _ _ _ Hopen) as Hfile. apply remove_file_Ok in Hremove as Hgone.
  assert (entries_ok anything (randoms w1) 0 w1) as Ha by (split_and!; [lia | lia | done]).
  apply (keeps_run _ _ _ _ _ (keeps_open _ _ _ _ _) Hopen) in Ha.
  apply (keeps_run _ _ _ _ _ (keeps_validate _ _ _ _) Hvalid) in Ha.
  apply (keeps_run _ _ _ _ _ (keeps_remove_file _ _ _ anything_closed _ _) Hremove) in Ha.
  apply (keeps_run _ _ _ _ _ (keeps_sync_parent _ _ _) Hsync) in Ha as [Hn _].
  split; [exists (randoms w1); split; [by eapply entries_lookup | done]|].
  apply (record_without_lookup p name 0 0), (keeps_run _ _ _ _ _ (keeps_sync_parent _ _ _) Hsync), record_without_lookup.
  rewrite Hgone, lookup_delete_eq. split_and!; [lia | lia | done].
Qed.
Lemma record_name_inj a b : record_name a = record_name b -> a = b.
Proof. unfold record_name. intros Heq. by apply app_inv_tail in Heq. Qed.
Lemma record_name_not_lock id :
  is_ok (validate_ticket_id id) = true ->
  record_name id <> RUNTIME_RECORD_LOCK_FILE.
Proof.
  unfold validate_ticket_id, validate_hex. intros Hid Hin. destruct (_ && _) eqn:E in Hid; [|done].
  apply andb_prop in E as [Hlen Hhex]. destruct id as [|b id]; [done|].
  assert (is_lower_hex b = true) as Hb by by cbn in Hhex; apply andb_prop in Hhex as [? _].
  unfold record_name in Hin. cbn [app] in Hin.
  apply (f_equal (fun s => match s with x :: _ => is_lower_hex x | [] => true end)) in Hin. rewrite Hb in Hin. by vm_compute in Hin.
Qed.

Lemma read_whole limit (e : entry) text w data w' :
  read_at_most (limit + 1) e text w = (Ok data, w') -> zlen data <= limit -> 0 <= limit -> data = e_data e.
Proof.
  unfold read_at_most. intros Hrun Hlen Hl. run. rewrite firstn_all2; [done|]. unfold zlen in Hlen. rewrite length_take in Hlen. lia.
Qed.
Lemma validate_stored_Ok stored id key w u w' :
  validate_stored_ticket stored id key w = (Ok u, w') ->
  validate_stored_ticket_at stored id key (clock_at (calls w)) = Ok () /\ calls w' = S (calls w) /\
  dir_of w' = dir_of w /\ randoms w' = randoms w.
Proof.
  unfold validate_stored_ticket, unix_time_ms, time_of_day. intros Hrun. run. destruct u. by simplify_eq.
Qed.

(** What a successful consumption has found: a file under the ticket's name that decodes, in two
    layers, to a ticket which is valid at a time the consumption read from the clock; and the file
    is gone. *)
Definition decodes (id data : bytes) (now : Z) (ticket : RuntimeTicket) : Prop :=
  exists envelope plain stored,
    envelope_from_slice data = Some envelope /\ base64_decode (te_protected_payload envelope) = Some plain /\
    zlen plain <= MAX_TICKET_BYTES /\ stored_from_slice plain = Some stored /\
    validate_stored_ticket_at stored id (te_workspace_key envelope) now = Ok () /\ st_ticket stored = ticket.

Lemma consume_ticket_Ok (G : nat -> place -> bytes -> bytes -> Prop) (HG : lawful G) (m c : nat) id w ticket w' :
  entries_ok G m c w -> consume_ticket id w = (Ok ticket, w') ->
  is_ok (validate_ticket_id id) = true /\
  (exists n data now_call, G n TicketsDir (record_name id) data /\ (n <= randoms w')%nat /\
     (calls w <= now_call < calls w')%nat /\ decodes id data (clock_at now_call) ticket) /\
  dir_of w' TicketsDir !! record_name id = None.
Proof.
  intros Hw Hrun. unfold consume_ticket in Hrun. apply R_bind_Ok in Hrun as (u & w0 & Hid & Hrun). run.
  match goal with He : ensure_private_ticket_directory _ _ = (_, ?w1), Ht : take_runtime_record _ _ _ = (_, ?w2),
    Hr : read_at_most _ _ _ _ = (_, ?w3), Hv : validate_stored_ticket _ _ _ _ = _, Hd : (zlen ?x >? MAX_TICKET_FILE_BYTES) = false |- _ =>
      rename He into Hensure, Ht into Htake, Hr into Hread, Hv into Hvalid, Hd into Hshort, x into data end.
  pose proof (keeps_run _ _ _ _ _ (keeps_ensure _ m c _) Hensure Hw) as Hw1.
  destruct (take_record_Ok G HG m c TicketsDir _ _ _ _ eq_refl Hw1 Htake) as [(n & Hg & Hn) Hnone].
  split; [by match goal with Hx : validate_ticket_id id = _ |- _ => rewrite Hx end|].
  apply read_whole in Hread as Hdata; [|lia|done].
  destruct (validate_stored_Ok _ _ _ _ _ _ Hvalid) as (Hstored & Hc & Hdir & Hrandom).
  assert (entries_ok anything 0 (calls w0) w0) as Ha by (split_and!; [lia | lia | done]).
  apply (keeps_run _ _ _ _ _ (keeps_ensure _ _ _ _) Hensure) in Ha.
  apply (keeps_run _ _ _ _ _ (keeps_take _ anything_closed _ _ TicketsDir _ eq_refl) Htake) in Ha.
  apply (keeps_run _ _ _ _ _ (keeps_read_at_most _ _ _ _ _ _) Hread) in Ha as (_ & Hcalls & _).
  match type of Htake with _ = (_, ?w2) => assert (entries_ok (without TicketsDir (record_name id)) (randoms w2) 0 w2) as Hb end.
  { apply record_without_lookup. split_and!; [lia | lia | done]. }
  apply (keeps_run _ _ _ _ _ (keeps_read_at_most _ _ _ _ _ _) Hread), record_without_lookup in Hb as (Hb & _ & Hnone').
  rewrite Hdir. split; [|done]. exists n, data. match type of Hvalid with _ ?w3 = _ => exists (calls w3) end.
  split_and!; [by rewrite Hdata | lia | lia | lia |]. unfold unprotect_ticket_content, decodes in *. inv_ok. eauto 10 with lia.
Qed.
End Consumption.
