(* ===== verification/RuntimeHistoryProps.v ===== *)
(** * What every history of runtime records satisfies

    Tickets are served once, and only what was issued, in time. *)
From S2P Require Import Prelude Protocol RuntimeMessages RuntimeMachine LspProxy RemoteHost RuntimeRecords RuntimeControl RuntimeTickets RuntimeTrust RuntimeRecordsProps RuntimeHistory.

Section History.
Context `{Host} `{ControlCodec} `{TicketCodec} `{TrustCodec}.

Inductive operation :=
| CreateTicket (ticket : RuntimeTicket) | ConsumeTicket (id : bytes) | RemoveTicket (id : bytes)
| WriteResult (id : bytes) (result : RuntimeProxyResult) | ConsumeResult (id : bytes)
| EnqueueSignal (id signal : bytes) | OpenMailbox (id : bytes) | DrainSignals (id : bytes) | DiscardSignals (id : bytes)
| SetTrust (digest : bytes) (trusted : bool) | CheckTrust (digest : bytes) | PrepareState.
Inductive answer :=
| TicketId (id : bytes) | Ticket (ticket : RuntimeTicket) | Result_ (result : RuntimeProxyResult)
| Signals (signals : list RuntimeSignal) | Trusted (trusted : bool) | Done.

Definition perform (op : operation) : R answer :=
  match op with
  | CreateTicket ticket => id ← create_ticket ticket; mret (TicketId id)
  | ConsumeTicket id => ticket ← consume_ticket id; mret (Ticket ticket)
  | RemoveTicket id => _ ← remove_ticket id; mret Done
  | WriteResult id result => _ ← write_runtime_result id result; mret Done
  | ConsumeResult id => result ← consume_runtime_result id; mret (Result_ result)
  | EnqueueSignal id signal => _ ← enqueue_signal id signal; mret Done
  | OpenMailbox id => _ ← mailbox_open id; mret Done
  | DrainSignals id => signals ← drain id; mret (Signals signals)
  | DiscardSignals id => _ ← discard id; mret Done
  | SetTrust digest trusted => _ ← set_workspace_trust digest trusted; mret Done
  | CheckTrust digest => trusted ← check_workspace_trust digest; mret (Trusted trusted)
  | PrepareState => _ ← prepare_runtime_state; mret Done
  end.

Record step := { s_op : operation; s_before : world; s_result : result stop answer; s_after : world }.
Definition take_step (op : operation) (w : world) : step := {|
  s_op := op; s_before := w; s_result := (perform op w).1; s_after := (perform op w).2 |}.
Fixpoint trace (ops : list operation) (w : world) : list step :=
  match ops with
  | [] => []
  | op :: ops => take_step op w :: trace ops (perform op w).2
  end.
Fixpoint after_all (ops : list operation) (w : world) : world :=
  match ops with [] => w | op :: ops => after_all ops (perform op w).2 end.

Lemma trace_app ops1 ops2 w : trace (ops1 ++ ops2) w = trace ops1 w ++ trace ops2 (after_all ops1 w).
Proof. revert w. induction ops1 as [|op ops1 IH]; intros w; cbn; [done|]. by rewrite IH. Qed.
Lemma after_all_app ops1 ops2 w : after_all (ops1 ++ ops2) w = after_all ops2 (after_all ops1 w).
Proof. revert w. induction ops1 as [|op ops1 IH]; intros w; cbn; [done|]. apply IH. Qed.
Lemma trace_split ops w i s :
  trace ops w !! i = Some s ->
  exists before op after_, ops = before ++ op :: after_ /\ length before = i /\ s = take_step op (after_all before w).
Proof.
  revert w i. induction ops as [|op ops IH]; intros w i Hs; [done|]. destruct i as [|i]; cbn in Hs.
  - injection Hs as <-. by exists [], op, ops.
  - apply IH in Hs as (before & op' & rest & -> & <- & ->). by exists (op :: before), op', rest.
Qed.
Lemma trace_length ops w : length (trace ops w) = length ops.
Proof. revert w. induction ops as [|op ops IH]; intros w; cbn; [done|]. by rewrite IH. Qed.

(** Every operation but the creation of a ticket keeps any rule on tickets. *)
Definition only_tickets (D : nat -> place -> directory -> Prop) : Prop :=
  free D RuntimeDir /\ free D ResultsDir /\ free D ControlDir.
Lemma perform_keeps (D : nat -> place -> directory -> Prop) (m c : nat) op :
  closed D -> only_tickets D -> (forall ticket, op <> CreateTicket ticket) -> keeps (dirs_ok D m c) (perform op).
Proof.
  intros HD (Hr & Hs & Hc) Hop.
  destruct op; cbn [perform]; try (by destruct (Hop ticket));
    pose proof keeps_consume; pose proof keeps_remove_ticket; pose proof keeps_consume_result;
    pose proof keeps_write_result; keep_steps.
Qed.

(** ** Only what was issued *)

Definition issued (tr : list step) (ticket : RuntimeTicket) (at_ : Z) : Prop :=
  exists s c, s ∈ tr /\ s_op s = CreateTicket ticket /\ (calls (s_before s) <= c < calls (s_after s))%nat /\ at_ = clock_at c.
(** A file among the tickets is a lock, or the beginning of an issued ticket under its name. *)
Definition issued_rule (tr : list step) (n : nat) (p : place) (name data : bytes) : Prop :=
  p = TicketsDir -> name = RUNTIME_RECORD_LOCK_FILE \/
    exists id ticket at_ i k, issued tr ticket at_ /\ drawn i id /\ (i < n)%nat /\ name = record_name id /\
      data = take k (issued_content id at_ ticket).
Lemma issued_rule_lawful tr : lawful (issued_rule tr).
Proof.
  split; [|intros n p ->; by left].
  intros n n' p name data Hle Hg Hp. destruct (Hg Hp) as [?|(id & t & at_ & i & k & ? & ? & ? & ? & ?)]; [by left|].
  right. exists id, t, at_, i, k. split_and!; (done || lia).
Qed.
Lemma issued_rule_only tr : only_tickets (dir_ok (issued_rule tr)).
Proof. split_and!; by intros n d name e. Qed.
Lemma issued_grows tr s ticket at_ : issued tr ticket at_ -> issued (tr ++ [s]) ticket at_.
Proof. intros (s' & c & Hin & ?). exists s', c. split; [|done]. apply elem_of_app. by left. Qed.
Lemma issued_rule_grows tr s m c w : entries_ok (issued_rule tr) m c w -> entries_ok (issued_rule (tr ++ [s])) m c w.
Proof.
  intros (? & ? & Hd). split_and!; [done..|]. intros p name e He Hp.
  destruct (Hd p name e He Hp) as [?|(id & t & at_ & i & k & ? & ?)]; [by left|]. right.
  exists id, t, at_, i, k. split; [by apply issued_grows | done].
Qed.

Lemma histories_issue ops w0 :
  dir_of w0 TicketsDir = ∅ -> entries_ok (issued_rule (trace ops w0)) 0 0 (after_all ops w0).
Proof.
  intros Hempty. induction ops as [|op ops IH] using rev_ind.
  { split_and!; [cbn; lia.. |]. intros p name e He ->. cbn in He. by rewrite Hempty, lookup_empty in He. }
  rewrite trace_app, after_all_app. cbn [trace after_all]. set (w := after_all ops w0) in *.
  set (tr := trace ops w0) in *. set (s := take_step op w).
  pose proof (issued_rule_grows _ s _ _ _ IH) as Hw.
  assert ((exists ticket, op = CreateTicket ticket) \/ forall ticket, op <> CreateTicket ticket) as [(ticket & ->)|Hop]
    by (destruct op; eauto).
  - assert (Hsnd : (perform (CreateTicket ticket) w).2 = (create_ticket ticket w).2).
    { cbn. unfold mbind, R_bind. by destruct (create_ticket ticket w) as [[]]. }
    rewrite Hsnd. apply create_ticket_keeps; [apply issued_rule_lawful | done|].
    intros i id n k c Hd Hi Hc _ _. right. exists id, ticket, (clock_at c), i, k. split_and!; [|done|lia|done..].
    exists s, c. split; [apply elem_of_app; right; by apply list_elem_of_singleton|]. subst s. cbn [s_op s_before s_after take_step].
    by rewrite Hsnd.
  - by apply perform_keeps; [apply lawful_closed, issued_rule_lawful | apply issued_rule_only | |].
Qed.

Lemma content_decodes id id' at_ ticket k now ticket' :
  decodes id' (take k (issued_content id at_ ticket)) now ticket' ->
  ticket' = ticket /\ validate_stored_ticket_at (stored_ticket id at_ (expiry at_) ticket) id' (t_workspace_key ticket) now = Ok ().
Proof.
  intros (envelope & plain & stored & He & Hb & _ & Hs & Hv & <-).
  unfold issued_content, ticket_content, protect_ticket_content in He.
  destruct (decide (k < length (envelope_to_vec {| te_schema_version := TICKET_SCHEMA_VERSION;
      te_workspace_key := t_workspace_key (st_ticket (stored_ticket id at_ (expiry at_) ticket)); te_protection := PosixMode;
      te_protected_payload := base64_encode (stored_to_vec (stored_ticket id at_ (expiry at_) ticket)) |}))%nat) as [Hk|Hk].
  { by rewrite envelope_prefix in He. }
  rewrite firstn_all2, envelope_roundtrip in He by lia. injection He as <-. cbn in *.
  rewrite base64_roundtrip in Hb. injection Hb as <-. rewrite stored_roundtrip in Hs. by injection Hs as <-.
Qed.

(** Consumption at a moment of a history *)
Lemma consume_step op w id ticket :
  s_op (take_step op w) = ConsumeTicket id -> s_result (take_step op w) = Ok (Ticket ticket) ->
  consume_ticket id w = (Ok ticket, s_after (take_step op w)).
Proof.
  cbn. intros -> Hr. cbn in *. unfold mbind, R_bind in *. destruct (consume_ticket id w) as [[t|e] w']; cbn in *; by simplify_eq.
Qed.

(** C13 (safety) Whatever order the commands come in, whichever calls fail and whatever the clock
    shows, a bridge only ever gets a ticket that an earlier command issued: exactly that ticket, valid
    when it was issued, issued at most thirty seconds before and at most five seconds after the time the
    bridge read from its clock.  A ticket whose writer failed half-way, or that names another workspace
    or another identifier, is never served. *)
Theorem served_ticket_was_issued ops w0 i s id ticket :
  dir_of w0 TicketsDir = ∅ ->
  trace ops w0 !! i = Some s -> s_op s = ConsumeTicket id -> s_result s = Ok (Ticket ticket) ->
  exists j s' issue read,
    (j < i)%nat /\ trace ops w0 !! j = Some s' /\ s_op s' = CreateTicket ticket /\
    (calls (s_before s') <= issue < calls (s_after s'))%nat /\ (calls (s_before s) <= read < calls (s_after s))%nat /\
    clock_at issue <= saturating_add (clock_at read) 5000 /\ clock_at read <= clock_at issue + 30000 /\
    validate_ticket ticket = Ok ().
Proof.
  intros Hempty Hs Hop Hres. apply trace_split in Hs as (before & op & rest & -> & <- & ->).
  pose proof (histories_issue before w0 Hempty) as Hw. set (w := after_all before w0) in *.
  pose proof (consume_step _ _ _ _ Hop Hres) as Hrun.
  destruct (consume_ticket_Ok _ (issued_rule_lawful _) 0 0 _ _ _ _ Hw Hrun) as (Hid & (n & data & read & Hg & _ & Hread & Hdec) & _).
  destruct (Hg eq_refl) as [Hlock|(id' & t & at_ & k & len & (s' & issue & Hin & Hop' & Hissue & ->) & _ & _ & _ & ->)].
  { by destruct (record_name_not_lock id Hid). }
  apply content_decodes in Hdec as [-> Hv]. apply list_elem_of_lookup in Hin as [j Hj].
  exists j, s', issue, read. unfold validate_stored_ticket_at in Hv. cbn in Hv. inv_ok.
  assert (as_millis TICKET_TTL = 30000 /\ as_millis TICKET_CLOCK_SKEW = 5000) as [Httl Hskew] by done.
  unfold expiry in *. rewrite Httl, Hskew in *.
  assert (j < length before)%nat by (rewrite <- (trace_length before w0); by eapply lookup_lt_Some).
  rewrite trace_app, lookup_app_l by (rewrite trace_length; lia). cbn [s_before take_step]. split_and!; (done || lia).
Qed.

(** ** At most once *)

(** No ticket is named [id] as long as at most [N] random values are drawn. *)
Definition never_again (id : bytes) (N n : nat) (p : place) (name data : bytes) : Prop :=
  p = TicketsDir -> (n <= N)%nat -> name <> record_name id.
Lemma never_again_lawful id N : is_ok (validate_ticket_id id) = true -> lawful (never_again id N).
Proof.
  intros Hid. split; [intros n n' p name data Hle Hg Hp HN; apply Hg; [done|lia]|].
  intros n p -> _ Heq. by destruct (record_name_not_lock id Hid).
Qed.
Lemma never_again_only id N : only_tickets (dir_ok (never_again id N)).
Proof. split_and!; by intros n d name e. Qed.

(** No two of the first [N] identifiers drawn are equal. *)
Definition distinct_ids (N : nat) : Prop :=
  forall i j r, (i < N)%nat -> (j < N)%nat ->
    random_of i TICKET_ID_BYTES = Some r -> random_of j TICKET_ID_BYTES = Some r -> i = j.

Lemma randoms_grow op w : (randoms w <= randoms (perform op w).2)%nat.
Proof.
  assert (entries_ok anything (randoms w) 0 w) as Hw by (split_and!; [lia | lia | done]).
  assert ((exists ticket, op = CreateTicket ticket) \/ forall ticket, op <> CreateTicket ticket) as [(ticket & ->)|Hop]
    by (destruct op; eauto).
  - cbn. destruct (create_ticket_keeps anything anything_lawful ticket w _ _ Hw) as [Hm _]; [done|].
    unfold mbind, R_bind. by destruct (create_ticket ticket w) as [[]].
  - by destruct (perform_keeps (dir_ok anything) _ _ op anything_closed (conj (fun _ _ _ _ _ => I) (conj (fun _ _ _ _ _ => I) (fun _ _ _ _ _ => I))) Hop w Hw).
Qed.
Lemma randoms_grow_all ops w : (randoms w <= randoms (after_all ops w))%nat.
Proof.
  revert w. induction ops as [|op ops IH]; intros w; [done|]. cbn.
  pose proof (randoms_grow op w). specialize (IH (perform op w).2). lia.
Qed.

Lemma never_again_kept ops w id i N :
  is_ok (validate_ticket_id id) = true -> drawn i id -> distinct_ids N ->
  entries_ok (never_again id N) (S i) 0 w -> entries_ok (never_again id N) (S i) 0 (after_all ops w).
Proof.
  intros Hid (r & Hr & Heq) Hdistinct. revert w. induction ops as [|op ops IH]; intros w Hw; [done|]. cbn. apply IH.
  assert ((exists ticket, op = CreateTicket ticket) \/ forall ticket, op <> CreateTicket ticket) as [(ticket & ->)|Hop]
    by (destruct op; eauto).
  - assert (Hsnd : (perform (CreateTicket ticket) w).2 = (create_ticket ticket w).2).
    { cbn. unfold mbind, R_bind. by destruct (create_ticket ticket w) as [[]]. }
    rewrite Hsnd. apply create_ticket_keeps; [by apply never_again_lawful | done|].
    intros j id' n k c (r' & Hr' & Heq') Hj _ _ _ HN Hname. apply record_name_inj in Hname as Hname'.
    rewrite Heq, Heq' in Hname'. apply hex_bytes_inj in Hname' as ->.
    enough (j = i) by lia. eapply Hdistinct; [lia | lia | done | done].
  - by apply perform_keeps; [by apply lawful_closed, never_again_lawful | apply never_again_only | |].
Qed.

(** C12 (safety) A runtime ticket is used at most once: in every history of commands in which no two
    of the identifiers drawn are equal, with any failing calls and any clock, at most one attempt to
    consume an identifier gets a ticket; every later one is refused. *)
Theorem ticket_served_once ops w0 i j si sj id ti tj :
  dir_of w0 TicketsDir = ∅ -> distinct_ids (randoms (after_all ops w0)) ->
  trace ops w0 !! i = Some si -> s_op si = ConsumeTicket id -> s_result si = Ok (Ticket ti) ->
  trace ops w0 !! j = Some sj -> s_op sj = ConsumeTicket id -> s_result sj = Ok (Ticket tj) ->
  i = j.
Proof.
  intros Hempty Hdistinct. revert i j si sj ti tj.
  assert (Hlt : forall i j si sj ti tj,
    trace ops w0 !! i = Some si -> s_op si = ConsumeTicket id -> s_result si = Ok (Ticket ti) ->
    trace ops w0 !! j = Some sj -> s_op sj = ConsumeTicket id -> s_result sj = Ok (Ticket tj) -> (i < j)%nat -> False); cycle 1.
  { intros i j si sj ti tj ? ? ? ? ? ?. destruct (Nat.lt_total i j) as [Hl|[?|Hl]]; [|done|]; exfalso;
    [eapply (Hlt i j) | eapply (Hlt j i)]; eassumption. }
  intros i j si sj ti tj Hi Hopi Hri Hj Hopj Hrj Hlt.
  apply trace_split in Hi as (before & op & rest & -> & <- & ->). rewrite trace_app in Hj.
  rewrite lookup_app_r in Hj by (rewrite trace_length; lia). rewrite trace_length in Hj.
  destruct (j - length before)%nat as [|d] eqn:Ed; [lia|]. cbn in Hj. apply trace_split in Hj as (between & op' & rest' & -> & _ & ->).
  set (w := after_all before w0) in *. pose proof (consume_step _ _ _ _ Hopi Hri) as Hrun.
  destruct (consume_ticket_Ok _ (issued_rule_lawful _) 0 0 _ _ _ _ (histories_issue before w0 Hempty) Hrun)
    as (Hid & (n & data & read & Hg & Hn & _ & _) & Hnone).
  destruct (Hg eq_refl) as [Hlock|(id' & t & at_ & k & len & _ & Hdrawn & Hk & Hname & _)]; [by destruct (record_name_not_lock id Hid)|].
  apply record_name_inj in Hname as <-. set (w1 := s_after (take_step op w)) in *.
  rewrite after_all_app in Hdistinct. cbn [after_all] in Hdistinct. fold w w1 in Hdistinct.
  set (N := randoms (after_all _ _)) in Hdistinct.
  assert (entries_ok (never_again id N) (S k) 0 w1) as Hw1.
  { split_and!; [lia | lia |]. intros p name e He -> _ ->. congruence. }
  apply (never_again_kept between _ _ _ _ Hid Hdrawn Hdistinct) in Hw1.
  pose proof (consume_step _ _ _ _ Hopj Hrj) as Hrun'.
  destruct (consume_ticket_Ok _ (never_again_lawful id N Hid) _ _ _ _ _ _ Hw1 Hrun') as (_ & (n' & data' & _ & Hg' & Hn' & _) & _).
  apply (Hg' eq_refl); [|done]. etrans; [exact Hn'|]. subst N. rewrite after_all_app. cbn. apply randoms_grow_all.
Qed.
End History.
