(* ===== verification/RuntimeServe.v ===== *)
(** * A ticket that was issued is served

    What a successful creation leaves in the directory, and what consumption makes of it when its
    calls work and the ticket is in time. *)
From stdpp Require Import sorting.
From S2P Require Import Prelude Protocol RuntimeMessages RuntimeMachine LspProxy RemoteHost RuntimeRecords RuntimeControl RuntimeTickets RuntimeRecordsProps RuntimeHistory.

(** ** Files an operation does not touch *)

Section Frame.
Context `{Host} (where_ : place) (name : bytes) (v : option entry).
Definition holds (w : world) : Prop := dir_of w where_ !! name = v.

Lemma frame_io_partial {A : Type} (p : place) (f : outcome -> directory -> result io_kind A * directory)
    (partial : outcome -> directory -> directory) :
  (p = where_ -> forall (o : outcome) (d : directory), d !! name = v -> (f o d).2 !! name = v /\ partial o d !! name = v) ->
  keeps holds (io_partial p f partial).
Proof.
  intros Hf w Hw. unfold io_partial, holds in *. destruct (decide (p = where_)) as [->|Hne].
  - destruct (Hf eq_refl (outcome_of (calls w)) _ Hw) as [H1 H2].
    destruct (o_fail _); [|destruct (f _ _) as [r d]]; cbn; by rewrite decide_True.
  - destruct (o_fail _); [|destruct (f _ _) as [r d]]; cbn; by rewrite decide_False.
Qed.
Lemma frame_io {A : Type} (p : place) (f : outcome -> directory -> result io_kind A * directory) :
  (p = where_ -> forall (o : outcome) (d : directory), d !! name = v -> (f o d).2 !! name = v) -> keeps holds (io p f).
Proof. intros Hf. apply frame_io_partial. auto. Qed.
Lemma frame_pure_io {A : Type} (p : place) (f : outcome -> directory -> result io_kind A) :
  keeps holds (io p (fun o d => (f o d, d))).
Proof. by apply frame_io. Qed.
Lemma frame_handle_call : keeps holds handle_call.
Proof. apply frame_pure_io. Qed.
Lemma frame_time_of_day : keeps holds time_of_day.
Proof. by intros w. Qed.
Lemma frame_instant_now : keeps holds instant_now.
Proof. by intros w. Qed.
Lemma frame_sleep d : keeps holds (sleep d).
Proof. by intros w. Qed.
Lemma frame_random n : keeps holds (random_hex_id n).
Proof. intros w Hw. unfold random_hex_id. by destruct (random_of _ _). Qed.
Lemma frame_open (p : place) (x : bytes) : keeps holds (open_private_ticket_file p x).
Proof. apply frame_io. intros _ o d Hd. by destruct (d !! x). Qed.
Lemma frame_symlink_metadata (p : place) (x : bytes) : keeps holds (symlink_metadata p x).
Proof. by apply frame_io. Qed.
Definition apart (p : place) (x : bytes) : Prop := p <> where_ \/ x <> name.
Lemma frame_remove_file (p : place) (x : bytes) : apart p x -> keeps holds (remove_file p x).
Proof.
  intros Hx. apply frame_io. intros -> o d Hd. destruct (d !! x) as [e|]; [|done]. destruct (bool_decide _); [done|].
  destruct Hx as [|Hx]; [done|]. cbn [snd]. by rewrite lookup_delete_ne.
Qed.
Lemma frame_create (p : place) (x : bytes) : apart p x -> keeps holds (create_private_ticket_file p x).
Proof.
  intros Hx. apply frame_io. intros -> o d Hd. destruct (d !! x); [done|]. destruct Hx as [|Hx]; [done|]. cbn [snd]. by rewrite lookup_insert_ne.
Qed.
Lemma frame_write (p : place) (x content : bytes) : apart p x -> keeps holds (write_all p x content).
Proof.
  intros Hx. apply frame_io_partial. intros -> o d Hd. destruct Hx as [|Hx]; [done|]. cbn. by rewrite !lookup_alter_ne.
Qed.
End Frame.
#[export] Hint Resolve frame_pure_io frame_handle_call frame_time_of_day frame_instant_now frame_sleep frame_random frame_open
  frame_symlink_metadata frame_remove_file frame_create frame_write : record_keeps.

Section Frames.
Context `{Host} (where_ : place) (name : bytes) (v : option entry).
Abbreviation I := (holds where_ name v).
Lemma frame_validate (file : entry) : keeps I (validate_private_ticket_file file).
Proof. unfold validate_private_ticket_file. keep_steps. Qed.
Lemma frame_sync_parent : keeps I sync_parent_dir.
Proof. unfold sync_parent_dir. keep_steps. Qed.
Lemma frame_unix_time : keeps I unix_time_ms.
Proof. unfold unix_time_ms. keep_steps. Qed.
Lemma frame_ensure (p : place) : keeps I (ensure_private_ticket_directory p).
Proof. unfold ensure_private_ticket_directory. keep_steps. Qed.
Lemma frame_read_at_most (limit : Z) (file : entry) (text : bytes) : keeps I (read_at_most limit file text).
Proof. unfold read_at_most. keep_steps. Qed.
Lemma frame_lock_loop fuel deadline : keeps I (lock_loop fuel deadline).
Proof. induction fuel as [|fuel IH]; cbn [lock_loop]; unfold try_lock; keep_steps. Qed.
Lemma frame_scan (p : place) (wanted : bytes -> bool) (maximum : Z) : keeps I (scan_directory p wanted maximum).
Proof.
  assert (Hloop : forall names found, keeps I (scan_loop p wanted maximum names found)).
  { induction names as [|x names IH]; intros found; cbn [scan_loop]; keep_steps. }
  unfold scan_directory, read_dir. keep_steps.
Qed.
End Frames.
#[export] Hint Resolve frame_validate frame_sync_parent frame_unix_time frame_ensure frame_read_at_most frame_lock_loop frame_scan : record_keeps.

Section Records.
Context `{Host} (where_ : place) (name : bytes) (v : option entry).
Abbreviation I := (holds where_ name v).
Lemma frame_publication (p : place) : keeps I (validate_runtime_record_publication p).
Proof. unfold validate_runtime_record_publication, runtime_record_usage, scan_runtime_record_directory. keep_steps. Qed.
(** Cleaning up removes records and nothing else. *)
Lemma frame_prepare (p : place) (excluded : option bytes) (additional : Z) :
  runtime_record_id name = None -> keeps I (prepare_runtime_record_publication p excluded additional).
Proof.
  intros Hname.
  assert (Horphan : forall x, x <> name -> keeps I (remove_orphan p x)).
  { intros x Hx. unfold remove_orphan, remove_open_ticket_file. assert (apart where_ name p x) by by right. keep_steps. }
  assert (Hloop : forall age now entries removed, keeps I (cleanup_loop p excluded age now entries removed)).
  { intros age now. induction entries as [|x entries IH]; intros removed; cbn [cleanup_loop]; [keep_steps|].
    destruct (runtime_record_id (se_name x)) as [id|] eqn:E; [|done]. assert (se_name x <> name) by congruence. keep_steps. }
  unfold prepare_runtime_record_publication, cleanup_orphan_runtime_records_with_policy, scan_runtime_record_directory. keep_steps.
Qed.
Lemma frame_fill (p : place) (x content : bytes) (file : entry) (t1 t2 : bytes) :
  apart where_ name p x -> keeps I (fill_record p x content file t1 t2).
Proof.
  intros Hx. unfold fill_record, write_new_file, file_sync_all, remove_new_runtime_record, remove_open_ticket_file.
  pose proof frame_publication. keep_steps.
Qed.
End Records.
#[export] Hint Resolve frame_publication frame_fill : record_keeps.

(** Carries what a file holds along a successful run. *)
Ltac carry :=
  repeat match goal with
  | Hv : ?op ?w1 = (_, ?w2), Hd : dir_of ?w1 ?p !! ?name = ?v |- _ =>
      lazymatch goal with
      | _ : dir_of w2 p !! name = v |- _ => fail
      | |- _ =>
        let Hk := fresh in
        assert (Hk : keeps (holds p name v) op) by solve [eauto with record_keeps];
        assert (dir_of w2 p !! name = v) by exact (keeps_run _ _ _ _ _ Hk Hv Hd); clear Hk
      end
  end.

(** ** What a successful creation leaves *)

Section Creation.
Context `{Host} `{ControlCodec} `{TicketCodec}.

Definition private (e : entry) : bool :=
  bool_decide (e_kind e = Regular) && (e_nlink e =? 1) && (e_uid e =? effective_uid) && (Z.land (e_mode e) 4095 =? 384).
Lemma record_validate_Ok e w u w' : validate_private_ticket_file e w = (Ok u, w') -> private e = true.
Proof.
  unfold validate_private_ticket_file, private. intros Hrun. run. to_prop. rewrite !andb_true_iff, bool_decide_eq_true, !Z.eqb_eq. done.
Qed.
Lemma create_file_Ok (p : place) (name : bytes) (w : world) (e : entry) (w' : world) :
  create_private_ticket_file p name w = (Ok (Ok e), w') -> dir_of w' p !! name = Some e.
Proof.
  unfold create_private_ticket_file, io, io_partial. destruct (o_fail _); [done|].
  destruct (dir_of w p !! name) as [e'|]; [done|]. intros [= <- <-]. cbn. by rewrite decide_True, lookup_insert_eq.
Qed.
Lemma write_file_Ok (p : place) (name content : bytes) (w : world) (u : unit) (w' : world) (e : entry) :
  write_all p name content w = (Ok (Ok u), w') -> dir_of w p !! name = Some e ->
  exists o, dir_of w' p !! name = Some (written content o e).
Proof.
  unfold write_all, io_partial. destruct (o_fail _); [done|]. intros [= _ <-] He. eexists. cbn.
  by rewrite decide_True, lookup_alter_eq, He.
Qed.
Lemma open_lock_Ok fuel (p : place) (name : bytes) w e w' :
  open_lock fuel p name w = (Ok e, w') -> dir_of w' p !! name = Some e.
Proof.
  revert w. induction fuel as [|fuel IH]; intros w Hrun; [done|]. cbn [open_lock] in Hrun.
  apply R_bind_Ok in Hrun as (r & w1 & Hopen & Hrun). destruct r as [file|[]].
  all: try discriminate.
  - run. apply (keeps_run _ _ _ _ _ (frame_open p name (Some e) p name) Hopen), (open_file_Ok _ _ _ _ _ Hopen).
  - apply R_bind_Ok in Hrun as (r & w2 & Hcreate & Hrun). destruct r as [file|[]]; run; by eapply IH.
Qed.
Lemma lock_Ok (p : place) (name : bytes) w u w' :
  acquire_private_runtime_lock p name w = (Ok u, w') -> exists e, dir_of w' p !! name = Some e /\ private e = true.
Proof.
  unfold acquire_private_runtime_lock. intros Hrun. run.
  match goal with Hl : open_lock _ _ _ _ = (Ok ?e, _) |- _ => exists e; rename Hl into Hopen end.
  split; [|by eapply record_validate_Ok]. apply open_lock_Ok in Hopen.
  carry. done.
Qed.
Lemma private_written content o e : private (written content o e) = private e.
Proof. done. Qed.
Lemma fill_Ok (p : place) (name content : bytes) (file : entry) (t1 t2 : bytes) w u w' e :
  fill_record p name content file t1 t2 w = (Ok u, w') -> dir_of w p !! name = Some e ->
  private file = true /\ exists o, dir_of w' p !! name = Some (written content o e).
Proof.
  unfold fill_record. intros Hrun He. apply R_bind_Ok in Hrun as (r & w1 & Hfill & Hrun).
  apply attempt_Ok in Hfill. destruct r as [u1|e1]; [|run].
  apply R_bind_Ok in Hrun as (r & w2 & Hpub & Hrun). destruct r as [u2|e2]; run. apply attempt_Ok in Hpub.
  run. unfold write_new_file in *. run.
  split; [by eapply record_validate_Ok|]. carry.
  match goal with Hw : write_all _ _ _ ?w1 = _, Hd : dir_of ?w1 p !! name = Some e |- _ =>
    destruct (write_file_Ok _ _ _ _ _ _ _ Hw Hd) as [o Ho] end.
  exists o. unfold file_sync_all in *. carry. done.
Qed.

Record created (id : bytes) (at_ : Z) (ticket : RuntimeTicket) (w : world) : Prop := {
  created_id : is_ok (validate_ticket_id id) = true;
  created_fits : zlen (issued_content id at_ ticket) <= MAX_TICKET_FILE_BYTES;
  created_file : exists e, dir_of w TicketsDir !! record_name id = Some e /\ private e = true /\
                   e_data e = issued_content id at_ ticket;
  created_lock : exists e, dir_of w TicketsDir !! RUNTIME_RECORD_LOCK_FILE = Some e /\ private e = true }.

Lemma create_loop_Ok attempts ticket at_ w id w' :
  create_ticket_loop attempts ticket at_ (expiry at_) w = (Ok id, w') ->
  (exists e, dir_of w TicketsDir !! RUNTIME_RECORD_LOCK_FILE = Some e /\ private e = true) -> created id at_ ticket w'.
Proof.
  revert w. induction attempts as [|attempts IH]; intros w Hrun (el & Hlock & Hpl); [done|]. cbn [create_ticket_loop] in Hrun.
  apply R_bind_Ok in Hrun as (new & w1 & Hnew & Hrun). run.
  match goal with Hv : validate_ticket_id _ = Ok ?u |- _ => rename Hv into Hid; destruct u end.
  assert (Hap : apart TicketsDir RUNTIME_RECORD_LOCK_FILE TicketsDir (record_name new)).
  { right. intros Heq. apply (record_name_not_lock new); by rewrite ?Hid. }
  match goal with Hp : prepare_runtime_record_publication _ _ _ _ = _ |- _ =>
    rename Hp into Hprep;
    assert (Hprep' := fun Hd => keeps_run _ _ _ _ _ (frame_prepare TicketsDir RUNTIME_RECORD_LOCK_FILE (Some el) _ _ _ eq_refl) Hprep Hd) end.
  carry. match goal with Hd : dir_of ?w1 _ !! _ = _, Hp : prepare_runtime_record_publication _ _ _ ?w1 = _ |- _ =>
    apply Hprep' in Hd; unfold holds in Hd; clear Hp Hprep' end. carry.
  match goal with Hc : create_private_ticket_file _ _ _ = (Ok ?r, ?w2) |- _ => rename Hc into Hcreate; destruct r as [file|[]] end;
    try discriminate; [|by eapply IH; eauto].
  run. apply create_file_Ok in Hcreate.
  match goal with Hf : fill_record _ _ _ _ _ _ _ = _ |- _ =>
    rename Hf into Hfill; destruct (fill_Ok _ _ _ _ _ _ _ _ _ _ Hfill Hcreate) as (Hpriv & o & Hfile) end.
  carry. split; [by rewrite Hid | unfold issued_content; lia | | eauto].
  eexists. split_and!; [done | by rewrite private_written | done].
Qed.

Lemma create_ticket_Ok ticket w id w' :
  create_ticket ticket w = (Ok id, w') ->
  exists c, (calls w <= c < calls w')%nat /\ validate_ticket ticket = Ok () /\ created id (clock_at c) ticket w'.
Proof.
  intros Hrun. unfold create_ticket in Hrun. apply R_bind_Ok in Hrun as ([] & w0 & Hv & Hrun).
  apply checked_text_Ok in Hv as [Hv ->].
  apply R_bind_Ok in Hrun as (u1 & w1 & Hensure & Hrun). apply R_bind_Ok in Hrun as (u2 & w2 & Hlock & Hrun).
  apply R_bind_Ok in Hrun as (at_ & w3 & Htime & Hrun). apply R_bind_Ok in Hrun as (expires & w4 & Hadd & Hloop).
  apply lift_run_Ok in Hadd as [Hadd ->]. apply ok_or_Ok, checked_add_Some in Hadd as [-> _].
  apply lock_Ok in Hlock as Hfile. destruct Hfile as (el & Hfile & Hpl).
  assert (entries_ok anything 0 (calls w0) w0) as Ha by (split_and!; [lia | lia | done]).
  apply (keeps_run _ _ _ _ _ (keeps_ensure _ _ _ _) Hensure) in Ha.
  apply (keeps_run _ _ _ _ _ (keeps_record_lock _ anything_closed _ _ TicketsDir eq_refl) Hlock) in Ha as (_ & Ha & _).
  carry. apply unix_time_Ok in Htime as [-> Hc]. exists (calls w2).
  pose proof (calls_grow (create_ticket_loop MAX_TICKET_CREATE_ATTEMPTS ticket (clock_at (calls w2)) (expiry (clock_at (calls w2)))) w4
    (keeps_create_loop anything anything_lawful _ _ _ _ _ (fun _ _ _ _ _ _ => I))) as Hgrow.
  unfold expiry in Hgrow.
  rewrite Hloop in Hgrow. cbn in Hgrow. split_and!; [lia | lia | done |]. eapply create_loop_Ok; eauto.
Qed.
End Creation.

(** ** Consumption when the calls work *)

Section Serving.
Context `{Host} `{ControlCodec} `{TicketCodec}.

Definition works (from_ : nat) : Prop :=
  forall i, (from_ <= i)%nat -> o_fail (outcome_of i) = None /\ o_blocked (outcome_of i) = false.
Definition same_files (w w' : world) : Prop := (forall p, dir_of w' p = dir_of w p) /\ (calls w <= calls w')%nat.
Lemma same_trans w1 w2 w3 : same_files w1 w2 -> same_files w2 w3 -> same_files w1 w3.
Proof. intros [Hd1 ?] [Hd2 ?]. split; [intros p; by rewrite Hd2 | lia]. Qed.
Lemma works_later n m : works n -> (n <= m)%nat -> works m.
Proof. intros Hn Hle i Hi. apply Hn. lia. Qed.
Lemma set_same p w o : same_files w (set_dir p (dir_of w p) (tick o w)).
Proof. split; [|cbn; lia]. intros q. cbn. case_decide; [by subst | done]. Qed.

Lemma io_works {A : Type} (p : place) (f : outcome -> directory -> result io_kind A * directory) (w : world) :
  works (calls w) -> exists o, o_blocked o = false /\
    io p f w = (Ok (f o (dir_of w p)).1, set_dir p (f o (dir_of w p)).2 (tick o w)).
Proof.
  intros Hw. destruct (Hw (calls w)) as [Hf Hb]; [lia|]. exists (outcome_of (calls w)). split; [done|].
  unfold io, io_partial. rewrite Hf. by destruct (f _ _).
Qed.
(** The run of [op] from [w] returns [a] and changes no file. *)
Definition returns {A : Type} (op : R A) (w : world) (a : A) : Prop := exists w', op w = (Ok a, w') /\ same_files w w'.
Lemma record_returns_bind {A B : Type} (op : R A) (k : A -> R B) w a b :
  works (calls w) -> returns op w a -> (forall w', same_files w w' -> works (calls w') -> returns (k a) w' b) -> returns (op ≫= k) w b.
Proof.
  intros Hw (w1 & Hop & Hs) Hk. destruct (Hk w1 Hs) as (w2 & Hrun & Hs2); [by eapply works_later, Hs|].
  exists w2. split; [|by eapply same_trans]. unfold mbind, R_bind. by rewrite Hop.
Qed.
Lemma record_returns_ret {A : Type} (a : A) w : returns (mret a) w a.
Proof. exists w. split; [done|]. split; [done | lia]. Qed.
Lemma returns_handle w : works (calls w) -> returns handle_call w (Ok ()).
Proof.
  intros Hw. destruct (io_works RuntimeDir (fun _ d => (Ok (A := unit) (), d)) w Hw) as (o & _ & Hrun).
  eexists. split; [exact Hrun | apply set_same].
Qed.
Lemma returns_validate e w : works (calls w) -> private e = true -> returns (validate_private_ticket_file e) w ().
Proof.
  intros Hw Hp. unfold private in Hp. to_prop. unfold validate_private_ticket_file.
  eapply record_returns_bind; [done | by apply returns_handle|]. intros w' _ Hw'. cbn.
  rewrite bool_decide_true by done. cbn.
  repeat match goal with Hx : ?a = ?b |- context [?a =? ?b] => rewrite (proj2 (Z.eqb_eq a b) Hx); cbn end.
  apply record_returns_ret.
Qed.
Lemma returns_sync w : works (calls w) -> returns sync_parent_dir w ().
Proof.
  intros Hw. unfold sync_parent_dir. eapply record_returns_bind; [done | by apply returns_handle|]. intros w1 _ Hw1.
  eapply record_returns_bind; [done | apply record_returns_ret|]. intros w2 _ Hw2.
  eapply record_returns_bind; [done | by apply returns_handle|]. intros w3 _ Hw3. apply record_returns_ret.
Qed.
Lemma returns_open (p : place) (name : bytes) (e : entry) w :
  works (calls w) -> dir_of w p !! name = Some e -> private e = true -> returns (open_private_ticket_file p name) w (Ok e).
Proof.
  intros Hw He Hp. unfold private in Hp. to_prop. unfold open_private_ticket_file.
  match goal with |- returns (io p ?f) w _ => destruct (io_works p f w Hw) as (o & _ & Hrun) end.
  rewrite He in Hrun. rewrite bool_decide_false in Hrun by congruence. eexists. split; [exact Hrun | apply set_same].
Qed.
Lemma returns_lock (p : place) (name : bytes) (e : entry) w :
  works (calls w) -> dir_of w p !! name = Some e -> private e = true -> returns (acquire_private_runtime_lock p name) w ().
Proof.
  intros Hw He Hp. unfold acquire_private_runtime_lock. eapply (record_returns_bind _ _ _ e); [done|..].
  { cbn [open_lock]. eapply record_returns_bind; [done | by apply returns_open|]. intros w' _ _. apply record_returns_ret. }
  intros w1 _ Hw1. eapply record_returns_bind; [done | by apply returns_validate|]. intros w2 _ Hw2.
  eapply (record_returns_bind _ _ _ _); [done | eexists; split; [done|]; split; [done | cbn; lia] |]. intros w3 _ Hw3.
  eapply (record_returns_bind _ _ _ ()); [done|..]; [|intros w4 _ Hw4; by apply returns_validate].
  cbn [lock_loop]. eapply (record_returns_bind _ _ _ (Ok true)); [done|..]; [|intros w4 _ Hw4; apply record_returns_ret].
  unfold try_lock. match goal with |- returns (io _ ?f) w3 _ => destruct (io_works RuntimeDir f w3 Hw3) as (o & Ho & Hrun) end.
  rewrite Ho in Hrun. eexists. split; [exact Hrun | apply set_same].
Qed.
Lemma returns_read limit e text w :
  works (calls w) -> zlen (e_data e) <= limit -> returns (read_at_most (limit + 1) e text) w (e_data e).
Proof.
  intros Hw Hl. unfold read_at_most. eapply record_returns_bind; [done | by apply returns_handle|]. intros w1 _ Hw1.
  eapply record_returns_bind; [done | apply record_returns_ret|]. intros w2 _ Hw2. rewrite firstn_all2; [apply record_returns_ret|]. unfold zlen in Hl. lia.
Qed.

(** The record is read and removed. *)
Lemma take_works (p : place) (name : bytes) (e el : entry) w :
  works (calls w) -> dir_of w p !! name = Some e -> private e = true ->
  dir_of w p !! RUNTIME_RECORD_LOCK_FILE = Some el -> private el = true ->
  exists w', take_runtime_record p name w = (Ok e, w') /\ dir_of w' p !! name = None /\ (calls w <= calls w')%nat.
Proof.
  intros Hw He Hp Hl Hpl. unfold take_runtime_record.
  destruct (returns_lock p RUNTIME_RECORD_LOCK_FILE el w Hw Hl Hpl) as (w1 & Hlock & Hs1 & Hc1).
  assert (works (calls w1)) as Hw1 by by eapply works_later.
  destruct (returns_open p name e w1 Hw1) as (w2 & Hopen & Hs2 & Hc2); [by rewrite Hs1 | done|].
  assert (works (calls w2)) as Hw2 by by eapply works_later.
  destruct (returns_validate e w2 Hw2 Hp) as (w3 & Hvalid & Hs3 & Hc3).
  assert (works (calls w3)) as Hw3 by by eapply works_later.
  assert (Hremove : exists w4, remove_file p name w3 = (Ok (Ok ()), w4) /\ dir_of w4 p !! name = None /\ (calls w3 <= calls w4)%nat).
  { unfold remove_file. match goal with |- context [io p ?f w3] => destruct (io_works p f w3 Hw3) as (o & _ & Hrun) end.
    rewrite Hs3, Hs2, Hs1, He in Hrun. unfold private in Hp. to_prop. rewrite bool_decide_false in Hrun by congruence.
    eexists. split; [exact Hrun|]. split; [|cbn; lia]. cbn. by rewrite decide_True, lookup_delete_eq. }
  destruct Hremove as (w4 & Hremove & Hnone & Hc4).
  destruct (returns_sync w4) as (w5 & Hsync & Hs5 & Hc5); [eapply works_later; [exact Hw3 | done]|].
  exists w5. split; [|split; [by rewrite Hs5 | lia]].
  unfold acquire_runtime_record_lock, remove_open_ticket_file, mbind, R_bind.
  rewrite Hlock, Hopen. cbn. unfold mret, R_ret. rewrite Hvalid, Hremove. cbn. unfold mret, R_ret. by rewrite Hsync.
Qed.

(** From call [from_] on, the clock shows times a ticket issued at [at_] is valid at. *)
Definition in_time (from_ : nat) (at_ : Z) : Prop :=
  forall i, (from_ <= i)%nat -> 0 <= o_now (outcome_of i) /\ clock_at i <= u64_max /\
    at_ <= saturating_add (clock_at i) 5000 /\ clock_at i <= at_ + 30000.
Definition ticket_too_long : stop := Failed (Bail (B"runtime ticket plaintext exceeds its 262144-byte limit")).

Lemma stored_valid id at_ ticket i from_ :
  validate_ticket ticket = Ok () -> in_time from_ at_ -> (from_ <= i)%nat ->
  validate_stored_ticket_at (stored_ticket id at_ (expiry at_) ticket) id (t_workspace_key ticket) (clock_at i) = Ok ().
Proof.
  intros Hv Ht Hi. destruct (Ht i Hi) as (_ & _ & Hpast & Hfuture). unfold validate_stored_ticket_at. cbn -[as_millis saturating_add].
  assert (as_millis TICKET_TTL = 30000 /\ as_millis TICKET_CLOCK_SKEW = 5000) as [Httl Hskew] by done.
  unfold expiry. rewrite Httl, Hskew, !(proj2 (bytes_eqb_true _ _) eq_refl). cbn -[as_millis saturating_add].
  replace (_ || _) with false by lia. cbn -[as_millis saturating_add].
  replace (at_ >? _) with false by lia. cbn. replace (clock_at i >? _) with false by lia. cbn. done.
Qed.
Lemma record_run_bind {A B : Type} (op : R A) (k : A -> R B) w a w' : op w = (Ok a, w') -> (op ≫= k) w = k a w'.
Proof. unfold mbind, R_bind. by intros ->. Qed.
Lemma run_lift {A B : Type} (r : result failure A) (k : A -> R B) w a : r = Ok a -> (lift r ≫= k) w = k a w.
Proof. by intros ->. Qed.
Lemma run_bail_if {B : Type} c message (k : unit -> R B) w : c = false -> (bail_if c message ≫= k) w = k () w.
Proof. by intros ->. Qed.
Lemma unix_time_run w :
  0 <= o_now (outcome_of (calls w)) -> clock_at (calls w) <= u64_max ->
  unix_time_ms w = (Ok (clock_at (calls w)), tick (outcome_of (calls w)) w).
Proof.
  intros Hpos Hmax. unfold unix_time_ms, clock_at in *. rewrite (record_run_bind time_of_day _ w _ _ eq_refl).
  by rewrite !run_bail_if by lia.
Qed.
Lemma validate_stored_run id at_ ticket w :
  validate_ticket ticket = Ok () -> in_time (calls w) at_ ->
  exists w', validate_stored_ticket (stored_ticket id at_ (expiry at_) ticket) id (t_workspace_key ticket) w = (Ok (), w') /\
    dir_of w' = dir_of w.
Proof.
  intros Hv Ht. pose proof (stored_valid id at_ ticket (calls w) (calls w) Hv Ht (le_n _)) as Hs.
  destruct (Ht (calls w) (le_n _)) as (Hpos & Hmax & _). unfold validate_stored_ticket.
  rewrite (record_run_bind _ _ _ _ _ (unix_time_run w Hpos Hmax)). unfold checked_text. rewrite Hs. by eexists.
Qed.

Lemma validate_ticket_key ticket : validate_ticket ticket = Ok () -> validate_hex 24 (t_workspace_key ticket) = true.
Proof.
  unfold validate_ticket. intros (? & _ & (? & Hk%fail_if_Ok & _)%bind_Ok)%bind_Ok. by apply negb_false_iff.
Qed.

Lemma consume_created id at_ ticket w :
  works (calls w) -> created id at_ ticket w -> validate_ticket ticket = Ok () -> in_time (calls w) at_ ->
  exists w', consume_ticket id w =
    (if zlen (stored_to_vec (stored_ticket id at_ (expiry at_) ticket)) >? MAX_TICKET_BYTES then Err ticket_too_long else Ok ticket, w') /\
    dir_of w' TicketsDir !! record_name id = None.
Proof.
  intros Hw [Hid Hfits (e & He & Hp & Hdata) (el & Hl & Hpl)] Hv Ht. unfold consume_ticket.
  destruct (returns_handle w Hw) as (w1 & Hensure & Hs1 & Hc1).
  assert (works (calls w1)) as Hw1 by by eapply works_later.
  destruct (take_works TicketsDir (record_name id) e el w1 Hw1) as (w2 & Htake & Hnone & Hc2); [by rewrite Hs1 | done | by rewrite Hs1 | done|].
  destruct (returns_read MAX_TICKET_FILE_BYTES e (B"failed to read runtime ticket") w2) as (w3 & Hread & Hs3 & Hc3);
    [by eapply works_later | by rewrite Hdata|].
  destruct (validate_stored_run id at_ ticket w3 Hv) as (w4 & Hvalid & Hd4); [intros i Hi; apply Ht; lia|].
  destruct (validate_ticket_id id) as [[]|] eqn:Eid; [|done]. rewrite (run_lift _ _ _ _ eq_refl).
  assert (Hensure' : ensure_private_ticket_directory TicketsDir w = (Ok (), w1)).
  { unfold ensure_private_ticket_directory. by rewrite (record_run_bind _ _ _ _ _ Hensure). }
  rewrite (record_run_bind _ _ _ _ _ Hensure'), (record_run_bind _ _ _ _ _ Htake), (record_run_bind _ _ _ _ _ Hread), Hdata.
  rewrite run_bail_if by lia. unfold issued_content, ticket_content, protect_ticket_content.
  rewrite (run_lift _ _ _ _ (f_equal (fun o => ok_or o _) (envelope_roundtrip _))).
  cbn [te_schema_version te_workspace_key te_protection te_protected_payload].
  rewrite run_bail_if by done. rewrite run_bail_if by (cbn [st_ticket stored_ticket]; by rewrite (validate_ticket_key ticket Hv)).
  rewrite (run_lift _ _ _ _ (f_equal (fun o => ok_or o _) (base64_roundtrip _))).
  unfold checked_text. rewrite (run_lift _ _ _ _ (eq_refl : map_err Bail (unprotect_ticket_content _ PosixMode) = Ok _)).
  destruct (zlen (stored_to_vec _) >? MAX_TICKET_BYTES) eqn:Elong.
  - exists w3. split; [|by rewrite Hs3]. done.
  - exists w4. rewrite run_bail_if by done.
    rewrite (run_lift _ _ _ _ (f_equal (fun o => ok_or o _) (stored_roundtrip _))).
    cbn [st_ticket stored_ticket]. rewrite (record_run_bind _ _ _ _ _ Hvalid), Hd4, Hs3. done.
Qed.

(** C19 (roundtrip) A ticket that was created is served: when [create_ticket] returns an identifier,
    consuming it next, with calls that work and a clock between five seconds before the issue and thirty
    seconds after it, gives exactly the ticket that was created, and its file is gone.  The one
    exception is a ticket whose stored document, which adds the identifier and the times to the
    request, is longer than 256 KiB: it is created without complaint, and the consumption removes it and
    then always refuses it. *)
Theorem created_ticket_is_served (ticket : RuntimeTicket) (w : world) (id : bytes) (w' : world) :
  create_ticket ticket w = (Ok id, w') -> works (calls w') ->
  (forall c, (calls w <= c < calls w')%nat -> in_time (calls w') (clock_at c)) ->
  exists issue w'', (calls w <= issue < calls w')%nat /\
    consume_ticket id w' =
      (if zlen (stored_to_vec (stored_ticket id (clock_at issue) (clock_at issue + 30000) ticket)) >? MAX_TICKET_BYTES
       then Err ticket_too_long else Ok ticket, w'') /\
    dir_of w'' TicketsDir !! record_name id = None.
Proof.
  intros Hrun Hw Ht. destruct (create_ticket_Ok _ _ _ _ Hrun) as (c & Hc & Hv & Hcreated).
  destruct (consume_created id (clock_at c) ticket w' Hw Hcreated Hv (Ht c Hc)) as (w'' & Hconsume & Hgone).
  exists c, w''. done.
Qed.

(** ** Results *)

Lemma write_result_Ok id result w u w' :
  write_runtime_result id result w = (Ok u, w') ->
  exists e, dir_of w' ResultsDir !! record_name id = Some e /\ private e = true /\ e_data e = result_content result.
Proof.
  intros Hrun. unfold write_runtime_result in Hrun. run.
  match goal with Hc : create_private_ticket_file _ _ _ = (Ok (Ok ?file), _), Hf : fill_record _ _ _ _ _ _ _ = _ |- _ =>
    apply create_file_Ok in Hc; destruct (fill_Ok _ _ _ _ _ _ _ _ _ _ Hf Hc) as (Hp & o & Hfile) end.
  eexists. split_and!; [done | by rewrite private_written | done].
Qed.
End Serving.
