(* ===== verification/RuntimeTermination.v ===== *)
(** * Every command on runtime records returns

    No loop of the model runs out of its fuel: the lock file is made at most once, and a wait for
    the lock ends with its deadline. *)
From stdpp Require Import sorting.
From S2P Require Import Prelude Protocol RuntimeMessages RuntimeMachine LspProxy RemoteHost RuntimeRecords RuntimeControl RuntimeTickets RuntimeTrust RuntimeRecordsProps RuntimeHistory RuntimeHistoryProps RuntimeServe.

Definition quiet {A} (m : R A) : Prop := forall w, (m w).1 <> Err Spin.
Lemma record_quiet_ret {A} (a : A) : quiet (mret a).
Proof. by intros w. Qed.
Lemma record_quiet_throw {A} e : quiet (throw (A := A) e).
Proof. by intros w. Qed.
Lemma quiet_bail {A} e : quiet (bail (A := A) e).
Proof. by intros w. Qed.
Lemma record_quiet_bind {A B} (m : R A) (k : A -> R B) : quiet m -> (forall a, quiet (k a)) -> quiet (m ≫= k).
Proof.
  intros Hm Hk w. specialize (Hm w). unfold mbind, R_bind.
  destruct (m w) as [[a|e] w1]; [apply Hk | cbn in *; congruence].
Qed.
Lemma record_quiet_attempt {A} (m : R A) : quiet m -> quiet (attempt m).
Proof. intros Hm w. specialize (Hm w). unfold attempt. by destruct (m w) as [[a|[e|]] w1]. Qed.
Lemma record_quiet_lift {A} (r : result failure A) : quiet (lift r).
Proof. by destruct r; intros w. Qed.
Lemma quiet_io_context {A} text (r : result io_kind A) : quiet (io_context text r).
Proof. apply record_quiet_lift. Qed.
Lemma quiet_checked_text {A} (r : result bytes A) : quiet (checked_text r).
Proof. apply record_quiet_lift. Qed.
Lemma quiet_bail_if c message : quiet (bail_if c message).
Proof. by destruct c; intros w. Qed.
Lemma quiet_io_partial `{Host} {A : Type} (p : place) (f : outcome -> directory -> result io_kind A * directory)
    (partial : outcome -> directory -> directory) : quiet (io_partial p f partial).
Proof. intros w. unfold io_partial. destruct (o_fail _); [done|]. by destruct (f _ _). Qed.
Lemma record_quiet_io `{Host} {A : Type} (p : place) (f : outcome -> directory -> result io_kind A * directory) : quiet (io p f).
Proof. apply quiet_io_partial. Qed.
Lemma quiet_time_of_day `{Host} : quiet time_of_day.
Proof. by intros w. Qed.
Lemma record_quiet_instant_now `{Host} : quiet instant_now.
Proof. by intros w. Qed.
Lemma quiet_random `{Host} n : quiet (random_hex_id n).
Proof. intros w. unfold random_hex_id. by destruct (random_of _ _). Qed.

Create HintDb record_quiet.
#[export] Hint Resolve record_quiet_ret record_quiet_throw quiet_bail record_quiet_lift quiet_io_context quiet_checked_text quiet_bail_if
  quiet_io_partial record_quiet_io quiet_time_of_day record_quiet_instant_now quiet_random : record_quiet.
Ltac quiet_steps :=
  repeat first
    [ progress intros
    | solve [eauto with record_quiet]
    | apply record_quiet_bind
    | apply record_quiet_attempt
    | match goal with |- quiet (match ?x with _ => _ end) => destruct x end ].

Section Locks.
Context `{Host}.

Lemma quiet_validate file : quiet (validate_private_ticket_file file).
Proof. unfold validate_private_ticket_file, handle_call. quiet_steps. Qed.
Lemma quiet_sync : quiet sync_parent_dir.
Proof. unfold sync_parent_dir, handle_call. quiet_steps. Qed.

(** An open that finds nothing means that nothing is there; a creation then works or fails. *)
Lemma open_missing (p : place) (name : bytes) (w w' : world) :
  open_private_ticket_file p name w = (Ok (Err NotFound), w') -> dir_of w p !! name = None /\ dir_of w' p !! name = None.
Proof.
  intros Hrun. assert (Hnone : dir_of w p !! name = None).
  { unfold open_private_ticket_file, io, io_partial in Hrun. pose proof (proj1 (fail_is_real (calls w))).
    destruct (o_fail _); [by injection Hrun as ->|]. destruct (dir_of w p !! name) as [e|]; [|done].
    by destruct (bool_decide _). }
  split; [done|]. exact (keeps_run _ _ _ _ _ (frame_open p name None p name) Hrun Hnone).
Qed.
Lemma create_missing (p : place) (name : bytes) (w w' : world) (r : result io_kind entry) :
  dir_of w p !! name = None -> create_private_ticket_file p name w = (Ok r, w') -> r <> Err AlreadyExists.
Proof.
  intros Hnone. unfold create_private_ticket_file, io, io_partial. pose proof (proj2 (fail_is_real (calls w))).
  destruct (o_fail _); [by intros [= <- _]; congruence|]. rewrite Hnone. by intros [= <- _].
Qed.
Lemma open_present (p : place) (name : bytes) (w w' : world) (e : entry) (r : result io_kind entry) :
  dir_of w p !! name = Some e -> open_private_ticket_file p name w = (Ok r, w') -> r <> Err NotFound.
Proof.
  intros He. unfold open_private_ticket_file, io, io_partial. pose proof (proj1 (fail_is_real (calls w))).
  destruct (o_fail _); [by intros [= <- _]; congruence|]. rewrite He. destruct (bool_decide _); by intros [= <- _].
Qed.

Lemma open_lock_present fuel (p : place) (name : bytes) (w : world) (e : entry) :
  dir_of w p !! name = Some e -> (open_lock (S fuel) p name w).1 <> Err Spin.
Proof.
  intros He. cbn [open_lock]. unfold mbind, R_bind. unfold open_private_runtime_lock.
  destruct (open_private_ticket_file p name w) as [[r|s] w1] eqn:Eo.
  - pose proof (open_present _ _ _ _ _ _ He Eo). destruct r as [|[]]; done.
  - pose proof (record_quiet_io p (fun _ d => match d !! name with
      | None => (Err NotFound, d) | Some e => (if bool_decide (e_kind e = Symlink) then Err OtherKind else Ok e, d) end) w) as Hq.
    unfold open_private_ticket_file in Eo. rewrite Eo in Hq. cbn in *. congruence.
Qed.
Lemma quiet_open p name : quiet (open_private_ticket_file p name).
Proof. apply record_quiet_io. Qed.
Lemma quiet_open_lock (p : place) (name : bytes) : quiet (open_lock 3 p name).
Proof.
  intros w. cbn [open_lock]. unfold mbind at 1, R_bind at 1. unfold open_private_runtime_lock at 1.
  pose proof (quiet_open p name w) as Hq. destruct (open_private_ticket_file p name w) as [[r|s] w1] eqn:Eo; [|cbn in *; congruence].
  destruct r as [|[]]; [done| |done..]. apply open_missing in Eo as [_ Hnone].
  unfold mbind at 1, R_bind at 1.
  pose proof (record_quiet_io p (fun o d => match d !! name with
      | Some _ => (Err AlreadyExists, d) | None => (Ok (new_entry o), <[name := new_entry o]> d) end) w1) as Hc.
  change (quiet (create_private_ticket_file p name) -> _) || idtac.
  destruct (create_private_ticket_file p name w1) as [[r|s] w2] eqn:Ec;
    [|unfold create_private_ticket_file in Ec; rewrite Ec in Hc; cbn in *; congruence].
  pose proof (create_missing _ _ _ _ _ Hnone Ec). destruct r as [file|[]]; [|done..].
  apply create_file_Ok in Ec. unfold mbind at 1, R_bind at 1. pose proof (quiet_validate file w2) as Hv.
  destruct (validate_private_ticket_file file w2) as [[u|s] w3] eqn:Ev; [|cbn in *; congruence].
  apply (keeps_run _ _ _ _ _ (frame_validate p name _ _) Ev) in Ec. by apply (open_lock_present 1 p name w3 file).
Qed.

Lemma try_lock_time w r w' : try_lock w = (r, w') -> exists b, r = Ok b /\ instant w <= instant w'.
Proof.
  unfold try_lock, io, io_partial. destruct (o_fail _); intros [= <- <-]; (eexists; split; [done|]); cbn; lia.
Qed.
Lemma quiet_bind_at {A B} (m : R A) (k : A -> R B) w : (m w).1 <> Err Spin -> (forall a, quiet (k a)) -> ((m ≫= k) w).1 <> Err Spin.
Proof.
  intros Hm Hk. unfold mbind, R_bind. destruct (m w) as [[a|e] w1]; [apply Hk | cbn in *; congruence].
Qed.

(** Time does not go back, and each round sleeps. *)
Lemma lock_loop_quiet fuel deadline w :
  deadline - instant w < Z.of_nat fuel * RUNTIME_CONTROL_LOCK_POLL -> (lock_loop (S fuel) deadline w).1 <> Err Spin.
Proof.
  assert (Hpoll : 0 < RUNTIME_CONTROL_LOCK_POLL) by done.
  revert w. induction fuel as [|fuel IH]; intros w Hd; change (lock_loop (S ?n) deadline w) with
    ((r ← try_lock;
      match r with
      | Ok true => mret ()
      | Ok false =>
          now ← instant_now;
          if now <? deadline then _ ← sleep RUNTIME_CONTROL_LOCK_POLL; lock_loop n deadline
          else bail (B"private lock timed out after 5000 ms")
      | Err kind => throw (IoError (B"failed to lock private") kind)
      end) w);
  unfold mbind at 1, R_bind at 1; destruct (try_lock w) as [r w1] eqn:Et; apply try_lock_time in Et as (b & -> & Hi);
  (destruct b as [[]|kind]; [done| |done]); unfold mbind, R_bind; cbn [instant_now];
  (case_match eqn:Enow; [|done]); apply Z.ltb_lt in Enow.
  - lia.
  - cbn [sleep]. apply IH. cbn. lia.
Qed.
Lemma quiet_lock p name : quiet (acquire_private_runtime_lock p name).
Proof.
  unfold acquire_private_runtime_lock. apply record_quiet_bind; [apply quiet_open_lock|]. intros file.
  apply record_quiet_bind; [apply quiet_validate|]. intros _ w. unfold mbind at 1, R_bind at 1. cbn [instant_now].
  apply quiet_bind_at; [|intros; apply quiet_validate].
  apply (lock_loop_quiet 1001). assert (RUNTIME_CONTROL_LOCK_TIMEOUT = 5000000000 /\ RUNTIME_CONTROL_LOCK_POLL = 5000000) as [-> ->] by done.
  cbn [tick instant]. lia.
Qed.
End Locks.
#[export] Hint Resolve quiet_validate quiet_sync quiet_open quiet_lock : record_quiet.

Section Commands.
Context `{Host} `{ControlCodec} `{TicketCodec} `{TrustCodec}.

Lemma quiet_handle_call : quiet handle_call.
Proof. apply record_quiet_io. Qed.
Lemma quiet_unix_time : quiet unix_time_ms.
Proof. unfold unix_time_ms. quiet_steps. Qed.
Lemma quiet_ensure p : quiet (ensure_private_ticket_directory p).
Proof. unfold ensure_private_ticket_directory, handle_call. quiet_steps. Qed.
Lemma quiet_read limit file text : quiet (read_at_most limit file text).
Proof. unfold read_at_most, handle_call. quiet_steps. Qed.
Lemma quiet_remove p name : quiet (remove_file p name).
Proof. apply record_quiet_io. Qed.
Lemma quiet_create p name : quiet (create_private_ticket_file p name).
Proof. apply record_quiet_io. Qed.
Lemma quiet_scan p wanted maximum : quiet (scan_directory p wanted maximum).
Proof.
  assert (Hloop : forall names found, quiet (scan_loop p wanted maximum names found)).
  { induction names as [|x names IH]; intros found; cbn [scan_loop]; unfold handle_call, symlink_metadata; quiet_steps. }
  unfold scan_directory, read_dir. quiet_steps.
Qed.
End Commands.
#[export] Hint Resolve quiet_handle_call quiet_unix_time quiet_ensure quiet_read quiet_remove quiet_create quiet_scan : record_quiet.

Section Returns.
Context `{Host} `{ControlCodec} `{TicketCodec} `{TrustCodec}.

Lemma quiet_orphan p name : quiet (remove_orphan p name).
Proof. unfold remove_orphan, remove_open_ticket_file. quiet_steps. Qed.
Lemma quiet_prepare p excluded additional : quiet (prepare_runtime_record_publication p excluded additional).
Proof.
  pose proof quiet_orphan.
  assert (Hloop : forall age now entries removed, quiet (cleanup_loop p excluded age now entries removed)).
  { intros age now. induction entries as [|x entries IH]; intros removed; cbn [cleanup_loop]; quiet_steps. }
  unfold prepare_runtime_record_publication, cleanup_orphan_runtime_records_with_policy, scan_runtime_record_directory. quiet_steps.
Qed.
Lemma quiet_write_new p name content file t1 t2 : quiet (write_new_file p name content file t1 t2).
Proof. unfold write_new_file, write_all, file_sync_all. quiet_steps. Qed.
Lemma quiet_fill p name content file t1 t2 : quiet (fill_record p name content file t1 t2).
Proof.
  unfold fill_record, validate_runtime_record_publication, runtime_record_usage, scan_runtime_record_directory,
    remove_new_runtime_record, remove_open_ticket_file. pose proof quiet_write_new. quiet_steps.
Qed.
Lemma quiet_take p name : quiet (take_runtime_record p name).
Proof. unfold take_runtime_record, acquire_runtime_record_lock, remove_open_ticket_file. quiet_steps. Qed.
Lemma quiet_create_ticket ticket : quiet (create_ticket ticket).
Proof.
  pose proof quiet_prepare. pose proof quiet_fill.
  assert (Hloop : forall attempts at_ expires, quiet (create_ticket_loop attempts ticket at_ expires)).
  { induction attempts as [|attempts IH]; intros at_ expires; cbn [create_ticket_loop]; quiet_steps. }
  unfold create_ticket, acquire_runtime_record_lock. quiet_steps.
Qed.
Lemma quiet_control_paths maximum : quiet (bounded_control_paths_at_limit maximum).
Proof.
  assert (Hloop : forall names found, quiet (control_paths_loop maximum names found)).
  { induction names as [|name names IH]; intros found; cbn [control_paths_loop]; quiet_steps. }
  unfold bounded_control_paths_at_limit, read_dir. quiet_steps.
Qed.
Lemma quiet_remove_control name text : quiet (remove_control_file name text).
Proof. unfold remove_control_file, remove_open_ticket_file. quiet_steps. Qed.
Lemma quiet_cleanup_control : quiet cleanup_orphan_control_files.
Proof.
  pose proof quiet_remove_control. pose proof quiet_control_paths.
  assert (Hloop : forall names, quiet (cleanup_control_loop names)).
  { induction names as [|name names IH]; cbn [cleanup_control_loop]; unfold symlink_metadata; quiet_steps. }
  unfold cleanup_orphan_control_files. quiet_steps.
Qed.
Lemma quiet_mailbox_open id : quiet (mailbox_open id).
Proof.
  pose proof quiet_cleanup_control. pose proof quiet_control_paths.
  unfold mailbox_open, acquire_runtime_control_lock, bounded_control_paths. quiet_steps.
Qed.
Lemma quiet_discard id : quiet (discard id).
Proof.
  pose proof quiet_remove_control. pose proof quiet_control_paths.
  assert (Hloop : forall names, quiet (discard_loop names)).
  { induction names as [|name names IH]; cbn [discard_loop]; quiet_steps. }
  unfold discard, acquire_runtime_control_lock, matching_paths, bounded_control_paths. quiet_steps.
Qed.
Lemma quiet_drain id : quiet (drain id).
Proof.
  pose proof quiet_control_paths.
  assert (Hloop : forall now future names messages, quiet (drain_loop id now future names messages)).
  { intros now future. induction names as [|name names IH]; intros messages; cbn [drain_loop]; unfold drain_one, remove_open_ticket_file; quiet_steps. }
  unfold drain, acquire_runtime_control_lock, matching_paths, bounded_control_paths. quiet_steps.
Qed.
Lemma quiet_enqueue id signal : quiet (enqueue_signal id signal).
Proof.
  pose proof quiet_cleanup_control. pose proof quiet_control_paths. pose proof quiet_write_new.
  assert (Hloop : forall attempts content, quiet (publish_signal_loop attempts id content)).
  { induction attempts as [|attempts IH]; intros content; cbn [publish_signal_loop]; unfold publish_private_record_noreplace; quiet_steps. }
  unfold enqueue_signal, acquire_runtime_control_lock, bounded_control_paths. quiet_steps.
Qed.
Lemma quiet_lock_trust : quiet lock_trust.
Proof.
  pose proof quiet_orphan.
  assert (Hloop : forall entries removed, quiet (cleanup_trust_loop entries removed)).
  { induction entries as [|x entries IH]; intros removed; cbn [cleanup_trust_loop]; quiet_steps. }
  unfold lock_trust, cleanup_orphan_trust_pending_files, scan_trust_pending_files. quiet_steps.
Qed.
Lemma quiet_read_trust : quiet read_runtime_trust_store.
Proof. unfold read_runtime_trust_store. quiet_steps. Qed.
Lemma quiet_set_trust digest trusted : quiet (set_workspace_trust digest trusted).
Proof.
  pose proof quiet_lock_trust. pose proof quiet_read_trust. pose proof quiet_write_new.
  assert (Hloop : forall attempts content, quiet (write_trust_loop attempts content)).
  { induction attempts as [|attempts IH]; intros content; cbn [write_trust_loop]; unfold replace_private_record; quiet_steps. }
  unfold set_workspace_trust, write_runtime_trust_store, ensure_trust_pending_capacity, scan_trust_pending_files. quiet_steps.
Qed.

(** Note (termination) Every command on the runtime records returns, with an answer or an error,
    whatever the directories hold, whichever calls fail and however long others hold the locks: a wait for
    a lock ends with its deadline of five seconds, which polls of five milliseconds reach. *)
Theorem record_commands_return (op : operation) (w : world) : (perform op w).1 <> Err Spin.
Proof.
  revert w. change (quiet (perform op)).
  pose proof quiet_create_ticket. pose proof quiet_take. pose proof quiet_mailbox_open. pose proof quiet_discard.
  pose proof quiet_drain. pose proof quiet_enqueue. pose proof quiet_set_trust. pose proof quiet_lock_trust.
  pose proof quiet_read_trust. pose proof quiet_prepare. pose proof quiet_fill.
  destruct op; cbn [perform]; unfold consume_ticket, validate_stored_ticket, remove_ticket, remove_open_ticket_file,
    write_runtime_result, consume_runtime_result, acquire_runtime_record_lock, check_workspace_trust, prepare_runtime_state;
    quiet_steps.
Qed.
End Returns.
