(* ===== verification/RuntimeLimits.v ===== *)
(** * Record directories stay within their limits

    A directory of tickets or results never holds more than 4096 records or 64 MiB, because a
    publication counts what is there, under the lock, before it adds to it. *)
From stdpp Require Import sorting.
From S2P Require Import Prelude Protocol RuntimeMessages RuntimeMachine LspProxy RemoteHost RuntimeRecords RuntimeControl RuntimeTickets RuntimeTrust RuntimeRecordsProps RuntimeHistory RuntimeHistoryProps.

(** ** Counting a directory *)

Definition load (d : directory) : Z := map_fold (fun _ e total => zlen (e_data e) + total) 0 d.
Lemma load_empty : load ∅ = 0.
Proof. unfold load. by rewrite map_fold_empty. Qed.
Lemma load_insert (d : directory) (name : bytes) (e : entry) :
  d !! name = None -> load (<[name := e]> d) = zlen (e_data e) + load d.
Proof. intros Hd. unfold load. rewrite map_fold_insert_L; [done | intros; lia | done]. Qed.
Lemma load_delete (d : directory) (name : bytes) (e : entry) :
  d !! name = Some e -> load d = zlen (e_data e) + load (delete name d).
Proof. intros He. rewrite <- (insert_delete_id d name e He) at 1. apply load_insert, lookup_delete_eq. Qed.
Lemma load_nonneg (d : directory) : 0 <= load d.
Proof.
  induction d as [|name e d Hd IH] using map_ind; [by rewrite load_empty|]. rewrite load_insert by done.
  pose proof (zlen_nonneg (e_data e)). lia.
Qed.
Lemma load_delete_le (d : directory) (name : bytes) : load (delete name d) <= load d.
Proof.
  destruct (d !! name) as [e|] eqn:E; [|by rewrite delete_id].
  rewrite (load_delete d name e E). pose proof (zlen_nonneg (e_data e)). lia.
Qed.
Lemma size_delete_le (d : directory) (name : bytes) : (size (delete name d) <= size d)%nat.
Proof. rewrite map_size_delete. destruct (d !! name); cbn; lia. Qed.

(** What counts: everything but the lock file *)
Definition records (d : directory) : directory := delete RUNTIME_RECORD_LOCK_FILE d.
Lemma records_lookup (d : directory) (name : bytes) :
  name <> RUNTIME_RECORD_LOCK_FILE -> records d !! name = d !! name.
Proof. intros Hn. unfold records. by rewrite lookup_delete_ne. Qed.
Lemma records_lock (d : directory) (e : entry) : records (<[RUNTIME_RECORD_LOCK_FILE := e]> d) = records d.
Proof. unfold records. by rewrite delete_insert_eq. Qed.
Lemma records_delete (d : directory) (name : bytes) : records (delete name d) = delete name (records d).
Proof. unfold records. apply delete_delete. Qed.
Lemma records_insert (d : directory) (name : bytes) (e : entry) :
  name <> RUNTIME_RECORD_LOCK_FILE -> records (<[name := e]> d) = <[name := e]> (records d).
Proof. intros Hn. unfold records. by rewrite delete_insert_ne. Qed.

(** ** A scan sees everything *)

Section Scan.
Context `{Host}.

(** The directories are [f]. *)
Definition are (f : place -> directory) (n : nat) (p : place) (d : directory) : Prop := d = f p.
Lemma are_dirs (w : world) : dirs_ok (are (dir_of w)) 0 0 w.
Proof. split_and!; [lia | lia | done]. Qed.
Lemma still {A : Type} (op : R A) (w : world) (r : result stop A) (w' : world) :
  keeps (dirs_ok (are (dir_of w)) 0 0) op -> op w = (r, w') -> forall p, dir_of w' p = dir_of w p.
Proof. intros Hop Hrun p. destruct (keeps_run _ _ _ _ _ Hop Hrun (are_dirs w)) as (_ & _ & Hd). exact (Hd p). Qed.

Definition listed (wanted : bytes -> bool) (d : directory) (names : list bytes) : list RuntimeStateEntry :=
  omap (fun name => if wanted name then state_entry name <$> d !! name else None) names.

Lemma symlink_metadata_Ok (p : place) (name : bytes) w r w' (e : entry) :
  symlink_metadata p name w = (Ok r, w') -> dir_of w p !! name = Some e -> r = Ok e \/ (exists k, r = Err k /\ k <> NotFound).
Proof.
  unfold symlink_metadata, io, io_partial. pose proof (proj1 (fail_is_real (calls w))).
  destruct (o_fail _) as [k|]; [intros [= <- _] _; right; exists k; split; congruence|].
  intros [= <- _] ->. by left.
Qed.
Lemma scan_loop_Ok (p : place) (wanted : bytes -> bool) (maximum : Z) (names : list bytes) (found : list RuntimeStateEntry) w scan w' :
  scan_loop p wanted maximum names found w = (Ok scan, w') -> Forall (fun name => is_Some (dir_of w p !! name)) names ->
  sc_overflow scan = false -> sc_entries scan = found ++ listed wanted (dir_of w p) names.
Proof.
  revert found w. induction names as [|name names IH]; intros found w Hrun Hin Hover; cbn [scan_loop] in Hrun.
  { run. by rewrite app_nil_r. }
  apply Forall_cons in Hin as [[e He] Hin]. apply R_bind_Ok in Hrun as (r & w1 & Hcall & Hrun). run.
  pose proof (still _ _ _ _ (keeps_handle_call _ _ _) Hcall p) as Hd1. unfold listed. cbn [omap list_omap].
  destruct (wanted name) eqn:Ew; cbn [negb] in Hrun.
  - destruct (zlen found =? maximum); [run; done|]. apply R_bind_Ok in Hrun as (m & w2 & Hmeta & Hrun).
    pose proof (still _ _ _ _ (keeps_symlink_metadata _ _ _ _ _) Hmeta p) as Hd2. rewrite Hd1 in Hd2.
    rewrite <- Hd1 in He. destruct (symlink_metadata_Ok _ _ _ _ _ _ Hmeta He) as [->|(k & -> & Hk)]; [|by destruct k].
    rewrite Hd1 in He. rewrite <- Hd2 in Hin. rewrite (IH _ _ Hrun Hin Hover), Hd2, He, <- app_assoc. done.
  - rewrite <- Hd1 in Hin. rewrite (IH _ _ Hrun Hin Hover), Hd1. done.
Qed.

Lemma scan_Ok (p : place) (wanted : bytes -> bool) (maximum : Z) w scan w' :
  scan_directory p wanted maximum w = (Ok scan, w') -> sc_overflow scan = false ->
  dir_of w' p = dir_of w p /\ sc_entries scan ≡ₚ listed wanted (dir_of w p) (map_to_list (dir_of w p)).*1.
Proof.
  intros Hrun Hover. split; [by apply (still _ _ _ _ (keeps_scan _ _ _ _ _ _) Hrun)|].
  unfold scan_directory in Hrun. apply R_bind_Ok in Hrun as (names & w1 & Hdir & Hrun).
  apply R_bind_Ok in Hrun as (found & w2 & Hloop & Hrun). run. cbn in *.
  rewrite merge_sort_Permutation.
  assert (names ≡ₚ (map_to_list (dir_of w p)).*1 /\ dir_of w1 p = dir_of w p) as [Hnames Hd].
  { split; [|by apply (still _ _ _ _ (keeps_read_dir _ _ _ _ _) Hdir)]. unfold read_dir in Hdir. run.
    unfold io, io_partial in *. destruct (o_fail _); [done|]. simplify_eq. apply order_lists. }
  rewrite <- Hd in *. apply scan_loop_Ok in Hloop as ->; [|rewrite Hnames|done].
  - cbn. unfold listed. by rewrite Hnames.
  - apply Forall_forall. intros name Hname. apply list_elem_of_fmap in Hname as ([n e] & -> & Hin). cbn.
    apply elem_of_map_to_list in Hin. eauto.
Qed.
End Scan.

(** ** The usage a scan finds *)

Definition sizes (entries : list RuntimeStateEntry) : Z := foldr (fun e total => se_size e + total) 0 entries.
Lemma sizes_perm l1 l2 : l1 ≡ₚ l2 -> sizes l1 = sizes l2.
Proof. unfold sizes. induction 1; cbn; lia. Qed.
Lemma usage_Ok entries usage :
  runtime_state_usage entries = Ok usage -> us_entries usage = zlen entries /\ us_bytes usage = sizes entries.
Proof.
  unfold runtime_state_usage.
  assert (forall start, try_fold (fun usage entry =>
      count ← ok_or (checked_add (us_entries usage) 1) (Bail (B"runtime state entry count overflow"));
      total ← ok_or (checked_add (us_bytes usage) (se_size entry)) (Bail (B"runtime state byte count overflow"));
      Ok {| us_entries := count; us_bytes := total |}) start entries = Ok usage ->
    us_entries usage = us_entries start + zlen entries /\ us_bytes usage = us_bytes start + sizes entries) as Hgen.
  { induction entries as [|e entries IH]; intros start Hrun; cbn [try_fold] in Hrun.
    - inv_ok. rewrite zlen_nil. cbn. lia.
    - apply bind_Ok in Hrun as (next & Hnext & Hrun). apply IH in Hrun as [-> ->]. inv_ok. cbn. rewrite zlen_cons. fold (sizes entries). lia. }
  intros Hrun. apply Hgen in Hrun as [-> ->]. cbn. lia.
Qed.

Definition counted (x : bytes * entry) : option RuntimeStateEntry := if is_record_name x.1 then Some (state_entry x.1 x.2) else None.
Lemma listed_pairs (d : directory) (l : list (bytes * entry)) :
  Forall (fun x => d !! x.1 = Some x.2) l -> listed is_record_name d l.*1 = omap counted l.
Proof.
  induction 1 as [|[name e] l He _ IH]; [done|]. cbn in *. unfold listed in *. cbn. rewrite He, IH.
  unfold counted. cbn. by destruct (is_record_name name).
Qed.
Lemma counted_usage (d : directory) :
  zlen (omap counted (map_to_list d)) = Z.of_nat (size (records d)) /\ sizes (omap counted (map_to_list d)) = load (records d).
Proof.
  induction d as [|name e d Hd [IHn IHl]] using map_ind; [unfold records; by rewrite map_to_list_empty, delete_empty|].
  pose proof (map_to_list_insert d name e Hd) as Hp. rewrite (sizes_perm _ _ (omap_Permutation counted _ _ Hp)).
  assert (Hlen : zlen (omap counted (map_to_list (<[name := e]> d))) = zlen (omap counted ((name, e) :: map_to_list d)))
    by (unfold zlen; by rewrite Hp).
  rewrite Hlen. cbn [omap list_omap].
  replace (counted (name, e)) with (if negb (bytes_eqb name RUNTIME_RECORD_LOCK_FILE) then Some (state_entry name e) else None) by done.
  destruct (bytes_eqb name RUNTIME_RECORD_LOCK_FILE) eqn:E; cbn [negb].
  - apply bytes_eqb_true in E as ->. by rewrite records_lock.
  - apply bytes_eqb_false in E. rewrite records_insert by done. rewrite zlen_cons.
    change (sizes (?x :: ?l)) with (se_size x + sizes l). rewrite map_size_insert_None, load_insert by (by rewrite records_lookup).
    rewrite IHn, IHl. cbn. lia.
Qed.
Lemma scan_usage `{Host} (p : place) (maximum : Z) w scan w' usage :
  scan_runtime_record_directory p maximum w = (Ok scan, w') -> sc_overflow scan = false ->
  runtime_state_usage (sc_entries scan) = Ok usage ->
  dir_of w' p = dir_of w p /\ us_entries usage = Z.of_nat (size (records (dir_of w p))) /\ us_bytes usage = load (records (dir_of w p)).
Proof.
  intros Hrun Hover Husage. destruct (scan_Ok _ _ _ _ _ _ Hrun Hover) as [Hd Hp]. split; [done|].
  destruct (usage_Ok _ _ Husage) as [-> ->]. rewrite listed_pairs in Hp.
  - destruct (counted_usage (dir_of w p)) as [<- <-]. split; [unfold zlen; by rewrite Hp | by apply sizes_perm].
  - apply Forall_forall. intros [name e] Hin. by apply elem_of_map_to_list in Hin.
Qed.

(** ** The limits *)

Section Limits.
Context `{Host} `{ControlCodec} `{TicketCodec} `{TrustCodec}.

(** [d] has room for so many more records and bytes. *)
Definition room (count total : Z) (d : directory) : Prop :=
  Z.of_nat (size (records d)) + count <= MAX_RUNTIME_RECORD_ENTRIES /\ load (records d) + total <= MAX_RUNTIME_RECORD_TOTAL_BYTES.
Definition within (n : nat) (p : place) (d : directory) : Prop := is_record_dir p -> room 0 0 d.
(** Without the file [name] there is room for it, and it is not longer than planned. *)
Definition reserved (where_ : place) (name : bytes) (length_ : Z) (n : nat) (p : place) (d : directory) : Prop :=
  within n p d /\
  (p = where_ -> room 1 length_ (delete name d) /\ forall e, d !! name = Some e -> zlen (e_data e) <= length_).

Lemma prepare_Ok (p : place) (excluded : option bytes) (additional : Z) w u w' :
  prepare_runtime_record_publication p excluded additional w = (Ok u, w') -> room 1 additional (dir_of w' p).
Proof.
  unfold prepare_runtime_record_publication, cleanup_orphan_runtime_records_with_policy. intros Hrun. run.
  match goal with Hs : scan_runtime_record_directory _ _ ?w1 = (Ok ?scan, ?w2), Ho : sc_overflow ?scan = false,
    Hu : runtime_state_usage (sc_entries ?scan) = Ok _ |- _ => destruct (scan_usage _ _ _ _ _ _ Hs Ho Hu) as (Hd & Hn & Hb) end.
  unfold ensure_runtime_state_capacity in *. inv_ok. unfold room. rewrite Hd. lia.
Qed.

Lemma room_delete (count total : Z) (d : directory) (name : bytes) : room count total d -> room count total (delete name d).
Proof.
  unfold room. rewrite records_delete. pose proof (size_delete_le (records d) name). pose proof (load_delete_le (records d) name). lia.
Qed.
Lemma room_lock (count total : Z) (d : directory) (e : entry) : room count total (<[RUNTIME_RECORD_LOCK_FILE := e]> d) <-> room count total d.
Proof. unfold room. by rewrite records_lock. Qed.
Lemma within_closed : closed within.
Proof.
  split; [done | |].
  - intros n p name d Hd Hp. by apply room_delete, Hd.
  - intros n p o d _ Hd Hp. rewrite <- Hp. by apply room_lock, Hd.
Qed.
Lemma within_free : free within RuntimeDir /\ free within ControlDir.
Proof. split; intros n d Hp; by vm_compute in Hp. Qed.

Lemma reserve (where_ : place) (name : bytes) (length_ : Z) (n : nat) (p : place) (d : directory) :
  within n p d -> (p = where_ -> room 1 length_ d /\ d !! name = None) -> reserved where_ name length_ n p d.
Proof.
  intros Hw Hr. split; [done|]. intros Hp. destruct (Hr Hp) as [Hroom Hnone]. split; [by apply room_delete|].
  intros e He. congruence.
Qed.
(** Filling the reserved place stays within the limits. *)
Lemma room_fill (name : bytes) (length_ : Z) (d : directory) (e : entry) :
  name <> RUNTIME_RECORD_LOCK_FILE -> room 1 length_ (delete name d) -> zlen (e_data e) <= length_ -> room 0 0 (<[name := e]> d).
Proof.
  intros Hne. unfold room. rewrite records_delete, records_insert by done. rewrite <- (insert_delete_eq (records d)).
  rewrite map_size_insert_None, load_insert by apply lookup_delete_eq. lia.
Qed.
Lemma reserved_closed (where_ : place) (name : bytes) (length_ : Z) :
  name <> lock_of where_ -> is_record_dir where_ -> closed (reserved where_ name length_).
Proof.
  intros Hne Hdir. split; [done | |].
  - intros n p x d [Hw Hr]. split; [by apply (d_delete _ within_closed)|]. intros Hp. destruct (Hr Hp) as [Hroom Hlen]. split.
    + rewrite delete_delete. by apply room_delete.
    + intros e [_ He]%lookup_delete_Some. by apply Hlen.
  - intros n p o d Hnone [Hw Hr]. split; [by apply (d_lock _ within_closed)|]. intros ->. destruct (Hr eq_refl) as [Hroom Hlen].
    rewrite <- Hdir in *. split.
    + rewrite delete_insert_ne by done. by apply room_lock.
    + intros e. rewrite lookup_insert_ne by done. apply Hlen.
Qed.
Lemma reserved_create (where_ : place) (name content : bytes) (n : nat) (o : outcome) (d : directory) :
  name <> RUNTIME_RECORD_LOCK_FILE ->
  d !! name = None -> reserved where_ name (zlen content) n where_ d -> reserved where_ name (zlen content) n where_ (<[name := new_entry o]> d).
Proof.
  intros Hne Hnone [Hw Hr]. destruct (Hr eq_refl) as [Hroom _]. pose proof (zlen_nonneg content). split.
  - intros _. eapply room_fill; [done | exact Hroom | done].
  - intros _. rewrite delete_insert_eq. split; [done|]. intros e. rewrite lookup_insert_eq. by intros [= <-].
Qed.
Lemma reserved_write (where_ : place) (name content : bytes) (n k : nat) (o : outcome) (d : directory) :
  name <> RUNTIME_RECORD_LOCK_FILE ->
  reserved where_ name (zlen content) n where_ d -> reserved where_ name (zlen content) n where_ (alter (written (take k content) o) name d).
Proof.
  intros Hne [Hw Hr]. destruct (Hr eq_refl) as [Hroom Hlen].
  assert (Hle : zlen (take k content) <= zlen content) by (unfold zlen; rewrite length_take; lia).
  destruct (d !! name) as [e|] eqn:E.
  - assert (alter (written (take k content) o) name d = <[name := written (take k content) o e]> d) as ->.
    { apply map_eq. intros x. destruct (decide (x = name)) as [->|];
        [by rewrite lookup_alter_eq, E, lookup_insert_eq | by rewrite lookup_alter_ne, lookup_insert_ne]. }
    split.
    + intros _. eapply room_fill; [done | exact Hroom | exact Hle].
    + intros _. rewrite delete_insert_eq. split; [done|]. intros e'. rewrite lookup_insert_eq. intros [= <-]. exact Hle.
  - assert (alter (written (take k content) o) name d = d) as ->; [|split; [done|]; intros _; split; [done|]; rewrite E; done].
    apply map_eq. intros x. destruct (decide (x = name)) as [->|]; [by rewrite lookup_alter_eq, E | by rewrite lookup_alter_ne].
Qed.

Lemma reserved_within (where_ : place) (name : bytes) (length_ : Z) m c w :
  dirs_ok (reserved where_ name length_) m c w -> dirs_ok within m c w.
Proof. intros (? & ? & Hd). split_and!; [done..|]. intros p. by destruct (Hd p). Qed.

(** A record is counted, made and filled. *)
Lemma publish_within {A : Type} (p : place) (excluded : option bytes) (name content : bytes) (k : result io_kind entry -> R A)
    (m c : nat) :
  is_record_dir p -> name <> RUNTIME_RECORD_LOCK_FILE ->
  (forall kind, keeps (dirs_ok within m c) (k (Err kind))) ->
  (forall file, keeps (dirs_ok (reserved p name (zlen content)) m c) (k (Ok file))) ->
  keeps (dirs_ok within m c)
    (_ ← prepare_runtime_record_publication p excluded (zlen content); created ← create_private_ticket_file p name; k created).
Proof.
  intros Hdir Hne Herr Hok w Hw. pose proof (keeps_prepare within within_closed m c p excluded (zlen content) w Hw) as Hw1.
  split_bind Hprep; [done|]. apply prepare_Ok in Hprep. set (w1 := (_ w).2) in *.
  unfold mbind, R_bind. destruct (create_private_ticket_file p name w1) as [[r|s] w2] eqn:Ec; cycle 1.
  { unfold create_private_ticket_file, io, io_partial in Ec. destruct (o_fail _); [done|]. by destruct (dir_of w1 p !! name). }
  destruct r as [file|kind].
  - apply (reserved_within p name (zlen content)), Hok.
    assert (dirs_ok (reserved p name (zlen content)) m c w1) as Hres.
    { destruct Hw1 as (? & ? & Hd). split_and!; [done..|]. intros q. apply reserve; [done|]. intros ->. split; [done|].
      unfold create_private_ticket_file, io, io_partial in Ec. destruct (o_fail _); [done|]. by destruct (dir_of w1 p !! name). }
    eapply keeps_run; [|exact Ec | exact Hres]. apply keeps_create. intros n o d _ Hnone. by apply reserved_create.
  - apply Herr. unfold create_private_ticket_file, io, io_partial in Ec.
    destruct (o_fail _); [|destruct (dir_of w1 p !! name) eqn:E; [|done]]; injection Ec as <- <-;
      (apply (set_dir_ok within m c (randoms w1)); [done | by apply tick_ok | apply Hw1]).
Qed.
Lemma fill_reserved (p : place) (name content : bytes) (file : entry) (t1 t2 : bytes) m c :
  is_record_dir p -> name <> RUNTIME_RECORD_LOCK_FILE ->
  keeps (dirs_ok (reserved p name (zlen content)) m c) (fill_record p name content file t1 t2).
Proof.
  intros Hdir Hne. apply keeps_fill_dir; [apply reserved_closed; [by rewrite <- Hdir | done]|].
  apply keeps_write. intros n k o d _. by apply reserved_write.
Qed.
Lemma create_ticket_within ticket m c : keeps (dirs_ok within m c) (create_ticket ticket).
Proof.
  pose proof within_closed.
  assert (Hloop : forall attempts at_ expires, keeps (dirs_ok within m c) (create_ticket_loop attempts ticket at_ expires)).
  { induction attempts as [|attempts IH]; intros at_ expires; cbn [create_ticket_loop]; [apply keeps_bail|].
    apply record_keeps_bind; [by apply keeps_random|]. intros id. cbv zeta.
    destruct (validate_ticket_id id) as [[]|e] eqn:Eid; [|by intros w].
    apply record_keeps_bind; [apply record_keeps_lift|]. intros _. apply record_keeps_bind; [apply keeps_bail_if|]. intros _.
    apply publish_within; [done | by apply record_name_not_lock; rewrite Eid | |].
    - intros []; keep_steps.
    - intros file. apply record_keeps_bind; [|intros; apply record_keeps_ret]. apply fill_reserved; [done|]. by apply record_name_not_lock; rewrite Eid. }
  unfold create_ticket. keep_steps.
Qed.
Lemma write_result_within id result m c : keeps (dirs_ok within m c) (write_runtime_result id result).
Proof.
  pose proof within_closed. unfold write_runtime_result.
  destruct (validate_ticket_id id) as [[]|e] eqn:Eid; [|by intros w].
  do 5 (apply record_keeps_bind; [solve [eauto with record_keeps]|]; intros _; cbv zeta).
  apply publish_within; [done | by apply record_name_not_lock; rewrite Eid | by intros kind w |].
  intros file. apply record_keeps_bind; [apply record_keeps_context|]. intros f. apply fill_reserved; [done|].
  by apply record_name_not_lock; rewrite Eid.
Qed.
Lemma perform_within op m c : keeps (dirs_ok within m c) (perform op).
Proof.
  destruct within_free as [Hr Hc]. pose proof within_closed.
  destruct op; cbn [perform]; pose proof create_ticket_within; pose proof write_result_within;
    pose proof keeps_consume; pose proof keeps_remove_ticket; pose proof keeps_consume_result; keep_steps.
Qed.

(** C28 (bounds) The directories of tickets and of results stay within their limits: starting from
    directories within them, after any commands in any order, with any failures half-way, neither ever
    holds more than 4096 records or 64 MiB of them. *)
Theorem record_directories_stay_bounded (ops : list operation) (w : world) (p : place) :
  p = TicketsDir \/ p = ResultsDir ->
  (forall q, q = TicketsDir \/ q = ResultsDir -> room 0 0 (dir_of w q)) ->
  let records_ := records (dir_of (after_all ops w) p) in
  Z.of_nat (size records_) <= 4096 /\ load records_ <= 64 * 1024 * 1024.
Proof.
  intros Hp Hstart.
  assert (Hall : dirs_ok within 0 0 (after_all ops w)).
  { assert (dirs_ok within 0 0 w) as Hw.
    { split_and!; [lia.. |]. intros q Hq. apply Hstart. destruct q; [by vm_compute in Hq | by left | by right | by vm_compute in Hq]. }
    clear Hstart. revert w Hw. induction ops as [|op ops IH]; intros w Hw; [done|]. cbn. by apply IH, perform_within. }
  destruct Hall as (_ & _ & Hd). destruct (Hd p) as [Hn Hl]; [by destruct Hp as [-> | ->]|].
  assert (MAX_RUNTIME_RECORD_ENTRIES = 4096 /\ MAX_RUNTIME_RECORD_TOTAL_BYTES = 64 * 1024 * 1024) as [Hc1 Hc2] by done.
  cbv zeta. lia.
Qed.
End Limits.
