(* ===== verification/RuntimeTrustProps.v ===== *)
(** * The trust store refines a set of digests

    Whatever fails, the store file holds a whole set: the one before the command or the one after it. *)
From stdpp Require Import sorting.
From S2P Require Import Prelude RuntimeMessages RuntimeRecords RuntimeControl RuntimeTickets RuntimeTrust RuntimeRecordsProps RuntimeHistory RuntimeServe.

Section Frame.
Context `{Host} `{TrustCodec} (v : option entry).
Abbreviation I := (holds RuntimeDir RUNTIME_TRUST_STORE_FILE v).

Lemma pending_not_store nonce : trust_pending_name nonce <> RUNTIME_TRUST_STORE_FILE.
Proof. intros Heq. apply (f_equal (take 1)) in Heq. by vm_compute in Heq. Qed.
Lemma wanted_not_store name : is_trust_pending_file name = true -> name <> RUNTIME_TRUST_STORE_FILE.
Proof. intros Hw ->. by vm_compute in Hw. Qed.

Lemma frame_trust_lock : keeps I (acquire_private_runtime_lock RuntimeDir RUNTIME_TRUST_LOCK_FILE).
Proof.
  assert (apart RuntimeDir RUNTIME_TRUST_STORE_FILE RuntimeDir RUNTIME_TRUST_LOCK_FILE) by (right; intros Heq; by vm_compute in Heq).
  assert (Hopen : forall fuel, keeps I (open_lock fuel RuntimeDir RUNTIME_TRUST_LOCK_FILE)).
  { induction fuel as [|fuel IH]; cbn [open_lock]; unfold open_private_runtime_lock; keep_steps. }
  unfold acquire_private_runtime_lock. keep_steps.
Qed.
Lemma scan_loop_wanted (p : place) (wanted : bytes -> bool) (maximum : Z) names found w scan w' :
  scan_loop p wanted maximum names found w = (Ok scan, w') -> Forall (fun e => wanted (se_name e) = true) found ->
  Forall (fun e => wanted (se_name e) = true) (sc_entries scan).
Proof.
  revert found w. induction names as [|name names IH]; intros found w Hrun Hf; cbn [scan_loop] in Hrun; [by run|].
  apply R_bind_Ok in Hrun as (r & w1 & _ & Hrun). apply R_bind_Ok in Hrun as (u & w2 & _ & Hrun).
  destruct (wanted name) eqn:Ew; cbn [negb] in Hrun; [|by eapply IH].
  destruct (zlen found =? maximum); [by run|]. apply R_bind_Ok in Hrun as (e & w3 & _ & Hrun).
  destruct e as [e|[]]; [|by eapply IH | done..]. eapply IH; [exact Hrun|]. apply Forall_app. split; [done|].
  by apply Forall_singleton.
Qed.
Lemma scan_wanted (p : place) (wanted : bytes -> bool) (maximum : Z) w scan w' :
  scan_directory p wanted maximum w = (Ok scan, w') -> Forall (fun e => wanted (se_name e) = true) (sc_entries scan).
Proof.
  unfold scan_directory. intros Hrun. run. cbn. rewrite merge_sort_Permutation. by eapply scan_loop_wanted.
Qed.
Lemma frame_lock_trust : keeps I lock_trust.
Proof.
  pose proof frame_trust_lock. unfold lock_trust, cleanup_orphan_trust_pending_files, scan_trust_pending_files.
  apply record_keeps_bind; [apply frame_ensure|]. intros _. apply record_keeps_bind; [done|]. intros _.
  apply (keeps_bind_when _ (fun scan => Forall (fun e => is_trust_pending_file (se_name e) = true) (sc_entries scan)));
    [apply frame_scan | intros w scan w'; apply scan_wanted|].
  intros scan Hwanted.
  assert (Hloop : forall removed, keeps I (cleanup_trust_loop (sc_entries scan) removed)).
  { induction Hwanted as [|e entries He _ IH]; intros removed; cbn [cleanup_trust_loop]; [keep_steps|].
    assert (apart RuntimeDir RUNTIME_TRUST_STORE_FILE RuntimeDir (se_name e)) by (right; by apply wanted_not_store).
    unfold remove_orphan, remove_open_ticket_file. keep_steps. }
  keep_steps.
Qed.
Lemma frame_read_trust : keeps I read_runtime_trust_store.
Proof. unfold read_runtime_trust_store. keep_steps. Qed.
End Frame.

(** ** Replacing the store *)

Section Write.
Context `{Host} `{TrustCodec}.

(** The store file is still [v] and the command has failed, or it holds [content]. *)
Definition old_or_new {A : Type} (v : option entry) (content : bytes) (run : result stop A * world) : Prop :=
  (holds RuntimeDir RUNTIME_TRUST_STORE_FILE v run.2 /\ is_ok run.1 = false) \/
  (exists e, dir_of run.2 RuntimeDir !! RUNTIME_TRUST_STORE_FILE = Some e /\ e_data e = content).

Lemma old_or_new_bind {A B : Type} (v : option entry) (content : bytes) (op : R A) (k : A -> R B) (w : world) :
  keeps (holds RuntimeDir RUNTIME_TRUST_STORE_FILE v) op -> holds RuntimeDir RUNTIME_TRUST_STORE_FILE v w ->
  (forall a w', op w = (Ok a, w') -> holds RuntimeDir RUNTIME_TRUST_STORE_FILE v w' -> old_or_new v content (k a w')) ->
  old_or_new v content ((op ≫= k) w).
Proof.
  intros Hop Hw Hk. pose proof (Hop w Hw) as Hw1. split_bind Hrun; [by left|]. by apply Hk.
Qed.
Lemma new_bind {A B : Type} (v : option entry) (content : bytes) (e : entry) (op : R A) (k : A -> R B) (w : world) :
  keeps (holds RuntimeDir RUNTIME_TRUST_STORE_FILE (Some e)) (op ≫= k) ->
  dir_of w RuntimeDir !! RUNTIME_TRUST_STORE_FILE = Some e -> e_data e = content -> old_or_new v content ((op ≫= k) w).
Proof. intros Hop Hw He. right. exists e. split; [exact (Hop w Hw) | done]. Qed.

Lemma io_never_stops {A : Type} (p : place) (f : outcome -> directory -> result io_kind A * directory) (w : world) (s : stop) (w' : world) :
  io p f w = (Err s, w') -> False.
Proof. unfold io, io_partial. destruct (o_fail _); [done|]. by destruct (f _ _). Qed.
Lemma replace_Ok (p : place) (source destination : bytes) (w : world) (u : unit) (w' : world) (e : entry) :
  dir_of w p !! source = Some e -> replace_private_record p source destination w = (Ok (Ok u), w') ->
  dir_of w' p !! destination = Some e.
Proof.
  intros He. unfold replace_private_record, io, io_partial. destruct (o_fail _); [done|]. rewrite He.
  destruct (dir_of w p !! destination) as [e'|]; [destruct (bool_decide _); [done|]|];
    intros [= _ <-]; cbn; by rewrite decide_True, lookup_insert_eq.
Qed.
Lemma replace_Err (p : place) (source destination x : bytes) (v : option entry) (w : world) (kind : io_kind) (w' : world) :
  holds p x v w -> replace_private_record p source destination w = (Ok (Err kind), w') -> holds p x v w'.
Proof.
  intros Hw. unfold replace_private_record, io, io_partial, holds in *.
  destruct (o_fail _); [by intros [= _ <-]; cbn; rewrite decide_True|].
  destruct (dir_of w p !! source), (dir_of w p !! destination); try destruct (bool_decide _); try done;
    intros [= _ <-]; cbn; by rewrite decide_True.
Qed.
Lemma write_new_Ok (p : place) (name content : bytes) (file e : entry) (t1 t2 : bytes) w u w' :
  write_new_file p name content file t1 t2 w = (Ok u, w') -> dir_of w p !! name = Some e ->
  exists o, dir_of w' p !! name = Some (written content o e).
Proof.
  unfold write_new_file, file_sync_all. intros Hrun He. run. carry.
  match goal with Hw : write_all _ _ _ ?w1 = _, Hd : dir_of ?w1 p !! name = Some e |- _ =>
    destruct (write_file_Ok _ _ _ _ _ _ _ Hw Hd) as [o Ho] end.
  exists o. carry. done.
Qed.

Lemma write_trust_loop_spec attempts content v w :
  holds RuntimeDir RUNTIME_TRUST_STORE_FILE v w -> old_or_new v content (write_trust_loop attempts content w).
Proof.
  revert w. induction attempts as [|attempts IH]; intros w Hw; cbn [write_trust_loop]; [by left|].
  apply old_or_new_bind; [apply frame_random | done|]. intros nonce w1 _ Hw1. cbv zeta.
  assert (Hap : apart RuntimeDir RUNTIME_TRUST_STORE_FILE RuntimeDir (trust_pending_name nonce)) by (right; apply pending_not_store).
  apply old_or_new_bind; [by apply frame_create | done|]. intros created w2 Hcreate Hw2.
  destruct created as [file|[]]; [|by left | by apply IH | by left]. apply create_file_Ok in Hcreate.
  apply old_or_new_bind; [apply record_keeps_attempt; unfold write_new_file, file_sync_all; keep_steps | done|].
  intros written_ w3 Hwrite Hw3. apply attempt_Ok in Hwrite. destruct written_ as [[]|e].
  2: { apply old_or_new_bind; [by apply frame_remove_file | done|]. by left. }
  destruct (write_new_Ok _ _ _ _ _ _ _ _ _ _ Hwrite Hcreate) as [o Htemp].
  unfold mbind at 1, R_bind at 1.
  destruct (replace_private_record RuntimeDir (trust_pending_name nonce) RUNTIME_TRUST_STORE_FILE w3) as [[r|s] w4] eqn:Er; cycle 1.
  { by apply io_never_stops in Er. }
  destruct r as [[]|kind].
  - apply (replace_Ok _ _ _ _ _ _ _ Htemp) in Er. eapply new_bind; [|exact Er | done]. keep_steps.
  - apply (replace_Err _ _ _ _ _ _ _ _ Hw3) in Er. apply old_or_new_bind; [by apply frame_remove_file | done|]. by left.
Qed.
Lemma write_store_spec store v w :
  holds RuntimeDir RUNTIME_TRUST_STORE_FILE v w ->
  old_or_new v (trust_to_vec store) (write_runtime_trust_store store w) /\
  (validate_runtime_trust_store store = Ok () \/ is_ok (write_runtime_trust_store store w).1 = false /\
     holds RuntimeDir RUNTIME_TRUST_STORE_FILE v (write_runtime_trust_store store w).2).
Proof.
  intros Hw. unfold write_runtime_trust_store.
  destruct (validate_runtime_trust_store store) as [[]|e]; [split; [|by left] | split; [by left | by right]].
  apply old_or_new_bind; [apply record_keeps_lift | done|]. intros _ w0 _ Hw0. cbv zeta.
  apply old_or_new_bind; [apply keeps_bail_if | done|]. intros _ w1 _ Hw1.
  apply old_or_new_bind; [unfold ensure_trust_pending_capacity, scan_trust_pending_files; keep_steps | done|]. intros _ w2 _ Hw2.
  apply old_or_new_bind; [apply frame_open | done|]. intros opened w3 _ Hw3.
  apply old_or_new_bind; [keep_steps | done|]. intros _ w4 _ Hw4. by apply write_trust_loop_spec.
Qed.
End Write.

(** ** The refinement *)

Section Refinement.
Context `{Host} `{TrustCodec}.

(** The abstract store: a set of digests, of bounded size *)
Definition set_ok (trusted : gset bytes) : Prop :=
  Z.of_nat (size trusted) <= RUNTIME_TRUST_MAX_ENTRIES /\ forall digest, digest ∈ trusted -> validate_hex 64 digest = true.
Definition store_for (trusted : gset bytes) : RuntimeTrustStore := {|
  ts_schema_version := RUNTIME_TRUST_SCHEMA_VERSION; ts_trusted := gset_to_gmap true trusted |}.
(** The store file holds the set; no file holds none. *)
Definition represents (w : world) (trusted : gset bytes) : Prop :=
  set_ok trusted /\
  ((dir_of w RuntimeDir !! RUNTIME_TRUST_STORE_FILE = None /\ trusted = ∅) \/
   (exists e, dir_of w RuntimeDir !! RUNTIME_TRUST_STORE_FILE = Some e /\ e_data e = trust_to_vec (store_for trusted))).

Inductive trust_command := Check (digest : bytes) | Set_ (digest : bytes) (value : bool) | Prepare.
(** What a command may do to the abstract store, and answer *)
Definition updated (digest : bytes) (value : bool) (trusted : gset bytes) : gset bytes :=
  if value then {[digest]} ∪ trusted else trusted ∖ {[digest]}.
Definition allowed (command : trust_command) (answer : option (option bool)) (before after_ : gset bytes) : Prop :=
  match command, answer with
  | Check digest, Some (Some answer) => after_ = before /\ answer = bool_decide (digest ∈ before)
  | Set_ digest value, Some _ => after_ = updated digest value before
  | Set_ digest value, None => after_ = before \/ after_ = updated digest value before
  | _, _ => after_ = before
  end.
Definition run_command (command : trust_command) : R (option bool) :=
  match command with
  | Check digest => trusted ← check_workspace_trust digest; mret (Some trusted)
  | Set_ digest value => _ ← set_workspace_trust digest value; mret None
  | Prepare => _ ← prepare_runtime_state; mret None
  end.

Lemma store_valid trusted : set_ok trusted <-> validate_runtime_trust_store (store_for trusted) = Ok ().
Proof.
  unfold validate_runtime_trust_store, set_ok. rewrite <- (size_dom (ts_trusted (store_for trusted))). cbn [store_for ts_trusted ts_schema_version].
  rewrite dom_gset_to_gmap.
  assert (Heach : Forall (fun '(digest, value) => (_ ← validate_trust_digest digest; fail_if (negb value) (Bail (B"workspace trust store values must be true"))) = Ok ())
      (map_to_list (gset_to_gmap true trusted)) <-> forall digest, digest ∈ trusted -> validate_hex 64 digest = true).
  { rewrite map_to_list_gset_to_gmap, Forall_fmap, Forall_forall. unfold validate_trust_digest. cbn.
    setoid_rewrite elem_of_elements. split; intros Hall digest Hin; specialize (Hall digest Hin).
    - by destruct (validate_hex 64 digest).
    - by rewrite Hall. }
  rewrite bind_Ok. split.
  - intros [Hsize Hhex]. exists (). split; [done|]. apply bind_Ok. exists (). split; [apply fail_if_Ok; lia|].
    apply try_each_Ok. eapply Forall_impl; [by apply Heach|]. by intros [].
  - intros (_ & _ & Hrest). inv_ok. split; [lia|]. apply Heach. eapply Forall_impl; [eassumption|]. by intros [].
Qed.
Lemma represents_reads (w : world) (trusted : gset bytes) :
  represents w trusted <-> set_ok trusted /\
    exists v, holds RuntimeDir RUNTIME_TRUST_STORE_FILE v w /\
      match v with None => trusted = ∅ | Some e => e_data e = trust_to_vec (store_for trusted) end.
Proof.
  unfold represents, holds. split; intros [Hok Hw]; (split; [done|]).
  - destruct Hw as [[Hw ->]|(e & Hw & He)]; [by exists None | by exists (Some e)].
  - destruct Hw as ([e|] & Hw & He); eauto.
Qed.
Lemma keeps_represents {A : Type} (op : R A) (trusted : gset bytes) :
  (forall v, keeps (holds RuntimeDir RUNTIME_TRUST_STORE_FILE v) op) -> keeps (fun w => represents w trusted) op.
Proof.
  intros Hop w Hw. rewrite represents_reads in Hw |- *. destruct Hw as (Hok & v & Hw & Hv). split; [done|]. exists v.
  split; [by apply Hop | done].
Qed.
Lemma read_represented (w : world) (trusted : gset bytes) store w' :
  represents w trusted -> read_runtime_trust_store w = (Ok store, w') -> store = store_for trusted.
Proof.
  intros [_ Hw] Hrun. unfold read_runtime_trust_store in Hrun. apply R_bind_Ok in Hrun as (opened & w1 & Hopen & Hrun).
  destruct opened as [file|[]]; [|run | done..].
  - apply open_file_Ok in Hopen. destruct Hw as [[Hw _]|(e & Hw & He)]; [congruence|]. run.
    match goal with Hr : read_at_most _ _ _ _ = _ |- _ => apply read_whole in Hr as Hdata; [|lia|done] end.
    rewrite Hopen in Hw. simplify_eq.
    match goal with Hx : ok_or _ _ = _ |- _ => rewrite He, trust_roundtrip in Hx end.
    by simplify_eq/=.
  - assert (dir_of w RuntimeDir !! RUNTIME_TRUST_STORE_FILE = None) as Hnone.
    { unfold open_private_ticket_file, io, io_partial in Hopen. pose proof (fail_is_real (calls w)) as [Hreal _].
      destruct (o_fail _); [by simplify_eq|]. destruct (_ !! _); [|done]. by destruct (bool_decide _). }
    destruct Hw as [[_ ->]|(e & Hw & _)]; [|congruence]. unfold empty_store, store_for. by rewrite gset_to_gmap_empty.
Qed.
Lemma write_represented (w : world) (trusted trusted' : gset bytes) :
  represents w trusted ->
  let run := write_runtime_trust_store (store_for trusted') w in
  (is_ok run.1 = false /\ represents run.2 trusted) \/ represents run.2 trusted'.
Proof.
  intros Hw. apply represents_reads in Hw as (Hok & v & Hw & Hv). cbv zeta.
  destruct (write_store_spec (store_for trusted') v w Hw) as [Hspec Hvalid].
  destruct Hspec as [[Hsame Hfail]|(e & Hnew & Hdata)].
  - left. split; [done|]. apply represents_reads. eauto.
  - destruct Hvalid as [Hvalid|[Hfail Hsame]].
    + right. split; [by apply store_valid|]. eauto.
    + left. split; [done|]. apply represents_reads. eauto.
Qed.
Lemma store_for_updated digest value trusted :
  store_for (updated digest value trusted) =
  {| ts_schema_version := RUNTIME_TRUST_SCHEMA_VERSION;
     ts_trusted := if value then <[digest := true]> (gset_to_gmap true trusted) else delete digest (gset_to_gmap true trusted) |}.
Proof.
  unfold store_for, updated. destruct value; [by rewrite gset_to_gmap_union_singleton | by rewrite gset_to_gmap_difference_singleton].
Qed.
Definition answer_of {A : Type} (f : A -> option bool) (r : result stop A) : option (option bool) :=
  match r with Ok a => Some (f a) | Err _ => None end.

Lemma after_reading {A : Type} (k : RuntimeTrustStore -> R A) (trusted : gset bytes) (w : world)
    (Q : result stop A -> world -> Prop) :
  represents w trusted -> (forall e w', represents w' trusted -> Q (Err e) w') ->
  (forall w', represents w' trusted -> Q (k (store_for trusted) w').1 (k (store_for trusted) w').2) ->
  let run := (_ ← lock_trust; store ← read_runtime_trust_store; k store) w in Q run.1 run.2.
Proof.
  intros Hw Hstop Hk. cbv zeta. pose proof (keeps_represents _ trusted (fun v => frame_lock_trust v) w Hw) as Hw1.
  split_bind Hlock; [by apply Hstop|].
  pose proof (keeps_represents _ trusted (fun v => frame_read_trust v) _ Hw1) as Hw2.
  split_bind Hread; [by apply Hstop|]. rewrite (read_represented _ _ _ _ Hw1 Hread). by apply Hk.
Qed.

(** What one command does *)
Definition simulated {A : Type} (command : trust_command) (f : A -> option bool) (trusted : gset bytes) (r : result stop A) (w' : world) : Prop :=
  exists trusted', represents w' trusted' /\ allowed command (answer_of f r) trusted trusted'.
Lemma simulated_stop {A : Type} command (f : A -> option bool) trusted e w' : represents w' trusted -> simulated command f trusted (Err e) w'.
Proof. intros Hw. exists trusted. split; [done|]. destruct command; cbn; auto. Qed.
Lemma simulated_ret {A : Type} command (f : A -> option bool) (op : R A) trusted w :
  simulated command f trusted (op w).1 (op w).2 ->
  simulated command id trusted ((a ← op; mret (f a)) w).1 ((a ← op; mret (f a)) w).2.
Proof. unfold mbind, R_bind, simulated. by destruct (op w) as [[a|e] w1]. Qed.

Lemma simulated_check digest trusted w :
  represents w trusted ->
  simulated (Check digest) Some trusted (check_workspace_trust digest w).1 (check_workspace_trust digest w).2.
Proof.
  intros Hw. unfold check_workspace_trust. destruct (validate_trust_digest digest) as [[]|e]; [|by apply simulated_stop].
  apply (after_reading (fun store => mret (bool_decide (is_Some (ts_trusted store !! digest)))) trusted w
           (fun r w' => simulated (Check digest) Some trusted r w')); [done | intros; by apply simulated_stop|].
  intros w' Hw'. exists trusted. split; [done|]. cbn [fst mret R_ret allowed answer_of]. split; [done|]. apply bool_decide_ext.
  rewrite <- elem_of_dom. cbn [store_for ts_trusted]. by rewrite dom_gset_to_gmap.
Qed.
Lemma simulated_prepare trusted w :
  represents w trusted ->
  simulated Prepare (fun _ => None) trusted (prepare_runtime_state w).1 (prepare_runtime_state w).2.
Proof.
  intros Hw. apply (after_reading (fun store => mret ()) trusted w (fun r w' => simulated Prepare (fun _ => None) trusted r w'));
    [done | intros; by apply simulated_stop | by exists trusted].
Qed.
Lemma simulated_write digest value trusted w :
  represents w trusted ->
  let run := write_runtime_trust_store (store_for (updated digest value trusted)) w in
  simulated (Set_ digest value) (fun _ => None) trusted run.1 run.2.
Proof.
  intros Hw. cbv zeta. destruct (write_represented w trusted (updated digest value trusted) Hw) as [[Hfail Hsame]|Hnew].
  - destruct (write_runtime_trust_store _ w) as [[]]; [done|]. by apply simulated_stop.
  - exists (updated digest value trusted). split; [done|]. destruct (write_runtime_trust_store _ w) as [[]]; cbn; auto.
Qed.
Lemma simulated_set digest value trusted w :
  represents w trusted ->
  simulated (Set_ digest value) (fun _ => None) trusted (set_workspace_trust digest value w).1 (set_workspace_trust digest value w).2.
Proof.
  intros Hw. unfold set_workspace_trust. destruct (validate_trust_digest digest) as [[]|e]; [|by apply simulated_stop].
  eapply (after_reading _ trusted w (fun r w' => simulated (Set_ digest value) (fun _ => None) trusted r w'));
    [done | intros; by apply simulated_stop|].
  intros w' Hw'. cbn [store_for ts_trusted ts_schema_version]. pose proof (simulated_write digest value trusted w' Hw') as Hwrite.
  rewrite store_for_updated in Hwrite. destruct value; [|done].
  destruct (_ && _); [by apply simulated_stop | exact Hwrite].
Qed.

(** A history of commands, and what the set allows of it *)
Fixpoint run_commands (commands : list trust_command) (w : world) : list (trust_command * option (option bool)) * world :=
  match commands with
  | [] => ([], w)
  | command :: commands =>
      let '(r, w1) := run_command command w in
      let '(answers, w2) := run_commands commands w1 in ((command, answer_of id r) :: answers, w2)
  end.
Inductive allows : list (trust_command * option (option bool)) -> gset bytes -> gset bytes -> Prop :=
| allows_nil trusted : allows [] trusted trusted
| allows_cons command answer history before between after_ :
    allowed command answer before between -> allows history between after_ -> allows ((command, answer) :: history) before after_.

(** C14 (refinement) Seen through its commands the trust store is a set of digests: from a directory whose store
    file holds a set, every history of commands [--check-workspace-trust], trust, untrust and prepare,
    whatever calls fail in it, answers as the set would and leaves a store file that holds the
    resulting set whole (at most 4096 valid digests). A check that answers tells membership and changes
    nothing, an update that succeeds has been made, and one that fails has either been made or changed
    nothing: never a third set, and never a file that cannot be read. *)
Theorem trust_store_refines (commands : list trust_command) (w : world) (trusted : gset bytes) :
  represents w trusted ->
  let '(history, w') := run_commands commands w in
  exists trusted', represents w' trusted' /\ allows history trusted trusted'.
Proof.
  revert w trusted. induction commands as [|command commands IH]; intros w trusted Hw; cbn [run_commands].
  { exists trusted. split; [done | constructor]. }
  assert (simulated command id trusted (run_command command w).1 (run_command command w).2) as (between & Hbetween & Hallowed).
  { destruct command; cbn [run_command].
    - by apply (simulated_ret _ Some), simulated_check.
    - by apply (simulated_ret _ (fun _ => None)), simulated_set.
    - by apply (simulated_ret _ (fun _ => None)), simulated_prepare. }
  destruct (run_command command w) as [r w1]. specialize (IH w1 between Hbetween).
  destruct (run_commands commands w1) as [history w2]. destruct IH as (trusted' & Hrep & Hallows).
  exists trusted'. split; [done|]. by econstructor.
Qed.
End Refinement.
