(* ===== verification/RuntimeExamples.v ===== *)
(** * Documents and a host for runtime records, and histories on it

    A serialisation of every stored document with the laws the theorems ask of JSON, a host whose
    calls work, and runs on which the theorems on runtime records apply. *)
From S2P Require Import Prelude Protocol RuntimeMessages RuntimeMachine LspProxy RemoteHost RuntimeRecords RuntimeControl RuntimeTickets RuntimeTrust RuntimeRecordsProps RuntimeHistory RuntimeHistoryProps RuntimeServe RuntimeLimits RuntimeTrustProps.

(** ** A serialisation *)

Class Wire (A : Type) := {
  put : A -> bytes;
  get : bytes -> option (A * bytes);
  get_put a rest : get (put a ++ rest) = Some (a, rest) }.

Definition wire_map {A B : Type} `{Wire B} (f : A -> B) (g : B -> A) (Hgf : forall a, g (f a) = a) : Wire A.
Proof.
  refine {| put a := put (f a); get s := '(b, rest) ← get s; Some (g b, rest) |}.
  intros a rest. rewrite get_put. cbn. by rewrite Hgf.
Defined.
#[local] Instance wire_unit : Wire unit.
Proof. refine {| put _ := []; get s := Some ((), s) |}. by intros [] rest. Defined.
#[local] Instance wire_bool : Wire bool.
Proof.
  refine {| put b := [if b : bool then x01 else x00];
            get s := match s with b :: rest => Some (byte_eqb b x01, rest) | [] => None end |}.
  by intros [] rest.
Defined.
#[local] Instance wire_byte : Wire byte.
Proof. refine {| put b := [b]; get s := match s with b :: rest => Some (b, rest) | [] => None end |}. done. Defined.
#[local] Instance wire_prod {A B : Type} `{Wire A} `{Wire B} : Wire (A * B).
Proof.
  refine {| put p := put p.1 ++ put p.2; get s := '(a, rest) ← get s; '(b, rest) ← get rest; Some ((a, b), rest) |}.
  intros [a b] rest. cbn. rewrite <- app_assoc, get_put. cbn. by rewrite get_put.
Defined.
#[local] Instance wire_option {A : Type} `{Wire A} : Wire (option A).
Proof.
  refine {| put o := match o with None => [x00] | Some a => x01 :: put a end;
            get s := match s with
                     | x01 :: rest => '(a, rest) ← get rest; Some (Some a, rest)
                     | _ :: rest => Some (None, rest)
                     | [] => None
                     end |}.
  intros [a|] rest; [|done]. cbn. by rewrite get_put.
Defined.
#[local] Instance wire_sum {A B : Type} `{Wire A} `{Wire B} : Wire (A + B).
Proof.
  refine {| put o := match o with inl a => x00 :: put a | inr b => x01 :: put b end;
            get s := match s with
                     | x00 :: rest => '(a, rest) ← get rest; Some (inl a, rest)
                     | _ :: rest => '(b, rest) ← get rest; Some (inr b, rest)
                     | [] => None
                     end |}.
  intros [a|b] rest; cbn; by rewrite get_put.
Defined.
Fixpoint put_all {A : Type} `{Wire A} (l : list A) : bytes :=
  match l with [] => [x00] | a :: l => x01 :: put a ++ put_all l end.
Fixpoint get_all {A : Type} `{Wire A} (fuel : nat) (s : bytes) : option (list A * bytes) :=
  match fuel, s with
  | S fuel, x01 :: rest => '(a, rest) ← get rest; '(l, rest) ← get_all fuel rest; Some (a :: l, rest)
  | S _, _ :: rest => Some ([], rest)
  | _, _ => None
  end.
Lemma get_all_put_all {A : Type} `{Wire A} (l : list A) rest fuel :
  (length l < fuel)%nat -> get_all fuel (put_all l ++ rest) = Some (l, rest).
Proof.
  revert fuel. induction l as [|a l IH]; intros [|fuel] Hf; cbn in *; try lia; [done|].
  rewrite <- app_assoc, get_put. cbn. rewrite IH by lia. done.
Qed.
Lemma put_all_length {A : Type} `{Wire A} (l : list A) : (length l < length (put_all l))%nat.
Proof. induction l as [|a l IH]; cbn; [lia|]. rewrite length_app. lia. Qed.
#[local] Instance wire_list {A : Type} `{Wire A} : Wire (list A).
Proof.
  refine {| put := put_all; get s := get_all (S (length s)) s |}.
  intros l rest. apply get_all_put_all. pose proof (put_all_length l). rewrite length_app. lia.
Defined.
Fixpoint bits_of (p : positive) : list bool :=
  match p with xH => [] | xO p => false :: bits_of p | xI p => true :: bits_of p end.
Fixpoint of_bits (l : list bool) : positive :=
  match l with [] => xH | false :: l => xO (of_bits l) | true :: l => xI (of_bits l) end.
#[local] Instance wire_Z : Wire Z.
Proof.
  refine (wire_map (fun z => match z with Z0 => None | Zpos p => Some (true, bits_of p) | Zneg p => Some (false, bits_of p) end)
            (fun o => match o with None => Z0 | Some (true, l) => Zpos (of_bits l) | Some (false, l) => Zneg (of_bits l) end) _).
  assert (forall p, of_bits (bits_of p) = p) as Hp by (induction p; cbn; congruence).
  intros []; by rewrite ?Hp.
Defined.
(** A finite enumeration, by position *)
Definition wire_enum {A : Type} `{EqDecision A} (all : list A) (default : A) (Hall : forall a, a ∈ all) : Wire A.
Proof.
  refine (wire_map (fun a => Z.of_nat (from_option fst O (list_find (a =.) all))) (fun z => nth (Z.to_nat z) all default) _).
  intros a. rewrite Nat2Z.id. destruct (list_find (a =.) all) as [[i b]|] eqn:E; cbn.
  - apply list_find_Some in E as (Hi & -> & _). by apply nth_lookup_Some.
  - apply list_find_None in E. rewrite Forall_forall in E. by destruct (E a (Hall a)).
Defined.

(** ** The documents *)

#[local] Instance wire_signal : Wire RuntimeSignal.
Proof.
  refine (wire_map (fun x => match x with Interrupt => (false, false) | Terminate => (false, true) | Kill => (true, false) | Hangup => (true, true) end)
    (fun p => match p with (false, false) => Interrupt | (false, true) => Terminate | (true, false) => Kill | (true, true) => Hangup end) _).
  by intros [].
Defined.
#[local] Instance wire_capability : Wire RuntimeCapability.
Proof. apply (wire_enum [ProcessPipeV1; ProcessPtyV1; WorkspaceWatchV1] ProcessPipeV1). intros []; set_solver. Defined.
#[local] Instance wire_persistence : Wire RuntimePersistence.
Proof.
  refine (wire_map (fun x => match x with Attached => None | Detachable ttl => Some ttl end)
    (fun o => match o with None => Attached | Some ttl => Detachable ttl end) _). by intros [].
Defined.
#[local] Instance wire_size : Wire TerminalSize.
Proof.
  refine (wire_map (fun t => (columns t, rows t, pixel_width t, pixel_height t))
    (fun '(a, b, c, d) => {| columns := a; rows := b; pixel_width := c; pixel_height := d |}) _). by intros [].
Defined.
#[local] Instance wire_var : Wire RuntimeEnvVar.
Proof. refine (wire_map (fun v => (var_name v, var_value v)) (fun '(a, b) => {| var_name := a; var_value := b |}) _). by intros []. Defined.
#[local] Instance wire_environment : Wire RuntimeEnvironment.
Proof.
  refine (wire_map (fun e => (env_clear e, env_set e, env_unset e)) (fun '(a, b, c) => {| env_clear := a; env_set := b; env_unset := c |}) _).
  by intros [].
Defined.
#[local] Instance wire_cwd : Wire RuntimeCwd.
Proof.
  refine (wire_map (fun x => match x with WorkspaceRoot => None | WorkspaceRelative p => Some p end)
    (fun o => match o with None => WorkspaceRoot | Some p => WorkspaceRelative p end) _). by intros [].
Defined.
#[local] Instance wire_spec : Wire RuntimeProcessSpec.
Proof.
  refine (wire_map (fun s => (argv s, cwd s, env s, persistence s, terminal_size s, timeout_ms s, max_output_bytes s))
    (fun '(a, b, c, d, e, f, g) => {| argv := a; cwd := b; env := c; persistence := d; terminal_size := e; timeout_ms := f; max_output_bytes := g |}) _).
  by intros [].
Defined.
#[local] Instance wire_host : Wire RemoteHostInfo.
Proof.
  refine (wire_map (fun h => (hi_os h, hi_arch h, hi_shell h, hi_home h, hi_local_app_data h, bool_decide (hi_path_style h = Posix), hi_target h))
    (fun '(a, b, c, d, e, f, g) => {| hi_os := a; hi_arch := b; hi_shell := c; hi_home := d; hi_local_app_data := e;
                                      hi_path_style := if f : bool then Posix else Windows; hi_target := g |}) _).
  by intros [? ? ? ? ? [] ?].
Defined.
#[local] Instance wire_ticket : Wire RuntimeTicket.
Proof.
  refine (wire_map (fun t => (t_schema_version t, t_workspace_key t, t_remote_root t, t_ssh t, t_agent t, t_ssh_connect_timeout_seconds t,
                              t_request_timeout_ms t, t_capability t, t_spec t, t_remote_host t))
    (fun '(a, b, c, d, e, f, g, h, i, j) => {| t_schema_version := a; t_workspace_key := b; t_remote_root := c; t_ssh := d; t_agent := e;
       t_ssh_connect_timeout_seconds := f; t_request_timeout_ms := g; t_capability := h; t_spec := i; t_remote_host := j |}) _).
  by intros [].
Defined.
#[local] Instance wire_stored : Wire StoredRuntimeTicket.
Proof.
  refine (wire_map (fun s => (st_schema_version s, st_ticket_id s, st_issued_at_unix_ms s, st_expires_at_unix_ms s, st_ticket s))
    (fun '(a, b, c, d, e) => {| st_schema_version := a; st_ticket_id := b; st_issued_at_unix_ms := c; st_expires_at_unix_ms := d; st_ticket := e |}) _).
  by intros [].
Defined.
#[local] Instance wire_protection : Wire RuntimeContentProtection.
Proof. apply (wire_enum [PosixMode; WindowsDpapi; WindowsAcl] PosixMode). intros []; set_solver. Defined.
#[local] Instance wire_envelope : Wire RuntimeTicketEnvelope.
Proof.
  refine (wire_map (fun e => (te_schema_version e, te_workspace_key e, te_protection e, te_protected_payload e))
    (fun '(a, b, c, d) => {| te_schema_version := a; te_workspace_key := b; te_protection := c; te_protected_payload := d |}) _).
  by intros [].
Defined.
#[local] Instance kind_eq_dec : EqDecision RuntimeResultKind.
Proof. solve_decision. Defined.
#[local] Instance wire_kind : Wire RuntimeResultKind.
Proof.
  apply (wire_enum [Kind_ProcessExit; Kind_Signal; Kind_TimedOut; Kind_OutputLimit; Kind_Cancelled; Kind_Detached; Kind_RuntimeError;
                    Kind_TransportError] Kind_ProcessExit).
  intros []; set_solver.
Defined.
#[local] Instance wire_result : Wire RuntimeProxyResult.
Proof.
  refine (wire_map (fun r => (pr_schema_version r, pr_exit_code r, pr_kind r, pr_error_code r, pr_message r, pr_output_truncated r, pr_bridge_stderr r))
    (fun '(a, b, c, d, e, f, g) => {| pr_schema_version := a; pr_exit_code := b; pr_kind := c; pr_error_code := d; pr_message := e;
                                      pr_output_truncated := f; pr_bridge_stderr := g |}) _).
  by intros [].
Defined.
#[local] Instance wire_result_envelope : Wire RuntimeResultEnvelope.
Proof.
  refine (wire_map (fun e => (re_schema_version e, re_protection e, re_protected_payload e))
    (fun '(a, b, c) => {| re_schema_version := a; re_protection := b; re_protected_payload := c |}) _).
  by intros [].
Defined.
#[local] Instance wire_control : Wire RuntimeControlMessage.
Proof.
  refine (wire_map (fun m => (cm_schema_version m, cm_ticket_id m, cm_issued_at_unix_ms m, cm_signal m))
    (fun '(a, b, c, d) => {| cm_schema_version := a; cm_ticket_id := b; cm_issued_at_unix_ms := c; cm_signal := d |}) _).
  by intros [].
Defined.
Definition store_pairs (s : RuntimeTrustStore) : Z * list (bytes * bool) := (ts_schema_version s, map_to_list (ts_trusted s)).
Definition pairs_store (p : Z * list (bytes * bool)) : RuntimeTrustStore := {| ts_schema_version := p.1; ts_trusted := list_to_map p.2 |}.
Lemma pairs_store_pairs (s : RuntimeTrustStore) : pairs_store (store_pairs s) = s.
Proof. destruct s as [a b]. unfold pairs_store, store_pairs. cbn [fst snd ts_trusted ts_schema_version]. by rewrite list_to_map_to_list. Qed.
#[local] Instance wire_store : Wire RuntimeTrustStore := wire_map store_pairs pairs_store pairs_store_pairs.

(** The inverse of a digit *)
Definition hex_value (b : byte) : Z := if is_ascii_digit b then u8 b - 48 else u8 b - 87.
Lemma hex_value_digit n : 0 <= n < 16 -> hex_value (hex_digit n) = n.
Proof.
  intros Hn. unfold hex_value, hex_digit, is_ascii_digit, in_range.
  destruct (Z.ltb_spec n 10); rewrite u8_byte_of, Z.mod_small by lia; repeat case_match; lia.
Qed.
(** A document is its serialisation and an end mark that nothing else contains. *)
Definition document {A : Type} `{Wire A} (x : A) : bytes := (put x ≫= hex_byte) ++ [x23].
Fixpoint unhex (s : bytes) : option bytes :=
  match s with
  | [b] => if byte_eqb b x23 then Some [] else None
  | a :: b :: rest => '(l) ← unhex rest; Some (byte_of (hex_value a * 16 + hex_value b) :: l)
  | [] => None
  end.
Definition undocument {A : Type} `{Wire A} (s : bytes) : option A := s ← unhex s; '(x, _) ← get s; Some x.
Lemma hex_cons (b : byte) (s : bytes) :
  (b :: s) ≫= hex_byte = hex_digit (u8 b `div` 16) :: hex_digit (u8 b mod 16) :: (s ≫= hex_byte).
Proof. done. Qed.
Lemma unhex_hex (s : bytes) : unhex ((s ≫= hex_byte) ++ [x23]) = Some s.
Proof.
  induction s as [|b s IH]; [done|].
  rewrite hex_cons. cbn [app].
  cbn [unhex]. rewrite IH. cbn. pose proof (u8_bounds b). rewrite !hex_value_digit by (Z.div_mod_to_equations; lia).
  do 2 f_equal. apply u8_inj. rewrite u8_byte_of, Z.mod_small; Z.div_mod_to_equations; lia.
Qed.
Lemma undocument_document {A : Type} `{Wire A} (x : A) : undocument (document x) = Some x.
Proof. unfold undocument, document. rewrite unhex_hex. cbn. rewrite <- (app_nil_r (put x)), get_put. done. Qed.
Lemma hex_not_mark n : 0 <= n < 16 -> byte_eqb (hex_digit n) x23 = false.
Proof.
  intros Hn. destruct (byte_eqb _ _) eqn:E; [|done]. apply byte_eqb_true in E. apply (f_equal hex_value) in E.
  rewrite hex_value_digit in E by done. cbn in E. subst n. vm_compute in Hn. naive_solver.
Qed.
Lemma unhex_prefix (s : bytes) n : (n < length ((s ≫= hex_byte) ++ [x23]))%nat -> unhex (take n ((s ≫= hex_byte) ++ [x23])) = None.
Proof.
  revert n. induction s as [|b s IH]; intros n Hn; [by destruct n as [|[]]; cbn in *; [|lia..]|].
  rewrite hex_cons in *. cbn [app] in *.
  destruct n as [|[|n]]; cbn [take unhex firstn]; [done| |].
  - rewrite hex_not_mark; [done|]. pose proof (u8_bounds b). Z.div_mod_to_equations. lia.
  - cbn [length] in Hn. rewrite IH by lia. done.
Qed.
Lemma undocument_prefix {A : Type} `{Wire A} (x : A) n : (n < length (document x))%nat -> undocument (take n (document x)) = None (A := A).
Proof. intros Hn. unfold undocument, document in *. by rewrite unhex_prefix. Qed.

(** ** A host *)

Definition steady_outcome (i : nat) : outcome := {|
  o_fail := None; o_amount := 0; o_blocked := false; o_now := from_secs 1700000000; o_delay := 1; o_order := fun names => names |}.
Definition counted_random (i : nat) (n : Z) : option bytes :=
  if n <=? 0 then None else Some (byte_of (Z.of_nat i) :: replicate (Z.to_nat (n - 1)) x00).
Definition toy_host : Host.
Proof.
  refine {| outcome_of := steady_outcome; random_of := counted_random; effective_uid := 1000; umask := 18 |}.
  - done.
  - done.
  - unfold counted_random. intros i n bs. destruct (Z.leb_spec n 0); [done|]. intros [= <-].
    unfold zlen. cbn [length]. rewrite length_replicate. lia.
Defined.
Definition toy_control : ControlCodec := {|
  control_to_vec := document; control_from_slice := undocument;
  control_roundtrip := undocument_document; control_prefix := undocument_prefix |}.
Definition toy_tickets : TicketCodec := {|
  stored_to_vec := document; stored_from_slice := undocument; envelope_to_vec := document; envelope_from_slice := undocument;
  result_to_vec := document; result_from_slice := undocument; result_envelope_to_vec := document;
  result_envelope_from_slice := undocument; base64_encode := fun s => s; base64_decode := Some;
  blake3_hex := fun _ => replicate 64 x61; state_error_text := fun _ => [];
  stored_roundtrip := undocument_document; envelope_roundtrip := undocument_document; envelope_prefix := undocument_prefix;
  result_roundtrip := undocument_document; result_envelope_roundtrip := undocument_document; base64_roundtrip := fun _ => eq_refl |}.
Definition toy_trust : TrustCodec := {|
  trust_to_vec := document; trust_from_slice := undocument; trust_roundtrip := undocument_document |}.
#[local] Existing Instances toy_host toy_control toy_tickets toy_trust.

Definition toy_ticket : RuntimeTicket := {|
  t_schema_version := 1; t_workspace_key := replicate 24 x61; t_remote_root := B"/work"; t_ssh := None; t_agent := B"nrm-agent";
  t_ssh_connect_timeout_seconds := 10; t_request_timeout_ms := 1000; t_capability := ProcessPipeV1;
  t_spec := {| argv := [B"make"]; cwd := WorkspaceRoot; env := {| env_clear := false; env_set := []; env_unset := [] |};
               persistence := Attached; terminal_size := None; timeout_ms := None; max_output_bytes := None |};
  t_remote_host := None |}.
Definition toy_world : world := {| dir_of := fun _ => ∅; calls := 0; randoms := 0; instant := 0 |}.
Definition toy_id : bytes := replicate 64 x30.
Definition toy_history : list operation := [CreateTicket toy_ticket; ConsumeTicket toy_id; ConsumeTicket toy_id].

Lemma toy_created : (create_ticket toy_ticket toy_world).1 = Ok toy_id.
Proof. by vm_compute. Qed.
Lemma toy_served : (perform (ConsumeTicket toy_id) (perform (CreateTicket toy_ticket) toy_world).2).1 = Ok (Ticket toy_ticket).
Proof. by vm_compute. Qed.
Lemma toy_refused : is_ok (perform (ConsumeTicket toy_id) (after_all [CreateTicket toy_ticket; ConsumeTicket toy_id] toy_world)).1 = false.
Proof. by vm_compute. Qed.

(** ** Histories *)

Lemma served_ticket_was_issued_witness :
  exists j s' issue read,
    (j < 1)%nat /\ trace toy_history toy_world !! j = Some s' /\ s_op s' = CreateTicket toy_ticket /\
    (calls (s_before s') <= issue < calls (s_after s'))%nat /\
    (calls (perform (CreateTicket toy_ticket) toy_world).2 <= read <
      calls (after_all [CreateTicket toy_ticket; ConsumeTicket toy_id] toy_world))%nat /\
    clock_at issue <= saturating_add (clock_at read) 5000 /\ clock_at read <= clock_at issue + 30000 /\
    validate_ticket toy_ticket = Ok ().
Proof.
  exact (served_ticket_was_issued toy_history toy_world 1 (take_step (ConsumeTicket toy_id) (perform (CreateTicket toy_ticket) toy_world).2)
    toy_id toy_ticket eq_refl eq_refl eq_refl toy_served).
Defined.

Lemma toy_distinct : distinct_ids (randoms (after_all toy_history toy_world)).
Proof.
  assert (randoms (after_all toy_history toy_world) = 1%nat) as -> by by vm_compute. intros i j r Hi Hj _ _. lia.
Qed.
(** Of the two attempts in the history only the first one gets the ticket. *)
Lemma ticket_served_once_witness :
  s_result (take_step (ConsumeTicket toy_id) (perform (CreateTicket toy_ticket) toy_world).2) = Ok (Ticket toy_ticket) /\
  ~ exists j sj tj, j <> 1%nat /\ trace toy_history toy_world !! j = Some sj /\ s_op sj = ConsumeTicket toy_id /\ s_result sj = Ok (Ticket tj).
Proof.
  split; [exact toy_served|]. intros (j & sj & tj & Hj & Hs & Hop & Hr). apply Hj. symmetry.
  exact (ticket_served_once toy_history toy_world 1 j (take_step (ConsumeTicket toy_id) (perform (CreateTicket toy_ticket) toy_world).2) sj
    toy_id toy_ticket tj eq_refl toy_distinct eq_refl eq_refl toy_served Hs Hop Hr).
Defined.

Lemma created_ticket_is_served_witness :
  exists issue w'', (0 <= issue < calls (create_ticket toy_ticket toy_world).2)%nat /\
    consume_ticket toy_id (create_ticket toy_ticket toy_world).2 =
      (if zlen (stored_to_vec (stored_ticket toy_id (clock_at issue) (clock_at issue + 30000) toy_ticket)) >? MAX_TICKET_BYTES
       then Err ticket_too_long else Ok toy_ticket, w'') /\
    dir_of w'' TicketsDir !! record_name toy_id = None.
Proof.
  apply (created_ticket_is_served toy_ticket toy_world).
  - rewrite <- toy_created. by destruct (create_ticket toy_ticket toy_world).
  - done.
  - intros c _ i _. by vm_compute.
Defined.

Lemma record_directories_stay_bounded_witness :
  let records_ := records (dir_of (after_all [CreateTicket toy_ticket; CreateTicket toy_ticket] toy_world) TicketsDir) in
  Z.of_nat (size records_) <= 4096 /\ load records_ <= 64 * 1024 * 1024.
Proof.
  apply (record_directories_stay_bounded [CreateTicket toy_ticket; CreateTicket toy_ticket] toy_world TicketsDir); [by left|].
  intros q _. by vm_compute.
Defined.

Definition toy_digest : bytes := replicate 64 x62.
Definition toy_commands : list trust_command := [Check toy_digest; Set_ toy_digest true; Check toy_digest; Set_ toy_digest false; Prepare].
Lemma toy_answers :
  (run_commands toy_commands toy_world).1 =
  [(Check toy_digest, Some (Some false)); (Set_ toy_digest true, Some None); (Check toy_digest, Some (Some true));
   (Set_ toy_digest false, Some None); (Prepare, Some None)].
Proof. by vm_compute. Qed.
Lemma trust_store_refines_witness :
  let '(history, w') := run_commands toy_commands toy_world in exists trusted', represents w' trusted' /\ allows history ∅ trusted'.
Proof. apply (trust_store_refines toy_commands toy_world ∅). split; [by vm_compute | by left]. Defined.
