(* ===== verification/AgentCommand.v ===== *)
(** * Commands of the runtime server (crates/nrm-agent/src/runtime.rs, crates/nrm-pty/src/lib.rs, Unix)

    How the agent turns the specification of a process into the command it spawns, the
    checks of the PTY crate before the spawn, and the conversions of sizes, signals, exit
    statuses and error texts. *)
From S2P Require Import Prelude Paths Protocol RuntimeMessages AgentFs AgentWrite AgentReads.

(** ** The types of nrm-pty *)

Definition MAX_ARGUMENTS : Z := 1024.
Definition MAX_ENVIRONMENT_EDITS : Z := 2048.
Definition MAX_COMMAND_BYTES : Z := 256 * 1024.
Definition i16_max : Z := 32767.

Record PtySize := { pty_rows : Z; pty_cols : Z; pty_pixel_width : Z; pty_pixel_height : Z }.
Record PtyCommand := {
  program : bytes; args : list bytes; command_cwd : option bytes; clear_environment : bool;
  environment : list (bytes * option bytes) }.
Inductive PtySignal := PtyInterrupt | PtyHangup | PtyTerminate | PtyKill | PtyContinue.
Record PtyExitStatus := { exit_code : option Z; exit_signal : option Z }.
Inductive PtyError :=
| PtyEmptyProgram
| PtyInvalidSize (rows cols : Z)
| PtyTooManyArguments (actual : Z)
| PtyTooManyEnvironmentEdits (actual : Z)
| PtyCommandTooLarge (actual : Z)
| PtyEmbeddedNul (field : string)
| PtyInvalidEnvironmentName
| PtyDuplicateEnvironmentName
| PtyUnsupported (operation : string)
| PtyIo (operation : string) (source : bytes).

(** [PtySize::validate] *)
Definition validate_pty_size (size : PtySize) : result PtyError PtySize :=
  if (pty_rows size =? 0) || (pty_cols size =? 0) || (pty_rows size >? i16_max) || (pty_cols size >? i16_max)
  then Err (PtyInvalidSize (pty_rows size) (pty_cols size))
  else Ok size.

(** The methods that build a command. *)
Definition new_command (program : bytes) : PtyCommand := {|
  program := program; args := []; command_cwd := None; clear_environment := false; environment := [] |}.
Definition add_args (arguments : list bytes) (c : PtyCommand) : PtyCommand := {|
  program := program c; args := args c ++ arguments; command_cwd := command_cwd c;
  clear_environment := clear_environment c; environment := environment c |}.
Definition current_dir (directory : bytes) (c : PtyCommand) : PtyCommand := {|
  program := program c; args := args c; command_cwd := Some directory;
  clear_environment := clear_environment c; environment := environment c |}.
Definition push_env (key : bytes) (value : option bytes) (c : PtyCommand) : PtyCommand := {|
  program := program c; args := args c; command_cwd := command_cwd c;
  clear_environment := clear_environment c; environment := environment c ++ [(key, value)] |}.
Definition add_env (c : PtyCommand) (variable : RuntimeEnvVar) : PtyCommand :=
  push_env (var_name variable) (Some (var_value variable)) c.
Definition env_remove (c : PtyCommand) (key : bytes) : PtyCommand := push_env key None c.
Definition clear_env (c : PtyCommand) : PtyCommand := {|
  program := program c; args := args c; command_cwd := command_cwd c; clear_environment := true; environment := [] |}.

(** [PtyCommand::validate] and its helpers. *)
Definition reject_command_nul (field : string) (value : bytes) : result PtyError unit :=
  fail_if (contains_byte x00 value) (PtyEmbeddedNul field).
(** One round of the loop over the environment; [seen] is [self.environment[..index]]. *)
Definition validate_edit (seen : list (bytes * option bytes)) (edit : bytes * option bytes) :
    result PtyError (list (bytes * option bytes)) :=
  let '(key, value) := edit in
  _ ← fail_if (bytes_eqb key [] || contains_byte "=" key || contains_byte x00 key) PtyInvalidEnvironmentName;
  _ ← fail_if (existsb (fun e => bytes_eqb (fst e) key) seen) PtyDuplicateEnvironmentName;
  _ ← match value with Some value => reject_command_nul "environment value" value | None => Ok () end;
  Ok (seen ++ [edit]).
Definition checked_sum (start : Z) (values : list Z) : result PtyError Z :=
  try_fold (fun total value => ok_or (checked_add total value) (PtyCommandTooLarge u64_max)) start values.
Definition edit_lengths (edit : bytes * option bytes) : list Z :=
  zlen (fst edit) :: match snd edit with Some value => [zlen value] | None => [] end.
Definition validate_command (c : PtyCommand) : result PtyError unit :=
  _ ← fail_if (bytes_eqb (program c) []) PtyEmptyProgram;
  _ ← reject_command_nul "program" (program c);
  _ ← fail_if (zlen (args c) >? MAX_ARGUMENTS) (PtyTooManyArguments (zlen (args c)));
  _ ← fail_if (zlen (environment c) >? MAX_ENVIRONMENT_EDITS) (PtyTooManyEnvironmentEdits (zlen (environment c)));
  _ ← try_each (reject_command_nul "argument") (args c);
  _ ← match command_cwd c with Some cwd => reject_command_nul "cwd" cwd | None => Ok () end;
  _ ← try_fold validate_edit [] (environment c);
  total ← checked_sum (zlen (program c)) (zlen <$> args c);
  total ← checked_sum total (match command_cwd c with Some cwd => [zlen cwd] | None => [] end);
  total ← checked_sum total (environment c ≫= edit_lengths);
  fail_if (total >? MAX_COMMAND_BYTES) (PtyCommandTooLarge total).

(** ** The command of a specification *)

Inductive CommandError :=
| RuntimeArgvEmpty
| CwdUnresolved (e : agent_error)
| CwdMissing
| CwdEscapes
| CwdNotDirectory.

(** What the agent asks its file system about a working directory. *)
Class CwdHost := {
  canonicalize : bytes -> option bytes;
  is_dir : bytes -> bool }.

(** [Path::starts_with]: component by component. *)
Fixpoint components_prefix (p q : list Component) : bool :=
  match p, q with
  | [], _ => true
  | RootDir :: p, RootDir :: q | CurDir :: p, CurDir :: q | ParentDir :: p, ParentDir :: q => components_prefix p q
  | Normal a :: p, Normal b :: q => bytes_eqb a b && components_prefix p q
  | _, _ => false
  end.
(** [ensure_path_within_root] *)
Definition within_root (root path : bytes) : bool :=
  bytes_eqb path root || components_prefix (components root) (components path).

Section Commands.
Context `{CwdHost} (root : bytes).

Definition resolve_cwd (cwd : RuntimeCwd) : result CommandError bytes :=
  requested ← match cwd with
              | WorkspaceRoot => Ok root
              | WorkspaceRelative path => map_err CwdUnresolved (resolve_remote_path root path)
              end;
  canonical ← ok_or (canonicalize requested) CwdMissing;
  _ ← fail_if (negb (within_root root canonical)) CwdEscapes;
  _ ← fail_if (negb (is_dir canonical)) CwdNotDirectory;
  Ok canonical.

Definition build_command (spec : RuntimeProcessSpec) : result CommandError PtyCommand :=
  match argv spec with
  | [] => Err RuntimeArgvEmpty
  | program :: arguments =>
      cwd ← resolve_cwd (cwd spec);
      let command := current_dir cwd (add_args arguments (new_command program)) in
      let command := if env_clear (env spec) then clear_env command else command in
      let command := foldl env_remove command (env_unset (env spec)) in
      Ok (foldl add_env command (env_set (env spec)))
  end.
End Commands.

(** ** Conversions *)

Inductive SizeError := SizeCells | SizePixelWidth | SizePixelHeight.
Definition pty_size (size : TerminalSize) : result SizeError PtySize :=
  _ ← fail_if ((rows size >? i16_max) || (columns size >? i16_max)) SizeCells;
  let width := default 0 (pixel_width size) in
  let height := default 0 (pixel_height size) in
  _ ← fail_if (width >? u16_max) SizePixelWidth;
  _ ← fail_if (height >? u16_max) SizePixelHeight;
  Ok {| pty_rows := rows size; pty_cols := columns size; pty_pixel_width := width; pty_pixel_height := height |}.

Definition convert_signal (signal : RuntimeSignal) : PtySignal :=
  match signal with
  | Interrupt => PtyInterrupt
  | Terminate => PtyTerminate
  | Kill => PtyKill
  | Hangup => PtyHangup
  end.

Definition TERMINATION_NONE : Z := 0.
Definition TERMINATION_TIMEOUT : Z := 1.
Definition TERMINATION_OUTPUT_LIMIT : Z := 2.
Definition TERMINATION_CANCELLED : Z := 3.
(** [x as i32] of a [u32] and [x as u32] of an [i32]. *)
Definition as_i32 (x : Z) : Z := if x <=? 2 ^ 31 - 1 then x else x - 2 ^ 32.
Definition as_u32 (x : Z) : Z := x mod 2 ^ 32.
Definition runtime_exit_status (status : PtyExitStatus) (termination : Z) : RuntimeExitStatus :=
  if termination =? TERMINATION_TIMEOUT then TimedOut
  else if termination =? TERMINATION_OUTPUT_LIMIT then OutputLimit
  else if termination =? TERMINATION_CANCELLED then ExitCancelled
  else match exit_signal status with
       | Some signal => ExitSignal (as_u32 signal)
       | None => ExitCode (as_i32 (default 1 (exit_code status)))
       end.

Definition runtime_error_code (error : PtyError) : RuntimeErrorCode :=
  match error with
  | PtyUnsupported _ => CodeUnsupported
  | _ => CodeInternal
  end.

(** [str::is_char_boundary]: the bytes from 0x80 to 0xBF continue a character. *)
Definition is_char_boundary (message : bytes) (i : nat) : bool :=
  match i with
  | O => true
  | _ => match message !! i with
         | Some b => negb (in_range 128 191 b)
         | None => Nat.eqb i (length message)
         end
  end.
(** [while !message.is_char_boundary(end) { end -= 1; }] *)
Fixpoint boundary_before (message : bytes) (i : nat) : nat :=
  if is_char_boundary message i then i
  else match i with O => O | S i => boundary_before message i end.
Definition bounded_error_message (message : bytes) : bytes :=
  if zlen message <=? RUNTIME_MAX_ERROR_MESSAGE_BYTES then message
  else take (boundary_before message (Z.to_nat RUNTIME_MAX_ERROR_MESSAGE_BYTES)) message.

(** ** Spawning *)

Inductive SpawnError := SpawnPty (e : PtyError) | SpawnNoSize | SpawnSize (e : SizeError) | SpawnWatch.

(** [spawn_runtime_process]: [platform] is what the system makes of a command and a size
    that passed the checks of [PipeProcess::spawn] and [PtyProcess::spawn]. *)
Definition spawn_runtime_process (capability : RuntimeCapability) (command : PtyCommand)
    (spec : RuntimeProcessSpec) (platform : result PtyError Z) : result SpawnError Z :=
  match capability with
  | ProcessPipeV1 =>
      _ ← map_err SpawnPty (validate_command command);
      map_err SpawnPty platform
  | ProcessPtyV1 =>
      size ← ok_or (terminal_size spec) SpawnNoSize;
      size ← map_err SpawnSize (pty_size size);
      _ ← map_err SpawnPty (validate_command command);
      _ ← map_err SpawnPty (validate_pty_size size);
      map_err SpawnPty platform
  | WorkspaceWatchV1 => Err SpawnWatch
  end.

(** ** The command of an accepted specification

    What the agent hands to the system for a process specification that the protocol's
    validation accepted, and which checks can still refuse it. *)

(** The edits of a specification, in the order of [build_command]. *)
Definition spec_edits (e : RuntimeEnvironment) : list (bytes * option bytes) :=
  ((fun name => (name, None)) <$> env_unset e) ++ ((fun v => (var_name v, Some (var_value v))) <$> env_set e).

Lemma foldl_push {X} (f : PtyCommand -> X -> PtyCommand) (edit : X -> bytes * option bytes) l c :
  (forall c x, f c x = push_env (fst (edit x)) (snd (edit x)) c) ->
  foldl f c l = {| program := program c; args := args c; command_cwd := command_cwd c;
                   clear_environment := clear_environment c; environment := environment c ++ (edit <$> l) |}.
Proof.
  intros Hf. revert c. induction l as [|x l IH]; intros c; cbn; [rewrite app_nil_r; by destruct c|].
  rewrite IH, Hf. unfold push_env. cbn. by rewrite <- app_assoc, <- surjective_pairing.
Qed.

Lemma build_command_Ok `{CwdHost} root spec command :
  build_command root spec = Ok command ->
  exists program_ arguments directory,
    argv spec = program_ :: arguments /\ resolve_cwd root (cwd spec) = Ok directory /\
    command = {| program := program_; args := arguments; command_cwd := Some directory;
                 clear_environment := env_clear (env spec); environment := spec_edits (env spec) |}.
Proof.
  unfold build_command. destruct (argv spec) as [|program_ arguments]; [done|].
  intros (directory & Hd & [= <-])%bind_Ok. exists program_, arguments, directory. split_and!; try done.
  rewrite (foldl_push add_env (fun v => (var_name v, Some (var_value v)))) by done.
  rewrite (foldl_push env_remove (fun name => (name, None))) by done.
  by destruct (env_clear (env spec)).
Qed.

Lemma resolve_cwd_Ok `{CwdHost} root cwd directory :
  resolve_cwd root cwd = Ok directory -> within_root root directory = true /\ is_dir directory = true.
Proof.
  unfold resolve_cwd. intros (? & _ & (canonical & _ & Hk)%bind_Ok)%bind_Ok.
  apply bind_unit_Ok in Hk as [?%fail_if_Ok Hk]. apply bind_unit_Ok in Hk as [?%fail_if_Ok [= <-]].
  by rewrite !negb_false_iff in *.
Qed.

Lemma validate_edits_Ok seen edits :
  Forall (fun e => fst e <> [] /\ x00 ∉ fst e /\ ("="%byte) ∉ fst e /\ forall v, snd e = Some v -> x00 ∉ v) edits ->
  NoDup (seen ++ edits).*1 -> try_fold validate_edit seen edits = Ok (seen ++ edits).
Proof.
  revert seen. induction edits as [|[key value] edits IH]; intros seen Hg Hd; cbn [try_fold]; [by rewrite app_nil_r|].
  apply Forall_cons in Hg as [(H1 & H2 & H3 & H4) Hg]. cbn in *.
  rewrite (proj2 (bytes_eqb_false _ _) H1), (proj2 (contains_byte_false _ _) H2), (proj2 (contains_byte_false _ _) H3). cbn.
  assert (Hs : existsb (fun e => bytes_eqb e.1 key) seen = false).
  { apply not_true_iff_false. intros (e & Hin & Heq%bytes_eqb_true)%existsb_exists. rewrite fmap_app in Hd.
    apply NoDup_app in Hd as (_ & Hd & _). apply (Hd key); [|apply list_elem_of_here].
    apply list_elem_of_fmap. exists e. split; [done|]. by apply list_elem_of_In. }
  rewrite Hs. cbn. assert (Hv : match value with Some v => reject_command_nul "environment value" v | None => Ok () end = Ok ()).
  { destruct value as [v|]; [|done]. unfold reject_command_nul. apply fail_if_Ok, contains_byte_false. by apply H4. }
  rewrite Hv. cbn. rewrite IH; rewrite <- ?app_assoc; done.
Qed.

Lemma checked_sum_fails start values e : checked_sum start values = Err e -> e = PtyCommandTooLarge u64_max.
Proof.
  unfold checked_sum. revert start. induction values as [|v values IH]; intros start; cbn [try_fold]; [done|].
  destruct (checked_add start v) as [t|]; cbn; [apply IH | by intros [= <-]].
Qed.

Lemma spec_edits_good e :
  validate_environment e = Ok () ->
  zlen (spec_edits e) <= MAX_ENVIRONMENT_EDITS /\ NoDup (spec_edits e).*1 /\
  Forall (fun e => fst e <> [] /\ x00 ∉ fst e /\ ("="%byte) ∉ fst e /\ forall v, snd e = Some v -> x00 ∉ v) (spec_edits e).
Proof.
  intros (Hl & Hn & Hv & Hd)%validate_environment_exact. unfold spec_edits. split; [|split].
  - rewrite zlen_app. unfold zlen in *. rewrite !length_fmap. unfold RUNTIME_MAX_ENV_CHANGES, MAX_ENVIRONMENT_EDITS in *. lia.
  - rewrite fmap_app, <- !list_fmap_compose. unfold compose. cbn. rewrite list_fmap_id.
    by rewrite (Permutation_app_comm (env_unset e)).
  - apply Forall_app in Hn as [Hset Hunset]. apply Forall_app. rewrite !Forall_fmap. split.
    + eapply Forall_impl; [exact Hunset|]. naive_solver.
    + rewrite Forall_fmap in Hset. eapply Forall_impl; [exact (proj2 (Forall_and _ _) (conj Hset Hv))|]. naive_solver.
Qed.

Lemma spec_arguments_good spec :
  validate_process_spec spec = Ok () ->
  zlen (argv spec) <= MAX_ARGUMENTS /\ Forall (fun a => x00 ∉ a) (argv spec) /\ validate_environment (env spec) = Ok ().
Proof.
  unfold validate_process_spec. intros [_ Hk]%bind_unit_Ok. apply bind_unit_Ok in Hk as [Hl%fail_if_Ok Hk].
  apply bind_unit_Ok in Hk as [Ha Hk]. apply bind_unit_Ok in Hk as [_ Hk]. apply bind_unit_Ok in Hk as [He _].
  split; [|split]; [..|done].
  - to_prop. unfold RUNTIME_MAX_ARGV, MAX_ARGUMENTS in *. lia.
  - apply try_each_Ok in Ha. eapply Forall_impl; [exact Ha|]. intros a [Hn _]%bind_unit_Ok. unfold reject_nul in Hn.
    by apply fail_if_Ok, contains_byte_false in Hn.
Qed.

(** The checks that a command which fits its limits and has no NUL cannot fail. *)
Lemma validate_command_fails c e :
  zlen (args c) <= MAX_ARGUMENTS -> Forall (fun a => x00 ∉ a) (program c :: args c) ->
  (forall d, command_cwd c = Some d -> x00 ∉ d) -> zlen (environment c) <= MAX_ENVIRONMENT_EDITS ->
  try_fold validate_edit [] (environment c) = Ok (environment c) -> validate_command c = Err e ->
  (e = PtyEmptyProgram /\ program c = []) \/ exists n, e = PtyCommandTooLarge n /\ MAX_COMMAND_BYTES < n.
Proof.
  intros Ha [Hp Hargs]%Forall_cons Hd He Hedits. unfold validate_command.
  destruct (bytes_eqb (program c) []) eqn:Ep; cbn; [intros [= <-]; left; to_prop; done|]. intros Hk. right.
  unfold reject_command_nul in Hk. rewrite (proj2 (contains_byte_false _ _) Hp), !Z.gtb_ltb in Hk. cbn in Hk.
  rewrite (proj2 (Z.ltb_ge _ _) Ha), (proj2 (Z.ltb_ge _ _) He) in Hk. cbn in Hk.
  rewrite (proj2 (try_each_Ok _ _ ())) in Hk.
  2:{ eapply Forall_impl; [exact Hargs|]. intros a Hn. by apply fail_if_Ok, contains_byte_false. }
  cbn in Hk. assert (Hc : match command_cwd c with Some cwd => fail_if (contains_byte x00 cwd) (PtyEmbeddedNul "cwd")
    | None => Ok () end = Ok ()).
  { destruct (command_cwd c) as [d|]; [|done]. by apply fail_if_Ok, contains_byte_false, Hd. }
  rewrite Hc, Hedits in Hk. cbn in Hk.
  assert (Hmax : MAX_COMMAND_BYTES < u64_max) by (vm_compute; done).
  apply bind_Err in Hk as [->%checked_sum_fails|(t1 & _ & Hk)]; [eauto|].
  apply bind_Err in Hk as [->%checked_sum_fails|(t2 & _ & Hk)]; [eauto|].
  apply bind_Err in Hk as [->%checked_sum_fails|(t3 & _ & [Hgt <-]%fail_if_Err)]; [eauto|].
  rewrite Z.gtb_ltb in Hgt. apply Z.ltb_lt in Hgt. eauto.
Qed.

(** C24 (functional) The command the agent builds for a specification that the protocol accepted is
    the specification's: its argument vector, a directory of the workspace, the environment
    edits in order, each name once.  The checks before the spawn then refuse it only for an
    empty program name, which the protocol allows, or for its total size. *)
Theorem accepted_command_is_spawnable `{CwdHost} root spec command :
  validate_process_spec spec = Ok () -> build_command root spec = Ok command ->
  (forall d, command_cwd command = Some d -> x00 ∉ d) ->
  program command :: args command = argv spec /\
  (exists d, command_cwd command = Some d /\ within_root root d = true /\ is_dir d = true) /\
  clear_environment command = env_clear (env spec) /\
  environment command = spec_edits (env spec) /\ NoDup (environment command).*1 /\
  forall e, validate_command command = Err e ->
    (e = PtyEmptyProgram /\ program command = []) \/ exists n, e = PtyCommandTooLarge n /\ MAX_COMMAND_BYTES < n.
Proof.
  intros (Hl & Ha & He)%spec_arguments_good (p & a & d & Hargv & Hd & ->)%build_command_Ok Hnul.
  apply spec_edits_good in He as (Hn & Hdup & Hgood). cbn in *. rewrite Hargv in *. split; [done|].
  split; [by exists d; split; [|eapply resolve_cwd_Ok]|]. split_and!; try done.
  intros e Hv. refine (validate_command_fails _ e _ _ _ _ _ Hv); cbn; try done.
  - unfold zlen in *. cbn in Hl. lia.
  - by apply (validate_edits_Ok []).
Qed.
