(* ===== verification/AgentRuntime.v ===== *)
(** * The runtime server of the agent (crates/nrm-agent/src/runtime.rs, Unix)

    [run] serves one runtime stream: the hello exchange, the start of a process, then
    five kinds of threads around it: the loop over the client's messages, the input
    worker, one output worker per stream, the waiter, and the reader and the writer of
    the stream.  A thread is a program counter and a function ([*_code]) that says which
    operation on the shared state it performs next and where it goes with the answer; an
    operation is one access to an atomic, a lock section, a channel operation or a system
    call.  [exec] performs operations and [step] interleaves the threads; what the system,
    the process and the clock answer is part of the step. *)
From S2P Require Import Prelude Paths Protocol RuntimeMessages RuntimeMachine RuntimeSession AgentFs AgentCommand.

Definition INPUT_QUEUE_DEPTH : Z := 16.
Definition FRAME_QUEUE_DEPTH : Z := 16.
Definition SERVER_QUEUE_DEPTH : Z := 64.
Definition OUTPUT_FLOW_WINDOW_BYTES : Z := 1024 * 1024.
Definition OUTPUT_HARD_MAX_BYTES : Z := 128 * 1024 * 1024.

(** ** Flow control of an output stream *)

Record OutputFlowState := { flow_sent : Z; flow_acknowledged : Z; flow_stopped : bool }.
Definition OutputFlowState_default : OutputFlowState :=
  {| flow_sent := 0; flow_acknowledged := 0; flow_stopped := false |}.

Inductive FlowError := FlowNoBytes | FlowOverflow | FlowOutside.

(** [OutputFlow::reserve] under its lock; [None] while the window is full. *)
Definition reserve (requested : Z) (f : OutputFlowState) :
    option (result FlowError (option (Z * Z)) * OutputFlowState) :=
  let in_flight := saturating_sub (flow_sent f) (flow_acknowledged f) in
  if negb (flow_stopped f) && (in_flight >=? OUTPUT_FLOW_WINDOW_BYTES) then None
  else if flow_stopped f then Some (Ok None, f)
  else
    let available := saturating_sub OUTPUT_FLOW_WINDOW_BYTES in_flight in
    let length := Z.min requested available in
    if length =? 0 then Some (Err FlowNoBytes, f)
    else match checked_add (flow_sent f) length with
         | None => Some (Err FlowOverflow, f)
         | Some sent =>
             Some (Ok (Some (flow_sent f, length)),
                   {| flow_sent := sent; flow_acknowledged := flow_acknowledged f; flow_stopped := flow_stopped f |})
         end.

(** [OutputFlow::acknowledge] *)
Definition acknowledge (next_offset : Z) (f : OutputFlowState) : result FlowError OutputFlowState :=
  if (next_offset <? flow_acknowledged f) || (next_offset >? flow_sent f) then Err FlowOutside
  else Ok {| flow_sent := flow_sent f; flow_acknowledged := next_offset; flow_stopped := flow_stopped f |}.

(** One look of [OutputFlow::wait_drained_until] at the state; [None] while it waits. *)
Definition drained (f : OutputFlowState) : option bool :=
  if negb (flow_stopped f) && negb (flow_acknowledged f =? flow_sent f) then None
  else Some (negb (flow_stopped f) && (flow_acknowledged f =? flow_sent f)).

(** [OutputFlow::stop] *)
Definition stop_flow (f : OutputFlowState) : OutputFlowState :=
  {| flow_sent := flow_sent f; flow_acknowledged := flow_acknowledged f; flow_stopped := true |}.

(** [reserve_output]: how much of [requested] the limit leaves, and the new total. *)
Definition reserve_output (total requested limit : Z) : Z * Z :=
  let reserved := Z.min (saturating_sub limit total) requested in
  (reserved, saturating_add total reserved).

(** [mark_termination] *)
Definition mark_termination (reason value : Z) : Z := if reason =? TERMINATION_NONE then value else reason.

(** ** The server and its writer *)

Inductive RuntimeWriteCommand := WriteMessage (m : RuntimeMessage) | WriteFinish.
(** The thread [nrm-runtime-writer]: waiting for a command, writing a frame, ended. *)
Inductive writer_state := WriterIdle | WriterBusy (m : RuntimeMessage) | WriterGone.

(** [machine] is the state machine under its lock, [outgoing] the channel to the writer,
    [wire] the frames written and not yet read by the client; [finished_writes] says that
    the writer answered [Finish].  [trace] is every message the machine accepted. *)
Record RuntimeServer := {
  machine : RuntimeStateMachine;
  outgoing : list RuntimeWriteCommand;
  writer_thread : writer_state;
  writer_failure : option string;
  finished_writes : bool;
  wire : list RuntimeMessage;
  trace : list (RuntimeDirection * RuntimeMessage) }.

Definition new_server : RuntimeServer := {|
  machine := new_machine Server runtime_capabilities; outgoing := []; writer_thread := WriterIdle;
  writer_failure := None; finished_writes := false; wire := []; trace := [] |}.

Definition with_machine (s : RuntimeStateMachine) (d : RuntimeDirection) (m : RuntimeMessage) (srv : RuntimeServer) :
    RuntimeServer := {|
  machine := s; outgoing := outgoing srv; writer_thread := writer_thread srv; writer_failure := writer_failure srv;
  finished_writes := finished_writes srv; wire := wire srv; trace := trace srv ++ [(d, m)] |}.
Definition with_outgoing (q : list RuntimeWriteCommand) (srv : RuntimeServer) : RuntimeServer := {|
  machine := machine srv; outgoing := q; writer_thread := writer_thread srv; writer_failure := writer_failure srv;
  finished_writes := finished_writes srv; wire := wire srv; trace := trace srv |}.
Definition with_writer (w : writer_state) (q : list RuntimeWriteCommand) (finished : bool) (sent : list RuntimeMessage)
    (srv : RuntimeServer) : RuntimeServer := {|
  machine := machine srv; outgoing := q; writer_thread := w; writer_failure := writer_failure srv;
  finished_writes := finished; wire := sent; trace := trace srv |}.
(** [record_writer_failure]: the first one stays. *)
Definition record_writer_failure (message : string) (srv : RuntimeServer) : RuntimeServer := {|
  machine := machine srv; outgoing := outgoing srv; writer_thread := writer_thread srv;
  writer_failure := match writer_failure srv with Some f => Some f | None => Some message end;
  finished_writes := finished_writes srv; wire := wire srv; trace := trace srv |}.
Definition has_failed (srv : RuntimeServer) : bool := bool_decide (is_Some (writer_failure srv)).

Definition server_observe_inbound (m : RuntimeMessage) (srv : RuntimeServer) :
    result RuntimeStateError unit * RuntimeServer :=
  match observe_inbound (machine srv) m with
  | Ok s => (Ok (), with_machine s Inbound m srv)
  | Err e => (Err e, srv)
  end.

(** [SyncSender::try_send] on the channel to the writer. *)
Inductive TrySendError := Full | Disconnected.
Definition try_send_command (c : RuntimeWriteCommand) (srv : RuntimeServer) : result TrySendError RuntimeServer :=
  match writer_thread srv with
  | WriterGone => Err Disconnected
  | _ => if zlen (outgoing srv) >=? SERVER_QUEUE_DEPTH then Err Full else Ok (with_outgoing (outgoing srv ++ [c]) srv)
  end.

Inductive SendError := SendRefused (e : RuntimeStateError) | SendQueue (e : TrySendError).
(** [RuntimeWriter::enqueue] *)
Definition enqueue_message (m : RuntimeMessage) (srv : RuntimeServer) : result SendError unit * RuntimeServer :=
  match try_send_command (WriteMessage m) srv with
  | Ok srv => (Ok (), srv)
  | Err Full =>
      (Err (SendQueue Full), record_writer_failure "runtime output queue is full; peer is not draining output" srv)
  | Err Disconnected => (Err (SendQueue Disconnected), record_writer_failure "runtime output stream is closed" srv)
  end.
(** [RuntimeServer::send], which holds the lock of the machine throughout. *)
Definition send (m : RuntimeMessage) (srv : RuntimeServer) : result SendError unit * RuntimeServer :=
  match observe_outbound (machine srv) m with
  | Ok s => enqueue_message m (with_machine s Outbound m srv)
  | Err e => (Err (SendRefused e), srv)
  end.
(** The message of [RuntimeServer::send_error]. *)
Definition error_frame (code : RuntimeErrorCode) (message : bytes) (retryable : bool) : RuntimeMessage :=
  Error {| error_code := code; error_message := bounded_error_message message; error_retryable := retryable |}.

(** The writer thread: it takes a command, writes the frame or fails, or ends. *)
Definition writer_takes (srv : RuntimeServer) : option RuntimeServer :=
  match writer_thread srv, outgoing srv with
  | WriterIdle, WriteMessage m :: q => Some (with_writer (WriterBusy m) q (finished_writes srv) (wire srv) srv)
  | WriterIdle, WriteFinish :: q => Some (with_writer WriterGone [] true (wire srv) srv)
  | _, _ => None
  end.
Definition writer_writes (succeeds : bool) (srv : RuntimeServer) : option RuntimeServer :=
  match writer_thread srv with
  | WriterBusy m =>
      Some (if succeeds then with_writer WriterIdle (outgoing srv) (finished_writes srv) (wire srv ++ [m]) srv
            else with_writer WriterGone [] (finished_writes srv) (wire srv)
                   (record_writer_failure "write runtime frame failed" srv))
  | _ => None
  end.

(** ** The shared state *)

Inductive InputCommand := InputData (data : bytes) (next_offset : Z) | InputClose.

(** What [run] starts the threads with. *)
Record run_info := { run_process_id : Z; run_pty : bool; run_limit : option Z; run_timeout : option Z }.
Definition run_streams (info : run_info) : list RuntimeOutputStream :=
  if run_pty info then [Pty] else [Stdout; Stderr].

Inductive worker_phase := OutputWorkerReading | OutputWorkerPublishing.

(** One output stream: its flow, the flags its worker and the waiter share, whether the
    worker's thread ended, what the worker read so far and how many bytes of it the output
    limit granted. *)
Record stream_state := {
  flow : OutputFlowState; worker_phase_of : worker_phase; force_stop : bool; worker_finished : bool;
  bytes_read : bytes; granted : Z }.
Definition new_stream : stream_state := {|
  flow := OutputFlowState_default; worker_phase_of := OutputWorkerReading; force_stop := false;
  worker_finished := false; bytes_read := []; granted := 0 |}.
Definition with_flow (f : OutputFlowState) (s : stream_state) : stream_state := {|
  flow := f; worker_phase_of := worker_phase_of s; force_stop := force_stop s; worker_finished := worker_finished s;
  bytes_read := bytes_read s; granted := granted s |}.
Definition with_flags (phase : worker_phase) (force finished : bool) (s : stream_state) : stream_state := {|
  flow := flow s; worker_phase_of := phase; force_stop := force; worker_finished := finished;
  bytes_read := bytes_read s; granted := granted s |}.
Definition with_read (read : bytes) (count : Z) (s : stream_state) : stream_state := {|
  flow := flow s; worker_phase_of := worker_phase_of s; force_stop := force_stop s;
  worker_finished := worker_finished s; bytes_read := read; granted := count |}.

(** The atomics of [ProcessControl], and whether a kill was requested. *)
Record ProcessControl := {
  output_total : Z; output_truncated : bool; io_stop : bool; termination : Z; done : bool; killed : bool }.

(** [stdin] is the frames the client wrote and [reader] has not taken, [frames] the channel
    from the reader thread to the loop ([None] is a read error); [input_queue] the channel to
    the input worker, [input_sender] and [input_receiver] its open ends, [pushed] and [popped]
    the bytes that entered and left it, and [consumed] the bytes the process's input took. *)
Record shared := {
  server_ : RuntimeServer;
  stdin : list RuntimeMessage;
  stdin_open : bool;
  frames : list (option RuntimeMessage);
  reader_gone : bool;
  started : option run_info;
  control : ProcessControl;
  streams : RuntimeOutputStream -> stream_state;
  input_queue : list InputCommand;
  input_sender : bool;
  input_receiver : bool;
  pushed : bytes;
  popped : bytes;
  consumed : bytes;
  waiter_gone : bool }.

Definition with_server (s : RuntimeServer) (sh : shared) : shared := {|
  server_ := s; stdin := stdin sh; stdin_open := stdin_open sh; frames := frames sh; reader_gone := reader_gone sh;
  started := started sh; control := control sh; streams := streams sh; input_queue := input_queue sh;
  input_sender := input_sender sh; input_receiver := input_receiver sh; pushed := pushed sh; popped := popped sh;
  consumed := consumed sh; waiter_gone := waiter_gone sh |}.
Definition with_stdin (i : list RuntimeMessage) (open : bool) (f : list (option RuntimeMessage)) (gone : bool)
    (sh : shared) : shared := {|
  server_ := server_ sh; stdin := i; stdin_open := open; frames := f; reader_gone := gone;
  started := started sh; control := control sh; streams := streams sh; input_queue := input_queue sh;
  input_sender := input_sender sh; input_receiver := input_receiver sh; pushed := pushed sh; popped := popped sh;
  consumed := consumed sh; waiter_gone := waiter_gone sh |}.
Definition with_started (info : option run_info) (gone : bool) (sh : shared) : shared := {|
  server_ := server_ sh; stdin := stdin sh; stdin_open := stdin_open sh; frames := frames sh;
  reader_gone := reader_gone sh; started := info; control := control sh; streams := streams sh;
  input_queue := input_queue sh; input_sender := input_sender sh; input_receiver := input_receiver sh;
  pushed := pushed sh; popped := popped sh; consumed := consumed sh; waiter_gone := gone |}.
Definition with_control (c : ProcessControl) (sh : shared) : shared := {|
  server_ := server_ sh; stdin := stdin sh; stdin_open := stdin_open sh; frames := frames sh;
  reader_gone := reader_gone sh; started := started sh; control := c; streams := streams sh;
  input_queue := input_queue sh; input_sender := input_sender sh; input_receiver := input_receiver sh;
  pushed := pushed sh; popped := popped sh; consumed := consumed sh; waiter_gone := waiter_gone sh |}.
Definition with_stream (s : RuntimeOutputStream) (x : stream_state) (sh : shared) : shared := {|
  server_ := server_ sh; stdin := stdin sh; stdin_open := stdin_open sh; frames := frames sh;
  reader_gone := reader_gone sh; started := started sh; control := control sh;
  streams := fun s' => if decide (s' = s) then x else streams sh s';
  input_queue := input_queue sh; input_sender := input_sender sh; input_receiver := input_receiver sh;
  pushed := pushed sh; popped := popped sh; consumed := consumed sh; waiter_gone := waiter_gone sh |}.
Definition with_input (q : list InputCommand) (sender_ receiver : bool) (pushed_ popped_ consumed_ : bytes)
    (sh : shared) : shared := {|
  server_ := server_ sh; stdin := stdin sh; stdin_open := stdin_open sh; frames := frames sh;
  reader_gone := reader_gone sh; started := started sh; control := control sh; streams := streams sh;
  input_queue := q; input_sender := sender_; input_receiver := receiver; pushed := pushed_; popped := popped_;
  consumed := consumed_; waiter_gone := waiter_gone sh |}.

Definition set_control (total : Z) (truncated stop : bool) (term : Z) (d k : bool) : ProcessControl := {|
  output_total := total; output_truncated := truncated; io_stop := stop; termination := term; done := d; killed := k |}.

Definition command_data (c : InputCommand) : bytes := match c with InputData data _ => data | InputClose => [] end.

Definition initial_shared : shared := {|
  server_ := new_server; stdin := []; stdin_open := true; frames := []; reader_gone := false; started := None;
  control := set_control 0 false false TERMINATION_NONE false false; streams := fun _ => new_stream;
  input_queue := []; input_sender := true; input_receiver := true; pushed := []; popped := []; consumed := [];
  waiter_gone := false |}.

(** ** Operations *)

(** What system calls, the process and the clock answer. *)
Inductive read_result := ReadData (data : bytes) | ReadWouldBlock | ReadInterrupted | ReadFailed (text : bytes).
Inductive write_result := Wrote (count : Z) | WriteWouldBlock | WriteInterrupted | WriteFailed (text : bytes).
Inductive reply :=
| Silent
| ClockSays (expired : bool)
| Fails
| PreparedWith (r : result bytes unit)
| ReadWith (r : read_result)
| WriteWith (r : write_result)
| ProcessSays (r : result PtyError unit)
| PollSays (r : result bytes (option PtyExitStatus))
| SpawnSays (r : result PtyError Z).

Inductive frame_answer := FrameMessage (m : RuntimeMessage) | FrameEnd | FrameTimeout.

Inductive op : Type -> Type :=
(** the stream *)
| ReadFrame : op (option RuntimeMessage)
| RecvFrame : op frame_answer
| ObserveInbound (m : RuntimeMessage) : op (result RuntimeStateError unit)
| Send (m : RuntimeMessage) : op (result SendError unit)
| HasFailed : op bool
| TryFinish : op (result TrySendError unit)
| AwaitFinish : op bool
| RecordFailure (message : string) : op unit
(** the threads and the process *)
| Spawn : op (result PtyError Z)
| Launch (info : run_info) : op unit
| ResizeProcess (size : PtySize) : op (result PtyError unit)
| SignalProcess (signal : PtySignal) : op (result PtyError unit)
| KillProcess : op unit
| TryWait : op (result bytes (option PtyExitStatus))
| ClockExpired : op bool
| Prepare : op (result bytes unit)
| JoinInput : op unit
| JoinWaiter : op unit
| EndWaiter : op unit
(** the atomics *)
| LoadDone : op bool
| SetDone : op unit
| LoadIoStop : op bool
| SetIoStop : op unit
| LoadTruncated : op bool
| SetTruncated : op unit
| LoadTermination : op Z
| MarkTermination (value : Z) : op unit
(** the input channel and the process's input *)
| PushInput (c : InputCommand) : op (result TrySendError unit)
| DropSender : op unit
| PopInput : op (option InputCommand)
| DropReceiver : op unit
| WriteInput (data : bytes) : op write_result
| FlushInput : op write_result
(** one output stream *)
| AcknowledgeFlow (s : RuntimeOutputStream) (next_offset : Z) : op (result FlowError unit)
| ReserveFlow (s : RuntimeOutputStream) (requested : Z) : op (result FlowError (option (Z * Z)))
| PollDrained (s : RuntimeOutputStream) : op (option bool)
| StopFlow (s : RuntimeOutputStream) : op unit
| LoadForceStop (s : RuntimeOutputStream) : op bool
| SetForceStop (s : RuntimeOutputStream) : op unit
| LoadPhase (s : RuntimeOutputStream) : op worker_phase
| SetPhase (s : RuntimeOutputStream) (p : worker_phase) : op unit
| IsFinished (s : RuntimeOutputStream) : op bool
| EndWorker (s : RuntimeOutputStream) : op unit
| ReadOutput (s : RuntimeOutputStream) (room : Z) : op read_result
| ReserveTotal (s : RuntimeOutputStream) (requested : Z) (limit : option Z) : op Z.

(** [read_runtime_frame] on what the client wrote: [None] at the end of the stream, on a
    read error and on an invalid message; no answer while the stream is empty and open. *)
Definition take_frame (r : reply) (sh : shared) : option (option RuntimeMessage * shared) :=
  match r, stdin sh with
  | Fails, i => Some (None, with_stdin i (stdin_open sh) (frames sh) (reader_gone sh) sh)
  | _, m :: i =>
      Some (if is_ok (validate m) then Some m else None, with_stdin i (stdin_open sh) (frames sh) (reader_gone sh) sh)
  | _, [] => if stdin_open sh then None else Some (None, sh)
  end.

Definition on_stream {A} (s : RuntimeOutputStream) (sh : shared) (f : stream_state -> option (A * stream_state)) :
    option (A * shared) :=
  '(a, x) ← f (streams sh s); Some (a, with_stream s x sh).
Definition on_control {A} (sh : shared) (a : A) (c : ProcessControl) : option (A * shared) :=
  Some (a, with_control c sh).
Definition on_server {A} (sh : shared) (r : A * RuntimeServer) : option (A * shared) :=
  Some (fst r, with_server (snd r) sh).

Definition exec_input {A} (sh : shared) (a : A) (q : list InputCommand) (sender_ receiver : bool)
    (pushed_ popped_ consumed_ : bytes) : option (A * shared) :=
  Some (a, with_input q sender_ receiver pushed_ popped_ consumed_ sh).

(** One operation; [None] while it blocks, or when the reply is not one it can get. *)
Definition exec {A} (o : op A) (r : reply) (sh : shared) : option (A * shared) :=
  let c := control sh in
  match o in op A return option (A * shared) with
  | ReadFrame => take_frame r sh
  | RecvFrame =>
      match frames sh, r with
      | Some m :: f, _ => Some (FrameMessage m, with_stdin (stdin sh) (stdin_open sh) f (reader_gone sh) sh)
      | None :: f, _ => Some (FrameEnd, with_stdin (stdin sh) (stdin_open sh) f (reader_gone sh) sh)
      | [], ClockSays true => Some (FrameTimeout, sh)
      | [], _ => if reader_gone sh then Some (FrameEnd, sh) else None
      end
  | ObserveInbound m => on_server sh (server_observe_inbound m (server_ sh))
  | Send m => on_server sh (send m (server_ sh))
  | HasFailed => Some (has_failed (server_ sh), sh)
  | TryFinish =>
      match try_send_command WriteFinish (server_ sh) with
      | Ok srv => Some (Ok (), with_server srv sh)
      | Err e => Some (Err e, sh)
      end
  | AwaitFinish =>
      (** [recv_timeout] ends with the answer, when the writer is gone, or at the deadline *)
      match r with
      | ClockSays true => Some (false, sh)
      | _ => match writer_thread (server_ sh) with
             | WriterGone => Some (finished_writes (server_ sh), sh)
             | _ => None
             end
      end
  | RecordFailure message => Some ((), with_server (record_writer_failure message (server_ sh)) sh)
  | Spawn => match r with SpawnSays p => Some (p, sh) | _ => None end
  | Launch info => Some ((), with_started (Some info) (waiter_gone sh) sh)
  | ResizeProcess _ | SignalProcess _ => match r with ProcessSays p => Some (p, sh) | _ => None end
  | KillProcess =>
      on_control sh () (set_control (output_total c) (output_truncated c) (io_stop c) (termination c) (done c) true)
  | TryWait => match r with PollSays p => Some (p, sh) | _ => None end
  | ClockExpired => match r with ClockSays b => Some (b, sh) | _ => None end
  | Prepare => match r with PreparedWith p => Some (p, sh) | _ => None end
  | JoinInput => if input_receiver sh then None else Some ((), sh)
  | JoinWaiter => if waiter_gone sh then Some ((), sh) else None
  | EndWaiter => Some ((), with_started (started sh) true sh)
  | LoadDone => Some (done c, sh)
  | SetDone =>
      on_control sh () (set_control (output_total c) (output_truncated c) (io_stop c) (termination c) true (killed c))
  | LoadIoStop => Some (io_stop c, sh)
  | SetIoStop =>
      on_control sh () (set_control (output_total c) (output_truncated c) true (termination c) (done c) (killed c))
  | LoadTruncated => Some (output_truncated c, sh)
  | SetTruncated =>
      on_control sh () (set_control (output_total c) true (io_stop c) (termination c) (done c) (killed c))
  | LoadTermination => Some (termination c, sh)
  | MarkTermination value =>
      on_control sh () (set_control (output_total c) (output_truncated c) (io_stop c)
                          (mark_termination (termination c) value) (done c) (killed c))
  | PushInput command =>
      if negb (input_receiver sh) then Some (Err Disconnected, sh)
      else if zlen (input_queue sh) >=? INPUT_QUEUE_DEPTH then Some (Err Full, sh)
      else exec_input sh (Ok ()) (input_queue sh ++ [command]) (input_sender sh) (input_receiver sh)
             (pushed sh ++ command_data command) (popped sh) (consumed sh)
  | DropSender =>
      exec_input sh () (input_queue sh) false (input_receiver sh) (pushed sh) (popped sh) (consumed sh)
  | PopInput =>
      match input_queue sh with
      | command :: q =>
          exec_input sh (Some command) q (input_sender sh) (input_receiver sh) (pushed sh)
            (popped sh ++ command_data command) (consumed sh)
      | [] => if input_sender sh then None else Some (None, sh)
      end
  | DropReceiver =>
      exec_input sh () (input_queue sh) (input_sender sh) false (pushed sh) (popped sh) (consumed sh)
  | WriteInput data =>
      match r with
      | WriteWith (Wrote count) =>
          if (0 <=? count) && (count <=? zlen data)
          then exec_input sh (Wrote count) (input_queue sh) (input_sender sh) (input_receiver sh) (pushed sh)
                 (popped sh) (consumed sh ++ take (Z.to_nat count) data)
          else None
      | WriteWith answer => Some (answer, sh)
      | _ => None
      end
  | FlushInput => match r with WriteWith answer => Some (answer, sh) | _ => None end
  | AcknowledgeFlow s next_offset =>
      on_stream s sh (fun x =>
        match acknowledge next_offset (flow x) with
        | Ok f => Some (Ok (), with_flow f x)
        | Err e => Some (Err e, x)
        end)
  | ReserveFlow s requested =>
      on_stream s sh (fun x => '(answer, f) ← reserve requested (flow x); Some (answer, with_flow f x))
  | PollDrained s => Some (drained (flow (streams sh s)), sh)
  | StopFlow s => on_stream s sh (fun x => Some ((), with_flow (stop_flow (flow x)) x))
  | LoadForceStop s => Some (force_stop (streams sh s), sh)
  | SetForceStop s =>
      on_stream s sh (fun x => Some ((), with_flags (worker_phase_of x) true (worker_finished x) x))
  | LoadPhase s => Some (worker_phase_of (streams sh s), sh)
  | SetPhase s p => on_stream s sh (fun x => Some ((), with_flags p (force_stop x) (worker_finished x) x))
  | IsFinished s => Some (worker_finished (streams sh s), sh)
  | EndWorker s => on_stream s sh (fun x => Some ((), with_flags (worker_phase_of x) (force_stop x) true x))
  | ReadOutput s room =>
      match r with
      | ReadWith (ReadData data) =>
          if zlen data <=? room
          then on_stream s sh (fun x => Some (ReadData data, with_read (bytes_read x ++ data) (granted x) x))
          else None
      | ReadWith answer => Some (answer, sh)
      | _ => None
      end
  | ReserveTotal s requested limit =>
      let '(reserved, total) :=
        match limit with
        | Some limit => reserve_output (output_total c) requested limit
        | None => (requested, output_total c)
        end in
      Some (reserved,
        with_stream s (with_read (bytes_read (streams sh s)) (granted (streams sh s) + reserved) (streams sh s))
          (with_control (set_control total (output_truncated c) (io_stop c) (termination c) (done c) (killed c)) sh))
  end.

(** What a thread does next: an operation and where it goes with the answer. *)
Inductive code (pc : Type) : Type :=
| Do {A : Type} (o : op A) (k : A -> pc)
| Halt.
Arguments Do {pc A} o k.
Arguments Halt {pc}.

Definition resume {pc} (n : code pc) (r : reply) (sh : shared) : option (pc * shared) :=
  match n with
  | Do o k => '(a, sh) ← exec o r sh; Some (k a, sh)
  | Halt => None
  end.

(** [error.to_string()] of the errors that the server sends on. *)
Class ErrorTexts := {
  validation_text : RuntimeValidationError -> bytes;
  state_text : RuntimeStateError -> bytes;
  command_text : CommandError -> bytes;
  spawn_text : SpawnError -> bytes;
  size_text : SizeError -> bytes;
  pty_text : PtyError -> bytes }.
Definition flow_text (e : FlowError) : bytes :=
  match e with
  | FlowNoBytes => B"runtime output flow window has no reservable bytes"
  | FlowOverflow => B"runtime output offset overflow"
  | FlowOutside => B"runtime output acknowledgement is outside the in-flight window"
  end.

Section Server.
Context `{ErrorTexts} `{CwdHost} (root : bytes).

(** ** The input worker *)

Inductive input_pc :=
| InPrepare
| InRecv
| InWrite (rest : bytes) (next_offset : Z)
| InCall (rest : bytes) (next_offset : Z)
| InFlush (next_offset : Z)
| InFlushCall (next_offset : Z)
| InWritten (next_offset : Z)
| InAck (next_offset : Z)
| InFail (text : bytes)
| InKill
| InEnd
| InGone.

(** Entering the loop of [write_runtime_input], or its flush when all is written. *)
Definition in_write (rest : bytes) (next_offset : Z) : input_pc :=
  match rest with [] => InFlush next_offset | _ => InWrite rest next_offset end.

Definition input_code (info : run_info) (pc : input_pc) : code input_pc :=
  match pc with
  | InPrepare =>
      Do Prepare (fun r => match r with
                           | Ok _ => InRecv
                           | Err text => InFail (B"prepare process input cancellation failed: " ++ text)
                           end)
  | InRecv =>
      Do PopInput (fun c => match c with
                            | Some (InputData data next_offset) => in_write data next_offset
                            | Some InputClose | None => InEnd
                            end)
  | InWrite rest n => Do LoadIoStop (fun stop => if stop : bool then InWritten n else InCall rest n)
  | InCall rest n =>
      Do (WriteInput rest) (fun r =>
        match r with
        | Wrote count =>
            if count =? 0 then InFail (B"write process input failed: write zero")
            else in_write (drop (Z.to_nat count) rest) n
        | WriteWouldBlock | WriteInterrupted => InWrite rest n
        | WriteFailed text => InFail (B"write process input failed: " ++ text)
        end)
  | InFlush n => Do LoadIoStop (fun stop => if stop : bool then InWritten n else InFlushCall n)
  | InFlushCall n =>
      Do FlushInput (fun r =>
        match r with
        | Wrote _ => InWritten n
        | WriteWouldBlock | WriteInterrupted => InFlush n
        | WriteFailed text => InFail (B"write process input failed: " ++ text)
        end)
  | InWritten n => Do LoadIoStop (fun stop => if stop : bool then InEnd else InAck n)
  | InAck n =>
      Do (Send (InputAck (run_process_id info) n)) (fun r => match r with Ok _ => InRecv | Err _ => InKill end)
  | InFail text => Do (Send (error_frame CodeInternal text false)) (fun _ => InKill)
  | InKill => Do KillProcess (fun _ => InEnd)
  | InEnd => Do DropReceiver (fun _ => InGone)
  | InGone => Halt
  end.

(** ** An output worker *)

Inductive output_pc :=
| OutFirst
| OutPrepare
| OutLoop
| OutPhase
| OutRead (buffer : bytes)
| OutCall (buffer : bytes)
| OutBlocked
| OutInterrupted (buffer : bytes)
| OutReadFailed (text : bytes)
| OutGot (buffer : bytes)
| OutPublishing (buffer : bytes)
| OutAccount (buffer : bytes)
| OutTruncate (todo : bytes)
| OutMark (todo : bytes)
| OutKillLimit (todo : bytes)
| OutSend (todo : bytes)
| OutReserve (todo : bytes)
| OutPublish (offset : Z) (chunk rest : bytes)
| OutFail (text : bytes)
| OutKill
| OutEnd
| OutGone.

Definition out_got (buffer : bytes) (otherwise : output_pc) : output_pc :=
  match buffer with [] => otherwise | _ => OutGot buffer end.
(** The loop [while sent < send_len]. *)
Definition out_send (todo : bytes) : output_pc := match todo with [] => OutLoop | _ => OutSend todo end.

Definition output_code (info : run_info) (s : RuntimeOutputStream) (pc : output_pc) : code output_pc :=
  match pc with
  | OutFirst => Do (LoadForceStop s) (fun stop => if stop : bool then OutEnd else OutPrepare)
  | OutPrepare =>
      Do Prepare (fun r => match r with
                           | Ok _ => OutLoop
                           | Err text => OutFail (B"prepare process output cancellation failed: " ++ text)
                           end)
  | OutLoop => Do (LoadForceStop s) (fun stop => if stop : bool then OutEnd else OutPhase)
  | OutPhase => Do (SetPhase s OutputWorkerReading) (fun _ => OutRead [])
  (** [read_output_chunk] *)
  | OutRead buffer => Do (LoadForceStop s) (fun stop => if stop : bool then OutEnd else OutCall buffer)
  | OutCall buffer =>
      Do (ReadOutput s (RUNTIME_MAX_DATA_CHUNK_LEN - zlen buffer)) (fun r =>
        match r with
        | ReadData [] => out_got buffer OutEnd
        | ReadData data =>
            if zlen (buffer ++ data) =? RUNTIME_MAX_DATA_CHUNK_LEN then OutGot (buffer ++ data)
            else OutRead (buffer ++ data)
        | ReadWouldBlock => out_got buffer OutBlocked
        | ReadInterrupted => OutInterrupted buffer
        | ReadFailed text => out_got buffer (OutReadFailed text)
        end)
  | OutBlocked => Do LoadIoStop (fun stop => if stop : bool then OutEnd else OutRead [])
  | OutInterrupted buffer => Do (LoadForceStop s) (fun stop => if stop : bool then OutEnd else OutRead buffer)
  | OutReadFailed text =>
      Do (LoadForceStop s) (fun stop =>
        if stop : bool then OutEnd else OutFail (B"read process output failed: " ++ text))
  (** publishing what was read *)
  | OutGot buffer => Do (LoadForceStop s) (fun stop => if stop : bool then OutEnd else OutPublishing buffer)
  | OutPublishing buffer => Do (SetPhase s OutputWorkerPublishing) (fun _ => OutAccount buffer)
  | OutAccount buffer =>
      Do (ReserveTotal s (zlen buffer) (run_limit info)) (fun send_len =>
        let todo := take (Z.to_nat send_len) buffer in
        if send_len <? zlen buffer then OutTruncate todo
        else match todo with [] => OutEnd | _ => OutSend todo end)
  | OutTruncate todo => Do SetTruncated (fun _ => OutMark todo)
  | OutMark todo => Do (MarkTermination TERMINATION_OUTPUT_LIMIT) (fun _ => OutKillLimit todo)
  | OutKillLimit todo => Do KillProcess (fun _ => match todo with [] => OutEnd | _ => OutSend todo end)
  | OutSend todo => Do (LoadForceStop s) (fun stop => if stop : bool then OutEnd else OutReserve todo)
  | OutReserve todo =>
      Do (ReserveFlow s (zlen todo)) (fun r =>
        match r with
        | Ok (Some (offset, length)) =>
            OutPublish offset (take (Z.to_nat length) todo) (drop (Z.to_nat length) todo)
        | Ok None => OutEnd
        | Err e => OutFail (flow_text e)
        end)
  | OutPublish offset chunk rest =>
      Do (Send (Output (run_process_id info) s offset chunk)) (fun r =>
        match r with Ok _ => out_send rest | Err _ => OutKill end)
  | OutFail text => Do (Send (error_frame CodeInternal text false)) (fun _ => OutKill)
  | OutKill => Do KillProcess (fun _ => OutEnd)
  | OutEnd => Do (EndWorker s) (fun _ => OutGone)
  | OutGone => Halt
  end.

(** ** The waiter *)

Abbreviation wait_status := (result bytes PtyExitStatus).
(** [output_reader_timed_out] and [acknowledgement_timed_out]. *)
Record wait_outcome := { reader_timed_out : bool; ack_timed_out : bool }.

Inductive waiter_pc :=
| WaPoll
| WaTimeout
| WaMarkTimeout
| WaKillTimeout
| WaExited (r : wait_status)
| WaWait (r : wait_status) (workers : list RuntimeOutputStream)
| WaDeadline (r : wait_status) (workers : list RuntimeOutputStream)
| WaScan (r : wait_status) (workers : list RuntimeOutputStream)
| WaScanPhase (r : wait_status) (s : RuntimeOutputStream) (workers : list RuntimeOutputStream)
| WaStopTimedOut (r : wait_status) (reader : bool) (flows : list RuntimeOutputStream)
| WaHasFailed (r : wait_status)
| WaDrain (r : wait_status) (flows : list RuntimeOutputStream)
| WaDrainDeadline (r : wait_status) (flows : list RuntimeOutputStream)
| WaStop (r : wait_status) (o : wait_outcome) (flows : list RuntimeOutputStream)
| WaForce (r : wait_status) (o : wait_outcome) (requested : bool) (workers : list RuntimeOutputStream)
| WaForceSet (r : wait_status) (o : wait_outcome) (s : RuntimeOutputStream) (workers : list RuntimeOutputStream)
| WaCancel (r : wait_status) (o : wait_outcome) (workers : list RuntimeOutputStream)
| WaCancelPoll (r : wait_status) (o : wait_outcome) (workers : list RuntimeOutputStream)
| WaCancelDeadline (r : wait_status) (o : wait_outcome)
| WaJoin (r : wait_status) (o : wait_outcome) (abandoned : bool) (workers : list RuntimeOutputStream)
| WaDone (r : wait_status) (o : wait_outcome) (abandoned : bool)
| WaReport (r : wait_status) (o : wait_outcome) (abandoned : bool)
| WaTruncate (text : bytes)
| WaTermination (status : PtyExitStatus)
| WaTruncated (status : PtyExitStatus) (termination : Z)
| WaSend (m : RuntimeMessage)
| WaEnd
| WaGone.

Definition all_flows : list RuntimeOutputStream := [Stdout; Stderr; Pty].
Definition no_timeout : wait_outcome := {| reader_timed_out := false; ack_timed_out := false |}.
Definition late_ack : wait_outcome := {| reader_timed_out := false; ack_timed_out := true |}.

(** The heads of the loops over the workers and the flows, which end without an
    operation of their own. *)
Definition wa_wait (r : wait_status) (ws : list RuntimeOutputStream) : waiter_pc :=
  match ws with [] => WaHasFailed r | _ => WaWait r ws end.
Definition wa_scan (r : wait_status) (ws : list RuntimeOutputStream) : waiter_pc :=
  match ws with [] => WaStopTimedOut r false all_flows | _ => WaScan r ws end.
Definition wa_join (r : wait_status) (o : wait_outcome) (abandoned : bool) (ws : list RuntimeOutputStream) : waiter_pc :=
  match ws with [] => WaDone r o abandoned | _ => WaJoin r o abandoned ws end.
Definition wa_drain (r : wait_status) (fs : list RuntimeOutputStream) : waiter_pc :=
  match fs with [] => WaStop r no_timeout all_flows | _ => WaDrain r fs end.

Definition waiter_code (info : run_info) (pc : waiter_pc) : code waiter_pc :=
  let ws := run_streams info in
  let wa_cancel r o rest := match rest with [] => wa_join r o false ws | _ => WaCancel r o rest end in
  let wa_force r o (requested : bool) rest :=
    match rest with
    | [] => if requested then WaCancel r o ws else wa_join r o false ws
    | _ => WaForce r o requested rest
    end in
  match pc with
  | WaPoll =>
      Do TryWait (fun r => match r with
                           | Ok (Some status) => WaExited (Ok status)
                           | Ok None => match run_timeout info with Some _ => WaTimeout | None => WaPoll end
                           | Err text => WaExited (Err text)
                           end)
  | WaTimeout => Do ClockExpired (fun expired => if expired : bool then WaMarkTimeout else WaPoll)
  | WaMarkTimeout => Do (MarkTermination TERMINATION_TIMEOUT) (fun _ => WaKillTimeout)
  | WaKillTimeout => Do KillProcess (fun _ => WaPoll)
  | WaExited r => Do SetIoStop (fun _ => wa_wait r ws)
  (** [wait_for_output_workers] until the drain deadline *)
  | WaWait r rest =>
      match rest with
      | [] => Halt
      | w :: rest' => Do (IsFinished w) (fun f => if f : bool then wa_wait r rest' else WaDeadline r rest)
      end
  | WaDeadline r rest => Do ClockExpired (fun expired => if expired : bool then wa_scan r ws else WaWait r rest)
  (** [output_workers.iter().any(..)] *)
  | WaScan r rest =>
      match rest with
      | [] => Halt
      | w :: rest' => Do (IsFinished w) (fun f => if f : bool then wa_scan r rest' else WaScanPhase r w rest')
      end
  | WaScanPhase r w rest =>
      Do (LoadPhase w) (fun p =>
        match p with OutputWorkerReading => WaStopTimedOut r true all_flows | OutputWorkerPublishing => wa_scan r rest end)
  | WaStopTimedOut r reader flows =>
      match flows with
      | [] => Halt
      | f :: flows' =>
          Do (StopFlow f) (fun _ =>
            match flows' with
            | [] => WaStop r {| reader_timed_out := reader; ack_timed_out := negb reader |} all_flows
            | _ => WaStopTimedOut r reader flows'
            end)
      end
  | WaHasFailed r =>
      Do HasFailed (fun failed => if failed : bool then WaStop r no_timeout all_flows else wa_drain r all_flows)
  (** [OutputFlows::wait_drained_until] *)
  | WaDrain r flows =>
      match flows with
      | [] => Halt
      | f :: flows' =>
          Do (PollDrained f) (fun d =>
            match d with
            | Some true => wa_drain r flows'
            | Some false => WaStop r late_ack all_flows
            | None => WaDrainDeadline r flows
            end)
      end
  | WaDrainDeadline r flows =>
      Do ClockExpired (fun expired => if expired : bool then WaStop r late_ack all_flows else WaDrain r flows)
  | WaStop r o flows =>
      match flows with
      | [] => Halt
      | f :: flows' =>
          Do (StopFlow f) (fun _ => match flows' with [] => wa_force r o false ws | _ => WaStop r o flows' end)
      end
  (** [finish_output_workers] *)
  | WaForce r o requested rest =>
      match rest with
      | [] => Halt
      | w :: rest' =>
          Do (IsFinished w) (fun f => if f : bool then wa_force r o requested rest' else WaForceSet r o w rest')
      end
  | WaForceSet r o w rest => Do (SetForceStop w) (fun _ => wa_force r o true rest)
  | WaCancel r o rest =>
      match rest with
      | [] => Halt
      | w :: rest' => Do (IsFinished w) (fun f => if f : bool then wa_cancel r o rest' else WaCancelPoll r o rest)
      end
  | WaCancelPoll r o rest =>
      Do ClockExpired (fun expired => if expired : bool then WaCancelDeadline r o else WaCancel r o rest)
  | WaCancelDeadline r o =>
      Do ClockExpired (fun expired => if expired : bool then wa_join r o false ws else WaCancel r o ws)
  | WaJoin r o abandoned rest =>
      match rest with
      | [] => Halt
      | w :: rest' => Do (IsFinished w) (fun f => wa_join r o (abandoned || negb f) rest')
      end
  | WaDone r o abandoned => Do SetDone (fun _ => WaReport r o abandoned)
  | WaReport r o abandoned =>
      Do HasFailed (fun failed =>
        if failed : bool then WaEnd
        else if reader_timed_out o || abandoned
        then WaTruncate (B"runtime output worker did not stop before its deadline")
        else if ack_timed_out o
        then WaTruncate (B"runtime output acknowledgement did not drain before its deadline")
        else match r with
             | Ok status => WaTermination status
             | Err text => WaSend (error_frame CodeInternal (B"wait for runtime process failed: " ++ text) false)
             end)
  | WaTruncate text => Do SetTruncated (fun _ => WaSend (error_frame CodeInternal text false))
  | WaTermination status => Do LoadTermination (fun t => WaTruncated status t)
  | WaTruncated status t =>
      Do LoadTruncated (fun b => WaSend (Exited (run_process_id info) (runtime_exit_status status t) b))
  | WaSend m => Do (Send m) (fun _ => WaEnd)
  | WaEnd => Do EndWaiter (fun _ => WaGone)
  | WaGone => Halt
  end.

(** ** The main thread *)

(** [runtime_loop].  [LoSendError] is [send_error_then_kill], after which the loop returns
    if [last] says so, and in any case when the error could not be sent. *)
Inductive loop_pc :=
| LoTop
| LoRecv
| LoCheck (m : RuntimeMessage)
| LoObserve (m : RuntimeMessage)
| LoRefused (e : RuntimeStateError)
| LoPush (c : InputCommand)
| LoAck (s : RuntimeOutputStream) (next_offset : Z)
| LoResize (size : PtySize)
| LoSignal (signal : PtySignal)
| LoSendError (m : RuntimeMessage) (last : bool)
| LoKill (sent last : bool)
| LoBottom
| LoPanic.

(** [run]; [ok] is whether the result so far is [Ok].  [MaFinish] is [RuntimeWriter::finish],
    which also runs when the server is dropped, then without a say in the result. *)
Inductive main_pc :=
| MaHello
| MaObserveHello (m : RuntimeMessage) (capability : RuntimeCapability)
| MaServerHello (capability : RuntimeCapability)
| MaStart (capability : RuntimeCapability)
| MaObserveStart (capability : RuntimeCapability) (m : RuntimeMessage)
| MaSpawn (capability : RuntimeCapability) (request_id : Z) (spec : RuntimeProcessSpec) (command : PtyCommand)
| MaStarted (capability : RuntimeCapability) (request_id : Z) (spec : RuntimeProcessSpec) (process_id : Z)
| MaLaunch (info : run_info)
| MaError (m : RuntimeMessage)
| MaLoop (info : run_info) (l : loop_pc)
| MaDropSender (ok : bool)
| MaDone (ok : bool)
| MaCancel (ok : bool)
| MaKill (ok : bool)
| MaJoinInput (ok : bool)
| MaJoinWaiter (ok : bool)
| MaFinish (ok report : bool)
| MaFinishFull (ok report : bool)
| MaFinishWait (ok report : bool)
| MaFinishFailed (ok report : bool) (message : string)
| MaResult (ok report : bool)
| MaEnd (ok : bool).

Definition is_persistent_start (m : RuntimeMessage) : bool :=
  match m with
  | AttachPty _ _ _ => true
  | StartProcess _ spec => match persistence spec with Detachable _ => true | Attached => false end
  | _ => false
  end.

(** [ManagedProcess::resize] and [PtyProcess::resize], up to the system. *)
Definition check_resize (info : run_info) (size : PtySize) : result PtyError PtySize :=
  if run_pty info then validate_pty_size size else Err (PtyUnsupported "resize piped process").
Definition pty_failure (e : PtyError) : loop_pc :=
  LoSendError (error_frame (runtime_error_code e) (pty_text e) false) true.
(** The branches of [runtime_loop] on a message that the state machine accepted. *)
Definition handle_message (info : run_info) (m : RuntimeMessage) : loop_pc :=
  match m with
  | Input _ offset data => LoPush (InputData data (offset + zlen data))
  | CloseInput _ _ => LoPush InputClose
  | OutputAck _ stream next_offset => LoAck stream next_offset
  | Resize _ size =>
      match pty_size size with
      | Ok size => match check_resize info size with Ok size => LoResize size | Err e => pty_failure e end
      | Err e => LoSendError (error_frame CodeInvalidRequest (size_text e) false) true
      end
  | Signal _ signal => LoSignal (convert_signal signal)
  | _ => LoPanic
  end.

Definition is_own_detach (info : run_info) (m : RuntimeMessage) : bool :=
  match m with Detach process_id => process_id =? run_process_id info | _ => false end.

Definition loop_code (info : run_info) (l : loop_pc) : code main_pc :=
  let go := MaLoop info in
  let return_ok := MaDropSender true in
  match l with
  | LoTop => Do LoadDone (fun d => if d : bool then return_ok else go LoRecv)
  | LoRecv =>
      Do RecvFrame (fun f => match f with
                             | FrameMessage m => go (LoCheck m)
                             | FrameEnd => return_ok
                             | FrameTimeout => go LoTop
                             end)
  | LoCheck m =>
      Do LoadDone (fun d =>
        if d : bool then return_ok
        else if is_own_detach info m
        then go (LoSendError (error_frame CodePersistenceUnavailable
               (B"attached process cannot be detached without the persistent runtime broker") false) true)
        else go (LoObserve m))
  | LoObserve m =>
      Do (ObserveInbound m) (fun r => match r with
                                      | Ok _ => go (handle_message info m)
                                      | Err e => go (LoRefused e)
                                      end)
  | LoRefused e =>
      Do LoadDone (fun d =>
        if d : bool then return_ok else go (LoSendError (error_frame CodeProtocol (state_text e) false) true))
  | LoPush c =>
      Do (PushInput c) (fun r =>
        match r with
        | Ok _ => go LoBottom
        | Err Full => go (LoSendError (error_frame CodeResourceLimit (B"runtime input queue is full") true) false)
        | Err Disconnected => go (LoSendError (error_frame CodeInternal (B"runtime input stream is closed") false) false)
        end)
  | LoAck s n =>
      Do (AcknowledgeFlow s n) (fun r => match r with Ok _ => go LoBottom | Err _ => MaDropSender false end)
  | LoResize size =>
      Do (ResizeProcess size) (fun r => match r with Ok _ => go LoBottom | Err e => go (pty_failure e) end)
  | LoSignal signal =>
      Do (SignalProcess signal) (fun r => match r with Ok _ => go LoBottom | Err e => go (pty_failure e) end)
  | LoSendError m last => Do (Send m) (fun r => go (LoKill (is_ok r) last))
  | LoKill sent last =>
      Do KillProcess (fun _ => if negb sent then MaDropSender false else if last then return_ok else go LoBottom)
  | LoBottom => Do LoadDone (fun d => if d : bool then return_ok else go LoTop)
  | LoPanic => Halt
  end.

(** [output_limit] of [run]. *)
Definition output_limit (capability : RuntimeCapability) (spec : RuntimeProcessSpec) : option Z :=
  match capability with
  | ProcessPipeV1 => Some (Z.min (default OUTPUT_HARD_MAX_BYTES (max_output_bytes spec)) OUTPUT_HARD_MAX_BYTES)
  | _ => None
  end.

Definition main_code (pc : main_pc) : code main_pc :=
  match pc with
  | MaHello =>
      Do ReadFrame (fun f =>
        match f with
        | None => MaFinish false false
        | Some m =>
            match m with
            | ClientHello _ _ capability => MaObserveHello m capability
            | _ => MaError (error_frame CodeProtocol (B"the first runtime message must be client_hello") false)
            end
        end)
  | MaObserveHello m capability =>
      Do (ObserveInbound m) (fun r =>
        match r with
        | Ok _ => MaServerHello capability
        | Err e => MaError (error_frame CodeUnsupported (state_text e) false)
        end)
  | MaServerHello capability =>
      Do (Send (ServerHello CARGO_PKG_VERSION PROTOCOL_VERSION capability)) (fun r =>
        match r with Ok _ => MaStart capability | Err _ => MaFinish false false end)
  | MaStart capability =>
      Do ReadFrame (fun f =>
        match f with
        | None => MaFinish false false
        | Some m =>
            if is_persistent_start m then
              match validate m with
              | Err e => MaError (error_frame CodeProtocol (validation_text e) false)
              | Ok _ => MaError (error_frame CodePersistenceUnavailable (B"persistent PTY broker is not available") false)
              end
            else MaObserveStart capability m
        end)
  | MaObserveStart capability m =>
      Do (ObserveInbound m) (fun r =>
        match r, m with
        | Err e, _ => MaError (error_frame CodeProtocol (state_text e) false)
        | Ok _, StartProcess request_id spec =>
            match persistence spec, build_command root spec with
            | Detachable _, _ =>
                MaError (error_frame CodePersistenceUnavailable
                           (B"detachable processes require the persistent runtime broker") false)
            | Attached, Ok command => MaSpawn capability request_id spec command
            | Attached, Err e => MaError (error_frame CodeInvalidRequest (command_text e) false)
            end
        | Ok _, _ => MaError (error_frame CodeProtocol (B"expected start_process after runtime handshake") false)
        end)
  | MaSpawn capability request_id spec command =>
      Do Spawn (fun platform =>
        match spawn_runtime_process capability command spec platform with
        | Ok process_id => MaStarted capability request_id spec process_id
        | Err e => MaError (error_frame CodeSpawnFailed (spawn_text e) false)
        end)
  | MaStarted capability request_id spec process_id =>
      Do (Send (ProcessStarted request_id process_id None 0)) (fun r =>
        match r with
        | Ok _ => MaLaunch {| run_process_id := process_id; run_pty := bool_decide (capability = ProcessPtyV1);
                              run_limit := output_limit capability spec; run_timeout := timeout_ms spec |}
        | Err _ => MaFinish false false
        end)
  | MaLaunch info => Do (Launch info) (fun _ => MaLoop info LoTop)
  | MaError m => Do (Send m) (fun r => MaFinish (is_ok r) false)
  | MaLoop info l => loop_code info l
  | MaDropSender ok => Do DropSender (fun _ => MaDone ok)
  | MaDone ok => Do LoadDone (fun d => if d : bool then MaKill ok else MaCancel ok)
  | MaCancel ok => Do (MarkTermination TERMINATION_CANCELLED) (fun _ => MaKill ok)
  | MaKill ok => Do KillProcess (fun _ => MaJoinInput ok)
  | MaJoinInput ok => Do JoinInput (fun _ => MaJoinWaiter ok)
  | MaJoinWaiter ok => Do JoinWaiter (fun _ => MaFinish ok true)
  | MaFinish ok report =>
      Do TryFinish (fun r =>
        match r with
        | Ok _ => MaFinishWait ok report
        | Err Full => MaFinishFull ok report
        | Err Disconnected => MaResult ok report
        end)
  | MaFinishFull ok report =>
      Do ClockExpired (fun expired =>
        if expired : bool then MaFinishFailed ok report "runtime output queue did not drain before its deadline"
        else MaFinish ok report)
  | MaFinishWait ok report =>
      Do AwaitFinish (fun answered =>
        if answered : bool then MaResult ok report
        else MaFinishFailed ok report "runtime output writer did not stop before its deadline")
  | MaFinishFailed ok report message => Do (RecordFailure message) (fun _ => MaResult ok report)
  | MaResult ok report => Do HasFailed (fun failed => MaEnd (ok && negb (report && failed)))
  | MaEnd _ => Halt
  end.

(** ** The threads together *)

Record agent := {
  sh : shared;
  main : main_pc;
  input_worker : input_pc;
  output_worker : RuntimeOutputStream -> output_pc;
  waiter : waiter_pc }.

Definition initial_agent : agent := {|
  sh := initial_shared; main := MaHello; input_worker := InPrepare; output_worker := fun _ => OutFirst;
  waiter := WaPoll |}.

Inductive thread := MainThread | InputThread | OutputThread (s : RuntimeOutputStream) | WaiterThread.
Inductive action :=
| Run (t : thread) (r : reply)
(** the reader thread takes a frame for the loop *)
| ReaderReads (r : reply)
| WriterTakes
| WriterWrites (succeeds : bool)
(** the client's end of the stream *)
| ClientWrites (m : RuntimeMessage)
| ClientCloses
| ClientReads.

Definition with_shared (s : shared) (st : agent) : agent := {|
  sh := s; main := main st; input_worker := input_worker st; output_worker := output_worker st; waiter := waiter st |}.

Definition run_thread (t : thread) (r : reply) (st : agent) : option agent :=
  match t, started (sh st) with
  | MainThread, _ =>
      '(pc, s) ← resume (main_code (main st)) r (sh st);
      Some {| sh := s; main := pc; input_worker := input_worker st; output_worker := output_worker st; waiter := waiter st |}
  | InputThread, Some info =>
      '(pc, s) ← resume (input_code info (input_worker st)) r (sh st);
      Some {| sh := s; main := main st; input_worker := pc; output_worker := output_worker st; waiter := waiter st |}
  | OutputThread o, Some info =>
      if bool_decide (o ∈ run_streams info) then
        '(pc, s) ← resume (output_code info o (output_worker st o)) r (sh st);
        Some {| sh := s; main := main st; input_worker := input_worker st;
                output_worker := fun o' => if decide (o' = o) then pc else output_worker st o'; waiter := waiter st |}
      else None
  | WaiterThread, Some info =>
      '(pc, s) ← resume (waiter_code info (waiter st)) r (sh st);
      Some {| sh := s; main := main st; input_worker := input_worker st; output_worker := output_worker st; waiter := pc |}
  | _, None => None
  end.

(** The reader thread of [runtime_loop]: a frame read goes into the channel, which has room. *)
Definition reader_reads (r : reply) (s : shared) : option shared :=
  if reader_gone s || (zlen (frames s) >=? FRAME_QUEUE_DEPTH) then None
  else
    '(f, s) ← take_frame r s;
    Some (with_stdin (stdin s) (stdin_open s) (frames s ++ [f]) (bool_decide (f = None)) s).

Definition step (a : action) (st : agent) : option agent :=
  let s := sh st in
  match a with
  | Run t r => run_thread t r st
  | ReaderReads r =>
      match started s with
      | Some _ => s ← reader_reads r s; Some (with_shared s st)
      | None => None
      end
  | WriterTakes => srv ← writer_takes (server_ s); Some (with_shared (with_server srv s) st)
  | WriterWrites succeeds => srv ← writer_writes succeeds (server_ s); Some (with_shared (with_server srv s) st)
  | ClientWrites m =>
      if stdin_open s then
        Some (with_shared (with_stdin (stdin s ++ [m]) true (frames s) (reader_gone s) s) st)
      else None
  | ClientCloses => Some (with_shared (with_stdin (stdin s) false (frames s) (reader_gone s) s) st)
  | ClientReads =>
      match wire (server_ s) with
      | _ :: w => Some (with_shared (with_server (with_writer (writer_thread (server_ s)) (outgoing (server_ s))
                     (finished_writes (server_ s)) w (server_ s)) s) st)
      | [] => None
      end
  end.

(** The states that some interleaving reaches. *)
Inductive agent_reachable : agent -> Prop :=
| agent_start : agent_reachable initial_agent
| agent_step a st st' : agent_reachable st -> step a st = Some st' -> agent_reachable st'.

Fixpoint steps (actions : list action) (st : agent) : option agent :=
  match actions with
  | [] => Some st
  | a :: actions => st ← step a st; steps actions st
  end.
End Server.
