(* ===== verification/AgentRuntimeInv.v ===== *)
(** * The invariant of the runtime server

    Which thread performs which operation, what holds of the shared state whenever a thread
    may run, and what each thread knows at each of its program counters; then what an accepted
    message does to the shared state.  The proofs that follow are in the style of rely and
    guarantee: an operation of one thread keeps what the others know ([AgentRuntimeRely]), and
    a thread keeps its own knowledge along its code ([AgentRuntimeThreads]). *)
From S2P Require Import Prelude Paths Protocol RuntimeMessages RuntimeMachine RuntimeSession AgentFs AgentCommand AgentRuntime.

(** ** What the trace says *)

Definition messages (s : shared) : list RuntimeMessage := (trace (server_ s)).*2.
(** The bytes of a stream that the server published, and the input it accepted. *)
Definition published (o : RuntimeOutputStream) (s : shared) : bytes := concat (outputs o (messages s)).*2.
Definition received (s : shared) : bytes := concat (inputs (messages s)).*2.
Definition agent_phase (s : shared) : RuntimePhase := phase (machine (server_ s)).
Definition failed (s : shared) : Prop := is_Some (writer_failure (server_ s)).
(** Nothing more is published: the stream is closed or its writer failed. *)
Definition dead (s : shared) : Prop := agent_phase s = Closed \/ failed s.

Definition sent_of (o : RuntimeOutputStream) (s : shared) : Z := flow_sent (flow (streams s o)).
Definition acked_of (o : RuntimeOutputStream) (s : shared) : Z := flow_acknowledged (flow (streams s o)).
Definition stopped_of (o : RuntimeOutputStream) (s : shared) : bool := flow_stopped (flow (streams s o)).
Definition read_of (o : RuntimeOutputStream) (s : shared) : bytes := bytes_read (streams s o).
Definition active (o : RuntimeOutputStream) (s : shared) : Prop :=
  exists info, started s = Some info /\ o ∈ run_streams info.

(** ** The shared state *)

(** The machine's offsets against the flows and the bytes that moved. *)
Record linked (p : RuntimeProcessState) (s : shared) : Prop := {
  link_session : ps_session_id p = None;
  link_gap : gap_pending p = None;
  link_streams : forall o x, stream_of p o = Ok x -> next x = zlen (published o s) /\ acked_of o s <= acked x;
  link_input : input_sent p = zlen (received s);
  link_input_acked : input_acked p <= zlen (consumed s) }.

Definition fits (info : run_info) (p : RuntimeProcessState) : Prop :=
  process_id p = run_process_id info /\ pty p = run_pty info.

(** The worker of a stream published all it read, or cut it at the output limit. *)
Definition clean (o : RuntimeOutputStream) (s : shared) : Prop :=
  sent_of o s = zlen (published o s) /\
  (read_of o s = published o s \/ output_truncated (control s) = true).
(** What an ended worker leaves. *)
Definition worker_left (o : RuntimeOutputStream) (s : shared) : Prop :=
  force_stop (streams s o) = true \/ stopped_of o s = true \/ dead s \/ clean o s.

(** The commands in the input channel carry the offsets of their ends. *)
Fixpoint offsets_from (at_ : Z) (q : list InputCommand) : Prop :=
  match q with
  | [] => True
  | InputData data n :: q => n = at_ + zlen data /\ offsets_from (at_ + zlen data) q
  | InputClose :: q => offsets_from at_ q
  end.

(** What an [Exited] with this truncation flag promises. *)
Definition complete (truncated : bool) (s : shared) : Prop :=
  forall o, (active o s -> worker_finished (streams s o) = true) /\
    acked_of o s = sent_of o s /\ sent_of o s = zlen (published o s) /\
    (truncated = false -> read_of o s = published o s).

Definition limit_ok (info : run_info) : Prop :=
  forall l, run_limit info = Some l -> l <= OUTPUT_HARD_MAX_BYTES /\ run_pty info = false.

Record shared_ok (s : shared) : Prop := {
  so_role : role (machine (server_ s)) = Server;
  so_supported : supported (machine (server_ s)) = runtime_capabilities;
  so_startable : startable (agent_phase s);
  so_linked : forall p, agent_phase s = Running p -> linked p s;
  so_started : forall info, started s = Some info ->
    limit_ok info /\ (agent_phase s = Closed \/ exists p, agent_phase s = Running p /\ fits info p);
  so_flow : forall o, 0 <= acked_of o s <= sent_of o s /\ sent_of o s <= u64_max /\
    sent_of o s - acked_of o s <= OUTPUT_FLOW_WINDOW_BYTES /\ zlen (published o s) <= sent_of o s;
  so_acked : forall o, acked_of o s <= zlen (published o s);
  so_contiguous : forall o, contiguous 0 (outputs o (messages s)) (zlen (published o s));
  so_prefix : forall o, published o s `prefix_of` read_of o s;
  so_idle : forall o, ~ active o s -> read_of o s = [] /\ sent_of o s = 0 /\ granted (streams s o) = 0;
  so_granted : forall o, zlen (published o s) <= granted (streams s o);
  so_u64 : in_u64 (output_total (control s));
  so_total_start : started s = None -> output_total (control s) = 0;
  so_total : forall info l, started s = Some info -> run_limit info = Some l ->
    output_total (control s) = granted (streams s Stdout) + granted (streams s Stderr) /\
    0 <= output_total (control s) <= Z.max l 0;
  so_channel : pushed s = popped s ++ concat (command_data <$> input_queue s) /\
    offsets_from (zlen (popped s)) (input_queue s);
  so_received : pushed s `prefix_of` received s;
  so_consumed : consumed s `prefix_of` popped s;
  so_input_acks : forall id n, (Outbound, InputAck id n) ∈ trace (server_ s) -> n <= zlen (consumed s);
  so_finished : forall o, worker_finished (streams s o) = true -> worker_left o s;
  so_exited : forall id status b, (Outbound, Exited id status b) ∈ trace (server_ s) ->
    agent_phase s = Closed /\ complete b s }.

(** ** What each thread knows *)

(** The output limit is used up. *)
Definition cut (info : run_info) (s : shared) : Prop :=
  exists l, run_limit info = Some l /\ l <= output_total (control s).
Definition cut_known (info : run_info) (s : shared) : Prop := cut info s /\ output_truncated (control s) = true.

(** [rest] is the bytes read that are still to be published. *)
Definition owes (info : run_info) (o : RuntimeOutputStream) (rest : bytes) (s : shared) : Prop :=
  read_of o s = published o s ++ rest \/ cut_known info s.
(** The same for bytes that the limit granted, which are published also after a cut. *)
Definition owes_granted (info : run_info) (o : RuntimeOutputStream) (rest : bytes) (s : shared) : Prop :=
  zlen (published o s) + zlen rest <= granted (streams s o) /\
  (read_of o s = published o s ++ rest \/ (cut_known info s /\ published o s ++ rest `prefix_of` read_of o s)).

Definition room (b : bytes) : Prop := zlen b <= RUNTIME_MAX_DATA_CHUNK_LEN.
Definition valid_text (text : bytes) : Prop := x00 ∉ text /\ zlen text <= RUNTIME_MAX_ERROR_MESSAGE_BYTES.

Definition output_knows (info : run_info) (o : RuntimeOutputStream) (pc : output_pc) (s : shared) : Prop :=
  let even := sent_of o s = zlen (published o s) in
  worker_finished (streams s o) = match pc with OutGone => true | _ => false end /\
  match pc with
  | OutFirst | OutPrepare | OutLoop | OutPhase | OutBlocked | OutReadFailed _ => even /\ owes info o [] s
  | OutRead b | OutCall b | OutInterrupted b => even /\ owes info o b s /\ zlen b < RUNTIME_MAX_DATA_CHUNK_LEN
  | OutGot b | OutPublishing b | OutAccount b => even /\ owes info o b s /\ room b /\ b <> []
  | OutTruncate todo =>
      even /\ room todo /\ cut info s /\ zlen (published o s) + zlen todo <= granted (streams s o) /\
      published o s ++ todo `prefix_of` read_of o s
  | OutMark todo | OutKillLimit todo => even /\ room todo /\ cut_known info s /\ owes_granted info o todo s
  | OutSend todo | OutReserve todo => even /\ room todo /\ todo <> [] /\ owes_granted info o todo s
  | OutPublish offset chunk rest =>
      offset = zlen (published o s) /\ sent_of o s = offset + zlen chunk /\ room chunk /\ room rest /\ chunk <> [] /\
      owes_granted info o (chunk ++ rest) s
  | OutFail text => dead s \/ clean o s \/ valid_text text
  | OutKill => dead s \/ clean o s
  | OutEnd | OutGone => worker_left o s
  end.

Definition input_knows (pc : input_pc) (s : shared) : Prop :=
  match pc with
  | InPrepare | InRecv => consumed s = popped s
  | InWrite rest n | InCall rest n => popped s = consumed s ++ rest /\ n = zlen (popped s)
  | InFlush n | InFlushCall n | InAck n => consumed s = popped s /\ n = zlen (popped s)
  | InWritten n => (consumed s = popped s /\ n = zlen (popped s)) \/ io_stop (control s) = true
  | InFail _ | InKill | InEnd | InGone => True
  end.

Definition all_finished (info : run_info) (s : shared) : Prop :=
  forall o, o ∈ run_streams info -> worker_finished (streams s o) = true.
Definition undisturbed (s : shared) : Prop :=
  forall o, force_stop (streams s o) = false /\ stopped_of o s = false.
Definition settled (info : run_info) (s : shared) : Prop :=
  all_finished info s /\ forall o, o ∈ run_streams info -> dead s \/ clean o s.
Definition all_drained (s : shared) : Prop := forall o, acked_of o s = sent_of o s.
(** A waiter that saw no timeout may report the exit, unless the writer failed. *)
Definition may_report (info : run_info) (o : wait_outcome) (s : shared) : Prop :=
  o = no_timeout -> settled info s /\ (failed s \/ all_drained s).
Definition reports (info : run_info) (s : shared) : Prop :=
  all_finished info s /\ all_drained s /\ (agent_phase s = Closed \/ forall o, o ∈ run_streams info -> clean o s).

Definition waiter_knows (info : run_info) (pc : waiter_pc) (s : shared) : Prop :=
  match pc with
  | WaPoll | WaTimeout | WaMarkTimeout | WaKillTimeout | WaExited _ => undisturbed s
  | WaWait _ rest | WaDeadline _ rest =>
      undisturbed s /\ forall o, o ∈ run_streams info -> o ∈ rest \/ worker_finished (streams s o) = true
  | WaHasFailed _ => undisturbed s /\ all_finished info s
  | WaDrain _ flows | WaDrainDeadline _ flows =>
      undisturbed s /\ all_finished info s /\ forall o, o ∈ flows \/ acked_of o s = sent_of o s
  | WaScan _ _ | WaScanPhase _ _ _ | WaStopTimedOut _ _ _ => True
  | WaStop _ o _ | WaForce _ o _ _ | WaForceSet _ o _ _ | WaCancel _ o _ | WaCancelPoll _ o _ | WaCancelDeadline _ o
  | WaJoin _ o _ _ | WaDone _ o _ | WaReport _ o _ => may_report info o s
  | WaTermination _ | WaTruncated _ _ => reports info s
  | WaSend (Exited id _ b) => id = run_process_id info /\ reports info s /\ b = output_truncated (control s)
  | WaSend (Error _) => True
  | WaSend _ => False
  | WaTruncate _ | WaEnd | WaGone => True
  end.

(** No message was accepted as input without going to the channel, or none can be. *)
Definition chained (s : shared) : Prop := received s = pushed s \/ agent_phase s = Closed.

Definition loop_knows (l : loop_pc) (s : shared) : Prop :=
  match l with
  | LoPush c =>
      received s = pushed s ++ command_data c /\
      match c with InputData _ n => n = zlen (received s) | InputClose => True end
  | LoAck o n =>
      chained s /\ acked_of o s <= n <= zlen (published o s) /\
      (forall p x, agent_phase s = Running p -> stream_of p o = Ok x -> n <= acked x)
  | LoSendError m _ => exists e, m = Error e
  | LoKill sent last => sent = true -> last = false -> agent_phase s = Closed
  | LoPanic => False
  | _ => chained s
  end.

Definition main_knows (pc : main_pc) (s : shared) : Prop :=
  let before ph := started s = None /\ agent_phase s = ph /\ received s = [] /\ pushed s = [] in
  match pc with
  | MaHello => before AwaitClientHello
  | MaObserveHello m c => before AwaitClientHello /\ exists v n, m = ClientHello v n c
  | MaServerHello c => before (AwaitServerHello c) /\ supports_runtime runtime_capabilities c = true
  | MaStart c => before (Ready c)
  | MaObserveStart c m => before (Ready c) /\ is_persistent_start m = false
  | MaSpawn c id spec _ | MaStarted c id spec _ => before (AwaitProcessStarted c id Attached) /\ c <> WorkspaceWatchV1
  | MaLaunch info =>
      started s = None /\ received s = [] /\ pushed s = [] /\ limit_ok info /\
      exists p, agent_phase s = Running p /\ fits info p
  | MaError m => exists e, m = Error e
  | MaLoop info l => started s = Some info /\ loop_knows l s
  | _ => True
  end.

Record agent_ok (st : agent) : Prop := {
  ao_shared : shared_ok (sh st);
  ao_main : main_knows (main st) (sh st);
  ao_input : input_knows (input_worker st) (sh st);
  ao_output : forall o, (forall info, started (sh st) = Some info -> o ∈ run_streams info ->
      output_knows info o (output_worker st o) (sh st)) /\
    (~ active o (sh st) -> output_worker st o = OutFirst /\ worker_finished (streams (sh st) o) = false);
  ao_waiter : match started (sh st) with
              | Some info => waiter_knows info (waiter st) (sh st)
              | None => waiter st = WaPoll /\ undisturbed (sh st)
              end }.

(** ** A message accepted by the machine *)

Lemma published_snoc o s srv d m :
  trace srv = trace (server_ s) ++ [(d, m)] ->
  published o (with_server srv s) = published o s ++ concat (output_chunk o m).*2.
Proof.
  intros E. unfold published, messages. cbn. rewrite E, fmap_app.
  change ([(d, m)].*2) with [m]. by rewrite outputs_snoc, fmap_app, concat_app.
Qed.
Lemma received_snoc s srv d m :
  trace srv = trace (server_ s) ++ [(d, m)] ->
  received (with_server srv s) = received s ++ concat (input_chunk m).*2.
Proof.
  intros E. unfold received, messages. cbn. rewrite E, fmap_app.
  change ([(d, m)].*2) with [m]. by rewrite inputs_snoc, fmap_app, concat_app.
Qed.

(** What the rest of the shared state must allow before a message. *)
Definition permitted (m : RuntimeMessage) (s : shared) : Prop :=
  match m with
  | Output _ o _ data =>
      published o s ++ data `prefix_of` read_of o s /\ zlen (published o s) + zlen data <= sent_of o s /\
      zlen (published o s) + zlen data <= granted (streams s o) /\ worker_finished (streams s o) = false /\ active o s
  | InputAck _ n => n <= zlen (consumed s)
  | Exited _ _ b => complete b s
  | ProcessStarted _ _ session _ => started s = None /\ received s = [] /\ session = None
  | PtyAttached _ _ _ _ => False
  | _ => True
  end.

(** The server after the machine took a message: nothing else of it matters below. *)
Record took (d : RuntimeDirection) (m : RuntimeMessage) (srv srv' : RuntimeServer) : Prop := {
  took_step : phase_step runtime_capabilities (phase (machine srv)) m (phase (machine srv'));
  took_role : role (machine srv') = role (machine srv);
  took_supported : supported (machine srv') = supported (machine srv);
  took_trace : trace srv' = trace srv ++ [(d, m)];
  took_failure : is_Some (writer_failure srv) -> is_Some (writer_failure srv') }.

Lemma idle_published o s : shared_ok s -> ~ active o s -> published o s = [] /\ sent_of o s = 0 /\ acked_of o s = 0.
Proof.
  intros Hok Ha. destruct (so_idle s Hok o Ha) as (Hr & Hs & _). pose proof (so_flow s Hok o) as (Hack & _).
  pose proof (so_prefix s Hok o) as Hp. rewrite Hr in Hp. apply prefix_nil_inv in Hp. split; [done|]. split; [done|]. lia.
Qed.

Lemma not_active o s : started s = None -> ~ active o s.
Proof. intros E (info & E' & _). congruence. Qed.

(** The links of a process after one of the two kinds of messages. *)
Lemma linked_server p m p' b s srv d :
  shared_ok s -> linked p s -> permitted m s -> server_step p m p' b -> trace srv = trace (server_ s) ++ [(d, m)] ->
  linked p' (with_server srv s).
Proof.
  intros Hok [Hs Hg Hst Hin Hia] Hperm Hstep Ht. pose proof (published_snoc) as Hp.
  assert (Hrec : received (with_server srv s) = received s).
  { rewrite (received_snoc _ _ _ _ Ht). destruct Hstep; apply app_nil_r. }
  assert (Hpub : forall o, published o (with_server srv s) = published o s ++ concat (output_chunk o m).*2)
    by (intros o; by apply (published_snoc _ _ _ _ _ Ht)).
  destruct Hstep as [n Hn|o x data _ Hx Hmax|a b snap Hpty Hgap|status tr].
  - split; cbn; try done; [|by rewrite Hrec]. intros o x Hx. rewrite Hpub. cbn. rewrite app_nil_r. by apply Hst.
  - split; cbn; try done; [|by rewrite Hrec]. intros o' x' Hx'. rewrite Hpub. cbn [output_chunk].
    destruct (Hst o x Hx) as [Hnext Hack]. apply stream_of_Ok in Hx'. apply stream_of_Ok in Hx. cbn in Hx'.
    destruct (decide (o = o')) as [<-|Hne].
    + rewrite bool_decide_eq_true_2 by done. cbn. rewrite app_nil_r, zlen_app.
      destruct o; destruct Hx', Hx; subst; cbn in *; (split; [lia | done]).
    + rewrite bool_decide_eq_false_2 by congruence. cbn. rewrite app_nil_r. apply Hst. apply stream_of_Ok.
      destruct o, o'; done.
  - congruence.
  - split; cbn; try done; [|by rewrite Hrec]. intros o x Hx. rewrite Hpub. cbn. rewrite app_nil_r. by apply Hst.
Qed.

Lemma linked_client p m p' s srv d :
  linked p s -> client_step p m p' -> trace srv = trace (server_ s) ++ [(d, m)] -> linked p' (with_server srv s).
Proof.
  intros [Hs Hg Hst Hin Hia] Hstep Ht.
  assert (Hpub : forall o, published o (with_server srv s) = published o s).
  { intros o. rewrite (published_snoc _ _ _ _ _ Ht). destruct Hstep; apply app_nil_r. }
  pose proof (received_snoc _ _ _ _ Ht) as Hrec.
  destruct Hstep as [data Hc Hmax|Hc|o x n Hgp Hx Hn|size Hp|signal]; cbn [input_chunk] in Hrec; cbn in Hrec;
    rewrite ?app_nil_r in Hrec;
    (split; cbn; try done; [|rewrite Hrec, ?zlen_app; lia]); intros o' x' Hx'; rewrite Hpub; try (by apply Hst).
  destruct (Hst o x Hx) as [Hnext Hack]. apply stream_of_Ok in Hx'. apply stream_of_Ok in Hx. cbn in Hx'.
  destruct (decide (o = o')) as [<-|Hne].
  - destruct o; destruct Hx', Hx; subst; cbn in *; (split; [done | unfold acked_of in *; cbn; lia]).
  - apply Hst. apply stream_of_Ok. destruct o, o'; done.
Qed.

Lemma linked_new p s srv m d :
  shared_ok s -> started s = None -> received s = [] -> (p = new_pipe (process_id p) \/ p = new_pty (process_id p) None 0 None) ->
  input_chunk m = [] -> (forall o, output_chunk o m = []) -> trace srv = trace (server_ s) ++ [(d, m)] ->
  linked p (with_server srv s).
Proof.
  intros Hok Hn Hrec Hp Hi Ho Ht.
  assert (Hpub : forall o, published o (with_server srv s) = [] /\ acked_of o s = 0).
  { intros o. rewrite (published_snoc _ _ _ _ _ Ht), Ho. cbn. rewrite app_nil_r.
    by destruct (idle_published o s Hok (not_active o s Hn)) as (? & _ & ?). }
  split.
  - by destruct Hp as [->| ->].
  - by destruct Hp as [->| ->].
  - intros o x Hx. destruct (Hpub o) as [-> Ha]. change (acked_of o (with_server srv s)) with (acked_of o s).
    rewrite Ha. apply stream_of_Ok in Hx. destruct o, Hx as [_ ->], Hp as [-> | ->]; by cbn.
  - rewrite (received_snoc _ _ _ _ Ht), Hrec, Hi. by destruct Hp as [->| ->].
  - assert (Hz : input_acked p = 0) by (by destruct Hp as [->| ->]). rewrite Hz. apply zlen_nonneg.
Qed.

Lemma published_other o s srv d m :
  trace srv = trace (server_ s) ++ [(d, m)] -> (forall id off data, m <> Output id o off data) ->
  published o (with_server srv s) = published o s.
Proof.
  intros Ht Hm. rewrite (published_snoc _ _ _ _ _ Ht). destruct m; cbn [output_chunk]; try apply app_nil_r.
  rewrite bool_decide_eq_false_2; [apply app_nil_r|]. intros ->. by eapply Hm.
Qed.

Lemma took_linked d m s srv p' :
  shared_ok s -> took d m (server_ s) srv -> permitted m s -> phase (machine srv) = Running p' ->
  linked p' (with_server srv s).
Proof.
  intros Hok [Hstep _ _ Ht _] Hperm E. change (phase (machine (server_ s))) with (agent_phase s) in Hstep. rewrite E in Hstep.
  pose proof (so_linked s Hok) as Hl.
  inversion Hstep as [| | | | |? id|? id|? ? id|? ? ? id|p ? ? Hc|p ? ? Hc| | | | | | | | | | | |]; subst;
    cbn in Hperm; try (destruct Hperm as (Hn & Hr & Hs)); try done.
  - by eapply linked_new; eauto.
  - by eapply linked_new; eauto.
  - eapply linked_client; eauto.
  - eapply linked_server; eauto.
Qed.

Lemma took_started d m s srv info :
  shared_ok s -> took d m (server_ s) srv -> permitted m s -> started s = Some info ->
  phase (machine srv) = Closed \/ exists p, phase (machine srv) = Running p /\ fits info p.
Proof.
  intros Hok [Hstep _ _ _ _] Hperm Hi. change (phase (machine (server_ s))) with (agent_phase s) in Hstep.
  destruct (so_started s Hok info Hi) as [_ [E|(p & E & Hid & Hp)]].
  { rewrite E in Hstep. by apply phase_step_open in Hstep. }
  pose proof (so_linked s Hok p E) as Hl. rewrite E in Hstep.
  inversion Hstep as [| | | | | | | | |? ? p' Hc|? ? p' Hc| |? Hpty [x Hx]| | | | | | | | | |]; subst; eauto.
  - right. exists p'. split; [done|]. destruct (client_step_identity _ _ _ Hc) as (? & ? & ?). unfold fits. split; congruence.
  - right. exists p'. split; [done|]. destruct (server_step_identity _ _ _ _ Hc) as (? & ? & ?). unfold fits. split; congruence.
  - rewrite (link_session _ _ Hl) in Hx. done.
Qed.

Lemma dead_took d m s srv : took d m (server_ s) srv -> dead s -> dead (with_server srv s).
Proof.
  intros [Hstep _ _ _ Hf] [Hc|Hd]; [|right; by apply Hf].
  unfold agent_phase in Hc. rewrite Hc in Hstep. by apply phase_step_open in Hstep.
Qed.

Lemma took_contiguous d m s srv o :
  shared_ok s -> took d m (server_ s) srv -> permitted m s ->
  contiguous 0 (outputs o (messages (with_server srv s))) (zlen (published o (with_server srv s))).
Proof.
  intros Hok Ht Hperm. pose proof (took_trace _ _ _ _ Ht) as Htr. pose proof (so_contiguous s Hok o) as Hc.
  rewrite (published_snoc _ _ _ _ _ Htr), zlen_app. unfold messages in *. cbn. rewrite Htr, fmap_app.
  change ([(d, m)].*2) with [m]. rewrite outputs_snoc.
  assert (Hquiet : output_chunk o m = [] -> contiguous 0 (outputs o (trace (server_ s)).*2 ++ output_chunk o m)
    (zlen (published o s) + zlen (concat (output_chunk o m).*2))).
  { intros ->. rewrite app_nil_r. replace (_ + _) with (zlen (published o s)); [done|]. symmetry. apply Z.add_0_r. }
  destruct m; try (by apply Hquiet). cbn [output_chunk] in *. case_bool_decide as Eo; [subst o | by apply Hquiet].
  cbn. rewrite app_nil_r. pose proof (took_step _ _ _ _ Ht) as Hst. change (phase (machine (server_ s))) with (agent_phase s) in Hst.
  assert (offset = zlen (published stream s)) as ->; [|by apply contiguous_snoc].
  inversion Hst as [| | | | | | | | |? ? ? Hs|p ? ? Hs Ep|p ? ? Hs| | |p ? ? Hs| | | | |? ? ? Hs| |? ? ? Hs|]; subst; try by inversion Hs.
  2,3: destruct Hperm as (_ & _ & _ & _ & info & Hi & _); destruct (so_started s Hok info Hi) as [_ [?|(? & ? & _)]]; congruence.
  symmetry in Ep. inversion Hs; subst. by destruct (link_streams _ _ (so_linked s Hok p Ep) _ _ ltac:(eassumption)).
Qed.

Lemma took_ok d m s srv :
  shared_ok s -> took d m (server_ s) srv -> permitted m s -> shared_ok (with_server srv s).
Proof.
  intros Hok Htook Hperm. pose proof (took_trace _ _ _ _ Htook) as Ht.
  assert (Hopen : agent_phase s <> Closed) by (by eapply phase_step_open, Htook).
  assert (Hpub : forall o, published o (with_server srv s) = published o s \/
    (exists id off data, m = Output id o off data /\ published o (with_server srv s) = published o s ++ data)).
  { intros o. destruct m; try (left; by apply (published_other _ _ _ _ _ Ht)). rename stream into o'.
    destruct (decide (o' = o)) as [->|Hne]; [right|left; apply (published_other _ _ _ _ _ Ht); congruence].
    eexists _, _, _. split; [done|]. rewrite (published_snoc _ _ _ _ _ Ht). cbn.
    rewrite bool_decide_eq_true_2 by done. cbn. by rewrite app_nil_r. }
  split; cbn; try apply Hok.
  - rewrite (took_role _ _ _ _ Htook). apply Hok.
  - rewrite (took_supported _ _ _ _ Htook). apply Hok.
  - eapply phase_step_startable, Htook.
  - intros p' E. by eapply took_linked.
  - intros info Hi. split; [by apply Hok|]. by eapply took_started.
  - intros o. pose proof (so_flow s Hok o) as (H1 & H2 & H3 & H4). unfold sent_of, acked_of in *. cbn.
    split; [done|]. split; [done|]. split; [done|].
    destruct (Hpub o) as [->|(id & off & data & -> & ->)]; [done|]. rewrite zlen_app. apply Hperm.
  - intros o. pose proof (so_acked s Hok o). unfold acked_of in *. cbn.
    destruct (Hpub o) as [->|(id & off & data & -> & ->)]; [done|]. rewrite zlen_app. pose proof (zlen_nonneg data). lia.
  - intros o. by eapply took_contiguous.
  - intros o. destruct (Hpub o) as [->|(id & off & data & -> & ->)]; [apply Hok|]. apply Hperm.
  - intros o. destruct (Hpub o) as [->|(id & off & data & -> & ->)]; [apply Hok|]. rewrite zlen_app. apply Hperm.
  - rewrite (received_snoc _ _ _ _ Ht). etrans; [apply Hok|]. by apply prefix_app_r.
  - intros id n. rewrite Ht, elem_of_app, list_elem_of_singleton. intros [Hin|[= <- <-]]; [by eapply so_input_acks|apply Hperm].
  - intros o Hf. destruct (so_finished s Hok o Hf) as [?|[?|[?|[Hs Hc]]]]; [by left|by right; left|..].
    + right; right; left. by eapply dead_took.
    + right; right; right. unfold clean. destruct (Hpub o) as [->|(id & off & data & -> & _)]; [done|].
      cbn in Hperm. destruct Hperm as (_ & _ & _ & Hf' & _). congruence.
  - intros id status b. rewrite Ht, elem_of_app, list_elem_of_singleton. intros [Hin|[= <- <-]].
    + by apply (so_exited s Hok) in Hin as [? _].
    + split.
      * unfold agent_phase. cbn. pose proof (took_step _ _ _ _ Htook) as Hst.
        inversion Hst as [| | | | | | | | |? ? ? Hc|? ? ? Hc| | | |? ? ? Hc| | | | |? ? ? Hc| |? ? ? Hc|]; subst; try done; inversion Hc.
      * intros o. destruct (Hperm o) as (Hf & Ha & Hs & Hr). unfold complete.
        rewrite (published_other _ _ _ _ _ Ht) by done. done.
Qed.

(** ** Sending and receiving *)

Lemma observed_took d m srv s' :
  startable (phase (machine srv)) -> supported (machine srv) = runtime_capabilities ->
  observe (machine srv) d m = Ok s' -> took d m srv (with_machine s' d m srv).
Proof.
  intros Hst Hsup Ho. apply observe_step in Ho as (_ & _ & Hstep & Hr & Hc & _); [|done].
  split; cbn; try done. by rewrite <- Hsup.
Qed.

Lemma server_send_spec m s r srv :
  shared_ok s -> send m (server_ s) = (r, srv) ->
  (exists e, r = Err (SendRefused e) /\ srv = server_ s /\ observe_outbound (machine (server_ s)) m = Err e) \/
  (took Outbound m (server_ s) srv /\ (r = Ok () \/ is_Some (writer_failure srv))).
Proof.
  intros Hok. unfold send. destruct (observe_outbound _ m) as [s'|e] eqn:E; [|intros [= <- <-]; left; eauto].
  intros Hq. right. apply observed_took in E; [|apply Hok|apply Hok].
  unfold enqueue_message, try_send_command in Hq. cbn [writer_thread with_machine outgoing] in Hq.
  assert (Hfail : forall msg : string, is_Some (match writer_failure (server_ s) with Some f => Some f | None => Some msg end))
    by (intros msg; by destruct (writer_failure _)).
  destruct (writer_thread (server_ s)), (zlen (outgoing (server_ s)) >=? SERVER_QUEUE_DEPTH); injection Hq as <- <-;
    (split; [destruct E; split; cbn in *; eauto; intros _; apply Hfail | first [by left | right; apply Hfail]]).
Qed.

Lemma observe_inbound_spec m s r srv :
  shared_ok s -> server_observe_inbound m (server_ s) = (r, srv) ->
  (exists e, r = Err e /\ srv = server_ s) \/ (took Inbound m (server_ s) srv /\ r = Ok () /\ sender m = Client).
Proof.
  intros Hok. unfold server_observe_inbound. destruct (observe_inbound _ m) as [s'|e] eqn:E; intros [= <- <-]; [|eauto].
  right. split; [apply observed_took; [apply Hok..|done]|]. split; [done|].
  apply observe_step in E as (_ & Hs & _); [|apply Hok]. by rewrite Hs, (so_role s Hok).
Qed.

(** A message that the protocol allows now is accepted. *)
Lemma outbound_accepted m s ph :
  shared_ok s -> validate m = Ok () -> sender m = Server -> phase_step runtime_capabilities (agent_phase s) m ph ->
  exists s', observe_outbound (machine (server_ s)) m = Ok s'.
Proof.
  intros Hok Hv Hs Hstep. eexists. apply step_observe; [apply Hok|done|by rewrite (so_role s Hok)|].
  by rewrite (so_supported s Hok).
Qed.

Lemma validate_chunk_Ok off data :
  data <> [] -> room data -> off + zlen data <= u64_max -> validate_data_chunk off data = Ok ().
Proof.
  unfold room, validate_data_chunk, validate_optional_data_chunk. intros Hne Hr Hmax.
  rewrite (proj2 (bytes_eqb_false _ _) Hne). cbn [fail_if mbind result_bind].
  rewrite Z.gtb_ltb, (proj2 (Z.ltb_ge _ _)) by done. cbn [fail_if mbind result_bind].
  by rewrite (proj2 (checked_add_Some _ _ _) (conj eq_refl Hmax)).
Qed.

Lemma output_accepted info o off chunk s :
  shared_ok s -> started s = Some info -> o ∈ run_streams info -> agent_phase s <> Closed ->
  off = zlen (published o s) -> chunk <> [] -> room chunk -> off + zlen chunk <= u64_max ->
  exists s', observe_outbound (machine (server_ s)) (Output (run_process_id info) o off chunk) = Ok s'.
Proof.
  intros Hok Hi Ho Hopen -> Hne Hroom Hmax.
  destruct (so_started s Hok info Hi) as [_ [?|(p & E & Hid & Hp)]]; [done|]. pose proof (so_linked s Hok p E) as Hl.
  assert (exists x, stream_of p o = Ok x) as [x Hx].
  { unfold run_streams in Ho. unfold stream_of. rewrite Hp. destruct (run_pty info), o; set_solver. }
  destruct (link_streams _ _ Hl o x Hx) as [Hnext _]. eapply outbound_accepted; [done|by apply validate_chunk_Ok|done|].
  rewrite E, <- Hid, <- Hnext. apply step_server, server_output; [apply Hl|done|by rewrite Hnext].
Qed.

Lemma consumed_le_received s : shared_ok s -> zlen (consumed s) <= zlen (popped s) <= zlen (received s).
Proof.
  intros Hok. destruct (so_consumed s Hok) as [a Ha]. destruct (so_received s Hok) as [b Hb].
  destruct (so_channel s Hok) as [Hc _]. rewrite Hb, Hc, Ha, !zlen_app.
  pose proof (zlen_nonneg a). pose proof (zlen_nonneg b). pose proof (zlen_nonneg (concat (command_data <$> input_queue s))). lia.
Qed.

Lemma input_ack_accepted info s :
  shared_ok s -> started s = Some info -> agent_phase s <> Closed ->
  exists s', observe_outbound (machine (server_ s)) (InputAck (run_process_id info) (zlen (consumed s))) = Ok s'.
Proof.
  intros Hok Hi Hopen. destruct (so_started s Hok info Hi) as [_ [?|(p & E & Hid & Hp)]]; [done|].
  pose proof (so_linked s Hok p E) as Hl. eapply outbound_accepted; [done|done|done|].
  rewrite E, <- Hid. apply step_server, server_input_ack. rewrite (link_input _ _ Hl).
  pose proof (link_input_acked _ _ Hl). pose proof (consumed_le_received s Hok). lia.
Qed.

Lemma exited_accepted info status b s :
  shared_ok s -> started s = Some info -> agent_phase s <> Closed ->
  exists s', observe_outbound (machine (server_ s)) (Exited (run_process_id info) status b) = Ok s'.
Proof.
  intros Hok Hi Hopen. destruct (so_started s Hok info Hi) as [_ [?|(p & E & Hid & Hp)]]; [done|].
  eapply outbound_accepted; [done|done|done|]. rewrite E, <- Hid. eapply step_exited. constructor.
Qed.

Lemma boundary_before_le m i : (boundary_before m i <= i)%nat.
Proof. induction i as [|i IH]; cbn [boundary_before]; destruct (is_char_boundary m _); lia. Qed.

Lemma bounded_error_message_bound text : zlen (bounded_error_message text) <= RUNTIME_MAX_ERROR_MESSAGE_BYTES.
Proof.
  unfold bounded_error_message. destruct (Z.leb_spec (zlen text) RUNTIME_MAX_ERROR_MESSAGE_BYTES); [done|].
  pose proof (boundary_before_le text (Z.to_nat RUNTIME_MAX_ERROR_MESSAGE_BYTES)) as Hle.
  unfold zlen. rewrite length_take. unfold RUNTIME_MAX_ERROR_MESSAGE_BYTES in *. lia.
Qed.

Lemma error_frame_valid code text retryable : valid_text text -> validate (error_frame code text retryable) = Ok ().
Proof.
  intros [Hnul Hlen]. unfold error_frame, bounded_error_message. cbn [validate error_message].
  rewrite (proj2 (Z.leb_le _ _) Hlen), Z.gtb_ltb, (proj2 (Z.ltb_ge _ _) Hlen). cbn.
  unfold reject_nul. by rewrite (proj2 (contains_byte_false _ _) Hnul).
Qed.

Lemma error_accepted e s :
  shared_ok s -> validate (Error e) = Ok () -> agent_phase s <> Closed ->
  exists s', observe_outbound (machine (server_ s)) (Error e) = Ok s'.
Proof. intros Hok Hv Hopen. eapply outbound_accepted; [done|done|done|]. by constructor. Qed.

Lemma error_closes d e srv srv' : took d (Error e) srv srv' -> phase (machine srv') = Closed.
Proof.
  intros Ht. pose proof (took_step _ _ _ _ Ht) as Hst.
  inversion Hst as [| | | | | | | | |? ? ? Hc|? ? ? Hc| | | |? ? ? Hc| | | | |? ? ? Hc| |? ? ? Hc|]; subst; try done; inversion Hc.
Qed.

(** An error that was accepted closed the stream; one that was refused is invalid, or late. *)
Lemma error_sent e s r srv :
  shared_ok s -> validate (Error e) = Ok () -> send (Error e) (server_ s) = (r, srv) -> dead (with_server srv s).
Proof.
  intros Hok Hv Hs. apply (server_send_spec _ _ _ _ Hok) in Hs as [(x & _ & -> & Hx)|[Ht _]].
  - left. destruct (closed_or_open (agent_phase s)) as [?|Hopen]; [done|].
    destruct (error_accepted e s Hok Hv Hopen) as [s' ?]. congruence.
  - left. by apply error_closes in Ht.
Qed.
