(* ===== verification/AgentRuntimeRely.v ===== *)
(** * Rely and guarantee of the runtime server

    What an operation of one thread leaves alone of what the others know ([exec_keeps_*]), and
    that every operation keeps the shared state in order ([exec_ok]). *)
From S2P Require Import Prelude Paths Protocol RuntimeMessages RuntimeMachine RuntimeSession AgentFs AgentCommand AgentRuntime AgentRuntimeInv.

(** ** Rely: what an operation leaves alone *)

(** The thread whose knowledge an operation changes; [None] when it changes no one's. *)
Definition owner {A} (o : op A) : option thread :=
  match o with
  | ReadFrame | RecvFrame | ObserveInbound _ | Launch _ | PushInput _ | DropSender | AcknowledgeFlow _ _ => Some MainThread
  | Send m =>
      match m with
      | Error _ => None
      | InputAck _ _ => Some InputThread
      | Output _ o _ _ => Some (OutputThread o)
      | Exited _ _ _ => Some WaiterThread
      | _ => Some MainThread
      end
  | PopInput | WriteInput _ | DropReceiver => Some InputThread
  | ReserveFlow o _ | SetPhase o _ | EndWorker o | ReadOutput o _ | ReserveTotal o _ _ => Some (OutputThread o)
  | SetIoStop | SetDone | StopFlow _ | SetForceStop _ | EndWaiter => Some WaiterThread
  | _ => None
  end.
Definition launches {A} (o : op A) : Prop := match o with Launch _ => True | _ => False end.

Record keeps_output (o : RuntimeOutputStream) (s s' : shared) : Prop := {
  ko_started : started s' = started s;
  ko_published : published o s' = published o s;
  ko_read : read_of o s' = read_of o s;
  ko_granted : granted (streams s' o) = granted (streams s o);
  ko_finished : worker_finished (streams s' o) = worker_finished (streams s o);
  ko_sent : sent_of o s' = sent_of o s;
  ko_stopped : stopped_of o s = true -> stopped_of o s' = true;
  ko_force : force_stop (streams s o) = true -> force_stop (streams s' o) = true;
  ko_truncated : output_truncated (control s) = true -> output_truncated (control s') = true;
  ko_total : output_total (control s) <= output_total (control s');
  ko_dead : dead s -> dead s' }.

Record keeps_input (s s' : shared) : Prop := {
  ki_consumed : consumed s' = consumed s;
  ki_popped : popped s' = popped s;
  ki_io_stop : io_stop (control s) = true -> io_stop (control s') = true }.

Record keeps_main (s s' : shared) : Prop := {
  km_started : started s' = started s;
  km_received : received s' = received s;
  km_pushed : pushed s' = pushed s;
  km_acked : forall o, acked_of o s' = acked_of o s;
  km_sent : forall o, sent_of o s <= sent_of o s';
  km_published : forall o, zlen (published o s) <= zlen (published o s');
  km_closed : agent_phase s = Closed -> agent_phase s' = Closed;
  km_running : forall p', agent_phase s' = Running p' -> exists p, agent_phase s = Running p /\
    forall o x', stream_of p' o = Ok x' -> exists x, stream_of p o = Ok x /\ acked x = acked x' }.

Record keeps_waiter (s s' : shared) : Prop := {
  kw_started : started s' = started s;
  kw_flags : forall o, force_stop (streams s' o) = force_stop (streams s o) /\ stopped_of o s' = stopped_of o s;
  kw_finished : forall o, worker_finished (streams s o) = true -> worker_finished (streams s' o) = true;
  kw_ended : forall o, worker_finished (streams s o) = true \/ ~ active o s ->
    published o s' = published o s /\ read_of o s' = read_of o s /\ sent_of o s' = sent_of o s;
  kw_acked : forall o, acked_of o s <= acked_of o s';
  kw_closed : agent_phase s = Closed -> agent_phase s' = Closed;
  kw_failed : failed s -> failed s';
  kw_truncated : output_truncated (control s) = true -> output_truncated (control s') = true;
  kw_settled : forall info, started s = Some info -> all_finished info s ->
    output_truncated (control s') = output_truncated (control s) }.

(** Case analysis of an operation that returned. *)
Ltac exec_cases H :=
  unfold on_stream, on_control, on_server, exec_input, take_frame in H; cbv zeta in H; cbn in H;
  repeat match type of H with
         | context [match ?x with _ => _ end] => destruct x eqn:?; cbn in H; try discriminate H
         end;
  try (injection H; clear H; intros; subst).

(** The amounts that the code asks for. *)
Definition op_sane {A} (o : op A) : Prop :=
  match o with ReserveFlow _ n => 0 < n | ReserveTotal _ n _ => 0 <= n | _ => True end.

Definition flow_ok (f : OutputFlowState) : Prop :=
  0 <= flow_acknowledged f <= flow_sent f /\ flow_sent f - flow_acknowledged f <= OUTPUT_FLOW_WINDOW_BYTES.

Lemma reserve_spec n f a f' :
  0 < n -> flow_ok f -> reserve n f = Some (a, f') ->
  (f' = f /\ (a = Ok None /\ flow_stopped f = true \/ exists e, a = Err e)) \/
  (exists len, a = Ok (Some (flow_sent f, len)) /\ 0 < len <= n /\ flow_sent f + len <= u64_max /\
     f' = {| flow_sent := flow_sent f + len; flow_acknowledged := flow_acknowledged f; flow_stopped := flow_stopped f |} /\
     flow_ok f').
Proof.
  intros Hn [Ha Hw]. unfold reserve. cbv zeta.
  replace (saturating_sub (flow_sent f) (flow_acknowledged f)) with (flow_sent f - flow_acknowledged f)
    by (unfold saturating_sub; lia).
  destruct (negb (flow_stopped f) && _) eqn:Eb; [done|].
  destruct (flow_stopped f) eqn:Es; [intros [= <- <-]; left; auto|]. cbn in Eb. rewrite Z.geb_leb in Eb. to_prop.
  set (len := Z.min n _). assert (Hlen : 0 < len <= n /\ flow_sent f + len - flow_acknowledged f <= OUTPUT_FLOW_WINDOW_BYTES)
    by (unfold len, saturating_sub; lia). destruct (Z.eqb_spec len 0); [lia|].
  destruct (checked_add (flow_sent f) len) as [x|] eqn:Ex; [|intros [= <- <-]; left; eauto].
  apply checked_add_Some in Ex as [-> Hx]. intros [= <- <-]. right. exists len.
  split_and!; try done; try lia. unfold flow_ok. cbn. lia.
Qed.

Lemma acknowledge_spec n f f' :
  acknowledge n f = Ok f' <->
  flow_acknowledged f <= n <= flow_sent f /\
  f' = {| flow_sent := flow_sent f; flow_acknowledged := n; flow_stopped := flow_stopped f |}.
Proof.
  unfold acknowledge. rewrite Z.gtb_ltb. destruct (Z.ltb_spec n (flow_acknowledged f)), (Z.ltb_spec (flow_sent f) n); cbn;
    split; try done; try lia; [intros [= <-]; done | by intros [_ ->]].
Qed.

Lemma shared_flow_ok o s : shared_ok s -> flow_ok (flow (streams s o)).
Proof. intros Hok. pose proof (so_flow s Hok o) as (H1 & H2 & H3 & _). by split. Qed.

(** What sending leaves of the shared state, whoever sends. *)
Lemma send_keeps m s r srv :
  shared_ok s -> send m (server_ s) = (r, srv) ->
  (agent_phase s = Closed -> phase (machine srv) = Closed) /\ (failed s -> is_Some (writer_failure srv)) /\
  (forall o, owner (Send m) <> Some (OutputThread o) -> published o (with_server srv s) = published o s) /\
  (sender m = Server -> received (with_server srv s) = received s).
Proof.
  intros Hok Hs. apply (server_send_spec _ _ _ _ Hok) in Hs as [(e & _ & -> & _)|[Ht _]]; [done|].
  pose proof (took_trace _ _ _ _ Ht) as Htr. split_and!.
  - intros Hc. destruct (dead_took _ _ _ _ Ht (or_introl Hc)) as [?|?]; [done|].
    pose proof (took_step _ _ _ _ Ht) as Hst. by apply phase_step_open in Hst.
  - intros Hf. by apply (took_failure _ _ _ _ Ht).
  - intros o Ho. apply (published_other _ _ _ _ _ Htr). intros id off data ->. by apply Ho.
  - intros Hm. rewrite (received_snoc _ _ _ _ Htr). destruct m; try apply app_nil_r. done.
Qed.

Lemma with_server_same s : with_server (server_ s) s = s.
Proof. by destruct s. Qed.

Lemma observe_keeps m s r srv :
  shared_ok s -> server_observe_inbound m (server_ s) = (r, srv) ->
  (agent_phase s = Closed -> phase (machine srv) = Closed) /\ (failed s -> is_Some (writer_failure srv)) /\
  (forall o, published o (with_server srv s) = published o s).
Proof.
  intros Hok Hs. apply (observe_inbound_spec _ _ _ _ Hok) in Hs as [(e & _ & ->)|(Ht & _ & Hm)].
  { by rewrite with_server_same. }
  pose proof (took_trace _ _ _ _ Ht) as Htr. split_and!.
  - intros Hc. pose proof (took_step _ _ _ _ Ht) as Hst. by apply phase_step_open in Hst.
  - intros Hf. by apply (took_failure _ _ _ _ Ht).
  - intros o. apply (published_other _ _ _ _ _ Htr). by intros id off data ->.
Qed.

(** The stream that an operation changes, and the others. *)
Lemma with_stream_eq o x s : streams (with_stream o x s) o = x.
Proof. cbn. by rewrite decide_True. Qed.
Lemma with_stream_ne o o' x s : o' <> o -> streams (with_stream o x s) o' = streams s o'.
Proof. intros. cbn. by rewrite decide_False. Qed.

Lemma keeps_output_refl o s : keeps_output o s s.
Proof. by split. Qed.

Lemma with_stream_keeps_output o o' x s :
  (o' = o -> bytes_read x = read_of o s /\ granted x = granted (streams s o) /\
     worker_finished x = worker_finished (streams s o) /\ flow_sent (flow x) = sent_of o s /\
     (stopped_of o s = true -> flow_stopped (flow x) = true) /\ (force_stop (streams s o) = true -> force_stop x = true)) ->
  keeps_output o s (with_stream o' x s).
Proof.
  intros Hx. destruct (decide (o' = o)) as [->|Hne].
  - destruct (Hx eq_refl) as (? & ? & ? & ? & ? & ?).
    split; unfold read_of, sent_of, stopped_of in *; rewrite ?with_stream_eq; done.
  - split; unfold read_of, sent_of, stopped_of; rewrite ?with_stream_ne by congruence; done.
Qed.

(** The writer's side of the server: no message is taken. *)
Record quiet (srv srv' : RuntimeServer) : Prop := {
  quiet_machine : machine srv' = machine srv;
  quiet_trace : trace srv' = trace srv;
  quiet_failure : is_Some (writer_failure srv) -> is_Some (writer_failure srv') }.

Lemma quiet_record msg srv : quiet srv (record_writer_failure msg srv).
Proof. split; [done..|]. intros [f Hf]. cbn. by rewrite Hf. Qed.
Lemma quiet_try_send c srv srv' : try_send_command c srv = Ok srv' -> quiet srv srv'.
Proof.
  unfold try_send_command. destruct (writer_thread srv), (zlen (outgoing srv) >=? SERVER_QUEUE_DEPTH); try done;
    by intros [= <-].
Qed.
Lemma quiet_takes srv srv' : writer_takes srv = Some srv' -> quiet srv srv'.
Proof. unfold writer_takes. repeat case_match; try done; by intros [= <-]. Qed.
Lemma quiet_writes b srv srv' : writer_writes b srv = Some srv' -> quiet srv srv'.
Proof.
  unfold writer_writes. destruct (writer_thread srv); try done. intros [= <-]. destruct b; [by split|].
  split; [done..|]. apply quiet_record.
Qed.

Lemma quiet_published o s srv : quiet (server_ s) srv -> published o (with_server srv s) = published o s.
Proof. intros [_ Ht _]. unfold published, messages. cbn. by rewrite Ht. Qed.
Lemma quiet_received s srv : quiet (server_ s) srv -> received (with_server srv s) = received s.
Proof. intros [_ Ht _]. unfold received, messages. cbn. by rewrite Ht. Qed.
Lemma quiet_phase s srv : quiet (server_ s) srv -> agent_phase (with_server srv s) = agent_phase s.
Proof. intros [Hm _ _]. unfold agent_phase. cbn. by rewrite Hm. Qed.
Lemma quiet_dead s srv : quiet (server_ s) srv -> dead s -> dead (with_server srv s).
Proof. intros Hq [?|?]; [left; by rewrite (quiet_phase s srv Hq) | right; by apply (quiet_failure _ _ Hq)]. Qed.

Lemma quiet_keeps_output o s srv : quiet (server_ s) srv -> keeps_output o s (with_server srv s).
Proof. intros Hq. split; try done; [by apply quiet_published | by apply quiet_dead]. Qed.

Lemma keeps_output_trans o s1 s2 s3 : keeps_output o s1 s2 -> keeps_output o s2 s3 -> keeps_output o s1 s3.
Proof. intros [] []. split; try congruence; auto; lia. Qed.

(** What [ReserveTotal] grants and the total after it. *)
Definition grant (total requested : Z) (limit : option Z) : Z * Z :=
  match limit with Some limit => reserve_output total requested limit | None => (requested, total) end.

Lemma grant_spec total n limit n' total' :
  in_u64 total -> 0 <= n -> grant total n limit = (n', total') ->
  total <= total' /\ in_u64 total' /\ 0 <= n' <= n /\
  (forall l, limit = Some l -> total <= Z.max l 0 -> l <= u64_max -> total' = total + n' /\ total' <= Z.max l 0) /\
  (n' < n -> exists l, limit = Some l /\ (l <= u64_max -> l <= total')).
Proof.
  unfold grant, reserve_output, in_u64, saturating_sub, saturating_add. intros Ht Hn.
  destruct limit as [l|]; intros [= <- <-]; split_and!; try lia; try done.
  - intros l' [= <-]. lia.
  - intros Hlt. exists l. split; [done|]. lia.
Qed.

(** What [exec] does to a stream. *)
Lemma on_stream_Some {A} o s (f : stream_state -> option (A * stream_state)) a s' :
  on_stream o s f = Some (a, s') <-> exists x, f (streams s o) = Some (a, x) /\ s' = with_stream o x s.
Proof.
  unfold on_stream. destruct (f (streams s o)) as [[a1 x]|]; cbn; [|naive_solver].
  split; [intros [= <- <-]; eauto | by intros (? & [= <- <-] & ->)].
Qed.

Ltac stream_op H :=
  apply on_stream_Some in H as (? & H & ->);
  repeat match type of H with
         | context [match ?x with _ => _ end] => destruct x eqn:?; cbn in H; try discriminate H
         end;
  injection H as <- <-.

Lemma exec_keeps_output {A} (op_ : op A) r s a s' o :
  shared_ok s -> op_sane op_ -> exec op_ r s = Some (a, s') -> owner op_ <> Some (OutputThread o) -> ~ launches op_ ->
  keeps_output o s s'.
Proof.
  intros Hok Hsane H Hown Hl. revert a H. destruct op_; intros a H; try (by destruct Hl); cbn [exec] in H.
  all: try (by exec_cases H; split; cbn; auto).
  - (* the machine takes a message of the client *)
    unfold on_server in H. destruct (server_observe_inbound m (server_ s)) as [r1 srv] eqn:E. injection H as <- <-.
    apply (observe_keeps _ _ _ _ Hok) in E as (Hc & Hf & Hp). split; try done.
    intros [?|?]; [left; by apply Hc | right; by apply Hf].
  - unfold on_server in H. destruct (send m (server_ s)) as [r1 srv] eqn:E. injection H as <- <-.
    apply (send_keeps _ _ _ _ Hok) in E as (Hc & Hf & Hp & _). split; try done; [by apply Hp|].
    intros [?|?]; [left; by apply Hc | right; by apply Hf].
  - destruct (try_send_command WriteFinish (server_ s)) as [srv|e] eqn:E; injection H as <- <-;
      [by eapply quiet_keeps_output, quiet_try_send | apply keeps_output_refl].
  - injection H as <- <-. apply quiet_keeps_output, quiet_record.
  - (* acknowledge *)
    stream_op H; [|apply with_stream_keeps_output; by intros ->].
    apply with_stream_keeps_output. intros ->.
    match goal with E : acknowledge _ _ = Ok _ |- _ => apply acknowledge_spec in E as [_ ->] end. done.
  - apply on_stream_Some in H as (x & _ & ->). apply with_stream_keeps_output. by intros ->.
  - stream_op H. apply with_stream_keeps_output. by intros ->.
  - stream_op H. apply with_stream_keeps_output. by intros ->.
  - stream_op H. apply with_stream_keeps_output. intros ->. done.
  - apply on_stream_Some in H as (x & _ & ->). apply with_stream_keeps_output. by intros ->.
  - exec_cases H; try apply keeps_output_refl. apply with_stream_keeps_output. by intros ->.
  - destruct (grant (output_total (control s)) requested limit) as [n total] eqn:E. unfold grant in E. rewrite E in H.
    injection H as <- <-.
    match goal with |- keeps_output _ _ (with_stream _ _ ?s1) => apply (keeps_output_trans _ _ s1) end;
      [|apply with_stream_keeps_output; by intros ->].
    split; try done. cbn. by destruct (grant_spec _ _ _ _ _ (so_u64 s Hok) Hsane E).
Qed.

Lemma exec_keeps_input {A} (op_ : op A) r s a s' :
  exec op_ r s = Some (a, s') -> owner op_ <> Some InputThread -> keeps_input s s'.
Proof.
  intros H Hown. revert a H. destruct op_; intros a H; try (by destruct Hown); cbn [exec] in H.
  all: try (by exec_cases H; split; cbn; auto).
  by apply on_stream_Some in H as (x & _ & ->).
Qed.

(** The machine after a message of the server, as far as the loop is concerned. *)
Lemma server_took_main d m s srv :
  shared_ok s -> took d m (server_ s) srv -> owner (Send m) <> Some MainThread -> sender m = Server ->
  keeps_main s (with_server srv s).
Proof.
  intros Hok Ht Hm Hs. pose proof (took_trace _ _ _ _ Ht) as Htr. pose proof (took_step _ _ _ _ Ht) as Hst.
  split; try done.
  - rewrite (received_snoc _ _ _ _ Htr). destruct m; try apply app_nil_r. done.
  - intros o. rewrite (published_snoc _ _ _ _ _ Htr), zlen_app. pose proof (zlen_nonneg (concat (output_chunk o m).*2)). lia.
  - intros Hc. by apply phase_step_open in Hst.
  - intros p' E. unfold agent_phase in E. cbn in E. rewrite E in Hst.
    inversion Hst as [| | | | |? id|? id|? ? id|? ? ? id|p ? ? Hc Ep|p ? ? Hc Ep| | | | | | | | | | | |];
      subst; cbn in Hm; try done.
    + apply client_step_sender in Hc. congruence.
    + exists p. split; [done|]. intros o x' Hx'. destruct Hc; cbn in *; try (by exists x').
      rename s0 into o1, o0 into x1. apply stream_of_Ok in Hx'. cbn in Hx'. destruct (decide (o1 = o)) as [->|Hne].
      * exists x1. split; [done|]. destruct o, Hx' as [_ ->]; done.
      * exists x'. split; [|done]. apply stream_of_Ok. destruct o, o1; done.
Qed.

Lemma keeps_main_refl s : keeps_main s s.
Proof. split; try done. intros p' E. exists p'. eauto. Qed.

Lemma with_control_keeps_main c s : keeps_main s (with_control c s).
Proof. split; try done. intros p' E. exists p'. eauto. Qed.

Lemma with_stream_keeps_main o x s :
  flow_acknowledged (flow x) = acked_of o s -> sent_of o s <= flow_sent (flow x) -> keeps_main s (with_stream o x s).
Proof.
  intros Ha Hs. split; try done; try (intros p' E; exists p'; by eauto).
  - intros o'. unfold acked_of. destruct (decide (o' = o)) as [->|]; [by rewrite with_stream_eq | by rewrite with_stream_ne].
  - intros o'. unfold sent_of. destruct (decide (o' = o)) as [->|]; [by rewrite with_stream_eq | by rewrite with_stream_ne].
Qed.

Lemma quiet_keeps_main s srv : quiet (server_ s) srv -> keeps_main s (with_server srv s).
Proof.
  intros Hq. split; try done; [by apply quiet_received | intros o; by rewrite quiet_published | by rewrite quiet_phase |].
  intros p'. rewrite quiet_phase by done. intros E. exists p'. eauto.
Qed.

Lemma exec_keeps_main {A} (op_ : op A) r s a s' :
  shared_ok s -> op_sane op_ -> exec op_ r s = Some (a, s') -> owner op_ <> Some MainThread ->
  match op_ with Send m => sender m = Server | _ => True end -> keeps_main s s'.
Proof.
  intros Hok Hsane H Hown Hm. revert a H. destruct op_; intros a H; try (by destruct Hown); cbn [exec] in H.
  all: try (by exec_cases H; first [apply keeps_main_refl | apply with_control_keeps_main |
    split; try done; intros p' E; exists p'; eauto]).
  - unfold on_server in H. destruct (send m (server_ s)) as [r1 srv] eqn:E. injection H as <- <-.
    apply (server_send_spec _ _ _ _ Hok) in E as [(e & _ & -> & _)|[Ht _]]; [rewrite with_server_same; apply keeps_main_refl|].
    by eapply server_took_main.
  - destruct (try_send_command WriteFinish (server_ s)) as [srv|e] eqn:E; injection H as <- <-;
      [by eapply quiet_keeps_main, quiet_try_send | apply keeps_main_refl].
  - apply on_stream_Some in H as (x & H & ->). apply bind_Some in H as ([a1 f] & Hr & [= <- <-]).
    apply reserve_spec in Hr; [|done|by apply shared_flow_ok].
    destruct Hr as [[-> _]|(len & _ & Hlen & _ & -> & _)]; apply with_stream_keeps_main; cbn; try done; unfold sent_of; lia.
  - stream_op H. by apply with_stream_keeps_main.
  - stream_op H. by apply with_stream_keeps_main.
  - stream_op H. by apply with_stream_keeps_main.
  - stream_op H. by apply with_stream_keeps_main.
  - exec_cases H; try apply keeps_main_refl. by apply with_stream_keeps_main.
  - exec_cases H;
    split; try done; try (intros p' E'; exists p'; by eauto); intros o'; unfold acked_of, sent_of; cbn; case_decide; subst; done.
Qed.

Lemma keeps_waiter_refl s : keeps_waiter s s.
Proof. by split. Qed.

Lemma quiet_keeps_waiter s srv : quiet (server_ s) srv -> keeps_waiter s (with_server srv s).
Proof.
  intros Hq. split; try done; [|by rewrite quiet_phase|apply Hq].
  intros o _. by rewrite quiet_published.
Qed.

Lemma with_control_keeps_waiter c s :
  (output_truncated (control s) = true -> output_truncated c = true) ->
  (forall info, started s = Some info -> all_finished info s -> output_truncated c = output_truncated (control s)) ->
  keeps_waiter s (with_control c s).
Proof. intros Ht Hf. by split. Qed.

Lemma with_stream_keeps_waiter o x s :
  force_stop x = force_stop (streams s o) -> flow_stopped (flow x) = stopped_of o s ->
  acked_of o s <= flow_acknowledged (flow x) -> (worker_finished (streams s o) = true -> worker_finished x = true) ->
  (worker_finished (streams s o) = true \/ ~ active o s -> bytes_read x = read_of o s /\ flow_sent (flow x) = sent_of o s) ->
  keeps_waiter s (with_stream o x s).
Proof.
  intros Hforce Hstop Hack Hfin Hsame. split; try done.
  - intros o'. unfold stopped_of in *. destruct (decide (o' = o)) as [->|]; [by rewrite with_stream_eq | by rewrite with_stream_ne].
  - intros o'. destruct (decide (o' = o)) as [->|]; [rewrite with_stream_eq; auto | by rewrite with_stream_ne].
  - intros o' Ho. split; [done|]. unfold read_of, sent_of in *.
    destruct (decide (o' = o)) as [->|]; [rewrite with_stream_eq; auto | by rewrite with_stream_ne].
  - intros o'. unfold acked_of in *. destruct (decide (o' = o)) as [->|]; [by rewrite with_stream_eq | by rewrite with_stream_ne].
Qed.

Lemma keeps_waiter_control_then s c s' :
  output_truncated c = output_truncated (control s) -> keeps_waiter (with_control c s) s' -> keeps_waiter s s'.
Proof.
  intros Hc [H1 H2 H3 H4 H5 H6 H7 H8 H9]. split; try done.
  - by rewrite <- Hc.
  - intros info Hi Hf. rewrite <- Hc. by apply (H9 info).
Qed.

(** An operation of another thread; an output worker that acts has not ended. *)
Lemma exec_keeps_waiter {A} (op_ : op A) r s a s' :
  shared_ok s -> op_sane op_ -> exec op_ r s = Some (a, s') -> owner op_ <> Some WaiterThread -> ~ launches op_ ->
  (forall o, owner op_ = Some (OutputThread o) -> worker_finished (streams s o) = false /\ active o s) ->
  match op_ with
  | SetTruncated => forall info, started s = Some info -> ~ all_finished info s
  | _ => True
  end -> keeps_waiter s s'.
Proof.
  intros Hok Hsane H Hown Hl Hout Htr. revert a H.
  destruct op_; intros a H; try (by destruct Hown); try (by destruct Hl); cbn [exec] in H.
  all: try (by exec_cases H; first [apply keeps_waiter_refl | apply with_control_keeps_waiter]).
  all: try (by exec_cases H; split).
  - unfold on_server in H. destruct (server_observe_inbound m (server_ s)) as [r1 srv] eqn:E. injection H as <- <-.
    apply (observe_keeps _ _ _ _ Hok) in E as (Hc & Hf & Hp). by split.
  - unfold on_server in H. destruct (send m (server_ s)) as [r1 srv] eqn:E. injection H as <- <-.
    apply (send_keeps _ _ _ _ Hok) in E as (Hc & Hf & Hp & _). split; try done. intros o Ho. rewrite Hp; [done|].
    intros E. destruct (Hout o E) as [? ?]. destruct Ho; [congruence | done].
  - destruct (try_send_command WriteFinish (server_ s)) as [srv|e] eqn:E; injection H as <- <-;
      [by eapply quiet_keeps_waiter, quiet_try_send | apply keeps_waiter_refl].
  - injection H as <- <-. apply quiet_keeps_waiter, quiet_record.
  - exec_cases H. apply with_control_keeps_waiter; [done|]. intros info Hi Hf. by destruct (Htr info Hi).
  - stream_op H; [|by apply with_stream_keeps_waiter].
    match goal with E : acknowledge _ _ = Ok _ |- _ => apply acknowledge_spec in E as [? ->] end.
    apply with_stream_keeps_waiter; cbn; try done. unfold acked_of. lia.
  - destruct (Hout s0 eq_refl) as [Hf Ha]. apply on_stream_Some in H as (x & H & ->).
    apply bind_Some in H as ([a1 f] & Hr & [= <- <-]). apply reserve_spec in Hr; [|done|by apply shared_flow_ok].
    destruct Hr as [[-> _]|(len & _ & _ & _ & -> & _)]; apply with_stream_keeps_waiter; cbn; try done;
      (intros [?|?]; [congruence | done]).
  - stream_op H. by apply with_stream_keeps_waiter.
  - stream_op H. by apply with_stream_keeps_waiter.
  - destruct (Hout s0 eq_refl) as [Hf Ha]. exec_cases H; try apply keeps_waiter_refl. apply with_stream_keeps_waiter; cbn; try done.
    intros [?|?]; [congruence | done].
  - destruct (grant (output_total (control s)) requested limit) as [n total] eqn:E. unfold grant in E. rewrite E in H.
    injection H as <- <-.
    eapply keeps_waiter_control_then; [|by apply with_stream_keeps_waiter]. done.
Qed.

(** ** The shared state along operations *)

Lemma quiet_ok s srv : shared_ok s -> quiet (server_ s) srv -> shared_ok (with_server srv s).
Proof.
  intros Hok Hq. pose proof (quiet_phase s srv Hq) as Hph. pose proof (quiet_received s srv Hq) as Hr.
  pose proof (fun o => quiet_published o s srv Hq) as Hp.
  split; try (by apply Hok).
  - cbn. rewrite (quiet_machine _ _ Hq). apply Hok.
  - cbn. rewrite (quiet_machine _ _ Hq). apply Hok.
  - rewrite Hph. apply Hok.
  - intros p. rewrite Hph. intros E. destruct (so_linked s Hok p E) as [? ? Hst ? ?]. split; try done; [|by rewrite Hr].
    intros o x Hx. rewrite Hp. by apply Hst.
  - intros info. rewrite Hph. apply Hok.
  - intros o. rewrite Hp. apply Hok.
  - intros o. rewrite Hp. apply Hok.
  - intros o. rewrite Hp. unfold messages. cbn. rewrite (quiet_trace _ _ Hq). apply Hok.
  - intros o. rewrite Hp. apply Hok.
  - intros o. rewrite Hp. apply Hok.
  - rewrite Hr. apply Hok.
  - cbn. rewrite (quiet_trace _ _ Hq). apply Hok.
  - intros o Hf. unfold worker_left, clean. rewrite Hp.
    destruct (so_finished s Hok o Hf) as [?|[?|[?|?]]]; auto. right; right; left. by apply quiet_dead.
  - cbn. rewrite (quiet_trace _ _ Hq). intros id status b Hin. destruct (so_exited s Hok id status b Hin) as [Hc Hcomp].
    rewrite Hph. split; [done|]. intros o. rewrite Hp. apply Hcomp.
Qed.

Lemma with_control_ok c s :
  shared_ok s -> output_total c = output_total (control s) ->
  (output_truncated (control s) = true -> output_truncated c = true) -> shared_ok (with_control c s).
Proof.
  intros Hok Ht Htr. split; try (by apply Hok).
  - intros p E. by destruct (so_linked s Hok p E).
  - cbn. rewrite Ht. apply Hok.
  - cbn. rewrite Ht. apply Hok.
  - cbn. rewrite Ht. apply Hok.
  - intros o Hf. destruct (so_finished s Hok o Hf) as [?|[?|[?|[? [?|?]]]]]; unfold worker_left, clean; cbn; auto 6.
    do 3 right. auto.
Qed.

Lemma with_stdin_ok i open f gone s : shared_ok s -> shared_ok (with_stdin i open f gone s).
Proof. intros Hok. split; try (by apply Hok). intros p E. by destruct (so_linked s Hok p E). Qed.

Lemma with_gone_ok gone s : shared_ok s -> shared_ok (with_started (started s) gone s).
Proof. intros Hok. split; try (by apply Hok). intros p E. by destruct (so_linked s Hok p E). Qed.

Lemma with_started_ok info s :
  shared_ok s -> started s = None -> limit_ok info -> (exists p, agent_phase s = Running p /\ fits info p) ->
  shared_ok (with_started (Some info) (waiter_gone s) s).
Proof.
  intros Hok Hn Hlim Hrun. split; try (by apply Hok).
  - intros p E. by destruct (so_linked s Hok p E).
  - intros info' [= <-]. split; [done | by right].
  - intros o Ha. apply (so_idle s Hok). by apply not_active.
  - done.
  - intros info' l [= <-] Hl. cbn. pose proof (so_idle s Hok Stdout (not_active _ _ Hn)) as (_ & _ & ->).
    pose proof (so_idle s Hok Stderr (not_active _ _ Hn)) as (_ & _ & ->). rewrite (so_total_start s Hok Hn). lia.
  - intros id status b Hin. destruct (so_exited s Hok id status b Hin) as [Hc _]. destruct Hrun as (p & E & _). congruence.
Qed.

(** A change of one stream: what its worker and the waiter may do. *)
Lemma with_stream_ok o x s :
  shared_ok s ->
  flow_ok (flow x) -> flow_sent (flow x) <= u64_max -> sent_of o s <= flow_sent (flow x) ->
  acked_of o s <= flow_acknowledged (flow x) <= zlen (published o s) ->
  (forall p y, agent_phase s = Running p -> stream_of p o = Ok y -> flow_acknowledged (flow x) <= acked y) ->
  read_of o s `prefix_of` bytes_read x -> granted x = granted (streams s o) ->
  (active o s \/ (bytes_read x = read_of o s /\ flow_sent (flow x) = sent_of o s)) ->
  (worker_finished (streams s o) = true -> worker_finished x = true /\ bytes_read x = read_of o s /\
     flow_sent (flow x) = sent_of o s /\ (force_stop (streams s o) = true -> force_stop x = true) /\
     (stopped_of o s = true -> flow_stopped (flow x) = true)) ->
  (worker_finished x = true -> worker_finished (streams s o) = true \/ worker_left o (with_stream o x s)) ->
  shared_ok (with_stream o x s).
Proof.
  intros Hok Hflow Hmax Hsent Hack Hlink Hread Hgr Hact Hfin Hend.
  assert (Hcase : forall (P : RuntimeOutputStream -> stream_state -> Prop),
    P o x -> (forall o', o' <> o -> P o' (streams s o')) -> forall o', P o' (streams (with_stream o x s) o')).
  { intros P Ho Hne o'. destruct (decide (o' = o)) as [->|?]; [by rewrite with_stream_eq | rewrite with_stream_ne by done; auto]. }
  split; try (by apply Hok).
  - intros p E. destruct (so_linked s Hok p E) as [? ? Hst ? ?]. split; try done. intros o' y Hy.
    destruct (Hst o' y Hy) as [? ?]. split; [done|]. unfold acked_of.
    destruct (decide (o' = o)) as [->|?]; [rewrite with_stream_eq; eauto | by rewrite with_stream_ne].
  - apply (Hcase (fun o' y => 0 <= flow_acknowledged (flow y) <= flow_sent (flow y) /\ flow_sent (flow y) <= u64_max /\
      flow_sent (flow y) - flow_acknowledged (flow y) <= OUTPUT_FLOW_WINDOW_BYTES /\ zlen (published o' s) <= flow_sent (flow y))).
    + destruct Hflow. pose proof (so_flow s Hok o) as (_ & _ & _ & ?). split_and!; try done; lia.
    + intros o' _. apply Hok.
  - apply (Hcase (fun o' y => flow_acknowledged (flow y) <= zlen (published o' s))); [|intros o' _; apply Hok].
    by destruct Hack.
  - apply (Hcase (fun o' y => published o' s `prefix_of` bytes_read y)); [|intros o' _; apply Hok].
    etrans; [apply Hok | done].
  - apply (Hcase (fun o' y => ~ active o' s -> bytes_read y = [] /\ flow_sent (flow y) = 0 /\ granted y = 0)); [|intros o' _; apply Hok].
    intros Ha. destruct Hact as [?|[-> ->]]; [done|]. rewrite Hgr. by apply Hok.
  - apply (Hcase (fun o' y => zlen (published o' s) <= granted y)); [|intros o' _; apply Hok]. rewrite Hgr. apply Hok.
  - intros info l Hi Hl. cbn [started control with_stream] in *. 
    assert (Hg : forall o', granted (streams (with_stream o x s) o') = granted (streams s o'))
      by (by apply (Hcase (fun o' y => granted y = granted (streams s o')))).
    rewrite !Hg. by apply (so_total s Hok info l).
  - intros o' Hf. destruct (decide (o' = o)) as [->|Hne].
    + rewrite with_stream_eq in Hf. destruct (Hend Hf) as [Hf'|?]; [|done]. destruct (Hfin Hf') as (_ & Hr & Hs & Hfo & Hst).
      unfold worker_left, clean, stopped_of, sent_of, read_of. rewrite with_stream_eq.
      destruct (so_finished s Hok o Hf') as [?|[?|[?|[? ?]]]]; auto.
      right; right; right. cbn. unfold sent_of, read_of in *. by rewrite Hr, Hs.
    + rewrite with_stream_ne in Hf by done. unfold worker_left, clean, stopped_of, sent_of, read_of. rewrite with_stream_ne by done.
      by apply (so_finished s Hok).
  - intros id status b Hin. destruct (so_exited s Hok id status b Hin) as [Hc Hcomp]. split; [done|].
    refine (Hcase (fun o' y => (active o' s -> worker_finished y = true) /\ flow_acknowledged (flow y) = flow_sent (flow y) /\
      flow_sent (flow y) = zlen (published o' s) /\ (b = false -> bytes_read y = published o' s)) _ _); [|intros o' _; apply Hcomp].
    destruct (Hcomp o) as (Hf & Ha & Hs & Hr).
    assert (Hsame : bytes_read x = read_of o s /\ flow_sent (flow x) = sent_of o s /\ (active o s -> worker_finished x = true)).
    { destruct Hact as [Ha'|[? ?]].
      - destruct (Hfin (Hf Ha')) as (? & ? & ? & _). done.
      - split; [done|]. split; [done|]. intros Ha'. by destruct (Hfin (Hf Ha')). }
    destruct Hsame as (-> & Hs' & ?). split; [done|]. split; [|by rewrite Hs']. destruct Hflow as [[_ ?] _]. lia.
Qed.

Lemma with_input_ok q sender_ receiver pushed_ popped_ consumed_ s :
  shared_ok s ->
  pushed_ = popped_ ++ concat (command_data <$> q) -> offsets_from (zlen popped_) q ->
  pushed_ `prefix_of` received s -> consumed_ `prefix_of` popped_ -> consumed s `prefix_of` consumed_ ->
  shared_ok (with_input q sender_ receiver pushed_ popped_ consumed_ s).
Proof.
  intros Hok Hp Hq Hr Hc [rest Hmore].
  assert (Hle : zlen (consumed s) <= zlen consumed_) by (rewrite Hmore, zlen_app; pose proof (zlen_nonneg rest); lia).
  split; try (by apply Hok); try done.
  - intros p E. destruct (so_linked s Hok p E). split; try done. cbn. lia.
  - intros id n Hin. pose proof (so_input_acks s Hok id n Hin). cbn. lia.
Qed.

Lemma offsets_from_snoc at_ q c :
  offsets_from at_ q ->
  (forall data n, c = InputData data n -> n = at_ + zlen (concat (command_data <$> q)) + zlen data) ->
  offsets_from at_ (q ++ [c]).
Proof.
  revert at_. induction q as [|c' q IH]; intros at_ Hq Hc; cbn [app offsets_from].
  - destruct c as [data n|]; [|done]. split; [|done]. rewrite (Hc data n eq_refl). cbn. rewrite zlen_nil. lia.
  - destruct c' as [data' n'|]; cbn [offsets_from fmap list_fmap concat command_data app] in *.
    + destruct Hq as [-> Hq]. split; [done|]. apply IH; [done|]. intros data n E. rewrite (Hc data n E), zlen_app. lia.
    + apply IH; done.
Qed.

(** What an operation needs for the shared state to stay in order. *)
Definition guaranteed {A} (o : op A) (s : shared) : Prop :=
  match o with
  | Send m => agent_phase s <> Closed -> permitted m s
  | Launch info => started s = None /\ limit_ok info /\ exists p, agent_phase s = Running p /\ fits info p
  | PushInput c =>
      received s = pushed s ++ command_data c /\
      match c with InputData _ n => n = zlen (received s) | InputClose => True end
  | WriteInput data => popped s = consumed s ++ data
  | AcknowledgeFlow o n =>
      n <= zlen (published o s) /\ forall p x, agent_phase s = Running p -> stream_of p o = Ok x -> n <= acked x
  | ReserveFlow o _ | ReadOutput o _ => active o s /\ worker_finished (streams s o) = false
  | ReserveTotal o _ limit =>
      worker_finished (streams s o) = false /\
      exists info, started s = Some info /\ o ∈ run_streams info /\ limit = run_limit info
  | EndWorker o => worker_left o s
  | _ => True
  end.

Lemma with_flow_ok o f s :
  shared_ok s -> flow_ok f -> flow_sent f <= u64_max -> flow_stopped f = stopped_of o s \/ flow_stopped f = true ->
  acked_of o s <= flow_acknowledged f <= zlen (published o s) -> sent_of o s <= flow_sent f ->
  (forall p x, agent_phase s = Running p -> stream_of p o = Ok x -> flow_acknowledged f <= acked x) ->
  (flow_sent f = sent_of o s \/ (active o s /\ worker_finished (streams s o) = false)) ->
  shared_ok (with_stream o (with_flow f (streams s o)) s).
Proof.
  intros Hok Hf Hmax Hst Ha Hs Hl Hcase. apply with_stream_ok; cbn; auto.
  - destruct Hcase as [?|[? _]]; auto.
  - intros Hfin. destruct Hcase as [?|[_ ?]]; [|congruence]. split_and!; auto. intros E. destruct Hst as [->|?]; done.
Qed.

Lemma linked_acked o s p x : shared_ok s -> agent_phase s = Running p -> stream_of p o = Ok x -> acked_of o s <= acked x.
Proof. intros Hok E Hx. by destruct (link_streams _ _ (so_linked s Hok p E) o x Hx). Qed.

(** The bytes that the output limit grants to one stream. *)
Lemma with_grant_ok o n total s :
  shared_ok s -> 0 <= n -> in_u64 total -> output_total (control s) <= total -> worker_finished (streams s o) = false ->
  active o s ->
  (forall info l, started s = Some info -> run_limit info = Some l ->
     total = output_total (control s) + n /\ total <= Z.max l 0) ->
  shared_ok (with_stream o (with_read (bytes_read (streams s o)) (granted (streams s o) + n) (streams s o))
    (with_control (set_control total (output_truncated (control s)) (io_stop (control s)) (termination (control s))
                     (done (control s)) (killed (control s))) s)).
Proof.
  intros Hok Hn Hu Hmono Hfin Hact Htot. set (s' := with_stream _ _ _).
  assert (Hst : forall o', flow (streams s' o') = flow (streams s o') /\ bytes_read (streams s' o') = bytes_read (streams s o') /\
    force_stop (streams s' o') = force_stop (streams s o') /\ worker_finished (streams s' o') = worker_finished (streams s o') /\
    granted (streams s' o') = granted (streams s o') + (if decide (o' = o) then n else 0)).
  { intros o'. unfold s'. cbn. case_decide; subst; cbn; split_and!; try done; lia. }
  split; try (by apply Hok).
  - intros p E. destruct (so_linked s Hok p E) as [? ? Hs ? ?]. split; try done. intros o' x Hx.
    unfold acked_of. destruct (Hst o') as (-> & _). by apply Hs.
  - intros o'. unfold acked_of, sent_of. destruct (Hst o') as (-> & _). apply Hok.
  - intros o'. unfold acked_of. destruct (Hst o') as (-> & _). apply Hok.
  - intros o'. unfold read_of. destruct (Hst o') as (_ & -> & _). apply Hok.
  - intros o' Ha. unfold read_of, sent_of. destruct (Hst o') as (-> & -> & _ & _ & ->).
    rewrite decide_False by (intros ->; done). destruct (so_idle s Hok o' Ha) as (? & ? & ?). split_and!; try done; lia.
  - intros o'. destruct (Hst o') as (_ & _ & _ & _ & ->). pose proof (so_granted s Hok o').
    change (published o' s') with (published o' s). case_decide; lia.
  - done.
  - intros Hnone. destruct Hact as (info & E & _). cbn in Hnone. congruence.
  - intros info l Hi Hl. change (started s = Some info) in Hi. destruct (Htot info l Hi Hl) as [-> Hmax]. destruct (so_total s Hok info l Hi Hl) as [Hsum Hle].
    destruct (Hst Stdout) as (_ & _ & _ & _ & ->), (Hst Stderr) as (_ & _ & _ & _ & ->). cbn [control with_stream with_control s'].
    destruct (so_started s Hok info Hi) as [Hlim _]. destruct (Hlim l Hl) as [_ Hpty].
    assert (Ho : o = Stdout \/ o = Stderr).
    { destruct Hact as (info' & Hi' & Hin). replace info' with info in * by congruence. unfold run_streams in Hin.
      rewrite Hpty in Hin. set_solver. }
    cbn. destruct Ho as [-> | ->]; repeat case_decide; try done; lia.
  - intros o' Hf. unfold worker_left, clean, stopped_of, sent_of, read_of.
    destruct (Hst o') as (-> & -> & -> & E & _). rewrite E in Hf. by apply (so_finished s Hok).
  - intros id status b Hin. destruct (so_exited s Hok id status b Hin) as [Hc Hcomp]. split; [done|].
    intros o'. unfold acked_of, sent_of, read_of. destruct (Hst o') as (-> & -> & _ & -> & _). apply (Hcomp o').
Qed.

(** A change of the flags only. *)
Lemma with_flags_ok o x s :
  shared_ok s -> flow x = flow (streams s o) -> bytes_read x = bytes_read (streams s o) ->
  granted x = granted (streams s o) -> (force_stop (streams s o) = true -> force_stop x = true) ->
  worker_finished x = worker_finished (streams s o) \/ (worker_finished x = true /\ worker_left o s) ->
  shared_ok (with_stream o x s).
Proof.
  intros Hok Hf Hb Hg Hfo Hfin. pose proof (so_acked s Hok o). pose proof (so_flow s Hok o) as (? & ? & ? & _). pose proof (shared_flow_ok o s Hok).
  apply with_stream_ok; unfold acked_of, sent_of, stopped_of, read_of in *; rewrite ?Hf, ?Hb; try done.
  - intros p y E Hy. by eapply linked_acked.
  - by right.
  - intros E. split_and!; try done. destruct Hfin as [->|[? _]]; done.
  - intros E. destruct Hfin as [<-|[_ Hl]]; [by left|]. right. unfold worker_left, clean, stopped_of, sent_of, read_of in *.
    rewrite with_stream_eq, Hf, Hb. destruct Hl as [?|Hl]; [left; auto | right; exact Hl].
Qed.

Lemma client_permitted m s : sender m = Client -> permitted m s.
Proof. by destruct m. Qed.

Lemma exec_ok {A} (op_ : op A) r s a s' :
  shared_ok s -> op_sane op_ -> guaranteed op_ s -> exec op_ r s = Some (a, s') -> shared_ok s'.
Proof.
  intros Hok Hsane Hg H. revert a H. destruct op_; intros a H; cbn [exec] in H; cbn [guaranteed] in Hg.
  all: try (by exec_cases H; first [done | by apply with_stdin_ok | by apply with_control_ok | by apply with_gone_ok]).
  - unfold on_server in H. destruct (server_observe_inbound m (server_ s)) as [r1 srv] eqn:E. injection H as <- <-.
    apply (observe_inbound_spec _ _ _ _ Hok) in E as [(e & _ & ->)|(Ht & _ & Hm)]; [by rewrite with_server_same|].
    eapply took_ok; [done|done|by apply client_permitted].
  - unfold on_server in H. destruct (send m (server_ s)) as [r1 srv] eqn:E. injection H as <- <-.
    apply (server_send_spec _ _ _ _ Hok) in E as [(e & _ & -> & _)|[Ht _]]; [by rewrite with_server_same|].
    eapply took_ok; [done|done|]. apply Hg. by eapply phase_step_open, Ht.
  - destruct (try_send_command WriteFinish (server_ s)) as [srv|e] eqn:E; injection H as <- <-; [|done].
    by eapply quiet_ok, quiet_try_send.
  - injection H as <- <-. apply quiet_ok; [done | apply quiet_record].
  - injection H as <- <-. destruct Hg as (? & ? & ?). by apply with_started_ok.
  - destruct Hg as [Hrec Hn]. destruct (so_channel s Hok) as [Hch Hoff]. exec_cases H; try done.
    apply with_input_ok; try apply Hok; try done.
    + rewrite fmap_app, concat_app. cbn. by rewrite app_nil_r, Hch, <- app_assoc.
    + apply offsets_from_snoc; [done|]. intros data n ->. rewrite Hn, Hrec, zlen_app, Hch, zlen_app. cbn. lia.
    + by rewrite Hrec.
  - destruct (so_channel s Hok) as [Hch Hoff]. exec_cases H; by apply with_input_ok; try apply Hok.
  - destruct (so_channel s Hok) as [Hch Hoff]. destruct (input_queue s) as [|c q] eqn:Eq; [exec_cases H; done|].
    injection H as <- <-. apply with_input_ok; try apply Hok; try done.
    + rewrite Hch. cbn. by rewrite <- app_assoc.
    + cbn in Hoff. destruct c; cbn; rewrite ?app_nil_r, ?zlen_app; [by destruct Hoff | done].
    + etrans; [apply Hok|]. by apply prefix_app_r.
  - destruct (so_channel s Hok) as [Hch Hoff]. exec_cases H; by apply with_input_ok; try apply Hok.
  - destruct (so_channel s Hok) as [Hch Hoff]. exec_cases H; try done. apply with_input_ok; try apply Hok; try done.
    + rewrite Hg. apply prefix_app, prefix_take.
    + by apply prefix_app_r.
  - (* acknowledge *)
    destruct Hg as [Hgp Hg]. pose proof (so_flow s Hok s0) as (? & ? & ? & _). pose proof (shared_flow_ok s0 s Hok). pose proof (so_acked s Hok s0).
    stream_op H; [|by apply with_flags_ok; auto].
    match goal with E : acknowledge _ _ = Ok _ |- _ => apply acknowledge_spec in E as [? ->] end.
    unfold acked_of, sent_of, flow_ok in *. apply with_flow_ok; cbn; auto; unfold flow_ok, acked_of, sent_of; cbn; try lia.
  - pose proof (so_flow s Hok s0) as (? & ? & ? & _). pose proof (shared_flow_ok s0 s Hok). pose proof (so_acked s Hok s0).
    apply on_stream_Some in H as (x & H & ->). apply bind_Some in H as ([a1 f] & Hr & [= <- <-]).
    apply reserve_spec in Hr; [|done|done]. destruct Hr as [[-> _]|(len & _ & Hlen & Hmax & -> & Hf)];
      apply with_flow_ok; cbn; auto; unfold acked_of, sent_of in *; try lia; eauto using linked_acked.
  - stream_op H. pose proof (so_flow s Hok s0) as (? & ? & ? & _). pose proof (shared_flow_ok s0 s Hok). pose proof (so_acked s Hok s0).
    apply with_flow_ok; cbn; auto; unfold acked_of, sent_of in *; try lia; eauto using linked_acked.
  - stream_op H. apply with_flags_ok; auto.
  - stream_op H. apply with_flags_ok; auto.
  - stream_op H. apply with_flags_ok; auto.
  - destruct Hg as [Hact Hfin]. pose proof (so_flow s Hok s0) as (? & ? & ? & _). pose proof (shared_flow_ok s0 s Hok). pose proof (so_acked s Hok s0).
    exec_cases H; try done. apply with_stream_ok; cbn; unfold acked_of, sent_of in *; auto; try lia; try congruence.
    + intros p y E Hy. by eapply linked_acked.
    + by apply prefix_app_r.
  - destruct Hg as [Hfin (info & Hi & Hin & ->)]. assert (Hact : active s0 s) by (exists info; done).
    destruct (grant (output_total (control s)) requested (run_limit info)) as [n total] eqn:E.
    pose proof E as E'. unfold grant in E'. rewrite E' in H. injection H as <- <-.
    apply grant_spec in E as (Hmono & Hu' & Hn & Hexact & _); [|apply Hok|done].
    apply with_grant_ok; try done; [lia|]. intros info' l' Hi' Hl'. replace info' with info in * by congruence.
    destruct (so_total s Hok info l' Hi Hl') as [_ Hle]. destruct (so_started s Hok info Hi) as [Hlim _].
    destruct (Hlim l' Hl') as [Hhard _]. apply (Hexact l' Hl'); [lia|]. unfold OUTPUT_HARD_MAX_BYTES, u64_max in *. lia.
Qed.
