(* ===== verification/AgentRuntimeThreads.v ===== *)
(** * The threads of the runtime server keep the invariant

    Each thread's knowledge is stable under the others' operations and is kept along its
    own code; so the invariant holds in every reachable state. *)
From S2P Require Import Prelude Paths Protocol RuntimeMessages RuntimeMachine RuntimeSession AgentFs AgentCommand AgentRuntime AgentRuntimeInv AgentRuntimeRely.

(** ** Stability *)

Section Stability.
Context (info : run_info) (o : RuntimeOutputStream) (s s' : shared).

Lemma cut_stable : output_total (control s) <= output_total (control s') -> cut info s -> cut info s'.
Proof. intros Ht (l & Hl & Hle). exists l. split; [done | lia]. Qed.

Lemma output_knows_stable pc : keeps_output o s s' -> output_knows info o pc s -> output_knows info o pc s'.
Proof.
  intros [Hst Hp Hr Hg Hf Hs Hsto Hfo Htr Htot Hd].
  assert (Hcut : cut info s -> cut info s') by (by apply cut_stable).
  assert (Hck : cut_known info s -> cut_known info s') by (intros [? ?]; split; auto).
  assert (Howes : forall rest, owes info o rest s -> owes info o rest s').
  { intros rest [E|?]; [left; by rewrite Hr, Hp | right; auto]. }
  assert (Hgrant : forall rest, owes_granted info o rest s -> owes_granted info o rest s').
  { intros rest [Hle Hc]. split; [by rewrite Hp, Hg|]. rewrite Hr, Hp. destruct Hc as [?|[? ?]]; [by left | right; auto]. }
  assert (Hclean : clean o s -> clean o s').
  { intros [? Hc]. unfold clean. rewrite Hs, Hp, Hr. split; [done|]. destruct Hc; auto. }
  assert (Hleft : worker_left o s -> worker_left o s').
  { intros [?|[?|[?|?]]]; unfold worker_left; auto 6. }
  intros [Hfin Hk]. split; [by rewrite Hf|]. destruct pc; rewrite ?Hs, ?Hp, ?Hr, ?Hg; naive_solver.
Qed.

Lemma input_knows_stable pc : keeps_input s s' -> input_knows pc s -> input_knows pc s'.
Proof. intros [Hc Hp Hi]. destruct pc; cbn; rewrite ?Hc, ?Hp; naive_solver. Qed.

Lemma loop_knows_stable l : keeps_main s s' -> loop_knows l s -> loop_knows l s'.
Proof.
  intros [Hst Hr Hp Ha Hs Hpub Hc Hrun].
  assert (Hch : chained s -> chained s') by (intros [?|?]; [left; congruence | right; auto]).
  destruct l; cbn; auto; rewrite ?Hr, ?Hp, ?Ha; try done.
  - intros (H1 & H2 & H3). split; [auto|]. split; [pose proof (Hpub s0); lia|]. intros p' x' E Hx'.
    destruct (Hrun p' E) as (p & Ep & Hst'). destruct (Hst' _ _ Hx') as (x & Hx & <-). by eapply H3.
Qed.

Lemma main_knows_stable pc :
  keeps_main s s' -> (started s <> None \/ agent_phase s' = agent_phase s) -> main_knows pc s -> main_knows pc s'.
Proof.
  intros Hk Hor. pose proof Hk as [Hst Hr Hp _ _ _ _ _].
  assert (Hbefore : forall ph, started s = None /\ agent_phase s = ph /\ received s = [] /\ pushed s = [] ->
    started s' = None /\ agent_phase s' = ph /\ received s' = [] /\ pushed s' = []).
  { intros ph (Hn & Hph & ? & ?). destruct Hor as [?| ->]; [done|]. by rewrite Hst, Hr, Hp. }
  destruct pc; cbn; try (by auto); try (by intros [? ?]; split; auto).
  - intros (Hn & ? & ? & ? & Hex). destruct Hor as [?|E]; [done|]. by rewrite Hst, Hr, Hp, E.
  - intros [? ?]. rewrite Hst. split; [done|]. by apply loop_knows_stable.
Qed.

Lemma acked_sent_stable :
  keeps_waiter s s' -> shared_ok s' -> worker_finished (streams s o) = true \/ ~ active o s ->
  acked_of o s = sent_of o s -> acked_of o s' = sent_of o s'.
Proof.
  intros Hk Hok He Ha. destruct (kw_ended _ _ Hk o He) as (_ & _ & Hs). pose proof (kw_acked _ _ Hk o).
  pose proof (so_flow s' Hok o) as (? & _). lia.
Qed.
End Stability.

Section WaiterStability.
Context (info : run_info) (s s' : shared).
Hypothesis Hkeeps : keeps_waiter s s'.
Hypothesis Hok' : shared_ok s'.
Hypothesis Hstarted : started s = Some info.

Lemma finished_or_idle o : all_finished info s -> worker_finished (streams s o) = true \/ ~ active o s.
Proof.
  intros Hf. destruct (decide (o ∈ run_streams info)); [left; by apply Hf|]. right. intros (i & Hi & ?). congruence.
Qed.

Lemma all_finished_stable : all_finished info s -> all_finished info s'.
Proof. intros Hf o Ho. by apply (kw_finished _ _ Hkeeps), Hf. Qed.

Lemma undisturbed_stable : undisturbed s -> undisturbed s'.
Proof. intros Hu o. destruct (kw_flags _ _ Hkeeps o) as [-> ->]. apply Hu. Qed.

Lemma clean_stable o : worker_finished (streams s o) = true -> clean o s -> clean o s'.
Proof.
  intros Hf [? Hc]. destruct (kw_ended _ _ Hkeeps o (or_introl Hf)) as (Hp & Hr & Hs). unfold clean. rewrite Hp, Hr, Hs.
  split; [done|]. destruct Hc; [by left | right; by apply (kw_truncated _ _ Hkeeps)].
Qed.

Lemma drained_stable o : all_finished info s -> acked_of o s = sent_of o s -> acked_of o s' = sent_of o s'.
Proof. intros Hf. apply acked_sent_stable; [done|done|by apply finished_or_idle]. Qed.

Lemma reports_stable : reports info s -> reports info s'.
Proof.
  intros (Hf & Hd & Hc). split; [by apply all_finished_stable|]. split; [intros o; by apply drained_stable|].
  destruct Hc as [?|Hc]; [left; by apply (kw_closed _ _ Hkeeps)|]. right. intros o Ho.
  apply clean_stable; [by apply Hf | by apply Hc].
Qed.

Lemma may_report_stable out : may_report info out s -> may_report info out s'.
Proof.
  intros Hm E. destruct (Hm E) as [[Hf Hs] Hd]. split.
  - split; [by apply all_finished_stable|]. intros o Ho. destruct (Hs o Ho) as [[?|?]|?].
    + left. left. by apply (kw_closed _ _ Hkeeps).
    + left. right. by apply (kw_failed _ _ Hkeeps).
    + right. apply clean_stable; [by apply Hf | done].
  - destruct Hd as [?|Hd]; [left; by apply (kw_failed _ _ Hkeeps)|]. right. intros o. by apply drained_stable.
Qed.

Lemma waiter_knows_stable pc : waiter_knows info pc s -> waiter_knows info pc s'.
Proof.
  destruct pc; cbn; auto using undisturbed_stable, may_report_stable, reports_stable.
  - intros [? Hf]. split; [by apply undisturbed_stable|]. intros o Ho.
    destruct (Hf o Ho); [by left | right; by apply (kw_finished _ _ Hkeeps)].
  - intros [? Hf]. split; [by apply undisturbed_stable|]. intros o Ho.
    destruct (Hf o Ho); [by left | right; by apply (kw_finished _ _ Hkeeps)].
  - intros [? ?]. split; [by apply undisturbed_stable | by apply all_finished_stable].
  - intros (? & Hf & Hd). split; [by apply undisturbed_stable|]. split; [by apply all_finished_stable|].
    intros o. destruct (Hd o); [by left | right; by apply drained_stable].
  - intros (? & Hf & Hd). split; [by apply undisturbed_stable|]. split; [by apply all_finished_stable|].
    intros o. destruct (Hd o); [by left | right; by apply drained_stable].
  - destruct m; try done. intros (? & Hr & ->). split; [done|]. split; [by apply reports_stable|]. destruct Hr as (Hf & _).
    symmetry. by apply (kw_settled _ _ Hkeeps info).
Qed.
End WaiterStability.

(** ** A thread along its own code *)

(** An operation that thread [t] may perform now. *)
Record lawful {A} (t : thread) (o : op A) (s : shared) : Prop := {
  law_sane : op_sane o;
  law_guaranteed : guaranteed o s;
  law_owner : owner o = None \/ owner o = Some t;
  law_sender : match o with Send m => sender m = Server | _ => True end;
  law_truncate : match o with SetTruncated => t <> MainThread /\ t <> InputThread | _ => True end;
  law_launch : launches o -> t = MainThread }.

Definition code_ok {pc} (t : thread) (n : code pc) (knows : pc -> shared -> Prop) (s : shared) : Prop :=
  match n with
  | Do o k => lawful t o s /\ forall r a s', exec o r s = Some (a, s') -> knows (k a) s'
  | Halt => True
  end.

Lemma error_lawful t code text b s : lawful t (Send (error_frame code text b)) s.
Proof. split; cbn; auto; done. Qed.

(** What a send of this thread's own does. *)
Lemma exec_send m r s a s' :
  exec (Send m) r s = Some (a, s') -> exists srv, send m (server_ s) = (a, srv) /\ s' = with_server srv s.
Proof. cbn. unfold on_server. destruct (send m (server_ s)) as [a1 srv]. intros [= <- <-]. eauto. Qed.

Ltac code_case H := exec_cases H; cbn; repeat case_match; cbn; auto.

Lemma input_code_ok info pc s :
  shared_ok s -> started s = Some info -> input_knows pc s -> code_ok InputThread (input_code info pc) input_knows s.
Proof.
  intros Hok Hi Hk. destruct pc; cbn [input_code code_ok input_knows] in *; try done;
    (split; [try (split; cbn; auto; by destruct Hk) | intros r a s' H]).
  - code_case H.
  - destruct (so_channel s Hok) as [Hch Hoff]. cbn in H. destruct (input_queue s) as [|c q] eqn:Eq; [code_case H|].
    unfold exec_input in H. injection H as <- <-. destruct c as [data n|]; [|done]. cbn in Hoff. destruct Hoff as [-> _].
    unfold in_write. destruct data as [|b data]; cbn; rewrite ?app_nil_r, ?zlen_app, ?zlen_nil, Hk; auto using Z.add_0_r.
  - code_case H.
  - destruct Hk as [Hp Hn]. code_case H. apply andb_true_iff in Heqb as [Hb1%Z.leb_le Hb2%Z.leb_le].
    unfold in_write. destruct (drop (Z.to_nat count) rest) as [|b tl] eqn:Ed; cbn; rewrite Hp.
    + assert (E : take (Z.to_nat count) rest = rest) by (rewrite <- (take_drop (Z.to_nat count) rest) at 2; by rewrite Ed, app_nil_r).
      rewrite E. split; [done | congruence].
    + rewrite <- Ed, <- app_assoc, take_drop. split; [done | congruence].
  - code_case H.
  - code_case H.
  - code_case H. destruct Hk; [done | congruence].
  - destruct Hk as [Hc ->]. split; cbn; auto; [intros _; by rewrite Hc | done].
  - destruct Hk as [Hc _]. apply exec_send in H as (srv & H & ->). by destruct a.
  - done.
  - done.
  - done.
Qed.

(** *** An output worker *)

Section Output.
Context (info : run_info) (o : RuntimeOutputStream).

Lemma clean_of_owes s : sent_of o s = zlen (published o s) -> owes info o [] s -> clean o s.
Proof. intros He [E|[_ ?]]; (split; [done|]); [left; by rewrite app_nil_r in E | by right]. Qed.

Lemma clean_left s : clean o s -> worker_left o s.
Proof. intros. do 3 right. done. Qed.

(** A worker that stops early was told to, or has nothing left. *)
Lemma forced_left s : force_stop (streams s o) = true -> worker_left o s.
Proof. by left. Qed.

Lemma published_with_stream o' x s : published o (with_stream o' x s) = published o s.
Proof. done. Qed.

Lemma zlen_take n (b : bytes) : 0 <= n <= zlen b -> zlen (take (Z.to_nat n) b) = n.
Proof. intros. unfold zlen in *. rewrite length_take. lia. Qed.

Lemma output_publish_ok offset chunk rest s r a s' :
  shared_ok s -> started s = Some info -> o ∈ run_streams info ->
  output_knows info o (OutPublish offset chunk rest) s ->
  exec (Send (Output (run_process_id info) o offset chunk)) r s = Some (a, s') ->
  output_knows info o (match a with Ok _ => out_send rest | Err _ => OutKill end) s'.
Proof.
  intros Hok Hi Ho (Hfin & -> & Hsent & Hrc & Hrr & Hne & Hg & Hread) H.
  apply exec_send in H as (srv & H & ->). pose proof (so_flow s Hok o) as (_ & Hmax & _).
  apply (server_send_spec _ _ _ _ Hok) in H as [(e & -> & -> & Hx)|[Ht Ha]].
  { rewrite with_server_same. split; [done|]. left. left. destruct (closed_or_open (agent_phase s)) as [?|Hopen]; [done|].
    destruct (output_accepted info o (zlen (published o s)) chunk s) as [s1 ?]; try done; [lia|congruence]. }
  pose proof (took_trace _ _ _ _ Ht) as Htr.
  assert (Hp : published o (with_server srv s) = published o s ++ chunk).
  { rewrite (published_snoc _ _ _ _ _ Htr). cbn. rewrite bool_decide_eq_true_2 by done. cbn. by rewrite app_nil_r. }
  destruct a as [[]|e]; [|destruct Ha as [?|Hf]; [done|]; split; [done|]; left; by right].
  assert (Howes : owes_granted info o rest (with_server srv s)).
  { unfold owes_granted, read_of in *. rewrite Hp, zlen_app. rewrite zlen_app in Hg. split; [cbn; lia|].
    rewrite <- !app_assoc. by destruct Hread as [?|[? ?]]; [left | right]. }
  assert (Heven : sent_of o (with_server srv s) = zlen (published o (with_server srv s))).
  { rewrite Hp, zlen_app. unfold sent_of in *. cbn. lia. }
  unfold out_send. destruct rest as [|b rest]; (split; [done|]); split_and!; try done.
  destruct Howes as [_ [?|[? _]]]; [by left | by right].
Qed.

(** Own changes of the stream, seen through the accessors. *)
Lemma own_stream x s :
  sent_of o (with_stream o x s) = flow_sent (flow x) /\ read_of o (with_stream o x s) = bytes_read x /\
  stopped_of o (with_stream o x s) = flow_stopped (flow x).
Proof. unfold sent_of, read_of, stopped_of. by rewrite with_stream_eq. Qed.

Lemma output_read_ok buffer s r a s' :
  shared_ok s -> output_knows info o (OutCall buffer) s ->
  exec (ReadOutput o (RUNTIME_MAX_DATA_CHUNK_LEN - zlen buffer)) r s = Some (a, s') ->
  output_knows info o
    (match a with
     | ReadData [] => out_got buffer OutEnd
     | ReadData data =>
         if zlen (buffer ++ data) =? RUNTIME_MAX_DATA_CHUNK_LEN then OutGot (buffer ++ data) else OutRead (buffer ++ data)
     | ReadWouldBlock => out_got buffer OutBlocked
     | ReadInterrupted => OutInterrupted buffer
     | ReadFailed text => out_got buffer (OutReadFailed text)
     end) s'.
Proof.
  intros Hok (Hfin & He & Ho & Hlt) H.
  assert (Hgot : forall pc s1, output_knows info o (OutCall buffer) s1 -> (owes info o [] s1 -> output_knows info o pc s1) ->
    output_knows info o (out_got buffer pc) s1).
  { intros pc s1 (? & ? & ? & ?) Hpc. unfold out_got. destruct buffer; [by apply Hpc|].
    split; [done|]. split_and!; try done. unfold room. lia. }
  cbn in H. destruct r; try done. destruct r as [data| | |text]; try (injection H as <- <-).
  - destruct (Z.leb_spec (zlen data) (RUNTIME_MAX_DATA_CHUNK_LEN - zlen buffer)) as [Hd|]; [|done].
    injection H as <- <-.
    set (s1 := with_stream _ _ s). assert (Hown : owes info o (buffer ++ data) s1).
    { destruct Ho as [E|?]; [left|by right]. unfold read_of, s1. rewrite with_stream_eq. cbn. unfold read_of in E.
      by rewrite E, <- app_assoc. }
    assert (He1 : sent_of o s1 = zlen (published o s1)) by (unfold s1, sent_of; by rewrite with_stream_eq).
    assert (Hf1 : worker_finished (streams s1 o) = false) by (unfold s1; by rewrite with_stream_eq).
    destruct data as [|b data].
    + rewrite app_nil_r in Hown. apply Hgot; [done|]. intros Hnil. split; [done|]. by apply clean_left, clean_of_owes.
    + rewrite zlen_app. destruct (Z.eqb_spec (zlen buffer + zlen (b :: data)) RUNTIME_MAX_DATA_CHUNK_LEN);
        (split; [done|]); split_and!; try done; unfold room; rewrite ?zlen_app; try lia. by destruct buffer.
  - apply Hgot; [done|]. done.
  - done.
  - apply Hgot; [done|]. done.
Qed.

Lemma prefix_take_app (l b : bytes) n : l ++ take n b `prefix_of` l ++ b.
Proof. apply prefix_app, prefix_take. Qed.

Lemma output_account_ok buffer s r a s' :
  shared_ok s -> started s = Some info -> o ∈ run_streams info -> output_knows info o (OutAccount buffer) s ->
  exec (ReserveTotal o (zlen buffer) (run_limit info)) r s = Some (a, s') ->
  output_knows info o
    (let todo := take (Z.to_nat a) buffer in
     if a <? zlen buffer then OutTruncate todo else match todo with [] => OutEnd | _ => OutSend todo end) s'.
Proof.
  intros Hok Hi Hin (Hfin & He & Ho & Hroom & Hne) H. cbn in H.
  destruct (grant (output_total (control s)) (zlen buffer) (run_limit info)) as [n total] eqn:E.
  pose proof E as E'. unfold grant in E'. rewrite E' in H. injection H as <- <-.
  apply grant_spec in E as (Hmono & Hu & Hn & _ & Hcut); [|apply Hok|apply zlen_nonneg].
  set (s1 := with_stream _ _ _). cbv zeta.
  assert (Hf1 : worker_finished (streams s1 o) = false) by (unfold s1; by rewrite with_stream_eq).
  assert (He1 : sent_of o s1 = zlen (published o s1)) by (unfold s1, sent_of; by rewrite with_stream_eq).
  assert (Hr1 : read_of o s1 = read_of o s) by (unfold s1, read_of; by rewrite with_stream_eq).
  assert (Hg1 : granted (streams s1 o) = granted (streams s o) + n) by (unfold s1; by rewrite with_stream_eq).
  change (published o s1) with (published o s) in *. pose proof (so_granted s Hok o) as Hgr.
  assert (Hlen : zlen (take (Z.to_nat n) buffer) = n) by (by apply zlen_take).
  assert (Htaken : room (take (Z.to_nat n) buffer)) by (unfold room in *; lia).
  assert (Hck : cut_known info s -> cut_known info s1).
  { intros [Hc ?]. split; [|done]. by eapply cut_stable. }
  destruct (Z.ltb_spec n (zlen buffer)) as [Hlt|Hge].
  - destruct (Hcut Hlt) as (l & Hl & Hle). destruct (so_started s Hok info Hi) as [Hlim _].
    destruct (Hlim l Hl) as [Hhard _].
    assert (Hc : cut info s1) by (exists l; split; [done|]; apply Hle; unfold OUTPUT_HARD_MAX_BYTES, u64_max in *; lia).
    split; [done|]. rewrite Hr1, Hg1. change (published o s1) with (published o s). split_and!; try done; [lia|].
    destruct Ho as [E|[(l' & Hl' & Hle') _]]; [rewrite E; apply prefix_take_app|].
    (* after a cut nothing is granted *)
    assert (n = 0) as ->.
    { replace l' with l in * by congruence. pose proof E' as E2. rewrite Hl in E2. unfold reserve_output, saturating_sub in E2.
      injection E2 as <- _. lia. }
    cbn. rewrite app_nil_r. apply Hok.
  - replace (take (Z.to_nat n) buffer) with buffer in * by (rewrite take_ge; [done|]; unfold zlen in *; lia).
    destruct buffer as [|b buffer]; [done|]. split; [done|]. split_and!; try done.
    split; [rewrite Hg1; change (published o s1) with (published o s); lia|]. rewrite Hr1. change (published o s1) with (published o s).
    destruct Ho as [?|[(l & Hl & Hle) Htr]]; [by left|]. exfalso.
    rewrite Hl in E'. unfold reserve_output, saturating_sub in E'. injection E' as E1 _.
    rewrite zlen_cons in *. pose proof (zlen_nonneg buffer). lia.
Qed.

Lemma output_reserve_ok todo s r a s' :
  shared_ok s -> output_knows info o (OutReserve todo) s -> exec (ReserveFlow o (zlen todo)) r s = Some (a, s') ->
  output_knows info o
    (match a with
     | Ok (Some (offset, length)) => OutPublish offset (take (Z.to_nat length) todo) (drop (Z.to_nat length) todo)
     | Ok None => OutEnd
     | Err e => OutFail (flow_text e)
     end) s'.
Proof.
  intros Hok (Hfin & He & Hroom & Hne & Hg & Hread) H. cbn [exec] in H. pose proof (shared_flow_ok o s Hok) as Hflow.
  apply on_stream_Some in H as (x & H & ->). apply bind_Some in H as ([a1 f] & Hr & [= <- <-]).
  assert (Hpos : 0 < zlen todo) by (destruct todo; [done|]; rewrite zlen_cons; pose proof (zlen_nonneg todo); lia).
  set (s1 := with_stream _ _ s). change (published o s) with (published o s1) in *.
  assert (Hf1 : worker_finished (streams s1 o) = false) by (unfold s1; by rewrite with_stream_eq).
  assert (Hr1 : read_of o s1 = read_of o s) by (unfold s1, read_of; by rewrite with_stream_eq).
  assert (Hg1 : granted (streams s1 o) = granted (streams s o)) by (unfold s1; by rewrite with_stream_eq).
  apply reserve_spec in Hr as [[-> Ha]|(len & -> & Hlen & Hmax & -> & _)]; [..|done|done].
  - destruct Ha as [[-> Hst]|[e ->]]; (split; [done|]).
    + right. left. unfold s1, stopped_of. by rewrite with_stream_eq.
    + right. right. split; [apply contains_byte_false|]; by destruct e.
  - split; [done|]. assert (Ht : zlen (take (Z.to_nat len) todo) = len) by (apply zlen_take; lia).
    unfold room in *. split_and!.
    + done.
    + unfold s1, sent_of in *. rewrite with_stream_eq. cbn. lia.
    + lia.
    + unfold zlen in *. rewrite length_drop. lia.
    + intros E. rewrite E in Ht. rewrite zlen_nil in Ht. lia.
    + rewrite take_drop. unfold owes_granted. rewrite Hg1, Hr1. split; [done|]. destruct Hread as [?|[? ?]]; [by left | by right].
Qed.
End Output.

(** A change of control flags that keeps the total and never takes truncation back. *)
Lemma output_knows_control info o pc c s :
  output_total c = output_total (control s) -> (output_truncated (control s) = true -> output_truncated c = true) ->
  output_knows info o pc s -> output_knows info o pc (with_control c s).
Proof. intros Ht Htr. apply output_knows_stable. split; try done. cbn. lia. Qed.

Lemma output_code_ok info o pc s :
  shared_ok s -> started s = Some info -> o ∈ run_streams info -> output_knows info o pc s ->
  code_ok (OutputThread o) (output_code info o pc) (output_knows info o) s.
Proof.
  intros Hok Hi Hin Hk. assert (Hact : active o s) by (exists info; done).
  assert (Hlawful : forall A (op_ : op A), op_sane op_ -> guaranteed op_ s -> owner op_ = None \/ owner op_ = Some (OutputThread o) ->
    match op_ with Send m => sender m = Server | _ => True end -> ~ launches op_ -> lawful (OutputThread o) op_ s)
    by (intros A op_ ? ? ? ? Hl; split; auto; [by destruct op_ | intros Hl'; by destruct Hl]).
  pose proof Hk as [Hfin Hkn].
  destruct pc; cbn [output_code code_ok output_knows] in *; try done;
    (split; [try (by apply Hlawful; cbn; auto) | intros r a s' H]).
  - (* OutFirst *) code_case H; split; auto. by apply forced_left.
  - code_case H; split; auto. right. left. by destruct Hkn; apply (clean_of_owes info).
  - code_case H; split; auto. by apply forced_left.
  - exec_cases H. destruct Hkn as [He Ho]. split; [by rewrite with_stream_eq|].
    split; [|split; [|done]]; unfold sent_of, owes, read_of in *; rewrite ?with_stream_eq; done.
  - code_case H; split; auto. by apply forced_left.
  - by eapply output_read_ok.
  - code_case H; split; auto; [destruct Hkn; by apply clean_left, (clean_of_owes info)|]. destruct Hkn. split_and!; done.
  - code_case H; split; auto. by apply forced_left.
  - code_case H; split; auto; [by apply forced_left|]. right. left. by destruct Hkn; apply (clean_of_owes info).
  - code_case H; split; auto. by apply forced_left.
  - exec_cases H. destruct Hkn as (He & Ho & Hr & Hne). split; [by rewrite with_stream_eq|].
    split_and!; try done; unfold sent_of, owes, read_of in *; rewrite ?with_stream_eq; done.
  - apply Hlawful; cbn; auto; [apply zlen_nonneg|]. split; [done|]. by exists info.
  - by eapply output_account_ok.
  - exec_cases H. destruct Hkn as (He & Hr & Hc & Hg & Hp). split; [done|].
    set (s1 := with_control _ s).
    assert (Hck : cut_known info s1) by (split; [|done]; by eapply cut_stable; [|done]).
    split_and!; try done. split; [done|]. by right.
  - exec_cases H. by apply (output_knows_control info o (OutKillLimit todo)).
  - exec_cases H. destruct Hkn as (He & Hr & Hck & Hg).
    match goal with |- output_knows _ _ _ ?s1 => assert (Hk1 : output_knows info o (OutKillLimit todo) s1) by
      (by apply output_knows_control) end.
    destruct Hk1 as (? & He1 & ? & [? ?] & ?). destruct todo; (split; [done|]); [|by split_and!].
    apply clean_left. split; [done | by right].
  - code_case H; split; auto. by apply forced_left.
  - destruct Hkn as (He & Hr & Hne & Hg). apply Hlawful; cbn; auto.
    destruct todo; [done|]. rewrite zlen_cons. pose proof (zlen_nonneg todo). lia.
  - by eapply output_reserve_ok.
  - destruct Hkn as (-> & Hs & Hrc & Hrr & Hne & Hg & Hp). apply Hlawful; cbn; auto. intros _. split_and!; try done.
    + destruct Hp as [->|[_ Hp]]; [apply prefix_app; by apply prefix_app_r|].
      etrans; [|exact Hp]. apply prefix_app. by apply prefix_app_r.
    + lia.
    + rewrite zlen_app in Hg. pose proof (zlen_nonneg rest). lia.
  - by eapply output_publish_ok.
  - apply exec_send in H as (srv & H & ->). split.
    { rewrite <- Hfin. done. }
    destruct Hkn as [Hd|[Hc|Hv]].
    + left. apply (send_keeps _ _ _ _ Hok) in H as (H1 & H2 & _). destruct Hd; [left; by apply H1 | right; by apply H2].
    + right. apply (send_keeps _ _ _ _ Hok) in H as (_ & _ & H3 & _). unfold clean. by rewrite H3.
    + left. eapply error_sent; [done| |exact H]. by apply error_frame_valid.
  - exec_cases H. split; [done|]. destruct Hkn as [?|?]; [right; right; left; done|]. by apply clean_left.
  - exec_cases H. split; [by rewrite with_stream_eq|]. unfold worker_left, clean, stopped_of, sent_of, read_of in *.
    by rewrite with_stream_eq.
Qed.

(** *** The waiter *)

(** A change of the waiter's own flags leaves what it may report. *)
Record same_account (s s' : shared) : Prop := {
  sa_server : server_ s' = server_ s;
  sa_streams : forall o, read_of o s' = read_of o s /\ sent_of o s' = sent_of o s /\ acked_of o s' = acked_of o s /\
    worker_finished (streams s' o) = worker_finished (streams s o);
  sa_truncated : output_truncated (control s') = output_truncated (control s) }.

Lemma same_clean s s' o : same_account s s' -> clean o s -> clean o s'.
Proof.
  intros [Hsrv Hst Htr] [He Hc]. destruct (Hst o) as (Hr & Hs & _). unfold clean, published, messages in *.
  rewrite Hsrv, Hr, Hs, Htr. done.
Qed.
Lemma same_dead s s' : same_account s s' -> dead s -> dead s'.
Proof. intros [Hsrv _ _]. unfold dead, agent_phase, failed. by rewrite Hsrv. Qed.
Lemma same_finished info s s' : same_account s s' -> all_finished info s -> all_finished info s'.
Proof. intros [_ Hst _] Hf o Ho. destruct (Hst o) as (_ & _ & _ & ->). by apply Hf. Qed.
Lemma same_may_report info out s s' : same_account s s' -> may_report info out s -> may_report info out s'.
Proof.
  intros Hs Hm E. destruct (Hm E) as [[Hf Hc] Hd]. split.
  - split; [by eapply same_finished|]. intros o Ho. destruct (Hc o Ho); [left; by eapply same_dead | right; by eapply same_clean].
  - destruct Hs as [Hsrv Hst _]. destruct Hd as [?|Hd]; [left; unfold failed; by rewrite Hsrv|]. right. intros o.
    destruct (Hst o) as (_ & -> & -> & _). apply Hd.
Qed.

Lemma stop_flow_same o s : same_account s (with_stream o (with_flow (stop_flow (flow (streams s o))) (streams s o)) s).
Proof. split; try done. intros o'. unfold read_of, sent_of, acked_of. cbn. case_decide; by subst. Qed.
Lemma force_stop_same o s :
  same_account s (with_stream o (with_flags (worker_phase_of (streams s o)) true (worker_finished (streams s o)) (streams s o)) s).
Proof. split; try done. intros o'. unfold read_of, sent_of, acked_of. cbn. case_decide; by subst. Qed.
Lemma control_same c s : output_truncated c = output_truncated (control s) -> same_account s (with_control c s).
Proof. by split. Qed.

Lemma settled_of_finished info s : shared_ok s -> undisturbed s -> all_finished info s -> settled info s.
Proof.
  intros Hok Hu Hf. split; [done|]. intros o Ho. destruct (Hu o) as [Hu1 Hu2].
  destruct (so_finished s Hok o (Hf o Ho)) as [?|[?|[?|?]]]; try congruence; auto.
Qed.

(** The heads of the waiter's loops. *)
Lemma wa_wait_knows info r ws s :
  undisturbed s -> (forall o, o ∈ run_streams info -> o ∈ ws \/ worker_finished (streams s o) = true) ->
  waiter_knows info (wa_wait r ws) s.
Proof.
  intros Hu Hf. unfold wa_wait. destruct ws; cbn; [|done]. split; [done|]. intros o Ho. destruct (Hf o Ho); [set_solver|done].
Qed.
Lemma wa_drain_knows info r fs s :
  shared_ok s -> undisturbed s -> all_finished info s -> (forall o, o ∈ fs \/ acked_of o s = sent_of o s) ->
  waiter_knows info (wa_drain r fs) s.
Proof.
  intros Hok Hu Hf Hd. unfold wa_drain. destruct fs; cbn; [|done]. intros _. split; [by apply settled_of_finished|].
  right. intros o. destruct (Hd o); [set_solver | done].
Qed.
Lemma wa_join_knows info r out b ws s : may_report info out s -> waiter_knows info (wa_join r out b ws) s.
Proof. intros Hm. by destruct ws. Qed.
Lemma wa_scan_knows info r ws s : waiter_knows info (wa_scan r ws) s.
Proof. by destruct ws. Qed.

Lemma drained_true f : drained f = Some true -> flow_acknowledged f = flow_sent f.
Proof.
  unfold drained. destruct (negb (flow_stopped f)); cbn; [|by intros [=]]. destruct (Z.eqb_spec (flow_acknowledged f) (flow_sent f)); [done|].
  by intros [=].
Qed.

Lemma all_flows_in o : o ∈ all_flows.
Proof. destruct o; unfold all_flows; set_solver. Qed.

Lemma waiter_code_ok info pc s :
  shared_ok s -> started s = Some info -> waiter_knows info pc s ->
  code_ok WaiterThread (waiter_code info pc) (waiter_knows info) s.
Proof.
  intros Hok Hi Hk.
  destruct pc; cbn [waiter_code code_ok waiter_knows] in *; try done.
  all: try match goal with |- context [match ?l with [] => Halt | _ => _ end] => destruct l as [|w ws]; [done|] end.
  all: cbn [code_ok]; (split; [try (by split; cbn; auto) | intros r1 a s' H]).
  all: try (by code_case H).
  - exec_cases H. apply wa_wait_knows; [done | auto].
  - exec_cases H. destruct Hk as [Hu Hf]. destruct (worker_finished (streams s' w)) eqn:Ef; [|done].
    apply wa_wait_knows; [done|]. intros o Ho. destruct (Hf o Ho) as [[->|?]%elem_of_cons|?]; auto.
  - exec_cases H. case_match; [apply wa_scan_knows | done].
  - exec_cases H. destruct (worker_finished (streams s' w)); [apply wa_scan_knows | done].
  - exec_cases H. destruct (worker_phase_of (streams s' s0)); [done | apply wa_scan_knows].
  - exec_cases H. destruct ws; [|done]. cbn. by destruct reader.
  - exec_cases H. destruct Hk as [Hu Hf]. unfold has_failed. case_bool_decide as Hfail.
    + intros _. split; [by apply settled_of_finished | by left].
    + apply wa_drain_knows; try done. intros o. left. apply all_flows_in.
  - exec_cases H. destruct Hk as (Hu & Hf & Hd). destruct (drained (flow (streams s' w))) as [[]|] eqn:Ed; try done.
    apply wa_drain_knows; try done. intros o. destruct (Hd o) as [[->|?]%elem_of_cons|?]; auto. right. by apply drained_true.
  - exec_cases H. pose proof (same_may_report info o _ _ (stop_flow_same w s) Hk) as Hm. destruct ws; [|done].
    destruct (run_streams info); [by apply wa_join_knows | done].
  - exec_cases H. destruct (worker_finished (streams s' w)); [|done]. destruct ws; [|done].
    destruct requested; [done | by apply wa_join_knows].
  - exec_cases H. pose proof (same_may_report info o _ _ (force_stop_same s0 s) Hk). by destruct workers.
  - exec_cases H. destruct (worker_finished (streams s' w)); [|done]. destruct ws; [by apply wa_join_knows | done].
  - exec_cases H. case_match; [by apply wa_join_knows | done].
  - exec_cases H. by apply wa_join_knows.
  - exec_cases H. unfold has_failed. case_bool_decide as Hfail; [done|]. destruct o as [rd ak]. cbn.
    destruct (rd || abandoned) eqn:Eo; [done|]. destruct ak; [done|]. destruct r as [status|text]; [|done].
    apply orb_false_iff in Eo as [-> _]. destruct (Hk eq_refl) as [[Hf Hc] Hd]. cbn. destruct Hd as [?|Hd]; [done|].
    split; [done|]. split; [done|]. destruct (closed_or_open (agent_phase s')) as [?|Hopen]; [by left|]. right.
    intros o Ho. destruct (Hc o Ho) as [[?|?]|?]; done.
  - split; cbn; auto; try done; destruct m; try done; cbn; try (by left); try (by right).
    intros Hopen o. destruct Hk as (_ & (Hf & Hd & Hc) & ->). destruct Hc as [?|Hc]; [done|].
    destruct (decide (o ∈ run_streams info)) as [Ho|Ho].
    + destruct (Hc o Ho) as [He Hr]. split; [auto|]. split; [done|]. split; [done|]. intros E.
      destruct Hr; [done | congruence].
    + assert (Hna : ~ active o s) by (intros (i & ? & ?); congruence).
      destruct (so_idle s Hok o Hna) as (Hr & _). destruct (idle_published o s Hok Hna) as (Hp & Hs & _).
      rewrite Hr, Hp, (Hd o), Hs. done.
Qed.

(** *** The main thread *)

Section Main.
Context `{ErrorTexts} `{CwdHost} (root : bytes).

Lemma exec_observe m r s a s' :
  exec (ObserveInbound m) r s = Some (a, s') ->
  exists srv, server_observe_inbound m (server_ s) = (a, srv) /\ s' = with_server srv s.
Proof. cbn. unfold on_server. destruct (server_observe_inbound m (server_ s)) as [a1 srv]. intros [= <- <-]. eauto. Qed.

Lemma received_other d m s srv :
  trace srv = trace (server_ s) ++ [(d, m)] -> (forall id off data, m <> Input id off data) ->
  received (with_server srv s) = received s.
Proof.
  intros Ht Hm. rewrite (received_snoc _ _ _ _ Ht). destruct m; try apply app_nil_r. by destruct (Hm process_id offset data).
Qed.

(** An accepted message of the client to a running process, and what the loop knows then. *)
Lemma handle_message_knows info m s srv :
  shared_ok s -> started s = Some info -> chained s -> took Inbound m (server_ s) srv -> sender m = Client ->
  loop_knows (handle_message info m) (with_server srv s).
Proof.
  intros Hok Hi Hch Ht Hm. pose proof (took_step _ _ _ _ Ht) as Hst. pose proof (took_trace _ _ _ _ Ht) as Htr.
  change (phase (machine (server_ s))) with (agent_phase s) in Hst.
  assert (Hopen : agent_phase s <> Closed) by (by eapply phase_step_open).
  destruct Hch as [Hch|?]; [|done]. destruct (so_started s Hok info Hi) as [_ [?|(p & E & Hid & Hp)]]; [done|].
  pose proof (so_linked s Hok p E) as Hl. rewrite E in Hst.
  inversion Hst as [| | | | | | | | |? ? p' Hc Ep Em Ep'|? ? p' Hc|? ? ? Hc|? Hpty [x Hx]| | | | | | | | | |]; subst; try done.
  - assert (Hrec : (forall id off data, m <> Input id off data) -> chained (with_server srv s)).
    { intros Hn. left. rewrite (received_other _ _ _ _ Htr Hn). done. }
    destruct Hc as [data Hcl Hmax|Hcl|o x n Hgp Hx Hn|size Hpt|signal]; cbn [handle_message].
    + cbn. rewrite (received_snoc _ _ _ _ Htr). cbn. rewrite app_nil_r, Hch, zlen_app. split; [done|].
      by rewrite (link_input _ _ Hl), Hch.
    + cbn. rewrite (received_other _ _ _ _ Htr), Hch by done. by rewrite app_nil_r.
    + destruct (link_streams _ _ Hl o x Hx) as [Hnext Hack]. pose proof (so_flow s Hok o) as (_ & _ & _ & Hle).
      split; [by apply Hrec|]. split; [rewrite (published_other _ _ _ _ _ Htr) by done; unfold acked_of in *; cbn; lia|].
      intros p1 y Ep1 Hy.
      unfold agent_phase in Ep1. cbn in Ep1. rewrite <- Ep' in Ep1. injection Ep1 as <-. apply stream_of_Ok in Hy. cbn in Hy.
      destruct o; destruct Hy as [_ ->]; cbn; lia.
    + destruct (pty_size size) as [sz|e]; [|by eexists]. destruct (check_resize info sz); [by apply Hrec | by eexists].
    + by apply Hrec.
  - by destruct Hc.
  - by destruct Hc.
  - rewrite (link_session _ _ Hl) in Hx. done.
Qed.

Lemma loop_code_ok info l s :
  shared_ok s -> started s = Some info -> loop_knows l s -> code_ok MainThread (loop_code info l) main_knows s.
Proof.
  intros Hok Hi Hk. destruct l; cbn [loop_code code_ok loop_knows] in *; try done;
    (split; [try (by split; cbn; auto) | intros r a s' H1]).
  all: try (by code_case H1).
  all: try (by code_case H1; try done; split; [done|]; cbn; first [done | by eexists]).
  - apply exec_observe in H1 as (srv & H1 & ->).
    apply (observe_inbound_spec _ _ _ _ Hok) in H1 as [(e & -> & ->)|(Ht & -> & Hm)].
    + rewrite with_server_same. done.
    + split; [done|]. by apply handle_message_knows.
  - destruct Hk as [Hrec Hn]. exec_cases H1; (split; [done|]); cbn; try (by eexists). left. done.
  - destruct Hk as (Hch & Hn & Hlink). split; cbn; auto. by destruct Hn.
  - destruct Hk as (Hch & _). cbn [exec] in H1. apply on_stream_Some in H1 as (x & _ & ->). destruct a; [by split | done].
  - destruct Hk as [e ->]. by split; cbn; auto.
  - destruct Hk as [e ->]. apply exec_send in H1 as (srv & H1 & ->). split; [done|]. cbn. intros Hr _.
    apply (server_send_spec _ _ _ _ Hok) in H1 as [(e' & -> & _)|[Ht _]]; [done|]. by apply error_closes in Ht.
  - exec_cases H1. destruct sent; [|done]. destruct last0; [done|]. split; [done|]. right. by apply Hk.
Qed.

(** Before the process is started. *)
Lemma exec_read_frame r s a s' :
  exec ReadFrame r s = Some (a, s') ->
  exists i open, s' = with_stdin i open (frames s) (reader_gone s) s.
Proof.
  cbn. unfold take_frame. intros E.
  assert (Hsame : s = with_stdin (stdin s) (stdin_open s) (frames s) (reader_gone s) s) by (by destruct s).
  destruct r; repeat case_match; simplify_eq; eauto.
Qed.

Lemma hello_observed c v n s srv :
  shared_ok s -> agent_phase s = AwaitClientHello -> took Inbound (ClientHello v n c) (server_ s) srv ->
  phase (machine srv) = AwaitServerHello c /\ supports_runtime runtime_capabilities c = true.
Proof.
  intros Hok E Ht. pose proof (took_step _ _ _ _ Ht) as Hst. unfold agent_phase in E. rewrite E in Hst. by inversion Hst.
Qed.

Lemma start_observed c m s srv :
  agent_phase s = Ready c -> took Inbound m (server_ s) srv -> is_persistent_start m = false -> sender m = Client ->
  (forall id off data, m <> Input id off data) /\
  forall id spec, m = StartProcess id spec ->
    persistence spec = Attached /\ phase (machine srv) = AwaitProcessStarted c id Attached /\ c <> WorkspaceWatchV1.
Proof.
  intros E Ht Hp Hs. pose proof (took_step _ _ _ _ Ht) as Hst. unfold agent_phase in E. rewrite E in Hst.
  split; [intros id off data ->; by inversion Hst|]. intros id spec ->. cbn in Hp.
  inversion Hst as [| | |c' id' spec' Hall| | | | | | | | | | | | | | | | | | |]; subst.
  destruct (persistence spec) eqn:Ep; [|done]. split; [done|]. split; [done|]. intros ->. done.
Qed.

Lemma started_sent c request pid s srv d :
  agent_phase s = AwaitProcessStarted c request Attached -> took d (ProcessStarted request pid None 0) (server_ s) srv ->
  exists p, phase (machine srv) = Running p /\ process_id p = pid /\ pty p = bool_decide (c = ProcessPtyV1).
Proof.
  intros E Ht. pose proof (took_step _ _ _ _ Ht) as Hst. unfold agent_phase in E. rewrite E in Hst.
  inversion Hst; subst; eexists; (split; [done|]); by split.
Qed.

Lemma output_limit_ok c spec pid timeout :
  limit_ok {| run_process_id := pid; run_pty := bool_decide (c = ProcessPtyV1); run_limit := output_limit c spec;
              run_timeout := timeout |}.
Proof. intros l. cbn. destruct c; cbn; try done. intros [= <-]. split; [lia | done]. Qed.

Lemma main_code_ok pc s :
  shared_ok s -> main_knows pc s -> code_ok MainThread (main_code root pc) main_knows s.
Proof.
  intros Hok Hk. destruct pc; try (by apply loop_code_ok; destruct Hk); cbn [main_code code_ok main_knows] in *; try done;
    (split; [try (by split; cbn; auto) | intros r a s' H1]).
  all: try (by code_case H1).
  - apply exec_read_frame in H1 as (i & open_ & ->). destruct a as [m|]; [|done].
    destruct m; try (by eexists). split; [done|]. by eexists _, _.
  - destruct Hk as [(Hn & Hph & Hr & Hp) (v & n & ->)]. apply exec_observe in H1 as (srv & H1 & ->).
    apply (observe_inbound_spec _ _ _ _ Hok) in H1 as [(e & -> & ->)|(Ht & -> & Hm)]; [by eexists|].
    cbn. rewrite (received_other _ _ _ _ (took_trace _ _ _ _ Ht)) by done. destruct (hello_observed _ _ _ _ _ Hok Hph Ht). done.
  - destruct Hk as [(Hn & Hph & Hr & Hp) _]. apply exec_send in H1 as (srv & H1 & ->). destruct a as [[]|e]; [|done].
    apply (server_send_spec _ _ _ _ Hok) in H1 as [(e' & ? & _)|[Ht _]]; [done|]. pose proof (took_step _ _ _ _ Ht) as Hst.
    unfold agent_phase in Hph. rewrite Hph in Hst. cbn. rewrite (received_other _ _ _ _ (took_trace _ _ _ _ Ht)) by done.
    split_and!; try done. by inversion Hst.
  - apply exec_read_frame in H1 as (i & open_ & ->). destruct a as [m|]; [|done].
    destruct (is_persistent_start m) eqn:Ep; [destruct (validate m); by eexists | done].
  - destruct Hk as [(Hn & Hph & Hr & Hp) Hns]. apply exec_observe in H1 as (srv & H1 & ->).
    apply (observe_inbound_spec _ _ _ _ Hok) in H1 as [(e & -> & ->)|(Ht & -> & Hm)]; [by eexists|].
    destruct (start_observed _ _ _ _ Hph Ht Hns Hm) as [Hni Hstart]. destruct m; try (by eexists).
    destruct (Hstart _ _ eq_refl) as (Hatt & Hph' & Hc). rewrite Hatt. destruct (build_command root spec); [|by eexists].
    cbn. rewrite (received_other _ _ _ _ (took_trace _ _ _ _ Ht)) by done. done.
  - exec_cases H1. case_match; [done | by eexists].
  - destruct Hk as [(Hn & Hph & Hr & Hp) Hc]. split; cbn; auto.
  - destruct Hk as [(Hn & Hph & Hr & Hp) Hc]. apply exec_send in H1 as (srv & H1 & ->). destruct a as [[]|e]; [|done].
    apply (server_send_spec _ _ _ _ Hok) in H1 as [(e' & ? & _)|[Ht _]]; [done|].
    destruct (started_sent _ _ _ _ _ _ Hph Ht) as (p & Ep & Hpid & Hpty).
    cbn. rewrite (received_other _ _ _ _ (took_trace _ _ _ _ Ht)) by done. split_and!; try done; [apply output_limit_ok|].
    exists p. by split.
  - destruct Hk as (Hn & Hr & Hp & Hlim & Hrun). by split; cbn; auto.
  - destruct Hk as (Hn & Hr & Hp & Hlim & Hrun). exec_cases H1. split; [done|]. left. transitivity (@nil byte); [exact Hr | by rewrite <- Hp].
  - destruct Hk as [e ->]. by split; cbn; auto.
Qed.
End Main.

(** ** Every step keeps the invariant *)

Definition others_keep (t : thread) (s s' : shared) : Prop :=
  (forall o, t <> OutputThread o -> keeps_output o s s') /\
  (t <> InputThread -> keeps_input s s') /\
  (t <> MainThread -> keeps_main s s') /\
  (t <> WaiterThread -> keeps_waiter s s').

Lemma resume_ok {pc} (t : thread) (n : code pc) knows r s pc' s' :
  shared_ok s -> code_ok t n knows s -> (forall o, t = OutputThread o -> worker_finished (streams s o) = false /\ active o s) ->
  resume n r s = Some (pc', s') ->
  shared_ok s' /\ knows pc' s' /\
  (others_keep t s s' \/ (t = MainThread /\ started s = None /\ exists info, s' = with_started (Some info) (waiter_gone s) s)).
Proof.
  intros Hok Hc Hout H. destruct n as [A op_ k|]; [|done]. cbn in Hc, H. destruct Hc as [[Hsane Hg Hown Hsend Htr Hl] Hk].
  destruct (exec op_ r s) as [[a s1]|] eqn:E; [|done]. injection H as <- <-.
  split; [by eapply exec_ok|]. split; [by eapply Hk|].
  destruct (decide (match op_ with Launch _ => true | _ => false end = true)) as [Hla|Hnl].
  - right. destruct op_; try done. split; [by apply Hl|]. destruct Hg as [? _]. injection E as <- <-. eauto.
  - left. assert (Hla : ~ launches op_) by (clear -Hnl; intros Hx; destruct op_; try done; by apply Hnl). split_and!.
    + intros o Ht. eapply exec_keeps_output; eauto. intros E'. destruct Hown; congruence.
    + intros Ht. eapply exec_keeps_input; eauto. intros E'. destruct Hown; congruence.
    + intros Ht. eapply exec_keeps_main; eauto. intros E'. destruct Hown; congruence.
    + intros Ht. eapply exec_keeps_waiter; eauto.
      * intros E'. destruct Hown; congruence.
      * intros o E'. apply Hout. destruct Hown; congruence.
      * destruct op_; try done. intros info Hi Hf. destruct t as [| |o|]; [by destruct Htr|by destruct Htr| |by destruct Ht].
        destruct (Hout o eq_refl) as [Hf' (info' & Hi' & Hin)]. replace info' with info in * by congruence.
        rewrite Hf in Hf' by done. done.
Qed.

Section Steps.
Context `{ErrorTexts} `{CwdHost} (root : bytes).

Lemma active_started o s s' : started s' = started s -> active o s' <-> active o s.
Proof. intros E. unfold active. by rewrite E. Qed.

(** The knowledge of the threads that did not move. *)
Lemma output_side st s' o :
  agent_ok st -> keeps_output o (sh st) s' ->
  (forall info, started s' = Some info -> o ∈ run_streams info -> output_knows info o (output_worker st o) s') /\
  (~ active o s' -> output_worker st o = OutFirst /\ worker_finished (streams s' o) = false).
Proof.
  intros Hst Hk. destruct (ao_output st Hst o) as [H1 H2]. pose proof (ko_started _ _ _ Hk) as Es. rewrite Es. split.
  - intros info Hi Ho. eapply output_knows_stable; [done|]. by apply H1.
  - rewrite (active_started o _ _ Es), (ko_finished _ _ _ Hk). done.
Qed.

Lemma undisturbed_keeps s s' : keeps_waiter s s' -> undisturbed s -> undisturbed s'.
Proof. intros Hk Hu o. destruct (kw_flags _ _ Hk o) as [-> ->]. apply Hu. Qed.

Lemma waiter_side st s' :
  agent_ok st -> shared_ok s' -> keeps_waiter (sh st) s' ->
  match started s' with
  | Some info => waiter_knows info (waiter st) s'
  | None => waiter st = WaPoll /\ undisturbed s'
  end.
Proof.
  intros Hst Hok Hk. pose proof (ao_waiter st Hst) as Hw. rewrite (kw_started _ _ Hk).
  destruct (started (sh st)) as [info|] eqn:E.
  - by eapply waiter_knows_stable.
  - destruct Hw. split; [done|]. by eapply undisturbed_keeps.
Qed.

Lemma main_side st s' :
  agent_ok st -> keeps_main (sh st) s' -> started (sh st) <> None \/ agent_phase s' = agent_phase (sh st) -> main_knows (main st) s'.
Proof. intros Hst Hk Hor. eapply main_knows_stable; [done|done|]. apply Hst. Qed.

(** The process was just started: every worker is at its start. *)
Lemma launch_side st info :
  agent_ok st -> started (sh st) = None ->
  let s' := with_started (Some info) (waiter_gone (sh st)) (sh st) in
  (forall o, (forall info', started s' = Some info' -> o ∈ run_streams info' -> output_knows info' o (output_worker st o) s') /\
    (~ active o s' -> output_worker st o = OutFirst /\ worker_finished (streams s' o) = false)) /\
  waiter_knows info (waiter st) s'.
Proof.
  intros Hst Hn s'. split.
  - intros o. destruct (ao_output st Hst o) as [_ H2]. destruct (H2 (not_active _ _ Hn)) as [-> Hf]. split; [|done].
    intros info' _ _. split; [done|]. pose proof (ao_shared st Hst) as Hok.
    destruct (idle_published o _ Hok (not_active _ _ Hn)) as (Hp & Hs & _). destruct (so_idle _ Hok o (not_active _ _ Hn)) as (Hr & _).
    change (sent_of o s') with (sent_of o (sh st)). change (published o s') with (published o (sh st)). rewrite Hs, Hp.
    split; [done|]. left. change (read_of o s') with (read_of o (sh st)). change (published o s') with (published o (sh st)). by rewrite Hr, Hp.
  - pose proof (ao_waiter st Hst) as Hw. rewrite Hn in Hw. by destruct Hw as [-> ?].
Qed.

Lemma run_thread_ok t r st st' : agent_ok st -> run_thread root t r st = Some st' -> agent_ok st'.
Proof.
  intros Hst H1. pose proof (ao_shared st Hst) as Hok. unfold run_thread in H1.
  destruct t as [| |o|].
  - apply bind_Some in H1 as ([pc s] & E & [= <-]).
    destruct (resume_ok MainThread _ _ _ _ _ _ Hok (main_code_ok root _ _ Hok (ao_main st Hst)) ltac:(done) E)
      as (Hok' & Hk & [(K1 & K2 & K3 & K4)|(_ & Hn & info & ->)]).
    + split; cbn; try done.
      * apply (input_knows_stable _ _ _ (K2 ltac:(done))), Hst.
      * intros o. apply output_side; [done|]. by apply K1.
      * apply waiter_side; [done|done|]. by apply K4.
    + destruct (launch_side st info Hst Hn) as [L1 L2]. split; cbn; try done. apply Hst.
  - destruct (started (sh st)) as [info|] eqn:Ei; [|done]. apply bind_Some in H1 as ([pc s] & E & [= <-]).
    destruct (resume_ok InputThread _ _ _ _ _ _ Hok (input_code_ok _ _ _ Hok Ei (ao_input st Hst)) ltac:(done) E)
      as (Hok' & Hk & [(K1 & K2 & K3 & K4)|(? & _)]); [|done].
    split; cbn; try done.
    + apply main_side; [done|by apply K3|]. left. congruence.
    + intros o. apply output_side; [done|]. by apply K1.
    + apply waiter_side; [done|done|]. by apply K4.
  - destruct (started (sh st)) as [info|] eqn:Ei; [|done]. case_bool_decide as Ho; [|done].
    apply bind_Some in H1 as ([pc s] & E & [= <-]). destruct (ao_output st Hst o) as [Hko _]. specialize (Hko info Ei Ho).
    assert (Hact : active o (sh st)) by (by exists info).
    assert (Hng : output_worker st o <> OutGone) by (intros E'; by rewrite E' in E).
    assert (Hsides : forall o', OutputThread o = OutputThread o' -> worker_finished (streams (sh st) o') = false /\ active o' (sh st)).
    { intros o' [= <-]. split; [|done]. destruct Hko as [-> _]. by destruct (output_worker st o). }
    destruct (resume_ok (OutputThread o) _ _ _ _ _ _ Hok (output_code_ok _ _ _ _ Hok Ei Ho Hko) Hsides E)
      as (Hok' & Hk & [(K1 & K2 & K3 & K4)|(? & _)]); [|done].
    pose proof (kw_started _ _ (K4 ltac:(done))) as Es. split; cbn; try done.
    + apply main_side; [done|by apply K3|]. left. congruence.
    + apply (input_knows_stable _ _ _ (K2 ltac:(done))), Hst.
    + intros o'. destruct (decide (o' = o)) as [->|Hne].
      * split; [|intros Hna; destruct Hna; by eapply active_started].
        intros info'. rewrite Es, Ei. by intros [= <-] _.
      * apply output_side; [done|]. apply K1. congruence.
    + apply waiter_side; [done|done|]. by apply K4.
  - destruct (started (sh st)) as [info|] eqn:Ei; [|done]. apply bind_Some in H1 as ([pc s] & E & [= <-]).
    pose proof (ao_waiter st Hst) as Hw. rewrite Ei in Hw.
    destruct (resume_ok WaiterThread _ _ _ _ _ _ Hok (waiter_code_ok _ _ _ Hok Ei Hw) ltac:(done) E)
      as (Hok' & Hk & [(K1 & K2 & K3 & K4)|(? & _)]); [|done].
    pose proof (ko_started _ _ _ (K1 Pty ltac:(done))) as Es. split; cbn; try done.
    + apply main_side; [done|by apply K3|]. left. congruence.
    + apply (input_knows_stable _ _ _ (K2 ltac:(done))), Hst.
    + intros o. apply output_side; [done|]. by apply K1.
    + by rewrite Es, Ei.
Qed.

(** The steps around the threads change only the channels of the stream. *)
Lemma quiet_step st srv :
  agent_ok st -> quiet (server_ (sh st)) srv -> agent_ok (with_shared (with_server srv (sh st)) st).
Proof.
  intros Hst Hq. pose proof (ao_shared st Hst) as Hok. assert (Hok' : shared_ok (with_server srv (sh st))) by (by apply quiet_ok).
  split; cbn; try done.
  - apply main_side; [done|by apply quiet_keeps_main|]. right. by apply quiet_phase.
  - apply (ao_input st Hst).
  - intros o. apply (output_side st (with_server srv (sh st))); [done|]. by apply quiet_keeps_output.
  - apply (waiter_side st (with_server srv (sh st))); [done|done|]. by apply quiet_keeps_waiter.
Qed.

Lemma stdin_step st i open f gone : agent_ok st -> agent_ok (with_shared (with_stdin i open f gone (sh st)) st).
Proof.
  intros Hst. pose proof (ao_shared st Hst) as Hok. split; cbn; try (by apply Hst).
  by apply with_stdin_ok.
Qed.

Lemma step_ok a st st' : agent_ok st -> step root a st = Some st' -> agent_ok st'.
Proof.
  intros Hst H1. destruct a as [t r|r| |b|m| |]; cbn in H1.
  - by eapply run_thread_ok.
  - destruct (started (sh st)); [|done]. apply bind_Some in H1 as (s & Hr & [= <-]). unfold reader_reads in Hr.
    destruct (_ || _); [done|]. apply bind_Some in Hr as ([f s1] & Hf & [= <-]).
    apply (exec_read_frame r) in Hf as (i & open & ->). by apply (stdin_step st).
  - apply bind_Some in H1 as (srv & Hs & [= <-]). apply quiet_step; [done | by apply quiet_takes].
  - apply bind_Some in H1 as (srv & Hs & [= <-]). apply quiet_step; [done | by eapply quiet_writes].
  - destruct (stdin_open (sh st)); [|done]. injection H1 as <-. by apply stdin_step.
  - injection H1 as <-. by apply stdin_step.
  - destruct (wire (server_ (sh st))); [done|]. injection H1 as <-. apply quiet_step; [done|]. by split.
Qed.

Lemma initial_ok : agent_ok initial_agent.
Proof.
  assert (Hsh : shared_ok initial_shared).
  { split; cbn; try done.
    - intros id n Hin. by apply elem_of_nil in Hin.
    - intros id status b Hin. by apply elem_of_nil in Hin. }
  by split.
Qed.

Lemma reachable_ok st : agent_reachable root st -> agent_ok st.
Proof. induction 1 as [|a st st' _ IH Hs]; [apply initial_ok | by eapply step_ok]. Qed.
End Steps.
