(* ===== verification/AgentRuntimeProps.v ===== *)
(** * What the runtime server guarantees

    Properties of every interleaving of its threads, whatever the process, the system and
    the client do. *)
From S2P Require Import Prelude Paths Protocol RuntimeMessages RuntimeMachine RuntimeSession AgentFs AgentCommand AgentRuntime AgentRuntimeInv AgentRuntimeRely AgentRuntimeThreads.

(** The message a thread is about to send. *)
Definition next_send {pc} (n : code pc) : option RuntimeMessage :=
  match n with
  | Do (Send m) _ => Some m
  | _ => None
  end.

Section Guarantees.
Context `{ErrorTexts} `{CwdHost} (root : bytes).

(** C6 (output).  Whatever the threads, the process and the client do, the chunks of each
    output stream that the server sends are contiguous from offset zero and together a prefix
    of the bytes that the stream's worker read; at most a window of them is unacknowledged; and
    the two streams of a piped process together stay within its output limit, which is never
    above the hard limit. *)
Theorem runtime_output_faithful st :
  agent_reachable root st ->
  (forall o, contiguous 0 (outputs o (messages (sh st))) (zlen (published o (sh st))) /\
     published o (sh st) `prefix_of` read_of o (sh st) /\
     0 <= acked_of o (sh st) <= zlen (published o (sh st)) /\
     zlen (published o (sh st)) - acked_of o (sh st) <= OUTPUT_FLOW_WINDOW_BYTES) /\
  (forall info l, started (sh st) = Some info -> run_limit info = Some l ->
     l <= OUTPUT_HARD_MAX_BYTES /\
     zlen (published Stdout (sh st)) + zlen (published Stderr (sh st)) <= Z.max l 0).
Proof.
  intros Hr%reachable_ok. pose proof (ao_shared st Hr) as Hok. split.
  - intros o. pose proof (so_flow _ Hok o) as (? & ? & ? & ?). pose proof (so_acked _ Hok o).
    split; [apply Hok|]. split; [apply Hok|]. lia.
  - intros info l Hi Hl. destruct (so_started _ Hok info Hi) as [Hlim _]. destruct (Hlim l Hl). split; [done|].
    destruct (so_total _ Hok info l Hi Hl) as [Hsum Hle].
    pose proof (so_granted _ Hok Stdout). pose proof (so_granted _ Hok Stderr). lia.
Qed.

(** C7 (exit).  When the server reports the exit of the process, the stream is closed, every
    output worker has ended, and each stream's chunks were all acknowledged by the client; and
    unless the report says that output was truncated, the chunks are all the bytes that were
    read from the process. *)
Theorem runtime_exit_complete st id status truncated :
  agent_reachable root st -> (Outbound, Exited id status truncated) ∈ trace (server_ (sh st)) ->
  agent_phase (sh st) = Closed /\
  forall o, (active o (sh st) -> worker_finished (streams (sh st) o) = true) /\
    acked_of o (sh st) = zlen (published o (sh st)) /\ published o (sh st) `prefix_of` read_of o (sh st) /\
    (truncated = false -> read_of o (sh st) = published o (sh st)).
Proof.
  intros Hr%reachable_ok Hin. pose proof (ao_shared st Hr) as Hok.
  destruct (so_exited _ Hok id status truncated Hin) as [Hc Hcomp]. split; [done|]. intros o.
  destruct (Hcomp o) as (Hf & Ha & Hs & Hread). split; [done|]. split; [congruence|]. split; [apply Hok | done].
Qed.

(** C8 (input).  What the process's input took is a prefix of the input that the server
    accepted from the client, in order and without a gap; and the server acknowledges no byte
    of it that the process's input has not taken. *)
Theorem runtime_input_faithful st :
  agent_reachable root st ->
  consumed (sh st) `prefix_of` received (sh st) /\
  forall id n, (Outbound, InputAck id n) ∈ trace (server_ (sh st)) -> n <= zlen (consumed (sh st)).
Proof.
  intros Hr%reachable_ok. pose proof (ao_shared st Hr) as Hok. split; [|apply Hok].
  etrans; [apply (so_consumed _ Hok)|]. destruct (so_channel _ Hok) as [Hch _].
  etrans; [|apply (so_received _ Hok)]. rewrite Hch. by apply prefix_app_r.
Qed.

Lemma input_sends info pc s m :
  shared_ok s -> started s = Some info -> input_knows pc s -> next_send (input_code info pc) = Some m ->
  agent_phase s <> Closed -> (exists e, m = Error e) \/ exists s', observe_outbound (machine (server_ s)) m = Ok s'.
Proof.
  intros Hok Hi Hk Hs Hopen. destruct pc; cbn in Hs; try done; injection Hs as <-; [right | left; by eexists].
  destruct Hk as [Hc ->]. rewrite <- Hc. by apply input_ack_accepted.
Qed.

Lemma output_sends info o pc s m :
  shared_ok s -> started s = Some info -> o ∈ run_streams info -> output_knows info o pc s ->
  next_send (output_code info o pc) = Some m -> agent_phase s <> Closed ->
  (exists e, m = Error e) \/ exists s', observe_outbound (machine (server_ s)) m = Ok s'.
Proof.
  intros Hok Hi Ho [_ Hk] Hs Hopen. destruct pc; cbn in Hs; try done; injection Hs as <-; [right | left; by eexists].
  destruct Hk as (-> & Hsent & Hrc & _ & Hne & _). pose proof (so_flow s Hok o) as (_ & ? & _).
  apply output_accepted; try done. lia.
Qed.

Lemma waiter_sends info pc s m :
  shared_ok s -> started s = Some info -> waiter_knows info pc s -> next_send (waiter_code info pc) = Some m ->
  agent_phase s <> Closed -> (exists e, m = Error e) \/ exists s', observe_outbound (machine (server_ s)) m = Ok s'.
Proof.
  intros Hok Hi Hk Hs Hopen. destruct pc; cbn in Hs; try done.
  all: try match type of Hs with next_send match ?l with _ => _ end = _ => by destruct l end.
  injection Hs as <-. destruct m0; try done; [left; by eexists | right].
  destruct Hk as (-> & _). by apply exited_accepted.
Qed.

Lemma loop_sends info l s m : loop_knows l s -> next_send (loop_code info l) = Some m -> exists e, m = Error e.
Proof. intros Hk Hs. destruct l; cbn in Hs; try done. injection Hs as <-. done. Qed.

Lemma main_sends pc s m :
  shared_ok s -> main_knows pc s -> next_send (main_code root pc) = Some m ->
  (exists e, m = Error e) \/ exists s', observe_outbound (machine (server_ s)) m = Ok s'.
Proof.
  intros Hok Hk Hs. destruct pc; cbn [main_code] in Hs; try done.
  - right. destruct Hk as [(_ & Hph & _) Hsup]. injection Hs as <-.
    eapply outbound_accepted; [done|by vm_compute|done|]. rewrite Hph. by constructor.
  - right. destruct Hk as [(_ & Hph & _) Hc]. injection Hs as <-.
    destruct capability; [..|done]; (eapply outbound_accepted; [done|done|done|]); rewrite Hph;
      [apply step_started_pipe | apply step_started_pty].
  - left. destruct Hk as [e ->]. injection Hs as <-. by eexists.
  - left. destruct Hk as [_ Hk]. by eapply loop_sends.
Qed.

(** C21 (protocol).  The server never runs into its [unreachable!] arm and never finds an
    acknowledgement outside the flow-control window; and every message that one of its threads
    is about to send, apart from an error report, is one that the protocol's state machine
    accepts, unless the stream was closed meanwhile. *)
Theorem runtime_server_follows_protocol st :
  agent_reachable root st ->
  (forall info, main st <> MaLoop info LoPanic) /\
  (forall info o n, main st = MaLoop info (LoAck o n) -> exists f, acknowledge n (flow (streams (sh st) o)) = Ok f) /\
  (forall m, is_closed (machine (server_ (sh st))) = false ->
     next_send (main_code root (main st)) = Some m \/
     (exists info, started (sh st) = Some info /\
        (next_send (input_code info (input_worker st)) = Some m \/
         next_send (waiter_code info (waiter st)) = Some m \/
         (exists o, o ∈ run_streams info /\ next_send (output_code info o (output_worker st o)) = Some m))) ->
     (exists e, m = Error e) \/ exists s', observe_outbound (machine (server_ (sh st))) m = Ok s').
Proof.
  intros Hr%reachable_ok. pose proof (ao_shared st Hr) as Hok. pose proof (ao_main st Hr) as Hm. split_and!.
  - intros info E. rewrite E in Hm. by destruct Hm.
  - intros info o n E. rewrite E in Hm. destruct Hm as (_ & _ & Hn & _). pose proof (so_flow _ Hok o) as (_ & _ & _ & ?).
    eexists. apply acknowledge_spec. split; [|done]. unfold acked_of, sent_of in *. lia.
  - intros m Hclosed Hs. assert (Hopen : agent_phase (sh st) <> Closed).
    { unfold agent_phase. intros E. unfold is_closed in Hclosed. by rewrite E in Hclosed. }
    destruct Hs as [Hs|(info & Hi & [Hs|[Hs|(o & Ho & Hs)]])].
    + by eapply main_sends.
    + eapply input_sends; eauto. apply Hr.
    + pose proof (ao_waiter st Hr) as Hw. rewrite Hi in Hw. by eapply waiter_sends.
    + destruct (ao_output st Hr o) as [Hk _]. eapply output_sends; eauto.
Qed.
End Guarantees.

(** ** The server and a client of the protocol

    The agent at one end of a stream and, at the other, a client that runs the protocol's state
    machine over what it sends and receives: the pair refines the system of two machines of
    [RuntimeSession]. *)

Section Peer.
Context `{ErrorTexts} `{CwdHost} (root : bytes).

(** ** The two ends *)

(** Steps that are not the client's use of the stream. *)
Definition agent_action (a : action) : bool :=
  match a with ClientWrites _ | ClientReads => false | _ => true end.

Inductive session_reachable : agent -> RuntimeStateMachine -> Prop :=
| session_start : session_reachable initial_agent (new_machine Client runtime_capabilities)
| session_agent a st c st' :
    session_reachable st c -> agent_action a = true -> step root a st = Some st' -> session_reachable st' c
| session_writes m st c st' c' :
    session_reachable st c -> observe_outbound c m = Ok c' -> step root (ClientWrites m) st = Some st' ->
    session_reachable st' c'
| session_reads m w st c st' c' :
    session_reachable st c -> wire (server_ (sh st)) = m :: w -> observe_inbound c m = Ok c' ->
    step root ClientReads st = Some st' -> session_reachable st' c'.

Lemma session_agent_reachable st c : session_reachable st c -> agent_reachable root st.
Proof. induction 1; [constructor|econstructor; eassumption..]. Qed.

(** ** The refinement relation *)

Definition queue_messages (q : list RuntimeWriteCommand) : list RuntimeMessage :=
  omap (fun c => match c with WriteMessage m => Some m | WriteFinish => None end) q.
Definition busy (w : writer_state) : list RuntimeMessage := match w with WriterBusy m => [m] | _ => [] end.
(** What the server sent and the client has not read. *)
Definition in_flight (srv : RuntimeServer) : list RuntimeMessage :=
  wire srv ++ busy (writer_thread srv) ++ queue_messages (outgoing srv).

(** The message that the main thread has taken from the stream and not shown to the state
    machine; [None] when it will show it no more messages. *)
Definition in_hand (pc : main_pc) : option (list RuntimeMessage) :=
  match pc with
  | MaHello | MaServerHello _ | MaStart _ | MaSpawn _ _ _ _ | MaStarted _ _ _ _ | MaLaunch _ => Some []
  | MaObserveHello m _ | MaObserveStart _ m => Some [m]
  | MaLoop _ l =>
      match l with
      | LoCheck m | LoObserve m => Some [m]
      | LoTop | LoRecv | LoPush _ | LoAck _ _ | LoResize _ | LoSignal _ | LoBottom | LoSendError _ false
      | LoKill _ false => Some []
      | _ => None
      end
  | _ => None
  end.

Record sim (s : shared) (pc : main_pc) (c : RuntimeStateMachine) (sys : system) : Prop := {
  sim_client : client sys = c;
  sim_server : server sys = machine (server_ s);
  (** a message behind the writer's end is lost *)
  sim_to_client : exists lost, to_client sys = in_flight (server_ s) ++ lost /\
    (lost <> [] -> writer_thread (server_ s) = WriterGone);
  sim_to_server : forall h, in_hand pc = Some h -> to_server sys = h ++ omap id (frames s) ++ stdin s;
  sim_valid : Forall (fun m => validate m = Ok ()) (stdin s);
  sim_frames : started s = None -> frames s = [] }.

(** What the peer can see of the shared state. *)
Record same_view (s s' : shared) : Prop := {
  sv_machine : machine (server_ s') = machine (server_ s);
  sv_flight : in_flight (server_ s') = in_flight (server_ s);
  sv_gone : writer_thread (server_ s) = WriterGone -> writer_thread (server_ s') = WriterGone;
  sv_frames : frames s' = frames s;
  sv_stdin : stdin s' = stdin s;
  sv_started : started s' = None -> started s = None }.

Lemma same_view_refl s : same_view s s.
Proof. by split. Qed.

Lemma sim_same s s' pc pc' c sys :
  sim s pc c sys -> same_view s s' -> (forall h, in_hand pc' = Some h -> in_hand pc = Some h) -> sim s' pc' c sys.
Proof.
  intros [H1 H2 (lost & H3 & H3') H4 H5 H6] [V1 V2 V3 V4 V5 V6] Hh. split; try done.
  - by rewrite V1.
  - exists lost. rewrite V2. auto.
  - intros h Hp. rewrite V4, V5. auto.
  - by rewrite V5.
  - rewrite V4. auto.
Qed.

(** Operations that do not touch the stream. *)
Definition off_stream {A} (o : op A) : Prop :=
  match o with Send _ | ObserveInbound _ | ReadFrame | RecvFrame => False | _ => True end.

Lemma exec_view {A} (o : op A) r s a s' : off_stream o -> exec o r s = Some (a, s') -> same_view s s'.
Proof.
  intros Ho H1. revert a H1. destruct o; intros a H1; try (by destruct Ho); cbn [exec] in H1.
  all: try (by exec_cases H1; split; cbn; auto).
  - destruct (try_send_command WriteFinish (server_ s)) as [srv|e] eqn:E; injection H1 as <- <-; [|apply same_view_refl].
    assert (srv = with_outgoing (outgoing (server_ s) ++ [WriteFinish]) (server_ s)) as ->.
    { unfold try_send_command in E. repeat case_match; by simplify_eq. }
    split; try done. unfold in_flight, queue_messages. cbn. by rewrite omap_app, app_nil_r.
  - by apply on_stream_Some in H1 as (x & _ & ->).
Qed.

(** A send that leaves no failure behind was refused, or its message is in flight. *)
Lemma send_view m s r srv :
  shared_ok s -> send m (server_ s) = (r, srv) -> writer_failure srv = None ->
  srv = server_ s \/
  (observe_outbound (machine (server_ s)) m = Ok (machine srv) /\ in_flight srv = in_flight (server_ s) ++ [m] /\
   writer_thread (server_ s) <> WriterGone /\ writer_thread srv = writer_thread (server_ s)).
Proof.
  intros Hok. unfold send. destruct (observe_outbound _ m) as [s'|e] eqn:E; [|intros [= <- <-]; by left].
  unfold enqueue_message, try_send_command. cbn [writer_thread with_machine outgoing].
  assert (Hrec : forall msg x, writer_failure (record_writer_failure msg x) <> None).
  { intros msg x. cbn. by destruct (writer_failure x). }
  destruct (writer_thread (server_ s)) eqn:Ew, (zlen (outgoing (server_ s)) >=? SERVER_QUEUE_DEPTH); intros [= <- <-] Hf;
    try (by destruct (Hrec _ _ Hf)); right; unfold in_flight, queue_messages; cbn; rewrite omap_app, Ew; cbn;
    (split; [done|]; split; [by rewrite <- !app_assoc | done]).
Qed.

Lemma exec_failed {A} (o : op A) r s a s' : shared_ok s -> exec o r s = Some (a, s') -> failed s -> failed s'.
Proof.
  intros Hok H1 Hf. revert a H1. destruct o; intros a H1; cbn [exec] in H1.
  all: try (by exec_cases H1).
  - unfold on_server in H1. destruct (server_observe_inbound m (server_ s)) as [r1 srv] eqn:E. injection H1 as <- <-.
    apply (observe_keeps _ _ _ _ Hok) in E as (_ & Hk & _). by apply Hk.
  - unfold on_server in H1. destruct (send m (server_ s)) as [r1 srv] eqn:E. injection H1 as <- <-.
    apply (send_keeps _ _ _ _ Hok) in E as (_ & Hk & _). by apply Hk.
  - destruct (try_send_command WriteFinish (server_ s)) as [srv|e] eqn:E; injection H1 as <- <-; [|done].
    by apply (quiet_failure _ _ (quiet_try_send _ _ _ E)).
  - injection H1 as <- <-. by apply (quiet_failure _ _ (quiet_record _ _)).
  - by apply on_stream_Some in H1 as (x & _ & ->).
Qed.

Definition refines (s : shared) (pc : main_pc) (c : RuntimeStateMachine) : Prop :=
  exists sys, system_reachable runtime_capabilities sys /\ sim s pc c sys.

Lemma refines_same s s' pc pc' c :
  refines s pc c -> same_view s s' -> (forall h, in_hand pc' = Some h -> in_hand pc = Some h) -> refines s' pc' c.
Proof. intros (sys & Hr & Hs) Hv Hh. exists sys. split; [done|]. by eapply sim_same. Qed.

Lemma refines_send m r s a s' pc pc' c :
  shared_ok s -> refines s pc c -> exec (Send m) r s = Some (a, s') -> writer_failure (server_ s') = None ->
  (forall h, in_hand pc' = Some h -> in_hand pc = Some h) -> refines s' pc' c.
Proof.
  intros Hok (sys & Hr & Hs) H1 Hf Hh. apply exec_send in H1 as (srv & H1 & ->).
  apply send_view in H1 as [->|(Ho & Hfl & Hw & Hw')]; [..|done|done].
  - rewrite with_server_same. exists sys. split; [done|]. eapply sim_same; [done|apply same_view_refl|done].
  - destruct Hs as [H1 H2 (lost & H3 & H3') H4 H5 H6]. destruct sys as [sc ss q1 q2]. cbn in *. subst.
    assert (lost = []) as -> by (destruct lost; [done|]; by destruct Hw; apply H3'). rewrite app_nil_r in *.
    exists {| client := c; server := machine srv; to_server := q1; to_client := in_flight (server_ s) ++ [m] |}. split.
    + eapply rtc_r; [exact Hr|]. by constructor.
    + split; cbn; try done; [|by auto]. exists []. by rewrite app_nil_r, Hfl.
Qed.

Lemma refines_observe m r s a s' pc pc' c :
  refines s pc c -> exec (ObserveInbound m) r s = Some (a, s') -> in_hand pc = Some [m] ->
  (forall h, in_hand pc' = Some h -> h = [] /\ is_ok a = true) -> refines s' pc' c.
Proof.
  intros (sys & Hr & Hs) H1 Hh Hh'. apply exec_observe in H1 as (srv & H1 & ->). unfold server_observe_inbound in H1.
  destruct (observe_inbound (machine (server_ s)) m) as [s1|e] eqn:E; injection H1 as <- <-.
  - destruct Hs as [H1 H2 H3 H4 H5 H6]. pose proof (H4 _ Hh) as Hq. destruct sys as [sc ss q1 q2]. cbn in *. subst.
    exists {| client := c; server := s1; to_server := omap id (frames s) ++ stdin s; to_client := q2 |}. split.
    + eapply rtc_r; [exact Hr|]. by constructor.
    + split; cbn; try done. intros h Hp. by destruct (Hh' h Hp) as [-> _].
  - rewrite with_server_same. exists sys. split; [done|]. eapply sim_same; [done|apply same_view_refl|].
    intros h Hp. by destruct (Hh' h Hp).
Qed.

(** Taking a frame into the hand. *)
Lemma refines_take s pc pc' c i f open gone :
  refines s pc c -> (forall h, in_hand pc' = Some h ->
    in_hand pc = Some [] /\ omap id (frames s) ++ stdin s = h ++ omap id f ++ i) ->
  Forall (fun m => validate m = Ok ()) i -> (started s = None -> f = []) -> refines (with_stdin i open f gone s) pc' c.
Proof.
  intros (sys & Hr & [H1 H2 H3 H4 H5 H6]) Hh Hi Hf. exists sys. split; [done|]. split; cbn; try done.
  intros h Hp. destruct (Hh h Hp) as [E Eq]. rewrite (H4 _ E). done.
Qed.

(** What [take_frame] leaves of the messages that the client wrote. *)
Lemma take_frame_view r s f s' :
  take_frame r s = Some (f, s') -> Forall (fun m => validate m = Ok ()) (stdin s) ->
  exists i, s' = with_stdin i (stdin_open s) (frames s) (reader_gone s) s /\ Forall (fun m => validate m = Ok ()) i /\
    stdin s = match f with Some m => m :: i | None => i end.
Proof.
  intros Hf Hv. unfold take_frame in Hf.
  assert (Hsame : s = with_stdin (stdin s) (stdin_open s) (frames s) (reader_gone s) s) by (by destruct s).
  destruct (stdin s) as [|m i] eqn:Ei.
  - exists []. destruct r; repeat case_match; simplify_eq; split_and!; try done; by rewrite <- Ei.
  - apply Forall_cons in Hv as [Hm Hv].
    destruct r; simplify_eq; (eexists; split; [done|]; split; [|rewrite ?Hm; done]); try done; by constructor.
Qed.

Lemma refines_valid s pc c : refines s pc c -> Forall (fun m => validate m = Ok ()) (stdin s) /\ (started s = None -> frames s = []).
Proof. intros (sys & _ & Hs). split; apply Hs. Qed.

Definition code_refines (pc : main_pc) (n : code main_pc) (s : shared) (c : RuntimeStateMachine) : Prop :=
  match n with
  | Do o k => forall r a s', exec o r s = Some (a, s') -> writer_failure (server_ s') = None -> refines s' (k a) c
  | Halt => True
  end.

Lemma error_not_in_hand info e b h : in_hand (MaLoop info (LoSendError e b)) = Some h -> h = [].
Proof. cbn. destruct b; by intros [= <-]. Qed.

Lemma handle_in_hand info m h : in_hand (MaLoop info (handle_message info m)) = Some h -> h = [].
Proof.
  destruct m; cbn; try done; try (by intros [= <-]). destruct (pty_size size) as [sz|e]; cbn; [|done].
  destruct (check_resize info sz); cbn; by intros [= <-].
Qed.

(** The loop and the peer. *)
Lemma loop_refines info l s c :
  shared_ok s -> started s = Some info -> refines s (MaLoop info l) c ->
  code_refines (MaLoop info l) (loop_code info l) s c.
Proof.
  intros Hok Hi Hr. destruct l; cbn [loop_code code_refines]; try done; intros r a s' H1 Hf.
  all: try (eapply refines_same; [exact Hr|refine (exec_view _ _ _ _ _ _ H1); exact I|]; intros h; cbn; repeat case_match; done).
  - destruct (refines_valid _ _ _ Hr) as [Hv Hn]. cbn in H1.
    destruct (frames s) as [|[m|] f] eqn:Ef.
    + destruct r; repeat case_match; simplify_eq; eapply refines_same; [exact Hr|apply same_view_refl|by cbn|..];
        try (exact Hr); try apply same_view_refl; by cbn.
    + simplify_eq. eapply refines_take; [exact Hr| |done|congruence]. intros h [= <-]. split; [done|]. by rewrite Ef.
    + simplify_eq. eapply refines_take; [exact Hr| |done|congruence]. done.
  - eapply refines_observe; [exact Hr|exact H1|done|]. intros h Hp. destruct a as [[]|e]; [|done]. by apply handle_in_hand in Hp.
  - eapply refines_send; [done|exact Hr|exact H1|done|]. intros h. cbn. by destruct last0.
Qed.

Lemma main_refines pc s c :
  shared_ok s -> main_knows pc s -> refines s pc c -> code_refines pc (main_code root pc) s c.
Proof.
  intros Hok Hk Hr. destruct pc; try (by destruct Hk; apply loop_refines); cbn [main_code code_refines]; try done;
    intros r a s' H1 Hf.
  all: try (eapply refines_same; [exact Hr|refine (exec_view _ _ _ _ _ _ H1); exact I|]; intros h; cbn; repeat case_match; done).
  all: try (eapply refines_send; [done|exact Hr|exact H1|done|]; intros h; cbn; repeat case_match; done).
  - destruct (refines_valid _ _ _ Hr) as [Hv Hn]. destruct Hk as (Hs & _). apply take_frame_view in H1 as (i & -> & Hi & Ei); [|done].
    eapply refines_take; [exact Hr| |done|done]. intros h Hh. destruct a as [m|]; [|done]. destruct m; try done.
    injection Hh as <-. by rewrite Ei, (Hn Hs).
  - eapply refines_observe; [exact Hr|exact H1|done|]. intros h. destruct a; [|done]. by intros [= <-].
  - destruct (refines_valid _ _ _ Hr) as [Hv Hn]. destruct Hk as (Hs & _). apply take_frame_view in H1 as (i & -> & Hi & Ei); [|done].
    eapply refines_take; [exact Hr| |done|done]. intros h Hh. destruct a as [m|]; [|done].
    destruct (is_persistent_start m); [destruct (validate m); done|]. injection Hh as <-. by rewrite Ei, (Hn Hs).
  - eapply refines_observe; [exact Hr|exact H1|done|]. intros h. destruct a; [|done]. destruct m; try done.
    destruct (persistence spec); [|done]. destruct (build_command root spec); [by intros [= <-] | done].
Qed.

(** A step of another thread. *)
Lemma other_refines {A} (o : op A) t r s a s' pc c :
  shared_ok s -> lawful t o s -> t <> MainThread -> refines s pc c -> exec o r s = Some (a, s') ->
  writer_failure (server_ s') = None -> refines s' pc c.
Proof.
  intros Hok Hl Ht Hr H1 Hf. pose proof (law_owner _ _ _ Hl) as Hown.
  destruct (decide (match o with Send _ => true | _ => false end = true)) as [Hs|Hs].
  - destruct o; try done. by eapply refines_send; [|exact Hr|exact H1|..].
  - eapply refines_same; [exact Hr| |done]. apply (exec_view _ _ _ _ _) in H1; [done|].
    destruct o; cbn in *; try done; destruct Hown; try congruence; by destruct Hs.
Qed.

Lemma run_thread_failed t r st st' :
  agent_ok st -> run_thread root t r st = Some st' -> failed (sh st) -> failed (sh st').
Proof.
  intros Hst H1 Hf. pose proof (ao_shared st Hst) as Hok.
  assert (Hres : forall pc (n : code pc) pc' s', resume n r (sh st) = Some (pc', s') -> failed s').
  { intros pc [A o k|] pc' s' Hn; [|done]. cbn in Hn. destruct (exec o r (sh st)) as [[a s1]|] eqn:E; [|done].
    injection Hn as <- <-. by eapply exec_failed. }
  unfold run_thread in H1. destruct t; repeat case_match; try done; apply bind_Some in H1 as ([pc1 s1] & E & [= <-]); cbn; by eapply Hres.
Qed.

Lemma run_thread_refines t r st st' c :
  agent_ok st -> refines (sh st) (main st) c -> run_thread root t r st = Some st' ->
  writer_failure (server_ (sh st')) = None -> refines (sh st') (main st') c.
Proof.
  intros Hst Hr H1 Hf. pose proof (ao_shared st Hst) as Hok. unfold run_thread in H1.
  assert (Hother : forall pc (n : code pc) knows t', t' <> MainThread -> code_ok t' n knows (sh st) -> forall pc' s',
    resume n r (sh st) = Some (pc', s') -> writer_failure (server_ s') = None -> refines s' (main st) c).
  { intros pc [A o k|] knows t' Ht Hc pc' s' Hn; [|done]. cbn in Hn, Hc. destruct (exec o r (sh st)) as [[a s1]|] eqn:E; [|done].
    injection Hn as <- <-. intros Hf'. destruct Hc as [Hl _]. by eapply other_refines. }
  destruct t as [| |o|].
  - apply bind_Some in H1 as ([pc s] & E & [= <-]). pose proof (main_refines _ _ _ Hok (ao_main st Hst) Hr) as Hm. cbn in *.
    destruct (main_code root (main st)) as [A o k|]; [|done]. cbn in E. destruct (exec o r (sh st)) as [[a s1]|] eqn:Ex; [|done].
    injection E as <- <-. by eapply Hm.
  - destruct (started (sh st)) as [info|] eqn:Ei; [|done]. apply bind_Some in H1 as ([pc s] & E & [= <-]).
    eapply (Hother _ _ _ InputThread); [done|by apply input_code_ok, Hst|exact E|done].
  - destruct (started (sh st)) as [info|] eqn:Ei; [|done]. case_bool_decide as Ho; [|done].
    apply bind_Some in H1 as ([pc s] & E & [= <-]). destruct (ao_output st Hst o) as [Hko _].
    eapply (Hother _ _ _ (OutputThread o)); [done|apply output_code_ok; [done|done|done|by apply Hko]|exact E|done].
  - destruct (started (sh st)) as [info|] eqn:Ei; [|done]. apply bind_Some in H1 as ([pc s] & E & [= <-]).
    pose proof (ao_waiter st Hst) as Hw. rewrite Ei in Hw.
    eapply (Hother _ _ _ WaiterThread); [done|by apply waiter_code_ok|exact E|done].
Qed.

(** ** The other steps *)

Lemma reader_refines r s s' pc c :
  started s <> None -> refines s pc c -> reader_reads r s = Some s' -> refines s' pc c.
Proof.
  intros Hi (sys & Hr & [H1 H2 H3 H4 H5 H6]) E. unfold reader_reads in E. case_match; [done|].
  apply bind_Some in E as ([f s1] & E & [= <-]). apply take_frame_view in E as (i & -> & Hv & Ei); [|done].
  exists sys. split; [done|]. split; cbn; try done.
  intros h Hh. rewrite (H4 _ Hh), Ei, omap_app. destruct f; cbn; by rewrite <- ?app_assoc, ?app_nil_r.
Qed.

Lemma writer_takes_refines s srv pc c :
  refines s pc c -> writer_takes (server_ s) = Some srv -> refines (with_server srv s) pc c.
Proof.
  intros (sys & Hr & [H1 H2 (lost & H3 & H3') H4 H5 H6]) E. exists sys. split; [done|].
  unfold writer_takes in E. destruct (writer_thread (server_ s)) eqn:Ew, (outgoing (server_ s)) as [|[m1|] q] eqn:Eq;
    try done; injection E as <-; unfold in_flight in H3; rewrite Ew, Eq in H3; split; cbn; try done.
  - exists lost. split; [by rewrite H3|]. intros Hl. by specialize (H3' Hl).
  - exists (queue_messages q ++ lost). split; [|done]. rewrite H3. unfold in_flight. cbn. by rewrite app_nil_r, app_assoc.
Qed.

Lemma writer_writes_refines b s srv pc c :
  refines s pc c -> writer_writes b (server_ s) = Some srv -> writer_failure srv = None ->
  refines (with_server srv s) pc c.
Proof.
  intros (sys & Hr & [H1 H2 (lost & H3 & H3') H4 H5 H6]) E Hf. exists sys. split; [done|].
  unfold writer_writes in E. destruct (writer_thread (server_ s)) eqn:Ew; try done. injection E as <-.
  destruct b; [|cbn in Hf; by destruct (writer_failure (server_ s))].
  split; cbn; try done. exists lost. split; [|intros Hl; by specialize (H3' Hl)].
  rewrite H3. unfold in_flight. rewrite Ew. cbn. by rewrite <- !app_assoc.
Qed.

(** A step of the agent; [writer_failure] never returns to [None]. *)
Lemma step_failed a st st' : agent_ok st -> step root a st = Some st' -> failed (sh st) -> failed (sh st').
Proof.
  intros Hst E Hf. destruct a; cbn [step] in E; unfold failed in *.
  - by eapply run_thread_failed.
  - destruct (started (sh st)); [|done]. apply bind_Some in E as (s' & E & [= <-]). unfold reader_reads, take_frame in E.
    destruct (_ || _); [done|]. apply bind_Some in E as ([f s1] & E & [= <-]). cbn. repeat case_match; by simplify_eq.
  - apply bind_Some in E as (srv & E & [= <-]). unfold writer_takes in E. cbn. repeat case_match; by simplify_eq.
  - apply bind_Some in E as (srv & E & [= <-]). unfold writer_writes in E. cbn.
    destruct Hf as [msg Hm]. repeat case_match; simplify_eq; cbn; rewrite ?Hm; eauto.
  - destruct (stdin_open (sh st)); [|done]. by injection E as <-.
  - by injection E as <-.
  - destruct (wire (server_ (sh st))); [done|]. by injection E as <-.
Qed.

Lemma agent_step_refines a st st' c :
  agent_ok st -> agent_action a = true -> step root a st = Some st' -> refines (sh st) (main st) c ->
  writer_failure (server_ (sh st')) = None -> refines (sh st') (main st') c.
Proof.
  intros Hst Ha E Hr Hf. destruct a; try done; cbn [step] in E.
  - by eapply run_thread_refines.
  - destruct (started (sh st)) eqn:Ei; [|done]. apply bind_Some in E as (s' & E & [= <-]).
    eapply reader_refines; [|exact Hr|exact E]. by rewrite Ei.
  - apply bind_Some in E as (srv & E & [= <-]). by eapply writer_takes_refines.
  - apply bind_Some in E as (srv & E & [= <-]). by eapply writer_writes_refines.
  - injection E as <-. eapply refines_same; [exact Hr| |done]. by split.
Qed.

Lemma client_writes_refines m st st' c c' :
  observe_outbound c m = Ok c' -> step root (ClientWrites m) st = Some st' -> refines (sh st) (main st) c ->
  refines (sh st') (main st') c'.
Proof.
  intros Ho E (sys & Hr & [H1 H2 H3 H4 H5 H6]). cbn in E. destruct (stdin_open (sh st)); [|done]. injection E as <-.
  destruct sys as [sc ss q1 q2]. cbn in *. subst.
  exists {| client := c'; server := machine (server_ (sh st)); to_server := q1 ++ [m]; to_client := q2 |}. split.
  - eapply rtc_r; [exact Hr|]. by constructor.
  - split; cbn; try done.
    + intros h Hh. by rewrite (H4 _ Hh), <- !app_assoc.
    + apply Forall_app. split; [done|]. apply observe_Ok in Ho as (Hv & _). by constructor.
Qed.

Lemma client_reads_refines m w st st' c c' :
  wire (server_ (sh st)) = m :: w -> observe_inbound c m = Ok c' -> step root ClientReads st = Some st' ->
  refines (sh st) (main st) c -> refines (sh st') (main st') c'.
Proof.
  intros Hw Ho E (sys & Hr & [H1 H2 (lost & H3 & H3') H4 H5 H6]). cbn in E. rewrite Hw in E. injection E as <-.
  destruct sys as [sc ss q1 q2]. unfold in_flight in H3. rewrite Hw in H3. cbn in *. subst.
  eexists {| client := c'; server := machine (server_ (sh st)); to_server := q1; to_client := _ |}. split.
  - eapply rtc_r; [exact Hr|]. by constructor.
  - split; cbn; try done. exists lost. by split.
Qed.

Lemma session_refines st c :
  session_reachable st c -> writer_failure (server_ (sh st)) = None -> refines (sh st) (main st) c.
Proof.
  assert (Hback : forall a st st', agent_reachable root st -> step root a st = Some st' ->
    writer_failure (server_ (sh st')) = None -> writer_failure (server_ (sh st)) = None).
  { intros a s1 s2 Hr E Hf. destruct (writer_failure (server_ (sh s1))) eqn:Ef; [|done].
    destruct (step_failed _ _ _ (reachable_ok _ _ Hr) E) as [? Hn]; [by exists s|]. by rewrite Hf in Hn. }
  induction 1 as [|a st c st' Hs IH Ha E|m st c st' c' Hs IH Ho E|m w st c st' c' Hs IH Hw Ho E]; intros Hf;
    try pose proof (session_agent_reachable _ _ Hs) as Hr.
  - exists (initial_system runtime_capabilities). split; [constructor|]. split; cbn; try done.
    + exists []. by split.
    + by intros h [= <-].
  - eapply agent_step_refines; eauto using reachable_ok.
  - eapply client_writes_refines; eauto.
  - eapply client_reads_refines; eauto.
Qed.

(** C5 (refinement) Against a client that speaks the protocol, as long as the agent could
    write its stream, the six threads and the client together do only what two protocol state
    machines joined by ordered channels can do: the client's machine and the server's are those of
    a reachable state of that system, and what the client has still to read is the beginning of
    what is in flight there.  So the client accepts the next frame that arrives, and the server
    accepts the message that its loop has in hand unless its machine is closed: after [Exited] or [Error]
    it refuses the frames of the client that were still on the way. *)
Theorem runtime_server_refines_protocol st c :
  session_reachable st c -> writer_failure (server_ (sh st)) = None ->
  (exists sys, system_reachable runtime_capabilities sys /\ client sys = c /\ server sys = machine (server_ (sh st)) /\
     in_flight (server_ (sh st)) `prefix_of` to_client sys) /\
  (forall m w, wire (server_ (sh st)) = m :: w -> exists c', observe_inbound c m = Ok c') /\
  (forall info m, main st = MaLoop info (LoObserve m) -> is_closed (machine (server_ (sh st))) = false ->
     exists s', observe_inbound (machine (server_ (sh st))) m = Ok s').
Proof.
  intros Hs Hf. destruct (session_refines _ _ Hs Hf) as (sys & Hr & [H1 H2 (lost & H3 & _) H4 _ _]).
  pose proof (reachable_synchronised _ _ Hr) as Hsync. split; [|split].
  - exists sys. split_and!; try done. rewrite H3. by apply prefix_app_r.
  - intros m w Hw. rewrite <- H1. eapply synchronised_to_client; [done|]. rewrite H3. unfold in_flight. by rewrite Hw.
  - intros info m Hm Hc. rewrite <- H2 in *. eapply synchronised_to_server; [done| |done].
    rewrite (H4 [m]); [done|by rewrite Hm].
Qed.
End Peer.
