(* ===== verification/AgentRuntimeExamples.v ===== *)
(** * A session with the runtime server

    A client starts a process, sends it input, and reads and acknowledges its output until the
    process exits; the theorems on the runtime server at states of this session. *)
From S2P Require Import Prelude Paths Protocol RuntimeMessages RuntimeMachine RuntimeSession AgentFs AgentCommand AgentRuntime AgentRuntimeInv AgentRuntimeProps.

(** ** Running a schedule *)

Section Schedule.
Context `{ErrorTexts} `{CwdHost} (root : bytes).

(** One action, with the client's machine following what it writes and reads. *)
Definition session_step (a : action) (x : agent * RuntimeStateMachine) : option (agent * RuntimeStateMachine) :=
  let '(st, c) := x in
  st' ← step root a st;
  match a with
  | ClientWrites m => match observe_outbound c m with Ok c' => Some (st', c') | Err _ => None end
  | ClientReads =>
      match wire (server_ (sh st)) with
      | m :: _ => match observe_inbound c m with Ok c' => Some (st', c') | Err _ => None end
      | [] => None
      end
  | _ => Some (st', c)
  end.
Fixpoint session_steps (actions : list action) (x : agent * RuntimeStateMachine) :
    option (agent * RuntimeStateMachine) :=
  match actions with
  | [] => Some x
  | a :: actions => x ← session_step a x; session_steps actions x
  end.

Lemma session_step_reachable a st c st' c' :
  session_reachable root st c -> session_step a (st, c) = Some (st', c') -> session_reachable root st' c'.
Proof.
  intros Hr E. unfold session_step in E. apply bind_Some in E as (st1 & Hs & E). destruct a.
  all: try (injection E as <- <-; eapply session_agent; [exact Hr| |exact Hs]; reflexivity).
  - destruct (observe_outbound c m) eqn:Ho; [|done]. injection E as <- <-. by eapply session_writes.
  - destruct (wire (server_ (sh st))) as [|m w] eqn:Ew; [done|]. destruct (observe_inbound c m) eqn:Ho; [|done].
    injection E as <- <-. by eapply session_reads.
Qed.

Lemma session_steps_reachable actions st c st' c' :
  session_reachable root st c -> session_steps actions (st, c) = Some (st', c') -> session_reachable root st' c'.
Proof.
  revert st c. induction actions as [|a actions IH]; intros st c Hr E; [by injection E as <- <-|].
  cbn [session_steps] in E. apply bind_Some in E as ([st1 c1] & Hs & E).
  eapply IH; [|exact E]. by eapply session_step_reachable.
Qed.
End Schedule.

(** ** The session *)

#[local] Instance plain_texts : ErrorTexts := {|
  validation_text _ := B"invalid message"; state_text _ := B"refused"; command_text _ := B"invalid command";
  spawn_text _ := B"not spawned"; size_text _ := B"invalid size"; pty_text _ := B"failed" |}.
#[local] Instance plain_host : CwdHost := {| canonicalize p := Some p; is_dir _ := true |}.

Definition shell_spec : RuntimeProcessSpec := {|
  argv := [B"sh"; B"-s"]; cwd := WorkspaceRoot; env := {| env_clear := false; env_set := []; env_unset := [] |};
  persistence := Attached; terminal_size := None; timeout_ms := None; max_output_bytes := Some 5 |}.

Definition main_runs : action := Run MainThread Silent.
Definition input_runs (r : reply) : action := Run InputThread r.
Definition output_runs (o : RuntimeOutputStream) (r : reply) : action := Run (OutputThread o) r.
Definition waiter_runs : action := Run WaiterThread Silent.
(** The writer writes a frame and the client reads it. *)
Definition delivered : list action := [WriterTakes; WriterWrites true; ClientReads].

(** The hello exchange and the start of process 9. *)
Definition opening : list action :=
  [ClientWrites (ClientHello CARGO_PKG_VERSION PROTOCOL_VERSION ProcessPipeV1)] ++ repeat main_runs 3 ++ delivered ++
  [ClientWrites (StartProcess 1 shell_spec)] ++ repeat main_runs 2 ++
  [Run MainThread (SpawnSays (Ok 9)); main_runs] ++ delivered ++ [main_runs].
(** The client sends two bytes, which the process takes. *)
Definition feeding : list action :=
  [ClientWrites (Input 9 0 (B"hi")); ReaderReads Silent] ++ repeat main_runs 6 ++
  [input_runs (PreparedWith (Ok ())); input_runs Silent; input_runs Silent; input_runs (WriteWith (Wrote 2));
   input_runs Silent; input_runs (WriteWith (Wrote 0)); input_runs Silent; input_runs Silent] ++ delivered.
(** The process writes five bytes in two pieces; the client acknowledges the first. *)
Definition output_piece (data : bytes) : list action :=
  [output_runs Stdout Silent; output_runs Stdout Silent; output_runs Stdout Silent;
   output_runs Stdout (ReadWith (ReadData data)); output_runs Stdout Silent; output_runs Stdout (ReadWith ReadWouldBlock)] ++
  repeat (output_runs Stdout Silent) 6.
Definition printing : list action :=
  [output_runs Stdout Silent; output_runs Stdout (PreparedWith (Ok ()))] ++ output_piece (B"hel") ++ delivered ++
  [ClientWrites (OutputAck 9 Stdout 3); ReaderReads Silent] ++ repeat main_runs 3 ++
  output_piece (B"lo") ++ [WriterTakes; WriterWrites true].
(** The streams end, the process exits, the client acknowledges the rest. *)
Definition output_ends (o : RuntimeOutputStream) : list action :=
  repeat (output_runs o Silent) 3 ++ [output_runs o (ReadWith (ReadData [])); output_runs o Silent].
Definition ending : list action :=
  [ClientReads; ClientWrites (OutputAck 9 Stdout 5); ReaderReads Silent] ++ output_ends Stdout ++
  [output_runs Stderr Silent; output_runs Stderr (PreparedWith (Ok ()))] ++ output_ends Stderr ++
  [Run WaiterThread (PollSays (Ok (Some {| exit_code := Some 0; exit_signal := None |})))] ++ repeat waiter_runs 4 ++
  repeat main_runs 9 ++ repeat waiter_runs 16.

Definition session_at (actions : list action) : option (agent * RuntimeStateMachine) :=
  session_steps (B"/ws") actions (initial_agent, new_machine Client runtime_capabilities).
Definition during : list action := opening ++ feeding ++ printing.
Definition until_exit : list action := during ++ ending.

Definition state_at (actions : list action) : agent * RuntimeStateMachine :=
  default (initial_agent, new_machine Client runtime_capabilities) (session_at actions).
Definition during_agent : agent := fst (state_at during).
Definition during_client : RuntimeStateMachine := snd (state_at during).
Definition exited_agent : agent := fst (state_at until_exit).

Lemma state_at_reachable actions : session_reachable (B"/ws") (fst (state_at actions)) (snd (state_at actions)).
Proof.
  unfold state_at, session_at. destruct (session_steps _ actions _) as [[st c]|] eqn:E; [|constructor].
  eapply session_steps_reachable; [constructor|exact E].
Qed.
Lemma during_session : session_reachable (B"/ws") during_agent during_client.
Proof. apply state_at_reachable. Qed.
Lemma during_reachable : agent_reachable (B"/ws") during_agent.
Proof. eapply session_agent_reachable, during_session. Qed.
Lemma exited_reachable : agent_reachable (B"/ws") exited_agent.
Proof. eapply session_agent_reachable, state_at_reachable. Qed.

(** ** The theorems at work *)

(** Five bytes are out, as many as the limit allows. *)
Lemma runtime_output_faithful_witness :
  published Stdout (sh during_agent) = B"hello" /\ (run_limit <$> started (sh during_agent)) = Some (Some 5) /\
  contiguous 0 (outputs Stdout (messages (sh during_agent))) 5 /\
  B"hello" `prefix_of` read_of Stdout (sh during_agent).
Proof.
  destruct (runtime_output_faithful (B"/ws") during_agent during_reachable) as [H1 _].
  destruct (H1 Stdout) as (Hc & Hp & _). assert (E : published Stdout (sh during_agent) = B"hello") by (vm_compute; reflexivity).
  rewrite E in *. split; [reflexivity|]. split; [vm_compute; reflexivity|]. split; [exact Hc | exact Hp].
Defined.

(** The exit is reported once all that was read is out and acknowledged. *)
Lemma runtime_exit_complete_witness :
  (Outbound, Exited 9 (ExitCode 0) false) ∈ trace (server_ (sh exited_agent)) /\
  agent_phase (sh exited_agent) = Closed /\
  read_of Stdout (sh exited_agent) = published Stdout (sh exited_agent) /\
  acked_of Stdout (sh exited_agent) = 5.
Proof.
  assert (Hin : (Outbound, Exited 9 (ExitCode 0) false) ∈ trace (server_ (sh exited_agent))).
  { apply (list_elem_of_lookup_2 _ 10). vm_compute. reflexivity. }
  destruct (runtime_exit_complete (B"/ws") exited_agent _ _ _ exited_reachable Hin) as [Hc Ho].
  destruct (Ho Stdout) as (_ & Ha & _ & Hr). split; [exact Hin|]. split; [exact Hc|]. split; [by apply Hr|].
  rewrite Ha. vm_compute. reflexivity.
Defined.

(** Two bytes of input were taken, and two are acknowledged. *)
Lemma runtime_input_faithful_witness :
  consumed (sh during_agent) = B"hi" /\ received (sh during_agent) = B"hi" /\
  consumed (sh during_agent) `prefix_of` received (sh during_agent) /\
  2 <= zlen (consumed (sh during_agent)).
Proof.
  destruct (runtime_input_faithful (B"/ws") during_agent during_reachable) as [Hp Ha].
  split; [vm_compute; reflexivity|]. split; [vm_compute; reflexivity|]. split; [exact Hp|]. apply (Ha 9).
  apply (list_elem_of_lookup_2 _ 5). vm_compute. reflexivity.
Defined.

(** At the exit the waiter's report was the next message and was accepted. *)
Definition reporting_agent : agent := fst (state_at (take 114 until_exit)).
Lemma reporting_reachable : agent_reachable (B"/ws") reporting_agent.
Proof. eapply session_agent_reachable, state_at_reachable. Qed.

Lemma runtime_server_follows_protocol_witness :
  exists s', observe_outbound (machine (server_ (sh reporting_agent))) (Exited 9 (ExitCode 0) false) = Ok s'.
Proof.
  destruct (runtime_server_follows_protocol (B"/ws") reporting_agent reporting_reachable) as (_ & _ & Hs).
  destruct (Hs (Exited 9 (ExitCode 0) false)) as [[e [=]]|Hok]; [vm_compute; reflexivity| |exact Hok].
  right. exists {| run_process_id := 9; run_pty := false; run_limit := Some 5; run_timeout := None |}.
  split; [vm_compute; reflexivity|]. right. left. vm_compute. reflexivity.
Defined.

(** An output frame is on the wire and an acknowledgement in the loop's hand: both are accepted. *)
Lemma runtime_server_refines_protocol_witness :
  wire (server_ (sh during_agent)) = [Output 9 Stdout 3 (B"lo")] /\
  (exists c', observe_inbound during_client (Output 9 Stdout 3 (B"lo")) = Ok c') /\
  (exists s', observe_inbound (machine (server_ (sh during_agent))) (OutputAck 9 Stdout 3) = Ok s').
Proof.
  assert (Hw : wire (server_ (sh during_agent)) = [Output 9 Stdout 3 (B"lo")]) by (vm_compute; reflexivity).
  destruct (runtime_server_refines_protocol (B"/ws") during_agent during_client during_session) as (_ & H1 & H2);
    [vm_compute; reflexivity|].
  split; [exact Hw|]. split; [by eapply H1|].
  eapply (H2 {| run_process_id := 9; run_pty := false; run_limit := Some 5; run_timeout := None |});
    vm_compute; reflexivity.
Defined.

(** A command with edits of its environment. *)
Definition edited_spec : RuntimeProcessSpec := {|
  argv := [B"make"; B"test"]; cwd := WorkspaceRelative (B"sub");
  env := {| env_clear := true; env_set := [{| var_name := B"TERM"; var_value := B"dumb" |}]; env_unset := [B"LANG"] |};
  persistence := Attached; terminal_size := None; timeout_ms := None; max_output_bytes := None |}.
Definition edited_command : PtyCommand := {|
  program := B"make"; args := [B"test"]; command_cwd := Some (B"/ws/sub"); clear_environment := true;
  environment := [(B"LANG", None); (B"TERM", Some (B"dumb"))] |}.

Lemma accepted_command_is_spawnable_witness :
  build_command (B"/ws") edited_spec = Ok edited_command /\ validate_command edited_command = Ok () /\
  within_root (B"/ws") (B"/ws/sub") = true /\ NoDup [B"LANG"; B"TERM"].
Proof.
  assert (Hb : build_command (B"/ws") edited_spec = Ok edited_command) by (vm_compute; reflexivity).
  destruct (accepted_command_is_spawnable (B"/ws") edited_spec edited_command) as (_ & (d & Hd & Hw & _) & _ & _ & Hn & _).
  - vm_compute. reflexivity.
  - exact Hb.
  - intros d [= <-]. apply contains_byte_false. vm_compute. reflexivity.
  - injection Hd as <-. split; [exact Hb|]. split; [vm_compute; reflexivity|]. split; [exact Hw | exact Hn].
Defined.
