(* ===== verification/PosixInstall.v ===== *)
(** * Plans of an installation on a POSIX host (crates/nrm-sidecar/src/agent_install.rs)

    The commands of a plan, each a fixed script for the remote shell with its values as
    positional arguments, and the records that the scripts answer with.  The texts of the
    scripts are a class: nothing depends on them. *)
From S2P Require Import Prelude Paths RuntimeMessages LspRewrite LspProxy RemoteHost RuntimeRecords AgentCommand Install.

(** ** Plans *)

Definition STAGE_RECORD : bytes := B"NRM_INSTALL_STAGE_V1".
Definition ACTIVATED_RECORD : bytes := B"NRM_INSTALL_ACTIVATED_V1".
Definition RECONCILED_RECORD : bytes := B"NRM_INSTALL_RECONCILED_V1".
Definition ROLLED_BACK_RECORD : bytes := B"NRM_INSTALL_ROLLED_BACK_V1".
Definition ABSENT_RECORD : bytes := B"NRM_INSTALL_ABSENT_V1".
Definition CLEANED_RECORD : bytes := B"NRM_INSTALL_CLEANED_V1".
Definition LEASE_READY_RECORD : bytes := B"NRM_INSTALL_LEASE_READY_V1".
Definition ERROR_RECORD : bytes := B"NRM_INSTALL_ERROR_V1".

Inductive InstallPlanError := PlanTarget (message : bytes) | PlanVersion (message : bytes) | PlanRecord (message : bytes).
(** [Display] of an error. *)
Definition plan_error_text (e : InstallPlanError) : bytes :=
  match e with
  | PlanTarget m => B"invalid install target: " ++ m
  | PlanVersion m => B"invalid expected agent version: " ++ m
  | PlanRecord m => B"invalid install record: " ++ m
  end.
Abbreviation planned := (result InstallPlanError).

Record PosixInstallPlan := {
  target_input : bytes;
  expected_version : bytes;
  expected_sha256 : option bytes;
  expected_protocol_version : Z;
  force : bool;
  lease_token : option bytes }.

Inductive ValidationPhase := PhaseStaged | PhaseActivated | PhaseReconciled | PhaseRolledBack.
Inductive ValidationMode := FullHelloExact | Reprobe | ExpectMissing.
Record PosixValidationHook := {
  executable_path : bytes;
  hook_version : option bytes;
  hook_protocol_version : option Z;
  hook_phase : ValidationPhase;
  hook_mode : ValidationMode }.

(** ** Checks *)

(** [path.split('/').any(..)]: an empty component, or one that is a dot or two. *)
Definition has_bad_component (path : bytes) : bool :=
  existsb (fun component => bytes_eqb component [] || is_dot_or_dotdot component) (split_on "/" path).
Definition ends_with_slash (path : bytes) : bool := ends_with (B"/") path.

(** [x.or_else(|| y)] *)
Definition or_else {A} (x y : option A) : option A := match x with Some a => Some a | None => y end.

Definition validate_target_input (target : bytes) : planned unit :=
  _ ← fail_if (bytes_eqb target [] || (zlen target >? 4096)) (PlanTarget (B"path must contain between 1 and 4096 bytes"));
  _ ← fail_if (negb (bytes_eqb target (trim target)) || has_control_char target || ends_with_slash target
               || starts_with (B"//") target)
        (PlanTarget (B"path contains unsupported whitespace, controls, or trailing separators"));
  path ← ok_or (or_else (strip_prefix (B"$HOME/") target)
                  (or_else (strip_prefix (B"~/") target) (strip_prefix (B"/") target)))
           (PlanTarget (B"path must be absolute or start with $HOME/ or ~/"));
  fail_if (bytes_eqb path [] || has_bad_component path)
    (PlanTarget (B"path must name a file and must not contain . or .. components")).

Definition is_version_byte (b : byte) : bool :=
  is_ascii_alphanumeric b || byte_eqb b "." || byte_eqb b "+" || byte_eqb b "-".
Definition validate_version (version : bytes) : planned unit :=
  fail_if (bytes_eqb version [] || (zlen version >? 128) || negb (forallb is_version_byte version))
    (PlanVersion (B"version must be a short ASCII SemVer-like value")).

Definition is_lowercase_sha256 (value : bytes) : bool := (zlen value =? 64) && forallb is_lower_hex value.

Definition validate_lease_token (token : bytes) : planned unit :=
  fail_if (negb (zlen token =? 32) || negb (forallb is_lower_hex token))
    (PlanRecord (B"lease token must be 32 lowercase hexadecimal characters")).

Definition validate_resolved_target (target : bytes) : planned unit :=
  fail_if (negb (starts_with (B"/") target) || ends_with_slash target || has_control_char target
           || has_bad_component (drop 1 target))
    (PlanRecord (B"lease readiness target is not a safe absolute path")).

Definition validate_runtime_path (path : bytes) : planned unit :=
  fail_if (negb (starts_with (B"/") path) || starts_with (B"//") path || ends_with_slash path || has_control_char path)
    (PlanRecord (B"runtime path is not a safe absolute POSIX file path")).

Definition validate_derived_path (target derived separator : bytes) : planned unit :=
  suffix ← ok_or (strip_prefix (target ++ separator) derived) (PlanRecord (B"derived path has the wrong target prefix"));
  fail_if (negb ((6 <=? zlen suffix) && (zlen suffix <=? 32)) || negb (forallb is_ascii_alphanumeric suffix))
    (PlanRecord (B"derived path has an invalid uniqueness suffix")).

Definition posix_parent (path : bytes) : bytes :=
  match rsplit_once "/" path with
  | Some ([], _) => B"/"
  | Some (parent, _) => parent
  | None => []
  end.

Definition validate_staged_install (s : StagedInstall) : planned unit :=
  _ ← validate_runtime_path (target_path s);
  _ ← validate_runtime_path (stage_path s);
  _ ← validate_runtime_path (backup_path s);
  _ ← fail_if (bytes_eqb (stage_path s) (backup_path s)) (PlanRecord (B"stage and backup paths must be distinct"));
  _ ← validate_derived_path (target_path s) (stage_path s) (B".nrm-stage.");
  _ ← validate_derived_path (target_path s) (backup_path s) (B".nrm-backup.");
  fail_if (negb (bytes_eqb (posix_parent (target_path s)) (posix_parent (stage_path s)))
           || negb (bytes_eqb (posix_parent (target_path s)) (posix_parent (backup_path s))))
    (PlanRecord (B"stage and backup must be in the target directory")).

Definition validate_absence_hook (hook : PosixValidationHook) : planned unit :=
  _ ← fail_if (match hook_mode hook with ExpectMissing => false | _ => true end)
        (PlanRecord (B"absence checks require an expect-missing validation hook"));
  validate_runtime_path (executable_path hook).

(** ** Records *)

(** [stdout.strip_suffix(..).or_else(..).unwrap_or(stdout)] *)
Definition record_line (stdout : bytes) : bytes :=
  default stdout (or_else (strip_suffix [x0d; x0a] stdout) (strip_suffix [x0a] stdout)).
Definition parse_record (stdout expected_record : bytes) (field_count : nat) : planned (list bytes) :=
  let line := record_line stdout in
  _ ← fail_if (contains_byte x0d line || contains_byte x0a line)
        (PlanRecord (B"command produced more than one output line"));
  match split_on x09 line with
  | [] => Err (PlanRecord (B"expected " ++ expected_record ++ B" record"))
  | first :: fields =>
      _ ← fail_if (negb (bytes_eqb first expected_record)) (PlanRecord (B"expected " ++ expected_record ++ B" record"));
      _ ← fail_if (negb (Nat.eqb (length fields) field_count) || existsb (fun f => bytes_eqb f []) fields)
            (PlanRecord (expected_record ++ B" has the wrong field count"));
      Ok fields
  end.

Definition parse_bool_field (value : bytes) : planned bool :=
  if bytes_eqb value (B"0") then Ok false
  else if bytes_eqb value (B"1") then Ok true
  else Err (PlanRecord (B"boolean field must be 0 or 1")).
Definition bool_arg (value : bool) : bytes := if value then B"1" else B"0".

(** [fields[i]] of a record whose number of fields was checked *)
Definition field (fields : list bytes) (i : nat) : bytes := default [] (fields !! i).

(** ** Failures of a command *)

Inductive InstallFailureKind :=
| AlreadyExists | InstallInProgress | InvalidTarget | StageCreateFailed | UploadFailed | ChmodFailed
| VersionExecutionFailed | VersionMismatch | InvalidState | ActivationFailed | ProcessInUse | RollbackFailed
| CleanupFailed | CommandFailed.
Record InstallFailure := { failure_kind : InstallFailureKind; failure_exit_code : option Z; detail : bytes }.

Definition install_failure_code (k : InstallFailureKind) : bytes :=
  match k with
  | AlreadyExists => B"already_exists"
  | InstallInProgress => B"install_in_progress"
  | InvalidTarget => B"invalid_target"
  | StageCreateFailed => B"stage_create_failed"
  | UploadFailed => B"upload_failed"
  | ChmodFailed => B"chmod_failed"
  | VersionExecutionFailed => B"version_exec_failed"
  | VersionMismatch => B"version_mismatch"
  | InvalidState => B"invalid_state"
  | ActivationFailed => B"activation_failed"
  | ProcessInUse => B"process_in_use"
  | RollbackFailed => B"rollback_failed"
  | CleanupFailed => B"cleanup_failed"
  | CommandFailed => B"command_failed"
  end.
Definition marker_failure_kind (marker : bytes) : InstallFailureKind :=
  let named := List.find (fun entry => bytes_eqb marker (fst entry))
    [(B"already_exists", AlreadyExists); (B"install_in_progress", InstallInProgress); (B"invalid_target", InvalidTarget);
     (B"stage_create_failed", StageCreateFailed); (B"upload_failed", UploadFailed); (B"chmod_failed", ChmodFailed);
     (B"version_exec_failed", VersionExecutionFailed); (B"version_mismatch", VersionMismatch);
     (B"invalid_state", InvalidState); (B"activation_failed", ActivationFailed); (B"process_in_use", ProcessInUse);
     (B"rollback_failed", RollbackFailed); (B"cleanup_failed", CleanupFailed)] in
  from_option snd CommandFailed named.

Definition contains_process_in_use (lower : bytes) : bool :=
  existsb (fun needle => contains_text needle lower)
    [B"text file busy"; B"resource busy"; B"device busy"; B"being used by another process"; B"sharing violation";
     B"process_in_use"].

(** Control characters become blanks; those from U+0080 take two bytes. *)
Fixpoint blank_controls (text : bytes) : bytes :=
  match text with
  | [] => []
  | b :: rest =>
      if is_ascii_control b then " "%byte :: blank_controls rest
      else match rest with
           | c :: rest' => if byte_eqb b xc2 && in_range 128 159 c then " "%byte :: blank_controls rest'
                           else b :: blank_controls rest
           | [] => [b]
           end
  end.
Definition MAX_DETAIL_BYTES : Z := 4096.
Definition failure_detail (stderr : bytes) : bytes :=
  let detail := blank_controls (trim stderr) in
  if bytes_eqb detail [] then B"remote install command failed without diagnostics"
  else if zlen detail <=? MAX_DETAIL_BYTES then detail
  else take (boundary_before detail (Z.to_nat MAX_DETAIL_BYTES)) detail ++ [xe2; x80; xa6].

Fixpoint find_marker (lines : list bytes) : option bytes :=
  match lines with
  | [] => None
  | line :: lines =>
      match strip_prefix ERROR_RECORD line ≫= strip_prefix [x09] with
      | Some marker => Some marker
      | None => find_marker lines
      end
  end.
Definition classify_install_failure (exit_code : option Z) (stderr : bytes) : InstallFailure :=
  let marker := find_marker (reverse (str_lines stderr)) in
  let lower := RemoteHost.to_ascii_lowercase stderr in
  {| failure_kind :=
       match marker with
       | Some marker => marker_failure_kind marker
       | None => if contains_process_in_use lower then ProcessInUse
                 else if contains_text (B"rollback") lower then RollbackFailed
                 else CommandFailed
       end;
     failure_exit_code := exit_code;
     detail := failure_detail stderr |}.

(** ** Commands *)

(** The texts of the scripts, and the digest behind a guard token: SHA-256 of the process id,
    the time, a nonce of the process, the target and the command. *)
Class InstallScripts := {
  POSIX_LEASE_SCRIPT : bytes;
  POSIX_LEASE_GUARD_SCRIPT : bytes;
  POSIX_STAGE_SCRIPT : bytes;
  POSIX_ACTIVATE_SCRIPT : bytes;
  POSIX_RECONCILE_SCRIPT : bytes;
  POSIX_ROLLBACK_SCRIPT : bytes;
  POSIX_ABSENCE_CHECK_SCRIPT : bytes;
  POSIX_CLEANUP_SCRIPT : bytes;
  guard_digest : Z -> bytes -> bytes -> bytes }.

(** [shell_quote] of this file, which has no branch for the empty text. *)
Definition quote (value : bytes) : bytes :=
  B"'" ++ (value ≫= fun ch => if byte_eqb ch "'" then B"'\''" else [ch]) ++ B"'".
Definition render_posix_script (name script : bytes) (args : list bytes) : bytes :=
  join_words ([quote (B"sh"); quote (B"-c"); quote script; quote name] ++ (quote <$> args)).

Section Commands.
Context `{InstallScripts}.

Definition new_posix_guard_token (nonce : Z) (target command : bytes) : bytes :=
  take 16 (guard_digest nonce target command) ≫= hex_byte.

Definition plan_new (target version : bytes) (protocol_version : Z) (force : bool) : planned PosixInstallPlan :=
  _ ← validate_target_input target;
  _ ← validate_version version;
  Ok {| target_input := target; expected_version := version; expected_sha256 := None;
        expected_protocol_version := protocol_version; force := force; lease_token := None |}.

Definition sha256_arg (plan : PosixInstallPlan) : bytes := default (B"-") (expected_sha256 plan).

(** The command inside the guard of the lease, once there is one; [nonce] is the value of
    the counter of the process. *)
Definition guard_command (plan : PosixInstallPlan) (nonce : Z) (command : bytes) : bytes :=
  match lease_token plan with
  | None => command
  | Some token =>
      render_posix_script (B"nrm-agent-install-operation") POSIX_LEASE_GUARD_SCRIPT
        [target_input plan; token; new_posix_guard_token nonce (target_input plan) command; command]
  end.

Definition stage_command (plan : PosixInstallPlan) (nonce : Z) : bytes :=
  guard_command plan nonce
    (render_posix_script (B"nrm-agent-stage") POSIX_STAGE_SCRIPT
       [target_input plan; expected_version plan; bool_arg (force plan); sha256_arg plan]).
Definition lease_command (plan : PosixInstallPlan) (token : bytes) : planned bytes :=
  _ ← validate_lease_token token;
  sha256 ← ok_or (expected_sha256 plan)
             (PlanRecord (B"expected artifact digest must be set before acquiring the install lease"));
  Ok (render_posix_script (B"nrm-agent-install-lease") POSIX_LEASE_SCRIPT [target_input plan; token; sha256]).
Definition activate_command (plan : PosixInstallPlan) (nonce : Z) (s : StagedInstall) : bytes :=
  guard_command plan nonce
    (render_posix_script (B"nrm-agent-activate") POSIX_ACTIVATE_SCRIPT
       [target_path s; stage_path s; backup_path s; bool_arg (force plan); bool_arg (had_previous s); sha256_arg plan]).
Definition reconcile_activation_command (plan : PosixInstallPlan) (nonce : Z) (s : StagedInstall) : bytes :=
  guard_command plan nonce
    (render_posix_script (B"nrm-agent-reconcile") POSIX_RECONCILE_SCRIPT
       [target_path s; stage_path s; backup_path s; bool_arg (had_previous s); sha256_arg plan]).
Definition rollback_command (plan : PosixInstallPlan) (nonce : Z) (a : ActivatedInstall) : bytes :=
  guard_command plan nonce
    (render_posix_script (B"nrm-agent-rollback") POSIX_ROLLBACK_SCRIPT
       [target_path (staged a); stage_path (staged a); backup_path (staged a); bool_arg (activated_had_previous a);
        sha256_arg plan]).
Definition absence_check_command (plan : PosixInstallPlan) (nonce : Z) (hook : PosixValidationHook) : planned bytes :=
  _ ← validate_absence_hook hook;
  Ok (guard_command plan nonce
        (render_posix_script (B"nrm-agent-absence-check") POSIX_ABSENCE_CHECK_SCRIPT [executable_path hook])).
Definition cleanup_command (plan : PosixInstallPlan) (nonce : Z) (s : StagedInstall) : bytes :=
  guard_command plan nonce
    (render_posix_script (B"nrm-agent-cleanup") POSIX_CLEANUP_SCRIPT
       [target_path s; stage_path s; backup_path s; bool_arg (had_previous s); sha256_arg plan]).
End Commands.

(** ** Changes of a plan *)

Definition set_force (f : bool) (plan : PosixInstallPlan) : PosixInstallPlan := {|
  target_input := target_input plan; expected_version := expected_version plan;
  expected_sha256 := expected_sha256 plan; expected_protocol_version := expected_protocol_version plan; force := f;
  lease_token := lease_token plan |}.
(** An absolute path that was asked for must come back unchanged. *)
Definition other_target (plan : PosixInstallPlan) (target : bytes) : bool :=
  starts_with (B"/") (target_input plan) && negb (bytes_eqb target (target_input plan)).
Definition bind_resolved_lease_target (target : bytes) (plan : PosixInstallPlan) : planned PosixInstallPlan :=
  _ ← validate_resolved_target target;
  _ ← fail_if (other_target plan target)
        (PlanRecord (B"resolved lease target does not match the requested absolute path"));
  Ok {| target_input := target; expected_version := expected_version plan; expected_sha256 := expected_sha256 plan;
        expected_protocol_version := expected_protocol_version plan; force := force plan; lease_token := lease_token plan |}.
Definition set_expected_sha256 (digest : bytes) (plan : PosixInstallPlan) : planned PosixInstallPlan :=
  _ ← fail_if (negb (is_lowercase_sha256 digest)) (PlanRecord (B"expected artifact digest must be lowercase SHA-256"));
  Ok {| target_input := target_input plan; expected_version := expected_version plan; expected_sha256 := Some digest;
        expected_protocol_version := expected_protocol_version plan; force := force plan; lease_token := lease_token plan |}.
Definition set_lease_token (token : bytes) (plan : PosixInstallPlan) : planned PosixInstallPlan :=
  _ ← validate_lease_token token;
  Ok {| target_input := target_input plan; expected_version := expected_version plan;
        expected_sha256 := expected_sha256 plan; expected_protocol_version := expected_protocol_version plan;
        force := force plan; lease_token := Some token |}.

(** ** Answers *)

Definition parse_lease_ready_stdout (plan : PosixInstallPlan) (token stdout : bytes) : planned bytes :=
  _ ← validate_lease_token token;
  fields ← parse_record stdout LEASE_READY_RECORD 2;
  _ ← fail_if (negb (bytes_eqb (field fields 1) token))
        (PlanRecord (B"lease readiness token does not match the requested lease"));
  _ ← validate_resolved_target (field fields 0);
  _ ← fail_if (other_target plan (field fields 0))
        (PlanRecord (B"lease target does not match the requested absolute path"));
  Ok (field fields 0).

Definition parse_stage_stdout (plan : PosixInstallPlan) (stdout : bytes) : planned StagedInstall :=
  fields ← parse_record stdout STAGE_RECORD 4;
  had_previous ← parse_bool_field (field fields 3);
  let s := {| target_path := field fields 0; stage_path := field fields 1; backup_path := field fields 2;
              had_previous := had_previous |} in
  _ ← validate_staged_install s;
  _ ← fail_if (other_target plan (target_path s))
        (PlanRecord (B"staged target does not match the requested absolute path"));
  Ok s.

Definition parse_activation_stdout (s : StagedInstall) (stdout : bytes) : planned ActivatedInstall :=
  fields ← parse_record stdout ACTIVATED_RECORD 3;
  _ ← fail_if (negb (bytes_eqb (field fields 0) (target_path s)) || negb (bytes_eqb (field fields 1) (backup_path s)))
        (PlanRecord (B"activation record paths do not match the staged install"));
  previous ← parse_bool_field (field fields 2);
  _ ← fail_if (negb (Bool.eqb previous (had_previous s)))
        (PlanRecord (B"activation record does not match staged prior-target state"));
  Ok {| staged := s; activated_had_previous := previous |}.

Definition parse_reconciliation_stdout (s : StagedInstall) (stdout : bytes) : planned ActivationRecovery :=
  fields ← parse_record stdout RECONCILED_RECORD 2;
  _ ← fail_if (negb (bytes_eqb (field fields 0) (target_path s)))
        (PlanRecord (B"reconciliation record target does not match the staged install"));
  kind ← (if bytes_eqb (field fields 1) (B"activation_unchanged_present") then Ok ActivationUnchangedPresent
          else if bytes_eqb (field fields 1) (B"activation_unchanged_missing") then Ok ActivationUnchangedMissing
          else if bytes_eqb (field fields 1) (B"restored_previous") then Ok RestoredPrevious
          else if bytes_eqb (field fields 1) (B"removed_candidate") then Ok RemovedCandidate
          else Err (PlanRecord (B"reconciliation record has an unknown recovery outcome")));
  Ok {| recovery_target_path := target_path s; kind := kind |}.

Definition parse_rollback_stdout (a : ActivatedInstall) (stdout : bytes) : planned RollbackOutcome :=
  fields ← parse_record stdout ROLLED_BACK_RECORD 2;
  _ ← fail_if (negb (bytes_eqb (field fields 0) (target_path (staged a))))
        (PlanRecord (B"rollback record target does not match the activated install"));
  restored ← parse_bool_field (field fields 1);
  _ ← fail_if (negb (Bool.eqb restored (activated_had_previous a)))
        (PlanRecord (B"rollback record does not match prior-target state"));
  Ok {| rollback_target_path := target_path (staged a); restored_previous := restored |}.

Definition parse_absence_check_stdout (hook : PosixValidationHook) (stdout : bytes) : planned unit :=
  _ ← validate_absence_hook hook;
  fields ← parse_record stdout ABSENT_RECORD 1;
  fail_if (negb (bytes_eqb (field fields 0) (executable_path hook)))
    (PlanRecord (B"absence record target does not match the validation hook")).

Definition parse_cleanup_stdout (s : StagedInstall) (stdout : bytes) : planned unit :=
  fields ← parse_record stdout CLEANED_RECORD 1;
  fail_if (negb (bytes_eqb (field fields 0) (target_path s)))
    (PlanRecord (B"cleanup record target does not match the staged install")).

(** ** What to check on the host *)

Definition exact_hello (plan : PosixInstallPlan) (path : bytes) (phase : ValidationPhase) : PosixValidationHook := {|
  executable_path := path; hook_version := Some (expected_version plan);
  hook_protocol_version := Some (expected_protocol_version plan); hook_phase := phase; hook_mode := FullHelloExact |}.
Definition staged_validation (plan : PosixInstallPlan) (s : StagedInstall) : PosixValidationHook :=
  exact_hello plan (stage_path s) PhaseStaged.
Definition post_activation_validation (plan : PosixInstallPlan) (a : ActivatedInstall) : PosixValidationHook :=
  exact_hello plan (target_path (staged a)) PhaseActivated.
Definition reconciliation_validation (r : ActivationRecovery) : PosixValidationHook := {|
  executable_path := recovery_target_path r; hook_version := None; hook_protocol_version := None;
  hook_phase := PhaseReconciled;
  hook_mode := match kind r with
               | ActivationUnchangedPresent | RestoredPrevious => Reprobe
               | ActivationUnchangedMissing | RemovedCandidate => ExpectMissing
               end |}.
Definition rollback_validation (o : RollbackOutcome) : PosixValidationHook := {|
  executable_path := rollback_target_path o; hook_version := None; hook_protocol_version := None;
  hook_phase := PhaseRolledBack; hook_mode := if restored_previous o then Reprobe else ExpectMissing |}.

(** ** Words of a command *)

Lemma quote_shell_quote value : quote value = shell_quote value.
Proof. unfold quote, shell_quote. by destruct (bytes_eqb value []) eqn:E; [apply bytes_eqb_true in E as ->|]. Qed.

(** The remote shell takes a rendered script as its words and expands nothing. *)
Lemma render_words name script args :
  shell_words false None (render_posix_script name script args) = Some ([B"sh"; B"-c"; script; name] ++ args).
Proof.
  unfold render_posix_script. rewrite <- (shell_words_join ([B"sh"; B"-c"; script; name] ++ args)) by done.
  rewrite fmap_app, (list_fmap_ext quote shell_quote args); [|by intros; apply quote_shell_quote].
  cbn [fmap list_fmap]. by rewrite !quote_shell_quote.
Qed.

(** ** Records *)

(** A path that is absolute, names a file and has no control character. *)
Definition runtime_path (p : bytes) : Prop :=
  starts_with (B"/") p = true /\ starts_with (B"//") p = false /\ ends_with_slash p = false /\ has_control_char p = false.
(** A path beside [target]: the separator, then a suffix that is a plain word. *)
Definition beside (target separator p : bytes) : Prop :=
  exists suffix, p = target ++ separator ++ suffix /\ 6 <= zlen suffix <= 32 /\ forallb is_ascii_alphanumeric suffix = true.

Record safe_staged (plan : PosixInstallPlan) (s : StagedInstall) : Prop := {
  safe_target : starts_with (B"/") (target_input plan) = true -> target_path s = target_input plan;
  safe_paths : Forall runtime_path [target_path s; stage_path s; backup_path s];
  safe_stage : beside (target_path s) (B".nrm-stage.") (stage_path s);
  safe_backup : beside (target_path s) (B".nrm-backup.") (backup_path s) }.

Lemma validate_runtime_path_Ok p : validate_runtime_path p = Ok () <-> runtime_path p.
Proof.
  unfold validate_runtime_path, runtime_path. rewrite fail_if_Ok, !orb_false_iff, negb_false_iff. tauto.
Qed.

Lemma validate_derived_path_Ok target p separator :
  validate_derived_path target p separator = Ok () <-> beside target separator p.
Proof.
  unfold validate_derived_path, beside. rewrite bind_Ok. setoid_rewrite ok_or_Ok. setoid_rewrite strip_prefix_Some.
  setoid_rewrite fail_if_Ok. setoid_rewrite orb_false_iff. setoid_rewrite negb_false_iff. setoid_rewrite andb_true_iff.
  setoid_rewrite Z.leb_le. split.
  - intros (suffix & -> & ?). exists suffix. by rewrite app_assoc.
  - intros (suffix & -> & ?). exists suffix. by rewrite app_assoc.
Qed.

Lemma rsplit_once_clean c t u :
  c ∉ u -> rsplit_once c (t ++ u) = (fun '(before, after) => (before, after ++ u)) <$> rsplit_once c t.
Proof.
  intros Hu. induction t as [|b t IH]; cbn.
  - induction u as [|b u IH]; [done|]. apply not_elem_of_cons in Hu as [Hb Hu]. cbn. rewrite IH by done.
    by rewrite (proj2 (byte_eqb_false b c)) by congruence.
  - rewrite IH. destruct (rsplit_once c t) as [[x y]|]; cbn; [done|]. by destruct (byte_eqb b c).
Qed.

Lemma alphanumeric_clean c s : is_ascii_alphanumeric c = false -> forallb is_ascii_alphanumeric s = true -> c ∉ s.
Proof. intros Hc Hs Hin. rewrite forallb_forall in Hs. apply list_elem_of_In, Hs in Hin. congruence. Qed.

(** The checks of [validate_staged] on the parent directories and on the two paths being
    different follow from the other ones. *)
Lemma beside_parent target separator p :
  beside target separator p -> ("/"%byte) ∉ separator -> posix_parent p = posix_parent target.
Proof.
  intros (suffix & -> & _ & Hs) Hsep. unfold posix_parent. rewrite rsplit_once_clean.
  - destruct (rsplit_once "/" target) as [[[|b before] after]|]; done.
  - rewrite elem_of_app. intros [?|Hin]; [done|]. by apply (alphanumeric_clean "/" suffix) in Hin.
Qed.

Lemma beside_distinct target p q : beside target (B".nrm-stage.") p -> beside target (B".nrm-backup.") q -> p <> q.
Proof. intros (x & -> & _) (y & -> & _) E. by apply app_inv_head in E. Qed.

Lemma validate_staged_Ok s :
  validate_staged_install s = Ok () <->
  Forall runtime_path [target_path s; stage_path s; backup_path s] /\
  beside (target_path s) (B".nrm-stage.") (stage_path s) /\ beside (target_path s) (B".nrm-backup.") (backup_path s).
Proof.
  unfold validate_staged_install. rewrite !bind_unit_Ok, !validate_runtime_path_Ok, !validate_derived_path_Ok, !fail_if_Ok.
  rewrite !Forall_cons, Forall_nil. split; [tauto|]. intros ((H1 & H2 & H3 & _) & H4 & H5). split_and!; try done.
  - apply bytes_eqb_false. by eapply beside_distinct.
  - rewrite (beside_parent _ _ _ H4), (beside_parent _ _ _ H5) by (apply contains_byte_false; vm_compute; done).
    by rewrite !(proj2 (bytes_eqb_true _ _)).
Qed.

(** A line with its end. *)
Definition ended (line out : bytes) : Prop := out = line \/ out = line ++ [x0a] \/ out = line ++ [x0d; x0a].

Lemma strip_suffix_Some suffix s t : strip_suffix suffix s = Some t <-> s = t ++ suffix.
Proof.
  unfold strip_suffix. destruct (ends_with suffix s) eqn:E.
  - apply ends_with_spec in E as (u & ->). rewrite length_app, Nat.add_sub, take_app_length. split; [by intros [= <-]|].
    by intros <-%app_inv_tail.
  - split; [done|]. intros ->. enough (ends_with suffix (t ++ suffix) = true) by congruence. apply ends_with_spec. eauto.
Qed.

Lemma record_line_ended line out : x0d ∉ line -> x0a ∉ line -> record_line out = line <-> ended line out.
Proof.
  intros Hcr Hlf. unfold record_line, ended, or_else. split.
  - destruct (strip_suffix [x0d; x0a] out) as [t|] eqn:E1; cbn; [apply strip_suffix_Some in E1; naive_solver|].
    destruct (strip_suffix [x0a] out) as [t|] eqn:E2; cbn; [apply strip_suffix_Some in E2; naive_solver | naive_solver].
  - intros [->|[->| ->]].
    + assert (Hn : forall a, strip_suffix (a ++ [x0a]) line = None).
      { intros a. apply eq_None_not_Some. intros [t ->%strip_suffix_Some]. apply Hlf. set_solver. }
      by rewrite (Hn [x0d] : strip_suffix [x0d; x0a] line = None), (Hn [] : strip_suffix [x0a] line = None).
    + assert (E : strip_suffix [x0d; x0a] (line ++ [x0a]) = None).
      { apply eq_None_not_Some. intros [t Ht%strip_suffix_Some]. change [x0d; x0a] with ([x0d] ++ [x0a]) in Ht.
        rewrite app_assoc in Ht. apply app_inv_tail in Ht as ->. apply Hcr. set_solver. }
      rewrite E, (proj2 (strip_suffix_Some _ _ line)) by done. done.
    + by rewrite (proj2 (strip_suffix_Some _ _ line)).
Qed.

(** [parse_record] on a line with the fields of a record. *)
Definition record (name : bytes) (fields : list bytes) : bytes := join_with x09 (name :: fields).

Definition clean_field (f : bytes) : Prop := f <> [] /\ x09 ∉ f /\ x0a ∉ f /\ x0d ∉ f.

Lemma join_with_elem c segs b : b ∈ join_with c segs -> b = c \/ exists seg, seg ∈ segs /\ b ∈ seg.
Proof.
  induction segs as [|seg [|seg2 segs] IH]; [set_solver | set_solver |].
  change (join_with c (seg :: seg2 :: segs)) with (seg ++ c :: join_with c (seg2 :: segs)). rewrite elem_of_app, elem_of_cons.
  intros [?|[?|Hin]]; [set_solver | by left |]. destruct (IH Hin) as [?|(x & ? & ?)]; set_solver.
Qed.

Lemma elem_of_join_with c segs seg b : seg ∈ segs -> b ∈ seg -> b ∈ join_with c segs.
Proof.
  intros Hs Hb. induction segs as [|seg1 [|seg2 segs] IH]; [set_solver | set_solver |].
  change (join_with c (seg1 :: seg2 :: segs)) with (seg1 ++ c :: join_with c (seg2 :: segs)).
  rewrite elem_of_app, elem_of_cons. apply elem_of_cons in Hs as [->|Hs]; [by left | right; right; by apply IH].
Qed.

Lemma parse_record_exact out name n fields :
  clean_field name ->
  parse_record out name n = Ok fields <->
  length fields = n /\ Forall clean_field fields /\ ended (record name fields) out.
Proof.
  intros Hname. unfold parse_record. rewrite bind_unit_Ok, fail_if_Ok, orb_false_iff, !contains_byte_false. split.
  - intros [[Hcr Hlf] Hk]. destruct (split_on x09 (record_line out)) as [|first fs] eqn:Es; [done|].
    apply bind_unit_Ok in Hk as [Hf%fail_if_Ok Hk]. apply bind_unit_Ok in Hk as [Hn%fail_if_Ok [= <-]].
    rewrite negb_false_iff, bytes_eqb_true in Hf. subst first.
    apply orb_false_iff in Hn as [Hn%negb_false_iff%Nat.eqb_eq He].
    assert (El : record name fs = record_line out) by (unfold record; by rewrite <- Es, join_split).
    split; [done|]. rewrite <- El in Hcr, Hlf. split; [|apply record_line_ended; done].
    assert (Hseg : Forall (fun seg => x09 ∉ seg) (name :: fs)).
    { rewrite <- Es. eapply Forall_impl; [apply (split_by_segments (byte_eqb x09))|]. intros seg Hseg Hin.
      rewrite Forall_forall in Hseg. apply Hseg in Hin. by rewrite byte_eqb_refl in Hin. }
    apply Forall_cons in Hseg as [_ Hseg]. rewrite Forall_forall in *. intros f Hin. repeat split.
    + intros ->. rewrite existsb_false, Forall_forall in He. by specialize (He [] Hin).
    + by apply Hseg.
    + intros Hb. apply Hlf. eapply elem_of_join_with; [apply elem_of_cons; right; exact Hin | done].
    + intros Hb. apply Hcr. eapply elem_of_join_with; [apply elem_of_cons; right; exact Hin | done].
  - intros (Hn & Hc & He). assert (Hall : Forall clean_field (name :: fields)) by by constructor.
    assert (Hno : forall b, b <> x09 -> Forall (fun f => b ∉ f) (name :: fields) -> b ∉ record name fields).
    { intros b Hb Hf Hin%join_with_elem. destruct Hin as [?|(seg & Hs & Hin)]; [done|]. rewrite Forall_forall in Hf. by apply (Hf seg). }
    assert (Hcr : x0d ∉ record name fields) by (apply Hno; [done|]; eapply Forall_impl; [exact Hall|]; by intros f (?&?&?&?)).
    assert (Hlf : x0a ∉ record name fields) by (apply Hno; [done|]; eapply Forall_impl; [exact Hall|]; by intros f (?&?&?&?)).
    apply record_line_ended in He as ->; [|done..]. split; [done|].
    unfold record. rewrite split_join; [|done|eapply Forall_impl; [exact Hall|]; by intros f (?&?&?&?)].
    rewrite (proj2 (bytes_eqb_true _ _)) by done. cbn. rewrite (proj2 (Nat.eqb_eq _ _) Hn). cbn.
    rewrite (proj2 (existsb_false _ _)); [done|]. eapply Forall_impl; [exact Hc|]. intros f [Hne _]. by apply bytes_eqb_false.
Qed.

Lemma parse_bool_field_Ok f v : parse_bool_field f = Ok v <-> f = bool_arg v.
Proof.
  unfold parse_bool_field, bool_arg. destruct (bytes_eqb f (B"0")) eqn:E0; [apply bytes_eqb_true in E0 as ->; by destruct v|].
  destruct (bytes_eqb f (B"1")) eqn:E1; [apply bytes_eqb_true in E1 as ->; by destruct v|].
  apply bytes_eqb_false in E0, E1. by destruct v.
Qed.

Lemma no_control_char p c : has_control_char p = false -> is_ascii_control c = true -> c ∉ p.
Proof.
  intros Hp Hc. induction p as [|b p IH]; [set_solver|]. cbn in Hp. rewrite !orb_false_iff in Hp.
  destruct Hp as [[Hb _] Hp]. apply not_elem_of_cons. split; [congruence | auto].
Qed.

Lemma runtime_path_clean p : runtime_path p -> clean_field p.
Proof.
  intros (Hs & _ & _ & Hc). split; [by intros ->|]. split_and!; by eapply no_control_char.
Qed.
Lemma bool_arg_clean v : clean_field (bool_arg v).
Proof. split; [by destruct v|]. split_and!; apply contains_byte_false; destruct v; vm_compute; done. Qed.

(** The record of a staged install. *)
Definition stage_record (s : StagedInstall) : bytes :=
  record STAGE_RECORD [target_path s; stage_path s; backup_path s; bool_arg (had_previous s)].

Lemma stage_record_name : clean_field STAGE_RECORD.
Proof. split; [done|]. split_and!; apply contains_byte_false; vm_compute; done. Qed.

Lemma other_target_false plan t :
  other_target plan t = false <-> (starts_with (B"/") (target_input plan) = true -> t = target_input plan).
Proof.
  unfold other_target. destruct (starts_with (B"/") (target_input plan)); cbn; [|done].
  rewrite negb_false_iff, bytes_eqb_true. tauto.
Qed.

Lemma parse_stage_Ok plan out s :
  parse_stage_stdout plan out = Ok s -> safe_staged plan s /\ ended (stage_record s) out.
Proof.
  unfold parse_stage_stdout. intros (fields & (Hn & Hc & He)%(parse_record_exact _ _ _ _ stage_record_name) & Hk)%bind_Ok.
  destruct fields as [|a [|b [|c [|d [|]]]]]; try done.
  apply bind_Ok in Hk as (v & Hv%parse_bool_field_Ok & Hk). apply bind_unit_Ok in Hk as [Hs%validate_staged_Ok Hk].
  apply bind_unit_Ok in Hk as [Ho%fail_if_Ok [= <-]]. unfold field in *. cbn in *. subst d.
  destruct Hs as (Hp & H1 & H2). split; [|done]. split; try done. by apply other_target_false.
Qed.

(** C23 (equivalence) The answer to the staging of an agent is accepted exactly when it is one line, with
    or without its end, that is the record of a staged install whose three paths are absolute
    and free of control characters, whose stage and backup are the target's path with a
    separator and a short plain word behind it (hence in the target's directory and
    different), and whose target is the absolute path that was asked for, if one was. *)
Theorem staged_record_exact plan out s :
  parse_stage_stdout plan out = Ok s <-> safe_staged plan s /\ ended (stage_record s) out.
Proof.
  split; [apply parse_stage_Ok|]. intros [[H1 H2 H3 H4] He]. unfold parse_stage_stdout.
  apply bind_Ok. exists [target_path s; stage_path s; backup_path s; bool_arg (had_previous s)]. split.
  - apply (parse_record_exact _ _ _ _ stage_record_name). split; [done|]. split; [|done].
    rewrite !Forall_cons, Forall_nil in *. destruct H2 as (? & ? & ? & _).
    split_and!; try done; try (by apply runtime_path_clean); apply bool_arg_clean.
  - unfold field. cbn. rewrite (proj2 (parse_bool_field_Ok _ (had_previous s))) by done. cbn.
    rewrite (proj2 (validate_staged_Ok _)) by done. cbn. rewrite (proj2 (other_target_false _ _)) by done. by destruct s.
Qed.
