(* ===== verification/PosixInstallOps.v ===== *)
(** * The steps of an installation over ssh (crates/nrm-sidecar/src/main.rs)

    [PosixSshInstallOps] as an implementation of the steps of [Install]: each step asks for
    the lease and for time, sends a command of the plan or starts an agent, and reads the
    record that comes back.  What the host, the lease, the agents and the clock answer is a
    function of the number of calls so far; [events] is what was sent and started. *)
From S2P Require Import Prelude Paths RuntimeMessages LspProxy RemoteHost RuntimeRecords AgentCommand Install PosixInstall.

(** ** The world *)

(** [Sent]: a command given to ssh, whether the agent's executable is its input, and its
    timeout.  [Probed]: an agent started from a path, for a Hello. *)
Inductive install_event :=
| Sent (command : bytes) (uploads : bool) (timeout : Z)
| Probed (executable : bytes)
| ProbedNormal
| StoppedNormal
| ClearedUnavailable.

(** [source] says that the executable has not been taken. *)
Record install_world := { looks : nat; nonce : Z; source : bool; events : list install_event }.

(** An error from outside, and whether its chain has one of the timeouts that
    [map_budgeted_error] looks for. *)
Record outside := { cause : error; timed_out : bool }.
Record CapturedProcessOutput := { success : bool; status_code : option Z; stdout : bytes; stderr : bytes }.

Class InstallEnv := {
  elapsed_at : nat -> Z;
  held_at : nat -> bytes -> result error unit;
  run_at : nat -> bytes -> result outside CapturedProcessOutput;
  probe_at : nat -> bytes -> result outside unit;
  probe_restored_at : nat -> bytes -> result outside unit;
  probe_normal_at : nat -> result outside unit;
  kill_worker_at : nat -> result outside unit }.

Definition IO (A : Type) : Type := install_world -> result error A * install_world.
#[export] Instance IO_ret : MRet IO := fun A a w => (Ok a, w).
#[export] Instance IO_bind : MBind IO := fun A B k m w =>
  match m w with
  | (Ok a, w) => k a w
  | (Err e, w) => (Err e, w)
  end.

Definition lift {A} (r : result error A) : IO A := fun w => (r, w).
Definition attempt {A} (m : IO A) : IO (result error A) := fun w => let '(r, w) := m w in (Ok r, w).
Definition look {A} (answer : nat -> A) : IO A := fun w =>
  (Ok (answer (looks w)), {| looks := S (looks w); nonce := nonce w; source := source w; events := events w |}).
Definition emit (e : install_event) : IO unit := fun w =>
  (Ok (), {| looks := looks w; nonce := nonce w; source := source w; events := events w ++ [e] |}).
(** [self.source.take()] *)
Definition take_source : IO bool := fun w =>
  (Ok (source w), {| looks := looks w; nonce := nonce w; source := false; events := events w |}).

Definition plain_error (text : bytes) : error := {| error_text := text; is_bootstrap_timeout := false |}.
(** [Result::context]: the text changes, the chain stays. *)
Definition in_context (text : bytes) (e : error) : error :=
  {| error_text := text; is_bootstrap_timeout := is_bootstrap_timeout e |}.
Definition with_context {A} (text : bytes) (m : IO A) : IO A :=
  r ← attempt m; lift (map_err (in_context text) r).
Definition parsed {A} (text : bytes) (r : planned A) : IO A := lift (map_err (fun _ => plain_error text) r).

(** ** The deadline *)

Definition millis (n : Z) : Z := n * 1000000.
Definition BOOTSTRAP_RECOVERY_RESERVE_MIN_MS : Z := 250.
Definition BOOTSTRAP_RECOVERY_RESERVE_MAX_MS : Z := 10000.
Inductive BootstrapBudget := Forward | Recovery.
(** Durations in nanoseconds. *)
Record BootstrapDeadline := { total : Z; recovery_reserve : Z }.
Definition deadline_new (total : Z) : BootstrapDeadline :=
  let desired := Z.max (millis BOOTSTRAP_RECOVERY_RESERVE_MIN_MS)
                   (Z.min (total / 4) (millis BOOTSTRAP_RECOVERY_RESERVE_MAX_MS)) in
  {| total := total; recovery_reserve := Z.min desired (total / 2) |}.

Definition expired_during (phase : bytes) : error := {|
  error_text := B"bootstrap_timeout: whole-bootstrap deadline expired during " ++ phase; is_bootstrap_timeout := true |}.

Section Steps.
Context `{InstallScripts} `{InstallEnv} (deadline : BootstrapDeadline) (plan : PosixInstallPlan).

Definition timeout (budget : BootstrapBudget) (phase : bytes) : IO Z :=
  elapsed ← look elapsed_at;
  let remaining := saturating_sub (total deadline) elapsed in
  let available := match budget with
                   | Forward => saturating_sub remaining (recovery_reserve deadline)
                   | Recovery => remaining
                   end in
  lift (if available =? 0 then Err (expired_during phase) else Ok available).

Definition map_budgeted_error (budget : BootstrapBudget) (phase : bytes) (e : outside) : IO error :=
  let expired := expired_during (phase ++ B": " ++ error_text (cause e)) in
  if is_bootstrap_timeout (cause e) || timed_out e then mret expired
  else
    r ← attempt (timeout budget phase);
    mret (match r with Err _ => expired | Ok _ => cause e end).
Definition budgeted {A} (budget : BootstrapBudget) (phase : bytes) (m : IO (result outside A)) : IO A :=
  r ← m;
  match r with
  | Ok a => mret a
  | Err e => e ← map_budgeted_error budget phase e; lift (Err e)
  end.

(** ** What the steps use *)

Definition ensure_held (phase : bytes) : IO unit := r ← look (fun n => held_at n phase); lift r.
Definition run_command (command : bytes) (uploads : bool) (limit : Z) : IO (result outside CapturedProcessOutput) :=
  emit (Sent command uploads limit);; look (fun n => run_at n command).
(** The counter of guard tokens, which only a guarded command uses. *)
Definition fresh_nonce : IO Z := fun w =>
  match lease_token plan with
  | Some _ => (Ok (nonce w), {| looks := looks w; nonce := (nonce w + 1) mod 2 ^ 64; source := source w; events := events w |})
  | None => (Ok (nonce w), w)
  end.

Definition command_output (command : bytes) (budget : BootstrapBudget) (context : bytes) : IO CapturedProcessOutput :=
  limit ← timeout budget context;
  budgeted budget context (run_command command false limit).
Definition require_success (output : CapturedProcessOutput) : result error bytes :=
  if success output then Ok (stdout output)
  else
    let failure := classify_install_failure (status_code output) (stderr output) in
    Err (plain_error (install_failure_code (failure_kind failure) ++ B": " ++ detail failure)).
Definition confirm_target_absent (hook : PosixValidationHook) : IO unit :=
  n ← (if is_ok (validate_absence_hook hook) then fresh_nonce else mret 0);
  command ← parsed (B"invalid absent-target validation hook") (absence_check_command plan n hook);
  output ← command_output command Recovery (B"remote agent absence check");
  out ← lift (require_success output);
  parsed (B"remote agent absence check returned an invalid record") (parse_absence_check_stdout hook out).
Definition stop_normal_agent (budget : BootstrapBudget) (context : bytes) : IO unit :=
  _ ← timeout budget context;
  emit StoppedNormal;;
  budgeted budget context (look kill_worker_at);;
  _ ← timeout budget context;
  mret ().
Definition start_probe (e : install_event) (answer : nat -> result outside unit) : IO (result outside unit) :=
  emit e;; look answer.

(** ** The steps *)

Definition stage_step : IO StagedInstall :=
  ensure_held (B"remote agent staging");;
  has_source ← take_source;
  lift (fail_if (negb has_source) (plain_error (B"agent source was already consumed")));;
  n ← fresh_nonce;
  limit ← timeout Forward (B"remote agent staging");
  output ← budgeted Forward (B"remote agent staging") (run_command (stage_command plan n) true limit);
  out ← lift (require_success output);
  parsed (B"remote agent staging returned an invalid record") (parse_stage_stdout plan out).

Definition validate_staged_step (s : StagedInstall) : IO unit :=
  ensure_held (B"staged agent exact Hello");;
  let hook := staged_validation plan s in
  _ ← timeout Forward (B"staged agent exact Hello");
  with_context (B"staged agent Hello failed")
    (budgeted Forward (B"staged agent exact Hello")
       (start_probe (Probed (executable_path hook)) (fun n => probe_at n (executable_path hook))));;
  _ ← timeout Forward (B"staged agent exact Hello completion");
  mret ().

Definition ensure_activation_budget_step : IO unit :=
  ensure_held (B"remote agent activation budget check");;
  _ ← timeout Forward (B"remote agent activation");
  mret ().

Definition activate_step (s : StagedInstall) : IO ActivatedInstall :=
  ensure_held (B"remote agent activation");;
  n ← fresh_nonce;
  output ← command_output (activate_command plan n s) Forward (B"remote agent activation");
  out ← lift (require_success output);
  _ ← timeout Forward (B"remote agent activation response");
  parsed (B"remote agent activation returned an invalid record") (parse_activation_stdout s out).

Definition validate_activated_step (a : ActivatedInstall) : IO unit :=
  ensure_held (B"normal-path agent Hello");;
  _ ← timeout Forward (B"normal-path agent Hello");
  with_context (B"normal-path agent Hello failed")
    (budgeted Forward (B"normal-path agent Hello") (start_probe ProbedNormal probe_normal_at));;
  _ ← timeout Forward (B"normal-path agent Hello completion");
  mret ().

Definition reconcile_activation_step (s : StagedInstall) : IO ActivationRecovery :=
  stop_normal_agent Recovery (B"normal-path agent exit before activation reconciliation");;
  ensure_held (B"remote agent activation reconciliation");;
  n ← fresh_nonce;
  output ← command_output (reconcile_activation_command plan n s) Recovery (B"remote agent activation reconciliation");
  out ← lift (require_success output);
  parsed (B"remote agent activation reconciliation returned an invalid record") (parse_reconciliation_stdout s out).

(** The two validations after a recovery differ in their texts only. *)
Definition validate_recovered (hook : PosixValidationHook) (hello completion failed invalid : bytes) : IO unit :=
  match hook_mode hook with
  | Reprobe =>
      _ ← timeout Recovery hello;
      with_context failed
        (budgeted Recovery hello
           (start_probe (Probed (executable_path hook)) (fun n => probe_restored_at n (executable_path hook))));;
      _ ← timeout Recovery completion;
      emit ClearedUnavailable
  | ExpectMissing => confirm_target_absent hook;; emit ClearedUnavailable
  | FullHelloExact => lift (Err (plain_error invalid))
  end.
Definition validate_reconciliation_step (r : ActivationRecovery) : IO unit :=
  ensure_held (B"reconciled agent validation");;
  validate_recovered (reconciliation_validation r) (B"reconciled agent Hello") (B"reconciled agent Hello completion")
    (B"reconciled agent Hello failed") (B"reconciliation returned an invalid validation mode").

Definition rollback_step (a : ActivatedInstall) : IO RollbackOutcome :=
  stop_normal_agent Recovery (B"normal-path agent exit before rollback");;
  ensure_held (B"remote agent rollback");;
  n ← fresh_nonce;
  output ← command_output (rollback_command plan n a) Recovery (B"remote agent rollback");
  out ← lift (require_success output);
  parsed (B"remote agent rollback returned an invalid record") (parse_rollback_stdout a out).

Definition validate_rollback_step (o : RollbackOutcome) : IO unit :=
  ensure_held (B"restored agent validation");;
  validate_recovered (rollback_validation o) (B"restored agent Hello") (B"restored agent Hello completion")
    (B"restored agent Hello failed") (B"rollback returned an invalid validation mode").

Definition cleanup_step (s : StagedInstall) : IO unit :=
  ensure_held (B"remote agent cleanup");;
  n ← fresh_nonce;
  output ← command_output (cleanup_command plan n s) Recovery (B"remote agent cleanup");
  out ← lift (require_success output);
  parsed (B"remote agent cleanup returned an invalid record") (parse_cleanup_stdout s out).

Definition PosixSshInstallOps : AgentInstallOps install_world := {|
  stage := stage_step; validate_staged := validate_staged_step;
  ensure_activation_budget := ensure_activation_budget_step; activate := activate_step;
  reconcile_activation := reconcile_activation_step; validate_reconciliation := validate_reconciliation_step;
  validate_activated := validate_activated_step; rollback := rollback_step; validate_rollback := validate_rollback_step;
  cleanup := cleanup_step |}.
End Steps.

(** From the prepared plan to the plan of the transaction, once the lease is held and the
    holder announced its target. *)
Definition leased_plan (plan : PosixInstallPlan) (token ready : bytes) : planned PosixInstallPlan :=
  target ← parse_lease_ready_stdout plan token ready;
  plan ← bind_resolved_lease_target target plan;
  set_lease_token token plan.
(** The plan of [prepare_remote_agent_install]. *)
Definition prepared_plan (target version : bytes) (protocol_version : Z) (force : bool) (sha256 : bytes) :
    planned PosixInstallPlan :=
  plan ← plan_new target version protocol_version force;
  set_expected_sha256 sha256 plan.
