(* ===== verification/PosixInstallTrace.v ===== *)
(** * The commands of an installation

    Whatever the host, the lease, the agents and the clock do, a transaction over ssh stages
    once and then acts only on the stage, the backup and the target of one record. *)
From S2P Require Import Prelude Paths RuntimeMessages LspProxy RemoteHost RuntimeRecords AgentCommand Install PosixInstall PosixInstallOps.

Create HintDb install.

Section Trace.
Context `{InstallScripts} `{InstallEnv} (deadline : BootstrapDeadline) (plan : PosixInstallPlan).

(** ** What may be sent *)

Definition within (budget : BootstrapBudget) (limit : Z) : Prop :=
  0 < limit <= match budget with Forward => total deadline - recovery_reserve deadline | Recovery => total deadline end.

(** The words of a script run by the remote shell. *)
Definition script_words (name script : bytes) (args : list bytes) : list bytes := [B"sh"; B"-c"; script; name] ++ args.
(** [command] makes the remote shell run [words]: directly, or through the guard of the lease. *)
Definition runs_words (words : list bytes) (command : bytes) : Prop :=
  match lease_token plan with
  | None => shell_words false None command = Some words
  | Some token => exists guard inner,
      shell_words false None command =
        Some (script_words (B"nrm-agent-install-operation") POSIX_LEASE_GUARD_SCRIPT [target_input plan; token; guard; inner]) /\
      shell_words false None inner = Some words
  end.

Definition stage_words : list bytes :=
  script_words (B"nrm-agent-stage") POSIX_STAGE_SCRIPT
    [target_input plan; expected_version plan; bool_arg (force plan); sha256_arg plan].
(** The operations on a staged install, with the budget each draws on. *)
Definition operations (s : StagedInstall) : list (BootstrapBudget * list bytes) :=
  [(Forward, script_words (B"nrm-agent-activate") POSIX_ACTIVATE_SCRIPT
      [target_path s; stage_path s; backup_path s; bool_arg (force plan); bool_arg (had_previous s); sha256_arg plan]);
   (Recovery, script_words (B"nrm-agent-reconcile") POSIX_RECONCILE_SCRIPT
      [target_path s; stage_path s; backup_path s; bool_arg (had_previous s); sha256_arg plan]);
   (Recovery, script_words (B"nrm-agent-rollback") POSIX_ROLLBACK_SCRIPT
      [target_path s; stage_path s; backup_path s; bool_arg (had_previous s); sha256_arg plan]);
   (Recovery, script_words (B"nrm-agent-absence-check") POSIX_ABSENCE_CHECK_SCRIPT [target_path s]);
   (Recovery, script_words (B"nrm-agent-cleanup") POSIX_CLEANUP_SCRIPT
      [target_path s; stage_path s; backup_path s; bool_arg (had_previous s); sha256_arg plan])].

Definition staging (e : install_event) : Prop :=
  exists command limit, e = Sent command true limit /\ runs_words stage_words command /\ within Forward limit.
Definition acting_on (s : StagedInstall) (e : install_event) : Prop :=
  match e with
  | Sent command uploads limit =>
      uploads = false /\ exists budget words, (budget, words) ∈ operations s /\ runs_words words command /\ within budget limit
  | Probed executable => executable = stage_path s \/ executable = target_path s
  | ProbedNormal | StoppedNormal | ClearedUnavailable => True
  end.

(** ** Computations and their events *)

Definition allows {E A} (P : install_event -> Prop) (Q : A -> Prop) (m : install_world -> result E A * install_world) : Prop :=
  forall w r w', m w = (r, w') -> exists new, events w' = events w ++ new /\ Forall P new /\ forall a, r = Ok a -> Q a.

Section Rules.
Context (P : install_event -> Prop).

Lemma allows_weaken {E A} (Q Q' : A -> Prop) (m : install_world -> result E A * install_world) :
  allows P Q m -> (forall a, Q a -> Q' a) -> allows P Q' m.
Proof. intros Hm HQ w r w' (new & ? & ? & ?)%Hm. exists new. split_and!; auto. Qed.

Lemma allows_bind {A B} (Q : A -> Prop) (Q' : B -> Prop) (m : IO A) (k : A -> IO B) :
  allows P Q m -> (forall a, Q a -> allows P Q' (k a)) -> allows P Q' (m ≫= k).
Proof.
  intros Hm Hk w r w' E. unfold mbind, IO_bind in E. destruct (m w) as [[a|e] w1] eqn:E1; apply Hm in E1 as (n1 & H1 & HP1 & HQ1).
  - apply (Hk a) in E as (n2 & H2 & HP2 & HQ2); [|auto]. exists (n1 ++ n2). rewrite H2, H1, app_assoc.
    split_and!; [done| by apply Forall_app | done].
  - injection E as <- <-. exists n1. by split_and!.
Qed.

(** The two forms in which the transaction looks at the result of a step. *)
Lemma allows_run {E E' A B} (Q : A -> Prop) (Q' : B -> Prop) (m : install_world -> result E A * install_world)
    (k : result E A -> install_world -> result E' B * install_world) :
  allows P Q m -> (forall r, (forall a, r = Ok a -> Q a) -> allows P Q' (k r)) ->
  allows P Q' (fun w => let '(r, w) := m w in k r w).
Proof.
  intros Hm Hk w r w' E0. cbn in E0. destruct (m w) as [r1 w1] eqn:E1. apply Hm in E1 as (n1 & H1 & HP1 & HQ1).
  apply (Hk r1) in E0 as (n2 & H2 & HP2 & HQ2); [|auto]. exists (n1 ++ n2). rewrite H2, H1, app_assoc.
  split_and!; [done| by apply Forall_app | done].
Qed.
Lemma allows_cases {E E' A B} (Q : A -> Prop) (Q' : B -> Prop) (m : install_world -> result E A * install_world)
    (f : E -> install_world -> result E' B * install_world) (g : A -> install_world -> result E' B * install_world) :
  allows P Q m -> (forall e, allows P Q' (f e)) -> (forall a, Q a -> allows P Q' (g a)) ->
  allows P Q' (fun w => match m w with (Err e, w) => f e w | (Ok a, w) => g a w end).
Proof.
  intros Hm Hf Hg. assert (Hr := allows_run Q Q' m (fun r w => match r with Err e => f e w | Ok a => g a w end) Hm).
  intros w r w' E0. apply (Hr ltac:(intros [a|e] Ha; [apply Hg; by apply Ha | apply Hf]) w r w').
  destruct (m w) as [[a|e] w1]; exact E0.
Qed.

Lemma allows_lift {E A} (Q : A -> Prop) (r : result E A) : (forall a, r = Ok a -> Q a) -> allows P Q (fun w => (r, w)).
Proof. intros HQ w r' w' [= <- <-]. exists []. by rewrite app_nil_r. Qed.
Lemma allows_ret {A} (Q : A -> Prop) (a : A) : Q a -> allows P Q (mret a : IO A).
Proof. intros HQ. apply (allows_lift Q (Ok a)). by intros ? [= <-]. Qed.
Lemma allows_look {A} (answer : nat -> A) : allows P (fun _ => True) (look answer).
Proof. intros w r w' [= <- <-]. exists []. by rewrite app_nil_r. Qed.
Lemma allows_emit e : P e -> allows P (fun _ => True) (emit e).
Proof. intros He w r w' [= <- <-]. exists [e]. split_and!; [done| by constructor | done]. Qed.
Lemma allows_attempt {A} (Q : A -> Prop) (m : IO A) :
  allows P Q m -> allows P (fun r => forall a, r = Ok a -> Q a) (attempt m).
Proof.
  intros Hm w r w' E0. unfold attempt in E0. destruct (m w) as [r1 w1] eqn:E1. injection E0 as <- <-.
  apply Hm in E1 as (new & ? & ? & ?). exists new. split_and!; try done. by intros a [= <-].
Qed.
End Rules.

(** ** The parts of the steps *)

Lemma guarded_runs n name script args :
  runs_words (script_words name script args) (guard_command plan n (render_posix_script name script args)).
Proof.
  unfold runs_words, guard_command. destruct (lease_token plan) as [token|]; [|apply render_words].
  eexists _, _. split; apply render_words.
Qed.

Context (Hclock : forall n, 0 <= elapsed_at n) (Hreserve : 0 <= recovery_reserve deadline).

Section Parts.
Context (P : install_event -> Prop).

Lemma allows_timeout budget phase : allows P (within budget) (timeout deadline budget phase).
Proof.
  unfold timeout. intros w r w' E0. unfold look, mbind, IO_bind, lift in E0. cbn in E0. injection E0 as <- <-. cbn.
  exists []. rewrite app_nil_r. split; [done|]. split; [constructor|]. intros a. specialize (Hclock (looks w)).
  case_match eqn:Ea; [done|]. intros [= <-]. apply Z.eqb_neq in Ea. unfold within, saturating_sub in *. destruct budget; lia.
Qed.

Lemma allows_held phase : allows P (fun _ => True) (ensure_held phase).
Proof. eapply allows_bind; [apply allows_look|]. intros r _. by apply allows_lift. Qed.

Lemma allows_nonce : allows P (fun _ => True) (fresh_nonce plan).
Proof. intros w r w'. unfold fresh_nonce. destruct (lease_token plan); intros [= <- <-]; exists []; by rewrite app_nil_r. Qed.

Lemma allows_parsed {A} (Q : A -> Prop) text (r : planned A) : (forall a, r = Ok a -> Q a) -> allows P Q (parsed text r).
Proof. intros HQ. apply allows_lift. intros a Ha%map_err_Ok. by apply HQ. Qed.

Lemma allows_context {A} (Q : A -> Prop) text (m : IO A) : allows P Q m -> allows P Q (with_context text m).
Proof.
  intros Hm. eapply allows_bind; [by apply allows_attempt|]. intros r HQ. apply allows_lift. intros a Ha%map_err_Ok. by apply HQ.
Qed.

Lemma allows_budgeted {A} budget phase (m : IO (result outside A)) :
  allows P (fun _ => True) m -> allows P (fun _ => True) (budgeted deadline budget phase m).
Proof.
  intros Hm. eapply allows_bind; [exact Hm|]. intros [a|e] _; [by apply allows_ret|].
  apply (allows_bind P (fun _ => True)); [|intros ? _; by apply allows_lift]. unfold map_budgeted_error.
  destruct (_ || _); [by apply allows_ret|].
  eapply allows_bind; [apply allows_attempt, allows_timeout|]. intros r _. by apply allows_ret.
Qed.

Lemma allows_sent command uploads limit :
  P (Sent command uploads limit) -> allows P (fun _ => True) (run_command command uploads limit).
Proof. intros HP. eapply allows_bind; [by apply allows_emit|]. intros _ _. apply allows_look. Qed.

Lemma allows_probe e answer : P e -> allows P (fun _ => True) (start_probe e answer).
Proof. intros HP. eapply allows_bind; [by apply allows_emit|]. intros _ _. apply allows_look. Qed.

Lemma allows_output command budget context :
  (forall limit, within budget limit -> P (Sent command false limit)) ->
  allows P (fun _ => True) (command_output deadline command budget context).
Proof.
  intros HP. eapply allows_bind; [apply allows_timeout|]. intros limit Hl. apply allows_budgeted, allows_sent. by apply HP.
Qed.

Lemma allows_stop budget context : P StoppedNormal -> allows P (fun _ => True) (stop_normal_agent deadline budget context).
Proof.
  intros HP. eapply allows_bind; [apply allows_timeout|]. intros _ _. eapply allows_bind; [by apply allows_emit|]. intros _ _.
  eapply allows_bind; [apply allows_budgeted, allows_look|]. intros _ _.
  eapply allows_bind; [apply allows_timeout|]. intros _ _. by apply allows_ret.
Qed.
End Parts.

#[local] Hint Resolve allows_timeout allows_held allows_nonce allows_look allows_stop : install.
(** Takes the next part of a step. *)
Ltac part := eapply allows_bind; [solve [eauto with install] | intros ? ?].

(** ** The steps *)

Lemma allows_operation {A} s budget name script args phase read_error (parse : bytes -> planned A) (Q : A -> Prop) :
  (budget, script_words name script args) ∈ operations s -> (forall out a, parse out = Ok a -> Q a) ->
  forall n, allows (acting_on s) Q
    (output ← command_output deadline (guard_command plan n (render_posix_script name script args)) budget phase;
     out ← lift (require_success output);
     parsed read_error (parse out)).
Proof.
  intros Hin HQ n. eapply allows_bind.
  - apply allows_output. intros limit Hl. split; [done|]. exists budget, (script_words name script args).
    split_and!; [done|apply guarded_runs|done].
  - intros output _. eapply allows_bind; [by apply (allows_lift _ (fun _ => True))|]. intros out _. apply allows_parsed. by apply HQ.
Qed.

Ltac listed := unfold operations; repeat first [apply list_elem_of_here | apply list_elem_of_further].

Lemma allows_validate_staged s : allows (acting_on s) (fun _ => True) (validate_staged_step deadline plan s).
Proof.
  part. part. eapply allows_bind; [apply allows_context, allows_budgeted, allows_probe; by left|]. intros _ _.
  part. by apply allows_ret.
Qed.

Lemma allows_budget_step s : allows (acting_on s) (fun _ => True) (ensure_activation_budget_step deadline).
Proof. part. part. by apply allows_ret. Qed.

Lemma allows_activate s :
  allows (acting_on s) (fun a => staged a = s /\ activated_had_previous a = had_previous s) (activate_step deadline plan s).
Proof.
  part. part. eapply allows_bind.
  - apply allows_output. intros limit Hl. split; [done|]. eexists Forward, _. split_and!; [|apply guarded_runs|done]. listed.
  - intros output _. eapply allows_bind; [by apply (allows_lift _ (fun _ => True))|]. intros out _. part. apply allows_parsed.
    unfold parse_activation_stdout. intros b (fields & _ & Hk)%bind_Ok. apply bind_unit_Ok in Hk as [_ Hk].
    apply bind_Ok in Hk as (previous & _ & Hk). apply bind_unit_Ok in Hk as [Hp%fail_if_Ok [= <-]]. cbn.
    by apply negb_false_iff, eqb_prop in Hp.
Qed.

Lemma allows_validate_activated s b : allows (acting_on s) (fun _ => True) (validate_activated_step deadline b).
Proof.
  part. part. eapply allows_bind; [by apply allows_context, allows_budgeted, allows_probe|]. intros _ _.
  part. by apply allows_ret.
Qed.

Lemma allows_reconcile s :
  allows (acting_on s) (fun r => recovery_target_path r = target_path s) (reconcile_activation_step deadline plan s).
Proof.
  eapply allows_bind; [by apply allows_stop|]. intros _ _. part. part. eapply allows_operation; [listed|].
  unfold parse_reconciliation_stdout. intros out r (fields & _ & Hk)%bind_Ok. apply bind_unit_Ok in Hk as [_ Hk].
  by apply bind_Ok in Hk as (k & _ & [= <-]).
Qed.

Lemma allows_rollback s b :
  staged b = s -> activated_had_previous b = had_previous s ->
  allows (acting_on s) (fun r => rollback_target_path r = target_path s) (rollback_step deadline plan b).
Proof.
  intros <- Hp. eapply allows_bind; [by apply allows_stop|]. intros _ _. part. part. unfold rollback_command. rewrite Hp.
  eapply allows_operation; [listed|].
  unfold parse_rollback_stdout. intros out r (fields & _ & Hk)%bind_Ok. apply bind_unit_Ok in Hk as [_ Hk].
  apply bind_Ok in Hk as (k & _ & Hk). by apply bind_unit_Ok in Hk as [_ [= <-]].
Qed.

Lemma allows_cleanup s : allows (acting_on s) (fun _ => True) (cleanup_step deadline plan s).
Proof. part. part. eapply allows_operation; [listed|done]. Qed.

Lemma allows_recovered s hook hello completion failed invalid :
  executable_path hook = target_path s ->
  allows (acting_on s) (fun _ => True) (validate_recovered deadline plan hook hello completion failed invalid).
Proof.
  intros Hp. unfold validate_recovered. destruct (hook_mode hook); [by apply allows_lift|..].
  - part. eapply allows_bind; [apply allows_context, allows_budgeted, allows_probe; right; done|]. intros _ _.
    part. by apply allows_emit.
  - apply (allows_bind _ (fun _ => True)); [|intros _ _; by apply allows_emit]. unfold confirm_target_absent.
    eapply (allows_bind _ (fun _ => True)); [destruct (is_ok _); [apply allows_nonce | by apply allows_ret]|]. intros n _.
    apply (allows_bind _ (fun c => c = guard_command plan n (render_posix_script (B"nrm-agent-absence-check")
      POSIX_ABSENCE_CHECK_SCRIPT [target_path s]))).
    + apply allows_parsed. unfold absence_check_command. intros c [_ [= <-]]%bind_unit_Ok. by rewrite Hp.
    + intros c ->. eapply allows_operation; [listed|done].
Qed.

(** ** The transaction *)

Lemma allows_abandon s prefix e :
  allows (acting_on s) (fun _ => False) (@abandon _ (PosixSshInstallOps deadline plan) s prefix e).
Proof. eapply allows_run; [apply allows_cleanup|]. intros [[]|c] _; by apply allows_lift. Qed.

Lemma allows_recover s e : allows (acting_on s) (fun _ => False) (@recover _ (PosixSshInstallOps deadline plan) s e).
Proof.
  eapply allows_cases; [apply allows_reconcile|intros; by apply allows_lift|]. intros r Hr.
  apply (allows_cases _ (fun _ => True)); [|intros; by apply allows_lift..].
  eapply allows_bind; [apply allows_held|]. intros _ _. by apply allows_recovered.
Qed.

Lemma allows_roll_back s b e :
  staged b = s -> activated_had_previous b = had_previous s ->
  allows (acting_on s) (fun _ => False) (@roll_back _ (PosixSshInstallOps deadline plan) b e).
Proof.
  intros Hs Hp. eapply allows_cases; [by apply allows_rollback|intros; by apply allows_lift|]. intros r Hr.
  apply (allows_cases _ (fun _ => True)); [|intros; by apply allows_lift..].
  eapply allows_bind; [apply allows_held|]. intros _ _. by apply allows_recovered.
Qed.

(** A part that sends nothing, followed by the rest. *)
Lemma silent_bind {A B} (Q : A -> Prop) (m : IO A) (k : A -> IO B) w r w' :
  allows (fun _ => False) Q m -> (m ≫= k) w = (r, w') ->
  (exists e, r = Err e /\ events w' = events w) \/
  (exists a w1, Q a /\ events w1 = events w /\ k a w1 = (r, w')).
Proof.
  intros Hm E. unfold mbind, IO_bind in E. destruct (m w) as [[a|e] w1] eqn:E1; apply Hm in E1 as (new & Hnew & HF & HQ);
    (destruct new as [|x new]; [|by inversion HF]); rewrite app_nil_r in Hnew.
  - right. exists a, w1. auto.
  - injection E as <- <-. left. eauto.
Qed.

Lemma silent_take : allows (fun _ => False) (fun _ : bool => True) take_source.
Proof. intros w r w' [= <- <-]. exists []. by rewrite app_nil_r. Qed.

(** Staging sends one command, or fails before. *)
Lemma stage_events w r w' :
  stage_step deadline plan w = (r, w') ->
  (exists e, r = Err e /\ events w' = events w) \/
  exists e, events w' = events w ++ [e] /\ staging e /\ forall s, r = Ok s -> safe_staged plan s.
Proof.
  intros E. apply (silent_bind _ _ _ _ _ _ (allows_held _ _)) in E as [?|(_ & w1 & _ & <- & E)]; [by left|].
  apply (silent_bind _ _ _ _ _ _ silent_take) in E as [?|(b & w2 & _ & <- & E)]; [by left|].
  apply (silent_bind _ _ _ _ _ _ (allows_lift _ (fun _ => True) _ (fun _ _ => I))) in E as [?|(_ & w3 & _ & <- & E)]; [by left|].
  apply (silent_bind _ _ _ _ _ _ (allows_nonce _)) in E as [?|(n & w4 & _ & <- & E)]; [by left|].
  apply (silent_bind _ _ _ _ _ _ (allows_timeout _ _ _)) in E as [?|(limit & w5 & Hl & <- & E)]; [by left|]. right.
  assert (Hrest : forall (m : IO CapturedProcessOutput), allows (fun _ => False) (fun _ => True) m ->
    allows (fun _ => False) (safe_staged plan) (output ← m; out ← lift (require_success output);
      parsed (B"remote agent staging returned an invalid record") (parse_stage_stdout plan out))).
  { intros m Hm. eapply allows_bind; [exact Hm|]. intros output _. eapply allows_bind; [by apply (allows_lift _ (fun _ => True))|].
    intros out _. apply allows_parsed. intros s Hs. by apply parse_stage_Ok in Hs as [? _]. }
  exists (Sent (stage_command plan n) true limit).
  apply (Hrest (budgeted deadline Forward (B"remote agent staging") (look (fun k => run_at k (stage_command plan n))))) in E
    as (new & Hnew & HF & HQ); [|apply allows_budgeted, allows_look].
  destruct new; [|by inversion HF]. rewrite app_nil_r in Hnew. cbn in Hnew. split; [done|]. split; [|done].
  eexists _, limit. split_and!; [done|apply guarded_runs|done].
Qed.

(** Everything after the staging. *)
Definition after_staging (s : StagedInstall) (w : install_world) :
    result AgentInstallTransactionError ActivatedInstall * install_world :=
  let ops := PosixSshInstallOps deadline plan in
  match validate_staged s w with
  | (Err e, w) => abandon s (B"staged_validation_failed") e w
  | (Ok _, w) =>
      match ensure_activation_budget w with
      | (Err e, w) => abandon s (B"activation budget exhausted before target mutation") e w
      | (Ok _, w) =>
          match activate s w with
          | (Err e, w) => recover s e w
          | (Ok a, w) =>
              match validate_activated a w with
              | (Err e, w) => roll_back a e w
              | (Ok _, w) =>
                  match cleanup (staged a) w with
                  | (Err e, w) =>
                      (Err (install_transaction_error_with_timeout CandidateHealthy (is_bootstrap_timeout e)
                         (B"cleanup_failed: activated agent is healthy but backup cleanup failed: " ++ error_text e)), w)
                  | (Ok _, w) => (Ok a, w)
                  end
              end
          end
      end
  end.

Lemma allows_false {E A} (P : install_event -> Prop) (Q : A -> Prop) (m : install_world -> result E A * install_world) :
  allows P (fun _ => False) m -> allows P Q m.
Proof. intros Hm. eapply allows_weaken; [exact Hm | done]. Qed.

Lemma allows_after_staging s : allows (acting_on s) (fun a => staged a = s) (after_staging s).
Proof.
  eapply allows_cases; [apply allows_validate_staged|intros; apply allows_false, allows_abandon|]. intros _ _.
  eapply allows_cases; [apply allows_budget_step|intros; apply allows_false, allows_abandon|]. intros _ _.
  eapply allows_cases; [apply allows_activate|intros; apply allows_false, allows_recover|]. intros b [Hs Hp].
  eapply allows_cases; [apply allows_validate_activated|intros; by apply allows_false, allows_roll_back|]. intros _ _.
  rewrite Hs. eapply allows_cases; [apply allows_cleanup|intros; by apply allows_lift|].
  intros _ _. apply allows_lift. by intros ? [= <-].
Qed.

(** The events of a transaction that ended with [r]. *)
Definition installs (r : result AgentInstallTransactionError ActivatedInstall) (new : list install_event) : Prop :=
  new = [] \/ exists e rest, new = e :: rest /\ staging e /\
    (rest = [] \/ exists s, safe_staged plan s /\ Forall (acting_on s) rest /\ forall a, r = Ok a -> staged a = s).

Lemma transaction_installs w r w' :
  @run_agent_install_transaction _ (PosixSshInstallOps deadline plan) w = (r, w') ->
  exists new, events w' = events w ++ new /\ installs r new.
Proof.
  intros E. change (match stage_step deadline plan w with
    | (Err e, w1) => (Err (install_transaction_error_with_timeout TargetUnchanged (is_bootstrap_timeout e)
                        (install_phase_failure (B"staging_failed: failed to stage remote agent") e)), w1)
    | (Ok s, w1) => after_staging s w1 end = (r, w')) in E.
  destruct (stage_step deadline plan w) as [[s|e] w1] eqn:Es; apply stage_events in Es as [(e1 & [=] & He)|(ev & He & Hst & Hs)].
  - apply allows_after_staging in E as (new & Hnew & HF & HQ). exists (ev :: new). rewrite Hnew, He, <- app_assoc.
    split; [done|]. right. exists ev, new. split_and!; try done. right. exists s. split_and!; auto.
  - injection E as <- <-. exists []. rewrite app_nil_r. split; [done | by left].
  - injection E as <- <-. exists [ev]. split; [done|]. right. exists ev, []. split_and!; try done. by left.
Qed.
End Trace.

Lemma reserve_nonneg total : 0 <= total -> 0 <= recovery_reserve (deadline_new total).
Proof.
  intros Ht. cbn. unfold millis, BOOTSTRAP_RECOVERY_RESERVE_MIN_MS, BOOTSTRAP_RECOVERY_RESERVE_MAX_MS.
  pose proof (Z.div_pos total 2). lia.
Qed.

Lemma leased_plan_Ok base token ready plan :
  leased_plan base token ready = Ok plan ->
  validate_resolved_target (target_input plan) = Ok () /\ lease_token plan = Some token /\
  (starts_with (B"/") (target_input base) = true -> target_input plan = target_input base).
Proof.
  unfold leased_plan. intros (t & _ & (plan1 & Hb & Hs)%bind_Ok)%bind_Ok.
  unfold bind_resolved_lease_target in Hb. apply bind_unit_Ok in Hb as [Hr Hb]. apply bind_unit_Ok in Hb as [Ho%fail_if_Ok [= <-]].
  unfold set_lease_token in Hs. apply bind_unit_Ok in Hs as [_ [= <-]]. cbn. split_and!; try done. by apply other_target_false.
Qed.

Lemma resolved_absolute t : validate_resolved_target t = Ok () -> starts_with (B"/") t = true.
Proof. unfold validate_resolved_target. rewrite fail_if_Ok, !orb_false_iff, negb_false_iff. tauto. Qed.

(** C22 (safety) Whatever the host prints and whichever steps fail, an installation over ssh under a
    lease stays beside its target.  The target is the absolute path the lease was taken for,
    free of dot segments and control characters, and the one asked for if that was absolute.
    It uploads at most once; every command it sends is one that the remote shell splits into
    the guard script with that target and the lease's token, around one of the fixed scripts;
    all scripts after the upload get the target, stage and backup paths of one staging record,
    the latter two being the target's path with a separator and a plain word; only the stage
    and the target are started as agents; and every command has a positive timeout within the
    deadline, those before the activation within what leaves the reserve for recovery. *)
Theorem leased_install_stays_beside_target `{InstallScripts} `{InstallEnv} base token ready plan total w r w' :
  leased_plan base token ready = Ok plan -> 0 <= total -> (forall n, 0 <= elapsed_at n) ->
  @run_agent_install_transaction _ (PosixSshInstallOps (deadline_new total) plan) w = (r, w') ->
  validate_resolved_target (target_input plan) = Ok () /\ lease_token plan = Some token /\
  (starts_with (B"/") (target_input base) = true -> target_input plan = target_input base) /\
  exists new, events w' = events w ++ new /\
    (new = [] \/ exists e rest, new = e :: rest /\ staging (deadline_new total) plan e /\
      (rest = [] \/ exists s, target_path s = target_input plan /\ safe_staged plan s /\
         Forall (acting_on (deadline_new total) plan s) rest /\ forall a, r = Ok a -> staged a = s)).
Proof.
  intros (Ht & Hl & Hb)%leased_plan_Ok Htotal Hclock E. split_and!; try done.
  apply transaction_installs in E as (new & Hnew & Hi); [|done|by apply reserve_nonneg]. exists new. split; [done|].
  destruct Hi as [?|(e & rest & ? & ? & [?|(s & Hs & ?)])]; [by left|right; exists e, rest; auto..].
  split_and!; try done. right. exists s. split_and!; try naive_solver. by apply Hs, resolved_absolute.
Qed.

(** ** An installation that succeeds

    A host that answers every script. *)

#[local] Instance short_scripts : InstallScripts := {|
  POSIX_LEASE_SCRIPT := B"lease"; POSIX_LEASE_GUARD_SCRIPT := B"guard; eval it"; POSIX_STAGE_SCRIPT := B"cat >stage";
  POSIX_ACTIVATE_SCRIPT := B"mv stage 'target'"; POSIX_RECONCILE_SCRIPT := B"reconcile";
  POSIX_ROLLBACK_SCRIPT := B"mv backup target"; POSIX_ABSENCE_CHECK_SCRIPT := B"test ! -e target";
  POSIX_CLEANUP_SCRIPT := B"rm -f backup"; guard_digest n _ _ := repeat (byte_of n) 32 |}.

Definition home_target : bytes := B"/home/dev/.local/bin/nrm-agent".
Definition home_staged : StagedInstall := {|
  target_path := home_target; stage_path := home_target ++ B".nrm-stage.a1B2c3";
  backup_path := home_target ++ B".nrm-backup.Z9y8x7"; had_previous := true |}.
Definition answered (out : bytes) : result outside CapturedProcessOutput :=
  Ok {| success := true; status_code := Some 0; stdout := out; stderr := [] |}.
Definition no_answer : outside := {| cause := plain_error (B"connection lost"); timed_out := false |}.

(** Calls 2, 11 and 19 are the commands of a run without failures. *)
#[local] Instance willing_host : InstallEnv := {|
  elapsed_at n := millis (Z.of_nat n); held_at _ _ := Ok ();
  run_at n _ :=
    if Nat.eqb n 2 then answered (stage_record home_staged ++ [x0a])
    else if Nat.eqb n 11
    then answered (record ACTIVATED_RECORD [target_path home_staged; backup_path home_staged; B"1"] ++ [x0a])
    else if Nat.eqb n 19 then answered (record CLEANED_RECORD [target_path home_staged] ++ [x0a])
    else Err no_answer;
  probe_at _ _ := Ok (); probe_restored_at _ _ := Ok (); probe_normal_at _ := Ok (); kill_worker_at _ := Ok () |}.

Definition lease : bytes := repeat x5a 16 ≫= hex_byte.
Definition base_plan : PosixInstallPlan :=
  match prepared_plan (B"~/.local/bin/nrm-agent") (B"0.2.0") 8 false (repeat x3c 32 ≫= hex_byte) with
  | Ok plan => plan
  | Err _ => {| target_input := []; expected_version := []; expected_sha256 := None; expected_protocol_version := 0;
                force := false; lease_token := None |}
  end.
Definition ready_line : bytes := record LEASE_READY_RECORD [home_target; lease] ++ [x0a].
Definition home_plan : PosixInstallPlan :=
  match leased_plan base_plan lease ready_line with Ok plan => plan | Err _ => base_plan end.
Definition fresh_world : install_world := {| looks := 0; nonce := 7; source := true; events := [] |}.
Definition home_run : result AgentInstallTransactionError ActivatedInstall * install_world :=
  @run_agent_install_transaction _ (PosixSshInstallOps (deadline_new (millis 60000)) home_plan) fresh_world.

(** The upload, a probe of the stage, the activation, a probe of the agent, and the cleanup. *)
Lemma leased_install_stays_beside_target_witness :
  leased_plan base_plan lease ready_line = Ok home_plan /\
  fst home_run = Ok {| staged := home_staged; activated_had_previous := true |} /\
  length (events (snd home_run)) = 5%nat /\
  exists s, target_path s = home_target /\ safe_staged home_plan s /\
    Forall (acting_on (deadline_new (millis 60000)) home_plan s) (drop 1 (events (snd home_run))).
Proof.
  assert (Hl : leased_plan base_plan lease ready_line = Ok home_plan) by (vm_compute; reflexivity).
  assert (He : length (events (snd home_run)) = 5%nat) by (vm_compute; reflexivity).
  assert (Ht : target_input home_plan = home_target) by (vm_compute; reflexivity).
  split; [exact Hl|]. split; [vm_compute; reflexivity|]. split; [exact He|].
  destruct (leased_install_stays_beside_target base_plan lease ready_line home_plan (millis 60000) fresh_world
    (fst home_run) (snd home_run) Hl) as (_ & _ & _ & new & Hnew & Hi).
  - vm_compute. discriminate.
  - intros n. unfold elapsed_at, willing_host, millis. lia.
  - unfold home_run. apply surjective_pairing.
  - cbn [events fresh_world app] in Hnew. rewrite Hnew in He |- *.
    destruct Hi as [->|(e & rest & -> & _ & [->|(s & Hs & Hsafe & HF & _)])]; [discriminate He | discriminate He |].
    exists s. rewrite <- Ht. split; [exact Hs|]. split; [exact Hsafe | exact HF].
Defined.
